(* ===== verification/_CoqProject ===== *)
-Q . S2P
Prelude.v
Intset.v
Dict.v
DictRefine.v
DictScan.v
Adlist.v
Util.v
Args.v
Networking.v
NetSafety.v
Replication.v
Multi.v
Transactions.v
Exec.v
Listpack.v
Score.v
Skiplist.v
ZslOps.v
Zset.v
Glob.v
Pubsub.v
Notify.v
Crc.v
Lzf.v
Rio.v
Rdb.v
Bitops.v
Cluster.v
ClusterInv.v
ClusterSafe.v
ClusterNodes.v
ClusterPackets.v
ClusterEvents.v
ClusterClaims.v
ClusterVotes.v
