(* ===== verification/Prelude.v ===== *)
(** * A verification development for Redis 5

    Redis is an in-memory data store: a single-threaded server that reads commands
    from clients, runs them on a keyspace of typed objects, and persists the
    keyspace to disk.  This library models the parts of src/redis5/src that carry
    the algorithms everything else relies on, and proves them correct.

    ** Parts and files

    Containers and encodings:
    - [Prelude] (this file): machine integers as [Z] with the wrap-around written
      out ([uN], [sN]), raw memory as a list of byte-valued [Z] with checked
      accesses, little-endian integers, arrays of cells in a byte buffer, sorted
      lists, and the tactics and hint databases the components share.
    - [Intset] (intset.c): sets of integers as a packed, sorted byte array with
      three element widths, upgraded in place.
    - [Dict], [DictRefine], [DictScan] (dict.c, dict.h): the hash table that
      implements the keyspace and most containers: two tables, incremental
      rehashing, resizing, chains, cursor scan, iterators.  The class [DictType]
      is the table of callbacks of the source; [DictTypeLaws] is what a client
      promises about its hash and compare functions, and the theorems are proved
      against it for every such type.
    - [Adlist] (adlist.c, adlist.h): doubly linked lists over a heap of nodes.  The
      class [Allocator] is what is assumed of memory allocation.
    - [Listpack] (listpack.c): sequences of strings and integers packed in one
      block, at byte level.
    - [Score], [Skiplist], [ZslOps], [Zset] (t_zset.c): sorted sets.  [Score] is the
      order of scores (doubles) and the ranges; [Skiplist] the nodes, levels and
      spans on a heap, with insertion and deletion; [ZslOps] ranks, ranges and the
      update of scores; [Zset] the pair of hash table and skip list that is the
      sorted set, against the interface [HashTable] with its laws.
    - [Lzf] (lzf_c.c, lzf_d.c): the compressor and the decompressor.
    - [Rio] (rio.c, rio.h): streams with checksum and chunking.  The class [RioOps]
      is the table of backend functions of the source and [RioLaws] its contract;
      the memory buffer is an instance.
    - [Rdb] (the string layer of rdb.c): lengths, integers, plain and compressed
      strings on any stream that satisfies [RioLaws]; calls [Util], [Lzf], [Rio].
    - [Bitops] (bitops.c): population count, bit search, bitfields, overflow.

    Strings:
    - [Util] (util.c, the integer part of sds.c): conversions between integers and
      strings, and sizes with units.
    - [Args] (sdssplitargs and sdscatrepr of sds.c): splitting a line into quoted
      arguments.
    - [Glob] (util.c, stringmatchlen): glob patterns.
    - [Notify] (notify.c): classes and messages of keyspace notifications; calls
      [Util].
    - [Crc] (crc16.c, crc64.c, keyHashSlot of cluster.c): the two checksums and the
      hash slots of a cluster.

    The server:
    - [Networking], [NetSafety] (networking.c, the unblocking of clients of
      blocked.c): from the bytes that arrive on a connection to commands: the query
      buffer, the two request formats, clients that are masters, clients that are
      blocked and resumed.  Calls [Args] and [Util].  The class [Server] is what the
      parser calls to execute a command; a command may refuse, rewrite its
      arguments, block or close the client, pause all clients or leave a script
      running.  [CommandLaws] is what is required of it (it leaves the unread input
      alone, blocks only in the ways [unblockClient] knows, returns an error only for
      a client that is to be closed, and does not make a client a master, free a
      master or end one) and [LimitsFit] of the configured limits.
    - [Replication] (replication.c): the stream of a master, its backlog, and partial
      resynchronization; the bytes it produces are read by [Networking] on the
      replica.
    - [Multi], [Transactions], [Exec] (server.c, multi.c): the execution of commands.
      [Multi] is processCommand with its guards, call, propagation, and the commands
      MULTI, EXEC, DISCARD, WATCH and UNWATCH, for any set of other handlers: the
      class [Commands] gives each handler as the list of its effects;
      [CommandsLaws] and [SignalLaws] are what is required of them.  [Transactions]
      has the invariants and [Exec] the theorems.
    - [Pubsub] (pubsub.c): subscriptions to channels and patterns, and publishing;
      calls [Glob].
    - [Cluster] (cluster.c): a node of a cluster.  Nodes and links are objects on a
      heap with the pointers of the source; the handlers of packets, of the timer and
      of the commands that change the configuration are programs of a state monad in
      which a failed assertion, a null or a freed pointer stops the process.  The
      class [World] is what a node cannot foresee: random numbers and names, the
      order of a hash table, the outcome of connecting.  [ClusterInv] has the
      well-formedness invariant and the rules to reason about programs, [ClusterSafe],
      [ClusterNodes] and [ClusterPackets] its preservation by the operations on
      slots and roles, by the creation and deletion of nodes, and by packets, and
      [ClusterEvents] the runs of a node as a transition system.  [ClusterClaims]
      and [ClusterVotes] have the theorems, with concrete runs.

    Each file translates the functions of its source one by one under their own
    names.  Loops become fixpoints named after the function they are part of, and
    code that mutates a structure takes and returns it.  Where the source reads or
    writes memory, follows a pointer, shifts, or negates, the definition returns
    an [option] whose [None] is undefined behaviour (an access out of bounds, a
    freed or null pointer, an overflow the standard leaves open) or a failed
    assertion.  A theorem that gives [Some] is therefore also a proof of memory
    safety, and a definition that runs out of fuel gives [None] too, so that it is
    a proof of termination as well.

    ** What is proved

    - Refinement of an abstract data type, for all sequences of operations:
      [dict_refines_map] and [zset_refines_map] (finite maps),
      [intset_refines_set] (finite sets), [adlist_refines_sequence] and
      [listpack_refines_sequence] (sequences), [pubsub_refines_relation] (a relation
      between clients and channels).
    - The path of a command: [request_stream_parsed] (however the bytes of a stream
      of requests are cut, and however clients are blocked and resumed in between,
      the requests executed are a prefix of them, in order, and all that can be
      executed),
      [request_parser_safe] (no input makes the parser fail an assertion or leave
      its buffers), [replication_consistent], [partial_resync_exact] and
      [replica_follows_master] (replicas execute the commands of their master),
      [replication_stream_proxied].
    - Transactions: [exec_all_or_nothing], [exec_is_check_and_set] (EXEC does not run
      when a watched key has changed), [exec_propagated_as_block],
      [server_keeps_invariant] (no assertion of multi.c fails).
    - Publishing: [publish_delivers_exactly].
    - Clustering, for the packets and commands that [event_ok] admits (its comment and
      the theorems list what it leaves out): [cluster_never_stops] (no event makes a
      node fail an assertion or use a freed object), [reachable_well_formed] (the
      tables of nodes and slots, the bitmaps, the roles and the links agree in every
      reachable state), [packet_link_valid]; for all packets,
      [vote_once] and [one_winner_per_epoch] (elections).
    - Guarantees during change: [dictScan_guarantee] (a key present throughout a
      scan is returned although the table is resized between calls),
      [iterator_visits_all], [dictRehash_completes], [iteration_with_deletion].
    - Order and ranges of sorted sets: [zsl_reachable_sorted], [zsl_rank_roundtrip],
      [zsl_ranges_correct].
    - Round trips: [lzf_roundtrip], [rdb_string_roundtrip], [rdb_len_roundtrip],
      [sdssplitargs_roundtrip], [ll2string_string2ll_roundtrip], the bitfield and
      the notification ones.
    - Exact input languages: [string2ll_exact], [rdbTryIntegerEncoding_exact],
      [stringmatchlen_correct] against an inductive matching relation,
      [keyspaceEventsStringToFlags_correct], [memtoll_correct].
    - Optimised code against a reference: the CRC tables against polynomial
      division and the bit-serial register, [redisPopcount_correct],
      [redisBitpos_correct], [rev_reverses].
    - Robustness: [lzf_decompress_safe] for every corrupted input,
      [crc64_detects_burst], the overflow checks of bitfields, and the limits the
      models exposed ([intsetAdd_size_overflow], [dictExpand_size_overflow],
      [lpAppend_size_overflow], [rdb_length_wraps], [signed_bitfield_64_undefined],
      [checkSignedBitfieldOverflow_limits], [lzf_compress_one_byte],
      [rdb_empty_lzf_block], [star_misses_empty], [memtoll_no_digits], and the runs
      [exec_lost_after_save], [readonly_refusal_not_flagged],
      [replicate_handshake_crash] and [stale_ack_wins]).

    ** Bounds and fuel

    Structures are bounded where the source's integer types bound them: fewer
    than 2^59 dictionary calls with explicit expansions to at most 2^60
    buckets, fewer than 2^28
    intset operations, listpacks below 2^32 bytes with strings of at most 2^32 - 6,
    skip lists below 2^32 - 1 entries, inputs of the compressor below 2^32 bytes,
    strings in a dump and the names of channels and patterns below 2^31 bytes, bitmaps
    below 2^64 bits, query buffers below 2^61 bytes, replication streams below 2^63
    and runs of a cluster node in which no epoch reaches 2^64.
    Fuel is a number the model computes from its input (the
    length of a buffer, the number of nodes of a heap, the digits of a 64-bit
    number, the nesting of EXEC), and every theorem about a loop shows that it is
    enough.  Pointers to bytes are offsets; where the source looks at an address
    (alignment in bitops.c) it is an argument.  Hosts are little endian with a
    64-bit [long], and the stored formats are little endian as in the source.

    ** What is not modelled

    System calls, sockets, the event loop and threads; the handlers of the data
    type commands and the object layer; full resynchronization, the replica's
    handshake, the append only file and sentinel; the configuration file of a
    cluster node, the bytes of the messages of the cluster bus, the subcommands of
    CLUSTER that only report, and DUMP, RESTORE and MIGRATE; scripting and modules;
    and the containers ziplist, quicklist, radix tree and stream.  Doubles are the
    order on their values, not their arithmetic.  The order planned is: the
    ziplist encoding, quicklist on top of it, the radix tree as a refinement of
    finite maps, expiry and eviction on the keyspace, and the object encodings of
    rdb.c. *)

From stdpp Require Export base list list_numbers numbers option gmap.
From Stdlib Require Export ZArith Lia Sorted.
#[global] Unset Asymmetric Patterns.

Declare Scope redis_scope.
Delimit Scope redis_scope with redis.
#[global] Open Scope Z_scope.

(** ** Automation *)

Create HintDb redis.
Create Rewrite HintDb machine.
Create Rewrite HintDb zlen.

(** Decide the boolean integer tests that occur in a goal or a hypothesis. *)
Ltac zbool :=
  repeat match goal with
  | H : _ && _ = true |- _ => apply andb_true_iff in H; destruct H
  | H : _ || _ = false |- _ => apply orb_false_iff in H; destruct H
  | H : negb _ = true |- _ => apply negb_true_iff in H
  | H : negb _ = false |- _ => apply negb_false_iff in H
  | H : (_ <=? _) = true |- _ => apply Z.leb_le in H
  | H : (_ <=? _) = false |- _ => apply Z.leb_gt in H
  | H : (_ <? _) = true |- _ => apply Z.ltb_lt in H
  | H : (_ <? _) = false |- _ => apply Z.ltb_ge in H
  | H : (_ =? _) = true |- _ => apply Z.eqb_eq in H
  | H : (_ =? _) = false |- _ => apply Z.eqb_neq in H
  | H : (_ >? _) = true |- _ => rewrite Z.gtb_ltb in H
  | H : (_ >? _) = false |- _ => rewrite Z.gtb_ltb in H
  | H : (_ >=? _) = true |- _ => rewrite Z.geb_leb in H
  | H : (_ >=? _) = false |- _ => rewrite Z.geb_leb in H
  end.

(** Case split on the first integer test that blocks the goal. *)
Ltac zcase :=
  match goal with
  | |- context [if ?b then _ else _] =>
      let E := fresh "Hb" in destruct b eqn:E; zbool
  end.

(** Settle an [if] whose integer condition follows from the context. *)
Ltac zif_true :=
  match goal with
  | |- context [if ?b then _ else _] =>
      replace b with true by
        (symmetry; rewrite ?andb_true_iff, ?orb_true_iff, ?negb_true_iff, ?Z.gtb_ltb, ?Z.geb_leb,
           ?Z.leb_le, ?Z.ltb_lt, ?Z.eqb_eq, ?Z.leb_gt, ?Z.ltb_ge, ?Z.eqb_neq; repeat split; lia)
  end.
Ltac zif_false :=
  match goal with
  | |- context [if ?b then _ else _] =>
      replace b with false by
        (symmetry; rewrite ?andb_false_iff, ?orb_false_iff, ?negb_false_iff, ?Z.gtb_ltb, ?Z.geb_leb,
           ?Z.leb_le, ?Z.ltb_lt, ?Z.eqb_eq, ?Z.leb_gt, ?Z.ltb_ge, ?Z.eqb_neq; lia)
  end.

(** Run the option monad over a step whose result is known. *)
Ltac mrun := cbn [mbind option_bind fmap option_fmap option_map].

(** Case split the boolean guards of a hypothesis. *)
Ltac zcase_in H :=
  match type of H with
  | context [if ?b then _ else _] =>
      let E := fresh "Hb" in destruct b eqn:E; zbool
  end.

(** ** Machine integers *)

Definition INT16_MIN := -32768.
Definition INT16_MAX := 32767.
Definition INT32_MIN := -2147483648.
Definition INT32_MAX := 2147483647.
Definition LLONG_MIN := -9223372036854775808.
Definition LLONG_MAX := 9223372036854775807.
Definition ULLONG_MAX := 18446744073709551615.

(** [uN n x] is the value of [x] converted to an unsigned [n]-bit type, [sN n x]
    to a two's complement signed one. *)
Definition uN (n x : Z) : Z := x mod 2 ^ n.
Definition sN (n x : Z) : Z := (x + 2 ^ (n - 1)) mod 2 ^ n - 2 ^ (n - 1).

Abbreviation u8 := (uN 8).
Abbreviation u16 := (uN 16).
Abbreviation u32 := (uN 32).
Abbreviation u64 := (uN 64).
Abbreviation s8 := (sN 8).
Abbreviation s16 := (sN 16).
Abbreviation s32 := (sN 32).
Abbreviation s64 := (sN 64).

Definition in_s64 (x : Z) : Prop := LLONG_MIN <= x <= LLONG_MAX.
Definition in_u64 (x : Z) : Prop := 0 <= x <= ULLONG_MAX.

Lemma pow2_pos n : 0 <= n -> 0 < 2 ^ n.
Proof. intros; apply Z.pow_pos_nonneg; lia. Qed.

Lemma uN_id n x : 0 <= x < 2 ^ n -> uN n x = x.
Proof. intros; unfold uN; apply Z.mod_small; lia. Qed.

Lemma uN_range n x : 0 <= n -> 0 <= uN n x < 2 ^ n.
Proof. intros; unfold uN; apply Z.mod_pos_bound, pow2_pos; lia. Qed.

Lemma sN_id n x : - 2 ^ (n - 1) <= x < 2 ^ (n - 1) -> 1 <= n -> sN n x = x.
Proof.
  intros Hx Hn. unfold sN.
  assert (2 ^ n = 2 * 2 ^ (n - 1)).
  { rewrite <- Z.pow_succ_r by lia. f_equal; lia. }
  rewrite Z.mod_small by lia. lia.
Qed.

Lemma sN_range n x : 1 <= n -> - 2 ^ (n - 1) <= sN n x < 2 ^ (n - 1).
Proof.
  intros Hn. unfold sN.
  assert (2 ^ n = 2 * 2 ^ (n - 1)).
  { rewrite <- Z.pow_succ_r by lia. f_equal; lia. }
  pose proof (Z.mod_pos_bound (x + 2 ^ (n - 1)) (2 ^ n) (pow2_pos n ltac:(lia))). lia.
Qed.

(** Reading back a value stored in [n] bits as a signed value of that width. *)
Lemma sN_uN n x : 1 <= n -> - 2 ^ (n - 1) <= x < 2 ^ (n - 1) -> sN n (uN n x) = x.
Proof.
  intros Hn Hx. unfold sN, uN.
  rewrite Zplus_mod_idemp_l. fold (sN n x). apply sN_id; lia.
Qed.

Lemma s32_id x : INT32_MIN <= x <= INT32_MAX -> s32 x = x.
Proof. intros; apply sN_id; unfold INT32_MIN, INT32_MAX in *; simpl; lia. Qed.
Lemma s64_id x : in_s64 x -> s64 x = x.
Proof. intros; apply sN_id; unfold in_s64, LLONG_MIN, LLONG_MAX in *; simpl; lia. Qed.
Lemma u32_id x : 0 <= x < 4294967296 -> u32 x = x.
Proof. intros; apply uN_id; simpl; lia. Qed.
Lemma u64_id x : in_u64 x -> u64 x = x.
Proof. intros; apply uN_id; unfold in_u64, ULLONG_MAX in *; simpl; lia. Qed.

#[export] Hint Rewrite s32_id s64_id u32_id u64_id
  using (unfold in_s64, in_u64, INT32_MIN, INT32_MAX, LLONG_MIN, LLONG_MAX, ULLONG_MAX in *; lia)
  : machine.

(** Disjoint bit patterns add up to their union. *)
Lemma lor_disjoint a b : Z.land a b = 0 -> Z.lor a b = a + b.
Proof. intros E. pose proof (Z.add_lor_land a b). lia. Qed.

(** A field above [k] low bits. *)
Lemma lor_low k a b : 0 <= k -> 0 <= a < 2 ^ k -> Z.lor a (Z.shiftl b k) = a + b * 2 ^ k.
Proof.
  intros Hk Ha. rewrite lor_disjoint; [by rewrite Z.shiftl_mul_pow2 by lia|].
  apply Z.bits_inj'. intros i Hi. rewrite Z.land_spec, Z.bits_0.
  destruct (Z.lt_ge_cases i k) as [Hlt|Hge].
  - rewrite Z.shiftl_spec_low by lia. apply andb_false_r.
  - rewrite <- (Z.mod_small a (2 ^ k)) by lia. by rewrite Z.mod_pow2_bits_high by lia.
Qed.

Lemma uN_bits n x i : 0 <= n -> 0 <= i -> Z.testbit (uN n x) i = (i <? n) && Z.testbit x i.
Proof.
  intros Hn Hi. unfold uN. destruct (Z.ltb_spec i n); simpl.
  - by apply Z.mod_pow2_bits_low.
  - by apply Z.mod_pow2_bits_high; lia.
Qed.

(** ** Lists with [Z] indices *)

Definition zlen {A} (l : list A) : Z := Z.of_nat (length l).

Lemma zlen_nonneg {A} (l : list A) : 0 <= zlen l.
Proof. unfold zlen; lia. Qed.
Lemma zlen_nil {A} : zlen (@nil A) = 0.
Proof. reflexivity. Qed.
Lemma zlen_cons {A} (x : A) l : zlen (x :: l) = 1 + zlen l.
Proof. unfold zlen; simpl; lia. Qed.
Lemma zlen_app {A} (l k : list A) : zlen (l ++ k) = zlen l + zlen k.
Proof. unfold zlen; rewrite length_app; lia. Qed.
#[export] Hint Rewrite @zlen_nil @zlen_cons @zlen_app : zlen.

Lemma split_at {A} (l : list A) (n : nat) :
  (n <= length l)%nat -> exists a b, l = a ++ b /\ length a = n.
Proof.
  intros. exists (take n l), (drop n l). split.
  - symmetry; apply take_drop.
  - rewrite length_take; lia.
Qed.

Lemma filter_all {A} (P : A -> Prop) `{!forall x, Decision (P x)} (l : list A) :
  Forall P l -> filter P l = l.
Proof. induction 1; [done|]. rewrite filter_cons_True by done. by f_equal. Qed.

Lemma filter_none {A} (P : A -> Prop) `{!forall x, Decision (P x)} (l : list A) :
  Forall (fun x => ~ P x) l -> filter P l = [].
Proof. induction 1; [done|]. by rewrite filter_cons_False. Qed.

(** A finite check by evaluation: a boolean that holds of every number below [n]. *)
Lemma forall_below (P : Z -> bool) (n : nat) :
  forallb (fun k => P (Z.of_nat k)) (seq 0 n) = true ->
  forall r, 0 <= r < Z.of_nat n -> P r = true.
Proof.
  intros Hall r Hr. rewrite forallb_forall in Hall. specialize (Hall (Z.to_nat r)).
  rewrite Z2Nat.id in Hall by lia. apply Hall, in_seq. lia.
Qed.

(** ** Raw memory *)

Definition is_byte (b : Z) : Prop := 0 <= b < 256.
Definition bytes_ok (l : list Z) : Prop := Forall is_byte l.

(** [memcpy] out of a buffer, into it, and [memmove] inside it.  An access that
    is not inside the allocation is undefined behaviour and gives [None]. *)
Definition mem_read (l : list Z) (off n : Z) : option (list Z) :=
  if (0 <=? off) && (0 <=? n) && (off + n <=? zlen l)
  then Some (take (Z.to_nat n) (drop (Z.to_nat off) l)) else None.

Definition mem_write (l : list Z) (off : Z) (bs : list Z) : option (list Z) :=
  if (0 <=? off) && (off + zlen bs <=? zlen l)
  then Some (take (Z.to_nat off) l ++ bs ++ drop (Z.to_nat (off + zlen bs)) l) else None.

Definition mem_move (l : list Z) (dst src n : Z) : option (list Z) :=
  bs ← mem_read l src n; mem_write l dst bs.

(** [l[i]], and [l[i] = b] on a byte buffer. *)
Definition zget {A} (l : list A) (i : Z) : option A := if 0 <=? i then l !! Z.to_nat i else None.
Definition put (dst : list Z) (i b : Z) : option (list Z) := mem_write dst i [b].

(** [zrealloc]: the common prefix is kept, and bytes of a grown block hold
    whatever [poison] the allocator left there. *)
Definition mem_realloc (poison : Z) (l : list Z) (n : Z) : list Z :=
  take (Z.to_nat n) l ++ replicate (Z.to_nat n - length l) poison.

Lemma mem_read_app a b c :
  mem_read (a ++ b ++ c) (zlen a) (zlen b) = Some b.
Proof.
  unfold mem_read. rewrite !zlen_app.
  pose proof (zlen_nonneg a); pose proof (zlen_nonneg b); pose proof (zlen_nonneg c).
  zif_true. unfold zlen. rewrite !Nat2Z.id, drop_app_length, take_app_length. done.
Qed.

Lemma mem_write_app a b c b' :
  zlen b' = zlen b -> mem_write (a ++ b ++ c) (zlen a) b' = Some (a ++ b' ++ c).
Proof.
  intros Hb. unfold mem_write. rewrite !zlen_app, Hb.
  pose proof (zlen_nonneg a); pose proof (zlen_nonneg b); pose proof (zlen_nonneg c).
  zif_true. f_equal.
  replace (Z.to_nat (zlen a)) with (length a) by (unfold zlen; lia).
  replace (Z.to_nat (zlen a + zlen b)) with (length a + length b)%nat by (unfold zlen; lia).
  rewrite take_app_length. do 2 f_equal.
  rewrite app_assoc. rewrite drop_app_ge by (rewrite length_app; lia).
  rewrite length_app. replace (_ - _)%nat with 0%nat by lia. done.
Qed.

Lemma zget_app {A} (pre rest : list A) x i : i = zlen pre -> zget (pre ++ x :: rest) i = Some x.
Proof.
  intros ->. unfold zget, zlen. zif_true. rewrite Nat2Z.id, lookup_app_r by lia.
  by rewrite Nat.sub_diag.
Qed.

Lemma put_app a x c b i : i = zlen a -> put (a ++ x :: c) i b = Some (a ++ b :: c).
Proof. intros ->. exact (mem_write_app a [x] c [b] eq_refl). Qed.

Lemma zget_Some {A} (l : list A) i : 0 <= i < zlen l -> exists x, zget l i = Some x.
Proof.
  intros Hi. unfold zget. zif_true. apply lookup_lt_is_Some_2. unfold zlen in Hi. lia.
Qed.

Lemma zget_bytes l i x : bytes_ok l -> zget l i = Some x -> is_byte x.
Proof.
  unfold zget. intros Hl H. destruct (0 <=? i); [|done]. by eapply Forall_lookup in H.
Qed.

Lemma mem_read_Some l off n bs :
  mem_read l off n = Some bs -> 0 <= off /\ 0 <= n /\ off + n <= zlen l /\ zlen bs = n.
Proof.
  unfold mem_read. intros H. zcase_in H; [|done]. injection H as <-.
  unfold zlen in *. rewrite length_take, length_drop. lia.
Qed.

Lemma mem_read_safe l off n :
  0 <= off -> 0 <= n -> off + n <= zlen l ->
  mem_read l off n = Some (take (Z.to_nat n) (drop (Z.to_nat off) l)).
Proof. intros. unfold mem_read. by zif_true. Qed.

Lemma mem_write_safe l off bs :
  0 <= off -> off + zlen bs <= zlen l ->
  mem_write l off bs
  = Some (take (Z.to_nat off) l ++ bs ++ drop (Z.to_nat (off + zlen bs)) l).
Proof. intros. unfold mem_write. by zif_true. Qed.

Lemma mem_write_zlen l off bs l' : mem_write l off bs = Some l' -> zlen l' = zlen l.
Proof.
  unfold mem_write. intros H. zcase_in H; [|done]. injection H as <-.
  unfold zlen in *. rewrite !length_app, length_take, length_drop. lia.
Qed.

(** [memmove] that opens a gap before [b], over the room left after it. *)
Lemma mem_move_up a b room :
  exists x, zlen x = zlen room /\
    mem_move (a ++ b ++ room) (zlen a + zlen room) (zlen a) (zlen b) = Some (a ++ x ++ b).
Proof.
  unfold mem_move. rewrite mem_read_app. cbn [mbind option_bind].
  exists (take (length room) (b ++ room)). split.
  { unfold zlen. rewrite length_take, length_app. lia. }
  rewrite mem_write_safe
    by (rewrite ?zlen_app; pose proof (zlen_nonneg a); pose proof (zlen_nonneg room); lia).
  replace (Z.to_nat (zlen a + zlen room)) with (length a + length room)%nat by (unfold zlen; lia).
  replace (Z.to_nat (zlen a + zlen room + zlen b)) with (length a + length b + length room)%nat
    by (unfold zlen; lia).
  rewrite take_app_add, (drop_ge (a ++ b ++ room)) by (rewrite !length_app; lia).
  by rewrite app_nil_r, <- app_assoc.
Qed.

(** [memmove] that closes the gap [c]; the old tail stays behind it. *)
Lemma mem_move_down a c b :
  exists x, zlen x = zlen c /\
    mem_move (a ++ c ++ b) (zlen a) (zlen a + zlen c) (zlen b) = Some (a ++ b ++ x).
Proof.
  unfold mem_move. rewrite app_assoc, <- zlen_app.
  assert (mem_read ((a ++ c) ++ b) (zlen (a ++ c)) (zlen b) = Some b) as ->.
  { pose proof (mem_read_app (a ++ c) b []) as H. by rewrite app_nil_r in H. }
  cbn [mbind option_bind].
  exists (drop (length b) (c ++ b)). split.
  { unfold zlen. rewrite length_drop, length_app. lia. }
  rewrite mem_write_safe
    by (rewrite ?zlen_app; pose proof (zlen_nonneg a); pose proof (zlen_nonneg c); lia).
  replace (Z.to_nat (zlen a + zlen b)) with (length a + length b)%nat by (unfold zlen; lia).
  replace (Z.to_nat (zlen a)) with (length a) by (unfold zlen; lia).
  by rewrite <- app_assoc, take_app_length, drop_app_add.
Qed.

Lemma mem_realloc_zlen p l n : 0 <= n -> zlen (mem_realloc p l n) = n.
Proof.
  intros. unfold mem_realloc, zlen. rewrite length_app, length_take, length_replicate. lia.
Qed.

Lemma mem_realloc_grow p l n :
  zlen l <= n -> mem_realloc p l n = l ++ replicate (Z.to_nat (n - zlen l)) p.
Proof.
  unfold mem_realloc, zlen. intros. rewrite take_ge by lia. do 2 f_equal. lia.
Qed.

Lemma mem_realloc_shrink p l n :
  n <= zlen l -> mem_realloc p l n = take (Z.to_nat n) l.
Proof.
  unfold mem_realloc, zlen. intros. replace (_ - _)%nat with 0%nat by lia.
  by rewrite app_nil_r.
Qed.

(** ** Little-endian integers *)

Fixpoint le_val (bs : list Z) : Z :=
  match bs with
  | [] => 0
  | b :: bs => b + 256 * le_val bs
  end.

Fixpoint le_bytes (n : nat) (x : Z) : list Z :=
  match n with
  | O => []
  | S n => x mod 256 :: le_bytes n (x / 256)
  end.

Lemma le_bytes_length n x : length (le_bytes n x) = n.
Proof. revert x; induction n; intros; simpl; auto. Qed.

Lemma le_bytes_zlen n x : zlen (le_bytes n x) = Z.of_nat n.
Proof. unfold zlen; by rewrite le_bytes_length. Qed.

Lemma le_bytes_ok n x : bytes_ok (le_bytes n x).
Proof.
  revert x; induction n; intros; simpl; constructor; [|apply IHn].
  unfold is_byte. apply Z.mod_pos_bound; lia.
Qed.

Lemma le_val_bytes n x : le_val (le_bytes n x) = uN (8 * Z.of_nat n) x.
Proof.
  unfold uN. revert x; induction n as [|n IH]; intros x.
  - simpl. by rewrite Z.mod_1_r.
  - cbn [le_bytes le_val]. rewrite IH.
    replace (8 * Z.of_nat (S n)) with (8 + 8 * Z.of_nat n) by lia.
    rewrite Z.pow_add_r by lia. change (2 ^ 8) with 256.
    rewrite Z.rem_mul_r by (apply Z.pow_nonzero || apply Z.pow_pos_nonneg || idtac; lia). done.
Qed.

Lemma le_val_range l : bytes_ok l -> 0 <= le_val l < 2 ^ (8 * zlen l).
Proof.
  induction 1 as [|b l Hb _ IH]; [vm_compute; split; congruence|].
  rewrite zlen_cons. replace (8 * (1 + zlen l)) with (8 + 8 * zlen l) by lia.
  rewrite Z.pow_add_r by (pose proof (zlen_nonneg l); lia).
  change (2 ^ 8) with 256. unfold is_byte in Hb. simpl le_val. nia.
Qed.

Lemma le_bytes_val l : bytes_ok l -> le_bytes (length l) (le_val l) = l.
Proof.
  induction 1 as [|b l Hb _ IH]; [done|]. unfold is_byte in Hb. cbn [length le_bytes le_val].
  f_equal.
  - rewrite Z.mul_comm, Z_mod_plus_full. apply Z.mod_small; lia.
  - rewrite Z.mul_comm, Z.div_add by lia. rewrite Z.div_small by lia. apply IH.
Qed.

(** A signed [n]-byte integer stored and read back. *)
Lemma le_signed_roundtrip n x :
  (1 <= n)%nat -> - 2 ^ (8 * Z.of_nat n - 1) <= x < 2 ^ (8 * Z.of_nat n - 1) ->
  sN (8 * Z.of_nat n) (le_val (le_bytes n x)) = x.
Proof. intros. rewrite le_val_bytes. apply sN_uN; lia. Qed.

(** ** Arrays of fixed-size cells inside a byte buffer *)

Section Cells.
Context (sz : nat) (f : Z -> list Z) (Hf : forall x, length (f x) = sz).

Definition cells (vs : list Z) : list Z := vs ≫= f.

Lemma cells_app a b : cells (a ++ b) = cells a ++ cells b.
Proof. unfold cells. apply bind_app. Qed.

Lemma cells_cons v b : cells (v :: b) = f v ++ cells b.
Proof. reflexivity. Qed.

Lemma cells_length vs : length (cells vs) = (length vs * sz)%nat.
Proof.
  induction vs as [|v vs IH]; [done|]. rewrite cells_cons, length_app, Hf, IH. simpl. lia.
Qed.

Lemma cells_zlen vs : zlen (cells vs) = zlen vs * Z.of_nat sz.
Proof. unfold zlen. rewrite cells_length. lia. Qed.

Lemma cells_read a v b :
  mem_read (cells (a ++ v :: b)) (zlen a * Z.of_nat sz) (Z.of_nat sz) = Some (f v).
Proof.
  rewrite cells_app, cells_cons, <- cells_zlen.
  replace (Z.of_nat sz) with (zlen (f v)) by (unfold zlen; by rewrite Hf).
  apply mem_read_app.
Qed.

Lemma cells_write a v b rest w :
  mem_write (cells (a ++ v :: b) ++ rest) (zlen a * Z.of_nat sz) (f w)
  = Some (cells (a ++ w :: b) ++ rest).
Proof.
  rewrite !cells_app, !cells_cons, <- !app_assoc, <- cells_zlen.
  apply mem_write_app. unfold zlen. by rewrite !Hf.
Qed.
End Cells.

Lemma zlookup_split {A} (l : list A) (i : Z) :
  0 <= i < zlen l -> exists a x b, l = a ++ x :: b /\ zlen a = i.
Proof.
  intros Hi. unfold zlen in *.
  destruct (lookup_lt_is_Some_2 l (Z.to_nat i)) as [x Hx]; [lia|].
  exists (take (Z.to_nat i) l), x, (drop (S (Z.to_nat i)) l). split.
  - symmetry. by apply take_drop_middle.
  - rewrite length_take. lia.
Qed.

(** ** Strictly increasing integer lists *)

Definition sorted_lt (l : list Z) : Prop := StronglySorted Z.lt l.

Lemma sorted_lt_app a b :
  sorted_lt (a ++ b) <->
  sorted_lt a /\ sorted_lt b /\ (forall x y, x ∈ a -> y ∈ b -> x < y).
Proof.
  unfold sorted_lt. induction a as [|x a IH]; simpl.
  - split; [intros H; repeat split; [constructor|done|set_solver] | tauto].
  - split.
    + intros H. inversion_clear H as [|? ? Hs Hf]. apply IH in Hs as (?&?&Hab).
      rewrite Forall_forall in Hf. repeat split.
      * constructor; [done|]. rewrite Forall_forall. set_solver.
      * done.
      * intros u v [->|Hu]%elem_of_cons Hv; [apply Hf; set_solver | eauto].
    + intros (H & Hb & Hab). inversion_clear H as [|? ? Hs Hf]. constructor.
      * apply IH. split_and!; [done..|]. intros; apply Hab; set_solver.
      * rewrite Forall_forall in *. intros y Hy.
        apply elem_of_app in Hy as [?|?]; [auto | apply Hab; set_solver].
Qed.

Lemma sorted_lt_mid a x b :
  sorted_lt (a ++ x :: b) <->
  sorted_lt a /\ sorted_lt b /\ Forall (fun y => y < x) a /\ Forall (fun y => x < y) b
  /\ (forall u v, u ∈ a -> v ∈ b -> u < v).
Proof.
  rewrite sorted_lt_app. unfold sorted_lt. split.
  - intros (Ha & H & Hab). inversion_clear H as [|? ? Hs Hf]. split_and!; try done.
    + rewrite Forall_forall. intros; apply Hab; set_solver.
    + intros; apply Hab; set_solver.
  - intros (Ha & Hb & Fa & Fb & Hab). split_and!; [done|by constructor|].
    rewrite Forall_forall in *. intros u v Hu [->|Hv]%elem_of_cons; [by apply Fa | eauto].
Qed.

Lemma sorted_lt_NoDup l : sorted_lt l -> NoDup l.
Proof.
  unfold sorted_lt. induction 1 as [|x l Hs IH Hf]; constructor; [|done].
  intros Hin. rewrite Forall_forall in Hf. specialize (Hf _ Hin). lia.
Qed.

(** Two strictly increasing lists with the same members are equal. *)
Lemma sorted_lt_ext l k :
  sorted_lt l -> sorted_lt k -> (forall x, x ∈ l <-> x ∈ k) -> l = k.
Proof.
  unfold sorted_lt. revert k. induction l as [|x l IH]; intros k Hl Hk Heq.
  - destruct k as [|y k]; [done|]. exfalso.
    assert (y ∈ ([] : list Z)) by (apply Heq; set_solver). set_solver.
  - destruct k as [|y k].
    { exfalso. assert (x ∈ ([] : list Z)) by (apply Heq; set_solver). set_solver. }
    inversion_clear Hl as [|? ? Hs Hf]. inversion_clear Hk as [|? ? Ks Kf].
    rewrite Forall_forall in Hf, Kf.
    assert (x = y) as <-.
    { assert (Hx : x ∈ y :: k) by (apply Heq; set_solver).
      assert (Hy : y ∈ x :: l) by (apply Heq; set_solver).
      apply elem_of_cons in Hx as [->|Hx]; [done|].
      apply elem_of_cons in Hy as [->|Hy]; [done|].
      specialize (Hf _ Hy). specialize (Kf _ Hx). lia. }
    f_equal. apply IH; [done..|]. intros z. specialize (Heq z).
    split; intros Hz.
    + assert (x < z) by auto. assert (Hz' : z ∈ x :: k) by (apply Heq; set_solver).
      apply elem_of_cons in Hz' as [->|?]; [lia|done].
    + assert (x < z) by auto. assert (Hz' : z ∈ x :: l) by (apply Heq; set_solver).
      apply elem_of_cons in Hz' as [->|?]; [lia|done].
Qed.
