(* ===== verification/Intset.v ===== *)
(** * Integer sets: src/redis5/src/intset.c

    An intset is one allocation: a header with the width of the integers in
    bytes (2, 4 or 8) and their number, then the integers in increasing order,
    little-endian, packed.  The model keeps the packed bytes; every access of
    the C code to [contents] goes through [mem_read], [mem_write] or [mem_move],
    so that an operation that returns [Some _] has stayed inside the allocation. *)

From S2P Require Import Prelude.

Module Intset.

Definition INTSET_ENC_INT16 := 2.
Definition INTSET_ENC_INT32 := 4.
Definition INTSET_ENC_INT64 := 8.

Record intset := mkIntset {
  encoding : Z;          (* uint32_t *)
  ilength : Z;           (* uint32_t, the field [length] *)
  contents : list Z;     (* int8_t contents[] *)
}.

Definition _intsetValueEncoding (v : Z) : Z :=
  if (v <? INT32_MIN) || (v >? INT32_MAX) then INTSET_ENC_INT64
  else if (v <? INT16_MIN) || (v >? INT16_MAX) then INTSET_ENC_INT32
  else INTSET_ENC_INT16.

Definition _intsetGetEncoded (iset : intset) (pos enc : Z) : option Z :=
  if enc =? INTSET_ENC_INT64 then
    bs ← mem_read (contents iset) (pos * 8) 8; Some (s64 (le_val bs))
  else if enc =? INTSET_ENC_INT32 then
    bs ← mem_read (contents iset) (pos * 4) 4; Some (s32 (le_val bs))
  else
    bs ← mem_read (contents iset) (pos * 2) 2; Some (s16 (le_val bs)).

Definition _intsetGet (iset : intset) (pos : Z) : option Z :=
  _intsetGetEncoded iset pos (encoding iset).

Definition with_contents (iset : intset) (c : list Z) : intset :=
  mkIntset (encoding iset) (ilength iset) c.

Definition _intsetSet (iset : intset) (pos value : Z) : option intset :=
  if encoding iset =? INTSET_ENC_INT64 then
    c ← mem_write (contents iset) (pos * 8) (le_bytes 8 value); Some (with_contents iset c)
  else if encoding iset =? INTSET_ENC_INT32 then
    c ← mem_write (contents iset) (pos * 4) (le_bytes 4 value); Some (with_contents iset c)
  else
    c ← mem_write (contents iset) (pos * 2) (le_bytes 2 value); Some (with_contents iset c).

Definition intsetNew : intset := mkIntset INTSET_ENC_INT16 0 [].

(** The [while(max >= min)] loop: the values of [min], [mid] and [cur] on exit. *)
Fixpoint intsetSearch_loop (fuel : nat) (iset : intset) (value min max mid cur : Z)
    : option (Z * Z * Z) :=
  match fuel with
  | O => None
  | S fuel =>
      if max >=? min then
        let mid := s32 (Z.shiftr (u32 (u32 min + u32 max)) 1) in
        cur ← _intsetGet iset mid;
        if value >? cur then intsetSearch_loop fuel iset value (s32 (mid + 1)) max mid cur
        else if value <? cur then intsetSearch_loop fuel iset value min (s32 (mid - 1)) mid cur
        else Some (min, mid, cur)
      else Some (min, mid, cur)
  end.

(** The result code and the value stored through [pos]. *)
Definition intsetSearch (iset : intset) (value : Z) : option (bool * Z) :=
  let max := s32 (u32 (ilength iset - 1)) in
  if ilength iset =? 0 then Some (false, 0)
  else
    last ← _intsetGet iset max;
    if value >? last then Some (false, ilength iset)
    else
      first ← _intsetGet iset 0;
      if value <? first then Some (false, 0)
      else
        '(min, mid, cur) ← intsetSearch_loop (S (Z.to_nat (ilength iset))) iset value 0 max (-1) (-1);
        if value =? cur then Some (true, u32 mid) else Some (false, u32 min).

Definition intsetMoveTail (iset : intset) (from to : Z) : option intset :=
  let cnt := u32 (ilength iset - from) in
  let w := if encoding iset =? INTSET_ENC_INT64 then 8
           else if encoding iset =? INTSET_ENC_INT32 then 4 else 2 in
  c ← mem_move (contents iset) (to * w) (from * w) (u32 (cnt * w));
  Some (with_contents iset c).

Section Alloc.
(** What the allocator leaves in the bytes of a grown block. *)
Context (poison : Z).

Definition intsetResize (iset : intset) (len : Z) : intset :=
  let size := u32 (len * encoding iset) in
  with_contents iset (mem_realloc poison (contents iset) size).

(** [while(length--)] of the upgrade: from the last element down to the first. *)
Fixpoint intsetUpgrade_loop (n : nat) (iset : intset) (prepend curenc : Z) : option intset :=
  match n with
  | O => Some iset
  | S n =>
      v ← _intsetGetEncoded iset (Z.of_nat n) curenc;
      iset' ← _intsetSet iset (Z.of_nat n + prepend) v;
      intsetUpgrade_loop n iset' prepend curenc
  end.

Definition intsetUpgradeAndAdd (iset : intset) (value : Z) : option intset :=
  let curenc := encoding iset in
  let newenc := _intsetValueEncoding value in
  let length := s32 (ilength iset) in
  let prepend := if value <? 0 then 1 else 0 in
  let iset := mkIntset newenc (ilength iset) (contents iset) in
  let iset := intsetResize iset (u32 (ilength iset + 1)) in
  iset ← intsetUpgrade_loop (Z.to_nat length) iset prepend curenc;
  iset ← (if prepend =? 0 then _intsetSet iset (s32 (ilength iset)) value
        else _intsetSet iset 0 value);
  Some (mkIntset (encoding iset) (u32 (ilength iset + 1)) (contents iset)).

(** The new set and [*success]. *)
Definition intsetAdd (iset : intset) (value : Z) : option (intset * bool) :=
  let valenc := _intsetValueEncoding value in
  if valenc >? encoding iset then
    iset ← intsetUpgradeAndAdd iset value; Some (iset, true)
  else
    '(found, pos) ← intsetSearch iset value;
    if (found : bool) then Some (iset, false)
    else
      let iset := intsetResize iset (u32 (ilength iset + 1)) in
      iset ← (if pos <? ilength iset then intsetMoveTail iset pos (u32 (pos + 1)) else Some iset);
      iset ← _intsetSet iset (s32 pos) value;
      Some (mkIntset (encoding iset) (u32 (ilength iset + 1)) (contents iset), true).

Definition intsetRemove (iset : intset) (value : Z) : option (intset * bool) :=
  let valenc := _intsetValueEncoding value in
  if valenc <=? encoding iset then
    '(found, pos) ← intsetSearch iset value;
    if (found : bool) then
      let len := ilength iset in
      iset ← (if pos <? u32 (len - 1) then intsetMoveTail iset (u32 (pos + 1)) pos else Some iset);
      let iset := intsetResize iset (u32 (len - 1)) in
      Some (mkIntset (encoding iset) (u32 (len - 1)) (contents iset), true)
    else Some (iset, false)
  else Some (iset, false).
End Alloc.

Definition intsetFind (iset : intset) (value : Z) : option bool :=
  let valenc := _intsetValueEncoding value in
  if valenc <=? encoding iset then fst <$> intsetSearch iset value else Some false.

(** [r] is the value libc's [rand()] returned. *)
Definition intsetRandom (r : Z) (iset : intset) : option Z :=
  if ilength iset =? 0 then None else _intsetGet iset (s32 (r mod ilength iset)).

(** [Some (Some v)]: return 1 with [*value = v]; [Some None]: return 0. *)
Definition intsetGet (iset : intset) (pos : Z) : option (option Z) :=
  if pos <? ilength iset then v ← _intsetGet iset (s32 pos); Some (Some v) else Some None.

Definition intsetLen (iset : intset) : Z := ilength iset.

Definition intsetBlobLen (iset : intset) : Z := 8 + u32 (ilength iset * encoding iset).

(** ** The abstract value of an intset *)

Definition valid_enc (e : Z) : Prop := e = 2 \/ e = 4 \/ e = 8.
Definition fits (e v : Z) : Prop := - 2 ^ (8 * e - 1) <= v < 2 ^ (8 * e - 1).
Definition packed (e : Z) (vs : list Z) : list Z := cells (le_bytes (Z.to_nat e)) vs.

(** [iset] stores exactly the list [vs]. *)
Record stores (iset : intset) (vs : list Z) : Prop := {
  st_enc : valid_enc (encoding iset);
  st_len : ilength iset = zlen vs;
  st_bytes : contents iset = packed (encoding iset) vs;
  st_fits : Forall (fits (encoding iset)) vs;
}.

(** The representation invariant: the stored list is strictly increasing, and
    short enough for the 32-bit size computations of the code. *)
Definition MAX_LEN := 2 ^ 28.
Definition intset_ok (iset : intset) (vs : list Z) : Prop :=
  stores iset vs /\ sorted_lt vs /\ zlen vs < MAX_LEN.

(** ** Cells of the packed array *)

Lemma packed_zlen e vs : valid_enc e -> zlen (packed e vs) = zlen vs * e.
Proof.
  intros He. unfold packed. rewrite (cells_zlen (Z.to_nat e)) by apply le_bytes_length.
  f_equal. destruct He as [->|[->| ->]]; reflexivity.
Qed.

Lemma valueEncoding_valid v : valid_enc (_intsetValueEncoding v).
Proof.
  unfold _intsetValueEncoding, valid_enc, INTSET_ENC_INT16, INTSET_ENC_INT32, INTSET_ENC_INT64.
  repeat case_match; auto.
Qed.

Lemma valueEncoding_le v e :
  valid_enc e -> in_s64 v -> (_intsetValueEncoding v <= e <-> fits e v).
Proof.
  unfold _intsetValueEncoding, valid_enc, fits, in_s64, INTSET_ENC_INT16, INTSET_ENC_INT32,
    INTSET_ENC_INT64, INT32_MIN, INT32_MAX, INT16_MIN, INT16_MAX, LLONG_MIN, LLONG_MAX.
  intros He Hv. rewrite !Z.gtb_ltb.
  destruct He as [->|[->| ->]]; simpl;
    destruct (Z.ltb_spec v (-2147483648)), (Z.ltb_spec 2147483647 v),
      (Z.ltb_spec v (-32768)), (Z.ltb_spec 32767 v); simpl; lia.
Qed.

(** A cell of width [enc] inside any buffer. *)
Lemma getEncoded_cell iset enc a v b :
  valid_enc enc -> fits enc v ->
  contents iset = a ++ le_bytes (Z.to_nat enc) v ++ b ->
  forall pos, pos * enc = zlen a -> _intsetGetEncoded iset pos enc = Some v.
Proof.
  intros He Hv Hc pos Hp.
  assert (Hr : mem_read (contents iset) (pos * enc) enc = Some (le_bytes (Z.to_nat enc) v)).
  { rewrite Hc, Hp. rewrite <- (mem_read_app a _ b). f_equal. rewrite le_bytes_zlen.
    unfold valid_enc in He; lia. }
  unfold _intsetGetEncoded, INTSET_ENC_INT64, INTSET_ENC_INT32. unfold fits in Hv.
  destruct He as [->|[->| ->]]; simpl (_ =? _); cbv iota; rewrite Hr; mrun; f_equal;
    change (Z.to_nat 2) with 2%nat; change (Z.to_nat 4) with 4%nat; change (Z.to_nat 8) with 8%nat.
  - apply (le_signed_roundtrip 2); [lia|exact Hv].
  - apply (le_signed_roundtrip 4); [lia|exact Hv].
  - apply (le_signed_roundtrip 8); [lia|exact Hv].
Qed.

Lemma set_cell iset a c b v :
  valid_enc (encoding iset) -> contents iset = a ++ c ++ b -> zlen c = encoding iset ->
  forall pos, pos * encoding iset = zlen a ->
  _intsetSet iset pos v
  = Some (with_contents iset (a ++ le_bytes (Z.to_nat (encoding iset)) v ++ b)).
Proof.
  intros He Hc Hl pos Hp.
  assert (Hw : mem_write (contents iset) (pos * encoding iset) (le_bytes (Z.to_nat (encoding iset)) v)
    = Some (a ++ le_bytes (Z.to_nat (encoding iset)) v ++ b)).
  { rewrite Hc, Hp. apply mem_write_app. rewrite le_bytes_zlen. unfold valid_enc in He; lia. }
  unfold _intsetSet, INTSET_ENC_INT64, INTSET_ENC_INT32.
  destruct He as [E|[E|E]]; rewrite E in Hw |- *; simpl (_ =? _); cbv iota;
    [change (Z.to_nat 2) with 2%nat in * | change (Z.to_nat 4) with 4%nat in *
    | change (Z.to_nat 8) with 8%nat in * ]; rewrite Hw; done.
Qed.

Lemma stores_get iset vs a v b :
  stores iset vs -> vs = a ++ v :: b -> _intsetGet iset (zlen a) = Some v.
Proof.
  intros [He Hl Hc Hf] ->. unfold _intsetGet.
  rewrite Forall_app, Forall_cons in Hf. destruct Hf as (_ & Hv & _).
  unfold packed in Hc. rewrite cells_app, cells_cons in Hc.
  eapply getEncoded_cell; [done..|]. fold (packed (encoding iset) a). by rewrite packed_zlen.
Qed.

Lemma stores_get_nth iset vs i :
  stores iset vs -> 0 <= i < zlen vs ->
  exists v, _intsetGet iset i = Some v /\ vs !! Z.to_nat i = Some v.
Proof.
  intros Hs Hi. destruct (zlookup_split vs i Hi) as (a & v & b & E & <-).
  exists v. split; [by eapply stores_get|]. subst vs. unfold zlen.
  rewrite Nat2Z.id. by apply list_lookup_middle.
Qed.

(** ** Binary search *)

Lemma midpoint lo hi :
  0 <= lo -> lo <= hi -> hi < MAX_LEN ->
  s32 (Z.shiftr (u32 (u32 lo + u32 hi)) 1) = (lo + hi) / 2.
Proof.
  unfold MAX_LEN. intros. rewrite !u32_id by (rewrite ?u32_id; lia).
  rewrite Z.shiftr_div_pow2 by lia. change (2 ^ 1) with 2.
  apply s32_id. unfold INT32_MIN, INT32_MAX.
  pose proof (Z.div_pos (lo + hi) 2). pose proof (Z.div_le_upper_bound (lo + hi) 2 hi). lia.
Qed.

(** Everything before index [lo] is below [value], everything after [hi] above. *)
Definition bracket (vs : list Z) (value lo hi : Z) : Prop :=
  forall i v, vs !! i = Some v ->
    (Z.of_nat i < lo -> v < value) /\ (hi < Z.of_nat i -> value < v).

Lemma bracket_step vs value lo hi mid c :
  sorted_lt vs -> bracket vs value lo hi -> 0 <= mid -> vs !! Z.to_nat mid = Some c ->
  (c < value -> bracket vs value (mid + 1) hi) /\ (value < c -> bracket vs value lo (mid - 1)).
Proof.
  intros Hs Hb Hm Hc. apply list_elem_of_split_length in Hc as (a & b & -> & Ha).
  apply sorted_lt_mid in Hs as (_ & _ & Fa & Fb & _). rewrite Forall_forall in Fa, Fb.
  split; intros Hcv i v Hv; split; intros Hi; try (by eapply Hb);
    apply lookup_app_Some in Hv as [Hv|[Hl Hv]].
  - apply list_elem_of_lookup_2, Fa in Hv; lia.
  - replace (i - length a)%nat with 0%nat in Hv by lia. simplify_eq/=. lia.
  - apply lookup_lt_Some in Hv. lia.
  - destruct (i - length a)%nat as [|k] eqn:E; simplify_eq/=; [lia|].
    apply list_elem_of_lookup_2, Fb in Hv; lia.
Qed.

Lemma search_loop_ok iset vs value :
  stores iset vs -> sorted_lt vs -> zlen vs < MAX_LEN ->
  forall fuel lo hi mid cur,
  0 <= lo -> hi < zlen vs -> lo <= hi + 1 -> bracket vs value lo hi ->
  (lo <= hi \/ cur <> value) -> hi - lo + 1 < Z.of_nat fuel ->
  exists lo' mid' cur',
    intsetSearch_loop fuel iset value lo hi mid cur = Some (lo', mid', cur') /\
    (if value =? cur' then 0 <= mid' < zlen vs /\ vs !! Z.to_nat mid' = Some value
     else 0 <= lo' <= zlen vs /\ bracket vs value lo' (lo' - 1)).
Proof.
  intros Hst Hs Hmax. induction fuel as [|fuel IH]; intros lo hi mid cur Hlo Hhi Hle Hb Hc Hf.
  { lia. }
  cbn [intsetSearch_loop]. destruct (Z.geb_spec hi lo) as [Hge|Hlt].
  - rewrite midpoint by lia.
    assert (Hm : lo <= (lo + hi) / 2 <= hi).
    { split; [apply Z.div_le_lower_bound|apply Z.div_le_upper_bound]; lia. }
    destruct (stores_get_nth iset vs ((lo + hi) / 2) Hst ltac:(lia)) as (c & Hg & Hn).
    rewrite Hg. mrun.
    destruct (bracket_step vs value lo hi ((lo + hi) / 2) c Hs Hb ltac:(lia) Hn) as [Hlow Hhigh].
    unfold MAX_LEN in *. rewrite !s32_id by (unfold INT32_MIN, INT32_MAX; lia).
    rewrite Z.gtb_ltb. destruct (Z.ltb_spec c value); [|destruct (Z.ltb_spec value c)].
    + apply IH; [lia|lia|lia|by apply Hlow|lia|lia].
    + apply IH; [lia|lia|lia|by apply Hhigh|lia|lia].
    + assert (c = value) as -> by lia. eexists _, _, _; split; [done|].
      rewrite Z.eqb_refl. split; [lia|done].
  - eexists _, _, _; split; [done|]. zcase; [lia|]. split; [lia|].
    by replace (lo - 1) with hi by lia.
Qed.

Lemma bracket_split vs value p :
  0 <= p <= zlen vs -> bracket vs value p (p - 1) ->
  exists a b, vs = a ++ b /\ zlen a = p /\ Forall (fun x => x < value) a
    /\ Forall (fun x => value < x) b.
Proof.
  intros Hp Hb. exists (take (Z.to_nat p) vs), (drop (Z.to_nat p) vs). split_and!.
  - by rewrite take_drop.
  - unfold zlen in *. rewrite length_take. lia.
  - apply Forall_lookup. intros i x [Hx Hi]%lookup_take_Some. eapply Hb; [done|lia].
  - apply Forall_lookup. intros i x Hx. rewrite lookup_drop in Hx. eapply Hb; [done|lia].
Qed.

(** [intsetSearch] always answers; the position it reports splits the set into
    the members below [value] and the rest. *)
Lemma search_spec iset vs value :
  intset_ok iset vs ->
  exists found a b,
    intsetSearch iset value = Some (found, zlen a) /\ vs = a ++ b /\
    Forall (fun x => x < value) a /\
    (if (found : bool) then exists b', b = value :: b' else Forall (fun x => value < x) b).
Proof.
  intros (Hst & Hs & Hmax). pose proof (st_len _ _ Hst) as Hlen.
  unfold intsetSearch. rewrite Hlen. destruct (Z.eqb_spec (zlen vs) 0) as [H0|H0].
  { destruct vs; [|rewrite zlen_cons in H0; pose proof (zlen_nonneg vs); lia].
    exists false, [], []. split_and!; auto. }
  pose proof (zlen_nonneg vs). unfold MAX_LEN in *.
  replace (s32 (u32 (zlen vs - 1))) with (zlen vs - 1)
    by (rewrite u32_id, s32_id; unfold INT32_MIN, INT32_MAX; lia).
  destruct (stores_get_nth iset vs (zlen vs - 1) Hst ltac:(lia)) as (l & Hg & Hl).
  rewrite Hg. mrun.
  assert (B0 : bracket vs value 0 (zlen vs - 1)).
  { intros i v Hv%lookup_lt_Some. unfold zlen in *. lia. }
  destruct (bracket_step vs value _ _ (zlen vs - 1) l Hs B0 ltac:(lia) Hl) as [Blow _].
  rewrite Z.gtb_ltb. destruct (Z.ltb_spec l value) as [Hlv|Hlv].
  { destruct (bracket_split vs value (zlen vs)) as (a & b & E & Ha & Fa & Fb); [lia| |].
    { replace (zlen vs) with (zlen vs - 1 + 1) at 1 by lia. auto. }
    exists false, a, b. rewrite Ha. auto. }
  destruct (stores_get_nth iset vs 0 Hst ltac:(lia)) as (h & Hg0 & Hh). rewrite Hg0. mrun.
  destruct (bracket_step vs value _ _ 0 h Hs B0 ltac:(lia) Hh) as [_ Bhigh].
  destruct (Z.ltb_spec value h) as [Hvh|Hvh].
  { destruct (bracket_split vs value 0) as (a & b & E & Ha & Fa & Fb); [lia|auto|].
    exists false, a, b. rewrite Ha. auto. }
  destruct (search_loop_ok iset vs value Hst Hs Hmax
    (S (Z.to_nat (zlen vs))) 0 (zlen vs - 1) (-1) (-1)) as (lo & mid & cur & HL & Hres);
    [lia|lia|lia|done|lia|lia|].
  rewrite HL. mrun. destruct (value =? cur); rewrite u32_id by lia.
  - destruct Hres as [Hm Hn]. apply list_elem_of_split_length in Hn as (a & b & -> & Ha).
    exists true, a, (value :: b). apply sorted_lt_mid in Hs as (_ & _ & Fa & _).
    split_and!; [|done|done|eauto]. do 2 f_equal. unfold zlen in *. lia.
  - destruct Hres as [Hp Hb]. destruct (bracket_split _ _ _ Hp Hb) as (a & b & E & Ha & Fa & Fb).
    exists false, a, b. rewrite Ha. auto.
Qed.

(** ** Insertion and removal *)

Section Proofs.
Context (poison : Z).

Lemma packed_app e a b : packed e (a ++ b) = packed e a ++ packed e b.
Proof. apply cells_app. Qed.

Lemma packed_one e v : packed e [v] = le_bytes (Z.to_nat e) v.
Proof. apply app_nil_r. Qed.

(** The width [intsetMoveTail] selects is the encoding. *)
Lemma moveTail_width iset from to :
  valid_enc (encoding iset) -> 0 <= from <= ilength iset -> ilength iset < MAX_LEN ->
  intsetMoveTail iset from to =
    c ← mem_move (contents iset) (to * encoding iset) (from * encoding iset)
          ((ilength iset - from) * encoding iset);
    Some (with_contents iset c).
Proof.
  intros He Hf Hm. unfold intsetMoveTail, MAX_LEN, INTSET_ENC_INT64, INTSET_ENC_INT32 in *.
  replace (if encoding iset =? 8 then 8 else if encoding iset =? 4 then 4 else 2)
    with (encoding iset) by (destruct He as [E|[E|E]]; rewrite E; reflexivity).
  rewrite (u32_id (ilength iset - from)) by lia. rewrite u32_id; [done|].
  unfold valid_enc in He; nia.
Qed.

Lemma resize_zlen iset len :
  valid_enc (encoding iset) -> 0 <= len <= MAX_LEN ->
  intsetResize poison iset len
  = with_contents iset (mem_realloc poison (contents iset) (len * encoding iset)).
Proof.
  intros He Hl. unfold intsetResize, MAX_LEN in *. rewrite u32_id; [done|].
  unfold valid_enc in He; nia.
Qed.

(** Room for one more cell, moved in front of [b], then filled with [v]. *)
Lemma open_gap iset a b v :
  stores iset (a ++ b) -> zlen (a ++ b) < MAX_LEN -> fits (encoding iset) v ->
  exists iset',
    (is1 ← (if zlen a <? ilength iset
            then intsetMoveTail (intsetResize poison iset (u32 (ilength iset + 1)))
                   (zlen a) (u32 (zlen a + 1))
            else Some (intsetResize poison iset (u32 (ilength iset + 1))));
     is2 ← _intsetSet is1 (s32 (zlen a)) v;
     Some (mkIntset (encoding is2) (u32 (ilength is2 + 1)) (contents is2))) = Some iset'
    /\ stores iset' (a ++ v :: b).
Proof.
  intros [He Hl Hc Hf] Hm Hv. pose proof (zlen_nonneg a) as Ha. pose proof (zlen_nonneg b) as Hb.
  rewrite zlen_app in Hl, Hm. unfold MAX_LEN in Hm.
  rewrite !u32_id by lia. rewrite s32_id by (unfold INT32_MIN, INT32_MAX; lia).
  rewrite resize_zlen by (try done; unfold MAX_LEN; lia).
  set (is0 := with_contents _ _).
  assert (Hroom : exists room, contents is0 = packed (encoding iset) a ++ packed (encoding iset) b
    ++ room /\ zlen room = encoding iset).
  { eexists. unfold is0; simpl. rewrite mem_realloc_grow, Hc, packed_app, <- app_assoc.
    - split; [done|]. rewrite <- packed_app, packed_zlen, zlen_app, Hl by done.
      unfold zlen in *. rewrite length_replicate. unfold valid_enc in He; lia.
    - rewrite Hc, packed_zlen, zlen_app, Hl by done. unfold valid_enc in He; lia. }
  destruct Hroom as (room & Hc0 & Hroom).
  assert (E0 : encoding is0 = encoding iset) by done.
  assert (L0 : ilength is0 = ilength iset) by done.
  assert (W0 : forall c, with_contents is0 c = with_contents iset c) by done.
  assert (I0 : is0 = with_contents iset (contents is0)) by done.
  clearbody is0.
  assert (Hmv : exists x, zlen x = encoding iset /\
    (if zlen a <? ilength iset then intsetMoveTail is0 (zlen a) (zlen a + 1) else Some is0)
    = Some (with_contents iset (packed (encoding iset) a ++ x ++ packed (encoding iset) b))).
  { destruct (Z.ltb_spec (zlen a) (ilength iset)).
    - rewrite moveTail_width by (rewrite ?E0, ?L0; unfold MAX_LEN; try done; lia).
      rewrite E0, L0.
      destruct (mem_move_up (packed (encoding iset) a) (packed (encoding iset) b) room)
        as (x & Hx & HM).
      exists x. split; [lia|]. rewrite Hc0. rewrite !packed_zlen, Hroom in HM by done.
      replace (ilength iset - zlen a) with (zlen b) by lia.
      rewrite Z.mul_add_distr_r, Z.mul_1_l, HM. mrun. by rewrite W0.
    - exists room. split; [done|]. destruct b; [|rewrite zlen_cons in *; pose proof (zlen_nonneg b); lia].
      f_equal. rewrite I0, Hc0. simpl. by rewrite app_nil_r. }
  destruct Hmv as (x & Hx & ->). mrun.
  rewrite (set_cell _ (packed (encoding iset) a) x (packed (encoding iset) b))
    by (simpl; rewrite ?packed_zlen; done).
  mrun. eexists; split; [done|]. simpl. split; simpl.
  - done.
  - rewrite zlen_app, zlen_cons, u32_id by lia. lia.
  - unfold packed. by rewrite cells_app, cells_cons.
  - rewrite Forall_app, Forall_cons. apply Forall_app in Hf as [??]. done.
Qed.

(** Dropping the member between [a] and [b]. *)
Lemma close_gap iset a v b :
  stores iset (a ++ v :: b) -> zlen (a ++ v :: b) < MAX_LEN ->
  exists iset',
    (is1 ← (if zlen a <? u32 (ilength iset - 1)
            then intsetMoveTail iset (u32 (zlen a + 1)) (zlen a) else Some iset);
     let is2 := intsetResize poison is1 (u32 (ilength iset - 1)) in
     Some (mkIntset (encoding is2) (u32 (ilength iset - 1)) (contents is2))) = Some iset'
    /\ stores iset' (a ++ b).
Proof.
  intros [He Hl Hc Hf] Hm. pose proof (zlen_nonneg a) as Ha. pose proof (zlen_nonneg b) as Hb.
  rewrite zlen_app, zlen_cons in Hl, Hm. unfold MAX_LEN in Hm. rewrite !u32_id by lia.
  assert (Hc' : contents iset = packed (encoding iset) a ++ packed (encoding iset) [v]
    ++ packed (encoding iset) b) by (rewrite <- !packed_app; done).
  assert (Hmv : exists x, zlen x = encoding iset /\
    (if zlen a <? ilength iset - 1 then intsetMoveTail iset (zlen a + 1) (zlen a) else Some iset)
    = Some (with_contents iset (packed (encoding iset) a ++ packed (encoding iset) b ++ x))).
  { destruct (Z.ltb_spec (zlen a) (ilength iset - 1)).
    - rewrite moveTail_width by (unfold MAX_LEN; try done; lia).
      destruct (mem_move_down (packed (encoding iset) a) (packed (encoding iset) [v])
        (packed (encoding iset) b)) as (x & Hx & HM).
      rewrite packed_zlen, zlen_cons, (@zlen_nil Z) in Hx by done.
      exists x. split; [lia|]. rewrite Hc'.
      rewrite !packed_zlen, zlen_cons, (@zlen_nil Z) in HM by done.
      replace (ilength iset - (zlen a + 1)) with (zlen b) by lia.
      rewrite Z.mul_add_distr_r, Z.add_0_r in *. rewrite HM. done.
    - exists (packed (encoding iset) [v]).
      rewrite packed_zlen, zlen_cons, (@zlen_nil Z) by done. split; [lia|].
      destruct b; [|rewrite zlen_cons in *; pose proof (zlen_nonneg b); lia].
      destruct iset; simpl in *. rewrite Hc'. unfold with_contents; simpl.
      by rewrite !app_nil_r. }
  destruct Hmv as (x & Hx & ->). mrun. eexists; split; [done|].
  rewrite resize_zlen by (simpl; try done; unfold MAX_LEN; lia). simpl.
  rewrite app_assoc, <- packed_app.
  assert (HL : (ilength iset - 1) * encoding iset = zlen (packed (encoding iset) (a ++ b)))
    by (rewrite packed_zlen, zlen_app by done; f_equal; lia).
  split; simpl.
  - done.
  - rewrite zlen_app. lia.
  - rewrite HL, mem_realloc_shrink by (rewrite zlen_app; unfold valid_enc in He; lia).
    unfold zlen. rewrite Nat2Z.id. apply take_app_length.
  - rewrite Forall_app, Forall_cons in *. tauto.
Qed.

(** The back-to-front upgrade: cells not yet visited are still in the old
    width [cur] at the front, the visited ones already in the new width. *)
Lemma upgrade_loop_ok cur p pre :
  valid_enc cur -> 0 <= p -> Forall (fits cur) pre ->
  forall iset post gap tail,
  valid_enc (encoding iset) -> cur <= encoding iset ->
  contents iset = packed cur pre ++ gap ++ packed (encoding iset) post ++ tail ->
  zlen pre * cur + zlen gap = (zlen pre + p) * encoding iset ->
  exists gap', zlen gap' = p * encoding iset /\
    intsetUpgrade_loop (length pre) iset p cur
    = Some (with_contents iset (gap' ++ packed (encoding iset) (pre ++ post) ++ tail)).
Proof.
  intros Hcur Hp. induction pre as [|v pre IH] using rev_ind;
    intros Hfit iset post gap tail Hnew Hle Hc Hz.
  - exists gap. rewrite (@zlen_nil Z) in Hz. split; [lia|]. simpl. f_equal.
    destruct iset; unfold with_contents; simpl in *. by rewrite Hc.
  - apply Forall_app in Hfit as [Hfit Hv]. rewrite Forall_singleton in Hv.
    rewrite length_app, Nat.add_1_r. cbn [intsetUpgrade_loop].
    rewrite packed_app, packed_one, <- app_assoc in Hc.
    rewrite zlen_app, zlen_cons, (@zlen_nil Z), Z.add_0_r in Hz.
    rewrite (getEncoded_cell iset cur _ v _ Hcur Hv Hc) by (rewrite packed_zlen; done). mrun.
    pose proof (zlen_nonneg pre) as Hpre.
    assert (Hsp : exists gap1 c, zlen c = encoding iset /\
      zlen pre * cur + zlen gap1 = (zlen pre + p) * encoding iset /\
      le_bytes (Z.to_nat cur) v ++ gap = gap1 ++ c).
    { destruct (split_at (le_bytes (Z.to_nat cur) v ++ gap)
        (Z.to_nat ((zlen pre + p) * encoding iset - zlen pre * cur))) as (g & c & E & Hg).
      - rewrite length_app, le_bytes_length. unfold zlen in *. unfold valid_enc in *. nia.
      - exists g, c. apply (f_equal zlen) in E as E'. rewrite !zlen_app, le_bytes_zlen in E'.
        unfold zlen in *. unfold valid_enc in *. split_and!; [nia|nia|done]. }
    destruct Hsp as (gap1 & c & Hcl & Hg1 & E).
    rewrite (app_assoc (le_bytes _ _)), E, <- (app_assoc gap1 c), (app_assoc _ gap1) in Hc.
    rewrite (set_cell iset _ c _ v Hnew Hc Hcl (Z.of_nat (length pre) + p))
      by (rewrite zlen_app, packed_zlen by done; unfold zlen in *; lia). mrun.
    destruct (IH Hfit (with_contents iset ((packed cur pre ++ gap1)
        ++ le_bytes (Z.to_nat (encoding iset)) v ++ packed (encoding iset) post ++ tail))
      (v :: post) gap1 tail) as (gap' & Hg' & HL); simpl; try done.
    { by rewrite <- !app_assoc. }
    exists gap'. split; [done|]. rewrite HL. by rewrite <- (app_assoc pre).
Qed.

Lemma upgrade_ok iset vs value :
  stores iset vs -> zlen vs < MAX_LEN -> encoding iset < _intsetValueEncoding value ->
  in_s64 value ->
  exists iset', intsetUpgradeAndAdd poison iset value = Some iset' /\
    stores iset' (if value <? 0 then value :: vs else vs ++ [value]).
Proof.
  intros Hst Hm Hlt Hv. pose proof Hst as [He Hl Hc Hf]. unfold intsetUpgradeAndAdd.
  pose proof (valueEncoding_valid value) as Hnew.
  assert (Hfitv : fits (_intsetValueEncoding value) value) by (apply valueEncoding_le; [done|done|lia]).
  set (new := _intsetValueEncoding value) in *. set (p := if value <? 0 then 1 else 0).
  assert (Hp : 0 <= p <= 1) by (unfold p; case_match; lia).
  pose proof (zlen_nonneg vs). unfold MAX_LEN in Hm. simpl ilength.
  rewrite Hl, (u32_id (zlen vs + 1)), (s32_id (zlen vs)) by (unfold INT32_MIN, INT32_MAX; lia).
  rewrite resize_zlen by (simpl; try done; unfold MAX_LEN; lia). simpl.
  rewrite mem_realloc_grow by (rewrite Hc, packed_zlen by done; unfold valid_enc in *; nia).
  set (room := replicate _ _).
  assert (Hroom : zlen room = (zlen vs + 1) * new - zlen vs * encoding iset).
  { unfold room. rewrite Hc, packed_zlen by done. unfold zlen at 1. rewrite length_replicate.
    unfold valid_enc in *; nia. }
  destruct (split_at room (Z.to_nat ((zlen vs + p) * new - zlen vs * encoding iset)))
    as (gap & tail & E & Hg). { unfold zlen in *. unfold valid_enc in *. nia. }
  assert (Hgz : zlen vs * encoding iset + zlen gap = (zlen vs + p) * new)
    by (unfold zlen in *; unfold valid_enc in *; nia).
  destruct (upgrade_loop_ok (encoding iset) p vs He ltac:(lia) Hf
    (mkIntset new (zlen vs) (contents iset ++ room)) [] gap tail) as (gap' & Hg' & HL);
    simpl; [done|lia|by rewrite E, Hc|done|].
  replace (Z.to_nat (zlen vs)) with (length vs) by (unfold zlen; lia).
  unfold with_contents in HL |- *. simpl in HL |- *. rewrite HL. mrun.
  apply (f_equal zlen) in E. rewrite zlen_app in E. rewrite app_nil_r.
  cbn [ilength encoding] in Hg' |- *.
  rewrite (s32_id (zlen vs)) by (unfold INT32_MIN, INT32_MAX; lia).
  assert (Hup : Forall (fits new) vs).
  { eapply Forall_impl; [exact Hf|]. intros x. unfold fits.
    pose proof (Z.pow_le_mono_r 2 (8 * encoding iset - 1) (8 * new - 1)). lia. }
  unfold p in *. destruct (Z.ltb_spec value 0) as [Hn|Hn]; simpl (_ =? 0); cbv iota.
  - assert (tail = []) as -> by (apply length_zero_iff_nil; unfold zlen in *; lia).
    rewrite (set_cell _ [] gap' (packed new vs)); simpl; rewrite ?app_nil_r; try done; [|lia].
    eexists; split; [done|]. rewrite u32_id by lia. split; simpl.
    + done.
    + by rewrite zlen_cons, Z.add_comm.
    + done.
    + by constructor.
  - assert (gap' = []) as -> by (apply length_zero_iff_nil; unfold zlen in *; lia).
    rewrite (set_cell _ (packed new vs) tail []); simpl; rewrite ?app_nil_r; try done;
      [|lia|by rewrite packed_zlen].
    eexists; split; [done|]. rewrite u32_id by lia. split; simpl.
    + done.
    + by rewrite zlen_app, zlen_cons.
    + by rewrite packed_app, packed_one.
    + apply Forall_app; auto.
Qed.

(** A value wider than the encoding lies outside the range of the members. *)
Lemma upgrade_sorted iset vs value :
  stores iset vs -> sorted_lt vs -> encoding iset < _intsetValueEncoding value -> in_s64 value ->
  sorted_lt (if value <? 0 then value :: vs else vs ++ [value]) /\ value ∉ vs.
Proof.
  intros [He Hl Hc Hf] Hs Hlt Hv.
  assert (Hnf : ~ fits (encoding iset) value).
  { intros Hfit. apply valueEncoding_le in Hfit; [lia|done|done]. }
  rewrite Forall_forall in Hf. split; [|intros Hin; by apply Hnf, Hf].
  unfold fits in *. destruct (Z.ltb_spec value 0) as [Hn|Hn].
  - apply (sorted_lt_mid [] value vs). split_and!; [constructor|done|done| |set_solver].
    apply Forall_forall. intros x Hx%Hf. lia.
  - apply (sorted_lt_mid vs value []). split_and!; [done|constructor| |done|set_solver].
    apply Forall_forall. intros x Hx%Hf. lia.
Qed.

End Proofs.

(** ** What an intset promises: a finite set of 64-bit integers *)

Definition members (vs : list Z) : gset Z := list_to_set vs.

Lemma found_iff (found : bool) vs a b value :
  vs = a ++ b -> Forall (fun x => x < value) a ->
  (if found then exists b', b = value :: b' else Forall (fun x => value < x) b) ->
  found = bool_decide (value ∈ vs).
Proof.
  intros -> Fa Hb. rewrite Forall_forall in Fa. destruct found; symmetry.
  - destruct Hb as [b' ->]. apply bool_decide_eq_true. set_solver.
  - apply bool_decide_eq_false. rewrite Forall_forall in Hb.
    intros [H|H]%elem_of_app; [specialize (Fa _ H)|specialize (Hb _ H)]; lia.
Qed.

Lemma find_spec iset vs value :
  intset_ok iset vs -> in_s64 value -> intsetFind iset value = Some (bool_decide (value ∈ vs)).
Proof.
  intros Hok Hv. pose proof Hok as (Hst & Hs & _). unfold intsetFind.
  destruct (Z.leb_spec (_intsetValueEncoding value) (encoding iset)) as [Hle|Hgt].
  - destruct (search_spec iset vs value Hok) as (found & a & b & HS & E & Fa & Hb).
    rewrite HS. mrun. f_equal. simpl. eapply found_iff; eauto.
  - f_equal. symmetry. apply bool_decide_eq_false. by apply (upgrade_sorted iset vs value).
Qed.

Lemma add_spec poison iset vs value :
  intset_ok iset vs -> zlen vs + 1 < MAX_LEN -> in_s64 value ->
  exists iset' vs',
    intsetAdd poison iset value = Some (iset', negb (bool_decide (value ∈ vs))) /\
    intset_ok iset' vs' /\ members vs' = {[value]} ∪ members vs.
Proof.
  intros Hok Hm Hv. pose proof Hok as (Hst & Hs & _). unfold intsetAdd, members. rewrite Z.gtb_ltb.
  destruct (Z.ltb_spec (encoding iset) (_intsetValueEncoding value)) as [Hlt|Hle].
  - destruct (upgrade_ok poison iset vs value) as (is' & HU & Hst'); [done|lia|done|done|].
    destruct (upgrade_sorted iset vs value Hst Hs Hlt Hv) as [Hs' Hnin].
    rewrite HU, (bool_decide_eq_false_2 _ Hnin). mrun. eexists _, _. split; [done|]. split.
    + split_and!; [done|done|]. case_match; rewrite ?zlen_app, ?zlen_cons, ?(@zlen_nil Z); lia.
    + case_match; [done|]. rewrite list_to_set_app_L. set_solver.
  - destruct (search_spec iset vs value Hok) as (found & a & b & HS & E & Fa & Hb).
    rewrite HS. mrun. rewrite <- (found_iff found vs a b value E Fa Hb). destruct found; simpl negb.
    + exists iset, vs. split_and!; [done|done|]. destruct Hb as [b' ->]. subst vs.
      rewrite list_to_set_app_L. set_solver.
    + subst vs. assert (Hfit : fits (encoding iset) value)
        by (apply valueEncoding_le; [apply Hst|done|lia]).
      destruct (open_gap poison iset a b value Hst ltac:(lia) Hfit) as (is' & HG & Hst').
      exists is', (a ++ value :: b). unfold intset_ok. split_and!.
      * cbn [ilength intsetResize with_contents]. destruct (zlen a <? ilength iset).
        -- destruct (intsetMoveTail _ _ _); [|discriminate HG]. revert HG. mrun.
           destruct (_intsetSet _ _ _); [|discriminate]. mrun. by intros [= ->].
        -- revert HG. mrun. destruct (_intsetSet _ _ _); [|discriminate]. mrun. by intros [= ->].
      * done.
      * apply sorted_lt_mid. apply sorted_lt_app in Hs as (? & ? & ?). done.
      * rewrite zlen_app, zlen_cons in *. lia.
      * rewrite !list_to_set_app_L. set_solver.
Qed.

Lemma remove_spec poison iset vs value :
  intset_ok iset vs -> in_s64 value ->
  exists iset' vs',
    intsetRemove poison iset value = Some (iset', bool_decide (value ∈ vs)) /\
    intset_ok iset' vs' /\ members vs' = members vs ∖ {[value]} /\ zlen vs' <= zlen vs.
Proof.
  intros Hok Hv. pose proof Hok as (Hst & Hs & Hm). unfold intsetRemove, members.
  destruct (Z.leb_spec (_intsetValueEncoding value) (encoding iset)) as [Hle|Hgt].
  - destruct (search_spec iset vs value Hok) as (found & a & b & HS & E & Fa & Hb).
    rewrite HS. mrun. rewrite <- (found_iff found vs a b value E Fa Hb).
    destruct found.
    + destruct Hb as [b' ->]. subst vs.
      destruct (close_gap poison iset a value b' Hst Hm) as (is' & HG & Hst').
      cbv zeta in HG. rewrite zlen_app, zlen_cons in Hm.
      pose proof Hs as (Sa & Sb & Fa' & Fb & Sab)%sorted_lt_mid.
      rewrite Forall_forall in Fa, Fb.
      exists is', (a ++ b'). unfold intset_ok. split_and!.
      * destruct (if _ <? _ then _ else _) as [is1|]; [|discriminate HG]. revert HG. mrun.
        by intros [= <-].
      * done.
      * apply sorted_lt_app. auto.
      * rewrite zlen_app. lia.
      * rewrite !list_to_set_app_L. apply set_eq. intros x. simpl.
        rewrite !elem_of_difference, !elem_of_union, !elem_of_list_to_set, !elem_of_singleton.
        split; [intros [H|H]; [specialize (Fa _ H)|specialize (Fb _ H)]; intuition lia|tauto].
      * rewrite !zlen_app, zlen_cons. lia.
    + exists iset, vs. split_and!; [done|done| |lia].
      pose proof (found_iff false vs a b value E Fa Hb) as Hf.
      symmetry in Hf. apply bool_decide_eq_false in Hf. apply set_eq. intros x.
      rewrite elem_of_difference, elem_of_list_to_set, elem_of_singleton.
      split; [intros ?; split; [done|congruence]|tauto].
  - destruct (upgrade_sorted iset vs value Hst Hs Hgt Hv) as [_ Hnin].
    rewrite (bool_decide_eq_false_2 _ Hnin). exists iset, vs. split_and!; [done|done| |lia].
    apply set_eq. intros x. rewrite elem_of_difference, elem_of_list_to_set, elem_of_singleton.
    split; [intros ?; split; [done|congruence]|tauto].
Qed.

(** A client of the set: any sequence of insertions and removals. *)
Inductive intset_op :=
  | OpAdd (v : Z)
  | OpRemove (v : Z).

Definition op_value (o : intset_op) : Z :=
  match o with OpAdd v => v | OpRemove v => v end.

Definition apply_op (poison : Z) (o : intset_op) (iset : intset) : option intset :=
  match o with
  | OpAdd v => fst <$> intsetAdd poison iset v
  | OpRemove v => fst <$> intsetRemove poison iset v
  end.

Definition run_ops (poison : Z) (ops : list intset_op) (iset : intset) : option intset :=
  foldl (fun acc o => iset ← acc; apply_op poison o iset) (Some iset) ops.

Definition spec_op (s : gset Z) (o : intset_op) : gset Z :=
  match o with
  | OpAdd v => {[v]} ∪ s
  | OpRemove v => s ∖ {[v]}
  end.

Lemma members_size vs : sorted_lt vs -> Z.of_nat (size (members vs)) = zlen vs.
Proof.
  intros Hs. unfold members, zlen. rewrite size_list_to_set; [done|]. by apply sorted_lt_NoDup.
Qed.

Lemma apply_op_spec poison o iset vs :
  intset_ok iset vs -> zlen vs + 1 < MAX_LEN -> in_s64 (op_value o) ->
  exists iset' vs', apply_op poison o iset = Some iset' /\ intset_ok iset' vs' /\
    members vs' = spec_op (members vs) o /\ zlen vs' <= zlen vs + 1.
Proof.
  intros Hok Hm Hv. destruct o as [v|v]; simpl in *.
  - destruct (add_spec poison iset vs v Hok Hm Hv) as (is' & vs' & H & Hok' & E).
    exists is', vs'. rewrite H. split_and!; [done|done|done|].
    rewrite <- (members_size vs'), <- (members_size vs), E by (apply Hok' || apply Hok).
    rewrite size_union_alt, size_singleton.
    pose proof (subseteq_size (members vs ∖ {[v]}) (members vs) ltac:(set_solver)). lia.
  - destruct (remove_spec poison iset vs v Hok Hv) as (is' & vs' & H & Hok' & E & Hl).
    exists is', vs'. rewrite H. split_and!; [done|done|done|lia].
Qed.

Lemma run_ops_spec poison ops : forall iset vs,
  intset_ok iset vs -> Forall (fun o => in_s64 (op_value o)) ops ->
  zlen vs + zlen ops < MAX_LEN ->
  exists iset' vs', run_ops poison ops iset = Some iset' /\ intset_ok iset' vs' /\
    members vs' = foldl spec_op (members vs) ops.
Proof.
  induction ops as [|o ops IH]; intros iset vs Hok Hf Hm.
  - exists iset, vs. done.
  - inversion_clear Hf as [|? ? Ho Hops]. rewrite zlen_cons in Hm.
    destruct (apply_op_spec poison o iset vs Hok) as (is' & vs' & H & Hok' & E & Hl);
      [pose proof (zlen_nonneg ops); lia|done|].
    destruct (IH is' vs' Hok' Hops ltac:(lia)) as (is2 & vs2 & H2 & Hok2 & E2).
    exists is2, vs2. unfold run_ops in *. simpl. mrun. rewrite H, E2, E. done.
Qed.

Lemma new_ok : intset_ok intsetNew [].
Proof.
  repeat split; simpl; try (constructor; fail); unfold valid_enc, MAX_LEN; auto; vm_compute; auto.
Qed.

(** C16: refinement. Any sequence of fewer than 2^28 insertions and removals of
    64-bit integers, run on a new intset, stays inside its allocations, and
    afterwards [intsetFind] answers membership in, and [intsetLen] the size of,
    the finite set the same operations build. *)
Theorem intset_refines_set poison ops :
  Forall (fun o => in_s64 (op_value o)) ops -> zlen ops < MAX_LEN ->
  exists iset, run_ops poison ops intsetNew = Some iset /\
    intsetLen iset = Z.of_nat (size (foldl spec_op ∅ ops)) /\
    forall v, in_s64 v -> intsetFind iset v = Some (bool_decide (v ∈ foldl spec_op ∅ ops)).
Proof.
  intros Hf Hm.
  destruct (run_ops_spec poison ops intsetNew [] new_ok Hf) as (iset & vs & H & Hok & E).
  { rewrite (@zlen_nil Z). lia. }
  change (members []) with (∅ : gset Z) in E. exists iset. split_and!; [done| |].
  - rewrite <- E, members_size by apply Hok. apply (st_len _ _ (proj1 Hok)).
  - intros v Hv. rewrite (find_spec iset vs v Hok Hv). f_equal. apply bool_decide_ext.
    rewrite <- E. unfold members. by rewrite elem_of_list_to_set.
Qed.

Lemma intset_refines_set_witness :
  exists iset,
    run_ops 170 [OpAdd 5; OpAdd (-3); OpAdd 70000; OpRemove 5; OpAdd (-5000000000)] intsetNew
    = Some iset /\ intsetLen iset = 3 /\ intsetFind iset 70000 = Some true.
Proof.
  destruct (intset_refines_set 170
    [OpAdd 5; OpAdd (-3); OpAdd 70000; OpRemove 5; OpAdd (-5000000000)]) as (iset & H & HL & HF).
  - repeat constructor; vm_compute; congruence.
  - vm_compute. done.
  - exists iset. split_and!; [done|rewrite HL; vm_compute; done|].
    rewrite HF by (vm_compute; split; congruence). vm_compute. done.
Defined.

(** Functional correctness of [intsetAdd] on every branch (already present,
    insertion in the middle, append, upgrade to a wider encoding at either end):
    it never leaves the allocation, reports success exactly when the value was
    absent, and gives a sorted packed set with the value added and no other change. *)
Theorem intsetAdd_correct poison iset vs value :
  intset_ok iset vs -> zlen vs + 1 < MAX_LEN -> in_s64 value ->
  exists iset' vs',
    intsetAdd poison iset value = Some (iset', negb (bool_decide (value ∈ vs))) /\
    intset_ok iset' vs' /\ members vs' = {[value]} ∪ members vs.
Proof. apply add_spec. Qed.

Lemma sample_ok : intset_ok (mkIntset 2 3 [253; 255; 5; 0; 44; 1]) [-3; 5; 300].
Proof.
  repeat split; simpl; try (unfold valid_enc, MAX_LEN, fits; auto; vm_compute; auto; fail).
  - repeat constructor; unfold fits; vm_compute; congruence.
  - repeat constructor; lia.
Qed.

Lemma intsetAdd_correct_witness :
  exists iset' vs',
    intsetAdd 0 (mkIntset 2 3 [253; 255; 5; 0; 44; 1]) 70000 = Some (iset', true) /\
    intset_ok iset' vs' /\ members vs' = {[70000]} ∪ members [-3; 5; 300].
Proof.
  destruct (intsetAdd_correct 0 _ _ 70000 sample_ok) as (iset' & vs' & H & Hok & E).
  - vm_compute. done.
  - vm_compute. split; congruence.
  - exists iset', vs'. done.
Defined.

(** [intsetSearch] terminates on every set, finds a value exactly when it is
    a member, and the position it stores is the number of members below the
    value, which is where the value is or would be inserted. *)
Theorem intsetSearch_correct iset vs value :
  intset_ok iset vs ->
  intsetSearch iset value
  = Some (bool_decide (value ∈ vs), zlen (filter (fun x => x < value) vs)).
Proof.
  intros Hok. destruct (search_spec iset vs value Hok) as (found & a & b & H & E & Fa & Hb).
  rewrite H, (found_iff found vs a b value E Fa Hb). do 3 f_equal.
  rewrite E, filter_app, (filter_all _ a) by done.
  rewrite (filter_none _ b); [by rewrite app_nil_r|].
  apply Forall_forall. intros x Hx Hlt. destruct found.
  - destruct Hb as [b' ->]. destruct Hok as (_ & Hs & _). rewrite E in Hs.
    apply sorted_lt_mid in Hs as (_ & _ & _ & Fb & _). rewrite Forall_forall in Fb.
    apply elem_of_cons in Hx as [->|Hx]; [lia|]. specialize (Fb _ Hx). lia.
  - rewrite Forall_forall in Hb. specialize (Hb _ Hx). lia.
Qed.

Lemma intsetSearch_correct_witness :
  intsetSearch (mkIntset 2 3 [253; 255; 5; 0; 44; 1]) 6 = Some (false, 2).
Proof.
  rewrite (intsetSearch_correct _ _ 6 sample_ok). vm_compute. done.
Defined.

Lemma sorted_lt_seqZ m n : sorted_lt (seqZ m n).
Proof.
  destruct (Z.le_gt_cases n 0) as [H|H]; [rewrite seqZ_nil by lia; constructor|].
  revert m. replace n with (Z.of_nat (Z.to_nat n)) by lia. generalize (Z.to_nat n). clear n H.
  induction n as [|n IH]; intros m; [constructor|].
  rewrite Nat2Z.inj_succ, seqZ_cons by lia. constructor.
  - replace (Z.pred _) with (Z.of_nat n) by lia. apply IH.
  - apply Forall_forall. intros x Hx%elem_of_seqZ. lia.
Qed.

(** C37: the 32-bit size computation of [intsetResize] bounds the set. With
    2^29 - 1 members of 8 bytes, appending one more makes [len * encoding] wrap
    to 0, [zrealloc] is asked for a header without contents, and the store of the
    new value falls outside the allocation. *)
Theorem intsetAdd_size_overflow poison iset vs value :
  stores iset vs -> sorted_lt vs -> encoding iset = INTSET_ENC_INT64 -> zlen vs = 2 ^ 29 - 1 ->
  in_s64 value -> Forall (fun x => x < value) vs ->
  contents (intsetResize poison iset (u32 (ilength iset + 1))) = [] /\
  intsetAdd poison iset value = None.
Proof.
  intros Hst Hs He Hn Hv Hall. pose proof (st_len _ _ Hst) as Hl.
  assert (HR : contents (intsetResize poison iset (u32 (ilength iset + 1))) = []).
  { unfold intsetResize. simpl contents. rewrite Hl, Hn, He.
    replace (u32 _) with 0 by reflexivity. reflexivity. }
  split; [done|]. unfold intsetAdd. rewrite He.
  assert (_intsetValueEncoding value <= 8)
    by (pose proof (valueEncoding_valid value); unfold valid_enc in *; lia).
  unfold INTSET_ENC_INT64. zif_false.
  assert (Hsearch : intsetSearch iset value = Some (false, ilength iset)).
  { unfold intsetSearch. rewrite Hl, Hn. simpl (_ =? 0). cbv iota.
    replace (s32 (u32 (2 ^ 29 - 1 - 1))) with (2 ^ 29 - 2) by reflexivity.
    destruct (stores_get_nth iset vs (2 ^ 29 - 2) Hst ltac:(lia)) as (x & Hg & Hx).
    rewrite Hg. mrun. apply list_elem_of_lookup_2 in Hx. rewrite Forall_forall in Hall.
    specialize (Hall _ Hx). zif_true. done. }
  rewrite Hsearch. mrun. set (grown := intsetResize _ _ _) in *.
  assert (Ee : encoding grown = 8) by exact He.
  assert (El : ilength grown = ilength iset) by done. clearbody grown.
  rewrite El. zif_false. mrun. unfold _intsetSet. rewrite Ee, HR, Hl, Hn. reflexivity.
Qed.

Lemma intsetAdd_size_overflow_witness :
  let vs := seqZ 0 (2 ^ 29 - 1) in
  intsetAdd 0 (mkIntset 8 (2 ^ 29 - 1) (packed 8 vs)) (2 ^ 40) = None.
Proof.
  intros vs. assert (Hz : zlen vs = 2 ^ 29 - 1) by (unfold zlen, vs; rewrite length_seqZ; lia).
  assert (Hr : Forall (fun x => 0 <= x < 2 ^ 29) vs).
  { apply Forall_forall. intros x Hx%elem_of_seqZ. lia. }
  assert (Hs : sorted_lt vs) by apply sorted_lt_seqZ. clearbody vs.
  apply (intsetAdd_size_overflow 0 (mkIntset 8 (2 ^ 29 - 1) (packed 8 vs)) vs (2 ^ 40)).
  - split; cbn [encoding ilength contents].
    + right; right; reflexivity.
    + exact (eq_sym Hz).
    + reflexivity.
    + eapply Forall_impl; [exact Hr|]. intros x Hx. cbv beta in Hx. unfold fits.
      change (2 ^ (8 * 8 - 1)) with 9223372036854775808. lia.
  - exact Hs.
  - reflexivity.
  - exact Hz.
  - vm_compute. split; congruence.
  - eapply Forall_impl; [exact Hr|]. intros x Hx. cbv beta in Hx. lia.
Defined.

End Intset.
