(* ===== verification/Dict.v ===== *)
(** * Hash tables with incremental rehashing: src/redis5/src/dict.c

    A [dict] owns two hash tables.  Normally only [ht0] is used; while a resize
    is in progress ([rehashidx] is not -1) the buckets of [ht0] below
    [rehashidx] have already moved to [ht1], and every lookup or update moves a
    little more.  A bucket is the list of its chained entries, head first; the
    C pointer to an entry is a [ref]: table, bucket and position in the chain.
    An array access outside a table, a failed [assert] and a loop that runs out
    of fuel all give [None], so a result [Some _] means none of them happened. *)

From S2P Require Import Prelude.

Module Dict.

(** ** The function table of a dictionary (struct dictType) *)

Class DictType (K V : Type) := {
  hashFunction : K -> Z;
  keyDup : option (K -> K);
  valDup : option (V -> V);
  keyCompare : K -> K -> bool;
}.

(** What dict.c relies on: two keys compare equal exactly when they have the same
    normal form (the bytes, or the bytes in lower case), equal keys have the same
    64-bit hash, and a duplicated key is equal to its original. *)
Class DictTypeLaws (K V N : Type) `{DictType K V} := {
  keyNorm : K -> N;
  keyCompare_spec : forall a b, keyCompare a b = true <-> keyNorm a = keyNorm b;
  hash_norm : forall a b, keyNorm a = keyNorm b -> hashFunction a = hashFunction b;
  hash_range : forall a, in_u64 (hashFunction a);
  keyDup_norm : forall f k, keyDup = Some f -> keyNorm (f k) = keyNorm k;
}.

Definition DICT_HT_INITIAL_SIZE := 4.
Definition LONG_MAX := 9223372036854775807.
Definition dict_force_resize_ratio := 5.

Section Dict.
Context {K V : Type} `{dictType : DictType K V}.

Record dictEntry := mkEntry { de_key : K; de_val : V }.

(** The buckets of the block [table] points to.  The pointer itself is NULL exactly
    when [size] is 0: the two are always set together. *)
Record dictht := mkHt {
  table : list (list dictEntry);
  size : Z;
  sizemask : Z;
  used : Z;
}.

Record dict := mkDict {
  ht0 : dictht;
  ht1 : dictht;
  rehashidx : Z;
  iterators : Z;
}.

Definition dictIsRehashing (d : dict) : bool := negb (rehashidx d =? -1).
Definition dictSize (d : dict) : Z := u64 (used (ht0 d) + used (ht1 d)).
Definition dictSlots (d : dict) : Z := u64 (size (ht0 d) + size (ht1 d)).

Definition with_hts (d : dict) (a b : dictht) : dict :=
  mkDict a b (rehashidx d) (iterators d).

Definition _dictReset : dictht := mkHt [] 0 0 0.

Definition _dictInit : dict := mkDict _dictReset _dictReset (-1) 0.
Definition dictCreate : dict := _dictInit.

(** [for i = DICT_HT_INITIAL_SIZE; ; i *= 2] *)
Fixpoint _dictNextPower_loop (fuel : nat) (i sz : Z) : Z :=
  match fuel with
  | O => i
  | S fuel => if i >=? sz then i else _dictNextPower_loop fuel (u64 (i * 2)) sz
  end.

Definition _dictNextPower (sz : Z) : Z :=
  if sz >=? LONG_MAX then LONG_MAX + 1
  else _dictNextPower_loop 64 DICT_HT_INITIAL_SIZE sz.

(** [true] is DICT_OK, [false] is DICT_ERR.  The number of bytes of the table,
    [realsize] times the size of a pointer, is computed in [size_t]. *)
Definition sizeof_ptr := 8.

Definition dictExpand (d : dict) (sz : Z) : bool * dict :=
  if dictIsRehashing d || (used (ht0 d) >? sz) then (false, d)
  else
    let realsize := _dictNextPower sz in
    if realsize =? size (ht0 d) then (false, d)
    else
      let n := mkHt (replicate (Z.to_nat (u64 (realsize * sizeof_ptr) / sizeof_ptr)) []) realsize (u64 (realsize - 1)) 0 in
      if size (ht0 d) =? 0 then (true, with_hts d n (ht1 d))
      else (true, mkDict (ht0 d) n 0 (iterators d)).

Definition dictResize (dict_can_resize : bool) (d : dict) : bool * dict :=
  if negb dict_can_resize || dictIsRehashing d then (false, d)
  else
    let minimal := s32 (used (ht0 d)) in
    let minimal := if minimal <? DICT_HT_INITIAL_SIZE then DICT_HT_INITIAL_SIZE else minimal in
    dictExpand d (u64 minimal).

(** ** Rehashing *)

(** Skip the empty buckets at [rehashidx]; [inl] is the early [return 1]. *)
Fixpoint rehash_skip (fuel : nat) (d : dict) (empty_visits : Z)
    : option (dict + dict * Z) :=
  match fuel with
  | O => None
  | S fuel =>
      bucket ← table (ht0 d) !! Z.to_nat (rehashidx d);
      match bucket with
      | [] =>
          let d := mkDict (ht0 d) (ht1 d) (rehashidx d + 1) (iterators d) in
          let empty_visits := s32 (empty_visits - 1) in
          if empty_visits =? 0 then Some (inl d) else rehash_skip fuel d empty_visits
      | _ => Some (inr (d, empty_visits))
      end
  end.

(** The inner [while(de)]: move a chain to [ht1], entry by entry. *)
Fixpoint rehash_chain (chain : list dictEntry) (d : dict) : option dict :=
  match chain with
  | [] => Some d
  | de :: nextde =>
      let h := Z.land (hashFunction (de_key de)) (sizemask (ht1 d)) in
      bucket ← table (ht1 d) !! Z.to_nat h;
      let t1 := <[Z.to_nat h := de :: bucket]> (table (ht1 d)) in
      rehash_chain nextde
        (with_hts d
          (mkHt (table (ht0 d)) (size (ht0 d)) (sizemask (ht0 d)) (u64 (used (ht0 d) - 1)))
          (mkHt t1 (size (ht1 d)) (sizemask (ht1 d)) (u64 (used (ht1 d) + 1))))
  end.

(** [while(n-- && d->ht[0].used != 0)]; [inl] is the early [return 1]. *)
Fixpoint rehash_loop (n : nat) (d : dict) (empty_visits : Z) : option (dict + dict) :=
  match n with
  | O => Some (inr d)
  | S n =>
      if used (ht0 d) =? 0 then Some (inr d)
      else if negb (size (ht0 d) >? u64 (rehashidx d)) then None (* assert *)
      else
        r ← rehash_skip (S (length (table (ht0 d)))) d empty_visits;
        match r with
        | inl d => Some (inl d)
        | inr (d, empty_visits) =>
            de ← table (ht0 d) !! Z.to_nat (rehashidx d);
            d ← rehash_chain de d;
            let t0 := <[Z.to_nat (rehashidx d) := []]> (table (ht0 d)) in
            rehash_loop n
              (mkDict (mkHt t0 (size (ht0 d)) (sizemask (ht0 d)) (used (ht0 d))) (ht1 d)
                 (rehashidx d + 1) (iterators d)) empty_visits
        end
  end.

(** [true] is the result 1 (more to rehash), [false] is 0.  The overflow of [n*10]
    is undefined. *)
Definition dictRehash (d : dict) (n : nat) : option (bool * dict) :=
  if Z.of_nat n * 10 >? INT32_MAX then None else
  let empty_visits := Z.of_nat n * 10 in
  if negb (dictIsRehashing d) then Some (false, d)
  else
    r ← rehash_loop n d empty_visits;
    match r with
    | inl d => Some (true, d)
    | inr d =>
        if used (ht0 d) =? 0
        then Some (false, mkDict (ht1 d) _dictReset (-1) (iterators d))
        else Some (true, d)
    end.

(** [clock] holds the successive results of [timeInMilliseconds()] after [start];
    the result is the number of buckets asked for. *)
Fixpoint dictRehashMilliseconds (start ms : Z) (clock : list Z) (rehashes : Z) (d : dict)
    : option (Z * dict) :=
  '(more, d) ← dictRehash d 100;
  if (more : bool) then
    match clock with
    | [] => None
    | t :: clock =>
        let rehashes := s32 (rehashes + 100) in
        if t - start >? ms then Some (rehashes, d)
        else dictRehashMilliseconds start ms clock rehashes d
    end
  else Some (rehashes, d).

Definition _dictRehashStep (d : dict) : option dict :=
  if iterators d =? 0 then snd <$> dictRehash d 1 else Some d.

(** The guard [if (dictIsRehashing(d)) _dictRehashStep(d)] of every operation. *)
Definition rehash_if_needed (d : dict) : option dict :=
  if dictIsRehashing d then _dictRehashStep d else Some d.

(** ** Lookup *)

(** Position of [key] in a chain. *)
Fixpoint chain_find (key : K) (chain : list dictEntry) : option nat :=
  match chain with
  | [] => None
  | he :: next =>
      if keyCompare key (de_key he) then Some O else S <$> chain_find key next
  end.

Definition get_ht (d : dict) (t : bool) : dictht := if t then ht1 d else ht0 d.
Definition set_ht (d : dict) (t : bool) (h : dictht) : dict :=
  if t then with_hts d (ht0 d) h else with_hts d h (ht1 d).

(** A pointer to an entry: table ([true] is [ht1]), bucket, place in the chain. *)
Definition ref : Type := bool * Z * nat.

(** [for (table = 0; table <= 1; table++)] with its bucket search and its exit
    after the first table when the dictionary is not rehashing: the reference
    found, and the last bucket index computed. *)
Definition search_tables (d : dict) (key : K) (h : Z) : option (option ref * Z) :=
  let idx0 := Z.land h (sizemask (ht0 d)) in
  c0 ← table (ht0 d) !! Z.to_nat idx0;
  match chain_find key c0 with
  | Some p => Some (Some (false, idx0, p), idx0)
  | None =>
      if negb (dictIsRehashing d) then Some (None, idx0)
      else
        let idx1 := Z.land h (sizemask (ht1 d)) in
        c1 ← table (ht1 d) !! Z.to_nat idx1;
        match chain_find key c1 with
        | Some p => Some (Some (true, idx1, p), idx1)
        | None => Some (None, idx1)
        end
  end.

Definition deref (d : dict) (r : ref) : option dictEntry :=
  let '(t, idx, p) := r in
  chain ← table (get_ht d t) !! Z.to_nat idx; chain !! p.

Definition dictFind (d : dict) (key : K) : option (dict * option ref) :=
  if u64 (used (ht0 d) + used (ht1 d)) =? 0 then Some (d, None)
  else
    d ← rehash_if_needed d;
    r ← search_tables d key (hashFunction key);
    Some (d, fst r).

Definition dictFetchValue (d : dict) (key : K) : option (dict * option V) :=
  '(d, he) ← dictFind d key;
  match he with
  | None => Some (d, None)
  | Some r => e ← deref d r; Some (d, Some (de_val e))
  end.

(** ** Insertion *)

Definition _dictExpandIfNeeded (dict_can_resize : bool) (d : dict) : bool * dict :=
  if dictIsRehashing d then (true, d)
  else if size (ht0 d) =? 0 then dictExpand d DICT_HT_INITIAL_SIZE
  else if (used (ht0 d) >=? size (ht0 d)) &&
          (dict_can_resize || (used (ht0 d) / size (ht0 d) >? dict_force_resize_ratio))
  then dictExpand d (u64 (used (ht0 d) * 2))
  else (true, d).

(** The three outcomes of [_dictKeyIndex]: a free slot, or -1 with or without
    [*existing] set. *)
Inductive key_index :=
  | KIndex (idx : Z)
  | KExisting (r : ref)
  | KErr.

Definition _dictKeyIndex (dict_can_resize : bool) (d : dict) (key : K) (hash : Z)
    : option (dict * key_index) :=
  let '(ok, d) := _dictExpandIfNeeded dict_can_resize d in
  if negb ok then Some (d, KErr)
  else
    '(found, idx) ← search_tables d key hash;
    match found with
    | Some r => Some (d, KExisting r)
    | None => Some (d, KIndex idx)
    end.

Definition dup_key (key : K) : K := match keyDup with Some f => f key | None => key end.
Definition dup_val (val : V) : V := match valDup with Some f => f val | None => val end.

(** What [zmalloc] leaves in the value of an entry that is not set yet. *)
Context (uninit : V).

(** The new entry ([inl]) or NULL with [*existing] ([inr]). *)
Definition dictAddRaw (dict_can_resize : bool) (d : dict) (key : K)
    : option (dict * (ref + option ref)) :=
  d ← rehash_if_needed d;
  '(d, ki) ← _dictKeyIndex dict_can_resize d key (hashFunction key);
  match ki with
  | KErr => Some (d, inr None)
  | KExisting r => Some (d, inr (Some r))
  | KIndex index =>
      let t := dictIsRehashing d in
      let ht := get_ht d t in
      bucket ← table ht !! Z.to_nat index;
      let entry := mkEntry (dup_key key) uninit in
      let ht := mkHt (<[Z.to_nat index := entry :: bucket]> (table ht)) (size ht) (sizemask ht)
                  (u64 (used ht + 1)) in
      Some (set_ht d t ht, inl (t, index, O))
  end.

(** [dictSetVal] through a pointer to the entry. *)
Definition dictSetVal (d : dict) (r : ref) (val : V) : option dict :=
  let '(t, idx, p) := r in
  let ht := get_ht d t in
  chain ← table ht !! Z.to_nat idx;
  e ← chain !! p;
  let chain := <[p := mkEntry (de_key e) (dup_val val)]> chain in
  Some (set_ht d t (mkHt (<[Z.to_nat idx := chain]> (table ht)) (size ht) (sizemask ht) (used ht))).

Definition dictAdd (dict_can_resize : bool) (d : dict) (key : K) (val : V)
    : option (dict * bool) :=
  '(d, r) ← dictAddRaw dict_can_resize d key;
  match r with
  | inr _ => Some (d, false)
  | inl entry => d ← dictSetVal d entry val; Some (d, true)
  end.

(** [Some (d, true)]: added (return 1); [Some (d, false)]: updated (return 0). *)
Definition dictReplace (dict_can_resize : bool) (d : dict) (key : K) (val : V)
    : option (dict * bool) :=
  '(d, r) ← dictAddRaw dict_can_resize d key;
  match r with
  | inl entry => d ← dictSetVal d entry val; Some (d, true)
  | inr None => None (* [*existing] is NULL and is read *)
  | inr (Some existing) => d ← dictSetVal d existing val; Some (d, false)
  end.

Definition dictAddOrFind (dict_can_resize : bool) (d : dict) (key : K)
    : option (dict * option ref) :=
  '(d, r) ← dictAddRaw dict_can_resize d key;
  match r with
  | inl entry => Some (d, Some entry)
  | inr existing => Some (d, existing)
  end.

(** ** Deletion *)

(** The entry that was unlinked, if the key was found. *)
Definition dictGenericDelete (d : dict) (key : K) : option (dict * option dictEntry) :=
  if (used (ht0 d) =? 0) && (used (ht1 d) =? 0) then Some (d, None)
  else
    d ← rehash_if_needed d;
    '(found, _) ← search_tables d key (hashFunction key);
    match found with
    | None => Some (d, None)
    | Some (t, idx, p) =>
        let ht := get_ht d t in
        chain ← table ht !! Z.to_nat idx;
        he ← chain !! p;
        let t' := <[Z.to_nat idx := delete p chain]> (table ht) in
        Some (set_ht d t (mkHt t' (size ht) (sizemask ht) (u64 (used ht - 1))), Some he)
    end.

Definition dictDelete (d : dict) (key : K) : option (dict * bool) :=
  '(d, he) ← dictGenericDelete d key; Some (d, match he with Some _ => true | None => false end).

Definition dictUnlink (d : dict) (key : K) : option (dict * option dictEntry) :=
  dictGenericDelete d key.

(** The loop of [_dictClear], [i < ht->size && ht->used > 0]: the entries freed,
    and the final value of [used]. *)
Fixpoint clear_loop (tbl : list (list dictEntry)) (u : Z) (freed : list dictEntry)
    : list dictEntry * Z :=
  match tbl with
  | [] => (freed, u)
  | chain :: tbl =>
      if u >? 0 then clear_loop tbl (u64 (u - zlen chain)) (freed ++ chain) else (freed, u)
  end.

Definition _dictClear (ht : dictht) : list dictEntry * dictht :=
  (fst (clear_loop (table ht) (used ht) []), _dictReset).

(** The emptied dictionary and the entries that were freed. *)
Definition dictEmpty (d : dict) : list dictEntry * dict :=
  let '(f0, h0) := _dictClear (ht0 d) in
  let '(f1, h1) := _dictClear (ht1 d) in
  (f0 ++ f1, mkDict h0 h1 (-1) 0).

(** [dictRelease] clears both tables and frees the structure. *)
Definition dictRelease (d : dict) : list dictEntry :=
  fst (_dictClear (ht0 d)) ++ fst (_dictClear (ht1 d)).

End Dict.

Arguments dictEntry : clear implicits.
Arguments dictht : clear implicits.
Arguments dict : clear implicits.

(** ** The representation invariant and the map a dictionary stands for *)

Section Invariant.
Context {K V N : Type} `{dictType : DictType K V} `{Countable N} `{!DictTypeLaws K V N}.

Definition norm (e : dictEntry K V) : N := keyNorm (V := V) (de_key e).
Definition bucket_of (mask : Z) (k : K) : nat := Z.to_nat (Z.land (hashFunction (V := V) k) mask).

(** A hash table: unallocated, or a power of two of buckets, each entry in the
    bucket its hash selects, [used] counting the entries. *)
Record ht_ok (h : dictht K V) : Prop := {
  ok_len : zlen (table h) = size h;
  ok_used : used h = zlen (concat (table h));
  ok_size : (size h = 0 /\ sizemask h = 0) \/
            (exists k, 2 <= k <= 60 /\ size h = 2 ^ k /\ sizemask h = 2 ^ k - 1);
  ok_place : forall i c e, table h !! i = Some c -> e ∈ c ->
             bucket_of (sizemask h) (de_key e) = i;
}.

Definition entries (d : dict K V) : list (dictEntry K V) :=
  concat (table (ht0 d)) ++ concat (table (ht1 d)).

(** Where a dictionary is in a resize: not rehashing, with an unallocated [ht1],
    or rehashing with nothing left in [ht0] below [rehashidx]. *)
Definition phase_ok (d : dict K V) : Prop :=
  (rehashidx d = -1 /\ ht1 d = _dictReset) \/
  (0 <= rehashidx d <= size (ht0 d) /\ size (ht0 d) <> 0 /\ size (ht1 d) <> 0 /\
   forall i, Z.of_nat i < rehashidx d -> table (ht0 d) !! i = Some []).

Definition MAX_ENTRIES := 2 ^ 61.

(** With more entries than this a table grows beyond 2^60 buckets, the most that
    can be allocated: the size of a bigger one in bytes wraps around to 0. *)
Definition MAX_GROWTH := 2 ^ 59.

Record dict_ok (d : dict K V) : Prop := {
  ok_ht0 : ht_ok (ht0 d);
  ok_ht1 : ht_ok (ht1 d);
  ok_phase : phase_ok d;
  ok_keys : NoDup (norm <$> entries d);
  ok_count : zlen (entries d) < MAX_ENTRIES;
}.

(** The finite map from normalized keys to values. *)
Definition map_of (l : list (dictEntry K V)) : gmap N V :=
  list_to_map ((fun e => (norm e, de_val e)) <$> l).
Definition dict_map (d : dict K V) : gmap N V := map_of (entries d).

(** *** Tables as permutations of their entries *)

Lemma concat_insert {A} (t : list (list A)) i c c' :
  t !! i = Some c ->
  concat t ≡ₚ c ++ concat (delete i t) /\ concat (<[i := c']> t) ≡ₚ c' ++ concat (delete i t).
Proof.
  revert i. induction t as [|x t IH]; intros [|i] Hi; simplify_eq/=; [done|].
  destruct (IH i Hi) as [H1 H2]. rewrite H1 at 1. rewrite H2.
  split; rewrite !app_assoc; f_equiv; apply Permutation_app_comm.
Qed.

Lemma concat_insert_app {A} (t : list (list A)) i c x :
  t !! i = Some c -> concat (<[i := x ++ c]> t) ≡ₚ x ++ concat t.
Proof.
  intros Hi. destruct (concat_insert t i c (x ++ c) Hi) as [H1 H2].
  by rewrite H1, H2, app_assoc.
Qed.

Lemma in_concat_bucket {A} (t : list (list A)) e :
  e ∈ concat t <-> exists i c, t !! i = Some c /\ e ∈ c.
Proof.
  rewrite list_elem_of_In, in_concat. setoid_rewrite <- list_elem_of_In. split.
  - intros (c & Hc & He). apply list_elem_of_lookup in Hc as [i Hi]. eauto.
  - intros (i & c & Hi & He). exists c. split; [|done]. by eapply list_elem_of_lookup_2.
Qed.

Lemma zlen_perm {A} (l k : list A) : l ≡ₚ k -> zlen l = zlen k.
Proof. intros E. unfold zlen. by rewrite E. Qed.

Lemma zlen_concat_insert {A} (t : list (list A)) i c c' :
  t !! i = Some c -> zlen (concat (<[i := c']> t)) = zlen (concat t) - zlen c + zlen c'.
Proof.
  intros Hi. destruct (concat_insert t i c c' Hi) as [H1 H2].
  rewrite (zlen_perm _ _ H1), (zlen_perm _ _ H2), !zlen_app. lia.
Qed.

(** *** One hash table *)

Lemma reset_ok : ht_ok _dictReset.
Proof. split; simpl; [done|done|by left|]. intros i c e Hi. by rewrite lookup_nil in Hi. Qed.

Lemma mask_range h k :
  ht_ok h -> size h <> 0 -> 0 <= Z.land (hashFunction (V := V) k) (sizemask h) < size h.
Proof.
  intros [_ _ Hs _] Hn. destruct Hs as [[? _]|(p & Hp & -> & ->)]; [lia|].
  pose proof (hash_range (V := V) k) as Hr. unfold in_u64 in Hr.
  replace (2 ^ p - 1) with (Z.ones p) by (rewrite Z.ones_equiv; lia).
  rewrite Z.land_ones by lia. apply Z.mod_pos_bound, pow2_pos. lia.
Qed.

Lemma bucket_lookup h k :
  ht_ok h -> size h <> 0 -> exists c, table h !! bucket_of (sizemask h) k = Some c.
Proof.
  intros Hok Hn. pose proof (mask_range h k Hok Hn). apply lookup_lt_is_Some_2.
  pose proof (ok_len h Hok) as Hl. unfold bucket_of, zlen in *. lia.
Qed.

(** Replace one bucket, keeping every entry where its hash says. *)
Lemma ht_ok_update h i c c' :
  ht_ok h -> table h !! i = Some c ->
  Forall (fun e => bucket_of (sizemask h) (de_key e) = i) c' ->
  ht_ok (mkHt (<[i := c']> (table h)) (size h) (sizemask h) (used h - zlen c + zlen c')).
Proof.
  intros [Hl Hu Hs Hp] Hi Hc. split; simpl; [|  |done|].
  - unfold zlen in *. by rewrite length_insert.
  - rewrite (zlen_concat_insert _ _ _ _ Hi). lia.
  - intros j b e Hj He. destruct (decide (i = j)) as [<-|Hne].
    + rewrite list_lookup_insert_eq in Hj by (by eapply lookup_lt_Some). simplify_eq.
      rewrite Forall_forall in Hc. auto.
    + rewrite list_lookup_insert_ne in Hj by done. eauto.
Qed.

Lemma used_bounds h : ht_ok h -> 0 <= used h.
Proof. intros Hok. rewrite (ok_used h Hok). apply zlen_nonneg. Qed.

Lemma concat_all_nil {A} (t : list (list A)) :
  (forall i c, t !! i = Some c -> c = []) -> concat t = [].
Proof.
  intros Ht. apply elem_of_nil_inv. intros x (i & c & Hi & Hx)%in_concat_bucket.
  rewrite (Ht i c Hi) in Hx. by apply elem_of_nil in Hx.
Qed.

Lemma size_le_pow h : ht_ok h -> 0 <= size h <= 2 ^ 60.
Proof.
  intros [_ _ [[-> _]|(k & Hk & -> & _)] _]; [lia|].
  split; [lia|]. apply Z.pow_le_mono_r; lia.
Qed.

(** *** Moving along a permutation of the entries *)

Lemma entries_nodup_perm d d' :
  entries d' ≡ₚ entries d -> NoDup (norm <$> entries d) -> NoDup (norm <$> entries d').
Proof. intros E. by rewrite E. Qed.

Lemma map_of_perm l k : NoDup (norm <$> l) -> k ≡ₚ l -> map_of k = map_of l.
Proof.
  intros Hn E. unfold map_of. apply list_to_map_proper.
  - rewrite <- list_fmap_compose. unfold compose. simpl. by rewrite E.
  - by rewrite E.
Qed.

Lemma dict_map_perm d l :
  NoDup (norm <$> entries d) -> entries d ≡ₚ l -> dict_map d = map_of l.
Proof. intros Hn E. symmetry. by apply map_of_perm. Qed.

Lemma dict_map_lookup d e :
  NoDup (norm <$> entries d) -> e ∈ entries d -> dict_map d !! norm e = Some (de_val e).
Proof.
  intros Hn He. unfold dict_map, map_of. apply elem_of_list_to_map_1.
  - by rewrite <- list_fmap_compose.
  - apply list_elem_of_fmap. eauto.
Qed.

Lemma dict_map_None d n : n ∉ norm <$> entries d -> dict_map d !! n = None.
Proof.
  intros Hn. unfold dict_map, map_of. apply not_elem_of_list_to_map_1. by rewrite <- list_fmap_compose.
Qed.

Lemma nodup_norm_eq d e e' :
  NoDup (norm <$> entries d) -> e ∈ entries d -> e' ∈ entries d -> norm e = norm e' -> e = e'.
Proof.
  intros Hn He He' E.
  apply list_elem_of_lookup in He as [i Hi]. apply list_elem_of_lookup in He' as [j Hj].
  assert (i = j) as <-; [|congruence].
  eapply (NoDup_lookup _ i j (norm e) Hn); rewrite list_lookup_fmap;
    [by rewrite Hi|by rewrite Hj, E].
Qed.

(** *** Rehashing keeps every entry *)

Definition rehashing (d : dict K V) : Prop := rehashidx d <> -1.

Lemma isRehashing_spec (d : dict K V) : dictIsRehashing d = true <-> rehashing d.
Proof. unfold dictIsRehashing, rehashing. rewrite negb_true_iff, Z.eqb_neq. done. Qed.

Lemma isRehashing_false (d : dict K V) : dictIsRehashing d = false <-> rehashidx d = -1.
Proof. unfold dictIsRehashing. rewrite negb_false_iff, Z.eqb_eq. done. Qed.

Lemma rehash_chain_ok chain : forall d : dict K V,
  ht_ok (ht1 d) -> size (ht1 d) <> 0 ->
  zlen chain <= used (ht0 d) < 2 ^ 64 -> used (ht1 d) + zlen chain < 2 ^ 64 ->
  exists h1,
    rehash_chain chain d = Some (with_hts d
      (mkHt (table (ht0 d)) (size (ht0 d)) (sizemask (ht0 d)) (used (ht0 d) - zlen chain)) h1) /\
    ht_ok h1 /\ concat (table h1) ≡ₚ chain ++ concat (table (ht1 d)) /\ size h1 = size (ht1 d).
Proof.
  induction chain as [|e chain IH]; intros d Hok Hs Hu0 Hu1.
  - exists (ht1 d). split_and!; [|done..]. simpl. unfold with_hts.
    destruct d as [[] [] ? ?]; simpl. do 3 f_equal. rewrite (@zlen_nil (dictEntry K V)). lia.
  - rewrite zlen_cons in Hu0, Hu1. pose proof (zlen_nonneg chain). cbn [rehash_chain].
    pose proof (used_bounds _ Hok) as Hub.
    destruct (bucket_lookup (ht1 d) (de_key e) Hok Hs) as [c Hc].
    fold (bucket_of (sizemask (ht1 d)) (de_key e)). rewrite Hc. mrun.
    pose proof (ht_ok_update (ht1 d) _ c (e :: c) Hok Hc) as Hok'.
    rewrite zlen_cons in Hok'. replace (used (ht1 d) - zlen c + (1 + zlen c))
      with (used (ht1 d) + 1) in Hok' by lia.
    rewrite !uN_id by lia.
    match goal with |- context [rehash_chain chain ?x] => set (d' := x) end.
    destruct (IH d') as (h1 & HR & Hok1 & Hp & Hsz); simpl; [|lia..|].
    { apply Hok'. constructor; [done|]. apply Forall_forall. intros x Hx.
      by eapply (ok_place _ Hok). }
    exists h1. rewrite HR. split_and!; [|done| |done].
    + unfold with_hts; simpl. do 3 f_equal. rewrite zlen_cons. lia.
    + rewrite Hp. simpl. rewrite (concat_insert_app _ _ c [e] Hc). simpl.
      by rewrite Permutation_middle.
Qed.

Definition advance (d : dict K V) (i : Z) : dict K V :=
  mkDict (ht0 d) (ht1 d) i (iterators d).

(** While [ht0] is not empty there is a bucket to move at or after [rehashidx]. *)
Lemma pending_bucket d :
  dict_ok d -> 0 <= rehashidx d -> used (ht0 d) <> 0 ->
  exists c, table (ht0 d) !! Z.to_nat (rehashidx d) = Some c /\ rehashidx d < size (ht0 d) /\
    (c = [] -> phase_ok (advance d (rehashidx d + 1))).
Proof.
  intros [Hok0 _ Hph _ _] Hr Hu.
  destruct Hph as [[? _]|(Hri & Hs0 & Hs1 & Hlow)]; [lia|].
  assert (Hlt : rehashidx d < size (ht0 d)).
  { destruct (Z.lt_ge_cases (rehashidx d) (size (ht0 d))) as [|Hge]; [done|]. exfalso.
    apply Hu. rewrite (ok_used _ Hok0), concat_all_nil; [done|].
    intros i c Hi. pose proof (lookup_lt_Some _ _ _ Hi) as Hil.
    pose proof (ok_len _ Hok0) as Hl. unfold zlen in Hl.
    rewrite Hlow in Hi by lia. by simplify_eq. }
  destruct (lookup_lt_is_Some_2 (table (ht0 d)) (Z.to_nat (rehashidx d))) as [c Hc].
  { pose proof (ok_len _ Hok0) as Hl. unfold zlen in Hl. lia. }
  exists c. split_and!; [done|done|]. intros ->. right. simpl. split_and!; [lia|lia|done|done|].
  intros i Hi. destruct (decide (i = Z.to_nat (rehashidx d))) as [->|]; [done|]. apply Hlow. lia.
Qed.

Lemma advance_ok d i : dict_ok d -> phase_ok (advance d i) -> dict_ok (advance d i).
Proof. by intros [] Hph. Qed.

Lemma rehash_skip_ok fuel : forall d ev,
  dict_ok d -> 0 <= rehashidx d -> used (ht0 d) <> 0 ->
  size (ht0 d) - rehashidx d < Z.of_nat fuel ->
  exists i, rehashidx d <= i <= size (ht0 d) /\ dict_ok (advance d i) /\
    ((rehash_skip fuel d ev = Some (inl (advance d i)) /\ rehashidx d < i) \/
     (exists ev' c, rehash_skip fuel d ev = Some (inr (advance d i, ev')) /\
        table (ht0 d) !! Z.to_nat i = Some c /\ i < size (ht0 d))).
Proof.
  induction fuel as [|fuel IH]; intros d ev Hok Hr Hu Hf.
  { destruct (pending_bucket d Hok Hr Hu) as (c & _ & Hlt & _). lia. }
  destruct (pending_bucket d Hok Hr Hu) as (c & Hc & Hlt & Hnext).
  cbn [rehash_skip]. rewrite Hc. mrun. destruct c as [|e c].
  - assert (Hok' : dict_ok (advance d (rehashidx d + 1))) by (apply advance_ok; auto).
    fold (advance d (rehashidx d + 1)). destruct (_ =? 0).
    + exists (rehashidx d + 1). split_and!; [lia|lia|done|]. left. split; [done|lia].
    + destruct (IH (advance d (rehashidx d + 1)) (s32 (ev - 1)) Hok') as (i & Hi & Hoki & Hres);
        simpl; [lia|done|lia|]. simpl in Hi.
      exists i. split_and!; [lia|lia|done|]. destruct Hres as [[HR Hlt']|Hres]; [left|by right].
      split; [done|]. simpl in Hlt'. lia.
  - exists (rehashidx d). destruct d as [h0 h1 ri it]; simpl in *.
    split_and!; [lia|lia|done|]. right. eexists _, _. done.
Qed.

(** Move the bucket at [rehashidx] and step over it. *)
Lemma move_bucket_ok d c :
  dict_ok d -> 0 <= rehashidx d < size (ht0 d) ->
  table (ht0 d) !! Z.to_nat (rehashidx d) = Some c ->
  exists d1 d2, rehash_chain c d = Some d1 /\
    d2 = mkDict (mkHt (<[Z.to_nat (rehashidx d1) := []]> (table (ht0 d1))) (size (ht0 d1))
                   (sizemask (ht0 d1)) (used (ht0 d1))) (ht1 d1)
           (rehashidx d1 + 1) (iterators d1) /\
    dict_ok d2 /\ entries d2 ≡ₚ entries d /\ rehashidx d2 = rehashidx d + 1 /\
    iterators d2 = iterators d /\ size (ht0 d2) = size (ht0 d).
Proof.
  intros Hok Hr Hc. pose proof Hok as [Hok0 Hok1 Hph Hn Hcnt].
  destruct Hph as [[? _]|(Hri & Hs0 & Hs1 & Hlow)]; [lia|].
  destruct (concat_insert (table (ht0 d)) _ c [] Hc) as [Hp1 Hp2].
  assert (Hsum : zlen (entries d) = used (ht0 d) + used (ht1 d))
    by (unfold entries; rewrite zlen_app, (ok_used _ Hok0), (ok_used _ Hok1); done).
  assert (Hc0 : zlen c <= used (ht0 d)).
  { rewrite (ok_used _ Hok0), (zlen_perm _ _ Hp1), zlen_app.
    pose proof (zlen_nonneg (concat (delete (Z.to_nat (rehashidx d)) (table (ht0 d))))). lia. }
  pose proof (used_bounds _ Hok0). pose proof (used_bounds _ Hok1). unfold MAX_ENTRIES in Hcnt.
  destruct (rehash_chain_ok c d Hok1 Hs1) as (h1 & HR & Hokh & Hp & Hsz); [lia|lia|].
  eexists _, _. split; [exact HR|]. split; [done|]. simpl.
  pose proof (ht_ok_update (ht0 d) _ c [] Hok0 Hc ltac:(constructor)) as Hok0'.
  change (zlen (@nil (dictEntry K V))) with 0 in Hok0'. rewrite Z.add_0_r in Hok0'.
  match goal with |- dict_ok ?x /\ _ => set (d2 := x) end.
  assert (Hperm : entries d2 ≡ₚ entries d).
  { unfold entries, d2; simpl. rewrite Hp, Hp2, Hp1. simpl.
    rewrite app_assoc. f_equiv. apply Permutation_app_comm. }
  split_and!; try done. split; simpl; [done|done| | |].
  - right. simpl. split_and!; [lia|lia|done|lia|]. intros i Hi.
    destruct (decide (i = Z.to_nat (rehashidx d))) as [->|Hne].
    + apply list_lookup_insert_eq. by eapply lookup_lt_Some.
    + rewrite list_lookup_insert_ne by done. apply Hlow. lia.
  - by eapply entries_nodup_perm.
  - by rewrite (zlen_perm _ _ Hperm).
Qed.

Lemma rehash_loop_ok n : forall d ev,
  dict_ok d -> 0 <= rehashidx d ->
  exists d', (rehash_loop n d ev = Some (inl d') \/ rehash_loop n d ev = Some (inr d')) /\
    dict_ok d' /\ entries d' ≡ₚ entries d /\ iterators d' = iterators d /\
    size (ht0 d') = size (ht0 d) /\ rehashidx d <= rehashidx d' /\
    (n <> O -> used (ht0 d) <> 0 -> rehashidx d < rehashidx d').
Proof.
  induction n as [|n IH]; intros d ev Hok Hr; cbn [rehash_loop].
  { exists d. split_and!; auto; done || lia. }
  destruct (Z.eqb_spec (used (ht0 d)) 0) as [Hu|Hu].
  { exists d. split_and!; auto; done || lia. }
  destruct (pending_bucket d Hok Hr Hu) as (c0 & _ & Hlt & _).
  pose proof (size_le_pow _ (ok_ht0 _ Hok)) as Hsz.
  rewrite u64_id by (unfold in_u64, ULLONG_MAX; lia). zif_false.
  destruct (rehash_skip_ok (S (length (table (ht0 d)))) d ev Hok Hr Hu)
    as (i & Hi & Hoki & Hres).
  { pose proof (ok_len _ (ok_ht0 _ Hok)) as Hl. unfold zlen in Hl. lia. }
  destruct Hres as [[HR Hlti]|(ev' & c & HR & Hc & Hic)]; rewrite HR; mrun.
  - exists (advance d i). split_and!; [by left|done|done|done|done|simpl; lia|done].
  - change (table (ht0 (advance d i)) !! Z.to_nat (rehashidx (advance d i)) = Some c) in Hc.
    rewrite Hc. mrun.
    destruct (move_bucket_ok (advance d i) c Hoki ltac:(simpl; lia) Hc)
      as (d1 & d2 & HC & Hd2 & Hok2 & Hp2 & Hri2 & Hit2 & Hsz2).
    rewrite HC. mrun. rewrite <- Hd2. simpl in Hri2, Hit2, Hsz2.
    destruct (IH d2 ev' Hok2 ltac:(lia)) as (d' & HL & Hok' & Hp' & Hit' & Hsz' & Hri' & _).
    exists d'. split_and!; [exact HL|done| |congruence|congruence|lia|lia].
    rewrite Hp', Hp2. done.
Qed.

(** [dictRehash] keeps the invariant and the entries, and each call that leaves
    work to do has moved [rehashidx] forward. *)
Lemma dictRehash_ok d n :
  dict_ok d -> Z.of_nat n * 10 <= INT32_MAX -> exists more d', dictRehash d n = Some (more, d') /\
    dict_ok d' /\ entries d' ≡ₚ entries d /\ iterators d' = iterators d /\
    (if (more : bool)
     then 0 <= rehashidx d <= rehashidx d' /\ size (ht0 d') = size (ht0 d) /\
          (n <> O -> rehashidx d < rehashidx d')
     else rehashidx d' = -1).
Proof.
  intros Hok Hn10. unfold dictRehash. zif_false. cbv iota zeta. destruct (dictIsRehashing d) eqn:Hrh; simpl negb; cbv iota.
  2: { apply isRehashing_false in Hrh. by exists false, d. }
  apply isRehashing_spec in Hrh. unfold rehashing in Hrh.
  assert (Hr : 0 <= rehashidx d) by (destruct (ok_phase _ Hok) as [[]|[]]; lia).
  destruct (rehash_loop_ok n d (Z.of_nat n * 10) Hok Hr)
    as (d' & HL & Hok' & Hp & Hit & Hsz & Hri & Hprog).
  assert (Hu0 : used (ht0 d') <> 0 \/ used (ht0 d') = 0) by lia.
  assert (Hmono : used (ht0 d') <> 0 -> n <> O -> rehashidx d < rehashidx d').
  { intros Hu Hn. destruct (Z.eq_dec (used (ht0 d)) 0) as [E|E]; [|by apply Hprog].
    exfalso. destruct n; [done|]. cbn [rehash_loop] in HL. rewrite E in HL. simpl in HL.
    destruct HL; simplify_eq. }
  destruct HL as [HL|HL]; rewrite HL; mrun.
  - exists true, d'. split_and!; try done; try lia.
    intros Hn. destruct Hu0 as [Hu|Hu]; [auto|].
    destruct (Z.eq_dec (used (ht0 d)) 0) as [E|E]; [|by apply Hprog].
    exfalso. destruct n; [done|]. cbn [rehash_loop] in HL. rewrite E in HL. done.
  - destruct (Z.eqb_spec (used (ht0 d')) 0) as [Hu|Hu].
    + eexists false, _. split; [done|]. simpl.
      assert (He : concat (table (ht0 d')) = []).
      { apply length_zero_iff_nil. rewrite (ok_used _ (ok_ht0 _ Hok')) in Hu. unfold zlen in Hu. lia. }
      match goal with |- dict_ok ?x /\ _ => set (d2 := x) end.
      assert (Hp2 : entries d2 = entries d').
      { unfold entries, d2; simpl. by rewrite He, app_nil_r. }
      split_and!; [|by rewrite Hp2|done|done].
      destruct Hok' as [? ? ? ? ?]. split; simpl; [done|apply reset_ok|by left| |]; by rewrite Hp2.
    + exists true, d'. split_and!; try done; try lia.
Qed.

Lemma rehash_if_needed_ok d :
  dict_ok d -> exists d', rehash_if_needed d = Some d' /\ dict_ok d' /\
    entries d' ≡ₚ entries d /\ iterators d' = iterators d.
Proof.
  intros Hok. unfold rehash_if_needed, _dictRehashStep.
  destruct (dictIsRehashing d); [|by exists d]. destruct (_ =? 0); [|by exists d].
  destruct (dictRehash_ok d 1 Hok ltac:(done)) as (more & d' & HR & Hok' & Hp & Hit & _).
  exists d'. by rewrite HR.
Qed.

(** *** Searching both tables *)

Lemma chain_find_Some key c p :
  chain_find key c = Some p -> exists e, c !! p = Some e /\ norm e = keyNorm (V := V) key.
Proof.
  revert p. induction c as [|e c IH]; intros p Hp; simplify_eq/=.
  destruct (keyCompare key (de_key e)) eqn:E.
  - simplify_eq. exists e. split; [done|]. symmetry. by apply keyCompare_spec.
  - destruct (chain_find key c) as [q|]; simplify_eq/=. by apply IH.
Qed.

Lemma chain_find_None key c e :
  chain_find key c = None -> e ∈ c -> norm e <> keyNorm (V := V) key.
Proof.
  induction c as [|x c IH]; intros Hp He; [by apply elem_of_nil in He|]. simpl in Hp.
  destruct (keyCompare key (de_key x)) eqn:E; [done|].
  apply elem_of_cons in He as [->|He].
  - intros Heq. symmetry in Heq. apply (keyCompare_spec (V := V)) in Heq. congruence.
  - apply IH; [|done]. by destruct (chain_find key c).
Qed.

Lemma bucket_of_norm mask (a b : K) :
  keyNorm (V := V) a = keyNorm (V := V) b -> bucket_of mask a = bucket_of mask b.
Proof. intros E. unfold bucket_of. by rewrite (hash_norm (V := V) a b E). Qed.

(** A key that its bucket does not hold is not in the table. *)
Lemma not_in_table h key c e :
  ht_ok h -> table h !! bucket_of (sizemask h) key = Some c -> chain_find key c = None ->
  e ∈ concat (table h) -> norm e <> keyNorm (V := V) key.
Proof.
  intros Hok Hc Hf (i & c' & Hi & He)%in_concat_bucket Heq.
  assert (i = bucket_of (sizemask h) key) as ->.
  { rewrite <- (ok_place h Hok i c' e Hi He). by apply bucket_of_norm. }
  simplify_eq. by eapply chain_find_None.
Qed.

Lemma allocated d : dict_ok d -> entries d <> [] -> size (ht0 d) <> 0.
Proof.
  intros [[Hl _ _ _] _ [[_ H1]|(_ & ? & _)] _ _] Hne Hs; [|done]. apply Hne.
  unfold entries. rewrite H1. simpl. rewrite app_nil_r.
  destruct (table (ht0 d)); [done|]. rewrite zlen_cons in Hl. pose proof (zlen_nonneg l0). lia.
Qed.

(** What a search reports: an entry with an equal key, or that there is none
    and the bucket where the key belongs. *)
Definition search_result (d : dict K V) (key : K) (r : option ref) (idx : Z) : Prop :=
  match r with
  | Some (t, j, p) =>
      exists c e, table (get_ht d t) !! Z.to_nat j = Some c /\ c !! p = Some e /\
        norm e = keyNorm (V := V) key
  | None =>
      keyNorm (V := V) key ∉ norm <$> entries d /\
      Z.to_nat idx = bucket_of (sizemask (get_ht d (dictIsRehashing d))) key
  end.

Lemma search_tables_ok d key :
  dict_ok d -> size (ht0 d) <> 0 ->
  exists r idx, search_tables d key (hashFunction (V := V) key) = Some (r, idx) /\
    search_result d key r idx.
Proof.
  intros [Hok0 Hok1 Hph _ _] Hs. unfold search_tables.
  destruct (bucket_lookup (ht0 d) key Hok0 Hs) as [c0 Hc0].
  fold (bucket_of (sizemask (ht0 d)) key). rewrite Hc0. mrun.
  destruct (chain_find key c0) as [p|] eqn:F0.
  { eexists _, _; split; [done|]. destruct (chain_find_Some _ _ _ F0) as (e & He & Hn).
    exists c0, e. done. }
  destruct (dictIsRehashing d) eqn:Hr; simpl negb; cbv iota.
  - destruct Hph as [[Hph _]|(_ & _ & Hs1 & _)].
    { apply isRehashing_spec in Hr. unfold rehashing in Hr. lia. }
    destruct (bucket_lookup (ht1 d) key Hok1 Hs1) as [c1 Hc1].
    fold (bucket_of (sizemask (ht1 d)) key). rewrite Hc1. mrun.
    destruct (chain_find key c1) as [p|] eqn:F1.
    + eexists _, _; split; [done|]. destruct (chain_find_Some _ _ _ F1) as (e & He & Hn).
      exists c1, e. done.
    + eexists _, _; split; [done|]. split; [|simpl; by rewrite Hr].
      intros (e & Heq & [He|He]%elem_of_app)%list_elem_of_fmap; symmetry in Heq; revert Heq;
        [by eapply (not_in_table (ht0 d))|by eapply (not_in_table (ht1 d))].
  - apply isRehashing_false in Hr as Hr'. destruct Hph as [[_ H1]|Hph]; [|lia].
    eexists _, _; split; [done|]. split; [|simpl; by rewrite Hr].
    unfold entries. rewrite H1. simpl. rewrite app_nil_r.
    intros (e & Heq & He)%list_elem_of_fmap. symmetry in Heq. revert Heq.
    by eapply (not_in_table (ht0 d)).
Qed.

(** *** Changing one chain *)

Definition put_chain (d : dict K V) (t : bool) (i : nat) (c' : list (dictEntry K V)) (u : Z)
    : dict K V :=
  let ht := get_ht d t in
  set_ht d t (mkHt (<[i := c']> (table ht)) (size ht) (sizemask ht) u).

Lemma put_chain_entries d t i c c' u :
  table (get_ht d t) !! i = Some c ->
  exists rest, entries d ≡ₚ c ++ rest /\ entries (put_chain d t i c' u) ≡ₚ c' ++ rest.
Proof.
  intros Hc. destruct (concat_insert _ i c c' Hc) as [H1 H2].
  unfold put_chain, entries. destruct t; simpl in *.
  - exists (concat (table (ht0 d)) ++ concat (delete i (table (ht1 d)))).
    split; [rewrite H1|rewrite H2]; rewrite !app_assoc; f_equiv; apply Permutation_app_comm.
  - exists (concat (delete i (table (ht0 d))) ++ concat (table (ht1 d))).
    split; [rewrite H1|rewrite H2]; by rewrite <- app_assoc.
Qed.

Lemma put_chain_ok d t i c c' :
  dict_ok d -> table (get_ht d t) !! i = Some c -> (c <> [] \/ t = dictIsRehashing d) ->
  Forall (fun e => bucket_of (sizemask (get_ht d t)) (de_key e) = i) c' ->
  let d' := put_chain d t i c' (used (get_ht d t) - zlen c + zlen c') in
  NoDup (norm <$> entries d') -> zlen (entries d') < MAX_ENTRIES -> dict_ok d'.
Proof.
  intros Hok Hc Hcase Hpl d' Hn Hcnt. pose proof Hok as [Hok0 Hok1 Hph _ _].
  assert (Hht : ht_ok (get_ht d t)) by (destruct t; done).
  pose proof (ht_ok_update _ i c c' Hht Hc Hpl) as Hok'.
  split; [by destruct t|by destruct t| |done|done].
  unfold d', put_chain. destruct Hph as [[Hr H1]|(Hr & Hs0 & Hs1 & Hlow)].
  - left. destruct t; simpl in *; [|done]. rewrite H1 in Hc. simpl in Hc. by rewrite lookup_nil in Hc.
  - right. destruct t; simpl in *; [done|]. split_and!; try done; try lia.
    intros j Hj. destruct (decide (i = j)) as [<-|Hne].
    + exfalso. destruct Hcase as [Hne|Heq].
      * rewrite Hlow in Hc by done. by simplify_eq.
      * symmetry in Heq. apply isRehashing_false in Heq. lia.
    + rewrite list_lookup_insert_ne by done. auto.
Qed.

(** *** Expansion *)

Lemma nextPower_loop_spec fuel : forall k sz,
  2 <= k <= 62 -> sz < LONG_MAX -> 63 - k < Z.of_nat fuel ->
  (k = 2 \/ 2 ^ (k - 1) < sz) ->
  exists j, k <= j <= 63 /\ _dictNextPower_loop fuel (2 ^ k) sz = 2 ^ j /\ sz <= 2 ^ j /\
    (j = 2 \/ 2 ^ (j - 1) < sz).
Proof.
  induction fuel as [|fuel IH]; intros k sz Hk Hsz Hf Hmin; [lia|].
  cbn [_dictNextPower_loop]. rewrite Z.geb_leb. destruct (Z.leb_spec sz (2 ^ k)) as [Hle|Hgt].
  { exists k. split_and!; try done; lia. }
  assert (2 ^ k * 2 = 2 ^ (k + 1)) as -> by (rewrite Z.pow_add_r by lia; lia).
  assert (2 ^ (k + 1) <= 2 ^ 63) by (apply Z.pow_le_mono_r; lia).
  rewrite uN_id by (split; [lia|simpl in *; lia]).
  destruct (Z.eq_dec k 62) as [->|Hk62].
  - exists 63. destruct fuel as [|fuel]; [lia|]. cbn [_dictNextPower_loop].
    unfold LONG_MAX in Hsz. rewrite Z.geb_leb.
    change (62 + 1) with 63. destruct (Z.leb_spec sz (2 ^ 63)); [|simpl in *; lia].
    split_and!; [lia|lia|done|done|right; done].
  - destruct (IH (k + 1) sz) as (j & Hj & HL & Hle & Hm); [lia|done|lia| |].
    { right. by replace (k + 1 - 1) with k by lia. }
    exists j. split_and!; [lia|lia|done|done|done].
Qed.

(** The least power of two that is at least 4 and at least [sz]. *)
Lemma nextPower_spec sz :
  exists j, 2 <= j <= 63 /\ _dictNextPower sz = 2 ^ j /\ (sz <= LONG_MAX -> sz <= 2 ^ j) /\
    (j = 2 \/ 2 ^ (j - 1) < sz).
Proof.
  unfold _dictNextPower. rewrite Z.geb_leb. destruct (Z.leb_spec LONG_MAX sz) as [Hge|Hlt].
  - exists 63. unfold LONG_MAX in *. split_and!; [lia|lia|done|lia|right].
    change (2 ^ (63 - 1)) with 4611686018427387904. lia.
  - destruct (nextPower_loop_spec 64 2 sz) as (j & Hj & HL & Hle & Hm); [lia|done|lia|by left|].
    exists j. split_and!; try done; lia.
Qed.

Lemma concat_replicate_nil {A} n : concat (replicate n (@nil A)) = [].
Proof. induction n; done. Qed.

(** A table of up to 2^60 buckets is allocated in full. *)
Lemma table_bytes j : 2 <= j <= 60 -> u64 (2 ^ j * sizeof_ptr) / sizeof_ptr = 2 ^ j.
Proof.
  intros Hj. assert (0 < 2 ^ j <= 2 ^ 60) by (split; [apply pow2_pos; lia|apply Z.pow_le_mono_r; lia]). unfold sizeof_ptr.
  rewrite uN_id by (simpl in *; lia). apply Z.div_mul. lia.
Qed.

Lemma fresh_ht_ok sz : sz <= 2 ^ 60 ->
  ht_ok (mkHt (replicate (Z.to_nat (u64 (_dictNextPower sz * sizeof_ptr) / sizeof_ptr)) []) (_dictNextPower sz)
          (u64 (_dictNextPower sz - 1)) 0) /\ _dictNextPower sz <> 0.
Proof.
  intros Hsz. destruct (nextPower_spec sz) as (j & Hj & -> & _ & Hmin).
  assert (Hj60 : j <= 60).
  { destruct Hmin as [->|Hmin]; [lia|]. destruct (decide (j <= 60)) as [|Hgt]; [done|].
    assert (2 ^ 60 <= 2 ^ (j - 1)) by (apply Z.pow_le_mono_r; lia). lia. }
  rewrite table_bytes by lia.
  assert (0 < 2 ^ j <= 2 ^ 60) by (split; [apply pow2_pos; lia|apply Z.pow_le_mono_r; lia]).
  split; [|lia]. split; simpl.
  - unfold zlen. rewrite length_replicate. lia.
  - by rewrite concat_replicate_nil.
  - right. exists j. split_and!; [lia|lia|done|]. rewrite uN_id; [done|]. simpl in *. lia.
  - intros i c e [-> _]%lookup_replicate He. by apply elem_of_nil in He.
Qed.

Lemma empty_table d : dict_ok d -> size (ht0 d) = 0 -> table (ht0 d) = [].
Proof.
  intros Hok Hs. pose proof (ok_len _ (ok_ht0 _ Hok)) as Hl. destruct (table (ht0 d)) as [|b t]; [done|].
  rewrite zlen_cons in Hl. pose proof (zlen_nonneg t). lia.
Qed.

Lemma dictExpand_ok d sz :
  dict_ok d -> sz <= 2 ^ 60 -> dict_ok (snd (dictExpand d sz)) /\ entries (snd (dictExpand d sz)) = entries d /\
    iterators (snd (dictExpand d sz)) = iterators d.
Proof.
  intros Hok Hsz. unfold dictExpand.
  destruct (dictIsRehashing d) eqn:Hr; simpl; [done|]. apply isRehashing_false in Hr.
  destruct (_ >? sz); [done|]. destruct (_ =? _); [done|].
  destruct (fresh_ht_ok sz Hsz) as [Hf Hnz]. set (n := mkHt _ _ _ _) in *.
  pose proof Hok as [Hok0 Hok1 Hph Hn Hc]. destruct Hph as [[_ H1]|Hph]; [|lia].
  assert (Hcn : concat (table n) = []) by apply concat_replicate_nil.
  assert (Hsn : size n <> 0) by exact Hnz. clearbody n.
  destruct (Z.eqb_spec (size (ht0 d)) 0) as [Hs|Hs]; simpl.
  - assert (He : entries (with_hts d n (ht1 d)) = entries d).
    { unfold entries; simpl. rewrite Hcn. by rewrite (empty_table d Hok Hs). }
    split_and!; [|done|done]. split; simpl; [done|done|by left|by rewrite He|by rewrite He].
  - assert (He : entries (mkDict (ht0 d) n 0 (iterators d)) = entries d).
    { unfold entries; cbn [ht0 ht1]. by rewrite Hcn, H1. }
    split_and!; [|done|done]. split; simpl; [done|done| |by rewrite He|by rewrite He].
    right. simpl. pose proof (size_le_pow _ Hok0). split_and!; [lia|lia|lia|done|lia].
Qed.

(** A resize asks for an [int]. *)
Lemma dictResize_size (x : Z) : u64 (if s32 x <? DICT_HT_INITIAL_SIZE then DICT_HT_INITIAL_SIZE else s32 x) <= 2 ^ 60.
Proof.
  pose proof (sN_range 32 x ltac:(lia)) as Hr. change (sN 32 x) with (s32 x) in Hr. unfold DICT_HT_INITIAL_SIZE. change (32 - 1) with 31 in Hr.
  rewrite u64_id by (unfold in_u64, ULLONG_MAX; destruct (s32 x <? 4) eqn:E; zbool; lia). destruct (s32 x <? 4); lia.
Qed.

Lemma entries_used d : dict_ok d -> zlen (entries d) = used (ht0 d) + used (ht1 d).
Proof.
  intros [Hok0 Hok1 _ _ _]. unfold entries.
  by rewrite zlen_app, (ok_used _ Hok0), (ok_used _ Hok1).
Qed.

Lemma expandIfNeeded_ok can d :
  dict_ok d -> zlen (entries d) <= MAX_GROWTH -> exists d', _dictExpandIfNeeded can d = (true, d') /\ dict_ok d' /\
    entries d' = entries d /\ size (ht0 d') <> 0 /\ iterators d' = iterators d.
Proof.
  intros Hok Hgr. pose proof Hok as [Hok0 Hok1 Hph _ Hc]. unfold _dictExpandIfNeeded.
  destruct (dictIsRehashing d) eqn:Hr.
  { exists d. split_and!; try done. apply isRehashing_spec in Hr. unfold rehashing in Hr.
    destruct Hph as [[]|(_ & ? & _)]; [lia|done]. }
  pose proof (entries_used d Hok) as Hu. pose proof (used_bounds _ Hok0).
  pose proof (used_bounds _ Hok1). pose proof (size_le_pow _ Hok0). unfold MAX_ENTRIES in Hc. unfold MAX_GROWTH in Hgr.
  assert (Hexp : forall sz, used (ht0 d) <= sz -> sz <= 2 ^ 60 ->
    (size (ht0 d) = 0 \/ size (ht0 d) < sz) -> exists d', dictExpand d sz = (true, d') /\
    dict_ok d' /\ entries d' = entries d /\ size (ht0 d') <> 0 /\ iterators d' = iterators d).
  { intros sz Hle Hmax Hsz. destruct (dictExpand_ok d sz Hok Hmax) as (Hok' & He' & Hi').
    exists (snd (dictExpand d sz)). split_and!; try done; revert Hok' He' Hi'; unfold dictExpand;
      rewrite Hr; simpl; zif_false; destruct (nextPower_spec sz) as (j & Hj & -> & Hge & _);
      specialize (Hge ltac:(unfold LONG_MAX; lia)); pose proof (pow2_pos j ltac:(lia)); zif_false;
      intros _ _ _; destruct (Z.eqb_spec (size (ht0 d)) 0); try done; simpl; lia. }
  destruct (Z.eqb_spec (size (ht0 d)) 0) as [Hs|Hs].
  - apply Hexp; [|unfold DICT_HT_INITIAL_SIZE; lia|by left].
    rewrite (ok_used _ Hok0). by rewrite (empty_table d Hok Hs).
  - zcase; [|by exists d]. rewrite u64_id by (unfold in_u64, ULLONG_MAX; lia).
    apply Hexp; lia.
Qed.

(** *** The operations *)

Definition same_map (d d' : dict K V) : Prop :=
  dict_ok d' /\ entries d' ≡ₚ entries d /\ iterators d' = iterators d.

Lemma same_map_eq d d' : dict_ok d -> same_map d d' -> dict_map d' = dict_map d.
Proof. intros Hok (Hok' & Hp & _). apply map_of_perm; [apply Hok|done]. Qed.

Lemma find_ok d key :
  dict_ok d -> exists d' r, dictFind d key = Some (d', r) /\ same_map d d' /\
    match r with
    | Some r => exists e, deref d' r = Some e /\ norm e = keyNorm (V := V) key /\ e ∈ entries d'
    | None => keyNorm (V := V) key ∉ norm <$> entries d'
    end.
Proof.
  intros Hok. unfold dictFind, same_map. pose proof (entries_used d Hok) as Hu.
  pose proof (ok_count d Hok) as Hc. unfold MAX_ENTRIES in Hc.
  pose proof (zlen_nonneg (entries d)) as Hz.
  rewrite u64_id by (unfold in_u64, ULLONG_MAX; lia).
  destruct (Z.eqb_spec (used (ht0 d) + used (ht1 d)) 0) as [H0|H0].
  { exists d, None. split_and!; try done. assert (entries d = []) as ->; [|by apply not_elem_of_nil].
    apply length_zero_iff_nil. unfold zlen in *. lia. }
  destruct (rehash_if_needed_ok d Hok) as (d' & HR & Hok' & Hp & Hit). rewrite HR. mrun.
  assert (Hs : size (ht0 d') <> 0).
  { apply (allocated _ Hok'). intros Hnil. apply zlen_perm in Hp. rewrite Hnil in Hp.
    rewrite Hu in Hp. done. }
  destruct (search_tables_ok d' key Hok' Hs) as (r & idx & HS & Hres). rewrite HS. mrun.
  exists d', r. split_and!; try done. destruct r as [[[t j] p]|]; [|by destruct Hres].
  destruct Hres as (c & e & Hc' & He & Hn). exists e. unfold deref. rewrite Hc'. mrun.
  split_and!; [done|done|]. unfold entries. apply elem_of_app.
  destruct t; [right|left]; apply in_concat_bucket; exists (Z.to_nat j), c; split; try done;
    by eapply list_elem_of_lookup_2.
Qed.

Lemma fetchValue_ok d key :
  dict_ok d -> exists d', dictFetchValue d key = Some (d', dict_map d !! keyNorm (V := V) key) /\
    same_map d d'.
Proof.
  intros Hok. destruct (find_ok d key Hok) as (d' & r & HF & Hsm & Hr).
  unfold dictFetchValue. rewrite HF. mrun. rewrite <- (same_map_eq d d' Hok Hsm).
  destruct r as [r|].
  - destruct Hr as (e & He & Hn & Hin). rewrite He. mrun. exists d'. split; [|done].
    rewrite <- Hn, dict_map_lookup; [done|apply Hsm|done].
  - exists d'. split; [|done]. by rewrite dict_map_None.
Qed.

(** Overwriting the value of an entry. *)
Lemma setVal_ok d t j p c e v :
  dict_ok d -> table (get_ht d t) !! Z.to_nat j = Some c -> c !! p = Some e ->
  exists d', dictSetVal d (t, j, p) v = Some d' /\ dict_ok d' /\
    dict_map d' = <[norm e := dup_val v]> (dict_map d) /\ iterators d' = iterators d /\
    (norm <$> entries d') ≡ₚ (norm <$> entries d).
Proof.
  intros Hok Hc He. unfold dictSetVal. rewrite Hc. mrun. rewrite He. mrun.
  set (e' := mkEntry (de_key e) (dup_val v)). set (c' := <[p := e']> c).
  assert (Hzl : zlen c' = zlen c) by (unfold zlen, c'; by rewrite length_insert).
  assert (Hnc : norm <$> c' = norm <$> c).
  { unfold c'. rewrite list_fmap_insert. apply list_insert_id. by rewrite list_lookup_fmap, He. }
  destruct (put_chain_entries d t (Z.to_nat j) c c'
    (used (get_ht d t) - zlen c + zlen c') Hc) as (rest & Hp & Hp').
  set (d' := put_chain _ _ _ _ _) in *.
  assert (Hn' : (norm <$> entries d') ≡ₚ (norm <$> entries d))
    by (rewrite Hp, Hp', !fmap_app, Hnc; done).
  assert (Hok' : dict_ok d').
  { apply (put_chain_ok d t _ c c' Hok Hc).
    - left. by intros ->.
    - assert (Hpl : Forall (fun x => bucket_of (sizemask (get_ht d t)) (de_key x) = Z.to_nat j) c).
      { apply Forall_forall. intros x Hx.
        assert (Hht : ht_ok (get_ht d t)) by (destruct t; apply Hok).
        by eapply (ok_place _ Hht). }
      unfold c'. apply Forall_insert; [done|]. rewrite Forall_forall in Hpl.
      apply (Hpl e). by eapply list_elem_of_lookup_2.
    - fold d'. rewrite Hn'. apply Hok.
    - fold d'. apply zlen_perm in Hp, Hp'. rewrite zlen_app in Hp, Hp'.
      pose proof (ok_count d Hok). lia. }
  exists d'. assert (Hd' : Some d' = Some (set_ht d t (mkHt (<[Z.to_nat j:=c']> (table (get_ht d t)))
    (size (get_ht d t)) (sizemask (get_ht d t)) (used (get_ht d t))))).
  { unfold d', put_chain. rewrite Hzl. do 3 f_equal. lia. }
  split_and!; [by rewrite Hd'|done| |by destruct t|done].
  apply list_elem_of_split_length in He as (a & b & -> & Ha).
  assert (Hc'eq : c' = a ++ e' :: b) by (unfold c'; by rewrite insert_app_r_alt, Ha, Nat.sub_diag by lia).
  rewrite (dict_map_perm d (e :: a ++ b ++ rest)), (dict_map_perm d' (e' :: a ++ b ++ rest)).
  - unfold map_of. simpl. by rewrite insert_insert_eq.
  - apply Hok'.
  - rewrite Hp', Hc'eq, <- app_assoc. simpl. symmetry. apply Permutation_middle.
  - apply Hok.
  - rewrite Hp, <- app_assoc. simpl. symmetry. apply Permutation_middle.
Qed.

Lemma dup_key_norm (key : K) : keyNorm (V := V) (dup_key key) = keyNorm (V := V) key.
Proof. unfold dup_key. destruct keyDup eqn:E; [|done]. by apply (keyDup_norm (V := V)). Qed.

(** A pointer to an entry whose key equals [key]. *)
Definition points_to (d : dict K V) (r : ref) (key : K) : Prop :=
  let '(t, j, p) := r in
  exists c e, table (get_ht d t) !! Z.to_nat j = Some c /\ c !! p = Some e /\
    norm e = keyNorm (V := V) key.

Lemma points_to_in d r key : points_to d r key -> keyNorm (V := V) key ∈ norm <$> entries d.
Proof.
  destruct r as [[t j] p]. intros (c & e & Hc & He & <-). apply list_elem_of_fmap_2.
  apply elem_of_app. destruct t; [right|left]; apply in_concat_bucket;
    exists (Z.to_nat j), c; split; try done; by eapply list_elem_of_lookup_2.
Qed.

Lemma addRaw_ok uninit can d key :
  dict_ok d -> zlen (entries d) + 1 < MAX_GROWTH ->
  exists d' r, dictAddRaw uninit can d key = Some (d', r) /\ dict_ok d' /\
    iterators d' = iterators d /\
    match r with
    | inl r => keyNorm (V := V) key ∉ norm <$> entries d /\ points_to d' r key /\
        dict_map d' = <[keyNorm (V := V) key := uninit]> (dict_map d) /\
        zlen (entries d') = zlen (entries d) + 1
    | inr (Some r) => points_to d' r key /\ entries d' ≡ₚ entries d
    | inr None => False
    end.
Proof.
  intros Hok Hmax. unfold dictAddRaw, _dictKeyIndex.
  destruct (rehash_if_needed_ok d Hok) as (d1 & HR & Hok1 & Hp1 & Hit1). rewrite HR. mrun.
  destruct (expandIfNeeded_ok can d1 Hok1) as (d2 & HE & Hok2 & He2 & Hs2 & Hit2); [rewrite (zlen_perm _ _ Hp1); lia|].
  rewrite HE. simpl negb. cbv iota.
  destruct (search_tables_ok d2 key Hok2 Hs2) as (r & idx & HS & Hres). rewrite HS. mrun.
  rewrite <- He2 in Hp1. destruct r as [[[t j] p]|]; mrun.
  { eexists _, _. split; [done|]. split_and!; [done|congruence|exact Hres|done]. }
  destruct Hres as [Hnin Hidx]. set (t := dictIsRehashing d2) in *.
  assert (Hht : ht_ok (get_ht d2 t)) by (destruct t; apply Hok2).
  assert (Hst : size (get_ht d2 t) <> 0).
  { destruct t eqn:Et; [|done]. apply isRehashing_spec in Et. unfold rehashing in Et.
    by destruct (ok_phase _ Hok2) as [[]|(_ & _ & ? & _)]. }
  destruct (bucket_lookup _ key Hht Hst) as [c Hc]. rewrite <- Hidx in Hc. rewrite Hc. mrun.
  set (e := mkEntry (dup_key key) uninit).
  assert (Hne : norm e = keyNorm (V := V) key) by apply dup_key_norm.
  destruct (put_chain_entries d2 t (Z.to_nat idx) c (e :: c)
    (used (get_ht d2 t) - zlen c + zlen (e :: c)) Hc) as (rest & Hp & Hp').
  set (d' := put_chain _ _ _ _ _) in *.
  assert (Hpe : entries d' ≡ₚ e :: entries d2) by (rewrite Hp', Hp; done).
  assert (Hn2 : keyNorm (V := V) key ∉ norm <$> entries d) by (by rewrite <- Hp1).
  pose proof (zlen_perm _ _ Hp1) as Hz1.
  assert (Hok' : dict_ok d').
  { apply (put_chain_ok d2 t _ c (e :: c) Hok2 Hc).
    - by right.
    - constructor.
      + simpl de_key. rewrite Hidx. apply bucket_of_norm, dup_key_norm.
      + apply Forall_forall. intros x Hx. by eapply (ok_place _ Hht).
    - fold d'. rewrite Hpe, fmap_cons. constructor; [by rewrite Hne|apply Hok2].
    - fold d'. rewrite (zlen_perm _ _ Hpe), zlen_cons. unfold MAX_GROWTH, MAX_ENTRIES in *. lia. }
  eexists d', _. split.
  { do 2 f_equal. unfold d', put_chain. rewrite zlen_cons.
    replace (used (get_ht d2 t) - zlen c + (1 + zlen c)) with (used (get_ht d2 t) + 1) by lia.
    rewrite u64_id; [done|]. pose proof (entries_used d2 Hok2). pose proof (ok_count _ Hok2).
    pose proof (used_bounds _ (ok_ht0 _ Hok2)). pose proof (used_bounds _ (ok_ht1 _ Hok2)).
    unfold MAX_GROWTH, MAX_ENTRIES, in_u64, ULLONG_MAX in *. destruct t; simpl; lia. }
  split_and!; [done|destruct t; simpl; congruence|done| | |].
  - exists (e :: c), e. split_and!; [|done|done].
    unfold d', put_chain. destruct t; simpl; apply list_lookup_insert_eq; by eapply lookup_lt_Some.
  - rewrite (dict_map_perm d' (e :: entries d2) (ok_keys _ Hok') Hpe).
    unfold map_of. rewrite fmap_cons. simpl list_to_map. rewrite Hne.
    f_equal. apply map_of_perm; [apply Hok|done].
  - rewrite (zlen_perm _ _ Hpe), zlen_cons. lia.
Qed.

Lemma elem_norm_map d n : dict_ok d -> n ∈ norm <$> entries d <-> is_Some (dict_map d !! n).
Proof.
  intros Hok. split.
  - intros (e & -> & He)%list_elem_of_fmap. rewrite dict_map_lookup; [done|apply Hok|done].
  - intros [v Hv]. destruct (decide (n ∈ norm <$> entries d)) as [|Hn]; [done|].
    by rewrite dict_map_None in Hv.
Qed.

Lemma add_ok uninit can d key val :
  dict_ok d -> zlen (entries d) + 1 < MAX_GROWTH ->
  exists d', dictAdd uninit can d key val
      = Some (d', bool_decide (dict_map d !! keyNorm (V := V) key = None)) /\ dict_ok d' /\
    iterators d' = iterators d /\ zlen (entries d') <= zlen (entries d) + 1 /\
    dict_map d' = (if decide (dict_map d !! keyNorm (V := V) key = None)
                   then <[keyNorm (V := V) key := dup_val val]> (dict_map d) else dict_map d).
Proof.
  intros Hok Hmax. destruct (addRaw_ok uninit can d key Hok Hmax) as (d1 & r & HA & Hok1 & Hit & Hr).
  unfold dictAdd. rewrite HA. mrun. destruct r as [r|[r|]]; [| |done].
  - destruct Hr as (Hnin & Hpt & Hm & Hz). destruct r as [[t j] p].
    destruct Hpt as (c & e & Hc & He & Hne).
    destruct (setVal_ok d1 t j p c e val Hok1 Hc He) as (d2 & HS & Hok2 & Hm2 & Hit2 & Hp2).
    rewrite HS. mrun. exists d2. assert (E : dict_map d !! keyNorm (V := V) key = None)
      by (by apply dict_map_None). rewrite (bool_decide_eq_true_2 _ E), decide_True by done.
    split_and!; [done|done|congruence| |].
    + apply zlen_perm in Hp2. unfold zlen in *. rewrite !length_fmap in Hp2. lia.
    + by rewrite Hm2, Hm, Hne, insert_insert_eq.
  - destruct Hr as (Hpt & Hp). exists d1.
    assert (E : dict_map d !! keyNorm (V := V) key <> None).
    { apply not_eq_None_Some, elem_norm_map; [done|]. rewrite <- Hp. by eapply points_to_in. }
    rewrite (bool_decide_eq_false_2 _ E), decide_False by done.
    split_and!; [done|done|done|apply zlen_perm in Hp; lia|].
    apply map_of_perm; [apply Hok|done].
Qed.

Lemma replace_ok uninit can d key val :
  dict_ok d -> zlen (entries d) + 1 < MAX_GROWTH ->
  exists d', dictReplace uninit can d key val
      = Some (d', bool_decide (dict_map d !! keyNorm (V := V) key = None)) /\ dict_ok d' /\
    iterators d' = iterators d /\ zlen (entries d') <= zlen (entries d) + 1 /\
    dict_map d' = <[keyNorm (V := V) key := dup_val val]> (dict_map d).
Proof.
  intros Hok Hmax. destruct (addRaw_ok uninit can d key Hok Hmax) as (d1 & r & HA & Hok1 & Hit & Hr).
  unfold dictReplace. rewrite HA. mrun.
  assert (Hset : forall r, points_to d1 r key -> exists d2, dictSetVal d1 r val = Some d2 /\ dict_ok d2
    /\ dict_map d2 = <[keyNorm (V := V) key := dup_val val]> (dict_map d1) /\
    iterators d2 = iterators d1 /\ zlen (entries d2) = zlen (entries d1)).
  { intros [[t j] p] (c & e & Hc & He & <-).
    destruct (setVal_ok d1 t j p c e val Hok1 Hc He) as (d2 & HS & Hok2 & Hm2 & Hit2 & Hp2).
    exists d2. split_and!; try done. apply zlen_perm in Hp2. unfold zlen in *.
    by rewrite !length_fmap in Hp2. }
  destruct r as [r|[r|]]; [| |done].
  - destruct Hr as (Hnin & Hpt & Hm & Hz). destruct (Hset r Hpt) as (d2 & -> & Hok2 & Hm2 & Hit2 & Hz2).
    mrun. exists d2. rewrite (bool_decide_eq_true_2 _ (dict_map_None d _ Hnin)).
    split_and!; [done|done|congruence|lia|]. by rewrite Hm2, Hm, insert_insert_eq.
  - destruct Hr as (Hpt & Hp). destruct (Hset r Hpt) as (d2 & -> & Hok2 & Hm2 & Hit2 & Hz2). mrun.
    exists d2. assert (E : dict_map d !! keyNorm (V := V) key <> None).
    { apply not_eq_None_Some, elem_norm_map; [done|]. rewrite <- Hp. by eapply points_to_in. }
    rewrite (bool_decide_eq_false_2 _ E). apply zlen_perm in Hp as Hz.
    split_and!; [done|done|congruence|lia|]. rewrite Hm2. f_equal.
    apply map_of_perm; [apply Hok|done].
Qed.

Lemma genericDelete_ok d key :
  dict_ok d -> exists d' he, dictGenericDelete d key = Some (d', he) /\ dict_ok d' /\
    iterators d' = iterators d /\ zlen (entries d') <= zlen (entries d) /\
    de_val <$> he = dict_map d !! keyNorm (V := V) key /\
    dict_map d' = delete (keyNorm (V := V) key) (dict_map d).
Proof.
  intros Hok. unfold dictGenericDelete. pose proof (entries_used d Hok) as Hu.
  pose proof (used_bounds _ (ok_ht0 _ Hok)). pose proof (used_bounds _ (ok_ht1 _ Hok)).
  destruct (_ && _) eqn:Hz0; zbool.
  { exists d, None. assert (Hnil : entries d = [])
      by (apply length_zero_iff_nil; unfold zlen in *; lia).
    assert (dict_map d = ∅) as Hm by (unfold dict_map; by rewrite Hnil).
    split_and!; try done. - by rewrite Hm, lookup_empty. - by rewrite Hm, delete_empty. }
  assert (Hne : used (ht0 d) + used (ht1 d) <> 0).
  { apply andb_false_iff in Hz0 as [E|E]; apply Z.eqb_neq in E; lia. }
  destruct (rehash_if_needed_ok d Hok) as (d1 & HR & Hok1 & Hp1 & Hit1). rewrite HR. mrun.
  pose proof (zlen_perm _ _ Hp1) as Hz1.
  assert (Hm1 : dict_map d1 = dict_map d) by (apply map_of_perm; [apply Hok|done]).
  rewrite <- Hm1.
  assert (Hs : size (ht0 d1) <> 0).
  { apply (allocated _ Hok1). intros Hnil. rewrite Hnil in Hz1. rewrite Hu in Hz1. done. }
  destruct (search_tables_ok d1 key Hok1 Hs) as (r & idx & HS & Hres). rewrite HS. mrun.
  destruct r as [[[t j] p]|].
  2: { destruct Hres as [Hnin _]. exists d1, None. split_and!; try done; [lia| |].
       - by rewrite dict_map_None. - symmetry. apply delete_id. by apply dict_map_None. }
  destruct Hres as (c & e & Hc & He & <-). rewrite Hc. mrun. rewrite He. mrun.
  destruct (put_chain_entries d1 t (Z.to_nat j) c (delete p c)
    (used (get_ht d1 t) - zlen c + zlen (delete p c)) Hc) as (rest & Hp & Hp').
  set (d' := put_chain _ _ _ _ _) in *.
  pose proof He as Hdel%delete_Permutation.
  assert (Hpe : entries d1 ≡ₚ e :: entries d') by (rewrite Hp, Hp'; by apply (Permutation_app_tail rest Hdel)).
  assert (Hzc : zlen c = 1 + zlen (delete p c)) by (by rewrite (zlen_perm _ _ Hdel), zlen_cons).
  pose proof (ok_keys _ Hok1) as HN. rewrite Hpe, fmap_cons in HN.
  apply NoDup_cons in HN as [HNe HN'].
  assert (Hht : ht_ok (get_ht d1 t)) by (destruct t; apply Hok1).
  apply zlen_perm in Hpe as Hze. rewrite zlen_cons in Hze.
  assert (Hok' : dict_ok d').
  { apply (put_chain_ok d1 t _ c (delete p c) Hok1 Hc).
    - left. by intros ->.
    - apply Forall_forall. intros x Hx. eapply (ok_place _ Hht); [done|]. rewrite Hdel. by right.
    - done.
    - fold d'. pose proof (ok_count _ Hok1). lia. }
  exists d', (Some e). split.
  { do 2 f_equal. unfold d', put_chain. rewrite Hzc.
    replace (used (get_ht d1 t) - (1 + zlen (delete p c)) + zlen (delete p c))
      with (used (get_ht d1 t) - 1) by lia.
    rewrite u64_id; [done|]. pose proof (ok_used _ Hht) as Hu'.
    destruct (concat_insert _ _ c [] Hc) as [Hcc _]. apply zlen_perm in Hcc.
    rewrite zlen_app in Hcc. pose proof (zlen_nonneg (delete p c)).
    pose proof (zlen_nonneg (concat (delete (Z.to_nat j) (table (get_ht d1 t))))).
    pose proof (entries_used d1 Hok1). pose proof (ok_count _ Hok1).
    pose proof (used_bounds _ (ok_ht0 _ Hok1)). pose proof (used_bounds _ (ok_ht1 _ Hok1)).
    unfold MAX_ENTRIES, in_u64, ULLONG_MAX in *. destruct t; simpl in *; lia. }
  split_and!; [done|by destruct t|lia| |].
  - simpl. symmetry. apply dict_map_lookup; [apply Hok1|]. rewrite Hpe. by left.
  - rewrite (dict_map_perm d1 _ (ok_keys _ Hok1) Hpe). unfold map_of. rewrite fmap_cons.
    simpl list_to_map. rewrite delete_insert_id; [done|]. by apply (dict_map_None d').
Qed.

(** Clearing: the loop stops when [used] reaches 0 and then every entry is freed. *)
Lemma clear_loop_all tbl : forall u freed,
  u = zlen (concat tbl) -> u < 2 ^ 64 ->
  @clear_loop K V tbl u freed = (freed ++ concat tbl, 0).
Proof.
  induction tbl as [|c tbl IH]; intros u freed Hu Hb; simpl.
  { rewrite app_nil_r. by rewrite Hu. }
  simpl in Hu. rewrite zlen_app in Hu. pose proof (zlen_nonneg c).
  pose proof (zlen_nonneg (concat tbl)). rewrite Z.gtb_ltb. destruct (Z.ltb_spec 0 u).
  - rewrite IH; rewrite ?uN_id; try lia. by rewrite <- app_assoc.
  - assert (c = [] /\ concat tbl = []) as [-> ->]
      by (split; apply length_zero_iff_nil; unfold zlen in *; lia).
    rewrite app_nil_r. f_equal. lia.
Qed.

Lemma dictEmpty_ok d :
  dict_ok d -> fst (dictEmpty d) = entries d /\ snd (dictEmpty d) = dictCreate /\
    dictRelease d = entries d.
Proof.
  intros Hok. pose proof (entries_used d Hok) as Hu. pose proof (ok_count _ Hok).
  pose proof (used_bounds _ (ok_ht0 _ Hok)). pose proof (used_bounds _ (ok_ht1 _ Hok)).
  unfold MAX_ENTRIES in *. unfold dictEmpty, dictRelease, _dictClear.
  rewrite !clear_loop_all by (apply Hok || lia). done.
Qed.

Lemma create_ok : dict_ok dictCreate.
Proof.
  split; simpl; [apply reset_ok|apply reset_ok|by left|constructor|]. done.
Qed.

End Invariant.

End Dict.
