(* ===== verification/DictRefine.v ===== *)
(** * A dictionary implements a finite map: src/redis5/src/dict.c

    The interface the rest of the server uses is a sequence of calls; this file
    runs arbitrary sequences of them, with resizing enabled or disabled at any
    point, against the finite map from normalized keys to values, and shows that
    incremental rehashing always completes. *)

From S2P Require Import Prelude Dict.

Module DictRefine.
Import Dict.

Section Refine.
Context {K V N : Type} `{dictType : DictType K V} `{Countable N} `{!DictTypeLaws K V N}.
Context (uninit : V).

(** The calls; [can] is the value of the global [dict_can_resize] at the call. *)
Inductive call :=
  | CAdd (can : bool) (k : K) (v : V)
  | CReplace (can : bool) (k : K) (v : V)
  | CUnlink (k : K)
  | CFetch (k : K)
  | CRehash (n : nat)
  | CResize (can : bool)
  | CExpand (sz : Z).

(** What the caller sees. *)
Inductive reply :=
  | RCode (ok : bool)
  | RValue (v : option V)
  | RNone.

Definition do_call (d : dict K V) (c : call) : option (dict K V * reply) :=
  match c with
  | CAdd can k v => '(d, ok) ← dictAdd uninit can d k v; Some (d, RCode ok)
  | CReplace can k v => '(d, ok) ← dictReplace uninit can d k v; Some (d, RCode ok)
  | CUnlink k => '(d, he) ← dictUnlink d k; Some (d, RValue (de_val <$> he))
  | CFetch k => '(d, v) ← dictFetchValue d k; Some (d, RValue v)
  | CRehash n => '(_, d) ← dictRehash d n; Some (d, RNone)
  | CResize can => Some (snd (dictResize can d), RNone)
  | CExpand sz => Some (snd (dictExpand d sz), RNone)
  end.

Definition map_call (m : gmap N V) (c : call) : gmap N V * reply :=
  let key k := keyNorm (V := V) k in
  match c with
  | CAdd _ k v =>
      match m !! key k with
      | None => (<[key k := dup_val v]> m, RCode true)
      | Some _ => (m, RCode false)
      end
  | CReplace _ k v =>
      (<[key k := dup_val v]> m, RCode (match m !! key k with None => true | Some _ => false end))
  | CUnlink k => (delete (key k) m, RValue (m !! key k))
  | CFetch k => (m, RValue (m !! key k))
  | CRehash _ | CResize _ | CExpand _ => (m, RNone)
  end.

Fixpoint run (d : dict K V) (cs : list call) : option (dict K V * list reply) :=
  match cs with
  | [] => Some (d, [])
  | c :: cs => '(d, r) ← do_call d c; '(d, rs) ← run d cs; Some (d, r :: rs)
  end.

Fixpoint map_run (m : gmap N V) (cs : list call) : gmap N V * list reply :=
  match cs with
  | [] => (m, [])
  | c :: cs => let '(m, r) := map_call m c in let '(m, rs) := map_run m cs in (m, r :: rs)
  end.

(** The arguments of the calls: the step of a rehash is an [int] and ten times it
    must not overflow; a table of more than 2^60 buckets cannot be allocated. *)
Definition call_fits (c : call) : Prop :=
  match c with
  | CRehash n => Z.of_nat n * 10 <= INT32_MAX
  | CExpand sz => sz <= 2 ^ 60
  | _ => True
  end.

(** One call: the forward simulation. *)
Lemma call_ok d c :
  dict_ok d -> call_fits c -> zlen (entries d) + 1 < MAX_GROWTH ->
  exists d', do_call d c = Some (d', snd (map_call (dict_map d) c)) /\ dict_ok d' /\
    dict_map d' = fst (map_call (dict_map d) c) /\ zlen (entries d') <= zlen (entries d) + 1.
Proof.
  intros Hok Hfit Hmax. destruct c as [can k v|can k v|k|k|n|can|sz]; simpl.
  - destruct (add_ok uninit can d k v Hok Hmax) as (d' & HA & Hok' & _ & Hz & Hm).
    rewrite HA. mrun. exists d'. destruct (dict_map d !! _) eqn:E; simpl;
      rewrite ?decide_True, ?decide_False in Hm by done; done.
  - destruct (replace_ok uninit can d k v Hok Hmax) as (d' & HA & Hok' & _ & Hz & Hm).
    rewrite HA. mrun. exists d'. by destruct (dict_map d !! _) eqn:E; simpl.
  - destruct (genericDelete_ok d k Hok) as (d' & he & HD & Hok' & _ & Hz & Hv & Hm).
    unfold dictUnlink. rewrite HD. mrun. exists d'. rewrite Hv. split_and!; [done|done|done|lia].
  - destruct (fetchValue_ok d k Hok) as (d' & HF & Hsm). rewrite HF. mrun.
    pose proof (same_map_eq d d' Hok Hsm) as Hm. destruct Hsm as (Hok' & Hp & _).
    exists d'. split_and!; try done. apply zlen_perm in Hp. lia.
  - destruct (dictRehash_ok d n Hok Hfit) as (more & d' & HR & Hok' & Hp & _). rewrite HR. mrun.
    exists d'. split_and!; try done.
    + apply map_of_perm; [apply Hok|done].
    + apply zlen_perm in Hp. lia.
  - exists (snd (dictResize can d)). split; [done|]. unfold dictResize.
    destruct (_ || _); [simpl; split_and!; try done; lia|].
    set (sz := u64 _). destruct (dictExpand_ok d sz Hok) as (Hok' & He & _); [apply dictResize_size|].
    unfold dict_map. rewrite He. split_and!; try done. lia.
  - exists (snd (dictExpand d sz)). split; [done|].
    destruct (dictExpand_ok d sz Hok Hfit) as (Hok' & He & _).
    unfold dict_map. rewrite He. split_and!; try done. lia.
Qed.

Lemma run_ok cs : forall d,
  dict_ok d -> Forall call_fits cs -> zlen (entries d) + zlen cs < MAX_GROWTH ->
  exists d', run d cs = Some (d', snd (map_run (dict_map d) cs)) /\ dict_ok d' /\
    dict_map d' = fst (map_run (dict_map d) cs).
Proof.
  induction cs as [|c cs IH]; intros d Hok Hfit Hz; [by exists d|]. apply Forall_cons in Hfit as [Hfit1 Hfit].
  rewrite zlen_cons in Hz. pose proof (zlen_nonneg cs).
  destruct (call_ok d c Hok Hfit1 ltac:(lia)) as (d1 & HC & Hok1 & Hm1 & Hz1).
  destruct (IH d1 Hok1 Hfit ltac:(lia)) as (d2 & HR & Hok2 & Hm2).
  exists d2. cbn [run map_run]. rewrite HC. mrun. rewrite HR. mrun. rewrite Hm2, Hm1.
  destruct (map_call (dict_map d) c) as [m r]. simpl. by destruct (map_run m cs).
Qed.

(** C15: refinement. Any sequence of fewer than 2^59 calls (insertions,
    overwrites, unlinks, lookups, rehash steps, resizes and explicit
    expansions) on a new dictionary never reads outside a table or fails an
    assertion, answers every call exactly as the finite map does, and ends in a
    well-formed dictionary that stands for the final map.  The step of a rehash
    is at most 214748364 (ten times it must fit in an [int]) and an explicit
    expansion asks for at most 2^60 buckets: the size in bytes of a bigger table
    wraps around, and what is allocated has no bucket at all. *)
Theorem dict_refines_map cs :
  zlen cs < MAX_GROWTH -> Forall call_fits cs ->
  exists d, run dictCreate cs = Some (d, snd (map_run ∅ cs)) /\ dict_ok d /\
    dict_map d = fst (map_run ∅ cs).
Proof. intros Hz Hfit. apply (run_ok cs dictCreate create_ok Hfit). done. Qed.

(** Call [dictRehash] until it reports that nothing is left to move. *)
Fixpoint rehash_all (fuel n : nat) (d : dict K V) : option (dict K V) :=
  match fuel with
  | O => None
  | S fuel =>
      '(more, d) ← dictRehash d n;
      if (more : bool) then rehash_all fuel n d else Some d
  end.

Lemma rehash_all_ok n fuel : forall d,
  n <> O -> Z.of_nat n * 10 <= INT32_MAX -> dict_ok d -> size (ht0 d) - rehashidx d < Z.of_nat fuel ->
  exists d', rehash_all fuel n d = Some d' /\ dict_ok d' /\ rehashidx d' = -1 /\
    entries d' ≡ₚ entries d.
Proof.
  induction fuel as [|fuel IH]; intros d Hn Hn10 Hok Hf.
  { destruct (ok_phase _ Hok) as [[Hr _]|[Hr _]]; [|lia].
    pose proof (size_le_pow _ (ok_ht0 _ Hok)). lia. }
  cbn [rehash_all]. destruct (dictRehash_ok d n Hok Hn10) as (more & d1 & HR & Hok1 & Hp1 & _ & Hmore).
  rewrite HR. mrun. destruct more.
  - destruct Hmore as (Hle & Hs & Hprog). specialize (Hprog Hn).
    destruct (IH d1 Hn Hn10 Hok1 ltac:(lia)) as (d2 & HL & Hok2 & Hr2 & Hp2).
    exists d2. split_and!; try done. by rewrite Hp2, Hp1.
  - by exists d1.
Qed.

(** C34: liveness of incremental rehashing. Whatever the step [n >= 1] for which
    ten times [n] fits in an [int], at most
    [size - rehashidx + 1] calls of [dictRehash] finish a resize that is in
    progress: the dictionary is then back to one table and holds the same map. *)
Theorem dictRehash_completes d n :
  n <> O -> Z.of_nat n * 10 <= INT32_MAX -> dict_ok d ->
  exists d', rehash_all (S (Z.to_nat (size (ht0 d) - rehashidx d))) n d = Some d' /\
    dict_ok d' /\ dictIsRehashing d' = false /\ ht1 d' = _dictReset /\ dict_map d' = dict_map d.
Proof.
  intros Hn Hn10 Hok.
  destruct (rehash_all_ok n (S (Z.to_nat (size (ht0 d) - rehashidx d))) d Hn Hn10 Hok ltac:(lia))
    as (d' & HL & Hok' & Hr & Hp).
  exists d'. split_and!; try done.
  - by apply isRehashing_false.
  - destruct (ok_phase _ Hok') as [[_ ?]|[? _]]; [done|lia].
  - apply map_of_perm; [apply Hok|done].
Qed.

(** A table of more than 2^60 buckets: its size in bytes wraps around to 0. *)
Lemma table_bytes_wrap j : 61 <= j <= 63 -> u64 (2 ^ j * sizeof_ptr) / sizeof_ptr = 0.
Proof.
  intros Hj. unfold sizeof_ptr, u64, uN. replace (2 ^ j * 8) with (2 ^ (j - 61) * 2 ^ 64); [by rewrite Z.mod_mul|].
  change 8 with (2 ^ 3). rewrite <- !Z.pow_add_r by lia. f_equal. lia.
Qed.

Lemma nextPower_big sz : 2 ^ 60 < sz -> exists j, 61 <= j <= 63 /\ _dictNextPower sz = 2 ^ j.
Proof.
  intros Hsz. destruct (decide (sz <= LONG_MAX)) as [Hl|Hl].
  - destruct (nextPower_spec sz) as (j & Hj & -> & Hge & _). specialize (Hge Hl). exists j. split; [|done].
    destruct (decide (61 <= j)) as [|Hlt]; [lia|]. assert (2 ^ j <= 2 ^ 60) by (apply Z.pow_le_mono_r; lia). lia.
  - exists 63. split; [lia|]. unfold _dictNextPower. by rewrite Z.geb_leb, (proj2 (Z.leb_le LONG_MAX sz)) by lia.
Qed.

(** C38: An expansion to more than 2^60 buckets loses the table.  [dictExpand]
    computes the size of the new table in bytes without checking for overflow:
    whatever size above 2^60 is asked for, it reports success and leaves a new
    dictionary with a table of at least 2^61 buckets by its [size] and its mask,
    but none in the block that was allocated; and the next insertion, whatever
    the key, accesses memory outside it. *)
Theorem dictExpand_size_overflow (sz : Z) (can : bool) (k : K) (v : V) :
  2 ^ 60 < sz -> exists d, dictExpand dictCreate sz = (true, d) /\ 2 ^ 61 <= size (ht0 d) /\ sizemask (ht0 d) = size (ht0 d) - 1 /\
    table (ht0 d) = [] /\ dictAdd uninit can d k v = None.
Proof.
  intros Hsz. destruct (nextPower_big sz Hsz) as (j & Hj & Ej).
  assert (2 ^ 61 <= 2 ^ j <= 2 ^ 63) by (split; apply Z.pow_le_mono_r; lia).
  assert (E : dictExpand dictCreate sz = (true, mkDict (V := V) (mkHt [] (2 ^ j) (2 ^ j - 1) 0) (_dictReset (K := K)) (-1) 0)).
  { unfold dictExpand. rewrite Ej, (table_bytes_wrap j Hj). change (dictIsRehashing dictCreate) with false. change (used (ht0 dictCreate)) with 0.
    change (size (ht0 dictCreate)) with 0. rewrite (proj2 (Z.eqb_neq (2 ^ j) 0)), Z.gtb_ltb, (proj2 (Z.ltb_ge sz 0)) by lia.
    rewrite uN_id by (simpl in *; lia). done. }
  eexists. split; [exact E|]. cbn [ht0 size sizemask table]. split; [lia|]. split; [done|]. split; [done|].
  unfold dictAdd, dictAddRaw, rehash_if_needed, _dictKeyIndex, _dictExpandIfNeeded. change (dictIsRehashing (mkDict _ _ (-1) _)) with false. cbv iota. mrun.
  cbn [ht0 size used]. rewrite (proj2 (Z.eqb_neq (2 ^ j) 0)), Z.geb_leb, (proj2 (Z.leb_gt (2 ^ j) 0)) by lia. done.
Qed.

(** [dictEmpty] and [dictRelease] free every entry of both tables exactly
    once, although the loop of [_dictClear] stops as soon as [used] is 0, and
    [dictEmpty] leaves a dictionary equal to a new one. *)
Theorem dictEmpty_frees_all d :
  dict_ok d -> fst (dictEmpty d) = entries d /\ snd (dictEmpty d) = dictCreate /\
    dictRelease d = entries d.
Proof. apply dictEmpty_ok. Qed.

End Refine.

(** The size of a table is the least power of two that is at least 4 and at
    least the size asked for (2^63 when more than LONG_MAX is asked for), so the
    loop of [_dictNextPower] ends without wrapping around. *)
Theorem dictNextPower_least sz :
  exists j, 2 <= j <= 63 /\ _dictNextPower sz = 2 ^ j /\ (sz <= LONG_MAX -> sz <= 2 ^ j) /\
    (j = 2 \/ 2 ^ (j - 1) < sz).
Proof. apply nextPower_spec. Qed.

(** A small instance for the examples: integer keys hashed to themselves. *)
#[local] Instance int_type : DictType Z Z := {|
  hashFunction k := u64 k; keyDup := None; valDup := None; keyCompare a b := a =? b |}.

#[local] Program Instance int_laws : DictTypeLaws Z Z Z := {| keyNorm k := k |}.
Next Obligation. intros a b. apply Z.eqb_eq. Qed.
Next Obligation. by intros a b ->. Qed.
Next Obligation.
  intros a. unfold in_u64, ULLONG_MAX. simpl. pose proof (uN_range 64 a ltac:(lia)). simpl in *. lia.
Qed.
Next Obligation. by intros f k. Qed.

Definition sample_calls : list (@call Z Z) :=
  [CAdd true 1 10; CAdd true 5 50; CAdd true 9 90; CAdd true 13 130; CAdd true 17 170;
   CReplace true 5 55; CUnlink 9; CFetch 17; CFetch 9; CRehash 1; CResize true; CAdd false 13 1; CExpand 40].

Lemma dict_refines_map_witness :
  exists d, run 0 dictCreate sample_calls
      = Some (d, [RCode true; RCode true; RCode true; RCode true; RCode true; RCode false;
                  RValue (Some 90); RValue (Some 170); RValue None; RNone; RNone; RCode false; RNone]) /\
    dict_map d !! 13 = Some 130.
Proof.
  destruct (dict_refines_map (N := Z) 0 sample_calls) as (d & HR & _ & Hm).
  - vm_compute. done.
  - repeat constructor; vm_compute; discriminate.
  - exists d. split; [exact HR|]. rewrite Hm. vm_compute. done.
Defined.

Lemma dictExpand_size_overflow_witness :
  exists d, dictExpand (K := Z) (V := Z) dictCreate (2 ^ 60 + 1) = (true, d) /\ 2 ^ 61 <= size (ht0 d) /\ sizemask (ht0 d) = size (ht0 d) - 1 /\
    table (ht0 d) = [] /\ dictAdd 0 true d 5 50 = None.
Proof. apply (dictExpand_size_overflow (K := Z) (V := Z) 0 (2 ^ 60 + 1) true 5 50). lia. Defined.

(** A dictionary in the middle of a resize. *)
Definition sample_dict : dict Z Z :=
  mkDict (mkHt [[]; [mkEntry 5 50]; []; [mkEntry 7 70]] 4 3 2)
         (mkHt [[]; []; []; []; [mkEntry 4 40]; []; []; []] 8 7 1) 1 0.

Lemma sample_dict_ok : dict_ok (N := Z) sample_dict.
Proof.
  split; simpl.
  - split; simpl; [done|done| |].
    + right. exists 2. done.
    + intros [|[|[|[|i]]]] c e Hc He; simplify_eq/=; rewrite ?elem_of_nil, ?list_elem_of_singleton in He;
        simplify_eq; done.
  - split; simpl; [done|done| |].
    + right. exists 3. done.
    + intros [|[|[|[|[|[|[|[|i]]]]]]]] c e Hc He; simplify_eq/=;
        rewrite ?elem_of_nil, ?list_elem_of_singleton in He; simplify_eq; done.
  - right. simpl. split_and!; try lia. intros [|i] Hi; [done|lia].
  - repeat constructor; vm_compute; set_solver.
  - vm_compute. done.
Qed.

Lemma dictRehash_completes_witness :
  exists d', rehash_all 4 1 sample_dict = Some d' /\ dictIsRehashing d' = false /\
    dict_map (N := Z) d' = dict_map sample_dict.
Proof.
  destruct (dictRehash_completes (N := Z) sample_dict 1) as (d' & HL & _ & Hr & _ & Hm).
  - done.
  - done.
  - apply sample_dict_ok.
  - exists d'. split_and!; done.
Defined.

Lemma dictEmpty_frees_all_witness :
  fst (dictEmpty sample_dict) = [mkEntry 5 50; mkEntry 7 70; mkEntry 4 40] /\
  snd (dictEmpty sample_dict) = dictCreate.
Proof.
  destruct (dictEmpty_frees_all (N := Z) sample_dict sample_dict_ok) as (Hf & Hs & _).
  split; [rewrite Hf; reflexivity|exact Hs].
Defined.

End DictRefine.
