(* ===== verification/DictScan.v ===== *)
(** * Cursor iteration and iterators: src/redis5/src/dict.c

    [dictScan] visits one bucket (and, while rehashing, its expansions in the
    larger table) per call and returns the next cursor, obtained by incrementing
    the bit-reversed cursor.  The file shows the guarantee the C comment states:
    an element present during the whole iteration is returned, whatever resizes
    happen between the calls, and the iteration ends. *)

From S2P Require Import Prelude Dict.

Module DictScan.
Import Dict.

(** ** [rev]: reverse the bits of an unsigned long *)

Fixpoint rev_loop (fuel : nat) (s mask v : Z) : Z :=
  match fuel with
  | O => v
  | S fuel =>
      let s := Z.shiftr s 1 in
      if s >? 0 then
        let mask := Z.lxor mask (u64 (Z.shiftl mask s)) in
        let v := Z.lor (Z.land (Z.shiftr v s) mask)
                       (Z.land (u64 (Z.shiftl v s)) (u64 (Z.lnot mask))) in
        rev_loop fuel s mask v
      else v
  end.

Definition rev (v : Z) : Z := rev_loop 7 64 ULLONG_MAX v.

(** [v |= ~m; v = rev(v); v++; v = rev(v);] *)
Definition next_cursor (v m : Z) : Z := rev (u64 (rev (Z.lor v (u64 (Z.lnot m))) + 1)).

Section Scan.
Context {K V : Type} `{dictType : DictType K V}.

(** The two callbacks of [dictScan]: on the bucket and on each entry. *)
Inductive scan_event :=
  | EvBucket (t : bool) (idx : Z)
  | EvEntry (e : dictEntry K V).

(** Emit the entries of a bucket; [bucketfn] says whether that callback is set. *)
Definition emit (bucketfn : bool) (d : dict K V) (t : bool) (idx : Z) : option (list scan_event) :=
  chain ← table (get_ht d t) !! Z.to_nat idx;
  Some ((if bucketfn then [EvBucket t idx] else []) ++ (EvEntry <$> chain)).

(** The [do ... while (v & (m0 ^ m1))] loop over the larger table [t1]. *)
Fixpoint scan_expand (fuel : nat) (bucketfn : bool) (d : dict K V) (t1 : bool) (m0 m1 v : Z)
    (acc : list scan_event) : option (list scan_event * Z) :=
  match fuel with
  | O => None
  | S fuel =>
      evs ← emit bucketfn d t1 (Z.land v m1);
      let v := next_cursor v m1 in
      if Z.land v (Z.lxor m0 m1) =? 0 then Some (acc ++ evs, v)
      else scan_expand fuel bucketfn d t1 m0 m1 v (acc ++ evs)
  end.

Definition dictScan (bucketfn : bool) (d : dict K V) (v : Z) : option (list scan_event * Z) :=
  if dictSize d =? 0 then Some ([], 0)
  else if negb (dictIsRehashing d) then
    let m0 := sizemask (ht0 d) in
    evs ← emit bucketfn d false (Z.land v m0);
    Some (evs, next_cursor v m0)
  else
    (* make sure t0 is the smaller and t1 is the bigger table *)
    let t0 := size (ht0 d) >? size (ht1 d) in
    let t1 := negb t0 in
    let m0 := sizemask (get_ht d t0) in
    let m1 := sizemask (get_ht d t1) in
    evs ← emit bucketfn d t0 (Z.land v m0);
    scan_expand (S (Z.to_nat (size (get_ht d t1)))) bucketfn d t1 m0 m1 v evs.

(** ** Iterators *)

(** Tomas Wang's 64 bit mix of one step of [dictFingerprint]. *)
Definition fingerprint_mix (hash : Z) : Z :=
  let hash := s64 (Z.lnot hash + s64 (Z.shiftl hash 21)) in
  let hash := Z.lxor hash (Z.shiftr hash 24) in
  let hash := s64 (s64 (hash + s64 (Z.shiftl hash 3)) + s64 (Z.shiftl hash 8)) in
  let hash := Z.lxor hash (Z.shiftr hash 14) in
  let hash := s64 (s64 (hash + s64 (Z.shiftl hash 2)) + s64 (Z.shiftl hash 4)) in
  let hash := Z.lxor hash (Z.shiftr hash 28) in
  s64 (hash + s64 (Z.shiftl hash 31)).

(** [p0] and [p1] are the addresses of the two tables. *)
Definition dictFingerprint (p0 p1 : Z) (d : dict K V) : Z :=
  foldl (fun hash x => fingerprint_mix (s64 (hash + s64 x))) 0
    [p0; size (ht0 d); used (ht0 d); p1; size (ht1 d); used (ht1 d)].

(** A pointer into a chain is the rest of the chain, [[]] is NULL. *)
Record dictIterator := mkIter {
  it_index : Z;
  it_table : bool;
  it_safe : bool;
  it_entry : list (dictEntry K V);
  it_nextEntry : list (dictEntry K V);
  it_fingerprint : Z;
}.

Definition dictGetIterator : dictIterator := mkIter (-1) false false [] [] 0.
Definition dictGetSafeIterator : dictIterator := mkIter (-1) false true [] [] 0.

Context (p0 p1 : Z).

(** The body of the [while (1)] of [dictNext] up to its last test: the dictionary
    (its count of running safe iterators may change), the iterator with its new
    [entry], and whether the loop is left with [break]. *)
Definition dictNext_body (d : dict K V) (it : dictIterator)
    : option (dict K V * dictIterator * bool) :=
  match it_entry it with
  | [] =>
      let first := (it_index it =? -1) && negb (it_table it) in
      let d := if first && it_safe it
               then mkDict (ht0 d) (ht1 d) (rehashidx d) (u64 (iterators d + 1)) else d in
      let fp := if first && negb (it_safe it) then dictFingerprint p0 p1 d
                else it_fingerprint it in
      let index := it_index it + 1 in
      if index >=? s64 (size (get_ht d (it_table it))) then
        if dictIsRehashing d && negb (it_table it) then
          entry ← table (ht1 d) !! O;
          Some (d, mkIter 0 true (it_safe it) entry (it_nextEntry it) fp, false)
        else Some (d, mkIter index (it_table it) (it_safe it) [] (it_nextEntry it) fp, true)
      else
        entry ← table (get_ht d (it_table it)) !! Z.to_nat index;
        Some (d, mkIter index (it_table it) (it_safe it) entry (it_nextEntry it) fp, false)
  | _ =>
      Some (d, mkIter (it_index it) (it_table it) (it_safe it) (it_nextEntry it) (it_nextEntry it)
                 (it_fingerprint it), false)
  end.

Fixpoint dictNext (fuel : nat) (d : dict K V) (it : dictIterator)
    : option (dict K V * dictIterator * option (dictEntry K V)) :=
  match fuel with
  | O => None
  | S fuel =>
      '(d, it, brk) ← dictNext_body d it;
      if (brk : bool) then Some (d, it, None)
      else
        match it_entry it with
        | [] => dictNext fuel d it
        | e :: next =>
            Some (d, mkIter (it_index it) (it_table it) (it_safe it) (it_entry it) next
                       (it_fingerprint it), Some e)
        end
  end.

(** [None] is the failed assertion on a misused unsafe iterator. *)
Definition dictReleaseIterator (d : dict K V) (it : dictIterator) : option (dict K V) :=
  if negb ((it_index it =? -1) && negb (it_table it)) then
    if it_safe it
    then Some (mkDict (ht0 d) (ht1 d) (rehashidx d) (u64 (iterators d - 1)))
    else if it_fingerprint it =? dictFingerprint p0 p1 d then Some d else None
  else Some d.

(** The loop [while((de = dictNext(di)) != NULL)] of the callers. *)
Fixpoint iterate (n fuel : nat) (d : dict K V) (it : dictIterator)
    : option (dict K V * dictIterator * list (dictEntry K V)) :=
  match n with
  | O => None
  | S n =>
      '(d, it, r) ← dictNext fuel d it;
      match r with
      | None => Some (d, it, [])
      | Some e => '(d, it, es) ← iterate n fuel d it; Some (d, it, e :: es)
      end
  end.

End Scan.

Arguments dictIterator : clear implicits.
Arguments scan_event : clear implicits.

(** ** Bits of the reversed word *)

Definition stage (s mask v : Z) : Z :=
  Z.lor (Z.land (Z.shiftr v s) mask) (Z.land (u64 (Z.shiftl v s)) (u64 (Z.lnot mask))).

Definition M32 := 4294967295.
Definition M16 := 281470681808895.
Definition M8 := 71777214294589695.
Definition M4 := 1085102592571150095.
Definition M2 := 3689348814741910323.
Definition M1 := 6148914691236517205.

Lemma rev_stages v :
  rev v = stage 1 M1 (stage 2 M2 (stage 4 M4 (stage 8 M8 (stage 16 M16 (stage 32 M32 v))))).
Proof. reflexivity. Qed.

(** Where the bit [i] of a stage comes from. *)
Definition origin (s mask i : Z) : Z := if Z.testbit mask i then i + s else i - s.

Lemma stage_bits s mask v i :
  0 <= s -> 0 <= i < 64 -> 0 <= origin s mask i ->
  Z.testbit (stage s mask v) i = Z.testbit v (origin s mask i).
Proof.
  intros Hs Hi Ho. unfold stage, origin in *.
  rewrite Z.lor_spec, !Z.land_spec, Z.shiftr_spec, !uN_bits, Z.lnot_spec, Z.shiftl_spec by lia.
  destruct (Z.ltb_spec i 64); [|lia]. simpl. destruct (Z.testbit mask i); simpl.
  - by rewrite andb_true_r, andb_false_r, orb_false_r.
  - by rewrite andb_false_r, andb_true_r.
Qed.

Definition through (i : Z) : list Z :=
  let a := origin 1 M1 i in let b := origin 2 M2 a in let c := origin 4 M4 b in
  let d := origin 8 M8 c in let e := origin 16 M16 d in let f := origin 32 M32 e in
  [a; b; c; d; e; f].

Definition good_path (i : Z) : bool :=
  forallb (fun x => (0 <=? x) && (x <? 64)) (through i) && (nth 5 (through i) 0 =? 63 - i).

Lemma paths_good : forallb good_path (seqZ 0 64) = true.
Proof. vm_compute. reflexivity. Qed.

Lemma rev_bits v i : 0 <= i < 64 -> Z.testbit (rev v) i = Z.testbit v (63 - i).
Proof.
  intros Hi. pose proof paths_good as HP. rewrite forallb_forall in HP.
  specialize (HP i). rewrite <- list_elem_of_In, elem_of_seqZ in HP. specialize (HP ltac:(lia)).
  unfold good_path, through in HP. cbn [forallb nth] in HP. zbool.
  rewrite rev_stages. repeat rewrite stage_bits by lia. congruence.
Qed.

Lemma testbit_high v i : 0 <= v < 2 ^ 64 -> 64 <= i -> Z.testbit v i = false.
Proof.
  intros Hv Hi. rewrite <- (Z.mod_small v (2 ^ 64)) by done. apply Z.mod_pow2_bits_high. lia.
Qed.

Lemma u64_range v : 0 <= v < 2 ^ 64 <-> in_u64 v.
Proof. unfold in_u64, ULLONG_MAX. simpl. lia. Qed.

Lemma land_bound a b : 0 <= b < 2 ^ 64 -> 0 <= Z.land a b < 2 ^ 64.
Proof.
  intros Hb. assert (Z.land a b = (Z.land a b) mod 2 ^ 64) as ->; [|apply Z.mod_pos_bound; lia].
  symmetry. apply Z.bits_inj'. intros i Hi. destruct (Z.lt_ge_cases i 64).
  - by rewrite Z.mod_pow2_bits_low.
  - rewrite Z.mod_pow2_bits_high by lia. by rewrite Z.land_spec, (testbit_high b), andb_false_r.
Qed.

Lemma lor_bound a b : 0 <= a < 2 ^ 64 -> 0 <= b < 2 ^ 64 -> 0 <= Z.lor a b < 2 ^ 64.
Proof.
  intros Ha Hb. assert (Z.lor a b = (Z.lor a b) mod 2 ^ 64) as ->; [|apply Z.mod_pos_bound; lia].
  symmetry. apply Z.bits_inj'. intros i Hi. destruct (Z.lt_ge_cases i 64).
  - by rewrite Z.mod_pow2_bits_low.
  - rewrite Z.mod_pow2_bits_high by lia. by rewrite Z.lor_spec, !testbit_high.
Qed.

Lemma rev_range v : 0 <= rev v < 2 ^ 64.
Proof.
  rewrite rev_stages. unfold stage at 1.
  apply lor_bound; apply land_bound; [vm_compute; split; congruence|apply uN_range; lia].
Qed.

#[local] Opaque rev.

(** Two words are equal when their 64 bits are. *)
Lemma word_ext a b :
  0 <= a < 2 ^ 64 -> 0 <= b < 2 ^ 64 ->
  (forall i, 0 <= i < 64 -> Z.testbit a i = Z.testbit b i) -> a = b.
Proof.
  intros Ha Hb Hi. apply Z.bits_inj'. intros i Hi0. destruct (Z.lt_ge_cases i 64); [auto|].
  by rewrite !testbit_high.
Qed.

Lemma rev_involutive v : 0 <= v < 2 ^ 64 -> rev (rev v) = v.
Proof.
  intros Hv. apply word_ext; [apply rev_range|done|]. intros i Hi.
  rewrite !rev_bits by lia. f_equal. lia.
Qed.

Lemma rev_0 : rev 0 = 0.
Proof. vm_compute. reflexivity. Qed.

Lemma rev_top : rev (u64 (2 ^ 64)) = 0.
Proof. vm_compute. reflexivity. Qed.

Lemma rev_eq_0 v : 0 <= v < 2 ^ 64 -> rev v = 0 -> v = 0.
Proof. intros Hv Hr. rewrite <- (rev_involutive v Hv), Hr. apply rev_0. Qed.

(** The low bits of a word select the leading part of the reversed word. *)
Lemma rev_prefix a b k :
  0 <= k <= 64 -> 0 <= a < 2 ^ 64 -> 0 <= b < 2 ^ 64 ->
  a mod 2 ^ k = b mod 2 ^ k <-> rev a / 2 ^ (64 - k) = rev b / 2 ^ (64 - k).
Proof.
  intros Hk Ha Hb. rewrite <- !Z.shiftr_div_pow2 by lia. split; intros E.
  - apply Z.bits_inj'. intros i Hi. rewrite !Z.shiftr_spec by lia.
    destruct (Z.lt_ge_cases (i + (64 - k)) 64).
    + rewrite !rev_bits by lia.
      rewrite <- (Z.mod_pow2_bits_low a k), <- (Z.mod_pow2_bits_low b k), E by lia. done.
    + rewrite !testbit_high by (apply rev_range || lia). done.
  - apply Z.bits_inj'. intros i Hi. destruct (Z.lt_ge_cases i k).
    + rewrite !Z.mod_pow2_bits_low by lia.
      apply (f_equal (fun z => Z.testbit z (k - 1 - i))) in E.
      rewrite !Z.shiftr_spec, !rev_bits in E by lia.
      replace (63 - (k - 1 - i + (64 - k))) with i in E by lia. done.
    + by rewrite !Z.mod_pow2_bits_high by lia.
Qed.

(** The end of the block of size 2^(64-k) that contains [r]. *)
Definition block_end (k r : Z) : Z := (r / 2 ^ (64 - k) + 1) * 2 ^ (64 - k).

Lemma block_end_bounds k r :
  0 <= k <= 64 -> 0 <= r < 2 ^ 64 -> r < block_end k r <= 2 ^ 64.
Proof.
  intros Hk Hr. unfold block_end. pose proof (pow2_pos (64 - k) ltac:(lia)).
  pose proof (Z.div_mod r (2 ^ (64 - k)) ltac:(lia)).
  pose proof (Z.mod_pos_bound r (2 ^ (64 - k)) ltac:(lia)). split; [lia|].
  assert (E : 2 ^ 64 = 2 ^ k * 2 ^ (64 - k)) by (rewrite <- Z.pow_add_r by lia; f_equal; lia).
  assert (r / 2 ^ (64 - k) < 2 ^ k) by (apply Z.div_lt_upper_bound; lia). nia.
Qed.

(** Incrementing the reversed cursor moves to the next block. *)
Lemma next_cursor_rev v k :
  0 <= k <= 63 -> 0 <= v < 2 ^ 64 ->
  rev (next_cursor v (2 ^ k - 1)) = u64 (block_end k (rev v)).
Proof.
  intros Hk Hv. unfold next_cursor. rewrite rev_involutive by (apply uN_range; lia). f_equal.
  set (w := Z.lor v (u64 (Z.lnot (2 ^ k - 1)))).
  assert (Hw : rev w = Z.lor (rev v) (Z.ones (64 - k))).
  { apply word_ext.
    - apply rev_range.
    - apply lor_bound; [apply rev_range|]. rewrite Z.ones_equiv.
      pose proof (pow2_pos (64 - k) ltac:(lia)).
      assert (2 ^ (64 - k) <= 2 ^ 64) by (apply Z.pow_le_mono_r; lia). lia.
    - intros i Hi. rewrite rev_bits by lia. unfold w.
      replace (2 ^ k - 1) with (Z.ones k) by (rewrite Z.ones_equiv; lia).
      rewrite !Z.lor_spec, uN_bits, Z.lnot_spec, rev_bits by lia.
      destruct (Z.ltb_spec (63 - i) 64); [|lia]. simpl.
      destruct (Z.lt_ge_cases i (64 - k)).
      + rewrite (Z.ones_spec_high k), (Z.ones_spec_low (64 - k)) by lia. done.
      + rewrite (Z.ones_spec_low k), (Z.ones_spec_high (64 - k)) by lia. done. }
  rewrite Hw. unfold block_end. pose proof (pow2_pos (64 - k) ltac:(lia)).
  set (r := rev v). set (b := 64 - k) in *.
  assert (E : Z.lor r (Z.ones b) = (r / 2 ^ b) * 2 ^ b + Z.ones b).
  { apply Z.bits_inj'. intros i Hi. rewrite Z.lor_spec.
    assert (Hadd : (r / 2 ^ b) * 2 ^ b + Z.ones b = Z.lor (Z.shiftl (Z.shiftr r b) b) (Z.ones b)).
    { rewrite lor_disjoint.
      - rewrite Z.shiftl_mul_pow2, Z.shiftr_div_pow2 by lia. done.
      - apply Z.bits_inj'. intros j Hj. rewrite Z.land_spec, Z.bits_0.
        destruct (Z.lt_ge_cases j b).
        + by rewrite Z.shiftl_spec_low by lia.
        + rewrite (Z.ones_spec_high b) by lia. by rewrite andb_false_r. }
    rewrite Hadd, Z.lor_spec. destruct (Z.lt_ge_cases i b).
    - rewrite (Z.ones_spec_low b) by lia. by rewrite !orb_true_r.
    - rewrite (Z.ones_spec_high b), Z.shiftl_spec, Z.shiftr_spec by lia. do 2 f_equal. lia. }
  rewrite E, Z.ones_equiv. lia.
Qed.

Lemma mod_pow2_bits_0 x n :
  0 <= n -> x mod 2 ^ n = 0 <-> (forall i, 0 <= i < n -> Z.testbit x i = false).
Proof.
  intros Hn. split.
  - intros E i Hi. by rewrite <- (Z.mod_pow2_bits_low x n), E, Z.bits_0 by lia.
  - intros Hb. apply Z.bits_inj'. intros i Hi. rewrite Z.bits_0.
    destruct (Z.lt_ge_cases i n).
    + rewrite Z.mod_pow2_bits_low by lia. auto.
    + by apply Z.mod_pow2_bits_high; lia.
Qed.

(** The loop condition [v & (m0 ^ m1)]: the cursor has reached a block of the
    smaller table. *)
Lemma expand_done w k0 k1 :
  0 <= k0 <= k1 -> k1 <= 64 -> 0 <= w < 2 ^ 64 -> rev w mod 2 ^ (64 - k1) = 0 ->
  Z.land w (Z.lxor (2 ^ k0 - 1) (2 ^ k1 - 1)) = 0 <-> rev w mod 2 ^ (64 - k0) = 0.
Proof.
  intros Hk Hk1 Hw Hlow. rewrite mod_pow2_bits_0 in Hlow by lia. rewrite mod_pow2_bits_0 by lia.
  replace (2 ^ k0 - 1) with (Z.ones k0) by (rewrite Z.ones_equiv; lia).
  replace (2 ^ k1 - 1) with (Z.ones k1) by (rewrite Z.ones_equiv; lia). split.
  - intros E i Hi. destruct (Z.lt_ge_cases i (64 - k1)); [apply Hlow; lia|].
    apply (f_equal (fun z => Z.testbit z (63 - i))) in E.
    rewrite Z.land_spec, Z.lxor_spec, Z.bits_0 in E.
    rewrite (Z.ones_spec_high k0), (Z.ones_spec_low k1) in E by lia.
    rewrite rev_bits by lia. by rewrite andb_true_r in E.
  - intros Hb. apply Z.bits_inj'. intros j Hj. rewrite Z.land_spec, Z.lxor_spec, Z.bits_0.
    destruct (Z.lt_ge_cases j k0).
    { rewrite !Z.ones_spec_low by lia. by rewrite andb_false_r. }
    destruct (Z.lt_ge_cases j 64).
    + specialize (Hb (63 - j) ltac:(lia)). rewrite rev_bits in Hb by lia.
      replace (63 - (63 - j)) with j in Hb by lia. by rewrite Hb.
    + by rewrite testbit_high.
Qed.

Section Guarantee.
Context {K V N : Type} `{dictType : DictType K V} `{Countable N} `{!DictTypeLaws K V N}.
Context (bucketfn : bool).

Definition rank (e : dictEntry K V) : Z := rev (hashFunction (V := V) (de_key e)).

Lemma land_mask v k : 0 <= k -> Z.land v (2 ^ k - 1) = v mod 2 ^ k.
Proof.
  intros Hk. replace (2 ^ k - 1) with (Z.ones k) by (rewrite Z.ones_equiv; lia).
  by apply Z.land_ones.
Qed.

(** A bucket is emitted whole: all entries whose rank is in the cursor's block. *)
Lemma emit_ok d t v k :
  ht_ok (get_ht d t) -> 0 <= k <= 63 -> size (get_ht d t) = 2 ^ k ->
  sizemask (get_ht d t) = 2 ^ k - 1 -> 0 <= v < 2 ^ 64 ->
  exists evs, emit bucketfn d t (Z.land v (2 ^ k - 1)) = Some evs /\
    forall e, e ∈ concat (table (get_ht d t)) -> rank e / 2 ^ (64 - k) = rev v / 2 ^ (64 - k) ->
      EvEntry e ∈ evs.
Proof.
  intros Hok Hk Hs Hm Hv. rewrite land_mask by lia. pose proof (pow2_pos k ltac:(lia)).
  pose proof (Z.mod_pos_bound v (2 ^ k) ltac:(lia)). pose proof (ok_len _ Hok) as Hl.
  destruct (lookup_lt_is_Some_2 (table (get_ht d t)) (Z.to_nat (v mod 2 ^ k))) as [c Hc].
  { unfold zlen in Hl. lia. }
  unfold emit. rewrite Hc. mrun. eexists; split; [done|].
  intros e (i & c' & Hi & He)%in_concat_bucket Hr. apply elem_of_app. right.
  apply list_elem_of_fmap_2. assert (i = Z.to_nat (v mod 2 ^ k)) as ->; [|congruence].
  rewrite <- (ok_place _ Hok i c' e Hi He). unfold bucket_of. rewrite Hm, land_mask by lia.
  f_equal. apply rev_prefix; [lia| |done|done]. apply u64_range, hash_range.
Qed.

Lemma block_cover k r x :
  0 <= k <= 64 -> r <= x < block_end k r -> x / 2 ^ (64 - k) = r / 2 ^ (64 - k).
Proof.
  unfold block_end. intros Hk Hx. pose proof (pow2_pos (64 - k) ltac:(lia)).
  assert (r / 2 ^ (64 - k) <= x / 2 ^ (64 - k)) by (apply Z.div_le_mono; lia).
  assert (x / 2 ^ (64 - k) < r / 2 ^ (64 - k) + 1) by (apply Z.div_lt_upper_bound; lia). lia.
Qed.

Lemma multiple_gap U e c r f :
  0 < U -> r < c * U -> e * U - r <= (f + 1) * U -> e * U - c * U <= f * U.
Proof. intros. assert (e - c < f + 1) by nia. nia. Qed.

Lemma scan_expand_ok d t1 k0 k1 E :
  ht_ok (get_ht d t1) -> 0 <= k0 <= k1 -> k1 <= 63 ->
  size (get_ht d t1) = 2 ^ k1 -> sizemask (get_ht d t1) = 2 ^ k1 - 1 ->
  E mod 2 ^ (64 - k0) = 0 -> E <= 2 ^ 64 ->
  forall fuel v acc,
  0 <= v < 2 ^ 64 -> E - 2 ^ (64 - k0) <= rev v < E ->
  E - rev v <= Z.of_nat fuel * 2 ^ (64 - k1) ->
  exists evs, scan_expand fuel bucketfn d t1 (2 ^ k0 - 1) (2 ^ k1 - 1) v acc
      = Some (acc ++ evs, rev (u64 E)) /\
    forall e, e ∈ concat (table (get_ht d t1)) -> rev v <= rank e < E -> EvEntry e ∈ evs.
Proof.
  intros Hok Hk Hk1 Hs Hm HE HE64. pose proof (pow2_pos (64 - k1) ltac:(lia)) as HU.
  assert (HU0 : 2 ^ (64 - k0) = 2 ^ (k1 - k0) * 2 ^ (64 - k1))
    by (rewrite <- Z.pow_add_r by lia; f_equal; lia).
  assert (HEU : E = E / 2 ^ (64 - k1) * 2 ^ (64 - k1)).
  { apply Z.div_exact in HE; [|pose proof (pow2_pos (64 - k0)); lia]. rewrite HE at 2.
    rewrite HU0, <- Z.mul_assoc, (Z.mul_comm (2 ^ (64 - k1))), Z.mul_assoc, Z.div_mul by lia.
    rewrite HE at 1. rewrite HU0. lia. }
  induction fuel as [|fuel IH]; intros v acc Hv Hr Hf; [lia|].
  cbn [scan_expand]. pose proof (rev_range v) as Hrv.
  destruct (emit_ok d t1 v k1 Hok ltac:(lia) Hs Hm Hv) as (evs & Hevs & Hcov).
  rewrite Hevs. mrun. set (v1 := next_cursor v (2 ^ k1 - 1)).
  pose proof (next_cursor_rev v k1 ltac:(lia) Hv) as Hv1. fold v1 in Hv1.
  pose proof (block_end_bounds k1 (rev v) ltac:(lia) Hrv) as Hb.
  set (b := block_end k1 (rev v)) in *.
  assert (HbU : b = (rev v / 2 ^ (64 - k1) + 1) * 2 ^ (64 - k1)) by done.
  assert (HbE : b <= E).
  { assert (rev v / 2 ^ (64 - k1) < E / 2 ^ (64 - k1)) by (apply Z.div_lt_upper_bound; lia). nia. }
  assert (Hrange1 : 0 <= v1 < 2 ^ 64) by apply rev_range.
  assert (Hbmod : u64 b mod 2 ^ (64 - k1) = 0).
  { unfold uN. destruct (Z.eq_dec b (2 ^ 64)) as [->|]; [by rewrite Z_mod_same_full|].
    rewrite (Z.mod_small b) by lia. rewrite HbU. by apply Z_mod_mult. }
  assert (Hb0 : u64 b mod 2 ^ (64 - k0) = 0 <-> b = E).
  { pose proof (pow2_pos (64 - k0) ltac:(lia)) as HP0.
    assert (Hm64 : u64 b mod 2 ^ (64 - k0) = b mod 2 ^ (64 - k0)).
    { unfold uN. destruct (Z.eq_dec b (2 ^ 64)) as [->|]; [|by rewrite (Z.mod_small b) by lia].
      rewrite Z_mod_same_full, Z.mod_0_l by lia. symmetry.
      replace (2 ^ 64) with (2 ^ k0 * 2 ^ (64 - k0)); [by apply Z_mod_mult|].
      rewrite <- Z.pow_add_r by lia. f_equal. lia. }
    rewrite Hm64. split; [|by intros ->]. intros Hb0.
    apply Z.div_exact in HE; [|lia]. apply Z.div_exact in Hb0; [|lia].
    rewrite HE, Hb0 in *. assert (E / 2 ^ (64 - k0) - 1 < b / 2 ^ (64 - k0) <= E / 2 ^ (64 - k0)) by nia.
    f_equal. lia. }
  assert (Hcov1 : forall e, e ∈ concat (table (get_ht d t1)) -> rev v <= rank e < b -> EvEntry e ∈ evs).
  { intros e He Hre. apply Hcov; [done|]. by apply block_cover; [lia|]. }
  destruct (Z.eqb_spec (Z.land v1 (Z.lxor (2 ^ k0 - 1) (2 ^ k1 - 1))) 0) as [Hd|Hd];
    rewrite (expand_done v1 k0 k1) in Hd by (rewrite ?Hv1; try done; lia); rewrite Hv1, Hb0 in Hd.
  - exists evs. split.
    + do 2 f_equal. by rewrite <- Hd, <- Hv1, rev_involutive.
    + by rewrite <- Hd.
  - assert (Hub : u64 b = b) by (apply uN_id; lia). rewrite Hub in Hv1.
    destruct (IH v1 (acc ++ evs) Hrange1) as (evs' & HS & Hcov').
    { lia. }
    { rewrite Hv1, HEU, HbU. rewrite HEU in Hf. rewrite HbU in Hb.
      apply (multiple_gap _ _ _ (rev v)); lia. }
    exists (evs ++ evs'). rewrite HS, app_assoc. split; [done|]. intros e He Hre.
    apply elem_of_app. destruct (Z.lt_ge_cases (rank e) b); [left|right].
    + apply Hcov1; [done|lia].
    + apply Hcov'; [done|lia].
Qed.

Lemma ht_log h : ht_ok h -> size h <> 0 ->
  exists k, 2 <= k <= 63 /\ size h = 2 ^ k /\ sizemask h = 2 ^ k - 1.
Proof. intros [_ _ [[? _]|(k & ? & ? & ?)] _] Hn; [lia|]. exists k. split; [lia|done]. Qed.

Lemma block_end_mod k r : 0 <= k <= 64 -> block_end k r mod 2 ^ (64 - k) = 0.
Proof. intros Hk. unfold block_end. apply Z_mod_mult. Qed.

(** One call: everything from the cursor to the end of its block is returned,
    and the new cursor is that end. *)
Lemma dictScan_ok d v :
  dict_ok d -> entries d <> [] -> 0 <= v < 2 ^ 64 ->
  exists k evs, 2 <= k <= 63 /\ 2 ^ k <= size (ht0 d) /\
    dictScan bucketfn d v = Some (evs, rev (u64 (block_end k (rev v)))) /\
    forall e, e ∈ entries d -> rev v <= rank e < block_end k (rev v) -> EvEntry e ∈ evs.
Proof.
  intros Hok Hne Hv. pose proof Hok as [Hok0 Hok1 Hph _ Hcnt].
  pose proof (allocated d Hok Hne) as Hs0. pose proof (entries_used d Hok) as Hu.
  assert (Hpos : 0 < zlen (entries d)) by (destruct (entries d); [done|rewrite zlen_cons; pose proof (zlen_nonneg l); lia]).
  unfold dictScan, dictSize. unfold MAX_ENTRIES in Hcnt.
  rewrite u64_id by (unfold in_u64, ULLONG_MAX; lia). zif_false.
  destruct (ht_log _ Hok0 Hs0) as (k0 & Hk0 & Hz0 & Hm0).
  destruct (dictIsRehashing d) eqn:Hr; simpl negb; cbv iota.
  - apply isRehashing_spec in Hr. unfold rehashing in Hr.
    destruct Hph as [[? _]|(_ & _ & Hs1 & _)]; [lia|].
    destruct (ht_log _ Hok1 Hs1) as (k1 & Hk1 & Hz1 & Hm1).
    set (t0 := size (ht0 d) >? size (ht1 d)).
    assert (Hexp : exists ka kb, 2 <= ka <= kb /\ kb <= 63 /\ 2 ^ ka <= size (ht0 d) /\
      size (get_ht d t0) = 2 ^ ka /\ sizemask (get_ht d t0) = 2 ^ ka - 1 /\
      size (get_ht d (negb t0)) = 2 ^ kb /\ sizemask (get_ht d (negb t0)) = 2 ^ kb - 1).
    { unfold t0. rewrite Z.gtb_ltb. destruct (Z.ltb_spec (size (ht1 d)) (size (ht0 d))); simpl.
      - exists k1, k0. rewrite Hz0, Hz1 in *. apply Z.pow_lt_mono_r_iff in H0; [|lia..].
        split_and!; try done; try lia. apply Z.pow_le_mono_r; lia.
      - exists k0, k1. rewrite Hz0, Hz1 in *. apply Z.pow_le_mono_r_iff in H0; [|lia..].
        split_and!; try done; lia. }
    destruct Hexp as (ka & kb & Hk & Hkb & Hle & Hsa & Hma & Hsb & Hmb).
    assert (Hoka : ht_ok (get_ht d t0)) by (destruct t0; done).
    assert (Hokb : ht_ok (get_ht d (negb t0))) by (destruct t0; done).
    rewrite Hma, Hmb, Hsb. pose proof (rev_range v) as Hrv.
    destruct (emit_ok d t0 v ka Hoka ltac:(lia) Hsa Hma Hv) as (evs & Hevs & Hcov).
    rewrite Hevs. mrun. pose proof (block_end_bounds ka (rev v) ltac:(lia) Hrv) as Hb.
    pose proof (pow2_pos (64 - ka) ltac:(lia)). pose proof (pow2_pos (64 - kb) ltac:(lia)).
    pose proof (pow2_pos kb ltac:(lia)).
    assert (H64 : 2 ^ 64 = 2 ^ kb * 2 ^ (64 - kb)) by (rewrite <- Z.pow_add_r by lia; f_equal; lia).
    destruct (scan_expand_ok d (negb t0) ka kb (block_end ka (rev v)) Hokb ltac:(lia) Hkb Hsb Hmb
      (block_end_mod ka _ ltac:(lia)) ltac:(lia) (S (Z.to_nat (2 ^ kb))) v evs Hv)
      as (evs' & HS & Hcov').
    { unfold block_end in *. pose proof (Z.div_mod (rev v) (2 ^ (64 - ka)) ltac:(lia)).
      pose proof (Z.mod_pos_bound (rev v) (2 ^ (64 - ka)) ltac:(lia)). lia. }
    { nia. }
    exists ka, (evs ++ evs'). rewrite HS. split_and!; try done; try lia.
    intros e He Hre. apply elem_of_app.
    assert (Hin : e ∈ concat (table (get_ht d t0)) \/ e ∈ concat (table (get_ht d (negb t0)))).
    { unfold entries in He. apply elem_of_app in He. destruct t0; simpl; tauto. }
    destruct Hin as [Hin|Hin]; [left|right; auto].
    apply Hcov; [done|]. apply block_cover; [lia|done].
  - apply isRehashing_false in Hr. destruct Hph as [[_ H1]|Hph]; [|lia].
    rewrite Hm0. destruct (emit_ok d false v k0 Hok0 ltac:(lia) Hz0 Hm0 Hv) as (evs & Hevs & Hcov).
    rewrite Hevs. mrun. exists k0, evs. split_and!; try lia.
    + do 2 f_equal. rewrite <- next_cursor_rev by lia. symmetry. apply rev_involutive, rev_range.
    + intros e He Hre. apply Hcov; [|apply block_cover; [lia|done]].
      unfold entries in He. rewrite H1, app_nil_r in He. done.
Qed.

(** Successive calls of an iteration: [ds] are the states of the dictionary at
    the calls, the cursor is passed on, [None] says it came back to 0. *)
Fixpoint scan_calls (ds : list (dict K V)) (v : Z) (acc : list (scan_event K V))
    : option (list (scan_event K V) * option Z) :=
  match ds with
  | [] => Some (acc, Some v)
  | d :: ds =>
      '(evs, v) ← dictScan bucketfn d v;
      if v =? 0 then Some (acc ++ evs, None) else scan_calls ds v (acc ++ evs)
  end.

(** The key [n] is in the dictionary. *)
Definition present (n : N) (d : dict K V) : Prop := n ∈ norm <$> entries d.
Definition returned (n : N) (evs : list (scan_event K V)) : Prop :=
  exists e, EvEntry e ∈ evs /\ norm e = n.

Lemma rank_norm (e e' : dictEntry K V) : norm (N := N) e = norm e' -> rank e = rank e'.
Proof. intros E. unfold rank. by rewrite (hash_norm (V := V) _ _ E). Qed.

Lemma scan_calls_ok key0 kmax : 0 <= kmax <= 63 -> forall ds v acc,
  0 <= v < 2 ^ 64 -> Forall dict_ok ds -> Forall (present (norm key0)) ds ->
  Forall (fun d => size (ht0 d) <= 2 ^ kmax) ds ->
  (rank key0 < rev v -> returned (norm key0) acc) ->
  exists evs fin, scan_calls ds v acc = Some (evs, fin) /\
    (fin = None -> returned (norm key0) evs) /\
    (2 ^ kmax - rev v / 2 ^ (64 - kmax) <= zlen ds -> ds <> [] -> fin = None).
Proof.
  intros Hkm ds. induction ds as [|d ds IH]; intros v acc Hv Hok Hpr Hsz Hacc.
  { exists acc, (Some v). done. }
  apply Forall_cons in Hok as [Hok Hoks]. apply Forall_cons in Hpr as [Hpr Hprs].
  apply Forall_cons in Hsz as [Hsz Hszs].
  assert (Hne : entries d <> []) by (intros E; unfold present in Hpr; rewrite E in Hpr; by apply elem_of_nil in Hpr).
  destruct (dictScan_ok d v Hok Hne Hv) as (k & evs & Hk & Hks & HS & Hcov).
  cbn [scan_calls]. rewrite HS. mrun. pose proof (rev_range v) as Hrv.
  pose proof (block_end_bounds k (rev v) ltac:(lia) Hrv) as Hb. set (E := block_end k (rev v)) in *.
  assert (Hret : rank key0 < E -> returned (norm key0) (acc ++ evs)).
  { intros Hlt. destruct (Z.lt_ge_cases (rank key0) (rev v)) as [Hl|Hg].
    - destruct (Hacc Hl) as (e & He & Hn). exists e. split; [|done]. apply elem_of_app. by left.
    - apply list_elem_of_fmap in Hpr as (e & Hne' & He). exists e. split; [|done].
      apply elem_of_app. right. apply Hcov; [done|]. rewrite <- (rank_norm _ _ Hne'). lia. }
  assert (Hkk : k <= kmax).
  { apply (Z.pow_le_mono_r_iff 2); lia. }
  destruct (Z.eqb_spec (rev (u64 E)) 0) as [H0|H0].
  - exists (acc ++ evs), None. split_and!; try done. intros _. apply Hret.
    apply rev_eq_0 in H0; [|apply uN_range; lia].
    destruct (Z.eq_dec E (2 ^ 64)) as [HE|HE]; [|rewrite uN_id in H0 by lia; lia].
    rewrite HE. apply rev_range.
  - assert (HE : E <> 2 ^ 64) by (intros HE; apply H0; rewrite HE; apply rev_top).
    assert (HuE : u64 E = E) by (apply uN_id; lia). rewrite HuE in *.
    assert (Hrr : rev (rev E) = E) by (apply rev_involutive; lia).
    destruct (IH (rev E) (acc ++ evs)) as (evs' & fin & HC & Hfin & Hterm); try done.
    { apply rev_range. }
    { by rewrite Hrr. }
    exists evs', fin. split_and!; try done. intros Hlen _. rewrite Hrr in Hterm.
    rewrite zlen_cons in Hlen. pose proof (pow2_pos (64 - kmax) ltac:(lia)) as HU.
    assert (HEd : rev v / 2 ^ (64 - kmax) + 1 <= E / 2 ^ (64 - kmax)).
    { assert (Hlt : rev v / 2 ^ (64 - kmax) < E / 2 ^ (64 - kmax)); [|lia].
      apply Z.div_lt_upper_bound; [lia|].
      assert (HEU : E = E / 2 ^ (64 - kmax) * 2 ^ (64 - kmax)); [|lia].
      unfold E, block_end. set (q := rev v / 2 ^ (64 - k) + 1).
      replace (2 ^ (64 - k)) with (2 ^ (kmax - k) * 2 ^ (64 - kmax))
        by (rewrite <- Z.pow_add_r by lia; f_equal; lia).
      rewrite Z.mul_assoc, Z.div_mul by lia. done. }
    assert (HEm : E / 2 ^ (64 - kmax) < 2 ^ kmax).
    { apply Z.div_lt_upper_bound; [lia|].
      rewrite <- Z.pow_add_r by lia. replace (64 - kmax + kmax) with 64 by lia. lia. }
    apply Hterm; [lia|]. intros ->. rewrite (@zlen_nil (dict K V)) in Hlen. lia.
Qed.

(** C26: the guarantee of [dictScan]. Start with cursor 0 and pass the returned
    cursor on; [ds] are the states of the dictionary at the successive calls,
    any of them rehashing or resized to another size in between, and some key is
    present at every call. No call reads outside a table; if the cursor comes back
    to 0, the key has been returned; and when no table had more than 2^k buckets the
    cursor is back at 0 after at most 2^k calls. *)
Theorem dictScan_guarantee k n ds :
  0 <= k <= 63 -> Forall dict_ok ds -> Forall (present n) ds ->
  Forall (fun d => size (ht0 d) <= 2 ^ k) ds ->
  exists evs fin, scan_calls ds 0 [] = Some (evs, fin) /\
    (fin = None -> returned n evs) /\ (2 ^ k <= zlen ds -> fin = None).
Proof.
  intros Hk Hok Hpr Hsz. pose proof (pow2_pos k ltac:(lia)). destruct ds as [|d ds].
  { exists [], (Some 0). rewrite (@zlen_nil (dict K V)). split_and!; [done|done|lia]. }
  pose proof Hpr as [(e & -> & He)%list_elem_of_fmap _]%Forall_cons.
  destruct (scan_calls_ok e k Hk (d :: ds) 0 []) as (evs & fin & HC & Hret & Hterm); try done.
  { rewrite rev_0. intros Hlt. pose proof (rev_range (hashFunction (V := V) (de_key e))).
    unfold rank in Hlt. lia. }
  exists evs, fin. split_and!; try done. intros Hlen. apply Hterm; [|done].
  rewrite rev_0, Z.div_0_l by (pose proof (pow2_pos (64 - k)); lia). lia.
Qed.

End Guarantee.

(** ** Iterators visit every entry once *)

Section IterProofs.
Context {K V N : Type} `{dictType : DictType K V} `{Countable N} `{!DictTypeLaws K V N}.
Context (p0 p1 : Z).

#[local] Opaque dictFingerprint uN sN.

Definition first_call (it : dictIterator K V) : bool :=
  (it_index it =? -1) && negb (it_table it).

(** The effect of the first call on the dictionary and on the fingerprint. *)
Definition started (d : dict K V) (it : dictIterator K V) : dict K V :=
  if first_call it && it_safe it
  then mkDict (ht0 d) (ht1 d) (rehashidx d) (u64 (iterators d + 1)) else d.
Definition fp_of (d : dict K V) (it : dictIterator K V) : Z :=
  if first_call it && negb (it_safe it) then dictFingerprint p0 p1 d else it_fingerprint it.

(** The entries in buckets after the current one, and all those the iterator has
    still to return. *)
Definition later (d : dict K V) (it : dictIterator K V) : list (dictEntry K V) :=
  concat (drop (Z.to_nat (it_index it + 1)) (table (get_ht d (it_table it))))
  ++ (if it_table it then [] else concat (table (ht1 d))).
Definition remaining (d : dict K V) (it : dictIterator K V) : list (dictEntry K V) :=
  (match it_entry it with [] => [] | _ => it_nextEntry it end) ++ later d it.

Record iter_ok (d : dict K V) (it : dictIterator K V) : Prop := {
  io_index : -1 <= it_index it <= size (get_ht d (it_table it));
  io_table : it_table it = true -> dictIsRehashing d = true /\ 0 <= it_index it;
  io_entry : it_entry it <> [] -> 0 <= it_index it;
}.

(** Buckets still to be opened, counting the chain being walked as one. *)
Definition work (d : dict K V) (it : dictIterator K V) : Z :=
  2 * (size (get_ht d (it_table it)) - it_index it)
  + (if it_table it then 0 else 2 * (size (ht1 d) + 1))
  + (match it_entry it with [] => 0 | _ => 1 end).

Lemma started_same d it :
  ht0 (started d it) = ht0 d /\ ht1 (started d it) = ht1 d /\
  rehashidx (started d it) = rehashidx d.
Proof. unfold started. by case_match. Qed.

Lemma started_ok d it : dict_ok d -> dict_ok (started d it).
Proof. intros [A B C D E]. unfold started. case_match; [|done]. split; done. Qed.

Lemma started_view d it x :
  remaining (started d it) x = remaining d x /\
  work (started d it) x = work d x /\ (iter_ok (started d it) x <-> iter_ok d x).
Proof.
  destruct (started_same d it) as (E0 & E1 & E2).
  assert (Eg : forall t, get_ht (started d it) t = get_ht d t) by (intros []; simpl; congruence).
  assert (Er : dictIsRehashing (started d it) = dictIsRehashing d)
    by (unfold dictIsRehashing; by rewrite E2).
  unfold remaining, later, work. rewrite Eg, E1. split_and!; [done|done|].
  split; intros [A B C]; split; rewrite ?Eg, ?Er in *; done.
Qed.

Lemma not_first (d : dict K V) (it : dictIterator K V) :
  0 <= it_index it -> started d it = d /\ fp_of d it = it_fingerprint it.
Proof.
  intros Hi. unfold started, fp_of, first_call. destruct (Z.eqb_spec (it_index it) (-1)); [lia|done].
Qed.

(** Nothing is left when the last bucket of the last table has been opened. *)
Lemma later_nil d it :
  dict_ok d -> size (get_ht d (it_table it)) <= it_index it + 1 ->
  dictIsRehashing d && negb (it_table it) = false -> later d it = [].
Proof.
  intros Hok Hge Hsw. unfold later.
  assert (Hht : ht_ok (get_ht d (it_table it))) by (destruct (it_table it); apply Hok).
  pose proof (ok_len _ Hht) as Hl. unfold zlen in Hl. rewrite drop_ge by lia. simpl.
  destruct (it_table it); [done|]. rewrite andb_true_r in Hsw. apply isRehashing_false in Hsw.
  destruct (ok_phase _ Hok) as [[_ ->]|[? _]]; [done|lia].
Qed.

Lemma body_ok (d : dict K V) (it : dictIterator K V) :
  dict_ok d -> iter_ok d it ->
  exists it1 brk, dictNext_body p0 p1 d it = Some (started d it, it1, brk) /\
    it_safe it1 = it_safe it /\ it_fingerprint it1 = fp_of d it /\ 0 <= it_index it1 /\
    (if (brk : bool) then remaining d it = []
     else iter_ok d it1 /\ remaining d it = it_entry it1 ++ later d it1 /\
          work d it1 - (match it_entry it1 with [] => 0 | _ => 1 end)
          + (match it_entry it with [] => 1 | _ => 0 end) < work d it).
Proof.
  intros Hok [Hi Ht He]. unfold dictNext_body.
  destruct (it_entry it) as [|e0 es] eqn:Een.
  2: { destruct (not_first d it ltac:(by apply He)) as [-> ->]. eexists _, false. split; [done|].
       simpl. split_and!; try done; [by apply He|split; simpl; [done|done|intros _; by apply He]| |].
       - unfold remaining. by rewrite Een.
       - unfold work. simpl. rewrite Een. destruct (it_nextEntry it); lia. }
  fold (first_call it). fold (started d it).
  assert (Hfp : (if first_call it && negb (it_safe it) then dictFingerprint p0 p1 (started d it)
    else it_fingerprint it) = fp_of d it).
  { unfold fp_of. destruct (first_call it && negb (it_safe it)) eqn:E; [|reflexivity].
    assert (started d it = d) as ->; [|reflexivity].
    unfold started. apply andb_true_iff in E as [-> E%negb_true_iff]. by rewrite E. }
  rewrite Hfp. clear Hfp. destruct (started_same d it) as (E0 & E1 & E2).
  assert (Egt : get_ht (started d it) (it_table it) = get_ht d (it_table it))
    by (destruct (it_table it); simpl; congruence).
  assert (Erh : dictIsRehashing (started d it) = dictIsRehashing d)
    by (unfold dictIsRehashing; by rewrite E2).
  rewrite Egt, Erh, E1.
  assert (Hht : ht_ok (get_ht d (it_table it))) by (destruct (it_table it); apply Hok).
  pose proof (ok_len _ Hht) as Hl. unfold zlen in Hl. pose proof (size_le_pow _ Hht) as Hpw.
  rewrite s64_id by (unfold in_s64, LLONG_MIN, LLONG_MAX; lia). clear Hpw.
  destruct (Z.geb_spec (it_index it + 1) (size (get_ht d (it_table it)))) as [Hge|Hlt].
  - destruct (dictIsRehashing d && negb (it_table it)) eqn:Hsw.
    + apply andb_true_iff in Hsw as [Hrh Htb%negb_true_iff]. rewrite Htb in *. simpl in *.
      pose proof Hrh as Hrh'%isRehashing_spec. unfold rehashing in Hrh'.
      destruct (ok_phase _ Hok) as [[? _]|(_ & _ & Hs1 & _)]; [lia|].
      pose proof (size_le_pow _ (ok_ht1 _ Hok)). pose proof (ok_len _ (ok_ht1 _ Hok)) as Hl1. unfold zlen in Hl1.
      destruct (table (ht1 d)) as [|c t1] eqn:Et1; [simpl in *; lia|].
      eexists _, false. split; [reflexivity|]. cbn [it_safe it_fingerprint it_index it_entry].
      split; [reflexivity|]. split; [reflexivity|]. split; [lia|].
      split; [split; simpl; [lia|intros _; split; [exact Hrh|lia]|lia]|]. split.
      * unfold remaining, later. rewrite Een, Htb. simpl. rewrite Et1.
        rewrite drop_ge by lia. simpl.
        by rewrite app_nil_r.
      * unfold work. simpl. rewrite Een, Htb. simpl. destruct c; lia.
    + eexists _, true. split; [done|]. simpl. split_and!; try done; [lia|].
      unfold remaining. rewrite Een. by apply later_nil.
  - destruct (lookup_lt_is_Some_2 (table (get_ht d (it_table it))) (Z.to_nat (it_index it + 1)))
      as [c Hc]; [lia|].
    rewrite Hc. mrun. eexists _, false. split; [done|]. simpl. split_and!; try done; try lia.
    + split; simpl; [lia|intros Htt; destruct (Ht Htt); split; [done|lia]|lia].
    + unfold remaining, later. rewrite Een. simpl.
      rewrite (drop_S _ _ _ Hc). simpl. rewrite <- app_assoc. do 4 f_equal. lia.
    + unfold work. simpl. rewrite Een. destruct c; lia.
Qed.

Lemma next_ok fuel : forall (d : dict K V) (it : dictIterator K V),
  dict_ok d -> iter_ok d it -> work d it < Z.of_nat fuel ->
  exists it' r, dictNext p0 p1 fuel d it = Some (started d it, it', r) /\
    it_safe it' = it_safe it /\ it_fingerprint it' = fp_of d it /\ 0 <= it_index it' /\
    match r with
    | None => remaining d it = []
    | Some e => remaining d it = e :: remaining d it' /\ iter_ok d it' /\ work d it' <= work d it
    end.
Proof.
  induction fuel as [|fuel IH]; intros d it Hok Hit Hf.
  { destruct Hit as [Hi _ _]. unfold work in Hf. pose proof (size_le_pow _ (ok_ht1 _ Hok)).
    repeat case_match; lia. }
  destruct (body_ok d it Hok Hit) as (it1 & brk & HB & Hs1 & Hfp1 & Hi1 & Hres).
  cbn [dictNext]. rewrite HB. mrun. destruct brk; [by exists it1, None|].
  destruct Hres as (Hit1 & Hrem & Hw). destruct (it_entry it1) as [|e next] eqn:Een1.
  - destruct (started_same d it) as (E0 & E1 & E2).
    assert (Hrem1 : remaining d it = remaining d it1) by (unfold remaining at 2; by rewrite Een1).
    pose proof (started_view d it) as Hsame.
    destruct (IH (started d it) it1) as (it' & r & HN & Hs' & Hfp' & Hi' & Hr);
      [by apply started_ok|by apply Hsame|destruct (Hsame it1) as (_ & -> & _);
        destruct (it_entry it); lia|].
    destruct (not_first (started d it) it1 Hi1) as [Es Ef]. rewrite Es in HN.
    exists it', r. split_and!; [done|congruence|congruence|done|].
    rewrite Hrem1. destruct (Hsame it1) as (HA & HB1 & _). rewrite HA in Hr.
    destruct r as [e|]; [|done]. destruct (Hsame it') as (HA' & HB' & HC'). rewrite HA', HB', HC', HB1 in Hr.
    destruct Hr as (? & ? & ?). split_and!; try done. destruct (it_entry it); lia.
  - eexists _, _. split; [done|]. cbn [it_safe it_fingerprint it_index]. split_and!; try done.
    + destruct Hit1 as [A B C]. split; simpl; [done|done|intros _; apply C; by rewrite Een1].
    + unfold work in *. simpl. rewrite Een1 in Hw. destruct (it_entry it); lia.
Qed.

Lemma iterate_ok n fuel : forall (d : dict K V) (it : dictIterator K V),
  dict_ok d -> iter_ok d it -> work d it < Z.of_nat fuel -> zlen (remaining d it) < Z.of_nat n ->
  exists it', iterate p0 p1 n fuel d it = Some (started d it, it', remaining d it) /\
    it_safe it' = it_safe it /\ it_fingerprint it' = fp_of d it /\ 0 <= it_index it'.
Proof.
  induction n as [|n IH]; intros d it Hok Hit Hw Hn.
  { pose proof (zlen_nonneg (remaining d it)). lia. }
  destruct (next_ok fuel d it Hok Hit Hw) as (it' & r & HN & Hs & Hfp & Hi & Hr).
  cbn [iterate]. rewrite HN. mrun. destruct r as [e|].
  - destruct Hr as (Hr & Hit' & Hw'). rewrite Hr, zlen_cons in Hn.
    pose proof (started_view d it) as Hsame.
    destruct (Hsame it') as (HA & HB & HC).
    destruct (IH (started d it) it') as (it2 & HI & Hs2 & Hfp2 & Hi2);
      [by apply started_ok|by apply HC|lia|rewrite HA; lia|].
    destruct (not_first (started d it) it' Hi) as [Es Ef]. rewrite Es, HA in HI.
    rewrite HI. mrun. exists it2. rewrite Hr. split_and!; [done|congruence|congruence|done].
  - exists it'. by rewrite Hr.
Qed.

(** C35: an iterator over a dictionary that is not modified returns every entry of
    both tables exactly once, in bucket order, ends, and can be released: a safe
    iterator leaves the count of running iterators as it was, an unsafe one
    passes the fingerprint check. *)
Theorem iterator_visits_all (d : dict K V) (safe : bool) :
  dict_ok d -> 0 <= iterators d < 2 ^ 32 ->
  let it := if safe then dictGetSafeIterator else dictGetIterator in
  let fuel := Z.to_nat (2 * (size (ht0 d) + size (ht1 d)) + 6) in
  exists d' it', iterate p0 p1 (S (length (entries d))) fuel d it = Some (d', it', entries d) /\
    iterators d' = (if safe then iterators d + 1 else iterators d) /\
    dictReleaseIterator p0 p1 d' it' = Some d.
Proof.
  intros Hok Hcnt it fuel.
  assert (Hrem : remaining d it = entries d) by (unfold it; by destruct safe).
  pose proof (size_le_pow _ (ok_ht0 _ Hok)). pose proof (size_le_pow _ (ok_ht1 _ Hok)).
  destruct (iterate_ok (S (length (entries d))) fuel d it Hok) as (it' & HI & Hs & Hfp & Hi).
  { unfold it. destruct safe; split; simpl; try done; lia. }
  { unfold work, it, fuel. destruct safe; simpl; lia. }
  { rewrite Hrem. unfold zlen. lia. }
  rewrite Hrem in HI. exists (started d it), it'. split; [exact HI|].
  unfold dictReleaseIterator. destruct (Z.eqb_spec (it_index it') (-1)); [lia|]. simpl.
  rewrite Hs, Hfp. unfold started, fp_of, it, first_call. destruct safe; simpl.
  - rewrite !u64_id by (unfold in_u64, ULLONG_MAX; lia). split; [done|].
    replace (iterators d + 1 - 1) with (iterators d) by lia. by destruct d.
  - split; [done|]. by rewrite Z.eqb_refl.
Qed.

End IterProofs.

(** The parallel bit swaps of [rev] reverse the 64 bits of a word. *)
Theorem rev_reverses v i :
  0 <= v < 2 ^ 64 -> 0 <= i < 64 ->
  Z.testbit (rev v) i = Z.testbit v (63 - i) /\ 0 <= rev v < 2 ^ 64 /\ rev (rev v) = v.
Proof.
  intros Hv Hi. split_and!; [by apply rev_bits|apply rev_range|apply rev_range|].
  by apply rev_involutive.
Qed.

Lemma rev_reverses_witness :
  Z.testbit (rev 6) 62 = true /\ rev (rev 6) = 6.
Proof.
  destruct (rev_reverses 6 62) as (H1 & _ & H3); [lia|lia|]. split; [exact H1|exact H3].
Defined.

(** ** Witnesses: integer keys hashed to themselves *)

#[local] Instance int_type : DictType Z Z := {|
  hashFunction k := u64 k; keyDup := None; valDup := None; keyCompare a b := a =? b |}.

#[local] Program Instance int_laws : DictTypeLaws Z Z Z := {| keyNorm k := k |}.
Next Obligation. intros a b. apply Z.eqb_eq. Qed.
Next Obligation. by intros a b ->. Qed.
Next Obligation.
  intros a. unfold in_u64, ULLONG_MAX. simpl. pose proof (uN_range 64 a ltac:(lia)). simpl in *. lia.
Qed.
Next Obligation. by intros f k. Qed.

(** Before, during and after a resize from 4 to 8 buckets. *)
Definition before : dict Z Z :=
  mkDict (mkHt [[]; [mkEntry 5 50]; []; [mkEntry 7 70]] 4 3 2) _dictReset (-1) 0.
Definition during : dict Z Z :=
  mkDict (mkHt [[]; []; []; [mkEntry 7 70]] 4 3 1)
         (mkHt [[]; []; []; []; []; [mkEntry 5 50]; []; []] 8 7 1) 2 0.

Lemma ht_ok_small h k :
  (2 <= k <= 60) -> size h = 2 ^ k -> sizemask h = 2 ^ k - 1 -> zlen (table h) = size h ->
  used h = zlen (concat (table h)) ->
  forallb (fun p => forallb (fun e : dictEntry Z Z =>
     (bucket_of (K := Z) (V := Z) (sizemask h) (de_key e) =? p.1)%nat) p.2)
    (zip (seq 0 (length (table h))) (table h)) = true ->
  ht_ok h.
Proof.
  intros Hk Hs Hm Hl Hu Hf. split; [done|done|right; by exists k|].
  intros i c e Hi He. rewrite forallb_forall in Hf.
  specialize (Hf (i, c)). simpl in Hf. rewrite forallb_forall in Hf. apply Nat.eqb_eq. apply Hf.
  - apply list_elem_of_In, list_elem_of_lookup. exists i. apply lookup_zip_Some. split; [|done].
    apply lookup_seq. split; [done|]. by eapply lookup_lt_Some.
  - by apply list_elem_of_In.
Qed.

Lemma before_ok : dict_ok (N := Z) before.
Proof.
  split; simpl.
  - apply (ht_ok_small _ 2); vm_compute; done.
  - apply reset_ok.
  - by left.
  - repeat constructor; vm_compute; set_solver.
  - vm_compute. done.
Qed.

Lemma during_ok : dict_ok (N := Z) during.
Proof.
  split; simpl.
  - apply (ht_ok_small _ 2); vm_compute; done.
  - apply (ht_ok_small _ 3); vm_compute; done.
  - right. simpl. split_and!; try lia. intros [|[|i]] Hi; [done|done|lia].
  - repeat constructor; vm_compute; set_solver.
  - vm_compute. done.
Qed.

Lemma dictScan_guarantee_witness :
  exists evs fin,
    scan_calls false [before; before; during; during] 0 [] = Some (evs, fin) /\
    fin = None /\ returned (N := Z) 7 evs.
Proof.
  destruct (dictScan_guarantee (N := Z) false 2 7 [before; before; during; during])
    as (evs & fin & HC & Hret & Hterm).
  - lia.
  - rewrite !Forall_cons. split_and!; auto using before_ok, during_ok.
  - rewrite !Forall_cons. split_and!; [..|constructor]; unfold present; vm_compute; set_solver.
  - rewrite !Forall_cons. split_and!; [..|constructor]; vm_compute; congruence.
  - exists evs, fin. assert (fin = None) as -> by (apply Hterm; vm_compute; congruence). auto.
Defined.

Lemma iterator_visits_all_witness :
  exists d' it', iterate 1 2 3 30 during dictGetSafeIterator
      = Some (d', it', [mkEntry 7 70; mkEntry 5 50]) /\
    dictReleaseIterator 1 2 d' it' = Some during.
Proof.
  destruct (iterator_visits_all (N := Z) 1 2 during true during_ok) as (d' & it' & HI & _ & HR).
  - simpl. lia.
  - exists d', it'. split; [exact HI|exact HR].
Defined.

End DictScan.
