(* ===== verification/Adlist.v ===== *)
(** * Doubly linked lists (adlist.c, adlist.h)

    Nodes live in a heap from addresses to nodes; the list header and iterators
    are records the operations take and return.  A pointer is an optional address,
    [None] being NULL; following NULL or the address of a freed node is undefined
    behaviour and gives [None] as a result.  The allocator may return NULL: the
    operations that allocate report it with [false] the way the code returns NULL.
    The list's [free] method is modelled by the log of the values it was called on.

    The specification is the sequence of the nodes, as pairs of address and value. *)

From S2P Require Import Prelude.

Module Adlist.

Definition loc := positive.

(** What is assumed of the allocator: a block it returns is not in use. *)
Class Allocator := {
  zmalloc : gset loc -> option loc;
  zmalloc_fresh used p : zmalloc used = Some p -> p ∉ used }.

Inductive direction := AL_START_HEAD | AL_START_TAIL.

Section Model.
Context {V : Type} {EqV : EqDecision V} {Alloc : Allocator}.

Record listNode := { prev : option loc; next : option loc; value : V }.

Record listIter := { iter_next : option loc; iter_direction : direction }.

Record adlist := {
  head : option loc;
  tail : option loc;
  l_dup : option (V -> option V);
  l_free : bool;
  l_match : option (V -> V -> bool);
  len : Z }.

(** The heap of nodes and the values that were passed to [free] methods. *)
Record mem := { nodes : gmap loc listNode; freed : list V }.

Definition with_links (l : adlist) (h t : option loc) (n : Z) : adlist :=
  {| head := h; tail := t; l_dup := l_dup l; l_free := l_free l; l_match := l_match l; len := n |}.

Definition load (m : mem) (p : option loc) : option listNode := p ← p; nodes m !! p.

Definition store (m : mem) (p : option loc) (f : listNode -> listNode) : option mem :=
  p ← p; n ← nodes m !! p; Some {| nodes := <[p := f n]> (nodes m); freed := freed m |}.

Definition set_prev (x : option loc) (n : listNode) := {| prev := x; next := next n; value := value n |}.
Definition set_next (x : option loc) (n : listNode) := {| prev := prev n; next := x; value := value n |}.

Definition alloc (m : mem) (p : loc) (n : listNode) : mem :=
  {| nodes := <[p := n]> (nodes m); freed := freed m |}.

(** [if (list->free) list->free(value); zfree(node);] *)
Definition free_node (l : adlist) (m : mem) (p : loc) (v : V) : mem :=
  {| nodes := delete p (nodes m); freed := if l_free l then freed m ++ [v] else freed m |}.

Definition listCreate : adlist :=
  {| head := None; tail := None; l_dup := None; l_free := false; l_match := None; len := 0 |}.

Fixpoint listEmpty_loop (len : nat) (l : adlist) (m : mem) (current : option loc) : option mem :=
  match len with
  | O => Some m
  | S len =>
      p ← current; n ← nodes m !! p;
      listEmpty_loop len l (free_node l m p (value n)) (next n)
  end.

Definition listEmpty (m : mem) (l : adlist) : option (mem * adlist) :=
  m ← listEmpty_loop (Z.to_nat (len l)) l m (head l); Some (m, with_links l None None 0).

(** The header is a record of the model: releasing it leaves the heap. *)
Definition listRelease (m : mem) (l : adlist) : option mem := fst <$> listEmpty m l.

Definition listAddNodeHead (m : mem) (l : adlist) (v : V) : option (bool * mem * adlist) :=
  match zmalloc (dom (nodes m)) with
  | None => Some (false, m, l)
  | Some node =>
      if len l =? 0 then
        Some (true, alloc m node {| prev := None; next := None; value := v |},
              with_links l (Some node) (Some node) (u64 (len l + 1)))
      else
        let m := alloc m node {| prev := None; next := head l; value := v |} in
        m ← store m (head l) (set_prev (Some node));
        Some (true, m, with_links l (Some node) (tail l) (u64 (len l + 1)))
  end.

Definition listAddNodeTail (m : mem) (l : adlist) (v : V) : option (bool * mem * adlist) :=
  match zmalloc (dom (nodes m)) with
  | None => Some (false, m, l)
  | Some node =>
      if len l =? 0 then
        Some (true, alloc m node {| prev := None; next := None; value := v |},
              with_links l (Some node) (Some node) (u64 (len l + 1)))
      else
        let m := alloc m node {| prev := tail l; next := None; value := v |} in
        m ← store m (tail l) (set_next (Some node));
        Some (true, m, with_links l (head l) (Some node) (u64 (len l + 1)))
  end.

(** [if (p != NULL) p->... = ...;] *)
Definition store_if (m : mem) (p : option loc) (f : listNode -> listNode) : option mem :=
  match p with Some _ => store m p f | None => Some m end.

Definition listInsertNode (m : mem) (l : adlist) (old_node : loc) (v : V) (after : bool)
    : option (bool * mem * adlist) :=
  match zmalloc (dom (nodes m)) with
  | None => Some (false, m, l)
  | Some node =>
      old ← nodes m !! old_node;
      let n := if after then {| prev := Some old_node; next := next old; value := v |}
               else {| prev := prev old; next := Some old_node; value := v |} in
      let t := if after && bool_decide (tail l = Some old_node) then Some node else tail l in
      let h := if negb after && bool_decide (head l = Some old_node) then Some node else head l in
      let m := alloc m node n in
      m ← store_if m (prev n) (set_next (Some node));
      m ← store_if m (next n) (set_prev (Some node));
      Some (true, m, with_links l h t (u64 (len l + 1)))
  end.

Definition listDelNode (m : mem) (l : adlist) (node : loc) : option (mem * adlist) :=
  n ← nodes m !! node;
  m ← store_if m (prev n) (set_next (next n));
  let h := match prev n with Some _ => head l | None => next n end in
  n ← nodes m !! node;
  m ← store_if m (next n) (set_prev (prev n));
  let t := match next n with Some _ => tail l | None => prev n end in
  n ← nodes m !! node;
  Some (free_node l m node (value n), with_links l h t (u64 (len l - 1))).

Definition listGetIterator (l : adlist) (d : direction) : listIter :=
  {| iter_next := match d with AL_START_HEAD => head l | AL_START_TAIL => tail l end;
     iter_direction := d |}.

Definition listRewind (l : adlist) : listIter :=
  {| iter_next := head l; iter_direction := AL_START_HEAD |}.

Definition listRewindTail (l : adlist) : listIter :=
  {| iter_next := tail l; iter_direction := AL_START_TAIL |}.

(** The current node, and the iterator moved past it. *)
Definition listNext (m : mem) (iter : listIter) : option (option loc * listIter) :=
  match iter_next iter with
  | None => Some (None, iter)
  | Some current =>
      n ← nodes m !! current;
      Some (Some current,
            {| iter_next := match iter_direction iter with AL_START_HEAD => next n | AL_START_TAIL => prev n end;
               iter_direction := iter_direction iter |})
  end.

(** Loops that follow the links get the number of nodes in the heap as fuel. *)
Definition fuel_of (m : mem) : nat := S (size (nodes m)).

(** The copy, or [None] for the NULL the code returns after releasing it. *)
Fixpoint listDup_loop (fuel : nat) (m : mem) (copy : adlist) (iter : listIter)
    : option (mem * option adlist) :=
  match fuel with
  | O => None
  | S fuel =>
      '(node, iter) ← listNext m iter;
      match node with
      | None => Some (m, Some copy)
      | Some p =>
          n ← nodes m !! p;
          match (match l_dup copy with Some dup => dup (value n) | None => Some (value n) end) with
          | None => m ← listRelease m copy; Some (m, None)
          | Some v =>
              '(done, m, copy) ← listAddNodeTail m copy v;
              if done : bool then listDup_loop fuel m copy iter
              else m ← listRelease m copy; Some (m, None)
          end
      end
  end.

Definition listDup (m : mem) (orig : adlist) : option (mem * option adlist) :=
  let copy := {| head := head listCreate; tail := tail listCreate; l_dup := l_dup orig;
                 l_free := l_free orig; l_match := l_match orig; len := len listCreate |} in
  listDup_loop (fuel_of m) m copy (listRewind orig).

Fixpoint listSearchKey_loop (fuel : nat) (m : mem) (l : adlist) (key : V) (iter : listIter)
    : option (option loc) :=
  match fuel with
  | O => None
  | S fuel =>
      '(node, iter) ← listNext m iter;
      match node with
      | None => Some None
      | Some p =>
          n ← nodes m !! p;
          if (match l_match l with Some mt => mt (value n) key | None => bool_decide (key = value n) end)
          then Some (Some p) else listSearchKey_loop fuel m l key iter
      end
  end.

Definition listSearchKey (m : mem) (l : adlist) (key : V) : option (option loc) :=
  listSearchKey_loop (fuel_of m) m l key (listRewind l).

Fixpoint listIndex_loop (fuel : nat) (m : mem) (follow : listNode -> option loc) (index : Z) (n : option loc)
    : option (option loc) :=
  match fuel with
  | O => None
  | S fuel =>
      if index =? 0 then Some n
      else match n with
           | None => Some None
           | Some p => nd ← nodes m !! p; listIndex_loop fuel m follow (index - 1) (follow nd)
           end
  end.

(** Negating the least [long] overflows. *)
Definition listIndex (m : mem) (l : adlist) (index : Z) : option (option loc) :=
  if index <? 0 then
    if index =? LLONG_MIN then None
    else listIndex_loop (S (fuel_of m)) m prev (- index - 1) (tail l)
  else listIndex_loop (S (fuel_of m)) m next index (head l).

Definition listRotateTailToHead (m : mem) (l : adlist) : option (mem * adlist) :=
  if len l <=? 1 then Some (m, l)
  else
    let tail0 := tail l in
    n ← load m tail0;
    let tail1 := prev n in
    m ← store m tail1 (set_next None);
    m ← store m (head l) (set_prev tail0);
    m ← store m tail0 (set_prev None);
    m ← store m tail0 (set_next (head l));
    Some (m, with_links l tail0 tail1 (len l)).

Definition listRotateHeadToTail (m : mem) (l : adlist) : option (mem * adlist) :=
  if len l <=? 1 then Some (m, l)
  else
    let head0 := head l in
    n ← load m head0;
    let head1 := next n in
    m ← store m head1 (set_prev None);
    m ← store m (tail l) (set_next head0);
    m ← store m head0 (set_next None);
    m ← store m head0 (set_prev (tail l));
    Some (m, with_links l head1 head0 (len l)).

Definition listJoin (m : mem) (l o : adlist) : option (mem * adlist * adlist) :=
  m ← store_if m (head o) (set_prev (tail l));
  m ← store_if m (tail l) (set_next (head o));
  let h := match tail l with Some _ => head l | None => head o end in
  let t := match tail o with Some _ => tail o | None => tail l end in
  Some (m, with_links l h t (u64 (len l + len o)), with_links o None None 0).

(** ** The sequence a list represents *)

(** The first address of a chain that continues at [nx], and the last one of a
    chain that was reached from [pv]. *)
Definition first_of (ns : list (loc * V)) (nx : option loc) : option loc :=
  match ns with [] => nx | (p, _) :: _ => Some p end.

Fixpoint last_of (pv : option loc) (ns : list (loc * V)) : option loc :=
  match ns with [] => pv | (p, _) :: ns => last_of (Some p) ns end.

Fixpoint seg (h : gmap loc listNode) (pv : option loc) (ns : list (loc * V)) (nx : option loc) : Prop :=
  match ns with
  | [] => True
  | (p, v) :: ns =>
      h !! p = Some {| prev := pv; next := first_of ns nx; value := v |} /\ seg h (Some p) ns nx
  end.

Record rep (m : mem) (l : adlist) (ns : list (loc * V)) : Prop := {
  rep_seg : seg (nodes m) None ns None;
  rep_nodup : NoDup ns.*1;
  rep_head : head l = first_of ns None;
  rep_tail : tail l = last_of None ns;
  rep_len : len l = zlen ns;
  rep_max : zlen ns <= ULLONG_MAX }.

(** ** Chains of nodes *)

Definition locs (ns : list (loc * V)) : list loc := ns.*1.
Definition values (ns : list (loc * V)) : list V := ns.*2.

Lemma locs_app a b : locs (a ++ b) = locs a ++ locs b.
Proof. apply fmap_app. Qed.

Lemma first_of_app a b nx : first_of (a ++ b) nx = first_of a (first_of b nx).
Proof. by destruct a as [|[p v] a]. Qed.

Lemma last_of_app pv a b : last_of pv (a ++ b) = last_of (last_of pv a) b.
Proof. revert pv. induction a as [|[p v] a IH]; intros pv; [done|]. apply IH. Qed.

Lemma last_of_snoc pv a p v : last_of pv (a ++ [(p, v)]) = Some p.
Proof. by rewrite last_of_app. Qed.

Lemma seg_app h pv a b nx :
  seg h pv (a ++ b) nx <-> seg h pv a (first_of b nx) /\ seg h (last_of pv a) b nx.
Proof.
  revert pv. induction a as [|[p v] a IH]; intros pv; [simpl; tauto|].
  cbn [app seg last_of]. rewrite IH, first_of_app. tauto.
Qed.

Lemma seg_frame h h' pv ns nx :
  (forall q, q ∈ locs ns -> h' !! q = h !! q) -> seg h pv ns nx -> seg h' pv ns nx.
Proof.
  revert pv. induction ns as [|[p v] ns IH]; intros pv Hf; [done|]. intros [Hp Hs]. split.
  - rewrite Hf; [done|]. apply elem_of_cons. by left.
  - apply IH; [|done]. intros q Hq. apply Hf, elem_of_cons. by right.
Qed.

(** A heap that differs only at the addresses [ps]. *)
Definition same_but (m m' : mem) (ps : list loc) : Prop :=
  (forall q, q ∉ ps -> nodes m' !! q = nodes m !! q) /\
  freed m' = freed m /\ dom (nodes m') = dom (nodes m).

Lemma same_but_refl m ps : same_but m m ps.
Proof. done. Qed.

Lemma same_but_trans m1 m2 m3 ps qs : same_but m1 m2 ps -> same_but m2 m3 qs -> same_but m1 m3 (ps ++ qs).
Proof.
  intros (H1 & F1 & D1) (H2 & F2 & D2). split_and!; [|congruence..].
  intros q Hq. rewrite H2, H1; [done|..]; intros ?; apply Hq, elem_of_app; tauto.
Qed.

Lemma seg_same_but m m' ps pv ns nx :
  same_but m m' ps -> ps ## locs ns -> seg (nodes m) pv ns nx -> seg (nodes m') pv ns nx.
Proof. intros (Hf & _) Hd. apply seg_frame. intros q Hq. apply Hf. set_solver. Qed.

Lemma store_at m p n f : nodes m !! p = Some n ->
  exists m', store m (Some p) f = Some m' /\ nodes m' = <[p := f n]> (nodes m) /\ same_but m m' [p].
Proof.
  intros Hp. eexists. unfold store. mrun. rewrite Hp. mrun. split; [reflexivity|]. split; [done|].
  split_and!; [|done|].
  - intros q Hq. apply lookup_insert_ne. set_solver.
  - apply dom_insert_lookup_L. by eexists.
Qed.

(** Redirecting the last [next] and the first [prev] of a chain. *)
Lemma seg_set_next m pv ns nx x : seg (nodes m) pv ns nx -> NoDup (locs ns) ->
  exists m', store_if m (last_of None ns) (set_next x) = Some m' /\
    seg (nodes m') pv ns x /\ same_but m m' (locs ns).
Proof.
  destruct ns as [|[p v] ns _] using rev_ind; [intros; by exists m|].
  intros Hs Hn. rewrite last_of_snoc. rewrite seg_app in Hs. destruct Hs as [Ha [Hp _]].
  destruct (store_at m p _ (set_next x) Hp) as (m' & E & Hm' & Hsb).
  exists m'. cbn [store_if]. split; [done|]. rewrite locs_app in Hn |- *.
  apply NoDup_app in Hn as (_ & Hd & _). split.
  - rewrite seg_app. split; [|split; [|done]].
    + eapply seg_same_but; [done| |done]. intros q ->%list_elem_of_singleton Hq.
      by apply (Hd p), elem_of_cons; [|left].
    + rewrite Hm', lookup_insert_eq. done.
  - destruct Hsb as (Hf & ? & ?). split_and!; [|done..]. intros q Hq. apply Hf. set_solver.
Qed.

Lemma seg_set_prev m pv ns nx x : seg (nodes m) pv ns nx -> NoDup (locs ns) ->
  exists m', store_if m (first_of ns None) (set_prev x) = Some m' /\
    seg (nodes m') x ns nx /\ same_but m m' (locs ns).
Proof.
  destruct ns as [|[p v] ns]; [intros; by exists m|].
  intros [Hp Hs] [Hn _]%NoDup_cons.
  destruct (store_at m p _ (set_prev x) Hp) as (m' & E & Hm' & Hsb).
  exists m'. cbn [first_of store_if]. split; [done|]. split; [split|].
  - rewrite Hm', lookup_insert_eq. done.
  - eapply seg_same_but; [done| |done]. set_solver.
  - destruct Hsb as (Hf & ? & ?). split_and!; [|done..]. intros q Hq. apply Hf. set_solver.
Qed.

(** The fields of a node that is in the chain. *)
Lemma seg_at h pv a p v b nx : seg h pv (a ++ (p, v) :: b) nx ->
  h !! p = Some {| prev := last_of pv a; next := first_of b nx; value := v |}.
Proof. rewrite seg_app. by intros [_ [Hp _]]. Qed.

Lemma NoDup_split {A} (a b : list A) : NoDup (a ++ b) -> NoDup a /\ NoDup b /\ a ## b.
Proof. rewrite NoDup_app. intros (Ha & Hd & Hb). split_and!; [done..|]. intros x ?. by apply Hd. Qed.

(** Linking a fresh node between two halves of a chain. *)
Lemma link_spec m a b p v : seg (nodes m) None (a ++ b) None -> NoDup (locs (a ++ b)) ->
  p ∉ dom (nodes m) ->
  exists m1 m2,
    store_if (alloc m p {| prev := last_of None a; next := first_of b None; value := v |})
      (last_of None a) (set_next (Some p)) = Some m1 /\
    store_if m1 (first_of b None) (set_prev (Some p)) = Some m2 /\
    seg (nodes m2) None (a ++ (p, v) :: b) None /\ NoDup (locs (a ++ (p, v) :: b)) /\
    (forall q, q <> p -> q ∉ locs (a ++ b) -> nodes m2 !! q = nodes m !! q) /\ freed m2 = freed m /\
    dom (nodes m2) = {[p]} ∪ dom (nodes m).
Proof.
  intros Hs Hn Hfr. set (m0 := alloc m p _). rewrite seg_app in Hs. destruct Hs as [Ha Hb].
  assert (Hin : forall ns pv nx, seg (nodes m) pv ns nx -> p ∉ locs ns).
  { intros ns. induction ns as [|[q w] ns IH]; intros pv nx; [intros _; apply not_elem_of_nil|].
    intros [Hq Hr]. apply not_elem_of_cons. split; [|by eapply IH].
    intros ->. apply Hfr, elem_of_dom. by eexists. }
  pose proof (Hin _ _ _ Ha) as Hpa. pose proof (Hin _ _ _ Hb) as Hpb.
  rewrite locs_app in Hn. destruct (NoDup_split _ _ Hn) as (Hna & Hnb & Hab).
  assert (H0 : forall ns pv nx, p ∉ locs ns -> seg (nodes m) pv ns nx -> seg (nodes m0) pv ns nx).
  { intros ns pv nx Hp. apply seg_frame. intros q Hq. apply lookup_insert_ne. intros ->. done. }
  destruct (seg_set_next m0 None a _ (Some p) (H0 _ _ _ Hpa Ha) Hna) as (m1 & E1 & Ha1 & S1).
  assert (Hb1 : seg (nodes m1) (last_of None a) b None) by (eapply seg_same_but; eauto).
  destruct (seg_set_prev m1 _ b None (Some p) Hb1 Hnb) as (m2 & E2 & Hb2 & S2).
  exists m1, m2. split; [done|]. split; [done|].
  pose proof (same_but_trans _ _ _ _ _ S1 S2) as (Hf & Hfree & Hdom). split_and!.
  - rewrite seg_app. split; [|split; [|done]].
    + cbn [first_of]. eapply seg_same_but; [exact S2|set_solver|done].
    + rewrite Hf by (apply not_elem_of_app; done). apply lookup_insert_eq.
  - rewrite locs_app. apply NoDup_app. split; [done|]. split; [set_solver|]. by constructor.
  - intros q Hq Hnq. rewrite locs_app in Hnq. rewrite Hf by done. by apply lookup_insert_ne.
  - done.
  - rewrite Hdom. apply dom_insert_L.
Qed.

(** ** Insertion *)

Definition methods (l : adlist) := (l_dup l, l_free l, l_match l).

(** The heap after a node was added to the list [ns] at [p]. *)
Definition extends (m m' : mem) (p : loc) (ns : list (loc * V)) : Prop :=
  (forall q, q <> p -> q ∉ locs ns -> nodes m' !! q = nodes m !! q) /\
  freed m' = freed m /\ dom (nodes m') = {[p]} ∪ dom (nodes m).

(** The outcome [r] of adding [v] between [a] and [b]: NULL and no change
    without memory, else one more node. *)
Definition adds (m : mem) (l : adlist) (v : V) (a b : list (loc * V)) (r : option (bool * mem * adlist)) : Prop :=
  match zmalloc (dom (nodes m)) with
  | None => r = Some (false, m, l)
  | Some p => exists m' l', r = Some (true, m', l') /\ rep m' l' (a ++ (p, v) :: b) /\
      methods l' = methods l /\ p ∉ dom (nodes m) /\ extends m m' p (a ++ b)
  end.

Lemma len_add m l ns k : rep m l ns -> zlen ns + k <= ULLONG_MAX -> 0 <= k -> u64 (len l + k) = zlen ns + k.
Proof.
  intros Hr Hm Hk. rewrite (rep_len _ _ _ Hr). apply u64_id. unfold in_u64.
  pose proof (zlen_nonneg ns). lia.
Qed.

(** What is left to show once the node is linked. *)
Lemma linked m l a b p v m2 : rep m l (a ++ b) -> zlen (a ++ b) < ULLONG_MAX ->
  seg (nodes m2) None (a ++ (p, v) :: b) None -> NoDup (locs (a ++ (p, v) :: b)) ->
  rep m2 (with_links l (first_of (a ++ (p, v) :: b) None) (last_of None (a ++ (p, v) :: b)) (u64 (len l + 1)))
    (a ++ (p, v) :: b).
Proof.
  intros Hr Hmax Hs Hn. split; try done.
  - cbn [with_links len]. rewrite (len_add _ _ _ 1 Hr) by lia. rewrite !zlen_app, zlen_cons. lia.
  - rewrite zlen_app in *. rewrite zlen_cons. lia.
Qed.

Lemma rep_empty m l ns : rep m l ns -> (len l =? 0) = true -> ns = [].
Proof.
  intros Hr H. apply Z.eqb_eq in H. rewrite (rep_len _ _ _ Hr) in H.
  destruct ns as [|x ns]; [done|]. rewrite zlen_cons in H. pose proof (zlen_nonneg ns). lia.
Qed.

Lemma rep_nonempty m l ns : rep m l ns -> (len l =? 0) = false -> ns <> [].
Proof. intros Hr H ->. rewrite (rep_len _ _ _ Hr) in H. done. Qed.

Lemma listAddNodeHead_spec m l ns v : rep m l ns -> zlen ns < ULLONG_MAX ->
  adds m l v [] ns (listAddNodeHead m l v).
Proof.
  intros Hr Hmax. unfold adds, listAddNodeHead. destruct (zmalloc _) as [p|] eqn:Ez; [|done].
  pose proof (zmalloc_fresh _ _ Ez) as Hfr.
  destruct (link_spec m [] ns p v (rep_seg _ _ _ Hr) (rep_nodup _ _ _ Hr) Hfr)
    as (m1 & m2 & E1 & E2 & Hs & Hn & Hext). cbn [last_of store_if] in E1. injection E1 as <-.
  pose proof (linked m l [] ns p v m2 Hr Hmax Hs Hn) as Hl.
  exists m2. eexists. split; [|split; [exact Hl|done]].
  destruct (len l =? 0) eqn:E0.
  - pose proof (rep_empty _ _ _ Hr E0) as ->. injection E2 as <-. done.
  - pose proof (rep_nonempty _ _ _ Hr E0). destruct ns as [|[q w] ns]; [done|].
    rewrite (rep_head _ _ _ Hr), (rep_tail _ _ _ Hr). cbn [first_of store_if] in E2 |- *.
    rewrite E2. done.
Qed.

Lemma listAddNodeTail_spec m l ns v : rep m l ns -> zlen ns < ULLONG_MAX ->
  adds m l v ns [] (listAddNodeTail m l v).
Proof.
  intros Hr Hmax. rewrite <- (app_nil_r ns) in Hr, Hmax. unfold adds, listAddNodeTail.
  destruct (zmalloc _) as [p|] eqn:Ez; [|done]. pose proof (zmalloc_fresh _ _ Ez) as Hfr.
  destruct (link_spec m ns [] p v (rep_seg _ _ _ Hr) (rep_nodup _ _ _ Hr) Hfr)
    as (m1 & m2 & E1 & E2 & Hs & Hn & Hext). injection E2 as <-.
  pose proof (linked m l ns [] p v m1 Hr Hmax Hs Hn) as Hl.
  exists m1. eexists. split; [|split; [exact Hl|done]]. rewrite app_nil_r in Hr.
  destruct (len l =? 0) eqn:E0.
  - pose proof (rep_empty _ _ _ Hr E0) as ->. injection E1 as <-. done.
  - pose proof (rep_nonempty _ _ _ Hr E0). rewrite (rep_head _ _ _ Hr), (rep_tail _ _ _ Hr).
    destruct ns as [|[q w] ns _] using rev_ind; [done|]. rewrite last_of_snoc in E1 |- *.
    cbn [store_if first_of] in E1. rewrite E1. mrun.
    rewrite last_of_snoc, !first_of_app. done.
Qed.

(** The ends of the list compared with a node of it. *)
Lemma last_of_inv ns p v a b : NoDup (locs ns) -> ns = a ++ (p, v) :: b ->
  bool_decide (last_of None ns = Some p) = match b with [] => true | _ => false end.
Proof.
  intros Hn ->. destruct b as [|[q w] b _] using rev_ind; [by rewrite last_of_snoc, bool_decide_true|].
  rewrite app_comm_cons, app_assoc, last_of_snoc, bool_decide_false; [by destruct b|].
  intros [= ->]. rewrite locs_app in Hn. apply NoDup_split in Hn as (_ & Hn & _).
  apply NoDup_cons in Hn as [Hn _]. apply Hn. rewrite locs_app. apply elem_of_app. right. apply elem_of_cons. by left.
Qed.

Lemma first_of_inv ns p v a b : NoDup (locs ns) -> ns = a ++ (p, v) :: b ->
  bool_decide (first_of ns None = Some p) = match a with [] => true | _ => false end.
Proof.
  intros Hn ->. destruct a as [|[q w] a]; [by rewrite bool_decide_true|].
  rewrite bool_decide_false; [done|]. intros [= ->]. apply NoDup_cons in Hn as [Hn _]. apply Hn.
  rewrite locs_app. apply elem_of_app. right. apply elem_of_cons. by left.
Qed.

Lemma listInsertNode_spec m l a p w b v (after : bool) : rep m l (a ++ (p, w) :: b) ->
  zlen (a ++ (p, w) :: b) < ULLONG_MAX ->
  (if after then adds m l v (a ++ [(p, w)]) b else adds m l v a ((p, w) :: b)) (listInsertNode m l p v after).
Proof.
  intros Hr Hmax. pose proof (seg_at _ _ _ _ _ _ _ (rep_seg _ _ _ Hr)) as Hp.
  pose proof (rep_nodup _ _ _ Hr) as Hn0. unfold listInsertNode.
  assert (Hsplit : a ++ (p, w) :: b = (a ++ [(p, w)]) ++ b) by (by rewrite <- app_assoc).
  destruct after; unfold adds; (destruct (zmalloc _) as [q|] eqn:Ez; [|done]);
    pose proof (zmalloc_fresh _ _ Ez) as Hfr; rewrite Hp; mrun; cbn [andb negb prev next].
  - rewrite (rep_tail _ _ _ Hr), (last_of_inv _ p w a b Hn0 eq_refl).
    rewrite (rep_head _ _ _ Hr). rewrite Hsplit in Hr, Hmax |- *.
    destruct (link_spec m _ _ q v (rep_seg _ _ _ Hr) (rep_nodup _ _ _ Hr) Hfr)
      as (m1 & m2 & E1 & E2 & Hs & Hn & Hext). pose proof (linked m l _ _ q v m2 Hr Hmax Hs Hn) as Hl.
    exists m2. eexists. split; [|split; [exact Hl|done]]. rewrite last_of_snoc in E1. rewrite E1. mrun. rewrite E2. mrun.
    do 2 f_equal. rewrite !first_of_app, !last_of_app. cbn [first_of last_of]. by destruct b as [|[??]?].
  - rewrite (rep_tail _ _ _ Hr), (rep_head _ _ _ Hr), (first_of_inv _ p w a b Hn0 eq_refl).
    destruct (link_spec m _ _ q v (rep_seg _ _ _ Hr) (rep_nodup _ _ _ Hr) Hfr)
      as (m1 & m2 & E1 & E2 & Hs & Hn & Hext). pose proof (linked m l _ _ q v m2 Hr Hmax Hs Hn) as Hl.
    exists m2. eexists. split; [|split; [exact Hl|done]]. cbn [first_of] in E1, E2. rewrite E1. mrun. rewrite E2. mrun.
    do 2 f_equal. rewrite !first_of_app, !last_of_app. cbn [first_of last_of]. by destruct a as [|[??]?].
Qed.

(** ** Removal *)

Definition freed_by (l : adlist) (vs : list V) : list V := if l_free l then vs else [].

Lemma freed_by_app l vs ws : freed_by l (vs ++ ws) = freed_by l vs ++ freed_by l ws.
Proof. unfold freed_by. by destruct (l_free l). Qed.

(** The heap after the nodes [gone] of the list [ns] were freed. *)
Definition shrinks (l : adlist) (m m' : mem) (ns gone : list (loc * V)) : Prop :=
  (forall q, q ∉ locs ns -> nodes m' !! q = nodes m !! q) /\
  freed m' = freed m ++ freed_by l (values gone) /\
  dom (nodes m') = dom (nodes m) ∖ list_to_set (locs gone).

Lemma rep_after m' l h t k ns : seg (nodes m') None ns None -> NoDup (locs ns) ->
  h = first_of ns None -> t = last_of None ns -> k = zlen ns -> zlen ns <= ULLONG_MAX ->
  rep m' (with_links l h t k) ns.
Proof. intros. by split. Qed.

Lemma listDelNode_spec m l a p v b : rep m l (a ++ (p, v) :: b) ->
  exists m' l', listDelNode m l p = Some (m', l') /\ rep m' l' (a ++ b) /\ methods l' = methods l /\
    shrinks l m m' (a ++ (p, v) :: b) [(p, v)].
Proof.
  intros Hr. pose proof (rep_seg _ _ _ Hr) as Hs. pose proof (rep_nodup _ _ _ Hr) as Hn. fold (locs (a ++ (p, v) :: b)) in Hn.
  rewrite seg_app in Hs. destruct Hs as (Ha & Hp & Hb). rewrite locs_app in Hn.
  destruct (NoDup_split _ _ Hn) as (Hna & Hnpb & Hab). apply NoDup_cons in Hnpb as [Hpb Hnb].
  change ((p, v).1) with p in Hpb. fold (locs b) in Hpb, Hnb.
  assert (Hpa : p ∉ locs a) by (intros Hin; apply (Hab p Hin), elem_of_cons; by left).
  assert (Habb : locs a ## locs b) by (intros q Hqa Hqb; apply (Hab q Hqa), elem_of_cons; by right).
  destruct (seg_set_next m _ a _ (first_of b None) Ha Hna) as (m1 & E1 & Ha1 & S1).
  assert (Hp1 : nodes m1 !! p = nodes m !! p) by (by apply S1).
  destruct (seg_set_prev m1 _ b None (last_of None a) (seg_same_but _ _ _ _ _ _ S1 Habb Hb) Hnb)
    as (m2 & E2 & Hb2 & S2).
  assert (Hp2 : nodes m2 !! p = nodes m !! p) by (rewrite <- Hp1; by apply S2).
  pose proof (same_but_trans _ _ _ _ _ S1 S2) as (Hf & Hfree & Hdom).
  unfold listDelNode. rewrite Hp. mrun. cbn [prev next value]. rewrite E1. mrun. rewrite Hp1, Hp. mrun.
  cbn [prev next value]. rewrite E2. mrun. rewrite Hp2, Hp. mrun. cbn [prev next value].
  assert (Hdel : forall ns, p ∉ locs ns -> forall pv nx, seg (nodes m2) pv ns nx ->
    seg (nodes (free_node l m2 p v)) pv ns nx).
  { intros ns Hin pv nx. apply seg_frame. intros q Hq. apply lookup_delete_ne. intros ->. done. }
  eexists _, _. split; [reflexivity|]. split; [|split; [done|split_and!]].
  - apply rep_after.
    + rewrite seg_app. split; apply Hdel; try done. apply (seg_same_but m1 m2 (locs b)); [done|set_solver|done].
    + rewrite locs_app. apply NoDup_app. split; [done|]. by split.
    + rewrite (rep_head _ _ _ Hr), !first_of_app. cbn [first_of]. destruct a as [|[q w] a _] using rev_ind; [done|].
      rewrite last_of_snoc. by destruct a as [|[??]?].
    + rewrite (rep_tail _ _ _ Hr), !last_of_app. by destruct b as [|[q w] b].
    + rewrite (rep_len _ _ _ Hr), !zlen_app, zlen_cons. pose proof (rep_max _ _ _ Hr) as Hm.
      rewrite zlen_app, zlen_cons in Hm. pose proof (zlen_nonneg a). pose proof (zlen_nonneg b).
      rewrite u64_id; [lia|]. unfold in_u64. lia.
    + pose proof (rep_max _ _ _ Hr) as Hm. rewrite zlen_app, zlen_cons in Hm. rewrite zlen_app. lia.
  - intros q Hq. rewrite locs_app in Hq. cbn [free_node nodes].
    rewrite lookup_delete_ne by (intros ->; apply Hq, elem_of_app; right; apply elem_of_cons; by left).
    apply Hf. intros [?|?]%elem_of_app; apply Hq, elem_of_app; [by left|right; apply elem_of_cons; by right].
  - cbn [free_node freed]. rewrite Hfree. unfold freed_by. destruct (l_free l); [done|by rewrite app_nil_r].
  - cbn [free_node nodes]. rewrite dom_delete_L, Hdom. unfold locs. cbn [fmap list_fmap list_to_set fst].
    by rewrite (right_id_L ∅ (∪)).
Qed.

Lemma listEmpty_loop_spec l ns : forall m pv, seg (nodes m) pv ns None -> NoDup (locs ns) ->
  exists m', listEmpty_loop (length ns) l m (first_of ns None) = Some m' /\ shrinks l m m' ns ns.
Proof.
  induction ns as [|[p v] ns IH]; intros m pv Hs Hn.
  - exists m. split; [done|]. split; [done|]. split; [unfold freed_by; destruct (l_free l); by rewrite app_nil_r|].
    cbn. by rewrite difference_empty_L.
  - destruct Hs as [Hp Hs]. apply NoDup_cons in Hn as [Hpn Hn]. fold (locs ns) in Hpn, Hn. cbn [fst] in Hpn.
    assert (Hs' : seg (nodes (free_node l m p v)) (Some p) ns None).
    { eapply seg_frame; [|exact Hs]. intros q Hq. apply lookup_delete_ne. intros ->. done. }
    destruct (IH _ _ Hs' Hn) as (m' & E & Hf & Hfr & Hd).
    exists m'. cbn [length listEmpty_loop first_of]. mrun. rewrite Hp. mrun. cbn [value next]. split; [done|].
    split_and!.
    + intros q [Hq Hq']%not_elem_of_cons. rewrite Hf by done. by apply lookup_delete_ne.
    + rewrite Hfr. cbn [free_node freed values]. unfold freed_by. destruct (l_free l); [|done].
      by rewrite <- app_assoc.
    + rewrite Hd. cbn [free_node nodes]. rewrite dom_delete_L. unfold locs. cbn. set_solver.
Qed.

Lemma listEmpty_spec m l ns : rep m l ns ->
  exists m' l', listEmpty m l = Some (m', l') /\ rep m' l' [] /\ methods l' = methods l /\ shrinks l m m' ns ns.
Proof.
  intros Hr. destruct (listEmpty_loop_spec l ns m None (rep_seg _ _ _ Hr) (rep_nodup _ _ _ Hr)) as (m' & E & Hsh).
  unfold listEmpty. rewrite (rep_len _ _ _ Hr), (rep_head _ _ _ Hr). unfold zlen. rewrite Nat2Z.id, E. mrun.
  eexists _, _. split; [reflexivity|]. split; [|done]. apply rep_after; try done. constructor.
Qed.

(** ** Rotation and concatenation *)

(** A list of at most one node, or the node at one end and the rest. *)
Lemma rep_short m l ns : rep m l ns -> (len l <=? 1) = true -> ns = [] \/ exists x, ns = [x].
Proof.
  intros Hr Hle. apply Z.leb_le in Hle. rewrite (rep_len _ _ _ Hr) in Hle.
  destruct ns as [|x [|y ns]]; [by left|right; by exists x|].
  rewrite !zlen_cons in Hle. pose proof (zlen_nonneg ns). lia.
Qed.

Lemma rep_long m l ns : rep m l ns -> (len l <=? 1) = false -> exists x y ns', ns = x :: y :: ns'.
Proof.
  intros Hr Hle. apply Z.leb_gt in Hle. rewrite (rep_len _ _ _ Hr) in Hle.
  destruct ns as [|x [|y ns]]; [done..|]. by exists x, y, ns.
Qed.

Lemma store_store m p n f g m1 : nodes m !! p = Some n -> store m (Some p) f = Some m1 ->
  store m1 (Some p) g = Some {| nodes := <[p := g (f n)]> (nodes m); freed := freed m |}.
Proof.
  unfold store. mrun. intros ->. mrun. intros [= <-]. cbn [nodes freed]. rewrite lookup_insert_eq. mrun.
  by rewrite insert_insert_eq.
Qed.

Lemma listRotateTailToHead_spec m l a p v : rep m l (a ++ [(p, v)]) ->
  exists m' l', listRotateTailToHead m l = Some (m', l') /\ rep m' l' ((p, v) :: a) /\
    methods l' = methods l /\ same_but m m' (locs (a ++ [(p, v)])).
Proof.
  intros Hr. unfold listRotateTailToHead. destruct (len l <=? 1) eqn:El.
  { destruct (rep_short _ _ _ Hr El) as [E|[x E]]; destruct a as [|y a]; try done; [|by destruct a].
    eexists _, _. split; [reflexivity|]. done. }
  assert (Hne : a <> []).
  { destruct (rep_long _ _ _ Hr El) as (x & y & ns & E). intros ->. done. }
  pose proof (rep_seg _ _ _ Hr) as Hs. pose proof (rep_nodup _ _ _ Hr) as Hn. fold (locs (a ++ [(p, v)])) in Hn.
  rewrite seg_app in Hs. destruct Hs as (Ha & Hp & _). rewrite locs_app in Hn.
  destruct (NoDup_split _ _ Hn) as (Hna & _ & Hd). assert (Hpa : p ∉ locs a) by (intros Hin; apply (Hd p Hin), elem_of_cons; by left).
  rewrite (rep_tail _ _ _ Hr), (rep_head _ _ _ Hr), last_of_snoc, first_of_app. cbv zeta.
  change (first_of [(p, v)] None) with (Some p). unfold load. mrun. rewrite Hp. mrun. cbn [prev].
  destruct (seg_set_next m _ a _ None Ha Hna) as (m1 & E1 & Ha1 & S1).
  destruct (seg_set_prev m1 _ a None (Some p) Ha1 Hna) as (m2 & E2 & Ha2 & S2).
  assert (Hp2 : nodes m2 !! p = nodes m !! p) by (rewrite (proj1 S2), (proj1 S1) by done; done). rewrite Hp in Hp2.
  pose proof (same_but_trans _ _ _ _ _ S1 S2) as (Hf & Hfree & Hdom).
  destruct (store_at m2 p _ (set_prev None) Hp2) as (m3 & E3 & _ & _).
  pose proof (store_store m2 p _ _ (set_next (first_of a (Some p))) _ Hp2 E3) as E4.
  assert (Hl : exists t, last_of None a = Some t) by (destruct a as [|[??] ? _] using rev_ind; [done|rewrite last_of_snoc; by eexists]).
  assert (Hh : exists q, first_of a None = Some q /\ first_of a (Some p) = Some q) by (destruct a as [|[??] ?]; [done|by eexists]).
  destruct Hl as [t Ht], Hh as (q & Hq & Hq'). rewrite Ht in E1 |- *. rewrite Hq in E2. rewrite Hq' in E4 |- *. cbn [store_if] in E1, E2.
  rewrite E1. mrun. rewrite E2. mrun. cbn [fst first_of]. rewrite E3. mrun. rewrite E4. mrun.
  eexists _, _. split; [reflexivity|]. split; [apply rep_after|split; [done|split_and!]].
  - cbn [nodes seg]. rewrite lookup_insert_eq, Hq. split; [done|].
    eapply seg_frame; [|exact Ha2]. intros x Hx. apply lookup_insert_ne. intros ->. done.
  - by constructor.
  - done.
  - cbn [last_of]. destruct a as [|[??] ? _] using rev_ind; [done|]. rewrite last_of_snoc in *. done.
  - rewrite (rep_len _ _ _ Hr), zlen_app, !zlen_cons, zlen_nil. lia.
  - pose proof (rep_max _ _ _ Hr) as Hm. rewrite zlen_app, zlen_cons, zlen_nil in Hm. rewrite zlen_cons. lia.
  - intros x Hx. rewrite locs_app in Hx. cbn [nodes]. rewrite lookup_insert_ne by (intros ->; apply Hx, elem_of_app; right; apply elem_of_cons; by left).
    apply Hf. intros [?|?]%elem_of_app; apply Hx, elem_of_app; by left.
  - done.
  - cbn [nodes]. rewrite <- Hdom. apply dom_insert_lookup_L. by eexists.
Qed.

Lemma listRotateHeadToTail_spec m l p v b : rep m l ((p, v) :: b) ->
  exists m' l', listRotateHeadToTail m l = Some (m', l') /\ rep m' l' (b ++ [(p, v)]) /\
    methods l' = methods l /\ same_but m m' (locs ((p, v) :: b)).
Proof.
  intros Hr. unfold listRotateHeadToTail. destruct (len l <=? 1) eqn:El.
  { destruct (rep_short _ _ _ Hr El) as [E|[x E]]; [done|]. injection E as <- ->.
    eexists _, _. split; [reflexivity|]. done. }
  assert (Hne : b <> []).
  { destruct (rep_long _ _ _ Hr El) as (x & y & ns & E). intros ->. done. }
  destruct (rep_seg _ _ _ Hr) as [Hp Hb]. destruct (proj1 (NoDup_cons _ _) (rep_nodup _ _ _ Hr)) as [Hpb Hnb].
  cbn [fst] in Hpb. fold (locs b) in Hpb, Hnb.
  rewrite (rep_tail _ _ _ Hr), (rep_head _ _ _ Hr). cbv zeta. cbn [first_of].
  unfold load. mrun. rewrite Hp. mrun. cbn [next].
  destruct (seg_set_prev m _ b _ None Hb Hnb) as (m1 & E1 & Hb1 & S1).
  destruct (seg_set_next m1 _ b None (Some p) Hb1 Hnb) as (m2 & E2 & Hb2 & S2).
  assert (Hp2 : nodes m2 !! p = nodes m !! p) by (rewrite (proj1 S2), (proj1 S1) by done; done). rewrite Hp in Hp2.
  pose proof (same_but_trans _ _ _ _ _ S1 S2) as (Hf & Hfree & Hdom).
  destruct (store_at m2 p _ (set_next None) Hp2) as (m3 & E3 & _ & _).
  pose proof (store_store m2 p _ _ (set_prev (last_of None ((p, v) :: b))) _ Hp2 E3) as E4.
  assert (Hl : exists t, last_of None b = Some t /\ last_of None ((p, v) :: b) = Some t).
  { destruct b as [|[t w] ? _] using rev_ind; [done|]. exists t. by rewrite app_comm_cons, !last_of_snoc. }
  assert (Hh : exists q, first_of b None = Some q) by (destruct b as [|[??] ?]; [done|by eexists]).
  destruct Hl as (t & Ht & Ht'), Hh as (q & Hq). rewrite Hq in E1 |- *. rewrite Ht in E2. rewrite Ht' in E4 |- *.
  cbn [store_if] in E1, E2. rewrite E1. mrun. rewrite E2. mrun. rewrite E3. mrun. rewrite E4. mrun.
  eexists _, _. split; [reflexivity|]. split; [apply rep_after|split; [done|split_and!]].
  - rewrite seg_app. cbn [nodes seg first_of]. rewrite lookup_insert_eq, Ht. split; [|done].
    eapply seg_frame; [|exact Hb2]. intros x Hx. apply lookup_insert_ne. intros ->. done.
  - rewrite locs_app. apply NoDup_app. split; [done|]. split; [|repeat constructor; set_solver].
    intros x Hx ->%list_elem_of_singleton. done.
  - rewrite first_of_app. by destruct b as [|[??] ?].
  - by rewrite last_of_snoc.
  - rewrite (rep_len _ _ _ Hr), zlen_app, !zlen_cons, zlen_nil. lia.
  - pose proof (rep_max _ _ _ Hr) as Hm. rewrite zlen_cons in Hm. rewrite zlen_app, zlen_cons, zlen_nil. lia.
  - intros x [Hxp Hx]%not_elem_of_cons. cbn [nodes]. rewrite lookup_insert_ne by (intros ->; by apply Hxp).
    apply Hf. intros [?|?]%elem_of_app; done.
  - done.
  - cbn [nodes]. rewrite <- Hdom. apply dom_insert_lookup_L. by eexists.
Qed.

(** [listJoin] of two lists with different nodes makes the first the
    concatenation of both and leaves the second empty; no other node changes. *)
Theorem listJoin_correct (m : mem) (l o : adlist) (a b : list (loc * V)) :
  rep m l a -> rep m o b -> locs a ## locs b -> zlen a + zlen b <= ULLONG_MAX ->
  exists m' l' o', listJoin m l o = Some (m', l', o') /\ rep m' l' (a ++ b) /\ rep m' o' [] /\
    methods l' = methods l /\ methods o' = methods o /\ same_but m m' (locs b ++ locs a).
Proof.
  intros Hl Ho Hd Hm. pose proof (rep_nodup _ _ _ Hl) as Hna. pose proof (rep_nodup _ _ _ Ho) as Hnb.
  fold (locs a) in Hna. fold (locs b) in Hnb.
  destruct (seg_set_prev m _ b None (last_of None a) (rep_seg _ _ _ Ho) Hnb) as (m1 & E1 & Hb1 & S1).
  assert (Ha1 : seg (nodes m1) None a None).
  { eapply seg_same_but; [exact S1|set_solver|apply (rep_seg _ _ _ Hl)]. }
  destruct (seg_set_next m1 _ a None (first_of b None) Ha1 Hna) as (m2 & E2 & Ha2 & S2).
  unfold listJoin. rewrite (rep_head _ _ _ Ho), (rep_tail _ _ _ Hl), E1. mrun. rewrite E2. mrun.
  eexists _, _, _. split; [reflexivity|]. split; [apply rep_after|split; [apply rep_after|]]; try done.
  - rewrite seg_app. split; [done|]. by eapply seg_same_but.
  - rewrite locs_app. apply NoDup_app. split; [done|]. by split.
  - rewrite (rep_head _ _ _ Hl), first_of_app. destruct a as [|[q w] a _] using rev_ind; [done|].
    rewrite last_of_snoc. by destruct a as [|[??]?].
  - rewrite (rep_tail _ _ _ Ho), last_of_app. destruct b as [|[q w] b _] using rev_ind; [done|].
    by rewrite !last_of_snoc.
  - rewrite (rep_len _ _ _ Ho), (len_add _ _ _ _ Hl) by (pose proof (zlen_nonneg b); lia). by rewrite zlen_app.
  - by rewrite zlen_app.
  - constructor.
  - split; [done|]. split; [done|]. by eapply same_but_trans.
Qed.

(** ** Traversal *)

Lemma rep_locs_dom m l ns : rep m l ns -> list_to_set (locs ns) ⊆ dom (nodes m).
Proof.
  intros Hr q Hq. apply elem_of_list_to_set in Hq. apply list_elem_of_fmap in Hq as ([p v] & -> & Hin).
  apply list_elem_of_split in Hin as (a & b & ->). pose proof (seg_at _ _ _ _ _ _ _ (rep_seg _ _ _ Hr)) as Hp.
  apply elem_of_dom. by eexists.
Qed.

Lemma rep_fuel m l ns : rep m l ns -> (length ns < fuel_of m)%nat.
Proof.
  intros Hr. unfold fuel_of. pose proof (subseteq_size _ _ (rep_locs_dom m l ns Hr)) as Hs.
  rewrite size_list_to_set, size_dom in Hs by apply (rep_nodup _ _ _ Hr).
  unfold locs in Hs. rewrite length_fmap in Hs. lia.
Qed.

Lemma index_forward m ns : forall fuel pv index, seg (nodes m) pv ns None -> 0 <= index ->
  (length ns < fuel)%nat -> listIndex_loop (S fuel) m next index (first_of ns None) = Some (fst <$> zget ns index).
Proof.
  induction ns as [|[p v] ns IH]; intros fuel pv index Hs Hi Hf.
  - cbn [listIndex_loop first_of]. unfold zget. zif_true. rewrite lookup_nil. by destruct (index =? 0).
  - destruct Hs as [Hp Hs]. destruct fuel as [|fuel]; [simpl in Hf; lia|]. cbn [first_of]. 
    change (listIndex_loop (S (S fuel)) m next index (Some p)) with
      (if index =? 0 then Some (Some p) else
       nd ← nodes m !! p; listIndex_loop (S fuel) m next (index - 1) (next nd)).
    destruct (Z.eqb_spec index 0) as [->|Hne]; [done|]. rewrite Hp. mrun. cbn [next].
    rewrite (IH fuel (Some p) (index - 1) Hs) by (simpl in Hf; lia). do 2 f_equal. unfold zget. zif_true. zif_true.
    replace (Z.to_nat index) with (S (Z.to_nat (index - 1))) by lia. done.
Qed.

Lemma index_backward m ns : forall fuel nx index, seg (nodes m) None ns nx -> 0 <= index ->
  (length ns < fuel)%nat ->
  listIndex_loop (S fuel) m prev index (last_of None ns) = Some (fst <$> zget ns (zlen ns - 1 - index)).
Proof.
  induction ns as [|[p v] ns IH] using rev_ind; intros fuel nx index Hs Hi Hf.
  - cbn [listIndex_loop last_of]. change (zlen []) with 0. destruct (index =? 0); unfold zget; by zif_false.
  - rewrite length_app in Hf. destruct fuel as [|fuel]; [simpl in Hf; lia|]. rewrite last_of_snoc.
    change (listIndex_loop (S (S fuel)) m prev index (Some p)) with
      (if index =? 0 then Some (Some p) else
       nd ← nodes m !! p; listIndex_loop (S fuel) m prev (index - 1) (prev nd)).
    rewrite zlen_app. change (zlen [(p, v)]) with 1. destruct (Z.eqb_spec index 0) as [->|Hne].
    { rewrite (zget_app ns [] (p, v)) by lia. done. }
    rewrite (seg_at _ _ _ _ _ _ _ Hs). mrun. cbn [prev]. rewrite seg_app in Hs. destruct Hs as [Hs _].
    rewrite (IH fuel _ (index - 1) Hs) by (simpl in Hf; lia). do 2 f_equal.
    replace (zlen ns + 1 - 1 - index) with (zlen ns - 1 - (index - 1)) by lia. unfold zget.
    destruct (0 <=? zlen ns - 1 - (index - 1)) eqn:E; [|done]. zbool. by rewrite lookup_app_l by (unfold zlen in *; lia).
Qed.

(** The position an index stands for: negative ones count from the tail. *)
Definition position (n index : Z) : Z := if index <? 0 then n + index else index.

Lemma listIndex_spec m l ns index : rep m l ns -> LLONG_MIN < index ->
  listIndex m l index = Some (fst <$> zget ns (position (zlen ns) index)).
Proof.
  intros Hr Hi. pose proof (rep_fuel _ _ _ Hr). unfold listIndex, position. destruct (Z.ltb_spec index 0).
  - rewrite (proj2 (Z.eqb_neq index LLONG_MIN)) by lia.
    rewrite (rep_tail _ _ _ Hr), (index_backward m ns _ None) by (apply Hr || lia).
    do 3 f_equal. lia.
  - rewrite (rep_head _ _ _ Hr). apply index_forward with None; [apply Hr|lia..].
Qed.

(** A node found by index splits the list. *)
Lemma listIndex_split m l ns index : rep m l ns -> LLONG_MIN < index ->
  let k := position (zlen ns) index in
  (listIndex m l index = Some None /\ ~ 0 <= k < zlen ns) \/
  exists a p v b, ns = a ++ (p, v) :: b /\ zlen a = k /\ listIndex m l index = Some (Some p).
Proof.
  intros Hr Hi. cbv zeta. rewrite (listIndex_spec m l ns index Hr Hi).
  set (k := position _ _). destruct (decide (0 <= k < zlen ns)) as [Hk|Hk].
  - right. destruct (zlookup_split ns k Hk) as (a & [p v] & b & -> & Ha).
    exists a, p, v, b. split; [done|]. split; [done|]. by rewrite (zget_app a b (p, v)).
  - left. split; [|done]. unfold zget. destruct (0 <=? k) eqn:E; [|done]. zbool.
    rewrite lookup_ge_None_2; [done|]. unfold zlen in Hk. lia.
Qed.

Definition matches (l : adlist) (key v : V) : bool :=
  match l_match l with Some mt => mt v key | None => bool_decide (key = v) end.

Lemma listSearchKey_spec m l ns key : rep m l ns ->
  listSearchKey m l key = Some (fst <$> List.find (fun x => matches l key x.2) ns).
Proof.
  intros Hr. unfold listSearchKey, listRewind. rewrite (rep_head _ _ _ Hr).
  pose proof (rep_fuel _ _ _ Hr) as Hf. revert Hf. generalize (fuel_of m). pose proof (rep_seg _ _ _ Hr) as Hs. revert Hs.
  generalize (@None loc) at 1. clear Hr. induction ns as [|[p v] ns IH]; intros pv Hs fuel Hf.
  - by destruct fuel as [|fuel]; [simpl in Hf; lia|].
  - destruct Hs as [Hp Hs]. destruct fuel as [|fuel]; [simpl in Hf; lia|].
    cbn [listSearchKey_loop listNext iter_next iter_direction first_of List.find snd]. rewrite Hp. mrun.
    rewrite Hp. mrun. cbn [value next]. fold (matches l key v). destruct (matches l key v); [done|].
    apply (IH (Some p)); [done|simpl in Hf; lia].
Qed.

(** [listIndex] is the node at the position, counted from the tail for
    negative indices, NULL out of range; [listSearchKey] is the first node from the
    head whose value matches.  Both terminate on every list. *)
Theorem listIndex_listSearchKey_correct (m : mem) (l : adlist) (ns : list (loc * V)) (index : Z) (key : V) :
  rep m l ns -> LLONG_MIN < index ->
  listIndex m l index = Some (fst <$> zget ns (if index <? 0 then zlen ns + index else index)) /\
  listSearchKey m l key
  = Some (fst <$> List.find (fun x => match l_match l with Some mt => mt x.2 key | None => bool_decide (key = x.2) end) ns).
Proof. intros Hr Hi. split; [by apply listIndex_spec|by apply listSearchKey_spec]. Qed.

(** *** Iterators *)

(** The loop of the documentation: visit every element, deleting the current one
    when [drop] says so.  The result has the values in the order of the visit. *)
Fixpoint iterate (fuel : nat) (drop : V -> bool) (m : mem) (l : adlist) (iter : listIter) (seen : list V)
    : option (mem * adlist * list V) :=
  match fuel with
  | O => None
  | S fuel =>
      '(node, iter) ← listNext m iter;
      match node with
      | None => Some (m, l, seen)
      | Some p =>
          n ← nodes m !! p;
          if drop (value n)
          then '(m, l) ← listDelNode m l p; iterate fuel drop m l iter (seen ++ [value n])
          else iterate fuel drop m l iter (seen ++ [value n])
      end
  end.

Definition kept (drop : V -> bool) (ns : list (loc * V)) : list (loc * V) :=
  List.filter (fun x => negb (drop x.2)) ns.

Lemma iterate_forward drop b : forall fuel m l a seen, rep m l (a ++ b) -> (length b < fuel)%nat ->
  exists m' l', iterate fuel drop m l {| iter_next := first_of b None; iter_direction := AL_START_HEAD |} seen
    = Some (m', l', seen ++ values b) /\ rep m' l' (a ++ kept drop b).
Proof.
  induction b as [|[p v] b IH]; intros fuel m l a seen Hr Hf; (destruct fuel as [|fuel]; [simpl in Hf; lia|]).
  { exists m, l. cbn. rewrite app_nil_r. by split. }
  pose proof (seg_at _ _ _ _ _ _ _ (rep_seg _ _ _ Hr)) as Hp.
  cbn [iterate listNext iter_next iter_direction first_of]. rewrite Hp. mrun. rewrite Hp. mrun. cbn [value next].
  simpl in Hf. cbn [kept List.filter snd]. destruct (drop v); cbn [negb].
  - destruct (listDelNode_spec m l a p v b Hr) as (m1 & l1 & -> & Hr1 & _). mrun.
    destruct (IH fuel m1 l1 a (seen ++ [v]) Hr1 ltac:(lia)) as (m' & l' & E & Hr'). exists m', l'.
    rewrite E, <- app_assoc. by split.
  - assert (Hr1 : rep m l ((a ++ [(p, v)]) ++ b)) by (by rewrite <- app_assoc).
    destruct (IH fuel m l _ (seen ++ [v]) Hr1 ltac:(lia)) as (m' & l' & E & Hr'). exists m', l'.
    rewrite E, <- app_assoc. rewrite <- app_assoc in Hr'. by split.
Qed.

Lemma kept_app drop a b : kept drop (a ++ b) = kept drop a ++ kept drop b.
Proof. apply List.filter_app. Qed.

Lemma iterate_backward drop a : forall fuel m l b seen, rep m l (a ++ b) -> (length a < fuel)%nat ->
  exists m' l', iterate fuel drop m l {| iter_next := last_of None a; iter_direction := AL_START_TAIL |} seen
    = Some (m', l', seen ++ reverse (values a)) /\ rep m' l' (kept drop a ++ b).
Proof.
  induction a as [|[p v] a IH] using rev_ind; intros fuel m l b seen Hr Hf; (destruct fuel as [|fuel]; [simpl in Hf; lia|]).
  { exists m, l. cbn. rewrite app_nil_r. by split. }
  rewrite <- app_assoc in Hr. cbn [app] in Hr. pose proof (seg_at _ _ _ _ _ _ _ (rep_seg _ _ _ Hr)) as Hp.
  rewrite last_of_snoc. cbn [iterate listNext iter_next iter_direction]. rewrite Hp. mrun. rewrite Hp. mrun. cbn [value prev].
  rewrite length_app in Hf. simpl in Hf. rewrite kept_app. unfold values. rewrite fmap_app, reverse_app.
  cbn [kept List.filter snd]. fold (values a). destruct (drop v); cbn [negb].
  - destruct (listDelNode_spec m l a p v b Hr) as (m1 & l1 & -> & Hr1 & _). mrun.
    destruct (IH fuel m1 l1 b (seen ++ [v]) Hr1 ltac:(lia)) as (m' & l' & E & Hr'). exists m', l'.
    rewrite E, <- app_assoc, app_nil_r. by split.
  - destruct (IH fuel m l ((p, v) :: b) (seen ++ [v]) Hr ltac:(lia)) as (m' & l' & E & Hr'). exists m', l'.
    rewrite E, <- !app_assoc. by split.
Qed.

(** An iteration in either direction, deleting any of the elements it returns
    while it runs, terminates, visits every element once and in order, never
    touches a freed node, and leaves exactly the elements not deleted. *)
Theorem iteration_with_deletion (drop : V -> bool) (m : mem) (l : adlist) (ns : list (loc * V)) (d : direction) :
  rep m l ns ->
  exists m' l', iterate (fuel_of m) drop m l (listGetIterator l d) []
    = Some (m', l', match d with AL_START_HEAD => values ns | AL_START_TAIL => reverse (values ns) end) /\
    rep m' l' (List.filter (fun x => negb (drop x.2)) ns).
Proof.
  intros Hr. pose proof (rep_fuel _ _ _ Hr). destruct d; unfold listGetIterator.
  - rewrite (rep_head _ _ _ Hr). by apply (iterate_forward drop ns _ m l [] []).
  - rewrite (rep_tail _ _ _ Hr). destruct (iterate_backward drop ns (fuel_of m) m l [] []) as (m' & l' & E & Hr');
      [by rewrite app_nil_r|done|]. rewrite app_nil_r in Hr'. by exists m', l'.
Qed.

(** *** Duplication *)

Definition dup_value (l : adlist) (v : V) : option V := match l_dup l with Some dup => dup v | None => Some v end.

Lemma mapM_app {A B} (f : A -> option B) (l k : list A) :
  mapM f (l ++ k) = x ← mapM f l; y ← mapM f k; Some (x ++ y).
Proof.
  induction l as [|a l IH]; cbn [app mapM]; mrun; [by destruct (mapM f k)|].
  destruct (f a); mrun; [|done]. rewrite IH. destruct (mapM f l); mrun; [|done]. by destruct (mapM f k).
Qed.

(** The heap between two rounds of the copy: the old nodes and those of the copy. *)
Record copying (m0 m : mem) (copy : adlist) (cs : list (loc * V)) : Prop := {
  cp_rep : rep m copy cs;
  cp_old : forall q, q ∈ dom (nodes m0) -> nodes m !! q = nodes m0 !! q;
  cp_dom : dom (nodes m) = dom (nodes m0) ∪ list_to_set (locs cs);
  cp_new : forall q, q ∈ locs cs -> q ∉ dom (nodes m0) }.

Lemma release_copy m0 m copy cs : copying m0 m copy cs ->
  exists m', listRelease m copy = Some m' /\ nodes m' = nodes m0.
Proof.
  intros [Hr Hold Hdom Hnew]. destruct (listEmpty_spec m copy cs Hr) as (m' & l' & E & _ & _ & Hf & _ & Hd).
  unfold listRelease. rewrite E. exists m'. split; [done|]. apply map_eq. intros q.
  destruct (decide (q ∈ dom (nodes m0))) as [Hq|Hq].
  - rewrite Hf by (intros Hin; by apply (Hnew q Hin)). by apply Hold.
  - rewrite (proj1 (not_elem_of_dom (nodes m0) q)) by done. apply not_elem_of_dom. rewrite Hd, Hdom. set_solver.
Qed.

Lemma add_copy m0 m m' copy copy' cs p v : copying m0 m copy cs -> rep m' copy' (cs ++ [(p, v)]) ->
  p ∉ dom (nodes m) -> extends m m' p (cs ++ []) -> copying m0 m' copy' (cs ++ [(p, v)]).
Proof.
  intros [Hr Hold Hdom Hnew] Hr' Hp (Hf & _ & Hd). rewrite app_nil_r in Hf.
  assert (Hp0 : p ∉ dom (nodes m0)) by (rewrite Hdom in Hp; set_solver). split.
  - done.
  - intros q Hq. rewrite Hf; [by apply Hold|by intros ->|intros Hin; by apply (Hnew q Hin)].
  - rewrite Hd, Hdom, locs_app, list_to_set_app_L. cbn. set_solver.
  - intros q. rewrite locs_app. intros [Hq|Hq]%elem_of_app; [by apply Hnew|].
    apply list_elem_of_singleton in Hq as ->. done.
Qed.

Lemma listDup_loop_spec m0 orig b : forall fuel m copy cs a, seg (nodes m0) (last_of None a) b None ->
  copying m0 m copy cs -> zlen cs + zlen b <= ULLONG_MAX -> methods copy = methods orig ->
  mapM (dup_value orig) (values a) = Some (values cs) -> (length b < fuel)%nat ->
  exists m' r, listDup_loop fuel m copy {| iter_next := first_of b None; iter_direction := AL_START_HEAD |} = Some (m', r) /\
    match r with
    | Some copy' => exists cs', copying m0 m' copy' cs' /\ methods copy' = methods orig /\
        mapM (dup_value orig) (values (a ++ b)) = Some (values cs')
    | None => nodes m' = nodes m0 /\
        (mapM (dup_value orig) (values (a ++ b)) = None \/ exists used, zmalloc used = None)
    end.
Proof.
  induction b as [|[p v] b IH]; intros fuel m copy cs a Hs Hc Hmax Hmeth Hvs Hf; (destruct fuel as [|fuel]; [simpl in Hf; lia|]).
  { exists m, (Some copy). split; [done|]. exists cs. rewrite app_nil_r. done. }
  destruct Hs as [Hp Hs]. assert (Hpm : nodes m !! p = nodes m0 !! p) by (apply (cp_old _ _ _ _ Hc), elem_of_dom; by eexists).
  cbn [listDup_loop listNext iter_next iter_direction first_of]. rewrite Hpm, Hp. mrun. rewrite Hpm, Hp. mrun. cbn [value next].
  assert (Hd : l_dup copy = l_dup orig) by (by injection Hmeth). rewrite Hd. fold (dup_value orig v).
  assert (Hcons : values (a ++ (p, v) :: b) = values a ++ v :: values b) by (unfold values; by rewrite fmap_app).
  destruct (release_copy _ _ _ _ Hc) as (mr & Er & Hmr). rewrite zlen_cons in Hmax. pose proof (zlen_nonneg b).
  destruct (dup_value orig v) as [v'|] eqn:Ev.
  2:{ rewrite Er. mrun. exists mr, None. split; [done|]. split; [done|]. left.
      rewrite Hcons, mapM_app, Hvs. mrun. cbn [mapM]. by rewrite Ev. }
  pose proof (listAddNodeTail_spec m copy cs v' (cp_rep _ _ _ _ Hc) ltac:(lia)) as Hadd. unfold adds in Hadd.
  destruct (zmalloc (dom (nodes m))) as [q|] eqn:Ez.
  2:{ rewrite Hadd. mrun. rewrite Er. mrun. exists mr, None. split; [done|]. split; [done|]. right. by eexists. }
  destruct Hadd as (m1 & copy1 & -> & Hr1 & Hm1 & Hfr & Hext). mrun.
  destruct (IH fuel m1 copy1 (cs ++ [(q, v')]) (a ++ [(p, v)])) as (m' & r & E & Hres).
  - by rewrite last_of_snoc.
  - by eapply add_copy.
  - rewrite zlen_app, zlen_cons. change (zlen []) with 0. lia.
  - by rewrite Hm1.
  - unfold values. rewrite !fmap_app, mapM_app. fold (values a) (values cs). rewrite Hvs. mrun.
    cbn [fmap list_fmap mapM snd]. by rewrite Ev.
  - simpl in Hf. lia.
  - exists m', r. rewrite <- app_assoc in Hres. by split.
Qed.

(** [listDup] leaves every node that existed before as it was.  It returns a
    list of new nodes with the duplicated values in the same order, or, when a
    value cannot be duplicated or memory runs out, NULL after freeing every node
    it made. *)
Theorem listDup_correct (m : mem) (orig : adlist) (ns : list (loc * V)) : rep m orig ns ->
  exists m' r, listDup m orig = Some (m', r) /\ rep m' orig ns /\
    match r with
    | Some copy => exists cs, rep m' copy cs /\ methods copy = methods orig /\
        mapM (dup_value orig) (values ns) = Some (values cs) /\
        (forall q, q ∈ locs cs -> q ∉ dom (nodes m)) /\
        (forall q, q ∈ dom (nodes m) -> nodes m' !! q = nodes m !! q)
    | None => nodes m' = nodes m /\
        (mapM (dup_value orig) (values ns) = None \/ exists used, zmalloc used = None)
    end.
Proof.
  intros Hr. unfold listDup, listRewind. rewrite (rep_head _ _ _ Hr). cbv zeta.
  set (copy := {| head := _; tail := _; l_dup := _; l_free := _; l_match := _; len := _ |}).
  assert (Hc : copying m m copy []).
  { split; [|done|cbn; set_solver|intros q Hq; by apply elem_of_nil in Hq]. split; try done. constructor. }
  destruct (listDup_loop_spec m orig ns (fuel_of m) m copy [] [] (rep_seg _ _ _ Hr) Hc (rep_max _ _ _ Hr) eq_refl eq_refl
    (rep_fuel _ _ _ Hr)) as (m' & r & E & Hres).
  exists m', r. split; [done|].
  assert (Hkeep : (forall q, q ∈ dom (nodes m) -> nodes m' !! q = nodes m !! q) -> rep m' orig ns).
  { intros Hold. destruct Hr as [Hs Hn Hh Ht Hl Hm]. split; try done. eapply seg_frame; [|exact Hs].
    intros q Hq. apply Hold. apply (rep_locs_dom m orig ns); [by split|]. by apply elem_of_list_to_set. }
  destruct r as [copy'|].
  - destruct Hres as (cs & Hcp & Hme & Hvs). split; [apply Hkeep; apply Hcp|]. exists cs.
    split_and!; [apply Hcp|done|done|apply Hcp..].
  - destruct Hres as [Hno Hwhy]. split; [|done]. apply Hkeep. intros q _. by rewrite Hno.
Qed.

(** ** Refinement *)

(** A client's calls.  Nodes are found by index, as the code does before it
    inserts or deletes. *)
Inductive op :=
| AddHead (v : V)
| AddTail (v : V)
| Insert (index : Z) (v : V) (after : bool)
| Delete (index : Z)
| RotateTailToHead
| RotateHeadToTail
| Empty.

Definition exec (m : mem) (l : adlist) (o : op) : option (mem * adlist) :=
  match o with
  | AddHead v => '(_, m, l) ← listAddNodeHead m l v; Some (m, l)
  | AddTail v => '(_, m, l) ← listAddNodeTail m l v; Some (m, l)
  | Insert i v after =>
      node ← listIndex m l i;
      match node with
      | Some p => '(_, m, l) ← listInsertNode m l p v after; Some (m, l)
      | None => Some (m, l)
      end
  | Delete i =>
      node ← listIndex m l i;
      match node with Some p => listDelNode m l p | None => Some (m, l) end
  | RotateTailToHead => listRotateTailToHead m l
  | RotateHeadToTail => listRotateHeadToTail m l
  | Empty => listEmpty m l
  end.

Fixpoint run (m : mem) (l : adlist) (os : list op) : option (mem * adlist) :=
  match os with [] => Some (m, l) | o :: os => '(m, l) ← exec m l o; run m l os end.

(** The same calls on a sequence of values. *)
Definition spec (vs : list V) (o : op) : list V :=
  match o with
  | AddHead v => v :: vs
  | AddTail v => vs ++ [v]
  | Insert i v after =>
      let k := position (zlen vs) i in
      if (0 <=? k) && (k <? zlen vs) then
        let n := if after then S (Z.to_nat k) else Z.to_nat k in take n vs ++ v :: drop n vs
      else vs
  | Delete i =>
      let k := position (zlen vs) i in
      if (0 <=? k) && (k <? zlen vs) then take (Z.to_nat k) vs ++ drop (S (Z.to_nat k)) vs else vs
  | RotateTailToHead => match reverse vs with [] => [] | v :: r => v :: reverse r end
  | RotateHeadToTail => match vs with [] => [] | v :: r => r ++ [v] end
  | Empty => []
  end.

Definition index_ok (o : op) : Prop :=
  match o with Insert i _ _ | Delete i => LLONG_MIN < i | _ => True end.

(** The heap holds the nodes of the list and nothing else. *)
Definition owns (m : mem) (l : adlist) (ns : list (loc * V)) : Prop :=
  rep m l ns /\ dom (nodes m) = list_to_set (locs ns).

Lemma values_app a b : values (a ++ b) = values a ++ values b.
Proof. apply fmap_app. Qed.

Lemma values_zlen ns : zlen (values ns) = zlen ns.
Proof. unfold zlen, values. by rewrite length_fmap. Qed.

Lemma values_length ns : length (values ns) = length ns.
Proof. apply length_fmap. Qed.

Hypothesis memory : forall used, zmalloc used <> None.

Lemma adds_owns m l v a b r : owns m l (a ++ b) -> adds m l v a b r ->
  exists m' l' p, r = Some (true, m', l') /\ owns m' l' (a ++ (p, v) :: b).
Proof.
  intros [_ Hd] Hadd. unfold adds in Hadd. destruct (zmalloc _) as [p|] eqn:Ez; [|by apply memory in Ez].
  destruct Hadd as (m' & l' & -> & Hr & _ & _ & _ & _ & Hdom). exists m', l', p. split; [done|]. split; [done|].
  rewrite Hdom, Hd, !locs_app, !list_to_set_app_L. cbn. set_solver.
Qed.

(** The two cases of a call that names an index. *)
Lemma position_cases ns a p v b k : ns = a ++ (p, v) :: b -> zlen a = k ->
  (0 <=? k) && (k <? zlen (values ns)) = true /\ Z.to_nat k = length (values a) /\
  values ns = values a ++ v :: values b.
Proof.
  intros -> <-. rewrite values_zlen, values_length, zlen_app, zlen_cons.
  pose proof (zlen_nonneg a). pose proof (zlen_nonneg b). rewrite values_app. split_and!; [|unfold zlen; lia|done].
  rewrite (proj2 (Z.leb_le _ _)), (proj2 (Z.ltb_lt _ _)) by lia. done.
Qed.

Lemma position_out (ns : list (loc * V)) k : ~ 0 <= k < zlen ns -> (0 <=? k) && (k <? zlen (values ns)) = false.
Proof. intros Hk. rewrite values_zlen. destruct (Z.leb_spec 0 k), (Z.ltb_spec k (zlen ns)); try done. lia. Qed.

Lemma take_values a v (b : list V) : take (S (length a)) (a ++ v :: b) = a ++ [v] /\ drop (S (length a)) (a ++ v :: b) = b.
Proof.
  split.
  - rewrite take_app_ge by lia. by replace (S (length a) - length a)%nat with 1%nat by lia.
  - rewrite drop_app_ge by lia. by replace (S (length a) - length a)%nat with 1%nat by lia.
Qed.

Lemma exec_insert m l ns i v after : owns m l ns -> zlen ns < ULLONG_MAX -> LLONG_MIN < i ->
  exists m' l' ns', exec m l (Insert i v after) = Some (m', l') /\ owns m' l' ns' /\
    values ns' = spec (values ns) (Insert i v after) /\ zlen ns' <= zlen ns + 1.
Proof.
  intros Ho Hmax Hi. pose proof (proj1 Ho) as Hr. cbn [exec spec]. cbv zeta. rewrite values_zlen.
  destruct (listIndex_split m l ns i Hr Hi) as [[-> Hk]|(a & p & w & b & -> & Ha & ->)]; mrun.
  - pose proof (position_out ns _ Hk) as Hout. rewrite values_zlen in Hout. rewrite Hout.
    exists m, l, ns. split; [done|]. split; [done|]. split; [done|lia].
  - destruct (position_cases _ a p w b _ eq_refl Ha) as (Hin & Hk & Hv). rewrite values_zlen in Hin. rewrite Hin, Hk, Hv.
    destruct (take_values (values a) w (values b)) as [Ht Hdr].
    pose proof (listInsertNode_spec m l a p w b v after Hr Hmax) as Hadd.
    assert (Hz : forall q, zlen (a ++ (p, w) :: b) + 1 = zlen ((a ++ [(p, w)]) ++ (q, v) :: b) /\
                 zlen (a ++ (p, w) :: b) + 1 = zlen (a ++ (q, v) :: (p, w) :: b)).
    { intros q. rewrite !zlen_app, !zlen_cons. change (zlen []) with 0. lia. }
    destruct after.
    + assert (Ho' : owns m l ((a ++ [(p, w)]) ++ b)) by (by rewrite <- app_assoc).
      destruct (adds_owns _ _ _ _ _ _ Ho' Hadd) as (m' & l' & q & -> & Hown). mrun.
      exists m', l'. eexists. split; [done|]. split; [exact Hown|]. rewrite Ht, Hdr, !values_app. destruct (Hz q). split; [done|lia].
    + destruct (adds_owns _ _ _ _ _ _ Ho Hadd) as (m' & l' & q & -> & Hown). mrun.
      exists m', l'. eexists. split; [done|]. split; [exact Hown|].
      rewrite take_app_length, drop_app_length, values_app. destruct (Hz q). split; [done|lia].
Qed.

Lemma exec_delete m l ns i : owns m l ns -> LLONG_MIN < i ->
  exists m' l' ns', exec m l (Delete i) = Some (m', l') /\ owns m' l' ns' /\
    values ns' = spec (values ns) (Delete i) /\ zlen ns' <= zlen ns + 1.
Proof.
  intros [Hr Hd] Hi. cbn [exec spec]. cbv zeta. rewrite values_zlen.
  destruct (listIndex_split m l ns i Hr Hi) as [[-> Hk]|(a & p & w & b & -> & Ha & ->)]; mrun.
  - pose proof (position_out ns _ Hk) as Hout. rewrite values_zlen in Hout. rewrite Hout.
    exists m, l, ns. split; [done|]. split; [done|]. split; [done|lia].
  - destruct (position_cases _ a p w b _ eq_refl Ha) as (Hin & Hk & Hv). rewrite values_zlen in Hin. rewrite Hin, Hk, Hv.
    destruct (take_values (values a) w (values b)) as [_ Hdr].
    destruct (listDelNode_spec m l a p w b Hr) as (m' & l' & -> & Hr' & _ & _ & _ & Hdom).
    exists m', l', (a ++ b). split; [done|]. split; [split; [done|]|].
    + pose proof (rep_nodup _ _ _ Hr) as Hn. fold (locs (a ++ (p, w) :: b)) in Hn. rewrite locs_app in Hn.
      apply NoDup_split in Hn as (_ & Hn & Hdisj). apply NoDup_cons in Hn as [Hpb _]. cbn [fst] in Hpb. fold (locs b) in Hpb.
      assert (p ∉ locs a) by (intros Hpa; apply (Hdisj p Hpa), elem_of_cons; by left).
      rewrite Hdom, Hd, !locs_app, !list_to_set_app_L. cbn. fold (locs b). set_solver.
    + rewrite take_app_length, Hdr, values_app, !zlen_app, zlen_cons. split; [done|lia].
Qed.

Lemma exec_rotate m l ns : owns m l ns ->
  (exists m' l' ns', exec m l RotateTailToHead = Some (m', l') /\ owns m' l' ns' /\
    values ns' = spec (values ns) RotateTailToHead /\ zlen ns' <= zlen ns + 1) /\
  (exists m' l' ns', exec m l RotateHeadToTail = Some (m', l') /\ owns m' l' ns' /\
    values ns' = spec (values ns) RotateHeadToTail /\ zlen ns' <= zlen ns + 1).
Proof.
  intros [Hr Hd]. cbn [exec spec]. split.
  - destruct ns as [|[p v] a _] using rev_ind.
    { unfold listRotateTailToHead. rewrite (rep_len _ _ _ Hr). change (zlen [] <=? 1) with true.
      exists m, l, []. done. }
    destruct (listRotateTailToHead_spec m l a p v Hr) as (m' & l' & -> & Hr' & _ & _ & _ & Hdom).
    exists m', l', ((p, v) :: a). split; [done|]. split; [split; [done|]|].
    + rewrite Hdom, Hd, locs_app, list_to_set_app_L. cbn. set_solver.
    + rewrite values_app, reverse_app, zlen_app, !zlen_cons. change (zlen []) with 0.
      change (reverse (values [(p, v)])) with [v]. cbn [app]. rewrite reverse_involutive. split; [done|lia].
  - destruct ns as [|[p v] b].
    { unfold listRotateHeadToTail. rewrite (rep_len _ _ _ Hr). change (zlen [] <=? 1) with true.
      exists m, l, []. done. }
    destruct (listRotateHeadToTail_spec m l p v b Hr) as (m' & l' & -> & Hr' & _ & _ & _ & Hdom).
    exists m', l', (b ++ [(p, v)]). split; [done|]. split; [split; [done|]|].
    + rewrite Hdom, Hd, locs_app, list_to_set_app_L. cbn. set_solver.
    + rewrite values_app, zlen_app, !zlen_cons. change (zlen []) with 0. split; [done|lia].
Qed.

Lemma exec_spec m l ns o : owns m l ns -> zlen ns < ULLONG_MAX -> index_ok o ->
  exists m' l' ns', exec m l o = Some (m', l') /\ owns m' l' ns' /\ values ns' = spec (values ns) o /\
    zlen ns' <= zlen ns + 1.
Proof.
  intros Ho Hmax Hi. pose proof (proj1 Ho) as Hr. destruct o as [v|v|i v after|i| | |].
  - pose proof (adds_owns m l v [] ns _ Ho (listAddNodeHead_spec m l ns v Hr Hmax)) as (m' & l' & p & E & Hown).
    cbn [exec]. rewrite E. mrun. exists m', l'. eexists. split; [done|]. split; [exact Hown|]. cbn [app]. rewrite zlen_cons. split; [done|lia].
  - assert (Ho' : owns m l (ns ++ [])) by (by rewrite app_nil_r).
    pose proof (adds_owns m l v ns [] _ Ho' (listAddNodeTail_spec m l ns v Hr Hmax)) as (m' & l' & p & E & Hown).
    cbn [exec]. rewrite E. mrun. exists m', l'. eexists. split; [done|]. split; [exact Hown|].
    rewrite values_app, zlen_app, zlen_cons. change (zlen []) with 0. split; [done|lia].
  - by apply exec_insert.
  - by apply exec_delete.
  - by apply exec_rotate.
  - by apply exec_rotate.
  - destruct (listEmpty_spec m l ns Hr) as (m' & l' & E & Hr' & _ & _ & _ & Hdom).
    exists m', l', []. cbn [exec]. rewrite E. split; [done|]. split; [split; [done|]|].
    + rewrite Hdom, (proj2 Ho). cbn. set_solver.
    + change (zlen []) with 0. pose proof (zlen_nonneg ns). split; [done|lia].
Qed.

Lemma run_spec os : forall m l ns, owns m l ns -> zlen ns + zlen os <= ULLONG_MAX -> Forall index_ok os ->
  exists m' l' ns', run m l os = Some (m', l') /\ owns m' l' ns' /\ values ns' = foldl spec (values ns) os.
Proof.
  induction os as [|o os IH]; intros m l ns Ho Hmax Hi; [by exists m, l, ns|].
  rewrite zlen_cons in Hmax. pose proof (zlen_nonneg os). apply Forall_cons in Hi as [Hio Hi].
  destruct (exec_spec m l ns o Ho ltac:(lia) Hio) as (m1 & l1 & ns1 & E & Ho1 & Hv & Hz).
  destruct (IH m1 l1 ns1 Ho1 ltac:(lia) Hi) as (m' & l' & ns' & E' & Ho' & Hv').
  exists m', l', ns'. cbn [run foldl]. rewrite E. mrun. by rewrite <- Hv.
Qed.

(** C17: any sequence of insertions, deletions, rotations and clears of a new list,
    with enough memory, follows only valid pointers and represents the sequence
    the same calls give on plain sequences; the heap holds the nodes of the list
    and no other, so nothing leaks. *)
Theorem adlist_refines_sequence (os : list op) : zlen os <= ULLONG_MAX -> Forall index_ok os ->
  exists m l ns, run {| nodes := ∅; freed := [] |} listCreate os = Some (m, l) /\
    rep m l ns /\ values ns = foldl spec [] os /\ dom (nodes m) = list_to_set (locs ns).
Proof.
  intros Hz Hi. destruct (run_spec os {| nodes := ∅; freed := [] |} listCreate []) as (m & l & ns & E & [Hr Hd] & Hv); try done.
  - split; [|apply (dom_empty_L (D := gset loc))]. split; try done. constructor.
  - by exists m, l, ns.
Qed.

End Model.

(** ** A concrete allocator *)

Definition next_block (used : gset loc) : option loc := Some (Pos.succ (foldr Pos.max 1%positive (elements used))).

Lemma max_bound (l : list loc) p : p ∈ l -> (p <= foldr Pos.max 1 l)%positive.
Proof. induction l as [|q l IH]; [by intros ?%elem_of_nil|]. intros [->|Hp]%elem_of_cons; cbn; [lia|]. specialize (IH Hp). lia. Qed.

Lemma next_block_fresh used p : next_block used = Some p -> p ∉ used.
Proof.
  intros [= <-] Hin. apply elem_of_elements, max_bound in Hin.
  by apply Pos.le_succ_l, Pos.lt_irrefl in Hin.
Qed.

Definition next_allocator : Allocator := {| zmalloc := next_block; zmalloc_fresh := next_block_fresh |}.
#[local] Existing Instance next_allocator.

Lemma next_block_total used : zmalloc used <> None.
Proof. cbn. unfold next_block. discriminate. Qed.

(** The header, the values from the head, the values from the tail and the number
    of nodes after some calls. *)
Example adlist_examples :
  let r := run {| nodes := ∅; freed := [] |} listCreate
             [AddTail 1; AddTail 2; AddHead 0; Insert (-1) 9 false; Delete 1; RotateTailToHead; Insert 0 7 true] in
  ('(m, l) ← r; '(_, _, vs) ← iterate (fuel_of m) (fun _ => false) m l (listRewind l) []; Some vs) = Some [2; 7; 0; 9] /\
  ('(m, l) ← r; '(_, _, vs) ← iterate (fuel_of m) (fun v => v <? 5) m l (listRewindTail l) []; Some vs) = Some [9; 0; 7; 2] /\
  ('(m, l) ← r; '(m, l, _) ← iterate (fuel_of m) (fun v => v <? 5) m l (listRewind l) [];
   Some (len l, size (nodes m))) = Some (2, 2%nat) /\
  ('(m, l) ← r; '(m, c) ← listDup m l; c ← c; '(m, l, c) ← listJoin m l c;
   '(_, _, vs) ← iterate (fuel_of m) (fun _ => false) m l (listRewind l) []; Some (len l, len c, vs))
    = Some (8, 0, [2; 7; 0; 9; 2; 7; 0; 9]).
Proof. vm_compute. repeat split. Qed.

Lemma adlist_refines_sequence_witness :
  exists m l ns, run {| nodes := ∅; freed := [] |} listCreate [AddTail 1; AddHead 2; Delete (-1)] = Some (m, l) /\
    rep m l ns /\ values ns = [2] /\ dom (nodes m) = list_to_set (locs ns).
Proof.
  apply (adlist_refines_sequence next_block_total [AddTail 1; AddHead 2; Delete (-1)]).
  - vm_compute. discriminate.
  - repeat constructor.
Defined.

(** A list of one node at address 1. *)
Definition one_heap (v : Z) : mem :=
  {| nodes := {[ 1%positive := {| prev := None; next := None; value := v |} ]}; freed := [] |}.
Definition one_list : adlist (V := Z) := with_links listCreate (Some 1%positive) (Some 1%positive) 1.

Lemma one_node (v : Z) : rep (one_heap v) one_list [(1%positive, v)].
Proof.
  split; try done. apply NoDup_singleton.
Qed.

Lemma listIndex_listSearchKey_correct_witness :
  listIndex (one_heap 5) one_list (-1) = Some (Some 1%positive) /\
  listSearchKey (one_heap 5) one_list 5 = Some (Some 1%positive).
Proof.
  destruct (listIndex_listSearchKey_correct _ _ [(1%positive, 5)] (-1) 5 (one_node 5)) as [E1 E2].
  - vm_compute. reflexivity.
  - split; [refine (eq_trans E1 _)|refine (eq_trans E2 _)]; vm_compute; reflexivity.
Defined.

(** A second list, at address 2, in the same heap. *)
Definition two_heap : mem :=
  {| nodes := {[ 1%positive := {| prev := None; next := None; value := 5 |};
                 2%positive := {| prev := None; next := None; value := 6 |} ]}; freed := [] |}.
Definition other_list : adlist (V := Z) := with_links listCreate (Some 2%positive) (Some 2%positive) 1.

Lemma listJoin_correct_witness :
  exists m' l' o', listJoin two_heap one_list other_list = Some (m', l', o') /\
    rep m' l' [(1%positive, 5); (2%positive, 6)] /\ rep m' o' [].
Proof.
  destruct (listJoin_correct two_heap one_list other_list [(1%positive, 5)] [(2%positive, 6)])
    as (m' & l' & o' & E & Hl & Ho & _).
  - split; try done. apply NoDup_singleton.
  - split; try done. apply NoDup_singleton.
  - intros q ->%list_elem_of_singleton [=]%list_elem_of_singleton.
  - vm_compute. discriminate.
  - exists m', l', o'. by split.
Defined.

Lemma iteration_with_deletion_witness :
  exists m' l', iterate 2 (fun v => v =? 5) (one_heap 5) one_list
    (listGetIterator one_list AL_START_TAIL) []
    = Some (m', l', [5]) /\ rep m' l' [].
Proof.
  exact (iteration_with_deletion (fun v => v =? 5) _ _ [(1%positive, 5)] AL_START_TAIL (one_node 5)).
Defined.

Lemma listDup_correct_witness :
  exists m' r, listDup (one_heap 5) one_list = Some (m', r) /\
    rep m' one_list [(1%positive, 5)].
Proof.
  destruct (listDup_correct _ _ [(1%positive, 5)] (one_node 5)) as (m' & r & E & Hr & _). by exists m', r.
Defined.

End Adlist.
