(* ===== verification/Util.v ===== *)
(** * Integers and strings: src/redis5/src/util.c and sds.c

    [digits10], [sdigits10], [ll2string] (which fills the caller's buffer from
    the right, two digits at a time from a table), [string2ll], [string2l],
    [memtoll], and the formatting of sds.c ([sdsll2str], [sdsull2str],
    [sdsfromlonglong]), with what they use of the C library ([strtoll]).
    Characters are byte values; the decimal representation [dec] is the
    reference both directions are compared with. *)

From Stdlib Require Import String Ascii.
From S2P Require Import Prelude.

Module Util.

(** The bytes of a C string literal, without its terminator. *)
Definition cstr (s : string) : list Z :=
  map (fun a => Z.of_nat (nat_of_ascii a)) (list_ascii_of_string s).

Definition ch_0 := 48.
Definition ch_1 := 49.
Definition ch_9 := 57.
Definition ch_minus := 45.
Definition ch_plus := 43.

(** ** Lengths *)

Fixpoint digits10_loop (fuel : nat) (v : Z) : Z :=
  match fuel with
  | O => 0
  | S fuel =>
      if v <? 10 then 1
      else if v <? 100 then 2
      else if v <? 1000 then 3
      else if v <? 1000000000000 then
        if v <? 100000000 then
          if v <? 1000000 then
            if v <? 10000 then 4
            else 5 + (if v >=? 100000 then 1 else 0)
          else 7 + (if v >=? 10000000 then 1 else 0)
        else if v <? 10000000000 then 9 + (if v >=? 1000000000 then 1 else 0)
        else 11 + (if v >=? 100000000000 then 1 else 0)
      else 12 + digits10_loop fuel (v / 1000000000000)
  end.

(** A [uint64_t] is below 10^24, so the recursion is at most one level deep. *)
Definition digits10 (v : Z) : Z := digits10_loop 3 v.

Definition sdigits10 (v : Z) : Z :=
  if v <? 0 then
    let uv := if negb (v =? LLONG_MIN) then u64 (- v) else LLONG_MAX + 1 in
    digits10 uv + 1
  else digits10 v.

(** ** [ll2string] *)

Definition digits : list Z := cstr
  ("0001020304050607080910111213141516171819" ++
   "2021222324252627282930313233343536373839" ++
   "4041424344454647484950515253545556575859" ++
   "6061626364656667686970717273747576777879" ++
   "8081828384858687888990919293949596979899")%string.

(** [digits[i]] *)
Definition digit_at (i : Z) : option Z := zget digits i.

(** [while (value >= 100)] *)
Fixpoint ll2string_loop (fuel : nat) (dst : list Z) (value next : Z) : option (list Z * Z * Z) :=
  match fuel with
  | O => None
  | S fuel =>
      if value >=? 100 then
        let i := (value mod 100) * 2 in
        let value := value / 100 in
        hi ← digit_at (i + 1); dst ← put dst next hi;
        lo ← digit_at i; dst ← put dst (u32 (next - 1)) lo;
        ll2string_loop fuel dst value (u32 (next - 2))
      else Some (dst, value, next)
  end.

(** The length written (0 when the buffer is too small) and the buffer. *)
Definition ll2string (dst : list Z) (dstlen svalue : Z) : option (Z * list Z) :=
  let '(value, negative) :=
    if svalue <? 0 then
      ((if negb (svalue =? LLONG_MIN) then - svalue else LLONG_MAX + 1), 1)
    else (svalue, 0) in
  let length := u32 (digits10 value + negative) in
  if length >=? dstlen then Some (0, dst)
  else
    let next := length in
    dst ← put dst next 0;
    let next := u32 (next - 1) in
    '(dst, value, next) ← ll2string_loop 12 dst value next;
    dst ← (if value <? 10 then put dst next (ch_0 + value)
           else
             let i := value * 2 in
             hi ← digit_at (i + 1); dst ← put dst next hi;
             lo ← digit_at i; put dst (u32 (next - 1)) lo);
    dst ← (if negative =? 0 then Some dst else put dst 0 ch_minus);
    Some (length, dst).

(** ** [string2ll] *)

Definition isdigit (c : Z) : bool := (c >=? ch_0) && (c <=? ch_9).

(** The digit loop: [None] is the return on overflow, otherwise what is left of
    the string and the value. *)
Fixpoint string2ll_loop (p : list Z) (v : Z) : option (list Z * Z) :=
  match p with
  | [] => Some ([], v)
  | c :: p' =>
      if isdigit c then
        if v >? ULLONG_MAX / 10 then None
        else
          let v := u64 (v * 10) in
          if v >? ULLONG_MAX - (c - ch_0) then None
          else string2ll_loop p' (u64 (v + (c - ch_0)))
      else Some (p, v)
  end.

(** The parsed value, or [None] for the result 0. *)
Definition string2ll (s : list Z) : option Z :=
  match s with
  | [] => None
  | c :: rest =>
      if (zlen s =? 1) && (c =? ch_0) then Some 0
      else
        let negative := c =? ch_minus in
        let p := if negative then rest else s in
        match p with
        | [] => None
        | c :: p =>
            if (c >=? ch_1) && (c <=? ch_9) then
              '(p, v) ← string2ll_loop p (c - ch_0);
              match p with
              | _ :: _ => None
              | [] =>
                  if (negative : bool) then
                    if v >? LLONG_MAX + 1 then None else Some (s64 (u64 (- v)))
                  else if v >? LLONG_MAX then None else Some v
              end
            else None
        end
  end.

Definition LONG_MIN := LLONG_MIN.
Definition LONG_MAX := LLONG_MAX.

Definition string2l (s : list Z) : option Z :=
  llval ← string2ll s;
  if (llval <? LONG_MIN) || (llval >? LONG_MAX) then None else Some llval.

(** ** Printing in sds.c *)

(** [do { *p++ = '0' + (v % 10); v /= 10; } while (v);] *)
Fixpoint sds_digits (fuel : nat) (s : list Z) (p v : Z) : option (list Z * Z) :=
  match fuel with
  | O => None
  | S fuel =>
      s ← put s p (ch_0 + v mod 10);
      if v / 10 =? 0 then Some (s, p + 1) else sds_digits fuel s (p + 1) (v / 10)
  end.

(** [while (s < p) { swap; s++; p--; }] *)
Fixpoint sds_reverse (fuel : nat) (s : list Z) (i p : Z) : option (list Z) :=
  match fuel with
  | O => None
  | S fuel =>
      if i <? p then
        aux ← zget s i; y ← zget s p;
        s ← put s i y; s ← put s p aux;
        sds_reverse fuel s (i + 1) (p - 1)
      else Some s
  end.

(** The length and the buffer.  Negating [LLONG_MIN] overflows a [long long],
    which is undefined. *)
Definition sdsll2str (s : list Z) (value : Z) : option (Z * list Z) :=
  if value =? LLONG_MIN then None
  else
    let v := if value <? 0 then - value else value in
    '(s, p) ← sds_digits 20 s 0 v;
    '(s, p) ← (if value <? 0 then s ← put s p ch_minus; Some (s, p + 1) else Some (s, p));
    let l := p in
    s ← put s p 0;
    s ← sds_reverse 20 s 0 (p - 1);
    Some (l, s).

Definition sdsull2str (s : list Z) (v : Z) : option (Z * list Z) :=
  '(s, p) ← sds_digits 20 s 0 v;
  let l := p in
  s ← put s p 0;
  s ← sds_reverse 20 s 0 (p - 1);
  Some (l, s).

Definition SDS_LLSTR_SIZE := 21%nat.

(** [sdsnewlen] copies the first [len] bytes of the buffer. *)
Definition sdsfromlonglong (buf : list Z) (value : Z) : option (list Z) :=
  '(len, buf) ← sdsll2str buf value; mem_read buf 0 len.

(** ** [strtoll] of the C library, base 10 *)

Definition isspace (c : Z) : bool := (c =? 32) || (9 <=? c) && (c <=? 13).

Fixpoint skip_spaces (s : list Z) : Z * list Z :=
  match s with
  | c :: s' => if isspace c then let '(k, t) := skip_spaces s' in (k + 1, t) else (0, s)
  | [] => (0, [])
  end.

Fixpoint span_digits (s : list Z) (acc n : Z) : Z * Z :=
  match s with
  | c :: s' => if isdigit c then span_digits s' (acc * 10 + (c - ch_0)) (n + 1) else (acc, n)
  | [] => (acc, n)
  end.

Definition clamp64 (v : Z) : Z := Z.max LLONG_MIN (Z.min LLONG_MAX v).

(** The value, the offset of [endptr], and whether there were digits at all. *)
Definition strtoll (s : list Z) : Z * Z * bool :=
  let '(k, t) := skip_spaces s in
  let '(neg, k, t) :=
    match t with
    | c :: t' => if c =? ch_minus then (true, k + 1, t')
                 else if c =? ch_plus then (false, k + 1, t') else (false, k, t)
    | [] => (false, k, t)
    end in
  let '(v, n) := span_digits t 0 0 in
  if n =? 0 then (0, 0, false) else (clamp64 (if (neg : bool) then - v else v), k + n, true).

Fixpoint strlen (s : list Z) : option Z :=
  match s with
  | [] => None
  | c :: s => if c =? 0 then Some 0 else n ← strlen s; Some (n + 1)
  end.

(** [tolower] of the C locale. *)
Definition tolower (c : Z) : Z := if (65 <=? c) && (c <=? 90) then c + 32 else c.

(** ** [memtoll] *)

(** [strcasecmp(a, b) == 0] on the characters before the terminators. *)
Definition strcaseeq (a b : list Z) : bool := bool_decide (tolower <$> a = tolower <$> b).

Fixpoint drop_digits (s : list Z) : list Z :=
  match s with
  | c :: s' => if isdigit c then drop_digits s' else s
  | [] => []
  end.

Definition unit_multiplier (u : list Z) : option Z :=
  if bool_decide (u = []) || strcaseeq u (cstr "b") then Some 1
  else if strcaseeq u (cstr "k") then Some 1000
  else if strcaseeq u (cstr "kb") then Some 1024
  else if strcaseeq u (cstr "m") then Some (1000 * 1000)
  else if strcaseeq u (cstr "mb") then Some (1024 * 1024)
  else if strcaseeq u (cstr "g") then Some (1000 * 1000 * 1000)
  else if strcaseeq u (cstr "gb") then Some (1024 * 1024 * 1024)
  else None.

(** The value and the error flag.  [einval] is whether the C library sets
    EINVAL when there is nothing to convert; a product that does not fit a
    [long long] is undefined. *)
Definition memtoll (einval : bool) (p : list Z) : option (Z * bool) :=
  let u := match p with c :: p' => if c =? ch_minus then p' else p | [] => p end in
  let u := drop_digits u in
  match unit_multiplier u with
  | None => Some (0, true)
  | Some mul =>
      let digits := zlen p - zlen u in
      if digits >=? 128 then Some (0, true)
      else
        let buf := take (Z.to_nat digits) p ++ [0] in
        let '(val, endptr, converted) := strtoll buf in
        e ← zget buf endptr;
        if (val =? 0) && (negb converted && einval) || negb (e =? 0) then Some (0, true)
        else if (LLONG_MIN <=? val * mul) && (val * mul <=? LLONG_MAX) then Some (val * mul, false)
        else None
  end.

(** ** The reference: decimal representation *)

Fixpoint udec_fuel (fuel : nat) (n : Z) : list Z :=
  match fuel with
  | O => []
  | S fuel => if n <? 10 then [ch_0 + n] else udec_fuel fuel (n / 10) ++ [ch_0 + n mod 10]
  end.
Definition udec (n : Z) : list Z := udec_fuel 20 n.
Definition dec (v : Z) : list Z := if v <? 0 then ch_minus :: udec (- v) else udec v.

(** The value of a string of digits. *)
Definition dval (acc : Z) (ds : list Z) : Z := foldl (fun v c => v * 10 + (c - ch_0)) acc ds.

Lemma dval_app acc a b : dval acc (a ++ b) = dval (dval acc a) b.
Proof. apply foldl_app. Qed.

Definition is_digits (ds : list Z) : Prop := Forall (fun c => ch_0 <= c <= ch_9) ds.

Definition UMAX := 10 ^ 20.

Lemma udec_fuel_S f n :
  udec_fuel (S f) n = if n <? 10 then [ch_0 + n] else udec_fuel f (n / 10) ++ [ch_0 + n mod 10].
Proof. reflexivity. Qed.

Lemma udec_fuel_succ f : forall n, (1 <= f)%nat -> 0 <= n < 10 ^ Z.of_nat f ->
  udec_fuel (S f) n = udec_fuel f n.
Proof.
  induction f as [|f IH]; intros n Hf Hn; [lia|].
  rewrite (udec_fuel_S (S f) n), (udec_fuel_S f n).
  destruct (Z.ltb_spec n 10) as [|Hge]; [done|].
  destruct f as [|f]; [change (10 ^ Z.of_nat 1) with 10 in Hn; lia|].
  rewrite IH; [done|lia|]. rewrite Nat2Z.inj_succ, Z.pow_succ_r in Hn by lia.
  split; [apply Z.div_pos; lia|apply Z.div_lt_upper_bound; lia].
Qed.

Lemma udec_small n : 0 <= n < 10 -> udec n = [ch_0 + n].
Proof. intros Hn. unfold udec. cbn [udec_fuel]. by zif_true. Qed.

Lemma udec_step n : 10 <= n < UMAX -> udec n = udec (n / 10) ++ [ch_0 + n mod 10].
Proof.
  intros Hn. unfold udec, UMAX in *.
  rewrite (udec_fuel_S 19 n), (udec_fuel_succ 19 (n / 10)).
  - by zif_false.
  - lia.
  - split; [apply Z.div_pos; lia|apply Z.div_lt_upper_bound; [lia|]].
    change (10 * 10 ^ Z.of_nat 19) with (10 ^ 20). lia.
Qed.
#[local] Opaque udec.

Lemma div_UMAX n d : 0 < d -> 0 <= n < UMAX -> 0 <= n / d < UMAX.
Proof.
  intros Hd Hn. split; [apply Z.div_pos; lia|].
  apply Z.div_lt_upper_bound; [lia|]. nia.
Qed.

(** Induction over the decimal digits of a number. *)
Lemma dec_ind (P : Z -> Prop) :
  (forall n, 0 <= n < 10 -> P n) ->
  (forall n, 10 <= n < UMAX -> P (n / 10) -> P n) -> forall n, 0 <= n < UMAX -> P n.
Proof.
  intros Hs Hr n. induction n as [n IH] using (well_founded_induction (Z.lt_wf 0)).
  intros Hn. destruct (Z.lt_ge_cases n 10) as [|Hge]; [apply Hs; lia|].
  apply Hr; [lia|]. apply IH; [|by apply div_UMAX; [lia|]].
  split; [apply Z.div_pos; lia|apply Z.div_lt; lia].
Qed.

Lemma mod10 n : 0 <= n mod 10 < 10.
Proof. apply Z.mod_pos_bound. lia. Qed.

Lemma udec_digits n : 0 <= n < UMAX -> is_digits (udec n).
Proof.
  apply (dec_ind (fun n => is_digits (udec n))); clear n.
  - intros n Hn. rewrite udec_small by done. constructor; [|constructor]. unfold ch_0, ch_9. lia.
  - intros n Hn IH. rewrite udec_step by done. apply Forall_app. split; [done|].
    constructor; [|constructor]. pose proof (mod10 n). unfold ch_0, ch_9. lia.
Qed.

Lemma udec_val n : 0 <= n < UMAX -> dval 0 (udec n) = n.
Proof.
  apply (dec_ind (fun n => dval 0 (udec n) = n)); clear n.
  - intros n Hn. rewrite udec_small by done. unfold dval; simpl. lia.
  - intros n Hn IH. rewrite udec_step by done. rewrite dval_app, IH. unfold dval; simpl.
    pose proof (Z.div_mod n 10). lia.
Qed.

(** No leading zero, except in the representation of zero itself. *)
Lemma udec_head n : 0 <= n < UMAX ->
  exists c ds, udec n = c :: ds /\ (if n =? 0 then c = ch_0 /\ ds = [] else ch_1 <= c <= ch_9).
Proof.
  apply (dec_ind (fun n => exists c ds, udec n = c :: ds /\
    (if n =? 0 then c = ch_0 /\ ds = [] else ch_1 <= c <= ch_9))); clear n.
  - intros n Hn. rewrite udec_small by done. eexists _, _. split; [done|].
    unfold ch_0, ch_1, ch_9. zcase; [split; [lia|done]|lia].
  - intros n Hn (c & ds & E & Hc). rewrite udec_step, E by done.
    exists c, (ds ++ [ch_0 + n mod 10]). split; [done|].
    destruct (Z.eqb_spec (n / 10) 0) as [H0|H0].
    + exfalso. pose proof (Z.div_mod n 10). pose proof (mod10 n). lia.
    + by zif_false.
Qed.

Lemma dval_nonneg ds : forall acc, 0 <= acc -> is_digits ds -> acc <= dval acc ds.
Proof.
  induction ds as [|c ds IH]; intros acc Ha Hd; [unfold dval; simpl; lia|].
  apply Forall_cons in Hd as [Hc Hd]. unfold dval in *. simpl. unfold ch_0, ch_9 in *.
  specialize (IH (acc * 10 + (c - 48)) ltac:(lia) Hd). lia.
Qed.

(** A digit string without a leading zero is the representation of its value. *)
Lemma udec_of_digits ds : forall c, ch_1 <= c <= ch_9 -> is_digits ds ->
  dval 0 (c :: ds) < UMAX -> udec (dval 0 (c :: ds)) = c :: ds.
Proof.
  induction ds as [|d ds IH] using rev_ind; intros c Hc Hd Hv.
  - unfold dval in *; simpl in *. unfold ch_0, ch_1, ch_9 in *. rewrite udec_small by lia.
    f_equal. unfold ch_0. lia.
  - apply Forall_app in Hd as [Hds Hd]. rewrite Forall_singleton in Hd.
    specialize (IH c Hc Hds). rewrite app_comm_cons, dval_app in Hv |- *.
    set (m := dval 0 (c :: ds)) in *.
    assert (Hm : 1 <= m).
    { unfold m. change (dval 0 (c :: ds)) with (dval (0 * 10 + (c - ch_0)) ds).
      pose proof (dval_nonneg ds (0 * 10 + (c - ch_0))) as H. unfold ch_0, ch_1 in *.
      specialize (H ltac:(lia) Hds). lia. }
    change (dval m [d]) with (m * 10 + (d - ch_0)) in *. specialize (IH ltac:(lia)). clearbody m.
    unfold ch_0, ch_9 in Hd, Hv |- *. rewrite udec_step by lia.
    replace (m * 10 + (d - 48)) with (d - 48 + m * 10) by lia.
    rewrite Z.div_add, Z.div_small, Z.mod_add, Z.mod_small by lia.
    change (0 + m) with m. rewrite IH. unfold ch_0. by replace (48 + (d - 48)) with d by lia.
Qed.

(** *** Lengths *)

Definition ndigits (n : Z) : Z := zlen (udec n).

Lemma ndigits_small n : 0 <= n < 10 -> ndigits n = 1.
Proof. intros. unfold ndigits. by rewrite udec_small. Qed.

Lemma ndigits_step n : 10 <= n < UMAX -> ndigits n = ndigits (n / 10) + 1.
Proof. intros. unfold ndigits. rewrite udec_step, zlen_app by done. done. Qed.

Lemma ndigits_range k : forall n, 10 ^ Z.of_nat k <= n < 10 ^ (Z.of_nat k + 1) -> n < UMAX ->
  ndigits n = Z.of_nat k + 1.
Proof.
  induction k as [|k IH]; intros n Hn Hu.
  - change (10 ^ Z.of_nat 0) with 1 in Hn. change (10 ^ (Z.of_nat 0 + 1)) with 10 in Hn.
    rewrite ndigits_small by lia. done.
  - rewrite Nat2Z.inj_succ in Hn. unfold Z.succ in Hn.
    rewrite !Z.pow_add_r, Z.pow_1_r in Hn by lia.
    pose proof (Z.pow_pos_nonneg 10 (Z.of_nat k) ltac:(lia) ltac:(lia)).
    rewrite ndigits_step by lia. rewrite IH; [lia| |].
    + rewrite Z.pow_add_r, Z.pow_1_r by lia.
      split; [apply Z.div_le_lower_bound; lia|apply Z.div_lt_upper_bound; lia].
    + apply div_UMAX; lia.
Qed.

Lemma ndigits_shift n j : 0 <= n < UMAX -> 10 ^ Z.of_nat j <= n ->
  ndigits n = ndigits (n / 10 ^ Z.of_nat j) + Z.of_nat j.
Proof.
  revert n. induction j as [|j IH]; intros n Hn Hj.
  - change (10 ^ Z.of_nat 0) with 1. rewrite Z.div_1_r. lia.
  - rewrite Nat2Z.inj_succ, Z.pow_succ_r in * by lia.
    pose proof (Z.pow_pos_nonneg 10 (Z.of_nat j) ltac:(lia) ltac:(lia)).
    rewrite ndigits_step by lia. rewrite <- Z.div_div by lia.
    rewrite IH; [lia|apply div_UMAX; lia|apply Z.div_le_lower_bound; lia].
Qed.

Ltac ndig k := rewrite (ndigits_range k) by
  (unfold UMAX in *; rewrite ?Z.pow_add_r by lia; simpl (Z.of_nat _); simpl in *; lia).

Lemma digits10_loop_small fuel v : 0 <= v < 1000000000000 ->
  digits10_loop (S fuel) v = ndigits v.
Proof.
  intros Hv. cbn [digits10_loop]. rewrite !Z.geb_leb. unfold UMAX in *.
  repeat zcase; symmetry;
    first [rewrite ndigits_small by lia; lia | ndig 1%nat; lia | ndig 2%nat; lia | ndig 3%nat; lia
          | ndig 4%nat; lia | ndig 5%nat; lia | ndig 6%nat; lia | ndig 7%nat; lia | ndig 8%nat; lia
          | ndig 9%nat; lia | ndig 10%nat; lia | ndig 11%nat; lia | lia].
Qed.

Lemma digits10_spec v : in_u64 v -> digits10 v = ndigits v.
Proof.
  intros Hv. unfold in_u64, ULLONG_MAX in Hv. unfold digits10.
  destruct (Z.lt_ge_cases v 1000000000000) as [Hlt|Hge].
  { apply digits10_loop_small. lia. }
  change (digits10_loop 3 v) with
    (if v <? 10 then 1 else if v <? 100 then 2 else if v <? 1000 then 3
     else if v <? 1000000000000 then
        if v <? 100000000 then
          if v <? 1000000 then
            if v <? 10000 then 4
            else 5 + (if v >=? 100000 then 1 else 0)
          else 7 + (if v >=? 10000000 then 1 else 0)
        else if v <? 10000000000 then 9 + (if v >=? 1000000000 then 1 else 0)
        else 11 + (if v >=? 100000000000 then 1 else 0)
     else 12 + digits10_loop 2 (v / 1000000000000)).
  do 4 zif_false. rewrite digits10_loop_small.
  - rewrite (ndigits_shift v 12) by (unfold UMAX; simpl; lia).
    change (10 ^ Z.of_nat 12) with 1000000000000. lia.
  - split; [apply Z.div_pos; lia|apply Z.div_lt_upper_bound; lia].
Qed.

(** *** [ll2string] *)

Lemma ndigits_pos n : 0 <= n < UMAX -> 1 <= ndigits n.
Proof.
  intros Hn. destruct (udec_head n Hn) as (c & ds & E & _). unfold ndigits.
  rewrite E, zlen_cons. pose proof (zlen_nonneg ds). lia.
Qed.

(** The table holds the two decimal digits of every number below 100. *)
Lemma digit_table r : 0 <= r < 100 ->
  digit_at (r * 2) = Some (ch_0 + r / 10) /\ digit_at (r * 2 + 1) = Some (ch_0 + r mod 10).
Proof.
  intros Hr.
  refine (bool_decide_eq_true_1 _ (forall_below (fun r => bool_decide
    (digit_at (r * 2) = Some (ch_0 + r / 10) /\ digit_at (r * 2 + 1) = Some (ch_0 + r mod 10)))
    100 _ r Hr)).
  vm_compute. reflexivity.
Qed.

Lemma udec_two n : 100 <= n < UMAX ->
  udec n = udec (n / 100) ++ [ch_0 + n mod 100 / 10; ch_0 + n mod 100 mod 10].
Proof.
  intros Hn. rewrite udec_step by lia.
  assert (10 <= n / 10) by (apply Z.div_le_lower_bound; lia).
  pose proof (div_UMAX n 10 ltac:(lia) ltac:(lia)).
  rewrite (udec_step (n / 10)), Z.div_div, <- app_assoc by lia. simpl.
  pose proof (Z.div_mod n 100 ltac:(lia)). pose proof (Z.mod_pos_bound n 100 ltac:(lia)).
  replace (n mod 100 / 10) with ((n / 10) mod 10) by (Z.div_mod_to_equations; lia).
  by replace (n mod 100 mod 10) with (n mod 10) by (Z.div_mod_to_equations; lia).
Qed.

(** The last two cells of a buffer prefix. *)
Lemma last_two (pre : list Z) : 2 <= zlen pre -> exists p x y, pre = p ++ [x; y].
Proof.
  intros H. destruct pre as [|y pre _] using rev_ind; [rewrite zlen_nil in H; lia|].
  destruct pre as [|x pre _] using rev_ind; [unfold zlen in H; simpl in H; lia|].
  exists pre, x, y. by rewrite <- app_assoc.
Qed.

Lemma put_two p x y post v next : 0 <= v < 100 -> next = zlen p + 1 -> next < 4294967296 ->
  (hi ← digit_at (v * 2 + 1); dst ← put ((p ++ [x; y]) ++ post) next hi;
   lo ← digit_at (v * 2); put dst (u32 (next - 1)) lo)
  = Some (p ++ [ch_0 + v / 10; ch_0 + v mod 10] ++ post).
Proof.
  intros Hv -> Hn. destruct (digit_table v Hv) as [-> ->]. mrun.
  pose proof (zlen_nonneg p). rewrite u32_id by lia.
  replace ((p ++ [x; y]) ++ post) with ((p ++ [x]) ++ y :: post) by (by rewrite <- !app_assoc).
  rewrite put_app by (rewrite zlen_app; reflexivity). mrun.
  rewrite <- app_assoc. simpl. rewrite put_app by lia. reflexivity.
Qed.

Lemma ll2string_loop_spec fuel : forall pre post value next,
  0 <= value < 100 ^ Z.of_nat fuel -> (1 <= fuel)%nat -> value < UMAX ->
  next = zlen pre - 1 -> next < 4294967296 -> ndigits value <= zlen pre ->
  exists pre' suf v,
    ll2string_loop fuel (pre ++ post) value next = Some (pre' ++ suf ++ post, v, zlen pre' - 1) /\
    udec value = udec v ++ suf /\ 0 <= v < 100 /\ zlen pre' + zlen suf = zlen pre.
Proof.
  induction fuel as [|fuel IH]; intros pre post value next Hv Hf Hu Hnext Hb Hd; [lia|].
  cbn [ll2string_loop]. rewrite Z.geb_leb. destruct (Z.leb_spec 100 value) as [Hge|Hlt].
  2: { exists pre, [], value. rewrite Hnext, (@zlen_nil Z), app_nil_r.
       split; [done|]. split; [done|]. lia. }
  rewrite Nat2Z.inj_succ, Z.pow_succ_r in Hv by lia.
  pose proof (Z.mod_pos_bound value 100 ltac:(lia)).
  pose proof (div_UMAX value 100 ltac:(lia) ltac:(lia)) as Hq.
  pose proof (ndigits_pos _ Hq) as Hq1. unfold ndigits in Hd, Hq1. rewrite udec_two in Hd by lia.
  rewrite zlen_app, !zlen_cons, (@zlen_nil Z) in Hd.
  destruct (last_two pre ltac:(lia)) as (p & x & y & ->).
  rewrite zlen_app, !zlen_cons, (@zlen_nil Z) in Hnext, Hd.
  destruct (IH p ([ch_0 + value mod 100 / 10; ch_0 + value mod 100 mod 10] ++ post)
              (value / 100) (zlen p - 1)) as (p' & suf & v & E & Hudec & Hv' & Hlen); try lia.
  { split; [apply Z.div_pos; lia|apply Z.div_lt_upper_bound; lia]. }
  { destruct fuel; [change (100 * 100 ^ Z.of_nat 0) with 100 in Hv|]; lia. }
  { unfold ndigits. lia. }
  exists p', (suf ++ [ch_0 + value mod 100 / 10; ch_0 + value mod 100 mod 10]), v.
  split; [|split; [rewrite udec_two, Hudec by lia; by rewrite app_assoc|]].
  2: { rewrite !zlen_app, !zlen_cons, (@zlen_nil Z). split; lia. }
  rewrite <- (app_assoc suf), <- E.
  pose proof (put_two p x y post (value mod 100) next ltac:(lia) ltac:(lia) ltac:(lia)) as Hp.
  revert Hp. destruct (digit_at (value mod 100 * 2 + 1)); mrun; [|discriminate].
  destruct (put _ next z) as [dst|]; mrun; [|discriminate].
  destruct (digit_at (value mod 100 * 2)); mrun; [|discriminate]. intros ->. mrun.
  f_equal. rewrite u32_id by lia. lia.
Qed.

(** The sign of a representation. *)
Definition sign (v : Z) : list Z := if v <? 0 then [ch_minus] else [].

Lemma dec_sign v : dec v = sign v ++ udec (Z.abs v).
Proof.
  unfold dec, sign. destruct (Z.ltb_spec v 0).
  - by rewrite Z.abs_neq by lia.
  - by rewrite Z.abs_eq by lia.
Qed.

Lemma abs_UMAX v : in_s64 v -> in_u64 (Z.abs v) /\ 0 <= Z.abs v < UMAX.
Proof.
  unfold in_s64, in_u64, LLONG_MIN, LLONG_MAX, ULLONG_MAX. intros Hv.
  change UMAX with 100000000000000000000. lia.
Qed.

Lemma ndigits_le k n : (k <= 19)%nat -> 0 <= n < 10 ^ (Z.of_nat k + 1) -> ndigits n <= Z.of_nat k + 1.
Proof.
  intros Hk Hn. assert (Hu : n < UMAX).
  { apply Z.lt_le_trans with (10 ^ (Z.of_nat k + 1)); [lia|]. apply Z.pow_le_mono_r; lia. }
  induction k as [|k IH]; [rewrite ndigits_small by (change (10 ^ (Z.of_nat 0 + 1)) with 10 in Hn; lia); lia|].
  destruct (Z.lt_ge_cases n (10 ^ (Z.of_nat k + 1))) as [|Hg]; [specialize (IH ltac:(lia)); lia|].
  rewrite (ndigits_range (S k)); [lia| |lia].
  rewrite Nat2Z.inj_succ in *. unfold Z.succ in *. lia.
Qed.

Lemma ndigits_le_20 n : 0 <= n < UMAX -> ndigits n <= 20.
Proof. intros Hn. apply (ndigits_le 19); [lia|done]. Qed.

Lemma dec_zlen v : in_s64 v -> 1 <= zlen (dec v) <= 20.
Proof.
  intros Hv. destruct (abs_UMAX v Hv) as [_ Hu]. rewrite dec_sign, zlen_app. fold (ndigits (Z.abs v)).
  pose proof (ndigits_pos _ Hu). assert (ndigits (Z.abs v) <= 19).
  { apply (ndigits_le 18); [lia|]. unfold in_s64, LLONG_MIN, LLONG_MAX in Hv.
    change (10 ^ (Z.of_nat 18 + 1)) with 10000000000000000000. lia. }
  unfold sign. destruct (v <? 0); unfold zlen; simpl; lia.
Qed.

(** The last one or two digits and the sign. *)
Definition ll2string_tail (dst : list Z) (value next negative : Z) : option (list Z) :=
  dst ← (if value <? 10 then put dst next (ch_0 + value)
         else
           let i := value * 2 in
           hi ← digit_at (i + 1); dst ← put dst next hi;
           lo ← digit_at i; put dst (u32 (next - 1)) lo);
  if negative =? 0 then Some dst else put dst 0 ch_minus.

Lemma sign_put v sg rest : zlen sg = zlen (sign v) ->
  (if (if v <? 0 then 1 else 0) =? 0 then Some (sg ++ rest) else put (sg ++ rest) 0 ch_minus)
  = Some (sign v ++ rest).
Proof.
  unfold sign. destruct (Z.ltb_spec v 0); simpl; intros Hl.
  - destruct sg as [|x [|]]; try (unfold zlen in Hl; simpl in Hl; lia).
    exact (put_app [] x rest ch_minus 0 eq_refl).
  - destruct sg; [done|unfold zlen in Hl; simpl in Hl; lia].
Qed.

Lemma ll2string_tail_spec pre rest value v :
  0 <= value < 100 -> zlen pre = zlen (sign v) + ndigits value ->
  ll2string_tail (pre ++ rest) value (zlen pre - 1) (if v <? 0 then 1 else 0)
  = Some (sign v ++ udec value ++ rest).
Proof.
  intros Hv Hl. unfold ll2string_tail.
  assert (zlen (sign v) <= 1) by (unfold sign; zcase; unfold zlen; simpl; lia).
  pose proof (zlen_nonneg (sign v)).
  destruct (Z.ltb_spec value 10) as [Hlt|Hge].
  - rewrite ndigits_small in Hl by lia. rewrite udec_small by lia.
    destruct pre as [|x pre _] using rev_ind; [rewrite zlen_nil in Hl; lia|].
    rewrite zlen_app in *. change (zlen [x]) with 1 in *. rewrite <- app_assoc. simpl.
    rewrite put_app by lia. mrun. apply sign_put. lia.
  - assert (Hn : udec value = [ch_0 + value / 10; ch_0 + value mod 10]).
    { rewrite udec_step by (change UMAX with 100000000000000000000; lia).
      rewrite udec_small; [done|]. split; [apply Z.div_pos; lia|apply Z.div_lt_upper_bound; lia]. }
    unfold ndigits in Hl. rewrite Hn in Hl |- *. rewrite !zlen_cons, (@zlen_nil Z) in Hl.
    destruct (last_two pre ltac:(lia)) as (p & x & y & ->).
    rewrite zlen_app, !zlen_cons, (@zlen_nil Z) in *. cbv zeta.
    rewrite put_two by lia. mrun. apply sign_put. lia.
Qed.

Lemma ll2string_unfold dst dstlen v : in_s64 v ->
  ll2string dst dstlen v =
    (let length := zlen (dec v) in
     if length >=? dstlen then Some (0, dst)
     else dst ← put dst length 0;
          '(dst, value, next) ← ll2string_loop 12 dst (Z.abs v) (length - 1);
          dst ← ll2string_tail dst value next (if v <? 0 then 1 else 0);
          Some (length, dst)).
Proof.
  intros Hv. destruct (abs_UMAX v Hv) as [H64 Hu]. unfold in_s64 in Hv. unfold ll2string.
  assert (Hlen : zlen (dec v) = digits10 (Z.abs v) + (if v <? 0 then 1 else 0)).
  { rewrite digits10_spec, dec_sign, zlen_app by done. unfold sign, ndigits.
    destruct (v <? 0); unfold zlen; simpl; lia. }
  pose proof (ndigits_pos _ Hu). pose proof (ndigits_le_20 _ Hu). rewrite <- digits10_spec in * by done.
  replace (if v <? 0 then _ else _) with (Z.abs v, if v <? 0 then 1 else 0).
  - rewrite Hlen. assert (0 <= (if v <? 0 then 1 else 0) <= 1) by (destruct (v <? 0); lia).
    rewrite u32_id by lia. cbv zeta. destruct (_ >=? dstlen); [done|].
    destruct (put _ _ 0) as [d|]; mrun; [|done]. rewrite u32_id by lia.
    destruct (ll2string_loop _ _ _ _) as [[[d' w] nx]|]; mrun; [|done].
    unfold ll2string_tail. cbv zeta. destruct (if w <? 10 then _ else _); mrun; done.
  - unfold LLONG_MIN, LLONG_MAX in *. repeat zcase; f_equal; lia.
Qed.

Lemma ll2string_spec dst dstlen v : in_s64 v -> dstlen <= zlen dst ->
  ll2string dst dstlen v = Some (
    if zlen (dec v) >=? dstlen then (0, dst)
    else (zlen (dec v), dec v ++ 0 :: drop (S (length (dec v))) dst)).
Proof.
  intros Hv Hd. destruct (abs_UMAX v Hv) as [H64 Hu]. rewrite ll2string_unfold by done. cbv zeta.
  rewrite Z.geb_leb. destruct (Z.leb_spec dstlen (zlen (dec v))) as [|Hlt]; [done|].
  destruct (split_at dst (length (dec v))) as (a & [|x c] & -> & Ha); [unfold zlen in *; lia| |].
  { rewrite app_nil_r in Hd. unfold zlen in *. lia. }
  rewrite put_app by (unfold zlen; lia). mrun.
  destruct (ll2string_loop_spec 12 a (0 :: c) (Z.abs v) (zlen (dec v) - 1))
    as (pre & suf & w & E & Hudec & Hw & Hl).
  all: try (unfold zlen; lia).
  { change (100 ^ Z.of_nat 12) with (UMAX * 10000). unfold UMAX in *. lia. }
  { pose proof (ndigits_le_20 _ Hu) as Hn. rewrite dec_sign, zlen_app. unfold ndigits in Hn.
    unfold sign. destruct (v <? 0); unfold zlen in *; simpl; lia. }
  { replace (zlen a) with (zlen (dec v)) by (unfold zlen; lia). rewrite dec_sign, zlen_app.
    unfold ndigits. pose proof (zlen_nonneg (sign v)). lia. }
  rewrite E. mrun. rewrite ll2string_tail_spec; [|done|].
  - mrun. do 2 f_equal. rewrite (app_assoc (udec w)), <- Hudec, app_assoc, <- dec_sign.
    rewrite <- Ha. do 2 f_equal. rewrite drop_app_ge by lia.
    by replace (S (length a) - length a)%nat with 1%nat by lia.
  - assert (Hz : zlen a = zlen (dec v)) by (unfold zlen; lia).
    rewrite Hz, dec_sign, Hudec, !zlen_app in Hl. unfold ndigits. lia.
Qed.

(** *** [string2ll] *)

(** The overflow tests refuse exactly the values above [ULLONG_MAX]. *)
Lemma string2ll_loop_spec p : forall v w, in_u64 v ->
  string2ll_loop p v = Some ([], w) <-> is_digits p /\ w = dval v p /\ w <= ULLONG_MAX.
Proof.
  induction p as [|c p IH]; intros v w Hv; cbn [string2ll_loop].
  { unfold in_u64 in Hv. split; [|intros (_ & -> & _); reflexivity].
    intros [= <-]. split; [constructor|]. split; [reflexivity|lia]. }
  unfold is_digits. rewrite Forall_cons. fold (is_digits p). unfold isdigit.
  change (dval v (c :: p)) with (dval (v * 10 + (c - ch_0)) p).
  pose proof (dval_nonneg p (v * 10 + (c - ch_0))) as Hge.
  unfold in_u64, ULLONG_MAX, ch_0, ch_9 in *.
  change (18446744073709551615 / 10) with 1844674407370955161.
  zcase; [|split; [discriminate|lia]]. zcase; [split; [discriminate|]|].
  { intros ((Hc & Hp) & -> & Hm). specialize (Hge ltac:(lia) Hp). lia. }
  rewrite (u64_id (v * 10)) by (unfold in_u64, ULLONG_MAX; lia). zcase; [split; [discriminate|]|].
  { intros ((Hc & Hp) & -> & Hm). specialize (Hge ltac:(lia) Hp). lia. }
  rewrite u64_id by (unfold in_u64, ULLONG_MAX; lia). rewrite IH by lia. intuition lia.
Qed.

Lemma string2ll_loop_all p v w : in_u64 v -> is_digits p -> w = dval v p -> w <= ULLONG_MAX ->
  string2ll_loop p v = Some ([], w).
Proof. intros. by apply string2ll_loop_spec. Qed.

(** What follows the optional sign. *)
Definition parse_tail (negative : bool) (p : list Z) : option Z :=
  match p with
  | [] => None
  | c :: p =>
      if (c >=? ch_1) && (c <=? ch_9) then
        '(p, v) ← string2ll_loop p (c - ch_0);
        match p with
        | _ :: _ => None
        | [] =>
            if (negative : bool) then
              if v >? LLONG_MAX + 1 then None else Some (s64 (u64 (- v)))
            else if v >? LLONG_MAX then None else Some v
        end
      else None
  end.

Lemma parse_tail_spec neg p v :
  parse_tail neg p = Some v <->
  in_s64 v /\ p = udec (Z.abs v) /\ (if neg then v < 0 else 0 < v).
Proof.
  split.
  - destruct p as [|c p]; [discriminate|]. cbn [parse_tail]. zcase; [|discriminate].
    assert (Hc : in_u64 (c - ch_0)) by (unfold in_u64, ULLONG_MAX, ch_0, ch_1, ch_9 in *; lia).
    destruct (string2ll_loop p (c - ch_0)) as [[[|] w]|] eqn:E; mrun; try discriminate.
    apply string2ll_loop_spec in E as (Hd & Hw & Hmax); [|done].
    pose proof (dval_nonneg p (c - ch_0) (proj1 Hc) Hd) as Hpos. rewrite <- Hw in Hpos.
    assert (Hp : udec w = c :: p).
    { rewrite Hw. apply (udec_of_digits p c); [lia|done|]. change (dval 0 (c :: p)) with (dval (c - ch_0) p).
      rewrite <- Hw. unfold ULLONG_MAX in Hmax. change UMAX with 100000000000000000000. lia. }
    unfold in_s64, LLONG_MIN, LLONG_MAX, ch_0, ch_1 in *. destruct neg; zcase; try discriminate; intros [= <-].
    + rewrite sN_uN by lia. rewrite Z.abs_neq by lia.
      rewrite Z.opp_involutive. split; [lia|]. split; [done|lia].
    + rewrite Z.abs_eq by lia. split; [lia|]. split; [done|lia].
  - intros (Hv & -> & Hneg). destruct (abs_UMAX v Hv) as [H64 Hu].
    assert (Hnz : Z.abs v <> 0) by (destruct neg; lia).
    destruct (udec_head _ Hu) as (c & ds & E & Hc). apply Z.eqb_neq in Hnz. rewrite Hnz in Hc.
    pose proof (udec_digits _ Hu) as Hd. pose proof (udec_val _ Hu) as Hval. rewrite E in Hd, Hval |- *.
    change (dval 0 (c :: ds)) with (dval (c - ch_0) ds) in Hval. apply Forall_cons in Hd as [_ Hd].
    cbn [parse_tail]. zif_true. unfold in_u64, in_s64, ULLONG_MAX, LLONG_MIN, LLONG_MAX, ch_0, ch_1, ch_9 in *.
    rewrite (string2ll_loop_all ds _ (Z.abs v)); [|unfold in_u64, ULLONG_MAX, ch_0; lia|done|done|unfold ULLONG_MAX; lia].
    mrun. destruct neg; zif_false; f_equal; [|lia].
    rewrite sN_uN; lia.
Qed.

Lemma string2ll_unfold s :
  string2ll s = if bool_decide (s = [ch_0]) then Some 0
                else if bool_decide (head s = Some ch_minus) then parse_tail true (tail s)
                else parse_tail false s.
Proof.
  destruct s as [|c rest]; [done|]. cbn [string2ll head tail]. rewrite zlen_cons.
  pose proof (zlen_nonneg rest).
  destruct (decide (c :: rest = [ch_0])) as [E|E].
  - injection E as -> ->. reflexivity.
  - rewrite (bool_decide_eq_false_2 (c :: rest = [ch_0])) by done.
    replace ((1 + zlen rest =? 1) && (c =? ch_0)) with false.
    + destruct (Z.eqb_spec c ch_minus) as [->|Hm]; [done|].
      by rewrite bool_decide_eq_false_2 by congruence.
    + symmetry. apply andb_false_iff. rewrite !Z.eqb_neq. destruct rest; [right|left].
      * congruence.
      * rewrite zlen_cons in *. pose proof (zlen_nonneg rest). lia.
Qed.

Lemma dec_cases v : in_s64 v ->
  (v = 0 /\ dec v = [ch_0]) \/ (v < 0 /\ dec v = ch_minus :: udec (Z.abs v)) \/
  (0 < v /\ dec v = udec (Z.abs v) /\ exists c ds, dec v = c :: ds /\ ch_1 <= c <= ch_9).
Proof.
  intros Hv. destruct (abs_UMAX v Hv) as [_ Hu]. rewrite dec_sign. unfold sign.
  destruct (Z.ltb_spec v 0); [right; left; done|].
  destruct (udec_head _ Hu) as (c & ds & E & Hc). simpl. rewrite E.
  destruct (Z.eqb_spec (Z.abs v) 0) as [E0|E0].
  - left. destruct Hc as [-> ->]. split; [lia|done].
  - right; right. split; [lia|]. split; [done|]. by exists c, ds.
Qed.

Lemma string2ll_spec (s : list Z) (v : Z) :
  string2ll s = Some v <-> in_s64 v /\ s = dec v.
Proof.
  rewrite string2ll_unfold. unfold ch_0, ch_minus in *. split.
  - case_bool_decide as H0; [|case_bool_decide as Hm].
    + intros [= <-]. split; [done|]. by rewrite H0.
    + intros (Hv & Ht & Hneg)%parse_tail_spec. split; [done|].
      destruct s as [|c rest]; [done|]. simpl in Hm, Ht. injection Hm as ->.
      destruct (dec_cases v Hv) as [[? _]|[[_ ->]|[? _]]]; [lia|by rewrite Ht|lia].
    + intros (Hv & Ht & Hneg)%parse_tail_spec. split; [done|].
      destruct (dec_cases v Hv) as [[? _]|[[? _]|[_ [-> _]]]]; [lia|lia|done].
  - intros [Hv ->]. destruct (dec_cases v Hv) as [[-> E]|[[Hn E]|(Hp & E & c & ds & E' & Hc)]].
    + rewrite E. unfold ch_0. by rewrite bool_decide_eq_true_2.
    + rewrite E. unfold ch_minus. cbn [head tail]. rewrite bool_decide_eq_false_2, bool_decide_eq_true_2 by done.
      by apply parse_tail_spec.
    + unfold ch_1, ch_9 in Hc. rewrite E'. cbn [head tail].
      rewrite bool_decide_eq_false_2 by (injection; lia).
      rewrite bool_decide_eq_false_2 by (injection; lia).
      rewrite <- E'. apply parse_tail_spec. by rewrite E.
Qed.

(** C31: [string2ll] accepts exactly the canonical decimal representations of
    the 64-bit signed integers and returns the value: nothing with a leading
    zero, a plus sign, "-0", trailing bytes or an overflow is accepted, and
    every representable number, [LLONG_MIN] included, is.  [string2l] agrees
    with it where a [long] has 64 bits. *)
Theorem string2ll_exact (s : list Z) (v : Z) :
  (string2ll s = Some v <-> in_s64 v /\ s = dec v) /\ string2l s = string2ll s.
Proof.
  split; [apply string2ll_spec|]. unfold string2l.
  destruct (string2ll s) as [w|] eqn:E; mrun; [|done].
  apply string2ll_spec in E as [Hw _]. unfold in_s64 in Hw. unfold LONG_MIN, LONG_MAX. by zif_false.
Qed.

(** [ll2string] needs [sdigits10] characters and the terminator; with a
    shorter [dstlen] it returns 0 and leaves the buffer alone, and otherwise it
    writes the canonical decimal representation and its terminator into the
    first bytes, touches no other byte and returns the length.  Every buffer
    and table access is in bounds. *)
Theorem ll2string_correct (dst : list Z) (dstlen svalue : Z) :
  in_s64 svalue -> dstlen <= zlen dst ->
  sdigits10 svalue = zlen (dec svalue) /\
  ll2string dst dstlen svalue = Some (
    if sdigits10 svalue >=? dstlen then (0, dst)
    else (zlen (dec svalue), dec svalue ++ 0 :: drop (S (length (dec svalue))) dst)).
Proof.
  intros Hv Hd. destruct (abs_UMAX _ Hv) as [H64 Hu].
  assert (Hs : sdigits10 svalue = zlen (dec svalue)).
  { unfold sdigits10. rewrite dec_sign, zlen_app. unfold sign.
    replace (if negb _ then _ else _) with (if svalue <? 0 then Z.abs svalue else u64 (- svalue)).
    - destruct (Z.ltb_spec svalue 0); rewrite digits10_spec; unfold ndigits.
      + change (zlen [ch_minus]) with 1. lia.
      + done.
      + rewrite Z.abs_eq by lia. by rewrite zlen_nil.
      + by rewrite <- (Z.abs_eq svalue) by lia.
    - unfold in_s64, LLONG_MIN, LLONG_MAX in *. repeat zcase; [|lia|done|lia].
      rewrite u64_id by (unfold in_u64, ULLONG_MAX; lia). lia. }
  rewrite Hs. split; [done|]. by apply ll2string_spec.
Qed.

Lemma ll2string_correct_witness :
  ll2string (cstr "..........") 10 (-1024) = Some (5, cstr "-1024" ++ 0 :: cstr "....") /\
  sdigits10 (-1024) = 5.
Proof.
  destruct (ll2string_correct (cstr "..........") 10 (-1024)) as [E1 E2];
    [split; vm_compute; discriminate|vm_compute; discriminate|].
  split; [exact (eq_trans E2 eq_refl)|exact E1].
Defined.

(** Printing into any buffer that is large enough and parsing the bytes
    written gives the number back, and 21 bytes are always enough. *)
Theorem ll2string_string2ll_roundtrip (dst : list Z) (dstlen v : Z) :
  in_s64 v -> 21 <= dstlen <= zlen dst ->
  exists n dst', ll2string dst dstlen v = Some (n, dst') /\ 0 < n /\
    string2ll (take (Z.to_nat n) dst') = Some v.
Proof.
  intros Hv Hd. rewrite ll2string_spec by (done || lia).
  pose proof (dec_zlen v Hv) as Hl.
  zif_false. eexists _, _. split; [reflexivity|]. split; [lia|].
  unfold zlen. rewrite Nat2Z.id, take_app_length. by apply string2ll_spec.
Qed.

Lemma ll2string_string2ll_roundtrip_witness :
  exists n dst', ll2string (replicate 21 0) 21 LLONG_MIN = Some (n, dst') /\ 0 < n /\
    string2ll (take (Z.to_nat n) dst') = Some LLONG_MIN.
Proof.
  apply (ll2string_string2ll_roundtrip (replicate 21 0) 21 LLONG_MIN).
  - split; vm_compute; discriminate.
  - vm_compute. split; discriminate.
Defined.

(** *** The digits in reverse, and the swap loop *)

Lemma sds_digits_spec fuel : forall pre rest v, 0 <= v < 10 ^ Z.of_nat fuel -> (1 <= fuel)%nat ->
  v < UMAX -> ndigits v <= zlen rest ->
  exists rest', sds_digits fuel (pre ++ rest) (zlen pre) v
    = Some (pre ++ reverse (udec v) ++ rest', zlen pre + ndigits v) /\ zlen rest' = zlen rest - ndigits v.
Proof.
  induction fuel as [|fuel IH]; intros pre rest v Hv Hf Hu Hroom; [lia|].
  destruct rest as [|x rest]; [pose proof (ndigits_pos v ltac:(lia)); rewrite zlen_nil in Hroom; lia|].
  rewrite zlen_cons in *. cbn [sds_digits]. rewrite put_app by done. mrun.
  destruct (Z.eqb_spec (v / 10) 0) as [E0|E0].
  - assert (Hs : 0 <= v < 10) by (Z.div_mod_to_equations; lia).
    exists rest. rewrite ndigits_small, udec_small, Z.mod_small by done. split; [done|lia].
  - assert (Hge : 10 <= v) by (Z.div_mod_to_equations; lia).
    rewrite ndigits_step, udec_step, reverse_app in * by lia.
    destruct (IH (pre ++ [ch_0 + v mod 10]) rest (v / 10)) as (rest' & E & Hz).
    + rewrite Nat2Z.inj_succ, Z.pow_succ_r in Hv by lia.
      split; [apply Z.div_pos; lia|apply Z.div_lt_upper_bound; lia].
    + destruct fuel; [change (10 ^ Z.of_nat 1) with 10 in Hv; lia|lia].
    + apply div_UMAX; lia.
    + lia.
    + exists rest'. split; [|lia]. rewrite zlen_app in E. change (zlen [_]) with 1 in E.
      rewrite <- !app_assoc in E. simpl in E. rewrite E. do 2 f_equal. lia.
Qed.

Lemma sds_reverse_spec fuel : forall pre mid post, zlen mid < 2 * Z.of_nat fuel ->
  sds_reverse fuel (pre ++ mid ++ post) (zlen pre) (zlen pre + zlen mid - 1)
  = Some (pre ++ reverse mid ++ post).
Proof.
  induction fuel as [|fuel IH]; intros pre mid post Hf; [pose proof (zlen_nonneg mid); lia|].
  cbn [sds_reverse]. destruct mid as [|x mid]; [change (zlen []) with 0; by zif_false|].
  destruct mid as [|y mid _] using rev_ind; [change (zlen [x]) with 1; by zif_false|].
  rewrite zlen_cons, zlen_app in *. change (zlen [y]) with 1 in *. pose proof (zlen_nonneg mid). zif_true.
  change ((x :: mid ++ [y]) ++ post) with (x :: (mid ++ [y]) ++ post).
  rewrite (zget_app pre _ x (zlen pre)) by done. mrun.
  replace (pre ++ x :: (mid ++ [y]) ++ post) with ((pre ++ x :: mid) ++ y :: post)
    by (by rewrite <- !app_assoc).
  rewrite zget_app by (rewrite zlen_app, zlen_cons; lia). mrun.
  rewrite <- app_assoc. simpl. rewrite put_app by done. mrun.
  replace (pre ++ y :: mid ++ y :: post) with ((pre ++ y :: mid) ++ y :: post) by (by rewrite <- app_assoc).
  rewrite put_app by (rewrite zlen_app, zlen_cons; lia). mrun.
  replace ((pre ++ y :: mid) ++ x :: post) with ((pre ++ [y]) ++ mid ++ x :: post)
    by (by rewrite <- !app_assoc).
  replace (zlen pre + 1) with (zlen (pre ++ [y])) by (by rewrite zlen_app).
  replace (zlen pre + (1 + (zlen mid + 1)) - 1 - 1) with (zlen (pre ++ [y]) + zlen mid - 1)
    by (rewrite zlen_app; change (zlen [y]) with 1; lia).
  rewrite IH by lia. rewrite reverse_cons, reverse_app, <- !app_assoc. done.
Qed.

Lemma sdsll2str_spec buf v : LLONG_MIN < v <= LLONG_MAX -> zlen (dec v) < zlen buf ->
  exists rest, sdsll2str buf v = Some (zlen (dec v), dec v ++ 0 :: rest) /\
    1 + zlen (dec v) + zlen rest = zlen buf.
Proof.
  intros Hv Hb. assert (Hs : in_s64 v) by (unfold in_s64; lia). destruct (abs_UMAX v Hs) as [_ Hu].
  rewrite dec_sign, zlen_app in *. fold (ndigits (Z.abs v)) in *. unfold sdsll2str, sign in *.
  rewrite (proj2 (Z.eqb_neq v LLONG_MIN)) by lia.
  replace (if v <? 0 then - v else v) with (Z.abs v) by (destruct (Z.ltb_spec v 0); lia).
  pose proof (zlen_nonneg (if v <? 0 then [ch_minus] else [])).
  destruct (sds_digits_spec 20 [] buf (Z.abs v)) as (rest & E & Hz); [exact Hu|lia|lia|lia|].
  simpl app in E. change (zlen []) with 0 in E. rewrite E. mrun. rewrite Z.add_0_l.
  pose proof (ndigits_pos _ Hu). pose proof (ndigits_le_20 _ Hu).
  assert (Hrev : zlen (reverse (udec (Z.abs v))) = ndigits (Z.abs v)) by (unfold ndigits, zlen; by rewrite length_reverse).
  destruct (v <? 0).
  - change (zlen [ch_minus]) with 1 in *.
    destruct rest as [|x [|y rest]]; try (unfold zlen in Hz; simpl in Hz; unfold zlen in *; lia).
    rewrite put_app by lia. mrun.
    replace (reverse (udec (Z.abs v)) ++ ch_minus :: y :: rest)
      with ((reverse (udec (Z.abs v)) ++ [ch_minus]) ++ y :: rest) by (by rewrite <- app_assoc).
    rewrite put_app by (rewrite zlen_app; change (zlen [ch_minus]) with 1; lia). mrun.
    pose proof (sds_reverse_spec 20 [] (reverse (udec (Z.abs v)) ++ [ch_minus]) (0 :: rest)) as R.
    simpl app in R. rewrite zlen_app, Hrev in R. change (zlen [ch_minus]) with 1 in R.
    change (zlen []) with 0 in R. replace (ndigits (Z.abs v) + 1 - 1) with (0 + (ndigits (Z.abs v) + 1) - 1) by lia.
    rewrite R by lia. mrun. exists rest. rewrite reverse_app, reverse_involutive. simpl.
    rewrite !zlen_cons in Hz. split; [do 2 f_equal; lia|lia].
  - destruct rest as [|x rest]; [rewrite zlen_nil in Hz; change (zlen (@nil Z)) with 0 in *; lia|].
    mrun. rewrite put_app by lia. mrun.
    pose proof (sds_reverse_spec 20 [] (reverse (udec (Z.abs v))) (0 :: rest)) as R.
    simpl app in R. rewrite Hrev in R. change (zlen []) with 0 in R. rewrite Z.add_0_l in R.
    rewrite R by lia. mrun. exists rest. rewrite reverse_involutive, zlen_cons in *.
    change (zlen (@nil Z)) with 0 in *. simpl. split; [do 2 f_equal; lia|lia].
Qed.

(** [sdsfromlonglong] gives the canonical decimal representation of every
    [long long] except [LLONG_MIN], whose negation in [sdsll2str] overflows;
    its 21-byte buffer is always large enough. *)
Theorem sdsfromlonglong_correct (buf : list Z) (v : Z) :
  length buf = SDS_LLSTR_SIZE -> in_s64 v ->
  sdsfromlonglong buf v = if v =? LLONG_MIN then None else Some (dec v).
Proof.
  intros Hb Hv. unfold sdsfromlonglong. destruct (Z.eqb_spec v LLONG_MIN) as [->|Hne]; [done|].
  pose proof (dec_zlen v Hv) as Hl.
  unfold SDS_LLSTR_SIZE in Hb. unfold in_s64 in Hv.
  destruct (sdsll2str_spec buf v) as (rest & -> & _); [lia|unfold zlen in *; lia|]. mrun.
  exact (mem_read_app [] (dec v) (0 :: rest)).
Qed.

Lemma sdsfromlonglong_correct_witness :
  sdsfromlonglong (replicate 21 7) (-120) = Some (cstr "-120") /\ in_s64 (-120).
Proof.
  split; [|split; vm_compute; discriminate].
  refine (eq_trans (sdsfromlonglong_correct (replicate 21 7) (-120) _ _) _).
  - reflexivity.
  - split; vm_compute; discriminate.
  - reflexivity.
Defined.

(** *** Facts the callers of [strtoll] and [strlen] need *)

Lemma strlen_app l rest : Forall (fun c => c <> 0) l -> strlen (l ++ 0 :: rest) = Some (zlen l).
Proof.
  induction 1 as [|c l Hc Hl IH]; [done|]. simpl. rewrite (proj2 (Z.eqb_neq c 0)) by done.
  rewrite IH. mrun. rewrite zlen_cons. f_equal. lia.
Qed.

Lemma dec_nonzero v : in_s64 v -> Forall (fun c => c <> 0) (dec v).
Proof.
  intros Hv. destruct (abs_UMAX v Hv) as [_ Hu]. rewrite dec_sign. apply Forall_app. split.
  - unfold sign. destruct (v <? 0); repeat constructor. done.
  - eapply Forall_impl; [apply (udec_digits _ Hu)|]. unfold ch_0. simpl. lia.
Qed.

Lemma span_digits_app ds : forall acc n c rest, is_digits ds -> isdigit c = false ->
  span_digits (ds ++ c :: rest) acc n = (dval acc ds, n + zlen ds).
Proof.
  induction ds as [|d ds IH]; intros acc n c rest Hd Hc.
  - simpl. rewrite Hc. f_equal. change (zlen []) with 0. lia.
  - apply Forall_cons in Hd as [Hd Hds]. simpl.
    replace (isdigit d) with true by (symmetry; unfold isdigit; apply andb_true_iff; rewrite Z.geb_leb, !Z.leb_le; lia).
    rewrite IH by done. rewrite zlen_cons. f_equal. lia.
Qed.

Lemma strtoll_range s : in_s64 (fst (fst (strtoll s))).
Proof.
  unfold strtoll. destruct (skip_spaces s) as [k t].
  destruct (match t with [] => _ | _ => _ end) as [[neg k'] t'].
  destruct (span_digits t' 0 0) as [v n].
  destruct (n =? 0); cbn [fst]; unfold in_s64, clamp64, LLONG_MIN, LLONG_MAX; lia.
Qed.

(** A canonical representation that ends at a character that is not a digit is
    converted exactly and completely. *)
Lemma strtoll_dec v c rest : in_s64 v -> isdigit c = false ->
  strtoll (dec v ++ c :: rest) = (v, zlen (dec v), true).
Proof.
  intros Hv Hc. destruct (abs_UMAX v Hv) as [_ Hu]. pose proof (udec_digits _ Hu) as Hd.
  pose proof (ndigits_pos _ Hu) as Hpos. unfold ndigits in Hpos.
  assert (Hcl : clamp64 v = v) by (unfold clamp64, in_s64, LLONG_MIN, LLONG_MAX in *; lia).
  destruct (udec_head _ Hu) as (d & ds & E & _). rewrite dec_sign. unfold sign, strtoll.
  assert (Hsp : forall t, skip_spaces ((udec (Z.abs v)) ++ t) = (0, udec (Z.abs v) ++ t)).
  { intros t. rewrite E in *. apply Forall_cons in Hd as [Hd _]. simpl.
    replace (isspace d) with false; [done|]. symmetry. unfold isspace, ch_0, ch_9 in *.
    rewrite orb_false_iff, andb_false_iff, Z.eqb_neq, !Z.leb_gt. lia. }
  destruct (Z.ltb_spec v 0) as [Hneg|Hpos'].
  - change (skip_spaces (([ch_minus] ++ udec (Z.abs v)) ++ c :: rest))
      with (0, ch_minus :: udec (Z.abs v) ++ c :: rest). cbv iota.
    rewrite Z.eqb_refl, span_digits_app, udec_val by done. rewrite Z.add_0_l.
    rewrite (proj2 (Z.eqb_neq (zlen (udec (Z.abs v))) 0)) by lia.
    rewrite zlen_app. replace (- Z.abs v) with v by lia. by rewrite Hcl.
  - rewrite app_nil_l, Hsp. rewrite E at 1. cbn [app].
    rewrite E in Hd at 1. apply Forall_cons in Hd as [Hd _]. unfold ch_0, ch_9, ch_minus, ch_plus in *.
    rewrite (proj2 (Z.eqb_neq d 45)), (proj2 (Z.eqb_neq d 43)) by lia.
    rewrite span_digits_app, udec_val by (try done; apply udec_digits; done). rewrite !Z.add_0_l.
    rewrite (proj2 (Z.eqb_neq (zlen (udec (Z.abs v))) 0)) by lia.
    rewrite Z.abs_eq in * by lia. by rewrite Hcl.
Qed.

Lemma skip_spaces_app s : exists k t, skip_spaces (s ++ [0]) = (k, t ++ [0]) /\ 0 <= k /\ zlen s = k + zlen t.
Proof.
  induction s as [|c s (k & t & E & Hk & Hz)]; [exists 0, []; done|]. simpl. destruct (isspace c).
  - rewrite E. exists (k + 1), t. rewrite zlen_cons. split; [done|lia].
  - exists 0, (c :: s). split; [done|]. split; lia.
Qed.

Lemma span_digits_end t : forall acc n, let '(_, m) := span_digits (t ++ [0]) acc n in n <= m <= n + zlen t.
Proof.
  induction t as [|c t IH]; intros acc n; simpl; [change (zlen []) with 0; lia|].
  rewrite zlen_cons. pose proof (zlen_nonneg t). destruct (isdigit c); [|lia].
  specialize (IH (acc * 10 + (c - ch_0)) (n + 1)). destruct (span_digits _ _ _). lia.
Qed.

(** [strtoll] stops at the terminator at the latest. *)
Lemma strtoll_end s : let '(_, e, _) := strtoll (s ++ [0]) in 0 <= e <= zlen s.
Proof.
  unfold strtoll. destruct (skip_spaces_app s) as (k & t & -> & Hk & Hz).
  assert (Hspan : forall (neg : bool) k' t', 0 <= k' -> k' + zlen t' <= zlen s ->
    let '(_, e, _) := (let '(v, n) := span_digits (t' ++ [0]) 0 0 in
      if n =? 0 then (0, 0, false) else (clamp64 (if neg then - v else v), k' + n, true)) in 0 <= e <= zlen s).
  { intros neg k' t' Hk' Hz'. pose proof (span_digits_end t' 0 0). destruct (span_digits _ 0 0) as [v n].
    pose proof (zlen_nonneg s). destruct (n =? 0); lia. }
  destruct t as [|c t]; [exact (Hspan false k [] Hk ltac:(lia))|]. rewrite zlen_cons in Hz.
  change ((c :: t) ++ [0]) with (c :: t ++ [0]).
  cbv beta iota. destruct (Z.eqb_spec c ch_minus); [exact (Hspan true (k + 1) t ltac:(lia) ltac:(lia))|].
  destruct (Z.eqb_spec c ch_plus); [exact (Hspan false (k + 1) t ltac:(lia) ltac:(lia))|].
  refine (Hspan false k (c :: t) Hk _). rewrite zlen_cons. lia.
Qed.

Lemma dec_bytes v : in_s64 v -> bytes_ok (dec v).
Proof.
  intros Hv. destruct (abs_UMAX v Hv) as [_ Hu]. rewrite dec_sign. apply Forall_app. split.
  - unfold sign. destruct (v <? 0); repeat constructor; unfold ch_minus; lia.
  - eapply Forall_impl; [apply (udec_digits _ Hu)|]. unfold is_byte, ch_0, ch_9. simpl. lia.
Qed.

(** *** [memtoll] *)

Lemma drop_digits_app ds u : is_digits ds ->
  match u with c :: _ => isdigit c = false | [] => True end -> drop_digits (ds ++ u) = u.
Proof.
  intros Hd Hu. induction Hd as [|d ds Hd Hds IH]; simpl.
  - destruct u; simpl; [done|]. by rewrite Hu.
  - replace (isdigit d) with true; [done|]. symmetry. unfold isdigit.
    apply andb_true_iff. rewrite Z.geb_leb, !Z.leb_le. lia.
Qed.

(** The units and what they stand for. *)
Definition units : list (list Z * Z) :=
  [([], 1); (cstr "b", 1); (cstr "k", 1000); (cstr "kb", 1024); (cstr "m", 10 ^ 6); (cstr "mb", 2 ^ 20);
   (cstr "g", 10 ^ 9); (cstr "gb", 2 ^ 30)].

Definition unit_of (u : list Z) : option Z :=
  snd <$> List.find (fun x => bool_decide (tolower <$> u = x.1)) units.

Lemma unit_multiplier_spec u : unit_multiplier u = unit_of u.
Proof.
  unfold unit_multiplier, unit_of, strcaseeq, units.
  replace (bool_decide (u = [])) with (bool_decide (tolower <$> u = []))
    by (apply bool_decide_ext; by destruct u).
  generalize (tolower <$> u). intros w. cbn [List.find fst].
  repeat match goal with |- context [bool_decide (w = ?x)] =>
    let y := eval vm_compute in x in progress (change (bool_decide (w = x)) with (bool_decide (w = y)))
  end.
  repeat match goal with |- context [bool_decide (w = ?y)] =>
    destruct (decide (w = y)) as [->|]; [vm_compute; reflexivity|rewrite !(bool_decide_false (w = y)) by assumption]
  end.
  reflexivity.
Qed.

(** An amount of memory, a decimal number and a unit in either case, is
    converted to the number of bytes; an unknown unit is an error.  The product
    is not checked: when it does not fit a [long long] the behaviour is
    undefined. *)
Theorem memtoll_correct (einval : bool) (v : Z) (u : list Z) :
  in_s64 v -> match u with c :: _ => isdigit c = false | [] => True end ->
  memtoll einval (dec v ++ u) =
    match unit_of u with
    | None => Some (0, true)
    | Some mul => if (LLONG_MIN <=? v * mul) && (v * mul <=? LLONG_MAX) then Some (v * mul, false) else None
    end.
Proof.
  intros Hv Hu. destruct (abs_UMAX v Hv) as [_ Ha]. rewrite <- unit_multiplier_spec. unfold memtoll.
  replace (drop_digits _) with u.
  - destruct (unit_multiplier u) as [mul|]; [|done]. rewrite zlen_app.
    replace (zlen (dec v) + zlen u - zlen u) with (zlen (dec v)) by lia.
    pose proof (dec_zlen v Hv).
    zif_false. replace (Z.to_nat (zlen (dec v))) with (length (dec v)) by (unfold zlen; lia).
    rewrite take_app_length, strtoll_dec by done.
    rewrite zget_app by done. mrun. by rewrite andb_false_r.
  - symmetry. rewrite dec_sign. unfold sign. pose proof (udec_digits _ Ha) as Hd.
    destruct (v <? 0); simpl app.
    + by apply drop_digits_app.
    + destruct (udec_head _ Ha) as (d & ds & E & _). rewrite E in *. simpl app.
      pose proof Hd as [Hd0 _]%Forall_cons. unfold ch_0, ch_minus in *.
      rewrite (proj2 (Z.eqb_neq d 45)) by lia. by apply (drop_digits_app (d :: ds)).
Qed.

Lemma memtoll_correct_witness :
  memtoll false (cstr "-3Mb") = Some (-3145728, false) /\ in_s64 (-3).
Proof.
  split; [|split; vm_compute; discriminate].
  refine (eq_trans (memtoll_correct false (-3) (cstr "Mb") _ _) _).
  - split; vm_compute; discriminate.
  - reflexivity.
  - reflexivity.
Defined.

(** A string without digits is accepted as zero when the C library does not
    set EINVAL for it, which POSIX leaves open. *)
Theorem memtoll_no_digits :
  memtoll false (cstr "gb") = Some (0, false) /\ memtoll true (cstr "gb") = Some (0, true).
Proof. split; reflexivity. Qed.

End Util.
