(* ===== verification/Args.v ===== *)
(** * Argument vectors of text lines (sds.c)

    [sdssplitargs] splits a line into arguments, with quotes and escapes; it reads
    inline requests, the configuration file and the cluster configuration.
    [sdscatrepr] quotes a string so that it can be read back.  A line is a C
    string: the bytes of the sds and its terminator, and a pointer into it is the
    suffix that starts there, so that reading past the terminator is [None]. *)

From Stdlib Require Import String Ascii.
From S2P Require Import Prelude Util.

Module Args.
Import Util.

Definition ch_quote := 34.
Definition ch_apostrophe := 39.
Definition ch_backslash := 92.
Definition ch_x := 120.

Definition isprint (c : Z) : bool := (32 <=? c) && (c <=? 126).

Definition is_hex_digit (c : Z) : bool :=
  (48 <=? c) && (c <=? 57) || (97 <=? c) && (c <=? 102) || (65 <=? c) && (c <=? 70).

Definition hex_digit_to_int (c : Z) : Z :=
  if (48 <=? c) && (c <=? 57) then c - 48
  else if (97 <=? c) && (c <=? 102) then c - 97 + 10
  else if (65 <=? c) && (c <=? 70) then c - 65 + 10
  else 0.

(** ** Quoting *)

(** A digit of the [%02x] conversion. *)
Definition hex_digit (d : Z) : Z := if d <? 10 then 48 + d else 97 + (d - 10).

(** What one byte becomes between the quotes. *)
Definition repr_byte (c : Z) : list Z :=
  if (c =? ch_backslash) || (c =? ch_quote) then [ch_backslash; c]
  else if c =? 10 then [ch_backslash; 110]
  else if c =? 13 then [ch_backslash; 114]
  else if c =? 9 then [ch_backslash; 116]
  else if c =? 7 then [ch_backslash; 97]
  else if c =? 8 then [ch_backslash; 98]
  else if isprint c then [c]
  else [ch_backslash; ch_x; hex_digit (c / 16); hex_digit (c mod 16)].

Definition sdscatrepr (s p : list Z) : list Z :=
  s ++ [ch_quote] ++ (p ≫= repr_byte) ++ [ch_quote].

(** ** Splitting *)

(** A C condition that reads memory: the right operand is only evaluated when the
    left one is true. *)
Definition andthen (a b : option bool) : option bool :=
  match a with Some true => b | _ => a end.

Definition char_is (p : list Z) (i : nat) (c : Z) : option bool := x ← p !! i; Some (x =? c).
Definition char_hex (p : list Z) (i : nat) : option bool := x ← p !! i; Some (is_hex_digit x).
Definition char_some (p : list Z) (i : nat) : option bool := x ← p !! i; Some (negb (x =? 0)).
Definition char_nonspace (p : list Z) (i : nat) : option bool := x ← p !! i; Some (negb (isspace x)).

(** The character an escape stands for inside double quotes. *)
Definition unescape (c : Z) : Z :=
  if c =? 110 then 10
  else if c =? 114 then 13
  else if c =? 116 then 9
  else if c =? 98 then 8
  else if c =? 97 then 7
  else c.

(** One turn of the token loop: an error, or the pointer before its final
    increment, whether the token is done, the quote flags and the token. *)
Record turn := mkTurn { t_ptr : list Z; t_done : bool; t_inq : bool; t_insq : bool; t_current : list Z }.

(** After a closing quote there must be a blank or the end of the line. *)
Definition close_quote (p : list Z) (inq insq : bool) (current : list Z) : option (option turn) :=
  bad ← andthen (char_some p 1) (char_nonspace p 1);
  Some (if (bad : bool) then None else Some (mkTurn p true inq insq current)).

Definition token_turn (p : list Z) (inq insq : bool) (current : list Z) : option (option turn) :=
  c ← p !! O;
  if inq then
    hex ← andthen (Some (c =? ch_backslash)) (andthen (char_is p 1 ch_x) (andthen (char_hex p 2) (char_hex p 3)));
    if (hex : bool) then
      h ← p !! 2%nat;
      l ← p !! 3%nat;
      Some (Some (mkTurn (drop 3 p) false inq insq (current ++ [u8 (hex_digit_to_int h * 16 + hex_digit_to_int l)])))
    else
      esc ← andthen (Some (c =? ch_backslash)) (char_some p 1);
      if (esc : bool) then
        e ← p !! 1%nat;
        Some (Some (mkTurn (drop 1 p) false inq insq (current ++ [unescape e])))
      else if c =? ch_quote then close_quote p inq insq current
      else if c =? 0 then Some None
      else Some (Some (mkTurn p false inq insq (current ++ [c])))
  else if insq then
    esc ← andthen (Some (c =? ch_backslash)) (char_is p 1 ch_apostrophe);
    if (esc : bool) then Some (Some (mkTurn (drop 1 p) false inq insq (current ++ [ch_apostrophe])))
    else if c =? ch_apostrophe then close_quote p inq insq current
    else if c =? 0 then Some None
    else Some (Some (mkTurn p false inq insq (current ++ [c])))
  else if (c =? 32) || (c =? 10) || (c =? 13) || (c =? 9) || (c =? 0) then Some (Some (mkTurn p true inq insq current))
  else if c =? ch_quote then Some (Some (mkTurn p false true insq current))
  else if c =? ch_apostrophe then Some (Some (mkTurn p false inq true current))
  else Some (Some (mkTurn p false inq insq (current ++ [c]))).

(** [if ( *p) p++]. *)
Definition advance (p : list Z) : option (list Z) :=
  c ← p !! O; Some (if c =? 0 then p else drop 1 p).

Fixpoint token_loop (fuel : nat) (p : list Z) (inq insq : bool) (current : list Z) : option (option (list Z * list Z)) :=
  match fuel with
  | O => None
  | S fuel =>
      t ← token_turn p inq insq current;
      match t with
      | None => Some None
      | Some t =>
          p ← advance (t_ptr t);
          if t_done t then Some (Some (p, t_current t))
          else token_loop fuel p (t_inq t) (t_insq t) (t_current t)
      end
  end.

Fixpoint skip_blanks (p : list Z) : option (list Z) :=
  match p with
  | [] => None
  | c :: p' => if negb (c =? 0) && isspace c then skip_blanks p' else Some p
  end.

Fixpoint split_loop (fuel : nat) (p : list Z) (vector : list (list Z)) : option (option (list (list Z))) :=
  match fuel with
  | O => None
  | S fuel =>
      p ← skip_blanks p;
      c ← p !! O;
      if negb (c =? 0) then
        tok ← token_loop (S (length p)) p false false [];
        match tok with
        | None => Some None
        | Some (p, current) => split_loop fuel p (vector ++ [current])
        end
      else Some (Some vector)
  end.

(** [Some None] is the NULL returned for unbalanced quotes. *)
Definition sdssplitargs (line : list Z) : option (option (list (list Z))) :=
  split_loop (S (S (length line))) (line ++ [0]) [].

Example sdssplitargs_examples :
  sdssplitargs (cstr "set  foo 'it\'s'	x") = Some (Some [cstr "set"; cstr "foo"; cstr "it's"; cstr "x"]) /\
  sdssplitargs (ch_quote :: cstr "a\x41\n" ++ [ch_quote]) = Some (Some [cstr "aA" ++ [10]]) /\
  sdssplitargs (ch_quote :: cstr "a" ++ [ch_quote; 98]) = Some None /\
  sdssplitargs (cstr "'abc") = Some None /\ sdssplitargs [] = Some (Some []).
Proof. repeat split; reflexivity. Qed.

(** ** Termination and safety *)

(** A pointer into a C string: the terminator is still ahead. *)
Definition ends (p : list Z) : Prop := exists q, p = q ++ [0].

Lemma ends_cons c p : ends (c :: p) -> c <> 0 -> ends p.
Proof. intros [[|x q] E] Hc; simplify_eq/=. by exists q. Qed.

Lemma ends_head p : ends p -> exists c p', p = c :: p' /\ (c <> 0 -> ends p').
Proof.
  intros Hp. destruct p as [|c p']; [by destruct Hp as [[|? ?] ?]|].
  exists c, p'. split; [done|]. intros Hc. by eapply ends_cons.
Qed.

(** Evaluate reads of characters that are known. *)
Ltac peek := mrun; cbn [lookup list_lookup]; mrun; cbn [andthen].

Lemma hex_nonzero c : is_hex_digit c = true -> c <> 0.
Proof. by intros H ->. Qed.

(** A turn never reads past the terminator; unless the token is done, it stops
    at a character that is not the terminator. *)
Definition turn_ok (p : list Z) (r : option turn) : Prop :=
  match r with
  | None => True
  | Some t => exists c q, t_ptr t = c :: q /\ suffix (c :: q) p /\ ends (c :: q) /\ (c <> 0 -> ends q) /\ (t_done t = false -> c <> 0)
  end.

Lemma close_quote_total c q inq insq current : ends (c :: q) -> c <> 0 ->
  exists r, close_quote (c :: q) inq insq current = Some r /\ turn_ok (c :: q) r.
Proof.
  intros Hp Hc. pose proof (ends_cons _ _ Hp Hc) as Hq. unfold close_quote, char_some, char_nonspace.
  destruct (ends_head _ Hq) as (d & q' & -> & _). peek. cbn [andthen].
  destruct (negb (d =? 0)); [destruct (negb (isspace d))|]; mrun; eexists; (split; [done|]); try done;
    exists c, (d :: q'); done.
Qed.

Lemma stay_ok c q d i j cur : ends (c :: q) -> (d = false -> c <> 0) -> turn_ok (c :: q) (Some (mkTurn (c :: q) d i j cur)).
Proof. intros Hp Hd. exists c, q. repeat split; try done. by apply ends_cons. Qed.

(** Between double quotes, when the hexadecimal escape does not apply. *)
Lemma dquote_plain_total c c1 q insq current : ends (c :: c1 :: q) -> c = ch_backslash -> exists r,
  (if negb (c1 =? 0) then Some (Some (mkTurn (c1 :: q) false true insq (current ++ [unescape c1])))
   else if c =? ch_quote then close_quote (c :: c1 :: q) true insq current
   else if c =? 0 then Some None else Some (Some (mkTurn (c :: c1 :: q) false true insq (current ++ [c])))) = Some r /\
  turn_ok (c :: c1 :: q) r.
Proof.
  intros Hp ->. destruct (negb (c1 =? 0)) eqn:E1; zbool.
  - eexists. split; [done|]. exists c1, q. assert (ends (c1 :: q)) by by eapply ends_cons.
    repeat split; try done; [by exists [ch_backslash]|]. by apply ends_cons.
  - cbn. eexists. split; [done|]. by apply stay_ok.
Qed.

Lemma dquote_turn_total p insq current : ends p -> exists r, token_turn p true insq current = Some r /\ turn_ok p r.
Proof.
  intros Hp. destruct (ends_head p Hp) as (c & q & -> & Hq). unfold token_turn. peek.
  destruct (c =? ch_backslash) eqn:Eb; cbn [andthen]; zbool.
  - assert (Hc : c <> 0) by (unfold ch_backslash in *; lia). specialize (Hq Hc).
    destruct (ends_head q Hq) as (c1 & q1 & -> & Hq1). unfold char_is, char_hex, char_some. peek.
    pose proof (dquote_plain_total c c1 q1 insq current Hp Eb) as Hplain.
    destruct (c1 =? ch_x) eqn:Ex; cbn [andthen]; mrun; [|exact Hplain].
    zbool. assert (Hc1 : c1 <> 0) by (unfold ch_x in *; lia). specialize (Hq1 Hc1).
    destruct (ends_head q1 Hq1) as (c2 & q2 & -> & Hq2). peek.
    destruct (is_hex_digit c2) eqn:E2; cbn [andthen]; mrun; [|exact Hplain].
    apply hex_nonzero in E2. specialize (Hq2 E2). destruct (ends_head q2 Hq2) as (c3 & q3 & -> & Hq3). peek.
    destruct (is_hex_digit c3) eqn:E3; cbn [andthen]; mrun; [|exact Hplain].
    apply hex_nonzero in E3. eexists. split; [done|]. exists c3, q3. repeat split; try done. by exists [c; c1; c2].
  - mrun. destruct (c =? ch_quote) eqn:Eq; zbool; [apply close_quote_total; [done|unfold ch_quote in *; lia]|].
    destruct (c =? 0) eqn:E0; zbool; (eexists; split; [done|]); [done|by apply stay_ok].
Qed.

Lemma squote_turn_total p current : ends p -> exists r, token_turn p false true current = Some r /\ turn_ok p r.
Proof.
  intros Hp. destruct (ends_head p Hp) as (c & q & -> & Hq). unfold token_turn. peek.
  destruct (c =? ch_backslash) eqn:Eb; cbn [andthen]; zbool.
  - assert (Hc : c <> 0) by (unfold ch_backslash in *; lia). specialize (Hq Hc).
    destruct (ends_head q Hq) as (c1 & q1 & -> & Hq1). unfold char_is. peek.
    destruct (c1 =? ch_apostrophe) eqn:Ea; zbool.
    + eexists. split; [done|]. exists c1, q1. unfold ch_apostrophe in *. repeat split; try done; [by exists [c]|lia].
    + destruct (c =? ch_apostrophe); [by apply close_quote_total|]. zif_false. eexists. split; [done|]. by apply stay_ok.
  - mrun. destruct (c =? ch_apostrophe) eqn:Eq; zbool; [apply close_quote_total; [done|unfold ch_apostrophe in *; lia]|].
    destruct (c =? 0) eqn:E0; zbool; (eexists; split; [done|]); [done|by apply stay_ok].
Qed.

Lemma token_turn_total p inq insq current : ends p -> exists r, token_turn p inq insq current = Some r /\ turn_ok p r.
Proof.
  intros Hp. destruct inq; [by apply dquote_turn_total|]. destruct insq; [by apply squote_turn_total|].
  destruct (ends_head p Hp) as (c & q & -> & Hq). unfold token_turn, ch_quote, ch_apostrophe. peek.
  repeat zcase; eexists; (split; [done|]); apply stay_ok; intros; done || lia.
Qed.

(** The token loop ends, and it consumes the character it starts at. *)
Lemma token_loop_total fuel : forall p inq insq current, ends p -> (length p < fuel)%nat ->
  exists r, token_loop fuel p inq insq current = Some r /\
    match r with None => True | Some (p', _) => ends p' /\ (length p' <= length p)%nat end.
Proof.
  induction fuel as [|fuel IH]; [lia|]. intros p inq insq current Hp Hf. cbn [token_loop].
  destruct (token_turn_total p inq insq current Hp) as ([t|] & -> & Ht); mrun; [|by eexists].
  destruct t as [tp td ti tj tc]. cbn [turn_ok t_ptr t_done t_inq t_insq t_current] in *.
  destruct Ht as (c & q & -> & Hs & He & Hq & Hd). apply suffix_length in Hs. cbn [length] in Hs.
  unfold advance. peek. destruct td.
  - eexists. split; [done|].
    destruct (c =? 0) eqn:E; zbool; simpl; rewrite ?drop_0; (split; [try done; by apply Hq|lia]).
  - specialize (Hd eq_refl). zif_false. cbn [drop]; rewrite ?drop_0.
    destruct (IH q ti tj tc (Hq Hd)) as (r & -> & Hr); [lia|]. exists r. split; [done|].
    destruct r as [[p' cur']|]; [|done]. split; [tauto|lia].
Qed.

Lemma first_turn c q : c <> 0 -> isspace c = false -> exists i j cur,
  token_turn (c :: q) false false [] = Some (Some (mkTurn (c :: q) false i j cur)).
Proof.
  intros H0 Hs. unfold token_turn. peek. unfold isspace in Hs. zbool. apply andb_false_iff in H1.
  replace ((c =? 32) || (c =? 10) || (c =? 13) || (c =? 9) || (c =? 0)) with false by lia.
  repeat zcase; by do 3 eexists.
Qed.

Lemma token_loop_next fuel p inq insq current c q i j cur :
  token_turn p inq insq current = Some (Some (mkTurn (c :: q) false i j cur)) -> c <> 0 ->
  token_loop (S fuel) p inq insq current = token_loop fuel q i j cur.
Proof.
  intros E Hc. cbn [token_loop]. rewrite E. mrun. cbn [t_ptr t_done t_inq t_insq t_current]. unfold advance. peek.
  rewrite (proj2 (Z.eqb_neq c 0) Hc). cbn [drop]. by rewrite drop_0.
Qed.

Lemma token_total c q : ends (c :: q) -> c <> 0 -> isspace c = false ->
  exists r, token_loop (S (length (c :: q))) (c :: q) false false [] = Some r /\
    match r with None => True | Some (p', _) => ends p' /\ (length p' <= length q)%nat end.
Proof.
  intros Hp H0 Hs. destruct (first_turn c q H0 Hs) as (i & j & cur & E).
  rewrite (token_loop_next _ _ _ _ _ _ _ _ _ _ E H0). apply token_loop_total; [by eapply ends_cons|cbn; lia].
Qed.

Lemma skip_blanks_total p : ends p -> exists c q, skip_blanks p = Some (c :: q) /\ ends (c :: q) /\
  (length (c :: q) <= length p)%nat /\ (c <> 0 -> isspace c = false).
Proof.
  intros [q ->]. induction q as [|c q IH]; cbn [skip_blanks app].
  - exists 0, []. repeat split; try done. by exists [].
  - destruct (negb (c =? 0) && isspace c) eqn:E.
    + destruct IH as (d & q' & -> & He & Hl & Hd). exists d, q'. repeat split; try done. cbn in *. lia.
    + exists c, (q ++ [0]). repeat split; try done; [by exists (c :: q)|]. intros Hc.
      destruct (isspace c); [|done]. apply andb_false_iff in E as [E|E]; [|done]. zbool. lia.
Qed.

Lemma split_loop_total fuel : forall p vector, ends p -> (length p < fuel)%nat ->
  exists r, split_loop fuel p vector = Some r.
Proof.
  induction fuel as [|fuel IH]; [lia|]. intros p vector Hp Hf. cbn [split_loop].
  destruct (skip_blanks_total p Hp) as (c & q & -> & He & Hl & Hs). peek.
  destruct (c =? 0) eqn:E0; cbn [negb]; [by eexists|]. zbool.
  destruct (token_total c q He E0 (Hs E0)) as ([[p' cur]|] & -> & Hr); mrun; [|by eexists].
  destruct Hr as [He' Hl']. apply IH; [done|]. cbn in Hl. lia.
Qed.

Lemma sdssplitargs_total line : exists r, sdssplitargs line = Some r.
Proof. apply split_loop_total; [by exists line|]. rewrite length_app. cbn. lia. Qed.

(** ** Quoting and splitting are inverse *)

Lemma hex_digit_back d : 0 <= d < 16 -> is_hex_digit (hex_digit d) = true /\ hex_digit_to_int (hex_digit d) = d.
Proof.
  intros H. assert (Hall : forallb (fun d => is_hex_digit (hex_digit d) && (hex_digit_to_int (hex_digit d) =? d)) (seqZ 0 16) = true) by reflexivity.
  rewrite forallb_forall in Hall. specialize (Hall d). rewrite andb_true_iff, Z.eqb_eq in Hall. apply Hall.
  apply list_elem_of_In, elem_of_seqZ. lia.
Qed.

Lemma turn_escape e rest current : e <> 0 -> e <> ch_x ->
  token_turn ([ch_backslash; e] ++ rest) true false current = Some (Some (mkTurn (e :: rest) false true false (current ++ [unescape e]))).
Proof.
  intros H0 Hx. unfold token_turn, char_is, char_some. cbn [app]. peek. change (ch_backslash =? ch_backslash) with true. peek.
  rewrite (proj2 (Z.eqb_neq e ch_x) Hx). peek. rewrite (proj2 (Z.eqb_neq e 0) H0). cbn [negb]. peek. done.
Qed.

Lemma turn_hex c rest current : is_byte c ->
  token_turn ([ch_backslash; ch_x; hex_digit (c / 16); hex_digit (c mod 16)] ++ rest) true false current =
  Some (Some (mkTurn (hex_digit (c mod 16) :: rest) false true false (current ++ [c]))).
Proof.
  intros Hc. unfold is_byte in Hc.
  destruct (hex_digit_back (c / 16)) as [H1 V1]; [split; [apply Z.div_pos; lia|apply Z.div_lt_upper_bound; lia]|].
  destruct (hex_digit_back (c mod 16)) as [H2 V2]; [apply Z.mod_pos_bound; lia|].
  unfold token_turn, char_is, char_hex. cbn [app]. peek. change (ch_backslash =? ch_backslash) with true.
  change (ch_x =? ch_x) with true. peek. rewrite H1, H2. peek. rewrite V1, V2.
  replace (c / 16 * 16 + c mod 16) with c by (rewrite Z.mul_comm; by apply Z.div_mod). by rewrite uN_id.
Qed.

Lemma turn_plain c rest current : isprint c = true -> c <> ch_backslash -> c <> ch_quote ->
  token_turn (c :: rest) true false current = Some (Some (mkTurn (c :: rest) false true false (current ++ [c]))).
Proof.
  intros Hp Hb Hq. unfold isprint in Hp. zbool. unfold token_turn. peek. rewrite (proj2 (Z.eqb_neq c ch_backslash) Hb). peek.
  rewrite (proj2 (Z.eqb_neq c ch_quote) Hq). by rewrite (proj2 (Z.eqb_neq c 0)) by lia.
Qed.

(** Between double quotes a quoted byte is one turn of the loop. *)
Lemma turn_repr c rest current : is_byte c -> exists l, l <> 0 /\
  token_turn (repr_byte c ++ rest) true false current = Some (Some (mkTurn (l :: rest) false true false (current ++ [c]))).
Proof.
  intros Hc. unfold repr_byte.
  assert (Hesc : forall e, e <> 0 -> e <> ch_x -> unescape e = c -> exists l, l <> 0 /\
    token_turn ([ch_backslash; e] ++ rest) true false current = Some (Some (mkTurn (l :: rest) false true false (current ++ [c])))).
  { intros e H0 Hx <-. exists e. split; [done|]. by apply turn_escape. }
  destruct ((c =? ch_backslash) || (c =? ch_quote)) eqn:E.
  { assert (c = 92 \/ c = 34) as [-> | ->] by (unfold ch_backslash, ch_quote in E; lia); by apply Hesc. }
  repeat match goal with |- context [if c =? ?k then _ else _] => destruct (c =? k) eqn:?; zbool; [subst c; by apply Hesc|] end.
  destruct (isprint c) eqn:Ep.
  - exists c. split; [unfold isprint in Ep; lia|]. by apply turn_plain.
  - exists (hex_digit (c mod 16)). split; [|by apply turn_hex]. apply hex_nonzero, hex_digit_back, Z.mod_pos_bound. lia.
Qed.

(** A quoted string followed by a blank or the end of the line. *)
Lemma token_loop_quoted bs : forall fuel current b rest, bytes_ok bs -> (length bs < fuel)%nat -> b = 0 \/ isspace b = true ->
  token_loop fuel ((bs ≫= repr_byte) ++ ch_quote :: b :: rest) true false current = Some (Some (b :: rest, current ++ bs)).
Proof.
  induction bs as [|c bs IH]; intros fuel current b rest Hb Hf Hr; (destruct fuel as [|fuel]; [cbn in Hf; lia|]).
  - cbn [mbind list_bind app token_loop]. unfold token_turn. peek. cbn [Z.eqb ch_quote ch_backslash Pos.eqb]. peek.
    unfold close_quote, char_some, char_nonspace. peek.
    replace (if negb (b =? 0) then Some (negb (isspace b)) else _) with (Some false) by (destruct Hr as [-> | ->]; [done|by destruct (b =? 0)]).
    cbn. by rewrite app_nil_r.
  - apply Forall_cons in Hb as [Hc Hb]. cbn [mbind list_bind]. rewrite <- app_assoc.
    change (mbind repr_byte bs) with (bs ≫= repr_byte). destruct (turn_repr c ((bs ≫= repr_byte) ++ ch_quote :: b :: rest) current Hc) as (l & Hl & E).
    rewrite (token_loop_next _ _ _ _ _ _ _ _ _ _ E Hl). rewrite IH by (done || cbn in Hf; lia). by rewrite <- app_assoc.
Qed.

(** The line of quoted arguments, separated by a space. *)
Fixpoint quote_args (args : list (list Z)) : list Z :=
  match args with
  | [] => []
  | [a] => sdscatrepr [] a
  | a :: args => sdscatrepr [] a ++ 32 :: quote_args args
  end.

Lemma split_loop_quoted args : forall fuel sep vector, Forall bytes_ok args -> (length args < fuel)%nat ->
  sep = [] \/ sep = [32] ->
  split_loop fuel (sep ++ quote_args args ++ [0]) vector = Some (Some (vector ++ args)).
Proof.
  induction args as [|a args IH]; intros fuel sep vector Hb Hf Hsep; (destruct fuel as [|fuel]; [cbn in Hf; lia|]).
  - destruct Hsep as [-> | ->]; cbn; by rewrite app_nil_r.
  - apply Forall_cons in Hb as [Ha Hb].
    assert (exists b sep' rest, (b = 0 \/ isspace b = true) /\ (sep' = [] \/ sep' = [32]) /\ b :: rest = sep' ++ quote_args args ++ [0] /\
      quote_args (a :: args) ++ [0] = sdscatrepr [] a ++ b :: rest) as (b & sep' & rest & Hblank & Hsep' & E & Eq).
    { destruct args as [|a' args]; [by exists 0, [], []; auto|].
      exists 32, [32], (quote_args (a' :: args) ++ [0]). repeat split; auto. cbn [quote_args]. by rewrite <- app_assoc. }
    rewrite Eq. unfold sdscatrepr. cbn [app].
    assert (skip_blanks (sep ++ ch_quote :: ((a ≫= repr_byte) ++ [ch_quote]) ++ b :: rest) = Some (ch_quote :: ((a ≫= repr_byte) ++ [ch_quote]) ++ b :: rest)) as Es
      by by destruct Hsep as [-> | ->].
    cbn [split_loop]. rewrite Es. peek. change (negb (ch_quote =? 0)) with true. cbv iota.
    set (p := ((a ≫= repr_byte) ++ [ch_quote]) ++ b :: rest).
    rewrite (token_loop_next (length (ch_quote :: p)) (ch_quote :: p) false false [] ch_quote p true false []) by done.
    subst p. rewrite <- app_assoc. cbn [app]. rewrite token_loop_quoted; [|done| |done].
    + mrun. rewrite E, (IH fuel sep') by (done || cbn in Hf; lia). by rewrite <- app_assoc.
    + cbn [length]. rewrite length_app. cbn [length]. assert (length a <= length (a ≫= repr_byte))%nat; [|lia].
      clear. induction a as [|c a IH]; [done|]. cbn [mbind list_bind]. rewrite length_app. cbn [length].
      change (mbind repr_byte a) with (a ≫= repr_byte).
      assert (1 <= length (repr_byte c))%nat; [|lia]. unfold repr_byte. repeat case_match; cbn; lia.
Qed.

(** C24: Quoting and splitting are inverse, and splitting is total.  Any sequence of
    byte strings, with blanks, quotes, control characters and NUL bytes in them,
    quoted by [sdscatrepr] and separated by spaces, is split by [sdssplitargs]
    into exactly the original strings; and on every line at all [sdssplitargs]
    ends without reading past the terminator of the line. *)
Theorem sdssplitargs_roundtrip (args : list (list Z)) (line : list Z) : Forall bytes_ok args ->
  sdssplitargs (quote_args args) = Some (Some args) /\ is_Some (sdssplitargs line).
Proof.
  intros Hb. split; [|by destruct (sdssplitargs_total line) as [r ->]].
  apply (split_loop_quoted args _ [] []); [done| |by left]. clear Hb. induction args as [|a args IH]; [cbn; lia|].
  destruct args as [|a' args]; [cbn; lia|]. cbn [quote_args length] in *. rewrite length_app. cbn [length sdscatrepr app] in *. lia.
Qed.

Lemma sdssplitargs_roundtrip_witness :
  sdssplitargs (quote_args [[115; 101; 116]; [107; 32; 34]; [0; 255; 10; 39]]) = Some (Some [[115; 101; 116]; [107; 32; 34]; [0; 255; 10; 39]]) /\
  is_Some (sdssplitargs [34; 97]).
Proof.
  apply (sdssplitargs_roundtrip [[115; 101; 116]; [107; 32; 34]; [0; 255; 10; 39]] [34; 97]).
  repeat constructor; unfold is_byte; lia.
Defined.

End Args.
