(* ===== verification/Networking.v ===== *)
(** * The request parser (networking.c)

    A client sends requests in one of two formats: RESP arrays of bulk strings, or
    inline lines.  The bytes arrive in pieces; they are appended to the query
    buffer, and the parser consumes what it can and keeps its position, the
    arguments read so far and the lengths it waits for in the client structure.

    [parser] holds the fields of the client the two parsers work on, [client] adds
    the flags and the fields of a replication link.  Executing a command is
    another part of the server: the class [Server] lists what the loop uses of it.
    Allocation never changes the content of a buffer, so an sds is the list of its
    bytes; [argv_size] is the size of the allocated argument vector, and a write
    past it is [None], as is a failed assertion. *)

From Stdlib Require Import String Ascii.
From S2P Require Import Prelude Util Args.

Module Networking.
Import Util Args.

(** ** Constants *)

Definition PROTO_IOBUF_LEN := 1024 * 16.
Definition PROTO_INLINE_MAX_SIZE := 1024 * 64.
Definition PROTO_MBULK_BIG_ARG := 1024 * 32.
Definition PROTO_REQ_INLINE := 1.
Definition PROTO_REQ_MULTIBULK := 2.

Definition CLIENT_SLAVE := Z.shiftl 1 0.
Definition CLIENT_MASTER := Z.shiftl 1 1.
Definition CLIENT_MONITOR := Z.shiftl 1 2.
Definition CLIENT_MULTI := Z.shiftl 1 3.
Definition CLIENT_BLOCKED := Z.shiftl 1 4.
Definition CLIENT_CLOSE_AFTER_REPLY := Z.shiftl 1 6.
Definition CLIENT_UNBLOCKED := Z.shiftl 1 7.
Definition CLIENT_ASKING := Z.shiftl 1 9.
Definition CLIENT_CLOSE_ASAP := Z.shiftl 1 10.
Definition CLIENT_REPLY_SKIP_NEXT := Z.shiftl 1 23.
Definition CLIENT_REPLY_SKIP := Z.shiftl 1 24.
Definition BLOCKED_NONE := 0.
Definition BLOCKED_LIST := 1.
Definition BLOCKED_WAIT := 2.
Definition BLOCKED_MODULE := 3.
Definition BLOCKED_STREAM := 4.
Definition BLOCKED_ZSET := 5.

Definition ch_cr := 13.
Definition ch_lf := 10.
Definition ch_star := 42.
Definition ch_dollar := 36.

(** ** Strings *)

(** The position of a character in a C string whose terminator follows the list. *)
Fixpoint strchr (s : list Z) (c : Z) : option Z :=
  match s with
  | [] => None
  | x :: s => if x =? c then Some 0 else if x =? 0 then None else n ← strchr s c; Some (1 + n)
  end.

Definition sdsrange (s : list Z) (start end_ : Z) : list Z :=
  let len := zlen s in
  if len =? 0 then s else
  let start := if start <? 0 then Z.max 0 (len + start) else start in
  let end_ := if end_ <? 0 then Z.max 0 (len + end_) else end_ in
  let newlen := if start >? end_ then 0 else end_ - start + 1 in
  let '(start, newlen) :=
    if negb (newlen =? 0) then
      if start >=? len then (start, 0)
      else if end_ >=? len then (start, if start >? len - 1 then 0 else len - 1 - start + 1)
      else (start, newlen)
    else (0, newlen) in
  take (Z.to_nat newlen) (drop (Z.to_nat start) s).

(** ** The state of a client *)

Record parser := mkParser {
  querybuf : list Z;
  qb_pos : Z;
  argv : list (list Z);     (** the first [argc] arguments *)
  argv_size : Z;
  reqtype : Z;
  multibulklen : Z;
  bulklen : Z
}.

(** The replies of a protocol error. *)
Inductive protocol_error :=
| TooBigInline | UnbalancedQuotes | TooBigMbulkCount | InvalidMbulkLength
| TooBigBulkCount | ExpectedDollar (got : Z) | InvalidBulkLength.

Record client := mkClient {
  prs : parser;
  flags : Z;
  cmd : option (list Z);    (** the name of the command being executed *)
  btype : Z;
  errors : list protocol_error;
  reploff : Z;
  read_reploff : Z;
  pending_querybuf : list Z;
  repl_ack_time : Z
}.

Definition has (f mask : Z) : bool := negb (Z.land f mask =? 0).

Definition set_prs (c : client) (p : parser) : client :=
  mkClient p (flags c) (cmd c) (btype c) (errors c) (reploff c) (read_reploff c) (pending_querybuf c) (repl_ack_time c).
Definition set_flags (c : client) (f : Z) : client :=
  mkClient (prs c) f (cmd c) (btype c) (errors c) (reploff c) (read_reploff c) (pending_querybuf c) (repl_ack_time c).
Definition set_cmd (c : client) (n : option (list Z)) : client :=
  mkClient (prs c) (flags c) n (btype c) (errors c) (reploff c) (read_reploff c) (pending_querybuf c) (repl_ack_time c).
Definition set_reploff (c : client) (o : Z) : client :=
  mkClient (prs c) (flags c) (cmd c) (btype c) (errors c) o (read_reploff c) (pending_querybuf c) (repl_ack_time c).
Definition set_pending (c : client) (ro : Z) (b : list Z) : client :=
  mkClient (prs c) (flags c) (cmd c) (btype c) (errors c) (reploff c) ro b (repl_ack_time c).
Definition set_ack_time (c : client) (t : Z) : client :=
  mkClient (prs c) (flags c) (cmd c) (btype c) (errors c) (reploff c) (read_reploff c) (pending_querybuf c) t.

Definition set_btype (c : client) (b : Z) : client :=
  mkClient (prs c) (flags c) (cmd c) b (errors c) (reploff c) (read_reploff c) (pending_querybuf c) (repl_ack_time c).

(** The reply of the error and [setProtocolError]. *)
Definition setProtocolError (e : protocol_error) (c : client) : client :=
  mkClient (prs c) (Z.lor (flags c) CLIENT_CLOSE_AFTER_REPLY) (cmd c) (btype c) (errors c ++ [e])
    (reploff c) (read_reploff c) (pending_querybuf c) (repl_ack_time c).

(** What is left in the query buffer. *)
Definition pending (p : parser) : list Z := drop (Z.to_nat (qb_pos p)) (querybuf p).
Definition avail (p : parser) : Z := u64 (zlen (querybuf p) - qb_pos p).

Definition set_buf (p : parser) (b : list Z) (pos : Z) : parser :=
  mkParser b pos (argv p) (argv_size p) (reqtype p) (multibulklen p) (bulklen p).
Definition set_reqtype (p : parser) (t : Z) : parser :=
  mkParser (querybuf p) (qb_pos p) (argv p) (argv_size p) t (multibulklen p) (bulklen p).

(** [createClient], and the client that represents a master. *)
Definition createClient : client := mkClient (mkParser [] 0 [] 0 0 0 (-1)) 0 None 0 [] 0 0 [] 0.
Definition masterClient (initial_offset : Z) : client :=
  set_reploff (set_pending (set_flags createClient CLIENT_MASTER) initial_offset []) initial_offset.

(** ** RESP requests *)

(** How a step of the parser ends: it goes on, it needs more data, or the
    request is not valid. *)
Inductive step := Go | More | Fail (e : protocol_error).

(** The line that starts at the position: [None] when the whole of it is not there yet. *)
Definition whole_line (p : parser) : option Z :=
  newline ← strchr (pending p) ch_cr;
  if newline >? s64 (u64 (zlen (querybuf p) - qb_pos p - 2)) then None else Some newline.

(** An unfinished line is an error when it is too long. *)
Definition no_line (p : parser) (e : protocol_error) : step :=
  match strchr (pending p) ch_cr with
  | None => if avail p >? PROTO_INLINE_MAX_SIZE then Fail e else More
  | Some _ => More
  end.

(** The part of [processMultibulkBuffer] that reads the number of arguments;
    [true] when the loop over the arguments follows. *)
Definition multibulk_length (p : parser) : option (parser * step * bool) :=
  if negb (zlen (argv p) =? 0) then None else
  match whole_line p with
  | None => Some (p, no_line p TooBigMbulkCount, false)
  | Some newline =>
      c ← pending p !! O;
      if negb (c =? ch_star) then None else
      digits ← mem_read (pending p) 1 (newline - 1);
      match string2ll digits with
      | None => Some (p, Fail InvalidMbulkLength, false)
      | Some ll =>
          if ll >? 1024 * 1024 then Some (p, Fail InvalidMbulkLength, false) else
          let p := set_buf p (querybuf p) (qb_pos p + newline + 2) in
          if ll <=? 0 then Some (p, Go, false)
          else Some (mkParser (querybuf p) (qb_pos p) (argv p) ll (reqtype p) ll (bulklen p), Go, true)
      end
  end.

Section Loop.
Context (proto_max_bulk_len : Z).

(** The length of the next argument. *)
Definition bulk_length (p : parser) : option (parser * step) :=
  if negb (bulklen p =? -1) then Some (p, Go) else
  match whole_line p with
  | None => Some (p, no_line p TooBigBulkCount)
  | Some newline =>
      c ← pending p !! O;
      if negb (c =? ch_dollar) then Some (p, Fail (ExpectedDollar c)) else
      digits ← mem_read (pending p) 1 (newline - 1);
      match string2ll digits with
      | None => Some (p, Fail InvalidBulkLength)
      | Some ll =>
          if (ll <? 0) || (ll >? proto_max_bulk_len) then Some (p, Fail InvalidBulkLength) else
          let p := set_buf p (querybuf p) (qb_pos p + newline + 2) in
          let p := if (ll >=? PROTO_MBULK_BIG_ARG) && (avail p <=? u64 (ll + 2))
                   then set_buf p (sdsrange (querybuf p) (qb_pos p) (-1)) 0 else p in
          Some (mkParser (querybuf p) (qb_pos p) (argv p) (argv_size p) (reqtype p) (multibulklen p) ll, Go)
      end
  end.

(** [c->argv[c->argc++] = arg], and the argument is complete. *)
Definition push_arg (p : parser) (arg : list Z) : option parser :=
  if zlen (argv p) <? argv_size p then
    Some (mkParser (querybuf p) (qb_pos p) (argv p ++ [arg]) (argv_size p) (reqtype p) (multibulklen p - 1) (-1))
  else None.

(** The bytes of the next argument. *)
Definition bulk_argument (p : parser) : option (parser * step) :=
  if bulklen p + 2 >? LLONG_MAX then None else
  if avail p <? u64 (bulklen p + 2) then Some (p, More)
  else if (qb_pos p =? 0) && (bulklen p >=? PROTO_MBULK_BIG_ARG) && (zlen (querybuf p) =? u64 (bulklen p + 2)) then
    arg ← mem_read (querybuf p) 0 (zlen (querybuf p) - 2);
    p ← push_arg (set_buf p [] 0) arg;
    Some (p, Go)
  else
    arg ← mem_read (querybuf p) (qb_pos p) (bulklen p);
    p ← push_arg (set_buf p (querybuf p) (qb_pos p + (bulklen p + 2))) arg;
    Some (p, Go).

(** [while(c->multibulklen)]: the counter goes down in every turn that goes on. *)
Fixpoint bulk_loop (n : nat) (p : parser) : option (parser * step) :=
  match n with
  | O => Some (p, Go)
  | S n =>
      '(p, r) ← bulk_length p;
      match r with
      | Go =>
          '(p, r) ← bulk_argument p;
          match r with
          | Go => bulk_loop n p
          | _ => Some (p, r)
          end
      | _ => Some (p, r)
      end
  end.

Definition parse_multibulk (p : parser) : option (parser * step) :=
  '(p, r, more) ← (if multibulklen p =? 0 then multibulk_length p else Some (p, Go, true));
  match r with
  | Go => if (more : bool) then
            if multibulklen p >? 0 then bulk_loop (Z.to_nat (multibulklen p)) p else None
          else Some (p, Go)
  | _ => Some (p, r)
  end.

(** The boolean is [C_OK]. *)
Definition finish (c : client) (r : parser * step) : client * bool :=
  match r with
  | (p, Go) => (set_prs c p, true)
  | (p, More) => (set_prs c p, false)
  | (p, Fail e) => (setProtocolError e (set_prs c p), false)
  end.

Definition processMultibulkBuffer (c : client) : option (client * bool) :=
  r ← parse_multibulk (prs c); Some (finish c r).

(** ** Inline requests *)

Definition getClientType_slave (c : client) : bool :=
  negb (has (flags c) CLIENT_MASTER) && has (flags c) CLIENT_SLAVE && negb (has (flags c) CLIENT_MONITOR).

Definition processInlineBuffer (unixtime : Z) (c : client) : option (client * bool) :=
  let p := prs c in
  match strchr (pending p) ch_lf with
  | None =>
      if avail p >? PROTO_INLINE_MAX_SIZE then Some (setProtocolError TooBigInline c, false) else Some (c, false)
  | Some newline =>
      cr ← (if newline =? 0 then Some false else x ← zget (pending p) (newline - 1); Some (x =? ch_cr));
      let querylen := if (cr : bool) then newline - 1 else newline in
      let linefeed_chars := if (cr : bool) then 2 else 1 in
      aux ← mem_read (pending p) 0 querylen;
      args ← sdssplitargs aux;
      match args with
      | None => Some (setProtocolError UnbalancedQuotes c, false)
      | Some args =>
          let c := if (querylen =? 0) && getClientType_slave c then set_ack_time c unixtime else c in
          Some (set_prs c (mkParser (querybuf p) (qb_pos p + (querylen + linefeed_chars)) args
                  (if negb (zlen args =? 0) then zlen args else argv_size p) (reqtype p) (multibulklen p) (bulklen p)), true)
      end
  end.
End Loop.

(** ** The loop over the query buffer *)

(** What the loop uses of the rest of the server.  [processCommand] executes the
    command in [argv]: it returns the server, the client, whether it returned
    [C_OK], and whether the client was freed meanwhile. *)
Class Server (S : Type) := {
  unixtime : S -> Z;
  proto_max_bulk_len : Z;
  client_max_querybuf_len : Z;
  clientsArePaused : S -> S * bool;
  lua_timedout : S -> bool;
  processCommand : S -> client -> S * client * bool * bool
}.

Definition reset_parser (p : parser) : parser :=
  mkParser (querybuf p) (qb_pos p) [] (argv_size p) 0 0 (-1).

Definition resetClient (c : client) : client :=
  let prevcmd := cmd c in
  let c := set_cmd (set_prs c (reset_parser (prs c))) None in
  let f := flags c in
  let f := if negb (has f CLIENT_MULTI) && negb (bool_decide (prevcmd = Some (cstr "asking")))
           then Z.land f (Z.lnot CLIENT_ASKING) else f in
  let f := Z.land f (Z.lnot CLIENT_REPLY_SKIP) in
  let f := if has f CLIENT_REPLY_SKIP_NEXT
           then Z.land (Z.lor f CLIENT_REPLY_SKIP) (Z.lnot CLIENT_REPLY_SKIP_NEXT) else f in
  set_flags c f.

(** The kinds of blocking [unblockClient] knows. *)
Definition known_btype (b : Z) : bool :=
  (b =? BLOCKED_LIST) || (b =? BLOCKED_ZSET) || (b =? BLOCKED_STREAM) || (b =? BLOCKED_WAIT) || (b =? BLOCKED_MODULE).

(** The queue of unblocked clients holds those with this flag. *)
Definition queueClientForReprocessing (c : client) : client := set_flags c (Z.lor (flags c) CLIENT_UNBLOCKED).

(** What [unblockClient] does to the client; a client blocked by a module is reset
    only now ([unblockClientFromModule]).  An unknown kind of blocking is a
    panic. *)
Definition unblockClient (c : client) : option client :=
  if negb (known_btype (btype c)) then None else
  let c := if btype c =? BLOCKED_MODULE then resetClient c else c in
  let c := set_flags c (Z.land (flags c) (Z.lnot CLIENT_BLOCKED)) in
  Some (queueClientForReprocessing (set_btype c BLOCKED_NONE)).

Section Process.
Context {S : Type} `{Server S}.

(** The conditions that stop the loop before the next request is read. *)
Definition stopped (s : S) (c : client) : S * bool :=
  let '(s, paused) := if negb (has (flags c) CLIENT_SLAVE) then clientsArePaused s else (s, false) in
  (s, paused || has (flags c) CLIENT_BLOCKED || (lua_timedout s && has (flags c) CLIENT_MASTER)
      || has (flags c) (Z.lor CLIENT_CLOSE_AFTER_REPLY CLIENT_CLOSE_ASAP)).

(** The request type is determined by its first byte. *)
Definition request_type (p : parser) : option parser :=
  if reqtype p =? 0 then
    c ← pending p !! O;
    Some (set_reqtype p (if c =? ch_star then PROTO_REQ_MULTIBULK else PROTO_REQ_INLINE))
  else Some p.

Definition read_request (s : S) (c : client) : option (client * bool) :=
  p ← request_type (prs c);
  let c := set_prs c p in
  if reqtype p =? PROTO_REQ_INLINE then processInlineBuffer (unixtime s) c
  else if reqtype p =? PROTO_REQ_MULTIBULK then processMultibulkBuffer proto_max_bulk_len c
  else None.

(** The command is executed and the client made ready for the next one; the
    boolean tells whether the client is still there. *)
Definition run_request (s : S) (c : client) : S * client * bool :=
  if zlen (argv (prs c)) =? 0 then (s, resetClient c, true)
  else
    let '(s, c, ok, alive) := processCommand s c in
    let c :=
      if (ok : bool) then
        let c := if has (flags c) CLIENT_MASTER && negb (has (flags c) CLIENT_MULTI)
                 then set_reploff c (read_reploff c - zlen (querybuf (prs c)) + qb_pos (prs c)) else c in
        if negb (has (flags c) CLIENT_BLOCKED) || negb (btype c =? BLOCKED_MODULE) then resetClient c else c
      else c in
    (s, c, alive).

(** The loop of [processInputBuffer]. *)
Fixpoint input_loop (fuel : nat) (s : S) (c : client) : option (S * client * bool) :=
  match fuel with
  | O => None
  | Datatypes.S fuel =>
      if qb_pos (prs c) <? zlen (querybuf (prs c)) then
        let '(s, stop) := stopped s c in
        if (stop : bool) then Some (s, c, true) else
        '(c, ok) ← read_request s c;
        if negb (ok : bool) then Some (s, c, true) else
        let '(s, c, alive) := run_request s c in
        if (alive : bool) then input_loop fuel s c else Some (s, c, false)
      else Some (s, c, true)
  end.

(** Drop what was consumed. *)
Definition trim (p : parser) : parser :=
  if negb (qb_pos p =? 0) then set_buf p (sdsrange (querybuf p) (qb_pos p) (-1)) 0 else p.

Definition processInputBuffer (s : S) (c : client) : option (S * client * bool) :=
  '(s, c, alive) ← input_loop (Datatypes.S (length (pending (prs c)))) s c;
  Some (s, if (alive : bool) then set_prs c (trim (prs c)) else c, alive).

(** With the bytes passed on to the sub-replicas.  For a master the client is read
    after the call, so it must not have been freed. *)
Definition processInputBufferAndReplicate (s : S) (c : client) : option (S * client * bool * list Z) :=
  if negb (has (flags c) CLIENT_MASTER) then
    '(s, c, alive) ← processInputBuffer s c; Some (s, c, alive, [])
  else
    let prev_offset := reploff c in
    '(s, c, alive) ← processInputBuffer s c;
    if negb (alive : bool) then None else
    let applied := u64 (reploff c - prev_offset) in
    if negb (applied =? 0) then
      fed ← mem_read (pending_querybuf c) 0 applied;
      Some (s, set_pending c (read_reploff c) (sdsrange (pending_querybuf c) applied (-1)), alive, fed)
    else Some (s, c, alive, []).

(** How many bytes are asked for: near the end of a big argument only those of
    the argument, so that it ends up alone in the buffer. *)
Definition readlen (p : parser) : Z :=
  if (reqtype p =? PROTO_REQ_MULTIBULK) && negb (multibulklen p =? 0) && negb (bulklen p =? -1)
     && (bulklen p >=? PROTO_MBULK_BIG_ARG) then
    let remaining := s64 (u64 (bulklen p + 2 - zlen (querybuf p))) in
    if (remaining >? 0) && (remaining <? PROTO_IOBUF_LEN) then remaining else PROTO_IOBUF_LEN
  else PROTO_IOBUF_LEN.

(** [read]: an error (that can be retried or not), the end of the stream, or bytes. *)
Inductive read_result := ReadAgain | ReadError | ReadEof | ReadData (bs : list Z).

(** What happened to the client. *)
Inductive outcome := Kept (s : S) (c : client) (fed : list Z) | Freed (s : S).

Definition readQueryFromClient (s : S) (c : client) (r : read_result) : option outcome :=
  match r with
  | ReadAgain => Some (Kept s c [])
  | ReadError | ReadEof => Some (Freed s)
  | ReadData bs =>
      if (zlen bs =? 0) || (zlen bs >? readlen (prs c)) then None else
      let master := has (flags c) CLIENT_MASTER in
      let c := set_prs c (set_buf (prs c) (querybuf (prs c) ++ bs) (qb_pos (prs c))) in
      let c := if master then set_pending c (read_reploff c + zlen bs) (pending_querybuf c ++ bs) else c in
      if zlen (querybuf (prs c)) >? client_max_querybuf_len then Some (Freed s) else
      '(s, c, alive, fed) ← processInputBufferAndReplicate s c;
      Some (if (alive : bool) then Kept s c fed else Freed s)
  end.

(** The body of the loop of [processUnblockedClients]. *)
Definition processUnblockedClient (s : S) (c : client) : option outcome :=
  let c := set_flags c (Z.land (flags c) (Z.lnot CLIENT_UNBLOCKED)) in
  if negb (has (flags c) CLIENT_BLOCKED) && (zlen (querybuf (prs c)) >? 0) then
    '(s, c, alive, fed) ← processInputBufferAndReplicate s c;
    Some (if (alive : bool) then Kept s c fed else Freed s)
  else Some (Kept s c []).
End Process.

(** ** Requests as the sender writes them *)

Inductive request := Resp (args : list (list Z)) | Line (line : list Z) (crlf : bool).

Definition crlf := [ch_cr; ch_lf].
Definition encode_arg (a : list Z) : list Z := ch_dollar :: dec (zlen a) ++ crlf ++ a ++ crlf.
Definition encode_args (args : list (list Z)) : list Z := args ≫= encode_arg.
Definition line_end (b : bool) : list Z := if b then crlf else [ch_lf].
Definition encode (r : request) : list Z :=
  match r with
  | Resp args => ch_star :: dec (zlen args) ++ crlf ++ encode_args args
  | Line l b => l ++ line_end b
  end.
Definition encode_all (rs : list request) : list Z := rs ≫= encode.

(** The arguments of a request; an empty vector is not executed. *)
Definition command (r : request) : list (list Z) :=
  match r with
  | Resp args => args
  | Line l _ => match sdssplitargs l with Some (Some args) => args | _ => [] end
  end.

Definition request_ok (max_bulk : Z) (r : request) : Prop :=
  match r with
  | Resp args => 1 <= zlen args <= 1024 * 1024 /\ Forall (fun a => zlen a <= max_bulk) args
  | Line l b => Forall (fun c => c <> ch_lf /\ c <> 0) l /\ head l <> Some ch_star /\ (b = false -> last l <> Some ch_cr) /\
                zlen (l ++ line_end b) <= PROTO_INLINE_MAX_SIZE /\ (exists args, sdssplitargs l = Some (Some args))
  end.

(** ** Buffers *)

Definition buf_ok (p : parser) : Prop := 0 <= qb_pos p <= zlen (querybuf p) /\ zlen (querybuf p) < 2 ^ 62.

(** The fields of the parser other than the buffer. *)
Definition state (p : parser) := (argv p, argv_size p, reqtype p, multibulklen p, bulklen p).

Lemma zlen_pending p : buf_ok p -> zlen (pending p) = zlen (querybuf p) - qb_pos p.
Proof. intros [H _]. unfold pending, zlen in *. rewrite length_drop. lia. Qed.

Lemma avail_pending p : buf_ok p -> avail p = zlen (pending p).
Proof. intros Hb. unfold avail. rewrite <- zlen_pending by done. apply u64_id. pose proof (zlen_nonneg (pending p)). rewrite zlen_pending in * by done. destruct Hb. unfold in_u64, ULLONG_MAX. lia. Qed.

Lemma pending_advance p n : buf_ok p -> 0 <= n <= zlen (pending p) ->
  pending (set_buf p (querybuf p) (qb_pos p + n)) = drop (Z.to_nat n) (pending p) /\ buf_ok (set_buf p (querybuf p) (qb_pos p + n)).
Proof.
  intros Hb Hn. rewrite zlen_pending in Hn by done. destruct Hb as [H1 H2]. unfold buf_ok, pending, set_buf; cbn [querybuf qb_pos].
  rewrite drop_drop. split; [f_equal; lia|lia].
Qed.

Lemma sdsrange_tail s pos : 0 <= pos <= zlen s -> sdsrange s pos (-1) = drop (Z.to_nat pos) s.
Proof.
  intros Hp. unfold sdsrange. destruct (zlen s =? 0) eqn:E0; zbool.
  { destruct s; [by rewrite drop_nil|rewrite zlen_cons in E0; pose proof (zlen_nonneg s); lia]. }
  rewrite (proj2 (Z.ltb_ge pos 0)) by lia. change (-1 <? 0) with true. cbv iota. rewrite Z.max_r by lia.
  destruct (pos >? zlen s + -1) eqn:E; zbool.
  - cbn. symmetry. apply drop_ge. unfold zlen in *. lia.
  - rewrite (proj2 (Z.eqb_neq _ 0)) by lia. cbn [negb]. rewrite Z.geb_leb, (proj2 (Z.leb_gt _ _)) by lia.
    rewrite Z.geb_leb, (proj2 (Z.leb_gt _ _)) by lia. apply take_ge. rewrite length_drop. unfold zlen in *. lia.
Qed.

Lemma pending_trim p : buf_ok p ->
  pending (set_buf p (sdsrange (querybuf p) (qb_pos p) (-1)) 0) = pending p /\ buf_ok (set_buf p (sdsrange (querybuf p) (qb_pos p) (-1)) 0).
Proof.
  intros Hb. pose proof (zlen_pending p Hb) as Hz. destruct Hb as [H1 H2]. rewrite sdsrange_tail by done. split; [done|].
  unfold buf_ok, set_buf; cbn [querybuf qb_pos]. fold (pending p). pose proof (zlen_nonneg (pending p)). lia.
Qed.

(** ** Lines *)

Definition clean (c : Z) (l : list Z) : Prop := Forall (fun x => x <> c /\ x <> 0) l.

Lemma strchr_app c h rest : clean c h -> strchr (h ++ c :: rest) c = Some (zlen h).
Proof.
  induction 1 as [|x h [Hx H0] Hh IH]; cbn [strchr app]; [by rewrite Z.eqb_refl|].
  rewrite (proj2 (Z.eqb_neq x c) Hx), (proj2 (Z.eqb_neq x 0) H0), IH. mrun. by rewrite zlen_cons.
Qed.

Lemma strchr_clean c h : clean c h -> strchr h c = None.
Proof.
  induction 1 as [|x h [Hx H0] Hh IH]; cbn [strchr]; [done|].
  by rewrite (proj2 (Z.eqb_neq x c) Hx), (proj2 (Z.eqb_neq x 0) H0), IH.
Qed.

(** Two ways to cut the same list: one of the first parts is a prefix of the other. *)
Lemma app_cut {A} (a b x y : list A) : a ++ b = x ++ y ->
  if zlen x <=? zlen a then a = x ++ drop (length x) a /\ y = drop (length x) a ++ b
  else exists d, x = a ++ d /\ b = d ++ y /\ d <> [].
Proof.
  intros E. zcase; unfold zlen in *.
  - apply app_eq_inv in E as [(k & -> & ->)|(k & -> & ->)]; rewrite length_app in *.
    + by rewrite drop_app_length.
    + assert (k = []) as -> by (destruct k; [done|cbn in *; lia]). rewrite app_nil_r, drop_ge by lia. by rewrite app_nil_r.
  - apply app_eq_inv in E as [(k & -> & ->)|(k & -> & ->)]; rewrite length_app in *; [lia|].
    exists k. repeat split; try done. intros ->. cbn in *. lia.
Qed.

(** The line [h] followed by CRLF, when a part of it has arrived. *)
Lemma whole_line_spec p h rest future e : buf_ok p -> clean ch_cr h -> zlen h + 2 <= PROTO_INLINE_MAX_SIZE ->
  pending p ++ future = (h ++ crlf) ++ rest ->
  if zlen (h ++ crlf) <=? zlen (pending p) then whole_line p = Some (zlen h) /\ pending p = (h ++ crlf) ++ drop (length (h ++ crlf)) (pending p)
  else whole_line p = None /\ no_line p e = More.
Proof.
  intros Hb Hh Hl E. pose proof (avail_pending p Hb) as Hav. pose proof (zlen_pending p Hb) as Hz.
  assert (Hcast : s64 (u64 (zlen (querybuf p) - qb_pos p - 2)) = zlen (pending p) - 2).
  { rewrite sN_uN; [lia|lia|]. destruct Hb. lia. }
  apply app_cut in E. rewrite zlen_app in *. change (zlen crlf) with 2 in *. pose proof (zlen_nonneg h).
  destruct (zlen h + 2 <=? zlen (pending p)) eqn:Ec; zbool.
  - destruct E as [E _]. split; [|done]. unfold whole_line. rewrite E at 1. unfold crlf at 1. rewrite <- app_assoc. cbn [app].
    rewrite strchr_app by done. mrun. rewrite Hcast. by zif_false.
  - destruct E as (d & E & _ & Hd). unfold whole_line, no_line. rewrite Hav.
    destruct (strchr (pending p) ch_cr) as [n|] eqn:Es; mrun; [|split; [done|]; by zif_false].
    split; [|done]. assert (Ep : pending p = h ++ [ch_cr]).
    { clear -E Hd Es Hh Ec Hcast. destruct (decide (length (pending p) <= length h)%nat) as [Hle|Hgt].
      - exfalso. assert (pending p `prefix_of` h) as [k ->].
        { assert (Ek : h = pending p ++ take (length h - length (pending p)) d).
          { rewrite <- (take_app_length h crlf) at 1. rewrite E, take_app, take_ge by done. done. }
          by eexists. }
        unfold clean in Hh. apply Forall_app in Hh as [Hh _]. by rewrite strchr_clean in Es.
      - unfold zlen in Ec. assert (length (pending p) = S (length h))%nat as Hn by lia.
        rewrite <- (take_app_length (pending p) d), <- E, Hn, take_app. rewrite take_ge by lia.
        replace (S (length h) - length h)%nat with 1%nat by lia. done. }
    rewrite Ep, strchr_app in Es by done. injection Es as <-. rewrite Hcast, Ep, zlen_app. change (zlen [ch_cr]) with 1. by zif_true.
Qed.

(** ** The parser on a stream of requests *)

Lemma header_clean c n : 0 <= n <= LLONG_MAX -> c = ch_star \/ c = ch_dollar ->
  clean ch_cr (c :: dec n) /\ zlen (c :: dec n) <= 21 /\ string2ll (dec n) = Some n.
Proof.
  intros Hn Hc. assert (in_s64 n) by (unfold in_s64, LLONG_MIN; lia).
  split; [|split; [rewrite zlen_cons; pose proof (dec_zlen n ltac:(done)); lia|by apply string2ll_spec]].
  constructor; [unfold ch_star, ch_dollar, ch_cr in *; lia|]. unfold dec. rewrite (proj2 (Z.ltb_ge n 0)) by lia.
  eapply Forall_impl; [apply udec_digits; unfold UMAX, LLONG_MAX in *; lia|]. unfold ch_0, ch_9, ch_cr. cbn. lia.
Qed.

(** Reading back a header. *)
Lemma header_read q c ds rest : q = ((c :: ds) ++ crlf) ++ rest -> q !! O = Some c /\ mem_read q 1 (zlen (c :: ds) - 1) = Some ds.
Proof.
  intros ->. split; [done|]. rewrite <- app_assoc. change ((c :: ds) ++ crlf ++ rest) with ([c] ++ ds ++ crlf ++ rest). rewrite zlen_cons.
  replace (1 + zlen ds - 1) with (zlen ds) by lia. change 1 with (zlen [c]). apply mem_read_app.
Qed.

Section Bulk.
Context (max_bulk : Z) (Hmax : max_bulk <= LLONG_MAX - 2).

(** What one step consumed: the stream that is left. *)
Definition consumed (p p' : parser) (unit_ : list Z) : Prop :=
  buf_ok p' /\ pending p = unit_ ++ pending p'.

Lemma consumed_advance p q unit_ n : buf_ok p -> pending p = unit_ ++ q -> zlen unit_ = n ->
  consumed p (set_buf p (querybuf p) (qb_pos p + n)) unit_.
Proof.
  intros Hb E Hn. pose proof (zlen_nonneg unit_). pose proof (zlen_nonneg q).
  destruct (pending_advance p n Hb) as [Ep Hb']; [rewrite E, zlen_app; lia|].
  split; [done|]. rewrite Ep, E. rewrite drop_app_length'; [done|]. unfold zlen in *. lia.
Qed.

(** The header of a RESP request. *)
Lemma multibulk_length_spec p n sz rest future : buf_ok p -> state p = ([], sz, PROTO_REQ_MULTIBULK, 0, -1) ->
  1 <= n <= 1024 * 1024 -> let h := (ch_star :: dec n) ++ crlf in pending p ++ future = h ++ rest ->
  if zlen h <=? zlen (pending p) then
    exists p', multibulk_length p = Some (p', Go, true) /\ consumed p p' h /\ state p' = ([], n, PROTO_REQ_MULTIBULK, n, -1)
  else multibulk_length p = Some (p, More, false).
Proof.
  intros Hb [= Hav Hsz Hrt Hmb Hbl] Hn h E.
  destruct (header_clean ch_star n) as (Hc & Hl & Hd); [unfold LLONG_MAX; lia|by left|].
  pose proof (whole_line_spec p (ch_star :: dec n) rest future TooBigMbulkCount Hb Hc) as Hw.
  unfold multibulk_length. rewrite Hav. cbn [zlen length Z.of_nat Z.eqb negb].
  destruct (zlen h <=? zlen (pending p)) eqn:Ec; subst h; rewrite Ec in Hw;
    destruct Hw as [-> Hw]; try (unfold PROTO_INLINE_MAX_SIZE; lia); try done; [|by rewrite Hw].
  set (q := drop (length ((ch_star :: dec n) ++ crlf)) (pending p)) in Hw.
  destruct (header_read _ _ _ _ Hw) as [-> ->]. mrun. rewrite Z.eqb_refl, Hd. cbn [negb]; cbv iota.
  zif_false. cbv iota. zif_false. cbv iota. zif_false. cbv iota.
  eexists. split; [done|].
  destruct (consumed_advance p q _ (zlen (ch_star :: dec n) + 2) Hb Hw) as [Hb' Hp']; [by rewrite zlen_app|].
  rewrite Z.add_assoc in *. unfold set_buf, consumed, state, pending, buf_ok in *; cbn [querybuf qb_pos argv argv_size reqtype multibulklen bulklen] in *. by rewrite Hav, Hrt, Hbl.
Qed.

(** The header of an argument. *)
Lemma bulk_length_spec p av sz mb n rest future : buf_ok p -> state p = (av, sz, PROTO_REQ_MULTIBULK, mb, -1) ->
  0 <= n <= max_bulk -> let h := (ch_dollar :: dec n) ++ crlf in pending p ++ future = h ++ rest ->
  if zlen h <=? zlen (pending p) then
    exists p', bulk_length max_bulk p = Some (p', Go) /\ consumed p p' h /\ state p' = (av, sz, PROTO_REQ_MULTIBULK, mb, n)
  else bulk_length max_bulk p = Some (p, More).
Proof.
  intros Hb [= Hav Hsz Hrt Hmb Hbl] Hn h E.
  destruct (header_clean ch_dollar n) as (Hc & Hl & Hd); [lia|by right|].
  pose proof (whole_line_spec p (ch_dollar :: dec n) rest future TooBigBulkCount Hb Hc) as Hw.
  unfold bulk_length. rewrite Hbl. cbn [Z.eqb negb Pos.eqb].
  destruct (zlen h <=? zlen (pending p)) eqn:Ec; subst h; rewrite Ec in Hw;
    destruct Hw as [-> Hw]; try (unfold PROTO_INLINE_MAX_SIZE; lia); try done; [|by rewrite Hw].
  set (q := drop (length ((ch_dollar :: dec n) ++ crlf)) (pending p)) in Hw.
  destruct (header_read _ _ _ _ Hw) as [-> ->]. mrun. rewrite Z.eqb_refl, Hd. cbn [negb]; cbv iota.
  replace ((n <? 0) || (n >? max_bulk)) with false by lia. cbv iota. eexists. split; [done|].
  destruct (consumed_advance p q _ (zlen (ch_dollar :: dec n) + 2) Hb Hw) as [Hb' Hp']; [by rewrite zlen_app|].
  rewrite Z.add_assoc in *. set (p1 := set_buf p (querybuf p) (qb_pos p + zlen (ch_dollar :: dec n) + 2)) in *.
  assert (Hs : state p1 = (av, sz, PROTO_REQ_MULTIBULK, mb, bulklen p)) by (unfold state; cbn; congruence).
  destruct (pending_trim p1 Hb') as [Ht Htb].
  destruct (_ && _); unfold consumed, state, pending, buf_ok in *; cbn [querybuf qb_pos argv argv_size reqtype multibulklen bulklen set_buf] in *; simplify_eq.
  - split; [|congruence]. split; [done|]. etransitivity; [exact Hp'|]. f_equal. by rewrite Ht.
  - split; [|congruence]. done.
Qed.

(** The bytes of an argument. *)
Lemma bulk_argument_spec p av sz mb a rest future : buf_ok p -> state p = (av, sz, PROTO_REQ_MULTIBULK, mb, zlen a) ->
  zlen a <= max_bulk -> zlen av < sz -> pending p ++ future = (a ++ crlf) ++ rest ->
  if zlen (a ++ crlf) <=? zlen (pending p) then
    exists p', bulk_argument p = Some (p', Go) /\ consumed p p' (a ++ crlf) /\ state p' = (av ++ [a], sz, PROTO_REQ_MULTIBULK, mb - 1, -1)
  else bulk_argument p = Some (p, More).
Proof.
  intros Hb [= Hav Hsz Hrt Hmb Hbl] Ha Hroom E. pose proof (zlen_nonneg a). apply app_cut in E.
  unfold bulk_argument. rewrite Hbl, (avail_pending p Hb). unfold LLONG_MAX in *. zif_false.
  rewrite u64_id by (unfold in_u64, ULLONG_MAX; lia). rewrite zlen_app in *. change (zlen crlf) with 2 in *.
  destruct (zlen a + 2 <=? zlen (pending p)) eqn:Ec; zbool; [|by zif_true].
  zif_false. cbv iota. destruct E as [E _]. set (q := drop (length (a ++ crlf)) (pending p)) in E.
  destruct ((qb_pos p =? 0) && (zlen a >=? PROTO_MBULK_BIG_ARG) && (zlen (querybuf p) =? zlen a + 2)) eqn:Ebig; zbool.
  - assert (Hq : pending p = querybuf p) by (unfold pending; by replace (qb_pos p) with 0).
    rewrite Hq in E. assert (q = []) as Eq.
    { apply (f_equal zlen) in E. rewrite !zlen_app in E. change (zlen crlf) with 2 in E. destruct q; [done|]. rewrite zlen_cons in E. pose proof (zlen_nonneg q). lia. }
    rewrite Eq, app_nil_r in E. replace (zlen (querybuf p) - 2) with (zlen a) by lia. rewrite E.
    rewrite (mem_read_app [] a crlf : mem_read (a ++ crlf) 0 (zlen a) = Some a). mrun. unfold push_arg. cbn [argv argv_size set_buf]. rewrite Hav, Hsz. zif_true. mrun.
    eexists. split; [done|]. unfold consumed, state, buf_ok. cbn [querybuf qb_pos argv argv_size reqtype multibulklen bulklen set_buf].
    rewrite Hq, E. split; [|by rewrite Hrt, Hmb].
    split.
    { split; [split; reflexivity|reflexivity]. }
    unfold pending. cbn [querybuf qb_pos]. rewrite drop_nil. by rewrite app_nil_r.
  - assert (mem_read (querybuf p) (qb_pos p) (zlen a) = Some a) as ->.
    { destruct Hb as [Hq _]. rewrite <- (take_drop (Z.to_nat (qb_pos p)) (querybuf p)). fold (pending p). rewrite E, <- app_assoc.
      replace (qb_pos p) with (zlen (take (Z.to_nat (qb_pos p)) (querybuf p))) at 2 by (unfold zlen in *; rewrite length_take; lia).
      apply mem_read_app. }
    mrun. unfold push_arg. cbn [argv argv_size set_buf]. rewrite Hav, Hsz. zif_true. mrun. eexists. split; [done|].
    destruct (consumed_advance p q _ (zlen a + 2) Hb E) as [Hb' Hp']; [by rewrite zlen_app|].
    unfold consumed, state, pending, buf_ok in *. cbn [querybuf qb_pos argv argv_size reqtype multibulklen bulklen set_buf] in *. by rewrite Hrt, Hmb.
Qed.

(** The parser is in the middle of request [r] and the bytes [cur] of it are left. *)
Inductive reading (p : parser) : request -> list Z -> Prop :=
| rd_start r sz rt : state p = ([], sz, rt, 0, -1) ->
    rt = 0 \/ rt = (match r with Resp _ => PROTO_REQ_MULTIBULK | Line _ _ => PROTO_REQ_INLINE end) -> reading p r (encode r)
| rd_args done_ left_ : left_ <> [] ->
    state p = (done_, zlen done_ + zlen left_, PROTO_REQ_MULTIBULK, zlen left_, -1) -> reading p (Resp (done_ ++ left_)) (encode_args left_)
| rd_bulk done_ a left_ :
    state p = (done_, zlen done_ + zlen (a :: left_), PROTO_REQ_MULTIBULK, zlen (a :: left_), zlen a) ->
    reading p (Resp (done_ ++ a :: left_)) ((a ++ crlf) ++ encode_args left_).

(** The longest unfinished part the parser waits for. *)
Definition wait_limit : Z := Z.max PROTO_INLINE_MAX_SIZE (max_bulk + 2).

(** The result of a parser on a buffer that has a part of the stream: if all of
    [cur] is there it is consumed and the arguments are complete, otherwise the
    parser goes as far as it can and waits. *)
Definition parses (p : parser) (r : request) (cur : list Z) (res : option (parser * step)) : Prop :=
  if zlen cur <=? zlen (pending p) then
    exists p' sz rt, res = Some (p', Go) /\ consumed p p' cur /\ state p' = (command r, sz, rt, 0, -1)
  else
    exists p' d cur', res = Some (p', More) /\ consumed p p' d /\ cur = d ++ cur' /\ reading p' r cur' /\
      zlen (pending p') < zlen cur' /\ zlen (pending p') <= wait_limit.

Lemma consumed_refl p : buf_ok p -> consumed p p [].
Proof. by intros Hb. Qed.

Lemma parses_prefix p p1 u r cur res : consumed p p1 u -> parses p1 r cur res -> parses p r (u ++ cur) res.
Proof.
  intros [Hb Hp] H. unfold parses in *. rewrite Hp, !zlen_app.
  replace (zlen u + zlen cur <=? zlen u + zlen (pending p1)) with (zlen cur <=? zlen (pending p1)) by lia.
  destruct (zlen cur <=? zlen (pending p1)).
  - destruct H as (p' & sz & rt & Hr & [Hb' Hp'] & Hs). exists p', sz, rt.
    split; [done|]. split; [|done]. split; [done|]. by rewrite Hp, Hp', app_assoc.
  - destruct H as (p' & d & cur' & Hr & [Hb' Hp'] & -> & Hrd). exists p', (u ++ d), cur'.
    split; [done|]. split; [split; [done|by rewrite Hp, Hp', app_assoc]|]. split; [by rewrite app_assoc|done].
Qed.

(** A parser that waits where it is. *)
Lemma parses_wait p r u cur : buf_ok p -> reading p r (u ++ cur) -> zlen (pending p) < zlen u -> zlen u <= wait_limit ->
  parses p r (u ++ cur) (Some (p, More)).
Proof.
  intros Hb Hr Hu Hl. unfold parses. pose proof (zlen_nonneg cur). rewrite zlen_app. zif_false. cbv iota.
  exists p, [], (u ++ cur). rewrite zlen_app.
  split; [done|]. split; [by apply consumed_refl|]. split; [done|]. split; [done|lia].
Qed.

(** The argument whose length is known, and the ones after it. *)
Lemma bulk_then done_ a left_ : zlen a <= max_bulk ->
  (forall p future rest, buf_ok p ->
    state p = (done_ ++ [a], zlen (done_ ++ [a]) + zlen left_, PROTO_REQ_MULTIBULK, zlen left_, -1) ->
    pending p ++ future = encode_args left_ ++ rest ->
    parses p (Resp ((done_ ++ [a]) ++ left_)) (encode_args left_) (bulk_loop max_bulk (length left_) p)) ->
  forall p future rest, buf_ok p ->
    state p = (done_, zlen done_ + zlen (a :: left_), PROTO_REQ_MULTIBULK, zlen (a :: left_), zlen a) ->
    pending p ++ future = ((a ++ crlf) ++ encode_args left_) ++ rest ->
    parses p (Resp (done_ ++ a :: left_)) ((a ++ crlf) ++ encode_args left_) (bulk_loop max_bulk (length (a :: left_)) p).
Proof.
  intros Ha IH p future rest Hb Hs E. pose proof (zlen_nonneg a). pose proof (zlen_nonneg left_). rewrite <- app_assoc in E.
  assert (Hlen : bulk_length max_bulk p = Some (p, Go)).
  { injection Hs as _ _ _ _ Hbl. unfold bulk_length. rewrite Hbl. by zif_true. }
  pose proof (bulk_argument_spec p _ _ _ a (encode_args left_ ++ rest) future Hb Hs Ha) as Harg. rewrite zlen_cons in Harg.
  specialize (Harg ltac:(lia) E). cbn [length bulk_loop]. rewrite Hlen. mrun.
  destruct (zlen (a ++ crlf) <=? zlen (pending p)) eqn:Ec; zbool.
  - destruct Harg as (p1 & -> & Hc & Hs1). mrun. apply (parses_prefix _ _ _ _ _ _ Hc).
    replace (done_ ++ a :: left_) with ((done_ ++ [a]) ++ left_) by by rewrite <- app_assoc.
    destruct Hc as [Hb1 Hp1]. apply (IH p1 future rest Hb1).
    + rewrite Hs1, zlen_app, zlen_cons. change (zlen [a]) with 1. replace (1 + zlen left_ - 1) with (zlen left_) by lia. by rewrite Z.add_assoc.
    + rewrite Hp1, <- app_assoc in E. by apply app_inv_head in E.
  - rewrite Harg. mrun. apply parses_wait; [done|by constructor|done|]. rewrite zlen_app. change (zlen crlf) with 2. unfold wait_limit. lia.
Qed.

Lemma args_loop left_ : forall done_ p future rest, Forall (fun a => zlen a <= max_bulk) left_ -> buf_ok p ->
  state p = (done_, zlen done_ + zlen left_, PROTO_REQ_MULTIBULK, zlen left_, -1) ->
  pending p ++ future = encode_args left_ ++ rest ->
  parses p (Resp (done_ ++ left_)) (encode_args left_) (bulk_loop max_bulk (length left_) p).
Proof.
  induction left_ as [|a left_ IH]; intros done_ p future rest Hsz Hb Hs E.
  { unfold parses. cbn [encode_args mbind list_bind]. rewrite zlen_nil. pose proof (zlen_nonneg (pending p)). zif_true. cbv iota.
    exists p. do 2 eexists. split; [done|]. split; [done|]. by rewrite app_nil_r. }
  apply Forall_cons in Hsz as [Ha Hsz].
  assert (Henc : encode_args (a :: left_) = ((ch_dollar :: dec (zlen a)) ++ crlf) ++ (a ++ crlf) ++ encode_args left_).
  { unfold encode_args. cbn [mbind list_bind]. unfold encode_arg. cbn [app]. by rewrite <- !app_assoc. }
  rewrite Henc in *. pose proof (zlen_nonneg a).
  pose proof (bulk_length_spec p _ _ _ (zlen a) (((a ++ crlf) ++ encode_args left_) ++ rest) future Hb Hs) as Hlen. cbv zeta in Hlen.
  specialize (Hlen ltac:(lia)). rewrite <- app_assoc in E. specialize (Hlen E).
  destruct (zlen ((ch_dollar :: dec (zlen a)) ++ crlf) <=? zlen (pending p)) eqn:Ec; zbool.
  - destruct Hlen as (p1 & Hl1 & Hc & Hs1). apply (parses_prefix _ _ _ _ _ _ Hc). destruct Hc as [Hb1 Hp1].
    rewrite Hp1, <- app_assoc in E. apply app_inv_head in E.
    assert (Hloop : bulk_loop max_bulk (length (a :: left_)) p = bulk_loop max_bulk (length (a :: left_)) p1).
    { cbn [length bulk_loop]. rewrite Hl1. injection Hs1 as _ _ _ _ Hbl. unfold bulk_length. rewrite Hbl. mrun. by zif_true. }
    rewrite Hloop. apply (bulk_then done_ a left_ Ha) with future rest; try done.
    intros p2 f2 r2 Hb2 Hs2 E2. apply (IH (done_ ++ [a]) p2 f2 r2); done.
  - cbn [length bulk_loop]. rewrite Hlen. mrun. rewrite <- Henc.
    destruct (header_clean ch_dollar (zlen a)) as (_ & Hl & _); [unfold LLONG_MAX in *; lia|by right|].
    rewrite Henc. apply parses_wait; [done| |done|].
    + rewrite <- Henc. by constructor.
    + rewrite zlen_app. change (zlen crlf) with 2. unfold wait_limit, PROTO_INLINE_MAX_SIZE. lia.
Qed.

Lemma parse_multibulk_spec p args cur future rest : buf_ok p -> reading p (Resp args) cur -> request_ok max_bulk (Resp args) ->
  reqtype p = PROTO_REQ_MULTIBULK -> pending p ++ future = cur ++ rest ->
  parses p (Resp args) cur (parse_multibulk max_bulk p).
Proof.
  intros Hb Hr [Hn Hsz] Hrt E. unfold parse_multibulk. inversion Hr as [r sz rt Hs Ht|dn lf Hne Hs|dn a lf Hs]; subst.
  - assert (rt = PROTO_REQ_MULTIBULK) as -> by (unfold state in Hs; congruence).
    assert (Hmb : multibulklen p = 0) by (unfold state in Hs; congruence). rewrite Hmb. cbn [Z.eqb encode] in *.
    change (ch_star :: dec (zlen args) ++ crlf ++ encode_args args) with ((ch_star :: dec (zlen args)) ++ crlf ++ encode_args args) in *.
    rewrite app_assoc in *. pose proof (multibulk_length_spec p (zlen args) sz (encode_args args ++ rest) future Hb Hs Hn) as Hl.
    cbv zeta in Hl. rewrite <- app_assoc in E. specialize (Hl E).
    destruct (zlen ((ch_star :: dec (zlen args)) ++ crlf) <=? zlen (pending p)) eqn:Ec; zbool.
    + destruct Hl as (p1 & -> & Hc & Hs1). mrun. apply (parses_prefix _ _ _ _ _ _ Hc). destruct Hc as [Hb1 Hp1].
      rewrite Hp1, <- app_assoc in E. apply app_inv_head in E.
      assert (Hmb1 : multibulklen p1 = zlen args) by (unfold state in Hs1; congruence). rewrite Hmb1. zif_true. cbv iota.
      unfold zlen at 1. rewrite Nat2Z.id. by apply (args_loop args [] p1 future rest).
    + rewrite Hl. mrun. apply parses_wait; [done| |done|].
      * rewrite <- app_assoc. by apply (rd_start p (Resp args) sz PROTO_REQ_MULTIBULK); [|right].
      * destruct (header_clean ch_star (zlen args)) as (_ & Hlen & _); [unfold LLONG_MAX; lia|by left|].
        rewrite zlen_app. change (zlen crlf) with 2. unfold wait_limit, PROTO_INLINE_MAX_SIZE. lia.
  - assert (Hmb : multibulklen p = zlen lf) by (unfold state in Hs; congruence). rewrite Hmb.
    assert (0 < zlen lf) by (destruct lf; [done|rewrite zlen_cons; pose proof (zlen_nonneg lf); lia]).
    rewrite (proj2 (Z.eqb_neq _ _)) by lia. mrun. rewrite Hmb. zif_true. cbv iota. unfold zlen at 1. rewrite Nat2Z.id.
    apply (args_loop lf dn p future rest); try done. by apply Forall_app in Hsz as [_ ?].
  - assert (Hmb : multibulklen p = zlen (a :: lf)) by (unfold state in Hs; congruence). rewrite Hmb.
    assert (0 < zlen (a :: lf)) by (rewrite zlen_cons; pose proof (zlen_nonneg lf); lia).
    rewrite (proj2 (Z.eqb_neq _ _)) by lia. mrun. rewrite Hmb. zif_true. cbv iota. unfold zlen at 1. rewrite Nat2Z.id.
    apply Forall_app in Hsz as [_ Hsz]. apply Forall_cons in Hsz as [Ha Hsz].
    apply (bulk_then dn a lf Ha) with future rest; try done. intros p2 f2 r2 Hb2 Hs2 E2. by apply (args_loop lf (dn ++ [a]) p2 f2 r2).
Qed.

(** ** Inline requests *)

(** The fields of the client the parsers leave alone. *)
Definition link (c : client) := (flags c, cmd c, btype c, errors c, reploff c, read_reploff c, pending_querybuf c).

Lemma clean_line l b : Forall (fun c => c <> ch_lf /\ c <> 0) l -> exists h, l ++ line_end b = h ++ [ch_lf] /\ clean ch_lf h /\ h = l ++ (if b then [ch_cr] else []).
Proof.
  intros Hl. exists (l ++ if b then [ch_cr] else []). destruct b; cbn [line_end]; [|rewrite app_nil_r; done].
  rewrite <- app_assoc. split; [done|]. split; [|done]. apply Forall_app. split; [done|]. by repeat constructor.
Qed.

Lemma inline_spec t c l b future rest : buf_ok (prs c) -> request_ok max_bulk (Line l b) ->
  pending (prs c) ++ future = (l ++ line_end b) ++ rest ->
  if zlen (l ++ line_end b) <=? zlen (pending (prs c)) then
    exists c', processInlineBuffer t c = Some (c', true) /\ consumed (prs c) (prs c') (l ++ line_end b) /\ link c' = link c /\
      exists sz, state (prs c') = (command (Line l b), sz, reqtype (prs c), multibulklen (prs c), bulklen (prs c))
  else processInlineBuffer t c = Some (c, false).
Proof.
  intros Hb (Hl & Hhd & Hcr & Hlen & args & Hargs) E. destruct (clean_line l b Hl) as (h & Eh & Hh & Hhl).
  apply app_cut in E. unfold processInlineBuffer. rewrite avail_pending by done.
  destruct (zlen (l ++ line_end b) <=? zlen (pending (prs c))) eqn:Ec; zbool.
  - destruct E as [E _]. set (q := drop (length (l ++ line_end b)) (pending (prs c))) in E.
    assert (Hs : strchr (pending (prs c)) ch_lf = Some (zlen h)).
    { rewrite E, Eh, <- app_assoc. by apply strchr_app. }
    rewrite Hs. pose proof (zlen_nonneg l).
    assert (Hcrq : (if zlen h =? 0 then Some false else x ← zget (pending (prs c)) (zlen h - 1); Some (x =? ch_cr)) = Some b).
    { subst h. destruct b.
      - rewrite zlen_app. change (zlen [ch_cr]) with 1. rewrite (proj2 (Z.eqb_neq _ 0)) by lia. rewrite E. cbn [line_end]. unfold crlf.
        rewrite <- app_assoc. cbn [app]. rewrite zget_app by lia. done.
      - rewrite app_nil_r. destruct l as [|x l' _] using rev_ind; [done|]. rewrite zlen_app. change (zlen [x]) with 1. pose proof (zlen_nonneg l').
        rewrite (proj2 (Z.eqb_neq _ 0)) by lia. rewrite E, <- !app_assoc. cbn [app]. rewrite zget_app by lia. mrun.
        rewrite last_snoc in Hcr. specialize (Hcr eq_refl). rewrite (proj2 (Z.eqb_neq x ch_cr)) by congruence. done. }
    rewrite Hcrq. mrun. assert (Hq : (if b then zlen h - 1 else zlen h) = zlen l).
    { subst h. rewrite zlen_app. destruct b; [change (zlen [ch_cr]) with 1|rewrite zlen_nil]; lia. }
    rewrite Hq. assert (mem_read (pending (prs c)) 0 (zlen l) = Some l) as ->.
    { rewrite E, <- app_assoc. apply (mem_read_app []). }
    mrun. rewrite Hargs. mrun. eexists. split; [done|].
    destruct (consumed_advance (prs c) q (l ++ line_end b) (zlen l + (if b then 2 else 1)) Hb E) as [Hb' Hp'].
    { rewrite zlen_app. by destruct b. }
    unfold command. rewrite Hargs.
    split; [|split; [by destruct (_ && _)|by eexists; destruct (_ && _)]].
    destruct (_ && _); exact (conj Hb' Hp').
  - destruct E as (d & E & _ & Hd). assert (Hp : clean ch_lf (pending (prs c))).
    { rewrite Eh in E. destruct d as [|x d _] using rev_ind; [done|]. rewrite app_assoc in E. apply app_inj_tail in E as [-> _].
      unfold clean in Hh. by apply Forall_app in Hh as [Hh _]. }
    rewrite strchr_clean by done. by zif_false.
Qed.

(** ** One request *)

(** The client after a whole request was read, or as far as the buffer goes. *)
Definition reads (c : client) (r : request) (cur : list Z) (res : option (client * bool)) : Prop :=
  if zlen cur <=? zlen (pending (prs c)) then
    exists c' sz rt, res = Some (c', true) /\ consumed (prs c) (prs c') cur /\ state (prs c') = (command r, sz, rt, 0, -1) /\ link c' = link c
  else
    exists c' d cur', res = Some (c', false) /\ consumed (prs c) (prs c') d /\ cur = d ++ cur' /\ reading (prs c') r cur' /\
      zlen (pending (prs c')) < zlen cur' /\ zlen (pending (prs c')) <= wait_limit /\ link c' = link c.

Lemma request_type_spec p r cur future rest : reading p r cur -> request_ok max_bulk r -> pending p <> [] ->
  pending p ++ future = cur ++ rest ->
  exists p', request_type p = Some p' /\ reading p' r cur /\ querybuf p' = querybuf p /\ qb_pos p' = qb_pos p /\
    reqtype p' = (match r with Resp _ => PROTO_REQ_MULTIBULK | Line _ _ => PROTO_REQ_INLINE end).
Proof.
  intros Hr Hok Hne E. unfold request_type.
  inversion Hr as [r' sz rt Hs Ht|dn lf Hl Hs|dn a lf Hs]; subst; injection Hs as Hs1 Hs2 Hs3 Hs4 Hs5; rewrite Hs3;
    try (eexists; split; [done|]; done).
  destruct Ht as [-> | ->]; [|exists p; repeat split; try done; by destruct r].
  cbn [Z.eqb]. destruct (pending p) as [|x q] eqn:Ep; [done|]. peek. eexists. split; [done|].
  assert (Hx : (x =? ch_star) = match r with Resp _ => true | Line _ _ => false end).
  { destruct r as [args|l b]; cbn [encode app] in E; [by injection E as ->|].
    destruct Hok as (_ & Hhd & _). apply Z.eqb_neq. intros ->. destruct l as [|y l]; [by destruct b|].
    cbn [app] in E. injection E as <- _. by apply Hhd. }
  rewrite Hx. cbn [querybuf qb_pos reqtype set_reqtype]. repeat split; try by destruct r.
  apply (rd_start _ r sz (match r with Resp _ => PROTO_REQ_MULTIBULK | Line _ _ => PROTO_REQ_INLINE end)); [|by right].
  unfold state. cbn. rewrite Hs1, Hs2, Hs4, Hs5. by destruct r.
Qed.
End Bulk.

(** ** What a command may do to its client *)

(** A client that is to be closed. *)
Definition closing (c : client) : bool := has (flags c) (Z.lor CLIENT_CLOSE_AFTER_REPLY CLIENT_CLOSE_ASAP).

(** A client blocked by a module: its arguments are kept until it is unblocked. *)
Definition module_blocked (c : client) : bool := has (flags c) CLIENT_BLOCKED && (btype c =? BLOCKED_MODULE).

(** In these two cases the arguments of the last command stay in the client; no
    request is read before the client is reset. *)
Definition held (c : client) : bool := closing c || module_blocked c.

(** A blocked client is blocked in one of the known ways. *)
Definition blocked_ok (c : client) : bool := negb (has (flags c) CLIENT_BLOCKED) || known_btype (btype c).

(** A link to a master whose applied offset follows its commands: not inside a
    transaction and not to be closed. *)
Definition tracks (c : client) : bool :=
  has (flags c) CLIENT_MASTER && negb (has (flags c) CLIENT_MULTI) && negb (closing c).

(** The fields of the client that belong to its input. *)
Definition same_stream (c c' : client) : Prop :=
  errors c' = errors c /\ has (flags c') CLIENT_MASTER = has (flags c) CLIENT_MASTER /\
  reploff c' = reploff c /\ read_reploff c' = read_reploff c /\ pending_querybuf c' = pending_querybuf c.

(** What the theorems use of the rest of the server.  A command may block its
    client, close it, have it freed, start or end a transaction, change any other
    flag, rewrite the argument vector, pause the clients; it does not touch the
    input that follows it, the replication offsets of a link, or whether the
    client is the link to a master.  [processCommand] returns [C_ERR] only for a
    client that was marked to be closed or was freed, it blocks a client in one of
    the known ways, and it does not free the link to a master, which the caller
    goes on using.  Asking again whether the clients are paused gives the same
    answer. *)
Class CommandLaws (S : Type) `{Server S} := {
  command_input s c s' c' ok : processCommand s c = (s', c', ok, true) ->
    querybuf (prs c') = querybuf (prs c) /\ qb_pos (prs c') = qb_pos (prs c) /\ same_stream c c' /\ (ok = false -> closing c' = true);
  command_blocks s c s' c' ok : processCommand s c = (s', c', ok, true) -> has (flags c) CLIENT_BLOCKED = false -> blocked_ok c' = true;
  command_master s c s' c' ok alive : processCommand s c = (s', c', ok, alive) -> has (flags c) CLIENT_MASTER = true -> alive = true;
  pause_settled s s' b : clientsArePaused s = (s', b) -> clientsArePaused s' = (s', b);
  bulk_limit : 0 <= proto_max_bulk_len <= LLONG_MAX - 2;
  buffer_limit : 0 <= client_max_querybuf_len < 2 ^ 61
}.

(** The limits under which an argument of the greatest accepted length fits in the
    query buffer. *)
Class LimitsFit (S : Type) `{Server S} :=
  limits_fit : Z.max PROTO_INLINE_MAX_SIZE (proto_max_bulk_len + 2) + PROTO_IOBUF_LEN <= client_max_querybuf_len.

Lemma land_keep f a m : Z.land a m = m -> Z.land (Z.land f a) m = Z.land f m.
Proof. intros E. by rewrite <- Z.land_assoc, E. Qed.

(** Resetting a client changes three flags only. *)
Lemma reset_flags c m : Z.land (Z.lnot CLIENT_ASKING) m = m -> Z.land (Z.lnot CLIENT_REPLY_SKIP) m = m ->
  Z.land (Z.lnot CLIENT_REPLY_SKIP_NEXT) m = m -> Z.land CLIENT_REPLY_SKIP m = 0 ->
  Z.land (flags (resetClient c)) m = Z.land (flags c) m.
Proof.
  intros H1 H2 H3 H4. unfold resetClient. cbn [flags set_flags set_cmd set_prs].
  repeat match goal with |- context [if ?b then _ else _] => destruct b end; rewrite ?(land_keep _ _ m) by done;
    rewrite ?Z.land_lor_distr_l, ?H4, ?Z.lor_0_r, ?(land_keep _ _ m) by done; done.
Qed.

Lemma reset_stream c : same_stream c (resetClient c).
Proof. unfold same_stream, has. by rewrite reset_flags. Qed.

Lemma reset_marks c : closing (resetClient c) = closing c /\ tracks (resetClient c) = tracks c /\
  has (flags (resetClient c)) CLIENT_BLOCKED = has (flags c) CLIENT_BLOCKED /\ btype (resetClient c) = btype c.
Proof. unfold tracks, closing, has. by rewrite !reset_flags. Qed.

Lemma link_stream c c' : link c' = link c -> same_stream c c' /\ flags c' = flags c /\ btype c' = btype c.
Proof. intros [= E1 E2 E3 E4 E5 E6 E7]. unfold same_stream. by rewrite E1, E4, E5, E6, E7. Qed.

(** The marks depend on the flags and the kind of blocking only. *)
Lemma marks_flags c c' : flags c' = flags c -> btype c' = btype c ->
  closing c' = closing c /\ module_blocked c' = module_blocked c /\ held c' = held c /\ tracks c' = tracks c.
Proof. intros E1 E2. unfold tracks, held, module_blocked, closing. by rewrite E1, E2. Qed.

(** What stops the loop. *)
Section Stopped.
Context {S : Type} `{Server S}.

Lemma stopped_held (s : S) c : held c = true -> (stopped s c).2 = true.
Proof.
  intros Hh. unfold stopped. destruct (if negb _ then _ else _) as [s1 b]. cbn [snd].
  unfold held, module_blocked in Hh. fold (closing c). destruct (closing c); [by rewrite orb_true_r|].
  destruct (has (flags c) CLIENT_BLOCKED); [|done]. by rewrite orb_true_r.
Qed.

Lemma stopped_unblocked (s : S) c s' : stopped s c = (s', false) -> has (flags c) CLIENT_BLOCKED = false.
Proof.
  unfold stopped. destruct (if negb _ then _ else _) as [s1 b]. intros [= _ E]. by destruct b, (has (flags c) CLIENT_BLOCKED).
Qed.
End Stopped.

(** ** Processing a buffer *)

(** The commands of a sequence of requests. *)
Definition executed (rs : list request) : list (list (list Z)) := filter (fun a => a <> []) (command <$> rs).

Lemma executed_app a b : executed (a ++ b) = executed a ++ executed b.
Proof. unfold executed. by rewrite fmap_app, filter_app. Qed.

(** A request without arguments, a blank line, is skipped. *)
Definition blank (r : request) : Prop := command r = [].

Section Streams.
Context {Srv : Type} `{HS : Server Srv} `{HL : !CommandLaws Srv}.

(** The server with a record of the argument vectors it was given to execute. *)
#[local] Instance logging : Server (Srv * list (list (list Z))) := {
  unixtime s := unixtime s.1;
  proto_max_bulk_len := proto_max_bulk_len;
  client_max_querybuf_len := client_max_querybuf_len;
  clientsArePaused s := let '(s', b) := clientsArePaused s.1 in ((s', s.2), b);
  lua_timedout s := lua_timedout s.1;
  processCommand s c := let '(s', c', ok, alive) := processCommand s.1 c in ((s', s.2 ++ [argv (prs c)]), c', ok, alive)
}.

#[local] Notation log := (list (list (list Z))).
#[local] Notation max_bulk := (@proto_max_bulk_len Srv HS).
#[local] Notation max_buffer := (@client_max_querybuf_len Srv HS).

Lemma max_fits : max_bulk <= LLONG_MAX - 2.
Proof. apply bulk_limit. Qed.

Lemma read_request_spec (s : Srv * log) c r cur future rest : buf_ok (prs c) -> reading (prs c) r cur -> request_ok max_bulk r ->
  pending (prs c) <> [] -> pending (prs c) ++ future = cur ++ rest ->
  reads max_bulk c r cur (read_request s c).
Proof.
  intros Hb Hr Hok Hne E. unfold read_request.
  destruct (request_type_spec max_bulk (prs c) r cur future rest Hr Hok Hne E) as (p & -> & Hr' & Eq & Epos & Hrt). mrun.
  assert (Ep : pending p = pending (prs c)) by (unfold pending; by rewrite Eq, Epos).
  assert (Hb' : buf_ok p) by (unfold buf_ok in *; by rewrite Eq, Epos).
  assert (Hcons : forall p' d, consumed p p' d -> consumed (prs c) p' d) by (unfold consumed; intros; by rewrite <- Ep).
  rewrite Hrt. destruct r as [args|l b].
  - cbn [Z.eqb PROTO_REQ_INLINE PROTO_REQ_MULTIBULK Pos.eqb]. unfold processMultibulkBuffer. cbn [prs set_prs].
    rewrite <- Ep in E. pose proof (parse_multibulk_spec _ max_fits p args cur future rest Hb' Hr' Hok Hrt E) as Hp.
    cbn [proto_max_bulk_len logging].
    unfold parses, reads in *. rewrite <- Ep. destruct (zlen cur <=? zlen (pending p)).
    + destruct Hp as (p' & sz & rt & -> & Hc & Hs). mrun. cbn [finish]. eexists _, sz, rt. split; [done|]. cbn [prs set_prs]. auto.
    + destruct Hp as (p' & d & cur' & -> & Hc & Hd & Hrd & H1 & H2). mrun. cbn [finish]. eexists _, d, cur'. split; [done|]. cbn [prs set_prs]. auto 10.
  - rewrite Z.eqb_refl. inversion Hr' as [r' sz rt Hs Ht| |]; subst. rewrite <- Ep in E.
    pose proof (inline_spec _ (unixtime s) (set_prs c p) l b future rest Hb' Hok E) as Hp. cbn [prs set_prs] in Hp.
    unfold reads. rewrite <- Ep. cbn [encode] in *. injection Hs as Hs1 Hs2 Hs3 Hs4 Hs5.
    destruct (zlen (l ++ line_end b) <=? zlen (pending p)) eqn:Ec; zbool.
    + destruct Hp as (c' & -> & Hc & Hlk & sz' & Hs'). exists c', sz', (reqtype p). rewrite Hs4, Hs5 in Hs'. auto.
    + rewrite Hp. exists (set_prs c p), [], (l ++ line_end b). cbn [prs set_prs].
      split; [done|]. split; [by apply Hcons, consumed_refl|]. split; [done|]. split; [done|]. split; [done|]. split; [|done].
      destruct Hok as (_ & _ & _ & Hlen & _). unfold wait_limit. lia.
Qed.

(** After a request the client is ready for the next one, or it is held; the
    applied offset of a master moves to the end of this request unless a
    transaction is open, the link is to be closed, or nothing was executed. *)
Lemma run_request_spec s l c r sz rt : has (flags c) CLIENT_BLOCKED = false -> state (prs c) = (command r, sz, rt, 0, -1) ->
  exists s' c' alive, run_request (s, l) c = ((s', l ++ executed [r]), c', alive) /\ (has (flags c) CLIENT_MASTER = true -> alive = true) /\
    (alive = true ->
      querybuf (prs c') = querybuf (prs c) /\ qb_pos (prs c') = qb_pos (prs c) /\
      ((module_blocked c' = false /\ exists sz', state (prs c') = ([], sz', 0, 0, -1)) \/ held c' = true) /\
      blocked_ok c' = true /\ errors c' = errors c /\ has (flags c') CLIENT_MASTER = has (flags c) CLIENT_MASTER /\ read_reploff c' = read_reploff c /\ pending_querybuf c' = pending_querybuf c /\
      ((reploff c' = reploff c /\ (tracks c' = true -> blank r /\ tracks c = true)) \/
       reploff c' = read_reploff c - zlen (querybuf (prs c)) + qb_pos (prs c))).
Proof.
  intros Hmb [= Hav Hsz Hrt Hml Hbl]. unfold run_request, executed, blank. rewrite Hav.
  cbn [fmap list_fmap]. destruct (command r) as [|a args] eqn:Ec.
  - cbn [zlen length Z.of_nat Z.eqb]. destruct (reset_stream c) as (H1 & H2 & H3 & H4 & H5). destruct (reset_marks c) as (M1 & M2 & M3 & M4).
    exists s, (resetClient c), true. rewrite filter_cons_False, filter_nil, app_nil_r by tauto. split; [done|]. split; [done|]. intros _.
    split; [done|]. split; [done|]. split; [left; split; [unfold module_blocked; by rewrite M3, Hmb|by eexists]|].
    split; [unfold blocked_ok; by rewrite M3, Hmb|]. repeat (split; [done|]). left. split; [done|]. by rewrite M2.
  - assert (zlen (a :: args) =? 0 = false) as -> by (rewrite zlen_cons; pose proof (zlen_nonneg args); lia).
    rewrite filter_cons_True, filter_nil by done. cbn [processCommand logging fst snd]. rewrite Hav.
    destruct (processCommand s c) as [[[s' c1] ok] alive] eqn:Ecmd. eexists s', _, alive. split; [reflexivity|].
    split; [by eapply command_master|]. intros ->.
    destruct (command_input s c s' c1 ok Ecmd) as (Eq & Epos & (G1 & G2 & G3 & G4 & G5) & Hcl). pose proof (command_blocks s c s' c1 ok Ecmd Hmb) as Hbk.
    destruct ok.
    2:{ specialize (Hcl eq_refl). repeat (split; [done|]). split; [right; unfold held; by rewrite Hcl|]. split; [done|]. repeat (split; [done|]).
        left. split; [done|]. unfold tracks. rewrite Hcl. cbn [negb]. by rewrite andb_false_r. }
    set (c2 := if has (flags c1) CLIENT_MASTER && _ then _ else c1).
    assert (Hc2 : flags c2 = flags c1 /\ btype c2 = btype c1 /\ prs c2 = prs c1 /\ errors c2 = errors c1 /\ read_reploff c2 = read_reploff c1 /\
      pending_querybuf c2 = pending_querybuf c1 /\ ((reploff c2 = reploff c1 /\ tracks c1 = false) \/ reploff c2 = read_reploff c1 - zlen (querybuf (prs c1)) + qb_pos (prs c1))).
    { subst c2. unfold tracks. destruct (has (flags c1) CLIENT_MASTER && negb (has (flags c1) CLIENT_MULTI)); cbn; auto 10. }
    clearbody c2. destruct Hc2 as (F1 & F1' & F2 & F3 & F4 & F5 & F6). destruct (marks_flags c1 c2 F1 F1') as (M1 & M2 & M3 & M4).
    rewrite F1, F1'.
    destruct (negb (has (flags c1) CLIENT_BLOCKED) || negb (btype c1 =? BLOCKED_MODULE)) eqn:Eb.
    + destruct (reset_stream c2) as (H1 & H2 & H3 & H4 & H5). destruct (reset_marks c2) as (R1 & R2 & R3 & R4).
      rewrite H1, H2, H3, H4, H5, R2, M4, F1, F3, F4, F5, G1, G2, G4, G5. assert (prs (resetClient c2) = reset_parser (prs c1)) as -> by (by rewrite <- F2). cbn [reset_parser querybuf qb_pos].
      repeat (split; [done|]). split.
      { left. split; [|by eexists]. unfold module_blocked. rewrite R3, R4, F1, F1'. by destruct (has (flags c1) CLIENT_BLOCKED), (btype c1 =? BLOCKED_MODULE). }
      split; [unfold blocked_ok; by rewrite R3, R4, F1, F1'|].
      repeat (split; [done|]). destruct F6 as [[E6 Ht]|E6]; rewrite E6; [left; rewrite Ht; by split|right; congruence].
    + rewrite F1, M4, F2, F3, F4, F5, G1, G2, G4, G5. repeat (split; [done|]). split.
      { right. unfold held, module_blocked. rewrite F1, F1'. destruct (has (flags c1) CLIENT_BLOCKED), (btype c1 =? BLOCKED_MODULE); try done. by rewrite orb_true_r. }
      split; [unfold blocked_ok; by rewrite F1, F1'|].
      repeat (split; [done|]). destruct F6 as [[E6 Ht]|E6]; rewrite E6; [left; rewrite Ht; by split|right; congruence].
Qed.

(** What the client expects: nothing more, or the rest [cur] of a request and the
    requests after it; if it is held, the parser must be reset first. *)
Inductive awaits (c : client) : list request -> list Z -> list Z -> Prop :=
| aw_idle sz : module_blocked c = false -> state (prs c) = ([], sz, 0, 0, -1) -> awaits c [] [] []
| aw_request r rs cur : module_blocked c = false -> reading (prs c) r cur -> awaits c (r :: rs) cur (cur ++ encode_all rs)
| aw_held rs : held c = true -> awaits c rs (encode_all (take 1 rs)) (encode_all rs).

Lemma awaits_start c rs sz : module_blocked c = false -> state (prs c) = ([], sz, 0, 0, -1) ->
  awaits c rs (encode_all (take 1 rs)) (encode_all rs).
Proof.
  intros Hm Hs. destruct rs as [|r rs]; [by econstructor|]. unfold encode_all. cbn [take mbind list_bind]. rewrite app_nil_r.
  constructor; [done|]. eapply rd_start; [done|by left].
Qed.

(** Processing was stopped with bytes left in the buffer. *)
Definition waiting (s : Srv * log) (c : client) : bool := negb (bool_decide (pending (prs c) = [])) && (stopped s c).2.

(** Nothing more can be parsed. *)
Definition settled (p : parser) (cur : list Z) : Prop :=
  (pending p = [] \/ zlen (pending p) < zlen cur) /\ zlen (pending p) <= wait_limit max_bulk.

Lemma settled_nil p cur : pending p = [] -> settled p cur.
Proof.
  intros E. split; [by left|]. rewrite E, zlen_nil. pose proof (proj1 bulk_limit). unfold wait_limit, PROTO_INLINE_MAX_SIZE. lia.
Qed.

(** Asking again gives the same answer. *)
Lemma stopped_again s c s' b : stopped s c = (s', b) -> stopped s' c = (s', b) /\ s'.2 = s.2.
Proof.
  destruct s as [s l]. unfold stopped. cbn [clientsArePaused logging fst snd lua_timedout].
  destruct (clientsArePaused s) as [s1 b1] eqn:Ep. pose proof (pause_settled s s1 b1 Ep) as Es.
  destruct (negb (has (flags c) CLIENT_SLAVE)); intros [= <- <-]; cbn [fst snd]; [by rewrite Es|done].
Qed.

Lemma reading_nonempty p r cur : reading p r cur -> cur <> [].
Proof.
  intros [r' sz rt _ _|dn lf Hl _|dn a lf _]; [by destruct r' as [?|[|? ?] []]|by destruct lf|by destruct a].
Qed.

(** What processing a buffer does to the client and to the stream it expects:
    [k] requests were executed and the bytes [d] consumed. *)
Record progress (s' : Srv * log) (c c' : client) (rs : list request) (w : list Z) (k : nat) (d cur' w' : list Z) : Prop := mkProgress {
  pg_consumed : consumed (prs c) (prs c') d;
  pg_stream : w = d ++ w';
  pg_awaits : awaits c' (drop k rs) cur' w';
  pg_settled : waiting s' c' = false -> settled (prs c') cur';
  pg_blocked : blocked_ok c = true -> blocked_ok c' = true;
  pg_errors : errors c' = errors c;
  pg_master : has (flags c') CLIENT_MASTER = has (flags c) CLIENT_MASTER;
  pg_read : read_reploff c' = read_reploff c;
  pg_pending : pending_querybuf c' = pending_querybuf c;
  pg_applied :
    (reploff c' = reploff c /\ (tracks c' = true -> tracks c = true /\ Forall blank (take k rs))) \/
    (exists j d1, (j <= k)%nat /\ d1 `prefix_of` d /\ w = d1 ++ encode_all (drop j rs) /\
      reploff c' = read_reploff c - zlen (pending (prs c)) + zlen d1 /\ (tracks c' = true -> Forall blank (drop j (take k rs))))
}.

(** Nothing was read but a part of the current request. *)
Lemma progress_wait s' c c' rs w d cur' w' : consumed (prs c) (prs c') d -> w = d ++ w' -> awaits c' rs cur' w' ->
  (waiting s' c' = false -> settled (prs c') cur') -> link c' = link c -> progress s' c c' rs w 0 d cur' w'.
Proof.
  intros H1 H2 H3 H4 H6. destruct (link_stream c c' H6) as [(E1 & E2 & E3 & E4 & E5) [Ef Eb]].
  destruct (marks_flags c c' Ef Eb) as (_ & _ & _ & Et). constructor; try done. { unfold blocked_ok. by rewrite Ef, Eb. } left. rewrite Et. split; [done|]. by split.
Qed.

(** One request, then the rest. *)
Lemma progress_step s' c c1 c2 c' r rs cur w k d cur' w' :
  consumed (prs c) (prs c1) cur -> link c1 = link c -> querybuf (prs c2) = querybuf (prs c1) -> qb_pos (prs c2) = qb_pos (prs c1) ->
  w = cur ++ encode_all rs -> blocked_ok c2 = true -> errors c2 = errors c1 -> has (flags c2) CLIENT_MASTER = has (flags c1) CLIENT_MASTER ->
  read_reploff c2 = read_reploff c1 -> pending_querybuf c2 = pending_querybuf c1 ->
  ((reploff c2 = reploff c1 /\ (tracks c2 = true -> blank r /\ tracks c1 = true)) \/ reploff c2 = read_reploff c1 - zlen (querybuf (prs c1)) + qb_pos (prs c1)) ->
  progress s' c2 c' rs (encode_all rs) k d cur' w' -> progress s' c c' (r :: rs) w (S k) (cur ++ d) cur' w'.
Proof.
  intros [Hb1 Hp1] Hlk Eq Epos -> E0 E1 E2 E3 E4 E5 []. destruct (link_stream c c1 Hlk) as [(F1 & F2 & F3 & F4 & F5) [Ff Fb]].
  destruct (marks_flags c c1 Ff Fb) as (_ & _ & _ & Ft).
  assert (Ep : pending (prs c2) = pending (prs c1)) by (unfold pending; by rewrite Eq, Epos).
  pose proof (zlen_pending (prs c1) Hb1) as Hz. destruct pg_consumed0 as [Hb' Hp'].
  constructor; try done; try congruence.
  - split; [done|]. by rewrite Hp1, <- Ep, Hp', app_assoc.
  - by rewrite pg_stream0, app_assoc.
  - auto.
  - destruct pg_applied0 as [[-> Ht]|(j & d1 & Hj & [d2 ->] & Hw & -> & Ht)].
    + destruct E5 as [[-> Ht2]| ->].
      * left. split; [done|]. intros H. destruct (Ht H) as [H2 H3]. destruct (Ht2 H2) as [H4 H5]. split; [by rewrite <- Ft|]. by constructor.
      * right. exists 1%nat, cur. split; [lia|]. split; [by exists d|]. split; [done|]. split; [rewrite Hp1, zlen_app, F4; lia|].
        intros H. cbn [take drop]. rewrite drop_0. by apply Ht.
    + right. exists (S j), (cur ++ d1). split; [lia|]. split; [exists d2; by rewrite app_assoc|]. cbn [drop].
      split; [by rewrite Hw, app_assoc|]. split; [|done]. rewrite E3, F4, Ep, Hp1, !zlen_app. lia.
Qed.

Lemma encode_all_app a b : encode_all (a ++ b) = encode_all a ++ encode_all b.
Proof. apply bind_app. Qed.

Lemma nonempty_zlen {A} (l : list A) : l <> [] -> 0 < zlen l.
Proof. intros Hl. destruct l; [done|]. rewrite zlen_cons. pose proof (zlen_nonneg l). lia. Qed.

(** The loop records the requests it executes and, if the client is still there,
    leaves it where the stream continues. *)
Definition processed (s : Srv * log) (c : client) (rs : list request) (w : list Z) (res : option (Srv * log * client * bool)) : Prop :=
  exists s' l' c' alive k, res = Some ((s', l'), c', alive) /\ (k <= length rs)%nat /\ l' = s.2 ++ executed (take k rs) /\
    (has (flags c) CLIENT_MASTER = true -> alive = true) /\
    (alive = true -> exists d cur' w', progress (s', l') c c' rs w k d cur' w').

Lemma processed_wait s s' c c' rs w d cur' w' : s'.2 = s.2 -> progress s' c c' rs w 0 d cur' w' -> processed s c rs w (Some (s', c', true)).
Proof.
  intros El Hp. destruct s' as [s' l']. cbn [snd] in El. exists s', l', c', true, 0%nat. split; [done|]. split; [lia|].
  split; [by rewrite take_0, app_nil_r|]. split; [done|]. by eauto.
Qed.

Lemma input_loop_spec fuel : forall s c rs cur w future, (length (pending (prs c)) < fuel)%nat -> buf_ok (prs c) ->
  awaits c rs cur w -> Forall (request_ok max_bulk) rs -> pending (prs c) ++ future = w -> processed s c rs w (input_loop fuel s c).
Proof.
  induction fuel as [|fuel IH]; [lia|]. intros s c rs cur w future Hf Hb Hx Hok E. cbn [input_loop].
  pose proof (zlen_pending (prs c) Hb) as Hz. destruct (decide (pending (prs c) = [])) as [He|Hne].
  { rewrite He, zlen_nil in Hz. zif_false. eapply processed_wait; [done|]. apply (progress_wait _ _ _ _ _ [] cur w); try done.
    intros _. by apply settled_nil. }
  pose proof (nonempty_zlen _ Hne). zif_true. cbv iota. destruct (stopped s c) as [s1 stop] eqn:Est. destruct (stopped_again s c s1 stop Est) as [Est1 El]. destruct stop.
  { eapply processed_wait; [done|]. apply (progress_wait _ _ _ _ _ [] cur w); try done. unfold waiting. by rewrite Est1, bool_decide_false. }
  destruct Hx as [sz Hmb Hs|r rs cur Hmb Hr|rs Hh].
  { apply app_eq_nil in E as [E _]. done. }
  2:{ pose proof (stopped_held s c Hh) as Hst. by rewrite Est in Hst. }
  apply Forall_cons in Hok as [Hr1 Hok].
  pose proof (read_request_spec s1 c r cur future (encode_all rs) Hb Hr Hr1 Hne E) as Hread. unfold reads in Hread.
  destruct (zlen cur <=? zlen (pending (prs c))).
  - destruct Hread as (c1 & sz & rt & -> & Hc & Hs & Hlk). mrun. cbn [negb].
    destruct (link_stream c c1 Hlk) as [Hst1 [Ef Eb]]. destruct (marks_flags c c1 Ef Eb) as (_ & M2 & _ & _).
    destruct s1 as [s1 l1]. cbn [snd] in El.
    destruct (run_request_spec s1 l1 c1 r sz rt) as (s2 & c2 & alive & -> & Ha & Hk); [rewrite Ef; by apply (stopped_unblocked s c (s1, l1))|done|]. rewrite Ef in Ha.
    assert (Hone : l1 ++ executed [r] = s.2 ++ executed (take 1 (r :: rs))) by by rewrite El.
    destruct alive.
    2:{ exists s2, (l1 ++ executed [r]), c2, false, 1%nat. split; [done|]. split; [cbn [length]; lia|]. by split. }
    destruct (Hk eq_refl) as (E2 & E3 & Hnext & E0 & E1 & E4 & E5 & E6 & E7).
    assert (Hx2 : awaits c2 rs (encode_all (take 1 rs)) (encode_all rs)).
    { destruct Hnext as [(Hm2 & sz' & Hs2)|Hh]; [by eapply awaits_start|by apply aw_held]. }
    destruct Hc as [Hb1 Hpe]. assert (Ep : pending (prs c2) = pending (prs c1)) by (unfold pending; by rewrite E2, E3).
    destruct (IH (s2, l1 ++ executed [r]) c2 rs (encode_all (take 1 rs)) (encode_all rs) future) as (s' & l' & c' & alive & k & -> & Hk' & Hl' & Ha' & Hpg); try done.
    + rewrite Ep. apply reading_nonempty in Hr. rewrite Hpe, length_app in Hf. destruct cur; [done|cbn [length] in Hf; lia].
    + unfold buf_ok in *. by rewrite E2, E3.
    + rewrite Ep. rewrite Hpe, <- app_assoc in E. by apply app_inv_head in E.
    + exists s', l', c', alive, (S k). split; [done|]. split; [cbn [length]; lia|]. split.
      { cbn [snd] in Hl'. rewrite Hl', El, <- app_assoc, <- executed_app. done. }
      rewrite E4, Ef in Ha'. split; [done|]. intros Hal. destruct (Hpg Hal) as (d & cur' & w' & Hpg').
      exists (cur ++ d), cur', w'. by eapply (progress_step _ c c1 c2).
  - destruct Hread as (c1 & d & cur' & -> & Hc & -> & Hr' & H1 & H2 & Hlk). mrun. cbn [negb].
    destruct (link_stream c c1 Hlk) as [_ [Ef Eb]]. destruct (marks_flags c c1 Ef Eb) as (_ & M2 & _ & _).
    eapply processed_wait; [done|]. apply (progress_wait _ _ _ _ _ d cur' (cur' ++ encode_all rs)); try done.
    + by rewrite app_assoc.
    + constructor; [by rewrite M2|done].
    + intros _. split; [by right|done].
Qed.

(** Trimming the buffer changes nothing of this. *)
Lemma awaits_trim c rs cur v p : state p = state (prs c) -> awaits c rs cur v -> awaits (set_prs c p) rs cur v.
Proof.
  intros E [sz Hm Hs|r rs' cur' Hm Hr|rs' Hh]; [apply (aw_idle _ sz); [done|by rewrite <- Hs, <- E]| |by apply aw_held].
  constructor; [done|]. cbn [prs set_prs]. destruct Hr; econstructor; try done; by rewrite E.
Qed.

Lemma trim_spec p : buf_ok p -> pending (trim p) = pending p /\ buf_ok (trim p) /\ state (trim p) = state p /\ qb_pos (trim p) = 0.
Proof.
  intros Hb. unfold trim. destruct (qb_pos p =? 0) eqn:E0; zbool; cbn [negb]; [done|].
  destruct (pending_trim p Hb) as [-> Hb2]. done.
Qed.

Lemma progress_trim s' c c1 rs w k d cur' w' : progress s' c c1 rs w k d cur' w' ->
  progress s' c (set_prs c1 (trim (prs c1))) rs w k d cur' w' /\ qb_pos (trim (prs c1)) = 0.
Proof.
  intros [[P2 P2'] P3 P4 P5 P6 P7 P8 P9 P10 P11]. destruct (trim_spec (prs c1) P2) as (T1 & T2 & T3 & T4). split; [|done].
  constructor; cbn [prs set_prs flags errors reploff read_reploff pending_querybuf]; try done.
  - split; [done|by rewrite T1].
  - by apply awaits_trim.
  - unfold waiting, settled, stopped in *. cbn [prs set_prs flags]. by rewrite T1.
Qed.

Lemma processInputBuffer_spec s c rs cur w future : buf_ok (prs c) ->
  awaits c rs cur w -> Forall (request_ok max_bulk) rs -> pending (prs c) ++ future = w ->
  exists s' l' c' alive k, processInputBuffer s c = Some ((s', l'), c', alive) /\ (k <= length rs)%nat /\ l' = s.2 ++ executed (take k rs) /\
    (has (flags c) CLIENT_MASTER = true -> alive = true) /\
    (alive = true -> exists d cur' w', progress (s', l') c c' rs w k d cur' w' /\ qb_pos (prs c') = 0).
Proof.
  intros Hb Hx Hok E. unfold processInputBuffer.
  destruct (input_loop_spec (S (length (pending (prs c)))) s c rs cur w future) as (s' & l' & c1 & alive & k & -> & Hk & Hl & Ha & Hpg); try done; [lia|]. mrun.
  eexists s', l', _, alive, k. split; [done|]. split; [done|]. split; [done|]. split; [done|]. intros ->.
  destruct (Hpg eq_refl) as (d & cur' & w' & Hpg'). exists d, cur', w'. by apply progress_trim.
Qed.

(** ** A connection *)

Lemma encode_args_app a b : encode_args (a ++ b) = encode_args a ++ encode_args b.
Proof. apply bind_app. Qed.

(** What is left of a request is the end of it. *)
Lemma reading_suffix p r cur : reading p r cur -> exists x, encode r = x ++ cur.
Proof.
  intros [r' sz rt _ _|dn lf _ _|dn a lf _]; [by exists []| |]; cbn [encode]; rewrite encode_args_app.
  - exists (ch_star :: dec (zlen (dn ++ lf)) ++ crlf ++ encode_args dn). cbn [app]. by rewrite <- !app_assoc.
  - exists (ch_star :: dec (zlen (dn ++ a :: lf)) ++ crlf ++ encode_args dn ++ ch_dollar :: dec (zlen a) ++ crlf).
    unfold encode_args at 2. cbn [mbind list_bind]. unfold encode_arg at 1. cbn [app]. rewrite <- !app_assoc. cbn [app]. by rewrite <- !app_assoc.
Qed.

Lemma encode_nonempty r : encode r <> [].
Proof. by destruct r as [?|[|? ?] []]. Qed.

Lemma awaits_suffix c rs cur v : awaits c rs cur v -> exists x, encode_all rs = x ++ v /\
  forall r rs', rs = r :: rs' -> encode r = x ++ cur /\ cur <> [].
Proof.
  intros [sz _ _|r rs' cur' _ Hr|rs' _]; [by exists []| |].
  - destruct (reading_suffix _ _ _ Hr) as [x Ex]. exists x. unfold encode_all. cbn [mbind list_bind]. rewrite Ex, app_assoc. split; [done|].
    intros ? ? [= -> ->]. split; [done|]. by eapply reading_nonempty.
  - exists []. split; [done|]. intros r rs'' ->. unfold encode_all. cbn [take mbind list_bind]. rewrite app_nil_r. split; [done|apply encode_nonempty].
Qed.

(** The client is there, or was freed: by a command or a hang up, or because its
    query buffer grew too big, and then whether processing was stopped before. *)
Inductive status := Connected (c : client) | Closed | Oversize (waited : bool).

(** The server, the argument vectors it was given by this client, the client, the
    bytes in the socket, those passed on to replicas, and whether the last
    processing of the buffer was stopped. *)
Record world := mkWorld {
  w_srv : Srv; w_log : log; w_status : status; w_sock : list Z; w_fed : list Z; w_waiting : bool
}.

(** Bytes arrive; the socket is readable and [read] returns at most [n] of them;
    the peer hangs up; the rest of the server changes its state, or flags of the
    client; a blocked client is unblocked; the queue of unblocked clients is
    processed. *)
Inductive event :=
| Arrive (bs : list Z) | Readable (n : Z) | Hangup | Serve (s : Srv) | SetFlags (f : Z) | Unblock | Resume.

(** Other parts of the server never clear the mark of a client to be closed, and
    whether a client is blocked, in a transaction, or the link to a master is
    changed by its own commands and by unblocking only. *)
Definition own_flags : Z := Z.lor CLIENT_MASTER (Z.lor CLIENT_MULTI CLIENT_BLOCKED).
Definition close_flags : Z := Z.lor CLIENT_CLOSE_AFTER_REPLY CLIENT_CLOSE_ASAP.
Definition other_flags (old new : Z) : Z :=
  Z.lor (Z.land old (Z.lor own_flags close_flags)) (Z.land new (Z.lnot own_flags)).

Definition after (w : world) (o : outcome) (sock : list Z) (big : bool) : world :=
  match o with
  | Kept s c fed => mkWorld s.1 s.2 (Connected c) sock (w_fed w ++ fed) (waiting s c)
  | Freed s => mkWorld s.1 s.2 (if big then Oversize (w_waiting w) else Closed) sock (w_fed w) (w_waiting w)
  end.

Definition with_client (w : world) (c : client) : world :=
  mkWorld (w_srv w) (w_log w) (Connected c) (w_sock w) (w_fed w) (w_waiting w).

Definition world_step (w : world) (e : event) : option world :=
  match w_status w with
  | Connected c =>
      match e with
      | Arrive bs => Some (mkWorld (w_srv w) (w_log w) (Connected c) (w_sock w ++ bs) (w_fed w) (w_waiting w))
      | Readable n =>
          let len := Z.to_nat (Z.min (readlen (prs c)) (Z.max 1 n)) in
          match take len (w_sock w) with
          | [] => Some w
          | bs =>
              o ← readQueryFromClient (w_srv w, w_log w) c (ReadData bs);
              Some (after w o (drop len (w_sock w)) (zlen (querybuf (prs c) ++ bs) >? max_buffer))
          end
      | Hangup => o ← readQueryFromClient (w_srv w, w_log w) c ReadEof; Some (after w o (w_sock w) false)
      | Serve s => Some (mkWorld s (w_log w) (Connected c) (w_sock w) (w_fed w) (w_waiting w))
      | SetFlags f => Some (with_client w (set_flags c (other_flags (flags c) f)))
      | Unblock => if has (flags c) CLIENT_BLOCKED then c ← unblockClient c; Some (with_client w c) else Some w
      | Resume =>
          if has (flags c) CLIENT_UNBLOCKED then
            o ← processUnblockedClient (w_srv w, w_log w) c; Some (after w o (w_sock w) false)
          else Some w
      end
  | _ => Some w
  end.

Fixpoint world_run (w : world) (es : list event) : option world :=
  match es with
  | [] => Some w
  | e :: es => w ← world_step w e; world_run w es
  end.

Definition connect (s : Srv) (c : client) : world := mkWorld s [] (Connected c) [] [] false.

Definition arrived (es : list event) : list Z := es ≫= (fun e => match e with Arrive bs => bs | _ => [] end).

Lemma readlen_range p : 1 <= readlen p <= PROTO_IOBUF_LEN.
Proof. unfold readlen, PROTO_IOBUF_LEN. cbv zeta. repeat case_match; zbool; lia. Qed.

(** The flags the invariant speaks of, after the other operations. *)
Lemma kept_flag f a m : Z.land a m = m -> has (Z.land f a) m = has f m.
Proof. intros E. unfold has. by rewrite land_keep. Qed.

Lemma either_flag f m x : has (Z.lor f m) x = has f x || has m x.
Proof.
  unfold has. rewrite Z.land_lor_distr_l, <- negb_andb. f_equal. apply eq_true_iff_eq. rewrite andb_true_iff, !Z.eqb_eq. apply Z.lor_eq_0_iff.
Qed.

Lemma other_flags_own old new m : Z.land own_flags m = m -> has (other_flags old new) m = has old m.
Proof.
  intros E. unfold has, other_flags. rewrite Z.land_lor_distr_l, land_keep, <- Z.land_assoc.
  - replace (Z.land (Z.lnot own_flags) m) with 0; [by rewrite Z.land_0_r, Z.lor_0_r|].
    rewrite <- E, Z.land_assoc, (Z.land_comm (Z.lnot _)), Z.land_lnot_diag. by rewrite Z.land_0_l.
  - rewrite Z.land_lor_distr_l, E, Z.lor_comm. apply Z.bits_inj'. intros i Hi. rewrite Z.lor_spec, !Z.land_spec. by destruct (Z.testbit _ _), (Z.testbit _ _).
Qed.

Lemma other_flags_close old new : has old close_flags = true -> has (other_flags old new) close_flags = true.
Proof.
  unfold has, other_flags. rewrite !negb_true_iff, !Z.eqb_neq, Z.land_lor_distr_l, land_keep by done. intros H E.
  apply Z.lor_eq_0_iff in E as [E _]. done.
Qed.

Section Connection.
Context (master : bool) (r0 : Z) (reqs : list request) (Hreqs : Forall (request_ok max_bulk) reqs).
Context (Hoff : 0 <= r0 /\ r0 + zlen (encode_all reqs) <= LLONG_MAX).

(** What a link to a master has applied: [j] requests, all but the blank ones of
    the [k] executed unless a transaction is open or the link is to be closed. *)
Definition link_ok (c : client) (fed got : list Z) (k : nat) : Prop :=
  exists j, (j <= k)%nat /\ fed = encode_all (take j reqs) /\ reploff c = r0 + zlen fed /\
    read_reploff c = r0 + zlen got /\ fed ++ pending_querybuf c = got /\
    (tracks c = true -> Forall blank (drop j (take k reqs))).

(** The bytes [got] were read and [y] are to come; [k] requests were executed. *)
Record inv (wait : bool) (c : client) (l : log) (fed got y : list Z) (k : nat) : Prop := mkInv {
  iv_count : (k <= length reqs)%nat;
  iv_log : l = executed (take k reqs);
  iv_buf : buf_ok (prs c) /\ qb_pos (prs c) = 0;
  iv_cli : errors c = [] /\ has (flags c) CLIENT_MASTER = master /\ blocked_ok c = true;
  iv_stream : exists cur v, awaits c (drop k reqs) cur v /\ (wait = false -> settled (prs c) cur) /\ pending (prs c) ++ y = v;
  iv_got : got ++ y = encode_all reqs;
  iv_link : if master then link_ok c fed got k else fed = []
}.

Lemma encode_take_prefix j k : (j <= k)%nat -> encode_all (take j reqs) `prefix_of` encode_all (take k reqs).
Proof. intros Hjk. rewrite <- (Nat.min_l j k) by lia. rewrite <- take_take. eexists. rewrite <- encode_all_app. by rewrite take_drop. Qed.

(** Where the parser stands in the whole stream. *)
Lemma stream_position c k cur v got y : awaits c (drop k reqs) cur v -> pending (prs c) ++ y = v -> got ++ y = encode_all reqs ->
  exists x, got = encode_all (take k reqs) ++ x ++ pending (prs c) /\ encode_all (drop k reqs) = x ++ v /\
    (forall r rs', drop k reqs = r :: rs' -> encode r = x ++ cur /\ cur <> []).
Proof.
  intros Hx <- Hg. destruct (awaits_suffix _ _ _ _ Hx) as (x & Ex & Hr). exists x. split; [|done].
  apply (app_inv_tail y). rewrite Hg. rewrite <- (take_drop k reqs) at 1. rewrite encode_all_app, Ex. by rewrite !app_assoc.
Qed.

(** A master link passes on the bytes up to the applied offset. *)
Lemma replicate_spec (s : Srv * log) c s' c' fed0 f1 got : has (flags c) CLIENT_MASTER = true ->
  processInputBuffer s c = Some (s', c', true) -> pending_querybuf c' = pending_querybuf c ->
  fed0 ++ pending_querybuf c = got -> reploff c = r0 + zlen fed0 -> zlen got <= LLONG_MAX ->
  f1 `prefix_of` got -> fed0 `prefix_of` f1 -> reploff c' = r0 + zlen f1 ->
  exists b fed1, processInputBufferAndReplicate s c = Some (s', set_pending c' (read_reploff c') b, true, fed1) /\ fed0 ++ fed1 = f1 /\ f1 ++ b = got.
Proof.
  intros Hm Hrun Hpq Hgot Hr0 Hlen [y Hf1] [fed1 ->] Hr1. unfold processInputBufferAndReplicate. rewrite Hm. cbn [negb]. rewrite Hrun. mrun. cbn [negb]. cbv iota zeta.
  rewrite Hr1, Hr0, zlen_app. replace (r0 + (zlen fed0 + zlen fed1) - (r0 + zlen fed0)) with (zlen fed1) by lia.
  rewrite Hf1, !zlen_app in Hlen. pose proof (zlen_nonneg fed0). pose proof (zlen_nonneg fed1). pose proof (zlen_nonneg y).
  rewrite u64_id by (unfold in_u64, ULLONG_MAX, LLONG_MAX in *; lia).
  assert (Hpend : pending_querybuf c = fed1 ++ y).
  { apply (app_inv_head fed0). by rewrite Hgot, Hf1, app_assoc. }
  destruct (zlen fed1 =? 0) eqn:E0; zbool; cbn [negb].
  - assert (fed1 = []) as -> by (destruct fed1; [done|rewrite zlen_cons in E0; pose proof (zlen_nonneg fed1); lia]).
    exists (pending_querybuf c'), []. split; [by destruct c'|]. split; [done|]. rewrite Hpq, Hpend, Hf1. by rewrite app_nil_r.
  - rewrite Hpq, Hpend. rewrite (mem_read_app [] fed1 y : mem_read (fed1 ++ y) 0 (zlen fed1) = Some fed1). mrun. eexists _, fed1. split; [done|]. split; [done|].
    rewrite sdsrange_tail by (rewrite zlen_app; lia). unfold zlen. rewrite Nat2Z.id, drop_app_length. by rewrite Hf1.
Qed.

(** The applied offset of a master is always the end of a request. *)
Lemma feed_target s' c1 c2 k k1 v d cur' v' cur got y fed0 :
  progress s' c1 c2 (drop k reqs) v k1 d cur' v' -> awaits c1 (drop k reqs) cur v -> (k1 <= length (drop k reqs))%nat ->
  pending (prs c1) ++ y = v -> got ++ y = encode_all reqs -> link_ok c1 fed0 got k ->
  exists j', (j' <= k + k1)%nat /\ encode_all (take j' reqs) `prefix_of` got /\ fed0 `prefix_of` encode_all (take j' reqs) /\
    reploff c2 = r0 + zlen (encode_all (take j' reqs)) /\ (tracks c2 = true -> Forall blank (drop j' (take (k + k1) reqs))).
Proof.
  intros Hpg Hx Hk1 Hv Hg (j & Hj & Hfed & Ho & Hro & Hpq & Ht).
  assert (Hcut : take (k + k1) reqs = take k reqs ++ take k1 (drop k reqs)) by by rewrite take_take_drop.
  assert (Hlen : (k1 > 0)%nat -> length (take k reqs) = k) by (rewrite length_drop in Hk1; rewrite length_take; lia).
  destruct (pg_applied _ _ _ _ _ _ _ _ _ Hpg) as [[E Ht']|(j1 & d1 & Hj1 & [d2 ->] & Hd1 & E & Ht')].
  { exists j. rewrite E, <- Hfed. split; [lia|]. split; [by eexists|]. split; [done|]. split; [done|].
    intros H. destruct (Ht' H) as [H1 H2]. rewrite Hcut. destruct k1 as [|k1]; [rewrite take_0, app_nil_r; auto|].
    rewrite drop_app_le by (rewrite Hlen; lia). apply Forall_app. auto. }
  destruct (stream_position c1 k cur v got y Hx Hv Hg) as (x & Hgot & Hdrop & _).
  destruct (pg_consumed _ _ _ _ _ _ _ _ _ Hpg) as [_ Hpend].
  assert (Hf : encode_all (take (k + j1) reqs) = encode_all (take k reqs) ++ x ++ d1).
  { apply (app_inv_tail (encode_all (drop (k + j1) reqs))). rewrite <- encode_all_app, take_drop.
    rewrite <- (take_drop k reqs) at 1. rewrite encode_all_app, Hdrop, Hd1, drop_drop. by rewrite <- !app_assoc. }
  exists (k + j1)%nat. split; [lia|].
  split; [rewrite Hf, Hgot, Hpend; eexists; by rewrite <- !app_assoc|].
  split; [subst fed0; apply encode_take_prefix; lia|]. split; [rewrite E, Hro, Hgot, Hf, !zlen_app; lia|].
  intros H. specialize (Ht' H). destruct k1 as [|k1].
  { assert (j1 = 0)%nat as -> by lia. rewrite !Nat.add_0_r, drop_ge by (rewrite length_take; lia). constructor. }
  rewrite Hcut, <- drop_drop. rewrite drop_app_length' by (rewrite Hlen; lia). done.
Qed.

Lemma got_bound got y : got ++ y = encode_all reqs -> zlen got <= LLONG_MAX.
Proof. intros E. destruct Hoff as [H1 H2]. rewrite <- E, zlen_app in H2. pose proof (zlen_nonneg y). lia. Qed.

(** Processing the buffer keeps the invariant. *)
Lemma process_inv s l c fed got y k wt : inv wt c l fed got y k ->
  exists s' l' c' alive fed' k', processInputBufferAndReplicate (s, l) c = Some ((s', l'), c', alive, fed') /\
    (k' <= length reqs)%nat /\ l' = executed (take k' reqs) /\ (k <= k')%nat /\
    if alive then inv (waiting (s', l') c') c' l' (fed ++ fed') got y k' /\ zlen (querybuf (prs c')) <= zlen (querybuf (prs c)) else master = false.
Proof.
  intros [Hk Hl [Hb H0] (He & Hm & Hbk) (cur & v & Hx & _ & Hv) Hg Hlk].
  destruct (processInputBuffer_spec (s, l) c (drop k reqs) cur v y) as (s' & l' & c2 & alive & k1 & Hrun & Hk1 & Hl' & Ha & Hpg); try done.
  { by apply Forall_drop. }
  assert (Hl2 : l' = executed (take (k + k1) reqs)) by (rewrite Hl'; cbn [snd]; by rewrite Hl, <- executed_app, take_take_drop).
  assert (Hfin : forall b fed1, alive = true -> b = pending_querybuf c2 \/ master = true ->
    (if master then link_ok (set_pending c2 (read_reploff c2) b) (fed ++ fed1) got (k + k1) else fed ++ fed1 = []) ->
    inv (waiting (s', l') (set_pending c2 (read_reploff c2) b)) (set_pending c2 (read_reploff c2) b) l' (fed ++ fed1) got y (k + k1) /\ zlen (querybuf (prs c2)) <= zlen (querybuf (prs c))).
  { intros b fed1 -> _ Hlk'. destruct (Hpg eq_refl) as (d & cur' & v' & [[P2 P2'] P3 P4 P5 P6 P7 P8 P9 P10 P11] & Hpos). rewrite drop_drop in P4. split.
    - constructor; cbn [prs errors flags set_pending]; try done.
      + rewrite length_drop in Hk1. lia.
      + split; [congruence|]. split; [congruence|by apply P6].
      + exists cur', v'. split; [|split; [done|]].
        * destruct P4; econstructor; done.
        * apply (app_inv_head d). by rewrite app_assoc, <- P2', Hv.
    - assert (Q : forall p, qb_pos p = 0 -> querybuf p = pending p) by (intros p E; unfold pending; by rewrite E).
      rewrite (Q _ Hpos), (Q _ H0), P2', zlen_app. pose proof (zlen_nonneg d). lia. }
  rewrite length_drop in Hk1. destruct master.
  - specialize (Ha Hm). subst alive. destruct (Hpg eq_refl) as (d & cur' & v' & Hpg' & Hpos).
    destruct (feed_target (s', l') c c2 k k1 v d cur' v' cur got y fed) as (j' & Hj' & Hf1 & Hf0 & Hr2 & Ht); try done; [by rewrite length_drop|].
    destruct Hlk as (j & Hj & Hfed & Ho & Hro & Hpq & _).
    destruct (replicate_spec (s, l) c (s', l') c2 fed (encode_all (take j' reqs)) got Hm Hrun) as (b & fed1 & -> & Ef & Eb); try done.
    { apply Hpg'. }
    { by eapply got_bound. }
    eexists s', l', _, true, fed1, (k + k1)%nat. split; [done|]. split; [lia|]. split; [done|]. split; [lia|].
    apply (Hfin b fed1 eq_refl); [by right|]. exists j'. cbn [reploff read_reploff pending_querybuf set_pending].
    rewrite Ef, Hr2, (pg_read _ _ _ _ _ _ _ _ _ Hpg'). auto 10.
  - unfold processInputBufferAndReplicate. rewrite Hm. cbn [negb]. rewrite Hrun. mrun. eexists s', l', _, alive, [], (k + k1)%nat. split; [done|].
    split; [lia|]. split; [done|]. split; [lia|]. destruct alive; [|done].
    specialize (Hfin (pending_querybuf c2) [] eq_refl). assert (set_pending c2 (read_reploff c2) (pending_querybuf c2) = c2) as Es by by destruct c2.
    rewrite Es in Hfin. apply Hfin; [by left|by rewrite Hlk].
Qed.

(** The client after new bytes were appended to its buffer. *)
Definition appended (c : client) (bs : list Z) : client :=
  let c' := set_prs c (set_buf (prs c) (querybuf (prs c) ++ bs) (qb_pos (prs c))) in
  if has (flags c) CLIENT_MASTER then set_pending c' (read_reploff c + zlen bs) (pending_querybuf c ++ bs) else c'.

Lemma read_data (s : Srv * log) c bs : bs <> [] -> zlen bs <= readlen (prs c) ->
  readQueryFromClient s c (ReadData bs) =
  (if zlen (querybuf (prs c) ++ bs) >? max_buffer then Some (Freed s) else
   '(s, c, alive, fed) ← processInputBufferAndReplicate s (appended c bs); Some (if (alive : bool) then Kept s c fed else Freed s)).
Proof.
  intros Hne Hl. unfold readQueryFromClient, appended. pose proof (nonempty_zlen _ Hne).
  replace ((zlen bs =? 0) || (zlen bs >? readlen (prs c))) with false by lia. cbn [flags read_reploff pending_querybuf set_prs].
  by destruct (has (flags c) CLIENT_MASTER).
Qed.

(** Changes to the client that keep its input and its marks. *)
Lemma inv_client wt c c' l fed got y k : inv wt c l fed got y k -> querybuf (prs c') = querybuf (prs c) -> qb_pos (prs c') = qb_pos (prs c) ->
  same_stream c c' -> blocked_ok c' = true -> (tracks c' = true -> tracks c = true) ->
  (forall rs cur v, awaits c rs cur v -> awaits c' rs cur v) -> inv wt c' l fed got y k.
Proof.
  intros [Hk Hl [Hb H0] (He & Hm & Hbk) (cur & v & Hx & Hw & Hv) Hg Hlk] E1 E2 (S1 & S2 & S3 & S4 & S5) Hbk' Ht Ha.
  assert (Ep : pending (prs c') = pending (prs c)) by (unfold pending; by rewrite E1, E2).
  constructor; try done.
  - unfold buf_ok in *. by rewrite E1, E2.
  - split; [congruence|]. split; [congruence|done].
  - exists cur, v. unfold settled in *. rewrite Ep. auto.
  - destruct master; [|done]. destruct Hlk as (j & Hj & Hf & Ho & Hro & Hpq & Hb'). exists j. rewrite S3, S4, S5. auto 10.
Qed.

Lemma inv_append wt c l fed got y k bs : inv wt c l fed got (bs ++ y) k -> zlen (querybuf (prs c) ++ bs) < 2 ^ 62 ->
  inv true (appended c bs) l fed (got ++ bs) y k /\ querybuf (prs (appended c bs)) = querybuf (prs c) ++ bs.
Proof.
  intros [Hk Hl [Hb H0] (He & Hm & Hbk) (cur & v & Hx & Hw & Hv) Hg Hlk] Hz.
  assert (Ep : prs (appended c bs) = set_buf (prs c) (querybuf (prs c) ++ bs) 0) by (unfold appended; cbv zeta; rewrite H0; by destruct (has _ _)).
  assert (Ef : flags (appended c bs) = flags c /\ btype (appended c bs) = btype c /\ errors (appended c bs) = errors c /\ reploff (appended c bs) = reploff c) by
    (unfold appended; cbv zeta; by destruct (has _ _)).
  destruct Ef as (Ef & Eb & Ee & Er). destruct (marks_flags c (appended c bs) Ef Eb) as (M1 & M2 & M3 & M4).
  split; [|by rewrite Ep]. constructor; try done.
  - rewrite Ep. unfold buf_ok. cbn [querybuf qb_pos set_buf]. pose proof (zlen_nonneg (querybuf (prs c) ++ bs)). split; [lia|done].
  - unfold blocked_ok. by rewrite Ee, Ef, Eb.
  - exists cur, v. split; [|split; [done|]].
    + destruct Hx as [sz Hmb Hs|r rs cur Hmb Hr|rs Hh]; [apply (aw_idle _ sz); [by rewrite M2|by rewrite Ep]| |apply aw_held; by rewrite M3].
      constructor; [by rewrite M2|]. rewrite Ep. by destruct Hr; econstructor.
    + rewrite Ep, <- Hv. unfold pending. cbn [querybuf qb_pos set_buf]. rewrite H0. cbn [Z.to_nat drop]. by rewrite drop_0, <- app_assoc.
  - by rewrite <- app_assoc.
  - destruct master; [|done]. destruct Hlk as (j & Hj & Hf & Ho & Hro & Hpq & Ht). exists j. rewrite Er, M4.
    unfold appended. cbv zeta. rewrite Hm. cbn [read_reploff pending_querybuf set_pending set_prs]. rewrite zlen_app, app_assoc, Hpq.
    split; [done|]. split; [done|]. split; [done|]. split; [lia|]. by split.
Qed.

(** A client that is there, and one that was freed. *)
Definition conn (w : world) (c : client) (got : list Z) (k : nat) : Prop :=
  w_status w = Connected c /\ zlen (querybuf (prs c)) <= max_buffer /\
  exists future, inv (w_waiting w) c (w_log w) (w_fed w) got (w_sock w ++ future) k.
Definition gone (w : world) (k : nat) : Prop :=
  (k <= length reqs)%nat /\ w_log w = executed (take k reqs) /\ (w_status w = Closed \/ w_status w = Oversize true) /\
  exists j, (j <= k)%nat /\ w_fed w = encode_all (take j reqs).

Lemma inv_fed wt c l fed got y k : inv wt c l fed got y k -> exists j, (j <= k)%nat /\ fed = encode_all (take j reqs).
Proof.
  intros [? ? ? ? ? ? Hlk]. destruct master.
  - destruct Hlk as (j & Hj & Hf & _). by exists j.
  - exists 0%nat. split; [lia|done].
Qed.

(** The outcome of processing the buffer of a connected client. *)
Lemma conn_after (w : world) c got sock future k wt : inv wt c (w_log w) (w_fed w) got (sock ++ future) k -> zlen (querybuf (prs c)) <= max_buffer ->
  exists o, ('(s, c, alive, fed) ← processInputBufferAndReplicate (w_srv w, w_log w) c; Some (if (alive : bool) then Kept s c fed else Freed s)) = Some o /\
    w_sock (after w o sock false) = sock /\ ((exists c' k', conn (after w o sock false) c' got k') \/ exists k', gone (after w o sock false) k').
Proof.
  intros Hinv Hz. destruct (process_inv (w_srv w) (w_log w) c _ got _ k wt Hinv) as (s' & l' & c' & alive & fed' & k' & -> & Hk' & Hl' & Hkk & Hal). mrun.
  eexists. split; [done|]. destruct alive; cbn [after w_sock].
  - split; [done|]. left. destruct Hal as [Hinv' Hz']. exists c', k'. split; [done|]. split; [lia|]. by exists future.
  - split; [done|]. right. exists k'. cbn. split; [done|]. split; [done|]. split; [by left|].
    destruct (inv_fed _ _ _ _ _ _ _ Hinv) as (j & Hj & Hf). exists j. split; [lia|done].
Qed.

(** Flags changed by the rest of the server. *)
Lemma inv_flags wt c f l fed got y k : inv wt c l fed got y k -> inv wt (set_flags c (other_flags (flags c) f)) l fed got y k.
Proof.
  intros Hinv. assert (Hcl : closing c = true -> closing (set_flags c (other_flags (flags c) f)) = true) by apply other_flags_close.
  assert (Hmb : module_blocked (set_flags c (other_flags (flags c) f)) = module_blocked c) by (unfold module_blocked; cbn [flags btype set_flags]; by rewrite other_flags_own).
  eapply inv_client; try done.
  - unfold same_stream. cbn [flags set_flags]. by rewrite other_flags_own.
  - pose proof (proj2 (proj2 (iv_cli _ _ _ _ _ _ _ Hinv))) as Hb. unfold blocked_ok in *. cbn [flags btype set_flags]. by rewrite other_flags_own.
  - unfold tracks. cbn [flags set_flags]. rewrite !other_flags_own by done. destruct (closing c); [by rewrite Hcl|]. rewrite !andb_true_iff. tauto.
  - intros rs cur v Ha. destruct Ha as [sz Hm Hs|r rs cur Hm Hr|rs Hh]; [apply (aw_idle _ sz); by rewrite ?Hmb|constructor; by rewrite ?Hmb|].
    apply aw_held. unfold held in *. rewrite Hmb. apply orb_true_iff. apply orb_true_iff in Hh as [Hh|Hh]; auto.
Qed.

(** The flag of the queue of unblocked clients plays no role. *)
Lemma inv_queue wt c f l fed got y k : (forall m, Z.land CLIENT_UNBLOCKED m = 0 -> Z.land f m = Z.land (flags c) m) ->
  inv wt c l fed got y k -> inv wt (set_flags c f) l fed got y k.
Proof.
  intros Hf Hinv. pose proof (proj2 (proj2 (iv_cli _ _ _ _ _ _ _ Hinv))) as Hb.
  assert (Hm : closing (set_flags c f) = closing c /\ module_blocked (set_flags c f) = module_blocked c /\ tracks (set_flags c f) = tracks c /\
    has f CLIENT_MASTER = has (flags c) CLIENT_MASTER /\ blocked_ok (set_flags c f) = blocked_ok c).
  { unfold tracks, blocked_ok, module_blocked, closing, has. cbn [flags btype set_flags]. by rewrite !Hf. }
  destruct Hm as (M1 & M2 & M3 & M4 & M5). eapply inv_client; try done; [by rewrite M5|by rewrite M3|].
  intros rs cur v Ha. destruct Ha as [sz Hm Hs|r rs cur Hm Hr|rs Hh]; [apply (aw_idle _ sz); by rewrite ?M2|constructor; by rewrite ?M2|].
  apply aw_held. unfold held in *. by rewrite M1, M2.
Qed.

Lemma inv_unblock wt c l fed got y k : inv wt c l fed got y k -> has (flags c) CLIENT_BLOCKED = true ->
  exists c', unblockClient c = Some c' /\ inv wt c' l fed got y k /\ querybuf (prs c') = querybuf (prs c).
Proof.
  intros Hinv Hbl. pose proof (proj2 (proj2 (iv_cli _ _ _ _ _ _ _ Hinv))) as Hb. unfold blocked_ok in Hb. rewrite Hbl in Hb. cbn [negb orb] in Hb.
  unfold unblockClient. rewrite Hb. cbn [negb]. eexists. split; [done|]. set (c1 := if btype c =? BLOCKED_MODULE then resetClient c else c).
  assert (Hc1 : same_stream c c1 /\ closing c1 = closing c /\ tracks c1 = tracks c /\ querybuf (prs c1) = querybuf (prs c) /\ qb_pos (prs c1) = qb_pos (prs c)).
  { subst c1. destruct (btype c =? BLOCKED_MODULE); [|by unfold same_stream]. destruct (reset_marks c) as (M1 & M2 & _). pose proof (reset_stream c). auto. }
  destruct Hc1 as (S1 & M1 & M2 & Q1 & Q2). split; [|by rewrite <- Q1].
  set (c' := queueClientForReprocessing _).
  assert (Hf : forall m, Z.land (Z.lnot CLIENT_BLOCKED) m = m -> Z.land CLIENT_UNBLOCKED m = 0 -> has (flags c') m = has (flags c1) m).
  { intros m H1 H2. subst c'. unfold has. cbn [flags set_flags set_btype queueClientForReprocessing]. by rewrite Z.land_lor_distr_l, H2, Z.lor_0_r, land_keep. }
  assert (Hnb : has (flags c') CLIENT_BLOCKED = false).
  { subst c'. unfold has. cbn [flags set_flags set_btype queueClientForReprocessing]. rewrite Z.land_lor_distr_l, Z.lor_comm, <- Z.land_assoc.
    change (Z.land (Z.lnot CLIENT_BLOCKED) CLIENT_BLOCKED) with 0. by rewrite Z.land_0_r. }
  assert (Hc' : closing c' = closing c /\ tracks c' = tracks c /\ module_blocked c' = false).
  { rewrite <- M1, <- M2. unfold tracks, closing, module_blocked. by rewrite Hnb, !Hf. }
  destruct Hc' as (N1 & N2 & N3). destruct S1 as (T1 & T2 & T3 & T4 & T5).
  eapply inv_client; [exact Hinv|done|done| | | |].
  - unfold same_stream. rewrite Hf by done. done.
  - unfold blocked_ok. by rewrite Hnb.
  - by rewrite N2.
  - assert (Hmod : module_blocked c = true \/ c1 = c) by (unfold module_blocked; rewrite Hbl; subst c1; destruct (btype c =? BLOCKED_MODULE); auto).
    assert (Ep : prs c' = prs c1) by done. intros rs cur v Ha. destruct Ha as [sz Hm Hs|r rs cur Hm Hr|rs Hh].
    + destruct Hmod as [Hmod|E1]; [by rewrite Hm in Hmod|]. apply (aw_idle _ sz); [done|]. by rewrite Ep, E1.
    + destruct Hmod as [Hmod|E1]; [by rewrite Hm in Hmod|]. constructor; [done|]. by rewrite Ep, E1.
    + unfold held in Hh. rewrite <- N1 in Hh. destruct (closing c') eqn:Ec; [apply aw_held; unfold held; by rewrite Ec|].
      cbn [orb] in Hh. unfold module_blocked in Hh. apply andb_true_iff in Hh as [_ Hh].
      apply (awaits_start _ _ (argv_size (prs c))); [done|]. rewrite Ep. subst c1. by rewrite Hh.
Qed.

Context `{HF : !LimitsFit Srv}.

Lemma conn_readable w c got k n : conn w c got k -> exists w', world_step w (Readable n) = Some w' /\
  ((exists c' got' k', conn w' c' got' k' /\ got' ++ w_sock w' = got ++ w_sock w) \/ exists k', gone w' k').
Proof.
  intros (Est & Hz & future & Hinv). unfold world_step. rewrite Est. pose proof (readlen_range (prs c)).
  set (len := Z.to_nat (Z.min (readlen (prs c)) (Z.max 1 n))). destruct (take len (w_sock w)) as [|x bs'] eqn:Et.
  { exists w. split; [done|]. left. exists c, got, k. split; [|done]. split; [done|]. split; [done|]. by exists future. }
  set (bs := x :: bs') in *. assert (Hsock : w_sock w = bs ++ drop len (w_sock w)) by (rewrite <- Et; by rewrite take_drop).
  assert (Hbs : zlen bs <= readlen (prs c)) by (rewrite <- Et; unfold zlen; rewrite length_take; lia).
  rewrite read_data by done. pose proof buffer_limit as Hbl. destruct (zlen (querybuf (prs c) ++ bs) >? max_buffer) eqn:Ebig; zbool; mrun.
  - eexists. split; [done|]. right. exists k. unfold gone. cbn. split; [apply Hinv|]. split; [apply Hinv|].
    split; [right|exact (inv_fed _ _ _ _ _ _ _ Hinv)]. f_equal. destruct (w_waiting w) eqn:Ew; [done|]. exfalso.
    destruct Hinv as [_ _ [_ H0] _ (cur & v & _ & Hw & _) _ _]. destruct (Hw eq_refl) as [_ Hlim].
    assert (Hq : querybuf (prs c) = pending (prs c)) by (unfold pending; by rewrite H0).
    rewrite zlen_app, Hq in Ebig. pose proof limits_fit. unfold wait_limit in Hlim. lia.
  - rewrite Hsock, <- app_assoc in Hinv. destruct (inv_append _ _ _ _ _ _ _ _ Hinv) as [Hinv' Hq']; [lia|].
    destruct (conn_after w _ _ _ _ _ _ Hinv') as (o & -> & Esock & Hres); [by rewrite Hq'|]. mrun. eexists. split; [done|].
    destruct Hres as [(c' & k' & Hc')|Hg]; [left|by right]. exists c', (got ++ bs), k'. split; [done|]. rewrite Esock, <- app_assoc. f_equal. done.
Qed.

Lemma conn_step w c got k e : conn w c got k -> (exists future, got ++ w_sock w ++ arrived [e] ++ future = encode_all reqs) ->
  exists w', world_step w e = Some w' /\
    ((exists c' got' k', conn w' c' got' k' /\ got' ++ w_sock w' = got ++ w_sock w ++ arrived [e]) \/ exists k', gone w' k').
Proof.
  intros Hc [future Hf]. destruct e as [bs|n| |s|f| |]; unfold arrived in *; cbn [mbind list_bind] in *; rewrite !app_nil_r in *;
    try (apply (conn_readable w c got k n Hc)); pose proof Hc as (Est & Hz & future' & Hinv); unfold world_step; rewrite Est.
  - eexists. split; [done|]. left. exists c, got, k. split; [|done]. split; [done|]. split; [done|]. exists future.
    destruct Hinv as [H1 H2 H3 H4 (cur & v & Hx & Hs & Hv) Hg H6]. constructor; try done.
    + exists cur, v. cbn [w_sock w_waiting]. rewrite <- app_assoc. split; [done|]. split; [done|].
      rewrite <- Hv. f_equal. rewrite <- Hg in Hf. by apply app_inv_head in Hf.
    + cbn [w_sock]. by rewrite <- !app_assoc.
  - cbn [readQueryFromClient]. mrun. eexists. split; [done|]. right. exists k. split; [apply Hinv|]. split; [apply Hinv|]. split; [by left|].
    exact (inv_fed _ _ _ _ _ _ _ Hinv).
  - eexists. split; [done|]. left. exists c, got, k. split; [|done]. split; [done|]. split; [done|]. by exists future'.
  - eexists. split; [done|]. left. eexists _, got, k. split; [|done]. split; [done|]. split; [done|]. exists future'. by apply inv_flags.
  - destruct (has (flags c) CLIENT_BLOCKED) eqn:Eb; [|exists w; split; [done|]; left; by exists c, got, k].
    destruct (inv_unblock _ _ _ _ _ _ _ Hinv Eb) as (c' & -> & Hinv' & Eq). mrun. eexists. split; [done|]. left. exists c', got, k.
    split; [|done]. split; [done|]. split; [by rewrite Eq|]. by exists future'.
  - destruct (has (flags c) CLIENT_UNBLOCKED) eqn:Eu; [|exists w; split; [done|]; left; by exists c, got, k].
    unfold processUnblockedClient. set (c1 := set_flags c _).
    assert (Hinv1 : inv (w_waiting w) c1 (w_log w) (w_fed w) got (w_sock w ++ future') k).
    { apply inv_queue; [|done]. intros m Hm. apply land_keep. apply Z.bits_inj'. intros i Hi.
      rewrite Z.land_spec, Z.lnot_spec by done. apply (f_equal (fun z => Z.testbit z i)) in Hm. rewrite Z.land_spec, Z.bits_0 in Hm.
      by destruct (Z.testbit CLIENT_UNBLOCKED i), (Z.testbit m i). }
    destruct (negb (has (flags c1) CLIENT_BLOCKED) && (zlen (querybuf (prs c1)) >? 0)) eqn:Eg.
    + destruct (conn_after w _ _ _ _ _ _ Hinv1) as (o & -> & Esock & Hres); [done|]. mrun. eexists. split; [done|].
      destruct Hres as [(c' & k' & Hc')|Hg]; [left|by right]. exists c', got, k'. split; [done|]. by rewrite Esock.
    + mrun. eexists. split; [done|]. left. exists c1, got, k. cbn [after w_sock]. split; [|done]. split; [done|]. split; [done|]. exists future'. cbn.
      rewrite app_nil_r. destruct Hinv1 as [H1 H2 H3 H4 (cur & v & Hx & Hs & Hv) Hg H6]. constructor; try done. exists cur, v. split; [done|]. split; [|done].
      unfold waiting. intros Hw. apply settled_nil. destruct (decide (pending (prs c1) = [])) as [|Hne]; [done|exfalso].
      rewrite bool_decide_false in Hw by done. cbn [negb andb] in Hw. pose proof (nonempty_zlen _ Hne) as Hp. destruct H3 as [Hb H0]. rewrite (zlen_pending _ Hb), H0 in Hp.
      assert (has (flags c1) CLIENT_BLOCKED = true) as Hbl by (destruct (has (flags c1) CLIENT_BLOCKED); [done|]; cbn [negb andb] in Eg; lia).
      destruct (stopped (w_srv w, w_log w) c1) as [s1 b] eqn:Est1. cbn [snd] in Hw. subst b. by rewrite (stopped_unblocked _ _ _ Est1) in Hbl.
Qed.

Lemma gone_run w k es : gone w k -> world_run w es = Some w.
Proof.
  intros (_ & _ & Hst & _). induction es as [|e es IH]; [done|]. cbn [world_run]. unfold world_step.
  destruct Hst as [->| ->]; mrun; exact IH.
Qed.

(** After any sequence of events: the client is there, or it was freed. *)
Definition outcome_ok (w : world) (bytes : list Z) : Prop :=
  (exists c got k, conn w c got k /\ got ++ w_sock w = bytes) \/ exists k, gone w k.

Lemma conn_run es : forall w c got k, conn w c got k -> (exists future, got ++ w_sock w ++ arrived es ++ future = encode_all reqs) ->
  exists w', world_run w es = Some w' /\ outcome_ok w' (got ++ w_sock w ++ arrived es).
Proof.
  induction es as [|e es IH]; intros w c got k Hc [future Hf]; cbn [world_run].
  - exists w. split; [done|]. left. exists c, got, k. unfold arrived. cbn [mbind list_bind]. by rewrite app_nil_r.
  - assert (Ha : arrived (e :: es) = arrived [e] ++ arrived es) by (unfold arrived; cbn [mbind list_bind]; by rewrite app_nil_r).
    rewrite Ha in *. destruct (conn_step w c got k e Hc) as (w1 & -> & Hres); [exists (arrived es ++ future); by rewrite <- app_assoc in Hf|].
    mrun. destruct Hres as [(c1 & got1 & k1 & Hc1 & E1)|[k1 Hg]].
    + destruct (IH w1 c1 got1 k1 Hc1) as (w' & Hr & Hok).
      { exists future. rewrite app_assoc, E1, <- Hf. by rewrite <- !app_assoc. }
      exists w'. split; [done|]. rewrite app_assoc, E1, <- !app_assoc in Hok. exact Hok.
    + rewrite (gone_run w1 k1 es Hg). exists w1. split; [done|]. right. by exists k1.
Qed.

(** Unless processing was stopped, the executed requests are the complete ones. *)
Lemma conn_complete w c got k : conn w c got k -> zlen (encode_all (take k reqs)) <= zlen got /\
  (w_waiting w = false -> (k < length reqs)%nat -> zlen got < zlen (encode_all (take (S k) reqs))).
Proof.
  intros (_ & _ & future & [_ _ _ _ (cur & v & Hx & Hs & Hv) Hg _]).
  destruct (stream_position _ k cur v got _ Hx Hv Hg) as (x & Hgot & _ & Hr). rewrite Hgot, !zlen_app.
  pose proof (zlen_nonneg x). pose proof (zlen_nonneg (pending (prs c))). split; [lia|]. intros Hw Hk. destruct (Hs Hw) as [Hs' _].
  destruct (drop k reqs) as [|r rs] eqn:Ed; [apply (f_equal length) in Ed; rewrite length_drop in Ed; cbn in Ed; lia|].
  assert (Hlk : reqs !! k = Some r) by (rewrite <- (Nat.add_0_r k), <- lookup_drop, Ed; done).
  destruct (Hr r rs eq_refl) as [Er Hne]. apply nonempty_zlen in Hne.
  rewrite (take_S_r _ _ _ Hlk), encode_all_app, zlen_app. unfold encode_all at 3. cbn [mbind list_bind]. rewrite app_nil_r, Er, zlen_app.
  destruct Hs' as [Hs'|Hs']; [rewrite Hs', zlen_nil|]; lia.
Qed.

Lemma conn_start s0 c : prs c = prs createClient -> flags c = (if master then CLIENT_MASTER else 0) -> errors c = [] ->
  pending_querybuf c = [] -> (master = true -> reploff c = r0 /\ read_reploff c = r0) -> conn (connect s0 c) c [] 0.
Proof.
  intros Ep Ef Ee Eq Er. assert (Hb : has (flags c) CLIENT_BLOCKED = false) by (rewrite Ef; by destruct master).
  split; [done|]. pose proof buffer_limit as Hbl. split; [rewrite Ep; change (zlen (querybuf (prs createClient))) with 0; lia|].
  exists (encode_all reqs). cbn [connect w_waiting w_log w_fed w_sock app]. constructor; rewrite ?Ep; try done.
  - lia.
  - unfold blocked_ok. rewrite Hb, Ef. split; [done|]. split; [by destruct master|done].
  - eexists _, _. split; [|split; [|reflexivity]].
    + apply (awaits_start _ _ 0); [unfold module_blocked; by rewrite Hb|by rewrite Ep].
    + intros _. by apply settled_nil.
  - destruct master; [|done]. destruct (Er eq_refl) as [E1 E2]. exists 0%nat. rewrite E1, E2, Eq, zlen_nil, Z.add_0_r. by repeat split.
Qed.
End Connection.

Context `{HF : !LimitsFit Srv}.


(** C23: A replica passes on to its own replicas the replication stream it has
    applied, byte for byte.  For the link to a master, under the same arbitrary
    delivery and the same assumptions, the bytes passed on are at any time the
    encodings of the first [j] requests of the stream, whole requests only, and
    not more than the [k] that were executed; unless a transaction is open or
    the link is to be closed they are all of those, but for blank lines that
    were read since.  The applied offset counts exactly the bytes passed on, and
    together with the pending buffer they are all the bytes read so far, which
    the read offset counts. *)
Theorem replication_stream_proxied (s0 : Srv) (r0 : Z) (reqs : list request) (es : list event) (future : list Z) :
  Forall (request_ok max_bulk) reqs -> 0 <= r0 /\ r0 + zlen (encode_all reqs) <= LLONG_MAX ->
  arrived es ++ future = encode_all reqs ->
  exists w k j, world_run (connect s0 (masterClient r0)) es = Some w /\ (j <= k <= length reqs)%nat /\
    w_log w = executed (take k reqs) /\ w_fed w = encode_all (take j reqs) /\
    match w_status w with
    | Connected c => exists got, got ++ w_sock w = arrived es /\ w_fed w ++ pending_querybuf c = got /\
        reploff c = r0 + zlen (w_fed w) /\ read_reploff c = r0 + zlen got /\
        (has (flags c) CLIENT_MULTI = false -> closing c = false -> Forall blank (drop j (take k reqs)))
    | Closed => True
    | Oversize waited => waited = true
    end.
Proof.
  intros Hok Hlen Hes.
  destruct (conn_run true r0 reqs Hok Hlen es (connect s0 (masterClient r0)) (masterClient r0) [] 0) as (w & Hrun & Hout); [by apply conn_start|by exists future|].
  exists w. destruct Hout as [(c & got & k & (-> & _ & fu & [H1 H2 H3 (_ & Hm & _) _ _ Hl]) & E)|(k & Hk & Hl & Hst & j & Hj & Hf)]; exists k.
  - destruct Hl as (j & Hj & Hf & Ho & Hr & Hp & Ht). exists j. split; [done|]. split; [lia|]. split; [done|]. split; [done|].
    exists got. do 4 (split; [done|]). intros H4 H5. apply Ht. unfold tracks. by rewrite Hm, H4, H5.
  - exists j. split; [done|]. split; [lia|]. split; [done|]. split; [done|]. by destruct Hst as [->| ->].
Qed.
End Streams.

(** ** A server on which the assumptions hold, with the default limits *)

(** Its state says whether the clients are paused.  QUIT closes, BLPOP blocks,
    PAUSE pauses, SPOP rewrites its arguments, MULTI and EXEC open and close a
    transaction. *)
Definition sample_command (s : bool) (c : client) : bool * client * bool * bool :=
  let name := default [] (head (argv (prs c))) in
  let flag m := set_flags c (Z.lor (flags c) m) in
  if bool_decide (name = cstr "QUIT") then (s, flag CLIENT_CLOSE_AFTER_REPLY, false, true)
  else if bool_decide (name = cstr "BLPOP") then (s, set_btype (flag CLIENT_BLOCKED) BLOCKED_LIST, true, true)
  else if bool_decide (name = cstr "PAUSE") then (true, c, true, true)
  else if bool_decide (name = cstr "MULTI") then (s, flag CLIENT_MULTI, true, true)
  else if bool_decide (name = cstr "EXEC") then (s, set_flags c (Z.land (flags c) (Z.lnot CLIENT_MULTI)), true, true)
  else if bool_decide (name = cstr "SPOP") then
    let p := prs c in (s, set_prs c (mkParser (querybuf p) (qb_pos p) [cstr "SREM"] 1 (reqtype p) (multibulklen p) (bulklen p)), true, true)
  else (s, c, true, true).

#[global] Instance sample_server : Server bool := {
  unixtime _ := 0;
  proto_max_bulk_len := 512 * 1024 * 1024;
  client_max_querybuf_len := 1024 * 1024 * 1024;
  clientsArePaused s := (s, s);
  lua_timedout _ := false;
  processCommand := sample_command
}.

#[global] Instance sample_server_laws : CommandLaws bool.
Proof.
  split; cbn [processCommand sample_server].
  - intros s c s' c' ok. unfold sample_command, same_stream, closing. repeat case_bool_decide; intros [= <- <- <-]; cbn;
      rewrite ?either_flag, ?kept_flag, ?orb_false_r by done; repeat split; try done; intros; by rewrite orb_true_r.
  - intros s c s' c' ok. unfold sample_command, blocked_ok. repeat case_bool_decide; intros [= <- <- <-] Hb; cbn;
      rewrite ?either_flag, ?kept_flag, ?Hb by done; done.
  - intros s c s' c' ok alive. unfold sample_command. repeat case_bool_decide; by intros [= _ _ _ <-].
  - cbn. by intros s s' b [= <- <-].
  - cbn. unfold LLONG_MAX. lia.
  - cbn. lia.
Qed.

#[global] Instance sample_limits : LimitsFit bool.
Proof. unfold LimitsFit. cbn. unfold PROTO_INLINE_MAX_SIZE, PROTO_IOBUF_LEN. lia. Qed.

(** A SET in RESP, an inline PING with a quoted argument, a BLPOP that blocks, a
    blank line, a GET, a QUIT, and a request after it. *)
Definition sample_requests : list request :=
  [Resp [cstr "SET"; cstr "k"; [0; 13; 10]]; Line (cstr "PING 'a b'") true; Resp [cstr "BLPOP"]; Line [] false; Resp [cstr "GET"; []];
   Line (cstr "QUIT") false; Resp [cstr "PING"]].
Definition sample_stream : list Z := encode_all sample_requests.
Definition sample_events : list (event (Srv := bool)) :=
  [Arrive (take 7 sample_stream); Readable 5; Readable 1; Serve true; Arrive (take 52 (drop 7 sample_stream)); Readable 40; Serve false;
   SetFlags CLIENT_UNBLOCKED; Resume; Readable 20000; Arrive (drop 59 sample_stream); Readable 12; Unblock; Resume].

Example sample_run :
  (fun w => (w_log w, w_waiting w, zlen (w_sock w))) <$> world_run (connect false createClient) sample_events =
  Some ([[cstr "SET"; cstr "k"; [0; 13; 10]]; [cstr "PING"; cstr "a b"]; [cstr "BLPOP"]], false, 24).
Proof. vm_compute. reflexivity. Qed.

Lemma sample_requests_ok : Forall (request_ok (512 * 1024 * 1024)) sample_requests.
Proof.
  repeat constructor; cbn; try lia; try done; try (by eexists); try (unfold PROTO_INLINE_MAX_SIZE; vm_compute; by intros); repeat constructor; done || lia.
Qed.


(** The stream of a master with a transaction. *)
Definition sample_repl_requests : list request :=
  [Resp [cstr "SET"; cstr "k"; cstr "1"]; Line [] false; Resp [cstr "MULTI"]; Resp [cstr "SPOP"]; Resp [cstr "EXEC"]; Line [] true].
Definition sample_repl_events : list (event (Srv := bool)) :=
  [Arrive (take 50 (encode_all sample_repl_requests)); Readable 45; Readable 5; Arrive (drop 50 (encode_all sample_repl_requests)); Readable 20000].

Example sample_repl_run :
  (fun n => (fun w => (zlen (w_log w), w_fed w)) <$> world_run (connect false (masterClient 100)) (take n sample_repl_events)) <$> [3%nat; 5%nat] =
  [Some (2, encode_all (take 1 sample_repl_requests)); Some (4, encode_all (take 5 sample_repl_requests))].
Proof. vm_compute. reflexivity. Qed.

Lemma replication_stream_proxied_witness :
  exists w k j, world_run (connect false (masterClient 100)) sample_repl_events = Some w /\ (j <= k <= 6)%nat /\
    w_log w = executed (take k sample_repl_requests) /\ w_fed w = encode_all (take j sample_repl_requests) /\
    match w_status w with
    | Connected c => exists got, got ++ w_sock w = arrived sample_repl_events /\ w_fed w ++ pending_querybuf c = got /\
        reploff c = 100 + zlen (w_fed w) /\ read_reploff c = 100 + zlen got /\
        (has (flags c) CLIENT_MULTI = false -> closing c = false -> Forall blank (drop j (take k sample_repl_requests)))
    | Closed => True
    | Oversize waited => waited = true
    end.
Proof.
  apply (replication_stream_proxied false 100 sample_repl_requests sample_repl_events []).
  - repeat constructor; cbn; try lia; try done; try (by eexists); try (unfold PROTO_INLINE_MAX_SIZE; vm_compute; by intros); repeat constructor; done || lia.
  - split; vm_compute; by intros.
  - vm_compute. reflexivity.
Defined.

End Networking.
