(* ===== verification/NetSafety.v ===== *)
(** * The request parser on arbitrary input

    The theorems of [Networking] are about clients that follow the protocol.  Here
    nothing is assumed of the bytes: the invariant [client_ok] of a client holds
    after every read, and under it the parser is memory safe, terminates, and no
    assertion of it fails. *)

From Stdlib Require Import String.
From S2P Require Import Prelude Util Args Networking.

Module NetSafety.
Import Util Args Networking.

Section Parser.
Context (max_bulk : Z) (Hmax : 0 <= max_bulk <= LLONG_MAX - 2).

(** Where a parser can be between two reads. *)
Inductive phase (p : parser) : Prop :=
| ph_new sz rt : state p = ([], sz, rt, 0, -1) -> rt = 0 \/ rt = PROTO_REQ_INLINE -> phase p
| ph_header sz : state p = ([], sz, PROTO_REQ_MULTIBULK, 0, -1) -> head (pending p) = Some ch_star -> phase p
| ph_args av mb bl : state p = (av, zlen av + mb, PROTO_REQ_MULTIBULK, mb, bl) -> 0 < mb -> -1 <= bl <= max_bulk -> phase p.

Lemma strchr_range s c n : strchr s c = Some n -> 0 <= n < zlen s /\ s !! Z.to_nat n = Some c.
Proof.
  revert n. induction s as [|x s IH]; [done|]. intros n. cbn [strchr]. rewrite zlen_cons. pose proof (zlen_nonneg s).
  destruct (x =? c) eqn:E; zbool; [intros [= <-]; subst; split; [lia|done]|].
  destruct (x =? 0); [done|]. destruct (strchr s c) as [m|]; mrun; [|done]. intros [= <-].
  destruct (IH m eq_refl) as [H1 H2]. split; [lia|]. by rewrite Z2Nat.inj_add, Nat.add_1_l by lia.
Qed.

Lemma whole_line_range p n : buf_ok p -> whole_line p = Some n -> 0 <= n /\ n + 2 <= zlen (pending p) /\ pending p !! Z.to_nat n = Some ch_cr.
Proof.
  intros Hb. unfold whole_line. destruct (strchr (pending p) ch_cr) as [m|] eqn:E; mrun; [|done].
  rewrite sN_uN by (destruct Hb; lia). rewrite <- (zlen_pending p Hb). zcase; [done|]. intros [= <-].
  destruct (strchr_range _ _ _ E) as [H1 H2]. split; [lia|]. split; [lia|done].
Qed.

(** A line that does not start with CR has a first byte and a tail to read. *)
Lemma header_safe p n : buf_ok p -> whole_line p = Some n -> exists c q, pending p = c :: q /\
  (c <> ch_cr -> exists ds, mem_read (pending p) 1 (n - 1) = Some ds) /\
  let p' := set_buf p (querybuf p) (qb_pos p + n + 2) in buf_ok p' /\ zlen (pending p') = zlen (pending p) - (n + 2).
Proof.
  intros Hb Hw. destruct (whole_line_range p n Hb Hw) as (H1 & H2 & H3). destruct (pending p) as [|c q] eqn:Ep; [rewrite zlen_nil in H2; lia|].
  exists c, q. split; [done|]. split.
  - intros Hc. assert (n <> 0) by (intros ->; by injection H3). eexists. apply mem_read_safe; lia.
  - destruct (pending_advance p (n + 2) Hb) as [Ea Hb']; [rewrite Ep; lia|]. rewrite Z.add_assoc in *. cbv zeta. split; [done|].
    rewrite Ea, Ep. unfold zlen in *. rewrite length_drop. lia.
Qed.

(** A step that is safe: the buffer only gets shorter. *)
Definition shrinks (p p' : parser) : Prop := buf_ok p' /\ zlen (pending p') <= zlen (pending p) /\ zlen (querybuf p') <= zlen (querybuf p).

Lemma shrinks_refl p : buf_ok p -> shrinks p p.
Proof. intros Hb. split; [done|lia]. Qed.

Lemma shrinks_trans p q r : shrinks p q -> shrinks q r -> shrinks p r.
Proof. intros (?&?&?) (?&?&?). split; [done|lia]. Qed.

Lemma multibulk_length_safe p sz : buf_ok p -> state p = ([], sz, PROTO_REQ_MULTIBULK, 0, -1) -> head (pending p) = Some ch_star ->
  exists p' r more, multibulk_length p = Some (p', r, more) /\ shrinks p p' /\
    match r with
    | Go => zlen (pending p') < zlen (pending p) /\
            if more then exists n, 0 < n /\ state p' = ([], n, PROTO_REQ_MULTIBULK, n, -1) else state p' = state p
    | More => p' = p
    | Fail _ => True
    end.
Proof.
  intros Hb [= Hav Hsz Hrt Hmb Hbl] Hh. unfold multibulk_length. rewrite Hav. cbn [zlen length Z.of_nat Z.eqb negb].
  destruct (whole_line p) as [n|] eqn:Ew.
  - destruct (whole_line_range p n Hb Ew) as (Hn1 & Hn2 & _).
    destruct (header_safe p n Hb Ew) as (c & q & Ep & Hds & Hb' & Hz). rewrite Ep in Hh. injection Hh as ->. destruct Hds as [ds Hds]; [done|].
    rewrite Hds, Ep. cbn [lookup list_lookup]. mrun. rewrite Z.eqb_refl. cbn [negb]. cbv iota. rewrite <- Ep.
    destruct (string2ll ds) as [ll|]; [|exists p, (Fail InvalidMbulkLength), false; split; [done|]; by split; [apply shrinks_refl|]].
    destruct (ll >? 1024 * 1024); [exists p, (Fail InvalidMbulkLength), false; split; [done|]; by split; [apply shrinks_refl|]|].
    set (p1 := set_buf p (querybuf p) (qb_pos p + n + 2)) in *.
    destruct (ll <=? 0) eqn:El; zbool.
    + exists p1, Go, false. split; [done|]. split; [split; [done|cbn [querybuf set_buf p1]; lia]|]. split; [lia|done].
    + eexists _, Go, true. split; [done|]. unfold shrinks, state, buf_ok, pending in *. cbn [querybuf qb_pos argv argv_size reqtype multibulklen bulklen p1 set_buf] in *.
      split; [lia|]. split; [lia|]. exists ll. by rewrite Hav, Hrt, Hbl.
  - exists p, (no_line p TooBigMbulkCount), false. split; [done|]. split; [by apply shrinks_refl|]. unfold no_line. repeat case_match; done.
Qed.

Lemma fail_safe (Q : parser -> Prop) p e : buf_ok p ->
  exists p' r, Some (p, Fail e) = Some (p', r) /\ shrinks p p' /\ match r with Go => Q p' | More => p' = p | Fail _ => True end.
Proof. intros Hb. exists p, (Fail e). split; [done|]. by split; [apply shrinks_refl|]. Qed.

Lemma bulk_length_safe p av mb bl : buf_ok p -> state p = (av, zlen av + mb, PROTO_REQ_MULTIBULK, mb, bl) -> -1 <= bl <= max_bulk ->
  exists p' r, bulk_length max_bulk p = Some (p', r) /\ shrinks p p' /\
    match r with
    | Go => exists bl', 0 <= bl' <= max_bulk /\ state p' = (av, zlen av + mb, PROTO_REQ_MULTIBULK, mb, bl')
    | More => p' = p
    | Fail _ => True
    end.
Proof.
  intros Hb Hst Hbnd. pose proof Hst as [= Hav Hsz Hrt Hmb Hbl]. unfold bulk_length. rewrite Hbl. destruct (bl =? -1) eqn:E1; zbool; cbn [negb].
  2:{ exists p, Go. split; [done|]. split; [by apply shrinks_refl|]. exists bl. split; [lia|done]. }
  destruct (whole_line p) as [n|] eqn:Ew.
  - destruct (whole_line_range p n Hb Ew) as (Hn1 & Hn2 & _). destruct (header_safe p n Hb Ew) as (c & q & Ep & Hds & Hb' & Hz).
    assert (pending p !! O = Some c) as -> by (by rewrite Ep). mrun. destruct (c =? ch_dollar) eqn:Ec; zbool; cbn [negb]; [|by apply (fail_safe (fun p' => exists bl', _ /\ state p' = _))].
    destruct Hds as [ds ->]; [subst c; done|]. mrun. destruct (string2ll ds) as [ll|]; [|by apply (fail_safe (fun p' => exists bl', _ /\ state p' = _))].
    destruct ((ll <? 0) || (ll >? max_bulk)) eqn:El; [by apply (fail_safe (fun p' => exists bl', _ /\ state p' = _))|]. apply orb_false_iff in El as [El1 El2]. zbool.
    set (p1 := set_buf p (querybuf p) (qb_pos p + n + 2)) in *. destruct (pending_trim p1 Hb') as [Ht Htb].
    assert (Hp1 : shrinks p p1) by (split; [done|cbn [querybuf set_buf p1]; lia]).
    pose proof (zlen_pending p1 Hb') as Hz1. pose proof (zlen_nonneg (pending p1)). destruct Hb' as [Hq1 Hq2].
    destruct ((ll >=? PROTO_MBULK_BIG_ARG) && (avail p1 <=? u64 (ll + 2))); eexists _, Go; (split; [done|]).
    + assert (Hs : shrinks p1 (set_buf p1 (sdsrange (querybuf p1) (qb_pos p1) (-1)) 0)).
      { split; [done|]. rewrite Ht. cbn [querybuf set_buf]. rewrite sdsrange_tail by done. fold (pending p1). lia. }
      split; [exact (shrinks_trans _ _ _ Hp1 Hs)|]. exists ll. split; [lia|]. unfold state; cbn. congruence.
    + split; [exact Hp1|]. exists ll. split; [lia|]. unfold state; cbn. congruence.
  - exists p, (no_line p TooBigBulkCount). split; [done|]. split; [by apply shrinks_refl|]. unfold no_line. repeat case_match; done.
Qed.

Lemma bulk_argument_safe p av mb bl : buf_ok p -> state p = (av, zlen av + mb, PROTO_REQ_MULTIBULK, mb, bl) -> 0 < mb -> 0 <= bl <= max_bulk ->
  exists p' r, bulk_argument p = Some (p', r) /\ shrinks p p' /\
    match r with
    | Go => zlen (pending p') < zlen (pending p) /\ exists a, state p' = (av ++ [a], zlen (av ++ [a]) + (mb - 1), PROTO_REQ_MULTIBULK, mb - 1, -1)
    | More => p' = p
    | Fail _ => False
    end.
Proof.
  intros Hb Hst Hmb0 Hbnd. pose proof Hst as [= Hav Hsz Hrt Hmb Hbl]. unfold bulk_argument. rewrite Hbl, (avail_pending p Hb).
  unfold LLONG_MAX in *. rewrite (u64_id (bl + 2)) by (unfold in_u64, ULLONG_MAX; lia). zif_false. cbv iota.
  pose proof (zlen_pending p Hb) as Hz. destruct (zlen (pending p) <? bl + 2) eqn:Ea; zbool.
  { exists p, More. split; [done|]. by split; [apply shrinks_refl|]. }
  assert (Hpush : forall q a, state q = state p -> exists q', push_arg q a = Some q' /\ querybuf q' = querybuf q /\ qb_pos q' = qb_pos q /\
    state q' = (av ++ [a], zlen (av ++ [a]) + (mb - 1), PROTO_REQ_MULTIBULK, mb - 1, -1)).
  { intros q a Hq. rewrite Hst in Hq. injection Hq as Q1 Q2 Q3 Q4 Q5. unfold push_arg. rewrite Q1, Q2. zif_true. eexists. split; [done|].
    unfold state. cbn. rewrite Q3, Q4. rewrite zlen_app. change (zlen [a]) with 1. by replace (zlen av + 1 + (mb - 1)) with (zlen av + mb) by lia. }
  destruct ((qb_pos p =? 0) && (bl >=? PROTO_MBULK_BIG_ARG) && (zlen (querybuf p) =? bl + 2)) eqn:Ebig; zbool.
  - rewrite (mem_read_safe (querybuf p) 0 (zlen (querybuf p) - 2)) by lia. mrun. set (a := take _ _).
    destruct (Hpush (set_buf p [] 0) a eq_refl) as (p' & -> & E1 & E2 & Hs). mrun. exists p', Go. split; [done|].
    assert (Ep : pending p' = []) by (unfold pending; by rewrite E1, E2). unfold shrinks, buf_ok. rewrite Ep, E1, E2. cbn [querybuf qb_pos set_buf].
    change (zlen (@nil Z)) with 0 in *. destruct Hb. repeat split; try lia. by exists a.
  - destruct Hb as [Hq Hq2]. rewrite (mem_read_safe (querybuf p) (qb_pos p) bl) by lia. mrun. set (a := take _ _).
    destruct (Hpush (set_buf p (querybuf p) (qb_pos p + (bl + 2))) a eq_refl) as (p' & -> & E1 & E2 & Hs). mrun. exists p', Go. split; [done|].
    destruct (pending_advance p (bl + 2) (conj Hq Hq2)) as [Ea' Hb']; [lia|].
    assert (Ep : pending p' = drop (Z.to_nat (bl + 2)) (pending p)) by (rewrite <- Ea'; unfold pending; by rewrite E1, E2).
    assert (Hl : zlen (pending p') = zlen (pending p) - (bl + 2)) by (rewrite Ep; unfold zlen in *; rewrite length_drop; lia).
    unfold shrinks, buf_ok in *. rewrite E1, E2. cbn [querybuf qb_pos set_buf] in *. repeat split; try lia. by exists a.
Qed.

Lemma bulk_loop_safe n : forall p av mb bl, buf_ok p -> state p = (av, zlen av + mb, PROTO_REQ_MULTIBULK, mb, bl) -> mb = Z.of_nat n ->
  -1 <= bl <= max_bulk -> exists p' r, bulk_loop max_bulk n p = Some (p', r) /\ shrinks p p' /\
    match r with
    | Go => (0 < mb -> zlen (pending p') < zlen (pending p)) /\ multibulklen p' = 0
    | More => phase p'
    | Fail _ => True
    end.
Proof.
  induction n as [|n IH]; intros p av mb bl Hb Hst Hn Hbl; cbn [bulk_loop].
  { exists p, Go. split; [done|]. split; [by apply shrinks_refl|]. split; [lia|]. unfold state in Hst. injection Hst. intros. lia. }
  destruct (bulk_length_safe p av mb bl Hb Hst Hbl) as (p1 & r1 & -> & Hs1 & Hr1). mrun. destruct r1 as [| |e].
  2:{ exists p1, More. split; [done|]. split; [done|]. subst p1. apply (ph_args _ av mb bl); [done|lia|done]. }
  2:{ by exists p1, (Fail e). }
  destruct Hr1 as (bl' & Hbl' & Hst1). destruct (bulk_argument_safe p1 av mb bl' (proj1 Hs1) Hst1) as (p2 & r2 & -> & Hs2 & Hr2); [lia|done|]. mrun.
  pose proof (shrinks_trans _ _ _ Hs1 Hs2) as Hs12. destruct r2 as [| |e]; [|exists p2, More; subst p2|done].
  - destruct Hr2 as [Hlt (a & Hst2)]. destruct (IH p2 (av ++ [a]) (mb - 1) (-1) (proj1 Hs2) Hst2) as (p3 & r3 & -> & Hs3 & Hr3); [lia|lia|].
    exists p3, r3. split; [done|]. split; [by eapply shrinks_trans|]. destruct r3; try done. split; [|apply Hr3].
    destruct Hs1 as (_ & ? & _), Hs3 as (_ & ? & _). lia.
  - split; [done|]. split; [done|]. apply (ph_args _ av mb bl'); [done|lia|lia].
Qed.

Lemma parse_multibulk_safe p : buf_ok p -> phase p -> reqtype p = PROTO_REQ_MULTIBULK ->
  exists p' r, parse_multibulk max_bulk p = Some (p', r) /\ shrinks p p' /\
    match r with
    | Go => zlen (pending p') < zlen (pending p) /\ multibulklen p' = 0
    | More => phase p'
    | Fail _ => True
    end.
Proof.
  intros Hb Hph Hrt. unfold parse_multibulk.
  assert (Hloop : forall q av mb bl, buf_ok q -> state q = (av, zlen av + mb, PROTO_REQ_MULTIBULK, mb, bl) -> 0 < mb -> -1 <= bl <= max_bulk ->
    exists p' r, (if multibulklen q >? 0 then bulk_loop max_bulk (Z.to_nat (multibulklen q)) q else None) = Some (p', r) /\ shrinks q p' /\
      match r with Go => zlen (pending p') < zlen (pending q) /\ multibulklen p' = 0 | More => phase p' | Fail _ => True end).
  { intros q av mb bl Hq Hst Hmb Hbl. assert (multibulklen q = mb) as -> by (unfold state in Hst; congruence). zif_true. cbv iota.
    destruct (bulk_loop_safe (Z.to_nat mb) q av mb bl Hq Hst) as (p' & r & -> & Hs & Hr); [lia|done|]. exists p', r. split; [done|]. split; [done|].
    destruct r; try done. split; [by apply Hr|apply Hr]. }
  destruct Hph as [sz rt Hst [-> | ->]|sz Hst Hh|av mb bl Hst Hmb Hbl]; try (exfalso; injection Hst; unfold PROTO_REQ_MULTIBULK, PROTO_REQ_INLINE in *; intros; lia).
  - assert (multibulklen p = 0) as -> by (unfold state in Hst; congruence). cbn [Z.eqb].
    destruct (multibulk_length_safe p sz Hb Hst Hh) as (p1 & r1 & more & -> & Hs1 & Hr1). mrun. destruct r1 as [| |e].
    + destruct Hr1 as [Hlt Hm]. destruct more.
      * destruct Hm as (n & Hn & Hst1). destruct (Hloop p1 [] n (-1) (proj1 Hs1) Hst1 Hn) as (p' & r & -> & Hs & Hr); [lia|].
        exists p', r. split; [done|]. split; [by eapply shrinks_trans|]. destruct r; try done. split; [lia|apply Hr].
      * exists p1, Go. split; [done|]. split; [done|]. split; [done|]. rewrite Hst in Hm. unfold state in Hm. congruence.
    + exists p1, More. subst p1. split; [done|]. split; [done|]. by apply (ph_header _ sz).
    + by exists p1, (Fail e).
  - assert (Em : multibulklen p = mb) by (unfold state in Hst; congruence). rewrite Em, (proj2 (Z.eqb_neq mb 0)) by lia. mrun.
    apply (Hloop p av mb bl); done.
Qed.

Lemma protocol_error_closes e c : closing (setProtocolError e c) = true /\ has (flags (setProtocolError e c)) CLIENT_MASTER = has (flags c) CLIENT_MASTER /\
  has (flags (setProtocolError e c)) CLIENT_BLOCKED = has (flags c) CLIENT_BLOCKED /\ btype (setProtocolError e c) = btype c.
Proof.
  unfold closing, setProtocolError. cbn [flags btype]. rewrite !either_flag, !orb_false_r. split; [|done]. by rewrite orb_true_r.
Qed.

(** The marks the invariant speaks of. *)
Definition same_marks (c c' : client) : Prop :=
  has (flags c') CLIENT_MASTER = has (flags c) CLIENT_MASTER /\ has (flags c') CLIENT_BLOCKED = has (flags c) CLIENT_BLOCKED /\ btype c' = btype c.

Lemma inline_safe t c : buf_ok (prs c) ->
  exists c' ok, processInlineBuffer t c = Some (c', ok) /\ shrinks (prs c) (prs c') /\ same_marks c c' /\
    if ok then zlen (pending (prs c')) < zlen (pending (prs c)) else c' = c \/ closing c' = true.
Proof.
  intros Hb. unfold processInlineBuffer. pose proof (zlen_pending (prs c) Hb) as Hz.
  assert (Herr : forall e, exists c' ok, Some (setProtocolError e c, false) = Some (c', ok) /\ shrinks (prs c) (prs c') /\ same_marks c c' /\
    if ok then zlen (pending (prs c')) < zlen (pending (prs c)) else c' = c \/ closing c' = true).
  { intros e. destruct (protocol_error_closes e c) as (E1 & E2 & E3 & E4). exists (setProtocolError e c), false. split; [done|]. split; [by apply shrinks_refl|]. split; [|by right].
    by split. }
  destruct (strchr (pending (prs c)) ch_lf) as [n|] eqn:Es.
  2:{ destruct (avail (prs c) >? PROTO_INLINE_MAX_SIZE); [apply Herr|]. exists c, false. split; [done|]. split; [by apply shrinks_refl|]. split; [done|by left]. }
  destruct (strchr_range _ _ _ Es) as [Hn _].
  assert (exists b, (if n =? 0 then Some false else x ← zget (pending (prs c)) (n - 1); Some (x =? ch_cr)) = Some b /\ (b = true -> 1 <= n)) as (b & -> & Hbn).
  { destruct (n =? 0) eqn:E0; zbool; [by exists false|]. destruct (zget_Some (pending (prs c)) (n - 1)) as [x ->]; [lia|]. mrun. eexists. split; [done|]. lia. }
  mrun. set (ql := if b then n - 1 else n). assert (Hql : 0 <= ql /\ ql + (if b then 2 else 1) <= zlen (pending (prs c))) by (subst ql; destruct b; [specialize (Hbn eq_refl)|]; lia).
  rewrite mem_read_safe by (destruct b; lia). mrun. destruct (sdssplitargs_total (take (Z.to_nat ql) (drop (Z.to_nat 0) (pending (prs c))))) as [[args|] ->]; mrun; [|apply Herr].
  destruct (pending_advance (prs c) (ql + (if b then 2 else 1)) Hb) as [Ea Hb']; [destruct b; lia|].
  assert (Hl : zlen (pending (set_buf (prs c) (querybuf (prs c)) (qb_pos (prs c) + (ql + (if b then 2 else 1))))) < zlen (pending (prs c))).
  { rewrite Ea. unfold zlen in *. rewrite length_drop. destruct b; lia. }
  eexists _, true. split; [done|]. destruct (_ && _); cbn [prs flags set_prs set_ack_time]; unfold shrinks, buf_ok, pending in *; cbn [querybuf qb_pos set_buf] in *; repeat split; try done; lia.
Qed.
End Parser.

Section Clients.
Context {Srv : Type} `{HS : Server Srv} `{HL : !CommandLaws Srv}.

(** The invariant of a client: the parser is between two of its steps, or the
    client is held and no request is read before it is reset. *)
Definition client_ok (c : client) : Prop :=
  buf_ok (prs c) /\ has (flags c) CLIENT_MASTER = false /\ blocked_ok c = true /\ (held c = true \/ phase proto_max_bulk_len (prs c)).

Lemma request_type_safe p : phase proto_max_bulk_len p -> pending p <> [] -> exists p', request_type p = Some p' /\ phase proto_max_bulk_len p' /\
  querybuf p' = querybuf p /\ qb_pos p' = qb_pos p /\ (reqtype p' = PROTO_REQ_INLINE \/ reqtype p' = PROTO_REQ_MULTIBULK).
Proof.
  intros Hph Hne. unfold request_type. destruct (reqtype p =? 0) eqn:E0; zbool.
  - destruct (pending p) as [|x q] eqn:Ep; [done|]. cbn [lookup list_lookup]. mrun. eexists. split; [done|].
    destruct Hph as [sz rt Hst Hrt|sz Hst Hh|av mb bl Hst Hmb Hbl]; injection Hst as H1 H2 H3 H4 H5;
      [|rewrite H3 in E0; done|rewrite H3 in E0; done].
    split; [|split; [done|]; split; [done|]; cbn; destruct (x =? ch_star); auto].
    destruct (x =? ch_star) eqn:Ex; zbool.
    + apply (ph_header _ _ sz); [unfold state; cbn; congruence|]. unfold pending in *. cbn [querybuf qb_pos set_reqtype]. rewrite Ep. by subst.
    + apply (ph_new _ _ sz PROTO_REQ_INLINE); [unfold state; cbn; congruence|by right].
  - exists p. split; [done|]. split; [done|]. split; [done|]. split; [done|].
    destruct Hph as [sz rt Hst [-> | ->]|sz Hst Hh|av mb bl Hst Hmb Hbl]; injection Hst; intros; auto. lia.
Qed.

Lemma read_request_safe s c : client_ok c -> held c = false -> pending (prs c) <> [] ->
  exists c' ok, read_request s c = Some (c', ok) /\ shrinks (prs c) (prs c') /\ same_marks c c' /\
    if ok then zlen (pending (prs c')) < zlen (pending (prs c)) else client_ok c'.
Proof.
  intros (Hb & Hm & Hbk & Hph) Hp Hne. destruct Hph as [Hph|Hph]; [by rewrite Hph in Hp|]. unfold read_request.
  destruct (request_type_safe (prs c) Hph Hne) as (p & -> & Hph' & Eq & Epos & Hrt). mrun.
  assert (Ep : pending p = pending (prs c)) by (unfold pending; by rewrite Eq, Epos).
  assert (Hb' : buf_ok p) by (unfold buf_ok in *; by rewrite Eq, Epos).
  assert (Hsh : forall p', shrinks p p' -> shrinks (prs c) p') by (unfold shrinks; intros p'; by rewrite Ep, Eq).
  assert (Hok : forall c', shrinks p (prs c') -> same_marks c c' -> held c' = true \/ phase proto_max_bulk_len (prs c') -> client_ok c').
  { intros c' [H1 _] (H2 & H3 & H3') H4. unfold client_ok, blocked_ok. rewrite H2, H3, H3'. auto. }
  destruct Hrt as [Hrt|Hrt]; rewrite Hrt.
  - rewrite Z.eqb_refl. destruct (inline_safe (unixtime s) (set_prs c p) Hb') as (c' & ok & -> & Hs & Hm' & Hr). cbn [prs set_prs] in *.
    exists c', ok. split; [done|]. split; [auto|]. split; [done|]. destruct ok; [by rewrite <- Ep|]. apply Hok; [done|done|].
    destruct Hr as [-> |Hr]; [by right|]. left. unfold held. by rewrite Hr.
  - cbn [Z.eqb PROTO_REQ_INLINE PROTO_REQ_MULTIBULK Pos.eqb]. unfold processMultibulkBuffer. cbn [prs set_prs].
    destruct (parse_multibulk_safe proto_max_bulk_len bulk_limit p Hb' Hph' Hrt) as (p' & r & -> & Hs & Hr). mrun.
    destruct r as [| |e]; cbn [finish]; eexists _, _; (split; [done|]); (split; [by auto|]).
    + split; [done|]. cbn [prs set_prs]. rewrite <- Ep. apply Hr.
    + split; [done|]. apply Hok; [done|done|by right].
    + destruct (protocol_error_closes e (set_prs (set_prs c p) p')) as (E1 & E2 & E3 & E4).
      assert (Hsm : same_marks c (setProtocolError e (set_prs (set_prs c p) p'))) by by split.
      split; [done|]. apply Hok; [done|done|]. left. unfold held. by rewrite E1.
Qed.

Lemma reset_client_ok c : buf_ok (prs c) -> has (flags c) CLIENT_MASTER = false -> blocked_ok c = true -> client_ok (resetClient c).
Proof.
  intros Hb Hm Hbk. destruct (reset_stream c) as (_ & Hm' & _). destruct (reset_marks c) as (_ & _ & R3 & R4).
  split; [exact Hb|]. split; [by rewrite Hm'|]. split; [unfold blocked_ok in *; by rewrite R3, R4|].
  right. apply (ph_new _ _ (argv_size (prs c)) 0); [done|by left].
Qed.

Lemma run_request_safe s c : buf_ok (prs c) -> has (flags c) CLIENT_MASTER = false -> has (flags c) CLIENT_BLOCKED = false ->
  exists s' c' alive, run_request s c = (s', c', alive) /\
    (alive = true -> client_ok c' /\ querybuf (prs c') = querybuf (prs c) /\ qb_pos (prs c') = qb_pos (prs c)).
Proof.
  intros Hb Hm Hbl. unfold run_request. destruct (zlen (argv (prs c)) =? 0).
  { eexists _, _, _. split; [done|]. intros _. split; [|done]. apply reset_client_ok; [done|done|]. unfold blocked_ok. by rewrite Hbl. }
  destruct (processCommand s c) as [[[s' c1] ok] alive] eqn:Ecmd. eexists _, _, alive. split; [done|]. intros ->.
  destruct (command_input s c s' c1 ok Ecmd) as (Eq & Epos & (_ & G2 & _) & Hcl). pose proof (command_blocks s c s' c1 ok Ecmd Hbl) as Hbk.
  assert (Hb1 : buf_ok (prs c1)) by (unfold buf_ok in *; by rewrite Eq, Epos). rewrite G2, Hm. cbn [andb].
  assert (Hheld : held c1 = true -> client_ok c1) by (intros Hh; unfold client_ok; rewrite G2; auto).
  destruct ok; [|split; [apply Hheld; unfold held; by rewrite Hcl|done]].
  destruct (negb (has (flags c1) CLIENT_BLOCKED) || negb (btype c1 =? BLOCKED_MODULE)) eqn:E.
  - split; [apply reset_client_ok; [done|by rewrite G2|done]|]. by split.
  - split; [|done]. apply Hheld. unfold held, module_blocked.
    destruct (has (flags c1) CLIENT_BLOCKED), (btype c1 =? BLOCKED_MODULE); try done. by rewrite orb_true_r.
Qed.

Lemma input_loop_safe fuel : forall s c, client_ok c -> (length (pending (prs c)) < fuel)%nat ->
  exists s' c' alive, input_loop fuel s c = Some (s', c', alive) /\ (alive = true -> client_ok c').
Proof.
  induction fuel as [|fuel IH]; [lia|]. intros s c Hc Hf. cbn [input_loop]. pose proof (zlen_pending (prs c) (proj1 Hc)) as Hz.
  destruct (qb_pos (prs c) <? zlen (querybuf (prs c))) eqn:Eq; zbool; [|by exists s, c, true].
  destruct (stopped s c) as [s1 stop] eqn:Est. destruct stop; [by exists s1, c, true|].
  pose proof (stopped_unblocked s c s1 Est) as Hbl. assert (Hh : held c = false).
  { destruct (held c) eqn:E; [|done]. pose proof (stopped_held s c E) as Hs. by rewrite Est in Hs. }
  assert (Hne : pending (prs c) <> []) by (intros E; rewrite E, zlen_nil in Hz; lia).
  destruct (read_request_safe s1 c Hc Hh Hne) as (c1 & ok & -> & (Hb1 & _) & (Hm & Hk & _) & Hr). mrun. destruct Hc as (_ & Hm0 & _).
  destruct ok; cbn [negb]; [|by exists s1, c1, true].
  destruct (run_request_safe s1 c1 Hb1) as (s2 & c2 & alive & -> & Hc2); [congruence|congruence|].
  destruct alive; [|by exists s2, c2, false]. destruct (Hc2 eq_refl) as (Hok2 & E1 & E2).
  destruct (IH s2 c2 Hok2) as (s' & c' & alive & -> & Hc'); [|by exists s', c', alive].
  unfold pending. rewrite E1, E2. fold (pending (prs c1)). unfold zlen in Hr. lia.
Qed.

(** Trimming the buffer and appending to it keep the invariant. *)
Lemma client_ok_buf c p : client_ok c -> buf_ok p -> state p = state (prs c) -> pending (prs c) `prefix_of` pending p -> client_ok (set_prs c p).
Proof.
  intros (Hb & Hm & Hbk & Hph) Hb' Hs [y Hy]. do 3 (split; [done|]). destruct Hph as [Hh|Hph]; [by left|right]. cbn [prs set_prs].
  destruct Hph as [sz rt Hst Hrt|sz Hst Hh|av mb bl Hst Hmb Hbl]; rewrite <- Hs in Hst.
  - by apply (ph_new _ _ sz rt).
  - apply (ph_header _ _ sz); [done|]. rewrite Hy. by destruct (pending (prs c)).
  - by apply (ph_args _ _ av mb bl).
Qed.

(** What the rest of the server changes of the client keeps it, too. *)
Lemma client_ok_marks c c' : client_ok c -> prs c' = prs c -> has (flags c') CLIENT_MASTER = false -> blocked_ok c' = true ->
  (held c = true -> held c' = true) -> client_ok c'.
Proof. intros (Hb & Hm & Hbk & Hph) E Hm' Hbk' Hh. unfold client_ok. rewrite E. split_and!; [done|done|done|]. destruct Hph; auto. Qed.

Lemma client_ok_flags c f : client_ok c -> client_ok (set_flags c (other_flags (flags c) f)).
Proof.
  intros Hc. pose proof Hc as (_ & Hm & Hbk & _). apply (client_ok_marks c); [done|done| | |].
  - cbn [flags set_flags]. by rewrite other_flags_own.
  - unfold blocked_ok in *. cbn [flags btype set_flags]. by rewrite other_flags_own.
  - unfold held, module_blocked. cbn [flags btype set_flags]. rewrite other_flags_own by done. intros Hh. apply orb_true_iff in Hh as [Hh|Hh]; [|by rewrite Hh, orb_true_r].
    apply orb_true_iff. left. by apply other_flags_close.
Qed.

Lemma unblock_safe c : client_ok c -> has (flags c) CLIENT_BLOCKED = true -> exists c', unblockClient c = Some c' /\ client_ok c'.
Proof.
  intros Hc Hbl. pose proof Hc as (Hb & Hm & Hbk & Hph). unfold unblockClient.
  assert (known_btype (btype c) = true) as -> by (unfold blocked_ok in Hbk; by rewrite Hbl in Hbk). cbn [negb]. eexists. split; [done|].
  set (c1 := if btype c =? BLOCKED_MODULE then resetClient c else c).
  assert (H1 : client_ok c1 /\ (held c1 = true -> closing c1 = true \/ phase proto_max_bulk_len (prs c1))).
  { subst c1. destruct (btype c =? BLOCKED_MODULE) eqn:Eb; (split; [by apply reset_client_ok || done|]); intros Hh.
    - right. by apply (ph_new _ _ (argv_size (prs c)) 0); [|left].
    - left. unfold held, module_blocked in Hh. by rewrite Eb, andb_false_r, orb_false_r in Hh. }
  destruct H1 as [(Hb1 & Hm1 & _ & Hph1) Hh1]. set (c' := queueClientForReprocessing _).
  assert (Hf : forall m, Z.land (Z.lnot CLIENT_BLOCKED) m = m -> has CLIENT_UNBLOCKED m = false -> has (flags c') m = has (flags c1) m).
  { intros m E1 E2. subst c'. cbn [flags set_flags set_btype queueClientForReprocessing]. by rewrite either_flag, E2, orb_false_r, kept_flag. }
  assert (Hnb : has (flags c') CLIENT_BLOCKED = false).
  { subst c'. cbn [flags set_flags set_btype queueClientForReprocessing]. rewrite either_flag. unfold has. rewrite <- Z.land_assoc.
    change (Z.land (Z.lnot CLIENT_BLOCKED) CLIENT_BLOCKED) with 0. by rewrite Z.land_0_r. }
  split; [done|]. split; [by rewrite Hf|]. split; [unfold blocked_ok; by rewrite Hnb|].
  assert (Hcl : closing c' = closing c1) by (unfold closing; by rewrite Hf).
  destruct Hph1 as [Hh|Hp]; [|by right]. destruct (Hh1 Hh) as [Hc1|Hp]; [|by right]. left. unfold held. by rewrite Hcl, Hc1.
Qed.

Lemma process_safe s c : client_ok c ->
  exists s' c' alive, processInputBufferAndReplicate s c = Some (s', c', alive, []) /\ (alive = true -> client_ok c').
Proof.
  intros Hc. pose proof Hc as (_ & Hm & _). unfold processInputBufferAndReplicate, processInputBuffer. rewrite Hm. cbn [negb].
  destruct (input_loop_safe (S (length (pending (prs c)))) s c Hc) as (s' & c' & alive & -> & Hc'); [lia|]. mrun.
  eexists _, _, alive. split; [done|]. intros ->. specialize (Hc' eq_refl). destruct (trim_spec (prs c') (proj1 Hc')) as (T1 & T2 & T3 & _).
  apply client_ok_buf; [done|done|done|by rewrite T1].
Qed.

(** The outcome for an ordinary client: the invariant holds again, and nothing was
    passed on to replicas. *)
Definition outcome_safe (o : outcome (S := Srv)) : Prop := match o with Kept _ c' fed => client_ok c' /\ fed = [] | Freed _ => True end.

Lemma read_safe s c r : client_ok c -> (forall bs, r = ReadData bs -> 1 <= zlen bs <= readlen (prs c)) ->
  exists o, readQueryFromClient s c r = Some o /\ outcome_safe o.
Proof.
  intros Hc Hr. destruct r as [| | |bs]; [by eexists|by eexists|by eexists|]. specialize (Hr bs eq_refl). unfold readQueryFromClient.
  replace ((zlen bs =? 0) || (zlen bs >? readlen (prs c))) with false by lia. pose proof Hc as (Hb & Hm & _). cbn [flags set_prs]. rewrite Hm.
  cbn [prs set_prs querybuf set_buf]. zcase; [by eexists|]. pose proof buffer_limit as Hl.
  set (p := set_buf (prs c) (querybuf (prs c) ++ bs) (qb_pos (prs c))). destruct Hb as [Hb1 Hb2].
  assert (Hp : client_ok (set_prs c p)).
  { apply client_ok_buf; [done| |done|].
    - unfold buf_ok. cbn [querybuf qb_pos set_buf p]. rewrite zlen_app in *. lia.
    - exists bs. unfold pending. cbn [querybuf qb_pos set_buf p]. rewrite drop_app_le; [done|]. unfold zlen in *. lia. }
  destruct (process_safe s _ Hp) as (s' & c' & alive & -> & Hc'). mrun. eexists. split; [done|]. destruct alive; [|done]. split; [auto|done].
Qed.

Lemma resume_safe s c : client_ok c -> exists o, processUnblockedClient s c = Some o /\ outcome_safe o.
Proof.
  intros Hc. unfold processUnblockedClient. set (c1 := set_flags c _).
  assert (Hc1 : client_ok c1).
  { pose proof Hc as (_ & Hm & Hbk & _). apply (client_ok_marks c); [done|done| | |]; unfold blocked_ok, held, module_blocked, closing in *; cbn [flags btype set_flags c1]; by rewrite ?kept_flag. }
  destruct (_ && _); [|by eexists]. destruct (process_safe s c1 Hc1) as (s' & c' & alive & -> & Hc'). mrun. eexists. split; [done|].
  destruct alive; [|done]. split; [auto|done].
Qed.

(** The states of an ordinary client: its peer sends any bytes, commands and the
    rest of the server act on it, it is blocked, unblocked and resumed. *)
Inductive reachable : Srv -> client -> Prop :=
| reach_new s : reachable s createClient
| reach_server s s' c : reachable s c -> reachable s' c
| reach_flags s c f : reachable s c -> reachable s (set_flags c (other_flags (flags c) f))
| reach_unblock s c c' : reachable s c -> has (flags c) CLIENT_BLOCKED = true -> unblockClient c = Some c' -> reachable s c'
| reach_resume s c s' c' fed : reachable s c -> processUnblockedClient s c = Some (Kept s' c' fed) -> reachable s' c'
| reach_read s c r s' c' fed : reachable s c -> (forall bs, r = ReadData bs -> 1 <= zlen bs <= readlen (prs c)) ->
    readQueryFromClient s c r = Some (Kept s' c' fed) -> reachable s' c'.

(** C2: The request parser is safe for every input.  In every state an ordinary
    client (not the link to a master) can reach, whatever bytes its peer has sent
    and however they were cut, whatever its commands did within [CommandLaws]
    (blocking, closing, rewriting the arguments, opening transactions), whatever
    happened to the rest of the server and to the other flags of the client, and
    after any unblocking and resuming: the next read, the next pass over the
    queue of unblocked clients, and unblocking a blocked client are handled.  No
    access leaves the query buffer or the argument vector, no assertion fails,
    the loops end, nothing is passed on to replicas, and the client that results
    satisfies the invariant again.  Of the commands it is assumed that they leave
    the query buffer alone, that [C_ERR] is returned only for a client that is to
    be closed or was freed, and that a client is blocked in a known way. *)
Theorem request_parser_safe (s : Srv) (c : client) (r : read_result) :
  reachable s c -> (forall bs, r = ReadData bs -> 1 <= zlen bs <= readlen (prs c)) ->
  client_ok c /\ (exists o, readQueryFromClient s c r = Some o /\ outcome_safe o) /\
  (exists o, processUnblockedClient s c = Some o /\ outcome_safe o) /\
  (has (flags c) CLIENT_BLOCKED = true -> exists c', unblockClient c = Some c' /\ client_ok c').
Proof.
  intros Hreach Hr. assert (Hc : client_ok c); [|split_and!; [done|by apply read_safe|by apply resume_safe|by apply unblock_safe]]. clear r Hr.
  induction Hreach as [s|s s' c Hreach IH|s c f Hreach IH|s c c' Hreach IH Hb Hu|s c s' c' fed Hreach IH Hrun|s c r s' c' fed Hreach IH Hr Hread]; [|done| | | |].
  - do 3 (split; [done|]). right. apply (ph_new _ _ 0 0); [done|by left].
  - by apply client_ok_flags.
  - destruct (unblock_safe c IH Hb) as (c1 & E & H1). rewrite Hu in E. by injection E as <-.
  - destruct (resume_safe s c IH) as (o & E & Ho). rewrite Hrun in E. injection E as <-. apply Ho.
  - destruct (read_safe s c r IH Hr) as (o & E & Ho). rewrite Hread in E. injection E as <-. apply Ho.
Qed.
End Clients.

(** A client blocked by BLPOP with bytes that are no request behind it. *)
Definition sample_blocked : outcome (S := bool) :=
  Eval vm_compute in default (Freed false) (readQueryFromClient false createClient (ReadData (encode (Resp [cstr "BLPOP"]) ++ [42; 45; 13; 10]))).
Definition sample_blocked_client : client :=
  Eval vm_compute in match sample_blocked with Kept _ c _ => c | Freed _ => createClient end.

Lemma request_parser_safe_witness : has (flags sample_blocked_client) CLIENT_BLOCKED = true /\
  client_ok sample_blocked_client /\ (exists o, readQueryFromClient false sample_blocked_client (ReadData [0; 36]) = Some o /\ outcome_safe o) /\
  (exists o, processUnblockedClient false sample_blocked_client = Some o /\ outcome_safe o) /\
  (has (flags sample_blocked_client) CLIENT_BLOCKED = true -> exists c', unblockClient sample_blocked_client = Some c' /\ client_ok c').
Proof.
  split; [vm_compute; reflexivity|]. apply (request_parser_safe false sample_blocked_client (ReadData [0; 36])).
  - apply (reach_read false createClient (ReadData (encode (Resp [cstr "BLPOP"]) ++ [42; 45; 13; 10])) false sample_blocked_client []); [constructor| |vm_compute; reflexivity].
    intros bs [= <-]. vm_compute. split; by intros.
  - intros bs [= <-]. vm_compute. split; by intros.
Defined.

End NetSafety.
