(* ===== verification/Replication.v ===== *)
(** * The replication stream of a master (replication.c)

    A master turns its write commands into a stream of bytes, sends it to the
    attached replicas and keeps its most recent part in a circular buffer, the
    backlog, so that a replica that lost its connection can continue (PSYNC)
    without a full transfer.  [repl] holds the fields of the server this uses.
    Offsets are [long long]: an addition that would overflow is [None], as is an
    access outside the backlog or a failed assertion. *)

From Stdlib Require Import String Ascii.
From S2P Require Import Prelude Util Args Networking.

Module Replication.
Import Util Networking.

Definition CONFIG_REPL_BACKLOG_MIN_SIZE := 1024 * 16.
Definition SLAVE_STATE_WAIT_BGSAVE_START := 6.
Definition SLAVE_STATE_ONLINE := 9.
Definition PROTO_SHARED_SELECT_CMDS := 10.
Definition OBJ_SHARED_BULKHDR_LEN := 32.
Definition LONG_STR_SIZE := 21%nat.

(** A string object: an sds or an encoded integer. *)
Inductive robj := Raw (s : list Z) | Int (n : Z).

(** An attached replica: its state and its output buffer. *)
Record slave := mkSlave { sl_id : Z; replstate : Z; out : list Z }.

Record repl := mkRepl {
  repl_backlog : option (list Z);
  repl_backlog_size : Z;
  repl_backlog_histlen : Z;
  repl_backlog_idx : Z;
  repl_backlog_off : Z;
  master_repl_offset : Z;
  replid : list Z;
  replid2 : list Z;
  second_replid_offset : Z;
  slaveseldb : Z;
  masterhost : bool;        (** this instance is itself a replica *)
  slaves : list slave
}.

Definition set_backlog (r : repl) (b : option (list Z)) (sz hist idx off : Z) : repl :=
  mkRepl b sz hist idx off (master_repl_offset r) (replid r) (replid2 r) (second_replid_offset r) (slaveseldb r) (masterhost r) (slaves r).
Definition set_offset (r : repl) (o : Z) : repl :=
  mkRepl (repl_backlog r) (repl_backlog_size r) (repl_backlog_histlen r) (repl_backlog_idx r) (repl_backlog_off r) o
    (replid r) (replid2 r) (second_replid_offset r) (slaveseldb r) (masterhost r) (slaves r).
Definition set_ids (r : repl) (i1 i2 : list Z) (o : Z) : repl :=
  mkRepl (repl_backlog r) (repl_backlog_size r) (repl_backlog_histlen r) (repl_backlog_idx r) (repl_backlog_off r) (master_repl_offset r)
    i1 i2 o (slaveseldb r) (masterhost r) (slaves r).
Definition set_slaves (r : repl) (db : Z) (l : list slave) : repl :=
  mkRepl (repl_backlog r) (repl_backlog_size r) (repl_backlog_histlen r) (repl_backlog_idx r) (repl_backlog_off r) (master_repl_offset r)
    (replid r) (replid2 r) (second_replid_offset r) db (masterhost r) l.

(** A signed addition that must not overflow. *)
Definition ll_add (a b : Z) : option Z := if a + b >? LLONG_MAX then None else Some (a + b).

(** ** The backlog *)

(** The memory [zmalloc] returns holds arbitrary bytes: [garbage]. *)
Definition createReplicationBacklog (garbage : Z) (r : repl) : option repl :=
  match repl_backlog r with
  | Some _ => None
  | None =>
      off ← ll_add (master_repl_offset r) 1;
      Some (set_backlog r (Some (replicate (Z.to_nat (repl_backlog_size r)) garbage)) (repl_backlog_size r) 0 0 off)
  end.

Definition resizeReplicationBacklog (garbage : Z) (r : repl) (newsize : Z) : option repl :=
  let newsize := if newsize <? CONFIG_REPL_BACKLOG_MIN_SIZE then CONFIG_REPL_BACKLOG_MIN_SIZE else newsize in
  if repl_backlog_size r =? newsize then Some r else
  match repl_backlog r with
  | Some _ =>
      off ← ll_add (master_repl_offset r) 1;
      Some (set_backlog r (Some (replicate (Z.to_nat newsize) garbage)) newsize 0 0 off)
  | None => Some (set_backlog r None newsize (repl_backlog_histlen r) (repl_backlog_idx r) (repl_backlog_off r))
  end.

Definition freeReplicationBacklog (r : repl) : option repl :=
  match slaves r with
  | [] => Some (set_backlog r None (repl_backlog_size r) (repl_backlog_histlen r) (repl_backlog_idx r) (repl_backlog_off r))
  | _ :: _ => None
  end.

(** The loop of [feedReplicationBacklog]: the buffer, the index and the history length. *)
Fixpoint feed_loop (fuel : nat) (size : Z) (buf : list Z) (idx hist : Z) (p : list Z) : option (list Z * Z * Z) :=
  match fuel with
  | O => None
  | S fuel =>
      if zlen p =? 0 then Some (buf, idx, hist) else
      let thislen := u64 (size - idx) in
      let thislen := if thislen >? zlen p then zlen p else thislen in
      buf ← mem_write buf idx (take (Z.to_nat thislen) p);
      let idx := idx + thislen in
      let idx := if idx =? size then 0 else idx in
      feed_loop fuel size buf idx (hist + thislen) (drop (Z.to_nat thislen) p)
  end.

Definition feedReplicationBacklog (r : repl) (p : list Z) : option repl :=
  buf ← repl_backlog r;
  offset ← ll_add (master_repl_offset r) (zlen p);
  '(buf, idx, hist) ← feed_loop (S (length p)) (repl_backlog_size r) buf (repl_backlog_idx r) (repl_backlog_histlen r) p;
  let hist := if hist >? repl_backlog_size r then repl_backlog_size r else hist in
  off ← ll_add (offset - hist) 1;
  Some (set_offset (set_backlog r (Some buf) (repl_backlog_size r) hist idx off) offset).

(** The digits [ll2string] writes into a local buffer. *)
Definition ll_digits (n : nat) (v : Z) : option (list Z) :=
  '(len, buf) ← ll2string (replicate n 0) (Z.of_nat n) v; mem_read buf 0 len.

Definition feedReplicationBacklogWithObject (r : repl) (o : robj) : option repl :=
  match o with
  | Int n => p ← ll_digits LONG_STR_SIZE n; feedReplicationBacklog r p
  | Raw s => feedReplicationBacklog r s
  end.

(** The pieces of [addReplyReplicationBacklog]. *)
Fixpoint reply_loop (fuel : nat) (size : Z) (buf : list Z) (j len : Z) : option (list Z) :=
  match fuel with
  | O => None
  | S fuel =>
      if len =? 0 then Some [] else
      let thislen := if size - j <? len then size - j else len in
      piece ← mem_read buf j thislen;
      rest ← reply_loop fuel size buf 0 (len - thislen);
      Some (piece ++ rest)
  end.

(** The bytes sent and the length returned. *)
Definition addReplyReplicationBacklog (r : repl) (offset : Z) : option (list Z * Z) :=
  if repl_backlog_histlen r =? 0 then Some ([], 0) else
  buf ← repl_backlog r;
  let skip := offset - repl_backlog_off r in
  let j := Z.rem (repl_backlog_idx r + (repl_backlog_size r - repl_backlog_histlen r)) (repl_backlog_size r) in
  let j := Z.rem (j + skip) (repl_backlog_size r) in
  let len := repl_backlog_histlen r - skip in
  sent ← reply_loop (S (Z.to_nat len)) (repl_backlog_size r) buf j len;
  Some (sent, repl_backlog_histlen r - skip).

(** ** Feeding the stream *)

(** A header "*n" or "$n" as it is built in a buffer of [LONG_STR_SIZE + 3] bytes. *)
Definition aux_header (c n : Z) : option (list Z) :=
  ds ← ll_digits (LONG_STR_SIZE + 2) n; Some ((c :: ds) ++ [ch_cr; ch_lf]).

Definition stringObjectLen (o : robj) : Z :=
  match o with Raw s => zlen s | Int n => sdigits10 n end.

Fixpoint feed_args (r : repl) (argv : list robj) : option repl :=
  match argv with
  | [] => Some r
  | o :: argv =>
      h ← aux_header ch_dollar (stringObjectLen o);
      r ← feedReplicationBacklog r h;
      r ← feedReplicationBacklogWithObject r o;
      r ← feedReplicationBacklog r [ch_cr; ch_lf];
      feed_args r argv
  end.

(** [addReply] of an object, and the headers of replies: small ones are shared objects. *)
Definition object_bytes (o : robj) : option (list Z) :=
  match o with Raw s => Some s | Int n => ll_digits 32 n end.

Definition addReplyLongLongWithPrefix (ll prefix : Z) : option (list Z) :=
  if ((prefix =? ch_star) || (prefix =? ch_dollar)) && (ll <? OBJ_SHARED_BULKHDR_LEN) && (ll >=? 0)
  then Some (prefix :: dec ll ++ [ch_cr; ch_lf])
  else ds ← ll_digits 127 ll; Some ((prefix :: ds) ++ [ch_cr; ch_lf]).

Definition addReplyMultiBulkLen (length : Z) : option (list Z) :=
  if length <? OBJ_SHARED_BULKHDR_LEN then
    if length <? 0 then None else Some (ch_star :: dec length ++ [ch_cr; ch_lf])
  else addReplyLongLongWithPrefix length ch_star.

(** The number of characters of an integer. *)
Fixpoint int_len_loop (fuel : nat) (n len : Z) : option Z :=
  match fuel with
  | O => None
  | S fuel => let n := n / 10 in if n =? 0 then Some len else int_len_loop fuel n (len + 1)
  end.

(** The negation of the smallest [long] is undefined. *)
Definition addReplyBulkLen (o : robj) : option (list Z) :=
  len ← (match o with
         | Raw s => Some (zlen s)
         | Int n => if n =? LLONG_MIN then None
                    else if n <? 0 then int_len_loop 20 (- n) 2 else int_len_loop 20 n 1
         end);
  if len <? OBJ_SHARED_BULKHDR_LEN then Some (ch_dollar :: dec len ++ [ch_cr; ch_lf])
  else addReplyLongLongWithPrefix len ch_dollar.

Definition addReplyBulk (o : robj) : option (list Z) :=
  h ← addReplyBulkLen o;
  b ← object_bytes o;
  Some (h ++ b ++ [ch_cr; ch_lf]).

Fixpoint reply_args (argv : list robj) : option (list Z) :=
  match argv with
  | [] => Some []
  | o :: argv => b ← addReplyBulk o; bs ← reply_args argv; Some (b ++ bs)
  end.

(** Replicas that wait for the start of a dump are skipped. *)
Definition send (bytes : list Z) (s : slave) : slave :=
  if replstate s =? SLAVE_STATE_WAIT_BGSAVE_START then s else mkSlave (sl_id s) (replstate s) (out s ++ bytes).

Definition send_all (bytes : list Z) (l : list slave) : list slave := send bytes <$> l.

(** The SELECT command; the first ones are shared objects. *)
Definition select_command (dictid : Z) : option (list Z) :=
  if (dictid >=? 0) && (dictid <? PROTO_SHARED_SELECT_CMDS) then
    Some (cstr "*2" ++ crlf ++ cstr "$6" ++ crlf ++ cstr "SELECT" ++ crlf ++
          cstr "$1" ++ crlf ++ dec dictid ++ crlf)
  else
    ds ← ll_digits LONG_STR_SIZE dictid;
    Some (cstr "*2" ++ crlf ++ cstr "$6" ++ crlf ++ cstr "SELECT" ++ crlf ++
          (ch_dollar :: dec (zlen ds)) ++ crlf ++ ds ++ crlf).

Definition has_backlog (r : repl) : bool := match repl_backlog r with Some _ => true | None => false end.

Definition replicationFeedSlaves (r : repl) (dictid : Z) (argv : list robj) : option repl :=
  if masterhost r then Some r else
  if negb (has_backlog r) && (zlen (slaves r) =? 0) then Some r else
  if negb (zlen (slaves r) =? 0) && negb (has_backlog r) then None else
  r ← (if negb (slaveseldb r =? dictid) then
         cmd ← select_command dictid;
         r ← (if has_backlog r then feedReplicationBacklogWithObject r (Raw cmd) else Some r);
         Some (set_slaves r (slaveseldb r) (send_all cmd (slaves r)))
       else Some r);
  let r := set_slaves r dictid (slaves r) in
  r ← (if has_backlog r then
         h ← aux_header ch_star (zlen argv);
         r ← feedReplicationBacklog r h;
         feed_args r argv
       else Some r);
  h ← addReplyMultiBulkLen (zlen argv);
  bs ← reply_args argv;
  Some (set_slaves r (slaveseldb r) (send_all (h ++ bs) (slaves r))).

Definition replicationFeedSlavesFromMasterStream (r : repl) (buf : list Z) : option repl :=
  r ← (if has_backlog r then feedReplicationBacklog r buf else Some r);
  Some (set_slaves r (slaveseldb r) (send_all buf (slaves r))).

(** ** Replication IDs and partial resynchronization *)

Definition CONFIG_RUN_ID_SIZE := 40%nat.

(** The new ID is random. *)
Definition changeReplicationId (random : list Z) (r : repl) : repl := set_ids r random (replid2 r) (second_replid_offset r).
Definition clearReplicationId2 (r : repl) : repl := set_ids r (replid r) (replicate CONFIG_RUN_ID_SIZE 48) (-1).
Definition shiftReplicationId (random : list Z) (r : repl) : option repl :=
  o ← ll_add (master_repl_offset r) 1;
  Some (changeReplicationId random (set_ids r (replid r) (replid r) o)).

(** The outcome of a PSYNC request: a full resynchronization is needed, the
    acknowledgement could not be written and the client is closed, or the
    replica is attached. *)
Inductive psync := NeedFullResync (error : bool) | ClosedOnWrite | Continued (header : list Z) (sent : list Z).

Definition getLongLongFromObject (o : robj) : option Z :=
  match o with Raw s => string2ll s | Int n => Some n end.

(** The arguments of the command are the replication ID and the offset; [error] is
    the reply for an offset that is not a number.  [written] is whether [write]
    took the whole acknowledgement. *)
Definition masterTryPartialResynchronization (r : repl) (id : Z) (output : list Z) (asked : list Z) (offset : robj) (psync2 written : bool)
    : option (repl * psync) :=
  match getLongLongFromObject offset with
  | None => Some (r, NeedFullResync true)
  | Some psync_offset =>
      if negb (strcaseeq asked (replid r)) && (negb (strcaseeq asked (replid2 r)) || (psync_offset >? second_replid_offset r))
      then Some (r, NeedFullResync false)
      else if negb (has_backlog r) || (psync_offset <? repl_backlog_off r) || (psync_offset >? repl_backlog_off r + repl_backlog_histlen r)
      then Some (r, NeedFullResync false)
      else
        let attach bytes := set_slaves r (slaveseldb r) (slaves r ++ [mkSlave id SLAVE_STATE_ONLINE (output ++ bytes)]) in
        let header := if psync2 then cstr "+CONTINUE " ++ replid r ++ crlf else cstr "+CONTINUE" ++ crlf in
        if negb written then Some (attach [], ClosedOnWrite) else
        '(sent, _) ← addReplyReplicationBacklog r psync_offset;
        Some (attach sent, Continued header sent)
  end.

(** ** The backlog holds the end of the stream *)

Section Ring.
Context (size : Z) (Hsize : 1 <= size <= LLONG_MAX).

(** The [h] bytes before the index, going backwards, are the last bytes of the stream. *)
Definition recent (buf : list Z) (idx : Z) (stream : list Z) (h : Z) : Prop :=
  forall i, 0 <= i < h -> zget buf ((idx - 1 - i) mod size) = zget stream (zlen stream - 1 - i).

Lemma ring_pos a : - size <= a < size -> a mod size = if a <? 0 then a + size else a.
Proof.
  intros Ha. zcase; [|apply Z.mod_small; lia]. rewrite <- (Z.mod_small (a + size) size) by lia.
  rewrite <- (Z.mul_1_l size) at 2. by rewrite Z.mod_add by lia.
Qed.

Lemma zget_left {A} (a b : list A) i : i < zlen a -> zget (a ++ b) i = zget a i.
Proof. intros Hi. unfold zget. zcase; [|done]. apply lookup_app_l. unfold zlen in *. lia. Qed.

Lemma zget_right {A} (a b : list A) i : zlen a <= i -> zget (a ++ b) i = zget b (i - zlen a).
Proof.
  intros Hi. pose proof (zlen_nonneg a). unfold zget. zcase; [|lia]. zcase; [|lia]. rewrite lookup_app_r by (unfold zlen in *; lia).
  f_equal. unfold zlen. lia.
Qed.

Lemma mem_write_split l idx c : 0 <= idx -> idx + zlen c <= zlen l -> exists a b, mem_write l idx c = Some (a ++ c ++ b) /\
  zlen a = idx /\ zlen (a ++ c ++ b) = zlen l /\ (forall i, 0 <= i < idx -> zget a i = zget l i) /\
  forall i, 0 <= i -> zget b i = zget l (idx + zlen c + i).
Proof.
  intros H1 H2. pose proof (zlen_nonneg c).
  destruct (split_at l (Z.to_nat idx)) as (a & r & -> & Ha); [unfold zlen in *; lia|].
  destruct (split_at r (length c)) as (o & b & -> & Ho); [unfold zlen in *; rewrite length_app in *; lia|].
  assert (Ea : zlen a = idx) by (unfold zlen; lia). assert (Eo : zlen o = zlen c) by (unfold zlen; lia).
  exists a, b. split; [|split; [done|split]].
  - rewrite <- Ea. by apply mem_write_app.
  - rewrite !zlen_app. lia.
  - split; intros i Hi; [by rewrite zget_left by lia|]. rewrite zget_right by lia. rewrite zget_right by lia. f_equal. lia.
Qed.

Lemma ring_write buf idx hist stream c : zlen buf = size -> 0 <= idx < size -> 0 <= hist -> 1 <= zlen c -> idx + zlen c <= size ->
  recent buf idx stream (Z.min hist size) -> exists buf', mem_write buf idx c = Some buf' /\ zlen buf' = size /\
    recent buf' (if idx + zlen c =? size then 0 else idx + zlen c) (stream ++ c) (Z.min (hist + zlen c) size).
Proof.
  intros Hb Hi Hh Hc Hic Hr. destruct (mem_write_split buf idx c) as (a & b & -> & Ea & El & Hga & Hgb); [lia|lia|].
  eexists. split; [done|]. split; [lia|]. intros i Hi'.
  assert (Epos : ((if idx + zlen c =? size then 0 else idx + zlen c) - 1 - i) mod size = if idx + zlen c - 1 - i <? 0 then idx + zlen c - 1 - i + size else idx + zlen c - 1 - i).
  { destruct (idx + zlen c =? size) eqn:E; zbool; [|apply ring_pos; lia]. rewrite ring_pos by lia. repeat zcase; lia. }
  rewrite Epos. rewrite zlen_app. destruct (decide (i < zlen c)) as [Hlt|Hge].
  - zif_false. rewrite zget_right by lia. rewrite zget_left by lia. rewrite zget_right by lia. f_equal. lia.
  - rewrite (zget_left stream c) by lia. replace (zlen stream + zlen c - 1 - i) with (zlen stream - 1 - (i - zlen c)) by lia.
    rewrite <- Hr by lia. rewrite ring_pos by lia. replace (idx - 1 - (i - zlen c)) with (idx + zlen c - 1 - i) by lia.
    destruct (idx + zlen c - 1 - i <? 0) eqn:E; zbool.
    + rewrite zget_right by lia. rewrite zget_right by lia. rewrite Hgb by lia. f_equal. lia.
    + rewrite zget_left by lia. apply Hga. lia.
Qed.

Lemma feed_loop_spec fuel : forall buf idx hist p stream, (length p < fuel)%nat -> zlen buf = size -> 0 <= idx < size -> 0 <= hist ->
  recent buf idx stream (Z.min hist size) -> exists buf' idx', feed_loop fuel size buf idx hist p = Some (buf', idx', hist + zlen p) /\
    zlen buf' = size /\ 0 <= idx' < size /\ recent buf' idx' (stream ++ p) (Z.min (hist + zlen p) size).
Proof.
  induction fuel as [|fuel IH]; [lia|]. intros buf idx hist p stream Hf Hb Hi Hh Hr. cbn [feed_loop].
  destruct (zlen p =? 0) eqn:E0; zbool.
  { destruct p; [|rewrite zlen_cons in E0; pose proof (zlen_nonneg p); lia]. rewrite zlen_nil, Z.add_0_r, app_nil_r. by exists buf, idx. }
  rewrite u64_id by (unfold in_u64, ULLONG_MAX, LLONG_MAX in *; lia). pose proof (zlen_nonneg p).
  set (n := if size - idx >? zlen p then zlen p else size - idx).
  assert (Hn : 1 <= n <= zlen p /\ idx + n <= size /\ (n = zlen p \/ idx + n = size)) by (subst n; zcase; lia). clearbody n.
  assert (Ec : zlen (take (Z.to_nat n) p) = n) by (unfold zlen in *; rewrite length_take; lia).
  destruct (ring_write buf idx hist stream (take (Z.to_nat n) p)) as (buf' & -> & Hb' & Hr'); try done; [lia|lia|]. rewrite Ec in Hr'. mrun.
  destruct (IH buf' (if idx + n =? size then 0 else idx + n) (hist + n) (drop (Z.to_nat n) p) (stream ++ take (Z.to_nat n) p)) as (buf2 & idx2 & -> & H1 & H2 & H3); try done.
  - rewrite length_drop. unfold zlen in *. lia.
  - zcase; lia.
  - lia.
  - assert (Ed : zlen (drop (Z.to_nat n) p) = zlen p - n) by (unfold zlen in *; rewrite length_drop; lia).
    rewrite Ed in *. exists buf2, idx2. rewrite <- app_assoc, take_drop in H3. replace (hist + n + (zlen p - n)) with (hist + zlen p) in * by lia. done.
Qed.

(** ** Reading it back *)

Lemma zget_ext {A} (a b : list A) : zlen a = zlen b -> (forall i, 0 <= i < zlen a -> zget a i = zget b i) -> a = b.
Proof.
  intros Hl H. apply list_eq. intros i. destruct (decide (i < length a)%nat) as [Hi|Hi].
  - specialize (H (Z.of_nat i)). unfold zget in H. rewrite Nat2Z.id in H. destruct (0 <=? Z.of_nat i) eqn:E; zbool; [|lia]. apply H. unfold zlen. lia.
  - rewrite !lookup_ge_None_2; [done| |]; unfold zlen in *; lia.
Qed.

Lemma zget_take_drop {A} (l : list A) j n t : 0 <= j -> 0 <= t < n -> zget (take (Z.to_nat n) (drop (Z.to_nat j) l)) t = zget l (j + t).
Proof.
  intros Hj Ht. unfold zget. zcase; [|lia]. zcase; [|lia]. rewrite lookup_take_lt by lia. rewrite lookup_drop. f_equal. lia.
Qed.

Lemma reply_loop_spec fuel : forall buf j len, zlen buf = size -> 0 <= j < size -> 0 <= len <= size -> (Z.to_nat len < fuel)%nat ->
  exists sent, reply_loop fuel size buf j len = Some sent /\ zlen sent = len /\ forall t, 0 <= t < len -> zget sent t = zget buf ((j + t) mod size).
Proof.
  induction fuel as [|fuel IH]; [lia|]. intros buf j len Hb Hj Hl Hf. cbn [reply_loop].
  destruct (len =? 0) eqn:E0; zbool; [exists []; split; [done|]; split; [by rewrite zlen_nil|lia]|].
  set (n := if size - j <? len then size - j else len). assert (Hn : 1 <= n <= len /\ j + n <= size /\ (n = len \/ j + n = size)) by (subst n; zcase; lia).
  clearbody n. rewrite mem_read_safe by lia. mrun.
  destruct (IH buf 0 (len - n)) as (rest & -> & Hrl & Hrg); [done|lia|lia|lia|]. mrun. eexists. split; [done|].
  assert (Ep : zlen (take (Z.to_nat n) (drop (Z.to_nat j) buf)) = n) by (unfold zlen in *; rewrite length_take, length_drop; lia).
  rewrite zlen_app, Ep. split; [lia|]. intros t Ht. destruct (decide (t < n)) as [Hlt|Hge].
  - rewrite zget_left by lia. rewrite zget_take_drop by lia. f_equal. symmetry. apply Z.mod_small. lia.
  - rewrite zget_right by lia. rewrite Ep, Hrg by lia. f_equal. replace (0 + (t - n)) with (t - n) by lia. rewrite (Z.mod_small (t - n)) by lia.
    replace (j + t) with (t - n + 1 * size) by lia. rewrite Z.mod_add, Z.mod_small by lia. done.
Qed.
End Ring.

(** ** What is fed *)

(** The bytes of an object. *)
Definition obj (o : robj) : list Z := match o with Raw s => s | Int n => dec n end.
Definition objs (l : list robj) : list (list Z) := obj <$> l.
Definition obj_ok (o : robj) : Prop := match o with Raw s => zlen s <= LLONG_MAX | Int n => LLONG_MIN < n <= LLONG_MAX end.

Lemma ll_digits_spec n v : in_s64 v -> (21 <= n)%nat -> ll_digits n v = Some (dec v).
Proof.
  intros Hv Hn. unfold ll_digits. pose proof (dec_zlen v Hv) as Hd. rewrite ll2string_spec; [|done|unfold zlen; rewrite length_replicate; lia].
  zif_false. mrun. apply (mem_read_app []).
Qed.

Lemma aux_header_spec c n : in_s64 n -> aux_header c n = Some ((c :: dec n) ++ crlf).
Proof. intros Hn. unfold aux_header. rewrite ll_digits_spec by (done || unfold LONG_STR_SIZE; lia). done. Qed.

Lemma addReplyLongLongWithPrefix_spec n c : in_s64 n -> addReplyLongLongWithPrefix n c = Some ((c :: dec n) ++ crlf).
Proof. intros Hn. unfold addReplyLongLongWithPrefix. zcase; [done|]. rewrite ll_digits_spec by (done || lia). done. Qed.

Lemma int_len_loop_spec fuel : forall n len, 0 <= n < 10 ^ Z.of_nat fuel -> n < UMAX -> (1 <= fuel)%nat ->
  int_len_loop fuel n len = Some (len + ndigits n - 1).
Proof.
  induction fuel as [|fuel IH]; intros n len Hn Hu Hf; [lia|]. cbn [int_len_loop]. destruct (decide (n < 10)) as [Hlt|Hge].
  - rewrite Z.div_small by lia. cbn [Z.eqb]. rewrite ndigits_small by lia. f_equal. lia.
  - assert (1 <= n / 10) by (apply Z.div_le_lower_bound; lia). zif_false.
    assert (n / 10 < 10 ^ Z.of_nat fuel) by (apply Z.div_lt_upper_bound; [lia|]; rewrite Nat2Z.inj_succ, Z.pow_succ_r in Hn by lia; lia).
    rewrite IH; [rewrite (ndigits_step n) by lia; f_equal; lia|lia|apply Z.div_lt_upper_bound; unfold UMAX in *; lia|].
    destruct fuel; [cbn in *; lia|lia].
Qed.

Lemma stringObjectLen_spec o : obj_ok o -> stringObjectLen o = zlen (obj o).
Proof.
  destruct o as [s|n]; [done|]. intros Hn. cbn [obj_ok stringObjectLen obj] in *. assert (Hs : in_s64 n) by (unfold in_s64; lia).
  destruct (abs_UMAX n Hs) as [Hu _]. unfold sdigits10. rewrite dec_sign, zlen_app. unfold sign. zcase.
  - rewrite (proj2 (Z.eqb_neq n LLONG_MIN)) by lia. cbn [negb]. rewrite Z.abs_neq in * by lia. rewrite u64_id by done. rewrite digits10_spec by done. change (zlen [ch_minus]) with 1. unfold ndigits. lia.
  - rewrite Z.abs_eq in * by lia. rewrite digits10_spec by done. rewrite zlen_nil. unfold ndigits. lia.
Qed.

Lemma obj_len o : obj_ok o -> in_s64 (zlen (obj o)).
Proof.
  pose proof (zlen_nonneg (obj o)). unfold in_s64, LLONG_MIN. destruct o as [s|n]; cbn [obj obj_ok] in *; [lia|]. intros Hn.
  assert (Hs : in_s64 n) by (unfold in_s64; lia). pose proof (dec_zlen n Hs). unfold LLONG_MAX. lia.
Qed.

Lemma addReplyBulkLen_spec o : obj_ok o -> addReplyBulkLen o = Some ((ch_dollar :: dec (zlen (obj o))) ++ crlf).
Proof.
  intros Ho. pose proof (obj_len o Ho) as Hlen. unfold addReplyBulkLen.
  assert (match o with Raw s => Some (zlen s) | Int n => if n =? LLONG_MIN then None else if n <? 0 then int_len_loop 20 (- n) 2 else int_len_loop 20 n 1 end = Some (zlen (obj o))) as ->.
  { destruct o as [s|n]; [done|]. cbn [obj obj_ok] in *. assert (Hs : in_s64 n) by (unfold in_s64; lia). destruct (abs_UMAX n Hs) as [_ Hu].
    rewrite (proj2 (Z.eqb_neq n LLONG_MIN)) by lia. rewrite dec_sign, zlen_app. unfold sign. unfold UMAX in *. zcase; rewrite int_len_loop_spec; try (unfold UMAX; lia).
    - change (zlen [ch_minus]) with 1. rewrite Z.abs_neq by lia. unfold ndigits. f_equal. lia.
    - rewrite zlen_nil, Z.abs_eq by lia. unfold ndigits. f_equal. lia. }
  mrun. zcase; [done|]. by apply addReplyLongLongWithPrefix_spec.
Qed.

Lemma addReplyBulk_spec o : obj_ok o -> addReplyBulk o = Some (encode_arg (obj o)).
Proof.
  intros Ho. unfold addReplyBulk. rewrite addReplyBulkLen_spec by done. mrun.
  assert (object_bytes o = Some (obj o)) as ->.
  { destruct o as [s|n]; [done|]. cbn [object_bytes obj obj_ok] in *. apply ll_digits_spec; [unfold in_s64; lia|lia]. }
  mrun. unfold encode_arg. cbn [app]. by rewrite <- app_assoc.
Qed.

Lemma reply_args_spec argv : Forall obj_ok argv -> reply_args argv = Some (encode_args (objs argv)).
Proof.
  induction 1 as [|o argv Ho Hargv IH]; [done|]. cbn [reply_args]. rewrite addReplyBulk_spec by done. mrun.
  rewrite IH. mrun. done.
Qed.

Definition select_request (db : Z) : request := Resp [cstr "SELECT"; dec db].

Lemma select_command_spec db : in_s64 db -> select_command db = Some (encode (select_request db)).
Proof.
  intros Hdb. unfold select_command.
  assert (Henc : encode (select_request db) = cstr "*2" ++ crlf ++ cstr "$6" ++ crlf ++ cstr "SELECT" ++ crlf ++ (ch_dollar :: dec (zlen (dec db))) ++ crlf ++ dec db ++ crlf).
  { unfold select_request, encode, encode_args. cbn [mbind list_bind]. unfold encode_arg. rewrite app_nil_r. reflexivity. }
  rewrite Henc. zcase.
  - assert (exists c, dec db = [c]) as [c Ec].
    { unfold dec. zif_false. rewrite udec_small by (unfold PROTO_SHARED_SELECT_CMDS in *; lia). by eexists. }
    rewrite Ec. reflexivity.
  - rewrite ll_digits_spec by (done || unfold LONG_STR_SIZE; lia). done.
Qed.

(** ** The stream and the backlog *)

Section Stream.
Context (base : Z).

(** [stream] is everything fed since the offset was [base]. *)
Definition stream_ok (r : repl) (stream : list Z) : Prop :=
  master_repl_offset r = base + zlen stream /\ 1 <= repl_backlog_size r <= LLONG_MAX /\
  match repl_backlog r with
  | None => True
  | Some buf =>
      zlen buf = repl_backlog_size r /\ 0 <= repl_backlog_idx r < repl_backlog_size r /\
      0 <= repl_backlog_histlen r <= repl_backlog_size r /\ repl_backlog_histlen r <= zlen stream /\
      repl_backlog_off r = base + zlen stream - repl_backlog_histlen r + 1 /\
      recent (repl_backlog_size r) buf (repl_backlog_idx r) stream (repl_backlog_histlen r)
  end.

(** The fields that feeding does not change. *)
Definition others (r : repl) := (repl_backlog_size r, replid r, replid2 r, second_replid_offset r, slaveseldb r, masterhost r, slaves r).

Lemma ll_add_ok a b : a + b <= LLONG_MAX -> ll_add a b = Some (a + b).
Proof. intros Hab. unfold ll_add. by zif_false. Qed.

Lemma feed_spec r stream p : stream_ok r stream -> has_backlog r = true -> base + zlen (stream ++ p) < LLONG_MAX ->
  exists r', feedReplicationBacklog r p = Some r' /\ stream_ok r' (stream ++ p) /\ has_backlog r' = true /\ others r' = others r.
Proof.
  intros (Ho & Hs & Hb) Hh Hfit. unfold has_backlog in Hh. unfold feedReplicationBacklog. destruct (repl_backlog r) as [buf|]; [|done].
  destruct Hb as (H1 & H2 & H3 & H4 & H5 & H6). mrun. pose proof (zlen_nonneg p). pose proof (zlen_nonneg stream). rewrite zlen_app in Hfit.
  rewrite Ho, ll_add_ok by lia. mrun.
  destruct (feed_loop_spec (repl_backlog_size r) Hs (S (length p)) buf (repl_backlog_idx r) (repl_backlog_histlen r) p stream) as (buf' & idx' & -> & F1 & F2 & F3); [lia|done|done|lia|by rewrite Z.min_l by lia|].
  mrun. set (hist := if _ >? _ then _ else _). assert (Eh : hist = Z.min (repl_backlog_histlen r + zlen p) (repl_backlog_size r)) by (subst hist; zcase; lia).
  rewrite ll_add_ok by lia. mrun. eexists. split; [done|]. split; [|done].
  unfold stream_ok. cbn [master_repl_offset repl_backlog_size repl_backlog repl_backlog_idx repl_backlog_histlen repl_backlog_off set_offset set_backlog].
  rewrite zlen_app, Eh. split; [lia|]. split; [done|]. split; [done|]. split; [done|]. split; [lia|]. split; [lia|]. split; [lia|exact F3].
Qed.

Lemma feed_object_spec r stream o : obj_ok o -> stream_ok r stream -> has_backlog r = true -> base + zlen (stream ++ obj o) < LLONG_MAX ->
  exists r', feedReplicationBacklogWithObject r o = Some r' /\ stream_ok r' (stream ++ obj o) /\ has_backlog r' = true /\ others r' = others r.
Proof.
  intros Ho Hs Hb Hfit. destruct o as [s|n]; cbn [feedReplicationBacklogWithObject obj] in *; [by apply feed_spec|].
  rewrite ll_digits_spec by (unfold LONG_STR_SIZE, in_s64; cbn in Ho; lia). mrun. by apply feed_spec.
Qed.

Lemma feed_args_spec argv : forall r stream, Forall obj_ok argv -> stream_ok r stream -> has_backlog r = true ->
  base + zlen (stream ++ encode_args (objs argv)) < LLONG_MAX ->
  exists r', feed_args r argv = Some r' /\ stream_ok r' (stream ++ encode_args (objs argv)) /\ has_backlog r' = true /\ others r' = others r.
Proof.
  induction argv as [|o argv IH]; intros r stream Hok Hs Hb Hfit; cbn [feed_args].
  { exists r. cbn [objs fmap list_fmap encode_args mbind list_bind]. by rewrite app_nil_r. }
  apply Forall_cons in Hok as [Ho Hok]. rewrite stringObjectLen_spec, aux_header_spec by (done || by apply obj_len). mrun.
  assert (Henc : encode_args (objs (o :: argv)) = ((ch_dollar :: dec (zlen (obj o))) ++ crlf) ++ obj o ++ crlf ++ encode_args (objs argv)).
  { unfold encode_args, objs. cbn [fmap list_fmap mbind list_bind]. unfold encode_arg at 1. cbn [app]. by rewrite <- !app_assoc. }
  rewrite Henc in *. rewrite !zlen_app in Hfit.
  pose proof (zlen_nonneg crlf). pose proof (zlen_nonneg (obj o)). pose proof (zlen_nonneg (encode_args (objs argv))). pose proof (zlen_nonneg (ch_dollar :: dec (zlen (obj o)))).
  destruct (feed_spec r stream ((ch_dollar :: dec (zlen (obj o))) ++ crlf) Hs Hb) as (r1 & -> & Hs1 & Hb1 & E1); [rewrite !zlen_app; lia|]. mrun.
  destruct (feed_object_spec r1 _ o Ho Hs1 Hb1) as (r2 & -> & Hs2 & Hb2 & E2); [rewrite !zlen_app; lia|]. mrun.
  destruct (feed_spec r2 _ crlf Hs2 Hb2) as (r3 & E & Hs3 & Hb3 & E3); [rewrite !zlen_app; lia|]. unfold crlf in E at 1. rewrite E. mrun.
  destruct (IH r3 _ Hok Hs3 Hb3) as (r' & -> & Hs' & Hb' & E'); [rewrite !zlen_app; lia|].
  exists r'. split; [done|]. rewrite <- !app_assoc in Hs'. split; [by rewrite <- !app_assoc|]. split; [done|congruence].
Qed.

(** The requests a call puts into the stream. *)
Definition fed_requests (r : repl) (db : Z) (argv : list robj) : list request :=
  if masterhost r || negb (has_backlog r) then []
  else (if slaveseldb r =? db then [] else [select_request db]) ++ [Resp (objs argv)].

Definition set_sel (r : repl) (db : Z) : repl := set_slaves r db (slaves r).

Lemma stream_ok_slaves r stream db l : stream_ok r stream -> stream_ok (set_slaves r db l) stream.
Proof. done. Qed.

(** [replicationFeedSlaves] puts the same bytes into the backlog and into the
    output of every replica. *)
Lemma feed_slaves_spec r stream db argv : stream_ok r stream -> (slaves r <> [] -> has_backlog r = true) -> in_s64 db ->
  Forall obj_ok argv -> zlen argv <= INT32_MAX -> base + zlen (stream ++ encode_all (fed_requests r db argv)) < LLONG_MAX ->
  exists r', replicationFeedSlaves r db argv = Some r' /\ stream_ok r' (stream ++ encode_all (fed_requests r db argv)) /\ has_backlog r' = has_backlog r /\
    replid r' = replid r /\ replid2 r' = replid2 r /\ second_replid_offset r' = second_replid_offset r /\ masterhost r' = masterhost r /\
    slaveseldb r' = (if masterhost r || negb (has_backlog r) then slaveseldb r else db) /\
    slaves r' = send_all (encode_all (fed_requests r db argv)) (slaves r).
Proof.
  intros Hs Hsl Hdb Hargv Hn Hfit. unfold replicationFeedSlaves, fed_requests in *.
  assert (Hnop : forall l, send_all [] l = l).
  { intros l. unfold send_all. rewrite <- (list_fmap_id l) at 2. apply list_fmap_ext. intros _ [i st o] _. unfold send. cbn. rewrite app_nil_r. by destruct (st =? _). }
  destruct (masterhost r) eqn:Em; cbn [orb].
  { exists r. cbn [encode_all mbind list_bind]. rewrite app_nil_r, Hnop, Em. auto 10. }
  destruct (has_backlog r) eqn:Eb; cbn [negb andb] in *.
  2:{ assert (slaves r = []) as Esl by (destruct (slaves r); [done|]; by specialize (Hsl ltac:(done))). rewrite Esl. cbn [zlen length Z.of_nat Z.eqb negb andb].
      exists r. cbn [encode_all mbind list_bind]. rewrite app_nil_r, Esl, Em. auto 10. }
  rewrite andb_false_r. rewrite (eq_refl : (false || false) = false) in Hfit. cbv iota in Hfit. pose proof (zlen_nonneg argv). unfold INT32_MAX in Hn.
  assert (Hargc : in_s64 (zlen argv)) by (unfold in_s64, LLONG_MIN, LLONG_MAX; lia).
  set (sel := if slaveseldb r =? db then [] else [select_request db]) in *. rewrite encode_all_app in *. rewrite !zlen_app in Hfit.
  pose proof (zlen_nonneg (encode_all sel)). pose proof (zlen_nonneg (encode_all [Resp (objs argv)])).
  assert (exists r1, (if negb (slaveseldb r =? db) then
         cmd ← select_command db;
         r ← (if true then feedReplicationBacklogWithObject r (Raw cmd) else Some r);
         Some (set_slaves r (slaveseldb r) (send_all cmd (slaves r)))
       else Some r) = Some r1 /\ stream_ok r1 (stream ++ encode_all sel) /\ has_backlog r1 = true /\ replid r1 = replid r /\ replid2 r1 = replid2 r /\
       second_replid_offset r1 = second_replid_offset r /\ masterhost r1 = masterhost r /\ slaves r1 = send_all (encode_all sel) (slaves r)) as (r1 & -> & Hs1 & Hb1 & E1 & E2 & E3 & E4 & E5).
  { subst sel. destruct (slaveseldb r =? db); cbn [negb].
    - exists r. cbn [encode_all mbind list_bind]. rewrite app_nil_r, Hnop. auto 10.
    - rewrite select_command_spec by done. mrun. unfold encode_all in *. cbn [mbind list_bind] in *. rewrite ?app_nil_r in *. cbn [feedReplicationBacklogWithObject].
      destruct (feed_spec r stream (encode (select_request db)) Hs Eb) as (r1 & -> & Hs1 & Hb1 & Eo); [rewrite zlen_app; lia|]. mrun.
      eexists. split; [done|]. injection Eo as O1 O2 O3 O4 O5 O6 O7. cbn [has_backlog repl_backlog set_slaves replid replid2 second_replid_offset masterhost slaves]. rewrite O7. auto 10. }
  mrun. assert (Hb1' : has_backlog (set_slaves r1 db (slaves r1)) = true) by done. rewrite Hb1'.
  assert (Henc : encode_all [Resp (objs argv)] = ((ch_star :: dec (zlen argv)) ++ crlf) ++ encode_args (objs argv)).
  { unfold encode_all. cbn [mbind list_bind encode]. rewrite app_nil_r. replace (zlen (objs argv)) with (zlen argv) by (unfold zlen, objs; by rewrite length_fmap). cbn [app]. by rewrite <- app_assoc. }
  rewrite Henc in *. rewrite zlen_app in Hfit. pose proof (zlen_nonneg ((ch_star :: dec (zlen argv)) ++ crlf)). pose proof (zlen_nonneg (encode_args (objs argv))).
  rewrite aux_header_spec by done. mrun.
  destruct (feed_spec (set_slaves r1 db (slaves r1)) (stream ++ encode_all sel) ((ch_star :: dec (zlen argv)) ++ crlf)) as (r2 & -> & Hs2 & Hb2 & Eo2); [done|done|rewrite !zlen_app in *; lia|]. mrun.
  destruct (feed_args_spec argv r2 _ Hargv Hs2 Hb2) as (r3 & -> & Hs3 & Hb3 & Eo3); [rewrite !zlen_app in *; lia|]. mrun.
  assert (addReplyMultiBulkLen (zlen argv) = Some ((ch_star :: dec (zlen argv)) ++ crlf)) as ->.
  { unfold addReplyMultiBulkLen. zcase; [by zif_false|by apply addReplyLongLongWithPrefix_spec]. }
  mrun. rewrite reply_args_spec by done. mrun. eexists. split; [done|]. rewrite Eo2 in Eo3. injection Eo3 as O1 O2 O3 O4 O5 O6 O7.
  cbn [replid replid2 second_replid_offset masterhost slaves slaveseldb set_slaves] in *.
  split; [rewrite <- !app_assoc in *; by apply stream_ok_slaves|]. split; [done|]. split; [congruence|]. split; [congruence|]. split; [congruence|]. split; [congruence|]. split; [congruence|].
  rewrite O7, E5. unfold send_all. rewrite <- list_fmap_compose. apply list_fmap_ext. intros _ [i st o] _. unfold send. cbn. destruct (st =? _) eqn:Est; cbn; rewrite Est; [done|]. by rewrite <- !app_assoc.
Qed.

(** Reading from an offset that the backlog still has gives the rest of the stream. *)
Lemma backlog_reply_spec r known rest : stream_ok r (known ++ rest) -> has_backlog r = true ->
  repl_backlog_off r <= base + zlen known + 1 ->
  addReplyReplicationBacklog r (base + zlen known + 1) = Some (rest, zlen rest).
Proof.
  intros (Ho & Hs & Hb) Hh Hoff. unfold has_backlog in Hh. unfold addReplyReplicationBacklog. destruct (repl_backlog r) as [buf|]; [|done].
  destruct Hb as (H1 & H2 & H3 & H4 & H5 & H6). rewrite zlen_app in *. pose proof (zlen_nonneg known). pose proof (zlen_nonneg rest).
  destruct (repl_backlog_histlen r =? 0) eqn:E0; zbool.
  { assert (rest = []) as -> by (destruct rest; [done|rewrite zlen_cons in *; pose proof (zlen_nonneg rest); lia]). done. }
  mrun. set (size := repl_backlog_size r) in *. set (hist := repl_backlog_histlen r) in *. set (idx := repl_backlog_idx r) in *.
  set (skip := base + zlen known + 1 - repl_backlog_off r) in *. assert (Hlen : hist - skip = zlen rest) by (subst skip; lia).
  rewrite (Z.rem_mod_nonneg (idx + (size - hist)) size) by lia. pose proof (Z.mod_pos_bound (idx + (size - hist)) size ltac:(lia)).
  rewrite Z.rem_mod_nonneg by (subst skip; lia). rewrite Z.add_mod_idemp_l by lia. rewrite Hlen.
  pose proof (Z.mod_pos_bound (idx + (size - hist) + skip) size ltac:(lia)).
  destruct (reply_loop_spec size Hs (S (Z.to_nat (zlen rest))) buf ((idx + (size - hist) + skip) mod size) (zlen rest)) as (sent & -> & Hl & Hg); [done|done|lia|lia|].
  mrun. do 2 f_equal. apply zget_ext; [done|]. intros t Ht. rewrite Hg by lia. rewrite Z.add_mod_idemp_l by lia.
  pose proof (H6 (zlen rest - 1 - t) ltac:(lia)) as Hr. rewrite (zget_right known rest) in Hr by (rewrite zlen_app; lia). rewrite zlen_app in Hr.
  replace (zlen known + zlen rest - 1 - (zlen rest - 1 - t) - zlen known) with t in Hr by lia. rewrite <- Hr. f_equal.
  replace (idx + (size - hist) + skip + t) with (idx - 1 - (zlen rest - 1 - t) + 1 * size) by lia. by rewrite Z.mod_add by lia.
Qed.

(** ** Operations of a master and its replicas *)

Inductive op :=
| OCreate (garbage : Z) | OResize (garbage newsize : Z) | OFree (newid : list Z)
| OFeed (db : Z) (argv : list robj) | OProxy (bytes : list Z)
| OShift (newid : list Z) | OClearId2
| OPsync (id : Z) (asked : list Z) (offset : robj) (psync2 : bool).

(** Freeing the backlog comes with a new replication ID (replicationCron). *)
Definition exec_op (r : repl) (o : op) : option repl :=
  match o with
  | OCreate g => createReplicationBacklog g r
  | OResize g n => resizeReplicationBacklog g r n
  | OFree i => r ← freeReplicationBacklog (clearReplicationId2 (changeReplicationId i r)); Some r
  | OFeed db argv => replicationFeedSlaves r db argv
  | OProxy b => replicationFeedSlavesFromMasterStream r b
  | OShift i => shiftReplicationId i r
  | OClearId2 => Some (clearReplicationId2 r)
  | OPsync id asked off p2 => '(r, _) ← masterTryPartialResynchronization r id [] asked off p2 true; Some r
  end.

(** What an operation adds to the stream. *)
Definition added (r : repl) (o : op) : list Z :=
  match o with
  | OFeed db argv => encode_all (fed_requests r db argv)
  | OProxy b => if has_backlog r then b else []
  | _ => []
  end.

(** The bytes of the stream replica [i] has when it asks to continue. *)
Context (had : Z -> list Z).

(** A replica asks for the byte after the last one it has.  What it has is a part
    of this master's stream if it names the current ID, and agrees with it up to
    the recorded offset if it names the previous one. *)
Definition truthful (r : repl) (stream : list Z) (id : Z) (asked : list Z) (offset : robj) : Prop :=
  getLongLongFromObject offset = Some (base + zlen (had id) + 1) /\
  (strcaseeq asked (replid r) = true -> had id `prefix_of` stream) /\
  (strcaseeq asked (replid2 r) = true -> take (Z.to_nat (second_replid_offset r - 1 - base)) (had id) `prefix_of` stream).

Definition legal (r : repl) (stream : list Z) (o : op) : Prop :=
  base + zlen (stream ++ added r o) < LLONG_MAX /\
  match o with
  | OCreate _ => repl_backlog r = None
  | OResize _ n => n <= LLONG_MAX
  | OFree _ => slaves r = []
  | OFeed db argv => in_s64 db /\ Forall obj_ok argv /\ zlen argv <= INT32_MAX
  | OPsync id asked off _ => truthful r stream id asked off
  | _ => True
  end.

(** The replicas are in step with the stream. *)
Definition in_step (stream : list Z) (s : slave) : Prop := replstate s = SLAVE_STATE_ONLINE /\ had (sl_id s) ++ out s = stream.

Definition master_ok (r : repl) (stream : list Z) : Prop :=
  stream_ok r stream /\ (slaves r <> [] -> has_backlog r = true) /\ Forall (in_step stream) (slaves r).

Lemma in_step_send stream b l : Forall (in_step stream) l -> Forall (in_step (stream ++ b)) (send_all b l).
Proof.
  intros Hl. apply Forall_fmap. eapply Forall_impl; [exact Hl|]. intros [i st o] [Hst Ho]. cbn in Hst, Ho. subst st. unfold send. cbn.
  split; [done|]. cbn. by rewrite app_assoc, Ho.
Qed.

(** A new, empty backlog. *)
Lemma fresh_backlog r stream garbage size off : stream_ok r stream -> 1 <= size <= LLONG_MAX -> off = base + zlen stream + 1 ->
  stream_ok (set_backlog r (Some (replicate (Z.to_nat size) garbage)) size 0 0 off) stream.
Proof.
  intros (Ho & _ & _) Hs ->. unfold stream_ok. cbn [master_repl_offset repl_backlog_size repl_backlog repl_backlog_idx repl_backlog_histlen repl_backlog_off set_backlog].
  pose proof (zlen_nonneg stream). split; [done|]. split; [done|]. split; [unfold zlen; rewrite length_replicate; lia|]. repeat split; try lia. intros i Hi. lia.
Qed.

(** What the master answers to a truthful replica. *)
Lemma psync_spec r stream id output asked offset p2 : stream_ok r stream -> truthful r stream id asked offset ->
  (exists e, masterTryPartialResynchronization r id output asked offset p2 true = Some (r, NeedFullResync e)) \/
  (exists header rest, stream = had id ++ rest /\ has_backlog r = true /\
    masterTryPartialResynchronization r id output asked offset p2 true =
      Some (set_slaves r (slaveseldb r) (slaves r ++ [mkSlave id SLAVE_STATE_ONLINE (output ++ rest)]), Continued header rest)).
Proof.
  intros Hs (Hoff & Ht1 & Ht2). unfold masterTryPartialResynchronization. rewrite Hoff.
  destruct (negb (strcaseeq asked (replid r)) && _) eqn:Eid; [left; by eexists|].
  destruct (negb (has_backlog r) || _ || _) eqn:Eb; [left; by eexists|]. right.
  apply orb_false_iff in Eb as [Eb Eb2]. apply orb_false_iff in Eb as [Eb Eb1]. apply negb_false_iff in Eb. zbool.
  assert (Hpre : had id `prefix_of` stream).
  { apply andb_false_iff in Eid as [Eid|Eid]; [by apply Ht1, negb_false_iff|]. apply orb_false_iff in Eid as [Eid Eid2]. apply negb_false_iff in Eid. zbool.
    specialize (Ht2 Eid). rewrite take_ge in Ht2; [done|]. unfold zlen in *. lia. }
  destruct Hpre as [rest ->]. exists (if p2 then cstr "+CONTINUE " ++ replid r ++ crlf else cstr "+CONTINUE" ++ crlf), rest.
  split; [done|]. split; [done|]. cbn [negb]. rewrite (backlog_reply_spec r (had id) rest Hs Eb Eb1). done.
Qed.

Lemma exec_op_ok r stream o : master_ok r stream -> legal r stream o -> exists r', exec_op r o = Some r' /\ master_ok r' (stream ++ added r o).
Proof.
  intros (Hs & Hb & Hsl) [Hfit Hl]. pose proof Hs as (Ho & Hsz & _). destruct o as [g|g n|i|db argv|b|i| |id asked off p2]; cbn [exec_op added] in *; rewrite ?app_nil_r in *.
  - unfold createReplicationBacklog. rewrite Hl, Ho, ll_add_ok by lia. mrun. eexists. split; [done|]. split; [by apply fresh_backlog|]. by split.
  - unfold resizeReplicationBacklog. set (n' := if n <? _ then _ else n). assert (Hn : 1 <= n' <= LLONG_MAX) by (subst n'; unfold CONFIG_REPL_BACKLOG_MIN_SIZE, LLONG_MAX in *; zcase; lia).
    clearbody n'. destruct (repl_backlog_size r =? n'); [by exists r|]. destruct (repl_backlog r) eqn:Eb.
    + rewrite Ho, ll_add_ok by lia. mrun. eexists. split; [done|]. split; [by apply fresh_backlog|]. by split.
    + eexists. split; [done|]. split; [done|]. split; [|done]. intros Hne. unfold has_backlog in Hb. rewrite Eb in Hb. by specialize (Hb Hne).
  - unfold freeReplicationBacklog. cbn [slaves clearReplicationId2 changeReplicationId set_ids]. rewrite Hl. mrun. eexists. split; [done|].
    split; [done|]. cbn [slaves set_backlog clearReplicationId2 changeReplicationId set_ids]. rewrite Hl. by split.
  - destruct Hl as (Hdb & Hargv & Hn). destruct (feed_slaves_spec r stream db argv Hs Hb Hdb Hargv Hn Hfit) as (r' & -> & Hs' & E1 & E2 & E3 & E4 & E5 & E6 & E7).
    exists r'. split; [done|]. split; [done|]. rewrite E1, E7. split; [|by apply in_step_send]. intros Hne. apply Hb. intros E. by rewrite E in Hne.
  - unfold replicationFeedSlavesFromMasterStream. destruct (has_backlog r) eqn:Eb.
    + destruct (feed_spec r stream b Hs Eb Hfit) as (r' & -> & Hs' & Hb' & Eo). mrun. eexists. split; [done|]. injection Eo as _ _ _ _ _ _ Esl.
      split; [done|]. cbn [slaves set_slaves]. rewrite Esl. split; [done|]. by apply in_step_send.
    + mrun. assert (slaves r = []) as Esl by (destruct (slaves r); [done|]; by specialize (Hb ltac:(done))). rewrite Esl, app_nil_r. eexists. split; [done|]. by split.
  - unfold shiftReplicationId. rewrite Ho, ll_add_ok by lia. mrun. eexists. split; [done|]. by split.
  - eexists. split; [done|]. by split.
  - destruct (psync_spec r stream id [] asked off p2 Hs Hl) as [[e ->]|(h & rest & -> & Eb & ->)]; mrun; eexists; (split; [done|]); [done|].
    split; [done|]. cbn [slaves set_slaves]. split; [done|]. apply Forall_app. split; [done|]. by repeat constructor.
Qed.

(** Runs of operations, each legal in the state it is executed in. *)
Fixpoint run_ops (r : repl) (stream : list Z) (os : list op) : option (repl * list Z) :=
  match os with
  | [] => Some (r, stream)
  | o :: os => r' ← exec_op r o; run_ops r' (stream ++ added r o) os
  end.

Fixpoint legal_run (r : repl) (stream : list Z) (os : list op) : Prop :=
  match os with
  | [] => True
  | o :: os => legal r stream o /\ forall r', exec_op r o = Some r' -> legal_run r' (stream ++ added r o) os
  end.

Lemma run_ops_ok os : forall r stream, master_ok r stream -> legal_run r stream os -> exists r' stream', run_ops r stream os = Some (r', stream') /\ master_ok r' stream'.
Proof.
  induction os as [|o os IH]; intros r stream Hm Hl; [by exists r, stream|]. cbn [run_ops]. destruct Hl as [Hl Hrest].
  destruct (exec_op_ok r stream o Hm Hl) as (r' & Hr & Hm'). rewrite Hr. mrun. apply IH; [done|]. by apply Hrest.
Qed.

(** A server that starts with an offset and neither backlog nor replicas. *)
Definition starts (r : repl) : Prop :=
  repl_backlog r = None /\ slaves r = [] /\ master_repl_offset r = base /\ 1 <= repl_backlog_size r <= LLONG_MAX.

Lemma starts_ok r : starts r -> master_ok r [].
Proof.
  intros (H1 & H2 & H3 & H4). unfold master_ok, stream_ok, has_backlog. rewrite H1, H2, H3, zlen_nil. split; [split; [lia|done]|]. by split.
Qed.
End Stream.

(** C9: Partial resynchronization never loses or repeats a byte.  A server starts
    with some offset; it creates, resizes and frees its backlog, feeds commands
    or proxies its own master's stream, changes its replication IDs as failovers
    do, and answers PSYNC requests of replicas that tell the truth about what
    they have, in any order.  Then every operation succeeds without leaving the
    circular buffer, the replication offset counts the bytes of the stream, and
    for every attached replica what it had when it connected, followed by what
    was sent to it, is exactly the stream: whether its request named the current
    replication ID or the one before a failover, whatever the backlog has
    wrapped around, and whatever was fed since. *)
Theorem replication_consistent (base : Z) (had : Z -> list Z) (r0 : repl) (os : list op) :
  starts base r0 -> legal_run base had r0 [] os ->
  exists r stream, run_ops r0 [] os = Some (r, stream) /\ master_repl_offset r = base + zlen stream /\
    forall s, s ∈ slaves r -> had (sl_id s) ++ out s = stream.
Proof.
  intros Hs Hl. destruct (run_ops_ok base had os r0 [] (starts_ok base had r0 Hs) Hl) as (r & stream & Hr & (Ho & _) & _ & Hsl).
  exists r, stream. split; [done|]. split; [done|]. intros s Hin. rewrite Forall_forall in Hsl. by apply Hsl.
Qed.

(** C25: A PSYNC request is answered with the missing bytes whenever the backlog
    still has them.  In every state a master can reach, a truthful replica that
    names the current replication ID and lacks no more than the bytes the
    backlog holds is attached and sent exactly the bytes it lacks; and whatever
    ID it names, if it is attached at all, then with exactly those bytes. *)
Theorem partial_resync_exact (base : Z) (had : Z -> list Z) (r0 r : repl) (os : list op) (stream : list Z)
    (id : Z) (asked : list Z) (offset : robj) (p2 : bool) :
  starts base r0 -> legal_run base had r0 [] os -> run_ops r0 [] os = Some (r, stream) -> truthful base had r stream id asked offset ->
  (forall r' header sent, masterTryPartialResynchronization r id [] asked offset p2 true = Some (r', Continued header sent) -> had id ++ sent = stream) /\
  (has_backlog r = true -> strcaseeq asked (replid r) = true -> zlen stream - zlen (had id) <= repl_backlog_histlen r ->
    exists r' header sent, masterTryPartialResynchronization r id [] asked offset p2 true = Some (r', Continued header sent)).
Proof.
  intros Hs Hl Hrun Ht. destruct (run_ops_ok base had os r0 [] (starts_ok base had r0 Hs) Hl) as (r1 & stream1 & Hr & Hst & _ & _).
  rewrite Hrun in Hr. injection Hr as <- <-. pose proof (psync_spec base had r stream id [] asked offset p2 Hst Ht) as Hp.
  split.
  - intros r' header sent E. destruct Hp as [[e Hp]|(h & rest & -> & _ & Hp)]; rewrite Hp in E; by simplify_eq.
  - intros Hbk Hid Hlen. destruct Hp as [[e Hp]|(h & rest & _ & _ & Hp)]; [exfalso|by rewrite Hp; do 3 eexists].
    destruct Ht as (Hoff & Hpre & _). specialize (Hpre Hid) as [rest ->]. revert Hp. unfold masterTryPartialResynchronization. rewrite Hoff, Hid. cbn [negb andb].
    unfold has_backlog in Hbk. destruct Hst as (_ & _ & Hbuf). unfold has_backlog. destruct (repl_backlog r) as [buf|]; [|done].
    destruct Hbuf as (_ & _ & _ & _ & Ho & _). rewrite zlen_app in *. pose proof (zlen_nonneg rest). cbn [negb orb].
    replace (_ || _) with false by lia. destruct (addReplyReplicationBacklog r _) as [[sent n]|]; mrun; done.
Qed.

(** ** From the master's commands to the replica's *)

(** The requests of a sequence of commands, with a SELECT where the database changes. *)
Fixpoint master_requests (sel : Z) (cmds : list (Z * list robj)) : list request :=
  match cmds with
  | [] => []
  | (db, argv) :: cmds => (if sel =? db then [] else [select_request db]) ++ Resp (objs argv) :: master_requests db cmds
  end.

Fixpoint feed_all (r : repl) (cmds : list (Z * list robj)) : option repl :=
  match cmds with
  | [] => Some r
  | (db, argv) :: cmds => r ← replicationFeedSlaves r db argv; feed_all r cmds
  end.

(** Commands a master executes: within the limits of the replica's parser. *)
Definition command_ok (max_bulk : Z) (c : Z * list robj) : Prop :=
  let '(db, argv) := c in in_s64 db /\ 1 <= zlen argv <= 1024 * 1024 /\ Forall obj_ok argv /\ Forall (fun o => zlen (obj o) <= max_bulk) argv.

Lemma master_requests_ok max_bulk cmds : 20 <= max_bulk -> Forall (command_ok max_bulk) cmds ->
  forall sel, Forall (request_ok max_bulk) (master_requests sel cmds).
Proof.
  intros Hm Hc. induction Hc as [|[db argv] cmds (Hdb & Hn & _ & Hlen) Hc IH]; intros sel; [constructor|]. cbn [master_requests].
  apply Forall_app. split; [|constructor; [|apply IH]].
  - destruct (sel =? db); [constructor|]. constructor; [|constructor]. split; [done|]. pose proof (dec_zlen db Hdb).
    constructor; [change (zlen (cstr "SELECT")) with 6; lia|]. constructor; [lia|constructor].
  - split; [unfold objs, zlen in *; by rewrite length_fmap|]. unfold objs. by apply Forall_fmap.
Qed.

Lemma feed_all_spec base max_bulk cmds : forall r stream, Forall (command_ok max_bulk) cmds -> stream_ok base r stream -> has_backlog r = true -> masterhost r = false ->
  base + zlen (stream ++ encode_all (master_requests (slaveseldb r) cmds)) < LLONG_MAX ->
  exists r', feed_all r cmds = Some r' /\ slaves r' = send_all (encode_all (master_requests (slaveseldb r) cmds)) (slaves r).
Proof.
  induction cmds as [|[db argv] cmds IH]; intros r stream Hok Hs Hb Hm Hfit; cbn [feed_all master_requests].
  { exists r. split; [done|]. unfold send_all. rewrite <- (list_fmap_id (slaves r)) at 1. apply list_fmap_ext. intros _ [i st o] _. unfold send. cbn. rewrite app_nil_r. by destruct (st =? _). }
  apply Forall_cons in Hok as [(Hdb & Hn & Hobj & _) Hok].
  assert (Ereq : fed_requests r db argv = (if slaveseldb r =? db then [] else [select_request db]) ++ [Resp (objs argv)]) by (unfold fed_requests; by rewrite Hm, Hb).
  assert (Esplit : encode_all (master_requests (slaveseldb r) ((db, argv) :: cmds)) = encode_all (fed_requests r db argv) ++ encode_all (master_requests db cmds)).
  { rewrite <- encode_all_app, Ereq, <- app_assoc. done. }
  rewrite Esplit in Hfit. rewrite app_assoc, zlen_app in Hfit. pose proof (zlen_nonneg (encode_all (master_requests db cmds))).
  destruct (feed_slaves_spec base r stream db argv Hs (fun _ => Hb) Hdb Hobj) as (r1 & -> & Hs1 & Hb1 & _ & _ & _ & Hm1 & Hsel & Hsl); [unfold INT32_MAX; lia|lia|].
  rewrite Hm, Hb in Hsel. cbn [orb negb] in Hsel. mrun.
  destruct (IH r1 (stream ++ encode_all (fed_requests r db argv)) Hok Hs1) as (r' & -> & Hr'); [by rewrite Hb1|by rewrite Hm1|rewrite Hsel, zlen_app; lia|].
  exists r'. split; [done|]. rewrite Hr', Hsel, Hsl. unfold send_all. rewrite <- list_fmap_compose. apply list_fmap_ext. intros _ [i st o] _. unfold send. cbn.
  destruct (st =? _) eqn:Est; cbn; rewrite Est; [done|]. f_equal. rewrite <- app_assoc. f_equal. cbn [master_requests] in Esplit. by rewrite Esplit.
Qed.

(** C10: A replica executes the commands of its master.  A master with an attached
    replica feeds a sequence of commands; the bytes written for the replica are
    delivered to it in arbitrary pieces, while the replica may pause, run a busy
    script, block or unblock the link, and its commands may rewrite their
    arguments.  At any time the commands the replica was given to execute are a
    prefix of the master's, in order, with the same arguments (integers in their
    decimal form), each after the selection of its database; and when all bytes
    have been read and the processing was not stopped, it was given all of them.
    Of the replica's commands [CommandLaws] is assumed (they leave the query
    buffer, the offsets and the kind of the link alone and do not free the
    link), and of its limits [LimitsFit]. *)
Theorem replica_follows_master {Srv} `{HS : Server Srv} `{HL : !CommandLaws Srv} `{HF : !LimitsFit Srv}
    (base : Z) (r : repl) (stream : list Z) (id : Z) (cmds : list (Z * list robj)) (st0 : Srv) :
  let reqs := master_requests (slaveseldb r) cmds in
  stream_ok base r stream -> has_backlog r = true -> masterhost r = false -> slaves r = [mkSlave id SLAVE_STATE_ONLINE []] ->
  20 <= proto_max_bulk_len -> Forall (command_ok proto_max_bulk_len) cmds ->
  0 <= base -> base + zlen (stream ++ encode_all reqs) < LLONG_MAX ->
  exists r' s', feed_all r cmds = Some r' /\ slaves r' = [s'] /\
    forall es future, arrived es ++ future = out s' ->
      exists w k, world_run (connect st0 (masterClient (base + zlen stream))) es = Some w /\ (k <= length reqs)%nat /\
        w_log w = executed (take k reqs) /\
        match w_status w with
        | Connected _ => future = [] -> w_sock w = [] -> w_waiting w = false -> k = length reqs
        | Closed => True
        | Oversize waited => waited = true
        end.
Proof.
  intros reqs Hs Hb Hm Hsl Hmax Hok Hbase Hfit. destruct (feed_all_spec base _ cmds r stream Hok Hs Hb Hm Hfit) as (r' & Hr & Hsl').
  rewrite Hsl in Hsl'. cbn in Hsl'. exists r', (mkSlave id SLAVE_STATE_ONLINE (encode_all reqs)). split; [done|]. split; [done|]. cbn [out].
  intros es future Hes. pose proof (master_requests_ok _ cmds Hmax Hok (slaveseldb r)) as Hreqs. fold reqs in Hreqs.
  rewrite zlen_app in Hfit. pose proof (zlen_nonneg stream).
  destruct (conn_run true (base + zlen stream) reqs Hreqs ltac:(lia) es (connect st0 (masterClient (base + zlen stream))) (masterClient (base + zlen stream)) [] 0) as (w & Hrun & Hout);
    [by apply conn_start|by exists future|].
  exists w. destruct Hout as [(c & got & k & Hc & E)|(k & Hk & Hl & Hst & _)]; exists k; (split; [done|]).
  2:{ split; [done|]. split; [done|]. by destruct Hst as [->| ->]. }
  pose proof (conn_complete _ _ reqs w c got k Hc) as [_ Hk]. destruct Hc as (-> & _ & fu & Hinv). split; [apply Hinv|]. split; [apply Hinv|].
  intros -> Hsock Hw. cbn [connect w_sock app] in E. rewrite Hsock, !app_nil_r in *. subst got. rewrite Hes in Hk.
  destruct (decide (k < length reqs)%nat) as [Hlt|]; [|pose proof (iv_count _ _ _ _ _ _ _ _ _ _ Hinv); lia]. specialize (Hk Hw Hlt).
  destruct (encode_take_prefix reqs (S k) (length reqs)) as [y Hy]; [lia|]. rewrite (take_ge reqs (length reqs)) in Hy by lia.
  rewrite Hy, zlen_app in Hk. pose proof (zlen_nonneg y). lia.
Qed.

(** ** A sample: a small backlog wraps around, a replica returns *)

Definition sample_master : repl :=
  mkRepl None 40 0 0 0 100 (cstr "aaaa") (cstr "0000") (-1) (-1) false [].
Definition sample_known : list Z := encode_all [select_request 0; Resp [cstr "SET"; cstr "x"; dec 1]].
Definition sample_ops : list op :=
  [OCreate 255; OFeed 0 [Raw (cstr "SET"); Raw (cstr "x"); Int 1]; OFeed 0 [Raw (cstr "INCR"); Raw (cstr "x")];
   OShift (cstr "bbbb"); OPsync 7 (cstr "AAAA") (Int (100 + zlen sample_known + 1)) true; OFeed 0 [Raw (cstr "DEL"); Raw (cstr "x")]].

Example sample_replica : (fun '(r, _) => out <$> slaves r) <$> run_ops sample_master [] sample_ops =
  Some [encode_all [Resp [cstr "INCR"; cstr "x"]; Resp [cstr "DEL"; cstr "x"]]].
Proof. vm_compute. reflexivity. Qed.

Lemma sample_starts : starts 100 sample_master.
Proof. unfold starts, LLONG_MAX. cbn. repeat split; lia. Qed.

(** Evaluate the state a legality condition is about. *)
Ltac eval_legal :=
  split; [split; [vm_compute; reflexivity|]|intros r Hr; vm_compute in Hr; injection Hr as <-].

Ltac prove_sample_legal :=
  unfold sample_ops; cbn [legal_run];
  eval_legal; [done|]; eval_legal; [by repeat constructor|]; eval_legal; [by repeat constructor|]; eval_legal; [done|];
  eval_legal; [split; [vm_compute; reflexivity|]; split; [vm_compute; discriminate|]; intros _; eexists; vm_compute; reflexivity|];
  eval_legal; [by repeat constructor|done].

Lemma sample_legal : legal_run 100 (fun _ => sample_known) sample_master [] sample_ops.
Proof. prove_sample_legal. Qed.

Lemma replication_consistent_witness :
  exists r stream, run_ops sample_master [] sample_ops = Some (r, stream) /\ master_repl_offset r = 100 + zlen stream /\
    forall s, s ∈ slaves r -> sample_known ++ out s = stream.
Proof. apply (replication_consistent 100 (fun _ => sample_known)); [exact sample_starts|exact sample_legal]. Defined.

Definition sample_end : repl * list Z :=
  Eval vm_compute in match run_ops sample_master [] sample_ops with Some x => x | None => (sample_master, []) end.

(** Replica 8 has also executed the INCR. *)
Definition sample_had (id : Z) : list Z :=
  if id =? 8 then sample_known ++ encode (Resp [cstr "INCR"; cstr "x"]) else sample_known.

Lemma sample_had_legal : legal_run 100 sample_had sample_master [] sample_ops.
Proof. prove_sample_legal. Qed.

(** It returns with the current ID; the 20 bytes of the DEL it lacks are in the
    backlog, and it is sent them. *)
Lemma partial_resync_exact_witness : let '(r, stream) := sample_end in
  exists r' header sent, masterTryPartialResynchronization r 8 [] (cstr "bbbb") (Int (101 + zlen (sample_had 8))) true true = Some (r', Continued header sent) /\
    sample_had 8 ++ sent = stream /\ zlen sent = 20.
Proof.
  destruct (partial_resync_exact 100 sample_had sample_master sample_end.1 sample_ops sample_end.2 8 (cstr "bbbb") (Int (101 + zlen (sample_had 8))) true) as [Hsent Hserved].
  - exact sample_starts.
  - exact sample_had_legal.
  - vm_compute. reflexivity.
  - split; [vm_compute; reflexivity|]. split; [|vm_compute; discriminate]. intros _. eexists. vm_compute. reflexivity.
  - destruct Hserved as (r' & header & sent & E); [vm_compute; reflexivity|vm_compute; reflexivity|vm_compute; discriminate|].
    exists r', header, sent. split; [exact E|]. pose proof (Hsent r' header sent E) as Hs. split; [exact Hs|].
    apply (f_equal zlen) in Hs. rewrite zlen_app in Hs. revert Hs. generalize (zlen sent). vm_compute (zlen (sample_had 8)). vm_compute (zlen sample_end.2). intros z Hz. lia.
Defined.

(** Two commands in two databases, for a replica that has just been attached. *)
Definition sample_attached : repl :=
  mkRepl (Some (replicate 64 0)) 64 0 0 1 0 (cstr "aaaa") (cstr "0000") (-1) (-1) false [mkSlave 3 SLAVE_STATE_ONLINE []].
Definition sample_commands : list (Z * list robj) := [(0, [Raw (cstr "SET"); Raw (cstr "x"); Int (-5)]); (12, [Raw (cstr "DEL"); Raw (cstr "x")])].

Lemma replica_follows_master_witness :
  exists r' s', feed_all sample_attached sample_commands = Some r' /\ slaves r' = [s'] /\
    forall es future, arrived es ++ future = out s' ->
      exists w k, world_run (connect false (masterClient 0)) es = Some w /\ (k <= 4)%nat /\
        w_log w = executed (take k (master_requests (-1) sample_commands)) /\
        match w_status w with
        | Connected _ => future = [] -> w_sock w = [] -> w_waiting w = false -> k = 4%nat
        | Closed => True
        | Oversize waited => waited = true
        end.
Proof.
  apply (replica_follows_master 0 sample_attached [] 3 sample_commands false); try done.
  - unfold stream_ok, LLONG_MAX. cbn. repeat split; try lia.
    { done. }
    intros i Hi. lia.
  - repeat constructor; done || (vm_compute; discriminate).
Defined.

End Replication.
