(* ===== verification/Multi.v ===== *)
(** * Command execution and transactions (server.c, multi.c)

    The path of a command through the server: [processCommand] looks it up and
    decides whether to reject it, queue it or run it; [call] runs it and
    propagates it to the append only file and the replicas; MULTI, EXEC, DISCARD,
    WATCH and UNWATCH are the transaction commands.  The handlers of the other
    commands are an interface, [Commands]: what a handler does is the list of
    effects it performs on the server, in order.  [None] is a failed assertion,
    the use of a client that was freed, or EXEC within EXEC. *)

From Stdlib Require Import String Ascii.
From S2P Require Import Prelude Util Args Networking.

Module Multi.
Import Util Networking.

Definition CLIENT_DIRTY_CAS := Z.shiftl 1 5.
Definition CLIENT_LUA := Z.shiftl 1 8.
Definition CLIENT_DIRTY_EXEC := Z.shiftl 1 12.
Definition CLIENT_FORCE_AOF := Z.shiftl 1 14.
Definition CLIENT_FORCE_REPL := Z.shiftl 1 15.
Definition CLIENT_PUBSUB := Z.shiftl 1 18.
Definition CLIENT_PREVENT_AOF_PROP := Z.shiftl 1 19.
Definition CLIENT_PREVENT_REPL_PROP := Z.shiftl 1 20.
Definition CLIENT_PREVENT_PROP := Z.lor CLIENT_PREVENT_AOF_PROP CLIENT_PREVENT_REPL_PROP.

Definition CMD_WRITE := Z.shiftl 1 0.
Definition CMD_READONLY := Z.shiftl 1 1.
Definition CMD_DENYOOM := Z.shiftl 1 2.
Definition CMD_MODULE := Z.shiftl 1 3.
Definition CMD_ADMIN := Z.shiftl 1 4.
Definition CMD_LOADING := Z.shiftl 1 9.
Definition CMD_STALE := Z.shiftl 1 10.
Definition CMD_SKIP_MONITOR := Z.shiftl 1 11.

Definition CMD_CALL_NONE := 0.
Definition CMD_CALL_SLOWLOG := Z.shiftl 1 0.
Definition CMD_CALL_STATS := Z.shiftl 1 1.
Definition CMD_CALL_PROPAGATE_AOF := Z.shiftl 1 2.
Definition CMD_CALL_PROPAGATE_REPL := Z.shiftl 1 3.
Definition CMD_CALL_PROPAGATE := Z.lor CMD_CALL_PROPAGATE_AOF CMD_CALL_PROPAGATE_REPL.
Definition CMD_CALL_FULL := Z.lor CMD_CALL_SLOWLOG (Z.lor CMD_CALL_STATS CMD_CALL_PROPAGATE).

Definition PROPAGATE_NONE := 0.
Definition PROPAGATE_AOF := 1.
Definition PROPAGATE_REPL := 2.

(** A key, and a key together with the number of its database. *)
Abbreviation key := (list Z).
Abbreviation dbkey := (Z * list Z)%type.

(** The handlers that [processCommand] compares with, and the others. *)
Inductive procId :=
  | EXEC | DISCARD | MULTI | WATCH | UNWATCH | AUTH | PING | SUBSCRIBE | UNSUBSCRIBE | PSUBSCRIBE | PUNSUBSCRIBE
  | EVAL | EVALSHA | REPLCONF | SHUTDOWN | SCRIPT | OTHER (n : Z).

#[export] Instance procId_eq_dec : EqDecision procId.
Proof. solve_decision. Defined.

Record redisCommand := mkCommand {
  proc : procId;
  arity : Z;
  cflags : Z;
  has_keys : bool   (** a [getkeys_proc] or a first key *)
}.

(** A command is its handler: [c->cmd->proc == p]. *)
Definition runs (cmd : redisCommand) (p : procId) : bool := bool_decide (proc cmd = p).

Inductive error :=
  | unknown_command | wrong_arity | noautherr | redirected (code : Z) | oomerr | bgsaveerr | aof_error | noreplicaserr
  | roslaveerr | pubsub_context | masterdownerr | loadingerr | slowscripterr | nested_multi | exec_without_multi
  | discard_without_multi | watch_in_multi | execaborterr | exec_readonly_slave.

Inductive reply := ok | queued | nullmultibulk | mbulklen (n : Z) | err (e : error) | bulk (bytes : list Z).

Record multiCmd := mkMultiCmd { mc_argv : list (list Z); mc_cmd : redisCommand }.

Record client := mkClient {
  flags : Z;
  db : Z;
  argv : list (list Z);
  cmd : option redisCommand;
  authenticated : bool;
  commands : list multiCmd;      (** [mstate.commands], [mstate.count] *)
  cmd_flags : Z;                 (** [mstate.cmd_flags] *)
  watched_keys : list dbkey;
  replies : list reply
}.

(** What reaches the replication stream: a command, or bytes written to the backlog. *)
Inductive fed := Fed (dbid : Z) (args : list (list Z)) | FedBytes (bytes : list Z).

(** An operation scheduled with [alsoPropagate]. *)
Record redisOp := mkOp { op_db : Z; op_argv : list (list Z); op_target : Z }.

(** The configuration and the state of other components that the guards read. *)
Record config := mkConfig {
  requirepass : bool; cluster_enabled : bool; maxmemory : bool; lua_timedout : bool; lua_caller : option Z;
  repl_min_slaves_to_write : Z; repl_min_slaves_max_lag : Z; repl_good_slaves_count : Z; repl_slave_ro : bool;
  repl_connected : bool; repl_serve_stale_data : bool; loading : bool; aof_enabled : bool; has_monitors : bool
}.

Section Server.
Context {K : Type}.

Record server := mkServer {
  clients : gmap Z client;
  watchers : gmap dbkey (list Z);   (** [watched_keys] of all databases: the clients that watch a key *)
  keyspace : K;                     (** the keyspace, and what else the handlers work on *)
  dirty : Z;
  also_propagate : list redisOp;
  ready_keys : list dbkey;
  masterhost : bool;
  repl_backlog : bool;
  lua_oom : bool;
  aof_log : list (Z * list (list Z));
  repl_log : list fed;
  monitor_log : list (Z * list (list Z));
  stat_numcommands : Z;
  cfg : config
}.

Definition set_clients (s : server) (m : gmap Z client) : server :=
  mkServer m (watchers s) (keyspace s) (dirty s) (also_propagate s) (ready_keys s) (masterhost s) (repl_backlog s) (lua_oom s)
    (aof_log s) (repl_log s) (monitor_log s) (stat_numcommands s) (cfg s).
Definition set_watchers (s : server) (w : gmap dbkey (list Z)) : server :=
  mkServer (clients s) w (keyspace s) (dirty s) (also_propagate s) (ready_keys s) (masterhost s) (repl_backlog s) (lua_oom s)
    (aof_log s) (repl_log s) (monitor_log s) (stat_numcommands s) (cfg s).
Definition set_keyspace (s : server) (k : K) : server :=
  mkServer (clients s) (watchers s) k (dirty s) (also_propagate s) (ready_keys s) (masterhost s) (repl_backlog s) (lua_oom s)
    (aof_log s) (repl_log s) (monitor_log s) (stat_numcommands s) (cfg s).
Definition set_dirty (s : server) (d : Z) : server :=
  mkServer (clients s) (watchers s) (keyspace s) d (also_propagate s) (ready_keys s) (masterhost s) (repl_backlog s) (lua_oom s)
    (aof_log s) (repl_log s) (monitor_log s) (stat_numcommands s) (cfg s).
Definition set_also (s : server) (l : list redisOp) : server :=
  mkServer (clients s) (watchers s) (keyspace s) (dirty s) l (ready_keys s) (masterhost s) (repl_backlog s) (lua_oom s)
    (aof_log s) (repl_log s) (monitor_log s) (stat_numcommands s) (cfg s).
Definition set_ready (s : server) (l : list dbkey) : server :=
  mkServer (clients s) (watchers s) (keyspace s) (dirty s) (also_propagate s) l (masterhost s) (repl_backlog s) (lua_oom s)
    (aof_log s) (repl_log s) (monitor_log s) (stat_numcommands s) (cfg s).
Definition set_masterhost (s : server) (b : bool) : server :=
  mkServer (clients s) (watchers s) (keyspace s) (dirty s) (also_propagate s) (ready_keys s) b (repl_backlog s) (lua_oom s)
    (aof_log s) (repl_log s) (monitor_log s) (stat_numcommands s) (cfg s).
Definition set_lua_oom (s : server) (b : bool) : server :=
  mkServer (clients s) (watchers s) (keyspace s) (dirty s) (also_propagate s) (ready_keys s) (masterhost s) (repl_backlog s) b
    (aof_log s) (repl_log s) (monitor_log s) (stat_numcommands s) (cfg s).
Definition set_logs (s : server) (a : list (Z * list (list Z))) (r : list fed) (m : list (Z * list (list Z))) : server :=
  mkServer (clients s) (watchers s) (keyspace s) (dirty s) (also_propagate s) (ready_keys s) (masterhost s) (repl_backlog s) (lua_oom s)
    a r m (stat_numcommands s) (cfg s).
Definition set_stat (s : server) (n : Z) : server :=
  mkServer (clients s) (watchers s) (keyspace s) (dirty s) (also_propagate s) (ready_keys s) (masterhost s) (repl_backlog s) (lua_oom s)
    (aof_log s) (repl_log s) (monitor_log s) n (cfg s).

Definition set_cflags (c : client) (f : Z) : client :=
  mkClient f (db c) (argv c) (cmd c) (authenticated c) (commands c) (cmd_flags c) (watched_keys c) (replies c).
Definition set_db (c : client) (d : Z) : client :=
  mkClient (flags c) d (argv c) (cmd c) (authenticated c) (commands c) (cmd_flags c) (watched_keys c) (replies c).
Definition set_args (c : client) (a : list (list Z)) (m : option redisCommand) : client :=
  mkClient (flags c) (db c) a m (authenticated c) (commands c) (cmd_flags c) (watched_keys c) (replies c).
Definition set_auth (c : client) (b : bool) : client :=
  mkClient (flags c) (db c) (argv c) (cmd c) b (commands c) (cmd_flags c) (watched_keys c) (replies c).
Definition set_mstate (c : client) (l : list multiCmd) (f : Z) : client :=
  mkClient (flags c) (db c) (argv c) (cmd c) (authenticated c) l f (watched_keys c) (replies c).
Definition set_watched (c : client) (l : list dbkey) : client :=
  mkClient (flags c) (db c) (argv c) (cmd c) (authenticated c) (commands c) (cmd_flags c) l (replies c).
Definition set_replies (c : client) (l : list reply) : client :=
  mkClient (flags c) (db c) (argv c) (cmd c) (authenticated c) (commands c) (cmd_flags c) (watched_keys c) l.

(** Update a client in place; the client must not have been freed. *)
Definition upd (s : server) (id : Z) (f : client -> client) : option server :=
  c ← clients s !! id; Some (set_clients s (<[id := f c]> (clients s))).

Definition on (m : Z) (c : client) : client := set_cflags c (Z.lor (flags c) m).
Definition off (m : Z) (c : client) : client := set_cflags c (Z.land (flags c) (Z.lnot m)).
Definition addReply (r : reply) (c : client) : client := set_replies c (replies c ++ [r]).

(** ** Transactions: the queue *)

Definition initClientMultiState (c : client) : client := set_mstate c [] 0.

Definition queueMultiCommand (c : client) : option client :=
  m ← cmd c;
  Some (set_mstate c (commands c ++ [mkMultiCmd (argv c) m]) (Z.lor (cmd_flags c) (cflags m))).

Definition flagTransaction (c : client) : client :=
  if has (flags c) CLIENT_MULTI then on CLIENT_DIRTY_EXEC c else c.

(** ** WATCH *)

Definition watchForKey (s : server) (id : Z) (k : key) : option server :=
  c ← clients s !! id;
  if bool_decide ((db c, k) ∈ watched_keys c) then Some s else
  let l := default [] (watchers s !! (db c, k)) in
  let s := set_watchers s (<[(db c, k) := l ++ [id]]> (watchers s)) in
  upd s id (fun c => set_watched c (watched_keys c ++ [(db c, k)])).

(** Delete the first node of a client: the node must be there. *)
Fixpoint list_del (x : Z) (l : list Z) : option (list Z) :=
  match l with
  | [] => None
  | y :: l => if x =? y then Some l else l ← list_del x l; Some (y :: l)
  end.

(** The assertion is that the key has watchers, and [listDelNode] needs the node
    that [listSearchKey] looks for. *)
Fixpoint unwatch_loop (id : Z) (ks : list dbkey) (w : gmap dbkey (list Z)) : option (gmap dbkey (list Z)) :=
  match ks with
  | [] => Some w
  | k :: ks =>
      l ← w !! k;
      l ← list_del id l;
      unwatch_loop id ks (match l with [] => delete k w | _ :: _ => <[k := l]> w end)
  end.

Definition unwatchAllKeys (s : server) (id : Z) : option server :=
  c ← clients s !! id;
  w ← unwatch_loop id (watched_keys c) (watchers s);
  upd (set_watchers s w) id (fun c => set_watched c []).

(** Every client of the list is marked. *)
Fixpoint touch_loop (s : server) (l : list Z) : option server :=
  match l with
  | [] => Some s
  | id :: l => s ← upd s id (on CLIENT_DIRTY_CAS); touch_loop s l
  end.

Definition touchWatchedKey (s : server) (d : Z) (k : key) : option server :=
  match watchers s !! (d, k) with None => Some s | Some l => touch_loop s l end.

Definition discardTransaction (s : server) (id : Z) : option server :=
  s ← upd s id (fun c => off (Z.lor CLIENT_MULTI (Z.lor CLIENT_DIRTY_CAS CLIENT_DIRTY_EXEC)) (initClientMultiState c));
  unwatchAllKeys s id.

(** [freeClient]: the parts that concern the index of watched keys. *)
Definition freeClient (s : server) (id : Z) : option server :=
  s ← unwatchAllKeys s id;
  Some (set_clients s (delete id (clients s))).

(** ** Propagation *)

(** [replicationFeedSlaves] does nothing on a replica. *)
Definition propagate (s : server) (dbid : Z) (args : list (list Z)) (target : Z) : server :=
  let s := if aof_enabled (cfg s) && has target PROPAGATE_AOF then set_logs s (aof_log s ++ [(dbid, args)]) (repl_log s) (monitor_log s) else s in
  if has target PROPAGATE_REPL then
    if masterhost s then s else set_logs s (aof_log s) (repl_log s ++ [Fed dbid args]) (monitor_log s)
  else s.

Definition alsoPropagate (s : server) (dbid : Z) (args : list (list Z)) (target : Z) : server :=
  if loading (cfg s) then s else set_also s (also_propagate s ++ [mkOp dbid args target]).

Definition forceCommandPropagation (f : Z) (c : client) : client :=
  let c := if has f PROPAGATE_REPL then on CLIENT_FORCE_REPL c else c in
  if has f PROPAGATE_AOF then on CLIENT_FORCE_AOF c else c.
Definition preventCommandPropagation (c : client) : client := on CLIENT_PREVENT_PROP c.
Definition preventCommandAOF (c : client) : client := on CLIENT_PREVENT_AOF_PROP c.
Definition preventCommandReplication (c : client) : client := on CLIENT_PREVENT_REPL_PROP c.

Definition replicationFeedMonitors (s : server) (dbid : Z) (args : list (list Z)) : server :=
  set_logs s (aof_log s) (repl_log s) (monitor_log s ++ [(dbid, args)]).

(** ** What a handler can do *)

Inductive effect :=
  | EKeyspace (k : K)
  | ESignalModifiedKey (d : Z) (k : key)
  | ESignalFlushedDb (dbid : Z)
  | ESignalKeyAsReady (d : Z) (k : key)
  | EDirty (n : Z)
  | ESaved   (** [rdbSave] resets the count of changes *)
  | EReply (id : Z) (bytes : list Z)
  | ESelect (d : Z)
  | ERewrite (args : list (list Z)) (m : redisCommand)
  | EAuth (b : bool)
  | EForce (f : Z) | EPrevent | EPreventAOF | EPreventReplication
  | EAlsoPropagate (dbid : Z) (args : list (list Z)) (target : Z)
  | EPropagate (dbid : Z) (args : list (list Z)) (target : Z)
  | EReplicaOf (b : bool)
  | EPubsub (b : bool)
  | ECloseAfterReply
  | EFreeClient (id : Z).

End Server.
Arguments server K : clear implicits.
Arguments effect K : clear implicits.

(** The handlers of the other commands, and the answers of other components. *)
Class Commands (K : Type) := {
  entry : Type;
  lookup : K -> dbkey -> option entry;                      (** the entry of a key: its value and its time to live *)
  persistent : entry -> bool;                               (** the entry has no time to live *)
  lookupCommand : list Z -> option redisCommand;
  filters : server K -> Z -> list (list Z) -> list (list Z);   (** [moduleCallCommandFilters] *)
  body : procId -> K -> Z -> Z -> bool -> list (list Z) -> list (effect K);   (** the client, its database, whether it is in MULTI, its arguments *)
  getNodeByQuery : server K -> Z -> option Z;           (** an error code when another node serves the keys *)
  freeMemoryIfNeeded : server K -> list (effect K) * bool;    (** and whether it failed *)
  writeCommandsDeniedByDiskError : server K -> option error;
  serve_blocked : server K -> list (effect K);          (** [handleClientsBlockedOnKeys] *)
  background : Z -> server K -> list (effect K)         (** work between commands: expiry, synchronization *)
}.

Section Exec.
Context {K : Type} `{Commands K}.
Implicit Types s : server K.

(** For every watched key of the database that exists, its client is marked. *)
Fixpoint flush_loop (k : K) (dbid : Z) (l : list dbkey) (c : client) : client :=
  match l with
  | [] => c
  | wk :: l =>
      flush_loop k dbid l
        (if ((dbid =? -1) || (wk.1 =? dbid)) && bool_decide (is_Some (lookup k wk)) then on CLIENT_DIRTY_CAS c else c)
  end.

Definition touchWatchedKeysOnFlush s (dbid : Z) : server K :=
  set_clients s ((fun c => flush_loop (keyspace s) dbid (watched_keys c) c) <$> clients s).

Definition do_effect (id : Z) (e : effect K) s : option (server K) :=
  match e with
  | EKeyspace k => Some (set_keyspace s k)
  | ESignalModifiedKey d k => touchWatchedKey s d k
  | ESignalFlushedDb dbid => Some (touchWatchedKeysOnFlush s dbid)
  | ESignalKeyAsReady d k => Some (set_ready s (ready_keys s ++ [(d, k)]))
  | EDirty n => Some (set_dirty s (dirty s + n))
  | ESaved => Some (set_dirty s 0)
  | EReply i bytes => match clients s !! i with Some _ => upd s i (addReply (bulk bytes)) | None => Some s end
  | ESelect d => upd s id (fun c => set_db c d)
  | ERewrite args m => upd s id (fun c => set_args c args (Some m))
  | EAuth b => upd s id (fun c => set_auth c b)
  | EForce f => upd s id (forceCommandPropagation f)
  | EPrevent => upd s id preventCommandPropagation
  | EPreventAOF => upd s id preventCommandAOF
  | EPreventReplication => upd s id preventCommandReplication
  | EAlsoPropagate d args t => Some (alsoPropagate s d args t)
  | EPropagate d args t => Some (propagate s d args t)
  | EReplicaOf b => Some (set_masterhost s b)
  | EPubsub b => upd s id (if b then on CLIENT_PUBSUB else off CLIENT_PUBSUB)
  | ECloseAfterReply => upd s id (on CLIENT_CLOSE_AFTER_REPLY)
  | EFreeClient i => match clients s !! i with Some _ => freeClient s i | None => Some s end
  end.

Fixpoint do_effects (id : Z) (es : list (effect K)) s : option (server K) :=
  match es with [] => Some s | e :: es => s ← do_effect id e s; do_effects id es s end.

(** ** The transaction commands *)

Definition multiCommand s (id : Z) : option (server K) :=
  c ← clients s !! id;
  if has (flags c) CLIENT_MULTI then upd s id (addReply (err nested_multi))
  else upd s id (fun c => addReply ok (on CLIENT_MULTI c)).

Definition discardCommand s (id : Z) : option (server K) :=
  c ← clients s !! id;
  if negb (has (flags c) CLIENT_MULTI) then upd s id (addReply (err discard_without_multi)) else
  s ← discardTransaction s id;
  upd s id (addReply ok).

Fixpoint watch_loop s (id : Z) (ks : list key) : option (server K) :=
  match ks with [] => Some s | k :: ks => s ← watchForKey s id k; watch_loop s id ks end.

Definition watchCommand s (id : Z) : option (server K) :=
  c ← clients s !! id;
  if has (flags c) CLIENT_MULTI then upd s id (addReply (err watch_in_multi)) else
  s ← watch_loop s id (tail (argv c));
  upd s id (addReply ok).

Definition unwatchCommand s (id : Z) : option (server K) :=
  s ← unwatchAllKeys s id;
  upd s id (fun c => addReply ok (off CLIENT_DIRTY_CAS c)).

Definition str_MULTI : list Z := cstr "MULTI".
Definition str_EXEC : list Z := cstr "EXEC".

Definition execCommandPropagateMulti s (c : client) : server K :=
  propagate s (db c) [str_MULTI] (Z.lor PROPAGATE_AOF PROPAGATE_REPL).

(** The loop of EXEC over the queue, which it reads and updates in the client. *)
Fixpoint exec_loop (call : server K -> Z -> Z -> option (server K)) (fuel : nat) (j : nat) (must_propagate : bool) s (id : Z)
    : option (server K * bool) :=
  match fuel with
  | O => None
  | S fuel =>
      c ← clients s !! id;
      match commands c !! j with
      | None => Some (s, must_propagate)
      | Some mc =>
          s ← upd s id (fun c => set_args c (mc_argv mc) (Some (mc_cmd mc)));
          let first := negb must_propagate && negb (has (cflags (mc_cmd mc)) (Z.lor CMD_READONLY CMD_ADMIN)) in
          let s := if first then execCommandPropagateMulti s c else s in
          s ← call s id (if loading (cfg s) then CMD_CALL_NONE else CMD_CALL_FULL);
          c ← clients s !! id;
          m ← cmd c;
          s ← upd s id (fun c => set_mstate c (<[j := mkMultiCmd (argv c) m]> (commands c)) (cmd_flags c));
          exec_loop call fuel (S j) (must_propagate || first) s id
      end
  end.

Definition handle_monitor s (id : Z) : option (server K) :=
  c ← clients s !! id;
  Some (if has_monitors (cfg s) && negb (loading (cfg s)) then replicationFeedMonitors s (db c) (argv c) else s).

(** The bytes "*1", "$4", "EXEC" that end the backlog. *)
Definition execcmd : list Z := cstr "*1" ++ crlf ++ cstr "$4" ++ crlf ++ str_EXEC ++ crlf.

(** EXEC is propagated when MULTI was, by counting as a change; an instance that
    became a replica in between ends its backlog by hand. *)
Definition exec_propagated (was_master must_propagate : bool) s : server K :=
  if must_propagate then
    let s := set_dirty s (dirty s + 1) in
    if repl_backlog s && was_master && masterhost s
    then set_logs s (aof_log s) (repl_log s ++ [FedBytes execcmd]) (monitor_log s) else s
  else s.

Definition execCommand (call : server K -> Z -> Z -> option (server K)) s (id : Z) : option (server K) :=
  let was_master := negb (masterhost s) in
  c ← clients s !! id;
  if negb (has (flags c) CLIENT_MULTI) then upd s id (addReply (err exec_without_multi)) else
  if has (flags c) (Z.lor CLIENT_DIRTY_CAS CLIENT_DIRTY_EXEC) then
    s ← upd s id (addReply (if has (flags c) CLIENT_DIRTY_EXEC then err execaborterr else nullmultibulk));
    s ← discardTransaction s id;
    handle_monitor s id
  else if negb (loading (cfg s)) && masterhost s && repl_slave_ro (cfg s) && negb (has (flags c) CLIENT_MASTER) && has (cmd_flags c) CMD_WRITE then
    s ← upd s id (addReply (err exec_readonly_slave));
    s ← discardTransaction s id;
    handle_monitor s id
  else
    s ← unwatchAllKeys s id;
    s ← upd s id (addReply (mbulklen (zlen (commands c))));
    '(s, must_propagate) ← exec_loop call (S (length (commands c))) 0 false s id;
    s ← upd s id (fun c' => set_args c' (argv c) (cmd c));
    s ← discardTransaction s id;
    handle_monitor (exec_propagated was_master must_propagate s) id.

Definition run_proc (call : server K -> Z -> Z -> option (server K)) s (id : Z) (p : procId) : option (server K) :=
  match p with
  | EXEC => execCommand call s id
  | DISCARD => discardCommand s id
  | MULTI => multiCommand s id
  | WATCH => watchCommand s id
  | UNWATCH => unwatchCommand s id
  | _ => c ← clients s !! id; do_effects id (body p (keyspace s) id (db c) (has (flags c) CLIENT_MULTI) (argv c)) s
  end.

(** ** call *)

Definition replication_flags : Z := Z.lor CLIENT_FORCE_AOF (Z.lor CLIENT_FORCE_REPL CLIENT_PREVENT_PROP).

(** The flags for the propagation of the command itself. *)
Definition propagate_flags (changed : bool) (cf callf : Z) : Z :=
  let p := PROPAGATE_NONE in
  let p := if changed then Z.lor p (Z.lor PROPAGATE_AOF PROPAGATE_REPL) else p in
  let p := if has cf CLIENT_FORCE_REPL then Z.lor p PROPAGATE_REPL else p in
  let p := if has cf CLIENT_FORCE_AOF then Z.lor p PROPAGATE_AOF else p in
  let p := if has cf CLIENT_PREVENT_REPL_PROP || negb (has callf CMD_CALL_PROPAGATE_REPL) then Z.land p (Z.lnot PROPAGATE_REPL) else p in
  if has cf CLIENT_PREVENT_AOF_PROP || negb (has callf CMD_CALL_PROPAGATE_AOF) then Z.land p (Z.lnot PROPAGATE_AOF) else p.

Definition propagate_self s (c : client) (m : redisCommand) (changed : bool) (callf : Z) : server K :=
  if has callf CMD_CALL_PROPAGATE && negb (Z.land (flags c) CLIENT_PREVENT_PROP =? CLIENT_PREVENT_PROP) then
    let p := propagate_flags changed (flags c) callf in
    if negb (p =? PROPAGATE_NONE) && negb (has (cflags m) CMD_MODULE) then propagate s (db c) (argv c) p else s
  else s.

Fixpoint propagate_also s (callf : Z) (ops : list redisOp) : server K :=
  match ops with
  | [] => s
  | o :: ops =>
      let target := op_target o in
      let target := if negb (has callf CMD_CALL_PROPAGATE_AOF) then Z.land target (Z.lnot PROPAGATE_AOF) else target in
      let target := if negb (has callf CMD_CALL_PROPAGATE_REPL) then Z.land target (Z.lnot PROPAGATE_REPL) else target in
      propagate_also (if negb (target =? 0) then propagate s (op_db o) (op_argv o) target else s) callf ops
  end.

(** The caller of a script inherits the forced propagation. *)
Definition force_lua_caller s (c : client) : option (server K) :=
  match lua_caller (cfg s) with
  | Some caller =>
      if has (flags c) CLIENT_LUA then
        s ← (if has (flags c) CLIENT_FORCE_REPL then upd s caller (on CLIENT_FORCE_REPL) else Some s);
        (if has (flags c) CLIENT_FORCE_AOF then upd s caller (on CLIENT_FORCE_AOF) else Some s)
      else Some s
  | None => Some s
  end.

(** The depth counts the nesting of EXEC. *)
Fixpoint call (depth : nat) s (id : Z) (callf : Z) : option (server K) :=
  match depth with
  | O => None
  | S depth =>
      c ← clients s !! id;
      m ← cmd c;
      let old_flags := flags c in
      let s := if has_monitors (cfg s) && negb (loading (cfg s)) && negb (has (cflags m) (Z.lor CMD_SKIP_MONITOR CMD_ADMIN))
               then replicationFeedMonitors s (db c) (argv c) else s in
      s ← upd s id (off replication_flags);
      let prev := also_propagate s in
      let s := set_also s [] in
      let dirty0 := dirty s in
      s ← run_proc (call depth) s id (proc m);
      let changed := dirty s - dirty0 >? 0 in
      c ← clients s !! id;
      s ← force_lua_caller s c;
      c ← clients s !! id;
      m ← cmd c;
      let s := propagate_self s c m changed callf in
      s ← upd s id (fun c => set_cflags c (Z.lor (Z.land (flags c) (Z.lnot replication_flags)) (Z.land old_flags replication_flags)));
      let s := if has callf CMD_CALL_PROPAGATE then propagate_also s callf (also_propagate s) else s in
      let s := set_also s prev in
      Some (set_stat s (stat_numcommands s + 1))
  end.

(** EXEC runs the queued commands, which are not EXEC themselves. *)
Definition call_depth : nat := 2.

(** ** processCommand *)

Definition reject (flag : bool) s (id : Z) (e : error) : option (server K * bool) :=
  s ← upd s id (fun c => addReply (err e) (if flag then flagTransaction c else c));
  Some (s, true).

Definition first_char (a : list Z) : Z := default 0 (head a).

(** The commands a busy script lets through. *)
Definition allowed_during_script (m : redisCommand) (args : list (list Z)) : bool :=
  runs m AUTH || runs m REPLCONF ||
  (runs m SHUTDOWN && (zlen args =? 2) && (tolower (first_char (default [] (args !! 1%nat))) =? 110)) ||
  (runs m SCRIPT && (zlen args =? 2) && (tolower (first_char (default [] (args !! 1%nat))) =? 107)).

(** Queue the command or run it: the end of [processCommand]. *)
Definition execute s (id : Z) (m : redisCommand) : option (server K * bool) :=
  c ← clients s !! id;
  if has (flags c) CLIENT_MULTI && negb (runs m EXEC) && negb (runs m DISCARD) && negb (runs m MULTI) && negb (runs m WATCH) then
    c' ← queueMultiCommand c;
    s ← upd s id (fun _ => addReply queued c');
    Some (s, true)
  else
    s ← call call_depth s id CMD_CALL_FULL;
    s ← (if negb (zlen (ready_keys s) =? 0) then s ← do_effects id (serve_blocked s) s; Some (set_ready s []) else Some s);
    Some (s, true).

(** The guards after the memory check: the first one that rejects the command, and
    whether it flags the transaction. *)
Definition late_guards s (c : client) (m : redisCommand) : option (bool * error) :=
  let g := cfg s in
  let write := has (cflags m) CMD_WRITE in
  match (if negb (masterhost s) && (write || runs m PING) then writeCommandsDeniedByDiskError s else None) with
  | Some e => Some (true, e)
  | None =>
  if negb (masterhost s) && negb (repl_min_slaves_to_write g =? 0) && negb (repl_min_slaves_max_lag g =? 0) && write &&
     (repl_good_slaves_count g <? repl_min_slaves_to_write g) then Some (true, noreplicaserr) else
  if masterhost s && repl_slave_ro g && negb (has (flags c) CLIENT_MASTER) && write then Some (false, roslaveerr) else
  if has (flags c) CLIENT_PUBSUB && negb (runs m PING) && negb (runs m SUBSCRIBE) && negb (runs m UNSUBSCRIBE) &&
     negb (runs m PSUBSCRIBE) && negb (runs m PUNSUBSCRIBE) then Some (false, pubsub_context) else
  if masterhost s && negb (repl_connected g) && negb (repl_serve_stale_data g) && negb (has (cflags m) CMD_STALE) then Some (true, masterdownerr) else
  if loading g && negb (has (cflags m) CMD_LOADING) then Some (false, loadingerr) else
  if lua_timedout g && negb (allowed_during_script m (argv c)) then Some (true, slowscripterr) else
  None
  end.

(** The guards before it. *)
Definition early_guards s (c : client) (m : redisCommand) : option error :=
  let argc := zlen (argv c) in
  if ((arity m >? 0) && negb (arity m =? argc)) || (argc <? - arity m) then Some wrong_arity else
  if requirepass (cfg s) && negb (authenticated c) && negb (runs m AUTH) then Some noautherr else
  None.

Definition lua_master s (c : client) : bool :=
  has (flags c) CLIENT_LUA &&
  match lua_caller (cfg s) with
  | Some i => match clients s !! i with Some l => has (flags l) CLIENT_MASTER | None => false end
  | None => false
  end.

(** The redirection of a cluster. *)
Definition cluster_guard s (id : Z) (c : client) (m : redisCommand) : option Z :=
  if cluster_enabled (cfg s) && negb (has (flags c) CLIENT_MASTER) && negb (lua_master s c) &&
     negb (negb (has_keys m) && negb (runs m EXEC))
  then getNodeByQuery s id else None.

(** After the memory check. *)
Definition finish_command s (id : Z) (m : redisCommand) : option (server K * bool) :=
  c ← clients s !! id;
  match late_guards s c m with
  | Some (flag, e) => reject flag s id e
  | None => execute s id m
  end.

(** The [maxmemory] directive: memory is freed, which may free the client itself. *)
Definition memory_guard s (id : Z) (m : redisCommand) : option (server K * bool) :=
  if maxmemory (cfg s) && negb (lua_timedout (cfg s)) then
    let '(es, out_of_memory) := freeMemoryIfNeeded s in
    s ← do_effects id es s;
    match clients s !! id with
    | None => Some (s, false)
    | Some c =>
        if out_of_memory && (has (cflags m) CMD_DENYOOM || (has (flags c) CLIENT_MULTI && negb (runs m EXEC)))
        then reject true s id oomerr
        else finish_command (if runs m EVAL || runs m EVALSHA then set_lua_oom s out_of_memory else s) id m
    end
  else finish_command s id m.

(** The result is whether the client is still to be served. *)
Definition processCommand s (id : Z) : option (server K * bool) :=
  c ← clients s !! id;
  s ← upd s id (fun c => set_args c (filters s id (argv c)) (cmd c));
  c ← clients s !! id;
  a ← head (argv c);
  if strcaseeq a (cstr "quit") then
    s ← upd s id (fun c => on CLIENT_CLOSE_AFTER_REPLY (addReply ok c));
    Some (s, false)
  else
  s ← upd s id (fun c => set_args c (argv c) (lookupCommand a));
  c ← clients s !! id;
  match lookupCommand a with
  | None => reject true s id unknown_command
  | Some m =>
      match early_guards s c m with
      | Some e => reject true s id e
      | None =>
          match cluster_guard s id c m with
          | Some code =>
              s ← (if runs m EXEC then discardTransaction s id else upd s id flagTransaction);
              s ← upd s id (addReply (err (redirected code)));
              Some (s, true)
          | None => memory_guard s id m
          end
      end
  end.

(** ** The server as a whole *)

Inductive event := Connect (id : Z) (master : bool) | Disconnect (id : Z) | Command (id : Z) (args : list (list Z)) | Background (n : Z).

(** The link to a master is a client too. *)
Definition createClient (master : bool) : client := mkClient (if master then CLIENT_MASTER else 0) 0 [] None false [] 0 [] [].

(** A connection of an unknown client, or of a client that is already there, does nothing. *)
Definition step s (e : event) : option (server K) :=
  match e with
  | Connect id master => Some (match clients s !! id with Some _ => s | None => set_clients s (<[id := createClient master]> (clients s)) end)
  | Disconnect id => match clients s !! id with Some _ => freeClient s id | None => Some s end
  | Command id args =>
      match clients s !! id, args with
      | Some _, _ :: _ => s ← upd s id (fun c => set_args c args (cmd c)); fst <$> processCommand s id
      | _, _ => Some s
      end
  | Background n => do_effects 0 (background n s) s
  end.

Fixpoint steps s (es : list event) : option (server K) :=
  match es with [] => Some s | e :: es => s ← step s e; steps s es end.

End Exec.
End Multi.
