(* ===== verification/Transactions.v ===== *)
(** * Transactions are atomic and WATCH is check-and-set (multi.c, server.c)

    The invariant of the index of watched keys, that no assertion of multi.c
    fails, what EXEC does on each of its branches, and that a transaction is not
    run when a watched key has changed. *)

From Stdlib Require Import String Ascii.
From S2P Require Import Prelude Util Args Networking Multi.

Module Transactions.
Import Util Networking Multi.

(** ** Flags *)

Lemma has_bit f i : 0 <= i -> has f (Z.shiftl 1 i) = Z.testbit f i.
Proof.
  intros Hi. unfold has. rewrite Z.shiftl_1_l.
  destruct (Z.testbit f i) eqn:E.
  - apply negb_true_iff, Z.eqb_neq. intros H0.
    assert (Z.testbit (Z.land f (2 ^ i)) i = true) as Ht by (rewrite Z.land_spec, E, Z.pow2_bits_true by lia; done).
    by rewrite H0, Z.bits_0 in Ht.
  - apply negb_false_iff, Z.eqb_eq. apply Z.bits_inj'. intros n Hn. rewrite Z.land_spec, Z.bits_0.
    destruct (decide (n = i)) as [->|Hne]; [by rewrite E|]. rewrite Z.pow2_bits_false by lia. by rewrite andb_false_r.
Qed.

Lemma has_lor f a b : has f (Z.lor a b) = has f a || has f b.
Proof.
  unfold has. rewrite Z.land_lor_distr_r. destruct (Z.land f a =? 0) eqn:E; zbool.
  - by rewrite E, Z.lor_0_l.
  - cbn [negb orb]. apply negb_true_iff, Z.eqb_neq. intros H0. apply Z.lor_eq_0_iff in H0. lia.
Qed.

(** ** What commands leave alone in the other clients *)

(** The transaction of a client is the same, and it is at least as dirty. *)
Record kept (c c' : client) : Prop := mkKept {
  k_commands : commands c' = commands c;
  k_cmd_flags : cmd_flags c' = cmd_flags c;
  k_watched : watched_keys c' = watched_keys c;
  k_multi : has (flags c') CLIENT_MULTI = has (flags c) CLIENT_MULTI;
  k_exec : has (flags c') CLIENT_DIRTY_EXEC = has (flags c) CLIENT_DIRTY_EXEC;
  k_lua : has (flags c') CLIENT_LUA = has (flags c) CLIENT_LUA;
  k_cas : has (flags c) CLIENT_DIRTY_CAS = true -> has (flags c') CLIENT_DIRTY_CAS = true
}.

Lemma kept_refl c : kept c c.
Proof. by split. Qed.
Lemma kept_trans a b c : kept a b -> kept b c -> kept a c.
Proof. intros [] []. split; try congruence. eauto. Qed.

(** The bits of a set of flags that belong to the transaction. *)
Definition txn_bits : Z := Z.lor CLIENT_MULTI (Z.lor CLIENT_LUA CLIENT_DIRTY_EXEC).

Lemma has_land_lnot f m b : Z.land m b = 0 -> has (Z.land f (Z.lnot m)) b = has f b.
Proof.
  intros Hm. unfold has. do 2 f_equal. apply Z.bits_inj'. intros n Hn. rewrite !Z.land_spec, Z.lnot_spec by lia.
  assert (Z.testbit (Z.land m b) n = false) as Hb by (by rewrite Hm, Z.bits_0). rewrite Z.land_spec in Hb.
  destruct (Z.testbit f n), (Z.testbit m n), (Z.testbit b n); done.
Qed.

Lemma has_set f m b : Z.land m b = 0 -> has (Z.lor f m) b = has f b.
Proof. intros Hm. unfold has. by rewrite Z.land_lor_distr_l, Hm, Z.lor_0_r. Qed.

Lemma has_set_mono f m b : has f b = true -> has (Z.lor f m) b = true.
Proof.
  unfold has. rewrite !negb_true_iff, !Z.eqb_neq, Z.land_lor_distr_l. intros Hf H0. apply Z.lor_eq_0_iff in H0. lia.
Qed.

Lemma has_set_true f m b : m <> 0 -> Z.land m b = m -> has (Z.lor f m) b = true.
Proof.
  unfold has. rewrite !negb_true_iff, !Z.eqb_neq, Z.land_lor_distr_l. intros Hf Hm H0. apply Z.lor_eq_0_iff in H0. lia.
Qed.

Lemma has_cleared f m b : Z.land b m = b -> has (Z.land f (Z.lnot m)) b = false.
Proof.
  intros Hm. unfold has. apply negb_false_iff, Z.eqb_eq. rewrite <- Hm. apply Z.bits_inj'. intros n Hn.
  rewrite Z.bits_0, !Z.land_spec, Z.lnot_spec by lia. destruct (Z.testbit f n), (Z.testbit m n), (Z.testbit b n); done.
Qed.

(** Every mask of the source is a constant, so the conditions of these lemmas compute. *)
Ltac flag_simpl :=
  cbn [on off addReply set_cflags set_replies set_db set_args set_auth set_mstate set_watched flags];
  repeat first [ rewrite has_set by reflexivity | rewrite has_land_lnot by reflexivity | rewrite has_cleared by reflexivity
               | rewrite has_set_true by (done || reflexivity) ].

Lemma kept_on m c : Z.land m txn_bits = 0 -> kept c (on m c).
Proof.
  intros Hm. unfold txn_bits in Hm. rewrite !Z.land_lor_distr_r in Hm. apply Z.lor_eq_0_iff in Hm as [H1 Hm]. apply Z.lor_eq_0_iff in Hm as [H2 H3].
  split; try done; cbn [on set_cflags flags]; [by rewrite has_set..|apply has_set_mono].
Qed.

Lemma kept_off m c : Z.land m txn_bits = 0 -> Z.land m CLIENT_DIRTY_CAS = 0 -> kept c (off m c).
Proof.
  intros Hm H0. unfold txn_bits in Hm. rewrite !Z.land_lor_distr_r in Hm. apply Z.lor_eq_0_iff in Hm as [H1 Hm]. apply Z.lor_eq_0_iff in Hm as [H2 H3].
  split; try done; cbn [off set_cflags flags]; by rewrite has_land_lnot.
Qed.

Lemma kept_force f c : kept c (forceCommandPropagation f c).
Proof.
  unfold forceCommandPropagation. eapply kept_trans; [|destruct (has f PROPAGATE_AOF); [by apply kept_on|apply kept_refl]].
  destruct (has f PROPAGATE_REPL); [by apply kept_on|apply kept_refl].
Qed.

Create HintDb kept.
#[export] Hint Resolve kept_refl kept_force : kept.
#[export] Hint Extern 1 (kept _ (on _ _)) => apply kept_on; reflexivity : kept.
#[export] Hint Extern 1 (kept _ (off _ _)) => apply kept_off; reflexivity : kept.
#[export] Hint Extern 1 (kept _ (addReply _ _)) => by split : kept.
#[export] Hint Extern 1 (kept _ (set_db _ _)) => by split : kept.
#[export] Hint Extern 1 (kept _ (set_args _ _ _)) => by split : kept.
#[export] Hint Extern 1 (kept _ (set_auth _ _)) => by split : kept.

(** ** The index of watched keys *)

Section Server.
Context {K : Type}.
Implicit Types s : server K.

Definition alive (i : Z) s : Prop := is_Some (clients s !! i).

(** A client watches a key exactly when it is in the list of the key. *)
Record index_ok s : Prop := mkIndexOk {
  ix_in : forall i c dk, clients s !! i = Some c -> dk ∈ watched_keys c -> exists l, watchers s !! dk = Some l /\ i ∈ l;
  ix_of : forall dk l i, watchers s !! dk = Some l -> i ∈ l -> exists c, clients s !! i = Some c /\ dk ∈ watched_keys c;
  ix_list : forall dk l, watchers s !! dk = Some l -> NoDup l /\ l <> [];
  ix_keys : forall i c, clients s !! i = Some c -> NoDup (watched_keys c)
}.

(** A step that frees no client and changes no transaction. *)
Record calm s s' : Prop := mkCalm {
  calm_cfg : cfg s' = cfg s;
  calm_watchers : watchers s' = watchers s;
  calm_clients : forall i, option_Forall2 kept (clients s !! i) (clients s' !! i)
}.

Lemma calm_refl s : calm s s.
Proof. split; try done. intros i. destruct (clients s !! i); constructor. apply kept_refl. Qed.

Lemma calm_trans s1 s2 s3 : calm s1 s2 -> calm s2 s3 -> calm s1 s3.
Proof.
  intros [E1 W1 C1] [E2 W2 C2]. split; [congruence..|]. intros i. specialize (C1 i). specialize (C2 i).
  destruct C1; inversion C2; subst; constructor. by eapply kept_trans.
Qed.

Lemma calm_lookup s s' i c' : calm s s' -> clients s' !! i = Some c' -> exists c, clients s !! i = Some c /\ kept c c'.
Proof. intros Hc E. pose proof (calm_clients _ _ Hc i) as F. rewrite E in F. inversion F; subst. eauto. Qed.

Lemma calm_forward s s' i c : calm s s' -> clients s !! i = Some c -> exists c', clients s' !! i = Some c' /\ kept c c'.
Proof. intros Hc E. pose proof (calm_clients _ _ Hc i) as F. rewrite E in F. inversion F; subst. eauto. Qed.

Lemma calm_alive s s' i : calm s s' -> alive i s -> alive i s'.
Proof. intros Hc [c E]. destruct (calm_forward _ _ _ _ Hc E) as (c' & E' & _). by exists c'. Qed.

Lemma calm_index s s' : calm s s' -> index_ok s -> index_ok s'.
Proof.
  intros Hc [I1 I2 I3 I4]. split.
  - intros i c' dk E Hin. destruct (calm_lookup _ _ _ _ Hc E) as (c & Ec & Hk). rewrite (calm_watchers _ _ Hc).
    eapply I1; [exact Ec|]. by rewrite <- (k_watched _ _ Hk).
  - intros dk l i E Hin. rewrite (calm_watchers _ _ Hc) in E. destruct (I2 _ _ _ E Hin) as (c & Ec & Hd).
    destruct (calm_forward _ _ _ _ Hc Ec) as (c' & Ec' & Hk). exists c'. split; [done|]. by rewrite (k_watched _ _ Hk).
  - intros dk l E. rewrite (calm_watchers _ _ Hc) in E. eauto.
  - intros i c' E. destruct (calm_lookup _ _ _ _ Hc E) as (c & Ec & Hk). rewrite (k_watched _ _ Hk). eauto.
Qed.

(** Fields other than the clients and the index do not matter. *)
Lemma calm_frame s s' : cfg s' = cfg s -> watchers s' = watchers s -> clients s' = clients s -> calm s s'.
Proof. intros E1 E2 E3. split; [done..|]. intros i. rewrite E3. destruct (clients s !! i); constructor. apply kept_refl. Qed.

Lemma calm_insert s i c c' : clients s !! i = Some c -> kept c c' -> calm s (set_clients s (<[i := c']> (clients s))).
Proof.
  intros Ec Hk. split; [done..|]. intros j. cbn [clients set_clients]. destruct (decide (i = j)) as [<-|Hne].
  - rewrite lookup_insert_eq, Ec. by constructor.
  - rewrite lookup_insert_ne by done. destruct (clients s !! j); constructor. apply kept_refl.
Qed.

(** The index depends on the watched keys alone. *)
Lemma index_upd s i c c' : index_ok s -> clients s !! i = Some c -> watched_keys c' = watched_keys c -> index_ok (set_clients s (<[i := c']> (clients s))).
Proof.
  intros [I1 I2 I3 I4] Ec Hw. split; cbn [clients set_clients watchers].
  - intros j cj dk E Hin. apply lookup_insert_Some in E as [[<- <-]|[Hne E]]; [rewrite Hw in Hin|]; by eapply I1.
  - intros dk l j E Hin. destruct (I2 _ _ _ E Hin) as (cj & E' & Hk). destruct (decide (i = j)) as [<-|Hne].
    + exists c'. rewrite lookup_insert_eq. split; [done|]. rewrite Hw. naive_solver.
    + exists cj. by rewrite lookup_insert_ne.
  - done.
  - intros j cj E. apply lookup_insert_Some in E as [[<- <-]|[Hne E]]; [rewrite Hw|]; by eapply I4.
Qed.

(** An update in place of a client that is there. *)
Lemma upd_eq s i f c : clients s !! i = Some c -> upd s i f = Some (set_clients s (<[i := f c]> (clients s))).
Proof. intros E. unfold upd. by rewrite E. Qed.

Lemma upd_calm s i f : alive i s -> (forall c, kept c (f c)) -> exists s', upd s i f = Some s' /\ calm s s' /\
  keyspace s' = keyspace s /\ ready_keys s' = ready_keys s.
Proof.
  intros [c E] Hk. rewrite (upd_eq _ _ _ _ E). eexists. split; [done|]. split; [|done]. by eapply calm_insert.
Qed.

(** *** Touching *)

Lemma touch_loop_ok l : forall s, NoDup l -> Forall (fun i => alive i s) l ->
  exists m, touch_loop s l = Some (set_clients s m) /\
    forall i, m !! i = (if bool_decide (i ∈ l) then on CLIENT_DIRTY_CAS else id) <$> clients s !! i.
Proof.
  induction l as [|x l IH]; intros s Hnd Hal.
  - exists (clients s). split; [by destruct s|]. intros i. rewrite bool_decide_eq_false_2 by (intros Hin; inversion Hin). by destruct (clients s !! i).
  - apply NoDup_cons in Hnd as [Hx Hnd]. apply Forall_cons in Hal as [[c Ec] Hal]. cbn [touch_loop]. rewrite (upd_eq _ _ _ _ Ec). mrun.
    destruct (IH (set_clients s (<[x := on CLIENT_DIRTY_CAS c]> (clients s))) Hnd) as (m & Em & Hm).
    { eapply Forall_impl; [exact Hal|]. intros i [ci Ei]. unfold alive. cbn [clients set_clients].
      destruct (decide (x = i)) as [->|Hne]; [rewrite lookup_insert_eq|rewrite lookup_insert_ne by done]; eauto. }
    exists m. split; [exact Em|]. intros i. rewrite Hm. cbn [clients set_clients]. destruct (decide (x = i)) as [->|Hne].
    + rewrite lookup_insert_eq, Ec. rewrite (bool_decide_eq_false_2 (i ∈ l)) by done. by rewrite bool_decide_eq_true_2 by left.
    + rewrite lookup_insert_ne by done. f_equal.
      rewrite (bool_decide_ext (i ∈ l) (i ∈ x :: l)); [done|]. rewrite elem_of_cons. naive_solver.
Qed.

(** Exactly the clients that watch the key are marked. *)
Lemma touchWatchedKey_ok s d k : index_ok s -> exists m, touchWatchedKey s d k = Some (set_clients s m) /\
  forall i, m !! i = (fun c => if bool_decide ((d, k) ∈ watched_keys c) then on CLIENT_DIRTY_CAS c else c) <$> clients s !! i.
Proof.
  intros Hix. unfold touchWatchedKey. destruct (watchers s !! (d, k)) as [l|] eqn:El.
  - destruct (touch_loop_ok l s) as (m & Em & Hm).
    + by apply (ix_list s Hix (d, k)).
    + apply Forall_forall. intros i Hi. destruct (ix_of s Hix _ _ _ El Hi) as (c & Ec & _). by exists c.
    + exists m. split; [done|]. intros i. rewrite Hm. destruct (clients s !! i) as [c|] eqn:Ec; [|done]. cbn [fmap option_fmap option_map]. f_equal.
      destruct (bool_decide (i ∈ l)) eqn:E1; destruct (bool_decide ((d, k) ∈ watched_keys c)) eqn:E2; try done.
      * apply bool_decide_eq_true in E1. apply bool_decide_eq_false in E2. destruct (ix_of s Hix _ _ _ El E1) as (c' & Ec' & Hin). naive_solver.
      * apply bool_decide_eq_false in E1. apply bool_decide_eq_true in E2. destruct (ix_in s Hix _ _ _ Ec E2) as (l' & El' & Hin). naive_solver.
  - exists (clients s). split; [by destruct s|]. intros i. destruct (clients s !! i) as [c|] eqn:Ec; [|done]. cbn [fmap option_fmap option_map]. f_equal.
    rewrite bool_decide_eq_false_2; [done|]. intros Hin. destruct (ix_in s Hix _ _ _ Ec Hin) as (l & El' & _). congruence.
Qed.

(** *** Unwatching *)

(** What is left of the list of a key. *)
Definition without (id : Z) (l : list Z) : option (list Z) :=
  match filter (fun x => x <> id) l with [] => None | l' => Some l' end.

Lemma list_del_ok id l : NoDup l -> id ∈ l -> list_del id l = Some (filter (fun x => x <> id) l).
Proof.
  induction l as [|y l IH]; intros Hnd Hin; [inversion Hin|]. apply NoDup_cons in Hnd as [Hy Hnd]. cbn [list_del].
  destruct (decide (id = y)) as [->|Hne].
  - rewrite Z.eqb_refl, filter_cons_False by (intros H; by apply H). rewrite filter_all; [done|].
    apply Forall_forall. intros x Hx ->. done.
  - rewrite (proj2 (Z.eqb_neq id y)) by done. rewrite elem_of_cons in Hin. rewrite IH by naive_solver. mrun.
    by rewrite filter_cons_True by congruence.
Qed.

Lemma unwatch_loop_ok id ks : forall w, NoDup ks ->
  (forall k, k ∈ ks -> exists l, w !! k = Some l /\ NoDup l /\ id ∈ l) ->
  exists w', unwatch_loop id ks w = Some w' /\
    forall k, w' !! k = if bool_decide (k ∈ ks) then w !! k ≫= without id else w !! k.
Proof.
  induction ks as [|k ks IH]; intros w Hnd Hw.
  - exists w. split; [done|]. intros k. rewrite bool_decide_eq_false_2; [done|]. intros Hin. inversion Hin.
  - apply NoDup_cons in Hnd as [Hk Hnd]. destruct (Hw k) as (l & El & Hl & Hid); [left|]. cbn [unwatch_loop]. rewrite El. mrun.
    rewrite (list_del_ok id l Hl Hid). mrun. set (w1 := match filter (fun x => x <> id) l with [] => delete k w | _ :: _ => _ end).
    assert (H1 : forall k', w1 !! k' = if decide (k' = k) then without id l else w !! k').
    { intros k'. unfold w1, without. destruct (decide (k' = k)) as [->|Hne].
      - destruct (filter _ l); [apply lookup_delete_eq|apply lookup_insert_eq].
      - destruct (filter _ l); [by apply lookup_delete_ne|by apply lookup_insert_ne]. }
    destruct (IH w1 Hnd) as (w' & Ew & Hw').
    { intros k' Hk'. rewrite H1. destruct (decide (k' = k)) as [->|]; [done|]. apply Hw. by right. }
    exists w'. split; [exact Ew|]. intros k'. rewrite Hw', H1. destruct (decide (k' = k)) as [->|Hne].
    + rewrite bool_decide_eq_false_2 by done. rewrite bool_decide_eq_true_2 by left. by rewrite El.
    + rewrite (bool_decide_ext (k' ∈ ks) (k' ∈ k :: ks)); [done|]. rewrite elem_of_cons. naive_solver.
Qed.

Lemma without_elem id l i : i ∈ default [] (without id l) <-> i ∈ l /\ i <> id.
Proof.
  unfold without. destruct (filter (fun x => x <> id) l) as [|a r] eqn:E; cbn.
  - split; [intros Hin; inversion Hin|]. intros [H1 H2]. exfalso.
    assert (i ∈ filter (fun x => x <> id) l) as Hin by (by apply list_elem_of_filter). rewrite E in Hin. inversion Hin.
  - rewrite <- E, list_elem_of_filter. tauto.
Qed.

(** The lists of keys that a client is in, once it is removed from them all. *)
Lemma unwatched_index s s' id : index_ok s -> alive id s ->
  (forall i, i <> id -> clients s' !! i = clients s !! i) ->
  (forall c, clients s' !! id = Some c -> watched_keys c = []) ->
  (forall k c, clients s !! id = Some c -> watchers s' !! k = if bool_decide (k ∈ watched_keys c) then watchers s !! k ≫= without id else watchers s !! k) ->
  index_ok s'.
Proof.
  intros [I1 I2 I3 I4] [c0 E0] Hcl Hid Hw. specialize (fun k => Hw k c0 E0).
  assert (Hlist : forall k l, watchers s' !! k = Some l -> exists l0, watchers s !! k = Some l0 /\ (forall i, i ∈ l <-> i ∈ l0 /\ i <> id) /\ NoDup l /\ l <> []).
  { intros k l El. rewrite Hw in El. destruct (bool_decide (k ∈ watched_keys c0)) eqn:Eb.
    - destruct (watchers s !! k) as [l0|] eqn:El0; [|done]. cbn in El. exists l0. split; [done|].
      pose proof (without_elem id l0) as We. rewrite El in We. cbn in We. split; [done|].
      unfold without in El. destruct (filter _ l0) as [|a r] eqn:Ef; [done|]. injection El as <-. split; [|done].
      rewrite <- Ef. apply NoDup_filter. by apply (I3 k).
    - apply bool_decide_eq_false in Eb. exists l. split; [done|]. split; [|by apply (I3 k)]. intros i. split; [|tauto]. intros Hi. split; [done|].
      intros ->. destruct (I2 _ _ _ El Hi) as (c & Ec & Hin). naive_solver. }
  split.
  - intros i c dk Ec Hin. destruct (decide (i = id)) as [->|Hne]; [rewrite (Hid _ Ec) in Hin; inversion Hin|].
    rewrite Hcl in Ec by done. destruct (I1 _ _ _ Ec Hin) as (l & El & Hi). rewrite Hw, El.
    destruct (bool_decide (dk ∈ watched_keys c0)); [|by exists l]. cbn. pose proof (proj2 (without_elem id l i) (conj Hi Hne)) as Hwi.
    destruct (without id l) as [l'|]; [by exists l'|inversion Hwi].
  - intros dk l i El Hin. destruct (Hlist _ _ El) as (l0 & El0 & Heq & _). destruct (proj1 (Heq i) Hin) as [Hin0 Hne].
    rewrite Hcl by done. by eapply I2.
  - intros dk l El. destruct (Hlist _ _ El) as (l0 & _ & _ & H). exact H.
  - intros i c Ec. destruct (decide (i = id)) as [->|Hne]; [rewrite (Hid _ Ec); constructor|]. rewrite Hcl in Ec by done. eauto.
Qed.

Lemma unwatchAllKeys_ok s id c : index_ok s -> clients s !! id = Some c -> exists w,
  unwatchAllKeys s id = Some (set_clients (set_watchers s w) (<[id := set_watched c []]> (clients s))) /\
  (forall k, w !! k = if bool_decide (k ∈ watched_keys c) then watchers s !! k ≫= without id else watchers s !! k) /\
  index_ok (set_clients (set_watchers s w) (<[id := set_watched c []]> (clients s))).
Proof.
  intros Hix Ec. unfold unwatchAllKeys. rewrite Ec. mrun.
  destruct (unwatch_loop_ok id (watched_keys c) (watchers s)) as (w & Ew & Hw).
  { by apply (ix_keys s Hix id). }
  { intros k Hk. destruct (ix_in s Hix _ _ _ Ec Hk) as (l & El & Hi). exists l. split; [done|]. split; [|done]. by apply (ix_list s Hix k). }
  rewrite Ew. mrun. exists w. rewrite (upd_eq _ _ _ c) by done. split; [done|]. split; [done|].
  apply (unwatched_index s _ id Hix); cbn [clients set_clients watchers set_watchers].
  - by exists c.
  - intros i Hne. by rewrite lookup_insert_ne.
  - intros c'. rewrite lookup_insert_eq. intros [= <-]. done.
  - intros k c' Ec'. rewrite Ec in Ec'. injection Ec' as <-. apply Hw.
Qed.

Lemma freeClient_ok s id : index_ok s -> alive id s -> exists s', freeClient s id = Some s' /\ index_ok s' /\
  clients s' = delete id (clients s) /\ cfg s' = cfg s /\ keyspace s' = keyspace s /\ ready_keys s' = ready_keys s.
Proof.
  intros Hix [c Ec]. destruct (unwatchAllKeys_ok s id c Hix Ec) as (w & Eu & Hw & _). unfold freeClient. rewrite Eu. mrun.
  eexists. split; [done|]. cbn [clients set_clients watchers set_watchers cfg keyspace ready_keys]. rewrite delete_insert_eq.
  split; [|done]. apply (unwatched_index s _ id Hix); cbn [clients set_clients watchers set_watchers].
  - by exists c.
  - intros i Hne. by rewrite lookup_delete_ne.
  - intros c'. by rewrite lookup_delete_eq.
  - intros k c' Ec'. rewrite Ec in Ec'. injection Ec' as <-. apply Hw.
Qed.

End Server.

(** ** What a list of effects amounts to *)

Section Effects.
Context {K : Type} `{Commands K}.
Implicit Types s : server K.

Definition ks_after (e : effect K) (k : K) : K := match e with EKeyspace k' => k' | _ => k end.
Definition db_after (e : effect K) (d : Z) : Z := match e with ESelect d' => d' | _ => d end.
Definition ready_by (e : effect K) : list dbkey := match e with ESignalKeyAsReady d k => [(d, k)] | _ => [] end.
Definition replies_by (id : Z) (e : effect K) : list reply :=
  match e with EReply i bytes => if i =? id then [bulk bytes] else [] | _ => [] end.

(** The effect tells the watchers of a key. *)
Definition signals (k : K) (e : effect K) (dk : dbkey) : bool :=
  match e with
  | ESignalModifiedKey d x => bool_decide ((d, x) = dk)
  | ESignalFlushedDb dbid => ((dbid =? -1) || (dk.1 =? dbid)) && bool_decide (is_Some (lookup k dk))
  | _ => false
  end.

Definition final_ks (es : list (effect K)) (k : K) : K := foldl (fun k e => ks_after e k) k es.
Definition final_db (es : list (effect K)) (d : Z) : Z := foldl (fun d e => db_after e d) d es.
Definition readied (es : list (effect K)) : list dbkey := es ≫= ready_by.
Definition replied (id : Z) (es : list (effect K)) : list reply := es ≫= replies_by id.

Fixpoint touched (k : K) (es : list (effect K)) (dk : dbkey) : bool :=
  match es with [] => false | e :: es => signals k e dk || touched (ks_after e k) es dk end.

(** Effects that do not concern the client that runs the command. *)
Definition passive (e : effect K) : Prop :=
  match e with
  | ESelect _ | ERewrite _ _ | EAuth _ | EForce _ | EPrevent | EPreventAOF | EPreventReplication | ECloseAfterReply | EPubsub _ => False
  | _ => True
  end.

(** The effect does not lower the count of changes. *)
Definition counting (e : effect K) : Prop := match e with EDirty n => 0 <= n | ESaved => False | _ => True end.

Record ran (id : Z) (es : list (effect K)) s s' : Prop := mkRan {
  r_index : index_ok s';
  r_cfg : cfg s' = cfg s;
  r_keyspace : keyspace s' = final_ks es (keyspace s);
  r_ready : ready_keys s' = ready_keys s ++ readied es;
  r_backlog : repl_backlog s' = repl_backlog s;
  r_log : repl_log s `prefix_of` repl_log s';
  r_master : EReplicaOf true ∉ es -> masterhost s = false -> masterhost s' = false;
  r_dirty : Forall counting es -> dirty s <= dirty s';
  r_clients : forall i c', clients s' !! i = Some c' -> exists c, clients s !! i = Some c /\ kept c c' /\
    forall dk, touched (keyspace s) es dk = true -> dk ∈ watched_keys c -> has (flags c') CLIENT_DIRTY_CAS = true;
  r_own : forall c c', clients s !! id = Some c -> clients s' !! id = Some c' ->
    db c' = final_db es (db c) /\ replies c' = replies c ++ replied id es /\ (is_Some (cmd c) -> is_Some (cmd c'));
  r_alive : forall i, alive i s -> EFreeClient i ∉ es -> alive i s'
}.

Lemma ran_nil id s : index_ok s -> ran id [] s s.
Proof.
  intros Hix. split; try done.
  - by rewrite app_nil_r.
  - intros i c' E. exists c'. split; [done|]. split; [apply kept_refl|]. intros dk Ht. discriminate Ht.
  - intros c c' E E'. rewrite E in E'. injection E' as <-. by rewrite app_nil_r.
Qed.

Lemma touched_app es1 : forall k es2 dk, touched k (es1 ++ es2) dk = touched k es1 dk || touched (final_ks es1 k) es2 dk.
Proof. induction es1 as [|e es1 IH]; intros k es2 dk; cbn [touched app]; [done|]. by rewrite IH, orb_assoc. Qed.

Lemma final_ks_app es1 es2 k : final_ks (es1 ++ es2) k = final_ks es2 (final_ks es1 k).
Proof. apply foldl_app. Qed.

Lemma ran_app id es1 es2 s1 s2 s3 : ran id es1 s1 s2 -> ran id es2 s2 s3 -> ran id (es1 ++ es2) s1 s3.
Proof.
  intros [I1 C1 K1 R1 B1 L1 M1 Y1 Cl1 O1 A1] [I2 C2 K2 R2 B2 L2 M2 Y2 Cl2 O2 A2]. split; try congruence.
  - by rewrite final_ks_app, K2, K1.
  - rewrite R2, R1, <- app_assoc. unfold readied. by rewrite bind_app.
  - by transitivity (repl_log s2).
  - rewrite elem_of_app. intros Hn Hm. apply M2, M1; tauto.
  - rewrite Forall_app. intros [Hy1 Hy2]. specialize (Y1 Hy1). specialize (Y2 Hy2). lia.
  - intros i c3 E3. destruct (Cl2 _ _ E3) as (c2 & E2 & Hk2 & Ht2). destruct (Cl1 _ _ E2) as (c1 & E1 & Hk1 & Ht1).
    exists c1. split; [done|]. split; [by eapply kept_trans|]. intros dk Ht Hin. rewrite touched_app in Ht. apply orb_true_iff in Ht as [Ht|Ht].
    + apply (k_cas _ _ Hk2). by apply (Ht1 dk).
    + rewrite <- K1 in Ht. apply (Ht2 dk Ht). by rewrite (k_watched _ _ Hk1).
  - intros c1 c3 E1 E3. destruct (Cl2 _ _ E3) as (c2 & E2 & _). destruct (O1 _ _ E1 E2) as (D1 & P1 & ?). destruct (O2 _ _ E2 E3) as (D2 & P2 & ?).
    split; [|split; [|tauto]].
    + unfold final_db in *. by rewrite foldl_app, D2, D1.
    + rewrite P2, P1, <- app_assoc. unfold replied. by rewrite bind_app.
  - intros i Hi Hn. rewrite elem_of_app in Hn. apply A2; [|tauto]. apply A1; tauto.
Qed.

(** An effect that marks nobody, frees nobody, and leaves the client its place. *)
Lemma ran_calm id e s s' : index_ok s -> calm s s' -> (forall dk, signals (keyspace s) e dk = false) ->
  keyspace s' = ks_after e (keyspace s) -> ready_keys s' = ready_keys s ++ ready_by e -> repl_backlog s' = repl_backlog s ->
  repl_log s `prefix_of` repl_log s' -> (e <> EReplicaOf true -> masterhost s = false -> masterhost s' = false) -> (counting e -> dirty s <= dirty s') ->
  (forall c c', clients s !! id = Some c -> clients s' !! id = Some c' -> db c' = db_after e (db c) /\ replies c' = replies c ++ replies_by id e /\
    (is_Some (cmd c) -> is_Some (cmd c'))) ->
  ran id [e] s s'.
Proof.
  intros Hix Hc Hs Hk Hr Hb Hl Hm Hy Ho. split; try done.
  - by eapply calm_index.
  - apply (calm_cfg _ _ Hc).
  - rewrite Hr. unfold readied. cbn. by rewrite app_nil_r.
  - intros Hn. apply Hm. intros ->. apply Hn. left.
  - intros Hy'. apply Hy. by inversion Hy'.
  - intros i c' E. destruct (calm_lookup _ _ _ _ Hc E) as (c & Ec & Hkc). exists c. split; [done|]. split; [done|].
    intros dk Ht. cbn [touched] in Ht. rewrite Hs in Ht. discriminate Ht.
  - intros c c' E E'. unfold replied. cbn. rewrite app_nil_r. by apply Ho.
  - intros i Hi _. by eapply calm_alive.
Qed.

(** An update of the client that runs the command. *)
Lemma ran_upd id e s f : index_ok s -> alive id s -> (forall c, kept c (f c)) -> (forall c, db (f c) = db_after e (db c)) ->
  (forall c, replies (f c) = replies c) -> (forall c, is_Some (cmd c) -> is_Some (cmd (f c))) -> (forall dk, signals (keyspace s) e dk = false) -> ready_by e = [] -> ks_after e (keyspace s) = keyspace s ->
  replies_by id e = [] -> exists s', upd s id f = Some s' /\ ran id [e] s s'.
Proof.
  intros Hix [c Ec] Hf Hd Hr Hm Hs He Hk Hrb. rewrite (upd_eq _ _ _ _ Ec). eexists. split; [done|].
  apply ran_calm; try done; cbn [keyspace ready_keys set_clients clients].
  - by eapply calm_insert.
  - by rewrite He, app_nil_r.
  - intros c1 c1' E. rewrite lookup_insert_eq. intros [= <-]. rewrite Ec in E. injection E as <-. rewrite Hd, Hr, Hrb, app_nil_r. auto.
Qed.

(** Pure bookkeeping on the server. *)
Lemma ran_frame id e s s' : index_ok s -> clients s' = clients s -> watchers s' = watchers s -> cfg s' = cfg s ->
  (forall dk, signals (keyspace s) e dk = false) -> keyspace s' = ks_after e (keyspace s) -> ready_keys s' = ready_keys s ++ ready_by e ->
  repl_backlog s' = repl_backlog s -> repl_log s `prefix_of` repl_log s' -> (e <> EReplicaOf true -> masterhost s = false -> masterhost s' = false) -> (counting e -> dirty s <= dirty s') ->
  (forall d, db_after e d = d) -> replies_by id e = [] -> ran id [e] s s'.
Proof.
  intros Hix Hcl Hw Hcf Hs Hk Hr Hb Hl Hm Hy Hd Hrb. apply ran_calm; try done; [by apply calm_frame|].
  intros c c' E E'. rewrite Hcl in E'. rewrite E in E'. injection E' as <-. by rewrite Hd, Hrb, app_nil_r.
Qed.

(** A signal marks the clients it concerns. *)
Lemma ran_signal id e s (f : client -> client) m : index_ok s -> (forall i, m !! i = f <$> clients s !! i) ->
  (forall c, kept c (f c) /\ db (f c) = db c /\ replies (f c) = replies c /\ cmd (f c) = cmd c) ->
  (forall c dk, signals (keyspace s) e dk = true -> dk ∈ watched_keys c -> has (flags (f c)) CLIENT_DIRTY_CAS = true) ->
  ks_after e (keyspace s) = keyspace s -> ready_by e = [] -> (forall d, db_after e d = d) -> replies_by id e = [] ->
  ran id [e] s (set_clients s m).
Proof.
  intros Hix Hm Hf Hs Hk Hr Hd Hrb.
  assert (Hc : calm s (set_clients s m)).
  { split; [done..|]. intros i. cbn [clients set_clients]. rewrite Hm. destruct (clients s !! i); constructor. apply Hf. }
  split; try done.
  - by eapply calm_index.
  - unfold readied. cbn. by rewrite Hr, app_nil_r.
  - intros i c' E. cbn [clients set_clients] in E. rewrite Hm in E. destruct (clients s !! i) as [c|] eqn:Ec; [|done]. injection E as <-.
    exists c. split; [done|]. split; [apply Hf|]. intros dk Ht. cbn [touched] in Ht. rewrite orb_false_r in Ht. by apply Hs.
  - intros c c' E E'. cbn [clients set_clients] in E'. rewrite Hm, E in E'. injection E' as <-. destruct (Hf c) as (_ & -> & -> & ->).
    unfold replied. cbn. by rewrite Hd, Hrb, !app_nil_r.
  - intros i Hi _. by eapply calm_alive.
Qed.

Lemma flush_marks k dbid l : forall c, kept c (flush_loop k dbid l c) /\ db (flush_loop k dbid l c) = db c /\ replies (flush_loop k dbid l c) = replies c /\ cmd (flush_loop k dbid l c) = cmd c /\
  forall wk, wk ∈ l -> ((dbid =? -1) || (wk.1 =? dbid)) && bool_decide (is_Some (lookup k wk)) = true -> has (flags (flush_loop k dbid l c)) CLIENT_DIRTY_CAS = true.
Proof.
  induction l as [|x l IH]; intros c; cbn [flush_loop].
  - split; [apply kept_refl|]. split; [done|]. split; [done|]. split; [done|]. intros wk Hin. inversion Hin.
  - set (c1 := if _ && _ then _ else _). destruct (IH c1) as (K1 & D1 & R1 & M1 & S1).
    assert (K0 : kept c c1 /\ db c1 = db c /\ replies c1 = replies c /\ cmd c1 = cmd c).
    { unfold c1. destruct (_ && _); (split; [auto with kept|done]). }
    destruct K0 as (K0 & D0 & R0 & M0). split; [by eapply kept_trans|]. split; [congruence|]. split; [congruence|]. split; [congruence|].
    intros wk Hin Hb. apply elem_of_cons in Hin as [->|Hin]; [|by apply (S1 wk)]. apply (k_cas _ _ K1). unfold c1. rewrite Hb.
    cbn [on set_cflags flags]. by apply has_set_true.
Qed.

Lemma propagate_frame s d a t : clients (propagate s d a t) = clients s /\ watchers (propagate s d a t) = watchers s /\ cfg (propagate s d a t) = cfg s /\
  keyspace (propagate s d a t) = keyspace s /\ ready_keys (propagate s d a t) = ready_keys s /\ repl_backlog (propagate s d a t) = repl_backlog s /\
  masterhost (propagate s d a t) = masterhost s /\ dirty (propagate s d a t) = dirty s /\ also_propagate (propagate s d a t) = also_propagate s /\
  repl_log (propagate s d a t) = repl_log s ++ (if has t PROPAGATE_REPL && negb (masterhost s) then [Fed d a] else []).
Proof.
  unfold propagate. destruct (aof_enabled (cfg s) && has t PROPAGATE_AOF), (has t PROPAGATE_REPL); cbn -[masterhost];
    change (masterhost (set_logs s _ _ _)) with (masterhost s); destruct (masterhost s) eqn:E; cbn; rewrite ?app_nil_r; done.
Qed.

Lemma ran_reply id s i bytes : index_ok s -> exists s', do_effect id (EReply i bytes) s = Some s' /\ ran id [EReply i bytes] s s'.
Proof.
  intros Hix. cbn [do_effect]. destruct (clients s !! i) as [c|] eqn:Ec.
  - rewrite (upd_eq _ _ _ _ Ec). eexists. split; [done|]. apply ran_calm; try done; cbn [keyspace ready_keys set_clients clients].
    + eapply calm_insert; [exact Ec|]. auto with kept.
    + by rewrite app_nil_r.
    + intros c1 c1' E E'. cbn [replies_by]. destruct (decide (i = id)) as [->|Hne].
      * rewrite lookup_insert_eq in E'. injection E' as <-. rewrite Ec in E. injection E as <-. by rewrite Z.eqb_refl.
      * rewrite lookup_insert_ne in E' by done. rewrite E in E'. injection E' as <-. rewrite (proj2 (Z.eqb_neq i id)) by done. by rewrite app_nil_r.
  - exists s. split; [done|]. apply ran_calm; try done; [apply calm_refl|by rewrite app_nil_r|].
    intros c1 c1' E E'. rewrite E in E'. injection E' as <-. cbn [replies_by]. rewrite (proj2 (Z.eqb_neq i id)) by congruence. by rewrite app_nil_r.
Qed.

Lemma ran_free id s i : index_ok s -> exists s', do_effect id (EFreeClient i) s = Some s' /\ ran id [EFreeClient i] s s'.
Proof.
  intros Hix. cbn [do_effect]. destruct (clients s !! i) as [c|] eqn:Ec.
  - destruct (unwatchAllKeys_ok s i c Hix Ec) as (w & Eu & _).
    destruct (freeClient_ok s i Hix) as (s' & Ef & Hix' & Hcl & Hcf & Hk & Hr); [by exists c|]. rewrite Ef. exists s'. split; [done|].
    unfold freeClient in Ef. rewrite Eu in Ef. injection Ef as <-. split; try done.
    + unfold readied. cbn. by rewrite app_nil_r.
    + intros j c' E. rewrite Hcl in E. apply lookup_delete_Some in E as [Hne E]. exists c'. split; [done|]. split; [apply kept_refl|].
      intros dk Ht. discriminate Ht.
    + intros c1 c1' E E'. rewrite Hcl in E'. apply lookup_delete_Some in E' as [Hne E']. rewrite E in E'. injection E' as <-.
      unfold replied. cbn. by rewrite app_nil_r.
    + intros j [cj Ej] Hn. unfold alive. rewrite Hcl. rewrite lookup_delete_ne; [by exists cj|]. intros ->. apply Hn. left.
  - exists s. split; [done|]. apply ran_frame; try done. by rewrite app_nil_r.
Qed.

Lemma ran_modified id s d k : index_ok s -> exists s', do_effect id (ESignalModifiedKey d k) s = Some s' /\ ran id [ESignalModifiedKey d k] s s'.
Proof.
  intros Hix. cbn [do_effect]. destruct (touchWatchedKey_ok s d k Hix) as (m & Et & Hm). rewrite Et. eexists. split; [done|].
  eapply ran_signal; [done|exact Hm|..|done|done|done|done].
  - intros c. cbv beta. destruct (bool_decide ((d, k) ∈ watched_keys c)); (split; [auto with kept|done]).
  - intros c dk Hs Hin. cbn [signals] in Hs. apply bool_decide_eq_true in Hs. rewrite Hs, bool_decide_eq_true_2 by done.
    cbn [on set_cflags flags]. by apply has_set_true.
Qed.

Lemma ran_flushed id s n : index_ok s -> ran id [ESignalFlushedDb n] s (touchWatchedKeysOnFlush s n).
Proof.
  intros Hix. eapply (ran_signal id _ s (fun c => flush_loop (keyspace s) n (watched_keys c) c)); try done.
  - intros i. apply lookup_fmap.
  - intros c. destruct (flush_marks (keyspace s) n (watched_keys c) c) as (K1 & D1 & R1 & M1 & _). done.
  - intros c dk Hs Hin. destruct (flush_marks (keyspace s) n (watched_keys c) c) as (_ & _ & _ & _ & S1). by apply (S1 dk).
Qed.

Lemma do_effect_ran id e s : index_ok s -> passive e \/ alive id s -> exists s', do_effect id e s = Some s' /\ ran id [e] s s'.
Proof.
  intros Hix Hp. destruct e; try (destruct Hp as [[]|Ha]); try (by apply ran_reply); try (by apply ran_free); try (by apply ran_modified);
    try (eexists; split; [reflexivity|]); try (by apply ran_flushed); try (cbn [do_effect]; apply ran_upd; try done; intros; auto with kept).
  all: try (apply ran_frame; try done; cbn; rewrite ?app_nil_r; done).
  all: try (apply ran_frame; try done; cbn; rewrite ?app_nil_r; try done; intros; lia).
  all: try (unfold forceCommandPropagation; by destruct (has f PROPAGATE_REPL), (has f PROPAGATE_AOF)).
  all: try (by apply kept_on); try (destruct b; auto with kept).
  all: try (unfold alsoPropagate; apply ran_frame; destruct (loading (cfg s)); try done; cbn; rewrite ?app_nil_r; done).
  all: try (apply ran_frame; try done; cbn; rewrite ?app_nil_r; done).
  all: destruct (propagate_frame s dbid args target) as (P1 & P2 & P3 & P4 & P5 & P6 & P7 & PD & _ & P8).
  all: apply ran_frame; try done; try congruence; [by rewrite P5, app_nil_r|rewrite P8; by apply prefix_app_r|by rewrite PD].
Qed.

Lemma do_effects_ran id es : forall s, index_ok s -> EFreeClient id ∉ es -> alive id s ->
  exists s', do_effects id es s = Some s' /\ ran id es s s'.
Proof.
  induction es as [|e es IH]; intros s Hix Hn Ha; cbn [do_effects]; [exists s; split; [done|by apply ran_nil]|].
  apply not_elem_of_cons in Hn as [Hn1 Hn2]. destruct (do_effect_ran id e s Hix (or_intror Ha)) as (s1 & E1 & R1).
  rewrite E1. mrun. destruct (IH s1) as (s2 & E2 & R2); [apply (r_index _ _ _ _ R1)|done|apply (r_alive _ _ _ _ R1 _ Ha)|].
  - rewrite elem_of_cons. intros [?|Hx]; [congruence|inversion Hx].
  - exists s2. split; [done|]. change (e :: es) with ([e] ++ es). by eapply ran_app.
Qed.

(** A passive effect does not replace the command of a client. *)
Definition same_cmds s s' : Prop := forall i c', clients s' !! i = Some c' -> exists c, clients s !! i = Some c /\ cmd c' = cmd c.

Lemma same_cmds_refl s s' : clients s' = clients s -> same_cmds s s'.
Proof. intros E i c' Ec. rewrite E in Ec. eauto. Qed.

Lemma upd_cmds s i f s' : (forall c, cmd (f c) = cmd c) -> upd s i f = Some s' -> same_cmds s s'.
Proof.
  intros Hf. unfold upd. destruct (clients s !! i) as [c|] eqn:Ec; [|done]. intros [= <-] j cj E. cbn [clients set_clients] in E.
  apply lookup_insert_Some in E as [[<- <-]|[Hne E]]; eauto.
Qed.

Lemma do_effect_cmds id e s s' : index_ok s -> passive e -> do_effect id e s = Some s' -> same_cmds s s'.
Proof.
  intros Hix Hp E. destruct e; try destruct Hp; cbn [do_effect] in E; try (injection E as <-; by apply same_cmds_refl).
  - destruct (touchWatchedKey_ok s d k Hix) as (m & Et & Hm). rewrite Et in E. injection E as <-. intros i c' Ec. cbn [clients set_clients] in Ec.
    rewrite Hm in Ec. destruct (clients s !! i) as [c|]; [|done]. injection Ec as <-. exists c. split; [done|]. by destruct (bool_decide ((d, k) ∈ watched_keys c)).
  - injection E as <-. intros i c' Ec. cbn [touchWatchedKeysOnFlush clients set_clients] in Ec. rewrite lookup_fmap in Ec.
    destruct (clients s !! i) as [c|]; [|done]. injection Ec as <-. exists c. split; [done|]. apply flush_marks.
  - destruct (clients s !! id0) as [c|]; [|injection E as <-; by apply same_cmds_refl]. by eapply upd_cmds; [|exact E].
  - injection E as <-. apply same_cmds_refl. unfold alsoPropagate. by destruct (loading (cfg s)).
  - injection E as <-. apply same_cmds_refl, propagate_frame.
  - destruct (clients s !! id0) as [c|] eqn:Ec; [|injection E as <-; by apply same_cmds_refl].
    destruct (freeClient_ok s id0 Hix) as (s2 & Ef & _ & Hcl & _); [by exists c|]. rewrite Ef in E. injection E as <-. intros i c' Ei.
    rewrite Hcl in Ei. apply lookup_delete_Some in Ei as [_ Ei]. eauto.
Qed.

Lemma do_effects_cmds id es : forall s s', index_ok s -> Forall passive es -> do_effects id es s = Some s' -> same_cmds s s'.
Proof.
  induction es as [|e es IH]; intros s s' Hix Hp E; cbn [do_effects] in E; [injection E as <-; by apply same_cmds_refl|].
  apply Forall_cons in Hp as [Hp1 Hp2]. destruct (do_effect_ran id e s Hix (or_introl Hp1)) as (s1 & E1 & R1). rewrite E1 in E. cbn in E.
  intros i c' Ec'. destruct (IH s1 s' (r_index _ _ _ _ R1) Hp2 E i c' Ec') as (c1 & Ec1 & M1).
  destruct (do_effect_cmds id e s s1 Hix Hp1 E1 i c1 Ec1) as (c & Ec & M). exists c. split; [done|congruence].
Qed.

Lemma do_effects_passive id es : forall s, index_ok s -> Forall passive es -> exists s', do_effects id es s = Some s' /\ ran id es s s'.
Proof.
  induction es as [|e es IH]; intros s Hix Hp; cbn [do_effects]; [exists s; split; [done|by apply ran_nil]|].
  apply Forall_cons in Hp as [Hp1 Hp2]. destruct (do_effect_ran id e s Hix (or_introl Hp1)) as (s1 & E1 & R1). rewrite E1. mrun.
  destruct (IH s1 (r_index _ _ _ _ R1) Hp2) as (s2 & E2 & R2). exists s2. split; [done|]. change (e :: es) with ([e] ++ es). by eapply ran_app.
Qed.

(** ** What a command propagates to the replicas *)

Definition direct (e : effect K) : list fed :=
  match e with EPropagate d a t => if has t PROPAGATE_REPL then [Fed d a] else [] | _ => [] end.
Definition deferred (e : effect K) : list redisOp :=
  match e with EAlsoPropagate d a t => [mkOp d a t] | _ => [] end.
Definition op_fed (o : redisOp) : list fed := if has (op_target o) PROPAGATE_REPL then [Fed (op_db o) (op_argv o)] else [].
Definition args_after (e : effect K) (a : list (list Z) * redisCommand) : list (list Z) * redisCommand :=
  match e with ERewrite args m => (args, m) | _ => a end.
Definition changes_by (e : effect K) : Z := match e with EDirty n => n | _ => 0 end.
Definition forces (e : effect K) : bool := match e with EForce f => has f PROPAGATE_REPL | _ => false end.
Definition prevents (e : effect K) : bool := match e with EPrevent | EPreventReplication => true | _ => false end.
Definition changes (es : list (effect K)) : Z := foldr (fun e n => changes_by e + n) 0 es.

(** The stream of one command of a master, from its effects: what the handler
    propagated itself, then the command with its final arguments, if it changed
    the dataset or was forced, and was not prevented, then what the handler asked
    to propagate after it. *)
Definition propagated_by (m : redisCommand) (es : list (effect K)) (d : Z) (args : list (list Z)) : list fed :=
  let '(args', m') := foldl (fun a e => args_after e a) (args, m) es in
  (es ≫= direct) ++
  (if ((changes es >? 0) || existsb forces es) && negb (existsb prevents es) && negb (has (cflags m') CMD_MODULE) then [Fed (final_db es d) args'] else []) ++
  ((es ≫= deferred) ≫= op_fed).

(** What the effects leave in the server and in the client that runs them. *)
Record accounted (id : Z) (es : list (effect K)) s s' (c c' : client) : Prop := mkAccounted {
  ac_client : clients s' !! id = Some c';
  ac_log : repl_log s' = repl_log s ++ (es ≫= direct);
  ac_also : also_propagate s' = also_propagate s ++ (es ≫= deferred);
  ac_dirty : dirty s' = dirty s + changes es;
  ac_master : masterhost s' = false;
  ac_cfg : cfg s' = cfg s;
  ac_args : forall m, cmd c = Some m -> exists m', cmd c' = Some m' /\ foldl (fun a e => args_after e a) (argv c, m) es = (argv c', m');
  ac_db : db c' = final_db es (db c);
  ac_forced : has (flags c') CLIENT_FORCE_REPL = has (flags c) CLIENT_FORCE_REPL || existsb forces es;
  ac_prevented : has (flags c') CLIENT_PREVENT_REPL_PROP = has (flags c) CLIENT_PREVENT_REPL_PROP || existsb prevents es
}.

(** A change of the running client that is not its command. *)
Lemma accounted_client id e s s' c c' : clients s' !! id = Some c' -> repl_log s' = repl_log s -> also_propagate s' = also_propagate s ->
  dirty s' = dirty s -> masterhost s' = false -> cfg s' = cfg s -> argv c' = argv c -> cmd c' = cmd c -> db c' = db_after e (db c) ->
  has (flags c') CLIENT_FORCE_REPL = has (flags c) CLIENT_FORCE_REPL || forces e ->
  has (flags c') CLIENT_PREVENT_REPL_PROP = has (flags c) CLIENT_PREVENT_REPL_PROP || prevents e ->
  direct e = [] -> deferred e = [] -> changes_by e = 0 -> (forall a, args_after e a = a) -> accounted id [e] s s' c c'.
Proof.
  intros H1 H2 H3 H4 H5 H6 H7 H8 H9 H10 H11 H12 H13 H14 H15. split; cbn [mbind list_bind foldr existsb changes foldl final_db]; rewrite ?H12, ?H13, ?H14, ?app_nil_r, ?orb_false_r, ?H15; try done; try lia.
  intros m Hm. exists m. rewrite H15, H8, H7. done.
Qed.

Lemma on_bits m c b : has (flags (on m c)) b = has (flags c) b || has m b.
Proof. cbn [on set_cflags flags]. unfold has. rewrite Z.land_lor_distr_l, <- negb_andb. f_equal. apply eq_true_iff_eq. rewrite andb_true_iff, !Z.eqb_eq. apply Z.lor_eq_0_iff. Qed.

Lemma force_bits f c b : has (flags (forceCommandPropagation f c)) b =
  has (flags c) b || (has f PROPAGATE_REPL && has CLIENT_FORCE_REPL b) || (has f PROPAGATE_AOF && has CLIENT_FORCE_AOF b).
Proof.
  unfold forceCommandPropagation. destruct (has f PROPAGATE_REPL), (has f PROPAGATE_AOF); rewrite ?on_bits, ?orb_false_r; done.
Qed.

(** The marks of touched keys are other flags. *)
Lemma flush_fields k dbid l : forall c, argv (flush_loop k dbid l c) = argv c /\
  has (flags (flush_loop k dbid l c)) CLIENT_FORCE_REPL = has (flags c) CLIENT_FORCE_REPL /\
  has (flags (flush_loop k dbid l c)) CLIENT_PREVENT_REPL_PROP = has (flags c) CLIENT_PREVENT_REPL_PROP.
Proof.
  induction l as [|x l IH]; intros c; cbn [flush_loop]; [done|]. destruct (IH (if ((dbid =? -1) || (x.1 =? dbid)) && bool_decide (is_Some (lookup k x)) then on CLIENT_DIRTY_CAS c else c)) as (-> & -> & ->).
  destruct (_ && _); [|done]. by rewrite !on_bits, !orb_false_r.
Qed.

Lemma do_effect_accounted id e s c : index_ok s -> clients s !! id = Some c -> e <> EFreeClient id -> e <> EReplicaOf true -> counting e ->
  masterhost s = false -> loading (cfg s) = false -> exists s' c', do_effect id e s = Some s' /\ accounted id [e] s s' c c'.
Proof.
  intros Hix Ec Hf Hr Hc Hma Hlo.
  assert (Hset : forall f, (forall c, argv (f c) = argv c /\ cmd (f c) = cmd c) -> db (f c) = db_after e (db c) ->
    has (flags (f c)) CLIENT_FORCE_REPL = has (flags c) CLIENT_FORCE_REPL || forces e ->
    has (flags (f c)) CLIENT_PREVENT_REPL_PROP = has (flags c) CLIENT_PREVENT_REPL_PROP || prevents e ->
    direct e = [] -> deferred e = [] -> changes_by e = 0 -> (forall a, args_after e a = a) -> exists s' c', upd s id f = Some s' /\ accounted id [e] s s' c c').
  { intros f Hfc H1 H2 H3 H4 H5 H6 H7. rewrite (upd_eq _ _ _ _ Ec). eexists _, (f c). split; [done|]. destruct (Hfc c).
    apply accounted_client; try done. apply lookup_insert_eq. }
  assert (Hside : forall s', clients s' = clients s -> repl_log s' = repl_log s -> also_propagate s' = also_propagate s -> dirty s' = dirty s ->
    masterhost s' = masterhost s -> cfg s' = cfg s -> db_after e (db c) = db c -> forces e = false -> prevents e = false ->
    direct e = [] -> deferred e = [] -> changes_by e = 0 -> (forall a, args_after e a = a) -> accounted id [e] s s' c c).
  { intros s' H1 H2 H3 H4 H5 H6 H7 H8 H9 H10 H11 H12 H13. apply accounted_client; try done; rewrite ?H1, ?H5, ?H8, ?H9, ?orb_false_r; done. }
  destruct e; cbn [do_effect]; try (apply Hset; try done; rewrite ?on_bits, ?orb_false_r; try done; by destruct b); try (eexists _, c; split; [reflexivity|]; by apply Hside).
  - destruct (touchWatchedKey_ok s d k Hix) as (m & -> & Hm). eexists _, (if bool_decide ((d, k) ∈ watched_keys c) then on CLIENT_DIRTY_CAS c else c). split; [reflexivity|].
    apply accounted_client; try done; [cbn [clients set_clients]; by rewrite Hm, Ec|..]; destruct (bool_decide _); rewrite ?on_bits, ?orb_false_r; done.
  - eexists _, (flush_loop (keyspace s) dbid (watched_keys c) c). split; [reflexivity|]. destruct (flush_fields (keyspace s) dbid (watched_keys c) c) as (F1 & F2 & F3).
    destruct (flush_marks (keyspace s) dbid (watched_keys c) c) as (_ & G1 & _ & G2 & _).
    apply accounted_client; try done; [cbn [touchWatchedKeysOnFlush clients set_clients]; by rewrite lookup_fmap, Ec|by rewrite F2, orb_false_r|by rewrite F3, orb_false_r].
  - eexists _, c. split; [reflexivity|]. split; cbn [mbind list_bind foldr existsb changes foldl final_db]; rewrite ?app_nil_r, ?orb_false_r; try done; [cbn; lia|]. intros m Hm. by exists m.
  - destruct (decide (id0 = id)) as [->|Hne].
    + rewrite Ec. apply Hset; try done; by rewrite orb_false_r.
    + destruct (clients s !! id0) as [c0|] eqn:E0; [|eexists _, c; split; [reflexivity|]; by apply Hside]. rewrite (upd_eq _ _ _ _ E0).
      eexists _, c. split; [reflexivity|]. apply accounted_client; try done; rewrite ?orb_false_r; try done. cbn [clients set_clients]. by rewrite lookup_insert_ne.
  - rewrite (upd_eq _ _ _ _ Ec). eexists _, (set_args c args (Some m)). split; [reflexivity|].
    split; cbn [mbind list_bind foldr existsb changes foldl final_db]; rewrite ?app_nil_r, ?orb_false_r; try done; [apply lookup_insert_eq|cbn; lia|].
    intros m' _. by exists m.
  - apply Hset; try done.
    + intros c1. unfold forceCommandPropagation. by destruct (has f PROPAGATE_REPL), (has f PROPAGATE_AOF).
    + unfold forceCommandPropagation. by destruct (has f PROPAGATE_REPL), (has f PROPAGATE_AOF).
    + rewrite force_bits. cbn [forces]. change (has CLIENT_FORCE_REPL CLIENT_FORCE_REPL) with true. change (has CLIENT_FORCE_AOF CLIENT_FORCE_REPL) with false.
      by rewrite andb_false_r, andb_true_r, orb_false_r.
    + rewrite force_bits. change (has CLIENT_FORCE_REPL CLIENT_PREVENT_REPL_PROP) with false. change (has CLIENT_FORCE_AOF CLIENT_PREVENT_REPL_PROP) with false.
      by rewrite !andb_false_r, !orb_false_r.
  - unfold preventCommandPropagation. apply Hset; try done; rewrite on_bits; done.
  - unfold preventCommandAOF. apply Hset; try done; rewrite on_bits; done.
  - unfold preventCommandReplication. apply Hset; try done; rewrite on_bits; done.
  - eexists _, c. split; [reflexivity|]. unfold alsoPropagate. rewrite Hlo.
    split; cbn [mbind list_bind foldr existsb changes foldl final_db]; rewrite ?app_nil_r, ?orb_false_r; try done; [cbn; lia|]. intros m Hm. by exists m.
  - destruct (propagate_frame s dbid args target) as (P1 & P2 & P3 & P4 & P5 & P6 & P7 & PD & PA & P8). eexists _, c. split; [reflexivity|].
    split; cbn [mbind list_bind foldr existsb changes foldl final_db]; rewrite ?app_nil_r, ?orb_false_r, ?P1, ?P3, ?P7, ?PD, ?PA, ?P8; try done.
    + rewrite Hma. cbn [negb direct]. by rewrite andb_true_r.
    + cbn. lia.
    + intros m Hm. by exists m.
  - destruct b; [done|]. eexists _, c. split; [reflexivity|]. apply accounted_client; try done; by rewrite orb_false_r.
  - destruct b; apply Hset; try done; rewrite ?on_bits; try done; cbn [off set_cflags flags]; by rewrite has_land_lnot, orb_false_r.
  - destruct (clients s !! id0) as [c0|] eqn:E0; [|eexists _, c; split; [reflexivity|]; by apply Hside].
    destruct (unwatchAllKeys_ok s id0 c0 Hix E0) as (w & Eu & _). unfold freeClient. rewrite Eu. mrun. eexists _, c. split; [reflexivity|].
    assert (id0 <> id) by congruence. apply accounted_client; try done; rewrite ?orb_false_r; try done.
    cbn [clients set_clients set_watchers]. by rewrite lookup_delete_ne, lookup_insert_ne.
Qed.

Lemma accounted_nil id s c : clients s !! id = Some c -> masterhost s = false -> accounted id [] s s c c.
Proof. intros Ec Hm. split; cbn; rewrite ?app_nil_r, ?orb_false_r; try done; [lia|]. intros m Hc. by exists m. Qed.

Lemma accounted_app id es1 es2 s1 s2 s3 c1 c2 c3 : accounted id es1 s1 s2 c1 c2 -> accounted id es2 s2 s3 c2 c3 -> accounted id (es1 ++ es2) s1 s3 c1 c3.
Proof.
  intros [A1 A2 A3 A4 A5 A6 A7 A8 A9 A10] [B1 B2 B3 B4 B5 B6 B7 B8 B9 B10]. split; try done.
  - by rewrite B2, A2, bind_app, app_assoc.
  - by rewrite B3, A3, bind_app, app_assoc.
  - rewrite B4, A4. unfold changes. rewrite foldr_app. clear. induction es1 as [|e es1 IH]; cbn; lia.
  - congruence.
  - intros m Hm. destruct (A7 m Hm) as (m2 & Hm2 & E2). destruct (B7 m2 Hm2) as (m3 & Hm3 & E3). exists m3. split; [done|]. by rewrite foldl_app, E2.
  - unfold final_db in *. by rewrite foldl_app, B8, A8.
  - by rewrite B9, A9, existsb_app, orb_assoc.
  - by rewrite B10, A10, existsb_app, orb_assoc.
Qed.

Lemma do_effects_accounted id es : forall s c, index_ok s -> clients s !! id = Some c -> EFreeClient id ∉ es -> EReplicaOf true ∉ es -> Forall counting es ->
  masterhost s = false -> loading (cfg s) = false -> exists s' c', do_effects id es s = Some s' /\ accounted id es s s' c c'.
Proof.
  induction es as [|e es IH]; intros s c Hix Ec Hf Hr Hc Hma Hlo; cbn [do_effects]; [exists s, c; split; [done|by apply accounted_nil]|].
  apply not_elem_of_cons in Hf as [Hf1 Hf], Hr as [Hr1 Hr]. apply Forall_cons in Hc as [Hc1 Hc].
  destruct (do_effect_accounted id e s c) as (s1 & c1 & E1 & A1); try done.
  destruct (do_effect_ran id e s Hix) as (s1' & E1' & R1); [right; by exists c|]. rewrite E1 in E1'. injection E1' as <-. rewrite E1. mrun.
  destruct (IH s1 c1) as (s' & c' & E' & A'); try done; [apply (r_index _ _ _ _ R1)|apply A1|apply A1|by rewrite (ac_cfg _ _ _ _ _ _ A1)|].
  exists s', c'. split; [done|]. change (e :: es) with ([e] ++ es). by eapply accounted_app.
Qed.

(** ** call *)

(** Bookkeeping around a command. *)
Lemma ran_side id s s' : index_ok s -> calm s s' -> keyspace s' = keyspace s -> ready_keys s' = ready_keys s -> repl_backlog s' = repl_backlog s ->
  repl_log s `prefix_of` repl_log s' -> masterhost s' = masterhost s -> dirty s' = dirty s ->
  (forall c c', clients s !! id = Some c -> clients s' !! id = Some c' -> db c' = db c /\ replies c' = replies c /\ cmd c' = cmd c) -> ran id [] s s'.
Proof.
  intros Hix Hc Hk Hr Hb Hl Hm Hy Ho. split; try done.
  - by eapply calm_index.
  - apply (calm_cfg _ _ Hc).
  - by rewrite Hr, app_nil_r.
  - by rewrite Hm.
  - intros _. rewrite Hy. done.
  - intros i c' E. destruct (calm_lookup _ _ _ _ Hc E) as (c & Ec & Hkc). exists c. split; [done|]. split; [done|]. intros dk Ht. discriminate Ht.
  - intros c c' E E'. destruct (Ho c c' E E') as (-> & -> & ->). by rewrite app_nil_r.
  - intros i Hi _. by eapply calm_alive.
Qed.

Lemma ran_side_frame id s s' : index_ok s -> clients s' = clients s -> watchers s' = watchers s -> cfg s' = cfg s -> keyspace s' = keyspace s ->
  ready_keys s' = ready_keys s -> repl_backlog s' = repl_backlog s -> repl_log s `prefix_of` repl_log s' -> masterhost s' = masterhost s -> dirty s' = dirty s -> ran id [] s s'.
Proof.
  intros Hix Hcl Hw Hcf. intros. apply ran_side; try done; [by apply calm_frame|]. intros c c' E E'. rewrite Hcl, E in E'. by injection E' as <-.
Qed.

Lemma ran_side_upd id s f c : index_ok s -> clients s !! id = Some c -> kept c (f c) -> db (f c) = db c -> replies (f c) = replies c -> cmd (f c) = cmd c ->
  ran id [] s (set_clients s (<[id := f c]> (clients s))).
Proof.
  intros Hix Ec Hk Hd Hr Hm. apply ran_side; try done; [by eapply calm_insert|]. intros c1 c1' E. cbn [clients set_clients]. rewrite lookup_insert_eq.
  intros [= <-]. rewrite Ec in E. by injection E as <-.
Qed.

Lemma propagate_self_side id s c m b callf : index_ok s -> ran id [] s (propagate_self s c m b callf) /\
  clients (propagate_self s c m b callf) = clients s /\ masterhost (propagate_self s c m b callf) = masterhost s /\
  also_propagate (propagate_self s c m b callf) = also_propagate s.
Proof.
  intros Hix. unfold propagate_self. destruct (has callf CMD_CALL_PROPAGATE && _); [|split; [by apply ran_nil|done]].
  set (p := propagate_flags _ _ _). destruct (negb (p =? PROPAGATE_NONE) && _); [|split; [by apply ran_nil|done]].
  destruct (propagate_frame s (db c) (argv c) p) as (P1 & P2 & P3 & P4 & P5 & P6 & P7 & PD & P9 & P8).
  split; [|done]. apply ran_side_frame; try done. rewrite P8. by apply prefix_app_r.
Qed.

Lemma propagate_also_side id callf ops : forall s, index_ok s -> ran id [] s (propagate_also s callf ops) /\
  clients (propagate_also s callf ops) = clients s /\ masterhost (propagate_also s callf ops) = masterhost s.
Proof.
  induction ops as [|o ops IH]; intros s Hix; cbn [propagate_also]; [split; [by apply ran_nil|done]|].
  set (t := if negb (has callf CMD_CALL_PROPAGATE_REPL) then _ else _). destruct (negb (t =? 0)); [|by apply IH].
  destruct (propagate_frame s (op_db o) (op_argv o) t) as (P1 & P2 & P3 & P4 & P5 & P6 & P7 & PD & _ & P8).
  assert (R : ran id [] s (propagate s (op_db o) (op_argv o) t)).
  { apply ran_side_frame; try done. rewrite P8. by apply prefix_app_r. }
  destruct (IH _ (r_index _ _ _ _ R)) as (R' & C' & M'). rewrite C', M'. split; [|done].
  apply (ran_app id [] [] s _ _ R R').
Qed.

(** A flag is a single bit. *)
Lemma land_flag f i : 0 <= i -> Z.land f (Z.shiftl 1 i) = if has f (Z.shiftl 1 i) then Z.shiftl 1 i else 0.
Proof.
  intros Hi. rewrite has_bit by done. apply Z.bits_inj'. intros n Hn. rewrite Z.land_spec, Z.shiftl_spec by done.
  destruct (decide (n = i)) as [->|Hne].
  - rewrite Z.sub_diag. change (Z.testbit 1 0) with true. rewrite andb_true_r.
    destruct (Z.testbit f i); [|by rewrite Z.bits_0]. by rewrite Z.shiftl_spec, Z.sub_diag.
  - assert (Ht : Z.testbit 1 (n - i) = false) by (destruct (decide (n < i)); [apply Z.testbit_neg_r; lia|apply (Z.bits_above_log2 1); cbn; lia]).
    rewrite Ht, andb_false_r. destruct (Z.testbit f i); [by rewrite Z.shiftl_spec, Ht|by rewrite Z.bits_0].
Qed.

Lemma prevent_prop_both f : (Z.land f CLIENT_PREVENT_PROP =? CLIENT_PREVENT_PROP) = has f CLIENT_PREVENT_AOF_PROP && has f CLIENT_PREVENT_REPL_PROP.
Proof.
  unfold CLIENT_PREVENT_PROP, CLIENT_PREVENT_AOF_PROP, CLIENT_PREVENT_REPL_PROP. rewrite Z.land_lor_distr_r, !land_flag by done.
  by destruct (has f (Z.shiftl 1 19)), (has f (Z.shiftl 1 20)).
Qed.

(** The command itself in the stream of the replicas. *)
Definition self_fed (c : client) (m : redisCommand) (changed : bool) : list fed :=
  if (changed || has (flags c) CLIENT_FORCE_REPL) && negb (has (flags c) CLIENT_PREVENT_REPL_PROP) && negb (has (cflags m) CMD_MODULE)
  then [Fed (db c) (argv c)] else [].

Lemma propagate_self_log s c m b : masterhost s = false -> repl_log (propagate_self s c m b CMD_CALL_FULL) = repl_log s ++ self_fed c m b.
Proof.
  intros Hma. unfold propagate_self, self_fed. rewrite prevent_prop_both. change (has CMD_CALL_FULL CMD_CALL_PROPAGATE) with true. cbn [andb].
  assert (Hp : forall p, repl_log (if negb (p =? PROPAGATE_NONE) && negb (has (cflags m) CMD_MODULE) then propagate s (db c) (argv c) p else s) =
    repl_log s ++ (if has p PROPAGATE_REPL && negb (has (cflags m) CMD_MODULE) then [Fed (db c) (argv c)] else [])).
  { intros p. destruct (propagate_frame s (db c) (argv c) p) as (_ & _ & _ & _ & _ & _ & _ & _ & _ & P8). rewrite Hma, andb_true_r in P8.
    destruct (has (cflags m) CMD_MODULE); [by rewrite !andb_false_r, app_nil_r|]. cbn [negb]. rewrite !andb_true_r.
    destruct (p =? PROPAGATE_NONE) eqn:E; cbn [negb]; [|exact P8]. apply Z.eqb_eq in E. subst p. by rewrite app_nil_r. }
  assert (Hf : has (propagate_flags b (flags c) CMD_CALL_FULL) PROPAGATE_REPL = (b || has (flags c) CLIENT_FORCE_REPL) && negb (has (flags c) CLIENT_PREVENT_REPL_PROP)).
  { unfold propagate_flags. by destruct b, (has (flags c) CLIENT_FORCE_REPL), (has (flags c) CLIENT_FORCE_AOF), (has (flags c) CLIENT_PREVENT_REPL_PROP), (has (flags c) CLIENT_PREVENT_AOF_PROP). }
  specialize (Hp (propagate_flags b (flags c) CMD_CALL_FULL)). rewrite Hf in Hp.
  destruct (has (flags c) CLIENT_PREVENT_AOF_PROP), (has (flags c) CLIENT_PREVENT_REPL_PROP); cbn [andb negb]; try exact Hp.
  by rewrite andb_false_r, app_nil_r.
Qed.

Lemma propagate_also_log ops : forall s, masterhost s = false -> repl_log (propagate_also s CMD_CALL_FULL ops) = repl_log s ++ (ops ≫= op_fed).
Proof.
  induction ops as [|o ops IH]; intros s Hma; cbn [propagate_also mbind list_bind]; [by rewrite app_nil_r|].
  change (has CMD_CALL_FULL CMD_CALL_PROPAGATE_REPL) with true. change (has CMD_CALL_FULL CMD_CALL_PROPAGATE_AOF) with true. cbn [negb].
  destruct (propagate_frame s (op_db o) (op_argv o) (op_target o)) as (_ & _ & _ & _ & _ & _ & P7 & _ & _ & P8). unfold op_fed at 1.
  destruct (op_target o =? 0) eqn:E0; zbool; cbn [negb].
  - rewrite E0. change (has 0 PROPAGATE_REPL) with false. by apply IH.
  - rewrite IH by (by rewrite P7). rewrite P8, Hma, andb_true_r. by rewrite <- app_assoc.
Qed.

Lemma ran_side_trans id s1 s2 s3 : ran id [] s1 s2 -> ran id [] s2 s3 -> ran id [] s1 s3.
Proof. intros R1 R2. apply (ran_app id [] [] s1 s2 s3 R1 R2). Qed.

(** The flags that [call] saves and restores. *)
Definition restored (old : Z) (c : client) : client :=
  set_cflags c (Z.lor (Z.land (flags c) (Z.lnot replication_flags)) (Z.land old replication_flags)).

Lemma restored_repl old c : Z.land (flags (restored old c)) replication_flags = Z.land old replication_flags.
Proof.
  cbn [restored set_cflags flags]. apply Z.bits_inj'. intros n Hn. rewrite !Z.land_spec, Z.lor_spec, !Z.land_spec, Z.lnot_spec by lia.
  destruct (Z.testbit (flags c) n), (Z.testbit old n), (Z.testbit replication_flags n); done.
Qed.

Lemma restored_kept old c : kept c (restored old c).
Proof.
  assert (Hz : forall b, Z.land replication_flags b = 0 -> has (flags (restored old c)) b = has (flags c) b).
  { intros b Hb. cbn [restored set_cflags flags]. rewrite has_set; [by apply has_land_lnot|]. by rewrite <- Z.land_assoc, Hb, Z.land_0_r. }
  split; try done; rewrite Hz by reflexivity; done.
Qed.

(** What surrounds the handler in [call]. *)
Lemma call_wrap n s id callf c m : index_ok s -> clients s !! id = Some c -> cmd c = Some m -> has (flags c) CLIENT_LUA = false ->
  exists s1, ran id [] s s1 /\ clients s1 = <[id := off replication_flags c]> (clients s) /\ also_propagate s1 = [] /\ dirty s1 = dirty s /\
    masterhost s1 = masterhost s /\ repl_log s1 = repl_log s /\ watchers s1 = watchers s /\
  forall s2 c2 m2, run_proc (call n) s1 id (proc m) = Some s2 -> index_ok s2 -> clients s2 !! id = Some c2 -> cmd c2 = Some m2 ->
    has (flags c2) CLIENT_LUA = false -> exists s3, call (S n) s id callf = Some s3 /\ ran id [] s2 s3 /\ also_propagate s3 = also_propagate s /\
      masterhost s3 = masterhost s2 /\
      clients s3 = <[id := restored (flags c) c2]> (clients s2) /\
      (callf = CMD_CALL_FULL -> masterhost s2 = false -> repl_log s3 = repl_log s2 ++ self_fed c2 m2 (dirty s2 - dirty s >? 0) ++ (also_propagate s2 ≫= op_fed)).
Proof.
  intros Hix Ec Em Hl. cbn [call]. rewrite Ec. mrun. rewrite Em. mrun.
  set (s0 := if has_monitors (cfg s) && _ && _ then replicationFeedMonitors s (db c) (argv c) else s).
  assert (H0 : clients s0 = clients s /\ watchers s0 = watchers s /\ cfg s0 = cfg s /\ keyspace s0 = keyspace s /\ ready_keys s0 = ready_keys s /\
    repl_backlog s0 = repl_backlog s /\ repl_log s0 = repl_log s /\ masterhost s0 = masterhost s /\ dirty s0 = dirty s /\ also_propagate s0 = also_propagate s)
    by (unfold s0; destruct (has_monitors (cfg s) && _ && _); done).
  destruct H0 as (H1 & H2 & H3 & H4 & H5 & H6 & H7 & H8 & H9 & H10).
  assert (Ec0 : clients s0 !! id = Some c) by (by rewrite H1). rewrite (upd_eq _ _ _ _ Ec0). mrun.
  exists (set_also (set_clients s0 (<[id := off replication_flags c]> (clients s0))) []).
  assert (R0 : ran id [] s s0) by (apply ran_side_frame; try done; by rewrite H7).
  assert (R1 : ran id [] s0 (set_clients s0 (<[id := off replication_flags c]> (clients s0)))).
  { apply ran_side_upd; try done; [apply (r_index _ _ _ _ R0)|auto with kept]. }
  split; [|split; [|split; [|split; [|split; [|split; [|split]]]]]]; cbn [clients also_propagate set_also set_clients dirty masterhost repl_log watchers]; try done; [|by rewrite H1|].
  { eapply ran_side_trans; [exact R0|]. eapply ran_side_trans; [exact R1|]. apply ran_side_frame; try done. apply (r_index _ _ _ _ R1). }
  intros s2 c2 m2 Er Hix2 Ec2 Em2 Hl2. rewrite Er. mrun. rewrite Ec2. mrun. unfold force_lua_caller. rewrite Hl2.
  replace (match lua_caller (cfg s2) with Some _ => Some s2 | None => Some s2 end) with (Some s2) by (by destruct (lua_caller (cfg s2))). mrun.
  rewrite Ec2. mrun. rewrite Em2. mrun. cbn [dirty set_also set_clients]. rewrite H9.
  destruct (propagate_self_side id s2 c2 m2 (dirty s2 - dirty s >? 0) callf Hix2) as (R3 & Hc3 & Hm3 & Ha3).
  set (s3 := propagate_self s2 c2 m2 _ callf) in *.
  rewrite (upd_eq _ _ _ c2) by (by rewrite Hc3). mrun. fold (restored (flags c) c2). rewrite Hc3.
  set (s4 := set_clients s3 (<[id := restored (flags c) c2]> (clients s2))).
  assert (R4 : ran id [] s3 s4).
  { unfold s4. rewrite <- Hc3. apply ran_side_upd; try done; [apply (r_index _ _ _ _ R3)|by rewrite Hc3|apply restored_kept]. }
  destruct (propagate_also_side id callf (also_propagate s4) s4 (r_index _ _ _ _ R4)) as (R5 & Hc5 & Hm5).
  set (s5 := if has callf CMD_CALL_PROPAGATE then _ else s4).
  assert (H' : ran id [] s4 s5 /\ clients s5 = clients s4 /\ masterhost s5 = masterhost s4)
    by (unfold s5; destruct (has callf CMD_CALL_PROPAGATE); [done|split; [apply ran_nil, (r_index _ _ _ _ R4)|done]]).
  destruct H' as (R5' & Hc5' & Hm5'). eexists. split; [done|]. split; [|split; [|split; [|split]]].
  - eapply ran_side_trans; [exact R3|]. eapply ran_side_trans; [exact R4|]. eapply ran_side_trans; [exact R5'|].
    apply ran_side_frame; try done. apply (r_index _ _ _ _ R5').
  - exact H10.
  - change (masterhost s5 = masterhost s2). rewrite Hm5'. exact Hm3.
  - exact Hc5'.
  - intros -> Hma2. change (repl_log s5 = repl_log s2 ++ self_fed c2 m2 (dirty s2 - dirty s >? 0) ++ (also_propagate s2 ≫= op_fed)). unfold s5.
    change (has CMD_CALL_FULL CMD_CALL_PROPAGATE) with true. cbv iota. rewrite propagate_also_log by (change (masterhost s3 = false); by rewrite Hm3).
    change (repl_log s4) with (repl_log s3). change (also_propagate s4) with (also_propagate s3). unfold s3 at 1. rewrite propagate_self_log by done.
    by rewrite Ha3, <- app_assoc.
Qed.

End Effects.

(** ** What is required of the handlers *)

(** Handlers do not free the client they run for, and the other components leave
    the fields of the running client alone. *)
Class CommandsLaws (K : Type) `{Commands K} := {
  body_legal p k id d b a : EFreeClient id ∉ body p k id d b a;
  memory_passive s : Forall passive (freeMemoryIfNeeded s).1 /\ readied (freeMemoryIfNeeded s).1 = [];
  serve_passive s : Forall passive (serve_blocked s);
  background_passive n s : Forall passive (background n s) /\ readied (background n s) = [];
  filters_some s id a l : filters s id (a :: l) <> []
}.

(** An entry without a time to live, or no entry. *)
Definition stable {K} `{Commands K} (o : option entry) : Prop := match o with Some e => persistent e = true | None => True end.

(** The keys that are not told about are as before; only keys with a time to
    live may disappear silently. *)
Definition lawful {K} `{Commands K} (k : K) (es : list (effect K)) : Prop :=
  forall dk, stable (lookup k dk) -> touched k es dk = false -> lookup (final_ks es k) dk = lookup k dk /\ dk ∉ readied es.

(** "Every time a key in the database is modified the function signalModifiedKey()
    is called.  Every time a DB is flushed the function signalFlushDb() is called." *)
Class SignalLaws (K : Type) `{Commands K} := {
  body_signals p k id d b a : lawful k (body p k id d b a);
  background_signals n s : lawful (keyspace s) (background n s);
  serve_signals s dk : stable (lookup (keyspace s) dk) -> touched (keyspace s) (serve_blocked s) dk = false -> dk ∉ ready_keys s ->
    lookup (final_ks (serve_blocked s) (keyspace s)) dk = lookup (keyspace s) dk
}.

(** The commands that MULTI puts in the queue. *)
Definition queueable (m : redisCommand) : bool := negb (runs m EXEC) && negb (runs m DISCARD) && negb (runs m MULTI) && negb (runs m WATCH).

Section Laws.
Context {K : Type} `{CommandsLaws K}.
Implicit Types s : server K.

Definition effects_of (m : redisCommand) (k : K) (id d : Z) (b : bool) (a : list (list Z)) : list (effect K) :=
  match proc m with UNWATCH => [] | p => body p k id d b a end.
Definition replies_of (m : redisCommand) (k : K) (id d : Z) (b : bool) (a : list (list Z)) : list reply :=
  match proc m with UNWATCH => [ok] | p => replied id (body p k id d b a) end.

(** What a command does to the client that runs it. *)
Record own (c c' : client) : Prop := mkOwn {
  o_multi : has (flags c') CLIENT_MULTI = has (flags c) CLIENT_MULTI;
  o_exec : has (flags c') CLIENT_DIRTY_EXEC = has (flags c) CLIENT_DIRTY_EXEC;
  o_lua : has (flags c') CLIENT_LUA = has (flags c) CLIENT_LUA;
  o_watched : watched_keys c' = [] \/ watched_keys c' = watched_keys c
}.

Lemma kept_own c c' : kept c c' -> own c c'.
Proof. intros []. split; auto. Qed.
Lemma own_trans a b c : own a b -> own b c -> own a c.
Proof. intros [? ? ? W1] [? ? ? W2]. split; try congruence. destruct W2 as [-> | ->]; auto. Qed.

Record served (id : Z) (es : list (effect K)) (rs : list reply) s s' : Prop := mkServed {
  sv_index : index_ok s';
  sv_cfg : cfg s' = cfg s;
  sv_keyspace : keyspace s' = final_ks es (keyspace s);
  sv_ready : ready_keys s' = ready_keys s ++ readied es;
  sv_backlog : repl_backlog s' = repl_backlog s;
  sv_log : repl_log s `prefix_of` repl_log s';
  sv_master : EReplicaOf true ∉ es -> masterhost s = false -> masterhost s' = false;
  sv_dirty : Forall counting es -> dirty s <= dirty s';
  sv_others : forall i c', i <> id -> clients s' !! i = Some c' -> exists c, clients s !! i = Some c /\ kept c c' /\
    forall dk, touched (keyspace s) es dk = true -> dk ∈ watched_keys c -> has (flags c') CLIENT_DIRTY_CAS = true;
  sv_own : forall c, clients s !! id = Some c -> exists c', clients s' !! id = Some c' /\ own c c' /\
    db c' = final_db es (db c) /\ replies c' = replies c ++ rs /\ (is_Some (cmd c) -> is_Some (cmd c'))
}.

Lemma ran_served id es s s' : ran id es s s' -> EFreeClient id ∉ es -> served id es (replied id es) s s'.
Proof.
  intros [I1 C1 K1 R1 B1 L1 M1 Y1 Cl1 O1 A1] Hn. split; try done.
  - intros i c' _ E. by apply Cl1.
  - intros c E. destruct (A1 id (ex_intro _ c E) Hn) as [c' E']. exists c'. split; [done|]. destruct (O1 c c' E E') as (D & R & M).
    split; [|done]. destruct (Cl1 _ _ E') as (c0 & E0 & Hk & _). rewrite E in E0. injection E0 as <-. by apply kept_own.
Qed.

Lemma served_side id es rs s1 s2 s3 s4 : ran id [] s1 s2 -> served id es rs s2 s3 -> ran id [] s3 s4 -> served id es rs s1 s4.
Proof.
  intros R1 [I2 C2 K2 Y2 B2 L2 M2 D2 Cl2 O2] R3. pose proof (r_keyspace _ _ _ _ R1) as Ek. cbn in Ek. split.
  - apply (r_index _ _ _ _ R3).
  - rewrite (r_cfg _ _ _ _ R3), C2. apply (r_cfg _ _ _ _ R1).
  - rewrite (r_keyspace _ _ _ _ R3). cbn. by rewrite K2, Ek.
  - rewrite (r_ready _ _ _ _ R3), Y2, (r_ready _ _ _ _ R1). cbn. by rewrite !app_nil_r.
  - rewrite (r_backlog _ _ _ _ R3), B2. apply (r_backlog _ _ _ _ R1).
  - etrans; [apply (r_log _ _ _ _ R1)|]. etrans; [exact L2|apply (r_log _ _ _ _ R3)].
  - intros Hn Hm. apply (r_master _ _ _ _ R3); [apply not_elem_of_nil|]. apply M2; [done|]. apply (r_master _ _ _ _ R1); [apply not_elem_of_nil|done].
  - intros Hy. specialize (D2 Hy). pose proof (r_dirty _ _ _ _ R1 (Forall_nil_2 _)). pose proof (r_dirty _ _ _ _ R3 (Forall_nil_2 _)). lia.
  - intros i c4 Hne E4. destruct (r_clients _ _ _ _ R3 _ _ E4) as (c3 & E3 & Hk3 & _). destruct (Cl2 _ _ Hne E3) as (c2 & E2 & Hk2 & Ht2).
    destruct (r_clients _ _ _ _ R1 _ _ E2) as (c1 & E1 & Hk1 & _). exists c1. split; [done|]. split; [by eauto using kept_trans|].
    intros dk Ht Hin. apply (k_cas _ _ Hk3). apply (Ht2 dk); [by rewrite Ek|]. by rewrite (k_watched _ _ Hk1).
  - intros c1 E1. destruct (r_alive _ _ _ _ R1 id) as [c2 E2]; [by exists c1|apply not_elem_of_nil|]. destruct (O2 c2 E2) as (c3 & E3 & W3 & D3 & P3 & M3).
    destruct (r_alive _ _ _ _ R3 id) as [c4 E4]; [by exists c3|apply not_elem_of_nil|]. exists c4. split; [done|].
    destruct (r_own _ _ _ _ R1 _ _ E1 E2) as (D1 & P1 & M1). destruct (r_own _ _ _ _ R3 _ _ E3 E4) as (D4 & P4 & M4). cbn in D1, D4, P1, P4.
    destruct (r_clients _ _ _ _ R1 _ _ E2) as (c1' & E1' & Hk1 & _). destruct (r_clients _ _ _ _ R3 _ _ E4) as (c3' & E3' & Hk3 & _). simplify_eq.
    rewrite app_nil_r in P1, P4. split; [|rewrite D4, D3, D1, P4, P3, P1; tauto].
    eapply own_trans; [by apply kept_own|]. eapply own_trans; [exact W3|by apply kept_own].
Qed.

(** UNWATCH. *)
Lemma unwatchCommand_served s id c : index_ok s -> clients s !! id = Some c -> exists s', unwatchCommand s id = Some s' /\
  served id [] [ok] s s' /\ (also_propagate s' = also_propagate s /\ repl_log s' = repl_log s /\ dirty s' = dirty s /\ masterhost s' = masterhost s) /\
  clients s' = <[id := addReply ok (off CLIENT_DIRTY_CAS (set_watched c []))]> (clients s).
Proof.
  intros Hix Ec. destruct (unwatchAllKeys_ok s id c Hix Ec) as (w & Eu & _ & Hix'). unfold unwatchCommand. rewrite Eu. mrun.
  set (s1 := set_clients (set_watchers s w) _) in *. assert (E1 : clients s1 !! id = Some (set_watched c [])) by apply lookup_insert_eq.
  rewrite (upd_eq _ _ _ _ E1). assert (Hcl : <[id:=addReply ok (off CLIENT_DIRTY_CAS (set_watched c []))]> (clients s1) =
    <[id := addReply ok (off CLIENT_DIRTY_CAS (set_watched c []))]> (clients s)) by (cbn [s1 clients set_clients]; apply insert_insert_eq).
  eexists. split; [done|]. split; [|split; [done|exact Hcl]]. split; try done.
  - by apply (index_upd s1 id (set_watched c [])).
  - cbn. by rewrite app_nil_r.
  - intros i c' Hne E. cbn [clients set_clients] in E. rewrite Hcl in E. rewrite lookup_insert_ne in E by done.
    exists c'. split; [done|]. split; [apply kept_refl|]. intros dk Ht. discriminate Ht.
  - intros c0 E0. rewrite Ec in E0. injection E0 as <-. eexists. split; [cbn [clients set_clients]; rewrite Hcl; apply lookup_insert_eq|].
    split; [|done]. split; try done; [..|by left]; flag_simpl; done.
Qed.

Lemma queueable_proc m : queueable m = true -> proc m <> EXEC /\ proc m <> DISCARD /\ proc m <> MULTI /\ proc m <> WATCH.
Proof.
  unfold queueable, runs. rewrite !andb_true_iff, !negb_true_iff, !bool_decide_eq_false. tauto.
Qed.

Lemma run_proc_body call s id p c : p <> EXEC -> p <> DISCARD -> p <> MULTI -> p <> WATCH -> p <> UNWATCH -> clients s !! id = Some c ->
  run_proc call s id p = do_effects id (body p (keyspace s) id (db c) (has (flags c) CLIENT_MULTI) (argv c)) s.
Proof. intros ? ? ? ? ? Ec. destruct p; try done; cbn [run_proc]; by rewrite Ec. Qed.

(** A command that is not one of MULTI, EXEC, DISCARD and WATCH. *)
Lemma call_served n s id callf c m : index_ok s -> clients s !! id = Some c -> cmd c = Some m -> has (flags c) CLIENT_LUA = false -> queueable m = true ->
  let es := effects_of m (keyspace s) id (db c) (has (flags c) CLIENT_MULTI) (argv c) in
  let rs := replies_of m (keyspace s) id (db c) (has (flags c) CLIENT_MULTI) (argv c) in
  exists s', call (S n) s id callf = Some s' /\ served id es rs s s' /\ also_propagate s' = also_propagate s /\ (proc m <> UNWATCH -> ran id es s s') /\
    (callf = CMD_CALL_FULL -> masterhost s = false -> loading (cfg s) = false -> EReplicaOf true ∉ es -> Forall counting es ->
      repl_log s' = repl_log s ++ propagated_by m es (db c) (argv c)) /\
    (forall c', clients s' !! id = Some c' -> commands c' = commands c /\ cmd_flags c' = cmd_flags c /\ (proc m = UNWATCH -> watched_keys c' = []) /\
      Z.land (flags c') replication_flags = Z.land (flags c) replication_flags).
Proof.
  intros Hix Ec Em Hl Hq es rs. destruct (queueable_proc m Hq) as (Q1 & Q2 & Q3 & Q4).
  destruct (call_wrap n s id callf c m Hix Ec Em Hl) as (s1 & R1 & Hc1 & A1 & D1 & M1 & L1 & _ & Hcall).
  assert (Hoff : has (flags (off replication_flags c)) CLIENT_FORCE_REPL = false /\ has (flags (off replication_flags c)) CLIENT_PREVENT_REPL_PROP = false)
    by (cbn [off set_cflags flags]; split; by apply has_cleared). destruct Hoff as [Hoff1 Hoff2].
  assert (E1 : clients s1 !! id = Some (off replication_flags c)) by (rewrite Hc1; apply lookup_insert_eq).
  assert (K1 : keyspace s1 = keyspace s) by apply (r_keyspace _ _ _ _ R1).
  destruct (decide (proc m = UNWATCH)) as [Eu|Hnu].
  - destruct (unwatchCommand_served s1 id _ (r_index _ _ _ _ R1) E1) as (s2 & E2 & S2 & (A2 & L2 & D2 & M2) & Hc2).
    assert (E2' : clients s2 !! id = Some (addReply ok (off CLIENT_DIRTY_CAS (set_watched (off replication_flags c) [])))) by (rewrite Hc2; apply lookup_insert_eq).
    destruct (Hcall s2 _ m ltac:(by rewrite Eu) (sv_index _ _ _ _ _ S2) E2') as (s3 & E3 & R3 & A3 & _ & Hc3 & L3); [done|flag_simpl; done|].
    assert (Ees : es = []) by (unfold es, effects_of; by rewrite Eu).
    exists s3. split; [done|]. split; [|split; [done|split; [done|split]]]; [| |intros c'; rewrite Hc3, lookup_insert_eq; intros [= <-]; rewrite restored_repl; done].
    + rewrite Ees. unfold rs, replies_of. rewrite Eu. by eapply served_side.
    + intros Hcf Hma _ _ _. rewrite (L3 Hcf) by congruence. rewrite Ees, A2, A1, L2, L1, D2, D1, Z.sub_diag. unfold self_fed.
      assert (has (flags (addReply ok (off CLIENT_DIRTY_CAS (set_watched (off replication_flags c) [])))) CLIENT_FORCE_REPL = false) as ->
        by (cbn [addReply set_replies off set_cflags set_watched flags]; rewrite has_land_lnot by done; exact Hoff1).
      by rewrite !app_nil_r.
  - assert (Ees : es = body (proc m) (keyspace s) id (db c) (has (flags c) CLIENT_MULTI) (argv c)) by (unfold es, effects_of; by destruct (proc m)).
    assert (Ers : rs = replied id es) by (unfold rs, replies_of; rewrite Ees; by destruct (proc m)).
    assert (Hleg : EFreeClient id ∉ es) by (rewrite Ees; apply body_legal).
    destruct (do_effects_ran id es s1 (r_index _ _ _ _ R1) Hleg) as (s2 & E2 & R2); [by eexists|].
    destruct (r_alive _ _ _ _ R2 id) as [c2 E2']; [by eexists|done|]. destruct (r_own _ _ _ _ R2 _ _ E1 E2') as (_ & _ & Hm).
    destruct (Hm ltac:(by exists m)) as [m2 Em2]. destruct (r_clients _ _ _ _ R2 _ _ E2') as (c1' & E1' & Hk2 & _). rewrite E1 in E1'. injection E1' as <-.
    destruct (Hcall s2 c2 m2) as (s3 & E3 & R3 & A3 & _ & Hc3 & L3); try done.
    { rewrite (run_proc_body _ _ _ _ _ Q1 Q2 Q3 Q4 Hnu E1). rewrite K1. cbn [db off set_cflags flags argv]. rewrite has_land_lnot by done. by rewrite <- Ees. }
    { apply (r_index _ _ _ _ R2). }
    { rewrite (k_lua _ _ Hk2). flag_simpl. done. }
    assert (R : ran id es s s3).
    { rewrite <- (app_nil_l es), <- (app_nil_r ([] ++ es)). eapply ran_app; [|exact R3]. eapply ran_app; [exact R1|exact R2]. }
    exists s3. split; [done|]. split; [rewrite Ers; by apply ran_served|]. split; [done|]. split; [done|]. split.
    { intros Hcf Hma Hlo Hrep Hcnt. destruct (do_effects_accounted id es s1 _ (r_index _ _ _ _ R1) E1 Hleg Hrep Hcnt) as (s2' & c2' & E2'' & A2).
      { by rewrite M1. }
      { by rewrite (r_cfg _ _ _ _ R1). }
      rewrite E2 in E2''. injection E2'' as <-. destruct A2 as [B1 B2 B3 B4 B5 B6 B7 B8 B9 B10]. rewrite E2' in B1. injection B1 as <-.
      rewrite (L3 Hcf B5), B2, B3, B4, A1, L1, D1. unfold self_fed, propagated_by. destruct (B7 m Em) as (m' & Em' & Ef). rewrite Em2 in Em'. injection Em' as <-.
      cbn [off set_cflags argv] in Ef. rewrite Ef, B8, B9, B10, Hoff1, Hoff2. replace (dirty s + changes es - dirty s) with (changes es) by lia. by rewrite <- !app_assoc. }
    intros c3 E3'. destruct (r_clients _ _ _ _ R _ _ E3') as (c0 & E0 & Hk & _). rewrite Ec in E0. injection E0 as <-.
    split; [apply (k_commands _ _ Hk)|split; [apply (k_cmd_flags _ _ Hk)|split; [done|]]].
    rewrite Hc3, lookup_insert_eq in E3'. injection E3' as <-. apply restored_repl.
Qed.

(** ** EXEC *)

Lemma served_trans id es1 es2 rs1 rs2 s1 s2 s3 : served id es1 rs1 s1 s2 -> served id es2 rs2 s2 s3 -> served id (es1 ++ es2) (rs1 ++ rs2) s1 s3.
Proof.
  intros [I1 C1 K1 Y1 B1 L1 M1 D1 Cl1 O1] [I2 C2 K2 Y2 B2 L2 M2 D2 Cl2 O2]. split; try congruence.
  - by rewrite final_ks_app, K2, K1.
  - rewrite Y2, Y1, <- app_assoc. unfold readied. by rewrite bind_app.
  - by transitivity (repl_log s2).
  - rewrite elem_of_app. intros Hn Hm. apply M2, M1; tauto.
  - rewrite Forall_app. intros [Hy1 Hy2]. specialize (D1 Hy1). specialize (D2 Hy2). lia.
  - intros i c3 Hne E3. destruct (Cl2 _ _ Hne E3) as (c2 & E2 & Hk2 & Ht2). destruct (Cl1 _ _ Hne E2) as (c1 & E1 & Hk1 & Ht1).
    exists c1. split; [done|]. split; [by eapply kept_trans|]. intros dk Ht Hin. rewrite touched_app in Ht. apply orb_true_iff in Ht as [Ht|Ht].
    + apply (k_cas _ _ Hk2). by apply (Ht1 dk).
    + rewrite <- K1 in Ht. apply (Ht2 dk Ht). by rewrite (k_watched _ _ Hk1).
  - intros c1 E1. destruct (O1 c1 E1) as (c2 & E2 & W2 & D2' & P2 & N2). destruct (O2 c2 E2) as (c3 & E3 & W3 & D3 & P3 & N3).
    exists c3. split; [done|]. split; [by eapply own_trans|]. split; [unfold final_db in *; by rewrite foldl_app, D3, D2'|].
    split; [by rewrite P3, P2, <- app_assoc|tauto].
Qed.

(** The effects and the replies of a queue that is run from the first to the last command. *)
Fixpoint apply_all (id : Z) (q : list multiCmd) (k : K) (d : Z) : list (effect K) * list reply :=
  match q with
  | [] => ([], [])
  | mc :: q =>
      let es := effects_of (mc_cmd mc) k id d true (mc_argv mc) in
      let r := apply_all id q (final_ks es k) (final_db es d) in
      (es ++ r.1, replies_of (mc_cmd mc) k id d true (mc_argv mc) ++ r.2)
  end.

(** MULTI is propagated before the first such command. *)
Definition marks (mc : multiCmd) : bool := negb (has (cflags (mc_cmd mc)) (Z.lor CMD_READONLY CMD_ADMIN)).

(** A change of the running client between two commands. *)
Lemma served_own_side id s c f : index_ok s -> clients s !! id = Some c -> watched_keys (f c) = watched_keys c -> flags (f c) = flags c ->
  db (f c) = db c -> replies (f c) = replies c -> (is_Some (cmd c) -> is_Some (cmd (f c))) ->
  served id [] [] s (set_clients s (<[id := f c]> (clients s))).
Proof.
  intros Hix Ec Hw Hf Hd Hr Hm. split; try done; cbn [clients set_clients].
  - by eapply index_upd.
  - by rewrite app_nil_r.
  - intros i c' Hne E. rewrite lookup_insert_ne in E by done. exists c'. split; [done|]. split; [apply kept_refl|]. intros dk Ht. discriminate Ht.
  - intros c0 E0. rewrite Ec in E0. injection E0 as <-. exists (f c). rewrite lookup_insert_eq, Hd, Hr, app_nil_r. split; [done|].
    split; [|done]. split; rewrite ?Hf; auto.
Qed.

(** What the commands of a queue propagate, one after the other. *)
Fixpoint propagated (id : Z) (q : list multiCmd) (k : K) (d : Z) : list fed :=
  match q with
  | [] => []
  | mc :: q =>
      let es := effects_of (mc_cmd mc) k id d true (mc_argv mc) in
      propagated_by (mc_cmd mc) es d (mc_argv mc) ++ propagated id q (final_ks es k) (final_db es d)
  end.

(** With MULTI before the first marking command, unless it was sent already. *)
Fixpoint block_stream (id : Z) (q : list multiCmd) (k : K) (d : Z) (must : bool) : list fed :=
  match q with
  | [] => []
  | mc :: q =>
      let es := effects_of (mc_cmd mc) k id d true (mc_argv mc) in
      (if negb must && marks mc then [Fed d [str_MULTI]] else []) ++ propagated_by (mc_cmd mc) es d (mc_argv mc) ++
      block_stream id q (final_ks es k) (final_db es d) (must || marks mc)
  end.

Lemma block_stream_open id q : forall k d, block_stream id q k d true = propagated id q k d.
Proof. induction q as [|mc q IH]; intros k d; [done|]. cbn [block_stream propagated negb andb orb app]. by rewrite IH. Qed.

Lemma block_stream_split id q1 mc q2 : forall k d, existsb marks q1 = false -> marks mc = true ->
  let es := (apply_all id q1 k d).1 in
  block_stream id (q1 ++ mc :: q2) k d false =
  propagated id q1 k d ++ Fed (final_db es d) [str_MULTI] :: propagated id (mc :: q2) (final_ks es k) (final_db es d).
Proof.
  induction q1 as [|m1 q1 IH]; intros k d Hq Hm.
  - cbn [app block_stream apply_all fst propagated]. rewrite Hm. cbn [negb andb orb app]. by rewrite block_stream_open.
  - cbn [existsb] in Hq. apply orb_false_iff in Hq as [Hm1 Hq]. cbn [app block_stream apply_all fst]. rewrite Hm1. cbn [negb andb orb app].
    rewrite (IH _ _ Hq Hm). cbn [propagated]. unfold final_db, final_ks. rewrite !foldl_app. by rewrite <- app_assoc.
Qed.

(** One round of the loop. *)
Lemma exec_round n fuel j must s id c mc : index_ok s -> clients s !! id = Some c -> commands c !! j = Some mc -> queueable (mc_cmd mc) = true ->
  has (flags c) CLIENT_LUA = false -> has (flags c) CLIENT_MULTI = true -> watched_keys c = [] ->
  let es := effects_of (mc_cmd mc) (keyspace s) id (db c) true (mc_argv mc) in
  exists s4 c4 mc4, exec_loop (call (S n)) (S fuel) j must s id = exec_loop (call (S n)) fuel (S j) (must || marks mc) s4 id /\
    served id es (replies_of (mc_cmd mc) (keyspace s) id (db c) true (mc_argv mc)) s s4 /\ also_propagate s4 = also_propagate s /\
    clients s4 !! id = Some c4 /\ commands c4 = <[j := mc4]> (commands c) /\
    Z.land (flags c4) replication_flags = Z.land (flags c) replication_flags /\
    (masterhost s = false -> loading (cfg s) = false -> EReplicaOf true ∉ es -> Forall counting es ->
      repl_log s4 = repl_log s ++ (if negb must && marks mc then [Fed (db c) [str_MULTI]] else []) ++ propagated_by (mc_cmd mc) es (db c) (mc_argv mc)).
Proof.
  intros Hix Ec Ej Hq Hl Hm Hw es. cbn [exec_loop]. rewrite Ec. mrun. rewrite Ej. rewrite (upd_eq _ _ _ _ Ec). mrun.
  set (s1 := set_clients s (<[id := set_args c (mc_argv mc) (Some (mc_cmd mc))]> (clients s))).
  assert (S1 : served id [] [] s s1) by (apply (served_own_side id s c (fun c => set_args c (mc_argv mc) (Some (mc_cmd mc)))); done).
  fold (marks mc). set (s2 := if negb must && marks mc then execCommandPropagateMulti s1 c else s1).
  destruct (propagate_frame s1 (db c) [str_MULTI] (Z.lor PROPAGATE_AOF PROPAGATE_REPL)) as (P1 & P2 & P3 & P4 & P5 & P6 & P7 & PD & P9 & P8).
  assert (R2 : ran id [] s1 s2 /\ clients s2 = clients s1 /\ also_propagate s2 = also_propagate s1).
  { pose proof (sv_index _ _ _ _ _ S1) as Hix1. unfold s2. destruct (negb must && marks mc); [|split; [by apply ran_nil|done]].
    split; [|done]. apply ran_side_frame; try done. unfold execCommandPropagateMulti. rewrite P8. by apply prefix_app_r. }
  destruct R2 as (R2 & Hc2 & Ha2).
  assert (E2 : clients s2 !! id = Some (set_args c (mc_argv mc) (Some (mc_cmd mc)))) by (rewrite Hc2; apply lookup_insert_eq).
  assert (K2 : keyspace s2 = keyspace s) by (rewrite (r_keyspace _ _ _ _ R2); done).
  destruct (call_served n s2 id (if loading (cfg s2) then CMD_CALL_NONE else CMD_CALL_FULL) _ (mc_cmd mc) (r_index _ _ _ _ R2) E2 eq_refl Hl Hq)
    as (s3 & E3 & S3 & A3 & _ & L3 & Q3).
  cbn [db flags set_args argv] in S3. rewrite K2, Hm in S3. rewrite E3. mrun. fold es in S3.
  destruct (sv_own _ _ _ _ _ S3 _ E2) as (c3 & E3' & W3 & D3 & P3' & M3). rewrite E3'. mrun.
  destruct (M3 ltac:(by eexists)) as [m3 Em3]. rewrite Em3. mrun. rewrite (upd_eq _ _ _ _ E3'). mrun.
  destruct (Q3 _ E3') as (Q3c & Q3f & _ & Q3r). cbn [commands set_args] in Q3c.
  set (f := fun c => set_mstate c (<[j:=mkMultiCmd (argv c) m3]> (commands c)) (cmd_flags c)).
  assert (S4 : served id [] [] s3 (set_clients s3 (<[id := f c3]> (clients s3)))) by (apply served_own_side; try done; apply (sv_index _ _ _ _ _ S3)).
  exists (set_clients s3 (<[id := f c3]> (clients s3))), (f c3), (mkMultiCmd (argv c3) m3).
  split; [by destruct must|]. split; [|split; [|split; [|split; [|split; [exact Q3r|]]]]].
  - rewrite <- (app_nil_l es), <- (app_nil_r ([] ++ es)), <- (app_nil_l (replies_of _ _ _ _ _ _)), <- (app_nil_r ([] ++ replies_of _ _ _ _ _ _)).
    eapply served_trans; [|exact S4]. eapply served_trans; [exact S1|]. eapply served_side; [exact R2|exact S3|]. apply ran_nil, (sv_index _ _ _ _ _ S3).
  - cbn [also_propagate set_clients]. rewrite A3, Ha2. done.
  - apply lookup_insert_eq.
  - cbn [f commands set_mstate]. by rewrite Q3c.
  - intros Hma Hlo Hrep Hcnt. cbn [repl_log set_clients]. cbn [db set_args argv flags] in L3. rewrite K2, Hm in L3.
    assert (Hcf : cfg s2 = cfg s) by (rewrite (r_cfg _ _ _ _ R2); done). rewrite Hcf, Hlo in L3.
    assert (Hma2 : masterhost s2 = false /\ repl_log s2 = repl_log s ++ (if negb must && marks mc then [Fed (db c) [str_MULTI]] else [])).
    { unfold s2. destruct (negb must && marks mc); [|by rewrite app_nil_r]. unfold execCommandPropagateMulti. rewrite P7, P8.
      change (masterhost s1) with (masterhost s). by rewrite Hma. }
    destruct Hma2 as [Hma2 Hl2]. rewrite L3, Hl2 by done. by rewrite <- app_assoc.
Qed.

Lemma exec_loop_served n id q : forall fuel j must s c, index_ok s -> clients s !! id = Some c -> drop j (commands c) = q ->
  Forall (fun mc => queueable (mc_cmd mc) = true) q -> has (flags c) CLIENT_LUA = false -> has (flags c) CLIENT_MULTI = true -> watched_keys c = [] ->
  (length q < fuel)%nat ->
  let r := apply_all id q (keyspace s) (db c) in
  exists s', exec_loop (call (S n)) fuel j must s id = Some (s', must || existsb marks q) /\ served id r.1 r.2 s s' /\
    also_propagate s' = also_propagate s /\
    (forall c', clients s' !! id = Some c' -> Z.land (flags c') replication_flags = Z.land (flags c) replication_flags) /\
    (masterhost s = false -> loading (cfg s) = false -> EReplicaOf true ∉ r.1 -> Forall counting r.1 ->
      repl_log s' = repl_log s ++ block_stream id q (keyspace s) (db c) must).
Proof.
  induction q as [|mc q IH]; intros fuel j must s c Hix Ec Hd Hq Hl Hm Hw Hf r; destruct fuel as [|fuel]; [lia| |cbn in Hf; lia|].
  - cbn [exec_loop]. rewrite Ec. mrun. assert (commands c !! j = None) as ->.
    { rewrite <- (Nat.add_0_r j), <- lookup_drop, Hd. done. }
    exists s. cbn [existsb]. rewrite orb_false_r. split; [done|]. split; [|split; [done|split; [by intros c'; rewrite Ec; intros [= <-]|intros; by rewrite app_nil_r]]]. apply (ran_served id []); [by apply ran_nil|apply not_elem_of_nil].
  - apply Forall_cons in Hq as [Hq1 Hq]. assert (Ej : commands c !! j = Some mc).
    { rewrite <- (Nat.add_0_r j), <- lookup_drop, Hd. done. }
    destruct (exec_round n fuel j must s id c mc Hix Ec Ej Hq1 Hl Hm Hw) as (s4 & c4 & mc4 & Er & S4 & A4 & E4 & Q4 & F4 & L4). rewrite Er.
    destruct (sv_own _ _ _ _ _ S4 _ Ec) as (c4' & E4' & W4 & D4 & _). rewrite E4 in E4'. injection E4' as <-.
    destruct (IH fuel (S j) (must || marks mc) s4 c4) as (s' & Es & S' & A' & F' & L'); try done.
    + apply (sv_index _ _ _ _ _ S4).
    + rewrite Q4. rewrite drop_insert_lt by lia. rewrite <- (Nat.add_1_r j), <- drop_drop, Hd. done.
    + by rewrite (o_lua _ _ W4).
    + by rewrite (o_multi _ _ W4).
    + destruct (o_watched _ _ W4) as [-> | ->]; done.
    + cbn in Hf. lia.
    + exists s'. rewrite Es. cbn [existsb]. rewrite orb_assoc. split; [done|]. subst r. cbn [apply_all fst snd].
      rewrite (sv_keyspace _ _ _ _ _ S4), D4 in S', L'. split; [by eapply served_trans|]. split; [congruence|]. split; [intros c' Ec'; rewrite (F' _ Ec'); exact F4|].
      intros Hma Hlo Hn Hcnt. apply not_elem_of_app in Hn as [Hn1 Hn2]. apply Forall_app in Hcnt as [Hc1 Hc2].
      rewrite L', L4; try done; [|by apply (sv_master _ _ _ _ _ S4)|by rewrite (sv_cfg _ _ _ _ _ S4)].
      cbn [block_stream]. by rewrite <- !app_assoc.
Qed.

(** The fields that the transaction commands themselves do not change. *)
Definition rest s := (cfg s, keyspace s, ready_keys s, repl_backlog s, repl_log s, masterhost s, dirty s, also_propagate s).

Lemma rest_inv s s' : rest s' = rest s -> cfg s' = cfg s /\ keyspace s' = keyspace s /\ ready_keys s' = ready_keys s /\ repl_backlog s' = repl_backlog s /\
  repl_log s' = repl_log s /\ masterhost s' = masterhost s /\ dirty s' = dirty s /\ also_propagate s' = also_propagate s.
Proof. unfold rest. intros E. by simplify_eq. Qed.

Definition discarded (c : client) : client :=
  set_watched (off (Z.lor CLIENT_MULTI (Z.lor CLIENT_DIRTY_CAS CLIENT_DIRTY_EXEC)) (initClientMultiState c)) [].

Lemma discardTransaction_ok s id c : index_ok s -> clients s !! id = Some c -> exists s', discardTransaction s id = Some s' /\ index_ok s' /\
  clients s' = <[id := discarded c]> (clients s) /\ rest s' = rest s.
Proof.
  intros Hix Ec. unfold discardTransaction. rewrite (upd_eq _ _ _ _ Ec). mrun.
  set (f := fun c => off (Z.lor CLIENT_MULTI (Z.lor CLIENT_DIRTY_CAS CLIENT_DIRTY_EXEC)) (initClientMultiState c)). fold (f c).
  set (s1 := set_clients s (<[id := f c]> (clients s))).
  assert (Hix1 : index_ok s1) by (by eapply index_upd).
  assert (E1 : clients s1 !! id = Some (f c)) by apply lookup_insert_eq.
  destruct (unwatchAllKeys_ok s1 id (f c) Hix1 E1) as (w & Eu & _ & Hix2). rewrite Eu. eexists. split; [done|]. split; [done|]. split; [|done].
  cbn [s1 clients set_clients]. by rewrite insert_insert_eq.
Qed.

(** What a command of one client means for the others. *)
Record stepped (id : Z) (es : list (effect K)) s s' : Prop := mkStepped {
  st_index : index_ok s';
  st_cfg : cfg s' = cfg s;
  st_keyspace : keyspace s' = final_ks es (keyspace s);
  st_ready : ready_keys s' = ready_keys s ++ readied es;
  st_others : forall i c', i <> id -> clients s' !! i = Some c' -> exists c, clients s !! i = Some c /\ kept c c' /\
    forall dk, touched (keyspace s) es dk = true -> dk ∈ watched_keys c -> has (flags c') CLIENT_DIRTY_CAS = true
}.

Lemma served_stepped id es rs s s' : served id es rs s s' -> stepped id es s s'.
Proof. by intros []. Qed.

Lemma ran_stepped id es s s' : ran id es s s' -> stepped id es s s'.
Proof. intros []. split; try done. eauto. Qed.

Lemma stepped_trans id es1 es2 s1 s2 s3 : stepped id es1 s1 s2 -> stepped id es2 s2 s3 -> stepped id (es1 ++ es2) s1 s3.
Proof.
  intros [I1 C1 K1 Y1 Cl1] [I2 C2 K2 Y2 Cl2]. split; try congruence.
  - by rewrite final_ks_app, K2, K1.
  - rewrite Y2, Y1, <- app_assoc. unfold readied. by rewrite bind_app.
  - intros i c3 Hne E3. destruct (Cl2 _ _ Hne E3) as (c2 & E2 & Hk2 & Ht2). destruct (Cl1 _ _ Hne E2) as (c1 & E1 & Hk1 & Ht1).
    exists c1. split; [done|]. split; [by eapply kept_trans|]. intros dk Ht Hin. rewrite touched_app in Ht. apply orb_true_iff in Ht as [Ht|Ht].
    + apply (k_cas _ _ Hk2). by apply (Ht1 dk).
    + rewrite <- K1 in Ht. apply (Ht2 dk Ht). by rewrite (k_watched _ _ Hk1).
Qed.

(** A change of one client, and of the index with it. *)
Lemma stepped_own id s s' c' : index_ok s' -> cfg s' = cfg s -> keyspace s' = keyspace s -> ready_keys s' = ready_keys s ->
  clients s' = <[id := c']> (clients s) -> stepped id [] s s'.
Proof.
  intros Hix Hc Hk Hr Hcl. split; try done; [by rewrite Hr, app_nil_r|]. intros i c Hne E. rewrite Hcl, lookup_insert_ne in E by done.
  exists c. split; [done|]. split; [apply kept_refl|]. intros dk Ht. discriminate Ht.
Qed.

Lemma handle_monitor_ok s id c : index_ok s -> clients s !! id = Some c -> exists s', handle_monitor s id = Some s' /\ index_ok s' /\
  clients s' = clients s /\ rest s' = rest s.
Proof.
  intros Hix Ec. unfold handle_monitor. rewrite Ec. mrun. eexists. split; [done|].
  destruct (has_monitors (cfg s) && negb (loading (cfg s))); [|done]. split; [|done].
  apply (calm_index s); [by apply calm_frame|done].
Qed.

(** An EXEC that is refused: the reply, then the transaction is gone. *)
Lemma exec_refused s id c r : index_ok s -> clients s !! id = Some c -> exists s',
  (s ← upd s id (addReply r); s ← discardTransaction s id; handle_monitor s id) = Some s' /\ index_ok s' /\
  clients s' = <[id := discarded (addReply r c)]> (clients s) /\ rest s' = rest s.
Proof.
  intros Hix Ec. rewrite (upd_eq _ _ _ _ Ec). mrun. set (s1 := set_clients s _).
  assert (C1 : calm s s1) by (eapply calm_insert; [exact Ec|auto with kept]).
  assert (E1 : clients s1 !! id = Some (addReply r c)) by apply lookup_insert_eq.
  destruct (discardTransaction_ok s1 id _ (calm_index _ _ C1 Hix) E1) as (s2 & E2 & Hix2 & Hc2 & Hr2). rewrite E2. mrun.
  destruct (handle_monitor_ok s2 id (discarded (addReply r c)) Hix2) as (s3 & E3 & Hix3 & Hc3 & Hr3); [rewrite Hc2; apply lookup_insert_eq|].
  exists s3. split; [done|]. split; [done|]. split; [|by rewrite Hr3, Hr2].
  rewrite Hc3, Hc2. cbn [s1 clients set_clients]. apply insert_insert_eq.
Qed.

(** EXEC must not run the queue: it was refused while queueing, a watched key
    changed, or the instance is a read-only replica by now. *)
Definition exec_denied s (c : client) : bool :=
  negb (loading (cfg s)) && masterhost s && repl_slave_ro (cfg s) && negb (has (flags c) CLIENT_MASTER) && has (cmd_flags c) CMD_WRITE.

Lemma exec_propagated_frame was must s : clients (exec_propagated was must s) = clients s /\ watchers (exec_propagated was must s) = watchers s /\
  cfg (exec_propagated was must s) = cfg s /\ keyspace (exec_propagated was must s) = keyspace s /\ ready_keys (exec_propagated was must s) = ready_keys s /\
  also_propagate (exec_propagated was must s) = also_propagate s /\ masterhost (exec_propagated was must s) = masterhost s /\
  dirty (exec_propagated was must s) = dirty s + (if must then 1 else 0) /\
  (masterhost s = false -> repl_log (exec_propagated was must s) = repl_log s).
Proof.
  unfold exec_propagated. destruct must; [|rewrite Z.add_0_r; done]. cbn [set_dirty repl_backlog masterhost].
  destruct (repl_backlog s && was && masterhost s) eqn:E; repeat (split; [done|]); try done.
  intros Hm. rewrite Hm, andb_false_r in E. done.
Qed.

Definition finished (c' : client) : Prop :=
  commands c' = [] /\ cmd_flags c' = 0 /\ watched_keys c' = [] /\
  has (flags c') CLIENT_MULTI = false /\ has (flags c') CLIENT_DIRTY_CAS = false /\ has (flags c') CLIENT_DIRTY_EXEC = false.

Lemma discarded_finished c : finished (discarded c) /\ has (flags (discarded c)) CLIENT_LUA = has (flags c) CLIENT_LUA.
Proof. unfold finished, discarded. flag_simpl. done. Qed.

Lemma exec_performed n s id c : index_ok s -> clients s !! id = Some c -> Forall (fun mc => queueable (mc_cmd mc) = true) (commands c) ->
  has (flags c) CLIENT_LUA = false -> has (flags c) CLIENT_MULTI = true -> has (flags c) CLIENT_DIRTY_CAS = false -> has (flags c) CLIENT_DIRTY_EXEC = false ->
  exec_denied s c = false ->
  let r := apply_all id (commands c) (keyspace s) (db c) in
  exists s' c', execCommand (call (S n)) s id = Some s' /\ clients s' !! id = Some c' /\ stepped id r.1 s s' /\ finished c' /\
    has (flags c') CLIENT_LUA = false /\ Z.land (flags c') replication_flags = Z.land (flags c) replication_flags /\ replies c' = replies c ++ mbulklen (zlen (commands c)) :: r.2 /\ argv c' = argv c /\ cmd c' = cmd c /\
    also_propagate s' = also_propagate s /\
    (masterhost s = false -> loading (cfg s) = false -> EReplicaOf true ∉ r.1 -> Forall counting r.1 ->
       repl_log s' = repl_log s ++ block_stream id (commands c) (keyspace s) (db c) false /\ masterhost s' = false /\ db c' = final_db r.1 (db c)) /\
    (existsb marks (commands c) = true -> Forall counting r.1 -> dirty s < dirty s').
Proof.
  intros Hix Ec Hq Hl Hm Hd1 Hd2 Hro r. unfold execCommand. rewrite Ec. mrun. rewrite Hm. cbn [negb]. rewrite has_lor, Hd1, Hd2. cbn [orb].
  fold (exec_denied s c). rewrite Hro.
  destruct (unwatchAllKeys_ok s id c Hix Ec) as (w & Eu & _ & Hix1). rewrite Eu. mrun. set (s1 := set_clients _ _) in *.
  assert (E1 : clients s1 !! id = Some (set_watched c [])) by apply lookup_insert_eq. rewrite (upd_eq _ _ _ _ E1). mrun.
  set (c2 := addReply (mbulklen (zlen (commands c))) (set_watched c [])). set (s2 := set_clients s1 (<[id := c2]> (clients s1))).
  assert (C2 : calm s1 s2) by (eapply calm_insert; [exact E1|unfold c2; auto with kept]).
  assert (E2 : clients s2 !! id = Some c2) by apply lookup_insert_eq.
  assert (Hix2 : index_ok s2) by (by eapply calm_index).
  assert (T2 : stepped id [] s s2).
  { apply stepped_own with c2; try done. cbn [s2 s1 clients set_clients]. apply insert_insert_eq. }
  destruct (exec_loop_served n id (commands c) (S (length (commands c))) 0 false s2 c2) as (s3 & E3 & S3 & A3 & FL3 & L3); try done; [lia|].
  cbn [orb] in E3. rewrite E3. mrun.
  destruct (sv_own _ _ _ _ _ S3 _ E2) as (c3 & Ec3 & W3 & D3 & P3 & _). rewrite (upd_eq _ _ _ _ Ec3). mrun.
  set (s4 := set_clients s3 _). assert (C4 : calm s3 s4) by (eapply calm_insert; [exact Ec3|auto with kept]).
  assert (E4 : clients s4 !! id = Some (set_args c3 (argv c) (cmd c))) by apply lookup_insert_eq.
  assert (Hix4 : index_ok s4) by (eapply calm_index; [done|apply (sv_index _ _ _ _ _ S3)]).
  destruct (discardTransaction_ok s4 id _ Hix4 E4) as (s5 & E5 & Hix5 & Hc5 & Hr5). rewrite E5. mrun. apply rest_inv in Hr5 as (R1 & R2 & R3 & R4 & R5 & R6 & R7 & R8).
  set (c5 := discarded (set_args c3 (argv c) (cmd c))) in *.
  destruct (exec_propagated_frame (negb (masterhost s)) (existsb marks (commands c)) s5) as (F1 & F2 & F3 & F4 & F5 & F6 & F7 & F8 & F9).
  set (s6 := exec_propagated _ _ s5) in *. assert (C6 : calm s5 s6) by (by apply calm_frame).
  assert (E6 : clients s6 !! id = Some c5) by (rewrite F1, Hc5; apply lookup_insert_eq).
  destruct (handle_monitor_ok s6 id c5 (calm_index _ _ C6 Hix5) E6) as (s7 & E7 & Hix7 & Hc7 & Hr7). apply rest_inv in Hr7 as (G1 & G2 & G3 & G4 & G5 & G6 & G7 & G8).
  exists s7, c5. split; [done|]. split; [by rewrite Hc7|]. destruct (discarded_finished (set_args c3 (argv c) (cmd c))) as [Hfin Hlua].
  split; [|split; [done|split; [|split; [|split; [|split; [done|split; [done|split; [|split]]]]]]]].
  - rewrite <- (app_nil_l r.1), <- (app_nil_r ([] ++ r.1)). eapply stepped_trans; [eapply stepped_trans; [exact T2|]|].
    + apply (served_stepped _ _ _ _ _ S3).
    + apply stepped_own with c5; [done|cbn in *; congruence..|]. rewrite Hc7, F1, Hc5. cbn [s4 clients set_clients]. apply insert_insert_eq.
  - unfold c5. rewrite Hlua. cbn [flags set_args]. by rewrite (o_lua _ _ W3).
  - change (flags c) with (flags c2). rewrite <- (FL3 _ Ec3). apply Z.bits_inj'. intros i Hi.
    cbn [c5 discarded flags set_watched off set_cflags initClientMultiState set_mstate set_args]. rewrite !Z.land_spec, Z.lnot_spec by lia.
    assert (Hz : Z.land replication_flags (Z.lor CLIENT_MULTI (Z.lor CLIENT_DIRTY_CAS CLIENT_DIRTY_EXEC)) = 0) by reflexivity.
    apply (f_equal (fun x => Z.testbit x i)) in Hz. rewrite Z.land_spec, Z.bits_0 in Hz.
    destruct (Z.testbit replication_flags i); [|by rewrite !andb_false_r]. cbn [andb] in Hz. rewrite Hz. by rewrite !andb_true_r.
  - cbn [c5 discarded replies set_watched off set_cflags initClientMultiState set_mstate set_args]. rewrite P3. cbn [c2 replies addReply set_replies set_watched].
    by rewrite <- app_assoc.
  - cbn in *. congruence.
  - intros Hma Hlo Hn Hcnt. assert (Hm3 : masterhost s3 = false) by (apply (sv_master _ _ _ _ _ S3); done).
    split; [|split; [cbn in *; congruence|exact D3]]. rewrite G5, F9, R5 by (cbn in *; congruence). by apply L3.
  - intros Hex Hcnt. pose proof (sv_dirty _ _ _ _ _ S3 Hcnt) as Hdd. rewrite G7, F8, Hex, R7. cbn in *. lia.
Qed.

(** ** A command as a step of the whole server *)

(** The flags of the commands in a queue. *)
Definition flags_of (q : list multiCmd) : Z := foldl (fun f mc => Z.lor f (cflags (mc_cmd mc))) 0 q.

Record client_ok (c : client) : Prop := mkClientOk {
  ok_queue : Forall (fun mc => queueable (mc_cmd mc) = true) (commands c);
  ok_flags : cmd_flags c = flags_of (commands c);
  ok_multi : has (flags c) CLIENT_MULTI = false -> commands c = [];
  ok_lua : has (flags c) CLIENT_LUA = false
}.

Lemma kept_client_ok c c' : kept c c' -> client_ok c -> client_ok c'.
Proof. intros [E1 E2 E3 E4 E5 E6 E7] []. split; rewrite ?E1, ?E2, ?E4, ?E6; done. Qed.

(** A client either watches nothing any more, or still watches what it did and
    has been told about the keys that were touched. *)
Definition guarded (k : K) (es : list (effect K)) (c c' : client) : Prop :=
  watched_keys c' = [] \/
  (forall dk, dk ∈ watched_keys c -> dk ∈ watched_keys c') /\
  (has (flags c) CLIENT_DIRTY_CAS = true -> has (flags c') CLIENT_DIRTY_CAS = true) /\
  forall dk, touched k es dk = true -> dk ∈ watched_keys c -> has (flags c') CLIENT_DIRTY_CAS = true.

Record commanded (es : list (effect K)) s s' : Prop := mkCommanded {
  cm_index : index_ok s';
  cm_cfg : cfg s' = cfg s;
  cm_keyspace : keyspace s' = final_ks es (keyspace s);
  cm_ready : ready_keys s' = ready_keys s ++ readied es;
  cm_clients : forall i c', clients s' !! i = Some c' -> exists c, clients s !! i = Some c /\ (client_ok c -> client_ok c') /\ guarded (keyspace s) es c c'
}.

Lemma kept_guarded k es c c' : kept c c' -> (forall dk, touched k es dk = true -> dk ∈ watched_keys c -> has (flags c') CLIENT_DIRTY_CAS = true) ->
  guarded k es c c'.
Proof. intros Hk Ht. right. split; [|split; [apply (k_cas _ _ Hk)|done]]. intros dk. by rewrite (k_watched _ _ Hk). Qed.

Lemma ran_commanded id es s s' : ran id es s s' -> commanded es s s'.
Proof.
  intros R. split; try apply R. intros i c' E. destruct (r_clients _ _ _ _ R _ _ E) as (c & Ec & Hk & Ht). exists c. split; [done|].
  split; [by apply kept_client_ok|by apply kept_guarded].
Qed.

Lemma commanded_ran id es1 es2 s1 s2 s3 : commanded es1 s1 s2 -> ran id es2 s2 s3 -> commanded (es1 ++ es2) s1 s3.
Proof.
  intros [I1 C1 K1 Y1 Cl1] R2. split.
  - apply (r_index _ _ _ _ R2).
  - rewrite (r_cfg _ _ _ _ R2). done.
  - by rewrite (r_keyspace _ _ _ _ R2), K1, final_ks_app.
  - rewrite (r_ready _ _ _ _ R2), Y1, <- app_assoc. unfold readied. by rewrite bind_app.
  - intros i c3 E3. destruct (r_clients _ _ _ _ R2 _ _ E3) as (c2 & E2 & Hk & Ht). destruct (Cl1 _ _ E2) as (c1 & E1 & Hok & G1).
    exists c1. split; [done|]. split; [intros; eapply kept_client_ok; eauto|]. unfold guarded. rewrite (k_watched _ _ Hk).
    destruct G1 as [G1|(G1 & G2 & G3)]; [by left|]. right. split; [done|]. split; [intros; by apply (k_cas _ _ Hk), G2|].
    intros dk. rewrite touched_app. intros [Ht1|Ht2]%orb_true_iff Hin; [by eapply (k_cas _ _ Hk), G3|]. apply (Ht dk); [by rewrite K1|by apply G1].
Qed.

Lemma ran_then_commanded id es1 es2 s1 s2 s3 : ran id es1 s1 s2 -> commanded es2 s2 s3 -> commanded (es1 ++ es2) s1 s3.
Proof.
  intros R1 [I2 C2 K2 Y2 Cl2]. pose proof (r_keyspace _ _ _ _ R1) as K1. split.
  - done.
  - rewrite C2. apply (r_cfg _ _ _ _ R1).
  - by rewrite K2, K1, final_ks_app.
  - rewrite Y2, (r_ready _ _ _ _ R1), <- app_assoc. unfold readied. by rewrite bind_app.
  - intros i c3 E3. destruct (Cl2 _ _ E3) as (c2 & E2 & Hok & G2). destruct (r_clients _ _ _ _ R1 _ _ E2) as (c1 & E1 & Hk & Ht).
    exists c1. split; [done|]. split; [intros; apply Hok; eapply kept_client_ok; eauto|].
    destruct G2 as [G2|(G1 & G2 & G3)]; [by left|]. right. rewrite (k_watched _ _ Hk) in *. split; [done|]. split; [intros; by apply G2, (k_cas _ _ Hk)|].
    intros dk. rewrite touched_app. intros [Ht1|Ht2]%orb_true_iff Hin; [by eapply G2, Ht|]. apply (G3 dk); [by rewrite K1|done].
Qed.

(** A command that changes only its own client. *)
Lemma commanded_own s s' id c c' : clients s !! id = Some c -> index_ok s' -> cfg s' = cfg s -> keyspace s' = keyspace s -> ready_keys s' = ready_keys s ->
  clients s' = <[id := c']> (clients s) -> (client_ok c -> client_ok c') -> guarded (keyspace s) [] c c' -> commanded [] s s'.
Proof.
  intros Ec Hix Hc Hk Hr Hcl Hok Hg. split; try done; [by rewrite Hr, app_nil_r|]. intros i ci E. rewrite Hcl in E.
  apply lookup_insert_Some in E as [[<- <-]|[Hne E]]; [by exists c|]. exists ci. split; [done|]. split; [done|]. apply kept_guarded; [apply kept_refl|done].
Qed.

Lemma commanded_upd s id c c' : index_ok s -> clients s !! id = Some c -> watched_keys c' = watched_keys c ->
  has (flags c') CLIENT_DIRTY_CAS = has (flags c) CLIENT_DIRTY_CAS -> (client_ok c -> client_ok c') ->
  commanded [] s (set_clients s (<[id := c']> (clients s))).
Proof.
  intros Hix Ec Hw Hf Hok. apply commanded_own with id c c'; try done; [by eapply index_upd|]. right. rewrite Hw, Hf. done.
Qed.

Lemma stepped_commanded id es s s' c c' : stepped id es s s' -> clients s !! id = Some c -> clients s' !! id = Some c' ->
  (client_ok c -> client_ok c') -> guarded (keyspace s) es c c' -> commanded es s s'.
Proof.
  intros [I1 C1 K1 Y1 Cl1] Ec Ec' Hok Hg. split; try done. intros i ci E. destruct (decide (i = id)) as [->|Hne].
  - rewrite Ec' in E. injection E as <-. by exists c.
  - destruct (Cl1 _ _ Hne E) as (c0 & E0 & Hk & Ht). exists c0. split; [done|]. split; [by apply kept_client_ok|by apply kept_guarded].
Qed.

Lemma finished_ok c : finished c -> has (flags c) CLIENT_LUA = false -> client_ok c.
Proof. intros (F1 & F2 & _) Hl. split; rewrite ?F1; done. Qed.

Lemma lawful_nil (k : K) : lawful k [].
Proof. intros dk _ _. split; [done|apply not_elem_of_nil]. Qed.

Lemma lawful_app (k : K) es1 es2 : lawful k es1 -> lawful (final_ks es1 k) es2 -> lawful k (es1 ++ es2).
Proof.
  intros L1 L2 dk Hst. rewrite touched_app, orb_false_iff. intros [H1 H2]. destruct (L1 dk Hst H1) as [E1 N1]. rewrite final_ks_app.
  destruct (L2 dk) as [E2 N2]; [by rewrite E1|done|]. split; [congruence|]. unfold readied. rewrite bind_app, elem_of_app. unfold readied in *. tauto.
Qed.

Lemma apply_all_lawful `{!SignalLaws K} id q : forall k d, lawful k (apply_all id q k d).1.
Proof.
  induction q as [|mc q IH]; intros k d; cbn [apply_all fst]; [apply lawful_nil|]. apply lawful_app; [|apply IH].
  unfold effects_of. destruct (proc (mc_cmd mc)); first [apply body_signals|apply lawful_nil].
Qed.

(** *** WATCH *)

Lemma watchForKey_ok s id k c : index_ok s -> clients s !! id = Some c -> exists s' l, watchForKey s id k = Some s' /\ index_ok s' /\
  clients s' = <[id := set_watched c (watched_keys c ++ l)]> (clients s) /\ rest s' = rest s.
Proof.
  intros Hix Ec. unfold watchForKey. rewrite Ec. mrun. destruct (bool_decide ((db c, k) ∈ watched_keys c)) eqn:Eb.
  - exists s, []. split; [done|]. split; [done|]. split; [|done]. rewrite app_nil_r, insert_id; [done|]. rewrite Ec. by destruct c.
  - apply bool_decide_eq_false in Eb. rewrite (upd_eq _ _ _ c) by done. set (dk := (db c, k)) in *. eexists _, [dk]. split; [done|]. split; [|done].
    destruct Hix as [I1 I2 I3 I4]. set (l0 := default [] (watchers s !! dk)).
    assert (Hl0 : NoDup (l0 ++ [id])).
    { apply NoDup_app. split; [unfold l0; destruct (watchers s !! dk) eqn:E; [by apply (I3 dk)|constructor]|]. split; [|apply NoDup_singleton].
      intros i Hi [= ->]%list_elem_of_singleton. unfold l0 in Hi. destruct (watchers s !! dk) eqn:E; [|inversion Hi].
      destruct (I2 _ _ _ E Hi) as (c' & Ec' & Hin). naive_solver. }
    split; cbn [clients watchers set_clients set_watchers].
    + intros i c' dk' E Hin. apply lookup_insert_Some in E as [[<- <-]|[Hne E]].
      * cbn [watched_keys set_watched] in Hin. apply elem_of_app in Hin as [Hin|[= ->]%list_elem_of_singleton].
        -- destruct (I1 _ _ _ Ec Hin) as (l & El & Hi). rewrite lookup_insert_ne by naive_solver. eauto.
        -- rewrite lookup_insert_eq. eexists. split; [done|]. apply elem_of_app. right. left.
      * destruct (I1 _ _ _ E Hin) as (l & El & Hi). destruct (decide (dk' = dk)) as [->|Hd].
        -- rewrite lookup_insert_eq. eexists. split; [done|]. apply elem_of_app. left. unfold l0. by rewrite El.
        -- rewrite lookup_insert_ne by done. eauto.
    + intros dk' l i E Hin. apply lookup_insert_Some in E as [[<- <-]|[Hne E]].
      * apply elem_of_app in Hin as [Hin|[= ->]%list_elem_of_singleton].
        -- unfold l0 in Hin. destruct (watchers s !! dk) as [l1|] eqn:El1; [|inversion Hin]. destruct (I2 _ _ _ El1 Hin) as (c' & Ec' & Hk).
           rewrite lookup_insert_ne by naive_solver. eauto.
        -- rewrite lookup_insert_eq. eexists. split; [done|]. cbn [watched_keys set_watched]. apply elem_of_app. right. left.
      * destruct (I2 _ _ _ E Hin) as (c' & Ec' & Hk). destruct (decide (id = i)) as [<-|Hi].
        -- rewrite lookup_insert_eq. eexists. split; [done|]. cbn [watched_keys set_watched]. apply elem_of_app. left. naive_solver.
        -- rewrite lookup_insert_ne by done. eauto.
    + intros dk' l E. apply lookup_insert_Some in E as [[<- <-]|[Hne E]]; [|by eapply I3]. split; [done|by destruct l0].
    + intros i c' E. apply lookup_insert_Some in E as [[<- <-]|[Hne E]]; [|by eapply I4]. cbn [watched_keys set_watched].
      apply NoDup_app. split; [by eapply I4|]. split; [|apply NoDup_singleton]. by intros x Hx [= ->]%list_elem_of_singleton.
Qed.

Lemma watch_loop_ok id ks : forall s c, index_ok s -> clients s !! id = Some c -> exists s' l, watch_loop s id ks = Some s' /\ index_ok s' /\
  clients s' = <[id := set_watched c (watched_keys c ++ l)]> (clients s) /\ rest s' = rest s.
Proof.
  induction ks as [|k ks IH]; intros s c Hix Ec; cbn [watch_loop].
  - exists s, []. split; [done|]. split; [done|]. split; [|done]. rewrite app_nil_r, insert_id; [done|]. rewrite Ec. by destruct c.
  - destruct (watchForKey_ok s id k c Hix Ec) as (s1 & l1 & E1 & Hix1 & Hc1 & Hr1). rewrite E1. mrun.
    destruct (IH s1 (set_watched c (watched_keys c ++ l1)) Hix1) as (s2 & l2 & E2 & Hix2 & Hc2 & Hr2); [rewrite Hc1; apply lookup_insert_eq|].
    exists s2, (l1 ++ l2). split; [done|]. split; [done|]. split; [|by rewrite Hr2, Hr1]. rewrite Hc2, Hc1, insert_insert_eq.
    cbn [watched_keys set_watched]. by rewrite <- app_assoc.
Qed.

(** *** Each command *)

(** The result of a handler: a step of the server that leaves the client in place. *)
Definition handled (s : server K) (id : Z) (m : redisCommand) (r : option (server K)) : Prop :=
  exists s' c' es, r = Some s' /\ commanded es s s' /\ clients s' !! id = Some c' /\ cmd c' = Some m /\ (SignalLaws K -> lawful (keyspace s) es).

Lemma handled_upd s id c c' m : index_ok s -> clients s !! id = Some c -> cmd c' = Some m -> watched_keys c' = watched_keys c ->
  has (flags c') CLIENT_DIRTY_CAS = has (flags c) CLIENT_DIRTY_CAS -> (client_ok c -> client_ok c') ->
  handled s id m (Some (set_clients s (<[id := c']> (clients s)))).
Proof.
  intros Hix Ec Em Hw Hf Hok. eexists _, c', []. split; [done|]. split; [by eapply commanded_upd|]. split; [apply lookup_insert_eq|].
  split; [done|]. intros _. apply lawful_nil.
Qed.

Lemma client_ok_reply r c : client_ok c -> client_ok (addReply r c).
Proof. apply kept_client_ok. auto with kept. Qed.

Lemma multiCommand_handled s id c m : index_ok s -> clients s !! id = Some c -> cmd c = Some m -> handled s id m (multiCommand s id).
Proof.
  intros Hix Ec Em. unfold multiCommand. rewrite Ec. mrun. rewrite !(upd_eq _ _ _ _ Ec).
  destruct (has (flags c) CLIENT_MULTI) eqn:E; apply handled_upd with c; try done; [apply client_ok_reply|flag_simpl; done|].
  intros [O1 O2 O3 O4]. split; try done; flag_simpl; done.
Qed.

Lemma discardCommand_handled s id c m : index_ok s -> clients s !! id = Some c -> cmd c = Some m -> handled s id m (discardCommand s id).
Proof.
  intros Hix Ec Em. unfold discardCommand. rewrite Ec. mrun. rewrite !(upd_eq _ _ _ _ Ec).
  destruct (has (flags c) CLIENT_MULTI) eqn:E; cbn [negb]; [|apply handled_upd with c; try done; apply client_ok_reply].
  destruct (discardTransaction_ok s id c Hix Ec) as (s1 & E1 & Hix1 & Hc1 & Hr1). rewrite E1. mrun.
  assert (Ec1 : clients s1 !! id = Some (discarded c)) by (rewrite Hc1; apply lookup_insert_eq). rewrite (upd_eq _ _ _ _ Ec1).
  apply rest_inv in Hr1 as (R1 & R2 & R3 & _). eexists _, (addReply ok (discarded c)), []. split; [done|]. split; [|split; [apply lookup_insert_eq|]].
  - apply commanded_own with id c (addReply ok (discarded c)); try done; cbn [clients set_clients].
    + by eapply index_upd.
    + rewrite Hc1. apply insert_insert_eq.
    + intros [_ _ _ Hl]. destruct (discarded_finished c) as [F1 F2]. apply client_ok_reply, finished_ok; [done|congruence].
    + by left.
  - split; [done|]. intros _. apply lawful_nil.
Qed.

Lemma watchCommand_handled s id c m : index_ok s -> clients s !! id = Some c -> cmd c = Some m -> handled s id m (watchCommand s id).
Proof.
  intros Hix Ec Em. unfold watchCommand. rewrite Ec. mrun. rewrite !(upd_eq _ _ _ _ Ec).
  destruct (has (flags c) CLIENT_MULTI) eqn:E; [apply handled_upd with c; try done; apply client_ok_reply|].
  destruct (watch_loop_ok id (tail (argv c)) s c Hix Ec) as (s1 & l & E1 & Hix1 & Hc1 & Hr1). rewrite E1. mrun.
  set (c1 := set_watched c (watched_keys c ++ l)) in *.
  assert (Ec1 : clients s1 !! id = Some c1) by (rewrite Hc1; apply lookup_insert_eq). rewrite (upd_eq _ _ _ _ Ec1).
  apply rest_inv in Hr1 as (R1 & R2 & R3 & _). eexists _, (addReply ok c1), []. split; [done|]. split; [|split; [apply lookup_insert_eq|]].
  - apply commanded_own with id c (addReply ok c1); try done; cbn [clients set_clients].
    + by eapply index_upd.
    + rewrite Hc1. apply insert_insert_eq.
    + intros []. by split.
    + right. cbn [c1 addReply set_replies watched_keys set_watched flags]. split; [|done]. intros dk Hin. apply elem_of_app. by left.
  - split; [done|]. intros _. apply lawful_nil.
Qed.

Lemma execCommand_handled n s id c m : index_ok s -> clients s !! id = Some c -> cmd c = Some m -> client_ok c ->
  handled s id m (execCommand (call (S n)) s id).
Proof.
  intros Hix Ec Em Hok. pose proof Hok as [O1 O2 O3 O4]. destruct (has (flags c) CLIENT_MULTI) eqn:Em1.
  - assert (Hrefuse : forall r s', clients s' = <[id := discarded (addReply r c)]> (clients s) -> index_ok s' -> rest s' = rest s -> handled s id m (Some s')).
    { intros r s' Hc1 Hix1 Hr1. apply rest_inv in Hr1 as (R1 & R2 & R3 & _). eexists _, (discarded (addReply r c)), []. split; [done|].
      split; [|split; [rewrite Hc1; apply lookup_insert_eq|split; [done|intros _; apply lawful_nil]]].
      apply commanded_own with id c (discarded (addReply r c)); try done; [|by left]. intros _.
      destruct (discarded_finished (addReply r c)) as [F1 F2]. by apply finished_ok; [|rewrite F2]. }
    destruct (has (flags c) (Z.lor CLIENT_DIRTY_CAS CLIENT_DIRTY_EXEC)) eqn:Ed.
    + unfold execCommand. rewrite Ec. mrun. rewrite Em1, Ed. cbn [negb].
      destruct (exec_refused s id c (if has (flags c) CLIENT_DIRTY_EXEC then err execaborterr else nullmultibulk) Hix Ec) as (s' & E' & H1 & H2 & H3).
      rewrite E'. by eapply Hrefuse.
    + destruct (exec_denied s c) eqn:Er.
      * unfold execCommand. rewrite Ec. mrun. rewrite Em1, Ed. cbn [negb]. fold (exec_denied s c). rewrite Er.
        destruct (exec_refused s id c (err exec_readonly_slave) Hix Ec) as (s' & E' & H1 & H2 & H3). rewrite E'. by eapply Hrefuse.
      * rewrite has_lor in Ed. apply orb_false_iff in Ed as [Ed1 Ed2].
        destruct (exec_performed n s id c Hix Ec O1 O4 Em1 Ed1 Ed2 Er) as (s' & c' & E' & Ec' & S' & F' & L' & _ & _ & _ & Em' & _).
        eexists s', c', _. split; [done|]. split; [|split; [done|split; [congruence|intros ?; apply apply_all_lawful]]].
        eapply stepped_commanded; try done; [by intros; apply finished_ok|]. left. apply F'.
  - unfold execCommand. rewrite Ec. mrun. rewrite Em1. cbn [negb]. rewrite (upd_eq _ _ _ _ Ec). apply handled_upd with c; try done. apply client_ok_reply.
Qed.

Lemma ran_client id s s' c : ran id [] s s' -> clients s !! id = Some c -> exists c', clients s' !! id = Some c' /\ kept c c'.
Proof.
  intros R Ec. destruct (r_alive _ _ _ _ R id) as [c' Ec']; [by exists c|apply not_elem_of_nil|]. exists c'. split; [done|].
  destruct (r_clients _ _ _ _ R _ _ Ec') as (c0 & E0 & Hk & _). naive_solver.
Qed.

Lemma call_top n s id callf c m : index_ok s -> clients s !! id = Some c -> cmd c = Some m -> client_ok c ->
  exists s' es, call (S (S n)) s id callf = Some s' /\ commanded es s s' /\ alive id s' /\ (SignalLaws K -> lawful (keyspace s) es).
Proof.
  intros Hix Ec Em Hok. pose proof (ok_lua _ Hok) as Hl. destruct (queueable m) eqn:Eq.
  - destruct (call_served (S n) s id callf c m Hix Ec Em Hl Eq) as (s' & E' & S' & _ & R' & _ & Q').
    destruct (sv_own _ _ _ _ _ S' _ Ec) as (c' & Ec' & W' & _). exists s', (effects_of m (keyspace s) id (db c) (has (flags c) CLIENT_MULTI) (argv c)).
    split; [done|]. split; [|split; [by exists c'|]].
    + destruct (decide (proc m = UNWATCH)) as [Eu|Hnu]; [|by eapply ran_commanded, R'].
      eapply stepped_commanded; [by eapply served_stepped|done|done|..].
      * intros [O1 O2 O3 O4]. destruct (Q' _ Ec') as (Q1 & Q2 & _). split; rewrite ?Q1, ?Q2, ?(o_lua _ _ W'), ?(o_multi _ _ W'); done.
      * left. by apply (Q' _ Ec').
    + intros HS. unfold effects_of. destruct (proc m); first [apply body_signals|apply lawful_nil].
  - destruct (call_wrap (S n) s id callf c m Hix Ec Em Hl) as (s1 & R1 & Hc1 & _ & _ & _ & _ & _ & Hcall).
    assert (E1 : clients s1 !! id = Some (off replication_flags c)) by (rewrite Hc1; apply lookup_insert_eq).
    assert (Hok1 : client_ok (off replication_flags c)) by (eapply kept_client_ok; [|exact Hok]; auto with kept).
    pose proof (r_index _ _ _ _ R1) as Hix1.
    assert (Hh : handled s1 id m (run_proc (call (S n)) s1 id (proc m))).
    { unfold queueable, runs in Eq. destruct (proc m) eqn:Ep; try discriminate Eq; cbn [run_proc];
        eauto using multiCommand_handled, discardCommand_handled, watchCommand_handled, execCommand_handled. }
    destruct Hh as (s2 & c2 & es & E2 & M2 & Ec2 & Em2 & L2).
    assert (Hl2 : has (flags c2) CLIENT_LUA = false).
    { destruct (cm_clients _ _ _ M2 _ _ Ec2) as (c1 & Ec1 & Hok2 & _). rewrite E1 in Ec1. injection Ec1 as <-. by apply ok_lua, Hok2. }
    destruct (Hcall s2 c2 m E2 (cm_index _ _ _ M2) Ec2 Em2 Hl2) as (s3 & E3 & R3 & _ & _ & Hc3 & _). exists s3, es. split; [done|].
    assert (K1 : keyspace s1 = keyspace s) by apply (r_keyspace _ _ _ _ R1). rewrite <- K1. split; [|split; [|done]].
    + rewrite <- (app_nil_l es), <- (app_nil_r ([] ++ es)). eapply commanded_ran; [|exact R3]. by eapply ran_then_commanded.
    + exists (restored (flags c) c2). rewrite Hc3. apply lookup_insert_eq.
Qed.

(** *** processCommand *)

(** A command with the service of blocked clients after it. *)
Record concluded (es : list (effect K)) s s' : Prop := mkConcluded {
  cc_index : index_ok s';
  cc_cfg : cfg s' = cfg s;
  cc_keyspace : keyspace s' = final_ks es (keyspace s);
  cc_ready : ready_keys s' = [];
  cc_clients : forall i c', clients s' !! i = Some c' -> exists c, clients s !! i = Some c /\ (client_ok c -> client_ok c') /\ guarded (keyspace s) es c c'
}.

Lemma commanded_concluded es s s' : commanded es s s' -> ready_keys s' = [] -> concluded es s s'.
Proof. by intros []. Qed.

(** What [processCommand] must achieve from a given point on. *)
Definition processed s (r : option (server K * bool)) : Prop :=
  exists s' b es, r = Some (s', b) /\ concluded es s s' /\
    (SignalLaws K -> maxmemory (cfg s) = false -> forall dk, stable (lookup (keyspace s) dk) -> touched (keyspace s) es dk = false ->
      lookup (final_ks es (keyspace s)) dk = lookup (keyspace s) dk).

Definition server_ok s : Prop := index_ok s /\ (forall i c, clients s !! i = Some c -> client_ok c) /\ ready_keys s = [].

Lemma processed_upd s id c c' b : server_ok s -> clients s !! id = Some c -> watched_keys c' = watched_keys c ->
  has (flags c') CLIENT_DIRTY_CAS = has (flags c) CLIENT_DIRTY_CAS -> (client_ok c -> client_ok c') ->
  processed s (Some (set_clients s (<[id := c']> (clients s)), b)).
Proof.
  intros (Hix & _ & Hr) Ec Hw Hf Hok. eexists _, b, []. split; [done|]. split; [|done]. by eapply commanded_concluded; [eapply commanded_upd|].
Qed.

Lemma flag_ok c e flag : let c' := addReply (err e) (if (flag : bool) then flagTransaction c else c) in
  watched_keys c' = watched_keys c /\ has (flags c') CLIENT_DIRTY_CAS = has (flags c) CLIENT_DIRTY_CAS /\ (client_ok c -> client_ok c').
Proof.
  unfold flagTransaction. destruct flag, (has (flags c) CLIENT_MULTI) eqn:E; (split; [done|]); (split; [flag_simpl; done|]);
    try apply client_ok_reply. intros [O1 O2 O3 O4]. split; try done; flag_simpl; done.
Qed.

Lemma reject_processed flag s id e c : server_ok s -> clients s !! id = Some c -> processed s (reject flag s id e).
Proof.
  intros Hs Ec. unfold reject. rewrite (upd_eq _ _ _ _ Ec). mrun. destruct (flag_ok c e flag) as (H1 & H2 & H3). by eapply processed_upd.
Qed.

Lemma execute_processed s id c m : server_ok s -> clients s !! id = Some c -> cmd c = Some m -> processed s (execute s id m).
Proof.
  intros Hs Ec Em. pose proof Hs as (Hix & Hcl & Hr). unfold execute. rewrite Ec. mrun.
  destruct (has (flags c) CLIENT_MULTI && _ && _ && _ && _) eqn:Eq.
  - unfold queueMultiCommand. rewrite Em. mrun. rewrite (upd_eq _ _ _ _ Ec). mrun. eapply processed_upd; try done. intros [O1 O2 O3 O4].
    apply andb_true_iff in Eq as [[[[Eq E1]%andb_true_iff E2]%andb_true_iff E3]%andb_true_iff E4].
    split; cbn [commands cmd_flags flags addReply set_replies set_mstate].
    + apply Forall_app. split; [done|]. constructor; [|done]. cbn. unfold queueable. by rewrite E1, E2, E3, E4.
    + unfold flags_of in *. by rewrite O2, foldl_app.
    + congruence.
    + done.
  - destruct (call_top 0 s id CMD_CALL_FULL c m Hix Ec Em (Hcl _ _ Ec)) as (s1 & es & E1 & M1 & _ & L1). unfold call_depth. rewrite E1. mrun.
    pose proof (cm_ready _ _ _ M1) as Hr1. rewrite Hr in Hr1. cbn in Hr1. pose proof (cm_keyspace _ _ _ M1) as K1.
    destruct (zlen (ready_keys s1) =? 0) eqn:Ez; cbn [negb]; mrun.
    + eexists _, _, es. split; [done|]. split; [|intros HS _ dk Hst Ht; by apply (L1 HS dk)]. apply commanded_concluded; [done|].
      destruct (ready_keys s1) as [|x l]; [done|]. rewrite zlen_cons in Ez. pose proof (zlen_nonneg l). zbool. lia.
    + destruct (do_effects_passive id (serve_blocked s1) s1 (cm_index _ _ _ M1) (serve_passive s1)) as (s2 & E2 & R2). rewrite E2. mrun.
      eexists _, _, (es ++ serve_blocked s1). split; [done|]. pose proof (commanded_ran _ _ _ _ _ _ M1 R2) as [I3 C3 K3 Y3 Cl3].
      split; [split; try done; [by eapply calm_index; [|exact I3]; apply calm_frame]|].
      intros HS _ dk Hst Ht. rewrite touched_app, orb_false_iff in Ht. destruct Ht as [Ht1 Ht2]. destruct (L1 HS dk Hst Ht1) as [Hk1 Hn1].
      rewrite final_ks_app, <- K1, serve_signals; rewrite ?K1; try done; [by rewrite Hk1|by rewrite Hr1].
Qed.

(** Frames for the steps before the command is run. *)
Lemma processed_ran id s s1 r : ran id [] s s1 -> processed s1 r -> processed s r.
Proof.
  intros R (s' & b & es & -> & [I1 C1 K1 Y1 Cl1] & L). pose proof (r_keyspace _ _ _ _ R) as K0. cbn in K0. pose proof (r_cfg _ _ _ _ R) as C0.
  exists s', b, es. split; [done|]. split; [|intros HS Hm; rewrite <- K0, <- C0 in *; by apply L]. split; try congruence.
  intros i c' E. destruct (Cl1 _ _ E) as (c1 & E1 & Hok & G). destruct (r_clients _ _ _ _ R _ _ E1) as (c & Ec & Hk & _). exists c. split; [done|].
  split; [intros; apply Hok; by eapply kept_client_ok|]. destruct G as [G|(G1 & G2 & G3)]; [by left|]. right. rewrite K0, (k_watched _ _ Hk) in *.
  split; [done|]. split; [intros; by apply G2, (k_cas _ _ Hk)|done].
Qed.

Lemma ran_server_ok id es s s' : ran id es s s' -> readied es = [] -> server_ok s -> server_ok s'.
Proof.
  intros R Hn (Hix & Hcl & Hr). split; [apply (r_index _ _ _ _ R)|]. split; [|by rewrite (r_ready _ _ _ _ R), Hr, Hn].
  intros i c' E. destruct (r_clients _ _ _ _ R _ _ E) as (c & Ec & Hk & _). eapply kept_client_ok; [done|by eapply Hcl].
Qed.

Lemma finish_command_processed s id c m : server_ok s -> clients s !! id = Some c -> cmd c = Some m -> processed s (finish_command s id m).
Proof.
  intros Hs Ec Em. unfold finish_command. rewrite Ec. mrun. destruct (late_guards s c m) as [[flag e]|]; [by eapply reject_processed|by eapply execute_processed].
Qed.

(** Freeing memory may change anything but transactions. *)
Lemma processed_memory id es s s1 r : ran id es s s1 -> maxmemory (cfg s) = true -> processed s1 r -> processed s r.
Proof.
  intros R Hmax (s' & b & es' & -> & [I1 C1 K1 Y1 Cl1] & L). exists s', b, (es ++ es'). split; [done|]. split; [|congruence].
  pose proof (r_keyspace _ _ _ _ R) as K0. split; try done; [rewrite C1; apply (r_cfg _ _ _ _ R)|by rewrite K1, K0, final_ks_app|].
  intros i c' E. destruct (Cl1 _ _ E) as (c1 & E1 & Hok & G). destruct (r_clients _ _ _ _ R _ _ E1) as (c & Ec & Hk & Ht). exists c. split; [done|].
  split; [intros; apply Hok; by eapply kept_client_ok|]. destruct G as [G|(G1 & G2 & G3)]; [by left|]. right. rewrite (k_watched _ _ Hk) in *.
  split; [done|]. split; [intros; by apply G2, (k_cas _ _ Hk)|]. intros dk. rewrite touched_app. intros [Ht1|Ht2]%orb_true_iff Hin; [by eapply G2, Ht|].
  apply (G3 dk); [by rewrite K0|done].
Qed.

Lemma memory_guard_processed s id c m : server_ok s -> clients s !! id = Some c -> cmd c = Some m -> processed s (memory_guard s id m).
Proof.
  intros Hs Ec Em. unfold memory_guard. destruct (maxmemory (cfg s) && negb (lua_timedout (cfg s))) eqn:Eg; [|by eapply finish_command_processed].
  apply andb_true_iff in Eg as [Emax _]. destruct (memory_passive s) as [Hp Hn]. destruct (freeMemoryIfNeeded s) as [es oom]. cbn in Hp, Hn.
  destruct (do_effects_passive id es s (proj1 Hs) Hp) as (s1 & E1 & R1). rewrite E1. mrun. pose proof (ran_server_ok _ _ _ _ R1 Hn Hs) as Hs1.
  eapply processed_memory; [exact R1|done|]. destruct (clients s1 !! id) as [c1|] eqn:Ec1.
  - destruct (oom && _); [by eapply reject_processed|].
    destruct (do_effects_cmds id es s s1 (proj1 Hs) Hp E1 id c1 Ec1) as (c0 & Ec0 & Em0). rewrite Ec in Ec0. injection Ec0 as <-.
    destruct (runs m EVAL || runs m EVALSHA); [|eapply finish_command_processed; [done..|congruence]].
    set (s2 := set_lua_oom s1 oom). assert (R2 : ran id [] s1 s2) by (by apply ran_side_frame; [apply Hs1|..]).
    eapply processed_ran; [exact R2|]. eapply finish_command_processed; [by eapply ran_server_ok|exact Ec1|congruence].
  - eexists s1, _, []. split; [done|]. split; [|done]. apply commanded_concluded; [|apply Hs1]. eapply ran_commanded, (ran_nil id). apply Hs1.
Qed.

Lemma server_ok_upd s id c c' : server_ok s -> clients s !! id = Some c -> watched_keys c' = watched_keys c -> (client_ok c -> client_ok c') ->
  server_ok (set_clients s (<[id := c']> (clients s))).
Proof.
  intros (Hix & Hcl & Hr) Ec Hw Hok. split; [by eapply index_upd|]. split; [|done]. intros i ci E. cbn [clients set_clients] in E.
  apply lookup_insert_Some in E as [[<- <-]|[Hne E]]; [by eapply Hok, Hcl|by eapply Hcl].
Qed.

(** A change of the arguments or of the command of the client. *)
Lemma processed_args s id c c' r : server_ok s -> clients s !! id = Some c -> kept c c' ->
  processed (set_clients s (<[id := c']> (clients s))) r -> processed s r.
Proof.
  intros Hs Ec Hk (s' & b & es & -> & [I1 C1 K1 Y1 Cl1] & L). exists s', b, es. split; [done|]. split; [|done]. split; try done.
  intros i ci E. destruct (Cl1 _ _ E) as (c1 & E1 & Hok & G). cbn [clients set_clients keyspace] in *.
  apply lookup_insert_Some in E1 as [[<- <-]|[Hne E1]]; [|by exists c1]. exists c. split; [done|]. split; [intros; apply Hok; by eapply kept_client_ok|].
  destruct G as [G|(G1 & G2 & G3)]; [by left|]. right. rewrite (k_watched _ _ Hk) in *. split; [done|]. split; [intros; by apply G2, (k_cas _ _ Hk)|done].
Qed.

Lemma processed_discard s id c e : server_ok s -> clients s !! id = Some c ->
  processed s (s ← discardTransaction s id; s ← upd s id (addReply (err e)); Some (s, true)).
Proof.
  intros (Hix & Hcl & Hr) Ec. destruct (discardTransaction_ok s id c Hix Ec) as (s1 & E1 & Hix1 & Hc1 & Hr1). rewrite E1. mrun.
  assert (Ec1 : clients s1 !! id = Some (discarded c)) by (rewrite Hc1; apply lookup_insert_eq). rewrite (upd_eq _ _ _ _ Ec1). mrun.
  apply rest_inv in Hr1 as (R1 & R2 & R3 & _). eexists _, _, []. split; [done|]. split; [|done]. apply commanded_concluded; [|cbn; congruence].
  apply commanded_own with id c (addReply (err e) (discarded c)); try done; cbn [clients set_clients].
  - by eapply index_upd.
  - rewrite Hc1. apply insert_insert_eq.
  - intros [_ _ _ Hl]. destruct (discarded_finished c) as [F1 F2]. apply client_ok_reply, finished_ok; [done|congruence].
  - by left.
Qed.

Lemma processCommand_processed s id c : server_ok s -> clients s !! id = Some c -> argv c <> [] -> processed s (processCommand s id).
Proof.
  intros Hs Ec Ha. unfold processCommand. rewrite Ec. mrun. rewrite (upd_eq _ _ _ _ Ec). mrun.
  assert (Hf : filters s id (argv c) <> []) by (destruct (argv c); [done|apply filters_some]).
  set (c1 := set_args c (filters s id (argv c)) (cmd c)). assert (Hk1 : kept c c1) by (unfold c1; auto with kept).
  eapply (processed_args s id c c1); [done..|]. assert (Hs1 : server_ok (set_clients s (<[id := c1]> (clients s)))).
  { eapply server_ok_upd; [done..|by apply kept_client_ok]. }
  set (s1 := set_clients s _) in *. assert (E1 : clients s1 !! id = Some c1) by apply lookup_insert_eq. rewrite E1. mrun.
  destruct (argv c1) as [|a l] eqn:Ea; [done|].
  cbn [head mbind option_bind]. destruct (strcaseeq a (cstr "quit")).
  { rewrite (upd_eq _ _ _ _ E1). mrun. eapply processed_upd; try done; [flag_simpl; done|]. apply kept_client_ok.
    eapply kept_trans; [|apply kept_on; reflexivity]. auto with kept. }
  rewrite (upd_eq _ _ _ _ E1). mrun. set (c2 := set_args c1 (argv c1) (lookupCommand a)). assert (Hk2 : kept c1 c2) by (unfold c2; auto with kept).
  eapply (processed_args s1 id c1 c2); [done..|]. assert (Hs2 : server_ok (set_clients s1 (<[id := c2]> (clients s1)))).
  { eapply server_ok_upd; [done..|by apply kept_client_ok]. }
  set (s2 := set_clients s1 _) in *. assert (E2 : clients s2 !! id = Some c2) by apply lookup_insert_eq. rewrite E2. mrun.
  destruct (lookupCommand a) as [m|] eqn:Em; [|by eapply reject_processed].
  destruct (early_guards s2 c2 m) as [e|]; [by eapply reject_processed|].
  destruct (cluster_guard s2 id c2 m) as [code|].
  - destruct (runs m EXEC); [by eapply processed_discard|]. rewrite (upd_eq _ _ _ _ E2). mrun.
    destruct (flag_ok c2 (redirected code) true) as (H1 & H2 & H3).
    rewrite (upd_eq _ _ _ (flagTransaction c2)) by apply lookup_insert_eq. mrun. cbn [clients set_clients]. rewrite insert_insert_eq.
    by apply (processed_upd s2 id c2 (addReply (err (redirected code)) (flagTransaction c2)) true).
  - by eapply memory_guard_processed.
Qed.


End Laws.

End Transactions.
