(* ===== verification/Exec.v ===== *)
(** * What MULTI, EXEC and WATCH promise (multi.c, server.c)

    The theorems about transactions, from the invariants of [Transactions], and a
    small command set that shows that their hypotheses can hold. *)

From Stdlib Require Import String Ascii.
From S2P Require Import Prelude Util Args Networking Multi Transactions.

Module Exec.
Import Util Networking Multi Transactions.

Section Promises.
Context {K : Type} `{CommandsLaws K}.
Implicit Types s : server K.

(** A server without clients. *)
Definition fresh s : Prop := clients s = ∅ /\ watchers s = ∅ /\ ready_keys s = [].

Definition reachable s : Prop := exists s0 es, fresh s0 /\ steps s0 es = Some s.

Lemma fresh_ok s : fresh s -> server_ok s.
Proof.
  intros (E1 & E2 & E3). split; [|split; [|done]].
  - split; rewrite ?E1, ?E2; intros; by rewrite lookup_empty in *.
  - intros i c. by rewrite E1, lookup_empty.
Qed.

(** What one event does to the keys that clients watch. *)
Definition told s s' : Prop :=
  forall a c c' dk, clients s !! a = Some c -> clients s' !! a = Some c' -> dk ∈ watched_keys c -> dk ∈ watched_keys c' ->
    (has (flags c) CLIENT_DIRTY_CAS = true -> has (flags c') CLIENT_DIRTY_CAS = true) /\
    (stable (lookup (keyspace s) dk) -> has (flags c') CLIENT_DIRTY_CAS = true \/ lookup (keyspace s') dk = lookup (keyspace s) dk).

Lemma concluded_told es s s' : concluded es s s' ->
  (forall dk, stable (lookup (keyspace s) dk) -> touched (keyspace s) es dk = false -> lookup (final_ks es (keyspace s)) dk = lookup (keyspace s) dk) ->
  told s s'.
Proof.
  intros [_ _ Hk _ Hcl] Hl a c c' dk Ec Ec' Hin Hin'. destruct (Hcl _ _ Ec') as (c0 & E0 & _ & G). rewrite Ec in E0. injection E0 as <-.
  destruct G as [G|(G1 & G2 & G3)]; [rewrite G in Hin'; inversion Hin'|]. split; [done|]. intros Hst.
  destruct (touched (keyspace s) es dk) eqn:Et; [left; by eapply G3|]. right. rewrite Hk. by apply Hl.
Qed.

Lemma told_frame s s' : keyspace s' = keyspace s -> (forall a c', clients s' !! a = Some c' -> clients s !! a = Some c' \/ clients s !! a = None) -> told s s'.
Proof.
  intros Hk Hcl a c c' dk Ec Ec' Hin Hin'. destruct (Hcl _ _ Ec') as [E|E]; rewrite Ec in E; [|done]. injection E as <-. rewrite Hk. auto.
Qed.

Lemma step_ok s e : server_ok s -> exists s', step s e = Some s' /\ server_ok s' /\ cfg s' = cfg s /\
  (SignalLaws K -> maxmemory (cfg s) = false -> told s s').
Proof.
  intros Hs. pose proof Hs as (Hix & Hcl & Hr). destruct e as [id master|id|id args|n]; cbn [step].
  - eexists. split; [done|]. destruct (clients s !! id) as [c|] eqn:Ec; [split; [done|split; [done|intros _ _; apply told_frame; eauto]]|].
    split; [|split; [done|]]; [split; [|split; [|done]]|].
    + destruct Hix as [I1 I2 I3 I4]. split; cbn [clients set_clients watchers]; [..|done|].
      * intros i c dk E Hin. apply lookup_insert_Some in E as [[<- <-]|[Hne E]]; [inversion Hin|by eapply I1].
      * intros dk l i E Hin. destruct (I2 _ _ _ E Hin) as (c & E' & Hk). exists c. rewrite lookup_insert_ne by congruence. done.
      * intros i c E. apply lookup_insert_Some in E as [[<- <-]|[Hne E]]; [constructor|by eapply I4].
    + intros i c E. cbn [clients set_clients] in E. apply lookup_insert_Some in E as [[<- <-]|[Hne E]]; [|by eapply Hcl].
      destruct master; by split; [constructor|..].
    + intros _ _. apply told_frame; [done|]. intros a c'. cbn [clients set_clients]. intros [[<- <-]|[Hne E]]%lookup_insert_Some; eauto.
  - destruct (clients s !! id) as [c|] eqn:Ec; [|exists s; split; [done|]; split; [done|]; split; [done|intros _ _; apply told_frame; eauto]].
    destruct (freeClient_ok s id Hix) as (s' & E' & Hix' & Hcl' & Hc' & Hk' & Hr'); [by exists c|]. exists s'. split; [done|].
    split; [|split; [done|]]; [split; [done|]; split; [|congruence]|].
    + intros i ci E. rewrite Hcl' in E. apply lookup_delete_Some in E as [_ E]. by eapply Hcl.
    + intros _ _. apply told_frame; [done|]. intros a c1 E. rewrite Hcl' in E. apply lookup_delete_Some in E as [_ E]. by left.
  - assert (Hsame : exists s', Some s = Some s' /\ server_ok s' /\ cfg s' = cfg s /\ (SignalLaws K -> maxmemory (cfg s) = false -> told s s')).
    { exists s. split; [done|]. split; [done|]. split; [done|]. intros _ _. apply told_frame; eauto. }
    destruct (clients s !! id) as [c|] eqn:Ec; [|done]. destruct args as [|a args]; [done|]. clear Hsame.
    rewrite (upd_eq _ _ _ _ Ec). mrun. set (c1 := set_args c (a :: args) (cmd c)). assert (Hk1 : kept c c1) by (unfold c1; auto with kept).
    assert (P : processed s (processCommand (set_clients s (<[id := c1]> (clients s))) id)).
    { eapply (processed_args s id c c1); [done..|]. eapply (processCommand_processed _ id c1); [|apply lookup_insert_eq|done].
      eapply server_ok_upd; [done..|by apply kept_client_ok]. }
    destruct P as (s' & b & es & -> & Hcc & Hlaw). exists s'. split; [done|]. pose proof Hcc as [I1 C1 K1 Y1 Cl1].
    split; [|split; [done|intros; by eapply concluded_told; eauto]]. split; [done|]. split; [|done].
    intros i ci E. destruct (Cl1 _ _ E) as (c0 & E0 & Hok & _). by eapply Hok, Hcl.
  - destruct (background_passive n s) as [Hp Hn]. destruct (do_effects_passive 0 (background n s) s Hix Hp) as (s' & E' & R'). exists s'. split; [done|].
    pose proof (ran_server_ok _ _ _ _ R' Hn Hs) as Hs'. split; [done|]. split; [apply (r_cfg _ _ _ _ R')|]. intros HS _.
    eapply concluded_told; [apply commanded_concluded; [by eapply ran_commanded|apply Hs']|]. intros dk Hst Ht. by apply background_signals.
Qed.

Lemma steps_ok es : forall s, server_ok s -> exists s', steps s es = Some s' /\ server_ok s' /\ cfg s' = cfg s.
Proof.
  induction es as [|e es IH]; intros s Hs; cbn [steps]; [by exists s|].
  destruct (step_ok s e Hs) as (s1 & E1 & Hs1 & C1 & _). rewrite E1. mrun. destruct (IH s1 Hs1) as (s2 & E2 & Hs2 & C2). exists s2. rewrite C2. done.
Qed.

Lemma reachable_ok s : reachable s -> server_ok s.
Proof. intros (s0 & es & Hf & E). destruct (steps_ok es s0 (fresh_ok _ Hf)) as (s' & E' & Hs & _). congruence. Qed.

(** A run in which a client watches a key all the time. *)
Inductive keeps_watching (a : Z) (dk : dbkey) : server K -> server K -> Prop :=
  | kw_refl s : keeps_watching a dk s s
  | kw_step s s1 s2 e c : step s e = Some s1 -> clients s1 !! a = Some c -> dk ∈ watched_keys c -> keeps_watching a dk s1 s2 -> keeps_watching a dk s s2.

Lemma watched_told `{!SignalLaws K} a dk v s s' : keeps_watching a dk s s' -> stable v -> forall c c', server_ok s -> maxmemory (cfg s) = false ->
  clients s !! a = Some c -> dk ∈ watched_keys c -> has (flags c) CLIENT_DIRTY_CAS = true \/ lookup (keyspace s) dk = v -> clients s' !! a = Some c' ->
  server_ok s' /\ (has (flags c') CLIENT_DIRTY_CAS = true \/ lookup (keyspace s') dk = v).
Proof.
  intros Hw Hst. induction Hw as [s|s s1 s2 e c1 E1 Ec1 Hin1 Hk IH]; intros c c' Hs Hmax Ec Hin Hv Ec'.
  - rewrite Ec in Ec'. injection Ec' as <-. auto.
  - destruct (step_ok s e Hs) as (s1' & E1' & Hs1 & C1 & T1). rewrite E1 in E1'. injection E1' as <-.
    destruct (T1 _ Hmax a c c1 dk Ec Ec1 Hin Hin1) as [M1 D1]. apply (IH c1 c'); try done; [congruence|].
    destruct Hv as [Hv|Hv]; [left; auto|]. rewrite Hv in D1. destruct (D1 Hst) as [?|E]; [by left|right; congruence].
Qed.

(** The transaction of a client after an EXEC that was refused with a reply. *)
Definition untouched s s' : Prop := keyspace s' = keyspace s /\ repl_log s' = repl_log s /\ dirty s' = dirty s.

(** C12: No assertion of multi.c fails and no client that was freed is used: every
    sequence of connections, disconnections, commands and background work, on
    any set of handlers that obeys the interface, runs to the end.  In the state
    it ends in the index of watched keys is exact (a client is in the list of a
    key if and only if the key is in the list of the client, no list is empty and
    none has duplicates), the queues hold only commands that EXEC can run, their
    flags are the flags of those commands, and a client that is not in MULTI has
    no queue. *)
Theorem server_keeps_invariant s0 (es : list event) :
  fresh s0 -> exists s, steps s0 es = Some s /\ index_ok s /\
    forall i c, clients s !! i = Some c -> Forall (fun mc => queueable (mc_cmd mc) = true) (commands c) /\
      cmd_flags c = flags_of (commands c) /\ (has (flags c) CLIENT_MULTI = false -> commands c = []).
Proof.
  intros Hf. destruct (steps_ok es s0 (fresh_ok _ Hf)) as (s & E & (Hix & Hcl & _) & _). exists s. split; [done|]. split; [done|].
  intros i c Ec. by destruct (Hcl i c Ec).
Qed.

(** C11: WATCH is check-and-set.  Let a client watch a key that has no time to live
    (or does not exist) in a state the server can reach, and let any events follow
    while the key stays watched: commands of this and of other clients, whole
    transactions, flushes, connections.  If the entry of the key is then different,
    EXEC runs nothing: it replies nil, or EXECABORT when a command was refused, the
    keyspace, the replication stream and the count of changes are untouched, and
    the transaction is over.  The handlers are only required to signal what they
    change, as the source says they do; memory must not be limited, since keys that
    are evicted are not signalled. *)
Theorem exec_is_check_and_set `{!SignalLaws K} (a : Z) (dk : dbkey) s s' (c c' : client) :
  reachable s -> maxmemory (cfg s) = false -> clients s !! a = Some c -> dk ∈ watched_keys c -> stable (lookup (keyspace s) dk) ->
  keeps_watching a dk s s' -> clients s' !! a = Some c' -> has (flags c') CLIENT_MULTI = true ->
  lookup (keyspace s') dk <> lookup (keyspace s) dk ->
  exists s'', execCommand (call 1) s' a = Some s'' /\ untouched s' s'' /\
    clients s'' !! a = Some (discarded (addReply (if has (flags c') CLIENT_DIRTY_EXEC then err execaborterr else nullmultibulk) c')).
Proof.
  intros Hr Hmax Ec Hin Hst Hk Ec' Hm Hne.
  destruct (watched_told a dk _ s s' Hk Hst c c' (reachable_ok _ Hr) Hmax Ec Hin (or_intror eq_refl) Ec') as [(Hix' & _) [Hd|Hv]]; [|done].
  unfold execCommand. rewrite Ec'. mrun. rewrite Hm. cbn [negb]. rewrite has_lor, Hd. cbn [orb].
  destruct (exec_refused s' a c' (if has (flags c') CLIENT_DIRTY_EXEC then err execaborterr else nullmultibulk) Hix' Ec') as (s2 & E2 & _ & Hc2 & Hr2).
  exists s2. split; [done|]. apply rest_inv in Hr2 as (_ & R2 & _ & _ & R5 & _ & R7 & _). split; [done|]. rewrite Hc2. apply lookup_insert_eq.
Qed.


(** The state in which EXEC is called: [processCommand] has set the command. *)
Definition ready_to_run s (id : Z) (c : client) (args : list (list Z)) (m : redisCommand) : server K :=
  set_clients s (<[id := set_args c args (Some m)]> (clients s)).

(** C14: On a master that is not loading, a transaction that may write reaches the
    replication stream as one block.  Let [mc] be the first queued command that is
    neither read-only nor administrative.  What the call of EXEC appends to the
    stream is exactly: what the read-only commands before [mc] propagated (for
    example the deletion of expired keys; nothing if [mc] is the first), then
    MULTI, then what [mc] and all commands after it propagated, in order, then
    EXEC, each for the database selected at that point.  What a command propagates
    is determined by what its handler did: its direct propagations, the command
    with its final arguments if it changed the dataset or was forced and was not
    prevented, and its deferred propagations.  It requires that no command of the
    transaction turns the instance into a replica, or lowers the count of
    changes. *)
Theorem exec_propagated_as_block s0 (id : Z) (c0 : client) (args : list (list Z)) (m : redisCommand) (q1 : list multiCmd) (mc : multiCmd) (q2 : list multiCmd) :
  let before := (apply_all id q1 (keyspace s0) (db c0)).1 in
  let all := (apply_all id (commands c0) (keyspace s0) (db c0)).1 in
  reachable s0 -> clients s0 !! id = Some c0 -> proc m = EXEC -> has (cflags m) CMD_MODULE = false ->
  has (flags c0) CLIENT_MULTI = true -> has (flags c0) CLIENT_DIRTY_CAS = false -> has (flags c0) CLIENT_DIRTY_EXEC = false ->
  masterhost s0 = false -> loading (cfg s0) = false ->
  commands c0 = q1 ++ mc :: q2 -> existsb marks q1 = false -> marks mc = true -> EReplicaOf true ∉ all -> Forall counting all ->
  exists s', call call_depth (ready_to_run s0 id c0 args m) id CMD_CALL_FULL = Some s' /\
    repl_log s' = repl_log s0 ++ propagated id q1 (keyspace s0) (db c0) ++ Fed (final_db before (db c0)) [str_MULTI] ::
      propagated id (mc :: q2) (final_ks before (keyspace s0)) (final_db before (db c0)) ++ [Fed (final_db all (db c0)) args].
Proof.
  intros before all Hr Ec0 Ep Hmod Hm Hd1 Hd2 Hma Hlo Hq Hq1 Hmc Hrep Hcnt. destruct (reachable_ok _ Hr) as (Hix0 & Hcl & _). pose proof (Hcl _ _ Ec0) as [O1 O2 O3 O4].
  set (c := set_args c0 args (Some m)). set (s := ready_to_run s0 id c0 args m). assert (Hix : index_ok s) by (by eapply index_upd).
  assert (Ec : clients s !! id = Some c) by apply lookup_insert_eq. assert (Em : cmd c = Some m) by done.
  destruct (call_wrap 1 s id CMD_CALL_FULL c m Hix Ec Em O4) as (s1 & R1 & Hc1 & A1 & D1 & M1 & L1 & _ & Hcall).
  set (c1 := off replication_flags c) in *. assert (E1 : clients s1 !! id = Some c1) by (rewrite Hc1; apply lookup_insert_eq).
  assert (K1 : keyspace s1 = keyspace s) by apply (r_keyspace _ _ _ _ R1).
  assert (Hk1 : kept c c1) by (unfold c1; auto with kept).
  destruct (exec_performed 0 s1 id c1 (r_index _ _ _ _ R1) E1) as (s2 & c2 & E2 & Ec2 & S2 & F2 & Hl2 & Hf2 & _ & Ha2 & Em2 & A2 & B2 & D2).
  { by rewrite (k_commands _ _ Hk1). }
  { by rewrite (k_lua _ _ Hk1). }
  { by rewrite (k_multi _ _ Hk1). }
  { unfold c1. flag_simpl. done. }
  { by rewrite (k_exec _ _ Hk1). }
  { unfold exec_denied. rewrite M1. change (masterhost s) with (masterhost s0). by rewrite Hma, andb_false_r. }
  rewrite K1 in *. change (commands c1) with (commands c0) in *. change (db c1) with (db c0) in *. change (keyspace s) with (keyspace s0) in *. fold all in B2, D2, S2.
  destruct B2 as (Hlog & Hm2 & Hdb2); [by rewrite M1|by rewrite (r_cfg _ _ _ _ R1)|done|done|].
  assert (Hex : existsb marks (commands c0) = true) by (rewrite Hq, existsb_app; cbn [existsb]; by rewrite Hmc, orb_true_r). specialize (D2 Hex Hcnt).
  destruct (Hcall s2 c2 m) as (s3 & E3 & _ & _ & _ & _ & Hl3); [by rewrite Ep|apply (st_index _ _ _ _ S2)|done|by rewrite Em2|done|].
  exists s3. split; [done|]. rewrite Hl3 by done. rewrite A2, A1, Hlog, L1.
  assert (Hself : self_fed c2 m (dirty s2 - dirty s >? 0) = [Fed (final_db all (db c0)) args]).
  { unfold self_fed. replace (dirty s2 - dirty s >? 0) with true by (symmetry; rewrite Z.gtb_ltb; apply Z.ltb_lt; lia).
    assert (Hp : has (flags c2) CLIENT_PREVENT_REPL_PROP = false).
    { unfold has. replace CLIENT_PREVENT_REPL_PROP with (Z.land replication_flags CLIENT_PREVENT_REPL_PROP) by done. rewrite Z.land_assoc, Hf2, <- Z.land_assoc.
      apply negb_false_iff, Z.eqb_eq. change (Z.land replication_flags CLIENT_PREVENT_REPL_PROP) with CLIENT_PREVENT_REPL_PROP.
      unfold c1. cbn [off set_cflags flags]. rewrite <- Z.land_assoc. change (Z.land (Z.lnot replication_flags) CLIENT_PREVENT_REPL_PROP) with 0. apply Z.land_0_r. }
    rewrite Hp, Hmod, Hdb2, Ha2. done. }
  rewrite Hself, Hq, (block_stream_split id q1 mc q2 _ _ Hq1 Hmc). change (repl_log s) with (repl_log s0). by rewrite <- !app_assoc.
Qed.

End Promises.

(** ** A small command set *)

(** Strings without a time to live. *)
Abbreviation store := (gmap dbkey (list Z)).

Definition arg (a : list (list Z)) (i : nat) : list Z := default [] (a !! i).

(** SET, GET, FLUSHALL and SAVE. *)
Definition sample_body (p : procId) (k : store) (id d : Z) (a : list (list Z)) : list (effect store) :=
  match p with
  | OTHER 1 => [EKeyspace (<[(d, arg a 1) := arg a 2]> k); ESignalModifiedKey d (arg a 1); EDirty 1; EReply id (cstr "OK")]
  | OTHER 2 => [EReply id (default [] (k !! (d, arg a 1)))]
  | OTHER 3 => [ESignalFlushedDb (-1); EKeyspace ∅; EDirty 1; EReply id (cstr "OK")]
  | OTHER 4 => [ESaved; EReply id (cstr "OK")]
  | _ => []
  end.

Definition sample_table : list (list Z * redisCommand) :=
  [(cstr "set", mkCommand (OTHER 1) (-3) (Z.lor CMD_WRITE CMD_DENYOOM) true); (cstr "get", mkCommand (OTHER 2) 2 CMD_READONLY true);
   (cstr "flushall", mkCommand (OTHER 3) (-1) CMD_WRITE false); (cstr "save", mkCommand (OTHER 4) 1 CMD_ADMIN false);
   (cstr "multi", mkCommand MULTI 1 0 false); (cstr "exec", mkCommand EXEC 1 CMD_SKIP_MONITOR false);
   (cstr "discard", mkCommand DISCARD 1 0 false); (cstr "watch", mkCommand WATCH (-2) 0 true); (cstr "unwatch", mkCommand UNWATCH 1 0 false)].

#[export] Instance sample_commands : Commands store := {|
  entry := list Z;
  lookup k dk := k !! dk;
  persistent _ := true;
  lookupCommand name := snd <$> List.find (fun x => strcaseeq name x.1) sample_table;
  filters _ _ a := a;
  body p k id d _ a := sample_body p k id d a;
  getNodeByQuery _ _ := None;
  freeMemoryIfNeeded _ := ([], false);
  writeCommandsDeniedByDiskError _ := None;
  serve_blocked _ := [];
  background _ _ := []
|}.

#[export] Instance sample_laws : CommandsLaws store.
Proof.
  split; try done. intros p k id d b a. cbn [body sample_commands]. unfold sample_body. destruct p; try apply not_elem_of_nil.
  repeat match goal with |- context [match ?n with _ => _ end] => destruct n end; rewrite ?not_elem_of_cons; repeat split; try done; apply not_elem_of_nil.
Qed.

#[export] Instance sample_signals : SignalLaws store.
Proof.
  split; [|intros; apply lawful_nil|done]. intros p k id d b a dk _. cbn [body sample_commands]. unfold sample_body.
  destruct p; try (split; [done|apply not_elem_of_nil]).
  repeat match goal with |- context [match ?n with _ => _ end] => destruct n end; try (split; [done|apply not_elem_of_nil]).
  all: cbn [touched signals ks_after]; rewrite ?orb_false_r, ?orb_false_l; cbn; intros Hne%bool_decide_eq_false; (split; [cbn|apply not_elem_of_nil]).
  - rewrite lookup_empty. destruct (k !! dk); [|done]. destruct Hne. by eexists.
  - by apply lookup_insert_ne.
Qed.

Definition sample_config (ro : bool) : config := mkConfig false false false false None 0 0 0 ro true true false false false.
Definition sample_server (replica : bool) (changes : Z) : server store :=
  mkServer ∅ ∅ ∅ changes [] [] replica true false [] [] [] 0 (sample_config true).

Definition word (s : string) : list Z := cstr s.
Definition say (id : Z) (ws : list string) : event := Command id (word <$> ws).

(** The state after some events, and a client in it. *)
Definition after (s : server store) (es : list event) : server store := default s (steps s es).
Definition who (s : server store) (id : Z) : client := default (createClient false) (clients s !! id).

Definition sample_watch : list event := [Connect 1 false; Connect 2 false; say 1 ["watch"; "x"]%string].
Definition sample_race : list event := [say 1 ["multi"]%string; say 1 ["set"; "y"; "1"]%string; say 2 ["set"; "x"; "2"]%string].
Definition sample_txn : list event := [Connect 1 false; say 1 ["multi"]%string; say 1 ["set"; "y"; "1"]%string; say 1 ["get"; "y"]%string].

Lemma server_keeps_invariant_witness : exists s, steps (sample_server false 0) (sample_watch ++ sample_race) = Some s /\ index_ok s /\
  forall i c, clients s !! i = Some c -> Forall (fun mc => queueable (mc_cmd mc) = true) (commands c) /\
    cmd_flags c = flags_of (commands c) /\ (has (flags c) CLIENT_MULTI = false -> commands c = []).
Proof. apply server_keeps_invariant. done. Defined.

Lemma exec_is_check_and_set_witness :
  let s := after (sample_server false 0) sample_watch in let s' := after s sample_race in
  exists s'', execCommand (call 1) s' 1 = Some s'' /\ untouched s' s'' /\ 
    clients s'' !! 1 = Some (discarded (addReply (if has (flags (who s' 1)) CLIENT_DIRTY_EXEC then err execaborterr else nullmultibulk) (who s' 1))).
Proof.
  intros s s'.
  refine (exec_is_check_and_set (K := store) 1 (0, cstr "x") s s' (who s 1) (who s' 1) _ _ _ _ _ _ _ _ _).
  - exists (sample_server false 0), sample_watch. split; [done|]. vm_compute. reflexivity.
  - vm_compute. reflexivity.
  - vm_compute. reflexivity.
  - apply (bool_decide_eq_true_1 _). vm_compute. reflexivity.
  - vm_compute. exact I.
  - set (s1 := after s (take 1 sample_race)). set (s2 := after s (take 2 sample_race)).
    apply (kw_step _ _ s s1 s' (say 1 ["multi"]%string) (who s1 1)); [vm_compute; reflexivity..|apply (bool_decide_eq_true_1 _); vm_compute; reflexivity|].
    apply (kw_step _ _ s1 s2 s' (say 1 ["set"; "y"; "1"]%string) (who s2 1)); [vm_compute; reflexivity..|apply (bool_decide_eq_true_1 _); vm_compute; reflexivity|].
    apply (kw_step _ _ s2 s' s' (say 2 ["set"; "x"; "2"]%string) (who s' 1)); [vm_compute; reflexivity..|apply (bool_decide_eq_true_1 _); vm_compute; reflexivity|].
    constructor.
  - vm_compute. reflexivity.
  - vm_compute. reflexivity.
  - vm_compute. discriminate.
Defined.


Definition sample_exec : redisCommand := mkCommand EXEC 1 CMD_SKIP_MONITOR false.

(** A GET, a SET and a GET: the stream is MULTI, the SET, EXEC. *)
Definition sample_block : list event :=
  [Connect 1 false; say 1 ["multi"]%string; say 1 ["get"; "y"]%string; say 1 ["set"; "y"; "1"]%string; say 1 ["get"; "y"]%string].

Lemma sample_block_effects : let s := after (sample_server false 0) sample_block in
  (apply_all 1 (commands (who s 1)) (keyspace s) (db (who s 1))).1 =
  [EReply 1 []; EKeyspace {[ (0, cstr "y") := cstr "1" ]}; ESignalModifiedKey 0 (cstr "y"); EDirty 1; EReply 1 (cstr "OK"); EReply 1 (cstr "1")].
Proof. vm_compute. reflexivity. Qed.

Lemma exec_propagated_as_block_witness :
  let s := after (sample_server false 0) sample_block in
  exists s', call call_depth (ready_to_run s 1 (who s 1) [cstr "EXEC"] sample_exec) 1 CMD_CALL_FULL = Some s' /\
    repl_log s' = repl_log s ++ [Fed 0 [str_MULTI]; Fed 0 [cstr "set"; cstr "y"; cstr "1"]; Fed 0 [cstr "EXEC"]].
Proof.
  intros s.
  destruct (exec_propagated_as_block (K := store) s 1 (who s 1) [cstr "EXEC"] sample_exec (take 1 (commands (who s 1)))
    (default (mkMultiCmd [] sample_exec) (commands (who s 1) !! 1%nat)) (drop 2 (commands (who s 1)))) as (s' & Hs & Hl).
  - exists (sample_server false 0), sample_block. split; [done|]. vm_compute. reflexivity.
  - vm_compute. reflexivity.
  - vm_compute. reflexivity.
  - vm_compute. reflexivity.
  - vm_compute. reflexivity.
  - vm_compute. reflexivity.
  - vm_compute. reflexivity.
  - vm_compute. reflexivity.
  - vm_compute. reflexivity.
  - vm_compute. reflexivity.
  - vm_compute. reflexivity.
  - vm_compute. reflexivity.
  - unfold s. rewrite sample_block_effects. intros Hin. rewrite !elem_of_cons, elem_of_nil in Hin. destruct_or! Hin; first [discriminate Hin | destruct Hin].
  - unfold s. rewrite sample_block_effects. repeat (apply Forall_cons; split; [first [exact I | cbn; lia]|]). apply Forall_nil_2.
  - exists s'. split; [exact Hs|]. rewrite Hl. vm_compute. reflexivity.
Defined.

(** ** Where the promises end *)

(** SAVE within a transaction makes the stream incomplete.  [rdbSave] resets the
    count of changes, so when there were changes before the transaction the count
    ends below where EXEC started, [call] takes the difference for zero and EXEC is
    not propagated: with three changes before, MULTI, SET, SAVE, EXEC sends MULTI
    and SET to the replicas and never EXEC, and the SET that follows is sent inside
    the block that was left open. *)
Example exec_lost_after_save :
  repl_log (after (sample_server false 3) [Connect 1 false; say 1 ["multi"]%string; say 1 ["set"; "x"; "1"]%string; say 1 ["save"]%string; say 1 ["exec"]%string;
     say 1 ["set"; "y"; "2"]%string]) =
  [Fed 0 [str_MULTI]; Fed 0 [cstr "set"; cstr "x"; cstr "1"]; Fed 0 [cstr "set"; cstr "y"; cstr "2"]].
Proof. vm_compute. reflexivity. Qed.

(** A command that a read-only replica refuses does not abort the transaction,
    unlike the other errors while queueing: after MULTI, SET is answered with an
    error, GET is queued, and EXEC runs the rest of the transaction, although the
    comment of [flagTransaction] asks for it to fail after every such error. *)
Example readonly_refusal_not_flagged :
  replies (who (after (sample_server true 0) [Connect 1 false; say 1 ["multi"]%string; say 1 ["set"; "x"; "1"]%string; say 1 ["get"; "x"]%string; say 1 ["exec"]%string]) 1) =
    [ok; err roslaveerr; queued; mbulklen 1; bulk []] /\
  replies (who (after (sample_server true 0) [Connect 1 false; say 1 ["multi"]%string; say 1 ["nonsense"]%string; say 1 ["get"; "x"]%string; say 1 ["exec"]%string]) 1) =
    [ok; err unknown_command; queued; err execaborterr].
Proof. split; vm_compute; reflexivity. Qed.

End Exec.
