(* ===== verification/Listpack.v ===== *)
(** * Listpacks: src/redis5/src/listpack.c

    A listpack is one block of bytes: a header with the total size and the number
    of elements, the elements, and an end marker.  An element is an encoding byte
    with a string or an integer, followed by its own length written so that it can
    be read backwards.  Element pointers are offsets into the block.

    The specification is a list of strings: integers are only a compact way to
    store the strings that are their decimal representation. *)

From Stdlib Require Import String Ascii.
From S2P Require Import Prelude Util.

Module Listpack.
Import Util.

Definition LP_HDR_SIZE := 6.
Definition LP_HDR_NUMELE_UNKNOWN := 65535.
Definition LP_EOF := 0xFF.
Definition UINT32_MAX := 4294967295.
Definition UINT16_MAX := 65535.

(** [(b0<<0) | (b1<<8) | ...] over [n] bytes. *)
Fixpoint get_le (n : nat) (lp : list Z) (p shift acc : Z) : option Z :=
  match n with
  | O => Some acc
  | S n => b ← zget lp p; get_le n lp (p + 1) (shift + 8) (Z.lor acc (Z.shiftl b shift))
  end.

(** [p[0] = v & 0xff; p[1] = (v >> 8) & 0xff; ...] *)
Fixpoint put_le (n : nat) (lp : list Z) (p v : Z) : option (list Z) :=
  match n with
  | O => Some lp
  | S n => lp ← put lp p (Z.land v 0xff); put_le n lp (p + 1) (Z.shiftr v 8)
  end.

Definition lpGetTotalBytes (lp : list Z) : option Z := get_le 4 lp 0 0 0.
Definition lpGetNumElements (lp : list Z) : option Z := get_le 2 lp 4 0 0.
Definition lpSetTotalBytes (lp : list Z) (v : Z) : option (list Z) := put_le 4 lp 0 v.
Definition lpSetNumElements (lp : list Z) (v : Z) : option (list Z) := put_le 2 lp 4 v.

Definition LP_ENCODING_IS_7BIT_UINT (byte : Z) : bool := Z.land byte 0x80 =? 0.
Definition LP_ENCODING_IS_6BIT_STR (byte : Z) : bool := Z.land byte 0xC0 =? 0x80.
Definition LP_ENCODING_IS_13BIT_INT (byte : Z) : bool := Z.land byte 0xE0 =? 0xC0.
Definition LP_ENCODING_IS_12BIT_STR (byte : Z) : bool := Z.land byte 0xF0 =? 0xE0.
Definition LP_ENCODING_IS_16BIT_INT (byte : Z) : bool := Z.land byte 0xFF =? 0xF1.
Definition LP_ENCODING_IS_24BIT_INT (byte : Z) : bool := Z.land byte 0xFF =? 0xF2.
Definition LP_ENCODING_IS_32BIT_INT (byte : Z) : bool := Z.land byte 0xFF =? 0xF3.
Definition LP_ENCODING_IS_64BIT_INT (byte : Z) : bool := Z.land byte 0xFF =? 0xF4.
Definition LP_ENCODING_IS_32BIT_STR (byte : Z) : bool := Z.land byte 0xFF =? 0xF0.

Definition LP_ENCODING_6BIT_STR_LEN (lp : list Z) (p : Z) : option Z := b ← zget lp p; Some (Z.land b 0x3F).
Definition LP_ENCODING_12BIT_STR_LEN (lp : list Z) (p : Z) : option Z :=
  b0 ← zget lp p; b1 ← zget lp (p + 1); Some (Z.lor (Z.shiftl (Z.land b0 0xF) 8) b1).
Definition LP_ENCODING_32BIT_STR_LEN (lp : list Z) (p : Z) : option Z := get_le 4 lp (p + 1) 0 0.

(** The digit loop: [None] on overflow, else the rest of the string and the value. *)
Fixpoint lpStringToInt64_loop (p : list Z) (v : Z) : option (list Z * Z) :=
  match p with
  | [] => Some ([], v)
  | c :: p' =>
      if (c >=? ch_0) && (c <=? ch_9) then
        if v >? ULLONG_MAX / 10 then None
        else
          let v := u64 (v * 10) in
          if v >? ULLONG_MAX - (c - ch_0) then None
          else lpStringToInt64_loop p' (u64 (v + (c - ch_0)))
      else Some (p, v)
  end.

Definition lpStringToInt64 (s : list Z) : option Z :=
  match s with
  | [] => None
  | c :: rest =>
      if (zlen s =? 1) && (c =? ch_0) then Some 0
      else
        let negative := c =? ch_minus in
        match (if negative then rest else s) with
        | [] => None
        | c :: p =>
            if (c >=? ch_1) && (c <=? ch_9) then
              '(p, v) ← lpStringToInt64_loop p (c - ch_0);
              match p with
              | _ :: _ => None
              | [] =>
                  if (negative : bool) then
                    if v >? u64 (- (LLONG_MIN + 1)) + 1 then None else Some (s64 (u64 (- v)))
                  else if v >? LLONG_MAX then None else Some v
              end
            else if (c =? ch_0) && (zlen s =? 1) then Some 0
            else None
        end
  end.

(** [block] is the fresh allocation. *)
Definition lpNew (block : list Z) : option (list Z) :=
  lp ← lpSetTotalBytes block (LP_HDR_SIZE + 1);
  lp ← lpSetNumElements lp 0;
  put lp LP_HDR_SIZE LP_EOF.

(** LP_ENCODING_INT with the bytes stored in [intenc], or LP_ENCODING_STRING; and
    [*enclen].  The size is a [uint32_t], and so is its sum with the 5 bytes before
    a long string. *)
Inductive lp_enctype := LP_ENCODING_INT (intenc : list Z) | LP_ENCODING_STRING.

Definition lpEncodeGetType (ele : list Z) : lp_enctype * Z :=
  let size := zlen ele in
  match lpStringToInt64 ele with
  | Some v =>
      if (v >=? 0) && (v <=? 127) then (LP_ENCODING_INT [u8 v], 1)
      else if (v >=? -4096) && (v <=? 4095) then
        let v := if v <? 0 then Z.shiftl 1 13 + v else v in
        (LP_ENCODING_INT [u8 (Z.lor (Z.shiftr v 8) 0xC0); u8 (Z.land v 0xff)], 2)
      else if (v >=? -32768) && (v <=? 32767) then
        let v := if v <? 0 then Z.shiftl 1 16 + v else v in
        (LP_ENCODING_INT [0xF1; u8 (Z.land v 0xff); u8 (Z.shiftr v 8)], 3)
      else if (v >=? -8388608) && (v <=? 8388607) then
        let v := if v <? 0 then Z.shiftl 1 24 + v else v in
        (LP_ENCODING_INT [0xF2; u8 (Z.land v 0xff); u8 (Z.land (Z.shiftr v 8) 0xff); u8 (Z.shiftr v 16)], 4)
      else if (v >=? -2147483648) && (v <=? 2147483647) then
        let v := if v <? 0 then Z.shiftl 1 32 + v else v in
        (LP_ENCODING_INT [0xF3; u8 (Z.land v 0xff); u8 (Z.land (Z.shiftr v 8) 0xff);
                          u8 (Z.land (Z.shiftr v 16) 0xff); u8 (Z.shiftr v 24)], 5)
      else
        let uv := u64 v in
        (LP_ENCODING_INT [0xF4; u8 (Z.land uv 0xff); u8 (Z.land (Z.shiftr uv 8) 0xff);
                          u8 (Z.land (Z.shiftr uv 16) 0xff); u8 (Z.land (Z.shiftr uv 24) 0xff);
                          u8 (Z.land (Z.shiftr uv 32) 0xff); u8 (Z.land (Z.shiftr uv 40) 0xff);
                          u8 (Z.land (Z.shiftr uv 48) 0xff); u8 (Z.shiftr uv 56)], 9)
  | None =>
      (LP_ENCODING_STRING, if size <? 64 then 1 + size else if size <? 4096 then 2 + size else u32 (5 + size))
  end.

(** The number of bytes and what is stored in [buf] when it is not NULL. *)
Definition lpEncodeBacklen (l : Z) : Z * list Z :=
  if l <=? 127 then (1, [u8 l])
  else if l <? 16383 then (2, [u8 (Z.shiftr l 7); u8 (Z.lor (Z.land l 127) 128)])
  else if l <? 2097151 then
    (3, [u8 (Z.shiftr l 14); u8 (Z.lor (Z.land (Z.shiftr l 7) 127) 128); u8 (Z.lor (Z.land l 127) 128)])
  else if l <? 268435455 then
    (4, [u8 (Z.shiftr l 21); u8 (Z.lor (Z.land (Z.shiftr l 14) 127) 128);
         u8 (Z.lor (Z.land (Z.shiftr l 7) 127) 128); u8 (Z.lor (Z.land l 127) 128)])
  else
    (5, [u8 (Z.shiftr l 28); u8 (Z.lor (Z.land (Z.shiftr l 21) 127) 128);
         u8 (Z.lor (Z.land (Z.shiftr l 14) 127) 128); u8 (Z.lor (Z.land (Z.shiftr l 7) 127) 128);
         u8 (Z.lor (Z.land l 127) 128)]).

(** The loop returns after at most five rounds. *)
Fixpoint lpDecodeBacklen_loop (fuel : nat) (lp : list Z) (p val shift : Z) : option Z :=
  match fuel with
  | O => None
  | S fuel =>
      b ← zget lp p;
      let val := Z.lor val (u64 (Z.shiftl (Z.land b 127) shift)) in
      if Z.land b 128 =? 0 then Some val
      else
        let shift := shift + 7 in
        if shift >? 28 then Some ULLONG_MAX else lpDecodeBacklen_loop fuel lp (p - 1) val shift
  end.

Definition lpDecodeBacklen (lp : list Z) (p : Z) : option Z := lpDecodeBacklen_loop 5 lp p 0 0.

(** [memcpy] of the string after its encoding bytes, stored at [p]. *)
Definition lpEncodeString (lp : list Z) (p : Z) (s : list Z) : option (list Z) :=
  let len := zlen s in
  if len <? 64 then
    lp ← put lp p (u8 (Z.lor len 0x80)); mem_write lp (p + 1) s
  else if len <? 4096 then
    lp ← put lp p (u8 (Z.lor (Z.shiftr len 8) 0xE0));
    lp ← put lp (p + 1) (u8 (Z.land len 0xff)); mem_write lp (p + 2) s
  else
    lp ← put lp p 0xF0; lp ← put_le 4 lp (p + 1) len; mem_write lp (p + 5) s.

Definition lpCurrentEncodedSize (lp : list Z) (p : Z) : option Z :=
  b ← zget lp p;
  if LP_ENCODING_IS_7BIT_UINT b then Some 1
  else if LP_ENCODING_IS_6BIT_STR b then n ← LP_ENCODING_6BIT_STR_LEN lp p; Some (1 + n)
  else if LP_ENCODING_IS_13BIT_INT b then Some 2
  else if LP_ENCODING_IS_16BIT_INT b then Some 3
  else if LP_ENCODING_IS_24BIT_INT b then Some 4
  else if LP_ENCODING_IS_32BIT_INT b then Some 5
  else if LP_ENCODING_IS_64BIT_INT b then Some 9
  else if LP_ENCODING_IS_12BIT_STR b then n ← LP_ENCODING_12BIT_STR_LEN lp p; Some (2 + n)
  else if LP_ENCODING_IS_32BIT_STR b then n ← LP_ENCODING_32BIT_STR_LEN lp p; Some (u32 (5 + n))
  else if b =? LP_EOF then Some 1
  else Some 0.

Definition lpSkip (lp : list Z) (p : Z) : option Z :=
  entrylen ← lpCurrentEncodedSize lp p;
  Some (p + (entrylen + fst (lpEncodeBacklen entrylen))).

(** The pointer is NULL at the end marker. *)
Definition at_eof (lp : list Z) (p : Z) : option (option Z) :=
  b ← zget lp p; Some (if b =? LP_EOF then None else Some p).

Definition lpNext (lp : list Z) (p : Z) : option (option Z) := p ← lpSkip lp p; at_eof lp p.

Definition lpPrev (lp : list Z) (p : Z) : option (option Z) :=
  if p =? LP_HDR_SIZE then Some None
  else
    let p := p - 1 in
    prevlen ← lpDecodeBacklen lp p;
    let prevlen := u64 (prevlen + fst (lpEncodeBacklen prevlen)) in
    Some (Some (p - prevlen + 1)).

Definition lpFirst (lp : list Z) : option (option Z) := at_eof lp LP_HDR_SIZE.

Definition lpLast (lp : list Z) : option (option Z) :=
  n ← lpGetTotalBytes lp; lpPrev lp (n - 1).

(** Scans get one round per byte of the block. *)
Fixpoint lpLength_loop (fuel : nat) (lp : list Z) (p : option Z) (count : Z) : option Z :=
  match fuel with
  | O => None
  | S fuel =>
      match p with
      | None => Some count
      | Some p => p ← lpNext lp p; lpLength_loop fuel lp p (u32 (count + 1))
      end
  end.

Definition lpLength (lp : list Z) : option (Z * list Z) :=
  numele ← lpGetNumElements lp;
  if negb (numele =? LP_HDR_NUMELE_UNKNOWN) then Some (numele, lp)
  else
    p ← lpFirst lp;
    count ← lpLength_loop (S (length lp)) lp p 0;
    lp ← (if count <? LP_HDR_NUMELE_UNKNOWN then lpSetNumElements lp count else Some lp);
    Some (count, lp).

(** A pointer into the listpack and its length, the contents of [intbuf], or (when
    [intbuf] is NULL) the value of an integer. *)
Inductive lp_got := InPlace (p count : Z) | InBuf (s : list Z) | Value (v : Z).

(** [Some (inl ...)] is a string in place, [Some (inr (uval, negstart, negmax))] an integer. *)
Definition lpGet_decode (lp : list Z) (p : Z) : option (Z * Z + Z * Z * Z) :=
  b ← zget lp p;
  if LP_ENCODING_IS_7BIT_UINT b then Some (inr (Z.land b 0x7f, ULLONG_MAX, 0))
  else if LP_ENCODING_IS_6BIT_STR b then n ← LP_ENCODING_6BIT_STR_LEN lp p; Some (inl (p + 1, n))
  else if LP_ENCODING_IS_13BIT_INT b then
    b1 ← zget lp (p + 1); Some (inr (Z.lor (Z.shiftl (Z.land b 0x1f) 8) b1, Z.shiftl 1 12, 8191))
  else if LP_ENCODING_IS_16BIT_INT b then
    uval ← get_le 2 lp (p + 1) 0 0; Some (inr (uval, Z.shiftl 1 15, UINT16_MAX))
  else if LP_ENCODING_IS_24BIT_INT b then
    uval ← get_le 3 lp (p + 1) 0 0; Some (inr (uval, Z.shiftl 1 23, Z.shiftr UINT32_MAX 8))
  else if LP_ENCODING_IS_32BIT_INT b then
    uval ← get_le 4 lp (p + 1) 0 0; Some (inr (uval, Z.shiftl 1 31, UINT32_MAX))
  else if LP_ENCODING_IS_64BIT_INT b then
    uval ← get_le 8 lp (p + 1) 0 0; Some (inr (uval, Z.shiftl 1 63, ULLONG_MAX))
  else if LP_ENCODING_IS_12BIT_STR b then n ← LP_ENCODING_12BIT_STR_LEN lp p; Some (inl (p + 2, n))
  else if LP_ENCODING_IS_32BIT_STR b then n ← LP_ENCODING_32BIT_STR_LEN lp p; Some (inl (p + 5, n))
  else Some (inr (12345678900000000 + b, ULLONG_MAX, 0)).

(** [snprintf] with "%lld" gives the decimal representation. *)
Definition lpGet (lp : list Z) (p : Z) (intbuf : bool) : option lp_got :=
  d ← lpGet_decode lp p;
  match d with
  | inl (q, count) => Some (InPlace q count)
  | inr (uval, negstart, negmax) =>
      let val := if uval >=? negstart then - s64 (u64 (negmax - uval)) - 1 else s64 uval in
      Some (if intbuf then InBuf (dec val) else Value val)
  end.

Inductive lp_where := LP_BEFORE | LP_AFTER | LP_REPLACE.

(** The encoded element and its length bytes stored at [dst]. *)
Definition store_entry (lp : list Z) (dst : Z) (ele : list Z) (enctype : lp_enctype) (enclen : Z) (backlen : list Z)
    : option (list Z) :=
  lp ← (match enctype with
        | LP_ENCODING_INT intenc => mem_write lp dst intenc
        | LP_ENCODING_STRING => lpEncodeString lp dst ele
        end);
  mem_write lp (dst + enclen) backlen.

(** The header after the element was stored. *)
Definition update_header (lp : list Z) (ele : option (list Z)) (replace : bool) (new_listpack_bytes : Z) : option (list Z) :=
  lp ← (match replace, ele with
        | true, Some _ => Some lp
        | _, _ =>
            num_elements ← lpGetNumElements lp;
            if negb (num_elements =? LP_HDR_NUMELE_UNKNOWN) then
              lpSetNumElements lp (match ele with Some _ => num_elements + 1 | None => u32 (num_elements - 1) end)
            else Some lp
        end);
  lpSetTotalBytes lp new_listpack_bytes.

(** Insertion before [poff], or in place of the element there.  The new listpack
    and [*newp]; the inner [None] is NULL, returned before anything changes.
    [poison] is what fresh memory holds. *)
Definition insert_at (poison : Z) (lp : list Z) (ele : option (list Z)) (poff : Z) (replace : bool)
    : option (option (list Z * option Z)) :=
  let '(enctype, enclen) := match ele with Some e => lpEncodeGetType e | None => (LP_ENCODING_STRING, 0) end in
  let '(backlen_size, backlen) := match ele with Some _ => lpEncodeBacklen enclen | None => (0, []) end in
  old_listpack_bytes ← lpGetTotalBytes lp;
  replaced_len ←
    (if replace then n ← lpCurrentEncodedSize lp poff; Some (u32 (n + fst (lpEncodeBacklen n))) else Some 0);
  let new_listpack_bytes := u64 (old_listpack_bytes + enclen + backlen_size - replaced_len) in
  if new_listpack_bytes >? UINT32_MAX then Some None
  else
    let lp := if new_listpack_bytes >? old_listpack_bytes then mem_realloc poison lp new_listpack_bytes else lp in
    lp ← (if replace then
            let lendiff := enclen + backlen_size - replaced_len in
            mem_move lp (poff + replaced_len + lendiff) (poff + replaced_len) (old_listpack_bytes - poff - replaced_len)
          else mem_move lp (poff + enclen + backlen_size) poff (old_listpack_bytes - poff));
    let lp := if new_listpack_bytes <? old_listpack_bytes then mem_realloc poison lp new_listpack_bytes else lp in
    newp ← (match ele with None => at_eof lp poff | Some _ => Some (Some poff) end);
    lp ← (match ele with Some e => store_entry lp poff e enctype enclen backlen | None => Some lp end);
    lp ← update_header lp ele replace new_listpack_bytes;
    Some (Some (lp, newp)).

Definition lpInsert (poison : Z) (lp : list Z) (ele : option (list Z)) (p : Z) (wher : lp_where)
    : option (option (list Z * option Z)) :=
  let wher := match ele with None => LP_REPLACE | Some _ => wher end in
  match wher with
  | LP_AFTER => p ← lpSkip lp p; insert_at poison lp ele p false
  | LP_BEFORE => insert_at poison lp ele p false
  | LP_REPLACE => insert_at poison lp ele p true
  end.

Definition lpAppend (poison : Z) (lp ele : list Z) : option (option (list Z * option Z)) :=
  listpack_bytes ← lpGetTotalBytes lp;
  lpInsert poison lp (Some ele) (listpack_bytes - 1) LP_BEFORE.

Definition lpDelete (poison : Z) (lp : list Z) (p : Z) : option (option (list Z * option Z)) :=
  lpInsert poison lp None p LP_REPLACE.

Definition lpBytes (lp : list Z) : option Z := lpGetTotalBytes lp.

Fixpoint seek_forward (fuel : nat) (lp : list Z) (index : Z) (ele : option Z) : option (option Z) :=
  match fuel with
  | O => None
  | S fuel =>
      match ele with
      | Some p => if index >? 0 then ele ← lpNext lp p; seek_forward fuel lp (index - 1) ele else Some ele
      | None => Some None
      end
  end.

Fixpoint seek_backward (fuel : nat) (lp : list Z) (index : Z) (ele : option Z) : option (option Z) :=
  match fuel with
  | O => None
  | S fuel =>
      match ele with
      | Some p => if index <? -1 then ele ← lpPrev lp p; seek_backward fuel lp (index + 1) ele else Some ele
      | None => Some None
      end
  end.

Definition lpSeek (lp : list Z) (index : Z) : option (option Z) :=
  numele ← lpGetNumElements lp;
  let scan (forward : bool) (index : Z) :=
    if forward then ele ← lpFirst lp; seek_forward (S (length lp)) lp index ele
    else ele ← lpLast lp; seek_backward (S (length lp)) lp index ele in
  if negb (numele =? LP_HDR_NUMELE_UNKNOWN) then
    let index := if index <? 0 then numele + index else index in
    if index <? 0 then Some None
    else if index >=? numele then Some None
    else if index >? numele / 2 then scan false (index - numele)
    else scan true index
  else scan (negb (index <? 0)) index.

(** The strings from the first element to the last, and back. *)
Definition element (lp : list Z) (p : Z) : option (list Z) :=
  g ← lpGet lp p true;
  match g with InPlace q n => mem_read lp q n | InBuf s => Some s | Value _ => None end.

Fixpoint elements_from (next : list Z -> Z -> option (option Z)) (fuel : nat) (lp : list Z) (p : option Z)
    : option (list (list Z)) :=
  match fuel with
  | O => None
  | S fuel =>
      match p with
      | None => Some []
      | Some p => s ← element lp p; p ← next lp p; ss ← elements_from next fuel lp p; Some (s :: ss)
      end
  end.

Definition elements (lp : list Z) : option (list (list Z)) :=
  p ← lpFirst lp; elements_from lpNext (S (length lp)) lp p.

Definition elements_back (lp : list Z) : option (list (list Z)) :=
  p ← lpLast lp; elements_from lpPrev (S (length lp)) lp p.

Example listpack_examples :
  let r := lp ← lpNew (replicate 7 170);
           r ← lpAppend 170 lp (cstr "hello"); '(lp, _) ← r;
           r ← lpAppend 170 lp (cstr "-1234567"); '(lp, _) ← r;
           r ← lpInsert 170 lp (Some (cstr "007")) 6 LP_BEFORE; '(lp, _) ← r;
           r ← lpAppend 170 lp (cstr "-9223372036854775808"); '(lp, _) ← r;
           p ← lpSeek lp (-3); p ← p;
           r ← lpInsert 170 lp (Some (replicate 100 120)) p LP_REPLACE; '(lp, _) ← r; Some lp in
  (lp ← r; elements lp)
    = Some [cstr "007"; replicate 100 120; cstr "-1234567"; cstr "-9223372036854775808"] /\
  (lp ← r; elements_back lp)
    = Some [cstr "-9223372036854775808"; cstr "-1234567"; replicate 100 120; cstr "007"] /\
  (lp ← r; lpLength lp) = (lp ← r; Some (4, lp)) /\
  (lp ← r; p ← lpSeek lp 1; p ← p; r ← lpDelete 170 lp p; '(lp, p) ← r; p ← p; element lp p) = Some (cstr "-1234567").
Proof. vm_compute. repeat split. Qed.

(** ** Numbers in the block *)

Lemma string_to_int_same p : forall v, lpStringToInt64_loop p v = string2ll_loop p v.
Proof.
  induction p as [|c p IH]; intros v; [done|]. cbn [lpStringToInt64_loop string2ll_loop]. fold (isdigit c).
  destruct (isdigit c); [|done]. destruct (v >? _); [done|]. cbv zeta. destruct (_ >? _); [done|]. apply IH.
Qed.

Lemma lpStringToInt64_spec s : lpStringToInt64 s = string2ll s.
Proof.
  destruct s as [|c rest]; [done|]. cbn [lpStringToInt64 string2ll].
  destruct ((zlen (c :: rest) =? 1) && (c =? ch_0)) eqn:E0; [done|]. cbv zeta.
  destruct (c =? ch_minus) eqn:Em.
  - destruct rest as [|d p]; [done|]. destruct ((d >=? ch_1) && (d <=? ch_9)).
    + rewrite string_to_int_same. by destruct (string2ll_loop p (d - ch_0)) as [[[|] v]|].
    + rewrite !zlen_cons. pose proof (zlen_nonneg p). by rewrite (proj2 (Z.eqb_neq (1 + (1 + zlen p)) 1)), andb_false_r by lia.
  - destruct ((c >=? ch_1) && (c <=? ch_9)).
    + rewrite string_to_int_same. by destruct (string2ll_loop rest (c - ch_0)) as [[[|] v]|].
    + by rewrite andb_comm, E0.
Qed.

Lemma zget_pre {A} (pre l : list A) k : 0 <= k -> zget (pre ++ l) (zlen pre + k) = zget l k.
Proof.
  intros Hk. unfold zget, zlen. zif_true. zif_true. rewrite lookup_app_r by lia. f_equal. lia.
Qed.

Lemma get_le_spec bs : forall pre post p shift acc, bytes_ok bs -> p = zlen pre -> 0 <= shift -> 0 <= acc < 2 ^ shift ->
  get_le (length bs) (pre ++ bs ++ post) p shift acc = Some (acc + le_val bs * 2 ^ shift).
Proof.
  induction bs as [|b bs IH]; intros pre post p shift acc Hb -> Hs Ha; cbn [length get_le le_val app].
  { f_equal. lia. }
  rewrite zget_app by done. mrun. apply Forall_cons in Hb as [Hb Hbs]. unfold is_byte in Hb.
  rewrite lor_low by lia. replace (pre ++ b :: bs ++ post) with ((pre ++ [b]) ++ bs ++ post) by (by rewrite <- app_assoc).
  rewrite IH; [|done|rewrite zlen_app; done|lia|].
  - f_equal. rewrite Z.pow_add_r by lia. change (2 ^ 8) with 256. ring.
  - rewrite Z.pow_add_r by lia. change (2 ^ 8) with 256. nia.
Qed.

Lemma put_le_spec n : forall pre old post p v, p = zlen pre -> length old = n ->
  put_le n (pre ++ old ++ post) p v = Some (pre ++ le_bytes n v ++ post).
Proof.
  induction n as [|n IH]; intros pre old post p v -> Hn; destruct old as [|x old]; try done. cbn [put_le le_bytes app].
  rewrite put_app by done. mrun. change 0xff with (Z.ones 8). rewrite Z.land_ones by lia. change (2 ^ 8) with 256.
  rewrite Z.shiftr_div_pow2 by lia. change (2 ^ 8) with 256.
  replace (pre ++ v mod 256 :: old ++ post) with ((pre ++ [v mod 256]) ++ old ++ post) by (by rewrite <- app_assoc).
  rewrite IH; [by rewrite <- app_assoc|by rewrite zlen_app|by injection Hn].
Qed.

(** ** Lengths that can be read backwards *)

(** Base 128, most significant digit first, every byte but the first marked. *)
Fixpoint backdigits (k : nat) (l : Z) : list Z :=
  match k with
  | O => [l]
  | S k => backdigits k (l / 128) ++ [128 + l mod 128]
  end.

Definition backdigits_count (l : Z) : nat :=
  if l <=? 127 then 0 else if l <? 16383 then 1 else if l <? 2097151 then 2 else if l <? 268435455 then 3 else 4.

Definition MAX_BACKLEN := 34359738367.

Lemma backdigits_length k l : length (backdigits k l) = S k.
Proof. revert l. induction k as [|k IH]; intros l; [done|]. cbn [backdigits]. rewrite length_app, IH. simpl. lia. Qed.

Lemma backdigits_ok k : forall l, 0 <= l < 128 ^ Z.of_nat (S k) -> bytes_ok (backdigits k l).
Proof.
  induction k as [|k IH]; intros l Hl; cbn [backdigits].
  - change (128 ^ Z.of_nat 1) with 128 in Hl. repeat constructor; unfold is_byte; lia.
  - rewrite Nat2Z.inj_succ, Z.pow_succ_r in Hl by lia. pose proof (Z.mod_pos_bound l 128 ltac:(lia)).
    apply Forall_app. split; [|repeat constructor; unfold is_byte; lia]. apply IH.
    split; [apply Z.div_pos; lia|apply Z.div_lt_upper_bound; lia].
Qed.

Lemma marked x : 0 <= x < 128 -> u8 (Z.lor x 128) = 128 + x.
Proof.
  intros Hx. change 128 with (Z.shiftl 1 7) at 1. rewrite lor_low by lia. rewrite uN_id by (change (2 ^ 8) with 256; lia). lia.
Qed.

Lemma low7 x : Z.land x 127 = x mod 128.
Proof. change 127 with (Z.ones 7). by rewrite Z.land_ones by lia. Qed.

Lemma lpEncodeBacklen_spec l : 0 <= l < MAX_BACKLEN ->
  lpEncodeBacklen l = (Z.of_nat (S (backdigits_count l)), backdigits (backdigits_count l) l) /\
  l < 128 ^ Z.of_nat (S (backdigits_count l)).
Proof.
  unfold MAX_BACKLEN. intros Hl. unfold lpEncodeBacklen, backdigits_count.
  rewrite !Z.shiftr_div_pow2, !low7 by lia.
  replace (l / 2 ^ 14) with (l / 128 / 128) by (by rewrite Z.div_div by lia).
  replace (l / 2 ^ 21) with (l / 128 / 128 / 128) by (by rewrite !Z.div_div by lia).
  replace (l / 2 ^ 28) with (l / 128 / 128 / 128 / 128) by (by rewrite !Z.div_div by lia).
  change (2 ^ 7) with 128.
  assert (Hm : forall x, 0 <= x mod 128 < 128) by (intros; apply Z.mod_pos_bound; lia).
  rewrite !marked by apply Hm.
  destruct (Z.leb_spec l 127); [|destruct (Z.ltb_spec l 16383); [|destruct (Z.ltb_spec l 2097151); [|destruct (Z.ltb_spec l 268435455)]]];
    cbn [backdigits app]; (split; [rewrite uN_id by (rewrite ?Z.div_div by lia; split;
      [try apply Z.div_pos; lia|try apply Z.div_lt_upper_bound; lia]); reflexivity|
      match goal with |- l < ?x => let y := eval vm_compute in x in change x with y end; lia]).
Qed.

Lemma decode_loop_spec k : forall fuel l val shift pre post p, (k < fuel)%nat -> 0 <= l < 128 ^ Z.of_nat (S k) ->
  0 <= shift -> shift + 7 * Z.of_nat k <= 28 -> 0 <= val < 2 ^ shift -> p = zlen pre + Z.of_nat k ->
  lpDecodeBacklen_loop fuel (pre ++ backdigits k l ++ post) p val shift = Some (val + l * 2 ^ shift).
Proof.
  assert (Hstep : forall x val shift, 0 <= x < 128 -> 0 <= shift <= 28 -> 0 <= val < 2 ^ shift ->
    Z.lor val (u64 (Z.shiftl x shift)) = val + x * 2 ^ shift).
  { intros x val shift Hx Hs Hv. assert (H28 : 2 ^ shift <= 2 ^ 28) by (apply Z.pow_le_mono_r; lia).
    rewrite u64_id by (rewrite Z.shiftl_mul_pow2 by lia; unfold in_u64, ULLONG_MAX; nia). apply lor_low; lia. }
  induction k as [|k IH]; intros fuel l val shift pre post p Hf Hl Hs Hm Hv ->; (destruct fuel as [|fuel]; [lia|]);
    cbn [lpDecodeBacklen_loop backdigits app].
  - change (128 ^ Z.of_nat 1) with 128 in Hl. rewrite zget_app by lia. mrun. cbv zeta.
    rewrite low7, Z.mod_small by lia. rewrite Hstep by lia.
    replace (Z.land l 128 =? 0) with true; [done|]. symmetry. apply Z.eqb_eq.
    change 128 with (2 ^ 7). apply Z.bits_inj'. intros i Hi. rewrite Z.land_spec, Z.bits_0, Z.pow2_bits_eqb by lia.
    destruct (Z.eqb_spec 7 i) as [<-|]; [|apply andb_false_r]. rewrite andb_true_r.
    rewrite <- (Z.mod_small l (2 ^ 7)) by (change (2 ^ 7) with 128; lia). by apply Z.mod_pow2_bits_high.
  - pose proof (Z.mod_pos_bound l 128 ltac:(lia)) as Hmod. rewrite Nat2Z.inj_succ, Z.pow_succ_r in Hl by lia.
    rewrite <- app_assoc, app_assoc. cbn [app].
    rewrite zget_app by (rewrite zlen_app; unfold zlen at 3; rewrite backdigits_length; lia). mrun. cbv zeta.
    rewrite low7, <- Zplus_mod_idemp_l. change (128 mod 128) with 0. rewrite Z.add_0_l, Z.mod_mod, Hstep by lia.
    replace (Z.land (128 + l mod 128) 128 =? 0) with false.
    2:{ symmetry. apply Z.eqb_neq. replace (128 + l mod 128) with (Z.lor (l mod 128) 128).
        - rewrite Z.land_lor_distr_l. intros E%Z.lor_eq_0_iff. destruct E as [_ E]. discriminate E.
        - change 128 with (Z.shiftl 1 7) at 2. rewrite lor_low by (change (2 ^ 7) with 128; lia). lia. }
    zif_false. rewrite <- app_assoc. rewrite IH.
    + f_equal. rewrite Z.pow_add_r by lia. change (2 ^ 7) with 128. pose proof (Z.div_mod l 128 ltac:(lia)). nia.
    + lia.
    + split; [apply Z.div_pos; lia|apply Z.div_lt_upper_bound; lia].
    + lia.
    + lia.
    + rewrite Z.pow_add_r by lia. change (2 ^ 7) with 128. nia.
    + lia.
Qed.

(** ** The format of an element *)

Definition int_body (v : Z) : list Z :=
  if (0 <=? v) && (v <=? 127) then [v]
  else if (-4096 <=? v) && (v <=? 4095) then [192 + v mod 8192 / 256; v mod 256]
  else if (-32768 <=? v) && (v <=? 32767) then 241 :: le_bytes 2 v
  else if (-8388608 <=? v) && (v <=? 8388607) then 242 :: le_bytes 3 v
  else if (-2147483648 <=? v) && (v <=? 2147483647) then 243 :: le_bytes 4 v
  else 244 :: le_bytes 8 v.

Definition str_head (len : Z) : list Z :=
  if len <? 64 then [128 + len]
  else if len <? 4096 then [224 + len / 256; len mod 256]
  else 240 :: le_bytes 4 len.

Definition body (s : list Z) : list Z :=
  match string2ll s with Some v => int_body v | None => str_head (zlen s) ++ s end.

Definition entry (s : list Z) : list Z := body s ++ backdigits (backdigits_count (zlen (body s))) (zlen (body s)).

(** The encoding byte, by ranges. *)
Lemma kinds b : is_byte b ->
  LP_ENCODING_IS_7BIT_UINT b = (b <? 128) /\
  LP_ENCODING_IS_6BIT_STR b = (128 <=? b) && (b <? 192) /\
  LP_ENCODING_IS_13BIT_INT b = (192 <=? b) && (b <? 224) /\
  LP_ENCODING_IS_12BIT_STR b = (224 <=? b) && (b <? 240) /\
  LP_ENCODING_IS_16BIT_INT b = (b =? 241) /\ LP_ENCODING_IS_24BIT_INT b = (b =? 242) /\
  LP_ENCODING_IS_32BIT_INT b = (b =? 243) /\ LP_ENCODING_IS_64BIT_INT b = (b =? 244) /\
  LP_ENCODING_IS_32BIT_STR b = (b =? 240).
Proof.
  intros Hb. pose proof (forall_below (fun b =>
    eqb (LP_ENCODING_IS_7BIT_UINT b) (b <? 128) && eqb (LP_ENCODING_IS_6BIT_STR b) ((128 <=? b) && (b <? 192)) &&
    eqb (LP_ENCODING_IS_13BIT_INT b) ((192 <=? b) && (b <? 224)) &&
    eqb (LP_ENCODING_IS_12BIT_STR b) ((224 <=? b) && (b <? 240)) && eqb (LP_ENCODING_IS_16BIT_INT b) (b =? 241) &&
    eqb (LP_ENCODING_IS_24BIT_INT b) (b =? 242) && eqb (LP_ENCODING_IS_32BIT_INT b) (b =? 243) &&
    eqb (LP_ENCODING_IS_64BIT_INT b) (b =? 244) && eqb (LP_ENCODING_IS_32BIT_STR b) (b =? 240)) 256
    ltac:(vm_compute; reflexivity) b Hb) as H. cbn beta in H.
  repeat (apply andb_true_iff in H; destruct H as [H ?]). rewrite !eqb_true_iff in *. tauto.
Qed.

(** Decide the tests on an encoding byte whose range is known. *)
Ltac kind b :=
  let H := fresh in
  pose proof (kinds b ltac:(unfold is_byte; lia)) as H;
  destruct H as (-> & -> & -> & -> & -> & -> & -> & -> & ->);
  repeat first
    [ rewrite (proj2 (Z.ltb_lt b _)) by lia | rewrite (proj2 (Z.ltb_ge b _)) by lia
    | rewrite (proj2 (Z.leb_le _ b)) by lia | rewrite (proj2 (Z.leb_gt _ b)) by lia
    | rewrite (proj2 (Z.eqb_eq b _)) by lia | rewrite (proj2 (Z.eqb_neq b _)) by lia ];
  cbn [andb].

Lemma land_mod n x : 0 <= n -> Z.land x (Z.ones n) = x mod 2 ^ n.
Proof. intros. by apply Z.land_ones. Qed.

Lemma byte_of x : u8 (Z.land x 0xff) = x mod 256.
Proof.
  change 0xff with (Z.ones 8). rewrite land_mod by lia. rewrite uN_id; [done|]. apply Z.mod_pos_bound. lia.
Qed.

Lemma le_bytes_mod n : forall x m, (m mod 256 ^ Z.of_nat n = x mod 256 ^ Z.of_nat n) -> le_bytes n m = le_bytes n x.
Proof.
  intros x m H. rewrite <- (le_bytes_val (le_bytes n m)), <- (le_bytes_val (le_bytes n x)) by apply le_bytes_ok.
  rewrite !le_bytes_length, !le_val_bytes. unfold uN.
  replace (2 ^ (8 * Z.of_nat n)) with (256 ^ Z.of_nat n) by (rewrite Z.pow_mul_r by lia; done). by rewrite H.
Qed.

(** A negative number in two's complement. *)
Lemma complement n v : 0 <= n -> (if v <? 0 then Z.shiftl 1 n + v else v) mod 2 ^ n = v mod 2 ^ n.
Proof.
  intros Hn. rewrite Z.shiftl_1_l. destruct (v <? 0); [|done]. rewrite <- Zplus_mod_idemp_l, Z.mod_same; [done|].
  apply Z.pow_nonzero; lia.
Qed.

(** The bytes the code stores one by one. *)
Lemma shiftr_bytes k : forall w, Z.shiftr w (8 * Z.of_nat k) = Nat.iter k (fun x => x / 256) w.
Proof.
  induction k as [|k IH]; intros w; [by rewrite Z.shiftr_0_r|]. cbn [Nat.iter nat_rect].
  replace (8 * Z.of_nat (S k)) with (8 * Z.of_nat k + 8) by lia. rewrite <- Z.shiftr_shiftr by lia.
  rewrite IH, Z.shiftr_div_pow2 by lia. done.
Qed.

Lemma u8_mod x : u8 x = x mod 256.
Proof. reflexivity. Qed.

Lemma stored_bytes w :
  [u8 (Z.land w 0xff); u8 (Z.shiftr w 8)] = le_bytes 2 w /\
  [u8 (Z.land w 0xff); u8 (Z.land (Z.shiftr w 8) 0xff); u8 (Z.shiftr w 16)] = le_bytes 3 w /\
  [u8 (Z.land w 0xff); u8 (Z.land (Z.shiftr w 8) 0xff); u8 (Z.land (Z.shiftr w 16) 0xff); u8 (Z.shiftr w 24)]
    = le_bytes 4 w /\
  [u8 (Z.land w 0xff); u8 (Z.land (Z.shiftr w 8) 0xff); u8 (Z.land (Z.shiftr w 16) 0xff);
   u8 (Z.land (Z.shiftr w 24) 0xff); u8 (Z.land (Z.shiftr w 32) 0xff); u8 (Z.land (Z.shiftr w 40) 0xff);
   u8 (Z.land (Z.shiftr w 48) 0xff); u8 (Z.shiftr w 56)] = le_bytes 8 w.
Proof.
  rewrite !byte_of.
  rewrite (shiftr_bytes 1 w : Z.shiftr w 8 = _), (shiftr_bytes 2 w : Z.shiftr w 16 = _), (shiftr_bytes 3 w : Z.shiftr w 24 = _),
    (shiftr_bytes 4 w : Z.shiftr w 32 = _), (shiftr_bytes 5 w : Z.shiftr w 40 = _), (shiftr_bytes 6 w : Z.shiftr w 48 = _), (shiftr_bytes 7 w : Z.shiftr w 56 = _).
  rewrite !u8_mod. done.
Qed.

Lemma le_bytes_complement n v w : w mod 2 ^ (8 * Z.of_nat n) = v mod 2 ^ (8 * Z.of_nat n) -> le_bytes n w = le_bytes n v.
Proof. intros H. apply le_bytes_mod. rewrite Z.pow_mul_r in H by lia. exact H. Qed.

Lemma lpEncodeGetType_spec s : zlen s + 5 <= UINT32_MAX -> lpEncodeGetType s =
  match string2ll s with
  | Some v => (LP_ENCODING_INT (int_body v), zlen (int_body v))
  | None => (LP_ENCODING_STRING, zlen (body s))
  end.
Proof.
  intros Hfit. unfold lpEncodeGetType, body. rewrite lpStringToInt64_spec. destruct (string2ll s) as [v|] eqn:E.
  2:{ unfold str_head. rewrite zlen_app. pose proof (zlen_nonneg s). destruct (_ <? _); [reflexivity|]. destruct (_ <? _); [reflexivity|].
      by rewrite u32_id by (unfold UINT32_MAX in Hfit; lia). }
  apply string2ll_spec in E as [Hv _]. unfold int_body. rewrite !Z.geb_leb.
  destruct ((0 <=? v) && (v <=? 127)) eqn:E1; [zbool; rewrite uN_id by (change (2 ^ 8) with 256; lia); done|].
  destruct ((-4096 <=? v) && (v <=? 4095)) eqn:E2.
  { zbool. set (w := if v <? 0 then _ else v).
    assert (Hw : w = v mod 8192).
    { unfold w. change (Z.shiftl 1 13) with 8192. destruct (Z.ltb_spec v 0).
      - apply Z.mod_unique with (-1); lia.
      - rewrite Z.mod_small; lia. }
    pose proof (Z.mod_pos_bound v 8192 ltac:(lia)) as Hr. rewrite <- Hw in Hr.
    rewrite byte_of, Z.shiftr_div_pow2 by lia. change (2 ^ 8) with 256. change 0xC0 with (Z.shiftl 6 5).
    assert (0 <= w / 256 < 32) by (split; [apply Z.div_pos; lia|apply Z.div_lt_upper_bound; lia]).
    rewrite lor_low, uN_id by (change (2 ^ 5) with 32; change (2 ^ 8) with 256; lia).
    change (6 * 2 ^ 5) with 192. rewrite <- Hw.
    replace (v mod 256) with (w mod 256) by (rewrite Hw; symmetry; by apply (Znumtheory.Zmod_div_mod 256 8192 v); [lia|lia|exists 32]).
    replace (w / 256 + 192) with (192 + w / 256) by lia. done. }
  destruct ((-32768 <=? v) && (v <=? 32767)) eqn:E3.
  { set (w := if v <? 0 then _ else v). destruct (stored_bytes w) as (-> & _).
    rewrite (le_bytes_complement 2 v w) by (by apply complement). done. }
  destruct ((-8388608 <=? v) && (v <=? 8388607)) eqn:E4.
  { set (w := if v <? 0 then _ else v). destruct (stored_bytes w) as (_ & -> & _).
    rewrite (le_bytes_complement 3 v w) by (by apply complement). done. }
  destruct ((-2147483648 <=? v) && (v <=? 2147483647)) eqn:E5.
  { set (w := if v <? 0 then _ else v). destruct (stored_bytes w) as (_ & _ & -> & _).
    rewrite (le_bytes_complement 4 v w) by (by apply complement). done. }
  destruct (stored_bytes (u64 v)) as (_ & _ & _ & ->).
  rewrite (le_bytes_complement 8 v (u64 v)); [done|]. unfold uN. by rewrite Z.mod_mod by lia.
Qed.

(** *** Reading an element *)

Definition to_signed (uval negstart negmax : Z) : Z :=
  if uval >=? negstart then - s64 (u64 (negmax - uval)) - 1 else s64 uval.

Lemma to_signed_spec n v : 1 <= n <= 64 -> - 2 ^ (n - 1) <= v < 2 ^ (n - 1) ->
  to_signed (v mod 2 ^ n) (2 ^ (n - 1)) (2 ^ n - 1) = v.
Proof.
  intros Hn Hv. unfold to_signed. assert (Hp : 2 ^ n = 2 * 2 ^ (n - 1)) by (rewrite <- Z.pow_succ_r by lia; f_equal; lia).
  assert (Hle : 2 ^ (n - 1) <= 2 ^ 63) by (apply Z.pow_le_mono_r; lia). rewrite Z.geb_leb.
  destruct (Z.lt_ge_cases v 0) as [Hneg|Hpos].
  - replace (v mod 2 ^ n) with (v + 2 ^ n) by (apply Z.mod_unique with (-1); lia). zif_true.
    rewrite u64_id, s64_id by (unfold in_u64, in_s64, ULLONG_MAX, LLONG_MIN, LLONG_MAX; lia). lia.
  - rewrite Z.mod_small by lia. zif_false. apply s64_id. unfold in_s64, LLONG_MIN, LLONG_MAX. lia.
Qed.

Lemma to_signed_small x : 0 <= x <= 127 -> to_signed x ULLONG_MAX 0 = x.
Proof. intros Hx. unfold to_signed, ULLONG_MAX. zif_false. apply s64_id. unfold in_s64, LLONG_MIN, LLONG_MAX. lia. Qed.

(** What decoding an element at [zlen pre] must give. *)
Definition decodes (pre b post s : list Z) : Prop :=
  lpCurrentEncodedSize (pre ++ b ++ post) (zlen pre) = Some (zlen b) /\
  element (pre ++ b ++ post) (zlen pre) = Some s /\
  exists c r, b = c :: r /\ is_byte c /\ c <> LP_EOF.

Lemma decodes_int pre b post s v uval negstart negmax c r :
  string2ll s = Some v -> b = c :: r -> is_byte c -> c <> LP_EOF ->
  lpCurrentEncodedSize (pre ++ b ++ post) (zlen pre) = Some (zlen b) ->
  lpGet_decode (pre ++ b ++ post) (zlen pre) = Some (inr (uval, negstart, negmax)) ->
  to_signed uval negstart negmax = v -> decodes pre b post s.
Proof.
  intros Es -> Hc He Hsz Hget Hv. split; [done|]. split; [|by exists c, r].
  unfold element, lpGet. rewrite Hget. mrun. fold (to_signed uval negstart negmax). rewrite Hv.
  apply string2ll_spec in Es as [_ ->]. done.
Qed.

Lemma decodes_str pre h post s c r :
  h = c :: r -> is_byte c -> c <> LP_EOF ->
  lpCurrentEncodedSize (pre ++ (h ++ s) ++ post) (zlen pre) = Some (zlen (h ++ s)) ->
  lpGet_decode (pre ++ (h ++ s) ++ post) (zlen pre) = Some (inl (zlen pre + zlen h, zlen s)) ->
  decodes pre (h ++ s) post s.
Proof.
  intros -> Hc He Hsz Hget. split; [done|]. split; [|exists c, (r ++ s); by split].
  unfold element, lpGet. rewrite Hget. mrun. rewrite <- zlen_app, <- app_assoc, app_assoc. apply mem_read_app.
Qed.

Lemma get_le_at pre c bs post : bytes_ok bs ->
  get_le (length bs) (pre ++ (c :: bs) ++ post) (zlen pre + 1) 0 0 = Some (le_val bs).
Proof.
  intros Hb. replace (pre ++ (c :: bs) ++ post) with ((pre ++ [c]) ++ bs ++ post) by (by rewrite <- app_assoc).
  rewrite get_le_spec; [f_equal; lia|done|by rewrite zlen_app|lia|lia].
Qed.

Lemma get_le_bytes_at n pre c v post :
  get_le n (pre ++ (c :: le_bytes n v) ++ post) (zlen pre + 1) 0 0 = Some (v mod 2 ^ (8 * Z.of_nat n)).
Proof.
  rewrite <- (le_bytes_length n v) at 1. rewrite get_le_at by apply le_bytes_ok. by rewrite le_val_bytes.
Qed.

Lemma int_body_ok v : in_s64 v -> forall pre post s, string2ll s = Some v -> decodes pre (int_body v) post s.
Proof.
  intros Hv pre post s Es. unfold int_body.
  assert (Hz : forall c r, zget (pre ++ (c :: r) ++ post) (zlen pre) = Some c) by (intros; by apply zget_app).
  destruct ((0 <=? v) && (v <=? 127)) eqn:E1.
  { zbool. eapply (decodes_int pre [v] post s v v ULLONG_MAX 0 v []); [done|done|unfold is_byte; lia|unfold LP_EOF; lia|..].
    - unfold lpCurrentEncodedSize. rewrite Hz. mrun. kind v. done.
    - unfold lpGet_decode. rewrite Hz. mrun. kind v. rewrite low7, Z.mod_small by lia. done.
    - by apply to_signed_small. }
  destruct ((-4096 <=? v) && (v <=? 4095)) eqn:E2.
  { zbool. pose proof (Z.mod_pos_bound v 8192 ltac:(lia)) as Hr. pose proof (Z.mod_pos_bound v 256 ltac:(lia)).
    assert (0 <= v mod 8192 / 256 < 32) by (split; [apply Z.div_pos; lia|apply Z.div_lt_upper_bound; lia]).
    set (c := 192 + v mod 8192 / 256).
    apply (decodes_int pre [c; v mod 256] post s v (v mod 2 ^ 13) (2 ^ (13 - 1)) (2 ^ 13 - 1) c [v mod 256]);
      [done|done|unfold is_byte, c; lia|unfold LP_EOF, c; lia|..].
    - unfold lpCurrentEncodedSize. rewrite Hz. mrun. kind c. done.
    - unfold lpGet_decode. rewrite Hz. mrun. kind c. rewrite zget_pre by lia. cbn [app]. change (zget (c :: ?x :: ?l) 1) with (Some x).
      mrun. do 4 f_equal. change 0x1f with (Z.ones 5). rewrite Z.land_ones by lia. unfold c.
      rewrite Z.lor_comm, lor_low by (change (2 ^ 8) with 256; lia). change (2 ^ 5) with 32. change (2 ^ 8) with 256.
      replace ((192 + v mod 8192 / 256) mod 32) with (v mod 8192 / 256) by (apply Z.mod_unique with 6; lia).
      rewrite (Znumtheory.Zmod_div_mod 256 8192 v) by (lia || by exists 32).
      pose proof (Z.div_mod (v mod 8192) 256 ltac:(lia)). change (2 ^ 13) with 8192. lia.
    - apply to_signed_spec; [lia|]. change (2 ^ (13 - 1)) with 4096. lia. }
  destruct ((-32768 <=? v) && (v <=? 32767)) eqn:E3; [|destruct ((-8388608 <=? v) && (v <=? 8388607)) eqn:E4;
    [|destruct ((-2147483648 <=? v) && (v <=? 2147483647)) eqn:E5]]; zbool;
  [set (n := 2%nat)|set (n := 3%nat)|set (n := 4%nat)|set (n := 8%nat)];
  match goal with |- decodes _ (?c :: _) _ _ =>
    eapply (decodes_int pre (c :: le_bytes n v) post s v (v mod 2 ^ (8 * Z.of_nat n)) (2 ^ (8 * Z.of_nat n - 1))
      (2 ^ (8 * Z.of_nat n) - 1) c); [done|done|unfold is_byte; lia|done|..] end.
  all: try (unfold lpCurrentEncodedSize; rewrite Hz; mrun; unfold zlen; cbn [length]; rewrite le_bytes_length; reflexivity).
  all: try (apply to_signed_spec; [unfold n; lia|]; unfold in_s64, LLONG_MIN, LLONG_MAX in Hv; unfold n; simpl; lia).
  all: unfold lpGet_decode; rewrite Hz; mrun; rewrite get_le_bytes_at; reflexivity.
Qed.

Lemma str_body_ok s : bytes_ok s -> zlen s + 5 <= UINT32_MAX -> forall pre post,
  decodes pre (str_head (zlen s) ++ s) post s.
Proof.
  intros Hs Hmax pre post. pose proof (zlen_nonneg s) as H0. unfold str_head.
  assert (Hz : forall c r, zget (pre ++ c :: r) (zlen pre) = Some c) by (intros; by apply zget_app).
  destruct (Z.ltb_spec (zlen s) 64); [|destruct (Z.ltb_spec (zlen s) 4096)].
  - set (c := 128 + zlen s).
    assert (Hl : Z.land c 0x3F = zlen s).
    { change 0x3F with (Z.ones 6). rewrite Z.land_ones by lia. unfold c. symmetry. apply Z.mod_unique with 2; lia. }
    apply (decodes_str pre [c] post s c []); [done|unfold is_byte, c; lia|unfold LP_EOF, c; lia|..].
    + unfold lpCurrentEncodedSize, LP_ENCODING_6BIT_STR_LEN. cbn [app]. rewrite !Hz. mrun. kind c. by rewrite Hl, zlen_cons.
    + unfold lpGet_decode, LP_ENCODING_6BIT_STR_LEN. cbn [app]. rewrite !Hz. mrun. kind c. by rewrite Hl.
  - set (c := 224 + zlen s / 256).
    assert (0 <= zlen s / 256 < 16) by (split; [apply Z.div_pos; lia|apply Z.div_lt_upper_bound; lia]).
    pose proof (Z.mod_pos_bound (zlen s) 256 ltac:(lia)).
    assert (Hl : LP_ENCODING_12BIT_STR_LEN (pre ++ ([c; zlen s mod 256] ++ s) ++ post) (zlen pre) = Some (zlen s)).
    { unfold LP_ENCODING_12BIT_STR_LEN. cbn [app]. rewrite Hz. mrun. rewrite zget_pre by lia.
      change (zget (c :: ?x :: ?l) 1) with (Some x). mrun. f_equal.
      change 0xF with (Z.ones 4). rewrite Z.land_ones by lia. change (2 ^ 4) with 16.
      replace (c mod 16) with (zlen s / 256) by (unfold c; apply Z.mod_unique with 14; lia).
      rewrite Z.lor_comm, lor_low by (change (2 ^ 8) with 256; lia). change (2 ^ 8) with 256.
      pose proof (Z.div_mod (zlen s) 256 ltac:(lia)). lia. }
    apply (decodes_str pre [c; zlen s mod 256] post s c [zlen s mod 256]);
      [done|unfold is_byte, c; lia|unfold LP_EOF, c; lia|..].
    + unfold lpCurrentEncodedSize. rewrite Hl. cbn [app]. rewrite Hz. mrun. kind c. by rewrite !zlen_cons, Z.add_assoc.
    + unfold lpGet_decode. rewrite Hl. cbn [app]. rewrite Hz. mrun. kind c. done.
  - assert (Hl : LP_ENCODING_32BIT_STR_LEN (pre ++ ((240 :: le_bytes 4 (zlen s)) ++ s) ++ post) (zlen pre) = Some (zlen s)).
    { unfold LP_ENCODING_32BIT_STR_LEN. rewrite <- app_assoc. rewrite get_le_bytes_at. f_equal. apply Z.mod_small.
      unfold UINT32_MAX in Hmax. change (2 ^ (8 * Z.of_nat 4)) with 4294967296. lia. }
    apply (decodes_str pre (240 :: le_bytes 4 (zlen s)) post s 240 (le_bytes 4 (zlen s))); [done|unfold is_byte; lia|done|..].
    + unfold lpCurrentEncodedSize. rewrite Hl. cbn [app]. rewrite Hz. mrun.
      change (u32 (5 + zlen s)) with (u32 (5 + zlen s)). rewrite zlen_cons, zlen_app, le_bytes_zlen.
      rewrite u32_id by (unfold UINT32_MAX in Hmax; lia). cbn -[Z.add]. f_equal. lia.
    + unfold lpGet_decode. rewrite Hl. cbn [app]. rewrite Hz. mrun. rewrite zlen_cons, le_bytes_zlen. reflexivity.
Qed.

Lemma lp_body_ok s : bytes_ok s -> zlen s + 5 <= UINT32_MAX -> forall pre post, decodes pre (body s) post s.
Proof.
  intros Hs Hm pre post. unfold body. destruct (string2ll s) as [v|] eqn:E; [|by apply str_body_ok].
  apply int_body_ok; [|done]. by apply string2ll_spec in E as [? _].
Qed.

Lemma body_size s : 1 <= zlen (body s) <= zlen s + 9.
Proof.
  pose proof (zlen_nonneg s). unfold body. destruct (string2ll s) as [v|].
  - unfold int_body. repeat destruct (_ && _); rewrite ?zlen_cons, ?le_bytes_zlen; try change (zlen []) with 0; lia.
  - unfold str_head. rewrite zlen_app. repeat destruct (_ <? _); rewrite ?zlen_cons, ?le_bytes_zlen; try change (zlen []) with 0; lia.
Qed.

(** ** The block as a list of strings *)

Definition entries (ss : list (list Z)) : list Z := ss ≫= entry.

(** The offset of the element after [a]. *)
Definition off (a : list (list Z)) : Z := LP_HDR_SIZE + zlen (entries a).

Definition str_ok (s : list Z) : Prop := bytes_ok s /\ zlen s + 5 <= UINT32_MAX.

Record shape (lp : list Z) (ss : list (list Z)) : Prop := {
  sh_block : exists hdr, zlen hdr = LP_HDR_SIZE /\ lp = hdr ++ entries ss ++ [LP_EOF];
  sh_ok : Forall str_ok ss }.

(** The header counts the bytes, and the elements unless it says that it does not know. *)
Definition header (total num : Z) : list Z := le_bytes 4 total ++ le_bytes 2 num.

Definition count_ok (num : Z) (ss : list (list Z)) : Prop :=
  num = LP_HDR_NUMELE_UNKNOWN \/ (num = zlen ss /\ zlen ss < LP_HDR_NUMELE_UNKNOWN).

Record rep (lp : list Z) (ss : list (list Z)) : Prop := {
  rep_block : exists num, count_ok num ss /\ lp = header (zlen lp) num ++ entries ss ++ [LP_EOF];
  rep_max : zlen lp <= UINT32_MAX;
  rep_ok : Forall str_ok ss }.

Lemma header_zlen total num : zlen (header total num) = LP_HDR_SIZE.
Proof. unfold header. rewrite zlen_app, !le_bytes_zlen. done. Qed.

Lemma rep_shape lp ss : rep lp ss -> shape lp ss.
Proof. intros [(num & _ & E) _ Hok]. split; [|done]. exists (header (zlen lp) num). split; [apply header_zlen|done]. Qed.

Lemma entries_app a b : entries (a ++ b) = entries a ++ entries b.
Proof. apply bind_app. Qed.

Lemma entries_cons s b : entries (s :: b) = entry s ++ entries b.
Proof. done. Qed.

Lemma off_snoc a s : off (a ++ [s]) = off a + zlen (entry s).
Proof. unfold off. rewrite entries_app, zlen_app. unfold entries at 2. simpl. rewrite app_nil_r. lia. Qed.

Lemma str_fits s : str_ok s -> zlen s <= UINT32_MAX.
Proof. intros [_ Hm]. lia. Qed.

Lemma backlen_ok s : zlen s <= UINT32_MAX ->
  lpEncodeBacklen (zlen (body s))
  = (Z.of_nat (S (backdigits_count (zlen (body s)))), backdigits (backdigits_count (zlen (body s))) (zlen (body s))) /\
  0 <= zlen (body s) < 128 ^ Z.of_nat (S (backdigits_count (zlen (body s)))).
Proof.
  intros Hm. pose proof (body_size s) as Hb. unfold UINT32_MAX in Hm.
  destruct (lpEncodeBacklen_spec (zlen (body s))) as [E Hlt]; [unfold MAX_BACKLEN; lia|]. split; [done|lia].
Qed.

Lemma entry_zlen s : zlen s <= UINT32_MAX -> zlen (entry s) = zlen (body s) + fst (lpEncodeBacklen (zlen (body s))).
Proof.
  intros Hs. destruct (backlen_ok s Hs) as [-> _]. unfold entry. rewrite zlen_app. unfold zlen at 2.
  rewrite backdigits_length. done.
Qed.

Lemma shape_split lp a s b : shape lp (a ++ s :: b) -> str_ok s /\
  exists pre post, lp = pre ++ body s ++ post /\ zlen pre = off a.
Proof.
  intros [(hdr & Hh & ->) Hok]. apply Forall_app in Hok as [_ [Hs _]%Forall_cons]. split; [done|].
  rewrite entries_app, entries_cons. unfold entry.
  eexists (hdr ++ entries a), _. split; [by rewrite <- !app_assoc|]. rewrite zlen_app, Hh. done.
Qed.

Lemma element_at lp a s b : shape lp (a ++ s :: b) -> element lp (off a) = Some s.
Proof.
  intros H. apply shape_split in H as [[Hb Hm] (pre & post & -> & <-)]. apply (lp_body_ok s Hb Hm pre post).
Qed.

Lemma size_at lp a s b : shape lp (a ++ s :: b) -> lpCurrentEncodedSize lp (off a) = Some (zlen (body s)).
Proof.
  intros H. apply shape_split in H as [[Hb Hm] (pre & post & -> & <-)]. apply (lp_body_ok s Hb Hm pre post).
Qed.

Lemma skip_at lp a s b : shape lp (a ++ s :: b) -> lpSkip lp (off a) = Some (off (a ++ [s])).
Proof.
  intros H. unfold lpSkip. rewrite (size_at _ _ _ _ H). mrun. rewrite off_snoc, entry_zlen; [done|].
  apply shape_split in H as [? _]. by apply str_fits.
Qed.

(** The pointer to the element after [a], NULL when there is none. *)
Definition ptr (a b : list (list Z)) : option Z := match b with [] => None | _ => Some (off a) end.

Lemma eof_at lp a b : shape lp (a ++ b) -> at_eof lp (off a) = Some (ptr a b).
Proof.
  intros H. unfold at_eof. destruct b as [|s b].
  - destruct H as [(hdr & Hh & ->) _]. rewrite app_nil_r, app_assoc, zget_app by (rewrite zlen_app, Hh; done). done.
  - apply shape_split in H as [[Hb Hm] (pre & post & -> & Hp)].
    destruct (lp_body_ok s Hb Hm pre post) as (_ & _ & c & r & -> & _ & Hc). cbn [app ptr]. rewrite <- Hp, zget_app by done. mrun.
    by rewrite (proj2 (Z.eqb_neq c LP_EOF) Hc).
Qed.

Lemma first_at lp ss : shape lp ss -> lpFirst lp = Some (ptr [] ss).
Proof. intros H. apply (eof_at lp [] ss H). Qed.

Lemma next_at lp a s b : shape lp (a ++ s :: b) -> lpNext lp (off a) = Some (ptr (a ++ [s]) b).
Proof.
  intros H. unfold lpNext. rewrite (skip_at _ _ _ _ H). mrun. apply eof_at. by rewrite <- app_assoc.
Qed.

Lemma prev_at lp a s b : shape lp (a ++ [s] ++ b) -> lpPrev lp (off (a ++ [s])) = Some (Some (off a)).
Proof.
  intros H. pose proof (shape_split lp a s b H) as [Hs _]. destruct (backlen_ok s (str_fits s Hs)) as [Eb Hr].
  destruct H as [(hdr & Hh & ->) _]. unfold lpPrev. pose proof (zlen_nonneg (entries a)) as Ha0.
  assert (Hpos : off (a ++ [s]) = off a + zlen (body s) + Z.of_nat (S (backdigits_count (zlen (body s))))).
  { rewrite off_snoc, entry_zlen, Eb by (by apply str_fits). cbn [fst]. lia. }
  rewrite (proj2 (Z.eqb_neq _ _)) by (rewrite Hpos; unfold off; pose proof (zlen_nonneg (body s)); lia). cbv zeta.
  assert (Hd : lpDecodeBacklen (hdr ++ entries (a ++ [s] ++ b) ++ [LP_EOF]) (off (a ++ [s]) - 1) = Some (zlen (body s))).
  { rewrite !entries_app. unfold entries at 2. cbn [mbind list_bind]. rewrite app_nil_r. unfold entry. rewrite <- !app_assoc.
    rewrite (app_assoc hdr), (app_assoc (hdr ++ _)). unfold lpDecodeBacklen.
    set (k := backdigits_count _) in *.
    assert (k <= 4)%nat by (unfold k, backdigits_count; repeat destruct (_ <=? _); repeat destruct (_ <? _); lia).
    rewrite (decode_loop_spec k 5); [f_equal; lia|lia|done|lia|lia|simpl; lia|].
    rewrite Hpos, !zlen_app, Hh. unfold off. lia. }
  rewrite Hd. mrun. rewrite Eb. cbn [fst]. f_equal. f_equal. destruct Hs as [_ Hm]. pose proof (body_size s). unfold UINT32_MAX in Hm.
  rewrite u64_id; [lia|]. unfold in_u64, ULLONG_MAX. unfold backdigits_count. repeat destruct (_ <=? _); repeat destruct (_ <? _); lia.
Qed.

Lemma prev_first lp : lpPrev lp (off []) = Some None.
Proof. done. Qed.

(** *** The header *)

Lemma total_at total num rest : 0 <= total <= UINT32_MAX -> lpGetTotalBytes (header total num ++ rest) = Some total.
Proof.
  intros Ht. unfold lpGetTotalBytes, header. rewrite <- app_assoc.
  pose proof (get_le_spec (le_bytes 4 total) [] (le_bytes 2 num ++ rest) 0 0 0 (le_bytes_ok 4 total) eq_refl
    ltac:(lia) ltac:(lia)) as E. rewrite le_bytes_length, le_val_bytes in E. cbn [app] in E. rewrite E.
  rewrite uN_id; [f_equal; lia|]. unfold UINT32_MAX in Ht. change (2 ^ (8 * Z.of_nat 4)) with 4294967296. lia.
Qed.

Lemma num_at total num rest : 0 <= num <= UINT16_MAX -> lpGetNumElements (header total num ++ rest) = Some num.
Proof.
  intros Hn. unfold lpGetNumElements, header. rewrite <- app_assoc.
  pose proof (get_le_spec (le_bytes 2 num) (le_bytes 4 total) rest 4 0 0 (le_bytes_ok 2 num) eq_refl
    ltac:(lia) ltac:(lia)) as E. rewrite le_bytes_length, le_val_bytes in E. rewrite E.
  rewrite uN_id; [f_equal; lia|]. unfold UINT16_MAX in Hn. change (2 ^ (8 * Z.of_nat 2)) with 65536. lia.
Qed.

Lemma set_total total total' num rest : lpSetTotalBytes (header total num ++ rest) total' = Some (header total' num ++ rest).
Proof.
  unfold lpSetTotalBytes, header. rewrite <- !app_assoc.
  apply (put_le_spec 4 [] (le_bytes 4 total)); [done|apply le_bytes_length].
Qed.

Lemma set_num total num num' rest : lpSetNumElements (header total num ++ rest) num' = Some (header total num' ++ rest).
Proof.
  unfold lpSetNumElements, header. rewrite <- !app_assoc.
  by rewrite (put_le_spec 2 (le_bytes 4 total) (le_bytes 2 num) rest 4 num') by (done || apply le_bytes_length).
Qed.

Lemma count_range num ss : count_ok num ss -> 0 <= num <= UINT16_MAX.
Proof.
  unfold count_ok, LP_HDR_NUMELE_UNKNOWN, UINT16_MAX. pose proof (zlen_nonneg ss). lia.
Qed.

Lemma rep_total lp ss : rep lp ss -> lpGetTotalBytes lp = Some (zlen lp) /\ zlen lp = off ss + 1.
Proof.
  intros [(num & _ & E) Hm _]. assert (Hz : zlen lp = off ss + 1).
  { rewrite E, !zlen_app, header_zlen. unfold off. change (zlen [LP_EOF]) with 1. lia. }
  split; [|done]. rewrite E at 1. apply total_at. pose proof (zlen_nonneg lp). lia.
Qed.

(** *** Traversal *)

Lemma last_at lp ss : rep lp ss -> lpLast lp = lpPrev lp (off ss).
Proof.
  intros Hr. unfold lpLast. destruct (rep_total lp ss Hr) as [-> Hz]. mrun. f_equal. lia.
Qed.

Lemma entry_pos s : 1 <= zlen (entry s).
Proof. unfold entry. rewrite zlen_app. unfold zlen at 2. rewrite backdigits_length. pose proof (zlen_nonneg (body s)). lia. Qed.

(** One round per element is less than one per byte. *)
Lemma shape_fuel lp ss : shape lp ss -> (length ss < length lp)%nat.
Proof.
  intros [(hdr & Hh & ->) _]. rewrite !length_app. simpl.
  assert (length ss <= length (entries ss))%nat; [|lia]. clear. induction ss as [|s ss IH]; [done|].
  rewrite entries_cons, length_app. pose proof (entry_pos s). unfold zlen in *. simpl. lia.
Qed.

Lemma elements_forward lp b : forall fuel a, shape lp (a ++ b) -> (length b < fuel)%nat ->
  elements_from lpNext fuel lp (ptr a b) = Some b.
Proof.
  induction b as [|s b IH]; intros fuel a Hs Hf; (destruct fuel as [|fuel]; [simpl in Hf; lia|]); [done|].
  cbn [elements_from ptr]. rewrite (element_at _ _ _ _ Hs). mrun. rewrite (next_at _ _ _ _ Hs). mrun.
  rewrite IH; [done|by rewrite <- app_assoc|simpl in Hf; lia].
Qed.

Lemma prev_ptr lp a b : shape lp (a ++ b) ->
  lpPrev lp (off a) = Some (match a with [] => None | _ => Some (off (removelast a)) end).
Proof.
  intros Hs. destruct a as [|s a _] using rev_ind; [done|]. rewrite <- app_assoc in Hs.
  rewrite (prev_at _ _ _ _ Hs), removelast_last. by destruct a.
Qed.

Lemma elements_backward lp a : forall fuel b s, shape lp (a ++ s :: b) -> (length a < fuel)%nat ->
  elements_from lpPrev (S fuel) lp (Some (off a)) = Some (s :: reverse a).
Proof.
  induction a as [|x a IH] using rev_ind; intros fuel b s Hs Hf;
    rewrite ?length_app in Hf; (destruct fuel as [|fuel]; [simpl in Hf; lia|]);
    cbn [elements_from]; rewrite (element_at _ _ _ _ Hs); mrun.
  - rewrite prev_first. done.
  - rewrite <- app_assoc in Hs. rewrite (prev_at lp a x (s :: b)) by done. mrun.
    assert (Hs' : shape lp (a ++ x :: s :: b)) by done.
    pose proof (IH fuel (s :: b) x Hs' ltac:(simpl in Hf; lia)) as E. cbn [elements_from] in E. rewrite E. mrun.
    by rewrite reverse_snoc.
Qed.

Lemma rep_elements lp ss : rep lp ss -> elements lp = Some ss /\ elements_back lp = Some (reverse ss).
Proof.
  intros Hr. pose proof (rep_shape _ _ Hr) as Hs. pose proof (shape_fuel _ _ Hs) as Hf. split.
  - unfold elements. rewrite (first_at _ _ Hs). mrun. apply (elements_forward lp ss _ [] Hs). lia.
  - unfold elements_back. rewrite (last_at _ _ Hr). destruct ss as [|s ss _] using rev_ind; [done|].
    rewrite (prev_at lp ss s []) by done. mrun. rewrite length_app in Hf. rewrite (elements_backward lp ss _ [] s Hs) by lia.
    by rewrite reverse_snoc.
Qed.

Lemma length_loop_spec lp b : forall fuel a count, shape lp (a ++ b) -> (length b < fuel)%nat ->
  0 <= count -> count + zlen b <= UINT32_MAX ->
  lpLength_loop fuel lp (ptr a b) count = Some (count + zlen b).
Proof.
  induction b as [|s b IH]; intros fuel a count Hs Hf H0 Hm; (destruct fuel as [|fuel]; [simpl in Hf; lia|]); cbn [lpLength_loop ptr].
  - change (zlen []) with 0. f_equal. lia.
  - rewrite zlen_cons in Hm |- *. pose proof (zlen_nonneg b). rewrite (next_at _ _ _ _ Hs). mrun.
    rewrite u32_id by (unfold UINT32_MAX in Hm; lia).
    rewrite IH; [f_equal; lia|by rewrite <- app_assoc|simpl in Hf; lia|lia|lia].
Qed.

Lemma zlen_le_block lp ss : rep lp ss -> zlen ss < UINT32_MAX.
Proof. intros Hr. pose proof (shape_fuel _ _ (rep_shape _ _ Hr)). pose proof (rep_max _ _ Hr). unfold zlen in *. lia. Qed.

Lemma lpLength_spec lp ss : rep lp ss -> exists lp', lpLength lp = Some (zlen ss, lp') /\ rep lp' ss.
Proof.
  intros Hr. pose proof (rep_shape _ _ Hr) as Hs. pose proof (zlen_le_block _ _ Hr) as Hz. pose proof (zlen_nonneg ss).
  destruct Hr as [(num & Hc & E) Hm Hok]. unfold lpLength.
  assert (Hn : lpGetNumElements lp = Some num) by (rewrite E; apply num_at; by eapply count_range).
  rewrite Hn. mrun.
  destruct Hc as [->|[-> Hlt]].
  - cbn [Z.eqb negb]. change (LP_HDR_NUMELE_UNKNOWN =? LP_HDR_NUMELE_UNKNOWN) with true. cbn [negb].
    rewrite (first_at _ _ Hs). mrun. rewrite (length_loop_spec lp ss _ [] 0 Hs) by (pose proof (shape_fuel _ _ Hs); lia). mrun.
    rewrite Z.add_0_l. destruct (Z.ltb_spec (zlen ss) LP_HDR_NUMELE_UNKNOWN) as [Hlt|Hge]; mrun.
    + assert (Hset : lpSetNumElements lp (zlen ss) = Some (header (zlen lp) (zlen ss) ++ entries ss ++ [LP_EOF]))
        by (rewrite E at 1; apply set_num). rewrite Hset. mrun. eexists. split; [reflexivity|].
      assert (Hzz : zlen (header (zlen lp) (zlen ss) ++ entries ss ++ [LP_EOF]) = zlen lp)
        by (rewrite E at 2; by rewrite !zlen_app, !header_zlen).
      split; [|by rewrite Hzz|done]. exists (zlen ss). rewrite Hzz. split; [by right|done].
    + eexists. split; [reflexivity|]. by split; [exists LP_HDR_NUMELE_UNKNOWN; split; [left|]| |].
  - rewrite (proj2 (Z.eqb_neq (zlen ss) LP_HDR_NUMELE_UNKNOWN)) by lia. cbn [negb].
    eexists. split; [reflexivity|]. split; [exists (zlen ss); split; [by right|done]|done|done].
Qed.

(** *** Seeking *)

(** The pointer to the element with index [k]. *)
Definition at_index (ss : list (list Z)) (k : Z) : option Z :=
  if (0 <=? k) && (k <? zlen ss) then Some (off (take (Z.to_nat k) ss)) else None.

Lemma seek_forward_spec lp b : forall fuel a index, shape lp (a ++ b) -> 0 <= index -> (length b < fuel)%nat ->
  seek_forward fuel lp index (ptr a b) = Some (at_index (a ++ b) (zlen a + index)).
Proof.
  induction b as [|s b IH]; intros fuel a index Hs Hi Hf; (destruct fuel as [|fuel]; [simpl in Hf; lia|]); cbn [seek_forward ptr].
  - unfold at_index. rewrite app_nil_r. by zif_false.
  - destruct (Z.gtb_spec index 0).
    + rewrite (next_at _ _ _ _ Hs). mrun.
      rewrite IH; [|by rewrite <- app_assoc|lia|simpl in Hf; lia].
      rewrite <- app_assoc, zlen_app. do 2 f_equal. change (zlen [s]) with 1. lia.
    + unfold at_index. rewrite zlen_app, zlen_cons. pose proof (zlen_nonneg a). pose proof (zlen_nonneg b). zif_true.
      do 2 f_equal. replace (Z.to_nat (zlen a + index)) with (length a) by (unfold zlen; lia). by rewrite take_app_length.
Qed.

Lemma seek_backward_spec lp a : forall fuel b s index, shape lp (a ++ s :: b) -> index <= -1 -> (length a < fuel)%nat ->
  seek_backward (S fuel) lp index (Some (off a)) = Some (at_index (a ++ s :: b) (zlen a + 1 + index)).
Proof.
  induction a as [|x a IH] using rev_ind; intros fuel b s index Hs Hi Hf.
  - cbn [seek_backward]. destruct (Z.ltb_spec index (-1)).
    + rewrite prev_first. mrun. destruct fuel as [|fuel]; [simpl in Hf; lia|]. cbn [seek_backward]. unfold at_index.
      change (zlen []) with 0. by zif_false.
    + replace index with (-1) by lia. unfold at_index. cbn [app]. rewrite zlen_cons. change (zlen []) with 0.
      pose proof (zlen_nonneg b). by zif_true.
  - rewrite length_app in Hf. simpl in Hf. destruct fuel as [|fuel]; [lia|]. rewrite zlen_app. change (zlen [x]) with 1.
    change (seek_backward (S (S fuel)) lp index (Some (off (a ++ [x])))) with
      (if index <? -1 then ele ← lpPrev lp (off (a ++ [x])); seek_backward (S fuel) lp (index + 1) ele
       else Some (Some (off (a ++ [x])))).
    destruct (Z.ltb_spec index (-1)).
    + rewrite <- app_assoc in Hs |- *. rewrite (prev_at lp a x (s :: b)) by done. mrun.
      rewrite (IH fuel (s :: b) x (index + 1) Hs) by lia. do 2 f_equal. lia.
    + replace index with (-1) by lia. unfold at_index. rewrite !zlen_app, !zlen_cons. change (zlen []) with 0.
      pose proof (zlen_nonneg a). pose proof (zlen_nonneg b). zif_true. do 2 f_equal.
      replace (Z.to_nat (zlen a + 1 + 1 + -1)) with (length (a ++ [x])) by (rewrite length_app; unfold zlen; simpl; lia).
      by rewrite take_app_length.
Qed.

Definition lp_position (n index : Z) : Z := if index <? 0 then n + index else index.

Lemma lpSeek_spec lp ss index : rep lp ss -> lpSeek lp index = Some (at_index ss (lp_position (zlen ss) index)).
Proof.
  intros Hr. pose proof (rep_shape _ _ Hr) as Hs. pose proof (shape_fuel _ _ Hs) as Hf. pose proof (zlen_nonneg ss).
  assert (Hfw : forall i, 0 <= i -> (ele ← lpFirst lp; seek_forward (S (length lp)) lp i ele) = Some (at_index ss i)).
  { intros i Hi. rewrite (first_at _ _ Hs). mrun. rewrite (seek_forward_spec lp ss _ [] i Hs) by lia. done. }
  assert (Hbw : forall i, i < 0 -> (ele ← lpLast lp; seek_backward (S (length lp)) lp i ele) = Some (at_index ss (zlen ss + i))).
  { intros i Hi. rewrite (last_at _ _ Hr). clear Hfw. destruct ss as [|s ss _] using rev_ind.
    - change (off []) with LP_HDR_SIZE. rewrite (prev_first lp : lpPrev lp LP_HDR_SIZE = _). mrun. cbn [seek_backward].
      unfold at_index. change (zlen []) with 0. by zif_false.
    - rewrite (prev_at lp ss s []) by done. mrun. rewrite length_app in Hf.
      rewrite (seek_backward_spec lp ss _ [] s i Hs) by lia. rewrite zlen_app. done. }
  destruct Hr as [(num & Hc & E) _ _]. unfold lpSeek, lp_position.
  assert (Hn : lpGetNumElements lp = Some num) by (rewrite E; apply num_at; by eapply count_range).
  rewrite Hn. mrun. cbv zeta. destruct Hc as [->|[-> Hlt]].
  - change (LP_HDR_NUMELE_UNKNOWN =? LP_HDR_NUMELE_UNKNOWN) with true. cbn [negb].
    destruct (Z.ltb_spec index 0); cbn [negb]; [by apply Hbw|by apply Hfw].
  - rewrite (proj2 (Z.eqb_neq (zlen ss) LP_HDR_NUMELE_UNKNOWN)) by lia. cbn [negb].
    set (i := if index <? 0 then _ else _). rewrite Z.geb_leb. unfold at_index at 1.
    destruct (Z.ltb_spec i 0); [by zif_false|]. destruct (Z.leb_spec (zlen ss) i); [by zif_false|].
    change (if (0 <=? i) && (i <? zlen ss) then _ else None) with (at_index ss i).
    destruct (i >? zlen ss / 2); [|by apply Hfw]. rewrite Hbw by lia. do 2 f_equal. lia.
Qed.

(** ** Changing the block *)

(** Reallocating and moving the tail makes room for [n] bytes in place of [r]. *)
Lemma make_room poison h r t n lp new : lp = h ++ r ++ t -> 0 <= n -> new = zlen lp + n - zlen r ->
  exists x, zlen x = n /\
    (let lp := if new >? zlen lp then mem_realloc poison lp new else lp in
     lp ← mem_move lp (zlen h + n) (zlen h + zlen r) (zlen t);
     Some (if new <? zlen (h ++ r ++ t) then mem_realloc poison lp new else lp)) = Some (h ++ x ++ t).
Proof.
  intros -> Hn ->. rewrite Z.gtb_ltb. cbv zeta. pose proof (zlen_nonneg r).
  destruct (Z.ltb_spec (zlen (h ++ r ++ t)) (zlen (h ++ r ++ t) + n - zlen r)) as [Hg|Hg].
  - rewrite mem_realloc_grow by lia. set (room := replicate _ poison).
    assert (Hroom : zlen room = n - zlen r) by (unfold room, zlen; rewrite length_replicate; unfold zlen in *; lia).
    destruct (mem_move_up (h ++ r) t room) as (x & Hx & E). rewrite zlen_app, Hroom in E.
    replace (zlen h + n) with (zlen h + zlen r + (n - zlen r)) by lia. rewrite <- !app_assoc in E |- *. rewrite E. mrun.
    exists (r ++ x). split; [rewrite zlen_app; lia|]. zif_false. by rewrite <- app_assoc.
  - destruct (split_at r (Z.to_nat n)) as (r1 & r2 & -> & Hr1); [unfold zlen in *; lia|].
    assert (Hz1 : zlen r1 = n) by (unfold zlen; lia). rewrite (zlen_app r1 r2) in *.
    destruct (mem_move_down (h ++ r1) r2 t) as (x & Hx & E). rewrite zlen_app, <- !app_assoc in E. rewrite <- !app_assoc.
    rewrite <- Hz1, Z.add_assoc, E. mrun. exists r1. split; [done|]. rewrite !zlen_app. pose proof (zlen_nonneg r2).
    destruct (Z.ltb_spec (zlen h + (zlen r1 + (zlen r2 + zlen t)) + zlen r1 - (zlen r1 + zlen r2)) (zlen h + (zlen r1 + (zlen r2 + zlen t)))).
    + rewrite mem_realloc_shrink by (rewrite !zlen_app; lia).
      replace (Z.to_nat _) with (length (h ++ r1 ++ t)) by (rewrite !length_app; unfold zlen; lia).
      replace (h ++ r1 ++ t ++ x) with ((h ++ r1 ++ t) ++ x) by (by rewrite <- !app_assoc). by rewrite take_app_length.
    + assert (x = []) as -> by (destruct x; [done|rewrite zlen_cons in Hx; pose proof (zlen_nonneg x); lia]).
      by rewrite app_nil_r.
Qed.

Lemma lpEncodeString_spec h room t s : string2ll s = None -> zlen s + 5 <= UINT32_MAX -> zlen room = zlen (body s) ->
  lpEncodeString (h ++ room ++ t) (zlen h) s = Some (h ++ body s ++ t).
Proof.
  unfold body. intros -> Hm Hroom. pose proof (zlen_nonneg s). unfold lpEncodeString. cbv zeta. revert Hroom. unfold str_head.
  assert (Hw : forall h' r k, zlen r = zlen s -> k = zlen h' -> mem_write (h' ++ r ++ t) k s = Some (h' ++ s ++ t))
    by (intros h' r k Hr ->; by apply mem_write_app).
  destruct (Z.ltb_spec (zlen s) 64); [|destruct (Z.ltb_spec (zlen s) 4096)]; intros Hroom; rewrite zlen_app in Hroom.
  - destruct room as [|x r]; rewrite ?zlen_cons in Hroom; change (zlen []) with 0 in Hroom; [lia|].
    change 0x80 with (Z.shiftl 2 6). rewrite lor_low, uN_id by (change (2 ^ 6) with 64; change (2 ^ 8) with 256; lia).
    change (2 * 2 ^ 6) with 128. rewrite (Z.add_comm (zlen s)). cbn [app]. rewrite put_app by done. mrun.
    change (h ++ 128 + zlen s :: r ++ t) with (h ++ [128 + zlen s] ++ r ++ t). rewrite app_assoc, Hw; [by rewrite <- app_assoc|lia|].
    by rewrite zlen_app.
  - assert (0 <= zlen s / 256 < 16) by (split; [apply Z.div_pos; lia|apply Z.div_lt_upper_bound; lia]).
    destruct room as [|x [|y r]]; rewrite ?zlen_cons in Hroom; change (zlen []) with 0 in Hroom; [lia|lia|].
    assert (Ec : u8 (Z.lor (Z.shiftr (zlen s) 8) 0xE0) = 224 + zlen s / 256).
    { rewrite Z.shiftr_div_pow2 by lia. change (2 ^ 8) with 256. change 0xE0 with (Z.shiftl 14 4).
      rewrite lor_low by (change (2 ^ 4) with 16; lia). change (14 * 2 ^ 4) with 224.
      rewrite uN_id by (change (2 ^ 8) with 256; lia). change (Z.shiftl 14 4) with 224. lia. }
    rewrite Ec. set (c := 224 + zlen s / 256). cbn [app].
    rewrite put_app by done. mrun.
    replace (h ++ c :: y :: r ++ t) with ((h ++ [c]) ++ y :: r ++ t) by (by rewrite <- app_assoc).
    rewrite byte_of, put_app by (rewrite zlen_app; done). mrun.
    replace ((h ++ [c]) ++ zlen s mod 256 :: r ++ t) with ((h ++ [c; zlen s mod 256]) ++ r ++ t) by (by rewrite <- !app_assoc).
    rewrite Hw; [by rewrite <- app_assoc|lia|by rewrite zlen_app].
  - rewrite zlen_cons, le_bytes_zlen in Hroom. destruct room as [|x room]; rewrite ?zlen_cons in Hroom; [change (zlen []) with 0 in Hroom; lia|].
    destruct (split_at room 4) as (r4 & r & -> & Hr4); [unfold zlen in *; lia|].
    assert (zlen r4 = 4) by (unfold zlen; lia). rewrite zlen_app in Hroom.
    cbn [app]. rewrite put_app by done. mrun.
    replace (h ++ 240 :: (r4 ++ r) ++ t) with ((h ++ [240]) ++ r4 ++ (r ++ t)) by (by rewrite <- !app_assoc).
    rewrite (put_le_spec 4) by (rewrite ?zlen_app; done). mrun.
    rewrite app_assoc. rewrite Hw; [by rewrite <- !app_assoc|lia|rewrite !zlen_app, le_bytes_zlen; change (zlen [240]) with 1; lia].
Qed.

Lemma store_entry_spec h room t s : str_ok s -> zlen room = zlen (entry s) ->
  let '(enctype, enclen) := lpEncodeGetType s in
  enclen = zlen (body s) /\
  store_entry (h ++ room ++ t) (zlen h) s enctype enclen (snd (lpEncodeBacklen enclen)) = Some (h ++ entry s ++ t).
Proof.
  intros Hs Hroom. rewrite lpEncodeGetType_spec by apply Hs. destruct (backlen_ok s (str_fits s Hs)) as [Eb _]. unfold entry in Hroom. rewrite zlen_app in Hroom.
  set (bl := backdigits _ _) in *.
  destruct (split_at room (length (body s))) as (r1 & r2 & -> & Hr1); [unfold zlen in *; lia|].
  assert (Hz1 : zlen r1 = zlen (body s)) by (unfold zlen; lia). rewrite zlen_app in Hroom.
  assert (Hw : mem_write (h ++ body s ++ r2 ++ t) (zlen h + zlen (body s)) bl = Some (h ++ (body s ++ bl) ++ t)).
  { rewrite app_assoc, <- zlen_app. rewrite mem_write_app by lia. by rewrite <- !app_assoc. }
  unfold store_entry. destruct (string2ll s) as [v|] eqn:Ev.
  - assert (Eb' : body s = int_body v) by (unfold body; by rewrite Ev). rewrite <- Eb'. split; [done|].
    rewrite <- app_assoc, mem_write_app by lia. mrun. rewrite Eb. cbn [snd]. fold bl. exact Hw.
  - split; [done|]. rewrite <- app_assoc, lpEncodeString_spec by (done || apply Hs). mrun. rewrite Eb. exact Hw.
Qed.

Definition opt_list (e : option (list Z)) : list (list Z) := match e with Some x => [x] | None => [] end.

Lemma entries_opt e : entries (opt_list e) = match e with Some x => entry x | None => [] end.
Proof. destruct e; cbn; [apply app_nil_r|done]. Qed.

(** The size of the block after replacing [r] by [e]. *)
Definition new_size (lp : list Z) (r : list (list Z)) (e : option (list Z)) : Z :=
  zlen lp + zlen (entries (opt_list e)) - zlen (entries r).

(** The header counts again after the change. *)
Lemma update_header_spec total num rest a r b e (replace : bool) new :
  count_ok num (a ++ r ++ b) -> zlen r = (if replace then 1 else 0) -> (e = None -> replace = true) ->
  exists num', update_header (header total num ++ rest) e replace new = Some (header new num' ++ rest) /\
    count_ok num' (a ++ opt_list e ++ b).
Proof.
  intros Hc Hr He. pose proof (count_range _ _ Hc) as Hn. unfold update_header.
  assert (Hstep : forall f, (num <> LP_HDR_NUMELE_UNKNOWN -> count_ok (f num) (a ++ opt_list e ++ b)) ->
    exists num', (lp ← (n ← lpGetNumElements (header total num ++ rest);
      if negb (n =? LP_HDR_NUMELE_UNKNOWN) then lpSetNumElements (header total num ++ rest) (f n)
      else Some (header total num ++ rest)); lpSetTotalBytes lp new) = Some (header new num' ++ rest) /\
    count_ok num' (a ++ opt_list e ++ b)).
  { intros f Hf. rewrite num_at by done. mrun.
    destruct (Z.eqb_spec num LP_HDR_NUMELE_UNKNOWN) as [->|Hne]; cbn [negb]; mrun.
    - exists LP_HDR_NUMELE_UNKNOWN. rewrite set_total. split; [done|by left].
    - rewrite set_num. mrun. rewrite set_total. eexists. split; [reflexivity|]. by apply Hf. }
  assert (Hlt : num <> LP_HDR_NUMELE_UNKNOWN -> num = zlen a + zlen r + zlen b /\ num < LP_HDR_NUMELE_UNKNOWN).
  { destruct Hc as [|[-> Hlt]]; [done|]. rewrite !zlen_app in *. lia. }
  pose proof (zlen_nonneg a). pose proof (zlen_nonneg b). unfold LP_HDR_NUMELE_UNKNOWN in Hlt.
  destruct replace, e as [x|]; [|apply (Hstep (fun n => u32 (n - 1)))|apply (Hstep (fun n => n + 1))|by specialize (He eq_refl)].
  - mrun. rewrite set_total. exists num. split; [done|]. unfold count_ok in *. rewrite !zlen_app in *. cbn [opt_list].
    change (zlen [x]) with 1. rewrite Hr in Hc. exact Hc.
  - intros Hne. specialize (Hlt Hne). rewrite u32_id by lia. right. unfold LP_HDR_NUMELE_UNKNOWN.
    rewrite !zlen_app. cbn [opt_list]. change (zlen []) with 0. lia.
  - intros Hne. specialize (Hlt Hne). unfold count_ok, LP_HDR_NUMELE_UNKNOWN.
    rewrite !zlen_app. cbn [opt_list]. change (zlen [x]) with 1. lia.
Qed.

(** An element that fits in a block is one that can be stored. *)
Lemma entry_str_ok s : bytes_ok s -> zlen s <= UINT32_MAX -> zlen (entry s) + 7 <= UINT32_MAX -> str_ok s.
Proof.
  intros Hb Hm He. split; [done|]. rewrite entry_zlen in He by done. destruct (backlen_ok s Hm) as [Eb _]. rewrite Eb in He. cbn [fst] in He.
  unfold body in He. destruct (string2ll s) as [v|] eqn:Ev.
  - apply string2ll_spec in Ev as [Hv ->]. pose proof (dec_zlen v Hv). unfold UINT32_MAX. lia.
  - rewrite zlen_app in He. pose proof (zlen_nonneg s). unfold UINT32_MAX in *. destruct (Z.lt_ge_cases (zlen s) 4096); [lia|].
    unfold str_head in He. rewrite (proj2 (Z.ltb_ge (zlen s) 64)), (proj2 (Z.ltb_ge (zlen s) 4096)) in He by lia.
    rewrite zlen_cons, le_bytes_zlen in He. lia.
Qed.

Lemma enclen_spec e : (match e with Some x => zlen x + 5 <= UINT32_MAX | None => True end) ->
  (let '(enctype, enclen) := match e with Some x => lpEncodeGetType x | None => (LP_ENCODING_STRING, 0) end in
   let '(n, backlen) := match e with Some _ => lpEncodeBacklen enclen | None => (0, []) end in
   enclen + n) = zlen (entries (opt_list e)).
Proof.
  rewrite entries_opt. destruct e as [x|]; [|done]. intros Hx. rewrite lpEncodeGetType_spec, entry_zlen by lia.
  destruct (string2ll x) as [v|] eqn:Ev.
  - assert (Eb : body x = int_body v) by (unfold body; by rewrite Ev). rewrite <- Eb. by destruct (lpEncodeBacklen _).
  - by destruct (lpEncodeBacklen _).
Qed.

Definition ele_ok (e : option (list Z)) : Prop :=
  match e with Some x => bytes_ok x /\ zlen x + 5 <= UINT32_MAX | None => True end.

Lemma replaced_len_spec lp a r b (replace : bool) : rep lp (a ++ r ++ b) -> zlen r = (if replace then 1 else 0) ->
  (if replace then n ← lpCurrentEncodedSize lp (off a); Some (u32 (n + fst (lpEncodeBacklen n))) else Some 0)
  = Some (zlen (entries r)).
Proof.
  intros Hr Hz. destruct r as [|s r]; [|destruct r; [|rewrite !zlen_cons in Hz; pose proof (zlen_nonneg r); destruct replace; lia]].
  { destruct replace; [done|]. done. }
  destruct replace; [|done]. cbn [app] in Hr. pose proof (rep_shape _ _ Hr) as Hs. rewrite (size_at _ _ _ _ Hs). mrun.
  destruct (shape_split _ _ _ _ Hs) as [Hok _]. rewrite <- entry_zlen by (by apply str_fits).
  change (entries [s]) with (entry s ++ []). rewrite app_nil_r. f_equal. apply u32_id.
  pose proof (rep_total _ _ Hr) as [_ Hlp]. pose proof (rep_max _ _ Hr) as Hm. unfold UINT32_MAX, off in *.
  rewrite !entries_app, entries_cons, !zlen_app in Hlp. pose proof (entry_pos s).
  pose proof (zlen_nonneg (entries a)). pose proof (zlen_nonneg (entries b)). unfold LP_HDR_SIZE in Hlp. lia.
Qed.

(** The last steps, on a block that has the room: store the element and update the header. *)
Lemma finish_insert old num a r b e (replace : bool) enctype enclen backlen x new :
  count_ok num (a ++ r ++ b) -> zlen r = (if replace then 1 else 0) -> (e = None -> replace = true) ->
  Forall str_ok (a ++ r ++ b) -> (forall s, e = Some s -> str_ok s) ->
  zlen x = zlen (entries (opt_list e)) -> new <= UINT32_MAX ->
  new = off a + zlen (entries (opt_list e)) + zlen (entries b) + 1 ->
  (forall s, e = Some s -> (enctype, enclen) = lpEncodeGetType s /\ backlen = snd (lpEncodeBacklen enclen)) ->
  let lp := (header old num ++ entries a) ++ x ++ entries b ++ [LP_EOF] in
  exists lp', (newp ← (match e with None => at_eof lp (off a) | Some _ => Some (Some (off a)) end);
      lp ← (match e with Some s => store_entry lp (off a) s enctype enclen backlen | None => Some lp end);
      lp ← update_header lp e replace new; Some (Some (lp, newp)))
    = Some (Some (lp', match e with Some _ => Some (off a) | None => ptr a b end)) /\ rep lp' (a ++ opt_list e ++ b).
Proof.
  intros Hc Hz He Hok Hse Hx Hm Hnew Henc. cbv zeta. set (h := header old num ++ entries a). set (t := entries b ++ [LP_EOF]).
  assert (Hh : zlen h = off a) by (unfold h; rewrite zlen_app, header_zlen; done).
  apply Forall_app in Hok as [Hoka Hok]. apply Forall_app in Hok as [_ Hokb].
  assert (Hst : (match e with Some s => store_entry (h ++ x ++ t) (off a) s enctype enclen backlen | None => Some (h ++ x ++ t) end)
    = Some (header old num ++ entries (a ++ opt_list e ++ b) ++ [LP_EOF])).
  { rewrite !entries_app, entries_opt in *. destruct e as [s|].
    - destruct (Henc s eq_refl) as [Ee ->]. pose proof (store_entry_spec h x t s (Hse s eq_refl) Hx) as Hst.
      rewrite <- Ee in Hst. destruct Hst as [_ Hst]. rewrite Hh in Hst. rewrite Hst. unfold h, t. by rewrite <- !app_assoc.
    - destruct x; [|rewrite zlen_cons in Hx; change (zlen []) with 0 in Hx; pose proof (zlen_nonneg x); lia].
      unfold h, t. by rewrite <- !app_assoc. }
  assert (Hnp : (match e with None => at_eof (h ++ x ++ t) (off a) | Some _ => Some (Some (off a)) end)
    = Some (match e with Some _ => Some (off a) | None => ptr a b end)).
  { destruct e as [s|]; [done|]. apply (inj Some) in Hst. rewrite Hst. apply eof_at. split; [|by apply Forall_app].
    exists (header old num). split; [apply header_zlen|done]. }
  rewrite Hnp. mrun. rewrite Hst. mrun.
  destruct (update_header_spec old num (entries (a ++ opt_list e ++ b) ++ [LP_EOF]) a r b e replace new Hc Hz He) as (num' & -> & Hc'). mrun.
  eexists. split; [reflexivity|].
  assert (Hzz : zlen (header new num' ++ entries (a ++ opt_list e ++ b) ++ [LP_EOF]) = new).
  { rewrite !zlen_app, header_zlen, !entries_app, !zlen_app, Hnew. unfold off. change (zlen [LP_EOF]) with 1. lia. }
  split.
  - exists num'. by rewrite Hzz.
  - by rewrite Hzz.
  - apply Forall_app. split; [done|]. apply Forall_app. split; [|done]. destruct e as [s|]; repeat constructor; by apply Hse.
Qed.

Lemma insert_at_spec poison lp a r b e (replace : bool) : rep lp (a ++ r ++ b) ->
  zlen r = (if replace then 1 else 0) -> (e = None -> replace = true) -> ele_ok e ->
  if new_size lp r e >? UINT32_MAX then insert_at poison lp e (off a) replace = Some None
  else exists lp', insert_at poison lp e (off a) replace
                   = Some (Some (lp', match e with Some _ => Some (off a) | None => ptr a b end)) /\
         rep lp' (a ++ opt_list e ++ b).
Proof.
  intros Hrep Hz He Hele. pose proof (replaced_len_spec lp a r b replace Hrep Hz) as Hrl.
  destruct (rep_total _ _ Hrep) as [Htot Hlp]. pose proof (rep_max _ _ Hrep) as Hmax. pose proof (rep_ok _ _ Hrep) as Hok.
  destruct (rep_block _ _ Hrep) as (num & Hc & E). rewrite !entries_app in E. clear Hrep.
  set (h := header (zlen lp) num ++ entries a). set (t := entries b ++ [LP_EOF]).
  assert (Hh : zlen h = off a) by (unfold h; rewrite zlen_app, header_zlen; done).
  assert (Elp : lp = h ++ entries r ++ t) by (rewrite E at 1; unfold h, t; by rewrite <- !app_assoc).
  assert (Hlen : zlen lp = off a + zlen (entries r) + zlen t) by (rewrite Elp, !zlen_app, Hh; lia).
  pose proof (zlen_nonneg (entries r)). pose proof (zlen_nonneg t). pose proof (zlen_nonneg (entries (opt_list e))) as Hn0.
  pose proof (enclen_spec e ltac:(destruct e; [apply Hele|done])) as Hn.
  assert (Ha0 : 6 <= off a) by (unfold off, LP_HDR_SIZE; pose proof (zlen_nonneg (entries a)); lia).
  unfold insert_at, new_size in *.
  destruct (match e with Some e0 => lpEncodeGetType e0 | None => (LP_ENCODING_STRING, 0) end) as [enctype enclen] eqn:Eenc.
  destruct (match e with Some _ => lpEncodeBacklen enclen | None => (0, []) end) as [bsize backlen] eqn:Ebl.
  rewrite Htot. mrun. rewrite Hrl. mrun. cbv zeta.
  assert (Hsz : u64 (zlen lp + enclen + bsize - zlen (entries r)) = zlen lp + zlen (entries (opt_list e)) - zlen (entries r)).
  { rewrite <- Hn. replace (zlen lp + enclen + bsize) with (zlen lp + (enclen + bsize)) by lia. apply u64_id. unfold in_u64, ULLONG_MAX.
    rewrite Hn. split; [lia|]. unfold UINT32_MAX in Hmax.
    enough (zlen (entries (opt_list e)) <= 5000000000) by lia. rewrite entries_opt. destruct e as [x|]; [|change (zlen []) with 0; lia].
    destruct Hele as [_ Hx]. assert (Hx' : zlen x <= UINT32_MAX) by lia. rewrite entry_zlen by done. destruct (backlen_ok x Hx') as [-> _]. cbn [fst]. pose proof (body_size x).
    unfold UINT32_MAX in Hx. unfold backdigits_count. repeat destruct (_ <=? _); repeat destruct (_ <? _); lia. }
  rewrite Hsz. set (new := zlen lp + _ - _).
  destruct (new >? UINT32_MAX) eqn:Enew; [done|]. zbool.
  destruct (make_room poison h (entries r) t (zlen (entries (opt_list e))) lp new Elp Hn0 eq_refl) as (x & Hx & Eroom).
  cbv zeta in Eroom. rewrite <- Elp, Hh in Eroom. set (lp1 := if new >? zlen lp then _ else lp) in *.
  assert (Hmove : (if replace then mem_move lp1 (off a + zlen (entries r) + (enclen + bsize - zlen (entries r)))
      (off a + zlen (entries r)) (zlen lp - off a - zlen (entries r))
    else mem_move lp1 (off a + enclen + bsize) (off a) (zlen lp - off a))
    = mem_move lp1 (off a + zlen (entries (opt_list e))) (off a + zlen (entries r)) (zlen t)).
  { rewrite <- Hn. destruct replace.
    - f_equal; lia.
    - destruct r; [|rewrite zlen_cons in Hz; pose proof (zlen_nonneg r); lia]. change (zlen (entries [])) with 0 in *. f_equal; lia. }
  rewrite Hmove. destruct (mem_move lp1 _ _ _) as [lp2|]; [|done]. mrun.
  apply (inj Some) in Eroom. rewrite Eroom.
  assert (Hnew : new = off a + zlen (entries (opt_list e)) + zlen (entries b) + 1).
  { unfold new. rewrite Hlen. unfold t. rewrite zlen_app. change (zlen [LP_EOF]) with 1. lia. }
  apply (finish_insert (zlen lp) num a r b e replace enctype enclen backlen x new); try done.
  - intros s ->. destruct Hele as [Hb Hs]. apply entry_str_ok; [done|lia|]. rewrite entries_opt in Hnew.
    pose proof (zlen_nonneg (entries b)). lia.
  - intros s ->. rewrite Eenc. split; [done|]. by rewrite Ebl.
Qed.

(** ** Correctness *)

Lemma lpNew_spec block : zlen block = 7 -> exists lp, lpNew block = Some lp /\ rep lp [].
Proof.
  intros Hb. do 7 (destruct block as [|? block]; [done|]).
  destruct block as [|? block]; [|rewrite !zlen_cons in Hb; pose proof (zlen_nonneg block); lia].
  eexists. split; [vm_compute; reflexivity|]. split; [|done|constructor]. exists 0. split; [by right|done].
Qed.

Lemma lpInsert_spec (poison : Z) (lp : list Z) (a b : list (list Z)) (s : list Z) (e : option (list Z)) (wher : lp_where) :
  rep lp (a ++ s :: b) -> ele_ok e ->
  let pre := match e, wher with Some _, LP_AFTER => a ++ [s] | _, _ => a end in
  let post := match e, wher with Some _, LP_BEFORE => s :: b | _, _ => b end in
  let size := 7 + zlen (entries (pre ++ opt_list e ++ post)) in
  if size >? UINT32_MAX then lpInsert poison lp e (off a) wher = Some None
  else exists lp', lpInsert poison lp e (off a) wher
                   = Some (Some (lp', match e with Some _ => Some (off pre) | None => ptr a b end)) /\
         rep lp' (pre ++ opt_list e ++ post).
Proof.
  intros Hr He. cbv zeta. destruct (rep_total _ _ Hr) as [_ Hz]. unfold off, LP_HDR_SIZE in Hz.
  rewrite !entries_app, entries_cons, !zlen_app in Hz. unfold lpInsert.
  assert (Hrepl : forall e, ele_ok e -> if 7 + zlen (entries (a ++ opt_list e ++ b)) >? UINT32_MAX
    then insert_at poison lp e (off a) true = Some None
    else exists lp', insert_at poison lp e (off a) true = Some (Some (lp', match e with Some _ => Some (off a) | None => ptr a b end)) /\
      rep lp' (a ++ opt_list e ++ b)).
  { intros e' He'. pose proof (insert_at_spec poison lp a [s] b e' true Hr eq_refl (fun _ => eq_refl) He') as H.
    replace (new_size lp [s] e') with (7 + zlen (entries (a ++ opt_list e' ++ b))) in H; [exact H|].
    unfold new_size. rewrite !entries_app, !zlen_app. change (entries [s]) with (entry s ++ []). rewrite app_nil_r. lia. }
  destruct e as [x|]; [|by apply Hrepl]. destruct wher; [| |by apply Hrepl].
  - pose proof (insert_at_spec poison lp a [] (s :: b) (Some x) false Hr eq_refl ltac:(done) He) as H.
    replace (new_size lp [] (Some x)) with (7 + zlen (entries (a ++ opt_list (Some x) ++ s :: b))) in H; [exact H|].
    unfold new_size. rewrite !entries_app, entries_cons, !zlen_app. change (zlen (entries [])) with 0. lia.
  - rewrite (skip_at _ _ _ _ (rep_shape _ _ Hr)). mrun.
    assert (Hr' : rep lp ((a ++ [s]) ++ [] ++ b)) by (by rewrite <- app_assoc).
    pose proof (insert_at_spec poison lp (a ++ [s]) [] b (Some x) false Hr' eq_refl ltac:(done) He) as H.
    replace (new_size lp [] (Some x)) with (7 + zlen (entries ((a ++ [s]) ++ opt_list (Some x) ++ b))) in H; [exact H|].
    unfold new_size. rewrite !entries_app, !zlen_app. change (entries [s]) with (entry s ++ []). rewrite app_nil_r.
    change (zlen (entries [])) with 0. lia.
Qed.

(** [lpInsert] before, after or in place of an element, and [lpDelete]: it
    returns NULL exactly when the block would exceed 2^32-1 bytes; otherwise it
    stays inside its allocations and the result is again a well-formed listpack
    with the element inserted, replaced or removed and nothing else changed; [newp]
    is the new element, or the one after the deleted element. *)
Theorem lpInsert_correct (poison : Z) (lp : list Z) (a b : list (list Z)) (s : list Z) (e : option (list Z)) (wher : lp_where) :
  rep lp (a ++ s :: b) -> ele_ok e ->
  let pre := match e, wher with Some _, LP_AFTER => a ++ [s] | _, _ => a end in
  let post := match e, wher with Some _, LP_BEFORE => s :: b | _, _ => b end in
  let size := 7 + zlen (entries (pre ++ opt_list e ++ post)) in
  if size >? UINT32_MAX then lpInsert poison lp e (off a) wher = Some None
  else exists lp', lpInsert poison lp e (off a) wher
                   = Some (Some (lp', match e with Some _ => Some (off pre) | None => ptr a b end)) /\
         rep lp' (pre ++ opt_list e ++ post).
Proof. apply lpInsert_spec. Qed.

(** *** Refinement *)

Inductive op :=
| Append (s : list Z)
| InsertAt (index : Z) (s : list Z) (wher : lp_where)
| DeleteAt (index : Z).

(** A client keeps its listpack when a call returns NULL. *)
Definition keep (lp : list Z) (r : option (list Z * option Z)) : list Z :=
  match r with Some (lp', _) => lp' | None => lp end.

Definition exec (poison : Z) (lp : list Z) (o : op) : option (list Z) :=
  match o with
  | Append s => r ← lpAppend poison lp s; Some (keep lp r)
  | InsertAt i s w =>
      p ← lpSeek lp i;
      match p with Some p => r ← lpInsert poison lp (Some s) p w; Some (keep lp r) | None => Some lp end
  | DeleteAt i =>
      p ← lpSeek lp i;
      match p with Some p => r ← lpDelete poison lp p; Some (keep lp r) | None => Some lp end
  end.

Fixpoint run (poison : Z) (lp : list Z) (os : list op) : option (list Z) :=
  match os with [] => Some lp | o :: os => lp ← exec poison lp o; run poison lp os end.

(** The same on a list of strings: [n] elements after the first [k] are replaced by
    [e], unless the encoded list would be too long. *)
Definition splice (ss : list (list Z)) (k n : nat) (e : option (list Z)) : list (list Z) :=
  let new := take k ss ++ opt_list e ++ drop (k + n) ss in
  if 7 + zlen (entries new) >? UINT32_MAX then ss else new.

Definition spec (ss : list (list Z)) (o : op) : list (list Z) :=
  match o with
  | Append s => splice ss (length ss) 0 (Some s)
  | InsertAt i s w =>
      let k := lp_position (zlen ss) i in
      if (0 <=? k) && (k <? zlen ss) then
        match w with
        | LP_BEFORE => splice ss (Z.to_nat k) 0 (Some s)
        | LP_AFTER => splice ss (S (Z.to_nat k)) 0 (Some s)
        | LP_REPLACE => splice ss (Z.to_nat k) 1 (Some s)
        end
      else ss
  | DeleteAt i =>
      let k := lp_position (zlen ss) i in
      if (0 <=? k) && (k <? zlen ss) then splice ss (Z.to_nat k) 1 None else ss
  end.

Definition op_ok (o : op) : Prop :=
  match o with Append s | InsertAt _ s _ => bytes_ok s /\ zlen s + 5 <= UINT32_MAX | DeleteAt _ => True end.

Lemma lpAppend_spec poison lp ss x : rep lp ss -> ele_ok (Some x) ->
  exists r, lpAppend poison lp x = Some r /\ rep (keep lp r) (splice ss (length ss) 0 (Some x)).
Proof.
  intros Hr He. unfold lpAppend. destruct (rep_total _ _ Hr) as [-> Hz]. mrun. unfold lpInsert.
  assert (Hr' : rep lp (ss ++ [] ++ [])) by (by rewrite app_nil_r).
  pose proof (insert_at_spec poison lp ss [] [] (Some x) false Hr' eq_refl ltac:(done) He) as H.
  replace (zlen lp - 1) with (off ss) by lia. unfold splice. rewrite firstn_all, Nat.add_0_r, drop_all.
  replace (new_size lp [] (Some x)) with (7 + zlen (entries (ss ++ opt_list (Some x) ++ []))) in H.
  - destruct (_ >? UINT32_MAX); [exists None; by split|]. destruct H as (lp' & E & Hrep). eexists. split; [exact E|done].
  - unfold new_size, off, LP_HDR_SIZE in *. rewrite !entries_app, !zlen_app. change (zlen (entries [])) with 0. lia.
Qed.

(** A call at an index that exists, whatever the position of the change. *)
Lemma insert_splice poison lp ss k e w : rep lp ss -> ele_ok e -> (k < length ss)%nat ->
  exists r, lpInsert poison lp e (off (take k ss)) w = Some r /\
    rep (keep lp r) (match e, w with
      | Some _, LP_BEFORE => splice ss k 0 e
      | Some _, LP_AFTER => splice ss (S k) 0 e
      | _, _ => splice ss k 1 e
      end).
Proof.
  intros Hr He Hk. destruct (lookup_lt_is_Some_2 ss k Hk) as [s Hs].
  pose proof (take_drop_middle ss k s Hs) as Esplit. set (a := take k ss) in *. set (b := drop (S k) ss) in *.
  assert (Hla : length a = k) by (unfold a; rewrite length_take; lia). rewrite <- Esplit in Hr.
  pose proof (lpInsert_spec poison lp a b s e w Hr He) as H. cbv zeta in H.
  assert (Hres : forall pre post target, target = (if 7 + zlen (entries (pre ++ opt_list e ++ post)) >? UINT32_MAX then ss else pre ++ opt_list e ++ post) ->
    (if 7 + zlen (entries (pre ++ opt_list e ++ post)) >? UINT32_MAX then lpInsert poison lp e (off a) w = Some None
     else exists lp', lpInsert poison lp e (off a) w = Some (Some (lp', match e with Some _ => Some (off pre) | None => ptr a b end)) /\
       rep lp' (pre ++ opt_list e ++ post)) ->
    exists r, lpInsert poison lp e (off a) w = Some r /\ rep (keep lp r) target).
  { intros pre post target -> Hcase. destruct (7 + zlen (entries (pre ++ opt_list e ++ post)) >? UINT32_MAX).
    - exists None. split; [done|]. rewrite <- Esplit. exact Hr.
    - destruct Hcase as (lp' & E & Hrep). eexists. split; [exact E|done]. }
  assert (Hd0 : drop k ss = s :: b).
  { rewrite <- Esplit, <- Hla at 1. by rewrite drop_app_length. }
  assert (Ht1 : take (S k) ss = a ++ [s]) by (unfold a; by rewrite (take_S_r ss k s)).
  destruct e as [x|]; [destruct w|]; eapply Hres; try exact H; unfold splice;
    rewrite ?Nat.add_0_r, ?Nat.add_1_r, ?Hd0, ?Ht1; try done; by destruct w.
Qed.

Lemma lp_exec_spec poison lp ss o : rep lp ss -> op_ok o ->
  exists lp', exec poison lp o = Some lp' /\ rep lp' (spec ss o).
Proof.
  intros Hr Ho. destruct o as [x|i x w|i]; cbn [exec spec].
  - destruct (lpAppend_spec poison lp ss x Hr Ho) as (r & -> & H). mrun. by eexists.
  - rewrite (lpSeek_spec lp ss i Hr). mrun. unfold at_index. set (k := lp_position _ _). cbv zeta.
    destruct ((0 <=? k) && (k <? zlen ss)) eqn:E; [|by exists lp]. zbool.
    destruct (insert_splice poison lp ss (Z.to_nat k) (Some x) w Hr Ho) as (r & -> & Hrep); [unfold zlen in *; lia|].
    mrun. eexists. split; [reflexivity|]. by destruct w.
  - rewrite (lpSeek_spec lp ss i Hr). mrun. unfold at_index. set (k := lp_position _ _). cbv zeta.
    destruct ((0 <=? k) && (k <? zlen ss)) eqn:E; [|by exists lp]. zbool. unfold lpDelete.
    destruct (insert_splice poison lp ss (Z.to_nat k) None LP_REPLACE Hr I) as (r & -> & Hrep); [unfold zlen in *; lia|].
    mrun. by eexists.
Qed.

Lemma lp_run_spec poison os : forall lp ss, rep lp ss -> Forall op_ok os ->
  exists lp', run poison lp os = Some lp' /\ rep lp' (foldl spec ss os).
Proof.
  induction os as [|o os IH]; intros lp ss Hr Ho; [by exists lp|]. apply Forall_cons in Ho as [Ho Hos].
  destruct (lp_exec_spec poison lp ss o Hr Ho) as (lp1 & E & Hr1). cbn [run foldl]. rewrite E. mrun. by apply IH.
Qed.

Lemma seek_element lp ss i : rep lp ss ->
  (p ← lpSeek lp i; match p with Some p => Some <$> element lp p | None => Some None end)
  = Some (zget ss (lp_position (zlen ss) i)).
Proof.
  intros Hr. rewrite (lpSeek_spec lp ss i Hr). mrun. unfold at_index, zget. set (k := lp_position _ _).
  destruct (Z.leb_spec 0 k); cbn [andb]; [|done]. destruct (Z.ltb_spec k (zlen ss)) as [Hlt|Hge].
  - destruct (lookup_lt_is_Some_2 ss (Z.to_nat k)) as [s Hs]; [unfold zlen in Hlt; lia|].
    pose proof (take_drop_middle ss _ s Hs) as E. pose proof (rep_shape _ _ Hr) as Hsh. rewrite <- E in Hsh at 1.
    by rewrite (element_at _ _ _ _ Hsh), Hs.
  - by rewrite lookup_ge_None_2 by (unfold zlen in Hge; lia).
Qed.

(** C18: any sequence of appends, insertions, replacements and deletions, at any
    index and of any strings of at most 2^32-6 bytes (the length of the encoding of
    a longer one wraps around), on a new listpack stays inside its allocations and
    represents the list of strings the same calls give on plain lists: read
    forwards, read backwards, counted, and by index from either end.  Calls that
    would make the block longer than 2^32-1 bytes change nothing. *)
Theorem listpack_refines_sequence (poison : Z) (block : list Z) (os : list op) :
  zlen block = 7 -> Forall op_ok os ->
  let ss := foldl spec [] os in
  exists lp, (lp ← lpNew block; run poison lp os) = Some lp /\
    elements lp = Some ss /\ elements_back lp = Some (reverse ss) /\
    fst <$> lpLength lp = Some (zlen ss) /\ lpBytes lp = Some (zlen lp) /\
    forall i, (p ← lpSeek lp i; match p with Some p => Some <$> element lp p | None => Some None end)
              = Some (zget ss (if i <? 0 then zlen ss + i else i)).
Proof.
  intros Hb Ho. cbv zeta. destruct (lpNew_spec block Hb) as (lp0 & -> & Hr0). mrun.
  destruct (lp_run_spec poison os lp0 [] Hr0 Ho) as (lp & E & Hr). exists lp. split; [done|].
  destruct (rep_elements _ _ Hr) as [-> ->]. destruct (lpLength_spec _ _ Hr) as (lp' & -> & _).
  destruct (rep_total _ _ Hr) as [Ht _]. split_and!; try done. intros i. by apply seek_element.
Qed.

Lemma listpack_refines_sequence_witness :
  exists lp, (lp ← lpNew (replicate 7 9); run 9 lp [Append (cstr "12"); InsertAt (-1) (cstr "x") LP_BEFORE; DeleteAt 1]) = Some lp /\
    elements lp = Some [cstr "x"].
Proof.
  destruct (listpack_refines_sequence 9 (replicate 7 9) [Append (cstr "12"); InsertAt (-1) (cstr "x") LP_BEFORE; DeleteAt 1])
    as (lp & E & El & _).
  - reflexivity.
  - repeat constructor; vm_compute; discriminate.
  - exists lp. split; [exact E|]. refine (eq_trans El _). vm_compute. reflexivity.
Defined.

Lemma mem_write_outside l off bs : zlen l < off + zlen bs -> mem_write l off bs = None.
Proof. intros H. unfold mem_write. destruct (Z.leb_spec 0 off); [|done]. destruct (Z.leb_spec (off + zlen bs) (zlen l)); [lia|done]. Qed.

Lemma mem_move_zlen l dst src n l' : mem_move l dst src n = Some l' -> zlen l' = zlen l.
Proof. unfold mem_move. destruct (mem_read l src n) as [bs|]; [|done]. apply mem_write_zlen. Qed.

Lemma put_le_zlen n : forall l p v l', put_le n l p v = Some l' -> zlen l' = zlen l.
Proof.
  induction n as [|n IH]; intros l p v l'; [by intros [= ->]|]. cbn [put_le]. unfold put.
  destruct (mem_write l p _) as [l1|] eqn:E; [|done]. intros H. apply IH in H. by rewrite H, (mem_write_zlen _ _ _ _ E).
Qed.

Lemma lpEncodeString_outside lp p s : 4096 <= zlen s -> zlen lp < p + 5 + zlen s -> lpEncodeString lp p s = None.
Proof.
  intros Hs Hl. unfold lpEncodeString. cbv zeta. destruct (Z.ltb_spec (zlen s) 64); [lia|]. destruct (Z.ltb_spec (zlen s) 4096); [lia|].
  unfold put. destruct (mem_write lp p _) as [l1|] eqn:E1; [|done]. mrun. apply mem_write_zlen in E1.
  destruct (put_le 4 l1 _ _) as [l2|] eqn:E2; [|done]. mrun. apply put_le_zlen in E2. apply mem_write_outside. lia.
Qed.

(** C39: the length of an encoded string wraps around: appending a string of 2^32-5 to
    2^32-1 bytes to any well-formed listpack of at most 2^32-6 bytes is not refused,
    although the result would exceed 2^32-1 bytes.  The block grows by the wrapped
    length of at most 4 bytes plus one, and the call copies the string outside of it. *)
Theorem lpAppend_size_overflow (poison : Z) (lp : list Z) (ss : list (list Z)) (s : list Z) :
  rep lp ss -> zlen lp <= UINT32_MAX - 5 -> UINT32_MAX - 4 <= zlen s <= UINT32_MAX ->
  snd (lpEncodeGetType s) = zlen s + 5 - 2 ^ 32 /\ lpAppend poison lp s = None.
Proof.
  intros Hr Hlp Hs. unfold UINT32_MAX in *.
  assert (Hty : lpEncodeGetType s = (LP_ENCODING_STRING, zlen s + 5 - 2 ^ 32)).
  { unfold lpEncodeGetType. cbv zeta. rewrite lpStringToInt64_spec. destruct (string2ll s) as [v|] eqn:E.
    { apply string2ll_spec in E as [Hv ->]. pose proof (dec_zlen v Hv). lia. }
    destruct (Z.ltb_spec (zlen s) 64); [lia|]. destruct (Z.ltb_spec (zlen s) 4096); [lia|]. f_equal. unfold u32.
    rewrite <- (Z.mod_add (5 + zlen s) (-1)) by lia. rewrite Z.mod_small by lia. lia. }
  rewrite Hty. split; [done|]. destruct (rep_total _ _ Hr) as [Htot Hz].
  assert (7 <= zlen lp) by (unfold off, LP_HDR_SIZE in Hz; pose proof (zlen_nonneg (entries ss)); lia).
  unfold lpAppend, lpInsert. rewrite Htot. mrun. unfold insert_at. rewrite Hty. set (n := zlen s + 5 - 2 ^ 32).
  assert (Hbl : lpEncodeBacklen n = (1, [u8 n])) by (unfold lpEncodeBacklen; destruct (Z.leb_spec n 127); [done|unfold n in *; lia]).
  rewrite Hbl, Htot. mrun. cbv zeta. rewrite u64_id by (unfold in_u64, ULLONG_MAX, n; lia).
  destruct (Z.gtb_spec (zlen lp + n + 1 - 0) UINT32_MAX); [unfold UINT32_MAX, n in *; lia|].
  destruct (Z.gtb_spec (zlen lp + n + 1 - 0) (zlen lp)); [|unfold n in *; lia].
  destruct (mem_move _ _ _ _) as [l1|] eqn:E; [|done]. mrun. apply mem_move_zlen in E. rewrite mem_realloc_zlen in E by (unfold n; lia).
  destruct (Z.ltb_spec (zlen lp + n + 1 - 0) (zlen lp)); [lia|].
  unfold store_entry. rewrite lpEncodeString_outside by (unfold n in *; lia). done.
Qed.

Lemma string_of_length n : 0 <= n -> exists s : list Z, zlen s = n.
Proof. intros. exists (replicate (Z.to_nat n) 97). unfold zlen. rewrite length_replicate. lia. Qed.

Lemma lpAppend_size_overflow_witness : exists s, zlen s = 2 ^ 32 - 5 /\
  snd (lpEncodeGetType s) = zlen s + 5 - 2 ^ 32 /\ lpAppend 0 [7; 0; 0; 0; 0; 0; 255] s = None.
Proof.
  destruct (string_of_length (2 ^ 32 - 5)) as [s Hs]; [lia|]. exists s. split; [exact Hs|].
  apply (lpAppend_size_overflow 0 [7; 0; 0; 0; 0; 0; 255] [] s).
  - split; [exists 0; split; [right; split; reflexivity|reflexivity]|vm_compute; discriminate|constructor].
  - vm_compute. discriminate.
  - rewrite Hs. unfold UINT32_MAX. lia.
Defined.

(** The length field of an element reads back: from its last byte,
    [lpDecodeBacklen] gives the number [lpEncodeBacklen] stored, for every length
    the format allows, without reading before the field. *)
Theorem lpBacklen_roundtrip (pre post : list Z) (l : Z) : 0 <= l < MAX_BACKLEN ->
  let '(n, bytes) := lpEncodeBacklen l in
  zlen bytes = n /\ 1 <= n <= 5 /\ bytes_ok bytes /\
  lpDecodeBacklen (pre ++ bytes ++ post) (zlen pre + n - 1) = Some l.
Proof.
  intros Hl. destruct (lpEncodeBacklen_spec l Hl) as [-> Hlt]. set (k := backdigits_count l) in *.
  assert (k <= 4)%nat by (unfold k, backdigits_count; repeat destruct (_ <=? _); repeat destruct (_ <? _); lia).
  split_and!; [unfold zlen; by rewrite backdigits_length|lia|lia|apply backdigits_ok; lia|].
  unfold lpDecodeBacklen. rewrite (decode_loop_spec k 5 l 0 0 pre post); [f_equal; lia|lia|lia|lia|lia|simpl; lia|lia].
Qed.

Lemma lpBacklen_roundtrip_witness :
  zlen [2; 128 + 44] = 2 /\ 1 <= 2 <= 5 /\ bytes_ok [2; 128 + 44] /\ lpDecodeBacklen ([7] ++ [2; 128 + 44] ++ []) (zlen [7] + 2 - 1) = Some 300.
Proof. refine (lpBacklen_roundtrip [7] [] 300 _). unfold MAX_BACKLEN. lia. Defined.

(** [lpStringToInt64] of listpack.c and [string2ll] of util.c, two copies of one
    parser, accept the same strings with the same value. *)
Theorem lpStringToInt64_string2ll (s : list Z) : lpStringToInt64 s = string2ll s.
Proof. apply lpStringToInt64_spec. Qed.

Lemma lpInsert_correct_witness :
  exists lp', lpInsert 0 [9; 0; 0; 0; 1; 0; 5; 1; 255] (Some (cstr "hi")) 6 LP_AFTER = Some (Some (lp', Some 8)) /\
    rep lp' [cstr "5"; cstr "hi"].
Proof.
  apply (lpInsert_correct 0 [9; 0; 0; 0; 1; 0; 5; 1; 255] [] [] (cstr "5") (Some (cstr "hi")) LP_AFTER).
  - split.
    + exists 1. split; [right; split; reflexivity|reflexivity].
    + vm_compute. discriminate.
    + repeat constructor; vm_compute; discriminate.
  - split; [repeat constructor; vm_compute; discriminate|vm_compute; discriminate].
Defined.

End Listpack.
