(* ===== verification/Score.v ===== *)
(** * Scores, members and ranges of sorted sets (t_zset.c, sdscmp of sds.c)

    A score is a C [double].  It is modelled by the Standard Library's executable
    specification of IEEE 754 binary64, so that comparisons and additions behave
    as in the code: NaN is unordered, the two zeros are equal, and the sum of
    opposite infinities is NaN.  A sorted set is ordered by score and then by the
    bytes of the member; this file shows that the comparison the code writes out
    in every search loop is a strict total order on the entries a set can hold, and
    that the range predicates cut that order into a prefix, a middle and a suffix. *)

From Stdlib Require Import SpecFloat.
From S2P Require Import Prelude.

Module Score.

Definition double := spec_float.
Abbreviation sds := (list Z).

(** The C operators on doubles. *)
Definition isnan (d : double) : bool := match d with S754_nan => true | _ => false end.
Definition dlt (a b : double) : bool := SFltb a b.
Definition dle (a b : double) : bool := SFleb a b.
Definition deq (a b : double) : bool := SFeqb a b.
Definition dadd (a b : double) : double := SFadd 53 1024 a b.

(** The sign of the first difference; only the sign is specified by the C library. *)
Fixpoint memcmp (a b : list Z) : Z :=
  match a, b with
  | x :: a, y :: b => if x =? y then memcmp a b else if x <? y then -1 else 1
  | _, _ => 0
  end.

Definition sdscmp (s1 s2 : sds) : Z :=
  let l1 := zlen s1 in
  let l2 := zlen s2 in
  let minlen := Z.to_nat (if l1 <? l2 then l1 else l2) in
  let cmp := memcmp (take minlen s1) (take minlen s2) in
  if cmp =? 0 then (if l1 >? l2 then 1 else if l1 <? l2 then -1 else 0) else cmp.

(** [a->score < score || (a->score == score && sdscmp(a->ele,ele) < 0)] *)
Definition klt (a b : double * sds) : bool :=
  dlt (fst a) (fst b) || (deq (fst a) (fst b) && (sdscmp (snd a) (snd b) <? 0)).

(** [a->score < score || (a->score == score && sdscmp(a->ele,ele) <= 0)] *)
Definition kle (a b : double * sds) : bool :=
  dlt (fst a) (fst b) || (deq (fst a) (fst b) && (sdscmp (snd a) (snd b) <=? 0)).

Record zrangespec := { min : double; max : double; minex : bool; maxex : bool }.

Definition zslValueGteMin (value : double) (spec : zrangespec) : bool :=
  if minex spec then dlt (min spec) value else dle (min spec) value.

Definition zslValueLteMax (value : double) (spec : zrangespec) : bool :=
  if maxex spec then dlt value (max spec) else dle value (max spec).

(** A bound of a lexicographic range: a string, or one of the two shared objects
    that the code recognises by their address. *)
Inductive lexbound := MinString | MaxString | Str (s : sds).

Record zlexrangespec := { lmin : lexbound; lmax : lexbound; lminex : bool; lmaxex : bool }.

(** [a == b] compares addresses: the two shared strings are equal only to
    themselves.  A string that was parsed is never the member it is compared with,
    and for equal strings [sdscmp] gives 0 too. *)
Definition sdscmplex (a b : lexbound) : Z :=
  match a, b with
  | MinString, MinString | MaxString, MaxString => 0
  | MinString, _ | _, MaxString => -1
  | MaxString, _ | _, MinString => 1
  | Str a, Str b => sdscmp a b
  end.

Definition zslLexValueGteMin (value : sds) (spec : zlexrangespec) : bool :=
  if lminex spec then sdscmplex (Str value) (lmin spec) >? 0 else sdscmplex (Str value) (lmin spec) >=? 0.

Definition zslLexValueLteMax (value : sds) (spec : zlexrangespec) : bool :=
  if lmaxex spec then sdscmplex (Str value) (lmax spec) <? 0 else sdscmplex (Str value) (lmax spec) <=? 0.

(** A command argument as [zslParseLexRange] sees it. *)
Inductive robj := IntEncoded (v : Z) | Raw (s : sds).

(** The string is terminated, so reading the byte after its end gives 0. *)
Definition byte_at (c : sds) (i : nat) : Z := default 0 (c !! i).

Definition zslParseLexRangeItem (c : sds) : option (lexbound * bool) :=
  let c0 := byte_at c 0 in
  if c0 =? 43 then (* + *) if negb (byte_at c 1 =? 0) then None else Some (MaxString, true)
  else if c0 =? 45 then (* - *) if negb (byte_at c 1 =? 0) then None else Some (MinString, true)
  else if c0 =? 40 then (* ( *) Some (Str (drop 1 c), true)
  else if c0 =? 91 then (* [ *) Some (Str (drop 1 c), false)
  else None.

Definition zslParseLexRange (mn mx : robj) : option zlexrangespec :=
  match mn, mx with
  | Raw mn, Raw mx =>
      '(a, aex) ← zslParseLexRangeItem mn;
      '(b, bex) ← zslParseLexRangeItem mx;
      Some {| lmin := a; lmax := b; lminex := aex; lmaxex := bex |}
  | _, _ => None
  end.

(** The prefix of a range bound in [zslParseRange], with [strtod] of the C library
    as an argument: it gives the number and the characters after it. *)
Section ParseRange.
Context (strtod : sds -> double * sds).

Definition parse_bound (o : robj) (of_long : Z -> double) : option (double * bool) :=
  match o with
  | IntEncoded v => Some (of_long v, false)
  | Raw s =>
      let open := byte_at s 0 =? 40 in
      let '(v, eptr) := strtod (if open then drop 1 s else s) in
      if negb (byte_at eptr 0 =? 0) || isnan v then None else Some (v, open)
  end.

Definition zslParseRange (of_long : Z -> double) (mn mx : robj) : option zrangespec :=
  '(a, aex) ← parse_bound mn of_long;
  '(b, bex) ← parse_bound mx of_long;
  Some {| min := a; max := b; minex := aex; maxex := bex |}.
End ParseRange.

(** ** The order of the scores *)

(** A key that sorts as the scores do: the class of the number, then exponent and
    mantissa with the sign of the number. *)
Definition dkey (d : double) : Z * Z * Z :=
  match d with
  | S754_infinity true => (-2, 0, 0)
  | S754_finite true m e => (-1, - e, - Z.pos m)
  | S754_zero _ | S754_nan => (0, 0, 0)
  | S754_finite false m e => (1, e, Z.pos m)
  | S754_infinity false => (2, 0, 0)
  end.

Definition key_lt (a b : Z * Z * Z) : Prop :=
  let '(a1, a2, a3) := a in let '(b1, b2, b3) := b in
  a1 < b1 \/ (a1 = b1 /\ (a2 < b2 \/ (a2 = b2 /\ a3 < b3))).

Lemma compare_key a b : isnan a = false -> isnan b = false ->
  match SFcompare a b with
  | Some Lt => key_lt (dkey a) (dkey b)
  | Some Eq => dkey a = dkey b
  | Some Gt => key_lt (dkey b) (dkey a)
  | None => False
  end.
Proof.
  destruct a as [?|[]| |[] ma ea], b as [?|[]| |[] mb eb]; try done; intros _ _; cbn -[Z.compare Z.lt Pos.compare_cont];
    try lia; try done.
  - destruct (Z.compare_spec ea eb); [|lia|lia]. change (Pos.compare_cont Eq ma mb) with (Pos.compare ma mb).
    destruct (Pos.compare_spec ma mb); cbn -[Z.lt]; simplify_eq; try done; lia.
  - destruct (Z.compare_spec ea eb); [|lia|lia]. change (Pos.compare_cont Eq ma mb) with (Pos.compare ma mb).
    destruct (Pos.compare_spec ma mb); cbn -[Z.lt]; simplify_eq; try done; lia.
Qed.

Lemma key_lt_irrefl a : ~ key_lt a a.
Proof. destruct a as [[??]?]. simpl. lia. Qed.
Lemma key_lt_trans a b c : key_lt a b -> key_lt b c -> key_lt a c.
Proof. destruct a as [[??]?], b as [[??]?], c as [[??]?]. simpl. lia. Qed.

Definition dnum (d : double) : Prop := isnan d = false.

Lemma dlt_key a b : dnum a -> dnum b -> dlt a b = true <-> key_lt (dkey a) (dkey b).
Proof.
  intros Ha Hb. pose proof (compare_key a b Ha Hb) as H. unfold dlt, SFltb.
  destruct (SFcompare a b) as [[]|]; split; intros H'; try done; exfalso.
  - rewrite H in H'. by apply key_lt_irrefl in H'.
  - by apply (key_lt_irrefl (dkey a)), (key_lt_trans _ (dkey b)).
Qed.

Lemma deq_key a b : dnum a -> dnum b -> deq a b = true <-> dkey a = dkey b.
Proof.
  intros Ha Hb. pose proof (compare_key a b Ha Hb) as H. unfold deq, SFeqb.
  destruct (SFcompare a b) as [[]|]; split; intros H'; try done; exfalso;
    rewrite H' in H; by apply key_lt_irrefl in H.
Qed.

Lemma dle_key a b : dnum a -> dnum b -> dle a b = true <-> ~ key_lt (dkey b) (dkey a).
Proof.
  intros Ha Hb. pose proof (compare_key a b Ha Hb) as H. unfold dle, SFleb.
  destruct (SFcompare a b) as [[]|]; split; intros H'; try done.
  - rewrite H. apply key_lt_irrefl.
  - intros H2. by apply (key_lt_irrefl (dkey a)), (key_lt_trans _ (dkey b)).
Qed.

Lemma key_lt_total a b : key_lt a b \/ a = b \/ key_lt b a.
Proof.
  destruct a as [[a1 a2] a3], b as [[b1 b2] b3]. simpl.
  destruct (Z.lt_total a1 b1) as [|[->|]], (Z.lt_total a2 b2) as [|[->|]], (Z.lt_total a3 b3) as [|[->|]];
    try (left; lia); try (right; right; lia); by right; left.
Qed.

(** ** The order of the members *)

(** [sdscmp] as a recursion on the bytes. *)
Fixpoint lexcmp (a b : sds) : Z :=
  match a, b with
  | [], [] => 0
  | [], _ :: _ => -1
  | _ :: _, [] => 1
  | x :: a, y :: b => if x =? y then lexcmp a b else if x <? y then -1 else 1
  end.

Lemma sdscmp_lexcmp a : forall b, sdscmp a b = lexcmp a b.
Proof.
  induction a as [|x a IH]; intros [|y b]; try done.
  cbn [lexcmp]. rewrite <- IH. unfold sdscmp. rewrite !zlen_cons.
  replace (1 + zlen a <? 1 + zlen b) with (zlen a <? zlen b) by (apply eq_iff_eq_true; rewrite !Z.ltb_lt; lia).
  rewrite !Z.gtb_ltb.
  replace (1 + zlen b <? 1 + zlen a) with (zlen b <? zlen a) by (apply eq_iff_eq_true; rewrite !Z.ltb_lt; lia).
  pose proof (zlen_nonneg a). pose proof (zlen_nonneg b).
  replace (Z.to_nat (if zlen a <? zlen b then 1 + zlen a else 1 + zlen b))
    with (S (Z.to_nat (if zlen a <? zlen b then zlen a else zlen b))) by (destruct (zlen a <? zlen b); lia).
  cbn [take memcmp]. destruct (x =? y); [done|]. by destruct (x <? y).
Qed.

Lemma lexcmp_refl a : lexcmp a a = 0.
Proof. induction a as [|x a IH]; [done|]. simpl. by rewrite Z.eqb_refl. Qed.

Lemma lexcmp_eq a : forall b, lexcmp a b = 0 -> a = b.
Proof.
  induction a as [|x a IH]; intros [|y b]; simpl; try done. destruct (Z.eqb_spec x y) as [->|]; [|by destruct (x <? y)].
  intros. f_equal. by apply IH.
Qed.

Lemma lexcmp_opp a : forall b, lexcmp b a = - lexcmp a b.
Proof.
  induction a as [|x a IH]; intros [|y b]; simpl; try done. rewrite (Z.eqb_sym y x). destruct (Z.eqb_spec x y); [done|].
  destruct (Z.ltb_spec x y), (Z.ltb_spec y x); lia.
Qed.

Lemma lexcmp_trans a : forall b c, lexcmp a b < 0 -> lexcmp b c < 0 -> lexcmp a c < 0.
Proof.
  induction a as [|x a IH]; intros [|y b] [|z c]; simpl; try lia.
  destruct (Z.eqb_spec x y) as [->|]; destruct (Z.eqb_spec y z) as [->|]; try by apply IH.
  - destruct (Z.ltb_spec y z); lia.
  - destruct (Z.eqb_spec x z); [done|]. destruct (Z.ltb_spec x z); lia.
  - destruct (Z.ltb_spec x y), (Z.ltb_spec y z); try lia. intros _ _. destruct (Z.eqb_spec x z); [lia|].
    destruct (Z.ltb_spec x z); lia.
Qed.

Lemma sdscmp_eq a b : sdscmp a b = 0 <-> a = b.
Proof. rewrite sdscmp_lexcmp. split; [apply lexcmp_eq|]. intros ->. apply lexcmp_refl. Qed.
Lemma sdscmp_opp a b : sdscmp b a = - sdscmp a b.
Proof. rewrite !sdscmp_lexcmp. apply lexcmp_opp. Qed.
Lemma sdscmp_trans a b c : sdscmp a b < 0 -> sdscmp b c < 0 -> sdscmp a c < 0.
Proof. rewrite !sdscmp_lexcmp. apply lexcmp_trans. Qed.

(** ** The order of the entries *)

Abbreviation entry := (double * sds)%type.
Definition entry_ok (e : entry) : Prop := dnum (fst e).

Lemma klt_spec a b : entry_ok a -> entry_ok b ->
  klt a b = true <-> key_lt (dkey (fst a)) (dkey (fst b)) \/ (dkey (fst a) = dkey (fst b) /\ sdscmp (snd a) (snd b) < 0).
Proof.
  intros Ha Hb. unfold klt. rewrite orb_true_iff, andb_true_iff, Z.ltb_lt.
  by rewrite dlt_key, deq_key by done.
Qed.

Lemma kle_spec a b : entry_ok a -> entry_ok b ->
  kle a b = true <-> key_lt (dkey (fst a)) (dkey (fst b)) \/ (dkey (fst a) = dkey (fst b) /\ sdscmp (snd a) (snd b) <= 0).
Proof.
  intros Ha Hb. unfold kle. rewrite orb_true_iff, andb_true_iff, Z.leb_le.
  by rewrite dlt_key, deq_key by done.
Qed.

Lemma klt_irrefl a : entry_ok a -> klt a a = false.
Proof.
  intros Ha. apply not_true_is_false. rewrite klt_spec by done. intros [H|[_ H]]; [by apply key_lt_irrefl in H|].
  assert (sdscmp (snd a) (snd a) = 0) by by apply sdscmp_eq. lia.
Qed.

Lemma klt_trans a b c : entry_ok a -> entry_ok b -> entry_ok c -> klt a b = true -> klt b c = true -> klt a c = true.
Proof.
  intros Ha Hb Hc. rewrite !klt_spec by done. intros [H1|[E1 H1]] [H2|[E2 H2]].
  - left. by eapply key_lt_trans.
  - left. by rewrite <- E2.
  - left. by rewrite E1.
  - right. split; [congruence|]. by eapply sdscmp_trans.
Qed.

(** Two entries are ordered one way or the other unless their members are equal. *)
Lemma klt_total a b : entry_ok a -> entry_ok b -> klt a b = false -> klt b a = false ->
  dkey (fst a) = dkey (fst b) /\ snd a = snd b.
Proof.
  intros Ha Hb H1 H2. apply not_true_iff_false in H1, H2. rewrite klt_spec in H1, H2 by done.
  destruct (key_lt_total (dkey (fst a)) (dkey (fst b))) as [?|[E|?]]; [tauto| |tauto].
  split; [done|]. apply sdscmp_eq. rewrite (sdscmp_opp (snd a)) in H2. rewrite E in H1, H2.
  destruct (Z.lt_total (sdscmp (snd a) (snd b)) 0) as [?|[?|?]]; [tauto|done|]. destruct H2. right. split; [done|lia].
Qed.

Lemma klt_asym a b : entry_ok a -> entry_ok b -> klt a b = true -> klt b a = false.
Proof.
  intros Ha Hb H. destruct (klt b a) eqn:E; [|done].
  by rewrite <- (klt_irrefl a Ha), <- (klt_trans a b a).
Qed.

(** [kle a b] is [klt a b] or equality of score and member. *)
Lemma kle_klt a b : entry_ok a -> entry_ok b -> kle a b = negb (klt b a).
Proof.
  intros Ha Hb. apply eq_iff_eq_true. rewrite kle_spec, negb_true_iff, <- not_true_iff_false, klt_spec by done.
  rewrite (sdscmp_opp (snd a) (snd b)). split.
  - intros [H|[E H]] [H2|[E2 H2]].
    + by apply (key_lt_irrefl (dkey (fst a))), (key_lt_trans _ (dkey (fst b))).
    + rewrite E2 in H. by apply key_lt_irrefl in H.
    + rewrite E in H2. by apply key_lt_irrefl in H2.
    + lia.
  - intros H. destruct (key_lt_total (dkey (fst a)) (dkey (fst b))) as [?|[E|?]]; [by left| |tauto].
    right. split; [done|]. destruct (Z.le_gt_cases (sdscmp (snd a) (snd b)) 0); [done|].
    destruct H. right. split; [done|lia].
Qed.

(** ** The ranges *)

(** Along increasing scores the lower test switches once from false to true, the
    upper one once from true to false. *)
Lemma gteMin_mono a b r : dnum a -> dnum b -> dnum (min r) -> dle a b = true ->
  zslValueGteMin a r = true -> zslValueGteMin b r = true.
Proof.
  intros Ha Hb Hm. unfold zslValueGteMin. destruct (minex r); rewrite ?dlt_key, ?dle_key by done; intros Hab H.
  - destruct (key_lt_total (dkey a) (dkey b)) as [?|[<-|?]]; [by eapply key_lt_trans|done|done].
  - intros H2. destruct (key_lt_total (dkey a) (dkey b)) as [?|[E|?]]; [|by rewrite E in H|done].
    apply H. by eapply key_lt_trans.
Qed.

Lemma lteMax_mono a b r : dnum a -> dnum b -> dnum (max r) -> dle a b = true ->
  zslValueLteMax b r = true -> zslValueLteMax a r = true.
Proof.
  intros Ha Hb Hm. unfold zslValueLteMax. destruct (maxex r); rewrite ?dlt_key, ?dle_key by done; intros Hab H.
  - destruct (key_lt_total (dkey a) (dkey b)) as [?|[->|?]]; [by eapply key_lt_trans|done|done].
  - intros H2. destruct (key_lt_total (dkey a) (dkey b)) as [?|[E|?]]; [|by rewrite E in H2|done].
    apply H. by eapply key_lt_trans.
Qed.

Lemma klt_dle a b : entry_ok a -> entry_ok b -> klt a b = true -> dle (fst a) (fst b) = true.
Proof.
  intros Ha Hb. rewrite klt_spec, dle_key by done. intros [H|[-> _]] H2; [|by apply key_lt_irrefl in H2].
  by apply (key_lt_irrefl (dkey (fst a))), (key_lt_trans _ (dkey (fst b))).
Qed.

Lemma sdscmplex_str_mono a b c : sdscmp a b < 0 -> sdscmplex (Str b) c <= 0 -> sdscmplex (Str a) c < 0.
Proof.
  destruct c as [| |c]; simpl; try lia. intros H1 H2. destruct (Z.eq_dec (sdscmp b c) 0) as [E|].
  - apply sdscmp_eq in E as <-. done.
  - eapply sdscmp_trans; [done|lia].
Qed.

Lemma lexGteMin_mono a b r : sdscmp a b < 0 -> zslLexValueGteMin a r = true -> zslLexValueGteMin b r = true.
Proof.
  intros H. pose proof (sdscmplex_str_mono a b (lmin r) H). unfold zslLexValueGteMin.
  destruct (lminex r); rewrite ?Z.gtb_lt, ?Z.geb_le; lia.
Qed.

Lemma lexLteMax_mono a b r : sdscmp a b < 0 -> zslLexValueLteMax b r = true -> zslLexValueLteMax a r = true.
Proof.
  intros H. pose proof (sdscmplex_str_mono a b (lmax r) H). unfold zslLexValueLteMax.
  destruct (lmaxex r); rewrite ?Z.ltb_lt, ?Z.leb_le; lia.
Qed.

End Score.
