(* ===== verification/Skiplist.v ===== *)
(** * Skip lists of sorted sets (t_zset.c)

    Nodes live in a heap from addresses to nodes; a node carries its array of
    levels, each with a forward pointer and the number of nodes it crosses.  A
    pointer is an optional address.  Following NULL or a freed node, reading a level
    a node does not have, a failed assertion and a loop that does not end within
    the number of nodes of the heap give [None].

    The specification is the sorted list of the pairs of score and member.  The
    representation predicate says of every node and every level where the forward
    pointer leads and how many nodes it crosses, so that the rank operations, which
    only add spans, can be proved against positions in the list. *)

From Stdlib Require Import SpecFloat.
From S2P Require Import Prelude Score.

Module Skiplist.
Import Score.

Definition loc := positive.

Definition ZSKIPLIST_MAXLEVEL : nat := 64.

(** What is assumed of the allocator, which aborts rather than return NULL: the
    block is not in use. *)
Class Heap := {
  zmalloc : gset loc -> loc;
  zmalloc_fresh used : zmalloc used ∉ used }.

Record zskiplistLevel := mkLevel { forward : option loc; span : Z }.

Record zskiplistNode := mkNode {
  ele : option sds;
  score : double;
  backward : option loc;
  level : list zskiplistLevel }.

Record zskiplist := mkZsl {
  header : loc;
  tail : option loc;
  zlength : Z;
  zlevel : nat }.

Abbreviation mem := (gmap loc zskiplistNode).

(** [x->level[i]] *)
Definition get_level (m : mem) (x : loc) (i : nat) : option zskiplistLevel := n ← m !! x; level n !! i.

Definition set_level (m : mem) (x : loc) (i : nat) (l : zskiplistLevel) : option mem :=
  n ← m !! x; _ ← level n !! i;
  Some (<[x := mkNode (ele n) (score n) (backward n) (<[i := l]> (level n))]> m).

(** [x->backward = p] *)
Definition set_backward (m : mem) (x : loc) (p : option loc) : option mem :=
  n ← m !! x; Some (<[x := mkNode (ele n) (score n) p (level n)]> m).

Definition set_score (m : mem) (x : loc) (s : double) : option mem :=
  n ← m !! x; Some (<[x := mkNode (ele n) s (backward n) (level n)]> m).

(** [for (i = from; i < from+n; i++)] over the levels. *)
Fixpoint for_levels (n i : nat) (body : nat -> mem -> option mem) (m : mem) : option mem :=
  match n with
  | O => Some m
  | S n => m ← body i m; for_levels n (S i) body m
  end.

Section Model.
Context {H : Heap}.

(** What a new block holds before it is written. *)
Context (garbage : zskiplistLevel) (garbage_ptr : option loc).

Definition zslCreateNode (m : mem) (lvl : nat) (sc : double) (e : option sds) : mem * loc :=
  let zn := zmalloc (dom m) in
  (<[zn := mkNode e sc garbage_ptr (replicate lvl garbage)]> m, zn).

Definition zslCreate (m : mem) : option (mem * zskiplist) :=
  let '(m, h) := zslCreateNode m ZSKIPLIST_MAXLEVEL (S754_zero false) None in
  m ← for_levels ZSKIPLIST_MAXLEVEL 0 (fun j m => set_level m h j (mkLevel None 0)) m;
  m ← set_backward m h None;
  Some (m, mkZsl h None 0 1).

Definition zslFreeNode (m : mem) (x : loc) : option mem := _ ← m !! x; Some (delete x m).

Fixpoint free_loop (fuel : nat) (m : mem) (node : option loc) : option mem :=
  match node with
  | None => Some m
  | Some x =>
      match fuel with
      | O => None
      | S fuel => l ← get_level m x 0; m ← zslFreeNode m x; free_loop fuel m (forward l)
      end
  end.

Definition zslFree (m : mem) (z : zskiplist) : option mem :=
  l ← get_level m (header z) 0;
  m ← zslFreeNode m (header z);
  free_loop (size m) m (forward l).

(** [random()] as the list of the values it returns during the call; the test is
    [(random()&0xFFFF) < 0.25 * 0xFFFF] with the quarter multiplied out. *)
Fixpoint random_loop (draws : list Z) (lvl : Z) : option Z :=
  match draws with
  | [] => None
  | r :: draws =>
      if 4 * Z.land r 0xFFFF <? 0xFFFF then
        if lvl =? INT32_MAX then None else random_loop draws (lvl + 1)
      else Some lvl
  end.

Definition zslRandomLevel (draws : list Z) : option nat :=
  lvl ← random_loop draws 1;
  Some (if lvl <? Z.of_nat ZSKIPLIST_MAXLEVEL then Z.to_nat lvl else ZSKIPLIST_MAXLEVEL).

(** The inner loop of every search: follow level [i] while the next node passes the
    test, which sees the node and the number of nodes crossed to reach it. *)
Fixpoint walk (fuel : nat) (m : mem) (i : nat) (test : zskiplistNode -> Z -> option bool)
    (add : Z -> Z -> Z) (x : loc) (r : Z) : option (loc * Z) :=
  match fuel with
  | O => None
  | S fuel =>
      l ← get_level m x i;
      match forward l with
      | None => Some (x, r)
      | Some f =>
          n ← m !! f;
          t ← test n (add r (span l));
          if (t : bool) then walk fuel m i test add f (add r (span l)) else Some (x, r)
      end
  end.

(** [for (i = level-1; i >= 0; i--)]: the last node reached and the arrays
    [update] and [rank], indexed by the level. *)
Fixpoint descend (i : nat) (m : mem) (test : zskiplistNode -> Z -> option bool)
    (add : Z -> Z -> Z) (x : loc) (r : Z) : option (loc * list (loc * Z)) :=
  match i with
  | O => Some (x, [])
  | S i =>
      '(x, r) ← walk (S (size m)) m i test add x r;
      '(y, us) ← descend i m test add x r;
      Some (y, us ++ [(x, r)])
  end.

(** [node->score < score || (node->score == score && sdscmp(node->ele,ele) < 0)] *)
Definition before (k : entry) (n : zskiplistNode) (_ : Z) : option bool :=
  e ← ele n; Some (klt (score n, e) k).

Definition add32 (r s : Z) : Z := u32 (r + s).
Definition add64 (r s : Z) : Z := u64 (r + s).

(** A level the list did not have: [update[i]->level[i].span = zsl->length]. *)
Definition raise_step (h : loc) (len : Z) (i : nat) (m : mem) : option mem :=
  l ← get_level m h i; set_level m h i (mkLevel (forward l) len).

(** Link the new node [x] in after [update[i]]; ranks are [unsigned int]. *)
Definition link_step (x : loc) (us : list (loc * Z)) (i : nat) (m : mem) : option mem :=
  '(_, rank0) ← us !! O;
  '(u, ranki) ← us !! i;
  l ← get_level m u i;
  m ← set_level m x i (mkLevel (forward l) (u64 (span l - u32 (rank0 - ranki))));
  set_level m u i (mkLevel (Some x) (u32 (u32 (rank0 - ranki) + 1))).

(** [update[i]->level[i].span++] *)
Definition bump_step (us : list (loc * Z)) (i : nat) (m : mem) : option mem :=
  '(u, _) ← us !! i;
  l ← get_level m u i;
  set_level m u i (mkLevel (forward l) (u64 (span l + 1))).

Definition zslInsert (draws : list Z) (m : mem) (z : zskiplist) (sc : double) (e : sds)
    : option (mem * zskiplist * loc) :=
  if isnan sc then None else
  '(_, us) ← descend (zlevel z) m (before (sc, e)) add32 (header z) 0;
  lvl ← zslRandomLevel draws;
  let grow := (lvl - zlevel z)%nat in
  m ← for_levels grow (zlevel z) (raise_step (header z) (zlength z)) m;
  let us := us ++ replicate grow (header z, 0) in
  let z := mkZsl (header z) (tail z) (zlength z) (zlevel z + grow) in
  let '(m, x) := zslCreateNode m lvl sc (Some e) in
  m ← for_levels lvl 0 (link_step x us) m;
  m ← for_levels (zlevel z - lvl) lvl (bump_step us) m;
  '(u0, _) ← us !! O;
  m ← set_backward m x (if decide (u0 = header z) then None else Some u0);
  l ← get_level m x 0;
  '(m, t) ← match forward l with
            | Some f => m ← set_backward m f (Some x); Some (m, tail z)
            | None => Some (m, Some x)
            end;
  Some (m, mkZsl (header z) t (u64 (zlength z + 1)) (zlevel z), x).

Definition unlink_step (x : loc) (us : list (loc * Z)) (i : nat) (m : mem) : option mem :=
  '(u, _) ← us !! i;
  l ← get_level m u i;
  if decide (forward l = Some x) then
    lx ← get_level m x i;
    set_level m u i (mkLevel (forward lx) (u64 (span l + u64 (span lx - 1))))
  else set_level m u i (mkLevel (forward l) (u64 (span l - 1))).

(** [while(zsl->level > 1 && zsl->header->level[zsl->level-1].forward == NULL)] *)
Fixpoint shrink (lvl : nat) (m : mem) (h : loc) : option nat :=
  match lvl with
  | S (S _ as l') =>
      l ← get_level m h l';
      match forward l with None => shrink l' m h | Some _ => Some lvl end
  | _ => Some lvl
  end.

Definition zslDeleteNode (m : mem) (z : zskiplist) (x : loc) (us : list (loc * Z)) : option (mem * zskiplist) :=
  m ← for_levels (zlevel z) 0 (unlink_step x us) m;
  n ← m !! x;
  l ← level n !! O;
  '(m, t) ← match forward l with
            | Some f => m ← set_backward m f (backward n); Some (m, tail z)
            | None => Some (m, backward n)
            end;
  lvl ← shrink (zlevel z) m (header z);
  Some (m, mkZsl (header z) t (u64 (zlength z - 1)) lvl).

(** [node == NULL] is [keep = false]; the result is the node that was removed. *)
Definition zslDelete (m : mem) (z : zskiplist) (sc : double) (e : sds) (keep : bool)
    : option (mem * zskiplist * option loc) :=
  '(x, us) ← descend (zlevel z) m (before (sc, e)) add64 (header z) 0;
  l ← get_level m x 0;
  match forward l with
  | None => Some (m, z, None)
  | Some x =>
      n ← m !! x;
      xe ← ele n;
      if deq sc (score n) && (sdscmp xe e =? 0) then
        '(m, z) ← zslDeleteNode m z x us;
        m ← (if keep then Some m else zslFreeNode m x);
        Some (m, z, Some x)
      else Some (m, z, None)
  end.

Definition zslUpdateScore (draws : list Z) (m : mem) (z : zskiplist) (curscore : double) (e : sds) (newscore : double)
    : option (mem * zskiplist * loc) :=
  '(x, us) ← descend (zlevel z) m (before (curscore, e)) add64 (header z) 0;
  l ← get_level m x 0;
  x ← forward l;
  n ← m !! x;
  xe ← ele n;
  if negb (deq curscore (score n) && (sdscmp xe e =? 0)) then None else
  l ← level n !! O;
  low ← match backward n with None => Some true | Some b => nb ← m !! b; Some (dlt (score nb) newscore) end;
  high ← match forward l with None => Some true | Some f => nf ← m !! f; Some (dlt newscore (score nf)) end;
  if low && high then
    m ← set_score m x newscore; Some (m, z, x)
  else
    '(m, z) ← zslDeleteNode m z x us;
    '(m, z, newnode) ← zslInsert draws m z newscore xe;
    m ← zslFreeNode m x;
    Some (m, z, newnode).

Definition in_range_ends (m : mem) (z : zskiplist) (gte lte : zskiplistNode -> option bool) : option bool :=
  match tail z with
  | None => Some false
  | Some x =>
      n ← m !! x;
      g ← gte n;
      if negb (g : bool) then Some false else
      l ← get_level m (header z) 0;
      match forward l with
      | None => Some false
      | Some x => n ← m !! x; lte n
      end
  end.

Definition zslIsInRange (m : mem) (z : zskiplist) (range : zrangespec) : option bool :=
  if dlt (max range) (min range) || (deq (min range) (max range) && (minex range || maxex range)) then Some false
  else in_range_ends m z (fun n => Some (zslValueGteMin (score n) range)) (fun n => Some (zslValueLteMax (score n) range)).

Definition zslFirstInRange (m : mem) (z : zskiplist) (range : zrangespec) : option (option loc) :=
  b ← zslIsInRange m z range;
  if negb b then Some None else
  '(x, _) ← descend (zlevel z) m (fun n _ => Some (negb (zslValueGteMin (score n) range))) add64 (header z) 0;
  l ← get_level m x 0;
  x ← forward l;
  n ← m !! x;
  Some (if negb (zslValueLteMax (score n) range) then None else Some x).

Definition zslLastInRange (m : mem) (z : zskiplist) (range : zrangespec) : option (option loc) :=
  b ← zslIsInRange m z range;
  if negb b then Some None else
  '(x, _) ← descend (zlevel z) m (fun n _ => Some (zslValueLteMax (score n) range)) add64 (header z) 0;
  n ← m !! x;
  Some (if negb (zslValueGteMin (score n) range) then None else Some x).

Definition lex_gte (range : zlexrangespec) (n : zskiplistNode) : option bool :=
  e ← ele n; Some (zslLexValueGteMin e range).
Definition lex_lte (range : zlexrangespec) (n : zskiplistNode) : option bool :=
  e ← ele n; Some (zslLexValueLteMax e range).

Definition zslIsInLexRange (m : mem) (z : zskiplist) (range : zlexrangespec) : option bool :=
  let cmp := sdscmplex (lmin range) (lmax range) in
  if (cmp >? 0) || ((cmp =? 0) && (lminex range || lmaxex range)) then Some false
  else in_range_ends m z (lex_gte range) (lex_lte range).

Definition zslFirstInLexRange (m : mem) (z : zskiplist) (range : zlexrangespec) : option (option loc) :=
  b ← zslIsInLexRange m z range;
  if negb b then Some None else
  '(x, _) ← descend (zlevel z) m (fun n _ => negb <$> lex_gte range n) add64 (header z) 0;
  l ← get_level m x 0;
  x ← forward l;
  n ← m !! x;
  b ← lex_lte range n;
  Some (if negb (b : bool) then None else Some x).

Definition zslLastInLexRange (m : mem) (z : zskiplist) (range : zlexrangespec) : option (option loc) :=
  b ← zslIsInLexRange m z range;
  if negb b then Some None else
  '(x, _) ← descend (zlevel z) m (fun n _ => lex_lte range n) add64 (header z) 0;
  n ← m !! x;
  b ← lex_gte range n;
  Some (if negb (b : bool) then None else Some x).

Fixpoint rank_loop (i : nat) (m : mem) (sc : double) (e : sds) (x : loc) (rank : Z) : option Z :=
  match i with
  | O => Some 0
  | S i =>
      '(x, rank) ← walk (S (size m)) m i (fun n _ => xe ← ele n; Some (kle (score n, xe) (sc, e))) add64 x rank;
      n ← m !! x;
      match ele n with
      | Some xe => if sdscmp xe e =? 0 then Some rank else rank_loop i m sc e x rank
      | None => rank_loop i m sc e x rank
      end
  end.

Definition zslGetRank (m : mem) (z : zskiplist) (sc : double) (e : sds) : option Z :=
  rank_loop (zlevel z) m sc e (header z) 0.

Fixpoint by_rank_loop (i : nat) (m : mem) (rank : Z) (x : loc) (traversed : Z) : option (option loc) :=
  match i with
  | O => Some None
  | S i =>
      '(x, traversed) ← walk (S (size m)) m i (fun _ t => Some (t <=? rank)) add64 x traversed;
      if traversed =? rank then Some (Some x) else by_rank_loop i m rank x traversed
  end.

Definition zslGetElementByRank (m : mem) (z : zskiplist) (rank : Z) : option (option loc) :=
  by_rank_loop (zlevel z) m rank (header z) 0.

(** ** Deleting ranges *)

(** The hash table of the sorted set, which loses the same members. *)
Section DeleteRange.
Context {D : Type} (dictDelete : D -> sds -> option D).

Fixpoint delete_loop (fuel : nat) (cont : zskiplistNode -> Z -> option bool) (m : mem) (z : zskiplist) (d : D)
    (us : list (loc * Z)) (x : option loc) (traversed removed : Z) : option (mem * zskiplist * D * Z) :=
  match x with
  | None => Some (m, z, d, removed)
  | Some x =>
      n ← m !! x;
      c ← cont n traversed;
      if negb (c : bool) then Some (m, z, d, removed) else
      match fuel with
      | O => None
      | S fuel =>
          l ← level n !! O;
          '(m, z) ← zslDeleteNode m z x us;
          e ← ele n;
          d ← dictDelete d e;
          m ← zslFreeNode m x;
          delete_loop fuel cont m z d us (forward l) (u64 (traversed + 1)) (u64 (removed + 1))
      end
  end.

(** The common part of the three functions: skip, then delete while in range. *)
Definition delete_range (skip cont : zskiplistNode -> Z -> option bool) (m : mem) (z : zskiplist) (d : D)
    : option (mem * zskiplist * D * Z) :=
  '(x, us) ← descend (zlevel z) m skip add64 (header z) 0;
  l ← get_level m x 0;
  '(_, traversed) ← us !! O;
  delete_loop (size m) cont m z d us (forward l) (u64 (traversed + 1)) 0.

Definition zslDeleteRangeByScore (m : mem) (z : zskiplist) (range : zrangespec) (d : D) : option (mem * zskiplist * D * Z) :=
  delete_range (fun n _ => Some (if minex range then dle (score n) (min range) else dlt (score n) (min range)))
    (fun n _ => Some (if maxex range then dlt (score n) (max range) else dle (score n) (max range))) m z d.

Definition zslDeleteRangeByLex (m : mem) (z : zskiplist) (range : zlexrangespec) (d : D) : option (mem * zskiplist * D * Z) :=
  delete_range (fun n _ => negb <$> lex_gte range n) (fun n _ => lex_lte range n) m z d.

Definition zslDeleteRangeByRank (m : mem) (z : zskiplist) (start end_ : Z) (d : D) : option (mem * zskiplist * D * Z) :=
  delete_range (fun _ t => Some (t <? start)) (fun _ t => Some (t <=? end_)) m z d.
End DeleteRange.

End Model.

(** ** Memory as two views

    A node is seen through [info], everything but its links, and [get_level], its
    links: a write to one view leaves the other. *)

Definition info (m : mem) (x : loc) : option (option sds * double * option loc * nat) :=
  (fun n => (ele n, score n, backward n, length (level n))) <$> m !! x.

Definition hgt (m : mem) (x : loc) : nat := match m !! x with Some n => length (level n) | None => 0 end.

Definition same_info (m m' : mem) : Prop := forall y, info m' y = info m y.

#[export] Instance same_info_refl : Reflexive same_info.
Proof. by intros m y. Qed.
#[export] Instance same_info_trans : Transitive same_info.
Proof. intros a b c H1 H2 y. by rewrite H2, H1. Qed.

Lemma info_lookup m x n : m !! x = Some n -> info m x = Some (ele n, score n, backward n, length (level n)).
Proof. unfold info. by intros ->. Qed.

Lemma info_inv m x e sc b h : info m x = Some (e, sc, b, h) ->
  exists n, m !! x = Some n /\ ele n = e /\ score n = sc /\ backward n = b /\ length (level n) = h.
Proof. unfold info. destruct (m !! x) as [n|]; [|done]. intros [= <- <- <- <-]. by exists n. Qed.

Lemma same_info_hgt m m' : same_info m m' -> forall x, hgt m' x = hgt m x.
Proof. intros Hs x. specialize (Hs x). unfold info, hgt in *. destruct (m !! x), (m' !! x); naive_solver. Qed.

Lemma same_info_dom m m' : same_info m m' -> (dom m' : gset loc) = dom m.
Proof.
  intros Hs. apply set_eq. intros x. rewrite !elem_of_dom. specialize (Hs x). unfold info in Hs.
  destruct (m !! x), (m' !! x); naive_solver.
Qed.

Lemma get_level_hgt m x i : is_Some (get_level m x i) <-> (i < hgt m x)%nat.
Proof.
  unfold get_level, hgt. destruct (m !! x) as [n|]; mrun; [apply lookup_lt_is_Some|].
  rewrite is_Some_alt. lia.
Qed.

Lemma get_level_Some m x i : (i < hgt m x)%nat -> exists l, get_level m x i = Some l.
Proof. apply get_level_hgt. Qed.

Lemma set_level_spec m x i l : (i < hgt m x)%nat ->
  exists m', set_level m x i l = Some m' /\ same_info m m' /\
    forall y j, get_level m' y j = if decide (y = x /\ j = i) then Some l else get_level m y j.
Proof.
  unfold set_level, hgt. destruct (m !! x) as [n|] eqn:E; [|lia]. intros Hi. mrun.
  destruct (lookup_lt_is_Some_2 (level n) i Hi) as [l0 Hl0]. rewrite Hl0. mrun. eexists. split; [done|]. split.
  - intros y. unfold info. destruct (decide (y = x)) as [->|Hne].
    + rewrite lookup_insert_eq, E. simpl. by rewrite length_insert.
    + by rewrite lookup_insert_ne.
  - intros y j. unfold get_level. destruct (decide (y = x)) as [->|Hne].
    + rewrite lookup_insert_eq, E. mrun. cbn [level]. destruct (decide (j = i)) as [->|Hj].
      * rewrite decide_True by done. apply list_lookup_insert_eq. done.
      * rewrite decide_False by tauto. apply list_lookup_insert_ne. done.
    + rewrite lookup_insert_ne by done. by rewrite decide_False by tauto.
Qed.

Lemma set_backward_spec m x p n : m !! x = Some n ->
  exists m', set_backward m x p = Some m' /\
    (forall y, info m' y = if decide (y = x) then Some (ele n, score n, p, length (level n)) else info m y) /\
    (forall y j, get_level m' y j = get_level m y j).
Proof.
  intros E. unfold set_backward. rewrite E. mrun. eexists. split; [done|]. split.
  - intros y. unfold info. destruct (decide (y = x)) as [->|]; [by rewrite lookup_insert_eq|by rewrite lookup_insert_ne].
  - intros y j. unfold get_level. destruct (decide (y = x)) as [->|]; [by rewrite lookup_insert_eq, E|by rewrite lookup_insert_ne].
Qed.

(** A loop over the levels whose step [j] writes row [j] of the links. *)
Lemma for_levels_spec (R : nat -> loc -> option zskiplistLevel) body n : forall i m,
  (forall j m1, (i <= j < i + n)%nat -> same_info m m1 -> (forall y, get_level m1 y j = get_level m y j) ->
     exists m2, body j m1 = Some m2 /\ same_info m1 m2 /\
       forall y k, get_level m2 y k = if decide (k = j) then R j y else get_level m1 y k) ->
  exists m', for_levels n i body m = Some m' /\ same_info m m' /\
    forall y k, get_level m' y k = if decide (i <= k < i + n)%nat then R k y else get_level m y k.
Proof.
  induction n as [|n IH]; intros i m Hb.
  { exists m. split_and!; try done. intros y k. by rewrite decide_False by lia. }
  destruct (Hb i m ltac:(lia) (reflexivity _) ltac:(done)) as (m1 & E1 & Hs1 & Hg1). cbn [for_levels]. rewrite E1. mrun.
  destruct (IH (S i) m1) as (m2 & E2 & Hs2 & Hg2).
  { intros j m2 Hj Hs Hg. apply Hb; [lia|by etrans|]. intros y. rewrite Hg, Hg1. by rewrite decide_False by lia. }
  exists m2. split_and!; [done|by etrans|]. intros y k. rewrite Hg2, Hg1.
  destruct (decide (S i <= k < S i + n)%nat).
  - by rewrite decide_True by lia.
  - destruct (decide (k = i)) as [->|]; [by rewrite decide_True by lia|by rewrite decide_False by lia].
Qed.

(** ** Where the links lead *)

(** The first node of height more than [i] in a list, and the number of steps to it;
    without one, the length of the list. *)
Fixpoint hop (h : loc -> nat) (i : nat) (l : list loc) : option loc * Z :=
  match l with
  | [] => (None, 0)
  | x :: l => if decide (i < h x)%nat then (Some x, 1) else (fst (hop h i l), snd (hop h i l) + 1)
  end.

Abbreviation low h i := (Forall (fun y => (h y <= i)%nat)).

Lemma hop_low h i b c : low h i b -> hop h i (b ++ c) = (fst (hop h i c), zlen b + snd (hop h i c)).
Proof.
  induction b as [|x b IH]; intros Hb; [cbn [app]; by destruct (hop h i c)|]. apply Forall_cons in Hb as [Hx Hb].
  cbn [app hop]. rewrite decide_False by lia. rewrite IH by done. rewrite zlen_cons. cbn [fst snd]. f_equal. lia.
Qed.

Lemma hop_high h i x c : (i < h x)%nat -> hop h i (x :: c) = (Some x, 1).
Proof. intros. cbn [hop]. by rewrite decide_True. Qed.

Lemma hop_low_all h i b : low h i b -> hop h i b = (None, zlen b).
Proof. intros Hb. pose proof (hop_low h i b [] Hb) as E. rewrite app_nil_r in E. rewrite E. simpl. f_equal. lia. Qed.

Lemma hop_ext h h' i b : (forall y, y ∈ b -> h y = h' y) -> hop h i b = hop h' i b.
Proof.
  induction b as [|x b IH]; intros Hh; [done|]. cbn [hop]. rewrite (Hh x) by set_solver. rewrite IH by set_solver. done.
Qed.

(** Either every node is low, or the list splits at the first high one. *)
Lemma low_split (h : loc -> nat) i b : low h i b \/ exists b1 f b2, b = b1 ++ f :: b2 /\ low h i b1 /\ (i < h f)%nat.
Proof.
  induction b as [|x b [IH|(b1 & f & b2 & -> & IH & Hf)]]; [by left| |].
  - destruct (decide (i < h x)%nat); [right; by exists [], x, b|left; constructor; [lia|done]].
  - right. destruct (decide (i < h x)%nat); [by exists [], x, (b1 ++ f :: b2)|].
    exists (x :: b1), f, b2. split_and!; try done. constructor; [lia|done].
Qed.

(** The last node of [pre] that is higher than [i], and what precedes it. *)
Definition lastat (h : loc -> nat) (i : nat) (pre a : list loc) (u : loc) : Prop :=
  exists c, pre = a ++ u :: c /\ (i < h u)%nat /\ low h i c.

Lemma NoDup_split_eq {A} (a a' : list A) x b b' : NoDup (a ++ x :: b) -> a ++ x :: b = a' ++ x :: b' -> a = a' /\ b = b'.
Proof.
  revert a'. induction a as [|y a IH]; intros [|y' a'] Hn E; simplify_eq/=; [done| | |].
  - apply NoDup_cons in Hn as [Hn _]. set_solver.
  - apply NoDup_cons in Hn as [Hn _]. set_solver.
  - apply NoDup_cons in Hn as [_ Hn]. by destruct (IH a' Hn) as [-> ->].
Qed.

(** A node of [pre] higher than [i] is the last such, or one follows it. *)
Lemma lastat_cases h i pre a u a' y c' : NoDup pre -> lastat h i pre a u -> pre = a' ++ y :: c' -> (i < h y)%nat ->
  (y = u /\ a' = a /\ low h i c') \/ (y <> u /\ exists b1 f b2, c' = b1 ++ f :: b2 /\ low h i b1 /\ (i < h f)%nat).
Proof.
  intros Hn (c & E & Hu & Hc) E' Hy. destruct (decide (y = u)) as [->|Hne].
  { left. rewrite E in E', Hn. by destruct (NoDup_split_eq _ _ _ _ _ Hn E') as [-> ->]. }
  right. split; [done|]. destruct (low_split h i c') as [Hlow|]; [|done]. exfalso.
  rewrite E in E'. apply (app_eq_inv a (u :: c) a' (y :: c')) in E' as [(k & -> & E2)|(k & -> & E2)].
  - destruct k as [|z k]; simplify_eq/=. rewrite !Forall_app, Forall_cons in Hlow. destruct Hlow as [_ [? _]]. lia.
  - destruct k as [|z k]; simplify_eq/=. rewrite Forall_app, Forall_cons in Hc. destruct Hc as [_ [? _]]. lia.
Qed.

Definition link_of (h : loc -> nat) (i : nat) (b : list loc) : zskiplistLevel :=
  mkLevel (fst (hop h i b)) (snd (hop h i b)).

(** The links of the header [hd] and the nodes [ns] up to level [lv]. *)
Record core (m : mem) (hd : loc) (ns : list loc) (lv : nat) : Prop := {
  core_nodup : NoDup (hd :: ns);
  core_hd : hgt m hd = ZSKIPLIST_MAXLEVEL;
  core_hgt : Forall (fun x => 1 <= hgt m x <= lv)%nat ns;
  core_lv : (1 <= lv <= ZSKIPLIST_MAXLEVEL)%nat;
  core_links a x b i : hd :: ns = a ++ x :: b -> (i < lv)%nat -> (i < hgt m x)%nat ->
    get_level m x i = Some (link_of (hgt m) i b) }.

Section Search.
Context (m : mem) (hd : loc) (ns : list loc) (lv : nat) (Hc : core m hd ns lv).

Lemma core_pos x : x ∈ hd :: ns -> (1 <= hgt m x)%nat.
Proof.
  rewrite elem_of_cons. intros [->|Hx]; [rewrite (core_hd _ _ _ _ Hc); unfold ZSKIPLIST_MAXLEVEL; lia|].
  pose proof (core_hgt _ _ _ _ Hc) as Hh. rewrite Forall_forall in Hh. specialize (Hh x Hx). lia.
Qed.

Lemma core_dom x : x ∈ hd :: ns -> exists n, m !! x = Some n.
Proof. intros Hx. pose proof (core_pos x Hx) as H1. unfold hgt in H1. destruct (m !! x); [by eexists|lia]. Qed.

Lemma core_size : (length (hd :: ns) <= size m)%nat.
Proof.
  rewrite <- size_dom. rewrite <- (size_list_to_set (C := gset loc) (hd :: ns)) by apply Hc.
  apply subseteq_size. intros x Hx%elem_of_list_to_set. apply elem_of_dom.
  destruct (core_dom x Hx) as [n ->]. by eexists.
Qed.

(** A test that holds of exactly the first [M] nodes, and an addition of spans
    that does not wrap within the list. *)
Context (M : nat) (test : zskiplistNode -> Z -> option bool) (add : Z -> Z -> Z).
Hypothesis Htest : forall a f b n, hd :: ns = a ++ f :: b -> a <> [] -> m !! f = Some n ->
  test n (zlen a) = Some (bool_decide (length a <= M)%nat).
Hypothesis Hadd : forall r s, 0 <= r -> 0 < s -> r + s <= zlen ns -> add r s = r + s.

Lemma walk_spec i : (i < lv)%nat -> forall fuel a x b,
  hd :: ns = a ++ x :: b -> (i < hgt m x)%nat -> (length a <= M)%nat -> (length b < fuel)%nat ->
  exists a' x' b', walk fuel m i test add x (zlen a) = Some (x', zlen a') /\ hd :: ns = a' ++ x' :: b' /\
    (length a' <= M)%nat /\ (i < hgt m x')%nat /\ low (hgt m) i (take (M - length a') b').
Proof.
  intros Hi. induction fuel as [|fuel IH]; intros a x b Eseq Hx Ha Hf; [lia|]. cbn [walk].
  rewrite (core_links _ _ _ _ Hc a x b i Eseq Hi Hx). mrun. unfold link_of. cbn [forward span].
  destruct (low_split (hgt m) i b) as [Hlow|(b1 & f & b2 & -> & Hlow & Hfh)].
  { rewrite hop_low_all by done. cbn [fst]. exists a, x, b. split_and!; try done. by apply Forall_take. }
  rewrite hop_low, hop_high by done. cbn [fst snd].
  assert (Eseq' : hd :: ns = (a ++ x :: b1) ++ f :: b2) by (rewrite Eseq; by rewrite <- app_assoc).
  destruct (core_dom f) as [n Hn]; [rewrite Eseq'; set_solver|]. rewrite Hn. mrun.
  assert (Hz : zlen (a ++ x :: b1) = zlen a + (zlen b1 + 1)) by (rewrite zlen_app, zlen_cons; lia).
  rewrite Hadd; [|apply zlen_nonneg|pose proof (zlen_nonneg b1); lia|].
  2:{ assert (zlen (hd :: ns) = zlen (a ++ x :: b1) + zlen (f :: b2)) by (rewrite Eseq'; by rewrite zlen_app).
      rewrite !zlen_cons in *. pose proof (zlen_nonneg b2). lia. }
  rewrite <- Hz. rewrite (Htest _ f b2 n Eseq' (ltac:(by destruct a)) Hn). mrun.
  case_bool_decide as HM.
  - apply (IH (a ++ x :: b1) f b2); try done. rewrite length_app in Hf. simpl in Hf. lia.
  - exists a, x, (b1 ++ f :: b2). split_and!; try done. rewrite length_app in HM. simpl in HM.
    rewrite take_app_le by lia. by apply Forall_take.
Qed.

(** [update] and [rank]: at every level the last of the first [M] nodes (or the
    header) that is high enough, and its position. *)
Lemma descend_spec i : (i <= lv)%nat -> forall a x b,
  hd :: ns = a ++ x :: b -> (i <= hgt m x)%nat -> (length a <= M)%nat ->
  exists y us, descend i m test add x (zlen a) = Some (y, us) /\ length us = i /\
    (forall j, (j < i)%nat -> exists a' u, us !! j = Some (u, zlen a') /\
       lastat (hgt m) j (take (S M) (hd :: ns)) a' u) /\
    match i with O => y = x | S _ => exists r, us !! 0%nat = Some (y, r) end.
Proof.
  induction i as [|i IH]; intros Hi a x b Eseq Hx Ha.
  { exists x, []. split_and!; try done. intros j ?; lia. }
  cbn [descend]. pose proof core_size as Hsz. rewrite Eseq, length_app in Hsz. simpl in Hsz.
  destruct (walk_spec i ltac:(lia) (S (size m)) a x b Eseq ltac:(lia) Ha ltac:(lia))
    as (a' & x' & b' & -> & Eseq' & Ha' & Hx' & Hlow). mrun.
  destruct (IH ltac:(lia) a' x' b' Eseq' ltac:(lia) Ha') as (y & us & -> & Hl & Hus & Hy). mrun.
  exists y, (us ++ [(x', zlen a')]). split_and!; [done|rewrite length_app; simpl; lia| |].
  - intros j Hj. destruct (decide (j = i)) as [->|].
    + exists a', x'. rewrite lookup_app_r by lia. rewrite Hl, Nat.sub_diag. split; [done|].
      exists (take (M - length a') b'). split_and!; try done. rewrite Eseq', take_app_ge by lia.
      replace (S M - length a')%nat with (S (M - length a')) by lia. done.
    + rewrite lookup_app_l by lia. apply Hus. lia.
  - destruct i as [|i].
    + subst y. destruct us; [|done]. by exists (zlen a').
    + destruct Hy as [r Hr]. exists r. by rewrite lookup_app_l by lia.
Qed.

(** The arrays after a search for the first [length pre - 1] nodes. *)
Definition upds (h : loc -> nat) (pre : list loc) (us : list (loc * Z)) (n : nat) : Prop :=
  forall j, (j < n)%nat -> exists a u, us !! j = Some (u, zlen a) /\ lastat h j pre a u.

Lemma lastat_zero h pre a u : Forall (fun x => 1 <= h x)%nat pre -> lastat h 0 pre a u -> pre = a ++ [u].
Proof.
  intros Hh (c & -> & Hu & Hlow). destruct c as [|x c]; [done|]. rewrite Forall_app, !Forall_cons in Hh.
  rewrite Forall_cons in Hlow. lia.
Qed.

Lemma hop_zero h l : Forall (fun x => 1 <= h x)%nat l -> hop h 0 l = match l with [] => (None, 0) | x :: _ => (Some x, 1) end.
Proof. destruct l as [|x l]; [done|]. rewrite Forall_cons. intros [? _]. apply hop_high. lia. Qed.

Lemma core_all : Forall (fun x => 1 <= hgt m x)%nat (hd :: ns).
Proof. apply Forall_forall. apply core_pos. Qed.

Lemma zsl_search_spec : (M <= length ns)%nat ->
  exists a y us, hd :: take M ns = a ++ [y] /\ descend lv m test add hd 0 = Some (y, us) /\ us !! 0%nat = Some (y, Z.of_nat M) /\
    length us = lv /\ upds (hgt m) (hd :: take M ns) us lv /\ get_level m y 0 = Some (link_of (hgt m) 0 (drop M ns)).
Proof.
  intros HM. pose proof (core_lv _ _ _ _ Hc) as Hlv.
  destruct (descend_spec lv ltac:(lia) [] hd ns eq_refl) as (y & us & E & Hl & Hus & Hy).
  { rewrite (core_hd _ _ _ _ Hc). apply Hlv. } { simpl. lia. }
  destruct (Hus 0%nat ltac:(lia)) as (a & u & Hu & Hlast). 
  assert (exists r, us !! 0%nat = Some (y, r)) as [r Hr] by (clear -Hy Hlv; destruct lv; [lia|done]). rewrite Hu in Hr. injection Hr as -> _. cbn [take] in Hus, Hlast.
  pose proof core_all as Hall. pose proof core_all as Hall'. rewrite <- (take_drop M ns) in Hall.
  rewrite app_comm_cons, Forall_app in Hall. destruct Hall as [Hall _]. pose proof (lastat_zero _ _ _ _ Hall Hlast) as Ea.
  exists a, y, us. split_and!; try done.
  - rewrite Hu. do 2 f_equal. apply (f_equal length) in Ea. rewrite length_app in Ea. simpl in Ea.
    rewrite length_take in Ea. unfold zlen. lia.
  - apply (core_links _ _ _ _ Hc a); [|lia|].
    + rewrite <- (take_drop M ns) at 1. rewrite app_comm_cons, Ea. by rewrite <- app_assoc.
    + apply core_pos. rewrite <- (take_drop M ns), app_comm_cons, Ea. set_solver.
Qed.

End Search.

Lemma hop_bounds h i l : 0 <= snd (hop h i l) <= zlen l.
Proof.
  induction l as [|x l IH]; [simpl; by unfold zlen|]. cbn [hop]. rewrite zlen_cons.
  destruct (decide _); cbn [snd]; pose proof (zlen_nonneg l); lia.
Qed.

Lemma hop_elem h i l f : fst (hop h i l) = Some f -> f ∈ l.
Proof.
  induction l as [|x l IH]; [done|]. cbn [hop]. destruct (decide _); cbn [fst]; [intros [= ->]; set_solver|].
  intros ?%IH. set_solver.
Qed.

(** Where a split of [pre ++ x :: q] lies. *)
Lemma split3 {A} (pre q : list A) x a y b : pre ++ x :: q = a ++ y :: b ->
  (exists k, pre = a ++ y :: k /\ b = k ++ x :: q) \/ (a = pre /\ y = x /\ b = q) \/
  (exists k, q = k ++ y :: b /\ a = pre ++ x :: k).
Proof.
  intros E. apply app_eq_inv in E as [(k & -> & E)|(k & -> & E)].
  - destruct k as [|z k]; simplify_eq/=.
    + right; left. by rewrite app_nil_r.
    + left. by exists k.
  - destruct k as [|z k]; simplify_eq/=; rewrite ?app_nil_r; [by right; left|].
    right; right. by exists k.
Qed.

Lemma split2 {A} (pre q : list A) a y b : pre ++ q = a ++ y :: b ->
  (exists k, pre = a ++ y :: k /\ b = k ++ q) \/ (exists k, q = k ++ y :: b /\ a = pre ++ k).
Proof.
  intros E. apply app_eq_inv in E as [(k & -> & E)|(k & -> & E)].
  - destruct k as [|z k]; simplify_eq/=; [right; exists []; by rewrite !app_nil_r|]. left. by exists k.
  - right. exists k. done.
Qed.

(** A node of [pre] that is not the last high one has the same link whatever
    follows [pre]; the last one reaches what follows. *)
Lemma pre_link h i pre a u a' y k t t' : NoDup pre -> lastat h i pre a u -> pre = a' ++ y :: k -> (i < h y)%nat ->
  (y <> u /\ link_of h i (k ++ t) = link_of h i (k ++ t')) \/
  (y = u /\ zlen k = zlen pre - 1 - zlen a /\ link_of h i (k ++ t) = mkLevel (fst (hop h i t)) (zlen k + snd (hop h i t))).
Proof.
  intros Hn Hl E Hy. destruct (lastat_cases _ _ _ _ _ _ _ _ Hn Hl E Hy) as [(-> & -> & Hlow)|(Hne & b1 & f & b2 & -> & Hlow & Hf)].
  - right. split_and!; [done| |unfold link_of; by rewrite hop_low]. rewrite E, zlen_app, zlen_cons. lia.
  - left. split; [done|]. unfold link_of. rewrite <- !app_assoc, <- !app_comm_cons. by rewrite !(hop_low h i b1), !hop_high by done.
Qed.

Lemma link_of_low h i k t : low h i k -> link_of h i (k ++ t) = mkLevel (fst (hop h i t)) (zlen k + snd (hop h i t)).
Proof. intros. unfold link_of. by rewrite hop_low. Qed.

Lemma u64_small x : 0 <= x < 2 ^ 64 -> u64 x = x.
Proof. apply uN_id. Qed.
Lemma u32_small x : 0 <= x < 2 ^ 32 -> u32 x = x.
Proof. apply uN_id. Qed.

(** ** Linking a node in *)

Section Link.
Context (m : mem) (hd : loc) (p q : list loc) (nx : loc) (lvl lv : nat) (us : list (loc * Z)).
Hypothesis Hc : core m hd (p ++ q) lv.
Hypothesis Hnx : nx ∉ hd :: p ++ q.
Hypothesis Hh : hgt m nx = lvl.
Hypothesis Hlvl : (1 <= lvl <= lv)%nat.
Hypothesis Hus : upds (hgt m) (hd :: p) us lv.
Hypothesis Hlen : zlen (p ++ q) + 1 < 2 ^ 32.

Let Hnd : NoDup (hd :: p).
Proof. pose proof (core_nodup _ _ _ _ Hc) as Hn. rewrite app_comm_cons in Hn. by apply NoDup_app in Hn as [? _]. Qed.

Lemma upd_row j : (j < lv)%nat -> exists a u c, us !! j = Some (u, zlen a) /\ hd :: p = a ++ u :: c /\ lastat (hgt m) j (hd :: p) a u /\
  zlen c = zlen p - zlen a /\ (j < hgt m u)%nat /\ u <> nx /\ low (hgt m) j c /\
  get_level m u j = Some (mkLevel (fst (hop (hgt m) j q)) (zlen c + snd (hop (hgt m) j q))).
Proof.
  intros Hj. destruct (Hus j Hj) as (a & u & Hu & Hl). pose proof Hl as (c & E & Huh & Hlow).
  exists a, u, c. split_and!; try done.
  - apply (f_equal zlen) in E. rewrite zlen_app, !zlen_cons in E. lia.
  - intros ->. apply Hnx. rewrite app_comm_cons, E. set_solver.
  - rewrite (core_links _ _ _ _ Hc a u (c ++ q)); [by rewrite link_of_low| |done|done].
    rewrite app_comm_cons, E. by rewrite <- app_assoc.
Qed.

Lemma rank0 : exists u, us !! 0%nat = Some (u, zlen p).
Proof.
  destruct (Hus 0%nat ltac:(lia)) as (a & u & Hu & Hl). exists u. rewrite Hu. do 2 f_equal.
  apply lastat_zero in Hl.
  - apply (f_equal zlen) in Hl. rewrite zlen_app, !zlen_cons in Hl. change (zlen []) with 0 in Hl. lia.
  - pose proof (core_all _ _ _ _ Hc) as Ha. rewrite app_comm_cons, Forall_app in Ha. tauto.
Qed.

(** The rows of the links after the loop. *)
Definition link_row (j : nat) (y : loc) : option zskiplistLevel :=
  match us !! j with
  | Some (u, r) =>
      if decide (y = nx) then Some (link_of (hgt m) j q)
      else if decide (y = u) then Some (mkLevel (Some nx) (zlen p - r + 1)) else get_level m y j
  | None => None
  end.

Definition bump_row (j : nat) (y : loc) : option zskiplistLevel :=
  match us !! j with
  | Some (u, r) => if decide (y = u) then Some (mkLevel (fst (hop (hgt m) j q)) (zlen p - r + snd (hop (hgt m) j q) + 1)) else get_level m y j
  | None => None
  end.

Lemma link_loop_spec : exists m', for_levels lvl 0 (link_step nx us) m = Some m' /\ same_info m m' /\
  forall y k, get_level m' y k = if decide (0 <= k < 0 + lvl)%nat then link_row k y else get_level m y k.
Proof.
  apply for_levels_spec. intros j m1 Hj Hs Hg. destruct (upd_row j ltac:(lia)) as (a & u & c & Hu & E & _ & Hzc & Huh & Hne & _ & Hlu).
  destruct rank0 as [u0 Hr0]. unfold link_step. rewrite Hr0. mrun. rewrite Hu. mrun. rewrite Hg, Hlu. mrun. cbn [forward span].
  pose proof (same_info_hgt _ _ Hs) as Hh1. pose proof (hop_bounds (hgt m) j q) as Hb. pose proof (zlen_nonneg c) as Hc0.
  pose proof (zlen_nonneg a) as Ha0. rewrite zlen_app in Hlen. pose proof (zlen_nonneg p). pose proof (zlen_nonneg q).
  rewrite !(u32_small (zlen p - zlen a)), u32_small, u64_small by lia.
  edestruct (set_level_spec m1 nx j) as (m2 & -> & Hs2 & Hg2); [rewrite Hh1; lia|]. mrun.
  edestruct (set_level_spec m2 u j) as (m3 & -> & Hs3 & Hg3).
  { rewrite (same_info_hgt _ _ Hs2), Hh1. done. }
  exists m3. split_and!; [done|by etrans|]. intros y k. rewrite Hg3, Hg2. unfold link_row. rewrite Hu.
  destruct (decide (k = j)) as [->|]; [|by rewrite !decide_False by tauto].
  destruct (decide (y = u)) as [->|].
  - rewrite decide_True, decide_False by done. done.
  - rewrite decide_False by tauto. destruct (decide (y = nx)) as [->|].
    + rewrite decide_True by done. unfold link_of. do 2 f_equal. lia.
    + rewrite decide_False by tauto. apply Hg.
Qed.

Lemma bump_loop_spec m1 : same_info m m1 -> (forall y k, (lvl <= k)%nat -> get_level m1 y k = get_level m y k) ->
  exists m', for_levels (lv - lvl) lvl (bump_step us) m1 = Some m' /\ same_info m1 m' /\
  forall y k, get_level m' y k = if decide (lvl <= k < lvl + (lv - lvl))%nat then bump_row k y else get_level m1 y k.
Proof.
  intros Hs Hg. apply for_levels_spec. intros j m2 Hj Hs2 Hg2.
  destruct (upd_row j ltac:(lia)) as (a & u & c & Hu & E & _ & Hzc & Huh & Hne & _ & Hlu).
  unfold bump_step. rewrite Hu. mrun. rewrite Hg2, Hg, Hlu by lia. mrun. cbn [forward span].
  pose proof (hop_bounds (hgt m) j q) as Hb. pose proof (zlen_nonneg c). pose proof (zlen_nonneg a).
  rewrite zlen_app in Hlen. pose proof (zlen_nonneg p). rewrite u64_small by lia.
  edestruct (set_level_spec m2 u j) as (m3 & -> & Hs3 & Hg3).
  { by rewrite (same_info_hgt _ _ Hs2), (same_info_hgt _ _ Hs). }
  exists m3. split_and!; [done|done|]. intros y k. rewrite Hg3. unfold bump_row. rewrite Hu.
  destruct (decide (k = j)) as [->|]; [|by rewrite !decide_False by tauto].
  destruct (decide (y = u)) as [->|]; [rewrite decide_True by done; do 2 f_equal; lia|].
  rewrite decide_False by tauto. rewrite Hg2. apply Hg; lia.
Qed.

(** What the links become, level by level. *)
Lemma new_links (m' : mem) :
  same_info m m' ->
  (forall y k, get_level m' y k = if decide (k < lvl)%nat then link_row k y else if decide (k < lv)%nat then bump_row k y else get_level m y k) ->
  core m' hd (p ++ nx :: q) lv.
Proof.
  intros Hs Hg. pose proof (same_info_hgt _ _ Hs) as Hh'. split.
  - rewrite app_comm_cons. pose proof (core_nodup _ _ _ _ Hc) as Hn. rewrite app_comm_cons in Hn.
    rewrite <- Permutation_middle. apply NoDup_cons. done.
  - rewrite Hh'. apply Hc.
  - pose proof (core_hgt _ _ _ _ Hc) as Hall. rewrite Forall_app in Hall |- *. rewrite Forall_cons.
    setoid_rewrite Hh'. rewrite Hh. tauto.
  - apply Hc.
  - intros a x b i E Hi Hx. rewrite Hh' in Hx. unfold link_of. rewrite (hop_ext (hgt m') (hgt m)) by done.
    fold (link_of (hgt m) i b). rewrite Hg.
    destruct (upd_row i Hi) as (a0 & u & c & Hu & Eu & Hlast & Hzc & Huh & Hne & Hlow & Hlu).
    unfold link_row, bump_row. rewrite Hu.
    rewrite app_comm_cons in E. apply split3 in E as [(k & Ek & ->)|[(-> & -> & ->)|(k & -> & ->)]].
    + assert (Hxnx : x <> nx) by (intros ->; apply Hnx; rewrite app_comm_cons, Ek; set_solver).
      assert (Hold : get_level m x i = Some (link_of (hgt m) i (k ++ q))).
      { apply (core_links _ _ _ _ Hc a); [|done|done]. rewrite app_comm_cons, Ek. by rewrite <- app_assoc. }
      rewrite (decide_False (P := x = nx)) by done. rewrite (decide_True (P := (i < lv)%nat)) by done.
      destruct (pre_link (hgt m) i (hd :: p) a0 u a x k q (nx :: q) Hnd Hlast Ek Hx) as [[Hxu El]|(-> & Hzk & _)].
      * rewrite !(decide_False (P := x = u)) by done. rewrite Hold, El. by destruct (decide _).
      * rewrite !(decide_True (P := u = u)) by done. rewrite zlen_cons in Hzk.
        assert (Hlk : low (hgt m) i k).
        { rewrite Ek in Hnd. destruct (NoDup_split_eq a a0 u k c Hnd) as [_ ->]; [by rewrite <- Ek|done]. }
        rewrite link_of_low by done. destruct (decide (i < lvl)%nat).
        -- rewrite hop_high by lia. cbn [fst snd]. do 2 f_equal. lia.
        -- change (nx :: q) with ([nx] ++ q). rewrite hop_low by (constructor; [lia|constructor]).
           cbn [fst snd]. change (zlen [nx]) with 1. do 2 f_equal. lia.
    + rewrite Hh in Hx. by rewrite !decide_True by done.
    + assert (Hold : get_level m x i = Some (link_of (hgt m) i b)).
      { apply (core_links _ _ _ _ Hc (hd :: p ++ k)); [|done|done]. simpl. by rewrite <- app_assoc. }
      assert (x <> nx) by (intros ->; apply Hnx; set_solver).
      assert (x <> u).
      { intros ->. pose proof (core_nodup _ _ _ _ Hc) as Hn. rewrite app_comm_cons, Eu in Hn.
        apply NoDup_app in Hn as (_ & Hn & _). apply (Hn u); set_solver. }
      rewrite !(decide_False (P := x = nx)), !(decide_False (P := x = u)) by done.
      rewrite Hold. by destruct (decide (i < lvl)%nat), (decide (i < lv)%nat).
Qed.

Lemma link_step_spec : exists m', (m1 ← for_levels lvl 0 (link_step nx us) m; for_levels (lv - lvl) lvl (bump_step us) m1) = Some m' /\
  same_info m m' /\ core m' hd (p ++ nx :: q) lv /\ (forall k, (lv <= k)%nat -> get_level m' hd k = get_level m hd k).
Proof.
  destruct link_loop_spec as (m1 & -> & Hs1 & Hg1). mrun.
  destruct (bump_loop_spec m1 Hs1) as (m2 & -> & Hs2 & Hg2).
  { intros y k Hk. rewrite Hg1. by rewrite decide_False by lia. }
  exists m2. assert (Hg : forall y k, get_level m2 y k = if decide (k < lvl)%nat then link_row k y
    else if decide (k < lv)%nat then bump_row k y else get_level m y k).
  { intros y k. rewrite Hg2, Hg1. destruct (decide (k < lvl)%nat).
    - rewrite decide_False, decide_True by lia. done.
    - destruct (decide (k < lv)%nat); [by rewrite decide_True by lia|by rewrite !decide_False by lia]. }
  split_and!; [done|by etrans|apply new_links; [by etrans|done]|].
  intros k Hk. rewrite Hg. by rewrite !decide_False by lia.
Qed.
End Link.

(** ** Unlinking a node *)

Section Unlink.
Context (m : mem) (hd : loc) (p q : list loc) (x : loc) (lv : nat) (us : list (loc * Z)).
Hypothesis Hc : core m hd (p ++ x :: q) lv.
Hypothesis Hus : upds (hgt m) (hd :: p) us lv.
Hypothesis Hlen : zlen (p ++ x :: q) < 2 ^ 64.

Let Hnd : NoDup ((hd :: p) ++ x :: q).
Proof. exact (core_nodup _ _ _ _ Hc). Qed.

Definition unlink_row (j : nat) (y : loc) : option zskiplistLevel :=
  match us !! j with
  | Some (u, r) => if decide (y = u) then Some (mkLevel (fst (hop (hgt m) j q)) (zlen p - r + snd (hop (hgt m) j q))) else get_level m y j
  | None => None
  end.

Lemma del_row j : (j < lv)%nat -> exists a u c, us !! j = Some (u, zlen a) /\ hd :: p = a ++ u :: c /\ lastat (hgt m) j (hd :: p) a u /\
  zlen c = zlen p - zlen a /\ (j < hgt m u)%nat /\ u <> x /\ low (hgt m) j c /\
  get_level m u j = Some (mkLevel (fst (hop (hgt m) j (x :: q))) (zlen c + snd (hop (hgt m) j (x :: q)))).
Proof.
  intros Hj. destruct (Hus j Hj) as (a & u & Hu & Hl). pose proof Hl as (c & E & Huh & Hlow).
  exists a, u, c. split_and!; try done.
  - apply (f_equal zlen) in E. rewrite zlen_app, !zlen_cons in E. lia.
  - intros ->. apply NoDup_app in Hnd as (_ & Hd & _). apply (Hd x); [rewrite E|]; set_solver.
  - rewrite (core_links _ _ _ _ Hc a u (c ++ x :: q)); [by rewrite link_of_low| |done|done].
    rewrite app_comm_cons, E. by rewrite <- app_assoc.
Qed.

Lemma x_row j : (j < lv)%nat -> (j < hgt m x)%nat -> get_level m x j = Some (link_of (hgt m) j q).
Proof. intros. by apply (core_links _ _ _ _ Hc (hd :: p)). Qed.

Lemma unlink_loop_spec : exists m', for_levels lv 0 (unlink_step x us) m = Some m' /\ same_info m m' /\
  forall y k, get_level m' y k = if decide (0 <= k < 0 + lv)%nat then unlink_row k y else get_level m y k.
Proof.
  apply for_levels_spec. intros j m1 Hj Hs Hg. destruct (del_row j ltac:(lia)) as (a & u & c & Hu & E & _ & Hzc & Huh & Hne & _ & Hlu).
  unfold unlink_step. rewrite Hu. mrun. rewrite (Hg u), Hlu. mrun. cbn [forward span].
  pose proof (hop_bounds (hgt m) j q) as Hb. pose proof (zlen_nonneg c) as Hc0. pose proof (zlen_nonneg a) as Ha0.
  rewrite zlen_app, zlen_cons in Hlen. pose proof (zlen_nonneg p). pose proof (zlen_nonneg q).
  assert (Hset : exists m2, (if decide (fst (hop (hgt m) j (x :: q)) = Some x) then
      lx ← get_level m1 x j;
      set_level m1 u j (mkLevel (forward lx) (u64 (zlen c + snd (hop (hgt m) j (x :: q)) + u64 (span lx - 1))))
    else set_level m1 u j (mkLevel (fst (hop (hgt m) j (x :: q))) (u64 (zlen c + snd (hop (hgt m) j (x :: q)) - 1)))) = Some m2 /\
    set_level m1 u j (mkLevel (fst (hop (hgt m) j q)) (zlen c + snd (hop (hgt m) j q))) = Some m2).
  { edestruct (set_level_spec m1 u j) as (m2 & E2 & _); [by rewrite (same_info_hgt _ _ Hs)|]. exists m2. split; [|exact E2].
    rewrite <- E2. destruct (decide (j < hgt m x)%nat) as [Hxh|Hxl].
    - rewrite hop_high by done. cbn [fst snd]. rewrite decide_True by done. rewrite Hg, x_row by (done || lia). mrun.
      unfold link_of. cbn [forward span]. do 2 f_equal. unfold uN. rewrite Zplus_mod_idemp_r.
      change (uN 64 (zlen c + 1 + (snd (hop (hgt m) j q) - 1)) = zlen c + snd (hop (hgt m) j q)). rewrite u64_small by lia. lia.
    - change (x :: q) with ([x] ++ q). rewrite hop_low by (constructor; [lia|constructor]). cbn [fst snd]. change (zlen [x]) with 1.
      rewrite decide_False; [|intros Hx%hop_elem; apply NoDup_app in Hnd as (_ & _ & [??]%NoDup_cons); done].
      do 2 f_equal. rewrite u64_small by lia. lia. }
  destruct Hset as (m2 & -> & E2). destruct (set_level_spec m1 u j (mkLevel (fst (hop (hgt m) j q)) (zlen c + snd (hop (hgt m) j q))))
    as (m2' & E2' & Hs2 & Hg2); [by rewrite (same_info_hgt _ _ Hs)|]. rewrite E2 in E2'. injection E2' as <-.
  exists m2. split_and!; [done|done|]. intros y k. rewrite Hg2. unfold unlink_row. rewrite Hu.
  destruct (decide (k = j)) as [->|]; [|by rewrite !decide_False by tauto].
  destruct (decide (y = u)) as [->|]; [rewrite decide_True by done; do 2 f_equal; lia|]. rewrite decide_False by tauto. apply Hg.
Qed.

Lemma unlink_spec : exists m', for_levels lv 0 (unlink_step x us) m = Some m' /\ same_info m m' /\ core m' hd (p ++ q) lv /\
  (forall k, get_level m' x k = get_level m x k) /\ (forall k, (lv <= k)%nat -> get_level m' hd k = get_level m hd k).
Proof.
  destruct unlink_loop_spec as (m' & E & Hs & Hg). exists m'. split; [done|]. split; [done|].
  pose proof (same_info_hgt _ _ Hs) as Hh'. split_and!.
  2:{ intros k. rewrite Hg. destruct (decide _); [|done]. destruct (del_row k ltac:(lia)) as (a1 & u & c1 & Hu & _ & _ & _ & _ & Hne & _).
      unfold unlink_row. rewrite Hu. by rewrite decide_False. }
  2:{ intros k Hk. rewrite Hg. by rewrite decide_False by lia. }
  split.
  - rewrite <- Permutation_middle in Hnd. by apply NoDup_cons in Hnd as [_ ?].
  - rewrite Hh'. apply Hc.
  - pose proof (core_hgt _ _ _ _ Hc) as Hall. rewrite Forall_app, Forall_cons in Hall. rewrite Forall_app.
    setoid_rewrite Hh'. tauto.
  - apply Hc.
  - intros a y b i E' Hi Hy. rewrite Hh' in Hy. unfold link_of. rewrite (hop_ext (hgt m') (hgt m)) by done.
    fold (link_of (hgt m) i b). rewrite Hg, decide_True by lia. destruct (del_row i Hi) as (a0 & u & c & Hu & Eu & Hlast & Hzc & Huh & Hne & Hlow & Hlu).
    unfold unlink_row. rewrite Hu. rewrite app_comm_cons in E'. apply split2 in E' as [(k & Ek & ->)|(k & -> & ->)].
    + assert (Hold : get_level m y i = Some (link_of (hgt m) i (k ++ x :: q))).
      { apply (core_links _ _ _ _ Hc a); [|done|done]. rewrite app_comm_cons, Ek. by rewrite <- app_assoc. }
      assert (Hnp : NoDup (hd :: p)) by by apply NoDup_app in Hnd as [? _].
      destruct (pre_link (hgt m) i (hd :: p) a0 u a y k q (x :: q) Hnp Hlast Ek Hy) as [[Hyu El]|(-> & Hzk & El)].
      * rewrite decide_False by done. by rewrite Hold, El.
      * rewrite decide_True by done. rewrite El. rewrite zlen_cons in Hzk. do 2 f_equal. lia.
    + assert (y <> u).
      { intros ->. apply NoDup_app in Hnd as (_ & Hd & _). apply (Hd u); [rewrite Eu|]; set_solver. }
      rewrite decide_False by done. apply (core_links _ _ _ _ Hc (hd :: p ++ x :: k)); [|done|done].
      simpl. by rewrite <- app_assoc.
Qed.
End Unlink.

(** ** The representation of a sorted list *)

(** The nodes hold the entries, and each its predecessor as back pointer. *)
Fixpoint chain (m : mem) (prev : option loc) (ns : list loc) (es : list entry) : Prop :=
  match ns, es with
  | [], [] => True
  | x :: ns, e :: es => (exists h, info m x = Some (Some (snd e), fst e, prev, h)) /\ chain m (Some x) ns es
  | _, _ => False
  end.

Definition last_or (d : option loc) (ns : list loc) : option loc := match last ns with Some x => Some x | None => d end.

Lemma last_or_cons d x ns : last_or d (x :: ns) = last_or (Some x) ns.
Proof. unfold last_or. rewrite last_cons. by destruct (last ns). Qed.

Lemma chain_length m ns : forall prev es, chain m prev ns es -> length ns = length es.
Proof. induction ns as [|x ns IH]; intros prev [|e es]; simpl; try done. intros [_ H]. f_equal. by eapply IH. Qed.

Lemma chain_app m a : forall prev ea b eb, length a = length ea ->
  chain m prev (a ++ b) (ea ++ eb) <-> chain m prev a ea /\ chain m (last_or prev a) b eb.
Proof.
  induction a as [|x a IH]; intros prev [|e ea] b eb Hl; try done; simpl in *; [tauto|].
  rewrite last_or_cons, IH by lia. tauto.
Qed.

Lemma chain_ext m m' ns : forall prev es, (forall y, y ∈ ns -> info m' y = info m y) -> chain m prev ns es -> chain m' prev ns es.
Proof.
  induction ns as [|x ns IH]; intros prev [|e es] Hi; simpl; try done. intros [H1 H2]. split; [rewrite Hi by set_solver; done|].
  apply IH; [|done]. intros y Hy. apply Hi. set_solver.
Qed.

Lemma chain_lookup m ns : forall prev es a x b, chain m prev ns es -> ns = a ++ x :: b ->
  exists e h, es !! length a = Some e /\ info m x = Some (Some (snd e), fst e, last_or prev a, h).
Proof.
  induction ns as [|y ns IH]; intros prev [|e es] a x b Hch E; try by destruct a.
  destruct a as [|z a]; simplify_eq/=; destruct Hch as [[h Hh] Hch].
  - by exists e, h.
  - destruct (IH _ _ a x b Hch eq_refl) as (e' & h' & He & Hi). exists e', h'. by rewrite last_or_cons.
Qed.

Record rep (m : mem) (z : zskiplist) (ns : list loc) (es : list entry) : Prop := {
  rep_core : core m (header z) ns (zlevel z);
  rep_hdr : exists s, info m (header z) = Some (None, s, None, ZSKIPLIST_MAXLEVEL);
  rep_chain : chain m None ns es;
  rep_tail : tail z = last ns;
  rep_len : zlength z = zlen ns;
  rep_top i : (zlevel z <= i < ZSKIPLIST_MAXLEVEL)%nat -> exists s, get_level m (header z) i = Some (mkLevel None s);
  rep_tight : zlevel z = 1%nat \/ Exists (fun x => hgt m x = zlevel z) ns }.

(** ** Searching by a property of the entries *)

(** The length of the longest prefix that satisfies [P]. *)
Fixpoint prefix_len (P : entry -> bool) (es : list entry) : nat :=
  match es with
  | [] => 0
  | e :: es => if P e then S (prefix_len P es) else 0
  end.

(** [P] holds of a prefix of the list and of nothing after it. *)
Definition cut (P : entry -> bool) (es : list entry) : Prop :=
  forall i j a b, (i < j)%nat -> es !! i = Some a -> es !! j = Some b -> P b = true -> P a = true.

Lemma cut_cons P e es : cut P (e :: es) -> cut P es.
Proof. intros Hc i j a b Hij Hi Hj. apply (Hc (S i) (S j)); [lia|done|done]. Qed.

Lemma prefix_len_le P es : (prefix_len P es <= length es)%nat.
Proof. induction es as [|e es IH]; simpl; [lia|]. destruct (P e); lia. Qed.

Lemma cut_lookup P es : cut P es -> forall i e, es !! i = Some e -> P e = bool_decide (i < prefix_len P es)%nat.
Proof.
  induction es as [|e0 es IH]; intros Hc i e He; [done|]. destruct i as [|i]; simplify_eq/=.
  - destruct (P e); symmetry; [apply bool_decide_true; lia|apply bool_decide_false; lia].
  - destruct (P e0) eqn:E0.
    + rewrite (IH (cut_cons _ _ _ Hc) i e He). apply bool_decide_ext. lia.
    + rewrite bool_decide_false by lia. apply not_true_is_false. intros Hp.
      by rewrite (Hc 0%nat (S i) e0 e ltac:(lia) eq_refl He Hp) in E0.
Qed.

Section RepSearch.
Context (m : mem) (z : zskiplist) (ns : list loc) (es : list entry) (Hr : rep m z ns es).
Context (P : entry -> bool) (test : zskiplistNode -> Z -> option bool) (add : Z -> Z -> Z).
Hypothesis Hcut : cut P es.
Hypothesis Htest : forall n e r, ele n = Some (snd e) -> score n = fst e -> test n r = Some (P e).
Hypothesis Hadd : forall r s, 0 <= r -> 0 < s -> r + s <= zlen ns -> add r s = r + s.

Lemma rep_test a f b n : header z :: ns = a ++ f :: b -> a <> [] -> m !! f = Some n ->
  test n (zlen a) = Some (bool_decide (length a <= prefix_len P es)%nat).
Proof.
  intros E Ha Hn. destruct a as [|h a]; [done|]. injection E as _ E.
  destruct (chain_lookup m ns None es a f b (rep_chain _ _ _ _ Hr) E) as (e & hh & He & Hi).
  unfold info in Hi. rewrite Hn in Hi. injection Hi as Hele Hsc _ _.
  rewrite (Htest n e) by done. rewrite (cut_lookup P es Hcut _ e He). done.
Qed.

Lemma rep_search : let M := prefix_len P es in
  exists a y us, header z :: take M ns = a ++ [y] /\ descend (zlevel z) m test add (header z) 0 = Some (y, us) /\
    us !! 0%nat = Some (y, Z.of_nat M) /\ length us = zlevel z /\ upds (hgt m) (header z :: take M ns) us (zlevel z) /\
    get_level m y 0 = Some (link_of (hgt m) 0 (drop M ns)).
Proof.
  intros M. apply zsl_search_spec; [apply Hr|apply rep_test|done|].
  rewrite (chain_length _ _ _ _ (rep_chain _ _ _ _ Hr)). apply prefix_len_le.
Qed.
End RepSearch.

Lemma add32_ok ns r s : zlen ns < 2 ^ 32 -> 0 <= r -> 0 < s -> r + s <= zlen (A := loc) ns -> add32 r s = r + s.
Proof. intros. apply u32_small. lia. Qed.
Lemma add64_ok ns r s : zlen ns < 2 ^ 32 -> 0 <= r -> 0 < s -> r + s <= zlen (A := loc) ns -> add64 r s = r + s.
Proof. intros. apply u64_small. lia. Qed.

Lemma rep_zlen m z ns es : rep m z ns es -> zlen ns = zlen es.
Proof. intros Hr. unfold zlen. by rewrite (chain_length _ _ _ _ (rep_chain _ _ _ _ Hr)). Qed.

(** The first node after a position. *)
Lemma rep_next m z ns es M : rep m z ns es -> link_of (hgt m) 0 (drop M ns) =
  match drop M ns with [] => mkLevel None 0 | x :: _ => mkLevel (Some x) 1 end.
Proof.
  intros Hr. unfold link_of. rewrite hop_zero; [by destruct (drop M ns)|].
  pose proof (core_all _ _ _ _ (rep_core _ _ _ _ Hr)) as Ha. apply Forall_cons in Ha as [_ Ha]. by apply Forall_drop.
Qed.

(** ** Inserting *)

Lemma core_ext m m' hd ns lv : core m hd ns lv -> (forall y, y ∈ hd :: ns -> hgt m' y = hgt m y) ->
  (forall y i, y ∈ hd :: ns -> (i < lv)%nat -> get_level m' y i = get_level m y i) -> core m' hd ns lv.
Proof.
  intros Hc Hh Hg. split; try apply Hc.
  - rewrite Hh by set_solver. apply Hc.
  - pose proof (core_hgt _ _ _ _ Hc) as Ha. rewrite Forall_forall in Ha |- *. intros x Hx. rewrite Hh by set_solver. by apply Ha.
  - intros a x b i E Hi Hx. rewrite Hg by (done || (rewrite E; set_solver)). rewrite Hh in Hx by (rewrite E; set_solver).
    rewrite (core_links _ _ _ _ Hc a x b i E Hi Hx). unfold link_of. rewrite (hop_ext (hgt m') (hgt m)); [done|].
    intros y Hy. apply Hh. rewrite E. set_solver.
Qed.

(** The new levels of the header lead nowhere and cross the whole list. *)
Lemma raise_spec m z ns es n : rep m z ns es -> (zlevel z + n <= ZSKIPLIST_MAXLEVEL)%nat ->
  exists m', for_levels n (zlevel z) (raise_step (header z) (zlength z)) m = Some m' /\ same_info m m' /\
    core m' (header z) ns (zlevel z + n) /\
    (forall k, (zlevel z + n <= k)%nat -> get_level m' (header z) k = get_level m (header z) k).
Proof.
  intros Hr Hn. pose proof (rep_core _ _ _ _ Hr) as Hc.
  destruct (for_levels_spec (fun j y => if decide (y = header z) then Some (mkLevel None (zlength z)) else get_level m y j)
    (raise_step (header z) (zlength z)) n (zlevel z) m) as (m' & E & Hs & Hg).
  { intros j m1 Hj Hs Hg. unfold raise_step. destruct (rep_top _ _ _ _ Hr j ltac:(lia)) as [s Hs0]. rewrite Hg, Hs0. mrun.
    cbn [forward]. edestruct (set_level_spec m1 (header z) j) as (m2 & -> & Hs2 & Hg2).
    { rewrite (same_info_hgt _ _ Hs), (core_hd _ _ _ _ Hc). lia. }
    exists m2. split_and!; [done|done|]. intros y k. rewrite Hg2. destruct (decide (k = j)) as [->|]; [|by rewrite decide_False by tauto].
    destruct (decide (y = header z)) as [->|]; [by rewrite decide_True|]. rewrite decide_False by tauto. apply Hg. }
  exists m'. pose proof (same_info_hgt _ _ Hs) as Hh. split_and!; try done; [|intros k Hk; rewrite Hg; by rewrite decide_False by lia].
  pose proof (core_lv _ _ _ _ Hc) as Hlv. split; [apply Hc|rewrite Hh; apply Hc| |lia|].
  - eapply Forall_impl; [apply Hc|]. intros x. simpl. rewrite Hh. lia.
  - intros a x b i Eseq Hi Hx. rewrite Hh in Hx. unfold link_of. rewrite (hop_ext (hgt m') (hgt m)) by done.
    fold (link_of (hgt m) i b). rewrite Hg. destruct (decide (zlevel z <= i < zlevel z + n)%nat) as [Hr1|Hr1].
    2:{ apply (core_links _ _ _ _ Hc a); [done|lia|done]. }
    pose proof (core_hgt _ _ _ _ Hc) as Hall. rewrite Forall_forall in Hall. destruct a as [|h a]; simplify_eq/=.
    + rewrite decide_True by done. unfold link_of. rewrite hop_low_all; [by rewrite (rep_len _ _ _ _ Hr)|].
      apply Forall_forall. intros y Hy. specialize (Hall y Hy). lia.
    + exfalso. specialize (Hall x ltac:(set_solver)). lia.
Qed.

Lemma upds_raise m z ns es us n p : rep m z ns es -> length us = zlevel z -> (zlevel z + n <= ZSKIPLIST_MAXLEVEL)%nat ->
  p `prefix_of` ns -> upds (hgt m) (header z :: p) us (zlevel z) ->
  upds (hgt m) (header z :: p) (us ++ replicate n (header z, 0)) (zlevel z + n).
Proof.
  intros Hr Hl Hn [q Eq] Hus j Hj. destruct (decide (j < zlevel z)%nat).
  - rewrite lookup_app_l by lia. by apply Hus.
  - exists [], (header z). rewrite lookup_app_r, lookup_replicate_2 by lia. split; [done|]. exists p. split; [done|].
    pose proof (rep_core _ _ _ _ Hr) as Hc. split; [rewrite (core_hd _ _ _ _ Hc); lia|].
    pose proof (core_hgt _ _ _ _ Hc) as Hall. rewrite Eq, Forall_app in Hall. destruct Hall as [Hall _].
    eapply Forall_impl; [exact Hall|]. simpl. lia.
Qed.

Lemma upds_hgt h h' pre us n : (forall y, y ∈ pre -> h' y = h y) -> upds h pre us n -> upds h' pre us n.
Proof.
  intros Hh Hus j Hj. destruct (Hus j Hj) as (a & u & Hu & c & -> & Hhu & Hlow). exists a, u. split; [done|]. exists c.
  split_and!; [done|rewrite Hh by set_solver; done|]. rewrite Forall_forall in Hlow |- *. intros y Hy. rewrite Hh by set_solver. by apply Hlow.
Qed.

Lemma upds_le h pre us n n' : (n' <= n)%nat -> upds h pre us n -> upds h pre us n'.
Proof. intros Hn Hus j Hj. apply Hus. lia. Qed.

(** The back pointer of the node after [p]: the last of [p], or NULL. *)
Lemma back_ptr (hd : loc) p a y : NoDup (hd :: p) -> hd :: p = a ++ [y] -> (if decide (y = hd) then None else Some y) = last_or None p.
Proof.
  intros Hn E. destruct (decide (y = hd)) as [->|Hne]; destruct p as [|x p]; try done.
  - exfalso. assert (last (hd :: x :: p) = Some hd) as Hl by by rewrite E, last_snoc. simpl in Hl.
    apply NoDup_cons in Hn as [Hn _]. apply Hn. by apply last_Some_elem_of.
  - destruct a as [|? [|]]; simplify_eq/=.
  - unfold last_or. assert (last (hd :: x :: p) = Some y) as Hl by by rewrite E, last_snoc. rewrite last_cons in Hl. destruct (last (x :: p)); congruence.
Qed.

Lemma chain_relink m m' prev prev' q eq : NoDup q -> chain m prev q eq ->
  (forall y, y ∈ q -> info m' y = (fun '(e, s, b, h) => (e, s, if decide (Some y = head q) then prev' else b, h)) <$> info m y) ->
  chain m' prev' q eq.
Proof.
  destruct q as [|f q], eq as [|e eq]; try done. simpl. intros [Hf Hn]%NoDup_cons [[h Hi] Hch] Hinfo. split.
  - exists h. rewrite Hinfo by set_solver. rewrite Hi. simpl. by rewrite decide_True.
  - eapply chain_ext; [|done]. intros y Hy. rewrite Hinfo by set_solver. destruct (info m y) as [[[[??]?]?]|]; [|done]. simpl.
    rewrite decide_False; [done|]. intros [= ->]. done.
Qed.

(** Allocating a node leaves the rest of the heap. *)
Lemma alloc_view (m : mem) x n : m !! x = None ->
  (forall y, y <> x -> info (<[x := n]> m) y = info m y) /\ (forall y i, y <> x -> get_level (<[x := n]> m) y i = get_level m y i) /\
  (forall y, y <> x -> hgt (<[x := n]> m) y = hgt m y) /\ hgt (<[x := n]> m) x = length (level n) /\
  info (<[x := n]> m) x = Some (ele n, score n, backward n, length (level n)).
Proof.
  intros Hx. unfold info, get_level, hgt. split_and!; try (intros; by rewrite lookup_insert_ne); by rewrite lookup_insert_eq.
Qed.

Lemma info_hgt m m' y : info m' y = info m y -> hgt m' y = hgt m y.
Proof. unfold info, hgt. destruct (m !! y), (m' !! y); naive_solver. Qed.

(** [m'] is [m] where the back pointers are given by [bp]. *)
Definition rebacked (bp : loc -> option loc -> option loc) (m m' : mem) : Prop :=
  (forall y, info m' y = (fun '(e, s, b, h) => (e, s, bp y b, h)) <$> info m y) /\
  (forall y j, get_level m' y j = get_level m y j).

Lemma rebacked_hgt bp m m' : rebacked bp m m' -> forall y, hgt m' y = hgt m y.
Proof. intros [Hi _] y. specialize (Hi y). unfold info, hgt in *. destruct (m !! y), (m' !! y); naive_solver. Qed.

Lemma rebacked_dom bp m m' : rebacked bp m m' -> (dom m' : gset loc) = dom m.
Proof.
  intros [Hi _]. apply set_eq. intros y. rewrite !elem_of_dom. specialize (Hi y). unfold info in Hi.
  destruct (m !! y), (m' !! y); simplify_eq/=; split; intros [? ?]; naive_solver.
Qed.

Lemma rebacked_id m : rebacked (fun _ b => b) m m.
Proof. split; [|done]. intros y. by destruct (info m y) as [[[[??]?]?]|]. Qed.

Lemma rebacked_trans f g m1 m2 m3 : rebacked f m1 m2 -> rebacked g m2 m3 -> rebacked (fun y b => g y (f y b)) m1 m3.
Proof.
  intros [Hf Hf'] [Hg Hg']. split; [|intros; by rewrite Hg', Hf'].
  intros y. rewrite Hg, Hf. by destruct (info m1 y) as [[[[??]?]?]|].
Qed.

Lemma set_backward_rebacked m x p : (1 <= hgt m x)%nat ->
  exists m', set_backward m x p = Some m' /\ rebacked (fun y b => if decide (y = x) then p else b) m m'.
Proof.
  intros Hx. assert (exists n, m !! x = Some n) as [n E] by (unfold hgt in Hx; destruct (m !! x); [by eexists|lia]).
  destruct (set_backward_spec m x p n E) as (m' & -> & Hi & Hg). exists m'. split; [done|]. split; [|done].
  intros y. rewrite Hi. destruct (decide (y = x)) as [->|]; [unfold info; by rewrite E|].
  destruct (info m y) as [[[[??]?]?]|]; done.
Qed.

(** Set the back pointer of the first node of [q], or the tail: the end of
    [zslInsert] and of [zslDeleteNode]. *)
Lemma relink_spec m q (t bp : option loc) : Forall (fun y => 1 <= hgt m y)%nat q ->
  exists m', match fst (hop (hgt m) 0 q) with
    | Some f => m ← set_backward m f bp; Some (m, t)
    | None => Some (m, bp)
    end = Some (m', if decide (q = []) then bp else t) /\
    rebacked (fun y b => if decide (Some y = head q) then bp else b) m m'.
Proof.
  intros Hq. rewrite hop_zero by done. destruct q as [|f q]; cbn [fst].
  - exists m. split; [done|]. split; [|done]. intros y. destruct (info m y) as [[[[??]?]?]|]; [|done]. simpl. by rewrite ?decide_False.
  - apply Forall_cons in Hq as [Hf _]. destruct (set_backward_rebacked m f bp Hf) as (m' & -> & [Hi Hg]). mrun. exists m'. split; [done|].
    split; [|done]. intros y. rewrite Hi. destruct (info m y) as [[[[??]?]?]|]; [|done]. simpl. do 4 f_equal.
    destruct (decide (y = f)) as [->|]; [by rewrite decide_True|by rewrite decide_False by congruence].
Qed.

Lemma last_insert {A} `{EqDecision A} (p q : list A) x : last (p ++ x :: q) = if decide (q = []) then Some x else last (p ++ q).
Proof. destruct q as [|f q]; [by rewrite last_snoc|]. rewrite decide_False by done. rewrite !last_app, !last_cons. by destruct (last q). Qed.

Lemma Exists_hgt m m' n ns : (forall y, y ∈ ns -> hgt m' y = hgt m y) -> Exists (fun x => hgt m x = n) ns -> Exists (fun x => hgt m' x = n) ns.
Proof. rewrite !Exists_exists. intros Hh (x & Hx & <-). exists x. split; [done|by apply Hh]. Qed.

Section InsertSpec.
Context {H : Heap} (garbage : zskiplistLevel) (garbage_ptr : option loc).
Context (m : mem) (z : zskiplist) (ns : list loc) (es : list entry) (Hr : rep m z ns es).
Context (draws : list Z) (lvl : nat) (sc : double) (e : sds).

(** The representation after the loops, with the new node [x] between [p] and [q]. *)
Lemma insert_rep m1 m2 lv p q x ep eq : ns = p ++ q -> es = ep ++ eq -> length p = length ep ->
  core m1 (header z) (p ++ x :: q) lv -> (forall y, y ∈ header z :: ns -> info m1 y = info m y) ->
  info m1 x = Some (Some e, sc, garbage_ptr, lvl) -> lv = Nat.max (zlevel z) lvl -> x ∉ header z :: ns ->
  (forall k, (lv <= k)%nat -> get_level m1 (header z) k = get_level m (header z) k) ->
  rebacked (fun y b => if decide (Some y = head q) then Some x else if decide (y = x) then last_or None p else b) m1 m2 ->
  rep m2 (mkZsl (header z) (last (p ++ x :: q)) (zlength z + 1) lv) (p ++ x :: q) (ep ++ (sc, e) :: eq).
Proof.
  intros Ens Ees Hlene Hc Hinfo Hx Hlv Hxn Hab Hreb. pose proof (rebacked_hgt _ _ _ Hreb) as Hh. destruct Hreb as [Hi Hg].
  pose proof (core_nodup _ _ _ _ (rep_core _ _ _ _ Hr)) as Hnd.
  rewrite Ens, app_comm_cons in Hnd. apply NoDup_app in Hnd as (Hndp & Hdisj & Hndq).
  assert (Hsame : forall y, y ∈ header z :: p -> info m2 y = info m y).
  { intros y Hy. rewrite Hi, Hinfo by (rewrite Ens; set_solver). destruct (info m y) as [[[[??]?]?]|]; [|done]. simpl.
    rewrite !decide_False; [done|intros ->; apply Hxn; rewrite Ens; set_solver|]. destruct q as [|f q]; [done|]. intros [= <-]. apply (Hdisj y); set_solver. }
  split; cbn [header tail zlength zlevel].
  - apply (core_ext m1); [done|intros; apply Hh|intros; apply Hg].
  - destruct (rep_hdr _ _ _ _ Hr) as [s Hs]. exists s. rewrite Hsame, Hs by set_solver. done.
  - pose proof (rep_chain _ _ _ _ Hr) as Hch. rewrite Ens, Ees in Hch. apply chain_app in Hch as [Hchp Hchq]; [|done].
    apply chain_app; [done|]. split; [eapply chain_ext; [|exact Hchp]; intros; apply Hsame; set_solver|].
    simpl. split.
    + exists lvl. rewrite Hi, Hx. simpl. rewrite decide_False, decide_True; [done|done|].
      destruct q as [|f q]; [done|]. intros [= <-]. apply Hxn. rewrite Ens. set_solver.
    + apply (chain_relink m m2 _ _ _ _ Hndq Hchq). intros y Hy. rewrite Hi, Hinfo by (rewrite Ens; set_solver).
      destruct (info m y) as [[[[??]?]?]|]; [|done]. simpl. do 4 f_equal. destruct (decide (Some y = head q)); [done|].
      rewrite decide_False; [done|intros ->; apply Hxn; rewrite Ens; set_solver].
  - done.
  - rewrite (rep_len _ _ _ _ Hr), Ens, !zlen_app, zlen_cons. lia.
  - intros i Hib. rewrite Hg, Hab by lia. apply (rep_top _ _ _ _ Hr). lia.
  - rewrite Hlv. destruct (Nat.max_spec (zlevel z) lvl) as [[? ->]|[? ->]].
    + right. apply Exists_app. right. left. rewrite Hh. unfold hgt. destruct (info_inv _ _ _ _ _ _ Hx) as (n & -> & _ & _ & _ & <-). done.
    + destruct (rep_tight _ _ _ _ Hr) as [?|Hex]; [by left|]. right. rewrite Ens in Hex.
      apply (Exists_hgt m m2) in Hex; [rewrite Exists_app in Hex |- *; rewrite Exists_cons; tauto|].
      intros y Hy. rewrite Hh. apply info_hgt, Hinfo. rewrite Ens. set_solver.
Qed.

Hypothesis Hnan : isnan sc = false.
Hypothesis Hdraws : zslRandomLevel draws = Some lvl.
Hypothesis Hlvl : (1 <= lvl <= ZSKIPLIST_MAXLEVEL)%nat.
Hypothesis Hcut : cut (fun k => klt k (sc, e)) es.
Hypothesis Hlen : zlen ns + 1 < 2 ^ 32.

Lemma zslInsert_rep : let M := prefix_len (fun k => klt k (sc, e)) es in
  exists m' z' x, zslInsert garbage garbage_ptr draws m z sc e = Some (m', z', x) /\ x ∉ (dom m : gset loc) /\
    rep m' z' (take M ns ++ x :: drop M ns) (take M es ++ (sc, e) :: drop M es) /\
    (dom m' : gset loc) = {[x]} ∪ dom m /\ header z' = header z.
Proof.
  intros M. unfold zslInsert. rewrite Hnan. pose proof (rep_core _ _ _ _ Hr) as Hc. pose proof (core_lv _ _ _ _ Hc) as Hlv.
  destruct (rep_search m z ns es Hr (fun k => klt k (sc, e)) (before (sc, e)) add32 Hcut) as (a & u0 & us & Ea & -> & Hu0 & Hlus & Hus & _).
  { intros n [s0 e0] r He Hs. unfold before. rewrite He. mrun. by rewrite Hs. }
  { intros r s Hr0 Hs0 Hrs. apply (add32_ok ns); [lia|done|done|done]. }
  mrun. rewrite Hdraws. mrun. set (grow := (lvl - zlevel z)%nat). set (lv := (zlevel z + grow)%nat).
  assert (HM : prefix_len (fun k => klt k (sc, e)) es = M) by done. rewrite HM in *.
  assert (Hgrow : (zlevel z + grow <= ZSKIPLIST_MAXLEVEL)%nat) by (unfold grow; lia).
  destruct (raise_spec m z ns es grow Hr Hgrow) as (m1 & -> & Hs1 & Hc1 & Hab1). mrun. cbn [header zlevel zlength tail].
  pose proof (zmalloc_fresh (dom m1)) as Hx. unfold zslCreateNode. set (x := zmalloc (dom m1)) in *.
  set (nn := mkNode _ _ _ _). apply not_elem_of_dom in Hx.
  destruct (alloc_view m1 x nn Hx) as (Hi2 & Hg2 & Hh2 & Hhx & Hix). set (m2 := <[x := nn]> m1) in *. cbn [nn level ele score backward] in Hhx, Hix.
  rewrite length_replicate in Hhx, Hix.
  assert (Hxns : x ∉ header z :: ns).
  { intros Hin. destruct (core_dom _ _ _ _ Hc1 x Hin) as [n Hn]. congruence. }
  assert (Hc2 : core m2 (header z) (take M ns ++ drop M ns) lv).
  { rewrite take_drop. apply (core_ext m1); [done|intros y Hy; apply Hh2; by intros ->|intros y i Hy _; apply Hg2; by intros ->]. }
  assert (Hus2 : upds (hgt m2) (header z :: take M ns) (us ++ replicate grow (header z, 0)) lv).
  { apply (upds_hgt (hgt m)); [|apply (upds_raise m z ns es); try done; apply prefix_take].
    intros y Hy. rewrite Hh2; [apply same_info_hgt, Hs1|]. intros ->. apply Hxns.
    rewrite <- (take_drop M ns). set_solver. }
  destruct (link_step_spec m2 (header z) (take M ns) (drop M ns) x lvl lv (us ++ replicate grow (header z, 0)) Hc2)
    as (m3 & E3 & Hs3 & Hc3 & Hab3); [by rewrite take_drop|done|unfold lv, grow; lia|done|by rewrite take_drop|].
  destruct (for_levels lvl 0 (link_step x (us ++ replicate grow (header z, 0))) m2) as [m2'|]; [|done]. mrun. cbn [mbind option_bind] in E3.
  rewrite E3. mrun. rewrite lookup_app_l by lia. rewrite Hu0. mrun.
  assert (Hx3 : info m3 x = Some (Some e, sc, garbage_ptr, lvl)) by by rewrite Hs3.
  rewrite (back_ptr (header z) (take M ns) a u0); [| |done].
  2:{ pose proof (core_nodup _ _ _ _ Hc) as Hn. rewrite <- (take_drop M ns), app_comm_cons in Hn. by apply NoDup_app in Hn as [? _]. }
  pose proof (core_all _ _ _ _ Hc3) as Hall. apply Forall_cons in Hall as [_ Hall]. rewrite Forall_app, Forall_cons in Hall. destruct Hall as (_ & Hallx & Hallq).
  destruct (set_backward_rebacked m3 x (last_or None (take M ns)) Hallx) as (m4 & -> & Hreb4). mrun.
  pose proof (rebacked_hgt _ _ _ Hreb4) as Hh4. rewrite (proj2 Hreb4).
  rewrite (core_links _ _ _ _ Hc3 (header z :: take M ns) x (drop M ns) 0) by (done || (unfold lv; lia)). mrun. unfold link_of. cbn [forward].
  rewrite (hop_ext (hgt m3) (hgt m4)) by done.
  destruct (relink_spec m4 (drop M ns) (tail z) (Some x)) as (m5 & E5 & Hreb5); [by setoid_rewrite Hh4|]. rewrite E5. mrun.
  pose proof (rebacked_trans _ _ _ _ _ Hreb4 Hreb5) as Hreb.
  exists m5, (mkZsl (header z) (last (take M ns ++ x :: drop M ns)) (zlength z + 1) lv), x. split_and!.
  - do 3 f_equal. f_equal.
    + rewrite last_insert. by rewrite take_drop, (rep_tail _ _ _ _ Hr).
    + apply u64_small. rewrite (rep_len _ _ _ _ Hr). pose proof (zlen_nonneg ns). lia.
  - by rewrite <- (same_info_dom _ _ Hs1), not_elem_of_dom.
  - apply (insert_rep m3 m5); rewrite ?take_drop; try done.
    + rewrite !length_take. by rewrite (chain_length _ _ _ _ (rep_chain _ _ _ _ Hr)).
    + intros y Hy. rewrite Hs3, Hi2, Hs1; [done|]. by intros ->.
    + unfold lv, grow. lia.
    + intros k Hk. rewrite Hab3, Hg2 by (done || (intros E; apply Hxns; rewrite <- E; set_solver)). apply Hab1. done.
  - rewrite (rebacked_dom _ _ _ Hreb), (same_info_dom _ _ Hs3). unfold m2. rewrite dom_insert_L. by rewrite (same_info_dom _ _ Hs1).
  - done.
Qed.
End InsertSpec.

(** ** Deleting a node *)

Lemma shrink_spec m hd ns : forall lv, core m hd ns lv ->
  (forall i, (lv <= i < ZSKIPLIST_MAXLEVEL)%nat -> exists s, get_level m hd i = Some (mkLevel None s)) ->
  exists lv', shrink lv m hd = Some lv' /\ (lv' <= lv)%nat /\ core m hd ns lv' /\
    (forall i, (lv' <= i < ZSKIPLIST_MAXLEVEL)%nat -> exists s, get_level m hd i = Some (mkLevel None s)) /\
    (lv' = 1%nat \/ Exists (fun x => hgt m x = lv') ns).
Proof.
  induction lv as [|[|lv] IH]; intros Hc Htop; [pose proof (core_lv _ _ _ _ Hc); lia|by exists 1%nat; split_and!; auto|].
  pose proof (core_lv _ _ _ _ Hc) as Hlv. cbn [shrink].
  assert (Hl : get_level m hd (S lv) = Some (link_of (hgt m) (S lv) ns)).
  { apply (core_links _ _ _ _ Hc []); [done|lia|]. rewrite (core_hd _ _ _ _ Hc). lia. }
  rewrite Hl. mrun. unfold link_of in *. cbn [forward]. destruct (low_split (hgt m) (S lv) ns) as [Hlow|(b1 & f & b2 & E & Hlow & Hf)].
  - rewrite hop_low_all in * by done. cbn [fst snd] in *. destruct IH as (lv' & E & Hle & Hrest).
    + split; try apply Hc.
      * pose proof (core_hgt _ _ _ _ Hc) as Hall. rewrite Forall_forall in Hall, Hlow |- *. intros x Hx. specialize (Hall x Hx). specialize (Hlow x Hx). simpl in *. lia.
      * lia.
      * intros a x b i E Hi Hx. apply (core_links _ _ _ _ Hc a); [done|lia|done].
    + intros i Hi. destruct (decide (i = S lv)) as [->|]; [by eexists|]. apply Htop. lia.
    + exists lv'. split; [done|]. split; [lia|done].
  - rewrite E, hop_low, hop_high by done. cbn [fst]. exists (S (S lv)). split_and!; try done; [by rewrite <- E|].
    right. apply Exists_app. right. left. pose proof (core_hgt _ _ _ _ Hc) as Hall. rewrite E, Forall_app, Forall_cons in Hall. lia.
Qed.

Section DeleteSpec.
Context (m : mem) (z : zskiplist) (p q : list loc) (x : loc) (ep eq : list entry) (k : entry) (us : list (loc * Z)).
Hypothesis Hr : rep m z (p ++ x :: q) (ep ++ k :: eq).
Hypothesis Hlene : length p = length ep.
Hypothesis Hus : upds (hgt m) (header z :: p) us (zlevel z).
Hypothesis Hlen : zlen (p ++ x :: q) < 2 ^ 32.

Lemma deleted_info : exists h, info m x = Some (Some (snd k), fst k, last_or None p, h).
Proof.
  destruct (chain_lookup m _ None _ p x q (rep_chain _ _ _ _ Hr) eq_refl) as (e & h & He & Hi). exists h. rewrite Hi.
  rewrite lookup_app_r in He by (rewrite Hlene; done). rewrite Hlene, Nat.sub_diag in He. by injection He as ->.
Qed.

Lemma delete_rep m1 m2 lv' : core m1 (header z) (p ++ q) (zlevel z) -> same_info m m1 ->
  rebacked (fun y b => if decide (Some y = head q) then last_or None p else b) m1 m2 ->
  core m2 (header z) (p ++ q) lv' ->
  (forall i, (lv' <= i < ZSKIPLIST_MAXLEVEL)%nat -> exists s, get_level m2 (header z) i = Some (mkLevel None s)) ->
  (lv' = 1%nat \/ Exists (fun x => hgt m2 x = lv') (p ++ q)) ->
  rep m2 (mkZsl (header z) (last (p ++ q)) (zlength z - 1) lv') (p ++ q) (ep ++ eq).
Proof.
  intros Hc1 Hs [Hi Hg] Hc2 Htop Htight. pose proof (core_nodup _ _ _ _ (rep_core _ _ _ _ Hr)) as Hnd.
  rewrite app_comm_cons in Hnd. apply NoDup_app in Hnd as (Hndp & Hdisj & [Hxq Hndq]%NoDup_cons).
  assert (Hsame : forall y, y ∈ header z :: p -> info m2 y = info m y).
  { intros y Hy. rewrite Hi, Hs. destruct (info m y) as [[[[??]?]?]|]; [|done]. simpl.
    rewrite decide_False; [done|]. destruct q as [|f q']; [done|]. intros [= <-]. apply (Hdisj y); set_solver. }
  split; cbn [header tail zlength zlevel]; try done.
  - destruct (rep_hdr _ _ _ _ Hr) as [s Hsh]. exists s. rewrite Hsame, Hsh by set_solver. done.
  - pose proof (rep_chain _ _ _ _ Hr) as Hch. apply chain_app in Hch as [Hchp [_ Hchq]]; [|done].
    apply chain_app; [done|]. split; [eapply chain_ext; [|exact Hchp]; intros; apply Hsame; set_solver|].
    apply (chain_relink m m2 _ _ _ _ Hndq Hchq). intros y Hy. by rewrite Hi, Hs.
  - rewrite (rep_len _ _ _ _ Hr), !zlen_app, zlen_cons. lia.
Qed.

Lemma zslDeleteNode_rep : exists m' z', zslDeleteNode m z x us = Some (m', z') /\ rep m' z' (p ++ q) (ep ++ eq) /\
  (dom m' : gset loc) = dom m /\ header z' = header z /\ upds (hgt m') (header z :: p) us (zlevel z').
Proof.
  unfold zslDeleteNode. pose proof (rep_core _ _ _ _ Hr) as Hc.
  destruct (unlink_spec m (header z) p q x (zlevel z) us Hc Hus ltac:(lia)) as (m1 & -> & Hs1 & Hc1 & Hx1 & Hab1). mrun.
  destruct deleted_info as [h Hx]. assert (Hx' : info m1 x = Some (Some (snd k), fst k, last_or None p, h)) by by rewrite Hs1.
  destruct (info_inv _ _ _ _ _ _ Hx') as (n & En & _ & _ & Hbk & _). rewrite En. mrun.
  pose proof (core_lv _ _ _ _ Hc) as Hlv. pose proof (core_all _ _ _ _ Hc) as Hall. pose proof Hall as [_ Hall']%Forall_cons.
  assert (Hl0 : level n !! 0%nat = Some (link_of (hgt m) 0 q)).
  { rewrite <- (core_links _ _ _ _ Hc (header z :: p) x q 0), <- Hx1 by (done || lia || (rewrite Forall_app, Forall_cons in Hall'; lia)).
    unfold get_level. by rewrite En. }
  rewrite Hl0. mrun. unfold link_of. cbn [forward]. rewrite Hbk.
  pose proof (same_info_hgt _ _ Hs1) as Hh1. rewrite (hop_ext (hgt m) (hgt m1)) by done.
  destruct (relink_spec m1 q (tail z) (last_or None p)) as (m2 & E2 & Hreb).
  { rewrite Forall_app, Forall_cons in Hall'. destruct Hall' as (_ & _ & Hq). eapply Forall_impl; [exact Hq|]. intros y. simpl. by rewrite Hh1. }
  rewrite E2. mrun. pose proof (rebacked_hgt _ _ _ Hreb) as Hh2.
  assert (Hc2 : core m2 (header z) (p ++ q) (zlevel z)).
  { apply (core_ext m1); [done|intros; apply Hh2|intros; apply Hreb]. }
  destruct (shrink_spec m2 (header z) (p ++ q) (zlevel z) Hc2) as (lv' & -> & Hle & Hc' & Htop & Htight).
  { intros i Hi. rewrite (proj2 Hreb), Hab1 by lia. apply (rep_top _ _ _ _ Hr). lia. }
  mrun. exists m2, (mkZsl (header z) (last (p ++ q)) (zlength z - 1) lv'). split_and!.
  - do 3 f_equal; [|rewrite (rep_len _ _ _ _ Hr), u64_small; [done|rewrite zlen_app, zlen_cons in *; pose proof (zlen_nonneg p); pose proof (zlen_nonneg q); lia]].
    rewrite (rep_tail _ _ _ _ Hr), last_insert. destruct (decide (q = [])) as [->|]; [|done].
    rewrite app_nil_r. unfold last_or. by destruct (last p).
  - by apply (delete_rep m1).
  - by rewrite (rebacked_dom _ _ _ Hreb), (same_info_dom _ _ Hs1).
  - done.
  - apply (upds_hgt (hgt m)); [intros y _; by rewrite Hh2, Hh1|]. by apply (upds_le _ _ _ (zlevel z)).
Qed.
End DeleteSpec.

End Skiplist.
