(* ===== verification/ZslOps.v ===== *)
(** * What the skip list operations do (t_zset.c)

    Each operation of the skip list against the sorted list of its entries: the
    position an entry has, what is inserted and removed, ranks, and the first and
    the last entry of a range. *)

From Stdlib Require Import SpecFloat.
From S2P Require Import Prelude Score Skiplist.

Module ZslOps.
Import Score Skiplist.

(** ** Sorted lists of entries *)

Record sorted (es : list entry) : Prop := {
  sorted_lt : StronglySorted (fun a b => klt a b = true) es;
  sorted_ok : Forall entry_ok es }.

(** The same score and the same member. *)
Definition same (a b : entry) : bool := deq (fst a) (fst b) && (sdscmp (snd a) (snd b) =? 0).

(** The specification of insertion and deletion. *)
Fixpoint ins (k : entry) (es : list entry) : list entry :=
  match es with
  | [] => [k]
  | y :: es => if klt y k then y :: ins k es else k :: y :: es
  end.

Definition del (k : entry) (es : list entry) : list entry := filter (fun y => same y k = false) es.

Lemma StronglySorted_lookup {A} (R : A -> A -> Prop) l i j a b : StronglySorted R l -> (i < j)%nat -> l !! i = Some a -> l !! j = Some b -> R a b.
Proof.
  intros Hs. revert i j. induction Hs as [|x l Hs IH Hx]; intros i j Hij Hi Hj; [done|].
  destruct j as [|j]; [lia|]. destruct i as [|i]; simplify_eq/=.
  - rewrite Forall_forall in Hx. apply Hx. by eapply list_elem_of_lookup_2.
  - apply (IH i j); [lia|done|done].
Qed.

Lemma StronglySorted_mid {A} (R : A -> A -> Prop) l1 x l2 : StronglySorted R (l1 ++ x :: l2) <->
  StronglySorted R (l1 ++ l2) /\ Forall (fun y => R y x) l1 /\ Forall (R x) l2.
Proof.
  induction l1 as [|y l1 IH]; simpl.
  - split; [intros H; inversion H; subst; by auto|intros (? & _ & ?); by constructor].
  - split.
    + intros H. inversion H as [|? ? Hs Hy]; subst. apply IH in Hs as (? & ? & ?). rewrite Forall_app, Forall_cons in Hy.
      split_and!; [constructor; [done|rewrite Forall_app; tauto]|constructor; tauto|done].
    + intros (H & [? ?]%Forall_cons & ?). inversion H as [|? ? Hs Hy]; subst. constructor; [by apply IH|].
      rewrite Forall_app, Forall_cons in *. tauto.
Qed.

(** A property that is inherited downwards cuts a sorted list. *)
Lemma sorted_cut P es : sorted es ->
  (forall a b, entry_ok a -> entry_ok b -> klt a b = true -> P b = true -> P a = true) -> cut P es.
Proof.
  intros [Hs Hok] HP i j a b Hij Hi Hj. rewrite Forall_forall in Hok.
  apply HP; [apply Hok; by eapply list_elem_of_lookup_2|apply Hok; by eapply list_elem_of_lookup_2|].
  exact (StronglySorted_lookup _ es i j a b Hs Hij Hi Hj).
Qed.

Lemma cut_klt es k : sorted es -> entry_ok k -> cut (fun y => klt y k) es.
Proof. intros Hs Hk. apply sorted_cut; [done|]. intros a b Ha Hb H1 H2. by apply (klt_trans a b k). Qed.

Lemma cut_take P es : Forall (fun y => P y = true) (take (prefix_len P es) es).
Proof. induction es as [|e es IH]; simpl; [constructor|]. destruct (P e) eqn:E; simpl; by constructor. Qed.

Lemma cut_drop P es : cut P es -> Forall (fun y => P y = false) (drop (prefix_len P es) es).
Proof.
  intros Hc. apply Forall_lookup. intros i y Hy. rewrite lookup_drop in Hy.
  rewrite (cut_lookup P es Hc _ y Hy). apply bool_decide_false. lia.
Qed.

Lemma ins_split k es : ins k es = take (prefix_len (fun y => klt y k) es) es ++ k :: drop (prefix_len (fun y => klt y k) es) es.
Proof. induction es as [|y es IH]; simpl; [done|]. destruct (klt y k); [|done]. simpl. by rewrite IH. Qed.

Lemma same_spec a b : entry_ok a -> entry_ok b -> same a b = true <-> dkey (fst a) = dkey (fst b) /\ snd a = snd b.
Proof. intros Ha Hb. unfold same. rewrite andb_true_iff, Z.eqb_eq, sdscmp_eq, deq_key by done. done. Qed.

Lemma klt_same a b c : entry_ok a -> entry_ok b -> entry_ok c -> same a b = true -> klt c a = klt c b.
Proof.
  intros Ha Hb Hc [E1 E2]%same_spec; [|done|done]. apply eq_iff_eq_true. rewrite !klt_spec by done. by rewrite E1, E2.
Qed.
Lemma klt_same_l a b c : entry_ok a -> entry_ok b -> entry_ok c -> same a b = true -> klt a c = klt b c.
Proof.
  intros Ha Hb Hc [E1 E2]%same_spec; [|done|done]. apply eq_iff_eq_true. rewrite !klt_spec by done. by rewrite E1, E2.
Qed.

(** Inserting an entry that is not there keeps the list sorted. *)
Lemma ins_sorted k es : sorted es -> entry_ok k -> Forall (fun y => same y k = false) es -> sorted (ins k es).
Proof.
  intros Hs Hk Hnew. pose proof (cut_drop _ _ (cut_klt es k Hs Hk)) as Hd. pose proof (cut_take (fun y => klt y k) es) as Ht.
  rewrite ins_split. set (M := prefix_len _ es) in *. destruct Hs as [Hs Hok]. rewrite <- (take_drop M es) in Hs, Hok, Hnew.
  apply Forall_app in Hok as [Hok1 Hok2], Hnew as [_ Hnew]. split.
  - apply StronglySorted_mid. split_and!; [done|done|]. rewrite Forall_forall in *. intros y Hy.
    destruct (klt k y) eqn:E; [done|]. destruct (klt_total k y Hk (Hok2 y Hy) E (Hd y Hy)) as [E1 E2].
    specialize (Hnew y Hy). by rewrite (proj2 (same_spec y k (Hok2 y Hy) Hk)) in Hnew.
  - apply Forall_app. split; [done|]. by constructor.
Qed.

Lemma Forall_sublist {A} (P : A -> Prop) l l' : sublist l' l -> Forall P l -> Forall P l'.
Proof. rewrite !Forall_forall. intros Hs Hp x Hx. apply Hp. by eapply elem_of_sublist. Qed.

Lemma sorted_sublist es es' : sublist es' es -> sorted es -> sorted es'.
Proof.
  intros Hsub [Hs Hok]. split; [|by eapply Forall_sublist].
  induction Hsub as [|x l1 l2 Hsub IH|x l1 l2 Hsub IH]; [constructor| |].
  - inversion Hs as [|? ? Hs' Hx]; subst. inversion Hok; subst. constructor; [by apply IH|by eapply Forall_sublist].
  - inversion Hs; subst. inversion Hok; subst. by apply IH.
Qed.

(** The entry that is looked for is the first that is not below it, or absent. *)
Lemma find_split k es : sorted es -> entry_ok k ->
  match drop (prefix_len (fun y => klt y k) es) es with
  | y :: rest => if same y k then del k es = take (prefix_len (fun y => klt y k) es) es ++ rest
                 else Forall (fun y => same y k = false) es
  | [] => Forall (fun y => same y k = false) es
  end.
Proof.
  intros Hs Hk. pose proof (cut_drop _ _ (cut_klt es k Hs Hk)) as Hd. pose proof (cut_take (fun y => klt y k) es) as Ht.
  set (M := prefix_len _ es) in *. destruct Hs as [Hs Hok].
  assert (Hlow : Forall (fun y => same y k = false) (take M es)).
  { rewrite Forall_forall in *. intros y Hy. destruct (same y k) eqn:E; [|done].
    assert (entry_ok y) by (apply Hok; rewrite <- (take_drop M es); set_solver).
    specialize (Ht y Hy). rewrite (klt_same_l y k k), klt_irrefl in Ht; done. }
  assert (Hhigh : forall y rest, drop M es = y :: rest -> Forall (fun y => same y k = false) rest).
  { intros y rest E. rewrite <- (take_drop M es), E in Hs, Hok. apply StronglySorted_mid in Hs as (_ & _ & Hgt).
    rewrite Forall_app, Forall_cons in Hok. destruct Hok as (_ & Hy & Hok). rewrite E in Hd. apply Forall_cons in Hd as [Hyk _].
    rewrite Forall_forall in *. intros w Hw. destruct (same w k) eqn:Ew; [|done].
    specialize (Hgt w Hw). rewrite (klt_same w k y), Hyk in Hgt; auto. }
  destruct (drop M es) as [|y rest] eqn:E.
  - rewrite <- (take_drop M es), E, app_nil_r. done.
  - specialize (Hhigh y rest eq_refl). destruct (same y k) eqn:Ey.
    + unfold del. rewrite <- (take_drop M es) at 1. rewrite E, filter_app, filter_cons_False by congruence.
      rewrite !filter_all by done. done.
    + rewrite <- (take_drop M es), E. apply Forall_app. split; [done|]. by constructor.
Qed.

(** What a sorted set holds: a sorted list in which no member occurs twice. *)
Record sset (es : list entry) : Prop := {
  sset_sorted : sorted es;
  sset_members : NoDup (es.*2) }.

Lemma not_member_same es k : k.2 ∉ es.*2 -> Forall (fun y => same y k = false) es.
Proof.
  intros Hk. apply Forall_forall. intros y Hy. unfold same. apply andb_false_iff. right. apply Z.eqb_neq. rewrite sdscmp_eq.
  intros E. apply Hk. apply list_elem_of_fmap. by exists y.
Qed.

Lemma ins_perm k es : ins k es ≡ₚ k :: es.
Proof. rewrite ins_split, <- Permutation_middle. by rewrite take_drop. Qed.

Lemma ins_sset k es : sset es -> entry_ok k -> k.2 ∉ es.*2 -> sset (ins k es).
Proof.
  intros [Hs Hn] Hk Hnew. split; [apply ins_sorted; [done|done|by apply not_member_same]|].
  rewrite (fmap_Permutation snd _ _ (ins_perm k es)). simpl. by apply NoDup_cons.
Qed.

Lemma sset_sublist es es' : sublist es' es -> sset es -> sset es'.
Proof. intros Hsub [Hs Hn]. split; [by eapply sorted_sublist|]. apply (sublist_NoDup _ (es.*2)); [done|by apply fmap_sublist]. Qed.

Lemma sset_uniq es a b : sset es -> a ∈ es -> b ∈ es -> a.2 = b.2 -> a = b.
Proof.
  intros Hs [i Hi]%list_elem_of_lookup [j Hj]%list_elem_of_lookup E.
  assert (i = j) as ->; [|congruence]. apply (NoDup_lookup (es.*2) _ _ a.2); [apply Hs| |]; rewrite list_lookup_fmap, ?Hi, ?Hj; simpl; congruence.
Qed.

Lemma del_member es s e : sset es -> (s, e) ∈ es -> e ∉ (del (s, e) es).*2 /\ es ≡ₚ (s, e) :: del (s, e) es.
Proof.
  intros Hs Hin. pose proof (sorted_ok _ (sset_sorted _ Hs)) as Hok. rewrite Forall_forall in Hok.
  assert (Huniq : forall w, w ∈ es -> same w (s, e) = true <-> w = (s, e)).
  { intros w Hw. split; [|intros ->; apply same_spec; auto]. intros [_ E]%same_spec; [|auto|auto]. by apply (sset_uniq es). }
  split.
  - intros (w & E & Hw)%list_elem_of_fmap. apply list_elem_of_filter in Hw as [Hf Hw].
    rewrite (proj2 (Huniq _ Hw)) in Hf; [done|]. by apply (sset_uniq es).
  - apply list_elem_of_split in Hin as (l1 & l2 & E). rewrite E at 1. rewrite <- Permutation_middle. apply perm_skip.
    unfold del. rewrite E, filter_app, filter_cons_False. 2:{ rewrite (proj2 (Huniq (s, e) ltac:(rewrite E; set_solver)) eq_refl). done. }
    assert (Hnd : NoDup es) by (apply (NoDup_fmap_1 snd), Hs). rewrite E in Hnd. rewrite <- Permutation_middle in Hnd. apply NoDup_cons in Hnd as [Hni _].
    assert (Hne : forall w, w ∈ l1 ++ l2 -> same w (s, e) = false).
    { intros w Hw. apply not_true_iff_false. intros Ht. apply Huniq in Ht; [subst w; done|]. rewrite E. set_solver. }
    rewrite !filter_all; [done| |]; apply Forall_forall; intros w Hw; apply Hne; set_solver.
Qed.

(** ** The heap outside the list *)

Lemma rep_frame (m m' : mem) z ns es : rep m z ns es -> (forall y, y ∈ header z :: ns -> m' !! y = m !! y) -> rep m' z ns es.
Proof.
  intros Hr Hm. assert (Hi : forall y, y ∈ header z :: ns -> info m' y = info m y) by (intros y Hy; unfold info; by rewrite Hm).
  assert (Hg : forall y i, y ∈ header z :: ns -> get_level m' y i = get_level m y i) by (intros y i Hy; unfold get_level; by rewrite Hm).
  assert (Hh : forall y, y ∈ header z :: ns -> hgt m' y = hgt m y) by (intros y Hy; unfold hgt; by rewrite Hm).
  split; try apply Hr.
  - apply (core_ext m); [apply Hr|done|auto].
  - destruct (rep_hdr _ _ _ _ Hr) as [s Hs]. exists s. rewrite Hi by set_solver. done.
  - eapply chain_ext; [|apply Hr]. intros y Hy. apply Hi. set_solver.
  - intros i Hib. rewrite Hg by set_solver. by apply Hr.
  - destruct (rep_tight _ _ _ _ Hr) as [?|Hex]; [by left|right]. eapply Exists_hgt; [|exact Hex]. intros y Hy. apply Hh. set_solver.
Qed.

Lemma rep_dom m z ns es x : rep m z ns es -> x ∈ header z :: ns -> exists n, m !! x = Some n.
Proof. intros Hr. apply (core_dom _ _ _ _ (rep_core _ _ _ _ Hr)). Qed.

Lemma rep_free m z ns es x : rep m z ns es -> x ∈ (dom m : gset loc) -> x ∉ header z :: ns ->
  exists m', zslFreeNode m x = Some m' /\ rep m' z ns es /\ (dom m' : gset loc) = dom m ∖ {[x]} /\ (forall y, y <> x -> m' !! y = m !! y).
Proof.
  intros Hr [n Hn]%elem_of_dom Hx. unfold zslFreeNode. rewrite Hn. mrun. exists (delete x m).
  split_and!; [done| |set_solver|intros; by rewrite lookup_delete_ne].
  eapply rep_frame; [done|]. intros y Hy. apply lookup_delete_ne. by intros ->.
Qed.

Lemma rep_split m z ns es M y eq : rep m z ns es -> drop M es = y :: eq ->
  exists x q, drop M ns = x :: q /\ ns = take M ns ++ x :: q /\ es = take M es ++ y :: eq /\ length (take M ns) = length (take M es).
Proof.
  intros Hr E. pose proof (chain_length _ _ _ _ (rep_chain _ _ _ _ Hr)) as Hl.
  assert (length (drop M ns) = length (drop M es)) as Hd by (rewrite !length_drop; lia). rewrite E in Hd.
  destruct (drop M ns) as [|x q] eqn:Eq; [done|]. exists x, q. split_and!; [done| | |rewrite !length_take; lia].
  - rewrite <- Eq. by rewrite take_drop.
  - rewrite <- E. by rewrite take_drop.
Qed.

Lemma rep_zip_len m z ns es M : rep m z ns es -> length (take M ns) = length (take M es).
Proof. intros Hr. rewrite !length_take. by rewrite (chain_length _ _ _ _ (rep_chain _ _ _ _ Hr)). Qed.

Lemma zip_middle {A B} (p q : list A) (ep eq : list B) x y : length p = length ep ->
  zip (p ++ x :: q) (ep ++ y :: eq) ≡ₚ (x, y) :: zip (p ++ q) (ep ++ eq).
Proof. intros Hl. rewrite !zip_with_app by done. simpl. by rewrite Permutation_middle. Qed.

Lemma zip_insert {A B} (ns : list A) (es : list B) M N x y : length (take M ns) = length (take N es) ->
  zip (take M ns ++ x :: drop M ns) (take N es ++ y :: drop N es) ≡ₚ (x, y) :: zip ns es.
Proof. intros Hl. rewrite zip_middle by done. by rewrite !take_drop. Qed.

(** Cutting the middle part out of both lists. *)
Lemma zip_cut {A B} (ns : list A) (es : list B) M N : length ns = length es -> (M + N <= length es)%nat ->
  zip ns es ≡ₚ zip (take M ns ++ drop (M + N) ns) (take M es ++ drop (M + N) es) ++ zip (take N (drop M ns)) (take N (drop M es)).
Proof.
  intros Hl HMN. assert (Ens : ns = take M ns ++ take N (drop M ns) ++ drop (M + N) ns) by (rewrite <- (drop_drop _ N M), !take_drop; done).
  assert (Ees : es = take M es ++ take N (drop M es) ++ drop (M + N) es) by (rewrite <- (drop_drop _ N M), !take_drop; done).
  rewrite Ens at 1. rewrite Ees at 1. rewrite !zip_with_app by (rewrite !length_take, ?length_drop; lia).
  rewrite <- app_assoc. apply Permutation_app_head, Permutation_app_comm.
Qed.

Lemma rep_nil m z ns es M : rep m z ns es -> drop M es = [] -> drop M ns = [].
Proof.
  intros Hr E. apply (f_equal length) in E. rewrite length_drop in E. apply length_zero_iff_nil. rewrite length_drop.
  rewrite (chain_length _ _ _ _ (rep_chain _ _ _ _ Hr)). exact E.
Qed.

(** The fields of the node that holds an entry. *)
Lemma rep_node m z ns es i x : rep m z ns es -> ns !! i = Some x ->
  exists y n, es !! i = Some y /\ m !! x = Some n /\ ele n = Some (snd y) /\ score n = fst y /\ backward n = last_or None (take i ns).
Proof.
  intros Hr Hx. pose proof (take_drop_middle ns i x Hx) as E.
  destruct (chain_lookup m ns None es (take i ns) x (drop (S i) ns) (rep_chain _ _ _ _ Hr) (eq_sym E)) as (y & h & Hy & Hi).
  apply info_inv in Hi as (n & Hn & ? & ? & ? & _). exists y, n. split_and!; try done.
  rewrite length_take in Hy. apply lookup_lt_Some in Hx. by rewrite Nat.min_l in Hy by lia.
Qed.

(** ** Creating, inserting, deleting *)

Lemma random_loop_ge draws : forall lvl r, random_loop draws lvl = Some r -> lvl <= r.
Proof.
  induction draws as [|d draws IH]; intros lvl r; [done|]. cbn [random_loop]. destruct (_ <? _); [|intros [= <-]; lia].
  destruct (_ =? _); [done|]. intros ?%IH. lia.
Qed.

Lemma randomLevel_range draws lvl : zslRandomLevel draws = Some lvl -> (1 <= lvl <= ZSKIPLIST_MAXLEVEL)%nat.
Proof.
  unfold zslRandomLevel. destruct (random_loop draws 1) as [r|] eqn:E; [|done]. mrun. apply random_loop_ge in E.
  unfold ZSKIPLIST_MAXLEVEL. destruct (Z.ltb_spec r (Z.of_nat 64)); intros [= <-]; lia.
Qed.

(** Draws that end: some value is at least a quarter of the range. *)
Lemma randomLevel_total draws : (exists r, r ∈ draws /\ 0xFFFF <= 4 * Z.land r 0xFFFF) -> zlen draws < INT32_MAX -> exists lvl, zslRandomLevel draws = Some lvl.
Proof.
  intros Hex Hl. unfold zslRandomLevel. assert (Hgo : forall lvl, lvl + zlen draws <= INT32_MAX -> exists r, random_loop draws lvl = Some r).
  { clear Hl. induction draws as [|d draws IH]; [destruct Hex as (r & Hr & _); by apply elem_of_nil in Hr|]. intros lvl Hb. rewrite zlen_cons in Hb. cbn [random_loop].
    destruct (Z.ltb_spec (4 * Z.land d 0xFFFF) 0xFFFF) as [Hd|Hd]; [|by eexists]. pose proof (zlen_nonneg draws).
    destruct (Z.eqb_spec lvl INT32_MAX); [lia|]. apply IH; [|lia]. destruct Hex as (r & [->|Hr]%elem_of_cons & Hge); [lia|by exists r]. }
  destruct (Hgo 1 ltac:(lia)) as [r ->]. mrun. by eexists.
Qed.

Section Ops.
Context {H : Heap} (garbage : zskiplistLevel) (garbage_ptr : option loc).

Lemma zslCreate_spec m : exists m' z, zslCreate garbage garbage_ptr m = Some (m', z) /\ rep m' z [] [] /\ header z ∉ (dom m : gset loc) /\
  (dom m' : gset loc) = {[header z]} ∪ dom m.
Proof.
  unfold zslCreate, zslCreateNode. pose proof (zmalloc_fresh (dom m)) as Hx. set (h := zmalloc (dom m)) in *.
  set (n := mkNode _ _ _ _). pose proof Hx as Hx'. apply not_elem_of_dom in Hx'. destruct (alloc_view m h n Hx') as (_ & _ & _ & Hh & Hi).
  cbn [n level ele score backward] in Hh, Hi. rewrite length_replicate in Hh, Hi. set (m1 := <[h := n]> m) in *.
  destruct (for_levels_spec (fun j y => if decide (y = h) then Some (mkLevel None 0) else get_level m1 y j)
    (fun j m => set_level m h j (mkLevel None 0)) ZSKIPLIST_MAXLEVEL 0 m1) as (m2 & -> & Hs2 & Hg2).
  { intros j m2 Hj Hs Hg. destruct (set_level_spec m2 h j (mkLevel None 0)) as (m3 & -> & Hs3 & Hg3).
    { rewrite (same_info_hgt _ _ Hs), Hh. lia. }
    exists m3. split_and!; [done|done|]. intros y k. rewrite Hg3. destruct (decide (k = j)) as [->|]; [|by rewrite decide_False by tauto].
    destruct (decide (y = h)); [by rewrite decide_True|]. rewrite decide_False by tauto. apply Hg. }
  mrun. pose proof (same_info_hgt _ _ Hs2 h) as Hh2. rewrite Hh in Hh2.
  destruct (set_backward_rebacked m2 h None) as (m3 & -> & Hreb); [rewrite Hh2; unfold ZSKIPLIST_MAXLEVEL; lia|]. mrun.
  pose proof (rebacked_hgt _ _ _ Hreb h) as Hh3. rewrite Hh2 in Hh3.
  assert (Hl : forall i, (i < ZSKIPLIST_MAXLEVEL)%nat -> get_level m3 h i = Some (mkLevel None 0)).
  { intros i Hlt. rewrite (proj2 Hreb), Hg2, decide_True by lia. by rewrite decide_True. }
  eexists m3, _. split; [done|]. split; [|split; [done|]].
  - split; cbn [header zlevel zlength tail]; try done; [| |by intros i Hib; exists 0; apply Hl; lia|by left].
    + split; [by apply NoDup_singleton|done|constructor|unfold ZSKIPLIST_MAXLEVEL; lia|].
      intros a x b i E Hb Hx1. destruct a as [|? [|]]; simplify_eq/=. rewrite Hl; [done|lia].
    + exists (S754_zero false). rewrite (proj1 Hreb), Hs2, Hi. simpl. by rewrite decide_True.
  - rewrite (rebacked_dom _ _ _ Hreb), (same_info_dom _ _ Hs2). unfold m1. by rewrite dom_insert_L.
Qed.

Section Given.
Context (m : mem) (z : zskiplist) (ns : list loc) (es : list entry).
Hypothesis Hr : rep m z ns es.
Hypothesis Hs : sset es.
Hypothesis Hlen : zlen es < 2 ^ 32 - 1.

Let Hzn : zlen ns < 2 ^ 32 - 1.
Proof. by rewrite (rep_zlen _ _ _ _ Hr). Qed.

Lemma zslInsert_spec draws sc e : dnum sc -> is_Some (zslRandomLevel draws) ->
  exists m' z' x ns', zslInsert garbage garbage_ptr draws m z sc e = Some (m', z', x) /\ x ∉ (dom m : gset loc) /\
    rep m' z' ns' (ins (sc, e) es) /\ zip ns' (ins (sc, e) es) ≡ₚ (x, (sc, e)) :: zip ns es /\
    (dom m' : gset loc) = {[x]} ∪ dom m /\ header z' = header z.
Proof.
  intros Hsc [lvl Hd]. destruct (zslInsert_rep garbage garbage_ptr m z ns es Hr draws lvl sc e) as (m' & z' & x & E & Hx & Hrep & Hdom & Hh).
  - done.
  - done.
  - by eapply randomLevel_range.
  - apply (cut_klt es (sc, e)); [apply Hs|done].
  - lia.
  - exists m', z', x. eexists. split_and!; [done|done|rewrite ins_split; exact Hrep| |done|done].
    rewrite ins_split. by apply (zip_insert _ _ _ _ _ _ (rep_zip_len m z ns es _ Hr)).
Qed.

(** A search for the place of [k]. *)
Lemma search_klt k : entry_ok k -> let M := prefix_len (fun y => klt y k) es in
  exists x us, descend (zlevel z) m (before k) add64 (header z) 0 = Some (x, us) /\
    upds (hgt m) (header z :: take M ns) us (zlevel z) /\
    get_level m x 0 = Some (match drop M ns with [] => mkLevel None 0 | y :: _ => mkLevel (Some y) 1 end).
Proof.
  intros Hk M. destruct (rep_search m z ns es Hr (fun y => klt y k) (before k) add64) as (a & x & us & Ea & E & _ & _ & Hus & Hg).
  - apply cut_klt; [apply Hs|done].
  - intros n [s0 e0] r He Hsc. unfold before. rewrite He. mrun. by rewrite Hsc.
  - intros r s0 Hr0 Hs0 Hrs. apply (add64_ok ns); [lia|done|done|done].
  - exists x, us. split_and!; [done|done|]. rewrite Hg. f_equal. by apply (rep_next m z ns es).
Qed.

Lemma deq_sym a b : dnum a -> dnum b -> deq a b = deq b a.
Proof. intros. apply eq_iff_eq_true. rewrite !deq_key by done. done. Qed.

Lemma entry_in_ok y : y ∈ es -> entry_ok y.
Proof. pose proof (sorted_ok _ (sset_sorted _ Hs)) as Hok. rewrite Forall_forall in Hok. apply Hok. Qed.

(** Where a search for an entry ends: at the node that would follow it. *)
Lemma locate sc e : dnum sc -> exists x0 us l, descend (zlevel z) m (before (sc, e)) add64 (header z) 0 = Some (x0, us) /\
  get_level m x0 0 = Some l /\
  match forward l with
  | None => Forall (fun y => same y (sc, e) = false) es
  | Some x => exists p q ep eq y n, ns = p ++ x :: q /\ es = ep ++ y :: eq /\ length p = length ep /\
      upds (hgt m) (header z :: p) us (zlevel z) /\ m !! x = Some n /\ ele n = Some (snd y) /\ score n = fst y /\
      backward n = last_or None p /\ entry_ok y /\ deq sc (score n) && (sdscmp (snd y) e =? 0) = same y (sc, e) /\
      if same y (sc, e) then del (sc, e) es = ep ++ eq else Forall (fun y => same y (sc, e) = false) es
  end.
Proof.
  intros Hsc. pose proof (find_split (sc, e) es (sset_sorted _ Hs) Hsc) as Hf. destruct (search_klt (sc, e) Hsc) as (x0 & us & E & Hus & Hg).
  set (M := prefix_len _ es) in *. exists x0, us. eexists. split_and!; [exact E|exact Hg|].
  destruct (drop M es) as [|y eq] eqn:Ed; [by rewrite (rep_nil m z ns es M)|].
  destruct (rep_split m z ns es M y eq Hr Ed) as (x & q & Eq & Ens & Ees & Hll). rewrite Eq. cbn [forward].
  assert (Hx : ns !! length (take M ns) = Some x) by (rewrite <- (list_lookup_middle (take M ns) q x _ eq_refl); by rewrite <- Ens).
  destruct (rep_node m z ns es _ x Hr Hx) as (y' & n & Hy' & En & He & Hsn & Hb).
  assert (y' = y) as -> by (rewrite Ees, Hll, list_lookup_middle in Hy' by done; congruence).
  assert (entry_ok y) by (apply entry_in_ok; rewrite Ees; set_solver).
  exists (take M ns), q, (take M es), eq, y, n. split_and!; try done.
  - rewrite Hb. f_equal. rewrite length_take. apply lookup_lt_Some in Hx. rewrite length_take in Hx. by rewrite Nat.min_l by lia.
  - rewrite Hsn. by rewrite (deq_sym sc).
Qed.

Lemma delete_located p q ep eq x y us : ns = p ++ x :: q -> es = ep ++ y :: eq -> length p = length ep ->
  upds (hgt m) (header z :: p) us (zlevel z) ->
  exists m1 z1, zslDeleteNode m z x us = Some (m1, z1) /\ rep m1 z1 (p ++ q) (ep ++ eq) /\ (dom m1 : gset loc) = dom m /\
    header z1 = header z /\ x ∈ (dom m1 : gset loc) /\ x ∉ header z1 :: p ++ q /\ zip ns es ≡ₚ (x, y) :: zip (p ++ q) (ep ++ eq).
Proof.
  intros Ens Ees Hll Hus. pose proof Hr as Hr'. rewrite Ens, Ees in Hr'.
  destruct (zslDeleteNode_rep m z p q x ep eq y us Hr' Hll Hus) as (m1 & z1 & E & Hr1 & Hdom1 & Hh1 & _); [rewrite <- Ens; lia|].
  exists m1, z1. split_and!; try done.
  - rewrite Hdom1. apply elem_of_dom. destruct (rep_dom m z ns es x Hr) as [n ->]; [rewrite Ens; set_solver|by eexists].
  - rewrite Hh1. pose proof (core_nodup _ _ _ _ (rep_core _ _ _ _ Hr')) as Hn. rewrite app_comm_cons, <- Permutation_middle in Hn.
    by apply NoDup_cons in Hn as [? _].
  - rewrite Ens, Ees. by apply zip_middle.
Qed.

Lemma zslDelete_spec sc e keep : dnum sc ->
  (Forall (fun y => same y (sc, e) = false) es /\ zslDelete m z sc e keep = Some (m, z, None)) \/
  exists m' z' x ns' y, zslDelete m z sc e keep = Some (m', z', Some x) /\ same y (sc, e) = true /\
    zip ns es ≡ₚ (x, y) :: zip ns' (del (sc, e) es) /\ rep m' z' ns' (del (sc, e) es) /\ header z' = header z /\
    (dom m' : gset loc) = (if keep then dom m else dom m ∖ {[x]}).
Proof.
  intros Hsc. destruct (locate sc e Hsc) as (x0 & us & l & E & Hg & Hl). unfold zslDelete. rewrite E. mrun. rewrite Hg. mrun.
  destruct (forward l) as [x|]; [|by left]. destruct Hl as (p & q & ep & eq & y & n & Ens & Ees & Hll & Hus & En & He & Hsn & _ & Hy & Hd & Hf).
  rewrite En. mrun. rewrite He. mrun. rewrite Hd. destruct (same y (sc, e)) eqn:Esame; [|by left]. right. rewrite Hf.
  destruct (delete_located p q ep eq x y us Ens Ees Hll Hus) as (m1 & z1 & -> & Hr1 & Hdom1 & Hh1 & Hxin & Hxn & Hzip). mrun.
  destruct keep; mrun; [by exists m1, z1, x, (p ++ q), y|].
  destruct (rep_free m1 z1 _ _ x Hr1 Hxin Hxn) as (m2 & -> & Hr2 & Hdom2 & _). mrun.
  exists m2, z1, x, (p ++ q), y. rewrite Hdom2, Hdom1. done.
Qed.

(** Only the score of one node changes. *)
Lemma set_score_rep p q ep eq x y n new : ns = p ++ x :: q -> es = ep ++ y :: eq -> length p = length ep -> m !! x = Some n -> ele n = Some (snd y) ->
  backward n = last_or None p ->
  exists m', set_score m x new = Some m' /\ rep m' z ns (ep ++ (new, snd y) :: eq) /\ (dom m' : gset loc) = dom m.
Proof.
  intros Ens Ees Hll En He Hb. unfold set_score. rewrite En. mrun. eexists. split; [done|].
  pose proof (core_nodup _ _ _ _ (rep_core _ _ _ _ Hr)) as Hnd. rewrite Ens, app_comm_cons in Hnd. pose proof Hnd as (_ & Hdisj & [Hxq _]%NoDup_cons)%NoDup_app.
  split; [|apply set_eq; intros k; rewrite !elem_of_dom; destruct (decide (k = x)) as [->|]; [rewrite lookup_insert_eq, En; split; by eexists|by rewrite lookup_insert_ne]].
  set (m' := <[x := _]> m).
  assert (Hi : forall k, k <> x -> info m' k = info m k) by (intros k Hk; unfold info, m'; by rewrite lookup_insert_ne).
  assert (Hg : forall k i, get_level m' k i = get_level m k i).
  { intros k i. unfold get_level, m'. destruct (decide (k = x)) as [->|]; [by rewrite lookup_insert_eq, En|by rewrite lookup_insert_ne]. }
  assert (Hh : forall k, hgt m' k = hgt m k).
  { intros k. unfold hgt, m'. destruct (decide (k = x)) as [->|]; [by rewrite lookup_insert_eq, En|by rewrite lookup_insert_ne]. }
  split; try apply Hr.
  - apply (core_ext m); [apply Hr|auto|auto].
  - destruct (rep_hdr _ _ _ _ Hr) as [s0 Hs0]. exists s0. rewrite Hi; [done|]. intros <-. apply (Hdisj (header z)); set_solver.
  - pose proof (rep_chain _ _ _ _ Hr) as Hch. rewrite Ens, Ees in Hch. apply chain_app in Hch as [Hchp [_ Hchq]]; [|done].
    rewrite Ens. apply chain_app; [done|]. split; [|split].
    + eapply chain_ext; [|exact Hchp]. intros k Hk. apply Hi. intros ->. apply (Hdisj x); set_solver.
    + exists (length (level n)). unfold info, m'. rewrite lookup_insert_eq. simpl. by rewrite He, Hb.
    + eapply chain_ext; [|exact Hchq]. intros k Hk. apply Hi. by intros ->.
  - intros i Hib. rewrite Hg. by apply Hr.
  - destruct (rep_tight _ _ _ _ Hr) as [?|Hex]; [by left|right]. eapply Exists_hgt; [|exact Hex]. auto.
Qed.

(** The neighbours of a located node. *)
Lemma located_prev p q ep eq x y n : ns = p ++ x :: q -> es = ep ++ y :: eq -> length p = length ep -> backward n = last_or None p ->
  match backward n with None => ep = [] | Some b => exists nb ep' w, m !! b = Some nb /\ ep = ep' ++ [w] /\ score nb = fst w end.
Proof.
  intros Ens Ees Hll ->. destruct p as [|b p _] using rev_ind; [by destruct ep|]. unfold last_or. rewrite last_snoc.
  destruct ep as [|w ep _] using rev_ind; [rewrite length_app in Hll; simpl in Hll; lia|]. rewrite !length_app in Hll. simpl in Hll.
  assert (Hb : ns !! length p = Some b) by (rewrite Ens, <- app_assoc; by apply list_lookup_middle).
  destruct (rep_node m z ns es _ b Hr Hb) as (w' & nb & Hw & Enb & _ & Hsc & _). exists nb, ep, w. split_and!; try done.
  rewrite Ees, <- app_assoc in Hw. cbn [app] in Hw. rewrite list_lookup_middle in Hw by lia. congruence.
Qed.

Lemma located_next p q ep eq x y n : ns = p ++ x :: q -> es = ep ++ y :: eq -> length p = length ep -> m !! x = Some n ->
  exists l, level n !! 0%nat = Some l /\
  match forward l with None => eq = [] | Some f => exists nf eq' w, m !! f = Some nf /\ eq = w :: eq' /\ score nf = fst w end.
Proof.
  intros Ens Ees Hll En. pose proof (rep_core _ _ _ _ Hr) as Hc. exists (link_of (hgt m) 0 q). split.
  { assert (get_level m x 0 = Some (link_of (hgt m) 0 q)) as Hg.
    { apply (core_links _ _ _ _ Hc (header z :: p)); [by rewrite Ens|pose proof (core_lv _ _ _ _ Hc); lia|].
      apply (core_pos _ _ _ _ Hc). rewrite Ens. set_solver. }
    unfold get_level in Hg. by rewrite En in Hg. }
  assert (Hd : drop (S (length p)) ns = q) by (rewrite Ens; change (x :: q) with ([x] ++ q); rewrite app_assoc; apply drop_app_length'; rewrite length_app; simpl; lia).
  rewrite <- Hd, (rep_next m z ns es) by done. rewrite Hd. pose proof (chain_length _ _ _ _ (rep_chain _ _ _ _ Hr)) as Hle.
  rewrite Ens, Ees, !length_app in Hle. simpl in Hle. destruct q as [|f q]; cbn [forward]; [destruct eq; [done|simpl in Hle; lia]|].
  destruct eq as [|w eq]; [simpl in Hle; lia|].
  assert (Hf : ns !! S (length p) = Some f).
  { rewrite Ens. change (x :: f :: q) with ([x] ++ f :: q). rewrite app_assoc. apply list_lookup_middle. rewrite length_app. simpl. lia. }
  destruct (rep_node m z ns es _ f Hr Hf) as (w' & nf & Hw & Enf & _ & Hsc & _). exists nf, eq, w. split_and!; try done.
  rewrite Ees in Hw. change (y :: w :: eq) with ([y] ++ w :: eq) in Hw. rewrite app_assoc, list_lookup_middle in Hw; [congruence|].
  rewrite length_app. simpl. lia.
Qed.

End Given.

Lemma ins_at k ep eq : Forall (fun y => klt y k = true) ep -> match eq with [] => True | y :: _ => klt y k = false end ->
  ins k (ep ++ eq) = ep ++ k :: eq.
Proof.
  intros Hep Heq. induction Hep as [|y ep Hy Hep IH]; simpl; [|by rewrite Hy, IH].
  destruct eq as [|w eq]; simpl; [done|]. by rewrite Heq.
Qed.

(** Between neighbours with a smaller and a greater score the new place is the old one. *)
Lemma ins_between ep y eq new : sorted (ep ++ y :: eq) -> dnum new ->
  match last ep with None => True | Some w => dlt (fst w) new = true end ->
  match eq with [] => True | w :: _ => dlt new (fst w) = true end ->
  ins (new, snd y) (ep ++ eq) = ep ++ (new, snd y) :: eq.
Proof.
  intros [Hsrt Hok] Hnew Hlo Hhi. rewrite Forall_app, Forall_cons in Hok. destruct Hok as (Hok1 & Hy & Hok2). apply ins_at.
  - destruct ep as [|w ep _] using rev_ind; [constructor|]. rewrite last_snoc in Hlo.
    assert (Hw : klt w (new, y.2) = true) by (unfold klt; simpl; by rewrite Hlo).
    rewrite <- app_assoc in Hsrt. apply StronglySorted_mid in Hsrt as (_ & Hlt & _). apply Forall_app in Hok1 as [Hok1 [Hokw _]%Forall_cons].
    apply Forall_app. split; [|by constructor]. rewrite Forall_forall in *. intros v Hv.
    apply (klt_trans v w (new, y.2)); [by apply Hok1|done|done|by apply Hlt|done].
  - destruct eq as [|w eq]; [done|]. apply Forall_cons in Hok2 as [Hokw _]. apply klt_asym; [done|done|]. unfold klt. simpl. by rewrite Hhi.
Qed.

Lemma zslUpdateScore_spec m z ns es draws cur e new : rep m z ns es -> sset es -> zlen es < 2 ^ 32 - 1 ->
  dnum cur -> dnum new -> is_Some (zslRandomLevel draws) -> Exists (fun y => same y (cur, e) = true) es ->
  exists m' z' x x' ns' rest y, zslUpdateScore garbage garbage_ptr draws m z cur e new = Some (m', z', x') /\
    same y (cur, e) = true /\ zip ns es ≡ₚ (x, y) :: rest /\
    rep m' z' ns' (ins (new, e) (del (cur, e) es)) /\ zip ns' (ins (new, e) (del (cur, e) es)) ≡ₚ (x', (new, e)) :: rest /\
    (dom m' : gset loc) = {[x']} ∪ (dom m ∖ {[x]}) /\ header z' = header z.
Proof.
  intros Hr Hs Hlen Hcur Hnew Hdr Hex. destruct (locate m z ns es Hr Hs Hlen cur e Hcur) as (x0 & us & l & E & Hg & Hl).
  unfold zslUpdateScore. rewrite E. mrun. rewrite Hg. mrun.
  assert (Hnot : ~ Forall (fun y => same y (cur, e) = false) es).
  { rewrite Forall_forall. rewrite Exists_exists in Hex. destruct Hex as (w & Hw & Hsw). intros Hf. by rewrite Hf in Hsw. }
  destruct (forward l) as [x|]; [|done]. mrun.
  destruct Hl as (p & q & ep & eq & y & n & Ens & Ees & Hll & Hus & En & He & Hsn & Hbk & Hy & Hd & Hf).
  rewrite En. mrun. rewrite He. mrun. rewrite Hd. destruct (same y (cur, e)) eqn:Esame; [|done]. cbn [negb]. rewrite Hf.
  assert (Hye : snd y = e) by (apply same_spec in Esame as [_ ?]; done).
  destruct (located_next m z ns es Hr Hs Hlen p q ep eq x y n Ens Ees Hll En) as (l' & -> & Hnext). mrun.
  pose proof (located_prev m z ns es Hr p q ep eq x y n Ens Ees Hll Hbk) as Hprev.
  assert (exists low, match backward n with None => Some true | Some b => nb ← m !! b; Some (dlt (score nb) new) end = Some low /\
    (low = true -> match last ep with None => True | Some w => dlt (fst w) new = true end)) as (lo & -> & Hlo).
  { destruct (backward n) as [b|]; [|subst ep; by exists true]. destruct Hprev as (nb & ep' & w & -> & -> & Hw). mrun.
    eexists. split; [done|]. rewrite last_snoc, Hw. done. }
  assert (exists high, match forward l' with None => Some true | Some f => nf ← m !! f; Some (dlt new (score nf)) end = Some high /\
    (high = true -> match eq with [] => True | w :: _ => dlt new (fst w) = true end)) as (hi & -> & Hhi).
  { destruct (forward l') as [f|]; [|subst eq; by exists true]. destruct Hnext as (nf & eq' & w & -> & -> & Hw). mrun.
    eexists. split; [done|]. by rewrite Hw. }
  mrun. destruct (lo && hi) eqn:Ein.
  - apply andb_true_iff in Ein as [-> ->]. specialize (Hlo eq_refl). specialize (Hhi eq_refl).
    destruct (set_score_rep m z ns es Hr Hs Hlen p q ep eq x y n new Ens Ees Hll En He Hbk) as (m1 & -> & Hr1 & Hdom). mrun.
    assert (Hins : ins (new, e) (ep ++ eq) = ep ++ (new, e) :: eq).
    { rewrite <- Hye. apply ins_between; [rewrite <- Ees; apply Hs|done|done|done]. }
    exists m1, z, x, x, ns, (zip (p ++ q) (ep ++ eq)), y. rewrite Hins. split_and!; try done.
    + rewrite Ens, Ees. by apply zip_middle.
    + by rewrite Hye in Hr1.
    + rewrite Ens. by apply zip_middle.
    + rewrite Hdom. assert (x ∈ (dom m : gset loc)) by (apply elem_of_dom; by eexists). apply set_eq. intros k. destruct (decide (k = x)); set_solver.
  - destruct (delete_located m z ns es Hr Hs Hlen p q ep eq x y us Ens Ees Hll Hus) as (m1 & z1 & -> & Hr1 & Hdom1 & Hh1 & Hxin & Hxn & Hzip). mrun.
    assert (Hs1 : sset (ep ++ eq)) by (eapply sset_sublist; [|exact Hs]; rewrite Ees; apply sublist_app; [done|by apply sublist_cons]).
    destruct (zslInsert_spec m1 z1 (p ++ q) (ep ++ eq) Hr1 Hs1) with (draws := draws) (sc := new) (e := e) as (m2 & z2 & x' & ns' & E2 & Hx' & Hr2 & Hz2 & Hdom2 & Hh2); [|done|done|].
    { rewrite Ees in Hlen. rewrite zlen_app, zlen_cons in Hlen. rewrite zlen_app. lia. }
    rewrite Hye, E2. mrun.
    assert (Hne : x <> x') by (intros ->; done).
    destruct (rep_free m2 z2 ns' _ x Hr2) as (m3 & -> & Hr3 & Hdom3 & _).
    { rewrite Hdom2. set_solver. }
    { assert (Hp : ns' ≡ₚ x' :: p ++ q).
      { pose proof (fmap_Permutation fst _ _ Hz2) as Hp. simpl in Hp. rewrite !fst_zip in Hp; [done| |].
        - by rewrite (chain_length _ _ _ _ (rep_chain _ _ _ _ Hr1)).
        - by rewrite (chain_length _ _ _ _ (rep_chain _ _ _ _ Hr2)). }
      rewrite Hh2. rewrite elem_of_cons, Hp. rewrite !not_elem_of_cons in *. intros [?|?]; [tauto|]. set_solver. }
    mrun. exists m3, z2, x, x', ns', (zip (p ++ q) (ep ++ eq)), y. split_and!; try done.
    + rewrite Hdom3, Hdom2, Hdom1. apply set_eq. intros k. set_solver.
    + by rewrite Hh2.
Qed.

End Ops.

(** ** Ranks *)

Section Ranks.
Context (m : mem) (z : zskiplist) (ns : list loc) (es : list entry).
Hypothesis Hr : rep m z ns es.
Hypothesis Hs : sset es.
Hypothesis Hlen : zlen es < 2 ^ 32 - 1.

(** One level of a rank loop: the walk, and what holds when it ends at level 0. *)
Lemma walk_rep M test i a x b : (i < zlevel z)%nat -> header z :: ns = a ++ x :: b -> (i < hgt m x)%nat -> (length a <= M)%nat ->
  (forall a f b n, header z :: ns = a ++ f :: b -> a <> [] -> m !! f = Some n -> test n (zlen a) = Some (bool_decide (length a <= M)%nat)) ->
  exists a' x' b', walk (S (size m)) m i test add64 x (zlen a) = Some (x', zlen a') /\ header z :: ns = a' ++ x' :: b' /\
    (length a' <= M)%nat /\ (i < hgt m x')%nat /\ (i = 0%nat -> length a' <> M -> b' = []).
Proof.
  intros Hi E Hx Ha Ht. pose proof (rep_core _ _ _ _ Hr) as Hc. pose proof (core_size _ _ _ _ Hc) as Hsz. rewrite E, length_app in Hsz. simpl in Hsz.
  destruct (walk_spec m (header z) ns (zlevel z) Hc M test add64 Ht) with (i := i) (fuel := S (size m)) (a := a) (x := x) (b := b)
    as (a' & x' & b' & Ew & E' & Ha' & Hx' & Hlow); try done; [|lia|].
  { intros r s0 ? ? ?. apply (add64_ok ns); try done. rewrite (rep_zlen _ _ _ _ Hr). lia. }
  exists a', x', b'. split_and!; try done. intros -> Hne. destruct b' as [|w b']; [done|]. exfalso.
  destruct (M - length a')%nat eqn:EM; [lia|]. simpl in Hlow. apply Forall_cons in Hlow as [Hw _].
  pose proof (core_pos _ _ _ _ Hc w) as Hp. rewrite E' in Hp. specialize (Hp ltac:(set_solver)). lia.
Qed.

Lemma by_rank_loop_spec rank : 0 <= rank -> forall i a x b, (1 <= i <= zlevel z)%nat -> header z :: ns = a ++ x :: b -> (i <= hgt m x)%nat ->
  zlen a <= rank -> by_rank_loop i m rank x (zlen a) = Some ((header z :: ns) !! Z.to_nat rank).
Proof.
  intros Hrank. induction i as [|i IH]; intros a x b Hi E Hx Ha; [lia|]. cbn [by_rank_loop].
  destruct (walk_rep (Z.to_nat rank) (fun _ t => Some (t <=? rank)) i a x b) as (a' & x' & b' & -> & E' & Ha' & Hx' & Hend); try done; try lia.
  { unfold zlen in Ha. lia. }
  { intros a0 f b0 n E0 _ _. f_equal. apply eq_iff_eq_true. rewrite Z.leb_le, bool_decide_eq_true. unfold zlen. lia. }
  mrun. destruct (Z.eqb_spec (zlen a') rank) as [Heq|Hne].
  - f_equal. rewrite E'. symmetry. apply list_lookup_middle. unfold zlen in Heq. lia.
  - destruct i as [|i].
    + cbn [by_rank_loop]. f_equal. symmetry. rewrite E'. rewrite Hend; [|done|unfold zlen in Hne; lia].
      apply lookup_ge_None_2. rewrite length_app. simpl. unfold zlen in *. lia.
    + apply (IH a' x' b'); try done; try lia. unfold zlen. lia.
Qed.

(** The entry that has a rank, and none after it is not greater. *)
Lemma kle_prefix i y sc e : es !! i = Some y -> dnum sc -> same y (sc, e) = true -> prefix_len (fun k => kle k (sc, e)) es = S i.
Proof.
  intros Hi Hsc Hsame. set (k := (sc, e)). assert (Hk : entry_ok k) by done. pose proof (sset_sorted _ Hs) as Hso. pose proof (sorted_ok _ Hso) as Hok. rewrite Forall_lookup in Hok.
  assert (Hcut : cut (fun y => kle y k) es).
  { apply sorted_cut; [done|]. intros a b Ha Hb Hab. rewrite !kle_klt by done. rewrite !negb_true_iff. intros Hkb.
    apply not_true_iff_false. intros Hka. by rewrite (klt_trans k a b) in Hkb. }
  assert (Hy : entry_ok y) by by apply (Hok i).
  pose proof (cut_lookup _ _ Hcut i y Hi) as Hle. cbv beta in Hle. rewrite kle_klt in Hle by done.
  rewrite (klt_same y k k), klt_irrefl in Hle by done. simpl in Hle. symmetry in Hle. apply bool_decide_eq_true in Hle.
  destruct (decide (S i < prefix_len (fun k0 => kle k0 k) es)%nat) as [Hlt|]; [|lia]. exfalso.
  destruct (lookup_lt_is_Some_2 es (S i)) as [w Hw]; [pose proof (prefix_len_le (fun k0 => kle k0 k) es); lia|].
  pose proof (cut_lookup _ _ Hcut (S i) w Hw) as Hlw. cbv beta in Hlw. rewrite bool_decide_true in Hlw by done. rewrite kle_klt in Hlw by (done || by apply (Hok (S i))).
  rewrite negb_true_iff in Hlw. pose proof (StronglySorted_lookup _ es i (S i) y w (sorted_lt _ Hso) ltac:(lia) Hi Hw) as Hyw. simpl in Hyw.
  rewrite (klt_same_l y k w), Hlw in Hyw; try done. by apply (Hok (S i)).
Qed.

Definition rank_result (e : sds) (M : nat) : Z :=
  match M with O => 0 | S j => match es !! j with Some y => if sdscmp (snd y) e =? 0 then Z.of_nat M else 0 | None => 0 end end.

Lemma rank_loop_spec sc e : dnum sc -> (forall y, y ∈ es -> snd y = e -> same y (sc, e) = true) ->
  let M := prefix_len (fun k => kle k (sc, e)) es in
  forall i a x b, (1 <= i <= zlevel z)%nat -> header z :: ns = a ++ x :: b -> (i <= hgt m x)%nat -> (length a <= M)%nat ->
  rank_loop i m sc e x (zlen a) = Some (rank_result e M).
Proof.
  intros Hsc Huniq M. pose proof (chain_length _ _ _ _ (rep_chain _ _ _ _ Hr)) as Hll.
  assert (HM : (M <= length es)%nat) by apply prefix_len_le.
  assert (Hcut : cut (fun y => kle y (sc, e)) es).
  { apply sorted_cut; [apply Hs|]. intros a b Ha Hb Hab. rewrite !kle_klt by done. rewrite !negb_true_iff. intros Hkb.
    apply not_true_iff_false. intros Hka. by rewrite (klt_trans (sc, e) a b) in Hkb. }
  induction i as [|i IH]; intros a x b Hi E Hx Ha; [lia|]. cbn [rank_loop].
  destruct (walk_rep M (fun n _ => xe ← ele n; Some (kle (score n, xe) (sc, e))) i a x b) as (a' & x' & b' & -> & E' & Ha' & Hx' & Hend); try done; try lia.
  { apply (rep_test m z ns es Hr (fun y => kle y (sc, e)) (fun n _ => xe ← ele n; Some (kle (score n, xe) (sc, e))) Hcut). intros n [s0 e0] r He Hsn. rewrite He. mrun. by rewrite Hsn. }
  mrun.
  assert (Hgo : forall r, (i = 0%nat -> length a' = M -> rank_result e M = 0) -> r = zlen a' -> rank_loop i m sc e x' r = Some (rank_result e M)).
  { intros r H0 ->. destruct i as [|i]; [|apply (IH a' x' b'); (done || lia)]. cbn [rank_loop]. f_equal. symmetry. apply H0; [done|].
    destruct (decide (length a' = M)) as [|Hne]; [done|]. rewrite (Hend eq_refl Hne) in E'. apply (f_equal length) in E'. rewrite length_app in E'. simpl in E'. lia. }
  destruct a' as [|h a'].
  - simpl in E'. injection E' as <- _. destruct (rep_hdr _ _ _ _ Hr) as [s0 Hh]. apply info_inv in Hh as (n & -> & Hele & _). mrun. rewrite Hele.
    apply Hgo; [|done]. intros _ <-. done.
  - injection E' as <- E'. assert (Hxl : ns !! length a' = Some x') by (rewrite E'; by apply list_lookup_middle).
    destruct (rep_node m z ns es _ x' Hr Hxl) as (y & n & Hy & -> & Hele & _). mrun. rewrite Hele. destruct (sdscmp (snd y) e =? 0) eqn:Ee.
    + f_equal. assert (Hsame : same y (sc, e) = true) by (apply Huniq; [by eapply list_elem_of_lookup_2|apply sdscmp_eq; lia]).
      unfold M. rewrite (kle_prefix _ y sc e Hy) by done. cbn [rank_result]. rewrite Hy, Ee. unfold zlen. simpl. done.
    + apply Hgo; [|done]. intros -> <-. cbn [length rank_result]. rewrite Hy, Ee. done.
Qed.

(** The rank of the entry at position [i] is [i+1]; a string that is not a member has
    rank 0. *)
Lemma zslGetRank_spec i y : es !! i = Some y -> zslGetRank m z (fst y) (snd y) = Some (Z.of_nat i + 1).
Proof.
  intros Hy. pose proof (sorted_ok _ (sset_sorted _ Hs)) as Hok. rewrite Forall_lookup in Hok. pose proof (Hok i y Hy) as Hyok.
  assert (Hself : same y (y.1, y.2) = true) by by apply same_spec.
  unfold zslGetRank. change 0 with (zlen (A := loc) []). pose proof (core_lv _ _ _ _ (rep_core _ _ _ _ Hr)).
  rewrite (rank_loop_spec y.1 y.2) with (b := ns); [|done| |lia|done| |simpl; lia].
  - rewrite (kle_prefix i y) by done. cbn [rank_result]. rewrite Hy. rewrite (proj2 (sdscmp_eq _ _) eq_refl). f_equal. cbn [Z.eqb]. lia.
  - intros w Hw Ew. apply list_elem_of_lookup in Hw as [j Hj]. assert (j = i) as ->; [|congruence].
    apply (NoDup_lookup (es.*2) _ _ y.2); [apply Hs| |]; rewrite list_lookup_fmap; [rewrite Hj; simpl; congruence|by rewrite Hy].
  - rewrite (core_hd _ _ _ _ (rep_core _ _ _ _ Hr)). lia.
Qed.

Lemma zslGetRank_absent sc e : dnum sc -> e ∉ es.*2 -> zslGetRank m z sc e = Some 0.
Proof.
  intros Hsc Hne. unfold zslGetRank. change 0 with (zlen (A := loc) []) at 1. pose proof (core_lv _ _ _ _ (rep_core _ _ _ _ Hr)).
  rewrite (rank_loop_spec sc e) with (b := ns); [|done| |lia|done| |simpl; lia].
  - f_equal. unfold rank_result. destruct (prefix_len _ _) as [|j]; [done|]. destruct (es !! j) as [y|] eqn:Hy; [|done].
    destruct (Z.eqb_spec (sdscmp y.2 e) 0) as [Ee|]; [|done]. apply sdscmp_eq in Ee. destruct Hne. apply list_elem_of_fmap. exists y. split; [done|by eapply list_elem_of_lookup_2].
  - intros w Hw Ew. destruct Hne. apply list_elem_of_fmap. by exists w.
  - rewrite (core_hd _ _ _ _ (rep_core _ _ _ _ Hr)). lia.
Qed.

(** The node at a rank; rank 0 is the header. *)
Lemma zslGetElementByRank_spec rank : 0 <= rank -> zslGetElementByRank m z rank = Some ((header z :: ns) !! Z.to_nat rank).
Proof.
  intros Hrk. unfold zslGetElementByRank. change 0 with (zlen (A := loc) []). pose proof (core_lv _ _ _ _ (rep_core _ _ _ _ Hr)).
  apply (by_rank_loop_spec rank Hrk (zlevel z) [] (header z) ns); [lia|done| |done].
  rewrite (core_hd _ _ _ _ (rep_core _ _ _ _ Hr)). lia.
Qed.
End Ranks.

(** ** Ranges *)

(** [r] is the node of the first, or the last, entry in the range; [None] when there is none. *)
Definition is_first (inr : entry -> bool) (ns : list loc) (es : list entry) (r : option loc) : Prop :=
  match r with
  | Some x => exists i y, ns !! i = Some x /\ es !! i = Some y /\ inr y = true /\ forall j w, (j < i)%nat -> es !! j = Some w -> inr w = false
  | None => Forall (fun y => inr y = false) es
  end.

Definition is_last (inr : entry -> bool) (ns : list loc) (es : list entry) (r : option loc) : Prop :=
  match r with
  | Some x => exists i y, ns !! i = Some x /\ es !! i = Some y /\ inr y = true /\ forall j w, (i < j)%nat -> es !! j = Some w -> inr w = false
  | None => Forall (fun y => inr y = false) es
  end.

Section Ranges.
Context (m : mem) (z : zskiplist) (ns : list loc) (es : list entry).
Hypothesis Hr : rep m z ns es.
Hypothesis Hlen : zlen es < 2 ^ 32 - 1.

(** A lower and an upper test, on entries and on nodes. *)
Context (gte lte : entry -> bool) (gten lten : zskiplistNode -> option bool).
Hypothesis Hgten : forall n y, ele n = Some (snd y) -> score n = fst y -> gten n = Some (gte y).
Hypothesis Hlten : forall n y, ele n = Some (snd y) -> score n = fst y -> lten n = Some (lte y).
Hypothesis Hgcut : cut (fun y => negb (gte y)) es.
Hypothesis Hlcut : cut lte es.

Let inr (y : entry) : bool := gte y && lte y.

Let Hll : length ns = length es.
Proof. exact (chain_length _ _ _ _ (rep_chain _ _ _ _ Hr)). Qed.

Lemma ends_spec : exists b, in_range_ends m z gten lten = Some b /\
  if (b : bool) then (exists y, last es = Some y /\ gte y = true) /\ (exists y, es !! 0%nat = Some y /\ lte y = true) else Forall (fun y => inr y = false) es.
Proof.
  unfold in_range_ends. rewrite (rep_tail _ _ _ _ Hr). destruct (last ns) as [t|] eqn:Et.
  2:{ exists false. split; [done|]. apply last_None in Et as ->. destruct es; [constructor|done]. }
  pose proof Et as Et'. rewrite last_lookup in Et. destruct (rep_node m z ns es _ t Hr Et) as (y & n & Hy & -> & He & Hsc & _). mrun. rewrite (Hgten n y) by done. mrun.
  rewrite Hll in Hy. destruct (gte y) eqn:Eg; cbn [negb].
  2:{ exists false. split; [done|]. apply Forall_lookup. intros i w Hw. unfold inr. destruct (gte w) eqn:Ew; [|done]. exfalso.
      destruct (decide (i = pred (length es))) as [->|]; [congruence|]. pose proof (lookup_lt_Some _ _ _ Hw).
      pose proof (Hgcut i (pred (length es)) w y ltac:(lia) Hw Hy) as Hc. cbv beta in Hc. rewrite Eg, Ew in Hc. by specialize (Hc eq_refl). }
  pose proof (rep_core _ _ _ _ Hr) as Hc. rewrite (core_links _ _ _ _ Hc [] (header z) ns 0) by (done || (pose proof (core_lv _ _ _ _ Hc); lia) || (rewrite (core_hd _ _ _ _ Hc); unfold ZSKIPLIST_MAXLEVEL; lia)).
  mrun. pose proof (rep_next m z ns es 0 Hr) as Hn. change (drop 0 ns) with ns in Hn. rewrite Hn. destruct ns as [|x ns'] eqn:Ens; [done|]. cbn [forward].
  destruct (rep_node m z (x :: ns') es 0 x Hr eq_refl) as (w & n0 & Hw & -> & He0 & Hsc0 & _). mrun. rewrite (Hlten n0 w) by done.
  exists (lte w). split; [done|]. destruct (lte w) eqn:Ew; [split; [|by exists w]; exists y; by rewrite last_lookup|].
  apply Forall_lookup. intros i v Hv. unfold inr. destruct (lte v) eqn:Ev; [|by rewrite andb_false_r]. exfalso. destruct i as [|i]; [congruence|].
  by rewrite (Hlcut 0%nat (S i) w v ltac:(lia) Hw Hv Ev) in Ew.
Qed.

Lemma add64_list r s : 0 <= r -> 0 < s -> r + s <= zlen ns -> add64 r s = r + s.
Proof. intros. apply (add64_ok ns); try done. rewrite (rep_zlen _ _ _ _ Hr). lia. Qed.

Lemma first_spec : (exists y, last es = Some y /\ gte y = true) ->
  exists r, ('(x, _) ← descend (zlevel z) m (fun n _ => negb <$> gten n) add64 (header z) 0;
    l ← get_level m x 0; x ← forward l; n ← m !! x; b ← lten n; Some (if negb (b : bool) then None else Some x)) = Some r /\ is_first inr ns es r.
Proof.
  intros (yl & Hl & Hgl). destruct (rep_search m z ns es Hr (fun y => negb (gte y)) (fun n _ => negb <$> gten n) add64 Hgcut) as (a & x0 & us & _ & -> & _ & _ & _ & Hg).
  { intros n y r He Hsc. by rewrite (Hgten n y). } { apply add64_list. }
  mrun. rewrite Hg, (rep_next m z ns es) by done. mrun. set (M := prefix_len _ es).
  assert (HM : (M < length es)%nat).
  { rewrite last_lookup in Hl. pose proof (cut_lookup _ _ Hgcut _ yl Hl) as Hc. cbv beta in Hc. rewrite Hgl in Hc. symmetry in Hc. apply bool_decide_eq_false in Hc.
    destruct es; [done|]. cbn [length pred] in *. fold M in Hc. lia. }
  destruct (lookup_lt_is_Some_2 ns M) as [x Hx]; [lia|]. rewrite (drop_S ns x M Hx). cbn [forward]. mrun.
  destruct (rep_node m z ns es M x Hr Hx) as (y & n & Hy & -> & He & Hsc & _). mrun. rewrite (Hlten n y) by done. mrun.
  assert (Hbelow : forall j w, (j < M)%nat -> es !! j = Some w -> inr w = false).
  { intros j w Hj Hw. pose proof (cut_lookup _ _ Hgcut j w Hw) as Hc. cbv beta in Hc. rewrite bool_decide_true in Hc by done. unfold inr. destruct (gte w); done. }
  assert (Hgy : gte y = true).
  { pose proof (cut_lookup _ _ Hgcut M y Hy) as Hc. cbv beta in Hc. rewrite bool_decide_false in Hc by (fold M; lia). by destruct (gte y). }
  eexists. split; [done|]. destruct (lte y) eqn:Ely; cbn [negb is_first].
  - exists M, y. split_and!; try done. unfold inr. by rewrite Hgy, Ely.
  - apply Forall_lookup. intros i w Hw. destruct (decide (i < M)%nat); [by eapply Hbelow|]. unfold inr. destruct (lte w) eqn:Ew; [|by rewrite andb_false_r].
    exfalso. destruct (decide (i = M)) as [->|]; [congruence|]. by rewrite (Hlcut M i y w ltac:(lia) Hy Hw Ew) in Ely.
Qed.

Lemma last_spec : (exists y, es !! 0%nat = Some y /\ lte y = true) ->
  exists r, ('(x, _) ← descend (zlevel z) m (fun n _ => lten n) add64 (header z) 0;
    n ← m !! x; b ← gten n; Some (if negb (b : bool) then None else Some x)) = Some r /\ is_last inr ns es r.
Proof.
  intros (y0 & H0 & Hl0). destruct (rep_search m z ns es Hr lte (fun n _ => lten n) add64 Hlcut) as (a & x & us & Ea & -> & _ & _ & _ & _).
  { intros n y r He Hsc. by rewrite (Hlten n y). } { apply add64_list. }
  mrun. set (M := prefix_len lte es) in *.
  assert (HM0 : (0 < M)%nat) by (pose proof (cut_lookup _ _ Hlcut _ y0 H0) as Hc; rewrite Hl0 in Hc; symmetry in Hc; by apply bool_decide_eq_true in Hc).
  assert (HM : (M <= length es)%nat) by apply prefix_len_le.
  assert (Hx : ns !! pred M = Some x).
  { apply (f_equal last) in Ea. rewrite last_snoc, last_cons, last_lookup, length_take, Nat.min_l, lookup_take in Ea by lia.
    rewrite decide_True in Ea by lia. destruct (lookup_lt_is_Some_2 ns (pred M)) as [x' Hx']; [lia|]. rewrite Hx' in Ea. congruence. }
  destruct (rep_node m z ns es _ x Hr Hx) as (y & n & Hy & -> & He & Hsc & _). mrun. rewrite (Hgten n y) by done. mrun.
  assert (Habove : forall j w, (pred M < j)%nat -> es !! j = Some w -> inr w = false).
  { intros j w Hj Hw. pose proof (cut_lookup _ _ Hlcut j w Hw) as Hc. rewrite bool_decide_false in Hc by (fold M; lia). unfold inr. rewrite Hc. apply andb_false_r. }
  assert (Hly : lte y = true) by (rewrite (cut_lookup _ _ Hlcut _ y Hy); apply bool_decide_true; fold M; lia).
  eexists. split; [done|]. destruct (gte y) eqn:Egy; cbn [negb is_last].
  - exists (pred M), y. split_and!; try done. unfold inr. by rewrite Egy, Hly.
  - apply Forall_lookup. intros i w Hw. destruct (decide (pred M < i)%nat); [by eapply Habove|]. unfold inr. destruct (gte w) eqn:Ew; [|done].
    exfalso. destruct (decide (i = pred M)) as [->|]; [congruence|]. pose proof (Hgcut i (pred M) w y ltac:(lia) Hw Hy) as Hc. cbv beta in Hc. rewrite Egy, Ew in Hc. by specialize (Hc eq_refl).
Qed.
End Ranges.

(** Ranges of scores. *)
Definition in_range (r : zrangespec) (y : entry) : bool := zslValueGteMin (fst y) r && zslValueLteMax (fst y) r.

Lemma empty_range r v : dnum (min r) -> dnum (max r) -> dnum v ->
  dlt (max r) (min r) || (deq (min r) (max r) && (minex r || maxex r)) = true -> zslValueGteMin v r && zslValueLteMax v r = false.
Proof.
  intros Hmn Hmx Hv He. apply not_true_is_false. rewrite andb_true_iff. unfold zslValueGteMin, zslValueLteMax.
  rewrite orb_true_iff, andb_true_iff, orb_true_iff, dlt_key, deq_key in He by done.
  destruct (dkey (min r)) as [[a1 a2] a3] eqn:Ea, (dkey (max r)) as [[b1 b2] b3] eqn:Eb, (dkey v) as [[v1 v2] v3] eqn:Ev.
  destruct (minex r), (maxex r); rewrite ?dlt_key, ?dle_key, Ea, Eb, Ev by done; simpl in *; destruct He as [?|[[= -> -> ->] ?]]; try lia;
    destruct_or?; try done; lia.
Qed.

Lemma score_cuts es r : sorted es -> dnum (min r) -> dnum (max r) ->
  cut (fun y => negb (zslValueGteMin (fst y) r)) es /\ cut (fun y => zslValueLteMax (fst y) r) es.
Proof.
  intros Hs Hmn Hmx. split; (apply sorted_cut; [done|]); intros a b Ha Hb Hab.
  - rewrite !negb_true_iff, <- !not_true_iff_false. intros Hn Hg. apply Hn. apply (gteMin_mono (fst a) (fst b)); try done. by apply klt_dle.
  - intros Hl. apply (lteMax_mono (fst a) (fst b)); try done. by apply klt_dle.
Qed.

(** Ranges of members, in a set where all scores are equal. *)
Definition in_lex_range (r : zlexrangespec) (y : entry) : bool := zslLexValueGteMin (snd y) r && zslLexValueLteMax (snd y) r.

Definition same_score (es : list entry) : Prop := forall a b, a ∈ es -> b ∈ es -> dkey (fst a) = dkey (fst b).

Lemma empty_lex_range r v : let cmp := sdscmplex (lmin r) (lmax r) in
  (cmp >? 0) || ((cmp =? 0) && (lminex r || lmaxex r)) = true -> zslLexValueGteMin v r && zslLexValueLteMax v r = false.
Proof.
  intros cmp He. apply not_true_is_false. rewrite andb_true_iff. unfold zslLexValueGteMin, zslLexValueLteMax, cmp in *. clear cmp.
  rewrite orb_true_iff, andb_true_iff, orb_true_iff, Z.gtb_lt, Z.eqb_eq in He.
  assert (Hord : forall a b, sdscmp v a >= 0 -> sdscmp v b <= 0 -> sdscmp a b <= 0 /\ (sdscmp a b = 0 -> sdscmp v a = 0 /\ sdscmp v b = 0)).
  { intros a b Ha Hb. pose proof (sdscmp_opp v a) as Hop. destruct (Z.eq_dec (sdscmp v a) 0) as [Eva|Nva].
    - apply sdscmp_eq in Eva as <-. split; [done|]. intros ?. split; [by apply sdscmp_eq|done].
    - assert (sdscmp a v < 0) by lia. destruct (Z.eq_dec (sdscmp v b) 0) as [Evb|Nvb]; [apply sdscmp_eq in Evb as <-; lia|].
      pose proof (sdscmp_trans a v b). lia. }
  destruct (lmin r) as [| |a], (lmax r) as [| |b]; simpl in *; destruct (lminex r), (lmaxex r); rewrite ?Z.gtb_lt, ?Z.geb_le, ?Z.ltb_lt, ?Z.leb_le; try lia;
    try (destruct_or?; destruct_and?; naive_solver lia);
    specialize (Hord a b); intros [H1 H2]; destruct Hord as [Hle Heq]; try lia; destruct He as [?|[He ?]]; try lia; specialize (Heq He); try lia; naive_solver.
Qed.

Lemma lex_cuts es r : sorted es -> same_score es ->
  cut (fun y => negb (zslLexValueGteMin (snd y) r)) es /\ cut (fun y => zslLexValueLteMax (snd y) r) es.
Proof.
  intros [Hs Hok] Heq. rewrite Forall_forall in Hok.
  assert (Hlt : forall i j a b, (i < j)%nat -> es !! i = Some a -> es !! j = Some b -> sdscmp (snd a) (snd b) < 0).
  { intros i j a b Hij Hi Hj. pose proof (StronglySorted_lookup _ es i j a b Hs Hij Hi Hj) as Hab. simpl in Hab.
    apply list_elem_of_lookup_2 in Hi, Hj. rewrite klt_spec in Hab by auto. rewrite (Heq a b) in Hab by done.
    destruct Hab as [Hab|[_ Hab]]; [by apply key_lt_irrefl in Hab|done]. }
  split; intros i j a b Hij Hi Hj.
  - rewrite !negb_true_iff, <- !not_true_iff_false. intros Hn Hg. apply Hn. apply (lexGteMin_mono (snd a)); [by eapply Hlt|done].
  - intros Hl. apply (lexLteMax_mono _ (snd b)); [by eapply Hlt|done].
Qed.

Section RangeOps.
Context (m : mem) (z : zskiplist) (ns : list loc) (es : list entry).
Hypothesis Hr : rep m z ns es.
Hypothesis Hs : sset es.
Hypothesis Hlen : zlen es < 2 ^ 32 - 1.

Lemma score_range_spec r : dnum (min r) -> dnum (max r) ->
  exists f l, zslFirstInRange m z r = Some f /\ is_first (in_range r) ns es f /\ zslLastInRange m z r = Some l /\ is_last (in_range r) ns es l.
Proof.
  intros Hmn Hmx. destruct (score_cuts es r (sset_sorted _ Hs) Hmn Hmx) as [Hg Hl].
  pose proof (sorted_ok _ (sset_sorted _ Hs)) as Hok.
  set (gten := fun n => Some (zslValueGteMin (score n) r)). set (lten := fun n => Some (zslValueLteMax (score n) r)).
  assert (Hgn : forall n (y : entry), ele n = Some (snd y) -> score n = fst y -> gten n = Some (zslValueGteMin (fst y) r)) by (intros n y _ E; unfold gten; by rewrite E).
  assert (Hln : forall n (y : entry), ele n = Some (snd y) -> score n = fst y -> lten n = Some (zslValueLteMax (fst y) r)) by (intros n y _ E; unfold lten; by rewrite E).
  unfold zslFirstInRange, zslLastInRange, zslIsInRange. destruct (dlt (max r) (min r) || _) eqn:Ee.
  { mrun. cbn [negb]. assert (Hnone : Forall (fun y => in_range r y = false) es).
    { eapply Forall_impl; [exact Hok|]. intros y Hy. by apply empty_range. }
    by exists None, None. }
  destruct (ends_spec m z ns es Hr Hlen _ _ gten lten Hgn Hln Hg Hl) as (b & Eb & Hb). unfold gten, lten in Eb. rewrite Eb. mrun. destruct b; cbn [negb].
  - destruct Hb as [Hb1 Hb2]. destruct (first_spec m z ns es Hr Hlen _ _ gten lten Hgn Hln Hg Hl Hb1) as (f & Ef & Hf).
    destruct (last_spec m z ns es Hr Hlen _ _ gten lten Hgn Hln Hg Hl Hb2) as (l & El & Hl'). exists f, l. done.
  - by exists None, None.
Qed.

Lemma lex_range_spec r : same_score es ->
  exists f l, zslFirstInLexRange m z r = Some f /\ is_first (in_lex_range r) ns es f /\ zslLastInLexRange m z r = Some l /\ is_last (in_lex_range r) ns es l.
Proof.
  intros Heq. destruct (lex_cuts es r (sset_sorted _ Hs) Heq) as [Hg Hl].
  assert (Hgn : forall n (y : entry), ele n = Some (snd y) -> score n = fst y -> lex_gte r n = Some (zslLexValueGteMin (snd y) r)) by (intros n y E _; unfold lex_gte; by rewrite E).
  assert (Hln : forall n (y : entry), ele n = Some (snd y) -> score n = fst y -> lex_lte r n = Some (zslLexValueLteMax (snd y) r)) by (intros n y E _; unfold lex_lte; by rewrite E).
  unfold zslFirstInLexRange, zslLastInLexRange, zslIsInLexRange. destruct ((sdscmplex _ _ >? 0) || _) eqn:Ee.
  { mrun. cbn [negb]. assert (Hnone : Forall (fun y => in_lex_range r y = false) es).
    { apply Forall_forall. intros y _. by apply empty_lex_range. }
    by exists None, None. }
  destruct (ends_spec m z ns es Hr Hlen _ _ (lex_gte r) (lex_lte r) Hgn Hln Hg Hl) as (b & -> & Hb). mrun. destruct b; cbn [negb].
  - destruct Hb as [Hb1 Hb2]. destruct (first_spec m z ns es Hr Hlen _ _ (lex_gte r) (lex_lte r) Hgn Hln Hg Hl Hb1) as (f & Ef & Hf).
    destruct (last_spec m z ns es Hr Hlen _ _ (lex_gte r) (lex_lte r) Hgn Hln Hg Hl Hb2) as (l & El & Hl'). exists f, l. done.
  - by exists None, None.
Qed.
End RangeOps.

(** ** Deleting ranges *)

Section DeleteRanges.
Context {D : Type} (dictDelete : D -> sds -> option D).

(** The same deletions from the hash table, in the order of the list. *)
Fixpoint delete_all (d : D) (ks : list sds) : option D :=
  match ks with
  | [] => Some d
  | k :: ks => d ← dictDelete d k; delete_all d ks
  end.

Lemma delete_loop_spec cont p ep us : length p = length ep -> forall N fuel m z q eq d d' trav removed,
  rep m z (p ++ q) (ep ++ eq) -> upds (hgt m) (header z :: p) us (zlevel z) -> zlen (p ++ q) < 2 ^ 32 ->
  (N <= length eq)%nat -> (N <= fuel)%nat -> 0 <= trav /\ trav + Z.of_nat N < 2 ^ 63 -> 0 <= removed /\ removed + Z.of_nat N < 2 ^ 63 ->
  (forall i y n, eq !! i = Some y -> ele n = Some (snd y) -> score n = fst y -> cont n (trav + Z.of_nat i) = Some (bool_decide (i < N)%nat)) ->
  delete_all d ((take N eq).*2) = Some d' ->
  exists m' z', delete_loop dictDelete fuel cont m z d us (head q) trav removed = Some (m', z', d', removed + Z.of_nat N) /\
    rep m' z' (p ++ drop N q) (ep ++ drop N eq) /\ (dom m' : gset loc) = dom m ∖ list_to_set (take N q) /\ header z' = header z.
Proof.
  intros Hll. induction N as [|N IH]; intros fuel m z q eq d d' trav removed Hr Hus Hlen HN Hfuel Htr Hrm Hcont Hd.
  { exists m, z. rewrite !drop_0. simpl in Hd. injection Hd as ->. split_and!; try done; [|simpl; by rewrite difference_empty_L].
    rewrite Z.add_0_r. destruct q as [|x q]; [by destruct fuel|]. destruct (rep_node m z _ _ (length p) x Hr) as (y & n & Hy & En & He & Hsc & _).
    { by apply list_lookup_middle. }
    rewrite lookup_app_r in Hy by lia. rewrite Hll, Nat.sub_diag in Hy. pose proof (Hcont 0%nat y n Hy He Hsc) as Hc. rewrite Z.add_0_r in Hc.
    destruct fuel; cbn [head delete_loop]; rewrite En; mrun; rewrite Hc; done. }
  destruct fuel as [|fuel]; [lia|]. destruct eq as [|y eq]; [simpl in HN; lia|].
  assert (Hlq : length q = length (y :: eq)) by (pose proof (chain_length _ _ _ _ (rep_chain _ _ _ _ Hr)) as Hl; rewrite !length_app in Hl; lia).
  destruct q as [|x q]; [done|]. destruct (rep_node m z _ _ (length p) x Hr) as (y' & n & Hy & En & He & Hsc & _); [by apply list_lookup_middle|].
  rewrite Hll, list_lookup_middle in Hy by done. injection Hy as <-. cbn [head delete_loop]. rewrite En. mrun.
  pose proof (Hcont 0%nat y n eq_refl He Hsc) as Hc. rewrite Z.add_0_r in Hc. rewrite Hc. mrun. cbn [negb].
  rewrite bool_decide_true by lia. cbn [negb].
  pose proof (rep_core _ _ _ _ Hr) as Hco.
  assert (Hl0 : level n !! 0%nat = Some (match q with [] => mkLevel None 0 | f :: _ => mkLevel (Some f) 1 end)).
  { assert (get_level m x 0 = Some (link_of (hgt m) 0 q)) as Hg.
    { apply (core_links _ _ _ _ Hco (header z :: p)); [done|pose proof (core_lv _ _ _ _ Hco); lia|]. apply (core_pos _ _ _ _ Hco). set_solver. }
    unfold get_level in Hg. rewrite En in Hg. mrun. cbn [mbind option_bind] in Hg. rewrite Hg. unfold link_of.
    pose proof (core_all _ _ _ _ Hco) as Hall. rewrite Forall_cons, Forall_app, Forall_cons in Hall. rewrite hop_zero by tauto. by destruct q. }
  rewrite Hl0. mrun.
  destruct (zslDeleteNode_rep m z p q x ep eq y us Hr Hll Hus Hlen) as (m1 & z1 & -> & Hr1 & Hdom1 & Hh1 & Hus1). mrun. rewrite He. mrun.
  simpl in Hd. destruct (dictDelete d y.2) as [d1|]; [|done]. mrun. cbn [mbind option_bind] in Hd.
  pose proof (core_nodup _ _ _ _ Hco) as Hn. rewrite app_comm_cons, <- Permutation_middle in Hn. apply NoDup_cons in Hn as [Hxn _].
  destruct (rep_free m1 z1 _ _ x Hr1) as (m2 & -> & Hr2 & Hdom2 & Hm2); [rewrite Hdom1; apply elem_of_dom; by eexists|by rewrite Hh1|]. mrun.
  rewrite !zlen_app, !zlen_cons in Hlen. pose proof (zlen_nonneg p). pose proof (zlen_nonneg q).
  assert (Hht : (N <= length q)%nat) by (simpl in *; lia). unfold zlen in Hlen.
  destruct (IH fuel m2 z1 q eq d1 d' (trav + 1) (removed + 1)) as (m' & z' & E & Hr' & Hdom' & Hh'); try done.
  - rewrite Hh1. apply (upds_hgt (hgt m1)); [|done]. intros w Hw. unfold hgt. rewrite Hm2; [done|]. intros ->. set_solver.
  - rewrite zlen_app. unfold zlen. lia.
  - simpl in HN. lia.
  - lia.
  - lia.
  - lia.
  - intros i w n0 Hi He0 Hs0. pose proof (Hcont (S i) w n0 Hi He0 Hs0) as Hc'. replace (trav + 1 + Z.of_nat i) with (trav + Z.of_nat (S i)) by lia.
    rewrite Hc'. f_equal. apply bool_decide_ext. lia.
  - exists m', z'. split_and!; try done; [|rewrite Hdom', Hdom2, Hdom1; simpl; set_solver|by rewrite Hh'].
    rewrite !u64_small by lia. replace (forward _) with (head q) by by destruct q. rewrite E. do 2 f_equal. lia.
Qed.

Section Given.
Context (m : mem) (z : zskiplist) (ns : list loc) (es : list entry).
Hypothesis Hr : rep m z ns es.
Hypothesis Hlen : zlen es < 2 ^ 32 - 1.

Let Hll : length ns = length es.
Proof. exact (chain_length _ _ _ _ (rep_chain _ _ _ _ Hr)). Qed.

(** Skip [M] entries, then delete [N]. *)
Lemma delete_range_spec skip cont M N d d' :
  (forall a f b n, header z :: ns = a ++ f :: b -> a <> [] -> m !! f = Some n -> skip n (zlen a) = Some (bool_decide (length a <= M)%nat)) ->
  (M + N <= length es)%nat ->
  (forall i y n, es !! (M + i)%nat = Some y -> ele n = Some (snd y) -> score n = fst y -> cont n (Z.of_nat M + 1 + Z.of_nat i) = Some (bool_decide (i < N)%nat)) ->
  delete_all d ((take N (drop M es)).*2) = Some d' ->
  exists m' z', delete_range dictDelete skip cont m z d = Some (m', z', d', Z.of_nat N) /\
    rep m' z' (take M ns ++ drop (M + N) ns) (take M es ++ drop (M + N) es) /\
    (dom m' : gset loc) = dom m ∖ list_to_set (take N (drop M ns)) /\ header z' = header z.
Proof.
  intros Hskip HMN Hcont Hd. unfold delete_range. pose proof (rep_core _ _ _ _ Hr) as Hc. unfold zlen in Hlen.
  destruct (zsl_search_spec m (header z) ns (zlevel z) Hc M skip add64 Hskip) as (a & y & us & _ & -> & Hu0 & _ & Hus & Hg); [|lia|].
  { intros r s0 ? ? ?. apply (add64_ok ns); try done. unfold zlen. lia. }
  mrun. rewrite Hg, (rep_next m z ns es) by done. mrun. rewrite Hu0. mrun.
  destruct (delete_loop_spec cont (take M ns) (take M es) us) with (N := N) (fuel := size m) (m := m) (z := z) (q := drop M ns) (eq := drop M es)
    (d := d) (d' := d') (trav := Z.of_nat M + 1) (removed := 0) as (m' & z' & E & Hr' & Hdom & Hh); try done.
  - by apply (rep_zip_len m z).
  - by rewrite !take_drop.
  - rewrite take_drop. unfold zlen. lia.
  - rewrite length_drop. lia.
  - pose proof (core_size _ _ _ _ Hc) as Hsz. simpl in Hsz. lia.
  - lia.
  - lia.
  - intros i w n Hi. rewrite lookup_drop in Hi. by apply Hcont.
  - exists m', z'. rewrite u64_small by lia. rewrite !drop_drop in Hr'. split_and!; try done.
    replace (forward _) with (head (drop M ns)) by by destruct (drop M ns). done.
Qed.

(** A range given by a lower and an upper test deletes what lies in it. *)
Lemma delete_tests_spec (gte lte : entry -> bool) skip cont d d' :
  cut (fun y => negb (gte y)) es -> cut lte es ->
  (forall n y r, ele n = Some (snd y) -> score n = fst y -> entry_ok y -> skip n r = Some (negb (gte y))) ->
  (forall n y r, ele n = Some (snd y) -> score n = fst y -> entry_ok y -> cont n r = Some (lte y)) -> Forall entry_ok es ->
  let gone := filter (fun y => gte y && lte y = true) es in
  delete_all d (gone.*2) = Some d' ->
  exists m' z' ns' xs, delete_range dictDelete skip cont m z d = Some (m', z', d', zlen gone) /\
    rep m' z' ns' (filter (fun y => gte y && lte y = false) es) /\ length xs = length gone /\
    zip ns es ≡ₚ zip ns' (filter (fun y => gte y && lte y = false) es) ++ zip xs gone /\
    (dom m' : gset loc) = dom m ∖ list_to_set xs /\ header z' = header z.
Proof.
  intros Hg Hl Hskip Hcont Hok gone Hd. set (M := prefix_len (fun y => negb (gte y)) es). set (N := prefix_len lte (drop M es)).
  assert (Hld : cut lte (drop M es)).
  { intros i j a b Hij Hi Hj. rewrite lookup_drop in Hi, Hj. apply (Hl (M + i)%nat (M + j)%nat); [lia|done|done]. }
  pose proof (cut_take (fun y => negb (gte y)) es) as HA. pose proof (cut_drop _ _ Hg) as HBC. fold M in HA, HBC.
  pose proof (cut_take lte (drop M es)) as HB. pose proof (cut_drop _ _ Hld) as HC. fold N in HB, HC. rewrite drop_drop in HC.
  assert (HM : (M <= length es)%nat) by apply prefix_len_le.
  assert (HN : (M + N <= length es)%nat) by (pose proof (prefix_len_le lte (drop M es)) as Hp; rewrite length_drop in Hp; fold N in Hp; lia).
  assert (Esplit : es = take M es ++ take N (drop M es) ++ drop (M + N) es) by (rewrite <- (drop_drop _ N M), !take_drop; done).
  rewrite Esplit in HBC at 1. rewrite drop_app_length' in HBC by (rewrite length_take; lia). apply Forall_app in HBC as [HBg _].
  assert (Egone : gone = take N (drop M es)).
  { unfold gone. rewrite Esplit at 1. rewrite !filter_app. rewrite filter_none, filter_all, filter_none; [by rewrite app_nil_r| | |].
    - eapply Forall_impl; [exact HC|]. simpl. intros y ->. rewrite andb_false_r. done.
    - rewrite Forall_forall in *. intros y Hy. specialize (HB y Hy). specialize (HBg y Hy). simpl in *. apply negb_false_iff in HBg. by rewrite HB, HBg.
    - eapply Forall_impl; [exact HA|]. simpl. intros y Hy. apply negb_true_iff in Hy. by rewrite Hy. }
  assert (Ekeep : filter (fun y => gte y && lte y = false) es = take M es ++ drop (M + N) es).
  { rewrite Esplit at 1. rewrite !filter_app. rewrite (filter_all _ (take M es)), filter_none, filter_all; [done| | |].
    - eapply Forall_impl; [exact HC|]. simpl. intros y ->. apply andb_false_r.
    - rewrite <- Egone. unfold gone. apply Forall_forall. intros y [Hy _]%list_elem_of_filter. by rewrite Hy.
    - eapply Forall_impl; [exact HA|]. simpl. intros y Hy. apply negb_true_iff in Hy. by rewrite Hy. }
  rewrite Forall_lookup in Hok.
  destruct (delete_range_spec skip cont M N d d') as (m' & z' & E & Hr' & Hdom & Hh); [|done| |by rewrite <- Egone|].
  - intros a f b n Es Ha En. destruct a as [|h a]; [done|]. injection Es as _ Es.
    assert (Hf : ns !! length a = Some f) by (rewrite Es; by apply list_lookup_middle).
    destruct (rep_node m z ns es _ f Hr Hf) as (y & n' & Hy & En' & He & Hsc & _). rewrite En in En'. injection En' as <-.
    rewrite (Hskip n y) by (done || by apply (Hok (length a))). pose proof (cut_lookup _ _ Hg _ y Hy) as Hc. cbv beta in Hc. rewrite Hc. done.
  - intros i y n Hy He Hsc. rewrite (Hcont n y) by (done || by apply (Hok (M + i)%nat)). rewrite <- lookup_drop in Hy. by rewrite (cut_lookup _ _ Hld i y Hy).
  - exists m', z', (take M ns ++ drop (M + N) ns), (take N (drop M ns)). rewrite Ekeep, Egone. split_and!; try done.
    + rewrite E. do 2 f_equal. unfold zlen. rewrite length_take, length_drop. lia.
    + rewrite !length_take, !length_drop. lia.
    + by apply zip_cut.
Qed.
End Given.

Lemma dle_dlt a b : dnum a -> dnum b -> dle a b = negb (dlt b a).
Proof. intros Ha Hb. apply eq_iff_eq_true. rewrite dle_key, negb_true_iff, <- not_true_iff_false, dlt_key by done. done. Qed.

(** Deleting a range of scores. *)
Lemma score_delete_spec m z ns es (Hr : rep m z ns es) (Hs : sset es) (Hlen : zlen es < 2 ^ 32 - 1) r (Hmn : dnum (min r)) (Hmx : dnum (max r)) d d' :
  delete_all d ((filter (fun y => in_range r y = true) es).*2) = Some d' ->
  exists m' z' ns' xs, zslDeleteRangeByScore dictDelete m z r d = Some (m', z', d', zlen (filter (fun y => in_range r y = true) es)) /\
    rep m' z' ns' (filter (fun y => in_range r y = false) es) /\ length xs = length (filter (fun y => in_range r y = true) es) /\
    zip ns es ≡ₚ zip ns' (filter (fun y => in_range r y = false) es) ++ zip xs (filter (fun y => in_range r y = true) es) /\
    (dom m' : gset loc) = dom m ∖ list_to_set xs /\ header z' = header z.
Proof.
  intros Hdel. destruct (score_cuts es r (sset_sorted _ Hs) Hmn Hmx) as [Hg Hc].
  apply (delete_tests_spec m z ns es Hr Hlen (fun y => zslValueGteMin (fst y) r) (fun y => zslValueLteMax (fst y) r)); try done.
  - intros n y _ _ Hsc Hy. rewrite Hsc. unfold zslValueGteMin. f_equal. destruct (minex r); [by apply dle_dlt|]. by rewrite dle_dlt, negb_involutive.
  - intros n y _ _ Hsc Hy. by rewrite Hsc.
  - apply Hs.
Qed.

End DeleteRanges.

(** ** Reading a list, forwards and backwards *)

Fixpoint collect (next : zskiplistNode -> option (option loc)) (fuel : nat) (m : mem) (p : option loc) : option (list entry) :=
  match p with
  | None => Some []
  | Some x =>
      match fuel with
      | O => None
      | S fuel => n ← m !! x; e ← ele n; p ← next n; es ← collect next fuel m p; Some ((score n, e) :: es)
      end
  end.

Definition zsl_entries (m : mem) (z : zskiplist) : option (list entry) :=
  l ← get_level m (header z) 0; collect (fun n => l ← level n !! 0%nat; Some (forward l)) (size m) m (forward l).

Definition zsl_entries_back (m : mem) (z : zskiplist) : option (list entry) :=
  collect (fun n => Some (backward n)) (size m) m (tail z).

Lemma collect_forward m z ns es : rep m z ns es -> forall i fuel, (length ns - i <= fuel)%nat ->
  collect (fun n => l ← level n !! 0%nat; Some (forward l)) fuel m (ns !! i) = Some (drop i es).
Proof.
  intros Hr. pose proof (rep_core _ _ _ _ Hr) as Hc. pose proof (chain_length _ _ _ _ (rep_chain _ _ _ _ Hr)) as Hll.
  assert (Hgo : forall fuel i, (length ns - i <= fuel)%nat -> collect (fun n => l ← level n !! 0%nat; Some (forward l)) fuel m (ns !! i) = Some (drop i es)).
  2:{ intros. by apply Hgo. }
  induction fuel as [|fuel IH]; intros i Hf.
  { rewrite lookup_ge_None_2 by lia. rewrite drop_ge by lia. done. }
  destruct (ns !! i) as [x|] eqn:Ex; [|apply lookup_ge_None in Ex; rewrite drop_ge by lia; done].
  destruct (rep_node m z ns es i x Hr Ex) as (y & n & Hy & En & He & Hsc & _). cbn [collect]. rewrite En. mrun. rewrite He. mrun.
  assert (Hl0 : level n !! 0%nat = Some (link_of (hgt m) 0 (drop (S i) ns))).
  { assert (get_level m x 0 = Some (link_of (hgt m) 0 (drop (S i) ns))) as Hg.
    { apply (core_links _ _ _ _ Hc (header z :: take i ns)); [simpl; f_equal; symmetry; by apply take_drop_middle|pose proof (core_lv _ _ _ _ Hc); lia|].
      apply (core_pos _ _ _ _ Hc). right. by eapply list_elem_of_lookup_2. }
    unfold get_level in Hg. by rewrite En in Hg. }
  rewrite Hl0. mrun. rewrite (rep_next m z ns es) by done.
  replace (forward _) with (ns !! S i).
  2:{ rewrite <- (Nat.add_0_r (S i)), <- lookup_drop. rewrite Nat.add_0_r. by destruct (drop (S i) ns). }
  rewrite IH by (apply lookup_lt_Some in Ex; lia). mrun. rewrite (drop_S es y i Hy), Hsc. by destruct y.
Qed.

Lemma collect_backward m z ns es : rep m z ns es -> forall i fuel, (i <= length ns)%nat -> (i <= fuel)%nat ->
  collect (fun n => Some (backward n)) fuel m (last_or None (take i ns)) = Some (reverse (take i es)).
Proof.
  intros Hr. induction i as [|i IH]; intros fuel Hi Hf; [by destruct fuel|]. destruct fuel as [|fuel]; [lia|].
  destruct (lookup_lt_is_Some_2 ns i) as [x Hx]; [lia|]. destruct (rep_node m z ns es i x Hr Hx) as (y & n & Hy & En & He & Hsc & Hb).
  rewrite (take_S_r ns i x Hx), (take_S_r es i y Hy). unfold last_or at 1. rewrite last_snoc. cbn [collect]. rewrite En. mrun. rewrite He. mrun. rewrite Hb, IH by lia. mrun.
  rewrite reverse_snoc, Hsc. by destruct y.
Qed.

Lemma rep_entries m z ns es : rep m z ns es -> zsl_entries m z = Some es /\ zsl_entries_back m z = Some (reverse es).
Proof.
  intros Hr. pose proof (rep_core _ _ _ _ Hr) as Hc. pose proof (core_size _ _ _ _ Hc) as Hsz. simpl in Hsz. split.
  - unfold zsl_entries. rewrite (core_links _ _ _ _ Hc [] (header z) ns 0) by (done || (pose proof (core_lv _ _ _ _ Hc); lia) || (rewrite (core_hd _ _ _ _ Hc); unfold ZSKIPLIST_MAXLEVEL; lia)).
    mrun. change ns with (drop 0 ns) at 1. rewrite (rep_next m z ns es) by done. change (drop 0 ns) with ns.
    replace (forward _) with (ns !! 0%nat) by by destruct ns. rewrite (collect_forward m z ns es Hr) by lia. done.
  - unfold zsl_entries_back. rewrite (rep_tail _ _ _ _ Hr). pose proof (collect_backward m z ns es Hr (length ns) (size m) ltac:(lia) ltac:(lia)) as E.
    rewrite (chain_length _ _ _ _ (rep_chain _ _ _ _ Hr)) in E at 2. rewrite !firstn_all in E. unfold last_or in E. rewrite <- E. by destruct (last ns).
Qed.

(** ** Releasing a list *)

Lemma free_loop_spec m0 z ns es : rep m0 z ns es -> forall fuel i (m : mem), (length ns - i <= fuel)%nat ->
  (forall x, x ∈ drop i ns -> m !! x = m0 !! x) ->
  exists m', free_loop fuel m (ns !! i) = Some m' /\ (dom m' : gset loc) = dom m ∖ list_to_set (drop i ns).
Proof.
  intros Hr. pose proof (rep_core _ _ _ _ Hr) as Hc. pose proof (core_nodup _ _ _ _ Hc) as [_ Hnd]%NoDup_cons.
  induction fuel as [|fuel IH]; intros i m Hf Hm.
  { rewrite lookup_ge_None_2 by lia. rewrite drop_ge by lia. exists m. split; [done|]. set_solver. }
  destruct (ns !! i) as [x|] eqn:Ex.
  2:{ apply lookup_ge_None in Ex. rewrite drop_ge by lia. exists m. split; [done|]. set_solver. }
  pose proof (drop_S ns x i Ex) as Ed. destruct (rep_node m0 z ns es i x Hr Ex) as (y & n & Hy & En & _).
  assert (Hmx : m !! x = Some n) by (rewrite Hm by (rewrite Ed; set_solver); done).
  assert (Hg : get_level m x 0 = Some (link_of (hgt m0) 0 (drop (S i) ns))).
  { unfold get_level. rewrite Hmx. rewrite <- (core_links _ _ _ _ Hc (header z :: take i ns) x (drop (S i) ns) 0); [unfold get_level; by rewrite En| | |].
    - simpl. f_equal. symmetry. by apply take_drop_middle.
    - pose proof (core_lv _ _ _ _ Hc). lia.
    - apply (core_pos _ _ _ _ Hc). right. by eapply list_elem_of_lookup_2. }
  cbn [free_loop]. rewrite Hg. mrun. unfold zslFreeNode. rewrite Hmx. mrun. rewrite (rep_next m0 z ns es) by done.
  replace (forward _) with (ns !! S i).
  2:{ rewrite <- (Nat.add_0_r (S i)), <- lookup_drop. rewrite Nat.add_0_r. by destruct (drop (S i) ns). }
  rewrite <- (take_drop_middle ns i x Ex) in Hnd. apply NoDup_app in Hnd as (_ & _ & [Hxn _]%NoDup_cons).
  destruct (IH (S i) (delete x m)) as (m' & E & Hdom).
  - apply lookup_lt_Some in Ex. lia.
  - intros w Hw. rewrite lookup_delete_ne by by intros ->. apply Hm. rewrite Ed. set_solver.
  - exists m'. split; [done|]. rewrite Hdom, Ed, dom_delete_L. simpl. set_solver.
Qed.

Lemma zslFree_spec m z ns es : rep m z ns es -> exists m', zslFree m z = Some m' /\ (dom m' : gset loc) = dom m ∖ list_to_set (header z :: ns).
Proof.
  intros Hr. pose proof (rep_core _ _ _ _ Hr) as Hc. unfold zslFree.
  rewrite (core_links _ _ _ _ Hc [] (header z) ns 0) by (done || (pose proof (core_lv _ _ _ _ Hc); lia) || (rewrite (core_hd _ _ _ _ Hc); unfold ZSKIPLIST_MAXLEVEL; lia)).
  mrun. unfold zslFreeNode. destruct (rep_dom m z ns es (header z) Hr) as [n Hn]; [set_solver|]. rewrite Hn. mrun.
  change ns with (drop 0 ns) at 1. rewrite (rep_next m z ns es) by done. change (drop 0 ns) with ns. replace (forward _) with (ns !! 0%nat) by by destruct ns.
  pose proof (core_nodup _ _ _ _ Hc) as [Hh _]%NoDup_cons.
  destruct (free_loop_spec m z ns es Hr (size (delete (header z) m)) 0 (delete (header z) m)) as (m' & E & Hdom).
  - rewrite map_size_delete, Hn. pose proof (core_size _ _ _ _ Hc) as Hsz. simpl in Hsz |- *. lia.
  - intros x Hx. apply lookup_delete_ne. by intros <-.
  - exists m'. split; [done|]. rewrite Hdom, dom_delete_L. change (drop 0 ns) with ns. simpl. set_solver.
Qed.

(** ** Reachable lists *)

Section Reachable.
Context {H : Heap} (garbage : zskiplistLevel) (garbage_ptr : option loc).

(** The calls a client may make: a member is inserted only if it is not there, and
    updated only with its current score. *)
Inductive zsl_step : mem * zskiplist -> mem * zskiplist -> Prop :=
  | step_insert m z es draws sc e m' z' x : zsl_entries m z = Some es -> e ∉ es.*2 -> zlen es < 2 ^ 32 - 1 -> isnan sc = false ->
      zslInsert garbage garbage_ptr draws m z sc e = Some (m', z', x) -> zsl_step (m, z) (m', z')
  | step_delete m z es sc e m' z' x : zsl_entries m z = Some es -> zlen es < 2 ^ 32 - 1 -> isnan sc = false ->
      zslDelete m z sc e false = Some (m', z', x) -> zsl_step (m, z) (m', z')
  | step_update m z es draws s e new m' z' x : zsl_entries m z = Some es -> (s, e) ∈ es -> zlen es < 2 ^ 32 - 1 -> isnan new = false ->
      is_Some (zslRandomLevel draws) ->
      zslUpdateScore garbage garbage_ptr draws m z s e new = Some (m', z', x) -> zsl_step (m, z) (m', z')
  | step_remrange m z es r m' z' d n : zsl_entries m z = Some es -> zlen es < 2 ^ 32 - 1 -> isnan (min r) = false -> isnan (max r) = false ->
      zslDeleteRangeByScore (fun d _ => Some (S d)) m z r 0%nat = Some (m', z', d, n) -> zsl_step (m, z) (m', z').

Definition inv (s : mem * zskiplist) : Prop :=
  exists ns es, rep s.1 s.2 ns es /\ sset es /\ (dom s.1 : gset loc) = list_to_set (header s.2 :: ns).

Lemma inv_entries m z es : inv (m, z) -> zsl_entries m z = Some es -> exists ns, rep m z ns es /\ sset es /\ (dom m : gset loc) = list_to_set (header z :: ns).
Proof. intros (ns & es' & Hr & Hs & Hd) E. simpl in *. destruct (rep_entries _ _ _ _ Hr) as [E' _]. rewrite E in E'. injection E' as ->. by exists ns. Qed.

Lemma zip_nodes m z m' z' ns ns' es es' (l l' : list (loc * entry)) : rep m z ns es -> rep m' z' ns' es' -> zip ns es ≡ₚ l -> zip ns' es' ≡ₚ l' ->
  (forall k, k ∈ ns <-> k ∈ l.*1) /\ (forall k, k ∈ ns' <-> k ∈ l'.*1) /\ NoDup (l.*1) /\ header z ∉ l.*1.
Proof.
  intros Hr Hr' Hp Hp'. apply (fmap_Permutation fst) in Hp, Hp'. rewrite fst_zip in Hp by by rewrite (chain_length _ _ _ _ (rep_chain _ _ _ _ Hr)).
  rewrite fst_zip in Hp' by by rewrite (chain_length _ _ _ _ (rep_chain _ _ _ _ Hr')).
  pose proof (core_nodup _ _ _ _ (rep_core _ _ _ _ Hr)) as [Hh Hn]%NoDup_cons. rewrite Hp in Hh, Hn.
  split_and!; try done; intros k; [by rewrite Hp|by rewrite Hp'].
Qed.

Lemma step_inv s s' : zsl_step s s' -> inv s -> inv s'.
Proof.
  intros Hst Hi. destruct Hst as [m z es draws sc e m' z' x He Hn Hlen Hnan Hop|m z es sc e m' z' x He Hlen Hnan Hop|m z es draws sc e new m' z' x He Hin Hlen Hnan Hdr Hop|m z es r m' z' d n He Hlen Hmn Hmx Hop];
    destruct (inv_entries m z es Hi He) as (ns & Hr & Hs & Hd).
  - assert (Hdr : is_Some (zslRandomLevel draws)).
    { unfold zslInsert in Hop. rewrite Hnan in Hop. destruct (descend _ _ _ _ _ _) as [[? ?]|]; [|done]. cbn [mbind option_bind] in Hop. destruct (zslRandomLevel draws); [by eexists|done]. }
    destruct (zslInsert_spec garbage garbage_ptr m z ns es Hr Hs Hlen draws sc e Hnan Hdr) as (m1 & z1 & x1 & ns1 & E & _ & Hr1 & Hz & Hdom & Hh).
    rewrite Hop in E. injection E as <- <- <-. exists ns1, (ins (sc, e) es). split_and!; [done|by apply ins_sset|].
    destruct (zip_nodes _ _ _ _ _ _ _ _ _ _ Hr Hr1 (reflexivity _) Hz) as (_ & Hk' & _ & _). rewrite fmap_cons, fst_zip in Hk' by by rewrite (chain_length _ _ _ _ (rep_chain _ _ _ _ Hr)).
    apply set_eq. intros k. simpl fst. simpl snd. rewrite Hdom, Hd, Hh, elem_of_union, !elem_of_list_to_set, !elem_of_cons, elem_of_singleton, Hk', elem_of_cons. simpl. tauto.
  - destruct (zslDelete_spec m z ns es Hr Hs Hlen sc e false Hnan) as [[_ E]|(m1 & z1 & x1 & ns1 & y & E & _ & Hz & Hr1 & Hh & Hdom)]; rewrite Hop in E; simplify_eq; [done|].
    exists ns1, (del (sc, e) es). split_and!; [done|eapply sset_sublist; [|exact Hs]; apply sublist_filter|].
    destruct (zip_nodes _ _ _ _ _ _ _ _ _ _ Hr Hr1 Hz (reflexivity _)) as (Hk & _ & Hnd & Hnh). rewrite fmap_cons, fst_zip in Hk, Hnd, Hnh by by rewrite (chain_length _ _ _ _ (rep_chain _ _ _ _ Hr1)).
    simpl in Hk, Hnd, Hnh. apply NoDup_cons in Hnd as [Hnx _]. apply set_eq. intros k. simpl fst. simpl snd. rewrite Hdom, Hd, Hh, elem_of_difference, !elem_of_list_to_set, !elem_of_cons, elem_of_singleton, Hk.
    rewrite elem_of_cons in Hnh |- *. clear -Hnx Hnh. naive_solver.
  - assert (Hs0 : dnum sc) by (pose proof (sorted_ok _ (sset_sorted _ Hs)) as Hok; rewrite Forall_forall in Hok; by apply (Hok (sc, e))).
    assert (Hex : Exists (fun y => same y (sc, e) = true) es) by (apply Exists_exists; exists (sc, e); split; [done|by apply same_spec]).
    destruct (zslUpdateScore_spec garbage garbage_ptr m z ns es draws sc e new Hr Hs Hlen Hs0 Hnan Hdr Hex) as (m1 & z1 & x1 & x2 & ns1 & rest & y & E & _ & Hz & Hr1 & Hz1 & Hdom & Hh).
    rewrite Hop in E. injection E as <- <- <-. destruct (del_member es sc e Hs Hin) as [Hnin _]. exists ns1, (ins (new, e) (del (sc, e) es)).
    split_and!; [done|apply ins_sset; [eapply sset_sublist; [|exact Hs]; apply sublist_filter|done|done]|].
    destruct (zip_nodes _ _ _ _ _ _ _ _ _ _ Hr Hr1 Hz Hz1) as (Hk & Hk' & Hnd & Hnh). rewrite fmap_cons in Hk, Hk', Hnd, Hnh. cbn [fst] in Hk, Hk', Hnd, Hnh.
    apply NoDup_cons in Hnd as [Hnx _]. apply set_eq. intros k. simpl fst. simpl snd. rewrite Hdom, Hd, Hh, elem_of_union, elem_of_difference, !elem_of_list_to_set, !elem_of_cons, !elem_of_singleton, Hk, Hk'.
    rewrite !elem_of_cons in *. clear -Hnx Hnh. naive_solver.
  - destruct (score_cuts es r (sset_sorted _ Hs) Hmn Hmx) as [Hg Hc]. set (gone := filter (fun y => zslValueGteMin (fst y) r && zslValueLteMax (fst y) r = true) es).
    assert (Hd0 : exists d', delete_all (fun d _ => Some (S d)) 0%nat (gone.*2) = Some d').
    { generalize 0%nat. induction (gone.*2) as [|k ks IH]; intros d0; [by eexists|]. apply IH. }
    destruct Hd0 as [d' Hd0]. destruct (score_delete_spec (fun d _ => Some (S d)) m z ns es Hr Hs Hlen r Hmn Hmx 0%nat d' Hd0) as (m1 & z1 & ns1 & xs & E & Hr1 & Hxs & Hz & Hdom & Hh).
    rewrite Hop in E. injection E as <- <- _ _. exists ns1. eexists. split_and!; [exact Hr1|eapply sset_sublist; [|exact Hs]; apply sublist_filter|].
    destruct (zip_nodes _ _ _ _ _ _ _ _ _ _ Hr Hr1 Hz (reflexivity _)) as (Hk & _ & Hnd & Hnh).
    rewrite fmap_app, (fst_zip ns1), (fst_zip xs) in Hk, Hnd, Hnh by (rewrite ?(chain_length _ _ _ _ (rep_chain _ _ _ _ Hr1)), ?Hxs; done).
    apply NoDup_app in Hnd as (_ & Hdj & _). apply set_eq. intros k. simpl fst. simpl snd. rewrite Hdom, Hd, Hh, elem_of_difference, !elem_of_list_to_set, !elem_of_cons, Hk.
    rewrite elem_of_app in *. clear -Hdj Hnh. naive_solver.
Qed.

Lemma create_inv : exists m z, zslCreate garbage garbage_ptr ∅ = Some (m, z) /\ inv (m, z).
Proof.
  destruct (zslCreate_spec garbage garbage_ptr ∅) as (m & z & E & Hr & _ & Hd). exists m, z. split; [done|]. exists [], []. split_and!; [done| |].
  - split; [split; constructor|constructor].
  - simpl. rewrite Hd. set_solver.
Qed.

(** C21: the invariant of the skip list.  In every state that any sequence of
    insertions of new members, deletions, score updates and deletions of score ranges,
    on lists of less than 2^32-1 entries, reaches from a new list, the level-0 links read the entries in strictly increasing order
    of score and then member, the back pointers read them in reverse, the length is
    right and releasing the list frees every node; and the next insertion or deletion
    in a list of less than 2^32-1 entries runs to its end without following a bad pointer. *)
Theorem zsl_reachable_sorted m0 z0 m z :
  zslCreate garbage garbage_ptr ∅ = Some (m0, z0) -> rtc zsl_step (m0, z0) (m, z) ->
  exists es, zsl_entries m z = Some es /\ zsl_entries_back m z = Some (reverse es) /\
    StronglySorted (fun a b => klt a b = true) es /\ NoDup (es.*2) /\ Forall (fun y => isnan (fst y) = false) es /\
    zlength z = zlen es /\ zslFree m z = Some ∅ /\
    forall draws sc e, isnan sc = false -> is_Some (zslRandomLevel draws) -> zlen es < 2 ^ 32 - 1 ->
      is_Some (zslInsert garbage garbage_ptr draws m z sc e) /\ is_Some (zslDelete m z sc e false).
Proof.
  intros E Hrtc. assert (Hi : inv (m, z)).
  { destruct create_inv as (m1 & z1 & E1 & Hi). rewrite E in E1. injection E1 as <- <-. remember (m, z) as s' eqn:Es. clear Es E.
    induction Hrtc as [|a b c Hst _ IH]; [done|]. apply IH. by eapply step_inv. }
  destruct Hi as (ns & es & Hr & Hs & Hd). simpl in Hr, Hd. destruct (rep_entries _ _ _ _ Hr) as [Hf Hb]. exists es.
  split_and!; [done|done|apply Hs|apply Hs|apply Hs|by rewrite (rep_len _ _ _ _ Hr), (rep_zlen _ _ _ _ Hr)| |].
  - destruct (zslFree_spec m z ns es Hr) as (m' & -> & Hdom). f_equal. apply dom_empty_inv_L. rewrite Hdom, Hd. set_solver.
  - intros draws sc e Hsc Hdr Hlen. destruct (zslInsert_spec garbage garbage_ptr m z ns es Hr Hs Hlen draws sc e Hsc Hdr) as (? & ? & ? & ? & -> & _).
    split; [by eexists|]. by destruct (zslDelete_spec m z ns es Hr Hs Hlen sc e false Hsc) as [[_ ->]|(? & ? & ? & ? & ? & -> & _)]; eexists.
Qed.

End Reachable.

(** The entry a node holds. *)
Definition node_entry (m : mem) (x : loc) : option entry := n ← m !! x; e ← ele n; Some (score n, e).

Lemma node_entry_spec m z ns es i x : rep m z ns es -> ns !! i = Some x -> node_entry m x = es !! i.
Proof.
  intros Hr Hx. destruct (rep_node m z ns es i x Hr Hx) as (y & n & -> & En & He & Hsc & _). unfold node_entry. rewrite En. mrun. rewrite He. mrun.
  rewrite Hsc. by destruct y.
Qed.

(** C22: ranks.  For every position [i] of the list, [zslGetRank] of its entry is
    [i+1] and [zslGetElementByRank] of [i+1] is its node; a string that is not a
    member has rank 0, and a rank beyond the length no node. *)
Theorem zsl_rank_roundtrip m z es : inv (m, z) -> zsl_entries m z = Some es -> zlen es < 2 ^ 32 - 1 ->
  (forall i y, es !! i = Some y -> zslGetRank m z (fst y) (snd y) = Some (Z.of_nat i + 1) /\
     exists x, zslGetElementByRank m z (Z.of_nat i + 1) = Some (Some x) /\ node_entry m x = Some y) /\
  (forall sc e, isnan sc = false -> e ∉ es.*2 -> zslGetRank m z sc e = Some 0) /\
  (forall r, zlen es < r -> zslGetElementByRank m z r = Some None).
Proof.
  intros Hi E Hlen. destruct (inv_entries m z es Hi E) as (ns & Hr & Hs & _). pose proof (chain_length _ _ _ _ (rep_chain _ _ _ _ Hr)) as Hll. split_and!.
  - intros i y Hy. split; [by apply (zslGetRank_spec m z ns es)|]. destruct (lookup_lt_is_Some_2 ns i) as [x Hx]; [apply lookup_lt_Some in Hy; lia|].
    exists x. rewrite (zslGetElementByRank_spec m z ns es) by (done || lia). replace (Z.to_nat (Z.of_nat i + 1)) with (S i) by lia. simpl. rewrite Hx.
    split; [done|]. by rewrite (node_entry_spec m z ns es i x).
  - intros sc e Hsc He. by apply (zslGetRank_absent m z ns es).
  - intros r Hb. unfold zlen in Hb. rewrite (zslGetElementByRank_spec m z ns es) by (done || lia). f_equal. apply lookup_ge_None_2. simpl. lia.
Qed.

(** [r] is the node of the first (or, with [gt], the last) entry that satisfies [inr]. *)
Definition extreme (lt : nat -> nat -> Prop) (inr : entry -> bool) (m : mem) (es : list entry) (r : option loc) : Prop :=
  match r with
  | Some x => exists i y, node_entry m x = Some y /\ es !! i = Some y /\ inr y = true /\ forall j w, lt j i -> es !! j = Some w -> inr w = false
  | None => Forall (fun y => inr y = false) es
  end.

Lemma first_extreme m z ns es inr r : rep m z ns es -> is_first inr ns es r -> extreme lt inr m es r.
Proof.
  intros Hr. destruct r as [x|]; [|done]. intros (i & y & Hx & Hy & Hin & Hmin). exists i, y. split_and!; try done. by rewrite (node_entry_spec m z ns es i x).
Qed.
Lemma last_extreme m z ns es inr r : rep m z ns es -> is_last inr ns es r -> extreme gt inr m es r.
Proof.
  intros Hr. destruct r as [x|]; [|done]. intros (i & y & Hx & Hy & Hin & Hmin). exists i, y. split_and!; try done. by rewrite (node_entry_spec m z ns es i x).
Qed.

(** C36: ranges.  [zslFirstInRange] and [zslLastInRange] return the first and the last
    entry whose score lies in the range, or NULL exactly when there is none; so do the
    lexicographic versions for the member when all scores are equal. *)
Theorem zsl_ranges_correct m z es : inv (m, z) -> zsl_entries m z = Some es -> zlen es < 2 ^ 32 - 1 ->
  (forall r, isnan (min r) = false -> isnan (max r) = false ->
     exists f l, zslFirstInRange m z r = Some f /\ extreme lt (in_range r) m es f /\ zslLastInRange m z r = Some l /\ extreme gt (in_range r) m es l) /\
  (forall r, same_score es ->
     exists f l, zslFirstInLexRange m z r = Some f /\ extreme lt (in_lex_range r) m es f /\ zslLastInLexRange m z r = Some l /\ extreme gt (in_lex_range r) m es l).
Proof.
  intros Hi E Hlen. destruct (inv_entries m z es Hi E) as (ns & Hr & Hs & _). split.
  - intros r Hmn Hmx. destruct (score_range_spec m z ns es Hr Hs Hlen r Hmn Hmx) as (f & l & Ef & Hf & El & Hl). exists f, l.
    split_and!; [done|by eapply first_extreme|done|by eapply last_extreme].
  - intros r Heq. destruct (lex_range_spec m z ns es Hr Hs Hlen r Heq) as (f & l & Ef & Hf & El & Hl). exists f, l.
    split_and!; [done|by eapply first_extreme|done|by eapply last_extreme].
Qed.

(** ** A small list *)

#[local] Instance sample_heap : Heap := {| zmalloc used := fresh used; zmalloc_fresh used := is_fresh used |}.

Definition one : double := S754_finite false 4503599627370496 (-52).
Definition two : double := S754_finite false 4503599627370496 (-51).
Definition sample_garbage : zskiplistLevel := mkLevel None 7.

(** Insert the entries one after the other, each with its own level. *)
Fixpoint fill (m : mem) (z : zskiplist) (l : list (list Z * entry)) : option (mem * zskiplist) :=
  match l with
  | [] => Some (m, z)
  | (draws, (sc, e)) :: l => '(m, z, _) ← zslInsert sample_garbage None draws m z sc e; fill m z l
  end.

Definition sample : option (mem * zskiplist) :=
  '(m, z) ← zslCreate sample_garbage None ∅; fill m z [([0; 65535], (two, [98])); ([65535], (one, [97])); ([0; 0; 65535], (two, [99]))].

Definition sample_entries : list entry := [(one, [97]); (two, [98]); (two, [99])].

Lemma fill_inv l : forall m z es, inv (m, z) -> zsl_entries m z = Some es -> zlen es + zlen l < 2 ^ 32 - 1 -> NoDup (es.*2 ++ l.*2.*2) ->
  Forall (fun d => is_Some (zslRandomLevel (fst d)) /\ isnan (fst (snd d)) = false) l ->
  exists m' z', fill m z l = Some (m', z') /\ inv (m', z') /\ zsl_entries m' z' = Some (foldl (fun es d => ins (snd d) es) es l).
Proof.
  induction l as [|[draws [sc e]] l IH]; intros m z es Hi E Hlen Hn Hl; [by exists m, z|]. apply Forall_cons in Hl as [[Hdr Hsc] Hl]. simpl in Hdr, Hsc.
  destruct (inv_entries m z es Hi E) as (ns & Hr & Hs & _). rewrite zlen_cons in Hlen. pose proof (zlen_nonneg l).
  destruct (zslInsert_spec sample_garbage None m z ns es Hr Hs ltac:(lia) draws sc e Hsc Hdr) as (m1 & z1 & x & ns1 & E1 & _ & Hr1 & _).
  assert (Hne : e ∉ es.*2) by (apply NoDup_app in Hn as (_ & Hn & _); intros He; apply (Hn e He); simpl; set_solver).
  cbn [fill]. rewrite E1. mrun. cbn [foldl snd]. apply IH.
  - eapply step_inv; [|exact Hi]. eapply step_insert; [exact E|done|lia|done|exact E1].
  - apply (rep_entries _ _ _ _ Hr1).
  - unfold zlen in *. rewrite (Permutation_length (ins_perm (sc, e) es)). simpl. lia.
  - rewrite (fmap_Permutation snd _ _ (ins_perm (sc, e) es)). change (NoDup (es.*2 ++ e :: l.*2.*2)) in Hn.
    rewrite <- Permutation_middle in Hn. exact Hn.
  - done.
Qed.

Lemma sample_inv : exists m z, sample = Some (m, z) /\ inv (m, z) /\ zsl_entries m z = Some sample_entries.
Proof.
  unfold sample. destruct (create_inv sample_garbage None) as (m & z & E & Hi). rewrite E. mrun.
  assert (E0 : zsl_entries m z = Some []) by (vm_compute in E; injection E as <- <-; reflexivity).
  destruct (fill_inv [([0; 65535], (two, [98])); ([65535], (one, [97])); ([0; 0; 65535], (two, [99]))] m z [] Hi E0) as (m' & z' & Ef & Hi' & He').
  - vm_compute. reflexivity.
  - refine (bool_decide_unpack _ _). vm_compute. exact I.
  - repeat constructor; eexists; reflexivity.
  - exists m', z'. split_and!; [done|done|]. rewrite He'. vm_compute. reflexivity.
Qed.

Lemma zsl_rank_roundtrip_witness : exists m z, sample = Some (m, z) /\ zslGetRank m z two [99] = Some 3 /\ zslGetRank m z two [100] = Some 0 /\
  zslGetElementByRank m z 4 = Some None.
Proof.
  destruct sample_inv as (m & z & E & Hi & He). exists m, z. split; [exact E|].
  destruct (zsl_rank_roundtrip m z sample_entries Hi He) as (H1 & H2 & H3); [vm_compute; reflexivity|].
  split; [exact (proj1 (H1 2%nat (two, [99]) eq_refl))|]. split; [|apply H3; vm_compute; reflexivity].
  apply H2; [reflexivity|]. refine (bool_decide_unpack _ _). vm_compute. exact I.
Defined.

Lemma zsl_ranges_correct_witness : exists m z f, sample = Some (m, z) /\
  zslFirstInRange m z {| min := one; max := two; minex := true; maxex := false |} = Some (Some f) /\ node_entry m f = Some (two, [98]).
Proof.
  destruct sample_inv as (m & z & E & Hi & He). destruct (zsl_ranges_correct m z sample_entries Hi He) as [H1 _]; [vm_compute; reflexivity|].
  destruct (H1 {| min := one; max := two; minex := true; maxex := false |} eq_refl eq_refl) as (f & l & Ef & Hf & _ & _).
  destruct f as [f|].
  - exists m, z, f. split; [exact E|]. split; [exact Ef|]. destruct Hf as (i & y & Hn & Hy & Hin & Hmin). rewrite Hn.
    destruct i as [|[|[|i]]].
    + injection Hy as <-. vm_compute in Hin. discriminate.
    + injection Hy as <-. reflexivity.
    + specialize (Hmin 1%nat (two, [98]) ltac:(lia) eq_refl). vm_compute in Hmin. discriminate.
    + discriminate.
  - exfalso. apply Forall_cons in Hf as [_ [Hf _]%Forall_cons]. vm_compute in Hf. discriminate.
Defined.

Lemma zsl_reachable_sorted_witness : exists m0 z0 m z es, zslCreate sample_garbage None ∅ = Some (m0, z0) /\
  zsl_step sample_garbage None (m0, z0) (m, z) /\ zsl_entries m z = Some es /\ zslFree m z = Some ∅.
Proof.
  destruct (create_inv sample_garbage None) as (m0 & z0 & E0 & Hi). assert (Ee : zsl_entries m0 z0 = Some []) by (vm_compute in E0; injection E0 as <- <-; reflexivity).
  destruct (inv_entries m0 z0 [] Hi Ee) as (ns & Hr & Hs & _).
  destruct (zslInsert_spec sample_garbage None m0 z0 ns [] Hr Hs ltac:(vm_compute; reflexivity) [65535] one [97] eq_refl ltac:(eexists; reflexivity)) as (m1 & z1 & x & ns1 & E1 & _).
  assert (Hst : zsl_step sample_garbage None (m0, z0) (m1, z1)).
  { eapply (step_insert _ _ m0 z0 [] [65535] one [97]); [exact Ee|apply not_elem_of_nil|vm_compute; reflexivity|reflexivity|exact E1]. }
  destruct (zsl_reachable_sorted sample_garbage None m0 z0 m1 z1 E0 (rtc_once _ _ Hst)) as (es & Hes & _ & _ & _ & _ & _ & Hfree & _).
  exists m0, z0, m1, z1, es. split; [exact E0|]. split; [exact Hst|]. split; [exact Hes|exact Hfree].
Defined.

End ZslOps.
