(* ===== verification/Zset.v ===== *)
(** * Sorted sets: a hash table and a skip list (t_zset.c)

    A sorted set in its skip list encoding keeps every member twice: in a hash
    table whose values point at the score inside the skip list node, and in the
    skip list.  The two must agree after every operation; an update in place changes
    the score that the hash table sees without touching the hash table.

    The hash table is used through the class [HashTable], the calls of dict.c that
    t_zset.c makes, and [HashTableLaws], what it relies on; the instance at the end of
    the file is the model of dict.c itself.  The specification of a sorted set is a
    finite map from members to scores. *)

From Stdlib Require Import SpecFloat.
From S2P Require Import Prelude Dict Score Skiplist ZslOps.

Module Zset.
Import Score Skiplist ZslOps.

Definition ZADD_INCR := Z.shiftl 1 0.
Definition ZADD_NX := Z.shiftl 1 1.
Definition ZADD_XX := Z.shiftl 1 2.
Definition ZADD_NOP := Z.shiftl 1 3.
Definition ZADD_NAN := Z.shiftl 1 4.
Definition ZADD_ADDED := Z.shiftl 1 5.
Definition ZADD_UPDATED := Z.shiftl 1 6.

(** The calls of dict.c on the table of a sorted set; values are the addresses of
    skip list nodes, [R] is a pointer to an entry. *)
Class HashTable (T R : Type) := {
  t_create : T;
  t_find : T -> sds -> option (T * option R);
  t_val : T -> R -> option loc;
  t_setval : T -> R -> loc -> option T;
  t_add : T -> sds -> loc -> option (T * bool);
  t_unlink : T -> sds -> option (T * option loc);
  t_delete : T -> sds -> option T;
  t_needs_resize : T -> bool;
  t_resize : T -> T;
}.

(** What the code relies on: the table behaves as a finite map, up to 2^32 members. *)
Class HashTableLaws (T R : Type) `{HashTable T R} := {
  t_rep : T -> gmap sds loc -> Prop;
  t_create_ok : t_rep t_create ∅;
  t_find_ok t mp k : t_rep t mp -> exists t' r, t_find t k = Some (t', r) /\ t_rep t' mp /\
    match r with
    | Some r => exists v, t_val t' r = Some v /\ mp !! k = Some v /\
        forall v', exists t'', t_setval t' r v' = Some t'' /\ t_rep t'' (<[k := v']> mp)
    | None => mp !! k = None
    end;
  t_add_ok t mp k v : t_rep t mp -> mp !! k = None -> Z.of_nat (size mp) < 2 ^ 32 ->
    exists t', t_add t k v = Some (t', true) /\ t_rep t' (<[k := v]> mp);
  t_unlink_ok t mp k : t_rep t mp -> exists t', t_unlink t k = Some (t', mp !! k) /\ t_rep t' (delete k mp);
  t_delete_ok t mp k : t_rep t mp -> exists t', t_delete t k = Some t' /\ t_rep t' (delete k mp);
  t_resize_ok t mp : t_rep t mp -> t_rep (t_resize t) mp;
}.

Section Model.
Context {T R : Type} `{HT : HashTable T R} {H : Heap}.
Context (garbage : zskiplistLevel) (garbage_ptr : option loc).

Record zset := mkZset { zdict : T; zzsl : zskiplist }.

Definition zsetCreate (m : mem) : option (mem * zset) :=
  '(m, z) ← zslCreate garbage garbage_ptr m; Some (m, mkZset t_create z).

Definition zsetLength (zs : zset) : Z := zlength (zzsl zs).

(** The score that the value of the entry points at. *)
Definition read_score (m : mem) (t : T) (de : R) : option double := x ← t_val t de; n ← m !! x; Some (score n).

(** C_ERR is [None] as a score. *)
Definition zsetScore (m : mem) (zs : zset) (member : sds) : option (zset * option double) :=
  '(t, de) ← t_find (zdict zs) member;
  let zs := mkZset t (zzsl zs) in
  match de with
  | None => Some (zs, None)
  | Some de => s ← read_score m t de; Some (zs, Some s)
  end.

(** The value returned, the flags and the score written through [newscore]. *)
Record added := mkAdded { a_ret : bool; a_flags : Z; a_newscore : option double }.

Definition has_flag (flags f : Z) : bool := negb (Z.land flags f =? 0).

(** The skip list branch of [zsetAdd]. *)
Definition zsetAdd_skiplist (draws : list Z) (m : mem) (zs : zset) (sc : double) (e : sds) (incr nx xx : bool) : option (mem * zset * added) :=
  '(t, de) ← t_find (zdict zs) e;
  let zs := mkZset t (zzsl zs) in
  match de with
  | Some de =>
      if nx then Some (m, zs, mkAdded true ZADD_NOP None) else
      curscore ← read_score m t de;
      let sc := if incr then dadd sc curscore else sc in
      if incr && isnan sc then Some (m, zs, mkAdded false ZADD_NAN None) else
      let newscore := if incr then Some sc else None in
      if negb (deq sc curscore) then
        '(m, z, znode) ← zslUpdateScore garbage garbage_ptr draws m (zzsl zs) curscore e sc;
        t ← t_setval t de znode;
        Some (m, mkZset t z, mkAdded true ZADD_UPDATED newscore)
      else Some (m, zs, mkAdded true 0 newscore)
  | None =>
      if negb xx then
        '(m, z, znode) ← zslInsert garbage garbage_ptr draws m (zzsl zs) sc e;
        '(t, ok) ← t_add t e znode;
        if (ok : bool) then Some (m, mkZset t z, mkAdded true ZADD_ADDED (Some sc)) else None
      else Some (m, zs, mkAdded true ZADD_NOP None)
  end.

(** [zsetAdd]: the request flags, and a NaN score is an error whatever they are. *)
Definition zsetAdd (draws : list Z) (m : mem) (zs : zset) (sc : double) (e : sds) (flags : Z) : option (mem * zset * added) :=
  let incr := has_flag flags ZADD_INCR in
  let nx := has_flag flags ZADD_NX in
  let xx := has_flag flags ZADD_XX in
  if isnan sc then Some (m, zs, mkAdded false ZADD_NAN None) else
  zsetAdd_skiplist draws m zs sc e incr nx xx.

Definition shrink_table (t : T) : T := if t_needs_resize t then t_resize t else t.

Definition zsetDel (m : mem) (zs : zset) (e : sds) : option (mem * zset * bool) :=
  '(t, de) ← t_unlink (zdict zs) e;
  match de with
  | None => Some (m, mkZset t (zzsl zs), false)
  | Some x =>
      n ← m !! x;
      '(m, z, retval) ← zslDelete m (zzsl zs) (score n) e false;
      match retval with
      | None => None
      | Some _ => Some (m, mkZset (shrink_table t) z, true)
      end
  end.

Definition zsetRank (m : mem) (zs : zset) (e : sds) (reverse : bool) : option (zset * Z) :=
  let llen := zsetLength zs in
  '(t, de) ← t_find (zdict zs) e;
  let zs := mkZset t (zzsl zs) in
  match de with
  | None => Some (zs, -1)
  | Some de =>
      sc ← read_score m t de;
      rank ← zslGetRank m (zzsl zs) sc e;
      if rank =? 0 then None
      else Some (zs, if reverse then s64 (u64 (llen - rank)) else s64 (u64 (rank - 1)))
  end.

(** The skip list cases of [zremrangeGenericCommand]. *)
Definition zremrangeByScore (m : mem) (zs : zset) (range : zrangespec) : option (mem * zset * Z) :=
  '(m, z, t, deleted) ← zslDeleteRangeByScore t_delete m (zzsl zs) range (zdict zs);
  Some (m, mkZset (shrink_table t) z, deleted).

(** The indexes of a rank range, counted from the end when negative; [None] is the
    empty range. *)
Definition sanitize (llen start end_ : Z) : option (Z * Z) :=
  let start := if start <? 0 then llen + start else start in
  let end_ := if end_ <? 0 then llen + end_ else end_ in
  let start := if start <? 0 then 0 else start in
  if (start >? end_) || (start >=? llen) then None
  else Some (start, if end_ >=? llen then llen - 1 else end_).

Definition zremrangeByRank (m : mem) (zs : zset) (start end_ : Z) : option (mem * zset * Z) :=
  match sanitize (zsetLength zs) start end_ with
  | None => Some (m, zs, 0)
  | Some (start, end_) =>
      '(m, z, t, deleted) ← zslDeleteRangeByRank t_delete m (zzsl zs) (u32 (start + 1)) (u32 (end_ + 1)) (zdict zs);
      Some (m, mkZset (shrink_table t) z, deleted)
  end.

Definition zremrangeByLex (m : mem) (zs : zset) (range : zlexrangespec) : option (mem * zset * Z) :=
  '(m, z, t, deleted) ← zslDeleteRangeByLex t_delete m (zzsl zs) range (zdict zs);
  Some (m, mkZset (shrink_table t) z, deleted).

End Model.
Arguments zset : clear implicits.
Arguments mkZset {T} _ _.

(** ** The specification: a finite map from members to scores *)

Abbreviation scores := (gmap sds double).

Definition kv_entry (kv : sds * double) : entry := (snd kv, fst kv).

(** The number of entries before, and after, an entry. *)
Definition below (M : scores) (y : entry) : nat := size (filter (fun kv => klt (kv_entry kv) y = true) M).
Definition above (M : scores) (y : entry) : nat := size (filter (fun kv => klt y (kv_entry kv) = true) M).

Definition map_add (M : scores) (sc : double) (e : sds) (flags : Z) : scores * added :=
  let incr := has_flag flags ZADD_INCR in
  if isnan sc then (M, mkAdded false ZADD_NAN None) else
  match M !! e with
  | None => if has_flag flags ZADD_XX then (M, mkAdded true ZADD_NOP None) else (<[e := sc]> M, mkAdded true ZADD_ADDED (Some sc))
  | Some cur =>
      if has_flag flags ZADD_NX then (M, mkAdded true ZADD_NOP None) else
      let new := if incr then dadd sc cur else sc in
      if isnan new then (M, mkAdded false ZADD_NAN None)
      else if deq new cur then (M, mkAdded true 0 (if incr then Some new else None))
      else (<[e := new]> M, mkAdded true ZADD_UPDATED (if incr then Some new else None))
  end.

Definition map_rank (M : scores) (e : sds) (reverse : bool) : Z :=
  match M !! e with
  | None => -1
  | Some s => Z.of_nat (if reverse then above M (s, e) else below M (s, e))
  end.

Definition map_remove (M : scores) (gone : entry -> bool) : scores * Z :=
  (filter (fun kv => gone (kv_entry kv) = false) M, Z.of_nat (size (filter (fun kv => gone (kv_entry kv) = true) M))).

Definition rank_gone (M : scores) (start end_ : Z) (y : entry) : bool :=
  match sanitize (Z.of_nat (size M)) start end_ with
  | None => false
  | Some (start, end_) => (start <=? Z.of_nat (below M y)) && (Z.of_nat (below M y) <=? end_)
  end.

(** ** Entries, nodes and maps *)

Definition scores_of (es : list entry) : scores := list_to_map ((fun y => (snd y, fst y)) <$> es).
Definition table_of (l : list (loc * entry)) : gmap sds loc := list_to_map ((fun xy => (snd (snd xy), fst xy)) <$> l).

Lemma keys_of es : ((fun y : entry => (snd y, fst y)) <$> es).*1 = es.*2.
Proof. rewrite <- list_fmap_compose. done. Qed.

Lemma table_keys l : ((fun xy : loc * entry => (snd (snd xy), fst xy)) <$> l).*1 = l.*2.*2.
Proof. rewrite <- !list_fmap_compose. done. Qed.

Lemma scores_of_lookup es y : NoDup (es.*2) -> y ∈ es -> scores_of es !! y.2 = Some y.1.
Proof. intros Hn Hy. apply elem_of_list_to_map_1; [by rewrite keys_of|]. apply list_elem_of_fmap. by exists y. Qed.

Lemma scores_of_inv es e s : scores_of es !! e = Some s -> (s, e) ∈ es.
Proof.
  intros Hl. apply elem_of_list_to_map_2 in Hl. apply list_elem_of_fmap in Hl as ([s' e'] & E & Hy). simpl in E. by simplify_eq.
Qed.

Lemma scores_of_None es e : e ∉ es.*2 -> scores_of es !! e = None.
Proof. intros Hn. apply not_elem_of_list_to_map_1. by rewrite keys_of. Qed.

Lemma scores_of_perm es es' : NoDup (es.*2) -> es ≡ₚ es' -> scores_of es = scores_of es'.
Proof. intros Hn Hp. apply list_to_map_proper; [by rewrite keys_of|by rewrite Hp]. Qed.

Lemma table_of_perm l l' : NoDup (l.*2.*2) -> l ≡ₚ l' -> table_of l = table_of l'.
Proof. intros Hn Hp. apply list_to_map_proper; [by rewrite table_keys|by rewrite Hp]. Qed.

Lemma size_filter_scores (P : entry -> bool) b es : NoDup (es.*2) ->
  size (filter (fun kv => P (kv_entry kv) = b) (scores_of es)) = length (filter (fun y => P y = b) es).
Proof.
  induction es as [|y es IH]; intros Hn; [done|]. apply NoDup_cons in Hn as [Hy Hn]. 
  change (scores_of (y :: es)) with (<[y.2 := y.1]> (scores_of es)). assert (Ey : kv_entry (y.2, y.1) = y) by by destruct y.
  destruct (decide (P y = b)) as [E|E].
  - rewrite map_filter_insert_True by (cbv beta; by rewrite Ey). rewrite filter_cons_True by done.
    rewrite map_size_insert_None; [simpl; by rewrite IH|]. apply map_lookup_filter_None. left. by apply scores_of_None.
  - rewrite map_filter_insert_False by (cbv beta; by rewrite Ey). rewrite filter_cons_False by done. rewrite delete_id by by apply scores_of_None. by apply IH.
Qed.

Lemma filter_scores (P : entry -> bool) b es : NoDup (es.*2) ->
  filter (fun kv => P (kv_entry kv) = b) (scores_of es) = scores_of (filter (fun y => P y = b) es).
Proof.
  intros Hn. apply map_eq. intros e. apply option_eq. intros s. rewrite map_lookup_filter_Some. split.
  - intros [Hl%scores_of_inv HP]. apply (scores_of_lookup _ (s, e)).
    + eapply sublist_NoDup; [exact Hn|]. apply fmap_sublist, sublist_filter.
    + by apply list_elem_of_filter.
  - intros [HP Hin]%scores_of_inv%list_elem_of_filter. split; [|done]. by apply (scores_of_lookup _ (s, e)).
Qed.

Lemma size_scores es : NoDup (es.*2) -> size (scores_of es) = length es.
Proof.
  intros Hn. induction es as [|y es IH]; [done|]. apply NoDup_cons in Hn as [Hy Hn].
  change (scores_of (y :: es)) with (<[y.2 := y.1]> (scores_of es)). rewrite map_size_insert_None by by apply scores_of_None. simpl. by rewrite IH.
Qed.

(** The position of an entry is the number of entries below it. *)
Lemma count_below es i y : sorted es -> es !! i = Some y ->
  length (filter (fun w => klt w y = true) es) = i /\ length (filter (fun w => klt y w = true) es) = (length es - S i)%nat.
Proof.
  intros [Hs Hok] Hy. pose proof (take_drop_middle es i y Hy) as E. rewrite <- E in Hs, Hok. apply StronglySorted_mid in Hs as (_ & Hlo & Hhi).
  rewrite Forall_app, Forall_cons in Hok. destruct Hok as (Ho1 & Hoy & Ho2). rewrite Forall_forall in Ho1, Ho2.
  assert (Hlo' : Forall (fun w => ~ klt y w = true) (take i es)).
  { rewrite Forall_forall in *. intros w Hw. rewrite klt_asym; auto. }
  assert (Hhi' : Forall (fun w => ~ klt w y = true) (drop (S i) es)).
  { rewrite Forall_forall in *. intros w Hw. rewrite klt_asym; auto. }
  assert (Hyy : ~ klt y y = true) by (rewrite klt_irrefl; done).
  apply lookup_lt_Some in Hy as Hlt.
  assert (F1 : filter (fun w => klt w y = true) es = take i es).
  { rewrite <- E at 1. rewrite filter_app, filter_cons_False, filter_all, filter_none by done. apply app_nil_r. }
  assert (F2 : filter (fun w => klt y w = true) es = drop (S i) es).
  { rewrite <- E at 1. by rewrite filter_app, filter_cons_False, filter_none, filter_all. }
  rewrite F1, F2, length_take, length_drop. lia.
Qed.

(** ** The invariant of a sorted set *)

Section Refine.
Context {T R : Type} `{HT : HashTable T R} `{!HashTableLaws T R} {H : Heap}.
Context (garbage : zskiplistLevel) (garbage_ptr : option loc).

(** The skip list holds the entries in order, the hash table maps each member to its
    node, and the heap holds nothing else. *)
Record linked (m : mem) (zs : zset T) (ns : list loc) (es : list entry) : Prop := {
  linked_rep : rep m (zzsl zs) ns es;
  linked_sset : sset es;
  linked_table : t_rep (zdict zs) (table_of (zip ns es));
  linked_dom : (dom m : gset loc) = list_to_set (header (zzsl zs) :: ns) }.

Definition zrep (m : mem) (zs : zset T) (M : scores) : Prop := exists ns es, linked m zs ns es /\ M = scores_of es.

Lemma zip_snd m z ns es : rep m z ns es -> (zip ns es).*2 = es.
Proof. intros Hr. apply snd_zip. by rewrite (chain_length _ _ _ _ (rep_chain _ _ _ _ Hr)). Qed.

Lemma zip_fst m z ns es : rep m z ns es -> (zip ns es).*1 = ns.
Proof. intros Hr. apply fst_zip. by rewrite (chain_length _ _ _ _ (rep_chain _ _ _ _ Hr)). Qed.

(** What the hash table knows of a member. *)
Lemma linked_lookup m zs ns es e x : linked m zs ns es -> table_of (zip ns es) !! e = Some x ->
  exists s n, scores_of es !! e = Some s /\ m !! x = Some n /\ score n = s /\ (s, e) ∈ es /\ dnum s.
Proof.
  intros [Hr Hs _ _] Hl. apply elem_of_list_to_map_2 in Hl. apply list_elem_of_fmap in Hl as ([x' [s e']] & E & Hin). simpl in E. injection E as <- <-.
  apply list_elem_of_lookup in Hin as [i Hi]. apply lookup_zip_Some in Hi as [Hx Hy].
  destruct (rep_node m _ ns es i x Hr Hx) as (y & n & Hy' & Hn & _ & Hsc & _). rewrite Hy in Hy'. injection Hy' as <-.
  apply list_elem_of_lookup_2 in Hy as Hin. exists s, n. split_and!; try done; [by apply (scores_of_lookup es (s, e)); [apply Hs|]|].
  pose proof (sorted_ok _ (sset_sorted _ Hs)) as Hok. rewrite Forall_forall in Hok. by apply (Hok (s, e)).
Qed.

Lemma linked_None m zs ns es e : linked m zs ns es -> table_of (zip ns es) !! e = None -> e ∉ es.*2 /\ scores_of es !! e = None.
Proof.
  intros [Hr Hs _ _] Hl. apply not_elem_of_list_to_map_2 in Hl. rewrite table_keys, (zip_snd m _ ns es Hr) in Hl. split; [done|by apply scores_of_None].
Qed.

(** Replacing the table by one that stands for the same map. *)
Lemma linked_retable m zs ns es t : linked m zs ns es -> t_rep t (table_of (zip ns es)) -> linked m (mkZset t (zzsl zs)) ns es.
Proof. intros [? ? _ ?] Ht. by split. Qed.

Lemma linked_insert m zs ns es m' z' ns' t x e sc : linked m zs ns es -> dnum sc -> e ∉ es.*2 -> rep m' z' ns' (ins (sc, e) es) ->
  zip ns' (ins (sc, e) es) ≡ₚ (x, (sc, e)) :: zip ns es -> (dom m' : gset loc) = {[x]} ∪ dom m -> header z' = header (zzsl zs) ->
  t_rep t (<[e := x]> (table_of (zip ns es))) ->
  linked m' (mkZset t z') ns' (ins (sc, e) es) /\ scores_of (ins (sc, e) es) = <[e := sc]> (scores_of es).
Proof.
  intros [Hr Hs _ Hd] Hsc He Hr' Hz Hdom Hh Ht. assert (Hs' : sset (ins (sc, e) es)) by (apply ins_sset; done). split; [split|]; cbn [zzsl zdict]; try done.
  - rewrite (table_of_perm _ _ ltac:(rewrite (zip_snd _ _ _ _ Hr'); apply Hs') Hz). done.
  - rewrite Hdom, Hd, Hh. pose proof (fmap_Permutation fst _ _ Hz) as Hp. rewrite fmap_cons, (zip_fst _ _ _ _ Hr'), (zip_fst _ _ _ _ Hr) in Hp. cbn [fst] in Hp.
    simpl. rewrite Hp. simpl. set_solver.
  - rewrite (scores_of_perm _ _ (sset_members _ Hs') (ins_perm (sc, e) es)). done.
Qed.

Lemma linked_size m zs ns es : linked m zs ns es -> Z.of_nat (size (scores_of es)) = zlen es.
Proof. intros [_ Hs _ _]. rewrite size_scores by apply Hs. done. Qed.

Lemma zsetCreate_ok : exists m zs, zsetCreate (T := T) garbage garbage_ptr ∅ = Some (m, zs) /\ zrep m zs ∅.
Proof.
  unfold zsetCreate. destruct (zslCreate_spec garbage garbage_ptr ∅) as (m & z & -> & Hr & Hh & Hd). mrun. eexists _, _. split; [done|].
  exists [], []. split; [|done]. split; cbn [zzsl zdict].
  - done.
  - split; [split; constructor|constructor].
  - apply t_create_ok.
  - rewrite Hd. set_solver.
Qed.

(** A lookup in the hash table, and the score it leads to. *)
Lemma find_linked m zs ns es e : linked m zs ns es ->
  exists t de, t_find (zdict zs) e = Some (t, de) /\ linked m (mkZset t (zzsl zs)) ns es /\
    match de with
    | None => e ∉ es.*2 /\ scores_of es !! e = None
    | Some de => exists s, read_score m t de = Some s /\ scores_of es !! e = Some s /\ (s, e) ∈ es /\ dnum s /\
        forall x, exists t', t_setval t de x = Some t' /\ t_rep t' (<[e := x]> (table_of (zip ns es)))
    end.
Proof.
  intros Hl. destruct (t_find_ok _ _ e (linked_table _ _ _ _ Hl)) as (t & de & E & Ht & Hde). exists t, de.
  split_and!; [done|by apply (linked_retable m zs)|]. destruct de as [de|]; [|by apply (linked_None m zs ns)].
  destruct Hde as (x & Hv & Hx & Hset). destruct (linked_lookup m zs ns es e x Hl Hx) as (s & n & Hs & Hn & Hsc & Hin & Hd).
  exists s. split_and!; try done. unfold read_score. rewrite Hv. mrun. rewrite Hn. mrun. by rewrite Hsc.
Qed.

Lemma zsetScore_ok m zs M e : zrep m zs M -> exists zs', zsetScore m zs e = Some (zs', M !! e) /\ zrep m zs' M.
Proof.
  intros (ns & es & Hl & ->). unfold zsetScore. destruct (find_linked m zs ns es e Hl) as (t & de & -> & Hl' & Hde). mrun.
  destruct de as [de|].
  - destruct Hde as (s & -> & -> & _). mrun. eexists. split; [done|]. by exists ns, es.
  - destruct Hde as [_ ->]. eexists. split; [done|]. by exists ns, es.
Qed.

Lemma update_ok m zs ns es t de draws cur e new : linked m zs ns es -> zlen es < 2 ^ 32 - 1 -> is_Some (zslRandomLevel draws) ->
  (cur, e) ∈ es -> dnum cur -> dnum new -> (forall x, exists t', t_setval t de x = Some t' /\ t_rep t' (<[e := x]> (table_of (zip ns es)))) ->
  exists m' z' x t' ns', zslUpdateScore garbage garbage_ptr draws m (zzsl zs) cur e new = Some (m', z', x) /\ t_setval t de x = Some t' /\
    linked m' (mkZset t' z') ns' (ins (new, e) (del (cur, e) es)) /\ scores_of (ins (new, e) (del (cur, e) es)) = <[e := new]> (scores_of es).
Proof.
  intros [Hr Hs Ht Hd] Hlen Hdr Hin Hcur Hnew Hset. destruct (del_member es cur e Hs Hin) as [Hnin Hperm].
  destruct (zslUpdateScore_spec garbage garbage_ptr m (zzsl zs) ns es draws cur e new Hr Hs Hlen Hcur Hnew Hdr)
    as (m' & z' & x & x' & ns' & rest & y & E & Hsame & Hz & Hr' & Hz' & Hdom & Hh).
  { apply Exists_exists. exists (cur, e). split; [done|]. by apply same_spec. }
  destruct (Hset x') as (t' & Et & Ht').
  assert (Hdel : sset (del (cur, e) es)) by (eapply sset_sublist; [|exact Hs]; apply sublist_filter).
  assert (Hs' : sset (ins (new, e) (del (cur, e) es))) by (by apply ins_sset).
  assert (Hye : y.2 = e).
  { assert (Hy : y ∈ es) by (rewrite <- (zip_snd _ _ _ _ Hr), Hz; set_solver). pose proof (sorted_ok _ (sset_sorted _ Hs)) as Hok. rewrite Forall_forall in Hok.
    apply same_spec in Hsame as [_ ?]; [done|by apply Hok|done]. }
  exists m', z', x', t', ns'. split_and!; try done; [split; cbn [zzsl zdict]; try done|].
  - rewrite (table_of_perm _ _ ltac:(rewrite (zip_snd _ _ _ _ Hr'); apply Hs') Hz').
    rewrite (table_of_perm _ _ ltac:(rewrite (zip_snd _ _ _ _ Hr); apply Hs) Hz) in Ht'. unfold table_of in Ht'. rewrite fmap_cons in Ht'. cbn [list_to_map foldr fst snd] in Ht'.
    change (t_rep t' (<[e := x']> (<[y.2 := x]> (table_of rest)))) in Ht'. rewrite Hye, insert_insert_eq in Ht'. done.
  - pose proof (fmap_Permutation fst _ _ Hz') as Hp'. pose proof (fmap_Permutation fst _ _ Hz) as Hp.
    rewrite fmap_cons, (zip_fst _ _ _ _ Hr') in Hp'. rewrite fmap_cons, (zip_fst _ _ _ _ Hr) in Hp. cbn [fst] in *.
    assert (Hk : forall k, k ∈ ns <-> k = x \/ k ∈ rest.*1) by (intros k; rewrite Hp; apply elem_of_cons).
    assert (Hk' : forall k, k ∈ ns' <-> k = x' \/ k ∈ rest.*1) by (intros k; rewrite Hp'; apply elem_of_cons).
    pose proof (core_nodup _ _ _ _ (rep_core _ _ _ _ Hr)) as [Hnh Hnd]%NoDup_cons. rewrite Hp in Hnd. apply NoDup_cons in Hnd as [Hnx _].
    rewrite Hk in Hnh. apply set_eq. intros k. rewrite Hdom, Hd, Hh.
    rewrite elem_of_union, elem_of_difference, !elem_of_list_to_set, !elem_of_cons, !elem_of_singleton, Hk, Hk'. clear -Hnh Hnx. naive_solver.
  - rewrite (scores_of_perm _ _ (sset_members _ Hs') (ins_perm (new, e) _)). rewrite (scores_of_perm es _ (sset_members _ Hs) Hperm).
    change (<[e := new]> (scores_of (del (cur, e) es)) = <[e := new]> (<[e := cur]> (scores_of (del (cur, e) es)))). by rewrite insert_insert_eq.
Qed.

Lemma zsetAdd_ok draws m zs M sc e flags : zrep m zs M -> Z.of_nat (size M) < 2 ^ 32 - 1 -> is_Some (zslRandomLevel draws) ->
  exists m' zs', zsetAdd garbage garbage_ptr draws m zs sc e flags = Some (m', zs', snd (map_add M sc e flags)) /\ zrep m' zs' (fst (map_add M sc e flags)).
Proof.
  intros (ns & es & Hl & ->) Hlen Hdr. rewrite (linked_size _ _ _ _ Hl) in Hlen. unfold zsetAdd, zsetAdd_skiplist, map_add.
  destruct (isnan sc) eqn:Hnan; [exists m, zs; split; [done|by exists ns, es]|].
  destruct (find_linked m zs ns es e Hl) as (t & de & -> & Hl' & Hde). mrun. cbn [zzsl].
  assert (Hsame : zrep m (mkZset t (zzsl zs)) (scores_of es)) by (by exists ns, es).
  destruct de as [de|].
  - destruct Hde as (cur & Hcur & -> & Hin & Hd & Hset). destruct (has_flag flags ZADD_NX); [by eexists _, _|]. rewrite Hcur. mrun.
    set (new := if has_flag flags ZADD_INCR then dadd sc cur else sc).
    assert (Hnew : has_flag flags ZADD_INCR && isnan new = isnan new) by (unfold new; by destruct (has_flag flags ZADD_INCR)). rewrite Hnew.
    destruct (isnan new) eqn:Hnn; [by eexists _, _|]. destruct (deq new cur); cbn [negb]; [by eexists _, _|].
    destruct (update_ok m zs ns es t de draws cur e new Hl Hlen Hdr Hin Hd Hnn Hset) as (m' & z' & x & t' & ns' & -> & Et & Hl2 & Hsc2). mrun. rewrite Et. mrun.
    eexists _, _. split; [done|]. exists ns'. eexists. split; [exact Hl2|]. by rewrite Hsc2.
  - destruct Hde as [Hnin ->]. destruct (has_flag flags ZADD_XX); cbn [negb]; [by eexists _, _|].
    destruct (zslInsert_spec garbage garbage_ptr m (zzsl zs) ns es (linked_rep _ _ _ _ Hl) (linked_sset _ _ _ _ Hl) Hlen draws sc e Hnan Hdr)
      as (m' & z' & x & ns' & -> & Hx & Hr' & Hz & Hdom & Hh). mrun.
    destruct (t_add_ok t (table_of (zip ns es)) e x) as (t' & -> & Ht').
    { apply Hl'. }
    { apply not_elem_of_list_to_map_1. by rewrite table_keys, (zip_snd _ _ _ _ (linked_rep _ _ _ _ Hl)). }
    { unfold table_of. rewrite map_size_list_to_map, length_fmap, length_zip_with; [unfold zlen in Hlen; lia|].
      rewrite table_keys, (zip_snd _ _ _ _ (linked_rep _ _ _ _ Hl)). apply Hl. }
    mrun. eexists _, _. split; [done|].
    destruct (linked_insert m zs ns es m' z' ns' t' x e sc Hl Hnan Hnin Hr' Hz Hdom Hh Ht') as [Hl2 Hsc2]. exists ns'. eexists. split; [exact Hl2|]. by rewrite Hsc2.
Qed.

Lemma shrink_ok t mp : t_rep t mp -> t_rep (shrink_table t) mp.
Proof. intros Ht. unfold shrink_table. destruct (t_needs_resize t); [by apply t_resize_ok|done]. Qed.

Lemma zsetDel_ok m zs M e : zrep m zs M -> Z.of_nat (size M) < 2 ^ 32 - 1 ->
  exists m' zs', zsetDel m zs e = Some (m', zs', bool_decide (is_Some (M !! e))) /\ zrep m' zs' (delete e M).
Proof.
  intros (ns & es & Hl & ->) Hlen. rewrite (linked_size _ _ _ _ Hl) in Hlen. pose proof Hl as [Hr Hs Ht Hd]. unfold zsetDel.
  destruct (t_unlink_ok _ _ e Ht) as (t & -> & Ht'). mrun. destruct (table_of (zip ns es) !! e) as [x|] eqn:Ex.
  2:{ destruct (linked_None m zs ns es e Hl Ex) as [_ Hn]. rewrite Hn, bool_decide_false by by intros []. rewrite !delete_id in * by done.
      eexists _, _. split; [done|]. exists ns, es. split; [by apply (linked_retable m zs)|done]. }
  destruct (linked_lookup m zs ns es e x Hl Ex) as (s & n & Hsc & Hn & Hns & Hin & Hds). rewrite Hn. mrun. rewrite Hns, Hsc, bool_decide_true by by eexists.
  destruct (zslDelete_spec m (zzsl zs) ns es Hr Hs Hlen s e false Hds) as [[Hnone _]|(m' & z' & x' & ns' & y & -> & Hsame & Hz & Hr' & Hh & Hdom)].
  { rewrite Forall_forall in Hnone. specialize (Hnone (s, e) Hin). by rewrite (proj2 (same_spec (s, e) (s, e) Hds Hds)) in Hnone. }
  mrun. destruct (del_member es s e Hs Hin) as [Hnin Hperm].
  assert (Hy : y ∈ es) by (rewrite <- (zip_snd _ _ _ _ Hr), Hz; set_solver).
  assert (y = (s, e)) as ->.
  { pose proof (sorted_ok _ (sset_sorted _ Hs)) as Hok. rewrite Forall_forall in Hok. apply same_spec in Hsame as [_ ?]; [|by apply Hok|done]. by apply (sset_uniq es). }
  assert (Hs' : sset (del (s, e) es)) by (eapply sset_sublist; [|exact Hs]; apply sublist_filter).
  eexists _, _. split; [done|]. exists ns', (del (s, e) es). split; [split; cbn [zzsl zdict]; try done|].
  - apply shrink_ok. rewrite (table_of_perm _ _ ltac:(rewrite (zip_snd _ _ _ _ Hr); apply Hs) Hz) in Ht'.
    change (t_rep t (delete e (<[e := x']> (table_of (zip ns' (del (s, e) es)))))) in Ht'. rewrite delete_insert_id in Ht'; [done|].
    apply not_elem_of_list_to_map_1. by rewrite table_keys, (zip_snd _ _ _ _ Hr').
  - pose proof (fmap_Permutation fst _ _ Hz) as Hp. rewrite fmap_cons, (zip_fst _ _ _ _ Hr), (zip_fst _ _ _ _ Hr') in Hp. cbn [fst] in Hp.
    assert (Hk : forall k, k ∈ ns <-> k = x' \/ k ∈ ns') by (intros k; rewrite Hp; apply elem_of_cons).
    pose proof (core_nodup _ _ _ _ (rep_core _ _ _ _ Hr)) as [Hnh Hnd]%NoDup_cons. rewrite Hp in Hnd. apply NoDup_cons in Hnd as [Hnx _].
    rewrite Hk in Hnh. apply set_eq. intros k. rewrite Hdom, Hd, Hh, elem_of_difference, !elem_of_list_to_set, !elem_of_cons, elem_of_singleton, Hk.
    clear -Hnh Hnx. naive_solver.
  - rewrite (scores_of_perm es _ (sset_members _ Hs) Hperm).
    change (delete e (<[e := s]> (scores_of (del (s, e) es))) = scores_of (del (s, e) es)). apply delete_insert_id. by apply scores_of_None.
Qed.

Lemma zsetRank_ok m zs M e reverse : zrep m zs M -> Z.of_nat (size M) < 2 ^ 32 - 1 ->
  exists zs', zsetRank m zs e reverse = Some (zs', map_rank M e reverse) /\ zrep m zs' M.
Proof.
  intros (ns & es & Hl & ->) Hlen. rewrite (linked_size _ _ _ _ Hl) in Hlen. pose proof Hl as [Hr Hs Ht Hd]. unfold zsetRank, map_rank.
  destruct (find_linked m zs ns es e Hl) as (t & de & -> & Hl' & Hde). mrun.
  assert (Hsame : zrep m (mkZset t (zzsl zs)) (scores_of es)) by (by exists ns, es). destruct de as [de|].
  2:{ destruct Hde as [_ ->]. by eexists. }
  destruct Hde as (s & -> & -> & Hin & Hds & _). mrun. cbn [zzsl]. apply list_elem_of_lookup in Hin as [i Hi].
  pose proof (zslGetRank_spec m (zzsl zs) ns es Hr Hs Hlen i (s, e) Hi) as Hg. cbn [fst snd] in Hg. rewrite Hg. mrun.
  destruct (Z.eqb_spec (Z.of_nat i + 1) 0); [lia|]. apply lookup_lt_Some in Hi as Hlt. unfold zlen in Hlen.
  destruct (count_below es i (s, e) (sset_sorted _ Hs) Hi) as [Hb Ha]. unfold below, above.
  rewrite (size_filter_scores (fun w => klt w (s, e)) true es) by apply Hs. rewrite (size_filter_scores (fun w => klt (s, e) w) true es) by apply Hs. rewrite Hb, Ha.
  unfold zsetLength. rewrite (rep_len _ _ _ _ Hr), (rep_zlen _ _ _ _ Hr). unfold zlen.
  eexists. split; [|exact Hsame]. do 2 f_equal. destruct reverse; rewrite u64_small, s64_id by (unfold in_s64, LLONG_MIN, LLONG_MAX; lia); lia.
Qed.

(** A deletion of the entries for which [gone] holds, from list and table. *)
Lemma removed_ok m zs ns es m' z' t' ns' xs (gone : entry -> bool) : linked m zs ns es ->
  rep m' z' ns' (filter (fun y => gone y = false) es) -> length xs = length (filter (fun y => gone y = true) es) ->
  zip ns es ≡ₚ zip ns' (filter (fun y => gone y = false) es) ++ zip xs (filter (fun y => gone y = true) es) ->
  (dom m' : gset loc) = dom m ∖ list_to_set xs -> header z' = header (zzsl zs) ->
  t_rep t' (table_of (zip ns' (filter (fun y => gone y = false) es))) ->
  zrep m' (mkZset (shrink_table t') z') (fst (map_remove (scores_of es) gone)).
Proof.
  intros [Hr Hs Ht Hd] Hr' Hxs Hz Hdom Hh Ht'. exists ns', (filter (fun y => gone y = false) es). split; [split; cbn [zzsl zdict]|].
  - done.
  - eapply sset_sublist; [|exact Hs]. apply sublist_filter.
  - by apply shrink_ok.
  - pose proof (fmap_Permutation fst _ _ Hz) as Hp. rewrite fmap_app, (zip_fst _ _ _ _ Hr), (zip_fst _ _ _ _ Hr'), fst_zip in Hp by lia.
    pose proof (core_nodup _ _ _ _ (rep_core _ _ _ _ Hr)) as [Hnh Hnd]%NoDup_cons. rewrite Hp in Hnd. apply NoDup_app in Hnd as (_ & Hdisj & _).
    assert (Hk : forall k, k ∈ ns <-> k ∈ ns' \/ k ∈ xs) by (intros k; rewrite Hp; apply elem_of_app).
    rewrite Hk in Hnh. apply set_eq. intros k. rewrite Hdom, Hd, Hh, elem_of_difference, !elem_of_list_to_set, !elem_of_cons, Hk.
    clear -Hnh Hdisj. naive_solver.
  - unfold map_remove. cbn [fst]. apply filter_scores. apply Hs.
Qed.

Lemma delete_all_ok ks : forall t mp, t_rep t mp -> exists t', delete_all t_delete t ks = Some t' /\ t_rep t' (foldl (fun mp k => delete k mp) mp ks).
Proof.
  induction ks as [|k ks IH]; intros t mp Ht; [by exists t|]. destruct (t_delete_ok t mp k Ht) as (t1 & E & Ht1). cbn [delete_all foldl].
  rewrite E. mrun. by apply IH.
Qed.

Lemma foldl_delete_lookup ks : forall (mp : gmap sds loc) k, foldl (fun mp k => delete k mp) mp ks !! k = if decide (k ∈ ks) then None else mp !! k.
Proof.
  induction ks as [|k0 ks IH]; intros mp k; cbn [foldl]; [by rewrite decide_False by set_solver|]. rewrite IH. destruct (decide (k ∈ ks)); [by rewrite decide_True by set_solver|].
  destruct (decide (k = k0)) as [->|]; [rewrite lookup_delete_eq; by rewrite decide_True by set_solver|].
  rewrite lookup_delete_ne by done. by rewrite decide_False by set_solver.
Qed.

(** Deleting the members of one part leaves the table of the other part. *)
Lemma table_split l1 l2 : NoDup ((l1 ++ l2).*2.*2) -> foldl (fun mp k => delete k mp) (table_of (l1 ++ l2)) (l2.*2.*2) = table_of l1.
Proof.
  intros Hn. apply map_eq. intros k. rewrite foldl_delete_lookup. unfold table_of at 1. rewrite fmap_app, list_to_map_app, lookup_union. fold (table_of l1) (table_of l2).
  rewrite !fmap_app in Hn. apply NoDup_app in Hn as (_ & Hd & _). destruct (decide (k ∈ l2.*2.*2)) as [Hk|Hk].
  - symmetry. apply not_elem_of_list_to_map_1. rewrite table_keys. intros Hk1. by apply (Hd k).
  - assert (table_of l2 !! k = None) as -> by (apply not_elem_of_list_to_map_1; by rewrite table_keys).
    by destruct (table_of l1 !! k).
Qed.

(** From the deletions of the skip list to the sorted set. *)
Lemma remove_ok m zs ns es (gone : entry -> bool) (dr : mem -> zskiplist -> T -> option (mem * zskiplist * T * Z)) : linked m zs ns es ->
  (forall d d', delete_all t_delete d ((filter (fun y => gone y = true) es).*2) = Some d' ->
   exists m' z' ns' xs, dr m (zzsl zs) d = Some (m', z', d', zlen (filter (fun y => gone y = true) es)) /\
     rep m' z' ns' (filter (fun y => gone y = false) es) /\ length xs = length (filter (fun y => gone y = true) es) /\
     zip ns es ≡ₚ zip ns' (filter (fun y => gone y = false) es) ++ zip xs (filter (fun y => gone y = true) es) /\
     (dom m' : gset loc) = dom m ∖ list_to_set xs /\ header z' = header (zzsl zs)) ->
  exists m' zs', ('(m, z, t, deleted) ← dr m (zzsl zs) (zdict zs); Some (m, mkZset (shrink_table t) z, deleted))
    = Some (m', zs', snd (map_remove (scores_of es) gone)) /\ zrep m' zs' (fst (map_remove (scores_of es) gone)).
Proof.
  intros Hl Hdr. pose proof Hl as [Hr Hs Ht Hd]. destruct (delete_all_ok ((filter (fun y => gone y = true) es).*2) _ _ Ht) as (t' & Et & Ht').
  destruct (Hdr _ _ Et) as (m' & z' & ns' & xs & -> & Hr' & Hxs & Hz & Hdom & Hh). mrun. eexists _, _. split.
  - do 2 f_equal. unfold map_remove. cbn [snd]. rewrite size_filter_scores by apply Hs. done.
  - apply (removed_ok m zs ns es m' z' t' ns' xs gone); try done.
    assert (Hn : NoDup ((zip ns es).*2.*2)) by (rewrite (zip_snd _ _ _ _ Hr); apply Hs).
    rewrite (table_of_perm _ _ Hn Hz) in Ht'. rewrite Hz in Hn.
    pose proof (table_split (zip ns' (filter (fun y => gone y = false) es)) (zip xs (filter (fun y => gone y = true) es)) Hn) as Hsp.
    rewrite (snd_zip xs) in Hsp by lia. by rewrite Hsp in Ht'.
Qed.

Lemma zremrangeByScore_ok m zs M r : zrep m zs M -> Z.of_nat (size M) < 2 ^ 32 - 1 -> dnum (min r) -> dnum (max r) ->
  exists m' zs', zremrangeByScore m zs r = Some (m', zs', snd (map_remove M (in_range r))) /\ zrep m' zs' (fst (map_remove M (in_range r))).
Proof.
  intros (ns & es & Hl & ->) Hlen Hmn Hmx. rewrite (linked_size _ _ _ _ Hl) in Hlen. pose proof Hl as [Hr Hs Ht Hd].
  apply (remove_ok m zs ns es (in_range r) (fun m z d => zslDeleteRangeByScore t_delete m z r d) Hl). intros d d' Hdel.
  by apply score_delete_spec.
Qed.

Lemma zremrangeByLex_ok m zs M r : zrep m zs M -> Z.of_nat (size M) < 2 ^ 32 - 1 -> (forall a b s s', M !! a = Some s -> M !! b = Some s' -> dkey s = dkey s') ->
  exists m' zs', zremrangeByLex m zs r = Some (m', zs', snd (map_remove M (in_lex_range r))) /\ zrep m' zs' (fst (map_remove M (in_lex_range r))).
Proof.
  intros (ns & es & Hl & ->) Hlen Heq. rewrite (linked_size _ _ _ _ Hl) in Hlen. pose proof Hl as [Hr Hs Ht Hd].
  apply (remove_ok m zs ns es (in_lex_range r) (fun m z d => zslDeleteRangeByLex t_delete m z r d) Hl). intros d d' Hdel.
  destruct (lex_cuts es r (sset_sorted _ Hs)) as [Hg Hc].
  { intros a b Ha Hb. apply (Heq a.2 b.2); by apply scores_of_lookup; [apply Hs|]. }
  apply (delete_tests_spec t_delete m (zzsl zs) ns es Hr Hlen (fun y => zslLexValueGteMin (snd y) r) (fun y => zslLexValueLteMax (snd y) r)); try done.
  - intros n y _ He _ _. unfold lex_gte. by rewrite He.
  - intros n y _ He _ _. unfold lex_lte. by rewrite He.
  - apply Hs.
Qed.

Lemma filter_positions (gone : entry -> bool) es A B : (A + B <= length es)%nat ->
  (forall i y, es !! i = Some y -> gone y = bool_decide (A <= i < A + B)%nat) ->
  filter (fun y => gone y = true) es = take B (drop A es) /\ filter (fun y => gone y = false) es = take A es ++ drop (A + B) es.
Proof.
  intros Hle Hpos. assert (Esplit : es = take A es ++ take B (drop A es) ++ drop (A + B) es) by (rewrite <- (drop_drop _ B A), !take_drop; done).
  assert (H1 : Forall (fun y => gone y = false) (take A es)).
  { apply Forall_lookup. intros i y [Hi Hlt]%lookup_take_Some. rewrite (Hpos i y Hi). apply bool_decide_false. lia. }
  assert (H2 : Forall (fun y => gone y = true) (take B (drop A es))).
  { apply Forall_lookup. intros i y [Hi Hlt]%lookup_take_Some. rewrite lookup_drop in Hi. rewrite (Hpos _ y Hi). apply bool_decide_true. lia. }
  assert (H3 : Forall (fun y => gone y = false) (drop (A + B) es)).
  { apply Forall_lookup. intros i y Hi. rewrite lookup_drop in Hi. rewrite (Hpos _ y Hi). apply bool_decide_false. lia. }
  assert (Hn : forall b l, Forall (fun y => gone y = b) l -> Forall (fun y => ~ gone y = negb b) l) by (intros b l Hf; eapply Forall_impl; [exact Hf|]; intros y ->; by destruct b).
  apply Hn in H1 as H1', H2 as H2', H3 as H3'. split; rewrite Esplit at 1; rewrite !filter_app.
  - rewrite (filter_none _ (take A es)), (filter_all _ (take B (drop A es))), (filter_none _ (drop (A + B) es)) by done. by rewrite app_nil_r.
  - rewrite (filter_all _ (take A es)), (filter_none _ (take B (drop A es))), (filter_all _ (drop (A + B) es)) by done. done.
Qed.

Lemma sanitize_spec n start end_ a b : sanitize n start end_ = Some (a, b) -> 0 <= a <= b /\ b < n.
Proof.
  unfold sanitize. set (e1 := if end_ <? 0 then _ else _). set (s1 := if start <? 0 then _ else _).
  destruct (_ || _) eqn:Eo; [done|]. intros [= <- <-]. zbool. destruct (Z.ltb_spec s1 0); destruct (e1 >=? n) eqn:E; zbool; lia.
Qed.

Lemma zremrangeByRank_ok m zs M start end_ : zrep m zs M -> Z.of_nat (size M) < 2 ^ 32 - 1 ->
  exists m' zs', zremrangeByRank m zs start end_ = Some (m', zs', snd (map_remove M (rank_gone M start end_))) /\
    zrep m' zs' (fst (map_remove M (rank_gone M start end_))).
Proof.
  intros (ns & es & Hl & ->) Hlen. rewrite (linked_size _ _ _ _ Hl) in Hlen. pose proof Hl as [Hr Hs Ht Hd]. unfold zremrangeByRank, zsetLength.
  rewrite (rep_len _ _ _ _ Hr), (rep_zlen _ _ _ _ Hr). pose proof (linked_size _ _ _ _ Hl) as Hsz.
  destruct (sanitize (zlen es) start end_) as [[a b]|] eqn:Es.
  2:{ eexists _, _. assert (Hnone : forall y, rank_gone (scores_of es) start end_ y = false) by (intros y; unfold rank_gone; by rewrite Hsz, Es).
      unfold map_remove. cbn [fst snd]. split.
      - do 2 f_equal. rewrite size_filter_scores by apply Hs. rewrite filter_none; [done|]. apply Forall_forall. intros y _. by rewrite Hnone.
      - exists ns, es. split; [done|]. rewrite filter_scores by apply Hs. rewrite filter_all; [done|]. apply Forall_forall. auto. }
  assert (Hab : 0 <= a <= b /\ b < zlen es).
  { by eapply sanitize_spec. }
  set (A := Z.to_nat a). set (B := Z.to_nat (b - a + 1)).
  assert (HAB : (A + B <= length es)%nat) by (unfold zlen in *; lia).
  set (gone := rank_gone (scores_of es) start end_).
  assert (Hpos : forall i y, es !! i = Some y -> gone y = bool_decide (A <= i < A + B)%nat).
  { intros i y Hi. unfold gone, rank_gone. rewrite Hsz, Es. unfold below. rewrite (size_filter_scores (fun w => klt w y) true es) by apply Hs.
    destruct (count_below es i y (sset_sorted _ Hs) Hi) as [-> _]. apply eq_iff_eq_true. rewrite andb_true_iff, !Z.leb_le, bool_decide_eq_true. lia. }
  destruct (filter_positions gone es A B HAB Hpos) as [Ft Ff].
  apply (remove_ok m zs ns es gone (fun m z d => zslDeleteRangeByRank t_delete m z (u32 (a + 1)) (u32 (b + 1)) d) Hl). intros d d' Hdel. rewrite Ft in Hdel |- *. rewrite Ff.
  rewrite !u32_small by (unfold zlen in *; lia).
  destruct (delete_range_spec t_delete m (zzsl zs) ns es Hr Hlen (fun _ t => Some (t <? a + 1)) (fun _ t => Some (t <=? b + 1)) A B d d')
    as (m' & z' & E & Hr' & Hdom & Hh); try done.
  { intros l f l' n _ _ _. f_equal. apply eq_iff_eq_true. rewrite Z.ltb_lt, bool_decide_eq_true. unfold zlen. lia. }
  { intros i y n _ _ _. f_equal. apply eq_iff_eq_true. rewrite Z.leb_le, bool_decide_eq_true. lia. }
  pose proof (chain_length _ _ _ _ (rep_chain _ _ _ _ Hr)) as Hll.
  exists m', z', (take A ns ++ drop (A + B) ns), (take B (drop A ns)). split_and!; try done.
  - unfold zslDeleteRangeByRank. rewrite E. do 2 f_equal. unfold zlen. rewrite length_take, length_drop. lia.
  - rewrite !length_take, !length_drop. lia.
  - by apply zip_cut.
Qed.

(** ** Sequences of calls *)

Inductive zop :=
  | OAdd (draws : list Z) (flags : Z) (sc : double) (e : sds)
  | ODel (e : sds)
  | OScore (e : sds)
  | ORank (e : sds) (reverse : bool)
  | OCard
  | ORemRangeByScore (r : zrangespec)
  | ORemRangeByRank (start end_ : Z).

Inductive zreply := RAdded (a : added) | RBool (b : bool) | RScore (s : option double) | RInt (n : Z).

Definition exec (m : mem) (zs : zset T) (o : zop) : option (mem * zset T * zreply) :=
  match o with
  | OAdd draws flags sc e => '(m, zs, a) ← zsetAdd garbage garbage_ptr draws m zs sc e flags; Some (m, zs, RAdded a)
  | ODel e => '(m, zs, b) ← zsetDel m zs e; Some (m, zs, RBool b)
  | OScore e => '(zs, s) ← zsetScore m zs e; Some (m, zs, RScore s)
  | ORank e reverse => '(zs, r) ← zsetRank m zs e reverse; Some (m, zs, RInt r)
  | OCard => Some (m, zs, RInt (zsetLength zs))
  | ORemRangeByScore r => '(m, zs, n) ← zremrangeByScore m zs r; Some (m, zs, RInt n)
  | ORemRangeByRank a b => '(m, zs, n) ← zremrangeByRank m zs a b; Some (m, zs, RInt n)
  end.

Fixpoint run (m : mem) (zs : zset T) (os : list zop) : option (mem * zset T * list zreply) :=
  match os with
  | [] => Some (m, zs, [])
  | o :: os => '(m, zs, r) ← exec m zs o; '(m, zs, rs) ← run m zs os; Some (m, zs, r :: rs)
  end.

Definition map_exec (M : scores) (o : zop) : scores * zreply :=
  match o with
  | OAdd _ flags sc e => let '(M, a) := map_add M sc e flags in (M, RAdded a)
  | ODel e => (delete e M, RBool (bool_decide (is_Some (M !! e))))
  | OScore e => (M, RScore (M !! e))
  | ORank e reverse => (M, RInt (map_rank M e reverse))
  | OCard => (M, RInt (Z.of_nat (size M)))
  | ORemRangeByScore r => let '(M, n) := map_remove M (in_range r) in (M, RInt n)
  | ORemRangeByRank a b => let '(M, n) := map_remove M (rank_gone M a b) in (M, RInt n)
  end.

Fixpoint map_run (M : scores) (os : list zop) : scores * list zreply :=
  match os with
  | [] => (M, [])
  | o :: os => let '(M, r) := map_exec M o in let '(M, rs) := map_run M os in (M, r :: rs)
  end.

(** The random numbers end the level loop; the bounds of a range are not NaN. *)
Definition op_ok (o : zop) : Prop :=
  match o with
  | OAdd draws _ _ _ => is_Some (zslRandomLevel draws)
  | ORemRangeByScore r => dnum (min r) /\ dnum (max r)
  | _ => True
  end.

Lemma map_add_size M sc e flags : (size (fst (map_add M sc e flags)) <= size M + 1)%nat.
Proof.
  assert (Hi : forall v, (size (<[e := v]> M) <= size M + 1)%nat).
  { intros v. rewrite map_size_insert. destruct (M !! e); simpl; lia. }
  unfold map_add. destruct (isnan sc); [simpl; lia|]. destruct (M !! e).
  - repeat (destruct (has_flag flags _)); try destruct (isnan _); try destruct (deq _ _); simpl; (lia || apply Hi).
  - destruct (has_flag flags _); simpl; [lia|apply Hi].
Qed.

Lemma map_exec_size M o : (size (fst (map_exec M o)) <= size M + 1)%nat.
Proof.
  assert (Hf : forall gone, (size (fst (map_remove M gone)) <= size M + 1)%nat).
  { intros gone. unfold map_remove. cbn [fst]. pose proof (map_subseteq_size _ _ (map_filter_subseteq (fun kv => gone (kv_entry kv) = false) M)) as Hle. lia. }
  destruct o; cbn [map_exec fst].
  - pose proof (map_add_size M sc e flags). by destruct (map_add M sc e flags).
  - rewrite map_size_delete. destruct (M !! e); simpl; lia.
  - lia.
  - lia.
  - lia.
  - pose proof (Hf (in_range r)). by destruct (map_remove M (in_range r)).
  - pose proof (Hf (rank_gone M start end_)). by destruct (map_remove M (rank_gone M start end_)).
Qed.

Lemma exec_ok m zs M o : zrep m zs M -> Z.of_nat (size M) < 2 ^ 32 - 1 -> op_ok o ->
  exists m' zs', exec m zs o = Some (m', zs', snd (map_exec M o)) /\ zrep m' zs' (fst (map_exec M o)).
Proof.
  intros Hz Hlen Ho. destruct o as [draws flags sc e|e|e|e reverse| |r|a b]; cbn [exec map_exec].
  - destruct (zsetAdd_ok draws m zs M sc e flags Hz Hlen Ho) as (m' & zs' & -> & Hz'). mrun. destruct (map_add M sc e flags). by exists m', zs'.
  - destruct (zsetDel_ok m zs M e Hz Hlen) as (m' & zs' & -> & Hz'). mrun. by exists m', zs'.
  - destruct (zsetScore_ok m zs M e Hz) as (zs' & -> & Hz'). mrun. by exists m, zs'.
  - destruct (zsetRank_ok m zs M e reverse Hz Hlen) as (zs' & -> & Hz'). mrun. by exists m, zs'.
  - exists m, zs. split; [|done]. destruct Hz as (ns & es & Hl & ->). rewrite (linked_size _ _ _ _ Hl). unfold zsetLength.
    pose proof (linked_rep _ _ _ _ Hl) as Hr. by rewrite (rep_len _ _ _ _ Hr), (rep_zlen _ _ _ _ Hr).
  - destruct Ho as [Hmn Hmx]. destruct (zremrangeByScore_ok m zs M r Hz Hlen Hmn Hmx) as (m' & zs' & -> & Hz'). mrun. destruct (map_remove M _). by exists m', zs'.
  - destruct (zremrangeByRank_ok m zs M a b Hz Hlen) as (m' & zs' & -> & Hz'). mrun. destruct (map_remove M _). by exists m', zs'.
Qed.

Lemma zset_run_ok os : forall m zs M, zrep m zs M -> Z.of_nat (size M) + zlen os < 2 ^ 32 - 1 -> Forall op_ok os ->
  exists m' zs', run m zs os = Some (m', zs', snd (map_run M os)) /\ zrep m' zs' (fst (map_run M os)).
Proof.
  induction os as [|o os IH]; intros m zs M Hz Hlen Ho; [by exists m, zs|]. apply Forall_cons in Ho as [Ho Hos]. rewrite zlen_cons in Hlen. pose proof (zlen_nonneg os).
  destruct (exec_ok m zs M o Hz ltac:(lia) Ho) as (m1 & zs1 & E1 & Hz1). pose proof (map_exec_size M o) as Hsz.
  destruct (IH m1 zs1 _ Hz1 ltac:(lia) Hos) as (m2 & zs2 & E2 & Hz2). cbn [run map_run]. rewrite E1. mrun. rewrite E2. mrun.
  exists m2, zs2. destruct (map_exec M o) as [M1 r]. cbn [fst snd] in *. by destruct (map_run M1 os).
Qed.

(** C3: a sorted set refines a finite map from members to scores.  Any sequence of
    fewer than 2^32-1 calls (ZADD with all its flags, ZREM, ZSCORE, ZRANK, ZREVRANK,
    ZCARD, and removals by ranges of scores and ranks) on a new sorted set answers
    every call as the map does, where the rank of a member is the number of members
    with a smaller score, or the same score and a smaller name; hash table and skip
    list agree at the end, and no node is leaked or used after it was freed. *)
Theorem zset_refines_map (os : list zop) :
  zlen os < 2 ^ 32 - 1 -> Forall op_ok os ->
  exists m zs, ('(m, zs) ← zsetCreate garbage garbage_ptr ∅; run m zs os) = Some (m, zs, snd (map_run ∅ os)) /\
    zrep m zs (fst (map_run ∅ os)).
Proof.
  intros Hlen Ho. destruct zsetCreate_ok as (m & zs & -> & Hz). mrun.
  apply (zset_run_ok os m zs ∅ Hz); [|done]. by rewrite map_size_empty.
Qed.

(** Removing by a lexicographic range, from a sorted set in which all scores are
    equal (which is what the command requires), removes exactly the members of the
    range from hash table and skip list, and counts them. *)
Theorem zremrangeByLex_correct m zs M r : zrep m zs M -> Z.of_nat (size M) < 2 ^ 32 - 1 ->
  (forall a b s s', M !! a = Some s -> M !! b = Some s' -> dkey s = dkey s') ->
  exists m' zs', zremrangeByLex m zs r = Some (m', zs', Z.of_nat (size (filter (fun kv => in_lex_range r (kv_entry kv) = true) M))) /\
    zrep m' zs' (filter (fun kv => in_lex_range r (kv_entry kv) = false) M).
Proof. apply zremrangeByLex_ok. Qed.

End Refine.

(** ** The hash table of dict.c *)

Definition dictSdsKeyCompare (key1 key2 : sds) : bool :=
  let l1 := zlen key1 in
  let l2 := zlen key2 in
  if negb (l1 =? l2) then false else memcmp key1 key2 =? 0.

Definition HASHTABLE_MIN_FILL := 10.

Section DictTable.
(** The keyed hash of the members, and the value of [dict_can_resize]. *)
Context (dictSdsHash : sds -> Z) (Hhash : forall k, in_u64 (dictSdsHash k)) (can_resize : bool).

#[local] Instance zsetDictType : Dict.DictType sds loc := {|
  Dict.hashFunction := dictSdsHash; Dict.keyDup := None; Dict.valDup := None; Dict.keyCompare := dictSdsKeyCompare |}.

Definition htNeedsResize (d : Dict.dict sds loc) : bool :=
  let size := s64 (Dict.dictSlots d) in
  let used := s64 (Dict.dictSize d) in
  (size >? Dict.DICT_HT_INITIAL_SIZE) && (Z.quot (used * 100) size <? HASHTABLE_MIN_FILL).

(** The value of an entry until it is set. *)
Context (uninit : loc).

Definition entry_val (d : Dict.dict sds loc) (r : Dict.ref) : option loc := e ← Dict.deref d r; Some (Dict.de_val e).
Definition unlink_val (d : Dict.dict sds loc) (k : sds) : option (Dict.dict sds loc * option loc) :=
  match Dict.dictUnlink d k with
  | Some (d, he) => Some (d, option_map Dict.de_val he)
  | None => None
  end.
Definition delete_key (d : Dict.dict sds loc) (k : sds) : option (Dict.dict sds loc) :=
  match Dict.dictDelete d k with Some (d, _) => Some d | None => None end.

#[local] Instance dict_table : HashTable (Dict.dict sds loc) Dict.ref := {|
  t_create := Dict.dictCreate;
  t_find := Dict.dictFind;
  t_val := entry_val;
  t_setval := Dict.dictSetVal;
  t_add := Dict.dictAdd uninit can_resize;
  t_unlink := unlink_val;
  t_delete := delete_key;
  t_needs_resize := htNeedsResize;
  t_resize d := snd (Dict.dictResize can_resize d) |}.

Lemma memcmp_eq a : forall b, length a = length b -> memcmp a b = 0 <-> a = b.
Proof.
  induction a as [|x a IH]; intros [|y b] Hl; try done. cbn [memcmp]. injection Hl as Hl. destruct (Z.eqb_spec x y) as [->|Hne].
  - rewrite IH by done. split; [by intros ->|by intros [= ->]].
  - destruct (x <? y); split; try done; intros [= ? ?]; done.
Qed.

Lemma keyCompare_eq a b : dictSdsKeyCompare a b = true <-> a = b.
Proof.
  unfold dictSdsKeyCompare. destruct (Z.eqb_spec (zlen a) (zlen b)) as [E|E]; cbn [negb].
  - rewrite Z.eqb_eq. apply memcmp_eq. unfold zlen in E. lia.
  - split; [done|]. by intros ->.
Qed.

#[local] Program Instance zset_dict_laws : Dict.DictTypeLaws sds loc (list Z) := {| Dict.keyNorm k := k |}.
Next Obligation. apply keyCompare_eq. Qed.
Next Obligation. by intros a b ->. Qed.
Next Obligation. apply Hhash. Qed.
Next Obligation. done. Qed.

Lemma dict_size d : Dict.dict_ok (N := list Z) d -> zlen (Dict.entries d) = Z.of_nat (size (Dict.dict_map (N := list Z) d)).
Proof.
  intros Hok. unfold Dict.dict_map, Dict.map_of. rewrite map_size_list_to_map.
  - unfold zlen. by rewrite length_fmap.
  - rewrite <- list_fmap_compose. apply (Dict.ok_keys _ Hok).
Qed.

#[local] Program Instance dict_table_laws : HashTableLaws (Dict.dict sds loc) Dict.ref := {|
  t_rep d mp := Dict.dict_ok (N := list Z) d /\ Dict.dict_map d = mp |}.
Next Obligation. split; [apply Dict.create_ok|done]. Qed.
Next Obligation.
  intros d mp k [Hok <-]. destruct (Dict.find_ok d k Hok) as (d' & r & E & Hsm & Hr). exists d', r.
  pose proof (Dict.same_map_eq d d' Hok Hsm) as Hmap. pose proof (proj1 Hsm) as Hok'. rewrite <- Hmap. split; [done|]. split; [done|].
  destruct r as [[[t j] p]|]; [|by apply Dict.dict_map_None]. destruct Hr as (e & He & Hn & Hin). change (Dict.norm e = k) in Hn. exists (Dict.de_val e). cbn [t_val dict_table]. unfold entry_val. rewrite He.
  split_and!; [done|rewrite <- Hn; apply Dict.dict_map_lookup; [apply Hok'|done]|]. intros v.
  unfold Dict.deref in He. destruct (Dict.table (Dict.get_ht d' t) !! Z.to_nat j) as [c|] eqn:Ec; [|done]. cbn [mbind option_bind] in He.
  destruct (Dict.setVal_ok d' t j p c e v Hok' Ec He) as (d2 & E2 & Hok2 & Hm2 & _). exists d2. split_and!; [done|done|]. rewrite Hm2, Hn. done.
Qed.
Next Obligation.
  intros d mp k v [Hok <-] Hk Hsz. destruct (Dict.add_ok uninit can_resize d k v Hok) as (d' & E & Hok' & _ & _ & Hm).
  { rewrite (dict_size d Hok). unfold Dict.MAX_GROWTH. lia. }
  exists d'. cbn [t_add dict_table]. rewrite E. rewrite decide_True in Hm by done. rewrite bool_decide_true by done. done.
Qed.
Next Obligation.
  intros d mp k [Hok <-]. destruct (Dict.genericDelete_ok d k Hok) as (d' & he & E & Hok' & _ & _ & Hv & Hm). exists d'.
  cbn [t_unlink dict_table]. unfold unlink_val, Dict.dictUnlink. rewrite E. change (option_map Dict.de_val he) with (Dict.de_val <$> he). rewrite Hv. done.
Qed.
Next Obligation.
  intros d mp k [Hok <-]. destruct (Dict.genericDelete_ok d k Hok) as (d' & he & E & Hok' & _ & _ & _ & Hm). exists d'.
  cbn [t_delete dict_table]. unfold delete_key, Dict.dictDelete. rewrite E. done.
Qed.
Next Obligation.
  intros d mp [Hok <-]. cbn [t_resize dict_table]. unfold Dict.dictResize. destruct (_ || _); [done|].
  match goal with |- context [Dict.dictExpand d ?sz] => destruct (Dict.dictExpand_ok d sz Hok (Dict.dictResize_size _)) as (Hok' & He & _) end.
  split; [done|]. unfold Dict.dict_map. by rewrite He.
Qed.
End DictTable.

(** ** A small sorted set *)

#[local] Existing Instance ZslOps.sample_heap.

Definition sample_hash (k : sds) : Z := u64 (foldr Z.add 0 k).

Lemma sample_hash_range k : in_u64 (sample_hash k).
Proof. unfold sample_hash, in_u64, ULLONG_MAX. pose proof (uN_range 64 (foldr Z.add 0 k) ltac:(lia)). lia. Qed.

#[local] Instance sample_table : HashTable (Dict.dict sds loc) Dict.ref := dict_table sample_hash true 1%positive.
#[local] Instance sample_laws : HashTableLaws (Dict.dict sds loc) Dict.ref := dict_table_laws sample_hash sample_hash_range true 1%positive.

Definition sample_ops : list zop :=
  [OAdd [0; 65535] 0 two [98]; OAdd [65535] 0 one [97]; OAdd [65535] 0 two [99]; ORank [98] false; ORank [98] true;
   OAdd [0; 0; 65535] ZADD_INCR one [97]; OAdd [65535] ZADD_NX one [98]; OScore [97]; ORemRangeByRank (-1) (-1); OCard;
   ODel [98]; OAdd [65535] 0 S754_nan [98]; ORemRangeByScore {| min := one; max := two; minex := true; maxex := false |}; OCard].

Lemma zset_refines_map_witness :
  exists m zs, ('(m, zs) ← zsetCreate (mkLevel None 7) None ∅; run (mkLevel None 7) None m zs sample_ops)
    = Some (m, zs, [RAdded (mkAdded true ZADD_ADDED (Some two)); RAdded (mkAdded true ZADD_ADDED (Some one)); RAdded (mkAdded true ZADD_ADDED (Some two));
        RInt 1; RInt 1; RAdded (mkAdded true ZADD_UPDATED (Some two)); RAdded (mkAdded true ZADD_NOP None); RScore (Some two); RInt 1; RInt 2;
        RBool true; RAdded (mkAdded false ZADD_NAN None); RInt 1; RInt 0]).
Proof.
  destruct (zset_refines_map (T := Dict.dict sds loc) (R := Dict.ref) (mkLevel None 7) None sample_ops) as (m & zs & E & _).
  - vm_compute. reflexivity.
  - repeat constructor; eexists; reflexivity.
  - exists m, zs. rewrite E. vm_compute. reflexivity.
Defined.

Lemma zremrangeByLex_correct_witness : exists m zs m' zs' : _,
  zremrangeByLex (T := Dict.dict sds loc) (R := Dict.ref) m zs {| lmin := Str [98]; lmax := MaxString; lminex := false; lmaxex := true |} = Some (m', zs', 1).
Proof.
  destruct (zsetCreate_ok (T := Dict.dict sds loc) (R := Dict.ref) (mkLevel None 7) None) as (m0 & zs0 & _ & Hz0).
  destruct (zset_run_ok (T := Dict.dict sds loc) (R := Dict.ref) (mkLevel None 7) None [OAdd [65535] 0 one [97]; OAdd [65535] 0 one [98]] m0 zs0 ∅ Hz0) as (m & zs & _ & Hz).
  - vm_compute. reflexivity.
  - repeat constructor; eexists; reflexivity.
  - destruct (zremrangeByLex_correct m zs _ {| lmin := Str [98]; lmax := MaxString; lminex := false; lmaxex := true |} Hz) as (m' & zs' & E & _).
    + vm_compute. reflexivity.
    + intros a b s s' Ha Hb. apply elem_of_map_to_list in Ha, Hb. vm_compute in Ha, Hb. set_solver.
    + exists m, zs, m', zs'. rewrite E. vm_compute. reflexivity.
Defined.

End Zset.
