(* ===== verification/Glob.v ===== *)
(** * Glob patterns: [stringmatchlen] of src/redis5/src/util.c

    Patterns and strings are buffers of [signed char] values, each with a length
    that is an [int].  The pattern is addressed by an index into its buffer because
    the code looks beyond its length (at the terminator the callers guarantee) and
    steps back; the string only advances, so it is the list of the characters left
    in its buffer.  A read or a pointer outside a buffer, and a length that falls
    below the smallest [int], give [None]. *)

From Stdlib Require Import String Ascii.
From S2P Require Import Prelude Util.
Import Util.

Module Glob.

Definition c_star := 42.
Definition c_question := 63.
Definition c_lbracket := 91.
Definition c_rbracket := 93.
Definition c_caret := 94.
Definition c_backslash := 92.
Definition c_dash := 45.

(** The comparison of two characters outside a range. *)
Definition same_char (nocase : bool) (a b : Z) : bool :=
  if nocase then tolower a =? tolower b else a =? b.

(** [n - k] on [int]s, for a positive [k]. *)
Definition int_sub (n k : Z) : option Z := if n - k <? INT32_MIN then None else Some (n - k).

(** [while (pattern[off] == '*') { pattern++; patternLen--; }] *)
Fixpoint skip_stars (fuel : nat) (buf : list Z) (off p plen : Z) : option (Z * Z) :=
  match fuel with
  | O => None
  | S fuel =>
      c ← zget buf (p + off);
      if c =? c_star then plen ← int_sub plen 1; skip_stars fuel buf off (p + 1) plen else Some (p, plen)
  end.

(** One pattern range [start-end] against the character [c]. *)
Definition range_match (nocase : bool) (start end_ c : Z) : bool :=
  let '(start, end_) := if start >? end_ then (end_, start) else (start, end_) in
  let '(start, end_, c) :=
    if nocase then (tolower start, tolower end_, tolower c) else (start, end_, c) in
  (c >=? start) && (c <=? end_).

(** The [while (1)] over the members of a class; [c] is [string[0]]. *)
Fixpoint class_loop (fuel : nat) (buf : list Z) (nocase : bool) (c : Z) (p plen : Z) (match_ : bool)
  : option (Z * Z * bool) :=
  match fuel with
  | O => None
  | S fuel =>
      p0 ← zget buf p;
      if (p0 =? c_backslash) && (plen >=? 2) then
        e ← zget buf (p + 1);
        class_loop fuel buf nocase c (p + 2) (plen - 2) (if e =? c then true else match_)
      else if p0 =? c_rbracket then Some (p, plen, match_)
      else if plen =? 0 then Some (p - 1, plen + 1, match_)
      else
        p1 ← zget buf (p + 1);
        if (p1 =? c_dash) && (plen >=? 3) then
          p2 ← zget buf (p + 2);
          class_loop fuel buf nocase c (p + 3) (plen - 3)
            (if range_match nocase p0 p2 c then true else match_)
        else
          plen ← int_sub plen 1;
          class_loop fuel buf nocase c (p + 1) plen (if same_char nocase p0 c then true else match_)
  end.

(** The [case '[']: where the class ends, and whether the character passes. *)
Definition match_class (buf : list Z) (nocase : bool) (c : Z) (p plen : Z) : option (Z * Z * bool) :=
  let p := p + 1 in
  plen ← int_sub plen 1;
  p0 ← zget buf p;
  let not := p0 =? c_caret in
  '(p, plen) ← (if not then plen ← int_sub plen 1; Some (p + 1, plen) else Some (p, plen));
  '(p, plen, match_) ← class_loop (S (length buf)) buf nocase c p plen false;
  Some (p, plen, if not then negb match_ else match_).

(** The fall-through from an escape to a plain character. *)
Definition match_plain (buf : list Z) (nocase : bool) (c : Z) (p plen : Z) : option (Z * Z * bool) :=
  p0 ← zget buf p;
  let '(p, plen) := if (p0 =? c_backslash) && (plen >=? 2) then (p + 1, plen - 1) else (p, plen) in
  p0 ← zget buf p;
  Some (p, plen, same_char nocase p0 c).

Fixpoint stringmatchlen_loop (fuel : nat) (buf : list Z) (nocase : bool) (p plen : Z) (s : list Z) (slen : Z)
  : option bool :=
  match fuel with
  | O => None
  | S fuel =>
      if (plen =? 0) || (slen =? 0) then Some ((plen =? 0) && (slen =? 0))
      else
        p0 ← zget buf p;
        if p0 =? c_star then
          '(p, plen) ← skip_stars (S (length buf)) buf 1 p plen;
          if plen =? 1 then Some true
          else
            plen ← int_sub plen 1;
            (fix try (s : list Z) (slen : Z) : option bool :=
               if slen =? 0 then Some false
               else
                 r ← stringmatchlen_loop fuel buf nocase (p + 1) plen s slen;
                 if (r : bool) then Some true
                 else match s with
                      | [] => None
                      | _ :: s' => slen ← int_sub slen 1; try s' slen
                      end) s slen
        else
          match s with
          | [] => None
          | c :: s' =>
              '(p, plen, ok) ←
                (if p0 =? c_question then Some (p, plen, true)
                 else if p0 =? c_lbracket then match_class buf nocase c p plen
                 else match_plain buf nocase c p plen);
              if negb ok then Some false
              else
                slen ← int_sub slen 1;
                let p := p + 1 in
                plen ← int_sub plen 1;
                if slen =? 0 then '(_, plen) ← skip_stars (S (length buf)) buf 0 p plen; Some (plen =? 0)
                else stringmatchlen_loop fuel buf nocase p plen s' slen
          end
  end.

(** [pattern] and [string] are the buffers the pointers point into. *)
Definition stringmatchlen (pattern : list Z) (patternLen : Z) (string : list Z) (stringLen : Z) (nocase : bool)
  : option bool :=
  stringmatchlen_loop (S (length pattern)) pattern nocase 0 patternLen string stringLen.

(** ** The reference: patterns as token lists *)

Inductive item :=
| Exactly (e : Z)
| Between (a b : Z)
| Member (a : Z).

Inductive token :=
| Star
| Any
| OneOf (negated : bool) (items : list item)
| Lit (c : Z).

(** The members of a class and what follows its closing bracket; a class that is
    not closed extends to the end of the pattern. *)
Fixpoint parse_items (fuel : nat) (pat : list Z) : list item * list Z :=
  match fuel, pat with
  | O, _ | _, [] => ([], [])
  | S fuel, p0 :: rest =>
      match bool_decide (p0 = c_backslash), rest with
      | true, e :: rest' => let '(its, r) := parse_items fuel rest' in (Exactly e :: its, r)
      | _, _ =>
          if p0 =? c_rbracket then ([], rest)
          else match rest with
               | p1 :: p2 :: rest' =>
                   if p1 =? c_dash then
                     let '(its, r) := parse_items fuel rest' in (Between p0 p2 :: its, r)
                   else let '(its, r) := parse_items fuel rest in (Member p0 :: its, r)
               | _ => let '(its, r) := parse_items fuel rest in (Member p0 :: its, r)
               end
      end
  end.

Fixpoint parse (fuel : nat) (pat : list Z) : list token :=
  match fuel, pat with
  | O, _ | _, [] => []
  | S fuel, p0 :: rest =>
      if p0 =? c_star then Star :: parse fuel rest
      else if p0 =? c_question then Any :: parse fuel rest
      else if p0 =? c_lbracket then
        let '(negated, rest) :=
          match rest with
          | p1 :: rest' => if p1 =? c_caret then (true, rest') else (false, rest)
          | [] => (false, rest)
          end in
        let '(its, r) := parse_items (length rest) rest in OneOf negated its :: parse fuel r
      else match bool_decide (p0 = c_backslash), rest with
           | true, e :: rest' => Lit e :: parse fuel rest'
           | _, _ => Lit p0 :: parse fuel rest
           end
  end.

Definition tokens (pat : list Z) : list token := parse (length pat) pat.

Definition fold_case (nocase : bool) (c : Z) : Z := if nocase then tolower c else c.

(** The ends of a range may be in either order; they are ordered before their
    case is folded. *)
Definition item_ok (nocase : bool) (c : Z) (it : item) : bool :=
  match it with
  | Exactly e => e =? c
  | Between a b =>
      (fold_case nocase (Z.min a b) <=? fold_case nocase c) && (fold_case nocase c <=? fold_case nocase (Z.max a b))
  | Member a => fold_case nocase a =? fold_case nocase c
  end.

Definition token_ok (nocase : bool) (c : Z) (t : token) : bool :=
  match t with
  | Star => false
  | Any => true
  | OneOf negated its => xorb negated (existsb (item_ok nocase c) its)
  | Lit a => fold_case nocase a =? fold_case nocase c
  end.

(** What it means for a string to match: a star stands for any string, every
    other token for one character. *)
Inductive glob (nocase : bool) : list token -> list Z -> Prop :=
| glob_nil : glob nocase [] []
| glob_star ts a b : glob nocase ts b -> glob nocase (Star :: ts) (a ++ b)
| glob_one t ts c s :
    t <> Star -> token_ok nocase c t = true -> glob nocase ts s -> glob nocase (t :: ts) (c :: s).

Definition glob_test (p s : string) : option bool :=
  stringmatchlen (cstr p ++ [0]) (zlen (cstr p)) (cstr s ++ [0]) (zlen (cstr s)) false.

Example glob_examples :
  glob_test "h*llo" "heello" = Some true /\ glob_test "h[a-f]llo" "hello" = Some true /\
  glob_test "h[^e]llo" "hello" = Some false /\ glob_test "*[" "x[" = Some false /\
  glob_test "a\*" "a*" = Some true /\ glob_test "*" EmptyString = Some false /\
  glob_test "[a" "a" = Some true /\ glob_test "**a**" "xa" = Some true.
Proof. vm_compute. repeat split. Qed.

(** ** Proof *)

Lemma same_char_spec nocase a c : same_char nocase a c = (fold_case nocase a =? fold_case nocase c).
Proof. by destruct nocase. Qed.

Lemma range_match_spec nocase a b c : range_match nocase a b c = item_ok nocase c (Between a b).
Proof.
  unfold range_match, item_ok. rewrite Z.gtb_ltb. destruct (Z.ltb_spec b a).
  - rewrite Z.min_r, Z.max_l by lia. destruct nocase; by rewrite Z.geb_leb.
  - rewrite Z.min_l, Z.max_r by lia. destruct nocase; by rewrite Z.geb_leb.
Qed.

Lemma int_sub_ok n k : 0 <= n -> 0 <= k <= 3 -> int_sub n k = Some (n - k).
Proof. intros. unfold int_sub, INT32_MIN. destruct (Z.ltb_spec (n - k) (-2147483648)); [lia|done]. Qed.

(** The characters from [p] on are [pat] and then the terminator. *)
Definition view (buf : list Z) (p : Z) (pat : list Z) : Prop :=
  exists pre post, buf = pre ++ pat ++ 0 :: post /\ p = zlen pre.

Lemma view_nil buf p : view buf p [] -> zget buf p = Some 0.
Proof. intros (pre & post & -> & ->). by apply (zget_app pre post 0). Qed.

Lemma view_cons buf p c pat : view buf p (c :: pat) -> zget buf p = Some c /\ view buf (p + 1) pat.
Proof.
  intros (pre & post & -> & ->). split; [by apply zget_app|].
  exists (pre ++ [c]), post. rewrite <- app_assoc. split; [done|]. by rewrite zlen_app.
Qed.

Lemma view_length buf p pat : view buf p pat -> (length pat < length buf)%nat.
Proof. intros (pre & post & -> & _). rewrite !length_app. simpl. lia. Qed.

(** The character at [p], the terminator included. *)
Definition peek (pat : list Z) : Z := match pat with c :: _ => c | [] => 0 end.

Lemma view_peek buf p pat : view buf p pat -> zget buf p = Some (peek pat).
Proof. destruct pat; [apply view_nil|]. intros H. by apply view_cons in H as [-> _]. Qed.

Fixpoint drop_stars (pat : list Z) : list Z :=
  match pat with
  | c :: pat' => if c =? c_star then drop_stars pat' else pat
  | [] => []
  end.

Lemma skip_stars_0 fuel : forall buf p pat, view buf p pat -> (length pat < fuel)%nat ->
  exists p', skip_stars fuel buf 0 p (zlen pat) = Some (p', zlen (drop_stars pat)).
Proof.
  induction fuel as [|fuel IH]; intros buf p pat Hv Hf; [lia|].
  cbn [skip_stars]. rewrite Z.add_0_r, (view_peek _ _ _ Hv). mrun.
  destruct pat as [|c pat]; [by exists p|]. cbn [peek drop_stars].
  destruct (Z.eqb_spec c c_star); [|by exists p].
  apply view_cons in Hv as [_ Hv]. simpl in Hf. rewrite zlen_cons. pose proof (zlen_nonneg pat). rewrite int_sub_ok by lia. mrun.
  replace (1 + zlen pat - 1) with (zlen pat) by lia. apply IH; [done|lia].
Qed.

Lemma skip_stars_1 fuel : forall buf p pat, view buf (p + 1) pat -> (length pat < fuel)%nat ->
  exists p', skip_stars fuel buf 1 p (1 + zlen pat) = Some (p', 1 + zlen (drop_stars pat)) /\
    view buf (p' + 1) (drop_stars pat).
Proof.
  induction fuel as [|fuel IH]; intros buf p pat Hv Hf; [lia|].
  cbn [skip_stars]. rewrite (view_peek _ _ _ Hv). mrun.
  destruct pat as [|c pat]; [by exists p|]. cbn [peek drop_stars].
  destruct (Z.eqb_spec c c_star); [|by exists p].
  apply view_cons in Hv as [_ Hv]. simpl in Hf. rewrite zlen_cons. pose proof (zlen_nonneg pat). rewrite int_sub_ok by lia. mrun.
  replace (1 + (1 + zlen pat) - 1) with (1 + zlen pat) by lia. apply IH; [done|lia].
Qed.

(** *** Classes *)

Lemma parse_items_S k p0 rest :
  parse_items (S k) (p0 :: rest) =
    if (p0 =? c_backslash) && (zlen (p0 :: rest) >=? 2) then
      let '(its, r) := parse_items k (tail rest) in (Exactly (peek rest) :: its, r)
    else if p0 =? c_rbracket then ([], rest)
    else if (peek rest =? c_dash) && (zlen (p0 :: rest) >=? 3) then
      let '(its, r) := parse_items k (tail (tail rest)) in (Between p0 (peek (tail rest)) :: its, r)
    else let '(its, r) := parse_items k rest in (Member p0 :: its, r).
Proof.
  assert (Hz : forall l : list Z, 0 <= zlen l) by (intros; apply zlen_nonneg).
  cbn [parse_items]. rewrite !zlen_cons.
  destruct (Z.eqb_spec p0 c_backslash) as [->|Hb]; [rewrite bool_decide_eq_true_2 by done|rewrite bool_decide_eq_false_2 by done].
  - destruct rest as [|e rest]; [done|]. cbn [tail peek andb]. rewrite zlen_cons.
    specialize (Hz rest). by zif_true.
  - cbn [andb]. destruct (p0 =? c_rbracket); [done|].
    destruct rest as [|p1 [|p2 rest]]; cbn [tail peek]; [done|by rewrite andb_false_r|].
    specialize (Hz rest). rewrite !zlen_cons.
    destruct (p1 =? c_dash); [|done]. cbn [andb]. by zif_true.
Qed.

Lemma parse_items_rest k : forall pat, (length (snd (parse_items k pat)) <= length pat)%nat.
Proof.
  induction k as [|k IH]; intros [|p0 rest]; try (simpl; lia). rewrite parse_items_S.
  assert (Ht : forall l : list Z, (length (tail l) <= length l)%nat) by (intros []; simpl; lia).
  repeat match goal with |- context [if ?b then _ else _] => destruct b end; cbn [snd length]; [|lia| |].
  - specialize (IH (tail rest)). destruct (parse_items k (tail rest)). specialize (Ht rest). simpl in *. lia.
  - specialize (IH (tail (tail rest))). destruct (parse_items k _). pose proof (Ht rest).
    specialize (Ht (tail rest)). simpl in *. lia.
  - specialize (IH rest). destruct (parse_items k rest). simpl in *. lia.
Qed.

Lemma class_loop_spec nocase c buf fuel : forall k pat p m, view buf p pat ->
  (length pat < fuel)%nat -> (length pat <= k)%nat ->
  let '(its, rest) := parse_items k pat in
  exists p', class_loop fuel buf nocase c p (zlen pat) m
             = Some (p', 1 + zlen rest, m || existsb (item_ok nocase c) its) /\
    view buf (p' + 1) rest.
Proof.
  induction fuel as [|fuel IH]; intros k pat p m Hv Hf Hk; [lia|].
  cbn [class_loop]. rewrite (view_peek _ _ _ Hv). mrun.
  destruct pat as [|p0 rest].
  { replace (parse_items k []) with (@nil item, @nil Z) by (by destruct k).
    exists (p - 1). rewrite orb_false_r. simpl. split; [done|].
    by replace (p - 1 + 1) with p by lia. }
  destruct k as [|k]; [simpl in Hk; lia|]. rewrite parse_items_S.
  apply view_cons in Hv as [_ Hv]. cbn [peek]. simpl in Hf, Hk.
  assert (Hz : forall l : list Z, 0 <= zlen l) by (intros; apply zlen_nonneg).
  destruct ((p0 =? c_backslash) && (zlen (p0 :: rest) >=? 2)) eqn:Hesc.
  { destruct rest as [|e rest]; [by rewrite andb_false_r in Hesc|].
    apply view_cons in Hv as [-> Hv]. mrun. cbn [tail peek]. simpl in Hf, Hk. rewrite !zlen_cons.
    replace (p + 2) with (p + 1 + 1) by lia. replace (1 + (1 + zlen rest) - 2) with (zlen rest) by lia.
    specialize (IH k rest (p + 1 + 1) (if e =? c then true else m) Hv ltac:(lia) ltac:(lia)).
    destruct (parse_items k rest) as [its r]. destruct IH as (p' & -> & Hv').
    exists p'. split; [|done]. cbn [existsb item_ok]. by destruct (e =? c), m. }
  destruct (p0 =? c_rbracket); [by exists p; rewrite zlen_cons, orb_false_r|].
  rewrite zlen_cons. specialize (Hz rest) as Hz0. zif_false.
  rewrite (view_peek _ _ _ Hv). mrun. rewrite <- (zlen_cons p0 rest).
  destruct ((peek rest =? c_dash) && (zlen (p0 :: rest) >=? 3)) eqn:Hr.
  { destruct rest as [|p1 [|p2 rest]]; [by rewrite andb_false_r in Hr|by rewrite andb_false_r in Hr|].
    apply view_cons in Hv as [_ Hv]. apply view_cons in Hv as [E Hv].
    replace (p + 2) with (p + 1 + 1) by lia. rewrite E. mrun. cbn [tail peek]. simpl in Hf, Hk.
    rewrite !zlen_cons. replace (p + 3) with (p + 1 + 1 + 1) by lia.
    replace (1 + (1 + (1 + zlen rest)) - 3) with (zlen rest) by lia.
    specialize (IH k rest (p + 1 + 1 + 1) (if range_match nocase p0 p2 c then true else m) Hv
      ltac:(lia) ltac:(lia)).
    destruct (parse_items k rest) as [its r]. destruct IH as (p' & -> & Hv').
    exists p'. split; [|done]. cbn [existsb]. rewrite range_match_spec. by destruct (item_ok nocase c (Between p0 p2)), m. }
  rewrite zlen_cons, int_sub_ok by lia. mrun. replace (1 + zlen rest - 1) with (zlen rest) by lia.
  specialize (IH k rest (p + 1) (if same_char nocase p0 c then true else m) Hv ltac:(lia) ltac:(lia)).
  destruct (parse_items k rest) as [its r]. destruct IH as (p' & -> & Hv').
  exists p'. split; [|done]. cbn [existsb item_ok]. rewrite same_char_spec.
  by destruct (fold_case nocase p0 =? fold_case nocase c), m.
Qed.

(** *** Tokens *)

(** The first token of a non-empty pattern, and what follows it. *)
Definition token1 (p0 : Z) (rest : list Z) : token * list Z :=
  if p0 =? c_star then (Star, rest)
  else if p0 =? c_question then (Any, rest)
  else if p0 =? c_lbracket then
    let negated := peek rest =? c_caret in
    let rest := if negated then tail rest else rest in
    let '(its, r) := parse_items (length rest) rest in (OneOf negated its, r)
  else if (p0 =? c_backslash) && (zlen (p0 :: rest) >=? 2) then (Lit (peek rest), tail rest)
  else (Lit p0, rest).

Lemma parse_S k p0 rest :
  parse (S k) (p0 :: rest) = let '(t, r) := token1 p0 rest in t :: parse k r.
Proof.
  cbn [parse]. unfold token1. destruct (p0 =? c_star); [done|]. destruct (p0 =? c_question); [done|].
  destruct (p0 =? c_lbracket).
  - destruct rest as [|p1 rest]; [done|]. cbn [peek tail].
    destruct (p1 =? c_caret); by destruct (parse_items _ _).
  - destruct (Z.eqb_spec p0 c_backslash) as [->|Hb];
      [rewrite bool_decide_eq_true_2 by done|by rewrite bool_decide_eq_false_2 by done].
    destruct rest as [|e rest]; [done|]. cbn [peek tail andb]. rewrite !zlen_cons.
    pose proof (zlen_nonneg rest). by zif_true.
Qed.

Lemma tail_length (l : list Z) : (length (tail l) <= length l)%nat.
Proof. destruct l; simpl; lia. Qed.

Lemma token1_rest p0 rest : (length (snd (token1 p0 rest)) <= length rest)%nat.
Proof.
  unfold token1. pose proof (tail_length rest).
  destruct (p0 =? c_star); [done|]. destruct (p0 =? c_question); [done|]. destruct (p0 =? c_lbracket).
  - set (r := if _ : bool then tail rest else rest).
    assert (length r <= length rest)%nat by (unfold r; destruct (_ =? c_caret); lia).
    pose proof (parse_items_rest (length r) r). destruct (parse_items (length r) r). simpl in *. lia.
  - destruct (_ && _); simpl; lia.
Qed.

Lemma parse_enough k : forall pat, (length pat <= k)%nat -> parse k pat = tokens pat.
Proof.
  induction k as [k IH] using (well_founded_induction lt_wf). intros pat Hk. unfold tokens.
  destruct pat as [|p0 rest]; [by destruct k|].
  destruct k as [|k]; [simpl in Hk; lia|]. cbn [length]. simpl in Hk. rewrite !parse_S.
  pose proof (token1_rest p0 rest). destruct (token1 p0 rest) as [t r]. simpl in *.
  rewrite IH by lia. destruct (decide (length rest = k)) as [<-|]; [by rewrite IH by lia|].
  by rewrite (IH (length rest)) by lia.
Qed.

Lemma tokens_cons p0 rest :
  tokens (p0 :: rest) = let '(t, r) := token1 p0 rest in t :: tokens r.
Proof.
  unfold tokens at 1. cbn [length]. rewrite parse_S. pose proof (token1_rest p0 rest).
  destruct (token1 p0 rest) as [t r]. simpl in *. by rewrite parse_enough.
Qed.

Lemma tokens_star rest : tokens (c_star :: rest) = Star :: tokens rest.
Proof. by rewrite tokens_cons. Qed.

Lemma token1_not_star p0 rest : p0 <> c_star -> fst (token1 p0 rest) <> Star.
Proof.
  intros Hp. unfold token1. rewrite (proj2 (Z.eqb_neq p0 c_star)) by done.
  destruct (p0 =? c_question); [done|]. destruct (p0 =? c_lbracket); [by destruct (parse_items _ _)|].
  by destruct (_ && _).
Qed.

(** *** Stars in the reference *)

Section Ref.
Context (nocase : bool).

Lemma glob_star_inv ts s : glob nocase (Star :: ts) s <-> exists a b, s = a ++ b /\ glob nocase ts b.
Proof.
  split; [|intros (a & b & -> & H); by constructor].
  inversion 1; simplify_eq; eauto.
Qed.

Lemma glob_one_inv t ts c s : t <> Star ->
  glob nocase (t :: ts) (c :: s) <-> token_ok nocase c t = true /\ glob nocase ts s.
Proof.
  intros Ht. split; [|intros [? ?]; by constructor]. inversion 1; simplify_eq; done.
Qed.

Lemma glob_one_empty t ts : t <> Star -> ~ glob nocase (t :: ts) [].
Proof. intros Ht. inversion 1; simplify_eq. Qed.

Lemma glob_two_stars ts s : glob nocase (Star :: Star :: ts) s <-> glob nocase (Star :: ts) s.
Proof.
  rewrite !glob_star_inv. split.
  - intros (a & b & -> & (a' & b' & -> & H)%glob_star_inv). exists (a ++ a'), b'. by rewrite app_assoc.
  - intros (a & b & -> & H). exists a, b. split; [done|]. by apply (glob_star _ _ []).
Qed.

Lemma glob_drop_stars pat s :
  glob nocase (Star :: tokens pat) s <-> glob nocase (Star :: tokens (drop_stars pat)) s.
Proof.
  induction pat as [|c pat IH]; [done|]. cbn [drop_stars].
  destruct (Z.eqb_spec c c_star) as [->|]; [|done]. by rewrite tokens_star, glob_two_stars.
Qed.

Lemma drop_stars_head pat : match drop_stars pat with c :: _ => c <> c_star | [] => True end.
Proof. induction pat as [|c pat IH]; [done|]. simpl. by destruct (Z.eqb_spec c c_star). Qed.

(** A pattern that starts with something else than a star needs a character. *)
Lemma glob_needs_char pat : pat <> [] -> match pat with c :: _ => c <> c_star | [] => True end ->
  ~ glob nocase (tokens pat) [].
Proof.
  destruct pat as [|c pat]; [done|]. intros _ Hc. rewrite tokens_cons.
  pose proof (token1_not_star c pat Hc). destruct (token1 c pat). by apply glob_one_empty.
Qed.

Lemma glob_empty pat : glob nocase (tokens pat) [] <-> drop_stars pat = [].
Proof.
  induction pat as [|c pat IH]; [split; [done|constructor]|]. cbn [drop_stars].
  destruct (Z.eqb_spec c c_star) as [->|Hc].
  - rewrite tokens_star, glob_star_inv, <- IH. split.
    + intros (a & b & E & H). symmetry in E. by apply app_eq_nil in E as [-> ->].
    + intros H. by exists [], [].
  - split; [|done]. intros H. exfalso. by apply (glob_needs_char (c :: pat)).
Qed.

End Ref.

(** *** The code against the reference *)

Lemma match_one nocase c buf p p0 rest : view buf p (p0 :: rest) -> p0 <> c_star ->
  let '(t, r) := token1 p0 rest in
  exists p',
    (if p0 =? c_question then Some (p, zlen (p0 :: rest), true)
     else if p0 =? c_lbracket then match_class buf nocase c p (zlen (p0 :: rest))
     else match_plain buf nocase c p (zlen (p0 :: rest)))
    = Some (p', 1 + zlen r, token_ok nocase c t) /\ view buf (p' + 1) r.
Proof.
  intros Hv Hstar. pose proof (view_length _ _ _ Hv) as Hlen. apply view_cons in Hv as [E Hv].
  unfold token1. rewrite (proj2 (Z.eqb_neq p0 c_star)) by done.
  destruct (p0 =? c_question); [by exists p; rewrite zlen_cons|].
  destruct (p0 =? c_lbracket).
  - unfold match_class. cbv zeta. pose proof (zlen_nonneg rest) as Hz0. rewrite zlen_cons, int_sub_ok by lia. mrun.
    rewrite (view_peek _ _ _ Hv). mrun. replace (1 + zlen rest - 1) with (zlen rest) by lia. simpl in Hlen.
    set (neg := peek rest =? c_caret).
    set (rest' := if neg then tail rest else rest).
    assert (Hr : (length rest' <= length rest)%nat) by (pose proof (tail_length rest); unfold rest'; destruct neg; lia).
    assert (Hv' : exists q, (if neg then plen ← int_sub (zlen rest) 1; Some (p + 1 + 1, plen) else Some (p + 1, zlen rest)) = Some (q, zlen rest')
                            /\ view buf q rest').
    { unfold rest', neg in *. destruct (Z.eqb_spec (peek rest) c_caret) as [Hc|]; [|by exists (p + 1)].
      destruct rest as [|x rest]; [done|]. apply view_cons in Hv as [_ Hv]. exists (p + 1 + 1).
      simpl tail. rewrite int_sub_ok by (rewrite ?zlen_cons in *; lia). mrun. rewrite zlen_cons. split; [do 2 f_equal; lia|done]. }
    destruct Hv' as (q & -> & Hv'). mrun.
    pose proof (class_loop_spec nocase c buf (S (length buf)) (length rest') rest' q false Hv'
      ltac:(lia) ltac:(lia)) as Hcl.
    destruct (parse_items (length rest') rest') as [its r]. destruct Hcl as (p' & -> & Hview).
    mrun. exists p'. split; [|done]. cbn [token_ok orb]. by destruct neg, (existsb _ _).
  - unfold match_plain. rewrite E. mrun.
    destruct ((p0 =? c_backslash) && (zlen (p0 :: rest) >=? 2)) eqn:Hesc.
    + destruct rest as [|e rest]; [by rewrite andb_false_r in Hesc|].
      apply view_cons in Hv as [-> Hv]. mrun. exists (p + 1). rewrite !zlen_cons. cbn [tail peek token_ok].
      rewrite same_char_spec. split; [do 3 f_equal; lia|done].
    + rewrite E. mrun. exists p. by rewrite same_char_spec, zlen_cons.
Qed.

(** The [while (stringLen)] of the star, over any matcher of the rest. *)
Lemma try_suffixes (m : list Z -> Z -> option bool) (P : list Z -> Prop) (post s : list Z) :
  (forall s', s' <> [] -> exists b, m (s' ++ post) (zlen s') = Some b /\ (b = true <-> P s')) ->
  exists b, (fix try (s : list Z) (slen : Z) : option bool :=
               if slen =? 0 then Some false
               else
                 r ← m s slen;
                 if (r : bool) then Some true
                 else match s with
                      | [] => None
                      | _ :: s' => slen ← int_sub slen 1; try s' slen
                      end) (s ++ post) (zlen s) = Some b /\
    (b = true <-> exists x y, s = x ++ y /\ y <> [] /\ P y).
Proof.
  intros Hm. induction s as [|c s (b & IH & Hb)].
  - exists false. split; [by destruct post|]. split; [done|]. intros (x & y & E & Hy & _).
    symmetry in E. by apply app_eq_nil in E as [_ ->].
  - pose proof (zlen_nonneg s). destruct (Hm (c :: s)) as (r & E & Hr); [done|].
    cbn [app] in *. destruct (Z.eqb_spec (zlen (c :: s)) 0) as [Hz|]; [rewrite zlen_cons in Hz; lia|].
    rewrite E. mrun. destruct r.
    + exists true. split; [done|]. split; [|done]. intros _. exists [], (c :: s).
      split; [done|]. split; [done|]. by apply Hr.
    + exists b. rewrite zlen_cons, int_sub_ok by lia. mrun. replace (1 + zlen s - 1) with (zlen s) by lia.
      split; [exact IH|]. rewrite Hb. split.
      * intros (x & y & -> & Hy). by exists (c :: x), y.
      * intros ([|c' x] & y & E' & Hy & HP); simplify_eq/=; [by apply Hr in HP|by exists x, y].
Qed.

Lemma nonempty_length {A} (x : A) l : (zlen (x :: l) =? 0) = false.
Proof. rewrite zlen_cons. pose proof (zlen_nonneg l). apply Z.eqb_neq. lia. Qed.

Lemma drop_stars_length pat : (length (drop_stars pat) <= length pat)%nat.
Proof. induction pat as [|x pat IH]; [done|]. simpl. destruct (x =? c_star); simpl; lia. Qed.

Lemma stringmatchlen_loop_spec nocase buf post fuel : forall p pat s, view buf p pat ->
  (length pat < fuel)%nat ->
  exists b, stringmatchlen_loop fuel buf nocase p (zlen pat) (s ++ post) (zlen s) = Some b /\
    (b = true <-> if decide (s = []) then pat = [] else glob nocase (tokens pat) s).
Proof.
  induction fuel as [|fuel IH]; intros p pat s Hv Hf; [lia|]. cbn [stringmatchlen_loop].
  destruct s as [|c s'].
  { rewrite orb_true_r, andb_true_r. destruct pat as [|p0 pat]; [by exists true|]. exists false. split; [|done].
    by rewrite nonempty_length. }
  rewrite decide_False by done. destruct pat as [|p0 rest].
  { exists false. split; [by rewrite nonempty_length|]. split; [done|]. inversion 1. }
  rewrite !nonempty_length. cbn [orb].
  pose proof (view_length _ _ _ Hv) as Hlen. destruct (view_cons _ _ _ _ Hv) as [-> Hv']. mrun.
  simpl in Hf, Hlen. destruct (Z.eqb_spec p0 c_star) as [->|Hstar].
  - destruct (skip_stars_1 (S (length buf)) buf p rest Hv' ltac:(lia)) as (q & E & Hq).
    rewrite (zlen_cons c_star), E. mrun. rewrite tokens_star. setoid_rewrite glob_drop_stars.
    pose proof (drop_stars_head rest) as Hhd. pose proof (drop_stars_length rest) as Hle.
    set (r := drop_stars rest) in *. clearbody r.
    destruct r as [|x r].
    + exists true. split; [done|]. split; [|done]. intros _.
      apply glob_star_inv. exists (c :: s'), []. rewrite app_nil_r. split; [done|constructor].
    + pose proof (zlen_nonneg r). replace (1 + zlen (x :: r) =? 1) with false
        by (symmetry; apply Z.eqb_neq; rewrite zlen_cons; lia).
      rewrite int_sub_ok by (rewrite ?zlen_cons; lia). mrun. replace (1 + zlen (x :: r) - 1) with (zlen (x :: r)) by lia.
      destruct (try_suffixes (stringmatchlen_loop fuel buf nocase (q + 1) (zlen (x :: r)))
        (glob nocase (tokens (x :: r))) post (c :: s')) as (b & Eb & Hb).
      { intros s0 Hs0. destruct (IH (q + 1) (x :: r) s0 Hq) as (b & Eb & Hb); [lia|].
        exists b. by rewrite decide_False in Hb. }
      exists b. split; [exact Eb|]. rewrite Hb, glob_star_inv. split.
      * intros (a & y & ? & _ & ?). by exists a, y.
      * intros (a & y & ? & Hg). exists a, y. split; [done|]. split; [|done].
        intros ->. by apply (glob_needs_char nocase (x :: r)) in Hg.
  - pose proof (match_one nocase c buf p p0 rest Hv Hstar) as Hone. rewrite tokens_cons. cbn [app].
    pose proof (token1_not_star p0 rest Hstar) as Hns. pose proof (token1_rest p0 rest) as Hrest.
    destruct (token1 p0 rest) as [t r]. simpl in Hns, Hrest. destruct Hone as (q & -> & Hq). mrun.
    setoid_rewrite glob_one_inv; [|done]. destruct (token_ok nocase c t); cbn [negb].
    2: { exists false. split; [done|]. split; [done|]. by intros [? _]. }
    pose proof (zlen_nonneg r). pose proof (zlen_nonneg s'). rewrite (zlen_cons c), !int_sub_ok by lia. mrun. cbv zeta.
    replace (1 + zlen r - 1) with (zlen r) by lia. replace (1 + zlen s' - 1) with (zlen s') by lia. destruct s' as [|c' s'].
    + destruct (skip_stars_0 (S (length buf)) buf (q + 1) r Hq ltac:(lia)) as (q' & ->). mrun.
      exists (zlen (drop_stars r) =? 0). split; [done|]. rewrite glob_empty, Z.eqb_eq.
      destruct (drop_stars r) as [|y l]; [by rewrite zlen_nil|]. rewrite zlen_cons.
      pose proof (zlen_nonneg l). split; [lia|by intros [_ ?]].
    + rewrite nonempty_length. destruct (IH (q + 1) r (c' :: s') Hq ltac:(lia)) as (b & Eb & Hb).
      exists b. split; [exact Eb|]. rewrite decide_False in Hb by done. rewrite Hb. naive_solver.
Qed.

Lemma stringmatchlen_spec (pattern post string rest : list Z) (nocase : bool) :
  exists b, stringmatchlen (pattern ++ 0 :: post) (zlen pattern) (string ++ rest) (zlen string) nocase = Some b /\
    (b = true <-> if decide (string = []) then pattern = [] else glob nocase (tokens pattern) string).
Proof.
  unfold stringmatchlen. apply stringmatchlen_loop_spec.
  - by exists [], post.
  - rewrite length_app. simpl. lia.
Qed.

(** C29: for a pattern that is followed by its terminator, and a pattern and a string
    whose lengths are [int]s, [stringmatchlen] always returns, never reads outside the
    pattern or past the string, and decides the reference relation: on a non-empty
    string the answer is whether the string matches the tokens of the pattern; on the
    empty string it is whether the pattern is empty. *)
Theorem stringmatchlen_correct (pattern post string rest : list Z) (nocase : bool) :
  zlen pattern <= INT32_MAX -> zlen string <= INT32_MAX ->
  exists b, stringmatchlen (pattern ++ 0 :: post) (s32 (zlen pattern)) (string ++ rest) (s32 (zlen string)) nocase = Some b /\
    (b = true <-> if decide (string = []) then pattern = [] else glob nocase (tokens pattern) string).
Proof.
  intros Hp Hs. pose proof (zlen_nonneg pattern). pose proof (zlen_nonneg string).
  rewrite !s32_id by (unfold INT32_MIN; lia). apply stringmatchlen_spec.
Qed.

Lemma stringmatchlen_correct_witness :
  exists b, stringmatchlen (cstr "h[a-f]l*" ++ [0]) (s32 (zlen (cstr "h[a-f]l*"))) (cstr "hello" ++ [0]) (s32 (zlen (cstr "hello"))) false = Some b /\
    (b = true <-> if decide (cstr "hello" = []) then cstr "h[a-f]l*" = [] else glob false (tokens (cstr "h[a-f]l*")) (cstr "hello")).
Proof. apply (stringmatchlen_correct (cstr "h[a-f]l*") [] (cstr "hello") [0] false); vm_compute; discriminate. Defined.

(** On the empty string the pattern [*] does not match, although a star
    stands for any string and the reference relation holds: the loop is not
    entered, so the trailing stars are not skipped. *)
Theorem star_misses_empty (nocase : bool) (post : list Z) :
  stringmatchlen (cstr "*" ++ 0 :: post) 1 [0] 0 nocase = Some false /\
  glob nocase (tokens (cstr "*")) [].
Proof. split; [reflexivity|]. apply (glob_star nocase [] [] []). constructor. Qed.

End Glob.
