(* ===== verification/Pubsub.v ===== *)
(** * Publish and subscribe (pubsub.c)

    Clients subscribe to channels and to patterns.  Every client has the set of its
    channels and the list of its patterns; the server has, per channel, the list of
    its clients, and the list of all pairs of a client and a pattern.  [None] is a
    failed assertion, or the deletion of a list node that is not there.  The order
    in which a hash table enumerates its keys is a parameter, [DictOrder]. *)

From Stdlib Require Import String Ascii.
From S2P Require Import Prelude Util Glob.

Module Pubsub.
Import Util Glob.

(** A message on the connection of a client: confirmations carry the number of
    subscriptions. *)
Inductive msg :=
  | Subscribed (channel : list Z) (n : Z)
  | Unsubscribed (channel : option (list Z)) (n : Z)
  | PSubscribed (pattern : list Z) (n : Z)
  | PUnsubscribed (pattern : option (list Z)) (n : Z)
  | Message (channel message : list Z)
  | PMessage (pattern channel message : list Z)
  | Count (n : Z)
  | Channels (l : list (list Z))
  | NumSub (l : list (list Z * Z))
  | SyntaxError
  | Help.

Record client := mkClient {
  pubsub_channels : gset (list Z);
  pubsub_patterns : list (list Z);
  in_pubsub : bool;              (** [CLIENT_PUBSUB] *)
  force_repl : bool;             (** [CLIENT_FORCE_REPL] *)
  inbox : list msg
}.

Record server := mkServer {
  clients : gmap Z client;
  srv_channels : gmap (list Z) (list Z);
  srv_patterns : list (Z * list Z);
  cluster_enabled : bool;
  cluster_bus : list (list Z * list Z)   (** messages sent to the other nodes of a cluster *)
}.

(** The order of a hash table. *)
Class DictOrder := {
  dict_order : gset (list Z) -> list (list Z);
  dict_order_perm s : dict_order s ≡ₚ elements s
}.

Definition set_clients (s : server) (m : gmap Z client) : server :=
  mkServer m (srv_channels s) (srv_patterns s) (cluster_enabled s) (cluster_bus s).
Definition set_channels (s : server) (m : gmap (list Z) (list Z)) : server :=
  mkServer (clients s) m (srv_patterns s) (cluster_enabled s) (cluster_bus s).
Definition set_patterns (s : server) (l : list (Z * list Z)) : server :=
  mkServer (clients s) (srv_channels s) l (cluster_enabled s) (cluster_bus s).
Definition set_bus (s : server) (l : list (list Z * list Z)) : server :=
  mkServer (clients s) (srv_channels s) (srv_patterns s) (cluster_enabled s) l.

Definition with_channels (c : client) (x : gset (list Z)) : client := mkClient x (pubsub_patterns c) (in_pubsub c) (force_repl c) (inbox c).
Definition with_patterns (c : client) (l : list (list Z)) : client := mkClient (pubsub_channels c) l (in_pubsub c) (force_repl c) (inbox c).
Definition with_mode (b : bool) (c : client) : client := mkClient (pubsub_channels c) (pubsub_patterns c) b (force_repl c) (inbox c).
Definition with_force (c : client) : client := mkClient (pubsub_channels c) (pubsub_patterns c) (in_pubsub c) true (inbox c).
Definition addReply (m : msg) (c : client) : client :=
  mkClient (pubsub_channels c) (pubsub_patterns c) (in_pubsub c) (force_repl c) (inbox c ++ [m]).

Definition upd (s : server) (id : Z) (f : client -> client) : option server :=
  c ← clients s !! id; Some (set_clients s (<[id := f c]> (clients s))).

Definition clientSubscriptionsCount (c : client) : Z := Z.of_nat (size (pubsub_channels c)) + zlen (pubsub_patterns c).

(** [listSearchKey] and [listDelNode]. *)
Fixpoint list_del {A} `{EqDecision A} (x : A) (l : list A) : option (list A) :=
  match l with
  | [] => None
  | y :: l => if decide (x = y) then Some l else l ← list_del x l; Some (y :: l)
  end.

(** ** Subscriptions *)

Definition pubsubSubscribeChannel (s : server) (id : Z) (channel : list Z) : option (server * bool) :=
  c ← clients s !! id;
  let fresh := bool_decide (channel ∉ pubsub_channels c) in
  s ← (if fresh then
         s ← upd s id (fun c => with_channels c ({[ channel ]} ∪ pubsub_channels c));
         Some (set_channels s (<[channel := default [] (srv_channels s !! channel) ++ [id]]> (srv_channels s)))
       else Some s);
  s ← upd s id (fun c => addReply (Subscribed channel (clientSubscriptionsCount c)) c);
  Some (s, fresh).

Definition notify_client (notify : bool) (m : client -> msg) (s : server) (id : Z) : option server :=
  if notify then upd s id (fun c => addReply (m c) c) else Some s.

Definition pubsubUnsubscribeChannel (s : server) (id : Z) (channel : list Z) (notify : bool) : option (server * bool) :=
  c ← clients s !! id;
  let found := bool_decide (channel ∈ pubsub_channels c) in
  s ← (if found then
         s ← upd s id (fun c => with_channels c (pubsub_channels c ∖ {[ channel ]}));
         l ← srv_channels s !! channel;
         l ← list_del id l;
         Some (set_channels s (match l with [] => delete channel (srv_channels s) | _ :: _ => <[channel := l]> (srv_channels s) end))
       else Some s);
  s ← notify_client notify (fun c => Unsubscribed (Some channel) (clientSubscriptionsCount c)) s id;
  Some (s, found).

Definition pubsubSubscribePattern (s : server) (id : Z) (pattern : list Z) : option (server * bool) :=
  c ← clients s !! id;
  let fresh := bool_decide (pattern ∉ pubsub_patterns c) in
  s ← (if fresh then
         s ← upd s id (fun c => with_patterns c (pubsub_patterns c ++ [pattern]));
         Some (set_patterns s (srv_patterns s ++ [(id, pattern)]))
       else Some s);
  s ← upd s id (fun c => addReply (PSubscribed pattern (clientSubscriptionsCount c)) c);
  Some (s, fresh).

Definition pubsubUnsubscribePattern (s : server) (id : Z) (pattern : list Z) (notify : bool) : option (server * bool) :=
  c ← clients s !! id;
  let found := bool_decide (pattern ∈ pubsub_patterns c) in
  s ← (if found then
         l ← list_del pattern (pubsub_patterns c);
         s ← upd s id (fun c => with_patterns c l);
         l ← list_del (id, pattern) (srv_patterns s);
         Some (set_patterns s l)
       else Some s);
  s ← notify_client notify (fun c => PUnsubscribed (Some pattern) (clientSubscriptionsCount c)) s id;
  Some (s, found).

Fixpoint unsubscribe_loop (s : server) (id : Z) (l : list (list Z)) (notify : bool) (count : Z) : option (server * Z) :=
  match l with
  | [] => Some (s, count)
  | x :: l => '(s, b) ← pubsubUnsubscribeChannel s id x notify; unsubscribe_loop s id l notify (count + (if b : bool then 1 else 0))
  end.

Fixpoint punsubscribe_loop (s : server) (id : Z) (l : list (list Z)) (notify : bool) (count : Z) : option (server * Z) :=
  match l with
  | [] => Some (s, count)
  | x :: l => '(s, b) ← pubsubUnsubscribePattern s id x notify; punsubscribe_loop s id l notify (count + (if b : bool then 1 else 0))
  end.

(** The safe iterator visits every key of the table at its start. *)
Definition pubsubUnsubscribeAllChannels `{DictOrder} (s : server) (id : Z) (notify : bool) : option (server * Z) :=
  c ← clients s !! id;
  '(s, count) ← unsubscribe_loop s id (dict_order (pubsub_channels c)) notify 0;
  s ← notify_client (notify && (count =? 0)) (fun c => Unsubscribed None (clientSubscriptionsCount c)) s id;
  Some (s, count).

Definition pubsubUnsubscribeAllPatterns (s : server) (id : Z) (notify : bool) : option (server * Z) :=
  c ← clients s !! id;
  '(s, count) ← punsubscribe_loop s id (pubsub_patterns c) notify 0;
  s ← notify_client (notify && (count =? 0)) (fun c => PUnsubscribed None (clientSubscriptionsCount c)) s id;
  Some (s, count).

(** ** Publishing *)

Fixpoint send_channel (s : server) (l : list Z) (m : msg) (receivers : Z) : option (server * Z) :=
  match l with
  | [] => Some (s, receivers)
  | i :: l => s ← upd s i (addReply m); send_channel s l m (receivers + 1)
  end.

(** An sds is followed by a NUL byte; its length is converted to an [int]. *)
Definition glob_matches (p channel : list Z) : option bool :=
  stringmatchlen (p ++ [0]) (s32 (zlen p)) (channel ++ [0]) (s32 (zlen channel)) false.

Fixpoint send_patterns (s : server) (l : list (Z * list Z)) (channel message : list Z) (receivers : Z) : option (server * Z) :=
  match l with
  | [] => Some (s, receivers)
  | (i, p) :: l =>
      b ← glob_matches p channel;
      if b : bool then s ← upd s i (addReply (PMessage p channel message)); send_patterns s l channel message (receivers + 1)
      else send_patterns s l channel message receivers
  end.

Definition pubsubPublishMessage (s : server) (channel message : list Z) : option (server * Z) :=
  '(s, receivers) ← (match srv_channels s !! channel with
                     | Some l => send_channel s l (Message channel message) 0
                     | None => Some (s, 0)
                     end);
  send_patterns s (srv_patterns s) channel message receivers.

(** ** Commands *)

Fixpoint subscribe_loop (s : server) (id : Z) (l : list (list Z)) : option server :=
  match l with [] => Some s | x :: l => '(s, _) ← pubsubSubscribeChannel s id x; subscribe_loop s id l end.
Fixpoint psubscribe_loop (s : server) (id : Z) (l : list (list Z)) : option server :=
  match l with [] => Some s | x :: l => '(s, _) ← pubsubSubscribePattern s id x; psubscribe_loop s id l end.

Definition subscribeCommand (s : server) (id : Z) (args : list (list Z)) : option server :=
  s ← subscribe_loop s id args; upd s id (with_mode true).

Definition psubscribeCommand (s : server) (id : Z) (args : list (list Z)) : option server :=
  s ← psubscribe_loop s id args; upd s id (with_mode true).

(** The mode ends with the last subscription. *)
Definition leave_mode (s : server) (id : Z) : option server :=
  upd s id (fun c => if clientSubscriptionsCount c =? 0 then with_mode false c else c).

Definition unsubscribeCommand `{DictOrder} (s : server) (id : Z) (args : list (list Z)) : option server :=
  '(s, _) ← (match args with [] => pubsubUnsubscribeAllChannels s id true | _ :: _ => unsubscribe_loop s id args true 0 end);
  leave_mode s id.

Definition punsubscribeCommand (s : server) (id : Z) (args : list (list Z)) : option server :=
  '(s, _) ← (match args with [] => pubsubUnsubscribeAllPatterns s id true | _ :: _ => punsubscribe_loop s id args true 0 end);
  leave_mode s id.

Definition publishCommand (s : server) (id : Z) (channel message : list Z) : option server :=
  '(s, receivers) ← pubsubPublishMessage s channel message;
  s ← (if cluster_enabled s then Some (set_bus s (cluster_bus s ++ [(channel, message)])) else upd s id with_force);
  upd s id (addReply (Count receivers)).

(** The channels of PUBSUB CHANNELS. *)
Fixpoint matching (pat : option (list Z)) (l : list (list Z)) : option (list (list Z)) :=
  match l with
  | [] => Some []
  | ch :: l =>
      b ← (match pat with None => Some true | Some p => glob_matches p ch end);
      r ← matching pat l;
      Some (if b : bool then ch :: r else r)
  end.

Definition pubsubCommand `{DictOrder} (s : server) (id : Z) (args : list (list Z)) : option server :=
  match args with
  | [] => None
  | sub :: rest =>
      if (zlen rest =? 0) && strcaseeq sub (cstr "help") then upd s id (addReply Help)
      else if strcaseeq sub (cstr "channels") && (zlen rest <=? 1) then
        l ← matching (head rest) (dict_order (dom (srv_channels s)));
        upd s id (addReply (Channels l))
      else if strcaseeq sub (cstr "numsub") then
        upd s id (addReply (NumSub ((fun ch => (ch, zlen (default [] (srv_channels s !! ch)))) <$> rest)))
      else if strcaseeq sub (cstr "numpat") && (zlen rest =? 0) then upd s id (addReply (Count (zlen (srv_patterns s))))
      else upd s id (addReply SyntaxError)
  end.

Definition createClient : client := mkClient ∅ [] false false [].

(** The part of [freeClient] that ends the subscriptions. *)
Definition freeClient `{DictOrder} (s : server) (id : Z) : option server :=
  '(s, _) ← pubsubUnsubscribeAllChannels s id false;
  '(s, _) ← pubsubUnsubscribeAllPatterns s id false;
  Some (set_clients s (delete id (clients s))).

(** ** The index *)

(** The lists of a table hold exactly the pairs of a relation. *)
Record indexed (P : Z -> list Z -> Prop) (m : gmap (list Z) (list Z)) : Prop := mkIndexed {
  ix_in : forall i k, P i k -> exists l, m !! k = Some l /\ i ∈ l;
  ix_of : forall k l i, m !! k = Some l -> i ∈ l -> P i k;
  ix_list : forall k l, m !! k = Some l -> NoDup l /\ l <> []
}.

Lemma indexed_ext (P Q : Z -> list Z -> Prop) m : (forall i k, P i k <-> Q i k) -> indexed P m -> indexed Q m.
Proof. intros E [I1 I2 I3]. split; [|intros; apply E; eauto|done]. intros i k Hq. apply I1, E, Hq. Qed.

Lemma indexed_add (P : Z -> list Z -> Prop) m i k : indexed P m -> ~ P i k ->
  indexed (fun j k' => P j k' \/ (j = i /\ k' = k)) (<[k := default [] (m !! k) ++ [i]]> m).
Proof.
  intros [I1 I2 I3] Hn. split.
  - intros j k' [Hp|[-> ->]].
    + destruct (I1 _ _ Hp) as (l & El & Hj). destruct (decide (k' = k)) as [->|Hne].
      * rewrite lookup_insert_eq, El. eexists. split; [done|]. apply elem_of_app. by left.
      * rewrite lookup_insert_ne by done. eauto.
    + rewrite lookup_insert_eq. eexists. split; [done|]. apply elem_of_app. right. left.
  - intros k' l j E Hj. apply lookup_insert_Some in E as [[<- <-]|[Hne E]]; [|left; by eapply I2].
    apply elem_of_app in Hj as [Hj|[= ->]%list_elem_of_singleton]; [|by right]. destruct (m !! k) as [l|] eqn:El; [|inversion Hj]. left. by eapply I2.
  - intros k' l E. apply lookup_insert_Some in E as [[<- <-]|[Hne E]]; [|by eapply I3]. split; [|by destruct (default [] (m !! k))].
    apply NoDup_app. split; [destruct (m !! k) eqn:El; [by eapply I3|constructor]|]. split; [|apply NoDup_singleton].
    intros j Hj [= ->]%list_elem_of_singleton. destruct (m !! k) as [l|] eqn:El; [|inversion Hj]. by eapply Hn, I2.
Qed.

Lemma list_del_filter {A} `{EqDecision A} (x : A) l : NoDup l -> x ∈ l -> list_del x l = Some (filter (fun y => y <> x) l).
Proof.
  induction l as [|y l IH]; intros Hnd Hin; [inversion Hin|]. apply NoDup_cons in Hnd as [Hy Hnd]. cbn [list_del]. destruct (decide (x = y)) as [->|Hne].
  - rewrite filter_cons_False by (intros Hx; by apply Hx). rewrite filter_all; [done|]. apply Forall_forall. intros z Hz ->. done.
  - rewrite elem_of_cons in Hin. rewrite IH by naive_solver. mrun. by rewrite filter_cons_True by congruence.
Qed.

Lemma indexed_del (P : Z -> list Z -> Prop) m i k : indexed P m -> P i k -> exists l l', m !! k = Some l /\ list_del i l = Some l' /\
  indexed (fun j k' => P j k' /\ ~ (j = i /\ k' = k)) (match l' with [] => delete k m | _ :: _ => <[k := l']> m end).
Proof.
  intros [I1 I2 I3] Hp. destruct (I1 _ _ Hp) as (l & El & Hi). destruct (I3 _ _ El) as [Hnd _]. exists l, (filter (fun y => y <> i) l).
  split; [done|]. split; [by apply list_del_filter|]. set (l' := filter (fun y => y <> i) l).
  assert (Hl' : forall j, j ∈ l' <-> j ∈ l /\ j <> i) by (intros j; unfold l'; rewrite list_elem_of_filter; tauto).
  assert (Hm : forall k', match l' with [] => delete k m | _ :: _ => <[k := l']> m end !! k' = if decide (k' = k) then (match l' with [] => None | _ :: _ => Some l' end) else m !! k').
  { intros k'. destruct (decide (k' = k)) as [->|Hne]; destruct l';
      [apply lookup_delete_eq|apply lookup_insert_eq|by apply lookup_delete_ne|by apply lookup_insert_ne]. }
  split.
  - intros j k' [Hj Hne]. destruct (I1 _ _ Hj) as (l0 & El0 & Hj0). rewrite Hm. destruct (decide (k' = k)) as [->|]; [|by exists l0].
    assert (j ∈ l') as Hjl by (apply Hl'; naive_solver). destruct l' as [|a r] eqn:E; [inversion Hjl|]. eauto.
  - intros k' l0 j E Hj. rewrite Hm in E. destruct (decide (k' = k)) as [->|Hne]; [|split; [by eapply I2|naive_solver]].
    destruct l' as [|a r] eqn:El'; [done|]. injection E as <-. apply Hl' in Hj as [Hj1 Hj2]. split; [by eapply I2|naive_solver].
  - intros k' l0 E. rewrite Hm in E. destruct (decide (k' = k)) as [->|Hne]; [|by eapply I3]. destruct l' as [|a r] eqn:El'; [done|]. injection E as <-.
    split; [|done]. rewrite <- El'. unfold l'. by apply NoDup_filter.
Qed.

(** ** The invariant *)

Definition subscribed (s : server) (i : Z) (ch : list Z) : Prop := exists c, clients s !! i = Some c /\ ch ∈ pubsub_channels c.

(** The patterns of a client, in the list of the server. *)
Definition pats_of (i : Z) (l : list (Z * list Z)) : list (list Z) := snd <$> filter (fun x => x.1 = i) l.

Record sub_ok (s : server) : Prop := mkSubOk {
  so_channels : indexed (subscribed s) (srv_channels s);
  so_patterns : forall i, pats_of i (srv_patterns s) = match clients s !! i with Some c => pubsub_patterns c | None => [] end;
  so_nodup : forall i c, clients s !! i = Some c -> NoDup (pubsub_patterns c)
}.

(** The other fields of the server. *)
Definition frame (s : server) := (cluster_enabled s, cluster_bus s).

Lemma upd_client s i f c : clients s !! i = Some c -> upd s i f = Some (set_clients s (<[i := f c]> (clients s))).
Proof. intros E. unfold upd. by rewrite E. Qed.

(** A client that keeps its subscriptions. *)
Lemma sub_ok_upd s i c c' : sub_ok s -> clients s !! i = Some c -> pubsub_channels c' = pubsub_channels c -> pubsub_patterns c' = pubsub_patterns c ->
  sub_ok (set_clients s (<[i := c']> (clients s))).
Proof.
  intros [S1 S2 S3] Ec H1 H2. split; cbn [clients set_clients srv_channels srv_patterns].
  - eapply indexed_ext; [|exact S1]. intros j k. unfold subscribed. cbn [clients set_clients]. destruct (decide (i = j)) as [<-|Hne].
    + rewrite lookup_insert_eq, Ec. split; intros (? & [= <-] & ?); eexists; (split; [done|congruence]).
    + by rewrite lookup_insert_ne.
  - intros j. rewrite S2. destruct (decide (i = j)) as [<-|Hne]; [by rewrite lookup_insert_eq, Ec|by rewrite lookup_insert_ne].
  - intros j cj E. apply lookup_insert_Some in E as [[<- <-]|[Hne E]]; [rewrite H2|]; by eapply S3.
Qed.

Lemma pats_of_app i l k : pats_of i (l ++ k) = pats_of i l ++ pats_of i k.
Proof. unfold pats_of. by rewrite filter_app, fmap_app. Qed.

(** What an operation of a client leaves of the server. *)
Record moved (id : Z) (s s' : server) (c c' : client) : Prop := mkMoved {
  mv_ok : sub_ok s';
  mv_clients : clients s' = <[id := c']> (clients s);
  mv_mode : in_pubsub c' = in_pubsub c;
  mv_frame : frame s' = frame s
}.

Lemma moved_own id s s' c c' : moved id s s' c c' -> clients s' !! id = Some c'.
Proof. intros []. rewrite mv_clients0. apply lookup_insert_eq. Qed.

Lemma moved_trans id s1 s2 s3 c1 c2 c3 : moved id s1 s2 c1 c2 -> moved id s2 s3 c2 c3 -> moved id s1 s3 c1 c3.
Proof. intros [_ C1 M1 F1] [O2 C2 M2 F2]. split; [done| |congruence..]. rewrite C2, C1. apply insert_insert_eq. Qed.

Lemma moved_refl id s c : sub_ok s -> clients s !! id = Some c -> moved id s s c c.
Proof. intros Hs Ec. split; try done. by rewrite insert_id. Qed.

Lemma moved_upd id s c c' : sub_ok s -> clients s !! id = Some c -> pubsub_channels c' = pubsub_channels c -> pubsub_patterns c' = pubsub_patterns c ->
  in_pubsub c' = in_pubsub c -> moved id s (set_clients s (<[id := c']> (clients s))) c c'.
Proof. intros Hs Ec H1 H2 H3. split; try done. by eapply sub_ok_upd. Qed.

Lemma notify_ok b m s id c : sub_ok s -> clients s !! id = Some c -> exists s' c', notify_client b m s id = Some s' /\ moved id s s' c c' /\
  pubsub_channels c' = pubsub_channels c /\ pubsub_patterns c' = pubsub_patterns c.
Proof.
  intros Hs Ec. unfold notify_client. destruct b.
  - rewrite (upd_client _ _ _ _ Ec). eexists _, _. split; [done|]. split; [by apply moved_upd|done].
  - exists s, c. split; [done|]. split; [by apply moved_refl|done].
Qed.

(** ** The operations *)

(** A change of the channels of one client, in the client and in the index. *)
Lemma channels_changed s s' id c x : sub_ok s -> clients s !! id = Some c -> clients s' = <[id := with_channels c x]> (clients s) ->
  srv_patterns s' = srv_patterns s -> frame s' = frame s ->
  indexed (fun j k => if decide (j = id) then k ∈ x else subscribed s j k) (srv_channels s') -> moved id s s' c (with_channels c x).
Proof.
  intros [S1 S2 S3] Ec Hc Hp Hf Hi. split; try done. split.
  - eapply indexed_ext; [|exact Hi]. intros j k. unfold subscribed. rewrite Hc. destruct (decide (j = id)) as [->|Hne].
    + rewrite lookup_insert_eq. split; [intros Hk; eexists; split; done|by intros (? & [= <-] & ?)].
    + by rewrite lookup_insert_ne.
  - intros j. rewrite Hp, S2, Hc. destruct (decide (j = id)) as [->|Hne]; [by rewrite lookup_insert_eq, Ec|by rewrite lookup_insert_ne].
  - intros j cj E. rewrite Hc in E. apply lookup_insert_Some in E as [[<- <-]|[Hne E]]; [exact (S3 _ _ Ec)|by eapply S3].
Qed.

Lemma pubsubSubscribeChannel_ok s id c ch : sub_ok s -> clients s !! id = Some c -> exists s' c',
  pubsubSubscribeChannel s id ch = Some (s', bool_decide (ch ∉ pubsub_channels c)) /\ moved id s s' c c' /\
  pubsub_channels c' = {[ ch ]} ∪ pubsub_channels c /\ pubsub_patterns c' = pubsub_patterns c.
Proof.
  intros Hs Ec. unfold pubsubSubscribeChannel. rewrite Ec. mrun. destruct (bool_decide (ch ∉ pubsub_channels c)) eqn:Eb.
  - apply bool_decide_eq_true in Eb. rewrite (upd_client _ _ _ _ Ec). mrun. set (x := {[ ch ]} ∪ pubsub_channels c). set (s1 := set_channels _ _).
    assert (M1 : moved id s s1 c (with_channels c x)).
    { apply channels_changed; try done. eapply indexed_ext; [|apply (indexed_add (subscribed s)); [apply (so_channels _ Hs)|]].
      - intros j k. cbv beta. destruct (decide (j = id)) as [->|Hne]; [|naive_solver]. unfold subscribed, x. rewrite elem_of_union, elem_of_singleton. naive_solver.
      - intros (c0 & E0 & Hk). naive_solver. }
    rewrite (upd_client _ _ _ _ (moved_own _ _ _ _ _ M1)). mrun. set (c2 := addReply _ _). exists (set_clients s1 (<[id := c2]> (clients s1))), c2. split; [done|]. split; [|done].
    eapply moved_trans; [exact M1|]. apply moved_upd; try done; [apply (mv_ok _ _ _ _ _ M1)|apply (moved_own _ _ _ _ _ M1)].
  - apply bool_decide_eq_false in Eb. mrun. rewrite (upd_client _ _ _ _ Ec). mrun. set (c2 := addReply _ _). eexists _, c2. split; [done|]. split; [by apply moved_upd|].
    split; [|done]. cbn. apply dec_stable in Eb. set_solver.
Qed.

Lemma pubsubUnsubscribeChannel_ok s id c ch notify : sub_ok s -> clients s !! id = Some c -> exists s' c',
  pubsubUnsubscribeChannel s id ch notify = Some (s', bool_decide (ch ∈ pubsub_channels c)) /\ moved id s s' c c' /\
  pubsub_channels c' = pubsub_channels c ∖ {[ ch ]} /\ pubsub_patterns c' = pubsub_patterns c.
Proof.
  intros Hs Ec. unfold pubsubUnsubscribeChannel. rewrite Ec. mrun. destruct (bool_decide (ch ∈ pubsub_channels c)) eqn:Eb.
  - apply bool_decide_eq_true in Eb. rewrite (upd_client _ _ _ _ Ec). mrun. cbn [srv_channels set_clients].
    destruct (indexed_del (subscribed s) (srv_channels s) id ch (so_channels _ Hs)) as (l & l' & El & Ed & Hi); [by exists c|].
    rewrite El. mrun. rewrite Ed. mrun. set (s1 := set_channels _ _). set (x := pubsub_channels c ∖ {[ ch ]}).
    assert (M1 : moved id s s1 c (with_channels c x)).
    { apply channels_changed; try done. eapply indexed_ext; [|exact Hi]. intros j k. cbv beta. destruct (decide (j = id)) as [->|Hne]; [|naive_solver].
      unfold subscribed, x. rewrite elem_of_difference, elem_of_singleton. naive_solver. }
    destruct (notify_ok notify (fun c => Unsubscribed (Some ch) (clientSubscriptionsCount c)) s1 id _ (mv_ok _ _ _ _ _ M1) (moved_own _ _ _ _ _ M1)) as (s2 & c2 & E2 & M2 & H1 & H2).
    rewrite E2. mrun. exists s2, c2. split; [done|]. split; [by eapply moved_trans|]. by rewrite H1, H2.
  - apply bool_decide_eq_false in Eb. mrun.
    destruct (notify_ok notify (fun c => Unsubscribed (Some ch) (clientSubscriptionsCount c)) s id c Hs Ec) as (s2 & c2 & E2 & M2 & H1 & H2).
    rewrite E2. mrun. exists s2, c2. split; [done|]. split; [done|]. rewrite H1, H2. split; [set_solver|done].
Qed.

Lemma patterns_changed s s' id c l : sub_ok s -> clients s !! id = Some c -> clients s' = <[id := with_patterns c l]> (clients s) ->
  srv_channels s' = srv_channels s -> frame s' = frame s -> NoDup l -> pats_of id (srv_patterns s') = l ->
  (forall j, j <> id -> pats_of j (srv_patterns s') = pats_of j (srv_patterns s)) -> moved id s s' c (with_patterns c l).
Proof.
  intros [S1 S2 S3] Ec Hc Hp Hf Hnd Hid Ho. split; try done. split.
  - rewrite Hp. eapply indexed_ext; [|exact S1]. intros j k. unfold subscribed. rewrite Hc. destruct (decide (j = id)) as [->|Hne].
    + rewrite lookup_insert_eq, Ec. split; intros (? & [= <-] & ?); eexists; (split; [done|done]).
    + by rewrite lookup_insert_ne.
  - intros j. rewrite Hc. destruct (decide (j = id)) as [->|Hne]; [by rewrite lookup_insert_eq|rewrite lookup_insert_ne, Ho by done; apply S2].
  - intros j cj E. rewrite Hc in E. apply lookup_insert_Some in E as [[<- <-]|[Hne E]]; [done|by eapply S3].
Qed.

Lemma pubsubSubscribePattern_ok s id c p : sub_ok s -> clients s !! id = Some c -> exists s' c',
  pubsubSubscribePattern s id p = Some (s', bool_decide (p ∉ pubsub_patterns c)) /\ moved id s s' c c' /\
  (forall q, q ∈ pubsub_patterns c' <-> q = p \/ q ∈ pubsub_patterns c) /\ pubsub_channels c' = pubsub_channels c.
Proof.
  intros Hs Ec. unfold pubsubSubscribePattern. rewrite Ec. mrun. destruct (bool_decide (p ∉ pubsub_patterns c)) eqn:Eb.
  - apply bool_decide_eq_true in Eb. rewrite (upd_client _ _ _ _ Ec). mrun. set (l := pubsub_patterns c ++ [p]). set (s1 := set_patterns _ _).
    assert (Hpat : pats_of id (srv_patterns s) = pubsub_patterns c) by (rewrite (so_patterns _ Hs), Ec; done).
    assert (M1 : moved id s s1 c (with_patterns c l)).
    { apply patterns_changed; try done; cbn [s1 srv_patterns set_patterns set_clients].
      - apply NoDup_app. split; [by eapply (so_nodup _ Hs)|]. split; [|apply NoDup_singleton]. by intros q Hq [= ->]%list_elem_of_singleton.
      - rewrite pats_of_app, Hpat. unfold pats_of at 1. by rewrite filter_cons_True.
      - intros j Hne. rewrite pats_of_app. unfold pats_of at 2. rewrite filter_cons_False by (cbn; congruence). by rewrite app_nil_r. }
    rewrite (upd_client _ _ _ _ (moved_own _ _ _ _ _ M1)). mrun. set (c2 := addReply _ _). exists (set_clients s1 (<[id := c2]> (clients s1))), c2. split; [done|]. split; [|split; [|done]].
    + eapply moved_trans; [exact M1|]. apply moved_upd; try done; [apply (mv_ok _ _ _ _ _ M1)|apply (moved_own _ _ _ _ _ M1)].
    + intros q. cbn [c2 addReply pubsub_patterns with_patterns]. unfold l. rewrite elem_of_app, list_elem_of_singleton. tauto.
  - apply bool_decide_eq_false, dec_stable in Eb. mrun. rewrite (upd_client _ _ _ _ Ec). mrun. set (c2 := addReply _ _). eexists _, c2. split; [done|]. split; [by apply moved_upd|].
    split; [|done]. intros q. cbn. naive_solver.
Qed.

(** Deleting a pair from the list of the server deletes the pattern from those of the client. *)
Lemma list_del_pats id p l : forall ps, list_del p (pats_of id l) = Some ps -> exists l', list_del (id, p) l = Some l' /\ pats_of id l' = ps /\
  forall j, j <> id -> pats_of j l' = pats_of j l.
Proof.
  unfold pats_of. induction l as [|[i q] l IH]; intros ps E; [done|]. cbn [list_del]. destruct (decide ((id, p) = (i, q))) as [[= <- <-]|Hne].
  - rewrite filter_cons_True in E by done. cbn [fmap list_fmap list_del] in E. rewrite decide_True in E by done. injection E as <-.
    exists l. split; [done|]. split; [done|]. intros j Hj. by rewrite filter_cons_False by (cbn; congruence).
  - destruct (decide (i = id)) as [->|Hi].
    + rewrite filter_cons_True in E by done. cbn [fmap list_fmap list_del] in E. rewrite decide_False in E by (cbn; congruence).
      destruct (list_del p (snd <$> filter (fun x : Z * list Z => x.1 = id) l)) as [ps'|] eqn:E'; [|done]. injection E as <-.
      destruct (IH _ eq_refl) as (l' & El & H1 & H2). rewrite El. eexists. split; [done|]. split.
      * rewrite filter_cons_True by done. by cbn; rewrite H1.
      * intros j Hj. rewrite !filter_cons_False by (cbn; congruence). by apply H2.
    + rewrite filter_cons_False in E by done. destruct (IH _ E) as (l' & El & H1 & H2). rewrite El. eexists. split; [done|]. split.
      * by rewrite filter_cons_False.
      * intros j Hj. destruct (decide (i = j)) as [->|Hij]; [rewrite !filter_cons_True by done; cbn; by rewrite H2|rewrite !filter_cons_False by done; by apply H2].
Qed.

Lemma pubsubUnsubscribePattern_ok s id c p notify : sub_ok s -> clients s !! id = Some c -> exists s' c',
  pubsubUnsubscribePattern s id p notify = Some (s', bool_decide (p ∈ pubsub_patterns c)) /\ moved id s s' c c' /\
  (forall q, q ∈ pubsub_patterns c' <-> q ∈ pubsub_patterns c /\ q <> p) /\ pubsub_channels c' = pubsub_channels c.
Proof.
  intros Hs Ec. unfold pubsubUnsubscribePattern. rewrite Ec. mrun. destruct (bool_decide (p ∈ pubsub_patterns c)) eqn:Eb.
  - apply bool_decide_eq_true in Eb. pose proof (so_nodup _ Hs _ _ Ec) as Hnd. rewrite (list_del_filter p _ Hnd Eb). mrun.
    set (l := filter (fun y => y <> p) (pubsub_patterns c)). rewrite (upd_client _ _ _ _ Ec). mrun. cbn [srv_patterns set_clients].
    destruct (list_del_pats id p (srv_patterns s) l) as (l' & El & H1 & H2).
    { rewrite (so_patterns _ Hs), Ec. by apply list_del_filter. }
    rewrite El. mrun. set (s1 := set_patterns _ _).
    assert (M1 : moved id s s1 c (with_patterns c l)) by (apply patterns_changed; try done; by apply NoDup_filter).
    destruct (notify_ok notify (fun c => PUnsubscribed (Some p) (clientSubscriptionsCount c)) s1 id _ (mv_ok _ _ _ _ _ M1) (moved_own _ _ _ _ _ M1)) as (s2 & c2 & E2 & M2 & H3 & H4).
    rewrite E2. mrun. exists s2, c2. split; [done|]. split; [by eapply moved_trans|]. rewrite H3, H4. split; [|done].
    intros q. cbn [pubsub_patterns with_patterns]. unfold l. rewrite list_elem_of_filter. tauto.
  - apply bool_decide_eq_false in Eb. mrun.
    destruct (notify_ok notify (fun c => PUnsubscribed (Some p) (clientSubscriptionsCount c)) s id c Hs Ec) as (s2 & c2 & E2 & M2 & H1 & H2).
    rewrite E2. mrun. exists s2, c2. split; [done|]. split; [done|]. rewrite H1, H2. split; [naive_solver|done].
Qed.

(** *** Loops over arguments *)

Lemma subscribe_loop_ok id l : forall s c, sub_ok s -> clients s !! id = Some c -> exists s' c', subscribe_loop s id l = Some s' /\ moved id s s' c c' /\
  pubsub_channels c' = list_to_set l ∪ pubsub_channels c /\ pubsub_patterns c' = pubsub_patterns c.
Proof.
  induction l as [|x l IH]; intros s c Hs Ec; cbn [subscribe_loop].
  - exists s, c. split; [done|]. split; [by apply moved_refl|]. split; [set_solver|done].
  - destruct (pubsubSubscribeChannel_ok s id c x Hs Ec) as (s1 & c1 & E1 & M1 & H1 & H2). rewrite E1. mrun.
    destruct (IH s1 c1 (mv_ok _ _ _ _ _ M1) (moved_own _ _ _ _ _ M1)) as (s2 & c2 & E2 & M2 & H3 & H4). exists s2, c2. split; [done|].
    split; [by eapply moved_trans|]. rewrite H3, H4, H1, H2. split; [cbn; set_solver|done].
Qed.

Lemma unsubscribe_loop_ok id notify l : forall s c n, sub_ok s -> clients s !! id = Some c -> exists s' c' m, unsubscribe_loop s id l notify n = Some (s', m) /\
  moved id s s' c c' /\ pubsub_channels c' = pubsub_channels c ∖ list_to_set l /\ pubsub_patterns c' = pubsub_patterns c.
Proof.
  induction l as [|x l IH]; intros s c n Hs Ec; cbn [unsubscribe_loop].
  - exists s, c, n. split; [done|]. split; [by apply moved_refl|]. split; [set_solver|done].
  - destruct (pubsubUnsubscribeChannel_ok s id c x notify Hs Ec) as (s1 & c1 & E1 & M1 & H1 & H2). rewrite E1. mrun.
    destruct (IH s1 c1 (n + (if bool_decide (x ∈ pubsub_channels c) then 1 else 0)) (mv_ok _ _ _ _ _ M1) (moved_own _ _ _ _ _ M1)) as (s2 & c2 & m & E2 & M2 & H3 & H4).
    exists s2, c2, m. split; [done|]. split; [by eapply moved_trans|]. rewrite H3, H4, H1, H2. split; [cbn; set_solver|done].
Qed.

Lemma psubscribe_loop_ok id l : forall s c, sub_ok s -> clients s !! id = Some c -> exists s' c', psubscribe_loop s id l = Some s' /\ moved id s s' c c' /\
  (forall q, q ∈ pubsub_patterns c' <-> q ∈ l \/ q ∈ pubsub_patterns c) /\ pubsub_channels c' = pubsub_channels c.
Proof.
  induction l as [|x l IH]; intros s c Hs Ec; cbn [psubscribe_loop].
  - exists s, c. split; [done|]. split; [by apply moved_refl|]. split; [|done]. intros q. rewrite elem_of_nil. tauto.
  - destruct (pubsubSubscribePattern_ok s id c x Hs Ec) as (s1 & c1 & E1 & M1 & H1 & H2). rewrite E1. mrun.
    destruct (IH s1 c1 (mv_ok _ _ _ _ _ M1) (moved_own _ _ _ _ _ M1)) as (s2 & c2 & E2 & M2 & H3 & H4). exists s2, c2. split; [done|].
    split; [by eapply moved_trans|]. rewrite H4, H2. split; [|done]. intros q. rewrite H3, H1, elem_of_cons. tauto.
Qed.

Lemma punsubscribe_loop_ok id notify l : forall s c n, sub_ok s -> clients s !! id = Some c -> exists s' c' m, punsubscribe_loop s id l notify n = Some (s', m) /\
  moved id s s' c c' /\ (forall q, q ∈ pubsub_patterns c' <-> q ∈ pubsub_patterns c /\ q ∉ l) /\ pubsub_channels c' = pubsub_channels c.
Proof.
  induction l as [|x l IH]; intros s c n Hs Ec; cbn [punsubscribe_loop].
  - exists s, c, n. split; [done|]. split; [by apply moved_refl|]. split; [|done]. intros q. rewrite elem_of_nil. tauto.
  - destruct (pubsubUnsubscribePattern_ok s id c x notify Hs Ec) as (s1 & c1 & E1 & M1 & H1 & H2). rewrite E1. mrun.
    destruct (IH s1 c1 (n + (if bool_decide (x ∈ pubsub_patterns c) then 1 else 0)) (mv_ok _ _ _ _ _ M1) (moved_own _ _ _ _ _ M1)) as (s2 & c2 & m & E2 & M2 & H3 & H4).
    exists s2, c2, m. split; [done|]. split; [by eapply moved_trans|]. rewrite H4, H2. split; [|done]. intros q. rewrite H3, H1, not_elem_of_cons. tauto.
Qed.

Section Ordered.
Context `{DictOrder}.

Lemma dict_order_elem x k : k ∈ dict_order x <-> k ∈ x.
Proof. by rewrite (dict_order_perm x), elem_of_elements. Qed.

Lemma unsubscribeAll_ok s id c notify : sub_ok s -> clients s !! id = Some c -> exists s' c' n, pubsubUnsubscribeAllChannels s id notify = Some (s', n) /\
  moved id s s' c c' /\ pubsub_channels c' = ∅ /\ pubsub_patterns c' = pubsub_patterns c.
Proof.
  intros Hs Ec. unfold pubsubUnsubscribeAllChannels. rewrite Ec. mrun.
  destruct (unsubscribe_loop_ok id notify (dict_order (pubsub_channels c)) s c 0 Hs Ec) as (s1 & c1 & m & E1 & M1 & H1 & H2). rewrite E1. mrun.
  destruct (notify_ok (notify && (m =? 0)) (fun c => Unsubscribed None (clientSubscriptionsCount c)) s1 id c1 (mv_ok _ _ _ _ _ M1) (moved_own _ _ _ _ _ M1)) as (s2 & c2 & E2 & M2 & H3 & H4).
  rewrite E2. mrun. exists s2, c2, m. split; [done|]. split; [by eapply moved_trans|]. rewrite H3, H4, H1, H2. split; [|done].
  apply set_eq. intros k. rewrite elem_of_difference, elem_of_list_to_set, dict_order_elem. set_solver.
Qed.

Lemma punsubscribeAll_ok s id c notify : sub_ok s -> clients s !! id = Some c -> exists s' c' n, pubsubUnsubscribeAllPatterns s id notify = Some (s', n) /\
  moved id s s' c c' /\ pubsub_patterns c' = [] /\ pubsub_channels c' = pubsub_channels c.
Proof.
  intros Hs Ec. unfold pubsubUnsubscribeAllPatterns. rewrite Ec. mrun.
  destruct (punsubscribe_loop_ok id notify (pubsub_patterns c) s c 0 Hs Ec) as (s1 & c1 & m & E1 & M1 & H1 & H2). rewrite E1. mrun.
  destruct (notify_ok (notify && (m =? 0)) (fun c => PUnsubscribed None (clientSubscriptionsCount c)) s1 id c1 (mv_ok _ _ _ _ _ M1) (moved_own _ _ _ _ _ M1)) as (s2 & c2 & E2 & M2 & H3 & H4).
  rewrite E2. mrun. exists s2, c2, m. split; [done|]. split; [by eapply moved_trans|]. rewrite H3, H4, H2. split; [|done].
  destruct (pubsub_patterns c1) as [|q l] eqn:E; [done|]. destruct (proj1 (H1 q)) as [? ?]; [left|done].
Qed.

End Ordered.

(** ** Publishing *)

(** A name whose length is an [int]. *)
Definition fits (x : list Z) : Prop := zlen x <= INT32_MAX.

(** A pattern matches a channel. *)
Definition matches (p ch : list Z) : bool := default false (glob_matches p ch).

Lemma glob_matches_total p ch : fits p -> fits ch -> glob_matches p ch = Some (matches p ch) /\
  (matches p ch = true <-> if decide (ch = []) then p = [] else glob false (tokens p) ch).
Proof.
  unfold fits, matches, glob_matches. intros Hp Hc. pose proof (zlen_nonneg p). pose proof (zlen_nonneg ch).
  rewrite !s32_id by (unfold INT32_MIN; lia). destruct (stringmatchlen_spec p [] ch [0] false) as (b & -> & Hb). done.
Qed.

(** Several messages at once. *)
Definition add_all (ms : list msg) (c : client) : client :=
  mkClient (pubsub_channels c) (pubsub_patterns c) (in_pubsub c) (force_repl c) (inbox c ++ ms).

Lemma add_all_nil c : add_all [] c = c.
Proof. unfold add_all. rewrite app_nil_r. by destruct c. Qed.

Lemma send_channel_ok l m : forall s n, NoDup l -> Forall (fun i => is_Some (clients s !! i)) l -> exists s',
  send_channel s l m n = Some (s', n + zlen l) /\ srv_patterns s' = srv_patterns s /\ srv_channels s' = srv_channels s /\ frame s' = frame s /\
  forall i, clients s' !! i = add_all (if bool_decide (i ∈ l) then [m] else []) <$> clients s !! i.
Proof.
  induction l as [|x l IH]; intros s n Hnd Hal; cbn [send_channel].
  - exists s. rewrite Z.add_0_r. split; [done|]. split; [done|]. split; [done|]. split; [done|]. intros i.
    rewrite bool_decide_eq_false_2 by (intros Hi; inversion Hi). destruct (clients s !! i); cbn; [by rewrite add_all_nil|done].
  - apply NoDup_cons in Hnd as [Hx Hnd]. apply Forall_cons in Hal as [[c Ec] Hal]. rewrite (upd_client _ _ _ _ Ec). mrun.
    destruct (IH (set_clients s (<[x := addReply m c]> (clients s))) (n + 1) Hnd) as (s' & E' & P' & C' & F' & Hs').
    { eapply Forall_impl; [exact Hal|]. intros i [ci Ei]. cbn [clients set_clients]. destruct (decide (x = i)) as [->|Hne];
        [rewrite lookup_insert_eq; eauto|rewrite lookup_insert_ne by done; eauto]. }
    exists s'. rewrite E', zlen_cons. split; [do 2 f_equal; lia|]. split; [done|]. split; [done|]. split; [done|]. intros i. rewrite Hs'. cbn [clients set_clients].
    destruct (decide (x = i)) as [->|Hne].
    + rewrite lookup_insert_eq, Ec. rewrite (bool_decide_eq_false_2 (i ∈ l)) by done. rewrite bool_decide_eq_true_2 by left. cbn. by rewrite add_all_nil.
    + rewrite lookup_insert_ne by done. rewrite (bool_decide_ext (i ∈ l) (i ∈ x :: l)); [done|]. rewrite elem_of_cons. naive_solver.
Qed.

Lemma send_patterns_ok ch m l : fits ch -> Forall (fun x => fits x.2) l -> forall s n, Forall (fun x => is_Some (clients s !! x.1)) l -> exists s',
  send_patterns s l ch m n = Some (s', n + zlen (filter (fun x => matches x.2 ch = true) l)) /\
  srv_patterns s' = srv_patterns s /\ srv_channels s' = srv_channels s /\ frame s' = frame s /\
  forall i, clients s' !! i = add_all ((fun p => PMessage p ch m) <$> filter (fun p => matches p ch = true) (pats_of i l)) <$> clients s !! i.
Proof.
  intros Hch. induction l as [|[x p] l IH]; intros Hfit s n Hal; cbn [send_patterns].
  - exists s. rewrite filter_nil, Z.add_0_r. split; [done|]. split; [done|]. split; [done|]. split; [done|]. intros i.
    cbn. destruct (clients s !! i); cbn; [by rewrite add_all_nil|done].
  - apply Forall_cons in Hal as [[c Ec] Hal]. apply Forall_cons in Hfit as [Hp Hfit]. specialize (IH Hfit).
    cbn [fst] in Ec. rewrite (proj1 (glob_matches_total p ch Hp Hch)). mrun. unfold pats_of in *.
    destruct (matches p ch) eqn:Em.
    + rewrite (upd_client _ _ _ _ Ec). mrun.
      destruct (IH (set_clients s (<[x := addReply (PMessage p ch m) c]> (clients s))) (n + 1)) as (s' & E' & P' & C' & F' & Hs').
      { eapply Forall_impl; [exact Hal|]. intros [i q] [ci Ei]. cbn [clients set_clients fst] in *. destruct (decide (x = i)) as [->|Hne];
          [rewrite lookup_insert_eq; eauto|rewrite lookup_insert_ne by done; eauto]. }
      exists s'. rewrite E'. rewrite (filter_cons_True _ (x, p)) by done. rewrite zlen_cons. split; [do 2 f_equal; lia|].
      split; [done|]. split; [done|]. split; [done|]. intros i. rewrite Hs'. cbn [clients set_clients]. destruct (decide (x = i)) as [->|Hne].
      * rewrite lookup_insert_eq, Ec. rewrite (filter_cons_True _ (i, p)) by done. cbn [fmap list_fmap snd]. rewrite filter_cons_True by done.
        cbn. unfold add_all. cbn [addReply pubsub_channels pubsub_patterns in_pubsub force_repl inbox]. by rewrite <- app_assoc.
      * rewrite lookup_insert_ne by done. by rewrite (filter_cons_False _ (x, p)) by done.
    + destruct (IH s n Hal) as (s' & E' & P' & C' & F' & Hs'). exists s'. rewrite E'. rewrite (filter_cons_False _ (x, p)) by (cbn [snd]; congruence).
      split; [done|]. split; [done|]. split; [done|]. split; [done|]. intros i. rewrite Hs'. destruct (decide (x = i)) as [->|Hne].
      * rewrite (filter_cons_True _ (i, p)) by done. cbn [fmap list_fmap snd]. by rewrite filter_cons_False by congruence.
      * by rewrite (filter_cons_False _ (x, p)) by done.
Qed.

(** What one client is sent. *)
Definition delivery (ch m : list Z) (c : client) : list msg :=
  (if bool_decide (ch ∈ pubsub_channels c) then [Message ch m] else []) ++
  ((fun p => PMessage p ch m) <$> filter (fun p => matches p ch = true) (pubsub_patterns c)).

Lemma publish_ok s ch m : sub_ok s -> fits ch -> Forall (fun x => fits x.2) (srv_patterns s) -> exists s',
  pubsubPublishMessage s ch m = Some (s', zlen (default [] (srv_channels s !! ch)) + zlen (filter (fun x => matches x.2 ch = true) (srv_patterns s))) /\
  srv_patterns s' = srv_patterns s /\ srv_channels s' = srv_channels s /\ frame s' = frame s /\
  forall i, clients s' !! i = (fun c => add_all (delivery ch m c) c) <$> clients s !! i.
Proof.
  intros [S1 S2 S3] Hch Hfit. unfold pubsubPublishMessage.
  assert (H1 : exists s1, (match srv_channels s !! ch with Some l => send_channel s l (Message ch m) 0 | None => Some (s, 0) end) =
      Some (s1, zlen (default [] (srv_channels s !! ch))) /\ srv_patterns s1 = srv_patterns s /\ srv_channels s1 = srv_channels s /\ frame s1 = frame s /\
    forall i, clients s1 !! i = (fun c => add_all (if bool_decide (ch ∈ pubsub_channels c) then [Message ch m] else []) c) <$> clients s !! i).
  { destruct (srv_channels s !! ch) as [l|] eqn:El.
    - destruct (ix_list _ _ S1 _ _ El) as [Hnd _]. destruct (send_channel_ok l (Message ch m) s 0 Hnd) as (s1 & E1 & P1 & C1 & F1 & Hs1).
      { apply Forall_forall. intros i Hi. destruct (ix_of _ _ S1 _ _ _ El Hi) as (c & Ec & _). by exists c. }
      exists s1. rewrite E1. split; [done|]. split; [done|]. split; [congruence|]. split; [done|]. intros i. rewrite Hs1. destruct (clients s !! i) as [c|] eqn:Ec; [|done]. cbn.
      rewrite (bool_decide_ext (i ∈ l) (ch ∈ pubsub_channels c)); [done|]. split; intros Hin.
      + destruct (ix_of _ _ S1 _ _ _ El Hin) as (c' & Ec' & Hk). naive_solver.
      + destruct (ix_in _ _ S1 i ch) as (l' & El' & Hi); [by exists c|]. naive_solver.
    - exists s. split; [done|]. split; [done|]. split; [done|]. split; [done|]. intros i. destruct (clients s !! i) as [c|] eqn:Ec; [|done]. cbn.
      rewrite bool_decide_eq_false_2; [by rewrite add_all_nil|]. intros Hin. destruct (ix_in _ _ S1 i ch) as (l' & El' & _); [by exists c|]. congruence. }
  destruct H1 as (s1 & E1 & P1 & C1 & F1 & Hs1). rewrite E1. mrun.
  destruct (send_patterns_ok ch m (srv_patterns s1) Hch ltac:(by rewrite P1) s1 (zlen (default [] (srv_channels s !! ch)))) as (s2 & E2 & P2 & C2 & F2 & Hs2).
  { apply Forall_forall. intros [i p] Hin. cbn [fst]. rewrite Hs1. rewrite P1 in Hin.
    assert (p ∈ pats_of i (srv_patterns s)) as Hp by (unfold pats_of; apply list_elem_of_fmap; exists (i, p); split; [done|]; by apply list_elem_of_filter).
    rewrite S2 in Hp. destruct (clients s !! i); [by eexists|inversion Hp]. }
  exists s2. rewrite E2, P1. split; [done|]. split; [congruence|]. split; [congruence|]. split; [congruence|]. intros i. rewrite Hs2, Hs1, P1, S2.
  destruct (clients s !! i) as [c|]; [|done]. cbn. f_equal. unfold add_all, delivery. cbn. by rewrite <- app_assoc.
Qed.

(** ** The server, and the relation it implements *)

Inductive event :=
  | Connect (i : Z) | Disconnect (i : Z)
  | Subscribe (i : Z) (args : list (list Z)) | Unsubscribe (i : Z) (args : list (list Z))
  | PSubscribe (i : Z) (args : list (list Z)) | PUnsubscribe (i : Z) (args : list (list Z))
  | Publish (i : Z) (channel message : list Z) | Introspect (i : Z) (args : list (list Z)).

Section Run.
Context `{DictOrder}.

(** SUBSCRIBE, PSUBSCRIBE and PUBSUB without arguments are refused before they reach their handlers. *)
Definition step (s : server) (e : event) : option server :=
  let run i args (f : option server) := match clients s !! i, args : list (list Z) with Some _, _ :: _ => f | _, _ => Some s end in
  match e with
  | Connect i => Some (match clients s !! i with Some _ => s | None => set_clients s (<[i := createClient]> (clients s)) end)
  | Disconnect i => run i [[]] (freeClient s i)
  | Subscribe i args => run i args (subscribeCommand s i args)
  | Unsubscribe i args => run i [[]] (unsubscribeCommand s i args)
  | PSubscribe i args => run i args (psubscribeCommand s i args)
  | PUnsubscribe i args => run i [[]] (punsubscribeCommand s i args)
  | Publish i ch m => run i [[]] (publishCommand s i ch m)
  | Introspect i args => run i args (pubsubCommand s i args)
  end.

Fixpoint steps (s : server) (es : list event) : option server :=
  match es with [] => Some s | e :: es => s ← step s e; steps s es end.

(** The specification: who is connected, and two sets of pairs. *)
Record spec := mkSpec { sp_on : gset Z; sp_channels : gset (Z * list Z); sp_patterns : gset (Z * list Z) }.

Definition pairs (i : Z) (l : list (list Z)) : gset (Z * list Z) := list_to_set ((fun x => (i, x)) <$> l).
Definition forget (i : Z) (x : gset (Z * list Z)) : gset (Z * list Z) := filter (fun y => y.1 <> i) x.
Definition remove (i : Z) (l : list (list Z)) (x : gset (Z * list Z)) : gset (Z * list Z) :=
  match l with [] => forget i x | _ :: _ => x ∖ pairs i l end.

Definition spec_step (a : spec) (e : event) : spec :=
  let here i (b : spec) := if decide (i ∈ sp_on a) then b else a in
  match e with
  | Connect i => mkSpec ({[ i ]} ∪ sp_on a) (sp_channels a) (sp_patterns a)
  | Disconnect i => mkSpec (sp_on a ∖ {[ i ]}) (forget i (sp_channels a)) (forget i (sp_patterns a))
  | Subscribe i l => here i (mkSpec (sp_on a) (pairs i l ∪ sp_channels a) (sp_patterns a))
  | Unsubscribe i l => here i (mkSpec (sp_on a) (remove i l (sp_channels a)) (sp_patterns a))
  | PSubscribe i l => here i (mkSpec (sp_on a) (sp_channels a) (pairs i l ∪ sp_patterns a))
  | PUnsubscribe i l => here i (mkSpec (sp_on a) (sp_channels a) (remove i l (sp_patterns a)))
  | Publish _ _ _ | Introspect _ _ => a
  end.

(** The names of an event have lengths that are [int]s. *)
Definition event_fits (e : event) : Prop :=
  match e with
  | Subscribe _ l | PSubscribe _ l | Introspect _ l => Forall fits l
  | Publish _ ch _ => fits ch
  | _ => True
  end.

(** So have the names in the relation. *)
Definition spec_fits (a : spec) : Prop :=
  (forall i ch, (i, ch) ∈ sp_channels a -> fits ch) /\ (forall i p, (i, p) ∈ sp_patterns a -> fits p).

Definition psubscribed (s : server) (i : Z) (p : list Z) : Prop := exists c, clients s !! i = Some c /\ p ∈ pubsub_patterns c.

(** A client is in Pub/Sub mode exactly while it has subscriptions. *)
Definition mode_ok (c : client) : Prop := in_pubsub c = negb (clientSubscriptionsCount c =? 0).

Record refines (s : server) (a : spec) : Prop := mkRefines {
  rf_ok : sub_ok s;
  rf_on : forall i, is_Some (clients s !! i) <-> i ∈ sp_on a;
  rf_channels : forall i ch, subscribed s i ch <-> (i, ch) ∈ sp_channels a;
  rf_patterns : forall i p, psubscribed s i p <-> (i, p) ∈ sp_patterns a;
  rf_mode : forall i c, clients s !! i = Some c -> mode_ok c
}.

Lemma elem_of_pairs j x i l : (j, x) ∈ pairs i l <-> j = i /\ x ∈ l.
Proof. unfold pairs. rewrite elem_of_list_to_set, list_elem_of_fmap. naive_solver. Qed.

Lemma elem_of_forget j x i X : (j, x) ∈ forget i X <-> (j, x) ∈ X /\ j <> i.
Proof. unfold forget. rewrite elem_of_filter. cbn. tauto. Qed.

Lemma elem_of_remove j x i l X : (j, x) ∈ remove i l X <-> (j, x) ∈ X /\ (j = i -> l <> [] /\ x ∉ l).
Proof.
  destruct l as [|y l]; unfold remove; [rewrite elem_of_forget; naive_solver|]. rewrite elem_of_difference, elem_of_pairs. naive_solver.
Qed.

Lemma spec_step_fits a e : spec_fits a -> event_fits e -> spec_fits (spec_step a e).
Proof.
  intros [F1 F2] He. destruct e; cbn [spec_step event_fits] in *; try (destruct (decide _); [|by split]);
    try (split; cbn [sp_channels sp_patterns]; intros j x; rewrite ?elem_of_forget, ?elem_of_remove, ?elem_of_union, ?elem_of_pairs;
      naive_solver (eapply Forall_forall; eauto)); by split.
Qed.

Lemma patterns_fit s a : refines s a -> spec_fits a -> Forall (fun x => fits x.2) (srv_patterns s).
Proof.
  intros R [_ F2]. apply Forall_forall. intros [i p] Hin. cbn [snd]. apply (F2 i), (rf_patterns _ _ R).
  assert (p ∈ pats_of i (srv_patterns s)) as Hp by (unfold pats_of; apply list_elem_of_fmap; exists (i, p); split; [done|]; by apply list_elem_of_filter).
  rewrite (so_patterns _ (rf_ok _ _ R)) in Hp. destruct (clients s !! i) as [c|] eqn:Ec; [by exists c|inversion Hp].
Qed.

Lemma channels_fit s a : refines s a -> spec_fits a -> Forall fits (dict_order (dom (srv_channels s))).
Proof.
  intros R [F1 _]. rewrite dict_order_perm. apply Forall_forall. intros ch Hin. rewrite elem_of_elements, elem_of_dom in Hin.
  destruct Hin as [l El]. pose proof (so_channels _ (rf_ok _ _ R)) as I. destruct (ix_list _ _ I _ _ El) as [_ Hl].
  destruct l as [|i l]; [done|]. apply (F1 i), (rf_channels _ _ R), (ix_of _ _ I _ _ i El). left.
Qed.

(** One client moved, and its pairs with it. *)
Lemma moved_refines id s s' c c' a chs pts : sub_ok s' -> clients s' = <[id := c']> (clients s) -> refines s a -> clients s !! id = Some c -> mode_ok c' ->
  (forall ch, ch ∈ pubsub_channels c' <-> (id, ch) ∈ chs) -> (forall p, p ∈ pubsub_patterns c' <-> (id, p) ∈ pts) ->
  (forall j x, j <> id -> (j, x) ∈ chs <-> (j, x) ∈ sp_channels a) -> (forall j x, j <> id -> (j, x) ∈ pts <-> (j, x) ∈ sp_patterns a) ->
  refines s' (mkSpec (sp_on a) chs pts).
Proof.
  intros M1 M2 [R1 R2 R3 R4 R5] Ec Hm Hch Hpt Och Opt. split; cbn [sp_on sp_channels sp_patterns]; [done|..].
  - intros i. rewrite <- R2, M2. destruct (decide (i = id)) as [->|Hne]; [rewrite lookup_insert_eq, Ec; split; by eexists|by rewrite lookup_insert_ne].
  - intros i ch. destruct (decide (i = id)) as [->|Hne].
    + rewrite <- Hch. unfold subscribed. rewrite M2, lookup_insert_eq. naive_solver.
    + rewrite Och by done. rewrite <- R3. unfold subscribed. by rewrite M2, lookup_insert_ne.
  - intros i p. destruct (decide (i = id)) as [->|Hne].
    + rewrite <- Hpt. unfold psubscribed. rewrite M2, lookup_insert_eq. naive_solver.
    + rewrite Opt by done. rewrite <- R4. unfold psubscribed. by rewrite M2, lookup_insert_ne.
  - intros i ci E. rewrite M2 in E. apply lookup_insert_Some in E as [[<- <-]|[Hne E]]; [done|by eapply R5].
Qed.

Lemma refines_own s a id c : refines s a -> clients s !! id = Some c ->
  (forall ch, ch ∈ pubsub_channels c <-> (id, ch) ∈ sp_channels a) /\ (forall p, p ∈ pubsub_patterns c <-> (id, p) ∈ sp_patterns a).
Proof. intros R Ec. split; intros x; [rewrite <- (rf_channels _ _ R)|rewrite <- (rf_patterns _ _ R)]; unfold subscribed, psubscribed; naive_solver. Qed.

(** The end of a command: the mode of the client is set. *)
Lemma mode_step id s s1 c c1 f : moved id s s1 c c1 -> pubsub_channels (f c1) = pubsub_channels c1 -> pubsub_patterns (f c1) = pubsub_patterns c1 ->
  exists s2, upd s1 id f = Some s2 /\ sub_ok s2 /\ clients s2 = <[id := f c1]> (clients s).
Proof.
  intros M H1 H2. rewrite (upd_client _ _ _ _ (moved_own _ _ _ _ _ M)). eexists. split; [done|]. split.
  - eapply sub_ok_upd; [apply (mv_ok _ _ _ _ _ M)|apply (moved_own _ _ _ _ _ M)|done..].
  - cbn [clients set_clients]. rewrite (mv_clients _ _ _ _ _ M). apply insert_insert_eq.
Qed.

Lemma count_zero c : clientSubscriptionsCount c = 0 <-> pubsub_channels c = ∅ /\ pubsub_patterns c = [].
Proof.
  unfold clientSubscriptionsCount. pose proof (zlen_nonneg (pubsub_patterns c)). split.
  - intros E. assert (size (pubsub_channels c) = 0%nat) as Hs by lia. apply size_empty_inv, leibniz_equiv in Hs. split; [done|].
    destruct (pubsub_patterns c) as [|p l]; [done|]. rewrite zlen_cons in *. pose proof (zlen_nonneg l). lia.
  - intros [-> ->]. rewrite size_empty. done.
Qed.

(** Entering the mode with at least one subscription, leaving it with none. *)
Lemma enter_mode_ok c : clientSubscriptionsCount c <> 0 -> mode_ok (with_mode true c).
Proof. intros Hn. unfold mode_ok. change (clientSubscriptionsCount (with_mode true c)) with (clientSubscriptionsCount c). by rewrite (proj2 (Z.eqb_neq _ _) Hn). Qed.

Lemma leave_mode_ok c : in_pubsub c = true \/ clientSubscriptionsCount c = 0 -> mode_ok (if clientSubscriptionsCount c =? 0 then with_mode false c else c).
Proof.
  intros Hm. unfold mode_ok. destruct (clientSubscriptionsCount c =? 0) eqn:E.
  - change (clientSubscriptionsCount (with_mode false c)) with (clientSubscriptionsCount c). by rewrite E.
  - rewrite E. apply Z.eqb_neq in E. destruct Hm as [Hm|Hm]; [done|contradiction].
Qed.

(** Fewer subscriptions than a client that was not in the mode: none. *)
Lemma mode_shrinks c c' : mode_ok c -> in_pubsub c' = in_pubsub c -> pubsub_channels c' ⊆ pubsub_channels c ->
  (forall p, p ∈ pubsub_patterns c' -> p ∈ pubsub_patterns c) -> in_pubsub c' = true \/ clientSubscriptionsCount c' = 0.
Proof.
  intros Hm Hi Hc Hp. destruct (in_pubsub c) eqn:E; [by left|]. right. unfold mode_ok in Hm. rewrite E in Hm. symmetry in Hm. apply negb_false_iff, Z.eqb_eq in Hm.
  apply count_zero in Hm as [H1 H2]. apply count_zero. rewrite H1 in Hc. rewrite H2 in Hp. split; [set_solver|].
  destruct (pubsub_patterns c') as [|p l]; [done|]. exfalso. specialize (Hp p ltac:(left)). inversion Hp.
Qed.

Lemma subscribe_step s a id c args : refines s a -> clients s !! id = Some c -> args <> [] -> exists s', subscribeCommand s id args = Some s' /\
  refines s' (mkSpec (sp_on a) (pairs id args ∪ sp_channels a) (sp_patterns a)).
Proof.
  intros R Ec Ha. unfold subscribeCommand. destruct (subscribe_loop_ok id args s c (rf_ok _ _ R) Ec) as (s1 & c1 & E1 & M1 & H1 & H2). rewrite E1. mrun.
  destruct (mode_step id s s1 c c1 (with_mode true) M1) as (s2 & E2 & Hs2 & Hc2); [done..|]. exists s2. split; [done|].
  destruct (refines_own _ _ _ _ R Ec) as [O1 O2]. eapply moved_refines; try done.
  - apply enter_mode_ok. rewrite count_zero, H1. destruct args as [|x l]; [done|]. cbn. set_solver.
  - intros ch. cbn [pubsub_channels with_mode]. rewrite H1, !elem_of_union, elem_of_list_to_set, elem_of_pairs, O1. naive_solver.
  - intros p. cbn [pubsub_patterns with_mode]. rewrite H2. apply O2.
  - intros j x Hne. rewrite elem_of_union, elem_of_pairs. naive_solver.
Qed.

Lemma psubscribe_step s a id c args : refines s a -> clients s !! id = Some c -> args <> [] -> exists s', psubscribeCommand s id args = Some s' /\
  refines s' (mkSpec (sp_on a) (sp_channels a) (pairs id args ∪ sp_patterns a)).
Proof.
  intros R Ec Ha. unfold psubscribeCommand. destruct (psubscribe_loop_ok id args s c (rf_ok _ _ R) Ec) as (s1 & c1 & E1 & M1 & H1 & H2). rewrite E1. mrun.
  destruct (mode_step id s s1 c c1 (with_mode true) M1) as (s2 & E2 & Hs2 & Hc2); [done..|]. exists s2. split; [done|].
  destruct (refines_own _ _ _ _ R Ec) as [O1 O2]. eapply moved_refines; try done.
  - apply enter_mode_ok. rewrite count_zero. intros [_ Hz]. destruct args as [|x l]; [done|]. specialize (H1 x). rewrite Hz, elem_of_nil, elem_of_cons in H1. tauto.
  - intros ch. cbn [pubsub_channels with_mode]. rewrite H2. apply O1.
  - intros p. cbn [pubsub_patterns with_mode]. rewrite H1, elem_of_union, elem_of_pairs, O2. naive_solver.
  - intros j x Hne. rewrite elem_of_union, elem_of_pairs. naive_solver.
Qed.

Lemma unsubscribe_step s a id c args : refines s a -> clients s !! id = Some c -> exists s', unsubscribeCommand s id args = Some s' /\
  refines s' (mkSpec (sp_on a) (remove id args (sp_channels a)) (sp_patterns a)).
Proof.
  intros R Ec. unfold unsubscribeCommand.
  assert (Hu : exists s1 c1 n, (match args with [] => pubsubUnsubscribeAllChannels s id true | _ :: _ => unsubscribe_loop s id args true 0 end) = Some (s1, n) /\
    moved id s s1 c c1 /\ (forall ch, ch ∈ pubsub_channels c1 <-> ch ∈ pubsub_channels c /\ args <> [] /\ ch ∉ args) /\ pubsub_patterns c1 = pubsub_patterns c).
  { destruct args as [|x l].
    - destruct (unsubscribeAll_ok s id c true (rf_ok _ _ R) Ec) as (s1 & c1 & n & E1 & M1 & H1 & H2). exists s1, c1, n. rewrite H1. split; [done|]. split; [done|].
      split; [|done]. set_solver.
    - destruct (unsubscribe_loop_ok id true (x :: l) s c 0 (rf_ok _ _ R) Ec) as (s1 & c1 & n & E1 & M1 & H1 & H2). exists s1, c1, n. rewrite H1. split; [done|]. split; [done|].
      split; [|done]. intros ch. rewrite elem_of_difference, elem_of_list_to_set. naive_solver. }
  destruct Hu as (s1 & c1 & n & E1 & M1 & H1 & H2). rewrite E1. mrun. unfold leave_mode.
  destruct (mode_step id s s1 c c1 (fun c => if clientSubscriptionsCount c =? 0 then with_mode false c else c) M1) as (s2 & E2 & Hs2 & Hc2);
    [cbv beta; by destruct (_ =? 0)..|]. exists s2. split; [done|].
  destruct (refines_own _ _ _ _ R Ec) as [O1 O2]. eapply moved_refines; try done.
  - apply leave_mode_ok. eapply mode_shrinks; [by eapply (rf_mode _ _ R)|apply (mv_mode _ _ _ _ _ M1)|intros ch; rewrite H1; tauto|by rewrite H2].
  - intros ch. rewrite elem_of_remove, <- O1. replace (pubsub_channels _) with (pubsub_channels c1) by (by destruct (_ =? 0)). rewrite H1. naive_solver.
  - intros p. replace (pubsub_patterns _) with (pubsub_patterns c1) by (by destruct (_ =? 0)). rewrite H2. apply O2.
  - intros j x Hne. rewrite elem_of_remove. naive_solver.
Qed.

Lemma punsubscribe_step s a id c args : refines s a -> clients s !! id = Some c -> exists s', punsubscribeCommand s id args = Some s' /\
  refines s' (mkSpec (sp_on a) (sp_channels a) (remove id args (sp_patterns a))).
Proof.
  intros R Ec. unfold punsubscribeCommand.
  assert (Hu : exists s1 c1 n, (match args with [] => pubsubUnsubscribeAllPatterns s id true | _ :: _ => punsubscribe_loop s id args true 0 end) = Some (s1, n) /\
    moved id s s1 c c1 /\ (forall p, p ∈ pubsub_patterns c1 <-> p ∈ pubsub_patterns c /\ args <> [] /\ p ∉ args) /\ pubsub_channels c1 = pubsub_channels c).
  { destruct args as [|x l].
    - destruct (punsubscribeAll_ok s id c true (rf_ok _ _ R) Ec) as (s1 & c1 & n & E1 & M1 & H1 & H2). exists s1, c1, n. rewrite H1. split; [done|]. split; [done|].
      split; [|done]. intros p. rewrite elem_of_nil. naive_solver.
    - destruct (punsubscribe_loop_ok id true (x :: l) s c 0 (rf_ok _ _ R) Ec) as (s1 & c1 & n & E1 & M1 & H1 & H2). exists s1, c1, n. split; [done|]. split; [done|].
      split; [|done]. intros p. rewrite H1. naive_solver. }
  destruct Hu as (s1 & c1 & n & E1 & M1 & H1 & H2). rewrite E1. mrun. unfold leave_mode.
  destruct (mode_step id s s1 c c1 (fun c => if clientSubscriptionsCount c =? 0 then with_mode false c else c) M1) as (s2 & E2 & Hs2 & Hc2);
    [cbv beta; by destruct (_ =? 0)..|]. exists s2. split; [done|].
  destruct (refines_own _ _ _ _ R Ec) as [O1 O2]. eapply moved_refines; try done.
  - apply leave_mode_ok. eapply mode_shrinks; [by eapply (rf_mode _ _ R)|apply (mv_mode _ _ _ _ _ M1)|by rewrite H2|intros p; rewrite H1; tauto].
  - intros ch. replace (pubsub_channels _) with (pubsub_channels c1) by (by destruct (_ =? 0)). rewrite H2. apply O1.
  - intros p. rewrite elem_of_remove, <- O2. replace (pubsub_patterns _) with (pubsub_patterns c1) by (by destruct (_ =? 0)). rewrite H1. naive_solver.
  - intros j x Hne. rewrite elem_of_remove. naive_solver.
Qed.

Lemma free_step s a id c : refines s a -> clients s !! id = Some c -> exists s', freeClient s id = Some s' /\
  refines s' (mkSpec (sp_on a ∖ {[ id ]}) (forget id (sp_channels a)) (forget id (sp_patterns a))).
Proof.
  intros R Ec. unfold freeClient. destruct (unsubscribeAll_ok s id c false (rf_ok _ _ R) Ec) as (s1 & c1 & n1 & E1 & M1 & H1 & H2). rewrite E1. mrun.
  destruct (punsubscribeAll_ok s1 id c1 false (mv_ok _ _ _ _ _ M1) (moved_own _ _ _ _ _ M1)) as (s2 & c2 & n2 & E2 & M2 & H3 & H4). rewrite E2. mrun.
  pose proof (moved_trans _ _ _ _ _ _ _ M1 M2) as M. pose proof (moved_own _ _ _ _ _ M) as E. destruct (mv_ok _ _ _ _ _ M) as [S1 S2 S3].
  eexists. split; [done|]. assert (Hcl : forall i, delete id (clients s2) !! i = if decide (i = id) then None else clients s !! i).
  { intros i. rewrite (mv_clients _ _ _ _ _ M). destruct (decide (i = id)) as [->|Hne]; [apply lookup_delete_eq|]. rewrite lookup_delete_ne, lookup_insert_ne by done. done. }
  split; cbn [sp_on sp_channels sp_patterns]; unfold subscribed, psubscribed; cbn [clients set_clients].
  - split; cbn [clients set_clients srv_channels srv_patterns].
    + eapply indexed_ext; [|exact S1]. intros i k. unfold subscribed. cbn [clients set_clients]. destruct (decide (i = id)) as [->|Hne].
      * rewrite E, lookup_delete_eq. rewrite H1 in H4. split; [|by intros (? & ? & _)]. intros (c0 & [= <-] & Hk). rewrite H4 in Hk. set_solver.
      * by rewrite lookup_delete_ne.
    + intros i. rewrite S2. destruct (decide (i = id)) as [->|Hne]; [by rewrite E, lookup_delete_eq|by rewrite lookup_delete_ne].
    + intros i ci Ei. apply lookup_delete_Some in Ei as [_ Ei]. by eapply S3.
  - intros i. rewrite elem_of_difference, elem_of_singleton, <- (rf_on _ _ R), Hcl. destruct (decide (i = id)); [|tauto]. split; [by intros [? ?]|tauto].
  - intros i ch. rewrite elem_of_forget, <- (rf_channels _ _ R). unfold subscribed. rewrite Hcl. destruct (decide (i = id)); naive_solver.
  - intros i p. rewrite elem_of_forget, <- (rf_patterns _ _ R). unfold psubscribed. rewrite Hcl. destruct (decide (i = id)); naive_solver.
  - intros i ci. rewrite Hcl. destruct (decide (i = id)); [done|]. apply (rf_mode _ _ R).
Qed.

(** Anything that is only sent leaves the subscriptions alone. *)
Lemma sent_refines s s' a : refines s a -> srv_channels s' = srv_channels s -> srv_patterns s' = srv_patterns s ->
  (forall i, option_Forall2 (fun c c' => pubsub_channels c' = pubsub_channels c /\ pubsub_patterns c' = pubsub_patterns c /\ in_pubsub c' = in_pubsub c) (clients s !! i) (clients s' !! i)) ->
  refines s' a.
Proof.
  intros [[S1 S2 S3] R2 R3 R4 R5] Hc Hp Hcl.
  assert (Hsub : forall i ch, subscribed s' i ch <-> subscribed s i ch).
  { intros i ch. unfold subscribed. destruct (Hcl i) as [c c' (H1 & H2 & H3)|]; [|split; by intros (? & ? & _)]. split; intros (? & [= <-] & ?); eexists; (split; [done|congruence]). }
  assert (Hpsub : forall i p, psubscribed s' i p <-> psubscribed s i p).
  { intros i ch. unfold psubscribed. destruct (Hcl i) as [c c' (H1 & H2 & H3)|]; [|split; by intros (? & ? & _)]. split; intros (? & [= <-] & ?); eexists; (split; [done|congruence]). }
  split; [split|..].
  - rewrite Hc. eapply indexed_ext; [|exact S1]. intros i k. by rewrite Hsub.
  - intros i. rewrite Hp, S2. destruct (Hcl i) as [c c' (H1 & H2 & H3)|]; [congruence|done].
  - intros i ci E. pose proof (Hcl i) as F. rewrite E in F. inversion F as [c c' (H1 & H2 & H3) E1 E2|]; subst. rewrite H2. by eapply (S3 i).
  - intros i. rewrite <- R2. destruct (Hcl i); [split; by eexists|done].
  - intros i ch. by rewrite Hsub.
  - intros i p. by rewrite Hpsub.
  - intros i ci E. pose proof (Hcl i) as F. rewrite E in F. inversion F as [c c' (H1 & H2 & H3) E1 E2|]; subst.
    pose proof (R5 i c (eq_sym E1)) as Hm. unfold mode_ok, clientSubscriptionsCount in *. by rewrite H1, H2, H3.
Qed.

Lemma upd_refines s a id f c : refines s a -> clients s !! id = Some c ->
  (forall c, pubsub_channels (f c) = pubsub_channels c /\ pubsub_patterns (f c) = pubsub_patterns c /\ in_pubsub (f c) = in_pubsub c) ->
  exists s', upd s id f = Some s' /\ refines s' a.
Proof.
  intros R Ec Hf. rewrite (upd_client _ _ _ _ Ec). eexists. split; [done|]. eapply sent_refines; [exact R|done|done|]. intros i. cbn [clients set_clients].
  destruct (decide (id = i)) as [<-|Hne]; [rewrite lookup_insert_eq, Ec; by constructor|]. rewrite lookup_insert_ne by done. destruct (clients s !! i); by constructor.
Qed.

Lemma publish_step s a id c ch m : refines s a -> spec_fits a -> fits ch -> clients s !! id = Some c -> exists s', publishCommand s id ch m = Some s' /\ refines s' a.
Proof.
  intros R Hf Hch Ec. unfold publishCommand. destruct (publish_ok s ch m (rf_ok _ _ R) Hch (patterns_fit _ _ R Hf)) as (s1 & E1 & P1 & C1 & F1 & Hs1). rewrite E1. mrun.
  assert (R1 : refines s1 a).
  { eapply sent_refines; [exact R|done|done|]. intros i. rewrite Hs1. destruct (clients s !! i); by constructor. }
  assert (Ec1 : clients s1 !! id = Some (add_all (delivery ch m c) c)) by (rewrite Hs1, Ec; done). destruct (cluster_enabled s1); mrun.
  - eapply (upd_refines (set_bus s1 (cluster_bus s1 ++ [(ch, m)])) a id); [|exact Ec1|done].
    eapply sent_refines; [exact R1|done|done|]. intros i. cbn [clients set_bus]. destruct (clients s1 !! i); by constructor.
  - destruct (upd_refines s1 a id with_force _ R1 Ec1) as (s2 & E2 & R2); [done|]. rewrite E2. mrun.
    rewrite (upd_client _ _ _ _ Ec1) in E2. injection E2 as <-. eapply upd_refines; [exact R2|apply lookup_insert_eq|done].
Qed.

Lemma matching_ok pat l : (forall p, pat = Some p -> fits p) -> Forall fits l -> exists r, matching pat l = Some r.
Proof.
  intros Hp. induction l as [|x l IH]; intros Hl; cbn [matching]; [by eexists|]. apply Forall_cons in Hl as [Hx Hl].
  destruct (IH Hl) as [r Hr]. rewrite Hr. destruct pat as [p|]; [rewrite (proj1 (glob_matches_total p x (Hp _ eq_refl) Hx))|]; by eexists.
Qed.

Lemma introspect_step s a id c args : refines s a -> spec_fits a -> Forall fits args -> clients s !! id = Some c -> args <> [] -> exists s', pubsubCommand s id args = Some s' /\ refines s' a.
Proof.
  intros R Hf Hl Ec Ha. unfold pubsubCommand. destruct args as [|x l]; [done|]. apply Forall_cons in Hl as [_ Hl].
  assert (Hu : forall m, exists s', upd s id (addReply m) = Some s' /\ refines s' a) by (intros m; eapply upd_refines; done).
  destruct (_ && strcaseeq x (cstr "help")); [apply Hu|]. destruct (strcaseeq x (cstr "channels") && _).
  - destruct (matching_ok (head l) (dict_order (dom (srv_channels s)))) as [r Hr]; [|by eapply channels_fit|].
    { intros p Ep. destruct l as [|y l]; [done|]. injection Ep as ->. by apply Forall_cons in Hl as [Hl _]. }
    rewrite Hr. mrun. apply Hu.
  - destruct (strcaseeq x (cstr "numsub")); [apply Hu|]. destruct (strcaseeq x (cstr "numpat") && _); apply Hu.
Qed.

Lemma step_refines s a e : refines s a -> spec_fits a -> event_fits e -> exists s', step s e = Some s' /\ refines s' (spec_step a e).
Proof.
  intros R Hf He. destruct a as [on chs pts].
  assert (Hoff : forall i, clients s !! i = None -> i ∉ on) by (intros i E Hi; apply (rf_on _ _ R) in Hi as [c Hc]; congruence).
  assert (Hon : forall i c, clients s !! i = Some c -> i ∈ on) by (intros i c E; apply (rf_on _ _ R); by exists c).
  destruct e as [i|i|i l|i l|i l|i l|i ch m|i l]; unfold step, spec_step; cbn [sp_on sp_channels sp_patterns];
    destruct (clients s !! i) as [c|] eqn:Ec; try (rewrite decide_False by (by apply Hoff)); try (rewrite decide_True by (by eapply Hon)).
  - exists s. split; [done|]. replace ({[i]} ∪ on) with on; [done|]. specialize (Hon _ _ Ec). set_solver.
  - eexists. split; [done|]. destruct R as [[S1 S2 S3] R2 R3 R4 R5]. cbn [sp_on sp_channels sp_patterns] in *.
    assert (Hsub : forall j ch, subscribed (set_clients s (<[i:=createClient]> (clients s))) j ch <-> subscribed s j ch).
    { intros j ch. unfold subscribed. cbn [clients set_clients]. destruct (decide (i = j)) as [<-|Hne]; [|by rewrite lookup_insert_ne].
      rewrite lookup_insert_eq, Ec. split; [intros (? & [= <-] & Hin); set_solver|by intros (? & ? & _)]. }
    split; cbn [sp_on sp_channels sp_patterns]; [split; cbn [clients set_clients srv_channels srv_patterns]|..].
    + eapply indexed_ext; [|exact S1]. intros j k. by rewrite Hsub.
    + intros j. rewrite S2. destruct (decide (i = j)) as [<-|Hne]; [by rewrite lookup_insert_eq, Ec|by rewrite lookup_insert_ne].
    + intros j cj E. apply lookup_insert_Some in E as [[<- <-]|[Hne E]]; [constructor|by eapply S3].
    + intros j. rewrite elem_of_union, elem_of_singleton, <- R2. cbn [clients set_clients]. destruct (decide (i = j)) as [<-|Hne].
      * rewrite lookup_insert_eq. split; [by left|by eexists].
      * rewrite lookup_insert_ne by done. split; [tauto|intros [?|?]; [congruence|done]].
    + intros j ch. by rewrite Hsub.
    + intros j p. rewrite <- R4. unfold psubscribed. cbn [clients set_clients]. destruct (decide (i = j)) as [<-|Hne]; [|by rewrite lookup_insert_ne].
      rewrite lookup_insert_eq, Ec. split; [intros (? & [= <-] & Hin); inversion Hin|by intros (? & ? & _)].
    + intros j cj E. cbn [clients set_clients] in E. apply lookup_insert_Some in E as [[<- <-]|[Hne E]]; [done|by eapply R5].
  - by apply (free_step s (mkSpec on chs pts) i c R Ec).
  - exists s. split; [done|]. specialize (Hoff _ Ec). destruct R as [R1 R2 R3 R4 R5]. cbn [sp_on sp_channels sp_patterns] in *. split; try done; cbn [sp_on sp_channels sp_patterns].
    + intros j. rewrite R2. set_solver.
    + intros j ch. rewrite elem_of_forget, <- R3. split; [|tauto]. intros Hs. split; [done|]. intros ->. destruct Hs as (? & ? & _). congruence.
    + intros j p. rewrite elem_of_forget, <- R4. split; [|tauto]. intros Hs. split; [done|]. intros ->. destruct Hs as (? & ? & _). congruence.
  - destruct l as [|x l]; [exists s; split; [done|]; unfold pairs; cbn; by rewrite union_empty_l_L|]. by apply (subscribe_step s (mkSpec on chs pts) i c).
  - by exists s.
  - by apply (unsubscribe_step s (mkSpec on chs pts) i c).
  - by exists s.
  - destruct l as [|x l]; [exists s; split; [done|]; unfold pairs; cbn; by rewrite union_empty_l_L|]. by apply (psubscribe_step s (mkSpec on chs pts) i c).
  - by exists s.
  - by apply (punsubscribe_step s (mkSpec on chs pts) i c).
  - by exists s.
  - by eapply publish_step.
  - by exists s.
  - destruct l as [|x l]; [by exists s|]. by eapply introspect_step.
  - by exists s.
Qed.

Lemma steps_refine es : Forall event_fits es -> forall s a, refines s a -> spec_fits a -> exists s', steps s es = Some s' /\ refines s' (foldl spec_step a es) /\ spec_fits (foldl spec_step a es).
Proof.
  induction es as [|e es IH]; intros Hes s a R Hf; cbn [steps foldl]; [by exists s|]. apply Forall_cons in Hes as [He Hes].
  destruct (step_refines s a e R Hf He) as (s1 & E1 & R1). rewrite E1. mrun. apply IH; [done..|by apply spec_step_fits].
Qed.

(** A server without clients. *)
Definition empty_server (cluster : bool) : server := mkServer ∅ ∅ [] cluster [].
Definition empty_spec : spec := mkSpec ∅ ∅ ∅.

Lemma empty_refines cluster : refines (empty_server cluster) empty_spec.
Proof.
  split; [split|..]; cbn [empty_server clients srv_channels srv_patterns empty_spec sp_on sp_channels sp_patterns]; try (intros; by rewrite lookup_empty in *).
  - split; [intros i k (c & Ec & _); cbn in Ec; by rewrite lookup_empty in Ec|intros; by rewrite lookup_empty in *..].
  - intros i ch. split; [intros (c & Ec & _); cbn in Ec; by rewrite lookup_empty in Ec|set_solver].
  - intros i p. split; [intros (c & Ec & _); cbn in Ec; by rewrite lookup_empty in Ec|set_solver].
Qed.

Lemma empty_fits : spec_fits empty_spec.
Proof. split; cbn; set_solver. Qed.

(** C19: The tables of Pub/Sub implement a relation.  Every sequence of connections,
    disconnections and commands runs without a failed assertion, and in the state it
    ends in a client is in the list of a channel exactly when it subscribed to the
    channel and did not unsubscribe since, a pair of a client and a pattern is in the
    list of patterns exactly when the same holds of the pattern, and a client is in
    Pub/Sub mode exactly when it has a subscription.  The names in the commands are
    shorter than 2^31 bytes, since the matcher takes their lengths as [int]s. *)
Theorem pubsub_refines_relation (cluster : bool) (es : list event) :
  Forall event_fits es ->
  exists s, steps (empty_server cluster) es = Some s /\
    let a := foldl spec_step empty_spec es in
    (forall i ch, i ∈ default [] (srv_channels s !! ch) <-> (i, ch) ∈ sp_channels a) /\
    (forall i p, (i, p) ∈ srv_patterns s <-> (i, p) ∈ sp_patterns a) /\
    (forall i c, clients s !! i = Some c -> in_pubsub c = true <-> (exists ch, (i, ch) ∈ sp_channels a) \/ (exists p, (i, p) ∈ sp_patterns a)).
Proof.
  intros Hes. destruct (steps_refine es Hes (empty_server cluster) empty_spec (empty_refines cluster) empty_fits) as (s & E & R & _). exists s. split; [done|].
  set (a := foldl spec_step empty_spec es) in *. cbv zeta. pose proof R as [[S1 S2 S3] R2 R3 R4 R5]. split; [|split].
  - intros i ch. rewrite <- R3. split.
    + intros Hi. destruct (srv_channels s !! ch) as [l|] eqn:El; [|inversion Hi]. by eapply (ix_of _ _ S1).
    + intros Hs. destruct (ix_in _ _ S1 _ _ Hs) as (l & -> & Hi). done.
  - intros i p. rewrite <- R4. unfold psubscribed.
    assert (Hp : (i, p) ∈ srv_patterns s <-> p ∈ pats_of i (srv_patterns s)).
    { unfold pats_of. rewrite list_elem_of_fmap. setoid_rewrite list_elem_of_filter. split; [intros Hin; exists (i, p); done|intros ([i' p'] & -> & <- & Hin); done]. }
    rewrite Hp, S2. destruct (clients s !! i) as [c|]; [naive_solver|]. rewrite elem_of_nil. naive_solver.
  - intros i c Ec. destruct (refines_own _ _ _ _ R Ec) as [O1 O2]. rewrite (R5 i c Ec), negb_true_iff, Z.eqb_neq, count_zero. split.
    + intros Hn. destruct (decide (pubsub_channels c = ∅)) as [Hz|Hz].
      * right. destruct (pubsub_patterns c) as [|p l] eqn:Ep; [by destruct Hn|]. exists p. apply O2. left.
      * left. apply set_choose_L in Hz as [ch Hch]. exists ch. by apply O1.
    + intros [[ch Hch]|[p Hp]] [Hz1 Hz2]; [apply O1 in Hch; rewrite Hz1 in Hch; set_solver|apply O2 in Hp; rewrite Hz2 in Hp; inversion Hp].
Qed.

(** C20: PUBLISH reaches exactly the subscribers.  In every state the server can
    reach, publishing sends each client one message if it is subscribed to the
    channel, then one for each of its patterns that match the channel, in the order
    in which it subscribed to them, and sends nothing else; the result is the number
    of messages sent, and the subscriptions are unchanged.  A pattern matches a
    non-empty channel when the reference relation of glob patterns holds.  It matches
    the empty channel only when it is empty itself: [*] does not, although the
    reference relation holds.  All names are shorter than 2^31 bytes. *)
Theorem publish_delivers_exactly (cluster : bool) (es : list event) (s : server) (ch m : list Z) :
  Forall event_fits es -> steps (empty_server cluster) es = Some s -> fits ch ->
  exists s', pubsubPublishMessage s ch m =
      Some (s', zlen (default [] (srv_channels s !! ch)) + zlen (filter (fun x => matches x.2 ch = true) (srv_patterns s))) /\
    srv_channels s' = srv_channels s /\ srv_patterns s' = srv_patterns s /\
    (forall i, clients s' !! i = (fun c => add_all (delivery ch m c) c) <$> clients s !! i) /\
    (forall p, fits p -> matches p ch = true <-> if decide (ch = []) then p = [] else glob false (tokens p) ch).
Proof.
  intros Hes E Hch. destruct (steps_refine es Hes (empty_server cluster) empty_spec (empty_refines cluster) empty_fits) as (s0 & E0 & R & Hf).
  rewrite E in E0. injection E0 as <-. destruct (publish_ok s ch m (rf_ok _ _ R) Hch (patterns_fit _ _ R Hf)) as (s1 & E1 & P1 & C1 & _ & Hs1). exists s1. split; [done|]. split; [done|]. split; [done|]. split; [done|].
  intros p Hp. by apply glob_matches_total.
Qed.

End Run.

#[export] Instance elements_order : DictOrder := {| dict_order := elements; dict_order_perm s := Permutation_refl _ |}.

Definition sample_events : list event :=
  [Connect 1; Connect 2; Subscribe 1 [cstr "news"; cstr "sport"]; PSubscribe 2 [cstr "n*"; cstr "[ns]ews"]; Subscribe 2 [cstr "news"]; Unsubscribe 1 [cstr "sport"]].

Lemma pubsub_refines_relation_witness : exists s, steps (empty_server false) sample_events = Some s /\
  (2 ∈ default [] (srv_channels s !! cstr "news")) /\ ~ (1 ∈ default [] (srv_channels s !! cstr "sport")).
Proof.
  destruct (pubsub_refines_relation false sample_events) as (s & E & H1 & _); [repeat constructor; vm_compute; discriminate|].
  exists s. split; [exact E|]. split.
  - apply H1. apply (bool_decide_unpack _). vm_compute. exact I.
  - intros Hi. apply H1 in Hi. revert Hi. apply (bool_decide_unpack _). vm_compute. exact I.
Defined.

Lemma publish_delivers_exactly_witness :
  exists s', pubsubPublishMessage (default (empty_server false) (steps (empty_server false) sample_events)) (cstr "news") (cstr "hi") = Some (s', 4).
Proof.
  destruct (publish_delivers_exactly false sample_events (default (empty_server false) (steps (empty_server false) sample_events)) (cstr "news") (cstr "hi")) as (s' & E & _);
    [repeat constructor; vm_compute; discriminate|vm_compute; reflexivity|vm_compute; discriminate|]. exists s'. rewrite E. vm_compute. reflexivity.
Defined.

End Pubsub.
