(* ===== verification/Notify.v ===== *)
(** * Keyspace notifications (notify.c)

    The flag strings of the configuration and the messages an event publishes.
    Publishing and the modules are effects of other components: they are recorded,
    in order, in the list of effects the operation returns. *)

From Stdlib Require Import String Ascii.
From S2P Require Import Prelude Util.

Module Notify.
Import Util.

Definition NOTIFY_KEYSPACE := Z.shiftl 1 0.
Definition NOTIFY_KEYEVENT := Z.shiftl 1 1.
Definition NOTIFY_GENERIC := Z.shiftl 1 2.
Definition NOTIFY_STRING := Z.shiftl 1 3.
Definition NOTIFY_LIST := Z.shiftl 1 4.
Definition NOTIFY_SET := Z.shiftl 1 5.
Definition NOTIFY_HASH := Z.shiftl 1 6.
Definition NOTIFY_ZSET := Z.shiftl 1 7.
Definition NOTIFY_EXPIRED := Z.shiftl 1 8.
Definition NOTIFY_EVICTED := Z.shiftl 1 9.
Definition NOTIFY_STREAM := Z.shiftl 1 10.
Definition NOTIFY_ALL :=
  Z.lor (Z.lor (Z.lor (Z.lor (Z.lor (Z.lor (Z.lor (Z.lor NOTIFY_GENERIC NOTIFY_STRING) NOTIFY_LIST) NOTIFY_SET)
    NOTIFY_HASH) NOTIFY_ZSET) NOTIFY_EXPIRED) NOTIFY_EVICTED) NOTIFY_STREAM.

(** The flags of one class character. *)
Definition class_flags (c : Z) : option Z :=
  if c =? 65 (* A *) then Some NOTIFY_ALL
  else if c =? 103 (* g *) then Some NOTIFY_GENERIC
  else if c =? 36 (* $ *) then Some NOTIFY_STRING
  else if c =? 108 (* l *) then Some NOTIFY_LIST
  else if c =? 115 (* s *) then Some NOTIFY_SET
  else if c =? 104 (* h *) then Some NOTIFY_HASH
  else if c =? 122 (* z *) then Some NOTIFY_ZSET
  else if c =? 120 (* x *) then Some NOTIFY_EXPIRED
  else if c =? 101 (* e *) then Some NOTIFY_EVICTED
  else if c =? 75 (* K *) then Some NOTIFY_KEYSPACE
  else if c =? 69 (* E *) then Some NOTIFY_KEYEVENT
  else if c =? 116 (* t *) then Some NOTIFY_STREAM
  else None.

(** The string is read up to its terminator; without one the read leaves the
    buffer ([None]).  The result -1 stands for an unknown class. *)
Fixpoint string_to_flags (p : list Z) (flags : Z) : option Z :=
  match p with
  | [] => None
  | c :: p =>
      if c =? 0 then Some flags
      else match class_flags c with
           | Some f => string_to_flags p (Z.lor flags f)
           | None => Some (-1)
           end
  end.

Definition keyspaceEventsStringToFlags (classes : list Z) : option Z := string_to_flags classes 0.

(** [if (flags & flag) res = sdscatlen(res,class,1);] *)
Definition cat_if (flags flag : Z) (class : string) (res : list Z) : list Z :=
  if negb (Z.land flags flag =? 0) then res ++ cstr class else res.

Definition keyspaceEventsFlagsToString (flags : Z) : list Z :=
  let res := [] in
  let res :=
    if Z.land flags NOTIFY_ALL =? NOTIFY_ALL then res ++ cstr "A"
    else
      let res := cat_if flags NOTIFY_GENERIC "g" res in
      let res := cat_if flags NOTIFY_STRING "$" res in
      let res := cat_if flags NOTIFY_LIST "l" res in
      let res := cat_if flags NOTIFY_SET "s" res in
      let res := cat_if flags NOTIFY_HASH "h" res in
      let res := cat_if flags NOTIFY_ZSET "z" res in
      let res := cat_if flags NOTIFY_EXPIRED "x" res in
      let res := cat_if flags NOTIFY_EVICTED "e" res in
      cat_if flags NOTIFY_STREAM "t" res in
  let res := cat_if flags NOTIFY_KEYSPACE "K" res in
  cat_if flags NOTIFY_KEYEVENT "E" res.

Inductive effect :=
| ModuleNotify (type : Z) (event key : list Z) (dbid : Z)
| Publish (channel message : list Z).

(** [<prefix>@<db>__:<suffix>], the database number being in the first [len]
    bytes of [buf]. *)
Definition channel (prefix : string) (buf : list Z) (len : Z) (suffix : list Z) : option (list Z) :=
  num ← mem_read buf 0 len; Some (cstr prefix ++ num ++ cstr "__:" ++ suffix).

(** [buf] is the uninitialised buffer of 24 bytes. *)
Definition notifyKeyspaceEvent (notify_keyspace_events : Z) (buf : list Z) (type : Z) (event key : list Z) (dbid : Z)
    : option (list effect) :=
  let effs := [ModuleNotify type event key dbid] in
  if Z.land notify_keyspace_events type =? 0 then Some effs
  else
    '(len, buf, effs) ←
      (if negb (Z.land notify_keyspace_events NOTIFY_KEYSPACE =? 0) then
         '(len, buf) ← ll2string buf (zlen buf) dbid;
         chan ← channel "__keyspace@" buf len key;
         Some (len, buf, effs ++ [Publish chan event])
       else Some (-1, buf, effs));
    if negb (Z.land notify_keyspace_events NOTIFY_KEYEVENT =? 0) then
      '(len, buf) ← (if len =? -1 then ll2string buf (zlen buf) dbid else Some (len, buf));
      chan ← channel "__keyevent@" buf len event;
      Some (effs ++ [Publish chan key])
    else Some effs.

Example notify_examples :
  keyspaceEventsStringToFlags (cstr "KEA" ++ [0]) = Some 2047 /\
  keyspaceEventsStringToFlags (cstr "Kq" ++ [0]) = Some (-1) /\
  keyspaceEventsFlagsToString 2047 = cstr "AKE" /\
  keyspaceEventsFlagsToString 9 = cstr "$K" /\
  notifyKeyspaceEvent 11 (replicate 24 170) NOTIFY_STRING (cstr "set") (cstr "k1") 15
  = Some [ModuleNotify NOTIFY_STRING (cstr "set") (cstr "k1") 15;
          Publish (cstr "__keyspace@15__:k1") (cstr "set");
          Publish (cstr "__keyevent@15__:set") (cstr "k1")].
Proof. vm_compute. repeat split. Qed.

(** ** Flag strings *)

(** Only the eleven class bits of a flag word matter for its string. *)
Lemma flags_low flags : keyspaceEventsFlagsToString flags = keyspaceEventsFlagsToString (Z.land flags 2047).
Proof.
  unfold keyspaceEventsFlagsToString, cat_if.
  assert (E : forall m, Z.land 2047 m = m -> Z.land (Z.land flags 2047) m = Z.land flags m)
    by (intros m Hm; by rewrite <- Z.land_assoc, Hm).
  rewrite !E by reflexivity. reflexivity.
Qed.

Lemma low_range flags : 0 <= Z.land flags 2047 < Z.of_nat 2048.
Proof. change 2047 with (Z.ones 11). rewrite Z.land_ones by lia. by apply Z.mod_pos_bound. Qed.

(** Parsing the string of a flag word gives back its class flags, for every
    [int]. *)
Theorem notify_flags_roundtrip (flags : Z) :
  keyspaceEventsStringToFlags (keyspaceEventsFlagsToString flags ++ [0]) = Some (Z.land flags 2047).
Proof.
  rewrite flags_low. pose proof (low_range flags) as Hr.
  pose proof (forall_below (fun f =>
    bool_decide (keyspaceEventsStringToFlags (keyspaceEventsFlagsToString f ++ [0]) = Some f)) 2048) as Hall.
  apply (bool_decide_eq_true_1 _), Hall; [|done]. vm_compute. reflexivity.
Qed.

(** The flags of a string of known classes. *)
Definition flags_of (cs : list Z) : option Z :=
  foldl (fun acc c => f ← acc; g ← class_flags c; Some (Z.lor f g)) (Some 0) cs.

Lemma foldl_None cs : foldl (fun acc c => f ← acc; g ← class_flags c; Some (Z.lor f g)) None cs = None.
Proof. induction cs as [|c cs IH]; [done|]. exact IH. Qed.

Lemma string_to_flags_spec cs : forall rest flags, Forall (fun c => c <> 0) cs ->
  string_to_flags (cs ++ 0 :: rest) flags
  = Some (default (-1) (foldl (fun acc c => f ← acc; g ← class_flags c; Some (Z.lor f g)) (Some flags) cs)).
Proof.
  induction cs as [|c cs IH]; intros rest flags Hc; [done|]. apply Forall_cons in Hc as [H0 Hc].
  cbn [app string_to_flags foldl]. rewrite (proj2 (Z.eqb_neq c 0)) by done. mrun.
  destruct (class_flags c) as [g|]; mrun; [by apply IH|]. by rewrite foldl_None.
Qed.

(** A configured class string yields the union of the flags of its characters
    and -1 exactly when a character is no class; bytes after the terminator are
    not looked at. *)
Theorem keyspaceEventsStringToFlags_correct (cs rest : list Z) : Forall (fun c => c <> 0) cs ->
  keyspaceEventsStringToFlags (cs ++ 0 :: rest) = Some (default (-1) (flags_of cs)) /\
  (flags_of cs = None <-> Exists (fun c => class_flags c = None) cs).
Proof.
  intros Hc. split; [by apply string_to_flags_spec|]. unfold flags_of. generalize 0 at 1. clear Hc.
  induction cs as [|c cs IH]; intros acc; [split; [done|intros H; inversion H]|]. cbn [foldl]. mrun.
  rewrite Exists_cons. destruct (class_flags c) as [g|]; mrun.
  - rewrite (IH (Z.lor acc g)). split; [tauto|]. by intros [?|?].
  - rewrite foldl_None. tauto.
Qed.

Lemma keyspaceEventsStringToFlags_correct_witness :
  keyspaceEventsStringToFlags (cstr "Elg" ++ 0 :: [255]) = Some 22 /\
  (flags_of (cstr "Elg") = None <-> Exists (fun c => class_flags c = None) (cstr "Elg")).
Proof.
  apply (keyspaceEventsStringToFlags_correct (cstr "Elg") [255]).
  repeat constructor; discriminate.
Defined.

(** ** Events *)

Definition enabled (flags flag : Z) : bool := negb (Z.land flags flag =? 0).

Lemma channel_spec prefix num rest len suffix : len = zlen num ->
  channel prefix (num ++ rest) len suffix = Some (cstr prefix ++ num ++ cstr "__:" ++ suffix).
Proof.
  intros ->. unfold channel. pose proof (mem_read_app [] num rest) as E. cbn [app] in E.
  change (zlen []) with 0 in E. by rewrite E.
Qed.

(** An event always reaches the modules first; when its class is enabled it
    publishes on [__keyspace@<db>__:<key>] and then [__keyevent@<db>__:<event>], as
    configured, with the database number in decimal, without overrunning the
    buffer. *)
Theorem notifyKeyspaceEvent_correct (flags : Z) (buf : list Z) (type : Z) (event key : list Z) (dbid : Z) :
  zlen buf = 24 -> INT32_MIN <= dbid <= INT32_MAX ->
  notifyKeyspaceEvent flags buf type event key dbid
  = Some (ModuleNotify type event key dbid ::
      if enabled flags type then
        (if enabled flags NOTIFY_KEYSPACE
         then [Publish (cstr "__keyspace@" ++ dec dbid ++ cstr "__:" ++ key) event] else []) ++
        (if enabled flags NOTIFY_KEYEVENT
         then [Publish (cstr "__keyevent@" ++ dec dbid ++ cstr "__:" ++ event) key] else [])
      else []).
Proof.
  intros Hb Hd. assert (Hd64 : in_s64 dbid) by (unfold in_s64, LLONG_MIN, LLONG_MAX, INT32_MIN, INT32_MAX in *; lia).
  pose proof (dec_zlen dbid Hd64) as Hl. unfold notifyKeyspaceEvent, enabled. cbv zeta.
  assert (Hll : ll2string buf (zlen buf) dbid
    = Some (zlen (dec dbid), dec dbid ++ 0 :: drop (S (length (dec dbid))) buf)).
  { rewrite ll2string_spec by (done || lia). rewrite Hb. by zif_false. }
  rewrite Hll.
  destruct (Z.land flags type =? 0); [done|]. cbn [negb].
  destruct (Z.land flags NOTIFY_KEYSPACE =? 0); cbn [negb]; mrun.
  - destruct (Z.land flags NOTIFY_KEYEVENT =? 0); cbn [negb]; [done|]. change (-1 =? -1) with true.
    cbn match. rewrite Hll. mrun. by rewrite channel_spec.
  - rewrite channel_spec by done. mrun. destruct (Z.land flags NOTIFY_KEYEVENT =? 0); cbn [negb]; [done|].
    rewrite (proj2 (Z.eqb_neq (zlen (dec dbid)) (-1))) by lia. mrun. by rewrite channel_spec.
Qed.

Lemma notifyKeyspaceEvent_correct_witness :
  notifyKeyspaceEvent 9 (replicate 24 170) NOTIFY_STRING (cstr "set") (cstr "k1") (-7)
  = Some [ModuleNotify NOTIFY_STRING (cstr "set") (cstr "k1") (-7);
          Publish (cstr "__keyspace@-7__:k1") (cstr "set")].
Proof.
  refine (eq_trans (notifyKeyspaceEvent_correct 9 (replicate 24 170) NOTIFY_STRING (cstr "set") (cstr "k1") (-7) _ _) _).
  - vm_compute. reflexivity.
  - unfold INT32_MIN, INT32_MAX. lia.
  - vm_compute. reflexivity.
Defined.

End Notify.
