(* ===== verification/Crc.v ===== *)
(** * Checksums and hash slots: src/redis5/src/crc16.c, crc64.c and
    [keyHashSlot] of src/redis5/src/cluster.c

    CRC-16/XMODEM (most significant bit first) is compared with polynomial
    division over GF(2), CRC-64/Jones (least significant bit first) with the
    bit-serial shift register; both are shown to detect error bursts. *)

From S2P Require Import Prelude.

Module Crc.

(** ** Definitions *)

Definition crc16tab : list Z := [
   0x0000; 0x1021; 0x2042; 0x3063; 0x4084; 0x50a5; 0x60c6; 0x70e7;
   0x8108; 0x9129; 0xa14a; 0xb16b; 0xc18c; 0xd1ad; 0xe1ce; 0xf1ef;
   0x1231; 0x0210; 0x3273; 0x2252; 0x52b5; 0x4294; 0x72f7; 0x62d6;
   0x9339; 0x8318; 0xb37b; 0xa35a; 0xd3bd; 0xc39c; 0xf3ff; 0xe3de;
   0x2462; 0x3443; 0x0420; 0x1401; 0x64e6; 0x74c7; 0x44a4; 0x5485;
   0xa56a; 0xb54b; 0x8528; 0x9509; 0xe5ee; 0xf5cf; 0xc5ac; 0xd58d;
   0x3653; 0x2672; 0x1611; 0x0630; 0x76d7; 0x66f6; 0x5695; 0x46b4;
   0xb75b; 0xa77a; 0x9719; 0x8738; 0xf7df; 0xe7fe; 0xd79d; 0xc7bc;
   0x48c4; 0x58e5; 0x6886; 0x78a7; 0x0840; 0x1861; 0x2802; 0x3823;
   0xc9cc; 0xd9ed; 0xe98e; 0xf9af; 0x8948; 0x9969; 0xa90a; 0xb92b;
   0x5af5; 0x4ad4; 0x7ab7; 0x6a96; 0x1a71; 0x0a50; 0x3a33; 0x2a12;
   0xdbfd; 0xcbdc; 0xfbbf; 0xeb9e; 0x9b79; 0x8b58; 0xbb3b; 0xab1a;
   0x6ca6; 0x7c87; 0x4ce4; 0x5cc5; 0x2c22; 0x3c03; 0x0c60; 0x1c41;
   0xedae; 0xfd8f; 0xcdec; 0xddcd; 0xad2a; 0xbd0b; 0x8d68; 0x9d49;
   0x7e97; 0x6eb6; 0x5ed5; 0x4ef4; 0x3e13; 0x2e32; 0x1e51; 0x0e70;
   0xff9f; 0xefbe; 0xdfdd; 0xcffc; 0xbf1b; 0xaf3a; 0x9f59; 0x8f78;
   0x9188; 0x81a9; 0xb1ca; 0xa1eb; 0xd10c; 0xc12d; 0xf14e; 0xe16f;
   0x1080; 0x00a1; 0x30c2; 0x20e3; 0x5004; 0x4025; 0x7046; 0x6067;
   0x83b9; 0x9398; 0xa3fb; 0xb3da; 0xc33d; 0xd31c; 0xe37f; 0xf35e;
   0x02b1; 0x1290; 0x22f3; 0x32d2; 0x4235; 0x5214; 0x6277; 0x7256;
   0xb5ea; 0xa5cb; 0x95a8; 0x8589; 0xf56e; 0xe54f; 0xd52c; 0xc50d;
   0x34e2; 0x24c3; 0x14a0; 0x0481; 0x7466; 0x6447; 0x5424; 0x4405;
   0xa7db; 0xb7fa; 0x8799; 0x97b8; 0xe75f; 0xf77e; 0xc71d; 0xd73c;
   0x26d3; 0x36f2; 0x0691; 0x16b0; 0x6657; 0x7676; 0x4615; 0x5634;
   0xd94c; 0xc96d; 0xf90e; 0xe92f; 0x99c8; 0x89e9; 0xb98a; 0xa9ab;
   0x5844; 0x4865; 0x7806; 0x6827; 0x18c0; 0x08e1; 0x3882; 0x28a3;
   0xcb7d; 0xdb5c; 0xeb3f; 0xfb1e; 0x8bf9; 0x9bd8; 0xabbb; 0xbb9a;
   0x4a75; 0x5a54; 0x6a37; 0x7a16; 0x0af1; 0x1ad0; 0x2ab3; 0x3a92;
   0xfd2e; 0xed0f; 0xdd6c; 0xcd4d; 0xbdaa; 0xad8b; 0x9de8; 0x8dc9;
   0x7c26; 0x6c07; 0x5c64; 0x4c45; 0x3ca2; 0x2c83; 0x1ce0; 0x0cc1;
   0xef1f; 0xff3e; 0xcf5d; 0xdf7c; 0xaf9b; 0xbfba; 0x8fd9; 0x9ff8;
   0x6e17; 0x7e36; 0x4e55; 0x5e74; 0x2e93; 0x3eb2; 0x0ed1; 0x1ef0].

Definition crc16_step (crc b : Z) : option Z :=
  t ← zget crc16tab (Z.land (Z.lxor (Z.shiftr crc 8) b) 0x00FF);
  Some (u16 (Z.lxor (Z.shiftl crc 8) t)).

Fixpoint crc16_loop (crc : Z) (buf : list Z) : option Z :=
  match buf with
  | [] => Some crc
  | b :: buf => crc ← crc16_step crc b; crc16_loop crc buf
  end.

Definition crc16 (buf : list Z) : option Z := crc16_loop 0 buf.

Definition crc64_tab : list Z := [
   0x0000000000000000; 0x7ad870c830358979; 0xf5b0e190606b12f2; 0x8f689158505e9b8b;
   0xc038e5739841b68f; 0xbae095bba8743ff6; 0x358804e3f82aa47d; 0x4f50742bc81f2d04;
   0xab28ecb46814fe75; 0xd1f09c7c5821770c; 0x5e980d24087fec87; 0x24407dec384a65fe;
   0x6b1009c7f05548fa; 0x11c8790fc060c183; 0x9ea0e857903e5a08; 0xe478989fa00bd371;
   0x7d08ff3b88be6f81; 0x07d08ff3b88be6f8; 0x88b81eabe8d57d73; 0xf2606e63d8e0f40a;
   0xbd301a4810ffd90e; 0xc7e86a8020ca5077; 0x4880fbd87094cbfc; 0x32588b1040a14285;
   0xd620138fe0aa91f4; 0xacf86347d09f188d; 0x2390f21f80c18306; 0x594882d7b0f40a7f;
   0x1618f6fc78eb277b; 0x6cc0863448deae02; 0xe3a8176c18803589; 0x997067a428b5bcf0;
   0xfa11fe77117cdf02; 0x80c98ebf2149567b; 0x0fa11fe77117cdf0; 0x75796f2f41224489;
   0x3a291b04893d698d; 0x40f16bccb908e0f4; 0xcf99fa94e9567b7f; 0xb5418a5cd963f206;
   0x513912c379682177; 0x2be1620b495da80e; 0xa489f35319033385; 0xde51839b2936bafc;
   0x9101f7b0e12997f8; 0xebd98778d11c1e81; 0x64b116208142850a; 0x1e6966e8b1770c73;
   0x8719014c99c2b083; 0xfdc17184a9f739fa; 0x72a9e0dcf9a9a271; 0x08719014c99c2b08;
   0x4721e43f0183060c; 0x3df994f731b68f75; 0xb29105af61e814fe; 0xc849756751dd9d87;
   0x2c31edf8f1d64ef6; 0x56e99d30c1e3c78f; 0xd9810c6891bd5c04; 0xa3597ca0a188d57d;
   0xec09088b6997f879; 0x96d1784359a27100; 0x19b9e91b09fcea8b; 0x636199d339c963f2;
   0xdf7adabd7a6e2d6f; 0xa5a2aa754a5ba416; 0x2aca3b2d1a053f9d; 0x50124be52a30b6e4;
   0x1f423fcee22f9be0; 0x659a4f06d21a1299; 0xeaf2de5e82448912; 0x902aae96b271006b;
   0x74523609127ad31a; 0x0e8a46c1224f5a63; 0x81e2d7997211c1e8; 0xfb3aa75142244891;
   0xb46ad37a8a3b6595; 0xceb2a3b2ba0eecec; 0x41da32eaea507767; 0x3b024222da65fe1e;
   0xa2722586f2d042ee; 0xd8aa554ec2e5cb97; 0x57c2c41692bb501c; 0x2d1ab4dea28ed965;
   0x624ac0f56a91f461; 0x1892b03d5aa47d18; 0x97fa21650afae693; 0xed2251ad3acf6fea;
   0x095ac9329ac4bc9b; 0x7382b9faaaf135e2; 0xfcea28a2faafae69; 0x8632586aca9a2710;
   0xc9622c4102850a14; 0xb3ba5c8932b0836d; 0x3cd2cdd162ee18e6; 0x460abd1952db919f;
   0x256b24ca6b12f26d; 0x5fb354025b277b14; 0xd0dbc55a0b79e09f; 0xaa03b5923b4c69e6;
   0xe553c1b9f35344e2; 0x9f8bb171c366cd9b; 0x10e3202993385610; 0x6a3b50e1a30ddf69;
   0x8e43c87e03060c18; 0xf49bb8b633338561; 0x7bf329ee636d1eea; 0x012b592653589793;
   0x4e7b2d0d9b47ba97; 0x34a35dc5ab7233ee; 0xbbcbcc9dfb2ca865; 0xc113bc55cb19211c;
   0x5863dbf1e3ac9dec; 0x22bbab39d3991495; 0xadd33a6183c78f1e; 0xd70b4aa9b3f20667;
   0x985b3e827bed2b63; 0xe2834e4a4bd8a21a; 0x6debdf121b863991; 0x1733afda2bb3b0e8;
   0xf34b37458bb86399; 0x8993478dbb8deae0; 0x06fbd6d5ebd3716b; 0x7c23a61ddbe6f812;
   0x3373d23613f9d516; 0x49aba2fe23cc5c6f; 0xc6c333a67392c7e4; 0xbc1b436e43a74e9d;
   0x95ac9329ac4bc9b5; 0xef74e3e19c7e40cc; 0x601c72b9cc20db47; 0x1ac40271fc15523e;
   0x5594765a340a7f3a; 0x2f4c0692043ff643; 0xa02497ca54616dc8; 0xdafce7026454e4b1;
   0x3e847f9dc45f37c0; 0x445c0f55f46abeb9; 0xcb349e0da4342532; 0xb1eceec59401ac4b;
   0xfebc9aee5c1e814f; 0x8464ea266c2b0836; 0x0b0c7b7e3c7593bd; 0x71d40bb60c401ac4;
   0xe8a46c1224f5a634; 0x927c1cda14c02f4d; 0x1d148d82449eb4c6; 0x67ccfd4a74ab3dbf;
   0x289c8961bcb410bb; 0x5244f9a98c8199c2; 0xdd2c68f1dcdf0249; 0xa7f41839ecea8b30;
   0x438c80a64ce15841; 0x3954f06e7cd4d138; 0xb63c61362c8a4ab3; 0xcce411fe1cbfc3ca;
   0x83b465d5d4a0eece; 0xf96c151de49567b7; 0x76048445b4cbfc3c; 0x0cdcf48d84fe7545;
   0x6fbd6d5ebd3716b7; 0x15651d968d029fce; 0x9a0d8ccedd5c0445; 0xe0d5fc06ed698d3c;
   0xaf85882d2576a038; 0xd55df8e515432941; 0x5a3569bd451db2ca; 0x20ed197575283bb3;
   0xc49581ead523e8c2; 0xbe4df122e51661bb; 0x3125607ab548fa30; 0x4bfd10b2857d7349;
   0x04ad64994d625e4d; 0x7e7514517d57d734; 0xf11d85092d094cbf; 0x8bc5f5c11d3cc5c6;
   0x12b5926535897936; 0x686de2ad05bcf04f; 0xe70573f555e26bc4; 0x9ddd033d65d7e2bd;
   0xd28d7716adc8cfb9; 0xa85507de9dfd46c0; 0x273d9686cda3dd4b; 0x5de5e64efd965432;
   0xb99d7ed15d9d8743; 0xc3450e196da80e3a; 0x4c2d9f413df695b1; 0x36f5ef890dc31cc8;
   0x79a59ba2c5dc31cc; 0x037deb6af5e9b8b5; 0x8c157a32a5b7233e; 0xf6cd0afa9582aa47;
   0x4ad64994d625e4da; 0x300e395ce6106da3; 0xbf66a804b64ef628; 0xc5bed8cc867b7f51;
   0x8aeeace74e645255; 0xf036dc2f7e51db2c; 0x7f5e4d772e0f40a7; 0x05863dbf1e3ac9de;
   0xe1fea520be311aaf; 0x9b26d5e88e0493d6; 0x144e44b0de5a085d; 0x6e963478ee6f8124;
   0x21c640532670ac20; 0x5b1e309b16452559; 0xd476a1c3461bbed2; 0xaeaed10b762e37ab;
   0x37deb6af5e9b8b5b; 0x4d06c6676eae0222; 0xc26e573f3ef099a9; 0xb8b627f70ec510d0;
   0xf7e653dcc6da3dd4; 0x8d3e2314f6efb4ad; 0x0256b24ca6b12f26; 0x788ec2849684a65f;
   0x9cf65a1b368f752e; 0xe62e2ad306bafc57; 0x6946bb8b56e467dc; 0x139ecb4366d1eea5;
   0x5ccebf68aecec3a1; 0x2616cfa09efb4ad8; 0xa97e5ef8cea5d153; 0xd3a62e30fe90582a;
   0xb0c7b7e3c7593bd8; 0xca1fc72bf76cb2a1; 0x45775673a732292a; 0x3faf26bb9707a053;
   0x70ff52905f188d57; 0x0a2722586f2d042e; 0x854fb3003f739fa5; 0xff97c3c80f4616dc;
   0x1bef5b57af4dc5ad; 0x61372b9f9f784cd4; 0xee5fbac7cf26d75f; 0x9487ca0fff135e26;
   0xdbd7be24370c7322; 0xa10fceec0739fa5b; 0x2e675fb4576761d0; 0x54bf2f7c6752e8a9;
   0xcdcf48d84fe75459; 0xb71738107fd2dd20; 0x387fa9482f8c46ab; 0x42a7d9801fb9cfd2;
   0x0df7adabd7a6e2d6; 0x772fdd63e7936baf; 0xf8474c3bb7cdf024; 0x829f3cf387f8795d;
   0x66e7a46c27f3aa2c; 0x1c3fd4a417c62355; 0x935745fc4798b8de; 0xe98f353477ad31a7;
   0xa6df411fbfb21ca3; 0xdc0731d78f8795da; 0x536fa08fdfd90e51; 0x29b7d047efec8728].

Definition crc64_step (crc byte : Z) : option Z :=
  t ← zget crc64_tab (Z.lxor (u8 crc) byte);
  Some (Z.lxor t (Z.shiftr crc 8)).

Fixpoint crc64 (crc : Z) (s : list Z) : option Z :=
  match s with
  | [] => Some crc
  | byte :: s => crc ← crc64_step crc byte; crc64 crc s
  end.

(** *** Hash slots *)

Definition c_lbrace := 123.
Definition c_rbrace := 125.

(** [for (; i < keylen; i++) if (key[i] == c) break;] *)
Fixpoint find_char (fuel : nat) (key : list Z) (c i : Z) : option Z :=
  match fuel with
  | O => None
  | S fuel =>
      if i <? zlen key then
        x ← zget key i; if x =? c then Some i else find_char fuel key c (i + 1)
      else Some i
  end.

Definition keyHashSlot (key : list Z) : option Z :=
  let keylen := zlen key in
  let whole := crc ← crc16 key; Some (Z.land crc 0x3FFF) in
  s ← find_char (S (length key)) key c_lbrace 0;
  if s =? keylen then whole
  else
    e ← find_char (S (length key)) key c_rbrace (s + 1);
    if (e =? keylen) || (e =? s + 1) then whole
    else
      tag ← mem_read key (s + 1) (e - s - 1);
      crc ← crc16 tag; Some (Z.land crc 0x3FFF).

Example crc16_check : crc16 [49; 50; 51; 52; 53; 54; 55; 56; 57] = Some 0x31C3.
Proof. vm_compute. reflexivity. Qed.

Example crc64_check : crc64 0 [49; 50; 51; 52; 53; 54; 55; 56; 57] = Some 0xe9c6d914c4b8d9ca.
Proof. vm_compute. reflexivity. Qed.

(** ** Bits *)

Lemma testbit_small x n i : 0 <= x < 2 ^ n -> n <= i -> Z.testbit x i = false.
Proof.
  intros Hx Hi. destruct (Z.lt_ge_cases i 0) as [|H0]; [by apply Z.testbit_neg_r|].
  assert (2 ^ n <= 2 ^ i) by (apply Z.pow_le_mono_r; lia).
  rewrite Z.testbit_false, Z.div_small by lia. done.
Qed.

Lemma lxor_range n a b : 0 <= n -> 0 <= a < 2 ^ n -> 0 <= b < 2 ^ n -> 0 <= Z.lxor a b < 2 ^ n.
Proof.
  intros Hn Ha Hb. assert (H0 : 0 <= Z.lxor a b) by (apply Z.lxor_nonneg; lia). split; [done|].
  replace (Z.lxor a b) with (uN n (Z.lxor a b)); [by apply uN_range|].
  apply Z.bits_inj'. intros i Hi. rewrite uN_bits by lia. rewrite Z.lxor_spec.
  destruct (Z.ltb_spec i n); [done|]. by rewrite !(testbit_small _ n) by lia.
Qed.

Lemma shiftr_range n k a : 0 <= k -> 0 <= n -> 0 <= a < 2 ^ (n + k) -> 0 <= Z.shiftr a k < 2 ^ n.
Proof.
  intros Hk Hn Ha. rewrite Z.shiftr_div_pow2 by lia. pose proof (pow2_pos k Hk).
  split; [apply Z.div_pos; lia|]. apply Z.div_lt_upper_bound; [lia|]. rewrite <- Z.pow_add_r by lia.
  replace (k + n) with (n + k) by lia. lia.
Qed.

(** A number is its high part and its low part. *)
Lemma split_low a k : 0 <= k -> a = Z.lxor (Z.shiftl (Z.shiftr a k) k) (uN k a).
Proof.
  intros Hk. apply Z.bits_inj'. intros i Hi. rewrite Z.lxor_spec, uN_bits by lia.
  destruct (Z.ltb_spec i k).
  - rewrite Z.shiftl_spec_low by lia. by rewrite xorb_false_l.
  - rewrite Z.shiftl_spec, Z.shiftr_spec by lia. rewrite xorb_false_r. f_equal. lia.
Qed.

Lemma uN_lxor n a b : 0 <= n -> uN n (Z.lxor a b) = Z.lxor (uN n a) (uN n b).
Proof.
  intros Hn. apply Z.bits_inj'. intros i Hi.
  rewrite Z.lxor_spec, !uN_bits, Z.lxor_spec by lia. by destruct (i <? n).
Qed.

Lemma uN_shiftl n k a : 0 <= k <= n -> uN n (Z.shiftl a k) = Z.shiftl (uN (n - k) a) k.
Proof.
  intros Hk. apply Z.bits_inj'. intros i Hi. rewrite uN_bits by lia.
  destruct (Z.lt_ge_cases i k) as [Hlt|Hge].
  - rewrite !Z.shiftl_spec_low by lia. by rewrite andb_false_r.
  - rewrite !Z.shiftl_spec, uN_bits by lia. f_equal.
    destruct (Z.ltb_spec i n), (Z.ltb_spec (i - k) (n - k)); lia || done.
Qed.

(** ** Polynomials over GF(2) *)

(** The multiples of [m]: sums of shifted copies. *)
Definition sum_shifts (m : Z) (ks : list Z) : Z := foldr (fun k acc => Z.lxor (Z.shiftl m k) acc) 0 ks.
Definition multiple (m x : Z) : Prop := exists ks, Forall (fun k => 0 <= k) ks /\ x = sum_shifts m ks.

Lemma multiple_0 m : multiple m 0.
Proof. by exists []. Qed.

Lemma multiple_lxor m x y : multiple m x -> multiple m y -> multiple m (Z.lxor x y).
Proof.
  intros (ks & Hk & ->) (ls & Hl & ->). exists (ks ++ ls). split; [by apply Forall_app|].
  clear. induction ks as [|k ks IH]; [done|]. simpl. by rewrite Z.lxor_assoc, IH.
Qed.

Lemma multiple_shiftl m x n : 0 <= n -> multiple m x -> multiple m (Z.shiftl x n).
Proof.
  intros Hn (ks & Hk & ->). exists ((fun k => k + n) <$> ks). split.
  - apply Forall_fmap. eapply Forall_impl; [exact Hk|]. simpl. lia.
  - induction Hk as [|k ks Hk0 Hk IH]; [apply Z.shiftl_0_l|]. simpl.
    by rewrite Z.shiftl_lxor, IH, Z.shiftl_shiftl by lia.
Qed.

(** Congruence modulo the polynomial [m]. *)
Definition pcong (m a b : Z) : Prop := multiple m (Z.lxor a b).

Lemma pcong_trans m a b c : pcong m a b -> pcong m b c -> pcong m a c.
Proof.
  unfold pcong. intros H1 H2. pose proof (multiple_lxor _ _ _ H1 H2) as H.
  by rewrite Z.lxor_assoc, <- (Z.lxor_assoc b), Z.lxor_nilpotent, Z.lxor_0_l in H.
Qed.

Lemma pcong_lxor m a b c d : pcong m a b -> pcong m c d -> pcong m (Z.lxor a c) (Z.lxor b d).
Proof.
  unfold pcong. intros H1 H2. pose proof (multiple_lxor _ _ _ H1 H2) as H.
  replace (Z.lxor (Z.lxor a c) (Z.lxor b d)) with (Z.lxor (Z.lxor a b) (Z.lxor c d)); [done|].
  apply Z.bits_inj'. intros i _. rewrite !Z.lxor_spec.
  by destruct (Z.testbit a i), (Z.testbit b i), (Z.testbit c i), (Z.testbit d i).
Qed.

Lemma pcong_refl m a : pcong m a a.
Proof. unfold pcong. rewrite Z.lxor_nilpotent. apply multiple_0. Qed.

Lemma pcong_shiftl m a b n : 0 <= n -> pcong m a b -> pcong m (Z.shiftl a n) (Z.shiftl b n).
Proof. unfold pcong. intros Hn H. rewrite <- Z.shiftl_lxor. by apply multiple_shiftl. Qed.

(** ** CRC-16 is a remainder *)

(** x^16 + x^12 + x^5 + 1 *)
Definition P16 := 0x11021.

(** The message as a polynomial: its bits, the first byte most significant. *)
Definition message (buf : list Z) : Z := foldl (fun acc b => Z.lxor (Z.shiftl acc 8) b) 0 buf.

(** Long division of an at most 24-bit number, as the list of quotient terms. *)
Fixpoint quotient (k : nat) (x : Z) : list Z :=
  match k with
  | O => []
  | S k => if Z.testbit x (Z.of_nat k + 16)
           then Z.of_nat k :: quotient k (Z.lxor x (Z.shiftl P16 (Z.of_nat k)))
           else quotient k x
  end.

Definition T16 (i : Z) : Z := default 0 (crc16tab !! Z.to_nat i).

(** Entry [i] of the table is the remainder of i * x^16. *)
Lemma table16_ok i : 0 <= i < 256 ->
  zget crc16tab i = Some (T16 i) /\ 0 <= T16 i < 2 ^ 16 /\ pcong P16 (T16 i) (Z.shiftl i 16).
Proof.
  intros Hi.
  assert (H : bool_decide (zget crc16tab i = Some (T16 i) /\ 0 <= T16 i < 2 ^ 16 /\
    Forall (fun k => 0 <= k) (quotient 8 (Z.shiftl i 16)) /\
    Z.lxor (T16 i) (Z.shiftl i 16) = sum_shifts P16 (quotient 8 (Z.shiftl i 16))) = true).
  { revert i Hi. apply (forall_below _ 256). vm_compute. reflexivity. }
  apply bool_decide_eq_true in H as (H1 & H2 & H3 & H4). split; [done|]. split; [done|].
  by exists (quotient 8 (Z.shiftl i 16)).
Qed.

Lemma crc16_step_spec crc b : 0 <= crc < 2 ^ 16 -> is_byte b ->
  exists r, crc16_step crc b = Some r /\ 0 <= r < 2 ^ 16 /\
    pcong P16 r (Z.lxor (Z.shiftl crc 8) (Z.shiftl b 16)).
Proof.
  intros Hc Hb. unfold is_byte in Hb. pose proof (shiftr_range 8 8 crc ltac:(lia) ltac:(lia) Hc) as Hh.
  set (i := Z.lxor (Z.shiftr crc 8) b).
  assert (Hi : 0 <= i < 256) by (apply (lxor_range 8); lia).
  assert (E : Z.land i 0x00FF = i).
  { change 0x00FF with (Z.ones 8). rewrite Z.land_ones by lia. by apply Z.mod_small. }
  unfold crc16_step. fold i. rewrite E. destruct (table16_ok i Hi) as (-> & Ht & Hq). mrun.
  eexists. split; [reflexivity|]. split; [by apply uN_range|].
  rewrite uN_lxor, uN_shiftl, (uN_id 16 (T16 i)) by lia. change (16 - 8) with 8.
  replace (Z.lxor (Z.shiftl crc 8) (Z.shiftl b 16))
    with (Z.lxor (Z.shiftl (u8 crc) 8) (Z.shiftl i 16)).
  - apply pcong_lxor; [apply pcong_refl|done].
  - rewrite (split_low crc 8) at 2 by lia. unfold i.
    rewrite !Z.shiftl_lxor, Z.shiftl_shiftl by lia. change (8 + 8) with 16.
    rewrite <- Z.lxor_assoc. f_equal. apply Z.lxor_comm.
Qed.

Lemma message_shift buf : forall acc,
  foldl (fun acc b => Z.lxor (Z.shiftl acc 8) b) acc buf
  = Z.lxor (Z.shiftl acc (8 * zlen buf)) (message buf).
Proof.
  unfold message. induction buf as [|b buf IH]; intros acc; [by simpl; rewrite Z.shiftl_0_r, Z.lxor_0_r|].
  pose proof (zlen_nonneg buf). cbn [foldl]. rewrite IH, (IH (Z.lxor (Z.shiftl 0 8) b)).
  rewrite Z.shiftl_0_l, Z.lxor_0_l, Z.shiftl_lxor, Z.shiftl_shiftl, zlen_cons by lia.
  rewrite Z.lxor_assoc. by replace (8 * (1 + zlen buf)) with (8 + 8 * zlen buf) by lia.
Qed.

Lemma crc16_loop_spec buf : forall crc, 0 <= crc < 2 ^ 16 -> bytes_ok buf ->
  exists r, crc16_loop crc buf = Some r /\ 0 <= r < 2 ^ 16 /\
    pcong P16 r (Z.lxor (Z.shiftl crc (8 * zlen buf)) (Z.shiftl (message buf) 16)).
Proof.
  induction buf as [|b buf IH]; intros crc Hc Hb.
  - exists crc. split; [done|]. split; [done|]. cbn [message foldl]. rewrite Z.shiftl_0_l, Z.lxor_0_r.
    change (8 * zlen []) with 0. rewrite Z.shiftl_0_r. apply pcong_refl.
  - apply Forall_cons in Hb as [Hb Hbs]. pose proof (zlen_nonneg buf).
    destruct (crc16_step_spec crc b Hc Hb) as (c1 & E1 & Hc1 & Hp1).
    destruct (IH c1 Hc1 Hbs) as (r & E & Hr & Hp). exists r. cbn [crc16_loop]. rewrite E1. mrun.
    split; [done|]. split; [done|]. eapply pcong_trans; [exact Hp|].
    unfold message at 2. cbn [foldl]. rewrite message_shift, Z.shiftl_0_l, Z.lxor_0_l, Z.shiftl_lxor.
    rewrite <- Z.lxor_assoc. apply pcong_lxor; [|apply pcong_refl].
    eapply pcong_trans; [apply pcong_shiftl; [|exact Hp1]; lia|].
    rewrite Z.shiftl_lxor, !Z.shiftl_shiftl, zlen_cons by lia.
    replace (8 + 8 * zlen buf) with (8 * (1 + zlen buf)) by lia.
    replace (16 + 8 * zlen buf) with (8 * zlen buf + 16) by lia. apply pcong_refl.
Qed.

(** [crc16] is total and returns the remainder of message(x) * x^16 by the
    polynomial x^16 + x^12 + x^5 + 1: a 16-bit value that differs from it by a
    multiple of the polynomial. *)
Theorem crc16_remainder (buf : list Z) : bytes_ok buf ->
  exists r, crc16 buf = Some r /\ 0 <= r < 2 ^ 16 /\ pcong P16 r (Z.shiftl (message buf) 16).
Proof.
  intros Hb. destruct (crc16_loop_spec buf 0 ltac:(lia) Hb) as (r & E & Hr & Hp).
  exists r. split; [done|]. split; [done|]. by rewrite Z.shiftl_0_l, Z.lxor_0_l in Hp.
Qed.

Lemma crc16_remainder_witness :
  exists r, crc16 [49; 50] = Some r /\ 0 <= r < 2 ^ 16 /\ pcong P16 r (Z.shiftl (message [49; 50]) 16).
Proof.
  apply (crc16_remainder [49; 50]). repeat constructor; vm_compute; discriminate.
Defined.

(** ** CRC-64 *)

(** *** The bit-serial register *)

(** The polynomial 0xad93d23594c935a9 with its bits reversed. *)
Definition POLY64 := 0x95ac9329ac4bc9b5.

Definition shift1 (r : Z) : Z := Z.lxor (Z.shiftr r 1) (if Z.odd r then POLY64 else 0).
Definition serial_byte (crc byte : Z) : Z := Nat.iter 8 shift1 (Z.lxor crc byte).
Definition crc64_serial (crc : Z) (s : list Z) : Z := foldl serial_byte crc s.

Lemma shift1_lxor a b : shift1 (Z.lxor a b) = Z.lxor (shift1 a) (shift1 b).
Proof.
  unfold shift1. rewrite Z.shiftr_lxor, <- !Z.bit0_odd, Z.lxor_spec.
  destruct (Z.testbit a 0), (Z.testbit b 0); simpl xorb; cbv iota;
    apply Z.bits_inj'; intros i _; rewrite !Z.lxor_spec, ?Z.bits_0;
    by destruct (Z.testbit _ i), (Z.testbit _ i), (Z.testbit POLY64 i).
Qed.

Lemma iter_shift1_lxor n a b :
  Nat.iter n shift1 (Z.lxor a b) = Z.lxor (Nat.iter n shift1 a) (Nat.iter n shift1 b).
Proof. induction n as [|n IH]; [done|]. simpl. by rewrite IH, shift1_lxor. Qed.

Lemma iter_shift1_high n : forall h, Nat.iter n shift1 (Z.shiftl h (Z.of_nat n)) = h.
Proof.
  induction n as [|n IH]; intros h; [by simpl; rewrite Z.shiftl_0_r|].
  rewrite Nat2Z.inj_succ. rewrite Nat.iter_succ_r. rewrite <- (IH h) at 2. f_equal.
  unfold shift1. rewrite <- Z.bit0_odd, Z.shiftl_spec_low, Z.lxor_0_r by lia.
  rewrite Z.shiftr_shiftl_l by lia. f_equal. lia.
Qed.

Definition T64 (i : Z) : Z := default 0 (crc64_tab !! Z.to_nat i).
Definition top8 (x : Z) : Z := Z.shiftr x 56.

Lemma table64_ok i : 0 <= i < 256 ->
  zget crc64_tab i = Some (T64 i) /\ 0 <= T64 i < 2 ^ 64 /\ T64 i = Nat.iter 8 shift1 i.
Proof.
  intros Hi. refine (bool_decide_eq_true_1 _ (forall_below (fun i => bool_decide
    (zget crc64_tab i = Some (T64 i) /\ 0 <= T64 i < 2 ^ 64 /\ T64 i = Nat.iter 8 shift1 i))
    256 _ i Hi)).
  vm_compute. reflexivity.
Qed.

(** The pure step of the table-driven loop. *)
Definition next64 (crc byte : Z) : Z := Z.lxor (T64 (Z.lxor (u8 crc) byte)) (Z.shiftr crc 8).

Lemma index_range crc byte : is_byte byte -> 0 <= Z.lxor (u8 crc) byte < 256.
Proof. intros Hb. apply (lxor_range 8); [lia|by apply uN_range|done]. Qed.

Lemma crc64_step_spec crc byte : 0 <= crc < 2 ^ 64 -> is_byte byte ->
  crc64_step crc byte = Some (next64 crc byte) /\ 0 <= next64 crc byte < 2 ^ 64.
Proof.
  intros Hc Hb. unfold crc64_step, next64.
  destruct (table64_ok _ (index_range crc byte Hb)) as (-> & Ht & _). mrun. split; [done|].
  apply lxor_range; [lia|done|].
  pose proof (shiftr_range 56 8 crc ltac:(lia) ltac:(lia) Hc). lia.
Qed.

Lemma crc64_fold s : forall crc, 0 <= crc < 2 ^ 64 -> bytes_ok s ->
  crc64 crc s = Some (foldl next64 crc s) /\ 0 <= foldl next64 crc s < 2 ^ 64.
Proof.
  induction s as [|b s IH]; intros crc Hc Hs; [done|]. apply Forall_cons in Hs as [Hb Hs].
  destruct (crc64_step_spec crc b Hc Hb) as [E Hr]. cbn [crc64 foldl]. rewrite E. mrun. by apply IH.
Qed.

Lemma next64_serial crc byte : is_byte byte -> next64 crc byte = serial_byte crc byte.
Proof.
  intros Hb. unfold next64, serial_byte.
  destruct (table64_ok _ (index_range crc byte Hb)) as (_ & _ & ->).
  rewrite (split_low crc 8) at 3 by lia. rewrite Z.lxor_assoc, (iter_shift1_lxor 8 (Z.shiftl _ _)).
  change (Z.shiftl (Z.shiftr crc 8) 8) with (Z.shiftl (Z.shiftr crc 8) (Z.of_nat 8)).
  rewrite iter_shift1_high. apply Z.lxor_comm.
Qed.

(** The table-driven [crc64] is the bit-serial CRC-64 with the reflected
    polynomial, it is total on byte strings, and it can be computed in chunks. *)
Theorem crc64_bit_serial (crc : Z) (a b : list Z) :
  0 <= crc < 2 ^ 64 -> bytes_ok a -> bytes_ok b ->
  crc64 crc a = Some (crc64_serial crc a) /\
  crc64 crc (a ++ b) = (c ← crc64 crc a; crc64 c b).
Proof.
  intros Hc Ha Hb. destruct (crc64_fold a crc Hc Ha) as [E Hr]. rewrite E. split.
  - f_equal. clear -Ha. unfold crc64_serial. revert crc. induction Ha as [|x a Hx Ha IH]; intros crc; [done|].
    cbn [foldl]. rewrite next64_serial by done. apply IH.
  - mrun. rewrite (proj1 (crc64_fold (a ++ b) crc Hc (Forall_app_2 _ _ _ Ha Hb))), foldl_app.
    symmetry. by apply crc64_fold.
Qed.

Lemma crc64_bit_serial_witness :
  crc64 0 [1; 255] = Some (crc64_serial 0 [1; 255]) /\
  crc64 0 ([1; 255] ++ [7]) = (c ← crc64 0 [1; 255]; crc64 c [7]).
Proof.
  apply (crc64_bit_serial 0 [1; 255] [7]).
  - lia.
  - repeat constructor; vm_compute; discriminate.
  - repeat constructor; vm_compute; discriminate.
Defined.

(** *** Error detection *)

(** The top bytes of the table are pairwise different. *)
Lemma top8_inj i j : 0 <= i < 256 -> 0 <= j < 256 -> top8 (T64 i) = top8 (T64 j) -> i = j.
Proof.
  intros Hi Hj E.
  assert (H : forall i, 0 <= i < 256 ->
    forallb (fun k => negb (top8 (T64 i) =? top8 (T64 (Z.of_nat k))) || (i =? Z.of_nat k)) (seq 0 256) = true).
  { apply (forall_below _ 256). vm_compute. reflexivity. }
  pose proof (forall_below (fun j => negb (top8 (T64 i) =? top8 (T64 j)) || (i =? j)) 256 (H i Hi) j Hj) as Hb.
  cbv beta in Hb. rewrite E, Z.eqb_refl in Hb. by apply Z.eqb_eq in Hb.
Qed.

(** The table indices a run uses. *)
Fixpoint indices (crc : Z) (w : list Z) : list Z :=
  match w with
  | [] => []
  | b :: w => Z.lxor (u8 crc) b :: indices (next64 crc b) w
  end.

Lemma top8_next crc byte : 0 <= crc < 2 ^ 64 -> top8 (next64 crc byte) = top8 (T64 (Z.lxor (u8 crc) byte)).
Proof.
  intros Hc. unfold top8, next64. rewrite Z.shiftr_lxor, Z.shiftr_shiftr by lia.
  change (8 + 56) with 64. rewrite (Z.shiftr_div_pow2 crc 64), (Z.div_small crc) by lia.
  apply Z.lxor_0_r.
Qed.

(** Up to eight bytes back, the final value determines the indices used. *)
Lemma indices_determined w : forall w' c c', length w = length w' -> (length w <= 8)%nat ->
  0 <= c < 2 ^ 64 -> 0 <= c' < 2 ^ 64 -> bytes_ok w -> bytes_ok w' ->
  foldl next64 c w = foldl next64 c' w' ->
  indices c w = indices c' w' /\ Z.shiftr c (8 * zlen w) = Z.shiftr c' (8 * zlen w).
Proof.
  induction w as [|b w IH]; intros [|b' w'] c c' Hl H8 Hc Hc' Hw Hw' E; try discriminate.
  { simpl in E. by subst. }
  apply Forall_cons in Hw as [Hb Hw]. apply Forall_cons in Hw' as [Hb' Hw']. simpl in Hl, H8, E.
  destruct (crc64_step_spec c b Hc Hb) as [_ Hn]. destruct (crc64_step_spec c' b' Hc' Hb') as [_ Hn'].
  destruct (IH w' _ _ ltac:(lia) ltac:(lia) Hn Hn' Hw Hw' E) as [Hi Hs].
  assert (Hw7 : 8 * zlen w <= 56) by (unfold zlen; lia). pose proof (zlen_nonneg w).
  assert (Hidx : Z.lxor (u8 c) b = Z.lxor (u8 c') b').
  { apply top8_inj; [by apply index_range|by apply index_range|]. rewrite <- !top8_next by done.
    apply (f_equal (fun x => Z.shiftr x (56 - 8 * zlen w))) in Hs.
    rewrite !Z.shiftr_shiftr in Hs by lia. unfold top8.
    by replace (8 * zlen w + (56 - 8 * zlen w)) with 56 in Hs by lia. }
  split; [cbn [indices]; by rewrite Hidx, Hi|].
  unfold next64 in Hs. rewrite !Z.shiftr_lxor, Hidx in Hs.
  apply (f_equal (Z.lxor (Z.shiftr (T64 (Z.lxor (u8 c') b')) (8 * zlen w)))) in Hs.
  rewrite <- !Z.lxor_assoc, Z.lxor_nilpotent, !Z.lxor_0_l, !Z.shiftr_shiftr in Hs by lia.
  rewrite zlen_cons. by replace (8 * (1 + zlen w)) with (8 + 8 * zlen w) by lia.
Qed.

Lemma indices_inj w : forall w' c, indices c w = indices c w' -> w = w'.
Proof.
  induction w as [|b w IH]; intros [|b' w'] c E; try discriminate; [done|].
  cbn [indices] in E. injection E as Eb E.
  assert (b = b').
  { apply (f_equal (Z.lxor (u8 c))) in Eb.
    by rewrite <- !Z.lxor_assoc, Z.lxor_nilpotent, !Z.lxor_0_l in Eb. }
  subst b'. f_equal. by apply (IH w' (next64 c b)).
Qed.

(** The step is injective in the register. *)
Lemma next64_inj b c c' : 0 <= c < 2 ^ 64 -> 0 <= c' < 2 ^ 64 -> is_byte b ->
  next64 c b = next64 c' b -> c = c'.
Proof.
  intros Hc Hc' Hb E.
  assert (Hidx : Z.lxor (u8 c) b = Z.lxor (u8 c') b).
  { apply top8_inj; [by apply index_range|by apply index_range|]. by rewrite <- !top8_next, E by done. }
  unfold next64 in E. rewrite Hidx in E.
  apply (f_equal (Z.lxor (T64 (Z.lxor (u8 c') b)))) in E.
  rewrite <- !Z.lxor_assoc, Z.lxor_nilpotent, !Z.lxor_0_l in E.
  apply (f_equal (fun x => Z.lxor x b)) in Hidx.
  rewrite !Z.lxor_assoc, Z.lxor_nilpotent, !Z.lxor_0_r in Hidx.
  by rewrite (split_low c 8), (split_low c' 8), E, Hidx by lia.
Qed.

Lemma foldl_next64_inj s : forall c c', 0 <= c < 2 ^ 64 -> 0 <= c' < 2 ^ 64 -> bytes_ok s ->
  foldl next64 c s = foldl next64 c' s -> c = c'.
Proof.
  induction s as [|b s IH]; intros c c' Hc Hc' Hs E; [done|]. apply Forall_cons in Hs as [Hb Hs].
  apply (next64_inj b); [done|done|done|]. apply IH; try done; by apply crc64_step_spec.
Qed.

(** [crc64] detects every corruption that is confined to eight consecutive
    bytes: two strings that differ only there have different checksums. *)
Theorem crc64_detects_burst (crc : Z) (pre w w' post : list Z) :
  0 <= crc < 2 ^ 64 -> bytes_ok (pre ++ w ++ post) -> bytes_ok w' ->
  length w = length w' -> (length w <= 8)%nat -> w <> w' ->
  crc64 crc (pre ++ w ++ post) <> crc64 crc (pre ++ w' ++ post).
Proof.
  intros Hc Hall Hw' Hl H8 Hne E.
  apply Forall_app in Hall as [Hpre [Hw Hpost]%Forall_app].
  destruct (crc64_fold pre crc Hc Hpre) as [_ Hp].
  destruct (crc64_fold w _ Hp Hw) as [_ Hr]. destruct (crc64_fold w' _ Hp Hw') as [_ Hr'].
  rewrite (proj1 (crc64_fold _ crc Hc (Forall_app_2 _ _ _ Hpre (Forall_app_2 _ _ _ Hw Hpost)))) in E.
  rewrite (proj1 (crc64_fold _ crc Hc (Forall_app_2 _ _ _ Hpre (Forall_app_2 _ _ _ Hw' Hpost)))) in E.
  injection E as E. rewrite !foldl_app in E. apply foldl_next64_inj in E; [|done..].
  destruct (indices_determined w w' _ _ Hl H8 Hp Hp Hw Hw' E) as [Hi _].
  apply Hne. by apply indices_inj in Hi.
Qed.

Lemma crc64_detects_burst_witness :
  crc64 0 ([1; 2] ++ [3; 4; 5] ++ [6]) <> crc64 0 ([1; 2] ++ [3; 9; 5] ++ [6]).
Proof.
  apply (crc64_detects_burst 0 [1; 2] [3; 4; 5] [3; 9; 5] [6]).
  - lia.
  - repeat constructor; vm_compute; discriminate.
  - repeat constructor; vm_compute; discriminate.
  - reflexivity.
  - simpl. lia.
  - discriminate.
Defined.

(** ** Hash slots *)

(** The part of a key that is hashed: what stands between the first opening
    brace and the first closing brace after it, when there is something. *)
Fixpoint before (c : Z) (l : list Z) : option (list Z * list Z) :=
  match l with
  | [] => None
  | x :: l => if x =? c then Some ([], l) else '(a, b) ← before c l; Some (x :: a, b)
  end.

Definition hash_tag (key : list Z) : list Z :=
  match before c_lbrace key with
  | Some (_, rest) =>
      match before c_rbrace rest with
      | Some ((_ :: _) as tag, _) => tag
      | _ => key
      end
  | None => key
  end.

Lemma before_Some c l a b : before c l = Some (a, b) <-> l = a ++ c :: b /\ c ∉ a.
Proof.
  revert a. induction l as [|x l IH]; intros a; simpl.
  { split; [done|]. intros [E _]. by destruct a. }
  destruct (Z.eqb_spec x c) as [->|Hx].
  - split; [intros [= <- <-]; split; [done|set_solver]|].
    intros [E Ha]. destruct a; simplify_eq/=; [done|set_solver].
  - split.
    + destruct (before c l) as [[a' b']|] eqn:E; mrun; [|done]. intros [= <- <-].
      destruct (proj1 (IH a') eq_refl) as [-> Ha]. split; [done|]. set_solver.
    + intros [E Ha]. destruct a as [|y a]; simplify_eq/=. rewrite (proj2 (IH a)); [done|].
      split; [done|set_solver].
Qed.

Lemma before_None c l : before c l = None <-> c ∉ l.
Proof.
  induction l as [|x l IH]; simpl; [split; [set_solver|done]|].
  destruct (Z.eqb_spec x c) as [->|Hx]; [split; [done|set_solver]|].
  destruct (before c l) as [[a b]|]; mrun.
  - split; [done|]. intros H. exfalso. apply not_elem_of_cons in H as [_ H]. by apply IH in H.
  - split; [|done]. intros _. apply not_elem_of_cons. split; [congruence|by apply IH].
Qed.

Lemma find_char_spec fuel c : forall l pre, (length l < fuel)%nat ->
  find_char fuel (pre ++ l) c (zlen pre)
  = Some (match before c l with Some (a, _) => zlen pre + zlen a | None => zlen pre + zlen l end).
Proof.
  induction fuel as [|fuel IH]; intros l pre Hf; [lia|]. cbn [find_char]. rewrite zlen_app.
  destruct l as [|x l]; [change (zlen []) with 0; zif_false; f_equal; simpl; lia|].
  rewrite zlen_cons. pose proof (zlen_nonneg l). zif_true. rewrite zget_app by done. mrun. simpl before.
  destruct (x =? c); [f_equal; change (zlen []) with 0; lia|].
  replace (pre ++ x :: l) with ((pre ++ [x]) ++ l) by (by rewrite <- app_assoc).
  replace (zlen pre + 1) with (zlen (pre ++ [x])) by (by rewrite zlen_app).
  simpl in Hf. rewrite IH by lia. rewrite zlen_app. change (zlen [x]) with 1.
  destruct (before c l) as [[a b]|]; mrun; f_equal; rewrite ?zlen_cons; lia.
Qed.

Lemma keyHashSlot_tag key :
  keyHashSlot key = (crc ← crc16 (hash_tag key); Some (Z.land crc 0x3FFF)).
Proof.
  unfold keyHashSlot, hash_tag. cbv zeta.
  rewrite (find_char_spec _ c_lbrace key []) by lia. mrun. change (zlen (@nil Z)) with 0. rewrite !Z.add_0_l.
  destruct (before c_lbrace key) as [[a rest]|] eqn:E; [rewrite Z.add_0_l|by rewrite Z.eqb_refl].
  apply before_Some in E as [-> Ha]. rewrite zlen_app, zlen_cons.
  pose proof (zlen_nonneg rest). pose proof (zlen_nonneg a). zif_false.
  replace (a ++ c_lbrace :: rest) with ((a ++ [c_lbrace]) ++ rest) by (by rewrite <- app_assoc).
  replace (zlen a + 1) with (zlen (a ++ [c_lbrace])) by (by rewrite zlen_app).
  rewrite find_char_spec by (rewrite length_app; lia). mrun.
  rewrite (zlen_app a). change (zlen [c_lbrace]) with 1.
  destruct (before c_rbrace rest) as [[tag b]|] eqn:E'.
  - apply before_Some in E' as [-> Ht]. rewrite zlen_app, zlen_cons in *.
    pose proof (zlen_nonneg b). pose proof (zlen_nonneg tag).
    destruct tag as [|x tag]; [change (zlen []) with 0; zif_true; done|].
    rewrite (zlen_cons x tag) in *. pose proof (zlen_nonneg tag). zif_false.
    replace (zlen a + 1 + (1 + zlen tag) - zlen a - 1) with (zlen (x :: tag)) by (rewrite zlen_cons; lia).
    replace (zlen a + 1) with (zlen (a ++ [c_lbrace])) by (by rewrite zlen_app).
    rewrite mem_read_app. done.
  - zif_true. done.
Qed.

(** C32: a key whose first brace pair encloses something is hashed by what it
    encloses and every other key as a whole, the slot is one of the 16384, and
    so two keys with the same hash tag are in the same slot. *)
Theorem keyHashSlot_correct (key : list Z) : bytes_ok key ->
  (exists slot, keyHashSlot key = Some slot /\ 0 <= slot < 16384) /\
  (forall a tag b, key = a ++ c_lbrace :: tag ++ c_rbrace :: b -> c_lbrace ∉ a -> c_rbrace ∉ tag ->
     tag <> [] -> keyHashSlot key = keyHashSlot (c_lbrace :: tag ++ [c_rbrace]) /\
       keyHashSlot key = (crc ← crc16 tag; Some (Z.land crc 0x3FFF))) /\
  ((forall a tag b, key = a ++ c_lbrace :: tag ++ c_rbrace :: b -> c_lbrace ∉ a -> c_rbrace ∉ tag ->
     tag = []) -> keyHashSlot key = (crc ← crc16 key; Some (Z.land crc 0x3FFF))).
Proof.
  intros Hk.
  assert (Htag : forall a tag b, c_lbrace ∉ a -> c_rbrace ∉ tag -> tag <> [] ->
    hash_tag (a ++ c_lbrace :: tag ++ c_rbrace :: b) = tag).
  { intros a tag b Ha Ht Hne. unfold hash_tag.
    rewrite (proj2 (before_Some c_lbrace _ a (tag ++ c_rbrace :: b))) by done.
    rewrite (proj2 (before_Some c_rbrace _ tag b)) by done. by destruct tag. }
  rewrite !keyHashSlot_tag. split; [|split].
  - assert (Hb : bytes_ok (hash_tag key)).
    { unfold hash_tag. destruct (before c_lbrace key) as [[a r]|] eqn:E; [|done].
      apply before_Some in E as [-> _]. destruct (before c_rbrace r) as [[[|x tag] b]|] eqn:E'; [done| |done].
      apply before_Some in E' as [-> _].
      apply Forall_app in Hk as [_ [_ [Ht _]%Forall_app]%Forall_cons]. done. }
    destruct (crc16_loop_spec (hash_tag key) 0 ltac:(lia) Hb) as (r & E & Hr & _).
    unfold crc16. rewrite E. mrun. eexists. split; [reflexivity|].
    change 0x3FFF with (Z.ones 14). rewrite Z.land_ones by lia. by apply Z.mod_pos_bound.
  - intros a tag b -> Ha Ht Hne. rewrite Htag by done. rewrite keyHashSlot_tag.
    pose proof (Htag [] tag []) as E. rewrite app_nil_l in E. rewrite E by (done || set_solver). done.
  - intros Hno. unfold hash_tag.
    destruct (before c_lbrace key) as [[a r]|] eqn:E; [|done]. apply before_Some in E as [-> Ha].
    destruct (before c_rbrace r) as [[[|x tag] b]|] eqn:E'; [done| |done].
    apply before_Some in E' as [-> Ht]. by specialize (Hno a (x :: tag) b eq_refl Ha Ht).
Qed.

Lemma keyHashSlot_correct_witness :
  keyHashSlot [107; c_lbrace; 117; 49; c_rbrace; 120] = keyHashSlot [c_lbrace; 117; 49; c_rbrace].
Proof.
  refine (proj1 (proj1 (proj2 (keyHashSlot_correct [107; c_lbrace; 117; 49; c_rbrace; 120] _))
    [107] [117; 49] [120] _ _ _ _)).
  - repeat constructor; vm_compute; discriminate.
  - reflexivity.
  - apply (bool_decide_unpack _). vm_compute. exact I.
  - apply (bool_decide_unpack _). vm_compute. exact I.
  - discriminate.
Defined.

End Crc.
