(* ===== verification/Lzf.v ===== *)
(** * LZF compression: src/redis5/src/lzf_c.c and lzf_d.c

    Pointers into the input and output blocks are indices; every access is
    checked, so [None] is an access outside a block (or a loop out of fuel).
    The hash table of the compressor is on the stack and never initialised
    (INIT_HTAB is 0): it is an arbitrary function the theorems quantify over.
    The compile-time choices are those of lzfP.h: HLOG 16, VERY_FAST, offsets in
    the table, CHECK_INPUT. *)

From S2P Require Import Prelude.

Module Lzf.

(** ** The compressor *)

Definition HLOG := 16.
Definition HSIZE := 65536.
Definition MAX_LIT := 32.
Definition MAX_OFF := 8192.
Definition MAX_REF := 264.

Definition FRST (inp : list Z) (p : Z) : option Z :=
  a ← zget inp p; b ← zget inp (p + 1); Some (Z.lor (Z.shiftl a 8) b).
Definition NEXT (v : Z) (inp : list Z) (p : Z) : option Z :=
  c ← zget inp (p + 2); Some (Z.lor (u32 (Z.shiftl v 8)) c).
Definition IDX (h : Z) : Z := Z.land (u32 (Z.shiftr h (3 * 8 - HLOG) - u32 (h * 5))) (HSIZE - 1).

(** [LZF_HSLOT] is an [unsigned int] offset. *)
Definition store (htab : Z -> Z) (i ip : Z) : Z -> Z := fun j => if j =? i then u32 ip else htab j.

(** Sixteen times [len++; if (ref[len] != ip[len]) break;] *)
Fixpoint unrolled (n : nat) (inp : list Z) (ref ip len : Z) : option (bool * Z) :=
  match n with
  | O => Some (false, len)
  | S n =>
      let len := len + 1 in
      a ← zget inp (ref + len); b ← zget inp (ip + len);
      if negb (a =? b) then Some (true, len) else unrolled n inp ref ip len
  end.

(** [do len++; while (len < maxlen && ref[len] == ip[len]);] *)
Fixpoint extend (fuel : nat) (inp : list Z) (ref ip maxlen len : Z) : option Z :=
  match fuel with
  | O => None
  | S fuel =>
      let len := len + 1 in
      if len <? maxlen then
        a ← zget inp (ref + len); b ← zget inp (ip + len);
        if a =? b then extend fuel inp ref ip maxlen len else Some len
      else Some len
  end.

Definition match_length (inp : list Z) (ref ip maxlen : Z) : option Z :=
  '(stop, len) ← (if maxlen >? 16 then unrolled 16 inp ref ip 2 else Some (false, 2));
  if (stop : bool) then Some len else extend 300 inp ref ip maxlen len.

Record cstate := mkC { ip : Z; op : Z; lit : Z; hval : Z; htab : Z -> Z; out : list Z }.

(** What one round of the main loop does: [return 0], [break], or go on. *)
Inductive round := Return0 (o : list Z) | Break (st : cstate) | Continue (st : cstate).

Definition not_ (x : Z) : Z := if x =? 0 then 1 else 0.

(** The branch that found a match at [ref]. *)
Definition compress_match (inp : list Z) (st : cstate) (ref off : Z) : option round :=
  let in_end := zlen inp in let out_end := zlen (out st) in
  let maxlen := u32 (in_end - ip st - 2) in
  let maxlen := if maxlen >? MAX_REF then MAX_REF else maxlen in
  if (op st + 3 + 1 >=? out_end) && (op st - not_ (lit st) + 3 + 1 >=? out_end) then Some (Return0 (out st))
  else
    o ← put (out st) (op st - lit st - 1) (u8 (lit st - 1));
    let p := op st - not_ (lit st) in
    len ← match_length inp ref (ip st) maxlen;
    let len := len - 2 in
    let i := ip st + 1 in
    '(o, p) ←
      (if len <? 7 then
         o ← put o p (u8 (Z.shiftr off 8 + Z.shiftl len 5)); Some (o, p + 1)
       else
         o ← put o p (u8 (Z.shiftr off 8 + Z.shiftl 7 5));
         o ← put o (p + 1) (u8 (len - 7)); Some (o, p + 2));
    o ← put o p (u8 off);
    let p := p + 1 in
    let p := p + 1 in
    let i := i + (len + 1) in
    if i >=? in_end - 2 then Some (Break (mkC i p 0 (hval st) (htab st) o))
    else
      let i := i - 2 in
      hv ← FRST inp i;
      hv ← NEXT hv inp i;
      let ht := store (htab st) (IDX hv) i in
      let i := i + 1 in
      hv ← NEXT hv inp i;
      let ht := store ht (IDX hv) i in
      let i := i + 1 in
      Some (Continue (mkC i p 0 hv ht o)).

(** [lit++; *op++ = *ip++;] and the end of a full run. *)
Definition copy_literal (inp : list Z) (st : cstate) : option cstate :=
  b ← zget inp (ip st);
  o ← put (out st) (op st) b;
  let l := lit st + 1 in let p := op st + 1 in let i := ip st + 1 in
  if l =? MAX_LIT then
    o ← put o (p - l - 1) (u8 (l - 1));
    Some (mkC i (p + 1) 0 (hval st) (htab st) o)
  else Some (mkC i p l (hval st) (htab st) o).

Definition compress_round (inp : list Z) (st : cstate) : option round :=
  hv ← NEXT (hval st) inp (ip st);
  let hslot := IDX hv in
  let ref := u32 (htab st hslot) in
  let st := mkC (ip st) (op st) (lit st) hv (store (htab st) hslot (ip st)) (out st) in
  let off := u64 (ip st - ref - 1) in
  found ←
    (if (off <? MAX_OFF) && (ref >? 0) then
       r2 ← zget inp (ref + 2); i2 ← zget inp (ip st + 2);
       if r2 =? i2 then
         r0 ← zget inp ref; r1 ← zget inp (ref + 1);
         i0 ← zget inp (ip st); i1 ← zget inp (ip st + 1);
         Some ((r0 =? i0) && (r1 =? i1))
       else Some false
     else Some false);
  if (found : bool) then compress_match inp st ref off
  else if op st >=? zlen (out st) then Some (Return0 (out st))
  else st ← copy_literal inp st; Some (Continue st).

(** The main loop; [inl] is [return 0], with the block as it is then. *)
Fixpoint compress_loop (fuel : nat) (inp : list Z) (st : cstate) : option (list Z + cstate) :=
  match fuel with
  | O => None
  | S fuel =>
      if ip st <? zlen inp - 2 then
        r ← compress_round inp st;
        match r with
        | Return0 o => Some (inl o)
        | Break st => Some (inr st)
        | Continue st => compress_loop fuel inp st
        end
      else Some (inr st)
  end.

(** [while (ip < in_end)] *)
Fixpoint flush_loop (fuel : nat) (inp : list Z) (st : cstate) : option cstate :=
  match fuel with
  | O => None
  | S fuel => if ip st <? zlen inp then st ← copy_literal inp st; flush_loop fuel inp st else Some st
  end.

(** The number of bytes written (0 when the output would not fit) and the block. *)
Definition lzf_compress (htab0 : Z -> Z) (inp out0 : list Z) : option (Z * list Z) :=
  if (zlen inp =? 0) || (zlen out0 =? 0) then Some (0, out0)
  else
    hv ← FRST inp 0;
    r ← compress_loop (S (length inp)) inp (mkC 0 1 0 hv htab0 out0);
    match r with
    | inl o => Some (0, o)
    | inr st =>
        if op st + 3 >? zlen (out st) then Some (0, out st)
        else
          st ← flush_loop 4 inp st;
          o ← put (out st) (op st - lit st - 1) (u8 (lit st - 1));
          Some (op st - not_ (lit st), o)
    end.

(** ** The decompressor *)

Inductive result := E2BIG | EINVAL | Done (n : Z) (out : list Z).

Fixpoint copy_in (n : nat) (inp out : list Z) (ip op : Z) : option (list Z) :=
  match n with
  | O => Some out
  | S n => b ← zget inp ip; out ← put out op b; copy_in n inp out (ip + 1) (op + 1)
  end.

Fixpoint copy_ref (n : nat) (out : list Z) (ref op : Z) : option (list Z) :=
  match n with
  | O => Some out
  | S n => b ← zget out ref; out ← put out op b; copy_ref n out (ref + 1) (op + 1)
  end.

(** The [switch (len)]: lengths up to 9 are copied octet by octet, longer ones
    with memcpy when the areas are disjoint. *)
Definition copy_back (out : list Z) (ref op len : Z) : option (list Z) :=
  if (0 <=? len) && (len <=? 9) then copy_ref (Z.to_nat (len + 2)) out ref op
  else
    let len := len + 2 in
    if op >=? ref + len then bs ← mem_read out ref len; mem_write out op bs
    else copy_ref (Z.to_nat len) out ref op.

(** One round of the do-while: an error, or the output block and the two
    pointers after one literal run or one back reference. *)
Definition decompress_literal (inp out : list Z) (ip op ctrl : Z)
  : option (result + list Z * Z * Z) :=
  let ctrl := ctrl + 1 in
  if op + ctrl >? zlen out then Some (inl E2BIG)
  else if ip + ctrl >? zlen inp then Some (inl EINVAL)
  else
    out ← copy_in (Z.to_nat ctrl) inp out ip op;
    Some (inr (out, ip + ctrl, op + ctrl)).

Definition decompress_ref (inp out : list Z) (ip op ctrl : Z)
  : option (result + list Z * Z * Z) :=
  let len := Z.shiftr ctrl 5 in
  let ref := op - Z.shiftl (Z.land ctrl 0x1f) 8 - 1 in
  if ip >=? zlen inp then Some (inl EINVAL)
  else
    '(len, ip, bad) ←
      (if len =? 7 then b ← zget inp ip; Some (len + b, ip + 1, ip + 1 >=? zlen inp)
       else Some (len, ip, false));
    if (bad : bool) then Some (inl EINVAL)
    else
      b ← zget inp ip;
      let ref := ref - b in
      let ip := ip + 1 in
      if op + len + 2 >? zlen out then Some (inl E2BIG)
      else if ref <? 0 then Some (inl EINVAL)
      else
        out ← copy_back out ref op len;
        Some (inr (out, ip, op + (len + 2))).

Definition decompress_round (inp out : list Z) (ip op : Z) : option (result + list Z * Z * Z) :=
  ctrl ← zget inp ip;
  if ctrl <? 32 then decompress_literal inp out (ip + 1) op ctrl
  else decompress_ref inp out (ip + 1) op ctrl.

Fixpoint decompress_loop (fuel : nat) (inp out : list Z) (ip op : Z) : option result :=
  match fuel with
  | O => None
  | S fuel =>
      r ← decompress_round inp out ip op;
      match r with
      | inl e => Some e
      | inr (out, ip, op) =>
          if ip <? zlen inp then decompress_loop fuel inp out ip op else Some (Done op out)
      end
  end.

Definition lzf_decompress (inp out : list Z) : option result :=
  decompress_loop (S (length inp)) inp out 0 0.

Example lzf_example :
  let inp := concat (replicate 12 [97; 98; 99]) in
  match lzf_compress (fun _ => 0) inp (replicate 40 0) with
  | Some (n, o) => n = 11 /\ lzf_decompress (take 11 o) (replicate 36 0) = Some (Done 36 inp)
  | None => False
  end.
Proof. vm_compute. split; reflexivity. Qed.

(** ** The compressed format *)

(** A run of literals, or a back reference of [len + 2] octets at distance
    [off + 1]. *)
Inductive tok := TLit (bs : list Z) | TRef (off len : Z).

Definition enc (t : tok) : list Z :=
  match t with
  | TLit bs => (zlen bs - 1) :: bs
  | TRef off len =>
      if len <? 7 then [off / 256 + len * 32; off mod 256]
      else [off / 256 + 224; len - 7; off mod 256]
  end.

Fixpoint back (n : nat) (o : list Z) (off : Z) : list Z :=
  match n with
  | O => o
  | S n => back n (o ++ [default 0 (zget o (zlen o - off - 1))]) off
  end.

Definition expand1 (o : list Z) (t : tok) : list Z :=
  match t with
  | TLit bs => o ++ bs
  | TRef off len => back (Z.to_nat (len + 2)) o off
  end.

Definition tok_ok (o : list Z) (t : tok) : Prop :=
  match t with
  | TLit bs => 1 <= zlen bs <= 32
  | TRef off len => 1 <= len <= 262 /\ 0 <= off < 8192 /\ off < zlen o
  end.

Definition encode (ts : list tok) : list Z := ts ≫= enc.
Definition expand (o : list Z) (ts : list tok) : list Z := foldl expand1 o ts.

Fixpoint toks_ok (o : list Z) (ts : list tok) : Prop :=
  match ts with
  | [] => True
  | t :: ts => tok_ok o t /\ toks_ok (expand1 o t) ts
  end.

Lemma toks_ok_app o ts us : toks_ok o (ts ++ us) <-> toks_ok o ts /\ toks_ok (expand o ts) us.
Proof.
  revert o. induction ts as [|t ts IH]; intros o; [simpl; tauto|].
  simpl. rewrite IH. unfold expand. simpl. tauto.
Qed.

Lemma expand_app o ts us : expand o (ts ++ us) = expand (expand o ts) us.
Proof. apply foldl_app. Qed.

Lemma encode_app ts us : encode (ts ++ us) = encode ts ++ encode us.
Proof. apply bind_app. Qed.

Lemma encode_one t : encode [t] = enc t.
Proof. apply app_nil_r. Qed.

(** ** Copies *)

Lemma put_safe l i b : 0 <= i < zlen l -> exists l', put l i b = Some l' /\ zlen l' = zlen l.
Proof.
  intros Hi. assert (E := mem_write_safe l i [b]). rewrite zlen_cons, (@zlen_nil Z) in E.
  eexists. split; [apply E; lia|]. eapply mem_write_zlen, E; lia.
Qed.

Lemma copy_in_safe n : forall inp o i p, 0 <= i -> i + Z.of_nat n <= zlen inp ->
  0 <= p -> p + Z.of_nat n <= zlen o -> exists o', copy_in n inp o i p = Some o' /\ zlen o' = zlen o.
Proof.
  induction n as [|n IH]; intros inp o i p Hi Hin Hp Hout; [by exists o|]. cbn [copy_in].
  destruct (zget_Some inp i) as [b ->]; [lia|]. mrun.
  destruct (put_safe o p b) as (o1 & -> & E); [lia|]. mrun.
  destruct (IH inp o1 (i + 1) (p + 1)) as (o2 & -> & E2); [lia..|]. exists o2. split; [done|lia].
Qed.

Lemma copy_ref_safe n : forall o r p, 0 <= r -> r + Z.of_nat n <= zlen o ->
  0 <= p -> p + Z.of_nat n <= zlen o -> exists o', copy_ref n o r p = Some o' /\ zlen o' = zlen o.
Proof.
  induction n as [|n IH]; intros o r p Hr Hin Hp Hout; [by exists o|]. cbn [copy_ref].
  destruct (zget_Some o r) as [b ->]; [lia|]. mrun.
  destruct (put_safe o p b) as (o1 & -> & E); [lia|]. mrun.
  destruct (IH o1 (r + 1) (p + 1)) as (o2 & -> & E2); [lia..|]. exists o2. split; [done|lia].
Qed.

Lemma copy_back_safe o r p len : 0 <= r < p -> 0 <= len -> p + len + 2 <= zlen o ->
  exists o', copy_back o r p len = Some o' /\ zlen o' = zlen o.
Proof.
  intros Hr Hl Hp. unfold copy_back. zcase; [apply copy_ref_safe; lia|]. cbv zeta.
  zcase; [|apply copy_ref_safe; lia].
  rewrite mem_read_safe by lia. mrun. set (bs := take _ _).
  assert (Hz : zlen bs = len + 2).
  { unfold bs, zlen in *. rewrite length_take, length_drop. lia. }
  assert (E := mem_write_safe o p bs). eexists. split; [apply E; lia|]. eapply mem_write_zlen, E; lia.
Qed.

(** ** The decompressor on arbitrary input *)

Lemma land_1f c : 0 <= c -> 0 <= Z.land c 0x1f < 32.
Proof. intros. change 0x1f with (Z.ones 5). rewrite Z.land_ones by lia. by apply Z.mod_pos_bound. Qed.

(** The length byte of a long back reference. *)
Lemma long_length inp (len i : Z) : bytes_ok inp -> 0 <= i < zlen inp -> 0 <= len ->
  exists len' i' bad,
    (if len =? 7 then b ← zget inp i; Some (len + b, i + 1, i + 1 >=? zlen inp) else Some (len, i, false))
    = Some (len', i', bad) /\ 0 <= len' /\ i <= i' /\ (bad = false -> i' < zlen inp).
Proof.
  intros Hb Hi Hl. destruct (len =? 7).
  - destruct (zget_Some inp i) as [b E]; [lia|]. rewrite E. mrun.
    apply (zget_bytes _ _ _ Hb) in E. unfold is_byte in E.
    eexists _, _, _. split; [reflexivity|]. split; [lia|]. split; [lia|]. intros. zbool. lia.
  - eexists _, _, _. split; [reflexivity|]. split; [lia|]. split; lia.
Qed.

Definition result_ok (o : list Z) (r : result) : Prop :=
  match r with Done n o' => 0 <= n <= zlen o /\ zlen o' = zlen o | _ => True end.

Lemma decompress_round_safe inp o i p : bytes_ok inp -> 0 <= i < zlen inp -> 0 <= p <= zlen o ->
  exists r, decompress_round inp o i p = Some r /\
    match r with
    | inl e => result_ok o e
    | inr (o', i', p') => zlen o' = zlen o /\ i < i' /\ 0 <= p' <= zlen o
    end.
Proof.
  intros Hb Hi Hp. unfold decompress_round.
  destruct (zget_Some inp i) as [c Ec]; [lia|]. rewrite Ec. mrun.
  apply (zget_bytes _ _ _ Hb) in Ec. unfold is_byte in Ec. destruct (Z.ltb_spec c 32).
  - unfold decompress_literal. cbv zeta.
    zcase; [by exists (inl E2BIG)|]. zcase; [by exists (inl EINVAL)|].
    destruct (copy_in_safe (Z.to_nat (c + 1)) inp o (i + 1) p) as (o' & -> & Ho); [lia..|]. mrun.
    eexists. split; [reflexivity|]. simpl. lia.
  - unfold decompress_ref. cbv zeta. zcase; [by exists (inl EINVAL)|].
    pose proof (land_1f c ltac:(lia)). assert (0 <= Z.shiftr c 5) by (apply Z.shiftr_nonneg; lia).
    destruct (long_length inp (Z.shiftr c 5) (i + 1) Hb ltac:(lia) ltac:(done))
      as (len & i' & bad & -> & Hlen & Hi' & Hbad). mrun.
    destruct bad; [by exists (inl EINVAL)|]. specialize (Hbad eq_refl).
    destruct (zget_Some inp i') as [d Ed]; [lia|]. rewrite Ed. mrun.
    apply (zget_bytes _ _ _ Hb) in Ed. unfold is_byte in Ed.
    zcase; [by exists (inl E2BIG)|]. zcase; [by exists (inl EINVAL)|].
    rewrite Z.shiftl_mul_pow2 in * by lia.
    destruct (copy_back_safe o (p - Z.land c 31 * 2 ^ 8 - 1 - d) p len) as (o' & -> & Ho); [lia..|]. mrun.
    eexists. split; [reflexivity|]. simpl. lia.
Qed.

Lemma decompress_loop_safe fuel : forall inp o i p, bytes_ok inp ->
  0 <= i < zlen inp -> zlen inp - i < Z.of_nat fuel -> 0 <= p <= zlen o ->
  exists r, decompress_loop fuel inp o i p = Some r /\ result_ok o r.
Proof.
  induction fuel as [|fuel IH]; intros inp o i p Hb Hi Hf Hp; [lia|]. cbn [decompress_loop].
  destruct (decompress_round_safe inp o i p Hb Hi Hp) as ([e|[[o' i'] p']] & -> & Hr); mrun; [by exists e|].
  destruct Hr as (Ho & Hi' & Hp'). destruct (Z.ltb_spec i' (zlen inp)).
  - destruct (IH inp o' i' p') as (r & E & Hr); [done|lia..|]. exists r. split; [done|].
    destruct r; [done|done|]. unfold result_ok in *. lia.
  - exists (Done p' o'). split; [done|]. unfold result_ok. lia.
Qed.

(** C30: [lzf_decompress] is memory safe and terminates on every non-empty input,
    valid or corrupted: it reads only inside the input, reads and writes only
    inside the output block, and returns an error or a length that fits. *)
Theorem lzf_decompress_safe (inp o : list Z) : bytes_ok inp -> inp <> [] ->
  exists r, lzf_decompress inp o = Some r /\
    match r with Done n o' => 0 <= n <= zlen o /\ zlen o' = zlen o | _ => True end.
Proof.
  intros Hb Hne. unfold lzf_decompress.
  assert (0 < zlen inp) by (destruct inp; [done|]; unfold zlen; simpl; lia).
  pose proof (zlen_nonneg o). apply decompress_loop_safe; [done|lia|unfold zlen; lia|lia].
Qed.

Lemma lzf_decompress_safe_witness :
  exists r, lzf_decompress [255; 0; 7] [0; 0] = Some r /\
    match r with Done n o' => 0 <= n <= zlen [0; 0] /\ zlen o' = zlen [0; 0] | _ => True end.
Proof.
  apply (lzf_decompress_safe [255; 0; 7] [0; 0]).
  - repeat constructor; vm_compute; discriminate.
  - discriminate.
Defined.

(** ** The decompressor on encoded tokens *)

Lemma copy_in_app n : forall pre bs more o rest, length bs = n -> (n <= length rest)%nat ->
  copy_in n (pre ++ bs ++ more) (o ++ rest) (zlen pre) (zlen o) = Some (o ++ bs ++ drop n rest).
Proof.
  induction n as [|n IH]; intros pre bs more o rest Hn Hr.
  { apply nil_length_inv in Hn as ->. by rewrite drop_0. }
  destruct bs as [|b bs]; [done|]. destruct rest as [|x rest]; [simpl in Hr; lia|].
  simpl in Hn, Hr. cbn [copy_in]. rewrite <- app_comm_cons, zget_app by done. mrun.
  rewrite put_app by done. mrun.
  replace (pre ++ b :: bs ++ more) with ((pre ++ [b]) ++ bs ++ more) by (by rewrite <- app_assoc).
  replace (o ++ b :: rest) with ((o ++ [b]) ++ rest) by (by rewrite <- app_assoc).
  replace (zlen pre + 1) with (zlen (pre ++ [b])) by (by rewrite zlen_app).
  replace (zlen o + 1) with (zlen (o ++ [b])) by (by rewrite zlen_app).
  rewrite IH by lia. by rewrite <- app_assoc.
Qed.

Lemma zget_app_l {A} (l k : list A) i : i < zlen l -> zget (l ++ k) i = zget l i.
Proof.
  intros Hi. unfold zget, zlen in *. destruct (Z.leb_spec 0 i); [|done]. apply lookup_app_l. lia.
Qed.

Lemma copy_ref_back n : forall o rest off, (n <= length rest)%nat -> 0 <= off < zlen o ->
  copy_ref n (o ++ rest) (zlen o - off - 1) (zlen o) = Some (back n o off ++ drop n rest).
Proof.
  induction n as [|n IH]; intros o rest off Hn Hoff; [by rewrite drop_0|].
  destruct rest as [|x rest]; [simpl in Hn; lia|]. simpl in Hn. cbn [copy_ref back].
  rewrite zget_app_l by lia. destruct (zget_Some o (zlen o - off - 1)) as [b E]; [lia|].
  rewrite E. mrun. rewrite put_app by done. mrun. cbn [default id].
  replace (o ++ b :: rest) with ((o ++ [b]) ++ rest) by (by rewrite <- app_assoc).
  assert (Hz : zlen (o ++ [b]) = zlen o + 1) by (by rewrite zlen_app).
  replace (zlen o - off - 1 + 1) with (zlen (o ++ [b]) - off - 1) by lia.
  rewrite <- Hz. rewrite IH by lia. done.
Qed.

Lemma zget_drop (o : list Z) i x : zget o i = Some x -> drop (Z.to_nat i) o = x :: drop (S (Z.to_nat i)) o.
Proof. unfold zget. destruct (0 <=? i); [|done]. apply drop_S. Qed.

Lemma back_disjoint n : forall o off, Z.of_nat n <= off + 1 -> 0 <= off < zlen o ->
  back n o off = o ++ take n (drop (Z.to_nat (zlen o - off - 1)) o).
Proof.
  induction n as [|n IH]; intros o off Hn Hoff; [by rewrite app_nil_r|]. cbn [back].
  destruct (zget_Some o (zlen o - off - 1)) as [b E]; [lia|]. rewrite E. cbn [default id].
  assert (Hz : zlen (o ++ [b]) = zlen o + 1) by (by rewrite zlen_app).
  rewrite IH by lia. rewrite <- app_assoc. f_equal. rewrite (zget_drop _ _ _ E). simpl. f_equal.
  replace (Z.to_nat (zlen (o ++ [b]) - off - 1)) with (S (Z.to_nat (zlen o - off - 1))) by lia.
  unfold zlen in *. rewrite drop_app_le by lia. rewrite take_app_le; [done|].
  rewrite length_drop. lia.
Qed.

Lemma back_length n : forall o off, zlen (back n o off) = zlen o + Z.of_nat n.
Proof.
  induction n as [|n IH]; intros o off; [simpl; lia|]. cbn [back]. rewrite IH, zlen_app.
  unfold zlen at 2. simpl. lia.
Qed.

Lemma copy_back_spec o rest off len : 0 <= len -> 0 <= off < zlen o -> len + 2 <= zlen rest ->
  copy_back (o ++ rest) (zlen o - off - 1) (zlen o) len
  = Some (back (Z.to_nat (len + 2)) o off ++ drop (Z.to_nat (len + 2)) rest).
Proof.
  intros Hl Hoff Hr. unfold copy_back. unfold zlen in Hr.
  zcase; [apply copy_ref_back; lia|]. cbv zeta. zcase; [|apply copy_ref_back; lia].
  rewrite back_disjoint by lia.
  destruct (split_at rest (Z.to_nat (len + 2))) as (r1 & r2 & -> & Hr1); [lia|].
  rewrite mem_read_safe; [|lia..|rewrite !zlen_app; unfold zlen in *; lia]. mrun.
  rewrite drop_app_le, take_app_le by (rewrite ?length_drop; unfold zlen in *; lia).
  rewrite mem_write_app by (unfold zlen in *; rewrite length_take, length_drop; lia).
  f_equal. rewrite <- app_assoc. do 2 f_equal. rewrite drop_app_ge by lia.
  by replace (Z.to_nat (len + 2) - length r1)%nat with 0%nat by lia.
Qed.

Lemma expand1_zlen o t : tok_ok o t -> zlen o < zlen (expand1 o t).
Proof.
  destruct t; simpl; intros Ht; [rewrite zlen_app; lia|]. rewrite back_length. lia.
Qed.

(** One token moves the decompressor over its encoding. *)
Lemma decompress_literal_spec pre bs more o rest : 1 <= zlen bs -> zlen bs <= zlen rest ->
  decompress_literal (pre ++ bs ++ more) (o ++ rest) (zlen pre) (zlen o) (zlen bs - 1)
  = Some (inr (o ++ bs ++ drop (length bs) rest, zlen pre + zlen bs, zlen o + zlen bs)).
Proof.
  intros Hb Hr. pose proof (zlen_nonneg more). unfold decompress_literal. cbv zeta.
  replace (zlen bs - 1 + 1) with (zlen bs) by lia. rewrite !zlen_app. zif_false. zif_false.
  rewrite copy_in_app by (unfold zlen in *; lia). mrun.
  by replace (Z.to_nat (zlen bs)) with (length bs) by (unfold zlen; lia).
Qed.

(** The control byte of a back reference. *)
Lemma ctrl_bits q l : 0 <= q < 32 -> 0 <= l ->
  Z.shiftr (q + l * 32) 5 = l /\ Z.land (q + l * 32) 0x1f = q.
Proof.
  intros Hq Hl. rewrite Z.shiftr_div_pow2 by lia. change (2 ^ 5) with 32.
  rewrite Z.div_add, Z.div_small by lia. split; [lia|].
  change 0x1f with (Z.ones 5). rewrite Z.land_ones by lia. change (2 ^ 5) with 32.
  rewrite Z.mod_add, Z.mod_small by lia. done.
Qed.

Lemma decompress_ref_tail o rest off len ip1 : 0 <= len -> 0 <= off < zlen o ->
  len + 2 <= zlen rest ->
  (if zlen o + len + 2 >? zlen (o ++ rest) then Some (inl E2BIG)
   else if zlen o - Z.shiftl (off / 256) 8 - 1 - off mod 256 <? 0 then Some (inl EINVAL)
   else out ← copy_back (o ++ rest) (zlen o - Z.shiftl (off / 256) 8 - 1 - off mod 256) (zlen o) len;
        Some (inr (out, ip1, zlen o + (len + 2))))
  = Some (inr (back (Z.to_nat (len + 2)) o off ++ drop (Z.to_nat (len + 2)) rest, ip1, zlen o + (len + 2)))
  :> option (result + list Z * Z * Z).
Proof.
  intros Hl Hoff Hr. rewrite zlen_app. zif_false. pose proof (Z.div_mod off 256 ltac:(lia)).
  rewrite Z.shiftl_mul_pow2 by lia. change (2 ^ 8) with 256.
  replace (zlen o - off / 256 * 256 - 1 - off mod 256) with (zlen o - off - 1) by lia. zif_false.
  by rewrite copy_back_spec by lia.
Qed.

Lemma decompress_token pre t more o rest : tok_ok o t ->
  zlen (expand1 o t) <= zlen o + zlen rest ->
  exists rest', zlen (expand1 o t) + zlen rest' = zlen o + zlen rest /\
  decompress_round (pre ++ enc t ++ more) (o ++ rest) (zlen pre) (zlen o)
  = Some (inr (expand1 o t ++ rest', zlen (pre ++ enc t), zlen (expand1 o t))) /\
  rest' = drop (Z.to_nat (zlen (expand1 o t) - zlen o)) rest.
Proof.
  intros Ht Hfit. pose proof (zlen_nonneg more). pose proof (zlen_nonneg pre).
  pose proof (expand1_zlen o t Ht) as Hgrow.
  eexists. split; [|split; [|reflexivity]].
  { unfold zlen in *. rewrite length_drop. lia. }
  unfold decompress_round. destruct t as [bs|off len]; cbn [enc expand1 tok_ok] in *.
  - rewrite zlen_app in *. rewrite <- (app_comm_cons bs), zget_app by done. mrun. zif_true.
    replace (pre ++ (zlen bs - 1) :: bs ++ more) with ((pre ++ [zlen bs - 1]) ++ bs ++ more)
      by (by rewrite <- app_assoc).
    replace (zlen pre + 1) with (zlen (pre ++ [zlen bs - 1])) by (by rewrite zlen_app).
    rewrite decompress_literal_spec by lia. rewrite !zlen_app, !zlen_cons. change (zlen (@nil Z)) with 0.
    replace (Z.to_nat (zlen o + zlen bs - zlen o)) with (length bs) by (unfold zlen; lia).
    rewrite <- app_assoc. do 4 f_equal. lia.
  - destruct Ht as (Hlen & Hoff & Hin). rewrite back_length in *.
    assert (Hq : 0 <= off / 256 < 32) by (split; [apply Z.div_pos; lia|apply Z.div_lt_upper_bound; lia]).
    replace (Z.to_nat (zlen o + Z.of_nat (Z.to_nat (len + 2)) - zlen o)) with (Z.to_nat (len + 2)) by lia.
    replace (zlen o + Z.of_nat (Z.to_nat (len + 2))) with (zlen o + (len + 2)) by lia.
    destruct (Z.ltb_spec len 7).
    + destruct (ctrl_bits (off / 256) len Hq ltac:(lia)) as [E1 E2].
      cbn [app]. rewrite zget_app by done. mrun. zif_false. unfold decompress_ref. cbv zeta.
      rewrite E1, E2. rewrite !zlen_app, !zlen_cons. change (zlen (@nil Z)) with 0. zif_false.
      rewrite (proj2 (Z.eqb_neq len 7)) by lia. mrun.
      replace (pre ++ (off / 256 + len * 32) :: off mod 256 :: more)
        with ((pre ++ [off / 256 + len * 32]) ++ off mod 256 :: more) by (by rewrite <- app_assoc).
      rewrite zget_app by (by rewrite zlen_app). mrun. rewrite <- (zlen_app o rest).
      rewrite decompress_ref_tail by lia. do 4 f_equal. lia.
    + destruct (ctrl_bits (off / 256) 7 Hq ltac:(lia)) as [E1 E2]. change (7 * 32) with 224 in *.
      cbn [app]. rewrite zget_app by done. mrun. zif_false. unfold decompress_ref. cbv zeta.
      rewrite E1, E2. rewrite !zlen_app, !zlen_cons. change (zlen (@nil Z)) with 0. zif_false.
      rewrite (Z.eqb_refl 7).
      replace (pre ++ (off / 256 + 224) :: len - 7 :: off mod 256 :: more)
        with ((pre ++ [off / 256 + 224]) ++ len - 7 :: off mod 256 :: more) by (by rewrite <- app_assoc).
      rewrite zget_app by (by rewrite zlen_app). mrun. zif_false.
      replace ((pre ++ [off / 256 + 224]) ++ len - 7 :: off mod 256 :: more)
        with ((pre ++ [off / 256 + 224; len - 7]) ++ off mod 256 :: more) by (by rewrite <- !app_assoc).
      rewrite zget_app by (rewrite zlen_app, !zlen_cons; change (zlen (@nil Z)) with 0; lia). mrun.
      replace (7 + (len - 7)) with len by lia. rewrite <- (zlen_app o rest).
      rewrite decompress_ref_tail by lia. do 4 f_equal. lia.
Qed.

Lemma expand_zlen ts : forall o, toks_ok o ts -> zlen o <= zlen (expand o ts).
Proof.
  induction ts as [|t ts IH]; intros o Hok; [done|]. destruct Hok as [Ht Hts].
  pose proof (expand1_zlen o t Ht). specialize (IH _ Hts). unfold expand in *. simpl. lia.
Qed.

Lemma enc_zlen o t : tok_ok o t -> 2 <= zlen (enc t).
Proof.
  destruct t as [bs|off len]; simpl; intros H; [rewrite zlen_cons; lia|].
  destruct (len <? 7); unfold zlen; simpl; lia.
Qed.

Lemma decompress_encoded ts : forall fuel pre o rest, toks_ok o ts -> ts <> [] ->
  (length ts <= fuel)%nat -> zlen (expand o ts) <= zlen o + zlen rest ->
  decompress_loop fuel (pre ++ encode ts) (o ++ rest) (zlen pre) (zlen o)
  = Some (Done (zlen (expand o ts))
               (expand o ts ++ drop (Z.to_nat (zlen (expand o ts) - zlen o)) rest)).
Proof.
  induction ts as [|t ts IH]; intros fuel pre o rest Hok Hne Hf Hfit; [done|].
  destruct Hok as [Ht Hts]. destruct fuel as [|fuel]; [simpl in Hf; lia|]. cbn [decompress_loop].
  change (encode (t :: ts)) with (enc t ++ encode ts).
  change (expand o (t :: ts)) with (expand (expand1 o t) ts) in *.
  pose proof (expand_zlen ts _ Hts). pose proof (expand1_zlen o t Ht).
  destruct (decompress_token pre t (encode ts) o rest Ht ltac:(lia)) as (rest' & Hz & -> & ->). mrun.
  destruct ts as [|t' ts].
  - change (encode []) with (@nil Z). rewrite app_nil_r, Z.ltb_irrefl. done.
  - simpl in Hf. assert (Hpos : 0 < zlen (encode (t' :: ts))).
    { destruct Hts as [Ht' _]. change (encode (t' :: ts)) with (enc t' ++ encode ts). rewrite zlen_app.
      pose proof (enc_zlen _ _ Ht'). pose proof (zlen_nonneg (encode ts)). lia. }
    rewrite app_assoc, (zlen_app (pre ++ enc t)). zif_true.
    rewrite IH; [|done|done|simpl; lia|lia]. rewrite drop_drop. do 4 f_equal. lia.
Qed.

(** A decoded stream. *)
Lemma decompress_correct ts buf : toks_ok [] ts -> ts <> [] -> zlen (expand [] ts) <= zlen buf ->
  lzf_decompress (encode ts) buf
  = Some (Done (zlen (expand [] ts)) (expand [] ts ++ drop (length (expand [] ts)) buf)).
Proof.
  intros Hok Hne Hfit. unfold lzf_decompress.
  pose proof (decompress_encoded ts (S (length (encode ts))) [] [] buf Hok Hne) as H.
  simpl app in H. change (zlen (@nil Z)) with 0 in H. rewrite H; [|clear -Hok|lia].
  - unfold zlen. rewrite Z.sub_0_r, Nat2Z.id. done.
  - generalize dependent (@nil Z). induction ts as [|t ts IH]; intros o Hok; [simpl; lia|].
    destruct Hok as [Ht Hts]. specialize (IH _ Hts). change (encode (t :: ts)) with (enc t ++ encode ts).
    rewrite length_app. pose proof (enc_zlen _ _ Ht). unfold zlen in *. simpl. lia.
Qed.

(** ** The compressor *)

(** The octets from [ref] and from [i] agree for [n] positions. *)
Definition agree (inp : list Z) (ref i n : Z) : Prop :=
  forall k, 0 <= k < n -> zget inp (ref + k) = zget inp (i + k).

Lemma agree_snoc inp ref i n : 0 <= n -> agree inp ref i n -> zget inp (ref + n) = zget inp (i + n) ->
  agree inp ref i (n + 1).
Proof.
  intros Hn Ha E k Hk. destruct (Z.eq_dec k n) as [->|]; [done|]. apply Ha. lia.
Qed.

Lemma unrolled_spec n : forall inp ref i len, 0 <= ref < i -> 0 <= len ->
  i + len + Z.of_nat n < zlen inp -> agree inp ref i (len + 1) ->
  exists stop len', unrolled n inp ref i len = Some (stop, len') /\ len <= len' <= len + Z.of_nat n /\
    (if stop : bool then len < len' /\ agree inp ref i len' else len' = len + Z.of_nat n /\ agree inp ref i (len' + 1)).
Proof.
  induction n as [|n IH]; intros inp ref i len Hr Hl Hin Ha.
  { exists false, len. split; [done|]. split; [lia|]. split; [lia|done]. }
  cbn [unrolled]. destruct (zget_Some inp (ref + (len + 1))) as [a Ea]; [lia|].
  destruct (zget_Some inp (i + (len + 1))) as [b Eb]; [lia|]. rewrite Ea, Eb. mrun.
  destruct (Z.eqb_spec a b) as [->|Hne]; simpl negb; cbv iota.
  - destruct (IH inp ref i (len + 1)) as (st & l' & E & Hl' & H); [lia..| |].
    { apply agree_snoc; [lia|done|congruence]. }
    exists st, l'. split; [done|]. split; [lia|]. destruct st; [split; [lia|]; apply H|].
    destruct H as [-> H]. split; [lia|done].
  - exists true, (len + 1). split; [done|]. split; [lia|]. split; [lia|done].
Qed.

Lemma extend_spec fuel : forall inp ref i maxlen len, 0 <= ref < i -> 0 <= len ->
  i + maxlen <= zlen inp -> maxlen - len < Z.of_nat fuel -> (1 <= fuel)%nat -> agree inp ref i (len + 1) ->
  exists len', extend fuel inp ref i maxlen len = Some len' /\ len < len' /\
    (len' = len + 1 \/ len' <= maxlen) /\ agree inp ref i len'.
Proof.
  induction fuel as [|fuel IH]; intros inp ref i maxlen len Hr Hl Hin Hf Hf1 Ha; [lia|]. cbn [extend].
  destruct (Z.ltb_spec (len + 1) maxlen) as [Hlt|Hge].
  2: { exists (len + 1). split; [done|]. split; [lia|]. split; [lia|done]. }
  destruct (zget_Some inp (ref + (len + 1))) as [a Ea]; [lia|].
  destruct (zget_Some inp (i + (len + 1))) as [b Eb]; [lia|]. rewrite Ea, Eb. mrun.
  destruct (Z.eqb_spec a b) as [->|Hne].
  - destruct (IH inp ref i maxlen (len + 1)) as (l' & E & Hl' & Hor & H); [lia..| |].
    { apply agree_snoc; [lia|done|congruence]. }
    exists l'. split; [done|]. split; [lia|]. split; [lia|done].
  - exists (len + 1). split; [done|]. split; [lia|]. split; [lia|done].
Qed.

Lemma match_length_spec inp ref i : 0 <= ref < i -> i + 3 <= zlen inp -> agree inp ref i 3 ->
  let room := zlen inp - i - 2 in
  exists len, match_length inp ref i (if room >? MAX_REF then MAX_REF else room) = Some len /\
    3 <= len <= 264 /\ i + len <= zlen inp /\ agree inp ref i len.
Proof.
  intros Hr Hin Ha. cbv zeta. set (maxlen := if _ : bool then _ else _).
  assert (Hm : 1 <= maxlen <= 264 /\ i + maxlen + 2 <= zlen inp)
    by (unfold maxlen, MAX_REF; zcase; lia).
  clearbody maxlen. unfold match_length.
  assert (Hext : forall len, 2 <= len <= 18 -> (2 < len -> 16 < maxlen) -> agree inp ref i (len + 1) ->
    exists len', extend 300 inp ref i maxlen len = Some len' /\ 3 <= len' <= 264 /\
      i + len' <= zlen inp /\ agree inp ref i len').
  { intros len Hlen H16 Hag.
    destruct (extend_spec 300 inp ref i maxlen len) as (l' & E & H1 & H2 & H3); [lia..|done|].
    exists l'. split; [done|]. destruct (Z.eq_dec len 2) as [->|]; [|specialize (H16 ltac:(lia))]; (split; [lia|]; split; [lia|done]). }
  destruct (Z.gtb_spec maxlen 16) as [H16|H16]; [|apply Hext; [lia|lia|done]].
  destruct (unrolled_spec 16 inp ref i 2) as (st & l' & -> & Hl & H); [lia..|done|]. mrun.
  destruct st; [|destruct H as [-> H]; apply Hext; [lia|lia|done]].
  destruct H as [H1 H]. exists l'. split; [done|]. split; [lia|]. split; [lia|done].
Qed.

(** A match reproduces the input. *)
Lemma back_agree inp n : forall i off, 0 <= i -> 0 <= off < i -> i + Z.of_nat n <= zlen inp ->
  agree inp (i - off - 1) i (Z.of_nat n) ->
  back n (take (Z.to_nat i) inp) off = take (Z.to_nat (i + Z.of_nat n)) inp.
Proof.
  induction n as [|n IH]; intros i off Hi Hoff Hin Ha; [by simpl; rewrite Z.add_0_r|]. cbn [back].
  assert (Hlen : zlen (take (Z.to_nat i) inp) = i).
  { unfold zlen in *. rewrite length_take. lia. }
  destruct (zget_Some inp i) as [b Eb]; [lia|].
  assert (E : zget (take (Z.to_nat i) inp) (zlen (take (Z.to_nat i) inp) - off - 1) = Some b).
  { rewrite Hlen. rewrite <- Eb. specialize (Ha 0 ltac:(lia)). rewrite !Z.add_0_r in Ha. rewrite <- Ha.
    unfold zget. zif_true. apply lookup_take_lt. lia. }
  rewrite E. cbn [default id].
  assert (Hs : take (Z.to_nat i) inp ++ [b] = take (Z.to_nat (i + 1)) inp).
  { replace (Z.to_nat (i + 1)) with (S (Z.to_nat i)) by lia. symmetry. apply take_S_r.
    unfold zget in Eb. destruct (0 <=? i); done. }
  rewrite Hs, IH; [do 2 f_equal; lia|lia|lia|lia|].
  intros k Hk. specialize (Ha (k + 1) ltac:(lia)).
  replace (i + 1 - off - 1 + k) with (i - off - 1 + (k + 1)) by lia.
  by replace (i + 1 + k) with (i + (k + 1)) by lia.
Qed.

(** *** The invariant of the main loop *)

Section Compress.
Context (inp : list Z) (n : Z).
Hypothesis inp_long : 2 <= zlen inp < 4294967296.

(** The output holds complete tokens, the place of the next header and the
    literals of the open run (or is exactly full, with no room for a header);
    tokens and literals together stand for the input consumed so far. *)
Definition inv (st : cstate) : Prop :=
  exists ts lits tl,
    out st = encode ts ++ tl /\ zlen (out st) = n /\
    op st = zlen (encode ts) + 1 + zlen lits /\ lit st = zlen lits /\ zlen lits < 32 /\
    toks_ok [] ts /\ 0 <= ip st <= zlen inp /\ expand [] ts ++ lits = take (Z.to_nat (ip st)) inp /\
    (tl = [] /\ lits = [] \/ exists h rest, tl = h :: lits ++ rest).

(** Writing the header of the open run, or dropping an empty one. *)
Lemma close_run st : inv st -> op st - lit st - 1 < n ->
  exists ts rest, put (out st) (op st - lit st - 1) (u8 (lit st - 1)) = Some (encode ts ++ rest) /\
    zlen (encode ts) = op st - not_ (lit st) /\ zlen (encode ts ++ rest) = n /\ toks_ok [] ts /\
    expand [] ts = take (Z.to_nat (ip st)) inp.
Proof.
  intros (ts & lits & tl & Ho & Hn & Hop & Hlit & H32 & Hok & Hip & Hex & Htl) Hroom.
  rewrite Hop, Hlit in *. replace (zlen (encode ts) + 1 + zlen lits - zlen lits - 1) with (zlen (encode ts)) by lia.
  destruct Htl as [[-> ->]|(h & rest & ->)].
  { rewrite app_nil_r in Ho. rewrite Ho in Hn. change (zlen (@nil Z)) with 0 in Hroom. lia. }
  rewrite Ho in *. rewrite put_app by done. pose proof (zlen_nonneg lits). unfold not_.
  destruct (Z.eqb_spec (zlen lits) 0) as [E0|E0].
  - destruct lits; [|rewrite zlen_cons in E0; pose proof (zlen_nonneg lits); lia].
    exists ts, (u8 (zlen (@nil Z) - 1) :: rest). split; [done|]. split; [lia|].
    split; [simpl app in Hn; rewrite !zlen_app, !zlen_cons in *; lia|]. split; [done|]. by rewrite app_nil_r in Hex.
  - exists (ts ++ [TLit lits]), rest. rewrite encode_app, encode_one. cbn [enc].
    rewrite uN_id by lia. rewrite <- !app_assoc. split; [done|].
    rewrite !zlen_app, !zlen_cons, zlen_app in *. split; [lia|]. split; [lia|].
    rewrite toks_ok_app, expand_app. split; [|done]. split; [done|]. split; [|done]. simpl. lia.
Qed.

Lemma take_zget i b : 0 <= i -> zget inp i = Some b ->
  take (Z.to_nat i) inp ++ [b] = take (Z.to_nat (i + 1)) inp.
Proof using.
  intros Hi Hb. replace (Z.to_nat (i + 1)) with (S (Z.to_nat i)) by lia. symmetry.
  apply take_S_r. unfold zget in Hb. by destruct (0 <=? i).
Qed.

Lemma copy_literal_spec st : inv st -> ip st < zlen inp -> op st < n ->
  exists st', copy_literal inp st = Some st' /\ inv st' /\ ip st' = ip st + 1 /\
    (op st' = op st + 1 \/ lit st <> 0 /\ op st' = op st + 2 /\ lit st' = 0).
Proof using inp n.
  intros (ts & lits & tl & Ho & Hn & Hop & Hlit & H32 & Hok & Hip & Hex & Htl) Hi Hroom.
  pose proof (zlen_nonneg lits). pose proof (zlen_nonneg (encode ts)).
  destruct Htl as [[-> ->]|(h & rest & ->)].
  { rewrite app_nil_r in Ho. rewrite Ho in Hn. change (zlen (@nil Z)) with 0 in *. lia. }
  destruct rest as [|x rest].
  { rewrite Ho, app_nil_r, zlen_app, zlen_cons in Hn. lia. }
  unfold copy_literal. destruct (zget_Some inp (ip st)) as [b Eb]; [lia|]. rewrite Eb. mrun.
  rewrite Ho. replace (encode ts ++ h :: lits ++ x :: rest) with ((encode ts ++ h :: lits) ++ x :: rest)
    by (by rewrite <- app_assoc).
  rewrite put_app by (rewrite zlen_app, zlen_cons; lia). mrun. cbv zeta.
  assert (Hex' : expand [] ts ++ lits ++ [b] = take (Z.to_nat (ip st + 1)) inp).
  { rewrite app_assoc, Hex. apply take_zget; [lia|done]. }
  assert (Hz : zlen (lits ++ [b]) = zlen lits + 1) by (by rewrite zlen_app).
  replace ((encode ts ++ h :: lits) ++ b :: rest) with (encode ts ++ h :: (lits ++ [b]) ++ rest)
    by (by rewrite <- !app_assoc).
  rewrite Ho in Hn. rewrite zlen_app, zlen_cons, zlen_app, zlen_cons in Hn. unfold MAX_LIT.
  destruct (Z.eqb_spec (lit st + 1) 32) as [Efull|Efull].
  - rewrite put_app by lia. mrun. rewrite uN_id by lia. eexists. split; [reflexivity|]. split; [|simpl; lia].
    exists (ts ++ [TLit (lits ++ [b])]), [], rest. cbn [ip op lit out].
    rewrite encode_app, encode_one. cbn [enc]. rewrite Hz, <- app_assoc. replace (lit st + 1 - 1) with (zlen lits + 1 - 1) by lia.
    rewrite !zlen_app, !zlen_cons, zlen_app, Hz. change (zlen (@nil Z)) with 0.
    rewrite toks_ok_app, expand_app. cbn [toks_ok expand foldl expand1 tok_ok].
    rewrite Hz, app_nil_r. split; [rewrite <- (app_assoc (encode ts)); simpl; by rewrite <- (app_assoc lits)|].
    split; [simpl app; rewrite zlen_cons; lia|].
    repeat (split; [first [lia|done|split; [done|split; [lia|done]]]|]).
    destruct rest; [left; done|right; by eexists _, _].
  - eexists. split; [reflexivity|]. split; [|simpl; lia].
    exists ts, (lits ++ [b]), (h :: (lits ++ [b]) ++ rest). cbn [ip op lit out].
    rewrite !zlen_app, !zlen_cons, zlen_app, Hz. change (zlen (@nil Z)) with 0.
    repeat (split; [first [done|lia]|]). right. by eexists _, _.
Qed.

(** The bytes of a back reference after complete tokens. *)
Definition put_ref (o : list Z) (p off len : Z) : option (list Z * Z) :=
  '(o, p) ←
    (if len <? 7 then
       o ← put o p (u8 (Z.shiftr off 8 + Z.shiftl len 5)); Some (o, p + 1)
     else
       o ← put o p (u8 (Z.shiftr off 8 + Z.shiftl 7 5));
       o ← put o (p + 1) (u8 (len - 7)); Some (o, p + 2));
  o ← put o p (u8 off); Some (o, p + 1).

Lemma put_ref_spec pre rest off len : 0 <= off < 8192 -> 1 <= len <= 262 -> 3 <= zlen rest ->
  exists rest', put_ref (pre ++ rest) (zlen pre) off len
    = Some (pre ++ enc (TRef off len) ++ rest', zlen pre + zlen (enc (TRef off len))) /\
    zlen (enc (TRef off len)) + zlen rest' = zlen rest.
Proof using.
  intros Hoff Hlen Hrest. destruct rest as [|x [|y [|z rest]]]; try (unfold zlen in Hrest; simpl in Hrest; lia).
  assert (Hq : 0 <= off / 256 < 32) by (split; [apply Z.div_pos; lia|apply Z.div_lt_upper_bound; lia]).
  unfold put_ref. rewrite Z.shiftr_div_pow2 by lia. change (2 ^ 8) with 256. change (Z.shiftl 7 5) with 224.
  rewrite (Z.shiftl_mul_pow2 len) by lia. change (2 ^ 5) with 32. cbn [enc].
  assert (Ho : u8 off = off mod 256) by done. rewrite Ho.
  destruct (Z.ltb_spec len 7).
  - rewrite uN_id, put_app by lia. mrun.
    replace (pre ++ off / 256 + len * 32 :: y :: z :: rest)
      with ((pre ++ [off / 256 + len * 32]) ++ y :: z :: rest) by (by rewrite <- app_assoc).
    rewrite put_app by (by rewrite zlen_app). mrun. exists (z :: rest).
    rewrite <- app_assoc, !zlen_cons, !(@zlen_nil Z). split; [do 2 f_equal; lia|lia].
  - rewrite (uN_id 8 (off / 256 + 224)), (uN_id 8 (len - 7)), put_app by lia. mrun.
    replace (pre ++ off / 256 + 224 :: y :: z :: rest)
      with ((pre ++ [off / 256 + 224]) ++ y :: z :: rest) by (by rewrite <- app_assoc).
    rewrite put_app by (by rewrite zlen_app). mrun.
    replace ((pre ++ [off / 256 + 224]) ++ len - 7 :: z :: rest)
      with ((pre ++ [off / 256 + 224; len - 7]) ++ z :: rest) by (by rewrite <- !app_assoc).
    rewrite put_app by (by rewrite zlen_app). mrun. exists rest.
    rewrite <- app_assoc, !zlen_cons, !(@zlen_nil Z). split; [do 2 f_equal; lia|lia].
Qed.

Lemma compress_match_spec st ref : inv st -> ip st < zlen inp - 2 -> 0 < ref < ip st ->
  ip st - ref - 1 < 8192 -> agree inp ref (ip st) 3 ->
  exists r, compress_match inp st ref (ip st - ref - 1) = Some r /\
    match r with
    | Return0 o => zlen o = n
    | Break st' => inv st' /\ zlen inp - 2 <= ip st'
    | Continue st' => inv st' /\ ip st < ip st'
    end.
Proof.
  intros Hinv Hi Href Hoff Hag. unfold compress_match.
  assert (Hn : zlen (out st) = n) by (destruct Hinv as (?&?&?&?&?&?); done).
  assert (Hlit : 0 <= lit st /\ 0 <= op st - lit st - 1 /\ 0 <= ip st).
  { destruct Hinv as (ts&lits&?&_&_&->&->&_&_&?&_). pose proof (zlen_nonneg (encode ts)).
    pose proof (zlen_nonneg lits). lia. }
  rewrite Hn, u32_id by lia. zcase; [by exists (Return0 (out st))|].
  assert (Hroom : op st - not_ (lit st) + 4 < n).
  { apply andb_false_iff in Hb as [Hb|Hb]; zbool; unfold not_ in *; zcase; lia. }
  destruct (close_run st Hinv) as (ts & rest & -> & Hp & Hz & Hok & Hex).
  { unfold not_ in Hroom. zcase_in Hroom; lia. }
  mrun. destruct (match_length_spec inp ref (ip st)) as (len & -> & Hl & Hend & Hagl); [lia|lia|done|]. mrun.
  rewrite zlen_app in Hz. rewrite <- Hp in *.
  destruct (put_ref_spec (encode ts) rest (ip st - ref - 1) (len - 2)) as (rest' & E & Hrest); [lia..|].
  unfold put_ref in E. revert E. cbv zeta.
  destruct (if len - 2 <? 7 then _ else _) as [[o p]|]; mrun; [|done].
  destruct (put o p (u8 (ip st - ref - 1))) as [o'|]; mrun; [|done]. intros [= -> Hpp].
  change (p + 1 = zlen (encode ts) + zlen (enc (TRef (ip st - ref - 1) (len - 2)))) in Hpp.
  assert (Hinv' : forall hv ht, inv (mkC (ip st + 1 + (len - 2 + 1)) (p + 1 + 1) 0 hv ht
      (encode ts ++ enc (TRef (ip st - ref - 1) (len - 2)) ++ rest'))).
  { intros hv ht. exists (ts ++ [TRef (ip st - ref - 1) (len - 2)]), [], rest'. cbn [ip op lit out].
    rewrite encode_app, encode_one, toks_ok_app, expand_app, <- app_assoc.
    cbn [toks_ok expand foldl expand1]. fold (expand [] ts). rewrite Hex.
    change (zlen (@nil Z)) with 0. rewrite !zlen_app.
    split; [done|]. split; [lia|]. split; [lia|]. split; [done|]. split; [lia|].
    split; [split; [done|split; [|done]]|].
    { cbn [tok_ok]. unfold zlen in *. rewrite length_take. lia. }
    split; [lia|]. split.
    { rewrite app_nil_r, (back_agree inp (Z.to_nat (len - 2 + 2)) (ip st)); [do 2 f_equal; lia|lia|lia|lia|].
      replace (ip st - (ip st - ref - 1) - 1) with ref by lia. by replace (Z.of_nat _) with len by lia. }
    destruct rest' as [|h rest']; [left; done|right; by exists h, rest']. }
  zcase; [eexists; split; [reflexivity|]; split; [apply Hinv'|]; simpl; lia|].
  unfold FRST, NEXT.
  repeat match goal with
  | |- context [zget inp ?x ≫= _] => let b := fresh "b" in
      destruct (zget_Some inp x) as [b ->]; [lia|]; mrun
  end.
  eexists. split; [reflexivity|].
  replace (ip st + 1 + (len - 2 + 1) - 2 + 1 + 1) with (ip st + 1 + (len - 2 + 1)) by lia.
  split; [apply Hinv'|]. simpl. lia.
Qed.

(** The candidate from the hash table, whatever it holds, is used only when it
    lies behind and close. *)
Lemma off_small i ref : 0 <= i < 4294967296 -> 0 <= ref < 4294967296 ->
  u64 (i - ref - 1) < MAX_OFF -> ref < i /\ u64 (i - ref - 1) = i - ref - 1.
Proof using.
  intros Hi Hr Hoff. unfold MAX_OFF in Hoff. destruct (Z.lt_ge_cases ref i) as [Hlt|Hge].
  - split; [done|]. apply uN_id. lia.
  - exfalso. unfold uN in Hoff. rewrite <- (Z.mod_add _ 1) in Hoff by lia.
    rewrite Z.mod_small in Hoff by lia. lia.
Qed.

Lemma compress_round_spec st : inv st -> ip st < zlen inp - 2 ->
  exists r, compress_round inp st = Some r /\
    match r with
    | Return0 o => zlen o = n
    | Break st' => inv st' /\ zlen inp - 2 <= ip st'
    | Continue st' => inv st' /\ ip st < ip st'
    end.
Proof.
  intros Hinv Hi. unfold compress_round.
  assert (Hip : 0 <= ip st) by (destruct Hinv as (?&?&?&_&_&_&_&_&_&?&_); lia).
  unfold NEXT. destruct (zget_Some inp (ip st + 2)) as [i2 E2]; [lia|]. rewrite E2. mrun. cbn [ip].
  set (hv := Z.lor _ i2). set (ref := u32 (htab st (IDX hv))).
  set (st1 := mkC (ip st) _ _ _ _ _).
  assert (Hinv1 : inv st1) by exact Hinv.
  assert (Href : 0 <= ref < 4294967296) by (apply (uN_range 32); lia).
  assert (Hlit : exists r, (if op st1 >=? zlen (out st1) then Some (Return0 (out st1))
      else st2 ← copy_literal inp st1; Some (Continue st2)) = Some r /\
    match r with
    | Return0 o => zlen o = n
    | Break st' => inv st' /\ zlen inp - 2 <= ip st'
    | Continue st' => inv st' /\ ip st < ip st'
    end).
  { assert (Hn : zlen (out st1) = n) by (destruct Hinv1 as (?&?&?&?&?&?); done).
    zcase; [by exists (Return0 (out st1))|].
    destruct (copy_literal_spec st1 Hinv1) as (st2 & -> & Hinv2 & Hip2 & _); [cbn [ip st1]; lia|lia|].
    mrun. eexists. split; [reflexivity|]. split; [done|]. change (ip st1) with (ip st) in Hip2. lia. }
  destruct ((u64 (ip st - ref - 1) <? MAX_OFF) && (ref >? 0)) eqn:Hc; [|mrun; exact Hlit].
  zbool. destruct (off_small (ip st) ref ltac:(lia) Href ltac:(lia)) as [Hlt Eoff].
  destruct (zget_Some inp (ref + 2)) as [r2 F2]; [lia|]. rewrite F2. mrun.
  change (ip st1) with (ip st). rewrite E2. mrun.
  destruct (Z.eqb_spec r2 i2) as [->|]; [|mrun; exact Hlit].
  destruct (zget_Some inp ref) as [r0 F0]; [lia|]. destruct (zget_Some inp (ref + 1)) as [r1 F1]; [lia|].
  destruct (zget_Some inp (ip st)) as [i0 E0]; [lia|]. destruct (zget_Some inp (ip st + 1)) as [i1 E1]; [lia|].
  rewrite F0, F1, E0, E1. mrun.
  destruct ((r0 =? i0) && (r1 =? i1)) eqn:Heq; [|exact Hlit]. zbool. subst.
  rewrite Eoff. rewrite Eoff in *. unfold MAX_OFF in *.
  apply (compress_match_spec st1); [done|done|cbn [ip st1]; lia|cbn [ip st1]; lia|].
  intros k Hk. cbn [ip st1]. assert (k = 0 \/ k = 1 \/ k = 2) as [->|[->| ->]] by lia;
    rewrite ?Z.add_0_r; congruence.
Qed.

Lemma compress_loop_spec fuel : forall st, inv st -> zlen inp - ip st < Z.of_nat fuel ->
  exists r, compress_loop fuel inp st = Some r /\
    match r with
    | inl o => zlen o = n
    | inr st' => inv st' /\ zlen inp - 2 <= ip st'
    end.
Proof.
  induction fuel as [|fuel IH]; intros st Hinv Hf.
  { destruct Hinv as (?&?&?&_&_&_&_&_&_&?&_). lia. }
  cbn [compress_loop]. destruct (Z.ltb_spec (ip st) (zlen inp - 2)) as [Hlt|Hge].
  2: { exists (inr st). split; [done|]. split; [done|lia]. }
  destruct (compress_round_spec st Hinv Hlt) as ([o|st'|st'] & -> & H); mrun.
  - by exists (inl o).
  - by exists (inr st').
  - destruct H as [Hinv' Hip]. apply IH; [done|lia].
Qed.

(** The at most two bytes that are left always fit. *)
Lemma flush_loop_spec st : inv st -> zlen inp - 2 <= ip st -> op st + 3 <= n ->
  exists st', flush_loop 4 inp st = Some st' /\ inv st' /\ ip st' = zlen inp /\ op st' <= n.
Proof using inp n inp_long.
  intros Hinv Hi Hop. cbn [flush_loop].
  assert (Hend : forall s f, inv s -> ip s = zlen inp -> op s <= n ->
    exists st', flush_loop (S f) inp s = Some st' /\ inv st' /\ ip st' = zlen inp /\ op st' <= n).
  { intros s f Hs Hsi Hso. cbn [flush_loop]. rewrite Hsi, Z.ltb_irrefl. by exists s. }
  assert (Hip : ip st <= zlen inp) by (destruct Hinv as (?&?&?&_&_&_&_&_&_&?&_); lia).
  destruct (Z.ltb_spec (ip st) (zlen inp)) as [Hlt|Hge]; [|exists st; split; [done|]; split; [done|lia]].
  destruct (copy_literal_spec st Hinv Hlt ltac:(lia)) as (s1 & -> & Hs1 & Hi1 & Ho1). mrun.
  destruct (Z.ltb_spec (ip s1) (zlen inp)) as [Hlt1|Hge1]; [|exists s1; split; [done|]; split; [done|lia]].
  destruct (copy_literal_spec s1 Hs1 Hlt1 ltac:(lia)) as (s2 & -> & Hs2 & Hi2 & Ho2). mrun.
  apply (Hend s2 1%nat); [done|lia|lia].
Qed.

End Compress.

(** What a successful compression leaves in the output block. *)
Lemma lzf_compress_spec htab0 inp out0 : 2 <= zlen inp < 4294967296 ->
  exists k o, lzf_compress htab0 inp out0 = Some (k, o) /\ zlen o = zlen out0 /\ 0 <= k <= zlen out0 /\
    (k <> 0 -> exists ts rest, o = encode ts ++ rest /\ zlen (encode ts) = k /\ toks_ok [] ts /\
       expand [] ts = inp).
Proof.
  intros Hlen. unfold lzf_compress. pose proof (zlen_nonneg out0).
  rewrite (proj2 (Z.eqb_neq (zlen inp) 0)) by lia. cbn [orb].
  destruct (Z.eqb_spec (zlen out0) 0) as [E0|E0]; [exists 0, out0; split; [done|]; split; [done|]; split; [lia|done]|].
  unfold FRST. destruct (zget_Some inp 0) as [a ->]; [lia|]. destruct (zget_Some inp (0 + 1)) as [b ->]; [lia|].
  mrun. set (st0 := mkC 0 1 0 _ htab0 out0).
  assert (Hinv : inv inp (zlen out0) st0).
  { exists [], [], out0. cbn [st0 ip op lit out]. split; [done|]. split; [done|]. split; [done|].
    split; [done|]. split; [done|]. split; [done|]. split; [lia|]. split; [done|].
    destruct out0 as [|h rest]; [left; done|right; by exists h, rest]. }
  destruct (compress_loop_spec inp (zlen out0) Hlen (S (length inp)) st0 Hinv) as ([o|st] & -> & Hr).
  { cbn [st0 ip]. unfold zlen. lia. }
  - mrun. exists 0, o. split; [done|]. split; [done|]. split; [lia|done].
  - mrun. destruct Hr as [Hinv1 Hip]. assert (Hz : zlen (out st) = zlen out0) by (destruct Hinv1 as (?&?&?&?&?&?); done).
    rewrite Hz. destruct (Z.gtb_spec (op st + 3) (zlen out0)) as [Hfull|Hroom].
    { exists 0, (out st). split; [done|]. split; [done|]. split; [lia|done]. }
    destruct (flush_loop_spec inp (zlen out0) Hlen st Hinv1 Hip Hroom) as (st' & -> & Hinv2 & Hip2 & Hop2). mrun.
    assert (Hlit : 0 <= lit st' < 32) by (destruct Hinv2 as (?&lits&?&_&_&_&->&?&_); pose proof (zlen_nonneg lits); lia).
    destruct (close_run inp (zlen out0) st' Hinv2 ltac:(lia)) as (ts & rest & -> & Hp & Hn & Hok & Hex). mrun.
    eexists _, _. split; [reflexivity|]. split; [done|]. rewrite <- Hp.
    pose proof (zlen_nonneg (encode ts)). pose proof (zlen_nonneg rest). rewrite zlen_app in Hn.
    split; [lia|]. intros _. exists ts, rest. split; [done|]. split; [done|]. split; [done|].
    rewrite Hex, Hip2. unfold zlen. rewrite Nat2Z.id. by apply take_ge.
Qed.

(** C27: LZF is lossless. For any contents of the uninitialised hash table and
    any input of 2 to 2^32-1 bytes, [lzf_compress] stays inside both blocks and
    returns; when it returns a non-zero length, decompressing exactly that many
    bytes into any block that can hold the original gives the original back. *)
Theorem lzf_roundtrip (htab0 : Z -> Z) (inp out0 : list Z) : 2 <= zlen inp < 2 ^ 32 ->
  exists k o, lzf_compress htab0 inp out0 = Some (k, o) /\ zlen o = zlen out0 /\ 0 <= k <= zlen out0 /\
    (k <> 0 -> forall buf, zlen inp <= zlen buf ->
       lzf_decompress (take (Z.to_nat k) o) buf = Some (Done (zlen inp) (inp ++ drop (length inp) buf))).
Proof.
  intros Hlen. destruct (lzf_compress_spec htab0 inp out0 Hlen) as (k & o & E & Ho & Hk & H).
  exists k, o. split; [done|]. split; [done|]. split; [done|]. intros Hne buf Hbuf.
  destruct (H Hne) as (ts & rest & -> & <- & Hok & Hex). unfold zlen at 1. rewrite Nat2Z.id, take_app_length.
  rewrite <- Hex in *. apply decompress_correct; [done| |done].
  intros ->. cbn [expand foldl] in *. change (zlen (@nil Z)) with 0 in Hlen. lia.
Qed.

Lemma lzf_roundtrip_witness :
  exists k o, lzf_compress (fun i => i) (concat (replicate 12 [97; 98; 99])) (replicate 40 0) = Some (k, o) /\
    zlen o = 40 /\ 0 <= k <= 40 /\
    (k <> 0 -> forall buf, zlen (concat (replicate 12 [97; 98; 99])) <= zlen buf ->
       lzf_decompress (take (Z.to_nat k) o) buf
       = Some (Done 36 (concat (replicate 12 [97; 98; 99]) ++ drop 36 buf))).
Proof.
  apply (lzf_roundtrip (fun i => i) (concat (replicate 12 [97; 98; 99])) (replicate 40 0)).
  vm_compute. split; [discriminate|reflexivity].
Defined.

(** The first hash of [lzf_compress] is taken before the length of the input
    is looked at: a one-byte input is read beyond its end. *)
Theorem lzf_compress_one_byte (htab0 : Z -> Z) (b x : Z) (out0 : list Z) :
  lzf_compress htab0 [b] (x :: out0) = None.
Proof.
  unfold lzf_compress. rewrite !zlen_cons. pose proof (zlen_nonneg out0).
  by rewrite (proj2 (Z.eqb_neq (1 + zlen out0) 0)) by lia.
Qed.

End Lzf.
