(* ===== verification/Rio.v ===== *)
(** * Stream-oriented I/O: src/redis5/src/rio.h and rio.c

    A [rio] is a target (a memory buffer, a file, a set of sockets) behind the
    function pointers [read] and [write], with an optional running CRC-64 and a
    limit on the bytes handled in one call.  The pointers are a type class with
    the behaviour its clients rely on; the memory buffer is the instance
    translated from rio.c. *)

From S2P Require Import Prelude Crc.
Import Crc.

Module Rio.

(** The function pointers of struct _rio: [None] is their failure result 0. *)
Class RioOps (T : Type) := {
  r_write : T -> list Z -> option T;
  r_read : T -> Z -> option (list Z * T);
}.

(** What the callers rely on: a write that succeeds appends the bytes, and a read
    consumes exactly the bytes asked for, or fails when there are not enough. *)
Class RioLaws (T : Type) `{RioOps T} := {
  target_ok : T -> Prop;
  contents : T -> list Z;
  unread : T -> list Z;
  write_appends : forall t bs t', target_ok t -> r_write t bs = Some t' ->
    target_ok t' /\ contents t' = contents t ++ bs;
  read_enough : forall t n, target_ok t -> 0 <= n <= zlen (unread t) ->
    exists t', r_read t n = Some (take (Z.to_nat n) (unread t), t') /\ target_ok t' /\
      unread t' = drop (Z.to_nat n) (unread t);
  read_short : forall t n, target_ok t -> zlen (unread t) < n -> r_read t n = None;
}.

(** ** The stream *)

Section Stream.
Context {T : Type} `{RioOps T}.

Record rio := mkRio {
  target : T;
  cksum : Z;
  update_cksum : bool;
  processed_bytes : Z;
  max_processing_chunk : Z;
}.

Definition chunk (r : rio) (len : Z) : Z :=
  if negb (max_processing_chunk r =? 0) && (max_processing_chunk r <? len)
  then max_processing_chunk r else len.

(** [rioGenericUpdateChecksum] *)
Definition next_cksum (r : rio) (bs : list Z) : option Z :=
  if update_cksum r then crc64 (cksum r) bs else Some (cksum r).

Fixpoint write_loop (fuel : nat) (r : rio) (buf : list Z) : option rio :=
  match fuel with
  | O => None
  | S fuel =>
      if zlen buf =? 0 then Some r
      else
        let n := chunk r (zlen buf) in
        let bs := take (Z.to_nat n) buf in
        ck ← next_cksum r bs;
        t ← r_write (target r) bs;
        write_loop fuel
          (mkRio t ck (update_cksum r) (u64 (processed_bytes r + n)) (max_processing_chunk r))
          (drop (Z.to_nat n) buf)
  end.

Definition rioWrite (r : rio) (buf : list Z) : option rio := write_loop (S (length buf)) r buf.

Fixpoint read_loop (fuel : nat) (r : rio) (len : Z) (buf : list Z) : option (list Z * rio) :=
  match fuel with
  | O => None
  | S fuel =>
      if len =? 0 then Some (buf, r)
      else
        let n := chunk r len in
        '(bs, t) ← r_read (target r) n;
        ck ← next_cksum r bs;
        read_loop fuel
          (mkRio t ck (update_cksum r) (u64 (processed_bytes r + n)) (max_processing_chunk r))
          (len - n) (buf ++ bs)
  end.

Definition rioRead (r : rio) (len : Z) : option (list Z * rio) :=
  read_loop (S (Z.to_nat len)) r len [].

End Stream.
Arguments rio : clear implicits.

(** ** The memory buffer *)

Record buffer := mkBuffer { ptr : list Z; pos : Z }.

(** [rioBufferWrite] appends with sdscatlen and never fails. *)
Definition rioBufferWrite (b : buffer) (bs : list Z) : option buffer :=
  Some (mkBuffer (ptr b ++ bs) (pos b + zlen bs)).

Definition rioBufferRead (b : buffer) (len : Z) : option (list Z * buffer) :=
  if zlen (ptr b) - pos b <? len then None
  else bs ← mem_read (ptr b) (pos b) len; Some (bs, mkBuffer (ptr b) (pos b + len)).

#[export] Instance buffer_ops : RioOps buffer := {
  r_write := rioBufferWrite;
  r_read := rioBufferRead;
}.

(** [rioInitWithBuffer] *)
Definition rioInitWithBuffer (s : list Z) : rio buffer := mkRio (mkBuffer s 0) 0 false 0 0.

(** A position inside the buffer: the states [rioInitWithBuffer] and the
    operations reach. *)
#[export, refine] Instance buffer_laws : RioLaws buffer := {
  target_ok b := 0 <= pos b <= zlen (ptr b);
  contents b := ptr b;
  unread b := drop (Z.to_nat (pos b)) (ptr b);
}.
Proof.
  - intros t bs t' Ht [= <-]. simpl. rewrite zlen_app. pose proof (zlen_nonneg bs). split; [lia|done].
  - intros t n Ht Hn. unfold zlen in Hn. rewrite length_drop in Hn. unfold zlen in Ht.
    cbn [r_read buffer_ops]. unfold rioBufferRead.
    rewrite (proj2 (Z.ltb_ge _ _)) by (unfold zlen; lia).
    rewrite mem_read_safe by (unfold zlen; lia). mrun. eexists. split; [reflexivity|]. simpl.
    split; [unfold zlen; lia|]. rewrite drop_drop. f_equal. lia.
  - intros t n Ht Hn. cbn [r_read buffer_ops]. unfold rioBufferRead. unfold zlen in *.
    rewrite length_drop in Hn. by rewrite (proj2 (Z.ltb_lt _ _)) by lia.
Defined.

(** ** Facts *)

Section Facts.
Context {T : Type} `{RioLaws T}.

(** A stream that can be processed: a sane chunk limit and checksum. *)
Definition rio_ok (r : rio T) : Prop :=
  target_ok (target r) /\ 0 <= max_processing_chunk r /\ 0 <= cksum r < 2 ^ 64.

Lemma chunk_range (r : rio T) len : rio_ok r -> 0 < len -> 0 < chunk r len <= len.
Proof. intros (_ & Hm & _) Hl. unfold chunk. zcase; lia. Qed.

Lemma next_cksum_ok (r : rio T) bs : rio_ok r -> bytes_ok bs ->
  exists ck, next_cksum r bs = Some ck /\ 0 <= ck < 2 ^ 64.
Proof.
  intros (_ & _ & Hc) Hb. unfold next_cksum. destruct (update_cksum r); [|by eexists].
  destruct (crc64_fold bs (cksum r) Hc Hb) as [-> ?]. by eexists.
Qed.

Lemma next_cksum_app (r : rio T) a b : rio_ok r -> bytes_ok a -> bytes_ok b ->
  next_cksum r (a ++ b) =
  (ck ← next_cksum r a; if update_cksum r then crc64 ck b else Some ck).
Proof.
  intros (_ & _ & Hc) Ha Hb. unfold next_cksum. destruct (update_cksum r); [|done].
  destruct (crc64_fold a (cksum r) Hc Ha) as [-> Hr]. mrun.
  rewrite (proj1 (crc64_fold (a ++ b) _ Hc (Forall_app_2 _ _ _ Ha Hb))), foldl_app.
  symmetry. by apply crc64_fold.
Qed.

(** What a write does, however it is cut into chunks: it fails only when the
    target fails, and otherwise appends the bytes and adds them to the checksum. *)
Lemma write_loop_spec fuel : forall (r : rio T) buf, rio_ok r -> bytes_ok buf ->
  (length buf < fuel)%nat ->
  (write_loop fuel r buf = None /\ exists t bs, r_write t bs = None) \/
  exists r', write_loop fuel r buf = Some r' /\ rio_ok r' /\
    contents (target r') = contents (target r) ++ buf /\
    next_cksum r buf = Some (cksum r') /\ update_cksum r' = update_cksum r.
Proof.
  induction fuel as [|fuel IH]; intros r buf Hr Hb Hf; [lia|]. cbn [write_loop].
  destruct (Z.eqb_spec (zlen buf) 0) as [E0|E0].
  { right. exists r. destruct buf; [|unfold zlen in E0; simpl in E0; lia]. rewrite app_nil_r.
    split; [done|]. split; [done|]. split; [done|]. unfold next_cksum. by destruct (update_cksum r). }
  pose proof (zlen_nonneg buf). pose proof (chunk_range r (zlen buf) Hr ltac:(lia)) as Hn.
  set (n := chunk r (zlen buf)) in *. cbv zeta.
  pose proof (take_drop (Z.to_nat n) buf) as Hsplit. rewrite <- Hsplit in Hb.
  apply Forall_app in Hb as [Hb1 Hb2].
  destruct (next_cksum_ok r _ Hr Hb1) as (ck & Eck & Hck). rewrite Eck. mrun.
  destruct (r_write (target r) (take (Z.to_nat n) buf)) as [t|] eqn:Ew; mrun.
  2: { left. split; [done|]. eauto. }
  destruct (write_appends _ _ _ (proj1 Hr) Ew) as [Ht Hct].
  set (r1 := mkRio _ _ _ _ _).
  assert (Hr1 : rio_ok r1) by (split; [done|split; [apply Hr|done]]).
  destruct (IH r1 (drop (Z.to_nat n) buf) Hr1 Hb2) as [[E Hfail]|(r' & E & Hr' & Hc & Hck' & Hu)].
  { rewrite length_drop. unfold zlen in *. lia. }
  - by left.
  - right. exists r'. split; [done|]. split; [done|]. split; [|split; [|done]].
    + rewrite Hc. cbn [target r1]. rewrite Hct, <- app_assoc. by rewrite Hsplit.
    + rewrite <- Hsplit, next_cksum_app, Eck by done. mrun. exact Hck'.
Qed.

(** What a read does. *)
Lemma read_loop_spec fuel : forall (r : rio T) len buf, rio_ok r -> bytes_ok (unread (target r)) ->
  0 <= len <= zlen (unread (target r)) -> len < Z.of_nat fuel ->
  exists r', read_loop fuel r len buf = Some (buf ++ take (Z.to_nat len) (unread (target r)), r') /\
    rio_ok r' /\ unread (target r') = drop (Z.to_nat len) (unread (target r)) /\
    next_cksum r (take (Z.to_nat len) (unread (target r))) = Some (cksum r') /\
    update_cksum r' = update_cksum r.
Proof.
  induction fuel as [|fuel IH]; intros r len buf Hr Hb Hl Hf; [lia|]. cbn [read_loop].
  destruct (Z.eqb_spec len 0) as [->|E0].
  { exists r. rewrite take_0, drop_0, app_nil_r. split; [done|]. split; [done|]. split; [done|].
    unfold next_cksum. by destruct (update_cksum r). }
  pose proof (chunk_range r len Hr ltac:(lia)) as Hn. set (n := chunk r len) in *. cbv zeta.
  destruct (read_enough (target r) n) as (t & Et & Ht & Hu); [apply Hr|lia|]. rewrite Et. mrun.
  set (u := unread (target r)) in *.
  assert (Hb1 : bytes_ok (take (Z.to_nat n) u)) by (by apply Forall_take).
  destruct (next_cksum_ok r _ Hr Hb1) as (ck & Eck & Hck). rewrite Eck. mrun.
  set (r1 := mkRio _ _ _ _ _).
  assert (Hr1 : rio_ok r1) by (split; [done|split; [apply Hr|done]]).
  destruct (IH r1 (len - n) (buf ++ take (Z.to_nat n) u) Hr1) as (r' & E & Hr' & Hu' & Hck' & Hup).
  { cbn [target r1]. rewrite Hu. by apply Forall_drop. }
  { cbn [target r1]. rewrite Hu. unfold zlen in *. rewrite length_drop. lia. }
  { lia. }
  cbn [target r1] in *. rewrite Hu in *. unfold zlen in Hl.
  assert (Htk : take (Z.to_nat len) u = take (Z.to_nat n) u ++ take (Z.to_nat (len - n)) (drop (Z.to_nat n) u)).
  { replace (Z.to_nat len) with (Z.to_nat n + Z.to_nat (len - n))%nat by lia. by rewrite take_take_drop. }
  exists r'. rewrite E, Htk, <- app_assoc. split; [done|]. split; [done|]. split.
  { rewrite Hu', drop_drop. f_equal. lia. }
  split; [|done]. rewrite next_cksum_app, Eck by (done || by apply Forall_take, Forall_drop). mrun. exact Hck'.
Qed.

End Facts.

Lemma rioInit_ok s : rio_ok (rioInitWithBuffer s).
Proof.
  pose proof (zlen_nonneg s). split; [simpl; lia|]. split; simpl; lia.
Qed.

(** However a write and the reads that follow are cut into chunks, the bytes
    arrive in the buffer in order, are read back in order, and both directions
    accumulate the CRC-64 of exactly the bytes processed. *)
Theorem rio_chunks_transparent (data : list Z) (ck mw mr : Z) :
  bytes_ok data -> 0 <= mw -> 0 <= mr -> 0 <= ck < 2 ^ 64 ->
  exists w, rioWrite (mkRio (mkBuffer [] 0) ck true 0 mw) data = Some w /\
    ptr (target w) = data /\ crc64 ck data = Some (cksum w) /\
    exists r, rioRead (mkRio (mkBuffer data 0) ck true 0 mr) (zlen data) = Some (data, r) /\
      cksum r = cksum w.
Proof.
  intros Hd Hmw Hmr Hck.
  assert (Hok : forall m, 0 <= m -> forall b, 0 <= pos b <= zlen (ptr b) ->
    rio_ok (mkRio b ck true 0 m)) by (intros; split; [done|split; done]).
  destruct (write_loop_spec (S (length data)) (mkRio (mkBuffer [] 0) ck true 0 mw) data)
    as [[_ (t & bs & Hf)]|(w & E & _ & Hc & Hw & _)]; [by apply Hok|done|lia|by simpl in Hf|].
  exists w. split; [exact E|]. cbn [contents buffer_laws target ptr] in Hc. split; [exact Hc|].
  unfold next_cksum in Hw. simpl in Hw. split; [done|].
  pose proof (zlen_nonneg data).
  destruct (read_loop_spec (S (Z.to_nat (zlen data))) (mkRio (mkBuffer data 0) ck true 0 mr) (zlen data) [])
    as (r & E' & _ & _ & Hr & _).
  { by apply Hok. }
  { simpl. by rewrite drop_0. }
  { simpl. rewrite drop_0. lia. }
  { lia. }
  assert (Ht : take (Z.to_nat (zlen data)) (drop (Z.to_nat 0) data) = data).
  { rewrite drop_0. unfold zlen. rewrite Nat2Z.id. by apply take_ge. }
  exists r. unfold next_cksum in Hr. simpl in E', Hr. simpl in Ht. rewrite Ht in E', Hr. split; [done|].
  congruence.
Qed.

Lemma rio_chunks_transparent_witness :
  exists w, rioWrite (mkRio (mkBuffer [] 0) 0 true 0 2) [82; 69; 68; 73; 83] = Some w /\
    ptr (target w) = [82; 69; 68; 73; 83] /\ crc64 0 [82; 69; 68; 73; 83] = Some (cksum w) /\
    exists r, rioRead (mkRio (mkBuffer [82; 69; 68; 73; 83] 0) 0 true 0 3) 5 = Some ([82; 69; 68; 73; 83], r) /\
      cksum r = cksum w.
Proof.
  apply (rio_chunks_transparent [82; 69; 68; 73; 83] 0 2 3).
  - repeat constructor; vm_compute; discriminate.
  - lia.
  - lia.
  - lia.
Defined.

End Rio.
