(* ===== verification/Rdb.v ===== *)
(** * Lengths and strings in the dump format: src/redis5/src/rdb.c

    Saving writes to a [rio] that may be NULL (only the size is wanted); [None]
    is the result -1, which every caller takes for a write error.  Loading ends in one of four ways ([load]).  The
    contents of fresh memory ([fresh]) and of the hash table on the stack of the
    compressor ([htab0]) are arbitrary; memory is never exhausted. *)

From Stdlib Require Import String.
From S2P Require Import Prelude Util Lzf Crc Rio.
Import Util Rio.

Module Rdb.

Definition RDB_6BITLEN := 0.
Definition RDB_14BITLEN := 1.
Definition RDB_32BITLEN := 0x80.
Definition RDB_64BITLEN := 0x81.
Definition RDB_ENCVAL := 3.
Definition RDB_LENERR := ULLONG_MAX.
Definition RDB_ENC_INT8 := 0.
Definition RDB_ENC_INT16 := 1.
Definition RDB_ENC_INT32 := 2.
Definition RDB_ENC_LZF := 3.
Definition RDB_LOAD_NONE := 0.
Definition RDB_LOAD_ENC := 1.
Definition RDB_LOAD_PLAIN := 2.
Definition RDB_LOAD_SDS := 4.
Definition UINT32_MAX := 4294967295.
Definition LONG_STR_SIZE := 21%nat.
Definition OBJ_ENCODING_EMBSTR_SIZE_LIMIT := 44.

(** String objects by encoding, and what a load returns: plain or sds bytes, or
    an object. *)
Inductive strobj := OInt (v : Z) | ORaw (bs : list Z) | OEmbstr (bs : list Z).
Inductive loaded := Bytes (bs : list Z) | Obj (o : strobj).

(** The string an object stands for. *)
Definition obj_value (o : strobj) : list Z :=
  match o with OInt v => dec v | ORaw bs | OEmbstr bs => bs end.
Definition value (l : loaded) : list Z := match l with Bytes bs => bs | Obj o => obj_value o end.

Definition createStringObject (bs : list Z) : strobj :=
  if zlen bs <=? OBJ_ENCODING_EMBSTR_SIZE_LIMIT then OEmbstr bs else ORaw bs.

(** [htonl]/[htonu64] and back: big-endian bytes. *)
Definition be_bytes (n : nat) (x : Z) : list Z := reverse (le_bytes n x).
Definition be_val (bs : list Z) : Z := le_val (reverse bs).

Section Rdb.
Context {T : Type} `{RioOps T}.
Context (fresh : nat -> list Z) (htab0 : Z -> Z).

(** ** Saving *)

(** A result and the target; the result -1 is [None]. *)
Definition result (n : Z) (rdb : option (rio T)) : option (Z * option (rio T)) :=
  if n =? -1 then None else Some (n, rdb).

(** The result is an [int]. *)
Definition rdbWriteRaw (rdb : option (rio T)) (p : list Z) : option (Z * option (rio T)) :=
  rdb ← (match rdb with Some r => r ← rioWrite r p; Some (Some r) | None => Some None end);
  result (s32 (zlen p)) rdb.

Definition rdbSaveType (rdb : option (rio T)) (type : Z) : option (Z * option (rio T)) :=
  rdbWriteRaw rdb [type].

Definition rdbSaveMillisecondTime (rdb : option (rio T)) (t : Z) : option (Z * option (rio T)) :=
  rdbWriteRaw rdb (le_bytes 8 t).

Definition rdbSaveLen (rdb : option (rio T)) (len : Z) : option (Z * option (rio T)) :=
  if len <? Z.shiftl 1 6 then
    '(_, rdb) ← rdbWriteRaw rdb [Z.lor (Z.land len 0xFF) (Z.shiftl RDB_6BITLEN 6)];
    Some (1, rdb)
  else if len <? Z.shiftl 1 14 then
    '(_, rdb) ← rdbWriteRaw rdb
      [Z.lor (Z.land (Z.shiftr len 8) 0xFF) (Z.shiftl RDB_14BITLEN 6); Z.land len 0xFF];
    Some (2, rdb)
  else if len <=? UINT32_MAX then
    '(_, rdb) ← rdbWriteRaw rdb [RDB_32BITLEN];
    '(_, rdb) ← rdbWriteRaw rdb (be_bytes 4 len);
    Some (1 + 4, rdb)
  else
    '(_, rdb) ← rdbWriteRaw rdb [RDB_64BITLEN];
    '(_, rdb) ← rdbWriteRaw rdb (be_bytes 8 len);
    Some (1 + 8, rdb).

(** The bytes of the encoding; [] is the result 0. *)
Definition rdbEncodeInteger (value : Z) : list Z :=
  if (value >=? - Z.shiftl 1 7) && (value <=? Z.shiftl 1 7 - 1) then
    [Z.lor (Z.shiftl RDB_ENCVAL 6) RDB_ENC_INT8; Z.land value 0xFF]
  else if (value >=? - Z.shiftl 1 15) && (value <=? Z.shiftl 1 15 - 1) then
    [Z.lor (Z.shiftl RDB_ENCVAL 6) RDB_ENC_INT16; Z.land value 0xFF; Z.land (Z.shiftr value 8) 0xFF]
  else if (value >=? - Z.shiftl 1 31) && (value <=? Z.shiftl 1 31 - 1) then
    [Z.lor (Z.shiftl RDB_ENCVAL 6) RDB_ENC_INT32; Z.land value 0xFF; Z.land (Z.shiftr value 8) 0xFF;
     Z.land (Z.shiftr value 16) 0xFF; Z.land (Z.shiftr value 24) 0xFF]
  else [].

(** [s] is a string of [len] bytes that is followed by a terminator. *)
Definition rdbTryIntegerEncoding (s : list Z) : option (list Z) :=
  let len := zlen s in
  let '(v, endptr, _) := strtoll (s ++ [0]) in
  e ← zget (s ++ [0]) endptr;
  if negb (e =? 0) then Some []
  else
    '(_, buf) ← ll2string (fresh 32) 32 v;
    n ← strlen buf;
    if negb (n =? len) then Some []
    else
      b ← mem_read buf 0 len;
      if negb (bool_decide (b = s)) then Some [] else Some (rdbEncodeInteger v).

Definition rdbSaveLzfBlob (rdb : option (rio T)) (data : list Z) (compress_len original_len : Z)
  : option (Z * option (rio T)) :=
  let byte := Z.lor (Z.shiftl RDB_ENCVAL 6) RDB_ENC_LZF in
  '(n1, rdb) ← rdbWriteRaw rdb [byte];
  '(n2, rdb) ← rdbSaveLen rdb compress_len;
  '(n3, rdb) ← rdbSaveLen rdb original_len;
  '(n4, rdb) ← rdbWriteRaw rdb data;
  result (n1 + n2 + n3 + n4) rdb.

(** The result 0 (nothing written) is [Some (0, rdb)].  The outer [option] is a
    compressor that leaves its blocks. *)
Definition rdbSaveLzfStringObject (rdb : option (rio T)) (s : list Z)
  : option (option (Z * option (rio T))) :=
  let len := zlen s in
  if len <=? 4 then Some (Some (0, rdb))
  else
    let outlen := len - 4 in
    let out := fresh (Z.to_nat (outlen + 1)) in
    '(comprlen, out') ← Lzf.lzf_compress htab0 (take (Z.to_nat (u32 len)) s)
                                         (take (Z.to_nat (u32 outlen)) out);
    if comprlen =? 0 then Some (Some (0, rdb))
    else
      data ← mem_read out' 0 comprlen;
      Some (rdbSaveLzfBlob rdb data comprlen len).

(** [None] is an access outside a block, [Some None] the result -1.  When the
    compressed form was written and the result is negative, the string is written
    behind it. *)
Definition rdbSaveRawString (rdb_compression : bool) (rdb : option (rio T)) (s : list Z)
  : option (option (Z * option (rio T))) :=
  let len := zlen s in
  enc ← (if len <=? 11 then rdbTryIntegerEncoding s else Some []);
  if zlen enc >? 0 then Some (rdbWriteRaw rdb enc)
  else
    r ← (if rdb_compression && (len >? 20) then rdbSaveLzfStringObject rdb s else Some (Some (0, rdb)));
    match r with
    | None => Some None
    | Some (n, rdb) =>
        if n >? 0 then Some (Some (n, rdb))
        else Some (
          '(n, rdb) ← rdbSaveLen rdb len;
          if len >? 0 then '(_, rdb) ← rdbWriteRaw rdb s; Some (n + len, rdb) else Some (n, rdb))
    end.

Definition rdbSaveLongLongAsStringObject (rdb : option (rio T)) (value : Z)
  : option (option (Z * option (rio T))) :=
  let enc := rdbEncodeInteger value in
  if zlen enc >? 0 then Some (rdbWriteRaw rdb enc)
  else
    '(enclen, buf) ← ll2string (fresh 32) 32 value;
    if enclen <? 32 then
      data ← mem_read buf 0 enclen;
      Some ('(n1, rdb) ← rdbSaveLen rdb enclen; '(n2, rdb) ← rdbWriteRaw rdb data; Some (n1 + n2, rdb))
    else None.

Definition rdbSaveStringObject (rdb_compression : bool) (rdb : option (rio T)) (obj : strobj)
  : option (option (Z * option (rio T))) :=
  match obj with
  | OInt v => rdbSaveLongLongAsStringObject rdb v
  | ORaw bs | OEmbstr bs => rdbSaveRawString rdb_compression rdb bs
  end.

(** ** Loading *)

(** A value and the stream behind it, the NULL (or -1) of an I/O error, exit(1)
    after a corruption report, or an access outside a block. *)
Inductive load (A : Type) :=
| Loaded (a : A) (r : rio T)
| IOError
| Exited
| Undefined.
Arguments Loaded {A}. Arguments IOError {A}. Arguments Exited {A}. Arguments Undefined {A}.

Definition lbind {A B} (m : load A) (f : A -> rio T -> load B) : load B :=
  match m with
  | Loaded a r => f a r
  | IOError => IOError
  | Exited => Exited
  | Undefined => Undefined
  end.

Definition rio_get (rdb : rio T) (n : Z) : load (list Z) :=
  match rioRead rdb n with Some (bs, r) => Loaded bs r | None => IOError end.

Definition rdbLoadRaw (rdb : rio T) (len : Z) : load (list Z) :=
  match rioRead rdb len with Some (bs, r) => Loaded bs r | None => Exited end.

Definition byte_at (bs : list Z) (i : nat) : Z := default 0 (bs !! i).

Definition rdbLoadType (rdb : rio T) : load Z :=
  lbind (rio_get rdb 1) (fun b r => Loaded (byte_at b 0) r).

Definition rdbLoadTime (rdb : rio T) : load Z :=
  lbind (rdbLoadRaw rdb 4) (fun b r => Loaded (s32 (le_val b)) r).

(** Little-endian since version 9; before that, in the order of the host. *)
Definition rdbLoadMillisecondTime (big_endian : bool) (rdb : rio T) (rdbver : Z) : load Z :=
  lbind (rdbLoadRaw rdb 8) (fun b r =>
    Loaded (s64 (if (rdbver >=? 9) || negb big_endian then le_val b else be_val b)) r).

(** The length (or the encoding type) and [isencoded]. *)
Definition rdbLoadLenByRef (rdb : rio T) : load (Z * bool) :=
  lbind (rio_get rdb 1) (fun b r =>
    let buf0 := byte_at b 0 in
    let type := Z.shiftr (Z.land buf0 0xC0) 6 in
    if type =? RDB_ENCVAL then Loaded (Z.land buf0 0x3F, true) r
    else if type =? RDB_6BITLEN then Loaded (Z.land buf0 0x3F, false) r
    else if type =? RDB_14BITLEN then
      lbind (rio_get r 1) (fun b r =>
        Loaded (Z.lor (Z.shiftl (Z.land buf0 0x3F) 8) (byte_at b 0), false) r)
    else if buf0 =? RDB_32BITLEN then
      lbind (rio_get r 4) (fun b r => Loaded (be_val b, false) r)
    else if buf0 =? RDB_64BITLEN then
      lbind (rio_get r 8) (fun b r => Loaded (be_val b, false) r)
    else Exited).

(** The callers of [rdbLoadLen] return NULL on [RDB_LENERR], which is also what
    a stored length of 2^64-1 looks like. *)
Definition rdbLoadLen (rdb : rio T) : load (Z * bool) :=
  lbind (rdbLoadLenByRef rdb) (fun x r => if fst x =? RDB_LENERR then IOError else Loaded x r).

Definition has_flag (flags f : Z) : bool := negb (Z.land flags f =? 0).

Definition rdbLoadIntegerObject (rdb : rio T) (enctype flags : Z) : load loaded :=
  let plain := has_flag flags RDB_LOAD_PLAIN in
  let sds := has_flag flags RDB_LOAD_SDS in
  let encode := has_flag flags RDB_LOAD_ENC in
  lbind (if enctype =? RDB_ENC_INT8 then
           lbind (rio_get rdb 1) (fun e r => Loaded (s8 (byte_at e 0)) r)
         else if enctype =? RDB_ENC_INT16 then
           lbind (rio_get rdb 2) (fun e r =>
             Loaded (s16 (Z.lor (byte_at e 0) (Z.shiftl (byte_at e 1) 8))) r)
         else if enctype =? RDB_ENC_INT32 then
           lbind (rio_get rdb 4) (fun e r =>
             Loaded (s32 (Z.lor (Z.lor (Z.lor (byte_at e 0) (Z.shiftl (byte_at e 1) 8))
                                       (Z.shiftl (byte_at e 2) 16)) (Z.shiftl (byte_at e 3) 24))) r)
         else Exited)
    (fun val r =>
       if plain || sds then
         match ('(len, buf) ← ll2string (fresh LONG_STR_SIZE) (Z.of_nat LONG_STR_SIZE) val;
                mem_read buf 0 len) with
         | Some bs => Loaded (Bytes bs) r
         | None => Undefined
         end
       else if encode then Loaded (Obj (OInt val)) r
       else match sdsfromlonglong (fresh SDS_LLSTR_SIZE) val with
            | Some bs => Loaded (Obj (ORaw bs)) r
            | None => Undefined
            end).

Definition rdbLoadLzfStringObject (rdb : rio T) (flags : Z) : load loaded :=
  let plain := has_flag flags RDB_LOAD_PLAIN in
  let sds := has_flag flags RDB_LOAD_SDS in
  lbind (rdbLoadLen rdb) (fun x r =>
    let clen := fst x in
    lbind (rdbLoadLen r) (fun y r =>
      let len := fst y in
      let val := fresh (Z.to_nat len) in
      lbind (rio_get r clen) (fun c r =>
        match Lzf.lzf_decompress (take (Z.to_nat (u32 clen)) c) (take (Z.to_nat (u32 len)) val) with
        | None => Undefined
        | Some (Lzf.Done n out) =>
            if n =? 0 then IOError
            else
              let val := out ++ drop (Z.to_nat (u32 len)) val in
              Loaded (if plain || sds then Bytes val else Obj (ORaw val)) r
        | Some _ => IOError
        end))).

Definition rdbGenericLoadStringObject (rdb : rio T) (flags : Z) : load loaded :=
  let encode := has_flag flags RDB_LOAD_ENC in
  let plain := has_flag flags RDB_LOAD_PLAIN in
  let sds := has_flag flags RDB_LOAD_SDS in
  lbind (rdbLoadLen rdb) (fun x r =>
    let '(len, isencoded) := x in
    if (isencoded : bool) then
      if (len =? RDB_ENC_INT8) || (len =? RDB_ENC_INT16) || (len =? RDB_ENC_INT32)
      then rdbLoadIntegerObject r len flags
      else if len =? RDB_ENC_LZF then rdbLoadLzfStringObject r flags
      else Exited
    else
      lbind (if len =? 0 then Loaded [] r else rio_get r len) (fun bs r =>
        Loaded (if plain || sds then Bytes bs
                else Obj (if encode then createStringObject bs else ORaw bs)) r)).

Definition rdbLoadStringObject (rdb : rio T) : load loaded :=
  rdbGenericLoadStringObject rdb RDB_LOAD_NONE.
Definition rdbLoadEncodedStringObject (rdb : rio T) : load loaded :=
  rdbGenericLoadStringObject rdb RDB_LOAD_ENC.

End Rdb.
Arguments load : clear implicits.
Arguments Loaded {T A}. Arguments IOError {T A}. Arguments Exited {T A}. Arguments Undefined {T A}.

(** ** The encodings *)

Definition len_bytes (len : Z) : list Z :=
  if len <? 64 then [len]
  else if len <? 16384 then [64 + len / 256; len mod 256]
  else if len <=? UINT32_MAX then RDB_32BITLEN :: be_bytes 4 len
  else RDB_64BITLEN :: be_bytes 8 len.

Lemma land_255 x : Z.land x 0xFF = x mod 256.
Proof. change 0xFF with (Z.ones 8). by rewrite Z.land_ones. Qed.

Lemma land_63 x : Z.land x 0x3F = x mod 64.
Proof. change 0x3F with (Z.ones 6). by rewrite Z.land_ones. Qed.

(** The two type bits of the first byte. *)
Lemma type_bits b : 0 <= b < 256 -> Z.shiftr (Z.land b 0xC0) 6 = b / 64.
Proof.
  intros Hb. apply Z.eqb_eq.
  refine (forall_below (fun b => Z.shiftr (Z.land b 0xC0) 6 =? b / 64) 256 _ b Hb).
  vm_compute. reflexivity.
Qed.

Lemma be_bytes_val n x : 0 <= x < 2 ^ (8 * Z.of_nat n) -> be_val (be_bytes n x) = x.
Proof. intros Hx. unfold be_val, be_bytes. rewrite reverse_involutive, le_val_bytes. by apply uN_id. Qed.

Lemma be_bytes_ok n x : bytes_ok (be_bytes n x).
Proof. apply Forall_reverse, le_bytes_ok. Qed.

Lemma be_bytes_zlen n x : zlen (be_bytes n x) = Z.of_nat n.
Proof. unfold be_bytes, zlen. by rewrite length_reverse, le_bytes_length. Qed.

Lemma len_bytes_ok len : 0 <= len -> bytes_ok (len_bytes len).
Proof.
  intros Hl. unfold len_bytes. pose proof (Z.mod_pos_bound len 256 ltac:(lia)).
  destruct (Z.ltb_spec len 64); [constructor; [unfold is_byte; lia|constructor]|].
  destruct (Z.ltb_spec len 16384).
  { assert (len / 256 < 64) by (apply Z.div_lt_upper_bound; lia).
    assert (0 <= len / 256) by (apply Z.div_pos; lia).
    constructor; [unfold is_byte; lia|]. constructor; [done|constructor]. }
  destruct (len <=? UINT32_MAX); (constructor; [split; vm_compute; [discriminate|reflexivity]|]);
    apply be_bytes_ok.
Qed.

Section Writes.
Context {W : Type} `{RioLaws W}.

Definition rdb_ok (rdb : option (rio W)) : Prop := match rdb with Some r => rio_ok r | None => True end.

(** [rdb] is [rdb0] after [enc] was written; NULL stays NULL. *)
Definition wrote (rdb0 rdb : option (rio W)) (enc : list Z) : Prop :=
  match rdb0, rdb with
  | Some r0, Some r => contents (target r) = contents (target r0) ++ enc
  | None, None => True
  | _, _ => False
  end.

Definition fallible (rdb : option (rio W)) : Prop :=
  rdb <> None /\ exists (t : W) bs, r_write t bs = None.

(** A save either failed because the target did, or returned [n] with [enc]
    written. *)
Definition saves (res : option (Z * option (rio W))) (rdb0 : option (rio W)) (n : Z) (enc : list Z) : Prop :=
  (res = None /\ fallible rdb0) \/
  exists rdb, res = Some (n, rdb) /\ rdb_ok rdb /\ wrote rdb0 rdb enc.

Lemma wrote_nil rdb : wrote rdb rdb [].
Proof. destruct rdb; [|done]. simpl. by rewrite app_nil_r. Qed.

Lemma result_ok n (rdb : option (rio W)) : 0 <= n -> result n rdb = Some (n, rdb).
Proof. intros. unfold result. destruct (Z.eqb_spec n (-1)); [lia|done]. Qed.

(** The short writes of the format. *)
Lemma be_short n x : (n <= 9)%nat -> zlen (be_bytes n x) <= INT32_MAX.
Proof. intros. unfold be_bytes, zlen, INT32_MAX. rewrite length_reverse, le_bytes_length. lia. Qed.

Lemma rdbWriteRaw_int rdb0 rdb a p : rdb_ok rdb -> wrote rdb0 rdb a -> bytes_ok p -> s32 (zlen p) <> -1 ->
  saves (rdbWriteRaw rdb p) rdb0 (s32 (zlen p)) (a ++ p).
Proof.
  intros Hok Hw Hp Hl. unfold rdbWriteRaw, result. destruct rdb as [r|], rdb0 as [r0|]; try done.
  - destruct (write_loop_spec (S (length p)) r p Hok Hp ltac:(lia))
      as [[E Hf]|(r' & E & Hr' & Hc & _)]; unfold rioWrite; rewrite E; mrun.
    + left. done.
    + destruct (Z.eqb_spec (s32 (zlen p)) (-1)); [done|].
      right. exists (Some r'). split; [done|]. split; [done|]. simpl in *. by rewrite Hc, Hw, app_assoc.
  - mrun. destruct (Z.eqb_spec (s32 (zlen p)) (-1)); [done|]. right. by exists None.
Qed.

Lemma rdbWriteRaw_spec rdb0 rdb a p : rdb_ok rdb -> wrote rdb0 rdb a -> bytes_ok p -> zlen p <= INT32_MAX ->
  saves (rdbWriteRaw rdb p) rdb0 (zlen p) (a ++ p).
Proof.
  intros Hok Hw Hp Hl. pose proof (zlen_nonneg p).
  assert (E : s32 (zlen p) = zlen p) by (apply s32_id; unfold INT32_MIN; lia).
  rewrite <- E. apply rdbWriteRaw_int; try done. lia.
Qed.

End Writes.

Ltac raw_write := apply rdbWriteRaw_spec;
  [done|first [done|apply wrote_nil]|first [done|by constructor|idtac]|
   first [lia|apply be_short; lia|unfold zlen, INT32_MAX; simpl; lia]].

Section Proofs.
Context {W : Type} `{RioLaws W}.

(** Sequencing of saves. *)
Lemma saves_bind m rdb0 n a (k : Z -> option (rio W) -> option (Z * option (rio W))) n' enc :
  saves m rdb0 n a ->
  (forall rdb, rdb_ok rdb -> wrote rdb0 rdb a -> saves (k n rdb) rdb0 n' enc) ->
  saves ('(n, rdb) ← m; k n rdb) rdb0 n' enc.
Proof.
  intros [[-> Hf]|(rdb & -> & Hok & Hw)] Hk; mrun; [by left|]. by apply Hk.
Qed.

Lemma saves_ret rdb0 rdb n enc : rdb_ok rdb -> wrote rdb0 rdb enc -> saves (Some (n, rdb)) rdb0 n enc.
Proof. intros. right. by exists rdb. Qed.

Lemma len_first_byte len : 0 <= len < 64 -> Z.lor (Z.land len 0xFF) (Z.shiftl RDB_6BITLEN 6) = len.
Proof.
  intros Hl. change (Z.shiftl RDB_6BITLEN 6) with 0. rewrite Z.lor_0_r, land_255. apply Z.mod_small. lia.
Qed.

Lemma len_first_byte14 len : 0 <= len < 16384 ->
  Z.lor (Z.land (Z.shiftr len 8) 0xFF) (Z.shiftl RDB_14BITLEN 6) = 64 + len / 256.
Proof.
  intros Hl. assert (0 <= len / 256 < 64) by (split; [apply Z.div_pos; lia|apply Z.div_lt_upper_bound; lia]).
  rewrite Z.shiftr_div_pow2 by lia. change (2 ^ 8) with 256.
  rewrite land_255, Z.mod_small by lia. rewrite lor_low by (change (2 ^ 6) with 64; lia).
  change (RDB_14BITLEN * 2 ^ 6) with 64. lia.
Qed.

Lemma rdbSaveLen_spec rdb0 rdb a len : rdb_ok rdb -> wrote rdb0 rdb a -> 0 <= len ->
  saves (rdbSaveLen rdb len) rdb0 (zlen (len_bytes len)) (a ++ len_bytes len).
Proof.
  intros Hok Hw Hl. pose proof (len_bytes_ok len Hl) as Hb. revert Hb. unfold rdbSaveLen, len_bytes.
  change (Z.shiftl 1 6) with 64. change (Z.shiftl 1 14) with 16384.
  destruct (Z.ltb_spec len 64); [|destruct (Z.ltb_spec len 16384); [|destruct (Z.leb_spec len UINT32_MAX)]]; intros Hb.
  - rewrite len_first_byte by lia. eapply saves_bind; [raw_write|].
    intros. by apply saves_ret.
  - rewrite len_first_byte14, land_255 by lia. eapply saves_bind; [raw_write|].
    intros. by apply saves_ret.
  - apply Forall_cons in Hb as [Hb0 Hb]. rewrite zlen_cons, be_bytes_zlen.
    eapply saves_bind; [raw_write|]. intros r1 Hr1 Hw1.
    eapply saves_bind; [raw_write|]. intros. apply saves_ret; [done|].
    by rewrite <- app_assoc in *.
  - apply Forall_cons in Hb as [Hb0 Hb]. rewrite zlen_cons, be_bytes_zlen.
    eapply saves_bind; [raw_write|]. intros r1 Hr1 Hw1.
    eapply saves_bind; [raw_write|]. intros. apply saves_ret; [done|].
    by rewrite <- app_assoc in *.
Qed.

End Proofs.

(** ** Reading back *)

Section Reader.
Context {R : Type} `{RioLaws R}.

(** A stream with exactly the bytes [u] ahead. *)
Definition ahead (r : rio R) (u : list Z) : Prop :=
  rio_ok r /\ unread (target r) = u /\ bytes_ok u.

Lemma rio_get_spec r bs rest n : ahead r (bs ++ rest) -> n = zlen bs ->
  exists r', rio_get r n = Loaded bs r' /\ ahead r' rest.
Proof.
  intros (Hok & Hu & Hb) ->. pose proof (zlen_nonneg bs). pose proof (zlen_nonneg rest).
  destruct (read_loop_spec (S (Z.to_nat (zlen bs))) r (zlen bs) [] Hok) as (r' & E & Hok' & Hu' & _).
  { by rewrite Hu. }
  { rewrite Hu, zlen_app. lia. }
  { lia. }
  unfold rio_get, rioRead. rewrite E, Hu in *. unfold zlen in *. rewrite Nat2Z.id in *.
  rewrite app_nil_l, take_app_length in *. exists r'. split; [done|].
  rewrite drop_app_length in Hu'. split; [done|]. split; [done|]. by apply Forall_app in Hb as [_ ?].
Qed.

(** Run the next read of a load. *)
Ltac get := match goal with
  | Ha : ahead ?r (?bs ++ ?rest) |- context [rio_get ?r ?n] =>
      let E := fresh "Eget" in
      destruct (rio_get_spec r bs rest n Ha) as (? & E & ?);
      [unfold zlen; simpl; try lia|rewrite E; clear E; cbn [lbind]]
  end.

Lemma rdbLoadLenByRef_spec r len rest : 0 <= len <= ULLONG_MAX -> ahead r (len_bytes len ++ rest) ->
  exists r', rdbLoadLenByRef r = Loaded (len, false) r' /\ ahead r' rest.
Proof.
  unfold ULLONG_MAX. intros Hl Ha. unfold rdbLoadLenByRef. revert Ha. unfold len_bytes, UINT32_MAX.
  destruct (Z.ltb_spec len 64); [|destruct (Z.ltb_spec len 16384)].
  - intros Ha. get. unfold byte_at. simpl default. rewrite type_bits, Z.div_small, land_63, Z.mod_small by lia.
    eauto.
  - intros Ha. assert (Hq : 0 <= len / 256 < 64) by (split; [apply Z.div_pos; lia|apply Z.div_lt_upper_bound; lia]).
    change ([64 + len / 256; len mod 256] ++ rest) with ([64 + len / 256] ++ [len mod 256] ++ rest) in Ha.
    get. unfold byte_at. simpl default. rewrite type_bits, land_63 by lia.
    replace ((64 + len / 256) / 64) with 1 by (apply Z.div_unique with (len / 256); lia).
    replace ((64 + len / 256) mod 64) with (len / 256) by (apply Z.mod_unique with 1; lia). cbn [Z.eqb].
    change (1 =? RDB_ENCVAL) with false. change (1 =? RDB_6BITLEN) with false.
    change (1 =? RDB_14BITLEN) with true. cbv iota. get. simpl default.
    rewrite Z.lor_comm, lor_low by (lia || (change (2 ^ 8) with 256; apply Z.mod_pos_bound; lia)).
    change (2 ^ 8) with 256. pose proof (Z.div_mod len 256 ltac:(lia)).
    replace (len mod 256 + len / 256 * 256) with len by lia. eauto.
  - destruct (Z.leb_spec len 4294967295); intros Ha.
    + change ((RDB_32BITLEN :: be_bytes 4 len) ++ rest) with ([RDB_32BITLEN] ++ be_bytes 4 len ++ rest) in Ha.
      get. change (byte_at [RDB_32BITLEN] 0) with RDB_32BITLEN. cbv zeta.
      change (Z.shiftr (Z.land RDB_32BITLEN 0xC0) 6) with 2. simpl Z.eqb. cbv iota.
      get. rewrite be_bytes_val by (simpl; lia). eauto.
    + change ((RDB_64BITLEN :: be_bytes 8 len) ++ rest) with ([RDB_64BITLEN] ++ be_bytes 8 len ++ rest) in Ha.
      get. change (byte_at [RDB_64BITLEN] 0) with RDB_64BITLEN. cbv zeta.
      change (Z.shiftr (Z.land RDB_64BITLEN 0xC0) 6) with 2. simpl Z.eqb. cbv iota.
      get. rewrite be_bytes_val by (simpl; lia). eauto.
Qed.

Lemma rdbLoadLen_spec r len rest : 0 <= len < ULLONG_MAX -> ahead r (len_bytes len ++ rest) ->
  exists r', rdbLoadLen r = Loaded (len, false) r' /\ ahead r' rest.
Proof.
  intros Hl Ha. destruct (rdbLoadLenByRef_spec r len rest ltac:(lia) Ha) as (r' & E & Ha').
  unfold rdbLoadLen. rewrite E. cbn [lbind fst]. unfold RDB_LENERR.
  rewrite (proj2 (Z.eqb_neq len ULLONG_MAX)) by lia. eauto.
Qed.

End Reader.

(** ** Integers *)

Definition in_s32 (v : Z) : Prop := INT32_MIN <= v <= INT32_MAX.

Lemma in_s32_s64 v : in_s32 v -> in_s64 v.
Proof. unfold in_s32, in_s64, INT32_MIN, INT32_MAX, LLONG_MIN, LLONG_MAX. lia. Qed.

(** The three widths: the type and the little-endian bytes. *)
Definition int_width (v : Z) : option (Z * nat) :=
  if (-128 <=? v) && (v <=? 127) then Some (RDB_ENC_INT8, 1%nat)
  else if (-32768 <=? v) && (v <=? 32767) then Some (RDB_ENC_INT16, 2%nat)
  else if (INT32_MIN <=? v) && (v <=? INT32_MAX) then Some (RDB_ENC_INT32, 4%nat)
  else None.

Lemma rdbEncodeInteger_bytes v :
  rdbEncodeInteger v = match int_width v with Some (t, n) => 192 + t :: le_bytes n v | None => [] end.
Proof.
  unfold rdbEncodeInteger, int_width. rewrite !Z.geb_leb, !land_255.
  change (- Z.shiftl 1 7) with (-128). change (Z.shiftl 1 7 - 1) with 127.
  change (- Z.shiftl 1 15) with (-32768). change (Z.shiftl 1 15 - 1) with 32767.
  change (- Z.shiftl 1 31) with INT32_MIN. change (Z.shiftl 1 31 - 1) with INT32_MAX.
  destruct (_ && _); [done|]. rewrite !Z.shiftr_div_pow2 by lia. change (2 ^ 8) with 256.
  destruct (_ && _); [done|]. destruct (_ && _); [|done]. cbn [le_bytes].
  rewrite !Z.div_div by lia. done.
Qed.

Lemma int_width_Some v t n : int_width v = Some (t, n) ->
  in_s32 v /\ - 2 ^ (8 * Z.of_nat n - 1) <= v < 2 ^ (8 * Z.of_nat n - 1) /\
  (t = RDB_ENC_INT8 /\ n = 1%nat \/ t = RDB_ENC_INT16 /\ n = 2%nat \/ t = RDB_ENC_INT32 /\ n = 4%nat).
Proof.
  unfold int_width, in_s32, INT32_MIN, INT32_MAX. intros E.
  repeat (zcase_in E; [injection E as <- <-; simpl; lia|]). done.
Qed.

Lemma int_width_None v : int_width v = None -> ~ in_s32 v.
Proof.
  unfold int_width, in_s32, INT32_MIN, INT32_MAX. intros E.
  zcase_in E; [done|]. zcase_in E; [done|]. zcase_in E; [done|].
  apply andb_false_iff in Hb1. rewrite !Z.leb_gt in Hb1. lia.
Qed.

Lemma rdbEncodeInteger_ok v : bytes_ok (rdbEncodeInteger v).
Proof.
  rewrite rdbEncodeInteger_bytes. destruct (int_width v) as [[t n]|] eqn:E; [|constructor].
  apply int_width_Some in E as (_ & _ & Ht). constructor; [|apply le_bytes_ok].
  unfold is_byte. unfold RDB_ENC_INT8, RDB_ENC_INT16, RDB_ENC_INT32 in Ht. lia.
Qed.

Lemma rdbEncodeInteger_short v : zlen (rdbEncodeInteger v) <= INT32_MAX.
Proof. unfold rdbEncodeInteger, zlen, INT32_MAX. repeat destruct (_ && _); simpl; lia. Qed.

(** The expressions of the loader put the bytes together again. *)
Lemma join16 a b : is_byte a -> is_byte b -> Z.lor a (Z.shiftl b 8) = le_val [a; b].
Proof. unfold is_byte. intros. rewrite lor_low by lia. simpl. lia. Qed.

Lemma join32 a b c d : is_byte a -> is_byte b -> is_byte c -> is_byte d ->
  Z.lor (Z.lor (Z.lor a (Z.shiftl b 8)) (Z.shiftl c 16)) (Z.shiftl d 24) = le_val [a; b; c; d].
Proof.
  unfold is_byte. intros. rewrite (lor_low 8) by lia. rewrite (lor_low 16) by lia.
  rewrite (lor_low 24) by lia. simpl. lia.
Qed.

Section Strings.
Context {R : Type} `{RioLaws R}.
Context (fresh : nat -> list Z) (htab0 : Z -> Z).
Hypothesis fresh_length : forall n, length (fresh n) = n.

(** A load that returned an object for [s] and left [rest]. *)
Definition loads (m : load R loaded) (s rest : list Z) : Prop :=
  exists l r', m = Loaded l r' /\ value l = s /\ ahead r' rest.

Lemma ll2string_fresh n v : in_s64 v -> (21 <= n)%nat ->
  exists rest, ll2string (fresh n) (Z.of_nat n) v = Some (zlen (dec v), dec v ++ 0 :: rest).
Proof.
  intros Hv Hn. pose proof (dec_zlen v Hv).
  rewrite ll2string_spec; [|done|unfold zlen; rewrite fresh_length; lia]. zif_false. by eexists.
Qed.

Lemma le_val_s n v : (1 <= n)%nat -> - 2 ^ (8 * Z.of_nat n - 1) <= v < 2 ^ (8 * Z.of_nat n - 1) ->
  sN (8 * Z.of_nat n) (le_val (le_bytes n v)) = v.
Proof using. intros Hn Hv. rewrite le_val_bytes. apply sN_uN; [lia|done]. Qed.

Lemma rdbLoadIntegerObject_spec r v t n rest flags : int_width v = Some (t, n) ->
  ahead r (le_bytes n v ++ rest) -> loads (rdbLoadIntegerObject fresh r t flags) (dec v) rest.
Proof.
  intros Ew Ha. apply int_width_Some in Ew as (H32 & Hr & Ht). apply in_s32_s64 in H32 as H64.
  destruct (rio_get_spec r (le_bytes n v) rest (Z.of_nat n) Ha) as (r' & E & Ha');
    [by rewrite le_bytes_zlen|].
  assert (Hval : forall r, ahead r rest -> forall pl sd en : bool, loads
    (if pl || sd then
       match ('(len, buf) ← ll2string (fresh LONG_STR_SIZE) (Z.of_nat LONG_STR_SIZE) v; mem_read buf 0 len) with
       | Some bs => Loaded (Bytes bs) r
       | None => Undefined
       end
     else if en then Loaded (Obj (OInt v)) r
     else match sdsfromlonglong (fresh SDS_LLSTR_SIZE) v with
          | Some bs => Loaded (Obj (ORaw bs)) r
          | None => Undefined
          end) (dec v) rest).
  { intros r0 Hr0 pl sd en. destruct (pl || sd); [|destruct en].
    - destruct (ll2string_fresh LONG_STR_SIZE v H64 ltac:(unfold LONG_STR_SIZE; lia)) as (x & ->). mrun.
      pose proof (mem_read_app [] (dec v) (0 :: x)) as Em. change (zlen (@nil Z)) with 0 in Em.
      simpl app in Em. rewrite Em. by exists (Bytes (dec v)), r0.
    - by exists (Obj (OInt v)), r0.
    - unfold sdsfromlonglong. pose proof (dec_zlen v H64).
      destruct (sdsll2str_spec (fresh SDS_LLSTR_SIZE) v) as (x & -> & _).
      { unfold in_s32, INT32_MIN, INT32_MAX in H32. unfold LLONG_MIN, LLONG_MAX. lia. }
      { unfold zlen in *. rewrite fresh_length. unfold SDS_LLSTR_SIZE. lia. }
      mrun. pose proof (mem_read_app [] (dec v) (0 :: x)) as Em. change (zlen (@nil Z)) with 0 in Em.
      simpl app in Em. rewrite Em. by exists (Obj (ORaw (dec v))), r0. }
  pose proof (le_bytes_ok n v) as Hb. pose proof (fun Hn => le_val_s n v Hn Hr) as Hs.
  unfold rdbLoadIntegerObject. destruct Ht as [[-> ->]|[[-> ->]|[-> ->]]]; cbv zeta.
  - change (RDB_ENC_INT8 =? RDB_ENC_INT8) with true. cbv iota. change (Z.of_nat 1) with 1 in E.
    rewrite E. cbn [lbind]. replace (s8 (byte_at (le_bytes 1 v) 0)) with v; [by apply Hval|].
    rewrite <- (Hs ltac:(lia)) at 1. f_equal. change (byte_at (le_bytes 1 v) 0) with (v mod 256).
    change (le_val (le_bytes 1 v)) with (v mod 256 + 0). lia.
  - change (RDB_ENC_INT16 =? RDB_ENC_INT8) with false. change (RDB_ENC_INT16 =? RDB_ENC_INT16) with true.
    cbv iota. change (Z.of_nat 2) with 2 in E. rewrite E. cbn [lbind le_bytes] in *.
    do 2 apply Forall_cons in Hb as [? Hb]. unfold byte_at. cbn [lookup list_lookup default].
    simpl default. rewrite join16 by done. specialize (Hs ltac:(lia)).
    change (8 * Z.of_nat 2) with 16 in Hs. unfold id. rewrite Hs. by apply Hval.
  - change (RDB_ENC_INT32 =? RDB_ENC_INT8) with false. change (RDB_ENC_INT32 =? RDB_ENC_INT16) with false.
    change (RDB_ENC_INT32 =? RDB_ENC_INT32) with true.
    cbv iota. change (Z.of_nat 4) with 4 in E. rewrite E. cbn [lbind le_bytes] in *.
    do 4 apply Forall_cons in Hb as [? Hb]. unfold byte_at. simpl default.
    rewrite join32 by done. specialize (Hs ltac:(lia)).
    change (8 * Z.of_nat 4) with 32 in Hs. unfold id. rewrite Hs. by apply Hval.
Qed.

(** Only canonical decimal strings are encoded, whatever strtoll accepts. *)
Lemma rdbTryIntegerEncoding_spec s :
  rdbTryIntegerEncoding fresh s
  = Some (match string2ll s with Some v => rdbEncodeInteger v | None => [] end).
Proof using fresh_length.
  unfold rdbTryIntegerEncoding. pose proof (strtoll_end s) as Hend. pose proof (strtoll_range (s ++ [0])) as Hr.
  destruct (strtoll (s ++ [0])) as [[v e] cv] eqn:Es. cbn [fst] in Hr.
  destruct (zget_Some (s ++ [0]) e) as [c Ec]; [rewrite zlen_app; change (zlen [0]) with 1; lia|].
  rewrite Ec. mrun. destruct (string2ll s) as [w|] eqn:E2.
  - apply string2ll_spec in E2 as [Hw ->].
    rewrite strtoll_dec in Es by done. injection Es as <- <- <-.
    rewrite zget_app in Ec by done. injection Ec as <-. rewrite Z.eqb_refl. cbn [negb].
    destruct (ll2string_fresh 32 w Hw ltac:(lia)) as (x & E). change (Z.of_nat 32) with 32 in E. rewrite E. mrun.
    rewrite strlen_app by (by apply dec_nonzero). mrun. rewrite Z.eqb_refl. cbn [negb].
    pose proof (mem_read_app [] (dec w) (0 :: x)) as Em. change (zlen (@nil Z)) with 0 in Em.
    simpl app in Em. rewrite Em. mrun. by rewrite bool_decide_eq_true_2.
  - destruct (negb (c =? 0)); [done|].
    destruct (ll2string_fresh 32 v Hr ltac:(lia)) as (x & E). change (Z.of_nat 32) with 32 in E. rewrite E. mrun.
    rewrite strlen_app by (by apply dec_nonzero). mrun.
    destruct (Z.eqb_spec (zlen (dec v)) (zlen s)) as [Hz|]; [cbn [negb]|done].
    pose proof (mem_read_app [] (dec v) (0 :: x)) as Em. change (zlen (@nil Z)) with 0 in Em.
    simpl app in Em. rewrite Hz in Em. rewrite Em. mrun.
    rewrite bool_decide_eq_false_2; [done|]. intros E'.
    assert (string2ll s = Some v) by (apply string2ll_spec; split; [done|by rewrite E']). congruence.
Qed.

Lemma first_byte_enc t : 0 <= t < 64 ->
  Z.shiftr (Z.land (192 + t) 0xC0) 6 = RDB_ENCVAL /\ Z.land (192 + t) 0x3F = t.
Proof using.
  intros Ht. rewrite type_bits, land_63 by lia. unfold RDB_ENCVAL. split.
  - symmetry. apply Z.div_unique with t; lia.
  - symmetry. apply Z.mod_unique with 3; lia.
Qed.

(** An encoded string: the type byte selects the loader. *)
Lemma load_encoded r t rest flags : 0 <= t < 4 -> ahead r (192 + t :: rest) ->
  exists r', ahead r' rest /\ rdbGenericLoadStringObject fresh r flags =
    if t =? RDB_ENC_LZF then rdbLoadLzfStringObject fresh r' flags
    else rdbLoadIntegerObject fresh r' t flags.
Proof using.
  intros Ht Ha. destruct (first_byte_enc t ltac:(lia)) as [E1 E2].
  change (192 + t :: rest) with ([192 + t] ++ rest) in Ha.
  destruct (rio_get_spec r [192 + t] rest 1 Ha eq_refl) as (r' & E & Ha'). exists r'. split; [done|].
  unfold rdbGenericLoadStringObject, rdbLoadLen, rdbLoadLenByRef. rewrite E. cbn [lbind].
  change (byte_at [192 + t] 0) with (192 + t). cbv zeta. rewrite E1, E2, Z.eqb_refl. cbn [lbind fst].
  unfold RDB_LENERR, ULLONG_MAX. rewrite (proj2 (Z.eqb_neq t 18446744073709551615)) by lia. cbn [lbind].
  unfold RDB_ENC_INT8, RDB_ENC_INT16, RDB_ENC_INT32, RDB_ENC_LZF in *.
  assert (t = 0 \/ t = 1 \/ t = 2 \/ t = 3) as [->|[->|[->| ->]]] by lia; done.
Qed.

Lemma load_integer r v rest flags : in_s32 v -> ahead r (rdbEncodeInteger v ++ rest) ->
  loads (rdbGenericLoadStringObject fresh r flags) (dec v) rest.
Proof using fresh_length.
  intros Hv Ha. rewrite rdbEncodeInteger_bytes in Ha.
  destruct (int_width v) as [[t n]|] eqn:Ew; [|by apply int_width_None in Ew].
  apply int_width_Some in Ew as Hw. destruct Hw as (_ & _ & Ht).
  rewrite <- app_comm_cons in Ha. unfold RDB_ENC_INT8, RDB_ENC_INT16, RDB_ENC_INT32 in Ht.
  destruct (load_encoded r t (le_bytes n v ++ rest) flags ltac:(lia) Ha) as (r' & Ha' & ->).
  rewrite (proj2 (Z.eqb_neq t RDB_ENC_LZF)) by (unfold RDB_ENC_LZF; lia).
  by apply (rdbLoadIntegerObject_spec r' v t n).
Qed.

Lemma load_verbatim r s rest flags : zlen s < ULLONG_MAX -> ahead r (len_bytes (zlen s) ++ s ++ rest) ->
  loads (rdbGenericLoadStringObject fresh r flags) s rest.
Proof using.
  intros Hs Ha. pose proof (zlen_nonneg s). unfold rdbGenericLoadStringObject.
  destruct (rdbLoadLen_spec r (zlen s) (s ++ rest) ltac:(lia) Ha) as (r' & -> & Ha'). cbn [lbind].
  assert (Hget : exists r2, (if zlen s =? 0 then Loaded [] r' else rio_get r' (zlen s)) = Loaded s r2 /\ ahead r2 rest).
  { destruct (Z.eqb_spec (zlen s) 0) as [E0|E0].
    - destruct s; [by exists r'|unfold zlen in E0; simpl in E0; lia].
    - by apply rio_get_spec. }
  destruct Hget as (r2 & -> & Ha2). cbn [lbind]. eexists _, r2. split; [reflexivity|]. split; [|done].
  unfold createStringObject. destruct (_ || _); [done|]. destruct (has_flag flags RDB_LOAD_ENC); [|done].
  by destruct (_ <=? _).
Qed.

Lemma load_lzf r data s rest flags : 0 < zlen data < 2 ^ 32 -> 0 < zlen s < 2 ^ 32 ->
  Lzf.lzf_decompress data (fresh (length s)) = Some (Lzf.Done (zlen s) s) ->
  ahead r (195 :: len_bytes (zlen data) ++ len_bytes (zlen s) ++ data ++ rest) ->
  loads (rdbGenericLoadStringObject fresh r flags) s rest.
Proof using fresh_length.
  intros Hd Hs Hlzf Ha.
  destruct (load_encoded r 3 _ flags ltac:(lia) Ha) as (r' & Ha' & ->).
  change (3 =? RDB_ENC_LZF) with true. cbv iota. unfold rdbLoadLzfStringObject. cbv zeta.
  destruct (rdbLoadLen_spec r' (zlen data) _ ltac:(unfold ULLONG_MAX; lia) Ha') as (r1 & -> & Ha1). cbn [lbind fst].
  destruct (rdbLoadLen_spec r1 (zlen s) _ ltac:(unfold ULLONG_MAX; lia) Ha1) as (r2 & -> & Ha2). cbn [lbind fst].
  destruct (rio_get_spec r2 data rest (zlen data) Ha2 eq_refl) as (r3 & -> & Ha3). cbn [lbind].
  rewrite !u32_id by lia. unfold zlen. rewrite !Nat2Z.id.
  rewrite (take_ge data), (take_ge (fresh _)) by (rewrite ?fresh_length; lia). rewrite Hlzf.
  rewrite (proj2 (Z.eqb_neq (zlen s) 0)) by lia.
  rewrite drop_ge by (rewrite fresh_length; lia). rewrite app_nil_r.
  eexists _, r3. split; [reflexivity|]. split; [|done]. by destruct (_ || _).
Qed.

End Strings.

(** The compressed block consists of bytes. *)
Lemma back_prefix n : forall o off, exists t, Lzf.back n o off = o ++ t.
Proof.
  induction n as [|n IH]; intros o off; [exists []; by rewrite app_nil_r|].
  simpl. destruct (IH (o ++ [default 0 (zget o (zlen o - off - 1))]) off) as [t ->].
  eexists. by rewrite <- app_assoc.
Qed.

Lemma expand_prefix ts : forall o, exists t, Lzf.expand o ts = o ++ t.
Proof.
  induction ts as [|t ts IH]; intros o; [exists []; by rewrite app_nil_r|].
  change (Lzf.expand o (t :: ts)) with (Lzf.expand (Lzf.expand1 o t) ts).
  destruct (IH (Lzf.expand1 o t)) as [x ->]. destruct t as [bs|off len]; simpl.
  - eexists. by rewrite <- app_assoc.
  - destruct (back_prefix (Z.to_nat (len + 2)) o off) as [y ->]. eexists. by rewrite <- app_assoc.
Qed.

Lemma encode_bytes ts : forall o, Lzf.toks_ok o ts -> bytes_ok (Lzf.expand o ts) -> bytes_ok (Lzf.encode ts).
Proof.
  induction ts as [|t ts IH]; intros o Hok Hb; [constructor|]. destruct Hok as [Ht Hts].
  change (Lzf.encode (t :: ts)) with (Lzf.enc t ++ Lzf.encode ts). apply Forall_app. split; [|by eapply IH].
  change (Lzf.expand o (t :: ts)) with (Lzf.expand (Lzf.expand1 o t) ts) in Hb.
  destruct (expand_prefix ts (Lzf.expand1 o t)) as [x E]. rewrite E in Hb. apply Forall_app in Hb as [Hb _].
  destruct t as [bs|off len]; simpl in *.
  - apply Forall_app in Hb as [_ Hb]. constructor; [unfold is_byte; lia|done].
  - pose proof (Z.mod_pos_bound off 256 ltac:(lia)).
    assert (0 <= off / 256 < 32) by (split; [apply Z.div_pos; lia|apply Z.div_lt_upper_bound; lia]).
    destruct (Z.ltb_spec len 7); repeat (constructor; [unfold is_byte; lia|]); constructor.
Qed.

(** ** The round trip *)

Section Roundtrip.
Context {W : Type} `{RioLaws W} {R : Type} `{RioLaws R}.
Context (fresh : nat -> list Z) (htab0 : Z -> Z).
Hypothesis fresh_length : forall n, length (fresh n) = n.

(** The format of a compressed string. *)
Definition lzf_format (data s : list Z) : list Z :=
  195 :: len_bytes (zlen data) ++ len_bytes (zlen s) ++ data.

Lemma rdbSaveLzfBlob_spec (rdb : option (rio W)) data s : rdb_ok rdb -> bytes_ok data -> zlen data <= INT32_MAX ->
  saves (rdbSaveLzfBlob rdb data (zlen data) (zlen s)) rdb (zlen (lzf_format data s)) (lzf_format data s).
Proof using.
  intros Hok Hd Hl. unfold rdbSaveLzfBlob. pose proof (zlen_nonneg data). pose proof (zlen_nonneg s).
  change (Z.lor (Z.shiftl RDB_ENCVAL 6) RDB_ENC_LZF) with 195. cbv zeta.
  eapply saves_bind; [raw_write|].
  intros r1 Hr1 Hw1. eapply saves_bind; [by apply rdbSaveLen_spec|].
  intros r2 Hr2 Hw2. eapply saves_bind; [by apply rdbSaveLen_spec|].
  intros r3 Hr3 Hw3. eapply saves_bind; [raw_write|].
  intros r4 Hr4 Hw4. unfold lzf_format. rewrite <- !app_assoc in Hw4.
  change (zlen [195]) with 1. rewrite zlen_cons, !zlen_app.
  replace (1 + (zlen (len_bytes (zlen data)) + (zlen (len_bytes (zlen s)) + zlen data)))
    with (1 + zlen (len_bytes (zlen data)) + zlen (len_bytes (zlen s)) + zlen data) by lia.
  pose proof (zlen_nonneg (len_bytes (zlen data))). pose proof (zlen_nonneg (len_bytes (zlen s))). rewrite result_ok by lia.
  by apply saves_ret.
Qed.

Lemma rdbSaveLzfStringObject_spec (rdb : option (rio W)) s : rdb_ok rdb -> bytes_ok s -> 20 < zlen s <= INT32_MAX ->
  rdbSaveLzfStringObject fresh htab0 rdb s = Some (Some (0, rdb)) \/
  exists res data, rdbSaveLzfStringObject fresh htab0 rdb s = Some res /\
    saves res rdb (zlen (lzf_format data s)) (lzf_format data s) /\ 0 < zlen data < 2 ^ 32 /\
    Lzf.lzf_decompress data (fresh (length s)) = Some (Lzf.Done (zlen s) s) /\ bytes_ok data.
Proof using fresh_length.
  intros Hok Hs Hlen. unfold INT32_MAX in Hlen. unfold rdbSaveLzfStringObject. rewrite (proj2 (Z.leb_gt (zlen s) 4)) by lia.
  rewrite !u32_id by lia. rewrite take_ge by (unfold zlen; lia).
  set (out0 := take (Z.to_nat (zlen s - 4)) _).
  assert (Hout : zlen out0 = zlen s - 4).
  { unfold out0, zlen in *. rewrite length_take, fresh_length. lia. }
  destruct (Lzf.lzf_compress_spec htab0 s out0 ltac:(lia)) as (k & o & -> & Ho & Hk & Hc). mrun.
  destruct (Z.eqb_spec k 0) as [->|Hk0]; [by left|]. right.
  destruct (Hc Hk0) as (ts & rest & -> & <- & Hts & Hex).
  pose proof (mem_read_app [] (Lzf.encode ts) rest) as Em. change (zlen (@nil Z)) with 0 in Em.
  simpl app in Em. rewrite Em. mrun.
  assert (Hb : bytes_ok (Lzf.encode ts)) by (apply (encode_bytes ts []); [done|by rewrite Hex]).
  eexists _, _. split; [reflexivity|]. split; [apply rdbSaveLzfBlob_spec; [done..|unfold INT32_MAX; lia]|].
  pose proof (zlen_nonneg (Lzf.encode ts)). split; [lia|]. split; [|done].
  rewrite Lzf.decompress_correct; [|done| |rewrite Hex; unfold zlen; rewrite fresh_length; lia].
  - rewrite Hex, drop_ge, app_nil_r by (rewrite fresh_length; lia). done.
  - intros ->. change (zlen (Lzf.encode [])) with 0 in *. lia.
Qed.

(** What [rdbSaveRawString] writes and that loading it gives the string back. *)
Lemma rdbSaveRawString_spec compression (rdb : option (rio W)) s :
  rdb_ok rdb -> bytes_ok s -> zlen s <= INT32_MAX ->
  exists res enc, rdbSaveRawString fresh htab0 compression rdb s = Some res /\ bytes_ok enc /\
    saves res rdb (zlen enc) enc /\
    forall (r : rio R) flags rest, ahead r (enc ++ rest) ->
      loads (rdbGenericLoadStringObject fresh r flags) s rest.
Proof using fresh_length.
  intros Hok Hs Hlen. pose proof (zlen_nonneg s). unfold rdbSaveRawString.
  rewrite rdbTryIntegerEncoding_spec by done.
  set (enc := match string2ll s with Some v => rdbEncodeInteger v | None => [] end).
  assert (Henc : exists e, (if zlen s <=? 11 then Some enc else Some []) = Some e /\
    (e = [] \/ exists v, in_s32 v /\ s = dec v /\ e = rdbEncodeInteger v)).
  { destruct (zlen s <=? 11); [|by exists []; split; [done|left]]. exists enc. split; [done|].
    unfold enc. destruct (string2ll s) as [v|] eqn:Es; [|by left].
    apply string2ll_spec in Es as [_ Es]. destruct (int_width v) as [[t n]|] eqn:Ew.
    - right. exists v. apply int_width_Some in Ew as (? & _). done.
    - left. by rewrite rdbEncodeInteger_bytes, Ew. }
  destruct Henc as (e & -> & He). mrun. destruct (Z.gtb_spec (zlen e) 0) as [Hpos|Hz].
  { destruct He as [->|(v & Hv & -> & ->)]; [by vm_compute in Hpos|].
    pose proof (rdbEncodeInteger_ok v) as Hb. eexists _, (rdbEncodeInteger v). split; [reflexivity|].
    split; [done|]. split; [|intros; by apply load_integer].
    apply (rdbWriteRaw_spec rdb rdb []); [done|apply wrote_nil|done|apply rdbEncodeInteger_short]. }
  clear He Hz e. clearbody enc. clear enc.
  assert (Hverb : exists res enc, Some ('(n, rdb) ← rdbSaveLen rdb (zlen s);
      if zlen s >? 0 then '(_, rdb) ← rdbWriteRaw rdb s; Some (n + zlen s, rdb) else Some (n, rdb)) = Some res /\
    bytes_ok enc /\ saves res rdb (zlen enc) enc /\
    forall (r : rio R) flags rest, ahead r (enc ++ rest) ->
      loads (rdbGenericLoadStringObject fresh r flags) s rest).
  { eexists _, (len_bytes (zlen s) ++ s). split; [reflexivity|].
    split; [apply Forall_app; split; [by apply len_bytes_ok|done]|]. split.
    - eapply saves_bind; [apply (rdbSaveLen_spec rdb rdb []); [done|apply wrote_nil|done]|].
      intros r1 Hr1 Hw1. rewrite zlen_app. destruct (Z.gtb_spec (zlen s) 0) as [Hp|Hp].
      + eapply saves_bind; [raw_write|]. intros r2 Hr2 Hw2. by apply saves_ret.
      + destruct s; [|unfold zlen in Hp; simpl in Hp; lia]. rewrite app_nil_r. change (zlen []) with 0.
        rewrite Z.add_0_r. by apply saves_ret.
    - intros r flags rest Ha. rewrite <- app_assoc in Ha. apply load_verbatim; [unfold ULLONG_MAX; unfold INT32_MAX in Hlen; lia|done]. }
  destruct (compression && (zlen s >? 20)) eqn:Hc; [|exact Hverb]. zbool.
  destruct (rdbSaveLzfStringObject_spec rdb s Hok Hs ltac:(lia))
    as [->|(res & data & -> & Hsave & Hdl & Hdec & Hdb)]; mrun; [exact Hverb|].
  pose proof (len_bytes_ok (zlen data) ltac:(lia)) as Hb1. pose proof (len_bytes_ok (zlen s) ltac:(lia)) as Hb2.
  assert (Hload : forall (r : rio R) flags rest, ahead r (lzf_format data s ++ rest) ->
    loads (rdbGenericLoadStringObject fresh r flags) s rest).
  { intros r flags rest Ha. unfold lzf_format in Ha. rewrite <- app_comm_cons, <- !app_assoc in Ha.
    apply (load_lzf fresh fresh_length r data); [done|unfold INT32_MAX in Hlen; lia|done|done]. }
  assert (Hbytes : bytes_ok (lzf_format data s)).
  { constructor; [unfold is_byte; lia|]. apply Forall_app. split; [done|]. apply Forall_app. done. }
  destruct Hsave as [[-> Hf]|(rdb' & -> & Hok' & Hw')].
  - exists None, (lzf_format data s). split; [done|]. split; [done|]. split; [by left|done].
  - rewrite (proj2 (Z.gtb_gt _ _)) by (unfold lzf_format; rewrite zlen_cons;
      pose proof (zlen_nonneg (len_bytes (zlen data) ++ len_bytes (zlen s) ++ data)); lia).
    eexists _, (lzf_format data s). split; [reflexivity|]. split; [done|]. split; [|done].
    right. by exists rdb'.
Qed.

Lemma rdbSaveLongLong_spec (rdb : option (rio W)) v : rdb_ok rdb -> in_s64 v ->
  exists res enc, rdbSaveLongLongAsStringObject fresh rdb v = Some res /\ saves res rdb (zlen enc) enc /\
    forall (r : rio R) flags rest, ahead r (enc ++ rest) ->
      loads (rdbGenericLoadStringObject fresh r flags) (dec v) rest.
Proof using fresh_length.
  intros Hok Hv. unfold rdbSaveLongLongAsStringObject. cbv zeta. pose proof (dec_zlen v Hv) as Hz.
  destruct (Z.gtb_spec (zlen (rdbEncodeInteger v)) 0) as [Hp|Hp].
  - assert (H32 : in_s32 v).
    { rewrite rdbEncodeInteger_bytes in Hp. destruct (int_width v) as [[t n]|] eqn:E; [|by vm_compute in Hp].
      by apply int_width_Some in E as [? _]. }
    pose proof (rdbEncodeInteger_ok v) as Hb. eexists _, (rdbEncodeInteger v). split; [reflexivity|].
    split; [|intros; by apply load_integer].
    apply (rdbWriteRaw_spec rdb rdb []); [done|apply wrote_nil|done|apply rdbEncodeInteger_short].
  - destruct (ll2string_fresh fresh fresh_length 32 v Hv ltac:(lia)) as (x & E).
    change (Z.of_nat 32) with 32 in E. rewrite E. mrun. rewrite (proj2 (Z.ltb_lt _ _)) by lia.
    pose proof (mem_read_app [] (dec v) (0 :: x)) as Em. change (zlen (@nil Z)) with 0 in Em.
    simpl app in Em. rewrite Em. mrun.
    eexists _, (len_bytes (zlen (dec v)) ++ dec v). split; [reflexivity|]. split.
    + eapply saves_bind; [apply (rdbSaveLen_spec rdb rdb []); [done|apply wrote_nil|lia]|].
      intros r1 Hr1 Hw1. eapply saves_bind; [apply rdbWriteRaw_spec; [done|done|by apply dec_bytes|unfold INT32_MAX; lia]|].
      intros r2 Hr2 Hw2. rewrite zlen_app. by apply saves_ret.
    + intros r flags rest Ha. rewrite <- app_assoc in Ha. apply load_verbatim; [unfold ULLONG_MAX; lia|done].
Qed.

End Roundtrip.

(** ** Claims *)

(** The objects the round trip covers: a [long], or a string of less than 2^31 bytes. *)
Definition obj_ok (o : strobj) : Prop :=
  match o with OInt v => in_s64 v | ORaw bs | OEmbstr bs => bytes_ok bs /\ zlen bs <= INT32_MAX end.

(** A length below 2^64-1 that was saved is loaded again, exactly its bytes
    are consumed, and the saved form takes 1, 2, 5 or 9 bytes.  The save fails
    only when the target of the stream fails; with NULL it only counts. *)
Theorem rdb_len_roundtrip {W : Type} `{RioLaws W} {R : Type} `{RioLaws R} (rdb : option (rio W)) (len : Z) :
  rdb_ok rdb -> 0 <= len < ULLONG_MAX ->
  exists enc, saves (rdbSaveLen rdb len) rdb (zlen enc) enc /\
    zlen enc = (if len <? 64 then 1 else if len <? 16384 then 2 else if len <? 2 ^ 32 then 5 else 9) /\
    forall (r : rio R) rest, ahead r (enc ++ rest) ->
      exists r', rdbLoadLen r = Loaded (len, false) r' /\ ahead r' rest.
Proof.
  intros Hok Hl. exists (len_bytes len). split; [|split].
  - apply (rdbSaveLen_spec rdb rdb []); [done|apply wrote_nil|lia].
  - unfold len_bytes, UINT32_MAX. destruct (len <? 64); [done|]. destruct (len <? 16384); [done|].
    destruct (Z.leb_spec len 4294967295), (Z.ltb_spec len (2 ^ 32)); try lia;
      by rewrite zlen_cons, be_bytes_zlen.
  - intros r rest Ha. by apply rdbLoadLen_spec.
Qed.

Lemma rdb_len_roundtrip_witness :
  exists enc, saves (rdbSaveLen (Some (rioInitWithBuffer [])) 70000) (Some (rioInitWithBuffer [])) (zlen enc) enc /\
    zlen enc = 5 /\
    forall (r : rio buffer) rest, ahead r (enc ++ rest) ->
      exists r', rdbLoadLen r = Loaded (70000, false) r' /\ ahead r' rest.
Proof.
  apply (rdb_len_roundtrip (R := buffer) (Some (rioInitWithBuffer [])) 70000).
  - apply rioInit_ok.
  - split; vm_compute; [discriminate|reflexivity].
Defined.

(** C28: string objects survive a save and a load. For every object encoding,
    with or without compression, whatever fresh memory and the compressor's
    hash table contain, saving stays inside its buffers and writes some bytes
    (or fails because the target failed); loading those bytes, with any flags
    and whatever follows, gives an object with the same string and consumes
    exactly them.  Strings are shorter than 2^31 bytes, since [rdbWriteRaw] returns
    the length it wrote as an [int]. *)
Theorem rdb_string_roundtrip {W : Type} `{RioLaws W} {R : Type} `{RioLaws R}
    (fresh : nat -> list Z) (htab0 : Z -> Z) (compression : bool) (rdb : option (rio W)) (obj : strobj) :
  (forall n, length (fresh n) = n) -> rdb_ok rdb -> obj_ok obj ->
  exists res enc, rdbSaveStringObject fresh htab0 compression rdb obj = Some res /\
    saves res rdb (zlen enc) enc /\
    forall (r : rio R) flags rest, ahead r (enc ++ rest) ->
      exists l r', rdbGenericLoadStringObject fresh r flags = Loaded l r' /\
        value l = obj_value obj /\ ahead r' rest.
Proof.
  intros Hf Hok Ho. destruct obj as [v|bs|bs]; simpl in *.
  - by apply rdbSaveLongLong_spec.
  - destruct Ho as [Hb Hl].
    destruct (rdbSaveRawString_spec (R := R) fresh htab0 Hf compression rdb bs Hok Hb Hl)
      as (res & enc & E & _ & Hs & Hld). by exists res, enc.
  - destruct Ho as [Hb Hl].
    destruct (rdbSaveRawString_spec (R := R) fresh htab0 Hf compression rdb bs Hok Hb Hl)
      as (res & enc & E & _ & Hs & Hld). by exists res, enc.
Qed.

Lemma rdb_string_roundtrip_witness :
  exists res enc,
    rdbSaveStringObject (fun n => replicate n 0) (fun _ => 7) true (Some (rioInitWithBuffer [])) (OInt (-300)) = Some res /\
    saves res (Some (rioInitWithBuffer [])) (zlen enc) enc /\
    forall (r : rio buffer) flags rest, ahead r (enc ++ rest) ->
      exists l r', rdbGenericLoadStringObject (fun n => replicate n 0) r flags = Loaded l r' /\
        value l = cstr "-300" /\ ahead r' rest.
Proof.
  apply (rdb_string_roundtrip (R := buffer) (fun n => replicate n 0) (fun _ => 7) true
    (Some (rioInitWithBuffer [])) (OInt (-300))).
  - intros n. apply length_replicate.
  - apply rioInit_ok.
  - split; vm_compute; discriminate.
Defined.

Lemma s32_wrapped x : INT32_MAX < x <= UINT32_MAX -> s32 x = x - 2 ^ 32.
Proof.
  unfold INT32_MAX, UINT32_MAX. intros Hx. unfold sN. rewrite <- (Z.mod_add _ (-1)) by lia. rewrite Z.mod_small by lia. lia.
Qed.

(** C40: the length [rdbWriteRaw] returns is an [int].  Saving a string of 2^32-1 bytes
    without compression is reported as a write error whatever the target does, even
    when there is no target.  Saving a compressed block of 2^31 to 2^32-21 bytes
    fails only when the target does and writes the block with its lengths, but the
    result is a negative number other than the error value -1. *)
Theorem rdb_length_wraps {W : Type} `{RioLaws W} (fresh : nat -> list Z) (htab0 : Z -> Z) (rdb : option (rio W)) (s data : list Z) (len : Z) :
  zlen s = UINT32_MAX -> rdb_ok rdb -> bytes_ok data -> INT32_MAX < zlen data <= UINT32_MAX - 20 -> 0 <= len ->
  rdbSaveRawString fresh htab0 false rdb s = Some None /\
  exists n enc, n < -1 /\ saves (rdbSaveLzfBlob rdb data (zlen data) len) rdb n enc /\
    enc = 195 :: len_bytes (zlen data) ++ len_bytes len ++ data.
Proof.
  intros Hs Hok Hd Hz Hlen. split.
  - unfold rdbSaveRawString. rewrite Hs. change (UINT32_MAX <=? 11) with false. mrun. cbn [andb].
    change (zlen [] >? 0) with false. change (UINT32_MAX >? 0) with true. cbv iota. mrun. change (0 >? 0) with false. cbv iota. f_equal.
    destruct (rdbSaveLen rdb UINT32_MAX) as [[n r]|]; [|done]. mrun. unfold rdbWriteRaw, result. rewrite Hs.
    change (s32 UINT32_MAX =? -1) with true. destruct r as [r|]; [|done]. mrun. by destruct (rioWrite r s).
  - pose proof (s32_wrapped (zlen data)) as Hw. unfold UINT32_MAX, INT32_MAX in *. specialize (Hw ltac:(lia)).
    assert (Hl : forall l, 0 <= l -> zlen (len_bytes l) <= 9).
    { intros l _. unfold len_bytes. repeat destruct (_ <? _); try destruct (_ <=? _); rewrite ?zlen_cons, ?be_bytes_zlen, ?zlen_nil; lia. }
    pose proof (Hl (zlen data) ltac:(lia)). pose proof (Hl len Hlen).
    pose proof (zlen_nonneg (len_bytes (zlen data))). pose proof (zlen_nonneg (len_bytes len)).
    exists (1 + zlen (len_bytes (zlen data)) + zlen (len_bytes len) + (zlen data - 2 ^ 32)). eexists. split; [lia|]. split; [|reflexivity].
    unfold rdbSaveLzfBlob. change (Z.lor (Z.shiftl RDB_ENCVAL 6) RDB_ENC_LZF) with 195. cbv zeta.
    eapply saves_bind; [raw_write|]. intros r1 Hr1 Hw1. eapply saves_bind; [apply rdbSaveLen_spec; [done|done|lia]|].
    intros r2 Hr2 Hw2. eapply saves_bind; [by apply rdbSaveLen_spec|].
    intros r3 Hr3 Hw3. eapply saves_bind; [apply rdbWriteRaw_int; [done..|rewrite Hw; lia]|].
    intros r4 Hr4 Hw4. rewrite <- !app_assoc in Hw4. rewrite Hw. unfold result.
    change (zlen [195]) with 1. destruct (Z.eqb_spec (1 + zlen (len_bytes (zlen data)) + zlen (len_bytes len) + (zlen data - 2 ^ 32)) (-1)); [lia|].
    by apply saves_ret.
Qed.

Lemma bytes_of_length n : 0 <= n -> exists s : list Z, zlen s = n /\ bytes_ok s.
Proof.
  intros. exists (replicate (Z.to_nat n) 97). split; [unfold zlen; rewrite length_replicate; lia|].
  apply Forall_replicate. unfold is_byte. lia.
Qed.

Lemma rdb_length_wraps_witness : exists s data, zlen s = UINT32_MAX /\
  rdbSaveRawString (fun n => replicate n 0) (fun _ => 7) false (Some (rioInitWithBuffer [])) s = Some None /\
  exists n enc, n < -1 /\ saves (rdbSaveLzfBlob (Some (rioInitWithBuffer [])) data (zlen data) 4294967290) (Some (rioInitWithBuffer [])) n enc /\
    enc = 195 :: len_bytes (zlen data) ++ len_bytes 4294967290 ++ data.
Proof.
  destruct (bytes_of_length UINT32_MAX) as (s & Hs & _); [unfold UINT32_MAX; lia|].
  destruct (bytes_of_length (2 ^ 31)) as (data & Hd & Hb); [lia|]. exists s, data. split; [exact Hs|].
  apply (rdb_length_wraps (fun n => replicate n 0) (fun _ => 7) (Some (rioInitWithBuffer [])) s data 4294967290).
  - exact Hs.
  - apply rioInit_ok.
  - exact Hb.
  - rewrite Hd. unfold INT32_MAX, UINT32_MAX. lia.
  - lia.
Defined.

(** A string is saved as an integer exactly when it is the canonical decimal
    representation of a 32-bit number; everything else strtoll would accept
    (spaces, a plus sign, leading zeros, embedded terminators, overflow) is
    left alone. *)
Theorem rdbTryIntegerEncoding_exact (fresh : nat -> list Z) (s : list Z) :
  (forall n, length (fresh n) = n) ->
  exists enc, rdbTryIntegerEncoding fresh s = Some enc /\
    (enc <> [] <-> exists v, INT32_MIN <= v <= INT32_MAX /\ s = dec v).
Proof.
  intros Hf. rewrite rdbTryIntegerEncoding_spec by done. eexists. split; [reflexivity|]. split.
  - intros Hne. destruct (string2ll s) as [v|] eqn:E; [|done]. apply string2ll_spec in E as [_ ->].
    rewrite rdbEncodeInteger_bytes in Hne. destruct (int_width v) as [[t n]|] eqn:Ew; [|done].
    apply int_width_Some in Ew as [Hv _]. by exists v.
  - intros (v & Hv & ->). rewrite (proj2 (string2ll_spec (dec v) v)) by (split; [by apply in_s32_s64|done]).
    rewrite rdbEncodeInteger_bytes. destruct (int_width v) as [[t n]|] eqn:Ew; [done|].
    by apply int_width_None in Ew.
Qed.

Lemma rdbTryIntegerEncoding_exact_witness :
  exists enc, rdbTryIntegerEncoding (fun n => replicate n 1) (cstr "007") = Some enc /\
    (enc <> [] <-> exists v, INT32_MIN <= v <= INT32_MAX /\ cstr "007" = dec v).
Proof.
  apply (rdbTryIntegerEncoding_exact (fun n => replicate n 1) (cstr "007")).
  intros n. apply length_replicate.
Defined.

(** A compressed string whose stored compressed length is 0 makes the loader
    call [lzf_decompress] on an empty block, which reads beyond it. *)
Theorem rdb_empty_lzf_block {R : Type} `{RioLaws R} (fresh : nat -> list Z) (r : rio R) (len flags : Z) (rest : list Z) :
  0 <= len < ULLONG_MAX -> ahead r (195 :: len_bytes 0 ++ len_bytes len ++ rest) ->
  rdbGenericLoadStringObject fresh r flags = Undefined.
Proof.
  intros Hl Ha. destruct (load_encoded fresh r 3 _ flags ltac:(lia) Ha) as (r' & Ha' & ->).
  change (3 =? RDB_ENC_LZF) with true. cbv iota. unfold rdbLoadLzfStringObject. cbv zeta.
  destruct (rdbLoadLen_spec r' 0 _ ltac:(unfold ULLONG_MAX; lia) Ha') as (r1 & -> & Ha1). cbn [lbind fst].
  destruct (rdbLoadLen_spec r1 len _ ltac:(lia) Ha1) as (r2 & -> & Ha2). cbn [lbind fst].
  destruct (rio_get_spec r2 [] rest 0 Ha2 eq_refl) as (r3 & -> & Ha3). cbn [lbind]. done.
Qed.

Lemma rdb_empty_lzf_block_witness :
  rdbGenericLoadStringObject (fun n => replicate n 0) (rioInitWithBuffer [195; 0; 5; 9]) RDB_LOAD_NONE = Undefined.
Proof.
  apply (rdb_empty_lzf_block (fun n => replicate n 0) (rioInitWithBuffer [195; 0; 5; 9]) 5 RDB_LOAD_NONE [9]).
  - split; vm_compute; [discriminate|reflexivity].
  - split; [|split].
    + apply rioInit_ok.
    + reflexivity.
    + repeat constructor; vm_compute; discriminate.
Defined.

End Rdb.
