(* ===== verification/Bitops.v ===== *)
(** * Bit operations on strings: src/redis5/src/bitops.c

    [redisPopcount], [redisBitpos], the bitfield accessors and the overflow
    checks of BITFIELD.  A pointer that only advances is the list of the bytes
    from it on; [addr] is the address of the first byte, whose alignment decides
    how the scans start.  Words are read on a little-endian host. *)

From S2P Require Import Prelude Crc.

Module Bitops.

(** ** [redisPopcount] *)

Definition bitsinbyte : list Z := [
   0; 1; 1; 2; 1; 2; 2; 3; 1; 2; 2; 3; 2; 3; 3; 4; 1; 2; 2; 3; 2; 3; 3; 4; 2; 3; 3; 4; 3; 4; 4; 5;
   1; 2; 2; 3; 2; 3; 3; 4; 2; 3; 3; 4; 3; 4; 4; 5; 2; 3; 3; 4; 3; 4; 4; 5; 3; 4; 4; 5; 4; 5; 5; 6;
   1; 2; 2; 3; 2; 3; 3; 4; 2; 3; 3; 4; 3; 4; 4; 5; 2; 3; 3; 4; 3; 4; 4; 5; 3; 4; 4; 5; 4; 5; 5; 6;
   2; 3; 3; 4; 3; 4; 4; 5; 3; 4; 4; 5; 4; 5; 5; 6; 3; 4; 4; 5; 4; 5; 5; 6; 4; 5; 5; 6; 5; 6; 6; 7;
   1; 2; 2; 3; 2; 3; 3; 4; 2; 3; 3; 4; 3; 4; 4; 5; 2; 3; 3; 4; 3; 4; 4; 5; 3; 4; 4; 5; 4; 5; 5; 6;
   2; 3; 3; 4; 3; 4; 4; 5; 3; 4; 4; 5; 4; 5; 5; 6; 3; 4; 4; 5; 4; 5; 5; 6; 4; 5; 5; 6; 5; 6; 6; 7;
   2; 3; 3; 4; 3; 4; 4; 5; 3; 4; 4; 5; 4; 5; 5; 6; 3; 4; 4; 5; 4; 5; 5; 6; 4; 5; 5; 6; 5; 6; 6; 7;
   3; 4; 4; 5; 4; 5; 5; 6; 4; 5; 5; 6; 5; 6; 6; 7; 4; 5; 5; 6; 5; 6; 6; 7; 5; 6; 6; 7; 6; 7; 7; 8].

Definition bits_in (b : Z) : option Z := zget bitsinbyte b.

(** [while ((unsigned long)p & 3 && count)] *)
Fixpoint popcount_unaligned (addr : Z) (p : list Z) (bits : Z) : option (list Z * Z) :=
  match p with
  | [] => Some (p, bits)
  | b :: p' =>
      if negb (Z.land addr 3 =? 0) then
        n ← bits_in b; popcount_unaligned (u64 (addr + 1)) p' (u64 (bits + n))
      else Some (p, bits)
  end.

Definition word32 (p : list Z) (i : nat) : Z := le_val (take 4 (drop (4 * i) p)).

(** The pairs and nibbles of one word. *)
Definition fold2 (aux : Z) : Z :=
  let aux := u32 (aux - Z.land (Z.shiftr aux 1) 0x55555555) in
  u32 (Z.land aux 0x33333333 + Z.land (Z.shiftr aux 2) 0x33333333).
Definition fold4 (aux : Z) : Z := Z.land (u32 (aux + Z.shiftr aux 4)) 0x0F0F0F0F.

Definition block28 (p : list Z) : Z :=
  let f i := fold4 (fold2 (word32 p i)) in
  Z.shiftr (u32 (u32 (f 0%nat + f 1%nat + f 2%nat + f 3%nat + f 4%nat + f 5%nat + f 6%nat) * 0x01010101)) 24.

(** [while (count >= 28)] *)
Fixpoint popcount_blocks (fuel : nat) (p : list Z) (bits : Z) : option (list Z * Z) :=
  match fuel with
  | O => None
  | S fuel =>
      if zlen p >=? 28 then popcount_blocks fuel (drop 28 p) (u64 (bits + block28 p))
      else Some (p, bits)
  end.

Fixpoint popcount_bytes (p : list Z) (bits : Z) : option Z :=
  match p with
  | [] => Some bits
  | b :: p => n ← bits_in b; popcount_bytes p (u64 (bits + n))
  end.

Definition redisPopcount (addr : Z) (s : list Z) : option Z :=
  '(p, bits) ← popcount_unaligned addr s 0;
  '(p, bits) ← popcount_blocks (S (length p)) p bits;
  popcount_bytes p bits.

(** ** [redisBitpos] *)

Definition UCHAR_MAX := 255.
Definition ULONG_MAX := ULLONG_MAX.

(** The byte-wise start: [found], the bytes from [c] on, [pos]. *)
Fixpoint bitpos_unaligned (skipval addr : Z) (c : list Z) (pos : Z) : bool * list Z * Z :=
  match c with
  | [] => (false, c, pos)
  | b :: c' =>
      if negb (Z.land addr 7 =? 0) then
        if negb (b =? skipval) then (true, c, pos)
        else bitpos_unaligned skipval (u64 (addr + 1)) c' (pos + 8)
      else (false, c, pos)
  end.

(** Skip whole words. *)
Fixpoint bitpos_words (fuel : nat) (skipval : Z) (l : list Z) (pos : Z) : option (list Z * Z) :=
  match fuel with
  | O => None
  | S fuel =>
      if zlen l >=? 8 then
        if negb (le_val (take 8 l) =? skipval) then Some (l, pos)
        else bitpos_words fuel skipval (drop 8 l) (pos + 64)
      else Some (l, pos)
  end.

(** Eight times [word <<= 8; if (count) word |= *c++;] *)
Fixpoint load_word (j : nat) (c : list Z) (word : Z) : Z :=
  match j with
  | O => word
  | S j =>
      let word := u64 (Z.shiftl word 8) in
      match c with
      | [] => load_word j [] word
      | b :: c => load_word j c (Z.lor word b)
      end
  end.

(** The bit-by-bit scan; [None] is the panic after the loop. *)
Fixpoint scan_word (fuel : nat) (bit : bool) (word one pos : Z) : option Z :=
  match fuel with
  | O => None
  | S fuel =>
      if one =? 0 then None
      else if eqb (negb (Z.land one word =? 0)) bit then Some pos
      else scan_word fuel bit word (Z.shiftr one 1) (pos + 1)
  end.

Definition redisBitpos (addr : Z) (s : list Z) (bit : bool) : option Z :=
  let '(found, c, pos) := bitpos_unaligned (if bit then 0 else UCHAR_MAX) addr s 0 in
  '(l, pos) ← (if (found : bool) then Some (c, pos)
               else bitpos_words (S (length c)) (if bit then 0 else ULONG_MAX) c pos);
  let word := load_word 8 l 0 in
  if bit && (word =? 0) then Some (-1)
  else scan_word 65 bit word (u64 (Z.lnot (Z.shiftr ULONG_MAX 1))) pos.

(** ** Bitfields *)

Fixpoint setUnsignedBitfield_loop (n : nat) (p : list Z) (offset bits value j : Z) : option (list Z) :=
  match n with
  | O => Some p
  | S n =>
      let bitval := if negb (Z.land value (u64 (Z.shiftl 1 (bits - 1 - j))) =? 0) then 1 else 0 in
      let byte := Z.shiftr offset 3 in
      let bit := 7 - Z.land offset 0x7 in
      byteval ← zget p byte;
      let byteval := Z.land byteval (u64 (Z.lnot (Z.shiftl 1 bit))) in
      let byteval := Z.lor byteval (Z.shiftl bitval bit) in
      p ← put p byte (Z.land byteval 0xff);
      setUnsignedBitfield_loop n p (u64 (offset + 1)) bits value (j + 1)
  end.

Definition setUnsignedBitfield (p : list Z) (offset bits value : Z) : option (list Z) :=
  setUnsignedBitfield_loop (Z.to_nat bits) p offset bits value 0.

Definition setSignedBitfield (p : list Z) (offset bits value : Z) : option (list Z) :=
  let uv := u64 value in setUnsignedBitfield p offset bits uv.

Fixpoint getUnsignedBitfield_loop (n : nat) (p : list Z) (offset value : Z) : option Z :=
  match n with
  | O => Some value
  | S n =>
      let byte := Z.shiftr offset 3 in
      let bit := 7 - Z.land offset 0x7 in
      byteval ← zget p byte;
      let bitval := Z.land (Z.shiftr byteval bit) 1 in
      getUnsignedBitfield_loop n p (u64 (offset + 1)) (Z.lor (u64 (Z.shiftl value 1)) bitval)
  end.

Definition getUnsignedBitfield (p : list Z) (offset bits : Z) : option Z :=
  getUnsignedBitfield_loop (Z.to_nat bits) p offset 0.

(** [bits] is 1 to 64; for 64 the shift of the propagated sign is undefined
    ([None]). *)
Definition getSignedBitfield (p : list Z) (offset bits : Z) : option Z :=
  u ← getUnsignedBitfield p offset bits;
  let value := s64 u in
  if negb (Z.land (u64 value) (u64 (Z.shiftl 1 (bits - 1))) =? 0) then
    if bits =? 64 then None
    else Some (s64 (Z.lor (u64 value) (u64 (Z.shiftl ULLONG_MAX bits))))
  else Some value.

(** ** Overflow checks *)

Inductive owtype := BFOVERFLOW_WRAP | BFOVERFLOW_SAT | BFOVERFLOW_FAIL.

(** The result and the value of [*limit] when it is set.  A shift by 64 is
    undefined ([None]). *)
Definition wrap_unsigned (value incr bits : Z) : option (Z * option Z) :=
  if bits =? 64 then None
  else
    let mask := u64 (Z.shiftl ULLONG_MAX bits) in
    let res := u64 (value + u64 incr) in
    Some (1, Some (Z.land res (u64 (Z.lnot mask)))).

Definition checkUnsignedBitfieldOverflow (value incr bits : Z) (ow : owtype) : option (Z * option Z) :=
  let max := if bits =? 64 then ULLONG_MAX else u64 (Z.shiftl 1 bits - 1) in
  let maxincr := s64 (u64 (max - value)) in
  let minincr := s64 (u64 (- value)) in
  if (value >? max) || (incr >? 0) && (incr >? maxincr) then
    match ow with
    | BFOVERFLOW_WRAP => wrap_unsigned value incr bits
    | BFOVERFLOW_SAT => Some (1, Some max)
    | BFOVERFLOW_FAIL => Some (1, None)
    end
  else if (incr <? 0) && (incr <? minincr) then
    match ow with
    | BFOVERFLOW_WRAP => wrap_unsigned value incr bits
    | BFOVERFLOW_SAT => Some (-1, Some 0)
    | BFOVERFLOW_FAIL => Some (-1, None)
    end
  else Some (0, None).

Definition wrap_signed (value incr bits : Z) : option (Z * option Z) :=
  if bits =? 64 then None
  else
    let mask := u64 (Z.shiftl ULLONG_MAX bits) in
    let msb := u64 (Z.shiftl 1 (bits - 1)) in
    let c := u64 (u64 value + u64 incr) in
    let c := if negb (Z.land c msb =? 0) then Z.lor c mask else Z.land c (u64 (Z.lnot mask)) in
    Some (1, Some (s64 c)).

(** The differences are computed with wrap-around, as the code expects. *)
Definition checkSignedBitfieldOverflow (value incr bits : Z) (ow : owtype) : option (Z * option Z) :=
  let max := if bits =? 64 then LLONG_MAX else Z.shiftl 1 (bits - 1) - 1 in
  let min := - max - 1 in
  let maxincr := s64 (max - value) in
  let minincr := s64 (min - value) in
  if (value >? max) || negb (bits =? 64) && (incr >? maxincr)
     || (value >=? 0) && (incr >? 0) && (incr >? maxincr) then
    match ow with
    | BFOVERFLOW_WRAP => wrap_signed value incr bits
    | BFOVERFLOW_SAT => Some (1, Some max)
    | BFOVERFLOW_FAIL => Some (1, None)
    end
  else if (value <? min) || negb (bits =? 64) && (incr <? minincr)
          || (value <? 0) && (incr <? 0) && (incr <? minincr) then
    match ow with
    | BFOVERFLOW_WRAP => wrap_signed value incr bits
    | BFOVERFLOW_SAT => Some (-1, Some min)
    | BFOVERFLOW_FAIL => Some (-1, None)
    end
  else Some (0, None).

Example bitops_examples :
  redisPopcount 3 (replicate 61 255) = Some 488 /\
  redisBitpos 5 (replicate 20 0 ++ [8]) true = Some 164 /\
  redisBitpos 0 (replicate 16 255) false = Some 128 /\ redisBitpos 0 [0; 0] true = Some (-1) /\
  setUnsignedBitfield [0; 0] 7 5 23 = Some [1; 112] /\
  getUnsignedBitfield [1; 112] 7 5 = Some 23 /\
  checkSignedBitfieldOverflow (-128) (-1) 8 BFOVERFLOW_WRAP = Some (1, Some 127) /\
  checkUnsignedBitfieldOverflow 255 1 8 BFOVERFLOW_WRAP = Some (1, Some 0).
Proof. vm_compute. repeat split. Qed.

(** ** Population count *)

(** The reference: the set bits of a byte and of a string. *)
Definition ones (b : Z) : Z := foldr Z.add 0 ((fun i => Z.b2z (Z.testbit b i)) <$> seqZ 0 8).
Definition count_ones (s : list Z) : Z := foldr (fun b n => ones b + n) 0 s.

Lemma count_ones_app a b : count_ones (a ++ b) = count_ones a + count_ones b.
Proof. induction a as [|x a IH]; simpl; [done|]. rewrite IH. lia. Qed.

Lemma bits_in_spec b : is_byte b -> bits_in b = Some (ones b) /\ 0 <= ones b <= 8.
Proof.
  intros Hb. refine (bool_decide_eq_true_1 _ (forall_below (fun b => bool_decide
    (bits_in b = Some (ones b) /\ 0 <= ones b <= 8)) 256 _ b Hb)). vm_compute. reflexivity.
Qed.

Lemma count_ones_range s : bytes_ok s -> 0 <= count_ones s <= 8 * zlen s.
Proof.
  induction 1 as [|b s Hb Hs IH]; [done|]. simpl. rewrite zlen_cons.
  destruct (bits_in_spec b Hb) as [_ ?]. lia.
Qed.

(** A masked shift that does not leave the byte works byte by byte. *)
Lemma byte_mask k lo hi mlo mhi : 0 <= k < 8 -> 0 <= lo < 256 -> 0 <= mlo < 2 ^ (8 - k) -> 0 <= mhi -> 0 <= hi ->
  Z.land (Z.shiftr (lo + 256 * hi) k) (mlo + 256 * mhi)
  = Z.land (Z.shiftr lo k) mlo + 256 * Z.land (Z.shiftr hi k) mhi.
Proof.
  intros Hk Hlo Hm Hmh Hhi.
  assert (H8 : 2 ^ (8 - k) <= 256) by (change 256 with (2 ^ 8); apply Z.pow_le_mono_r; lia).
  assert (Hadd : forall a b, 0 <= a < 256 -> a + 256 * b = Z.lor a (Z.shiftl b 8)).
  { intros a b Ha. rewrite lor_disjoint; [rewrite Z.shiftl_mul_pow2 by lia; change (2 ^ 8) with 256; lia|].
    apply Z.bits_inj'. intros i Hi. rewrite Z.land_spec, Z.bits_0. destruct (Z.lt_ge_cases i 8).
    - rewrite Z.shiftl_spec_low by lia. apply andb_false_r.
    - by rewrite (Crc.testbit_small a 8) by lia. }
  assert (Hl : 0 <= Z.land (Z.shiftr lo k) mlo < 256).
  { split; [apply Z.land_nonneg; right; lia|].
    assert (E : Z.land (Z.shiftr lo k) mlo = uN 8 (Z.land (Z.shiftr lo k) mlo)).
    { apply Z.bits_inj'. intros i Hi. rewrite uN_bits, Z.land_spec by lia.
      destruct (Z.ltb_spec i 8); [done|]. by rewrite (Crc.testbit_small mlo 8), andb_false_r by lia. }
    rewrite E. by apply uN_range. }
  rewrite (Hadd lo hi), (Hadd mlo mhi), (Hadd (Z.land (Z.shiftr lo k) mlo)) by lia.
  apply Z.bits_inj'. intros i Hi. rewrite Z.lor_spec, !Z.land_spec, Z.shiftr_spec, !Z.lor_spec by lia.
  rewrite Z.shiftr_spec by lia. destruct (Z.lt_ge_cases i 8) as [Hi8|Hi8].
  - rewrite !(Z.shiftl_spec_low _ 8 i) by lia. rewrite !orb_false_r.
    destruct (Z.lt_ge_cases (i + k) 8) as [Hik|Hik].
    + rewrite (Z.shiftl_spec_low _ 8 (i + k)) by lia. by rewrite orb_false_r.
    + rewrite (Crc.testbit_small mlo (8 - k) i) by lia. by rewrite !andb_false_r.
  - rewrite (Crc.testbit_small mlo 8 i), (Crc.testbit_small lo 8 (i + k)) by lia.
    rewrite !Z.shiftl_spec, Z.land_spec, Z.shiftr_spec by lia. simpl.
    replace (i - 8 + k) with (i + k - 8) by lia. done.
Qed.

Lemma le_val_nonneg l : bytes_ok l -> 0 <= le_val l.
Proof. intros H. apply le_val_range in H. lia. Qed.

Lemma mask_bytes k m l : 0 <= k < 8 -> 0 <= m < 2 ^ (8 - k) -> bytes_ok l ->
  Z.land (Z.shiftr (le_val l) k) (le_val (replicate (length l) m))
  = le_val ((fun b => Z.land (Z.shiftr b k) m) <$> l).
Proof.
  intros Hk Hm. induction 1 as [|b l Hb Hl IH]; [apply Z.land_0_r|]. rewrite fmap_cons. cbn [length replicate le_val].
  assert (H8 : 2 ^ (8 - k) <= 256) by (change 256 with (2 ^ 8); apply Z.pow_le_mono_r; lia).
  rewrite byte_mask; [by rewrite IH|done|done|done| |by apply le_val_nonneg].
  apply le_val_nonneg. apply Forall_replicate. unfold is_byte. lia.
Qed.

Lemma le_val_map2 (f g h : Z -> Z) l : (forall b, b ∈ l -> h b = f b + g b) ->
  le_val (f <$> l) + le_val (g <$> l) = le_val (h <$> l).
Proof.
  induction l as [|b l IH]; intros Hh; [done|]. rewrite !fmap_cons. cbn [le_val].
  rewrite (Hh b) by set_solver. rewrite <- IH by set_solver. lia.
Qed.

Lemma le_val_map_opp (f : Z -> Z) l : - le_val (f <$> l) = le_val ((fun b => - f b) <$> l).
Proof. induction l as [|b l IH]; [done|]. rewrite !fmap_cons. cbn [le_val]. lia. Qed.

(** The two folds on one byte. *)
Definition fold2_byte (b : Z) : Z :=
  let a := b - Z.land (Z.shiftr b 1) 0x55 in Z.land a 0x33 + Z.land (Z.shiftr a 2) 0x33.

Lemma fold_byte_ok b : is_byte b ->
  is_byte (b - Z.land (Z.shiftr b 1) 0x55) /\ is_byte (fold2_byte b) /\
  fold2_byte b mod 16 <= 4 /\ fold2_byte b / 16 <= 4 /\ fold2_byte b mod 16 + fold2_byte b / 16 = ones b.
Proof.
  intros Hb. refine (bool_decide_eq_true_1 _ (forall_below (fun b => bool_decide
    (is_byte (b - Z.land (Z.shiftr b 1) 0x55) /\ is_byte (fold2_byte b) /\
     fold2_byte b mod 16 <= 4 /\ fold2_byte b / 16 <= 4 /\
     fold2_byte b mod 16 + fold2_byte b / 16 = ones b)) 256 _ b Hb)).
  vm_compute. reflexivity.
Qed.

Lemma u32_le_val l : length l = 4%nat -> bytes_ok l -> u32 (le_val l) = le_val l.
Proof.
  intros Hl Hb. apply u32_id. apply le_val_range in Hb. unfold zlen in Hb. rewrite Hl in Hb. exact Hb.
Qed.

Lemma bytes_fmap (f : Z -> Z) l : bytes_ok l -> (forall b, is_byte b -> is_byte (f b)) -> bytes_ok (f <$> l).
Proof. intros Hl Hf. apply Forall_fmap. eapply Forall_impl; [exact Hl|]. exact Hf. Qed.

Lemma mask_word k m M l : length l = 4%nat -> 0 <= k < 8 -> 0 <= m < 2 ^ (8 - k) -> bytes_ok l ->
  M = le_val [m; m; m; m] -> Z.land (Z.shiftr (le_val l) k) M = le_val ((fun b => Z.land (Z.shiftr b k) m) <$> l).
Proof. intros Hl Hk Hm Hb ->. pose proof (mask_bytes k m l Hk Hm Hb) as E. by rewrite Hl in E. Qed.

Lemma fold2_word l : length l = 4%nat -> bytes_ok l -> fold2 (le_val l) = le_val (fold2_byte <$> l).
Proof.
  intros Hl Hb. unfold fold2.
  rewrite (mask_word 1 0x55 0x55555555 l) by (done || lia).
  assert (E1 : le_val l - le_val ((fun b => Z.land (Z.shiftr b 1) 0x55) <$> l)
    = le_val ((fun b => b - Z.land (Z.shiftr b 1) 0x55) <$> l)).
  { rewrite <- (le_val_map2 (fun b => b) (fun b => - Z.land (Z.shiftr b 1) 0x55)
      (fun b => b - Z.land (Z.shiftr b 1) 0x55)) by (intros; lia).
    rewrite list_fmap_id. rewrite <- (Z.add_opp_r (le_val l)). f_equal.
    apply (le_val_map_opp (fun b => Z.land (Z.shiftr b 1) 0x55)). }
  rewrite E1. set (l1 := _ <$> l).
  assert (Hb1 : bytes_ok l1) by (apply bytes_fmap; [done|]; intros; by apply fold_byte_ok).
  assert (Hl1 : length l1 = 4%nat) by (unfold l1; by rewrite length_fmap).
  rewrite u32_le_val by done.
  rewrite <- (Z.shiftr_0_r (le_val l1)) at 1.
  rewrite (mask_word 0 0x33 0x33333333 l1), (mask_word 2 0x33 0x33333333 l1) by (done || lia).
  rewrite (le_val_map2 _ _ (fun a => Z.land (Z.shiftr a 0) 0x33 + Z.land (Z.shiftr a 2) 0x33)) by done.
  unfold l1. rewrite <- list_fmap_compose.
  replace ((fun a => Z.land (Z.shiftr a 0) 0x33 + Z.land (Z.shiftr a 2) 0x33)
    ∘ (fun b => b - Z.land (Z.shiftr b 1) 0x55) <$> l) with (fold2_byte <$> l) by done.
  apply u32_le_val; [by rewrite length_fmap|]. apply bytes_fmap; [done|]. intros. by apply fold_byte_ok.
Qed.

(** Adding the high nibble to the low one, the junk in the upper nibbles masked. *)
Lemma fold4_bytes l : Forall (fun c => 0 <= c /\ c mod 16 <= 4 /\ c / 16 <= 4) l ->
  Z.land (le_val l + Z.shiftr (le_val l) 4) (le_val (replicate (length l) 15))
  = le_val ((fun c => c mod 16 + c / 16) <$> l).
Proof.
  induction 1 as [|c l (H0 & Hlo & Hhi) Hl IH]; [done|]. rewrite fmap_cons. cbn [length replicate le_val].
  rewrite <- IH. set (r := le_val l).
  assert (Hr : 0 <= r /\ r mod 16 <= 4).
  { unfold r. clear -Hl. destruct Hl as [|d l (? & ? & ?) Hl]; [done|]. cbn [le_val]. split.
    - assert (0 <= le_val l); [|lia]. induction Hl as [|e l (? & _) _ IH]; [done|]. cbn [le_val]. lia.
    - replace (d + 256 * le_val l) with (d + 16 * le_val l * 16) by lia. rewrite Z.mod_add by lia. done. }
  clearbody r. rewrite (Z.shiftr_div_pow2 _ 4), (Z.shiftr_div_pow2 r 4) by lia. change (2 ^ 4) with 16.
  pose proof (Z.div_mod c 16 ltac:(lia)). pose proof (Z.mod_pos_bound c 16 ltac:(lia)).
  pose proof (Z.div_mod r 16 ltac:(lia)). pose proof (Z.mod_pos_bound r 16 ltac:(lia)).
  assert (0 <= c / 16) by (apply Z.div_pos; lia). assert (0 <= r / 16) by (apply Z.div_pos; lia).
  assert (Hsum : c + 256 * r + (c + 256 * r) / 16
    = (c mod 16 + c / 16 + 16 * (c / 16 + r mod 16)) + 256 * (r + r / 16)).
  { replace (c + 256 * r) with (c + 16 * r * 16) by lia. rewrite Z.div_add by lia. lia. }
  rewrite Hsum.
  rewrite <- (Z.shiftr_0_r (_ + 256 * _)).
  rewrite (byte_mask 0) by (try (change (2 ^ (8 - 0)) with 256); try lia;
    apply le_val_nonneg, Forall_replicate; unfold is_byte; lia).
  rewrite !Z.shiftr_0_r. f_equal. change 15 with (Z.ones 4). rewrite Z.land_ones by lia.
  change (2 ^ 4) with 16. rewrite (Z.mul_comm 16), Z.mod_add, Z.mod_small by lia. done.
Qed.

Lemma land_u32 x m : 0 <= m < 2 ^ 32 -> Z.land (u32 x) m = Z.land x m.
Proof.
  intros Hm. apply Z.bits_inj'. intros i Hi. rewrite !Z.land_spec, uN_bits by lia.
  destruct (Z.ltb_spec i 32); [done|]. rewrite (Crc.testbit_small m 32 i) by lia. by rewrite !andb_false_r.
Qed.

Lemma fold4_word l : length l = 4%nat -> bytes_ok l -> fold4 (fold2 (le_val l)) = le_val (ones <$> l).
Proof.
  intros Hl Hb. rewrite fold2_word by done. unfold fold4. rewrite land_u32 by lia.
  pose proof (fold4_bytes (fold2_byte <$> l)) as E. rewrite length_fmap, Hl in E.
  change (le_val (replicate 4 15)) with 0x0F0F0F0F in E. rewrite E.
  - rewrite <- list_fmap_compose. f_equal. apply list_fmap_ext. intros i b Hi.
    eapply Forall_lookup in Hi; [|exact Hb]. by apply fold_byte_ok.
  - apply Forall_fmap. eapply Forall_impl; [exact Hb|]. intros b Hbb. simpl.
    destruct (fold_byte_ok b Hbb) as (_ & [? _] & ? & ? & _). done.
Qed.

(** A word contributes four byte counts of at most 8. *)
Lemma word_counts l : length l = 4%nat -> bytes_ok l ->
  exists a b c d, fold4 (fold2 (le_val l)) = a + 256 * b + 65536 * c + 16777216 * d /\
    0 <= a <= 8 /\ 0 <= b <= 8 /\ 0 <= c <= 8 /\ 0 <= d <= 8 /\ count_ones l = a + b + c + d.
Proof.
  intros Hl Hb. rewrite fold4_word by done.
  destruct l as [|x [|y [|z [|w [|]]]]]; try done. repeat apply Forall_cons in Hb as [? Hb].
  exists (ones x), (ones y), (ones z), (ones w). cbn [fmap list_fmap le_val count_ones foldr].
  split; [cbn; lia|].
  repeat match goal with H : is_byte ?x |- _ => apply bits_in_spec in H as [_ H] end. cbn. lia.
Qed.

Lemma multiply_gather a b c d : 0 <= a <= 56 -> 0 <= b <= 56 -> 0 <= c <= 56 -> 0 <= d <= 56 ->
  Z.shiftr (u32 (u32 (a + 256 * b + 65536 * c + 16777216 * d) * 0x01010101)) 24 = a + b + c + d.
Proof.
  intros. rewrite (u32_id (a + _ + _ + _)) by lia. rewrite Z.shiftr_div_pow2 by lia. symmetry.
  assert (E : u32 ((a + 256 * b + 65536 * c + 16777216 * d) * 0x01010101)
    = a + 256 * (a + b) + 65536 * (a + b + c) + 16777216 * (a + b + c + d)).
  { unfold uN. symmetry. apply Z.mod_unique with (b + c + d + 256 * (c + d) + 65536 * d); [left; lia|lia]. }
  rewrite E. apply Z.div_unique with (a + 256 * (a + b) + 65536 * (a + b + c)); lia.
Qed.

Lemma block28_spec p : bytes_ok p -> 28 <= zlen p -> block28 p = count_ones (take 28 p).
Proof.
  intros Hb Hz. unfold block28, word32.
  assert (Hw : forall i, (i < 7)%nat -> exists a b c d,
    fold4 (fold2 (le_val (take 4 (drop (4 * i) p)))) = a + 256 * b + 65536 * c + 16777216 * d /\
    0 <= a <= 8 /\ 0 <= b <= 8 /\ 0 <= c <= 8 /\ 0 <= d <= 8 /\
    count_ones (take 4 (drop (4 * i) p)) = a + b + c + d).
  { intros i Hi. apply word_counts; [|by apply Forall_take, Forall_drop].
    rewrite length_take, length_drop. unfold zlen in Hz. lia. }
  assert (Hc : count_ones (take 28 p) = count_ones (take 4 (drop (4 * 0) p)) +
    count_ones (take 4 (drop (4 * 1) p)) + count_ones (take 4 (drop (4 * 2) p)) +
    count_ones (take 4 (drop (4 * 3) p)) + count_ones (take 4 (drop (4 * 4) p)) +
    count_ones (take 4 (drop (4 * 5) p)) + count_ones (take 4 (drop (4 * 6) p))).
  { rewrite <- !count_ones_app. f_equal. simpl (4 * _)%nat. rewrite drop_0.
    replace 28%nat with (4 + (4 + (4 + (4 + (4 + (4 + 4))))))%nat by lia.
    rewrite <- !take_take_drop, !drop_drop. simpl (_ + _)%nat. by rewrite <- !app_assoc. }
  rewrite Hc.
  destruct (Hw 0%nat) as (a0&b0&c0&d0&->&?&?&?&?&->); [lia|]. destruct (Hw 1%nat) as (a1&b1&c1&d1&->&?&?&?&?&->); [lia|].
  destruct (Hw 2%nat) as (a2&b2&c2&d2&->&?&?&?&?&->); [lia|]. destruct (Hw 3%nat) as (a3&b3&c3&d3&->&?&?&?&?&->); [lia|].
  destruct (Hw 4%nat) as (a4&b4&c4&d4&->&?&?&?&?&->); [lia|]. destruct (Hw 5%nat) as (a5&b5&c5&d5&->&?&?&?&?&->); [lia|].
  destruct (Hw 6%nat) as (a6&b6&c6&d6&->&?&?&?&?&->); [lia|].
  transitivity ((a0+a1+a2+a3+a4+a5+a6) + (b0+b1+b2+b3+b4+b5+b6) + (c0+c1+c2+c3+c4+c5+c6)
    + (d0+d1+d2+d3+d4+d5+d6)); [|lia].
  etransitivity; [|apply multiply_gather; lia]. do 4 f_equal. lia.
Qed.

Lemma popcount_unaligned_spec p : forall addr bits, bytes_ok p -> 0 <= bits ->
  bits + 8 * zlen p < 2 ^ 64 ->
  exists p' bits', popcount_unaligned addr p bits = Some (p', bits') /\
    bits' + count_ones p' = bits + count_ones p /\ 0 <= bits' /\ bits' + 8 * zlen p' <= bits + 8 * zlen p /\ bytes_ok p'.
Proof.
  induction p as [|b p IH]; intros addr bits Hp H0 Hmax; cbn [popcount_unaligned].
  { by exists [], bits. }
  destruct (negb _); [|exists (b :: p), bits; split; [done|]; split; [done|]; split; [done|]; split; [lia|done]].
  apply Forall_cons in Hp as [Hb Hp]. destruct (bits_in_spec b Hb) as [-> ?]. mrun.
  rewrite zlen_cons in *. pose proof (zlen_nonneg p). rewrite (u64_id (bits + ones b)) by (unfold in_u64, ULLONG_MAX; lia).
  destruct (IH (u64 (addr + 1)) (bits + ones b) Hp) as (p' & bits' & -> & E & ? & ? & ?); [lia..|].
  exists p', bits'. simpl. split; [done|]. split; [lia|]. split; [done|]. split; [lia|done].
Qed.

Lemma popcount_blocks_spec fuel : forall p bits, bytes_ok p -> (length p < fuel)%nat -> 0 <= bits ->
  bits + 8 * zlen p < 2 ^ 64 ->
  exists p' bits', popcount_blocks fuel p bits = Some (p', bits') /\
    bits' + count_ones p' = bits + count_ones p /\ 0 <= bits' /\ bits' + 8 * zlen p' <= bits + 8 * zlen p /\ bytes_ok p'.
Proof.
  induction fuel as [|fuel IH]; intros p bits Hp Hf H0 Hmax; [lia|]. cbn [popcount_blocks].
  rewrite Z.geb_leb. destruct (Z.leb_spec 28 (zlen p)) as [Hge|Hlt].
  2: { exists p, bits. split; [done|]. split; [done|]. split; [done|]. split; [lia|done]. }
  rewrite block28_spec by done. set (t := take 28 p). set (d := drop 28 p).
  assert (Hsplit : t ++ d = p) by apply take_drop.
  assert (Hz : zlen t = 28) by (unfold t, zlen in *; rewrite length_take; lia).
  rewrite <- Hsplit, ?count_ones_app, ?zlen_app, ?Hz in *. apply Forall_app in Hp as [Ht Hd].
  pose proof (count_ones_range t Ht). pose proof (zlen_nonneg d).
  rewrite u64_id by (unfold in_u64, ULLONG_MAX; lia).
  destruct (IH d (bits + count_ones t) Hd) as (p' & bits' & -> & E & ? & ? & ?); [rewrite length_app in Hf; unfold zlen in Hz; lia|lia|lia|].
  exists p', bits'. split; [done|]. split; [lia|]. split; [done|]. split; [lia|done].
Qed.

Lemma popcount_bytes_spec p : forall bits, bytes_ok p -> 0 <= bits -> bits + 8 * zlen p < 2 ^ 64 ->
  popcount_bytes p bits = Some (bits + count_ones p).
Proof.
  induction p as [|b p IH]; intros bits Hp H0 Hmax; cbn [popcount_bytes]; [f_equal; simpl; lia|].
  apply Forall_cons in Hp as [Hb Hp]. destruct (bits_in_spec b Hb) as [-> ?]. mrun.
  rewrite zlen_cons in *. pose proof (zlen_nonneg p). rewrite u64_id by (unfold in_u64, ULLONG_MAX; lia).
  rewrite IH by (done || lia). f_equal. simpl. lia.
Qed.

(** [redisPopcount] is the number of bits set, wherever the string starts in
    memory: the byte table, the 28-byte blocks with their parallel sums and the
    byte-wise ends agree with counting bit by bit. *)
Theorem redisPopcount_correct (addr : Z) (s : list Z) :
  bytes_ok s -> zlen s < 2 ^ 60 -> redisPopcount addr s = Some (count_ones s).
Proof.
  intros Hs Hl. unfold redisPopcount. pose proof (zlen_nonneg s).
  destruct (popcount_unaligned_spec s addr 0 Hs) as (p & b & -> & E1 & ? & ? & Hp); [lia|lia|]. mrun.
  destruct (popcount_blocks_spec (S (length p)) p b Hp) as (p' & b' & -> & E2 & ? & ? & Hp'); [lia..|]. mrun.
  rewrite popcount_bytes_spec by (done || lia). f_equal. lia.
Qed.

Lemma redisPopcount_correct_witness : redisPopcount 3 (replicate 40 254) = Some 280 /\ zlen (replicate 40 254) < 2 ^ 60.
Proof.
  split; [|vm_compute; reflexivity].
  refine (eq_trans (redisPopcount_correct 3 (replicate 40 254) _ _) _).
  - apply Forall_replicate. split; vm_compute; [discriminate|reflexivity].
  - vm_compute. reflexivity.
  - vm_compute. reflexivity.
Defined.

(** ** The first bit with a value *)

(** The bits of a string from left to right, and of the low [n] bits of a word
    from the most significant one. *)
Definition word_bits (n : nat) (x : Z) : list bool :=
  (fun i => Z.testbit x (Z.of_nat n - 1 - i)) <$> seqZ 0 (Z.of_nat n).
Definition bits_of (s : list Z) : list bool := s ≫= word_bits 8.

(** The position of the first occurrence. *)
Fixpoint first (bit : bool) (l : list bool) : option Z :=
  match l with
  | [] => None
  | b :: l => if eqb b bit then Some 0 else n ← first bit l; Some (n + 1)
  end.

Lemma first_app bit a b :
  first bit (a ++ b) = match first bit a with Some i => Some i | None => n ← first bit b; Some (zlen a + n) end.
Proof.
  induction a as [|x a IH]; simpl; [destruct (first bit b); mrun; [f_equal; change (zlen []) with 0; lia|done]|].
  destruct (eqb x bit); [done|]. rewrite IH. destruct (first bit a); mrun; [done|].
  destruct (first bit b); mrun; [|done]. rewrite zlen_cons. f_equal. lia.
Qed.

Lemma first_replicate bit n : first bit (replicate n (negb bit)) = None.
Proof. induction n as [|n IH]; [done|]. simpl. rewrite IH. by destruct bit. Qed.

Lemma first_None bit l : first bit l = None <-> l = replicate (length l) (negb bit).
Proof.
  split; [|intros ->; apply first_replicate].
  induction l as [|b l IH]; [done|]. cbn [first length replicate]. destruct (eqb b bit) eqn:E; [done|].
  destruct (first bit l); mrun; [done|]. intros _. rewrite <- IH by done. f_equal. by destruct b, bit.
Qed.

Lemma first_range bit l i : first bit l = Some i -> 0 <= i < zlen l.
Proof.
  revert i. induction l as [|b l IH]; intros i; [done|]. simpl. rewrite zlen_cons. pose proof (zlen_nonneg l).
  destruct (eqb b bit); [intros [= <-]; lia|]. destruct (first bit l); mrun; [|done].
  intros [= <-]. specialize (IH _ eq_refl). lia.
Qed.

Lemma word_bits_S n x : word_bits (S n) x = Z.testbit x (Z.of_nat n) :: word_bits n x.
Proof.
  unfold word_bits. rewrite Nat2Z.inj_succ, seqZ_cons by lia. rewrite fmap_cons. f_equal.
  - f_equal. lia.
  - replace (Z.succ 0) with (1 + 0) by lia. rewrite <- (fmap_add_seqZ 1 0). rewrite <- list_fmap_compose.
    replace (Z.pred (Z.succ (Z.of_nat n))) with (Z.of_nat n) by lia.
    apply list_fmap_ext. intros i y _. simpl. f_equal. lia.
Qed.

Lemma word_bits_length n x : length (word_bits n x) = n.
Proof. unfold word_bits. rewrite length_fmap, length_seqZ. lia. Qed.

Lemma bits_of_zlen s : zlen (bits_of s) = 8 * zlen s.
Proof.
  induction s as [|b s IH]; [done|]. change (bits_of (b :: s)) with (word_bits 8 b ++ bits_of s).
  rewrite zlen_app, IH, zlen_cons. unfold zlen at 1. rewrite word_bits_length. lia.
Qed.

Lemma bits_of_app a b : bits_of (a ++ b) = bits_of a ++ bits_of b.
Proof. apply bind_app. Qed.

(** The byte (and the word) that is skipped. *)
Definition skip_byte (bit : bool) : Z := if bit then 0 else 255.

Lemma skip_bits bit : word_bits 8 (skip_byte bit) = replicate 8 (negb bit).
Proof. by destruct bit; vm_compute. Qed.

Lemma skipped bit s k : first bit (bits_of (replicate k (skip_byte bit) ++ s))
  = n ← first bit (bits_of s); Some (8 * Z.of_nat k + n).
Proof.
  assert (E : bits_of (replicate k (skip_byte bit)) = replicate (8 * k) (negb bit)).
  { induction k as [|k IH]; [done|].
    change (bits_of (replicate (S k) _)) with (word_bits 8 (skip_byte bit) ++ bits_of (replicate k (skip_byte bit))).
    rewrite IH, skip_bits, <- replicate_add. f_equal. lia. }
  rewrite bits_of_app, E, first_app, first_replicate. unfold zlen. rewrite length_replicate.
  destruct (first bit (bits_of s)); mrun; [|done]. f_equal. lia.
Qed.

(** A byte that is not skipped contains the bit. *)
Lemma first_byte bit b : is_byte b -> b <> skip_byte bit -> first bit (word_bits 8 b) <> None.
Proof.
  intros Hb Hne. assert (H : forall b, 0 <= b < Z.of_nat 256 ->
    bool_decide (b <> skip_byte bit -> first bit (word_bits 8 b) <> None) = true).
  { apply (forall_below _ 256). destruct bit; vm_compute; reflexivity. }
  specialize (H b Hb). apply bool_decide_eq_true in H. by apply H.
Qed.

Lemma bitpos_unaligned_spec bit c : forall addr pos found c' pos',
  bitpos_unaligned (skip_byte bit) addr c pos = (found, c', pos') ->
  exists k, c = replicate k (skip_byte bit) ++ c' /\ pos' = pos + 8 * Z.of_nat k /\
    (found = true -> exists b r, c' = b :: r /\ b <> skip_byte bit).
Proof.
  induction c as [|b c IH]; intros addr pos found c' pos' E; cbn [bitpos_unaligned] in E.
  { injection E as <- <- <-. exists 0%nat. split; [done|]. split; [lia|done]. }
  destruct (negb (Z.land addr 7 =? 0)).
  - destruct (Z.eqb_spec b (skip_byte bit)) as [->|Hne]; cbn [negb] in E.
    + apply IH in E as (k & -> & -> & Hf). exists (S k). split; [done|]. split; [lia|done].
    + injection E as <- <- <-. exists 0%nat. split; [done|]. split; [lia|]. by eauto.
  - injection E as <- <- <-. exists 0%nat. split; [done|]. split; [lia|done].
Qed.

Definition skip_word (bit : bool) : Z := if bit then 0 else ULONG_MAX.

Lemma skip_word_bytes bit l : length l = 8%nat -> bytes_ok l -> le_val l = skip_word bit ->
  l = replicate 8 (skip_byte bit).
Proof.
  intros Hl Hb E. rewrite <- (le_bytes_val l Hb), Hl, E. destruct bit; vm_compute; reflexivity.
Qed.

Lemma bitpos_words_spec bit fuel : forall l pos, bytes_ok l -> (length l < fuel)%nat ->
  exists k l', bitpos_words fuel (skip_word bit) l pos = Some (l', pos + 8 * Z.of_nat k) /\
    l = replicate k (skip_byte bit) ++ l' /\
    (8 <= zlen l' -> exists b, b ∈ take 8 l' /\ b <> skip_byte bit).
Proof.
  induction fuel as [|fuel IH]; intros l pos Hb Hf; [lia|]. cbn [bitpos_words]. rewrite Z.geb_leb.
  destruct (Z.leb_spec 8 (zlen l)) as [Hge|Hlt].
  2: { exists 0%nat, l. split; [do 2 f_equal; lia|]. split; [done|lia]. }
  assert (H8 : length (take 8 l) = 8%nat) by (rewrite length_take; unfold zlen in Hge; lia).
  assert (Hb8 : bytes_ok (take 8 l)) by (by apply Forall_take).
  destruct (Z.eqb_spec (le_val (take 8 l)) (skip_word bit)) as [E|Hne]; cbn [negb].
  - apply (skip_word_bytes bit) in E; [|done|done].
    destruct (IH (drop 8 l) (pos + 64)) as (k & l' & -> & Hd & Hl'); [by apply Forall_drop|rewrite length_drop; unfold zlen in Hge; lia|].
    exists (8 + k)%nat, l'. split; [do 2 f_equal; lia|]. split; [|done].
    rewrite replicate_add, <- app_assoc, <- Hd, <- E. by rewrite take_drop.
  - exists 0%nat, l. split; [do 2 f_equal; lia|]. split; [done|]. intros _.
    destruct (decide (Forall (fun b => b = skip_byte bit) (take 8 l))) as [Hall|Hnot].
    + exfalso. apply Hne. replace (take 8 l) with (replicate 8 (skip_byte bit)).
      2: { apply replicate_as_elem_of. split; [done|]. by apply Forall_forall. }
      destruct bit; vm_compute; reflexivity.
    + apply not_Forall_Exists, Exists_exists in Hnot as (b & ? & ?); [eauto|]. intros ?. apply _.
Qed.

Lemma word_bits_ext n x y : (forall i, 0 <= i < Z.of_nat n -> Z.testbit x i = Z.testbit y i) ->
  word_bits n x = word_bits n y.
Proof.
  induction n as [|n IH]; intros Hxy; [done|]. rewrite !word_bits_S. f_equal; [apply Hxy; lia|].
  apply IH. intros. apply Hxy. lia.
Qed.

Lemma word_bits_shift m w b : is_byte b ->
  word_bits (m + 8) (Z.lor (Z.shiftl w 8) b) = word_bits m w ++ word_bits 8 b.
Proof.
  intros Hb. induction m as [|m IH].
  - apply word_bits_ext. intros i Hi. rewrite Z.lor_spec, Z.shiftl_spec_low by lia. done.
  - change (S m + 8)%nat with (S (m + 8)). rewrite !word_bits_S, IH. simpl. f_equal.
    rewrite Z.lor_spec, Z.shiftl_spec by lia. rewrite (Crc.testbit_small b 8) by (unfold is_byte in Hb; lia).
    rewrite orb_false_r. f_equal. lia.
Qed.

Lemma load_word_spec j : forall c m w, bytes_ok c -> 0 <= w < 2 ^ Z.of_nat m -> (m + 8 * j = 64)%nat ->
  word_bits 64 (load_word j c w) = word_bits m w ++ bits_of (take j (c ++ replicate j 0)) /\
  0 <= load_word j c w < 2 ^ 64.
Proof.
  induction j as [|j IH]; intros c m w Hc Hw Hm.
  { replace m with 64%nat in * by lia. cbn [load_word take]. change (bits_of []) with (@nil bool).
    rewrite app_nil_r. done. }
  assert (Hsh : 0 <= Z.shiftl w 8 < 2 ^ (Z.of_nat (m + 8))).
  { rewrite Z.shiftl_mul_pow2 by lia. rewrite Nat2Z.inj_add, Z.pow_add_r by lia.
    change (2 ^ Z.of_nat 8) with (2 ^ 8). change (2 ^ 8) with 256. lia. }
  assert (H64 : 2 ^ Z.of_nat (m + 8) <= 2 ^ 64) by (apply Z.pow_le_mono_r; lia).
  assert (Hstep : forall b, is_byte b -> 0 <= Z.lor (Z.shiftl w 8) b < 2 ^ Z.of_nat (m + 8)).
  { intros b Hb. unfold is_byte in Hb. rewrite lor_disjoint.
    - rewrite Z.shiftl_mul_pow2 in * by lia. rewrite Nat2Z.inj_add, Z.pow_add_r in * by lia.
      change (2 ^ Z.of_nat 8) with 256 in *. change (2 ^ 8) with 256 in *. lia.
    - apply Z.bits_inj'. intros i Hi. rewrite Z.land_spec, Z.bits_0. destruct (Z.lt_ge_cases i 8).
      + by rewrite Z.shiftl_spec_low by lia.
      + rewrite (Crc.testbit_small b 8) by lia. apply andb_false_r. }
  cbn [load_word]. rewrite uN_id by lia.
  destruct c as [|b c].
  - rewrite <- (Z.lor_0_r (Z.shiftl w 8)).
    destruct (IH [] (m + 8)%nat (Z.lor (Z.shiftl w 8) 0)) as [E Hr]; [done|by apply Hstep|lia|].
    rewrite E. split; [|done]. rewrite word_bits_shift by done. rewrite <- app_assoc. done.
  - apply Forall_cons in Hc as [Hb Hc].
    destruct (IH c (m + 8)%nat (Z.lor (Z.shiftl w 8) b)) as [E Hr]; [done|by apply Hstep|lia|].
    rewrite E. split; [|done]. rewrite word_bits_shift by done. rewrite <- app_assoc. f_equal.
    cbn [app take]. change (bits_of (b :: take j (c ++ replicate (S j) 0)))
      with (word_bits 8 b ++ bits_of (take j (c ++ replicate (S j) 0))). do 2 f_equal.
    rewrite replicate_S_end, app_assoc.
    rewrite (take_app_le (c ++ replicate j 0)); [done|]. rewrite length_app, length_replicate. lia.
Qed.

Lemma testbit_land k word : 0 <= k -> negb (Z.land (2 ^ k) word =? 0) = Z.testbit word k.
Proof.
  intros Hk. destruct (Z.testbit word k) eqn:Et.
  - apply negb_true_iff, Z.eqb_neq. intros E. apply (f_equal (fun x => Z.testbit x k)) in E.
    rewrite Z.land_spec, Z.bits_0, Et, Z.pow2_bits_true in E by lia. done.
  - apply negb_false_iff, Z.eqb_eq. apply Z.bits_inj'. intros i Hi. rewrite Z.land_spec, Z.bits_0.
    rewrite Z.pow2_bits_eqb by lia. destruct (Z.eqb_spec k i) as [<-|]; [by rewrite Et|done].
Qed.

Lemma scan_word_spec bit word k : forall fuel pos, (k + 1 < fuel)%nat ->
  scan_word fuel bit word (2 ^ Z.of_nat k) pos
  = n ← first bit (word_bits (S k) word); Some (pos + n).
Proof.
  induction k as [|k IH]; intros fuel pos Hf; destruct fuel as [|fuel]; try lia; cbn [scan_word];
    rewrite (proj2 (Z.eqb_neq (2 ^ _) 0)) by (apply Z.pow_nonzero; lia);
    rewrite word_bits_S, testbit_land by lia; cbn [first].
  - destruct (eqb _ bit); [mrun; f_equal; lia|]. destruct fuel as [|fuel]; [lia|].
    change (Z.shiftr (2 ^ Z.of_nat 0) 1) with 0. done.
  - destruct (eqb _ bit); [mrun; f_equal; lia|].
    replace (Z.shiftr (2 ^ Z.of_nat (S k)) 1) with (2 ^ Z.of_nat k).
    + rewrite IH by lia. destruct (first bit _); mrun; [f_equal; lia|done].
    + rewrite Z.shiftr_div_pow2, Nat2Z.inj_succ, Z.pow_succ_r by lia. change (2 ^ 1) with 2.
      rewrite Z.mul_comm, Z.div_mul by lia. done.
Qed.

(** A word without a set bit is zero. *)
Lemma word_zero n x : 0 <= x < 2 ^ Z.of_nat n -> first true (word_bits n x) = None <-> x = 0.
Proof.
  intros Hx. split.
  - intros Hf. apply Z.bits_inj'. intros i Hi. rewrite Z.bits_0.
    destruct (Z.lt_ge_cases i (Z.of_nat n)) as [Hlt|Hge]; [|by apply (Crc.testbit_small x (Z.of_nat n))].
    clear Hx. revert Hf. induction n as [|n IH]; [lia|]. rewrite word_bits_S. cbn [first].
    destruct (Z.testbit x (Z.of_nat n)) eqn:Et; [done|]. cbn [eqb].
    destruct (first true (word_bits n x)) eqn:Ef; mrun; [done|]. intros _.
    destruct (Z.eq_dec i (Z.of_nat n)) as [->|]; [done|]. apply IH; [lia|done].
  - intros ->. clear Hx. induction n as [|n IH]; [done|]. rewrite word_bits_S. cbn [first].
    rewrite Z.bits_0, IH. done.
Qed.

Lemma first_contains bit l b : bytes_ok l -> b ∈ l -> b <> skip_byte bit -> first bit (bits_of l) <> None.
Proof.
  intros Hl Hb Hne. apply list_elem_of_split in Hb as (x & y & ->).
  apply Forall_app in Hl as [_ [Hbb _]%Forall_cons].
  change (bits_of (x ++ b :: y)) with (bits_of (x ++ [b] ++ y)). rewrite !bits_of_app, !first_app.
  pose proof (first_byte bit b Hbb Hne) as Hf. change (bits_of [b]) with (word_bits 8 b ++ []).
  rewrite app_nil_r. destruct (first bit (bits_of x)); [done|].
  by destruct (first bit (word_bits 8 b)).
Qed.

(** The last word, padded with zeros, gives the answer for what is left. *)
Lemma last_word bit l : bytes_ok l ->
  (8 <= zlen l -> exists b, b ∈ take 8 l /\ b <> skip_byte bit) ->
  let word := load_word 8 l 0 in
  (if bit && (word =? 0) then Some (-1) else scan_word 65 bit word (u64 (Z.lnot (Z.shiftr ULONG_MAX 1))) 0)
  = Some (match first bit (bits_of l) with Some i => i | None => if bit then -1 else 8 * zlen l end).
Proof.
  intros Hl Hlong. cbv zeta. destruct (load_word_spec 8 l 0 0 Hl ltac:(simpl; lia) ltac:(lia)) as [Ew Hr].
  set (word := load_word 8 l 0) in *. clearbody word. cbn [word_bits] in Ew.
  change (word_bits 0 0 ++ ?x) with x in Ew.
  change (u64 (Z.lnot (Z.shiftr ULONG_MAX 1))) with (2 ^ Z.of_nat 63).
  rewrite scan_word_spec by lia. change (S 63) with 64%nat.
  pose proof (word_zero 64 word Hr) as Hz. rewrite Ew in Hz |- *.
  assert (Hpad : first bit (bits_of (take 8 (l ++ replicate 8 0))) = match first bit (bits_of l) with
    | Some i => Some i | None => if bit then None else Some (8 * zlen l) end).
  { destruct (Z.lt_ge_cases (zlen l) 8) as [Hs|Hs].
    - unfold zlen in Hs. rewrite take_app_ge by lia. rewrite take_replicate, bits_of_app, first_app.
      replace ((8 - length l) `min` 8)%nat with (S (7 - length l)) by lia.
      destruct (first bit (bits_of l)); [done|]. rewrite bits_of_zlen. destruct bit.
      + pose proof (skipped true [] (S (7 - length l))) as E. rewrite app_nil_r in E.
        change (skip_byte true) with 0 in E. by rewrite E.
      + change (bits_of (replicate (S (7 - length l)) 0))
          with (word_bits 8 0 ++ bits_of (replicate (7 - length l) 0)). rewrite first_app.
        change (first false (word_bits 8 0)) with (Some 0). mrun. f_equal. lia.
    - destruct (Hlong Hs) as (b & Hb & Hne). unfold zlen in Hs. rewrite take_app_le by lia.
      pose proof (first_contains bit (take 8 l) b (Forall_take _ _ _ Hl) Hb Hne) as Hf.
      rewrite <- (take_drop 8 l) at 2. rewrite bits_of_app, first_app.
      by destruct (first bit (bits_of (take 8 l))). }
  destruct bit; cbn [andb].
  - rewrite Hpad in Hz |- *. destruct (first true (bits_of l)) as [i|].
    + rewrite (proj2 (Z.eqb_neq word 0)); [mrun; f_equal; lia|]. intros E0. discriminate (proj2 Hz E0).
    + by rewrite (proj1 Hz eq_refl).
  - rewrite Hpad. destruct (first false (bits_of l)); mrun; f_equal; lia.
Qed.

Lemma scan_word_pos fuel bit word : forall one pos,
  scan_word fuel bit word one pos = n ← scan_word fuel bit word one 0; Some (pos + n).
Proof.
  induction fuel as [|fuel IH]; intros one pos; [done|]. cbn [scan_word].
  destruct (one =? 0); [done|]. destruct (eqb _ bit); [mrun; f_equal; lia|].
  rewrite (IH _ (pos + 1)), (IH _ (0 + 1)). destruct (scan_word _ _ _ _ 0); mrun; [f_equal; lia|done].
Qed.

(** C33: [redisBitpos] is the position of the first bit with the given value,
    wherever the string starts in memory.  Without such a bit it is -1 for ones
    and, because the string counts as padded with zeros, the length in bits for
    zeros; the panic at the end is never reached. *)
Theorem redisBitpos_correct (addr : Z) (s : list Z) (bit : bool) : bytes_ok s ->
  redisBitpos addr s bit
  = Some (match first bit (bits_of s) with Some i => i | None => if bit then -1 else 8 * zlen s end).
Proof.
  intros Hs. unfold redisBitpos.
  change (if bit then 0 else UCHAR_MAX) with (skip_byte bit). change (if bit then 0 else ULONG_MAX) with (skip_word bit).
  destruct (bitpos_unaligned (skip_byte bit) addr s 0) as [[found c] pos] eqn:Eu.
  apply bitpos_unaligned_spec in Eu as (k & -> & -> & Hfound). apply Forall_app in Hs as [_ Hc].
  assert (Hmid : exists k' l, (if found then Some (c, 0 + 8 * Z.of_nat k)
      else bitpos_words (S (length c)) (skip_word bit) c (0 + 8 * Z.of_nat k)) = Some (l, 8 * Z.of_nat (k + k')) /\
    c = replicate k' (skip_byte bit) ++ l /\ (8 <= zlen l -> exists b, b ∈ take 8 l /\ b <> skip_byte bit)).
  { destruct found.
    - exists 0%nat, c. split; [do 2 f_equal; lia|]. split; [done|]. intros _.
      destruct (Hfound eq_refl) as (b & r & -> & Hne). exists b. split; [simpl; set_solver|done].
    - destruct (bitpos_words_spec bit (S (length c)) c (0 + 8 * Z.of_nat k) Hc ltac:(lia)) as (k' & l & -> & -> & Hl).
      exists k', l. split; [do 2 f_equal; lia|done]. }
  destruct Hmid as (k' & l & -> & -> & Hlong). mrun. apply Forall_app in Hc as [_ Hl].
  pose proof (last_word bit l Hl Hlong) as Hlast. cbv zeta in Hlast.
  rewrite app_assoc, <- replicate_add, skipped, zlen_app. unfold zlen at 1. rewrite length_replicate.
  destruct (bit && (load_word 8 l 0 =? 0)) eqn:Hb.
  - injection Hlast as Hlast. apply andb_true_iff in Hb as [-> _]. 
    destruct (first true (bits_of l)) as [i|] eqn:Ef; [|done]. apply first_range in Ef. lia.
  - rewrite scan_word_pos, Hlast. mrun. destruct (first bit (bits_of l)) as [i|] eqn:Ef; mrun; [done|].
    destruct bit; [|f_equal; lia]. exfalso.
    destruct (load_word_spec 8 l 0 0 Hl ltac:(simpl; lia) ltac:(lia)) as [_ Hr].
    assert (Hm1 : exists n, scan_word 65 true (load_word 8 l 0) (u64 (Z.lnot (Z.shiftr ULONG_MAX 1))) 0 = Some n /\ 0 <= n).
    { change (u64 (Z.lnot (Z.shiftr ULONG_MAX 1))) with (2 ^ Z.of_nat 63). rewrite scan_word_spec by lia.
      destruct (first true (word_bits (S 63) (load_word 8 l 0))) as [n|] eqn:E; mrun.
      - apply first_range in E. eexists. split; [reflexivity|lia].
      - apply (word_zero 64) in E; [|done]. rewrite E in Hb. done. }
    destruct Hm1 as (n & E & Hn). rewrite E in Hlast. injection Hlast as ->. lia.
Qed.

Lemma redisBitpos_correct_witness : redisBitpos 5 (replicate 20 0 ++ [8]) true = Some 164.
Proof.
  refine (eq_trans (redisBitpos_correct 5 (replicate 20 0 ++ [8]) true _) _).
  - repeat constructor; vm_compute; discriminate.
  - vm_compute. reflexivity.
Defined.

(** ** Bitfields *)

(** Bit [i] of a bitmap, bit 0 being the most significant bit of the first byte. *)
Definition bit_at (p : list Z) (i : Z) : bool :=
  match zget p (i / 8) with Some b => Z.testbit b (7 - i mod 8) | None => false end.

Lemma put_insert p i x : 0 <= i < zlen p -> put p i x = Some (<[Z.to_nat i := x]> p).
Proof.
  intros Hi. unfold put. rewrite mem_write_safe by (change (zlen [x]) with 1; lia).
  unfold zlen in *. rewrite insert_take_drop by lia. simpl. do 4 f_equal. lia.
Qed.

Lemma zget_insert (p : list Z) i j x : 0 <= i < zlen p -> 0 <= j ->
  zget (<[Z.to_nat i := x]> p) j = if j =? i then Some x else zget p j.
Proof.
  intros Hi Hj. unfold zget. zif_true. unfold zlen in Hi. destruct (Z.eqb_spec j i) as [->|Hne].
  - apply list_lookup_insert_eq. lia.
  - by rewrite list_lookup_insert_ne by lia.
Qed.

(** The byte with one bit replaced. *)
Definition replace_bit (b bit bitval : Z) : Z :=
  Z.land (Z.lor (Z.land b (u64 (Z.lnot (Z.shiftl 1 bit)))) (Z.shiftl bitval bit)) 0xff.

Lemma replace_bit_spec b bit (v : bool) : is_byte b -> 0 <= bit < 8 ->
  is_byte (replace_bit b bit (Z.b2z v)) /\
  forall k, 0 <= k < 8 -> Z.testbit (replace_bit b bit (Z.b2z v)) k = if k =? bit then v else Z.testbit b k.
Proof.
  intros Hb Hbit. unfold replace_bit. split.
  - change 0xff with (Z.ones 8). rewrite Z.land_ones by lia. by apply Z.mod_pos_bound.
  - intros k Hk. change 0xff with (Z.ones 8).
    rewrite Z.land_spec, Z.ones_spec_low, andb_true_r, Z.lor_spec, Z.land_spec, uN_bits by lia.
    rewrite (proj2 (Z.ltb_lt k 64)) by lia. rewrite Z.lnot_spec by lia.
    rewrite !Z.shiftl_spec by lia. destruct (Z.eqb_spec k bit) as [->|Hne].
    + rewrite Z.sub_diag. destruct v; simpl; [by rewrite orb_true_r|by rewrite andb_false_r].
    + destruct (Z.lt_ge_cases k bit).
      * rewrite !(Z.testbit_neg_r _ (k - bit)) by lia. simpl. by rewrite orb_false_r, andb_true_r.
      * rewrite (Crc.testbit_small 1 1), (Crc.testbit_small (Z.b2z v) 1 (k - bit)) by (destruct v; simpl; lia).
        simpl. by rewrite orb_false_r, andb_true_r.
Qed.

Lemma offset_split off : 0 <= off -> Z.shiftr off 3 = off / 8 /\ Z.land off 0x7 = off mod 8.
Proof.
  intros Ho. rewrite Z.shiftr_div_pow2 by lia. change 0x7 with (Z.ones 3). rewrite Z.land_ones by lia. done.
Qed.

(** Two bit positions are equal when byte and bit are. *)
Lemma same_position i j : (i / 8 = j / 8 /\ 7 - i mod 8 = 7 - j mod 8) <-> i = j.
Proof. split; [|by intros ->]. intros [H1 H2]. rewrite (Z.div_mod i 8), (Z.div_mod j 8) by lia. lia. Qed.

Lemma set_bit_spec p off (v : bool) : bytes_ok p -> 0 <= off < 8 * zlen p ->
  exists b, zget p (off / 8) = Some b /\
    let p' := <[Z.to_nat (off / 8) := replace_bit b (7 - off mod 8) (Z.b2z v)]> p in
    put p (off / 8) (replace_bit b (7 - off mod 8) (Z.b2z v)) = Some p' /\
    bytes_ok p' /\ zlen p' = zlen p /\
    forall i, 0 <= i -> bit_at p' i = if i =? off then v else bit_at p i.
Proof.
  intros Hp Ho. assert (Hq : 0 <= off / 8 < zlen p) by (split; [apply Z.div_pos; lia|apply Z.div_lt_upper_bound; lia]).
  pose proof (Z.mod_pos_bound off 8 ltac:(lia)).
  destruct (zget_Some p (off / 8) Hq) as [b Eb]. pose proof (zget_bytes _ _ _ Hp Eb) as Hb.
  destruct (replace_bit_spec b (7 - off mod 8) v Hb ltac:(lia)) as [Hnb Hbits].
  exists b. split; [done|]. cbv zeta. split; [by apply put_insert|].
  split; [by apply Forall_insert|]. split; [unfold zlen; by rewrite length_insert|].
  intros i Hi. unfold bit_at. pose proof (Z.mod_pos_bound i 8 ltac:(lia)).
  assert (0 <= i / 8) by (apply Z.div_pos; lia).
  rewrite zget_insert by lia. destruct (Z.eqb_spec (i / 8) (off / 8)) as [E|E].
  - rewrite Hbits by lia. destruct (Z.eqb_spec (7 - i mod 8) (7 - off mod 8)) as [E'|E'].
    + by rewrite (proj2 (Z.eqb_eq i off)) by (by apply same_position).
    + rewrite (proj2 (Z.eqb_neq i off)) by (intros ->; done). by rewrite E, Eb.
  - by rewrite (proj2 (Z.eqb_neq i off)) by (intros ->; done).
Qed.

Lemma bitval_bit value k : 0 <= k < 64 ->
  (if negb (Z.land value (u64 (Z.shiftl 1 k)) =? 0) then 1 else 0) = Z.b2z (Z.testbit value k).
Proof.
  intros Hk. assert (H2 : 2 ^ k < 2 ^ 64) by (apply Z.pow_lt_mono_r; lia). pose proof (pow2_pos k ltac:(lia)).
  rewrite Z.shiftl_1_l, uN_id by lia. rewrite Z.land_comm, testbit_land by lia. by destruct (Z.testbit value k).
Qed.

Lemma set_loop_spec n : forall p off bits value j, bytes_ok p -> 0 <= off -> 0 <= j -> j + Z.of_nat n = bits ->
  bits <= 64 -> off + Z.of_nat n <= 8 * zlen p -> off + Z.of_nat n < 2 ^ 64 ->
  exists p', setUnsignedBitfield_loop n p off bits value j = Some p' /\ bytes_ok p' /\ zlen p' = zlen p /\
    forall i, 0 <= i -> bit_at p' i =
      if (off <=? i) && (i <? off + Z.of_nat n) then Z.testbit value (bits - 1 - j - (i - off)) else bit_at p i.
Proof.
  induction n as [|n IH]; intros p off bits value j Hp Ho Hj Hn H64 Hin Hmax.
  { exists p. split; [done|]. split; [done|]. split; [done|]. intros i Hi. by zif_false. }
  cbn [setUnsignedBitfield_loop]. cbv zeta. rewrite bitval_bit by lia.
  destruct (offset_split off Ho) as [-> ->].
  destruct (set_bit_spec p off (Z.testbit value (bits - 1 - j)) Hp ltac:(lia)) as (b & -> & Hput & Hok & Hz & Hbits).
  mrun. unfold replace_bit in Hput. rewrite Hput. mrun. fold (replace_bit b (7 - off mod 8) (Z.b2z (Z.testbit value (bits - 1 - j)))).
  set (p1 := <[_:=_]> p) in *.
  rewrite u64_id by (unfold in_u64, ULLONG_MAX; lia).
  destruct (IH p1 (off + 1) bits value (j + 1)) as (p' & -> & Hok' & Hz' & Hb'); [done|lia..|].
  exists p'. split; [done|]. split; [done|]. split; [lia|]. intros i Hi. rewrite Hb' by done.
  destruct (Z.leb_spec (off + 1) i), (Z.ltb_spec i (off + 1 + Z.of_nat n)); cbn [andb].
  - zif_true. f_equal. lia.
  - rewrite Hbits by done. rewrite (proj2 (Z.eqb_neq i off)) by lia. by zif_false.
  - rewrite Hbits by done. destruct (Z.eqb_spec i off) as [->|]; [zif_true; f_equal; lia|by zif_false].
  - lia.
Qed.

Lemma get_loop_spec n : forall p off value, bytes_ok p -> 0 <= off -> off + Z.of_nat n <= 8 * zlen p ->
  off + Z.of_nat n < 2 ^ 64 -> 0 <= value -> value < 2 ^ (64 - Z.of_nat n) -> (n <= 64)%nat ->
  exists v, getUnsignedBitfield_loop n p off value = Some v /\ 0 <= v < (value + 1) * 2 ^ Z.of_nat n /\
    forall k, 0 <= k -> Z.testbit v k =
      if k <? Z.of_nat n then bit_at p (off + Z.of_nat n - 1 - k) else Z.testbit value (k - Z.of_nat n).
Proof.
  induction n as [|n IH]; intros p off value Hp Ho Hin Hmax H0 Hv Hn.
  { exists value. split; [done|]. split; [change (2 ^ Z.of_nat 0) with 1; lia|]. intros k Hk. zif_false.
    f_equal. lia. }
  cbn [getUnsignedBitfield_loop]. cbv zeta. destruct (offset_split off Ho) as [-> ->].
  assert (Hq : 0 <= off / 8 < zlen p) by (split; [apply Z.div_pos; lia|apply Z.div_lt_upper_bound; lia]).
  destruct (zget_Some p (off / 8) Hq) as [b Eb]. rewrite Eb. mrun.
  pose proof (Z.mod_pos_bound off 8 ltac:(lia)) as Hm.
  assert (Ebit : Z.land (Z.shiftr b (7 - off mod 8)) 1 = Z.b2z (bit_at p off)).
  { unfold bit_at. rewrite Eb. change 1 with (Z.ones 1) at 1. rewrite Z.land_ones by lia.
    rewrite <- Z.bit0_mod, Z.shiftr_spec by lia. done. }
  rewrite Ebit. rewrite Nat2Z.inj_succ in *. rewrite u64_id by (unfold in_u64, ULLONG_MAX; lia).
  assert (Hpow : 2 ^ (64 - Z.of_nat n) = 2 * 2 ^ (64 - Z.succ (Z.of_nat n)))
    by (rewrite <- Z.pow_succ_r by lia; f_equal; lia).
  assert (Hle : 2 ^ (64 - Z.of_nat n) <= 2 ^ 64) by (apply Z.pow_le_mono_r; lia).
  rewrite (Z.shiftl_mul_pow2 value) by lia. change (2 ^ 1) with 2. rewrite uN_id by lia.
  assert (Hlor : Z.lor (value * 2) (Z.b2z (bit_at p off)) = 2 * value + Z.b2z (bit_at p off)).
  { rewrite lor_disjoint; [lia|]. apply Z.bits_inj'. intros i Hi. rewrite Z.land_spec, Z.bits_0.
    destruct (Z.eq_dec i 0) as [->|]; [by rewrite Z.mul_comm, Z.testbit_even_0|].
    rewrite (Crc.testbit_small (Z.b2z _) 1 i) by (destruct (bit_at p off); simpl; lia). apply andb_false_r. }
  rewrite Hlor. assert (Hb2 : 0 <= Z.b2z (bit_at p off) <= 1) by (destruct (bit_at p off); simpl; lia).
  destruct (IH p (off + 1) (2 * value + Z.b2z (bit_at p off))) as (v & -> & Hr & Hbits); [done|lia..|].
  exists v. split; [done|]. rewrite Z.pow_succ_r by lia. pose proof (pow2_pos (Z.of_nat n) ltac:(lia)).
  split; [nia|]. intros k Hk. rewrite Hbits by done.
  destruct (Z.ltb_spec k (Z.of_nat n)); [zif_true; f_equal; lia|].
  destruct (Z.eq_dec k (Z.of_nat n)) as [->|].
  - zif_true. rewrite Z.sub_diag. replace (off + Z.succ (Z.of_nat n) - 1 - Z.of_nat n) with off by lia.
    destruct (bit_at p off); simpl Z.b2z; [by rewrite Z.testbit_odd_0|by rewrite Z.add_0_r, Z.testbit_even_0].
  - zif_false. replace (k - Z.of_nat n) with (Z.succ (k - Z.succ (Z.of_nat n))) by lia.
    destruct (bit_at p off); simpl Z.b2z.
    + by rewrite Z.testbit_odd_succ by lia.
    + by rewrite Z.add_0_r, Z.testbit_even_succ by lia.
Qed.

Lemma get_unsigned_spec p off bits : bytes_ok p -> 0 <= off -> 0 <= bits <= 64 -> off + bits <= 8 * zlen p ->
  off + bits < 2 ^ 64 ->
  exists v, getUnsignedBitfield p off bits = Some v /\ 0 <= v < 2 ^ bits /\
    forall k, 0 <= k < bits -> Z.testbit v k = bit_at p (off + bits - 1 - k).
Proof.
  intros Hp Ho Hb Hin Hmax. unfold getUnsignedBitfield.
  destruct (get_loop_spec (Z.to_nat bits) p off 0) as (v & -> & Hr & Hbits); [done|lia..|apply Z.pow_pos_nonneg; lia|lia|].
  rewrite Z2Nat.id in * by lia. exists v. split; [done|]. split; [lia|].
  intros k Hk. rewrite Hbits by lia. by zif_true.
Qed.

(** A field that was set reads back as its low bits. *)
Lemma set_get p off bits value : bytes_ok p -> 0 <= off -> 0 <= bits <= 64 -> off + bits <= 8 * zlen p ->
  off + bits < 2 ^ 64 ->
  exists p', setUnsignedBitfield p off bits value = Some p' /\ bytes_ok p' /\ zlen p' = zlen p /\
    (forall i, 0 <= i -> ~ (off <= i < off + bits) -> bit_at p' i = bit_at p i) /\
    getUnsignedBitfield p' off bits = Some (uN bits value).
Proof.
  intros Hp Ho Hb Hin Hmax. unfold setUnsignedBitfield.
  destruct (set_loop_spec (Z.to_nat bits) p off bits value 0) as (p' & -> & Hp' & Hz & Hbits); [done|lia..|].
  rewrite Z2Nat.id in Hbits by lia. exists p'. split; [done|]. split; [done|]. split; [done|]. split.
  - intros i Hi Hout. rewrite Hbits by done. by zif_false.
  - destruct (get_unsigned_spec p' off bits) as (v & -> & Hr & Hv); [done|lia..|]. f_equal.
    apply Z.bits_inj'. intros k Hk. rewrite uN_bits by lia. destruct (Z.ltb_spec k bits).
    + rewrite Hv, Hbits by lia. zif_true. simpl. f_equal. lia.
    + by apply (Crc.testbit_small v bits).
Qed.

(** [setUnsignedBitfield] stays inside a bitmap that has the bits, changes
    no bit outside the field, and [getUnsignedBitfield] reads back the low
    [bits] bits of the value. *)
Theorem unsigned_bitfield_roundtrip (p : list Z) (offset bits value : Z) :
  bytes_ok p -> 0 <= offset -> 0 <= bits <= 64 -> offset + bits <= 8 * zlen p -> offset + bits < 2 ^ 64 ->
  exists p', setUnsignedBitfield p offset bits value = Some p' /\ zlen p' = zlen p /\
    (forall i, 0 <= i -> ~ (offset <= i < offset + bits) -> bit_at p' i = bit_at p i) /\
    getUnsignedBitfield p' offset bits = Some (value mod 2 ^ bits).
Proof.
  intros Hp Ho Hb Hin Hmax.
  destruct (set_get p offset bits value Hp Ho Hb Hin Hmax) as (p' & E & _ & Hz & Hout & Hg). by exists p'.
Qed.

Lemma unsigned_bitfield_roundtrip_witness :
  exists p', setUnsignedBitfield [0; 0] 7 5 23 = Some p' /\ zlen p' = 2 /\
    (forall i, 0 <= i -> ~ (7 <= i < 7 + 5) -> bit_at p' i = bit_at [0; 0] i) /\
    getUnsignedBitfield p' 7 5 = Some 23.
Proof.
  apply (unsigned_bitfield_roundtrip [0; 0] 7 5 23).
  - repeat constructor; vm_compute; discriminate.
  - lia.
  - lia.
  - vm_compute. discriminate.
  - lia.
Defined.

(** A shifted mask of ones. *)
Lemma high_mask bits : 0 <= bits -> u64 (Z.shiftl ULLONG_MAX bits) = 2 ^ 64 - 2 ^ Z.min bits 64.
Proof.
  intros Hb. rewrite Z.shiftl_mul_pow2 by lia. change ULLONG_MAX with (2 ^ 64 - 1). unfold uN.
  destruct (Z.le_gt_cases bits 64) as [Hle|Hgt].
  - rewrite Z.min_l by lia. assert (2 ^ bits <= 2 ^ 64) by (apply Z.pow_le_mono_r; lia).
    pose proof (pow2_pos bits Hb). symmetry. apply Z.mod_unique with (2 ^ bits - 1); [left; lia|lia].
  - rewrite Z.min_r by lia. replace (2 ^ bits) with (2 ^ (bits - 64) * 2 ^ 64) by (rewrite <- Z.pow_add_r by lia; f_equal; lia).
    rewrite Z.mul_assoc, Z.mod_mul by lia. lia.
Qed.

Lemma high_mask_bits bits k : 0 <= bits <= 64 -> 0 <= k ->
  Z.testbit (u64 (Z.shiftl ULLONG_MAX bits)) k = (bits <=? k) && (k <? 64).
Proof.
  intros Hb Hk. rewrite uN_bits by lia. change ULLONG_MAX with (Z.ones 64).
  destruct (Z.leb_spec bits k); [|by rewrite Z.shiftl_spec_low by lia; rewrite andb_false_r].
  rewrite Z.shiftl_spec by lia. destruct (Z.ltb_spec k 64); [|done]. cbn [andb]. apply Z.ones_spec_low. lia.
Qed.

Lemma testbit_top x bits : 0 <= bits -> 0 <= x < 2 ^ (bits + 1) -> Z.testbit x bits = (2 ^ bits <=? x).
Proof.
  intros Hb Hx. rewrite Z.pow_add_r in Hx by lia. change (2 ^ 1) with 2 in Hx.
  rewrite Z.testbit_eqb by lia. pose proof (pow2_pos bits Hb).
  destruct (Z.leb_spec (2 ^ bits) x).
  - replace (x / 2 ^ bits) with 1 by (apply Z.div_unique with (x - 2 ^ bits); lia). done.
  - by rewrite Z.div_small by lia.
Qed.

(** Sign extension as the code does it. *)
Lemma sign_extend v bits : 1 <= bits <= 63 -> 0 <= v < 2 ^ bits ->
  (if Z.testbit v (bits - 1) then s64 (Z.lor v (u64 (Z.shiftl ULLONG_MAX bits))) else s64 v) = sN bits v.
Proof.
  intros Hb Hv. assert (Hp : 2 ^ bits = 2 * 2 ^ (bits - 1)) by (rewrite <- Z.pow_succ_r by lia; f_equal; lia).
  assert (Hle : 2 ^ bits <= 2 ^ 63) by (apply Z.pow_le_mono_r; lia). pose proof (pow2_pos (bits - 1) ltac:(lia)).
  rewrite testbit_top by (replace (bits - 1 + 1) with bits by lia; lia).
  unfold sN at 3. destruct (Z.leb_spec (2 ^ (bits - 1)) v) as [Hge|Hlt].
  - rewrite lor_disjoint.
    + rewrite high_mask, Z.min_l by lia.
      replace (s64 (v + (2 ^ 64 - 2 ^ bits))) with (v - 2 ^ bits).
      * replace (v + 2 ^ (bits - 1)) with (v - 2 ^ (bits - 1) + 1 * 2 ^ bits) by lia.
        rewrite Z.mod_add, Z.mod_small by lia. lia.
      * unfold sN. replace (v + (2 ^ 64 - 2 ^ bits) + 2 ^ (64 - 1)) with (v - 2 ^ bits + 2 ^ (64 - 1) + 1 * 2 ^ 64) by lia.
        rewrite Z.mod_add by lia. rewrite Z.mod_small; lia.
    + apply Z.bits_inj'. intros k Hk. rewrite Z.land_spec, high_mask_bits, Z.bits_0 by lia.
      destruct (Z.leb_spec bits k); [|by rewrite andb_false_r]. by rewrite (Crc.testbit_small v bits k) by lia.
  - rewrite Z.mod_small by lia. rewrite s64_id by (unfold in_s64, LLONG_MIN, LLONG_MAX; lia). lia.
Qed.

(** A signed field of up to 63 bits reads back the value that was set when it
    fits, and no bit outside the field changes. *)
Theorem signed_bitfield_roundtrip (p : list Z) (offset bits value : Z) :
  bytes_ok p -> 0 <= offset -> 1 <= bits <= 63 -> offset + bits <= 8 * zlen p -> offset + bits < 2 ^ 64 ->
  - 2 ^ (bits - 1) <= value < 2 ^ (bits - 1) ->
  exists p', setSignedBitfield p offset bits value = Some p' /\ zlen p' = zlen p /\
    (forall i, 0 <= i -> ~ (offset <= i < offset + bits) -> bit_at p' i = bit_at p i) /\
    getSignedBitfield p' offset bits = Some value.
Proof.
  intros Hp Ho Hb Hin Hmax Hv. unfold setSignedBitfield. cbv zeta.
  destruct (set_get p offset bits (u64 value) Hp Ho ltac:(lia) Hin Hmax) as (p' & -> & _ & Hz & Hout & Hg).
  exists p'. split; [done|]. split; [done|]. split; [done|]. unfold getSignedBitfield. rewrite Hg. mrun.
  assert (Huu : uN bits (u64 value) = uN bits value).
  { apply Z.bits_inj'. intros k Hk. rewrite !uN_bits by lia. destruct (Z.ltb_spec k bits); [|done].
    by rewrite (proj2 (Z.ltb_lt k 64)) by lia. }
  rewrite Huu. pose proof (uN_range bits value ltac:(lia)) as Hr.
  assert (Hle : 2 ^ bits <= 2 ^ 63) by (apply Z.pow_le_mono_r; lia).
  rewrite (s64_id (uN bits value)) by (unfold in_s64, LLONG_MIN, LLONG_MAX; lia). rewrite (uN_id 64) by lia.
  pose proof (sign_extend (uN bits value) bits Hb Hr) as Hse.
  rewrite sN_uN in Hse by lia.
  assert (H2 : 2 ^ (bits - 1) < 2 ^ 64) by (apply Z.pow_lt_mono_r; lia). pose proof (pow2_pos (bits - 1) ltac:(lia)).
  rewrite Z.shiftl_1_l, (uN_id 64 (2 ^ (bits - 1))), Z.land_comm, testbit_land by lia.
  rewrite (proj2 (Z.eqb_neq bits 64)) by lia.
  rewrite (s64_id (uN bits value)) in Hse by (unfold in_s64, LLONG_MIN, LLONG_MAX; lia).
  destruct (Z.testbit (uN bits value) (bits - 1)); by rewrite Hse.
Qed.

Lemma signed_bitfield_roundtrip_witness :
  exists p', setSignedBitfield [255; 0] 3 7 (-20) = Some p' /\ zlen p' = 2 /\
    (forall i, 0 <= i -> ~ (3 <= i < 3 + 7) -> bit_at p' i = bit_at [255; 0] i) /\
    getSignedBitfield p' 3 7 = Some (-20).
Proof.
  apply (signed_bitfield_roundtrip [255; 0] 3 7 (-20)).
  - repeat constructor; vm_compute; discriminate.
  - lia.
  - lia.
  - vm_compute. discriminate.
  - lia.
  - vm_compute. split; [discriminate|reflexivity].
Defined.

(** A negative 64-bit field cannot be read back: the sign is propagated with
    a shift by 64, which is undefined. *)
Theorem signed_bitfield_64_undefined :
  setSignedBitfield (replicate 8 0) 0 64 (-2) = Some [255; 255; 255; 255; 255; 255; 255; 254] /\
  getSignedBitfield [255; 255; 255; 255; 255; 255; 255; 254] 0 64 = None.
Proof. vm_compute. split; reflexivity. Qed.

(** *** Overflow *)

(** What the two checks promise for a field that holds [lo .. hi]: the direction
    of the overflow of [x] and the value the overflow policy stores.  Wrapping
    always reports 1. *)
Definition overflow_outcome (lo hi x wrapped : Z) (ow : owtype) : Z * option Z :=
  if hi <? x then
    match ow with
    | BFOVERFLOW_WRAP => (1, Some wrapped)
    | BFOVERFLOW_SAT => (1, Some hi)
    | BFOVERFLOW_FAIL => (1, None)
    end
  else if x <? lo then
    match ow with
    | BFOVERFLOW_WRAP => (1, Some wrapped)
    | BFOVERFLOW_SAT => (-1, Some lo)
    | BFOVERFLOW_FAIL => (-1, None)
    end
  else (0, None).

Lemma uN_uN bits n x : 0 <= bits <= n -> uN bits (uN n x) = uN bits x.
Proof.
  intros Hb. apply Z.bits_inj'. intros k Hk. rewrite !uN_bits by lia.
  destruct (Z.ltb_spec k bits); [|done]. by rewrite (proj2 (Z.ltb_lt k n)) by lia.
Qed.

Lemma sN_of_uN bits x : 1 <= bits -> sN bits (uN bits x) = sN bits x.
Proof.
  intros Hb. unfold sN, uN. pose proof (pow2_pos bits ltac:(lia)). by rewrite Z.add_mod_idemp_l by lia.
Qed.

Lemma land_not_mask bits c : 0 <= bits <= 64 -> 0 <= c < 2 ^ 64 ->
  Z.land c (u64 (Z.lnot (u64 (Z.shiftl ULLONG_MAX bits)))) = uN bits c.
Proof.
  intros Hb Hc. apply Z.bits_inj'. intros k Hk.
  rewrite Z.land_spec, !uN_bits, Z.lnot_spec, high_mask_bits by lia.
  destruct (Z.ltb_spec k 64), (Z.ltb_spec k bits), (Z.leb_spec bits k); try lia; simpl;
    rewrite ?andb_true_r, ?andb_false_r; try done.
Qed.

Lemma lor_mask bits c : 0 <= bits <= 64 -> 0 <= c < 2 ^ 64 ->
  Z.lor c (u64 (Z.shiftl ULLONG_MAX bits)) = Z.lor (uN bits c) (u64 (Z.shiftl ULLONG_MAX bits)).
Proof.
  intros Hb Hc. apply Z.bits_inj'. intros k Hk. rewrite !Z.lor_spec, high_mask_bits, (uN_bits bits) by lia.
  destruct (Z.leb_spec bits k), (Z.ltb_spec k bits), (Z.ltb_spec k 64); try lia; simpl;
    rewrite ?orb_true_r; try done.
  rewrite (Crc.testbit_small c 64) by lia. done.
Qed.

Lemma wrap_unsigned_spec value incr bits : 0 <= bits <= 63 ->
  wrap_unsigned value incr bits = Some (1, Some (uN bits (value + incr))).
Proof.
  intros Hb. unfold wrap_unsigned. rewrite (proj2 (Z.eqb_neq bits 64)) by lia. cbv zeta.
  rewrite land_not_mask by (lia || (apply uN_range; lia)). rewrite uN_uN by lia. do 3 f_equal.
  pose proof (pow2_pos bits ltac:(lia)). pose proof (uN_uN bits 64 incr ltac:(lia)) as E. unfold uN in *.
  by rewrite <- (Z.add_mod_idemp_r value (incr mod 2 ^ 64)), E, Z.add_mod_idemp_r by lia.
Qed.

Lemma wrap_signed_spec value incr bits : 1 <= bits <= 63 ->
  wrap_signed value incr bits = Some (1, Some (sN bits (value + incr))).
Proof.
  intros Hb. unfold wrap_signed. rewrite (proj2 (Z.eqb_neq bits 64)) by lia. cbv zeta.
  replace (u64 (u64 value + u64 incr)) with (u64 (value + incr))
    by (unfold uN; by rewrite <- Z.add_mod by lia).
  set (c := u64 (value + incr)). pose proof (uN_range 64 (value + incr) ltac:(lia)) as Hc. fold c in Hc.
  assert (H2 : 2 ^ (bits - 1) < 2 ^ 64) by (apply Z.pow_lt_mono_r; lia). pose proof (pow2_pos (bits - 1) ltac:(lia)).
  rewrite Z.shiftl_1_l, (uN_id 64 (2 ^ (bits - 1))), Z.land_comm, testbit_land by lia.
  rewrite land_not_mask, lor_mask by lia.
  pose proof (sign_extend (uN bits c) bits Hb ltac:(apply uN_range; lia)) as Hse.
  rewrite uN_bits, (proj2 (Z.ltb_lt (bits - 1) bits)) in Hse by lia. cbn [andb] in Hse.
  replace (sN bits (value + incr)) with (sN bits (uN bits c))
    by (unfold c; rewrite uN_uN, sN_of_uN by lia; done).
  by destruct (Z.testbit c (bits - 1)); rewrite Hse.
Qed.

(** [checkUnsignedBitfieldOverflow] decides whether [value + incr] fits an
    unsigned field of up to 63 bits, for an increment of a stored value and for a
    plain store ([incr] 0) of any 64-bit value, and computes the saturated or the
    wrapped result. *)
Theorem checkUnsignedBitfieldOverflow_correct (value incr bits : Z) (ow : owtype) :
  1 <= bits <= 63 -> in_u64 value -> in_s64 incr -> value < 2 ^ bits \/ incr = 0 ->
  checkUnsignedBitfieldOverflow value incr bits ow
  = Some (overflow_outcome 0 (2 ^ bits - 1) (value + incr) ((value + incr) mod 2 ^ bits) ow).
Proof.
  unfold in_u64, in_s64, ULLONG_MAX, LLONG_MIN, LLONG_MAX. intros Hb Hv Hi Hor.
  unfold checkUnsignedBitfieldOverflow. rewrite (proj2 (Z.eqb_neq bits 64)) by lia.
  assert (Hle : 2 ^ bits <= 2 ^ 63) by (apply Z.pow_le_mono_r; lia). pose proof (pow2_pos bits ltac:(lia)).
  rewrite Z.shiftl_1_l, (uN_id 64 (2 ^ bits - 1)) by lia. cbv zeta. rewrite wrap_unsigned_spec by lia.
  unfold overflow_outcome. destruct Hor as [Hlt| ->].
  - rewrite (uN_id 64 (2 ^ bits - 1 - value)), (s64_id (2 ^ bits - 1 - value))
      by (unfold in_s64, LLONG_MIN, LLONG_MAX; lia).
    rewrite (sN_of_uN 64), (s64_id (- value)) by (unfold in_s64, LLONG_MIN, LLONG_MAX; lia).
    destruct (Z.ltb_spec (2 ^ bits - 1) (value + incr)); [zif_true; by destruct ow|].
    zif_false. destruct (Z.ltb_spec (value + incr) 0); [zif_true; by destruct ow|]. by zif_false.
  - rewrite Z.add_0_r. cbn [Z.gtb Z.ltb Z.compare andb]. rewrite orb_false_r, Z.gtb_ltb.
    destruct (Z.ltb_spec (2 ^ bits - 1) value); [by destruct ow|]. by zif_false.
Qed.

Lemma checkUnsignedBitfieldOverflow_correct_witness :
  checkUnsignedBitfieldOverflow 250 10 8 BFOVERFLOW_WRAP = Some (1, Some 4).
Proof.
  refine (eq_trans (checkUnsignedBitfieldOverflow_correct 250 10 8 BFOVERFLOW_WRAP _ _ _ _) _).
  - lia.
  - unfold in_u64, ULLONG_MAX. lia.
  - unfold in_s64, LLONG_MIN, LLONG_MAX. lia.
  - left. lia.
  - vm_compute. reflexivity.
Defined.

(** [checkSignedBitfieldOverflow] decides whether [value + incr] fits a signed
    field, for an increment of a stored value and for a plain store, and computes
    the saturated or the wrapped result, as long as [max - value] is representable
    and a 64-bit field is not asked to wrap. *)
Theorem checkSignedBitfieldOverflow_correct (value incr bits : Z) (ow : owtype) :
  1 <= bits <= 64 -> in_s64 value -> in_s64 incr ->
  (bits < 64 -> 2 ^ (bits - 1) - 1 - value <= LLONG_MAX) -> (bits = 64 -> ow <> BFOVERFLOW_WRAP) ->
  - 2 ^ (bits - 1) <= value < 2 ^ (bits - 1) \/ incr = 0 ->
  checkSignedBitfieldOverflow value incr bits ow
  = Some (overflow_outcome (- 2 ^ (bits - 1)) (2 ^ (bits - 1) - 1) (value + incr) (sN bits (value + incr)) ow).
Proof.
  intros Hb Hv Hi Hmax Hw Hor. unfold checkSignedBitfieldOverflow. cbv zeta.
  destruct (Z.eqb_spec bits 64) as [->|Hne].
  - specialize (Hw eq_refl). clear Hmax Hb. unfold in_s64 in *. change (2 ^ (64 - 1)) with (LLONG_MAX + 1) in *.
    replace (- LLONG_MAX - 1) with LLONG_MIN by done. cbn [negb andb]. unfold overflow_outcome.
    assert (LLONG_MAX = 9223372036854775807 /\ LLONG_MIN = -9223372036854775808) as [E1 E2] by done.
    clear Hor. destruct (Z.ltb_spec (LLONG_MAX + 1 - 1) (value + incr)).
    + rewrite (s64_id (LLONG_MAX - value)) by (unfold in_s64; lia). zif_true. destruct ow; [done| |done]. do 3 f_equal.
    + destruct (Z.ltb_spec (value + incr) (- (LLONG_MAX + 1))).
      * zif_false. rewrite (s64_id (LLONG_MIN - value)) by (unfold in_s64; lia).
        zif_true. destruct ow; [done| |done]. done.
      * destruct (Z.lt_ge_cases value 0).
        -- zif_false. rewrite (s64_id (LLONG_MIN - value)) by (unfold in_s64; lia). by zif_false.
        -- rewrite (s64_id (LLONG_MAX - value)) by (unfold in_s64; lia). zif_false. by zif_false.
  - assert (Hb' : 1 <= bits <= 63) by lia. rewrite Z.shiftl_1_l, wrap_signed_spec by lia. cbn [negb andb].
    assert (Hle : 2 ^ (bits - 1) <= 2 ^ 62) by (apply Z.pow_le_mono_r; lia). pose proof (pow2_pos (bits - 1) ltac:(lia)).
    specialize (Hmax ltac:(lia)). clear Hw. set (m := 2 ^ (bits - 1)) in *.
    replace (- (m - 1) - 1) with (- m) by lia. unfold overflow_outcome.
    unfold in_s64, LLONG_MIN, LLONG_MAX in *.
    destruct (Z.ltb_spec (m - 1) (value + incr)).
    + rewrite (s64_id (m - 1 - value)) by (unfold in_s64, LLONG_MIN, LLONG_MAX; lia). zif_true. by destruct ow.
    + rewrite (s64_id (m - 1 - value)) by (unfold in_s64, LLONG_MIN, LLONG_MAX; lia). zif_false.
      rewrite (s64_id (- m - value)) by (unfold in_s64, LLONG_MIN, LLONG_MAX; lia).
      destruct (Z.ltb_spec (value + incr) (- m)); [zif_true; by destruct ow|]. by zif_false.
Qed.

Lemma checkSignedBitfieldOverflow_correct_witness :
  checkSignedBitfieldOverflow (-120) (-20) 8 BFOVERFLOW_WRAP = Some (1, Some 116).
Proof.
  refine (eq_trans (checkSignedBitfieldOverflow_correct (-120) (-20) 8 BFOVERFLOW_WRAP _ _ _ _ _ _) _).
  - lia.
  - unfold in_s64, LLONG_MIN, LLONG_MAX. lia.
  - unfold in_s64, LLONG_MIN, LLONG_MAX. lia.
  - intros _. vm_compute. discriminate.
  - intros H. discriminate H.
  - left. vm_compute. split; [discriminate|reflexivity].
  - vm_compute. reflexivity.
Defined.

(** The two bounds of the signed check are needed: storing the least 64-bit
    integer in an 8-bit field is reported as an overflow and saturates to the
    greatest value, because [max - value] wraps; and wrapping a 64-bit field
    shifts by 64. *)
Theorem checkSignedBitfieldOverflow_limits :
  checkSignedBitfieldOverflow LLONG_MIN 0 8 BFOVERFLOW_SAT = Some (1, Some 127) /\
  checkSignedBitfieldOverflow LLONG_MAX 1 64 BFOVERFLOW_WRAP = None.
Proof. vm_compute. split; reflexivity. Qed.

End Bitops.
