(* ===== verification/Cluster.v ===== *)
(** * Redis Cluster: nodes, slots and epochs (cluster.c)

    The state of one node of a cluster.  [clusterNode] structures and links are
    objects of a heap, and everything that is a pointer in the code is a pointer
    here: the slot table, [slaveof], [slaves], the failure reports, the link of a
    node and the node of a link.  Operations run in the monad [M]; [None] is a
    process that stops, by a failed assertion or by an access to an object that was
    freed.

    What the code gets from outside is in the class [World]: the random numbers and
    names, the results of [connect], and the order in which the table of nodes is
    enumerated.  The clock is a field of the state that changes between handlers,
    not during one.  Logging is left out. *)

From Stdlib Require Import String Ascii.
From stdpp Require Import strings pmap.
From S2P Require Import Prelude.

Module Cluster.

Abbreviation ptr := positive.

(** ** Constants (cluster.h) *)

Definition CLUSTER_SLOTS := 16384.
Definition CLUSTER_OK := 0.
Definition CLUSTER_FAIL := 1.
Definition CLUSTER_NAMELEN := 40%nat.
Definition CLUSTER_PORT_INCR := 10000.
Definition CLUSTER_FAIL_REPORT_VALIDITY_MULT := 2.
Definition CLUSTER_FAIL_UNDO_TIME_MULT := 2.
Definition CLUSTER_MF_TIMEOUT := 5000.
Definition CLUSTER_MF_PAUSE_MULT := 2.
Definition CLUSTER_SLAVE_MIGRATION_DELAY := 5000.

Definition CLUSTER_NODE_MASTER := 1.
Definition CLUSTER_NODE_SLAVE := 2.
Definition CLUSTER_NODE_PFAIL := 4.
Definition CLUSTER_NODE_FAIL := 8.
Definition CLUSTER_NODE_MYSELF := 16.
Definition CLUSTER_NODE_HANDSHAKE := 32.
Definition CLUSTER_NODE_NOADDR := 64.
Definition CLUSTER_NODE_MEET := 128.
Definition CLUSTER_NODE_MIGRATE_TO := 256.
Definition CLUSTER_NODE_NOFAILOVER := 512.

Definition CLUSTER_CANT_FAILOVER_NONE := 0.
Definition CLUSTER_CANT_FAILOVER_DATA_AGE := 1.
Definition CLUSTER_CANT_FAILOVER_WAITING_DELAY := 2.
Definition CLUSTER_CANT_FAILOVER_EXPIRED := 3.
Definition CLUSTER_CANT_FAILOVER_WAITING_VOTES := 4.

Definition CLUSTER_TODO_HANDLE_FAILOVER := 1.
Definition CLUSTER_TODO_UPDATE_STATE := 2.
Definition CLUSTER_TODO_SAVE_CONFIG := 4.
Definition CLUSTER_TODO_FSYNC_CONFIG := 8.

Definition CLUSTER_MODULE_FLAG_NO_FAILOVER := 2.
Definition CLUSTER_MODULE_FLAG_NO_REDIRECTION := 4.

Definition CLUSTER_PROTO_VER := 1.
Definition CLUSTERMSG_FLAG0_PAUSED := 1.
Definition CLUSTERMSG_FLAG0_FORCEACK := 2.
Definition NET_IP_STR_LEN := 46%nat.

Fixpoint zeroes (n : nat) : string :=
  match n with O => EmptyString | Datatypes.S n => String zero (zeroes n) end.
Definition CLUSTER_NODE_NULL_NAME : string := zeroes CLUSTER_NAMELEN.

(** The tests and updates of flags. *)
Definition has (flags b : Z) : bool := negb (Z.land flags b =? 0).
Definition setf (flags b : Z) : Z := Z.lor flags b.
Definition clrf (flags b : Z) : Z := Z.land flags (Z.lnot b).

(** ** Data *)

Record clusterNode := mkNode {
  n_name : string;
  n_ctime : Z;
  n_flags : Z;
  n_configEpoch : Z;
  n_slots : list Z;
  n_numslots : Z;
  n_slaves : list ptr;
  n_slaveof : option ptr;
  n_ping_sent : Z;
  n_pong_received : Z;
  n_data_received : Z;
  n_fail_time : Z;
  n_voted_time : Z;
  n_repl_offset_time : Z;
  n_orphaned_time : Z;
  n_repl_offset : Z;
  n_ip : string;
  n_port : Z;
  n_cport : Z;
  n_link : option ptr;
  n_fail_reports : list (ptr * Z)
}.

Definition set_n_name (v : string) (x : clusterNode) : clusterNode :=
  mkNode v (n_ctime x) (n_flags x) (n_configEpoch x) (n_slots x) (n_numslots x) (n_slaves x)
    (n_slaveof x) (n_ping_sent x) (n_pong_received x) (n_data_received x) (n_fail_time x)
    (n_voted_time x) (n_repl_offset_time x) (n_orphaned_time x) (n_repl_offset x) (n_ip x)
    (n_port x) (n_cport x) (n_link x) (n_fail_reports x).
Definition set_n_ctime (v : Z) (x : clusterNode) : clusterNode :=
  mkNode (n_name x) v (n_flags x) (n_configEpoch x) (n_slots x) (n_numslots x) (n_slaves x)
    (n_slaveof x) (n_ping_sent x) (n_pong_received x) (n_data_received x) (n_fail_time x)
    (n_voted_time x) (n_repl_offset_time x) (n_orphaned_time x) (n_repl_offset x) (n_ip x)
    (n_port x) (n_cport x) (n_link x) (n_fail_reports x).
Definition set_n_flags (v : Z) (x : clusterNode) : clusterNode :=
  mkNode (n_name x) (n_ctime x) v (n_configEpoch x) (n_slots x) (n_numslots x) (n_slaves x)
    (n_slaveof x) (n_ping_sent x) (n_pong_received x) (n_data_received x) (n_fail_time x)
    (n_voted_time x) (n_repl_offset_time x) (n_orphaned_time x) (n_repl_offset x) (n_ip x)
    (n_port x) (n_cport x) (n_link x) (n_fail_reports x).
Definition set_n_configEpoch (v : Z) (x : clusterNode) : clusterNode :=
  mkNode (n_name x) (n_ctime x) (n_flags x) v (n_slots x) (n_numslots x) (n_slaves x) (n_slaveof x)
    (n_ping_sent x) (n_pong_received x) (n_data_received x) (n_fail_time x) (n_voted_time x)
    (n_repl_offset_time x) (n_orphaned_time x) (n_repl_offset x) (n_ip x) (n_port x) (n_cport x)
    (n_link x) (n_fail_reports x).
Definition set_n_slots (v : list Z) (x : clusterNode) : clusterNode :=
  mkNode (n_name x) (n_ctime x) (n_flags x) (n_configEpoch x) v (n_numslots x) (n_slaves x)
    (n_slaveof x) (n_ping_sent x) (n_pong_received x) (n_data_received x) (n_fail_time x)
    (n_voted_time x) (n_repl_offset_time x) (n_orphaned_time x) (n_repl_offset x) (n_ip x)
    (n_port x) (n_cport x) (n_link x) (n_fail_reports x).
Definition set_n_numslots (v : Z) (x : clusterNode) : clusterNode :=
  mkNode (n_name x) (n_ctime x) (n_flags x) (n_configEpoch x) (n_slots x) v (n_slaves x)
    (n_slaveof x) (n_ping_sent x) (n_pong_received x) (n_data_received x) (n_fail_time x)
    (n_voted_time x) (n_repl_offset_time x) (n_orphaned_time x) (n_repl_offset x) (n_ip x)
    (n_port x) (n_cport x) (n_link x) (n_fail_reports x).
Definition set_n_slaves (v : list ptr) (x : clusterNode) : clusterNode :=
  mkNode (n_name x) (n_ctime x) (n_flags x) (n_configEpoch x) (n_slots x) (n_numslots x) v
    (n_slaveof x) (n_ping_sent x) (n_pong_received x) (n_data_received x) (n_fail_time x)
    (n_voted_time x) (n_repl_offset_time x) (n_orphaned_time x) (n_repl_offset x) (n_ip x)
    (n_port x) (n_cport x) (n_link x) (n_fail_reports x).
Definition set_n_slaveof (v : option ptr) (x : clusterNode) : clusterNode :=
  mkNode (n_name x) (n_ctime x) (n_flags x) (n_configEpoch x) (n_slots x) (n_numslots x)
    (n_slaves x) v (n_ping_sent x) (n_pong_received x) (n_data_received x) (n_fail_time x)
    (n_voted_time x) (n_repl_offset_time x) (n_orphaned_time x) (n_repl_offset x) (n_ip x)
    (n_port x) (n_cport x) (n_link x) (n_fail_reports x).
Definition set_n_ping_sent (v : Z) (x : clusterNode) : clusterNode :=
  mkNode (n_name x) (n_ctime x) (n_flags x) (n_configEpoch x) (n_slots x) (n_numslots x)
    (n_slaves x) (n_slaveof x) v (n_pong_received x) (n_data_received x) (n_fail_time x)
    (n_voted_time x) (n_repl_offset_time x) (n_orphaned_time x) (n_repl_offset x) (n_ip x)
    (n_port x) (n_cport x) (n_link x) (n_fail_reports x).
Definition set_n_pong_received (v : Z) (x : clusterNode) : clusterNode :=
  mkNode (n_name x) (n_ctime x) (n_flags x) (n_configEpoch x) (n_slots x) (n_numslots x)
    (n_slaves x) (n_slaveof x) (n_ping_sent x) v (n_data_received x) (n_fail_time x)
    (n_voted_time x) (n_repl_offset_time x) (n_orphaned_time x) (n_repl_offset x) (n_ip x)
    (n_port x) (n_cport x) (n_link x) (n_fail_reports x).
Definition set_n_data_received (v : Z) (x : clusterNode) : clusterNode :=
  mkNode (n_name x) (n_ctime x) (n_flags x) (n_configEpoch x) (n_slots x) (n_numslots x)
    (n_slaves x) (n_slaveof x) (n_ping_sent x) (n_pong_received x) v (n_fail_time x)
    (n_voted_time x) (n_repl_offset_time x) (n_orphaned_time x) (n_repl_offset x) (n_ip x)
    (n_port x) (n_cport x) (n_link x) (n_fail_reports x).
Definition set_n_fail_time (v : Z) (x : clusterNode) : clusterNode :=
  mkNode (n_name x) (n_ctime x) (n_flags x) (n_configEpoch x) (n_slots x) (n_numslots x)
    (n_slaves x) (n_slaveof x) (n_ping_sent x) (n_pong_received x) (n_data_received x) v
    (n_voted_time x) (n_repl_offset_time x) (n_orphaned_time x) (n_repl_offset x) (n_ip x)
    (n_port x) (n_cport x) (n_link x) (n_fail_reports x).
Definition set_n_voted_time (v : Z) (x : clusterNode) : clusterNode :=
  mkNode (n_name x) (n_ctime x) (n_flags x) (n_configEpoch x) (n_slots x) (n_numslots x)
    (n_slaves x) (n_slaveof x) (n_ping_sent x) (n_pong_received x) (n_data_received x)
    (n_fail_time x) v (n_repl_offset_time x) (n_orphaned_time x) (n_repl_offset x) (n_ip x)
    (n_port x) (n_cport x) (n_link x) (n_fail_reports x).
Definition set_n_repl_offset_time (v : Z) (x : clusterNode) : clusterNode :=
  mkNode (n_name x) (n_ctime x) (n_flags x) (n_configEpoch x) (n_slots x) (n_numslots x)
    (n_slaves x) (n_slaveof x) (n_ping_sent x) (n_pong_received x) (n_data_received x)
    (n_fail_time x) (n_voted_time x) v (n_orphaned_time x) (n_repl_offset x) (n_ip x) (n_port x)
    (n_cport x) (n_link x) (n_fail_reports x).
Definition set_n_orphaned_time (v : Z) (x : clusterNode) : clusterNode :=
  mkNode (n_name x) (n_ctime x) (n_flags x) (n_configEpoch x) (n_slots x) (n_numslots x)
    (n_slaves x) (n_slaveof x) (n_ping_sent x) (n_pong_received x) (n_data_received x)
    (n_fail_time x) (n_voted_time x) (n_repl_offset_time x) v (n_repl_offset x) (n_ip x) (n_port x)
    (n_cport x) (n_link x) (n_fail_reports x).
Definition set_n_repl_offset (v : Z) (x : clusterNode) : clusterNode :=
  mkNode (n_name x) (n_ctime x) (n_flags x) (n_configEpoch x) (n_slots x) (n_numslots x)
    (n_slaves x) (n_slaveof x) (n_ping_sent x) (n_pong_received x) (n_data_received x)
    (n_fail_time x) (n_voted_time x) (n_repl_offset_time x) (n_orphaned_time x) v (n_ip x)
    (n_port x) (n_cport x) (n_link x) (n_fail_reports x).
Definition set_n_ip (v : string) (x : clusterNode) : clusterNode :=
  mkNode (n_name x) (n_ctime x) (n_flags x) (n_configEpoch x) (n_slots x) (n_numslots x)
    (n_slaves x) (n_slaveof x) (n_ping_sent x) (n_pong_received x) (n_data_received x)
    (n_fail_time x) (n_voted_time x) (n_repl_offset_time x) (n_orphaned_time x) (n_repl_offset x) v
    (n_port x) (n_cport x) (n_link x) (n_fail_reports x).
Definition set_n_port (v : Z) (x : clusterNode) : clusterNode :=
  mkNode (n_name x) (n_ctime x) (n_flags x) (n_configEpoch x) (n_slots x) (n_numslots x)
    (n_slaves x) (n_slaveof x) (n_ping_sent x) (n_pong_received x) (n_data_received x)
    (n_fail_time x) (n_voted_time x) (n_repl_offset_time x) (n_orphaned_time x) (n_repl_offset x)
    (n_ip x) v (n_cport x) (n_link x) (n_fail_reports x).
Definition set_n_cport (v : Z) (x : clusterNode) : clusterNode :=
  mkNode (n_name x) (n_ctime x) (n_flags x) (n_configEpoch x) (n_slots x) (n_numslots x)
    (n_slaves x) (n_slaveof x) (n_ping_sent x) (n_pong_received x) (n_data_received x)
    (n_fail_time x) (n_voted_time x) (n_repl_offset_time x) (n_orphaned_time x) (n_repl_offset x)
    (n_ip x) (n_port x) v (n_link x) (n_fail_reports x).
Definition set_n_link (v : option ptr) (x : clusterNode) : clusterNode :=
  mkNode (n_name x) (n_ctime x) (n_flags x) (n_configEpoch x) (n_slots x) (n_numslots x)
    (n_slaves x) (n_slaveof x) (n_ping_sent x) (n_pong_received x) (n_data_received x)
    (n_fail_time x) (n_voted_time x) (n_repl_offset_time x) (n_orphaned_time x) (n_repl_offset x)
    (n_ip x) (n_port x) (n_cport x) v (n_fail_reports x).
Definition set_n_fail_reports (v : list (ptr * Z)) (x : clusterNode) : clusterNode :=
  mkNode (n_name x) (n_ctime x) (n_flags x) (n_configEpoch x) (n_slots x) (n_numslots x)
    (n_slaves x) (n_slaveof x) (n_ping_sent x) (n_pong_received x) (n_data_received x)
    (n_fail_time x) (n_voted_time x) (n_repl_offset_time x) (n_orphaned_time x) (n_repl_offset x)
    (n_ip x) (n_port x) (n_cport x) (n_link x) v.

Definition nodeIsMaster (n : clusterNode) : bool := has (n_flags n) CLUSTER_NODE_MASTER.
Definition nodeIsSlave (n : clusterNode) : bool := has (n_flags n) CLUSTER_NODE_SLAVE.
Definition nodeInHandshake (n : clusterNode) : bool := has (n_flags n) CLUSTER_NODE_HANDSHAKE.
Definition nodeHasAddr (n : clusterNode) : bool := negb (has (n_flags n) CLUSTER_NODE_NOADDR).
Definition nodeTimedOut (n : clusterNode) : bool := has (n_flags n) CLUSTER_NODE_PFAIL.
Definition nodeFailed (n : clusterNode) : bool := has (n_flags n) CLUSTER_NODE_FAIL.
Definition nodeCantFailover (n : clusterNode) : bool := has (n_flags n) CLUSTER_NODE_NOFAILOVER.

(** A link, with the addresses the system reports for its socket. *)
Record clusterLink := mkLink {
  l_ctime : Z;
  l_node : option ptr;
  l_peer : string;
  l_sock : option string
}.

Record clusterMsgDataGossip := mkGossip {
  g_nodename : string;
  g_ping_sent : Z;
  g_pong_received : Z;
  g_ip : string;
  g_port : Z;
  g_cport : Z;
  g_flags : Z
}.

(** The type of a message with the part of the union that it uses. *)
Inductive clusterMsgData :=
  | PING (gossip : list clusterMsgDataGossip)
  | PONG (gossip : list clusterMsgDataGossip)
  | MEET (gossip : list clusterMsgDataGossip)
  | FAIL (nodename : string)
  | PUBLISH (channel message : string)
  | FAILOVER_AUTH_REQUEST
  | FAILOVER_AUTH_ACK
  | UPDATE (configEpoch : Z) (nodename : string) (slots : list Z)
  | MFSTART
  | MODULE (module_id len type : Z) (payload : string)
  | UNKNOWN (type : Z).

Record clusterMsg := mkMsg {
  h_totlen : Z;
  h_ver : Z;
  h_port : Z;
  h_currentEpoch : Z;
  h_configEpoch : Z;
  h_offset : Z;
  h_sender : string;
  h_myslots : list Z;
  h_slaveof : string;
  h_myip : string;
  h_cport : Z;
  h_flags : Z;
  h_state : Z;
  h_mflags0 : Z;
  h_data : clusterMsgData
}.

Definition msg_type (d : clusterMsgData) : Z :=
  match d with
  | PING _ => 0 | PONG _ => 1 | MEET _ => 2 | FAIL _ => 3 | PUBLISH _ _ => 4
  | FAILOVER_AUTH_REQUEST => 5 | FAILOVER_AUTH_ACK => 6 | UPDATE _ _ _ => 7
  | MFSTART => 8 | MODULE _ _ _ _ => 9 | UNKNOWN t => t
  end.

(** What the handlers do outside of the state of the cluster. *)
Inductive effect :=
  | Send (link : ptr) (msg : clusterMsg)
  | SetMaster (ip : string) (port : Z)
  | UnsetMaster
  | DelKeysInSlot (slot : Z)
  | EmptyDb
  | SaveConfig (fsync : bool)
  | PublishLocally (channel message : string)
  | ModuleReceive (sender : string) (module_id type : Z) (payload : string)
  | Unpause.

Record config := mkConfig {
  cluster_node_timeout : Z;
  cluster_require_full_coverage : bool;
  cluster_slave_no_failover : bool;
  cluster_slave_validity_factor : Z;
  cluster_migration_barrier : Z;
  cluster_module_flags : Z;
  cluster_announce_ip : option string;
  cluster_announce_port : Z;
  cluster_announce_bus_port : Z;
  server_port : Z;
  repl_ping_slave_period : Z
}.

(** What [mstime()] returns, and the cached [server.mstime], [server.unixtime]. *)
Record clock := mkClock { mstime : Z; cached_mstime : Z; unixtime : Z }.

(** The part of replication.c that the cluster reads and changes: [reploff] is the
    offset of [server.master] or of [server.cached_master]. *)
Record replication := mkRepl {
  masterhost : option (string * Z);
  repl_connected : bool;
  lastinteraction : Z;
  repl_down_since : Z;
  reploff : option Z;
  master_repl_offset : Z
}.

(** The static variables of [clusterUpdateState] and [clusterCron]. *)
Record statics := mkStatics {
  among_minority_time : Z;
  first_call_time : Z;
  iteration : Z;
  prev_ip : option string
}.

(** How many random numbers, random names and connections were used so far. *)
Record draws := mkDraws { nums_drawn : nat; names_drawn : nat; connects_drawn : nat }.

Record server := mkServer {
  c_myself : ptr;
  c_currentEpoch : Z;
  c_state : Z;
  c_size : Z;
  c_nodes : gmap string ptr;
  c_nodes_black_list : gmap string Z;
  c_migrating_slots_to : gmap Z ptr;
  c_importing_slots_from : gmap Z ptr;
  c_slots : gmap Z ptr;
  c_slots_keys_count : gmap Z Z;
  c_failover_auth_time : Z;
  c_failover_auth_count : Z;
  c_failover_auth_sent : Z;
  c_failover_auth_rank : Z;
  c_failover_auth_epoch : Z;
  c_cant_failover_reason : Z;
  c_mf_end : Z;
  c_mf_slave : option ptr;
  c_mf_master_offset : Z;
  c_mf_can_start : Z;
  c_lastVoteEpoch : Z;
  c_todo_before_sleep : Z;
  c_stats_bus_messages_sent : gmap Z Z;
  c_stats_bus_messages_received : gmap Z Z;
  c_stats_pfail_nodes : Z;
  heap : gmap ptr clusterNode;
  links : gmap ptr clusterLink;
  s_cfg : config;
  s_clock : clock;
  s_repl : replication;
  clients_paused : bool;
  clients_pause_end_time : Z;
  s_db_keys : Z;
  s_statics : statics;
  s_draws : draws;
  s_out : list effect
}.

Definition set_c_myself (v : ptr) (x : server) : server :=
  mkServer v (c_currentEpoch x) (c_state x) (c_size x) (c_nodes x) (c_nodes_black_list x)
    (c_migrating_slots_to x) (c_importing_slots_from x) (c_slots x) (c_slots_keys_count x)
    (c_failover_auth_time x) (c_failover_auth_count x) (c_failover_auth_sent x)
    (c_failover_auth_rank x) (c_failover_auth_epoch x) (c_cant_failover_reason x) (c_mf_end x)
    (c_mf_slave x) (c_mf_master_offset x) (c_mf_can_start x) (c_lastVoteEpoch x)
    (c_todo_before_sleep x) (c_stats_bus_messages_sent x) (c_stats_bus_messages_received x)
    (c_stats_pfail_nodes x) (heap x) (links x) (s_cfg x) (s_clock x) (s_repl x) (clients_paused x)
    (clients_pause_end_time x) (s_db_keys x) (s_statics x) (s_draws x) (s_out x).
Definition set_c_currentEpoch (v : Z) (x : server) : server :=
  mkServer (c_myself x) v (c_state x) (c_size x) (c_nodes x) (c_nodes_black_list x)
    (c_migrating_slots_to x) (c_importing_slots_from x) (c_slots x) (c_slots_keys_count x)
    (c_failover_auth_time x) (c_failover_auth_count x) (c_failover_auth_sent x)
    (c_failover_auth_rank x) (c_failover_auth_epoch x) (c_cant_failover_reason x) (c_mf_end x)
    (c_mf_slave x) (c_mf_master_offset x) (c_mf_can_start x) (c_lastVoteEpoch x)
    (c_todo_before_sleep x) (c_stats_bus_messages_sent x) (c_stats_bus_messages_received x)
    (c_stats_pfail_nodes x) (heap x) (links x) (s_cfg x) (s_clock x) (s_repl x) (clients_paused x)
    (clients_pause_end_time x) (s_db_keys x) (s_statics x) (s_draws x) (s_out x).
Definition set_c_state (v : Z) (x : server) : server :=
  mkServer (c_myself x) (c_currentEpoch x) v (c_size x) (c_nodes x) (c_nodes_black_list x)
    (c_migrating_slots_to x) (c_importing_slots_from x) (c_slots x) (c_slots_keys_count x)
    (c_failover_auth_time x) (c_failover_auth_count x) (c_failover_auth_sent x)
    (c_failover_auth_rank x) (c_failover_auth_epoch x) (c_cant_failover_reason x) (c_mf_end x)
    (c_mf_slave x) (c_mf_master_offset x) (c_mf_can_start x) (c_lastVoteEpoch x)
    (c_todo_before_sleep x) (c_stats_bus_messages_sent x) (c_stats_bus_messages_received x)
    (c_stats_pfail_nodes x) (heap x) (links x) (s_cfg x) (s_clock x) (s_repl x) (clients_paused x)
    (clients_pause_end_time x) (s_db_keys x) (s_statics x) (s_draws x) (s_out x).
Definition set_c_size (v : Z) (x : server) : server :=
  mkServer (c_myself x) (c_currentEpoch x) (c_state x) v (c_nodes x) (c_nodes_black_list x)
    (c_migrating_slots_to x) (c_importing_slots_from x) (c_slots x) (c_slots_keys_count x)
    (c_failover_auth_time x) (c_failover_auth_count x) (c_failover_auth_sent x)
    (c_failover_auth_rank x) (c_failover_auth_epoch x) (c_cant_failover_reason x) (c_mf_end x)
    (c_mf_slave x) (c_mf_master_offset x) (c_mf_can_start x) (c_lastVoteEpoch x)
    (c_todo_before_sleep x) (c_stats_bus_messages_sent x) (c_stats_bus_messages_received x)
    (c_stats_pfail_nodes x) (heap x) (links x) (s_cfg x) (s_clock x) (s_repl x) (clients_paused x)
    (clients_pause_end_time x) (s_db_keys x) (s_statics x) (s_draws x) (s_out x).
Definition set_c_nodes (v : gmap string ptr) (x : server) : server :=
  mkServer (c_myself x) (c_currentEpoch x) (c_state x) (c_size x) v (c_nodes_black_list x)
    (c_migrating_slots_to x) (c_importing_slots_from x) (c_slots x) (c_slots_keys_count x)
    (c_failover_auth_time x) (c_failover_auth_count x) (c_failover_auth_sent x)
    (c_failover_auth_rank x) (c_failover_auth_epoch x) (c_cant_failover_reason x) (c_mf_end x)
    (c_mf_slave x) (c_mf_master_offset x) (c_mf_can_start x) (c_lastVoteEpoch x)
    (c_todo_before_sleep x) (c_stats_bus_messages_sent x) (c_stats_bus_messages_received x)
    (c_stats_pfail_nodes x) (heap x) (links x) (s_cfg x) (s_clock x) (s_repl x) (clients_paused x)
    (clients_pause_end_time x) (s_db_keys x) (s_statics x) (s_draws x) (s_out x).
Definition set_c_nodes_black_list (v : gmap string Z) (x : server) : server :=
  mkServer (c_myself x) (c_currentEpoch x) (c_state x) (c_size x) (c_nodes x) v
    (c_migrating_slots_to x) (c_importing_slots_from x) (c_slots x) (c_slots_keys_count x)
    (c_failover_auth_time x) (c_failover_auth_count x) (c_failover_auth_sent x)
    (c_failover_auth_rank x) (c_failover_auth_epoch x) (c_cant_failover_reason x) (c_mf_end x)
    (c_mf_slave x) (c_mf_master_offset x) (c_mf_can_start x) (c_lastVoteEpoch x)
    (c_todo_before_sleep x) (c_stats_bus_messages_sent x) (c_stats_bus_messages_received x)
    (c_stats_pfail_nodes x) (heap x) (links x) (s_cfg x) (s_clock x) (s_repl x) (clients_paused x)
    (clients_pause_end_time x) (s_db_keys x) (s_statics x) (s_draws x) (s_out x).
Definition set_c_migrating_slots_to (v : gmap Z ptr) (x : server) : server :=
  mkServer (c_myself x) (c_currentEpoch x) (c_state x) (c_size x) (c_nodes x)
    (c_nodes_black_list x) v (c_importing_slots_from x) (c_slots x) (c_slots_keys_count x)
    (c_failover_auth_time x) (c_failover_auth_count x) (c_failover_auth_sent x)
    (c_failover_auth_rank x) (c_failover_auth_epoch x) (c_cant_failover_reason x) (c_mf_end x)
    (c_mf_slave x) (c_mf_master_offset x) (c_mf_can_start x) (c_lastVoteEpoch x)
    (c_todo_before_sleep x) (c_stats_bus_messages_sent x) (c_stats_bus_messages_received x)
    (c_stats_pfail_nodes x) (heap x) (links x) (s_cfg x) (s_clock x) (s_repl x) (clients_paused x)
    (clients_pause_end_time x) (s_db_keys x) (s_statics x) (s_draws x) (s_out x).
Definition set_c_importing_slots_from (v : gmap Z ptr) (x : server) : server :=
  mkServer (c_myself x) (c_currentEpoch x) (c_state x) (c_size x) (c_nodes x)
    (c_nodes_black_list x) (c_migrating_slots_to x) v (c_slots x) (c_slots_keys_count x)
    (c_failover_auth_time x) (c_failover_auth_count x) (c_failover_auth_sent x)
    (c_failover_auth_rank x) (c_failover_auth_epoch x) (c_cant_failover_reason x) (c_mf_end x)
    (c_mf_slave x) (c_mf_master_offset x) (c_mf_can_start x) (c_lastVoteEpoch x)
    (c_todo_before_sleep x) (c_stats_bus_messages_sent x) (c_stats_bus_messages_received x)
    (c_stats_pfail_nodes x) (heap x) (links x) (s_cfg x) (s_clock x) (s_repl x) (clients_paused x)
    (clients_pause_end_time x) (s_db_keys x) (s_statics x) (s_draws x) (s_out x).
Definition set_c_slots (v : gmap Z ptr) (x : server) : server :=
  mkServer (c_myself x) (c_currentEpoch x) (c_state x) (c_size x) (c_nodes x)
    (c_nodes_black_list x) (c_migrating_slots_to x) (c_importing_slots_from x) v
    (c_slots_keys_count x) (c_failover_auth_time x) (c_failover_auth_count x)
    (c_failover_auth_sent x) (c_failover_auth_rank x) (c_failover_auth_epoch x)
    (c_cant_failover_reason x) (c_mf_end x) (c_mf_slave x) (c_mf_master_offset x)
    (c_mf_can_start x) (c_lastVoteEpoch x) (c_todo_before_sleep x) (c_stats_bus_messages_sent x)
    (c_stats_bus_messages_received x) (c_stats_pfail_nodes x) (heap x) (links x) (s_cfg x)
    (s_clock x) (s_repl x) (clients_paused x) (clients_pause_end_time x) (s_db_keys x)
    (s_statics x) (s_draws x) (s_out x).
Definition set_c_slots_keys_count (v : gmap Z Z) (x : server) : server :=
  mkServer (c_myself x) (c_currentEpoch x) (c_state x) (c_size x) (c_nodes x)
    (c_nodes_black_list x) (c_migrating_slots_to x) (c_importing_slots_from x) (c_slots x) v
    (c_failover_auth_time x) (c_failover_auth_count x) (c_failover_auth_sent x)
    (c_failover_auth_rank x) (c_failover_auth_epoch x) (c_cant_failover_reason x) (c_mf_end x)
    (c_mf_slave x) (c_mf_master_offset x) (c_mf_can_start x) (c_lastVoteEpoch x)
    (c_todo_before_sleep x) (c_stats_bus_messages_sent x) (c_stats_bus_messages_received x)
    (c_stats_pfail_nodes x) (heap x) (links x) (s_cfg x) (s_clock x) (s_repl x) (clients_paused x)
    (clients_pause_end_time x) (s_db_keys x) (s_statics x) (s_draws x) (s_out x).
Definition set_c_failover_auth_time (v : Z) (x : server) : server :=
  mkServer (c_myself x) (c_currentEpoch x) (c_state x) (c_size x) (c_nodes x)
    (c_nodes_black_list x) (c_migrating_slots_to x) (c_importing_slots_from x) (c_slots x)
    (c_slots_keys_count x) v (c_failover_auth_count x) (c_failover_auth_sent x)
    (c_failover_auth_rank x) (c_failover_auth_epoch x) (c_cant_failover_reason x) (c_mf_end x)
    (c_mf_slave x) (c_mf_master_offset x) (c_mf_can_start x) (c_lastVoteEpoch x)
    (c_todo_before_sleep x) (c_stats_bus_messages_sent x) (c_stats_bus_messages_received x)
    (c_stats_pfail_nodes x) (heap x) (links x) (s_cfg x) (s_clock x) (s_repl x) (clients_paused x)
    (clients_pause_end_time x) (s_db_keys x) (s_statics x) (s_draws x) (s_out x).
Definition set_c_failover_auth_count (v : Z) (x : server) : server :=
  mkServer (c_myself x) (c_currentEpoch x) (c_state x) (c_size x) (c_nodes x)
    (c_nodes_black_list x) (c_migrating_slots_to x) (c_importing_slots_from x) (c_slots x)
    (c_slots_keys_count x) (c_failover_auth_time x) v (c_failover_auth_sent x)
    (c_failover_auth_rank x) (c_failover_auth_epoch x) (c_cant_failover_reason x) (c_mf_end x)
    (c_mf_slave x) (c_mf_master_offset x) (c_mf_can_start x) (c_lastVoteEpoch x)
    (c_todo_before_sleep x) (c_stats_bus_messages_sent x) (c_stats_bus_messages_received x)
    (c_stats_pfail_nodes x) (heap x) (links x) (s_cfg x) (s_clock x) (s_repl x) (clients_paused x)
    (clients_pause_end_time x) (s_db_keys x) (s_statics x) (s_draws x) (s_out x).
Definition set_c_failover_auth_sent (v : Z) (x : server) : server :=
  mkServer (c_myself x) (c_currentEpoch x) (c_state x) (c_size x) (c_nodes x)
    (c_nodes_black_list x) (c_migrating_slots_to x) (c_importing_slots_from x) (c_slots x)
    (c_slots_keys_count x) (c_failover_auth_time x) (c_failover_auth_count x) v
    (c_failover_auth_rank x) (c_failover_auth_epoch x) (c_cant_failover_reason x) (c_mf_end x)
    (c_mf_slave x) (c_mf_master_offset x) (c_mf_can_start x) (c_lastVoteEpoch x)
    (c_todo_before_sleep x) (c_stats_bus_messages_sent x) (c_stats_bus_messages_received x)
    (c_stats_pfail_nodes x) (heap x) (links x) (s_cfg x) (s_clock x) (s_repl x) (clients_paused x)
    (clients_pause_end_time x) (s_db_keys x) (s_statics x) (s_draws x) (s_out x).
Definition set_c_failover_auth_rank (v : Z) (x : server) : server :=
  mkServer (c_myself x) (c_currentEpoch x) (c_state x) (c_size x) (c_nodes x)
    (c_nodes_black_list x) (c_migrating_slots_to x) (c_importing_slots_from x) (c_slots x)
    (c_slots_keys_count x) (c_failover_auth_time x) (c_failover_auth_count x)
    (c_failover_auth_sent x) v (c_failover_auth_epoch x) (c_cant_failover_reason x) (c_mf_end x)
    (c_mf_slave x) (c_mf_master_offset x) (c_mf_can_start x) (c_lastVoteEpoch x)
    (c_todo_before_sleep x) (c_stats_bus_messages_sent x) (c_stats_bus_messages_received x)
    (c_stats_pfail_nodes x) (heap x) (links x) (s_cfg x) (s_clock x) (s_repl x) (clients_paused x)
    (clients_pause_end_time x) (s_db_keys x) (s_statics x) (s_draws x) (s_out x).
Definition set_c_failover_auth_epoch (v : Z) (x : server) : server :=
  mkServer (c_myself x) (c_currentEpoch x) (c_state x) (c_size x) (c_nodes x)
    (c_nodes_black_list x) (c_migrating_slots_to x) (c_importing_slots_from x) (c_slots x)
    (c_slots_keys_count x) (c_failover_auth_time x) (c_failover_auth_count x)
    (c_failover_auth_sent x) (c_failover_auth_rank x) v (c_cant_failover_reason x) (c_mf_end x)
    (c_mf_slave x) (c_mf_master_offset x) (c_mf_can_start x) (c_lastVoteEpoch x)
    (c_todo_before_sleep x) (c_stats_bus_messages_sent x) (c_stats_bus_messages_received x)
    (c_stats_pfail_nodes x) (heap x) (links x) (s_cfg x) (s_clock x) (s_repl x) (clients_paused x)
    (clients_pause_end_time x) (s_db_keys x) (s_statics x) (s_draws x) (s_out x).
Definition set_c_cant_failover_reason (v : Z) (x : server) : server :=
  mkServer (c_myself x) (c_currentEpoch x) (c_state x) (c_size x) (c_nodes x)
    (c_nodes_black_list x) (c_migrating_slots_to x) (c_importing_slots_from x) (c_slots x)
    (c_slots_keys_count x) (c_failover_auth_time x) (c_failover_auth_count x)
    (c_failover_auth_sent x) (c_failover_auth_rank x) (c_failover_auth_epoch x) v (c_mf_end x)
    (c_mf_slave x) (c_mf_master_offset x) (c_mf_can_start x) (c_lastVoteEpoch x)
    (c_todo_before_sleep x) (c_stats_bus_messages_sent x) (c_stats_bus_messages_received x)
    (c_stats_pfail_nodes x) (heap x) (links x) (s_cfg x) (s_clock x) (s_repl x) (clients_paused x)
    (clients_pause_end_time x) (s_db_keys x) (s_statics x) (s_draws x) (s_out x).
Definition set_c_mf_end (v : Z) (x : server) : server :=
  mkServer (c_myself x) (c_currentEpoch x) (c_state x) (c_size x) (c_nodes x)
    (c_nodes_black_list x) (c_migrating_slots_to x) (c_importing_slots_from x) (c_slots x)
    (c_slots_keys_count x) (c_failover_auth_time x) (c_failover_auth_count x)
    (c_failover_auth_sent x) (c_failover_auth_rank x) (c_failover_auth_epoch x)
    (c_cant_failover_reason x) v (c_mf_slave x) (c_mf_master_offset x) (c_mf_can_start x)
    (c_lastVoteEpoch x) (c_todo_before_sleep x) (c_stats_bus_messages_sent x)
    (c_stats_bus_messages_received x) (c_stats_pfail_nodes x) (heap x) (links x) (s_cfg x)
    (s_clock x) (s_repl x) (clients_paused x) (clients_pause_end_time x) (s_db_keys x)
    (s_statics x) (s_draws x) (s_out x).
Definition set_c_mf_slave (v : option ptr) (x : server) : server :=
  mkServer (c_myself x) (c_currentEpoch x) (c_state x) (c_size x) (c_nodes x)
    (c_nodes_black_list x) (c_migrating_slots_to x) (c_importing_slots_from x) (c_slots x)
    (c_slots_keys_count x) (c_failover_auth_time x) (c_failover_auth_count x)
    (c_failover_auth_sent x) (c_failover_auth_rank x) (c_failover_auth_epoch x)
    (c_cant_failover_reason x) (c_mf_end x) v (c_mf_master_offset x) (c_mf_can_start x)
    (c_lastVoteEpoch x) (c_todo_before_sleep x) (c_stats_bus_messages_sent x)
    (c_stats_bus_messages_received x) (c_stats_pfail_nodes x) (heap x) (links x) (s_cfg x)
    (s_clock x) (s_repl x) (clients_paused x) (clients_pause_end_time x) (s_db_keys x)
    (s_statics x) (s_draws x) (s_out x).
Definition set_c_mf_master_offset (v : Z) (x : server) : server :=
  mkServer (c_myself x) (c_currentEpoch x) (c_state x) (c_size x) (c_nodes x)
    (c_nodes_black_list x) (c_migrating_slots_to x) (c_importing_slots_from x) (c_slots x)
    (c_slots_keys_count x) (c_failover_auth_time x) (c_failover_auth_count x)
    (c_failover_auth_sent x) (c_failover_auth_rank x) (c_failover_auth_epoch x)
    (c_cant_failover_reason x) (c_mf_end x) (c_mf_slave x) v (c_mf_can_start x) (c_lastVoteEpoch x)
    (c_todo_before_sleep x) (c_stats_bus_messages_sent x) (c_stats_bus_messages_received x)
    (c_stats_pfail_nodes x) (heap x) (links x) (s_cfg x) (s_clock x) (s_repl x) (clients_paused x)
    (clients_pause_end_time x) (s_db_keys x) (s_statics x) (s_draws x) (s_out x).
Definition set_c_mf_can_start (v : Z) (x : server) : server :=
  mkServer (c_myself x) (c_currentEpoch x) (c_state x) (c_size x) (c_nodes x)
    (c_nodes_black_list x) (c_migrating_slots_to x) (c_importing_slots_from x) (c_slots x)
    (c_slots_keys_count x) (c_failover_auth_time x) (c_failover_auth_count x)
    (c_failover_auth_sent x) (c_failover_auth_rank x) (c_failover_auth_epoch x)
    (c_cant_failover_reason x) (c_mf_end x) (c_mf_slave x) (c_mf_master_offset x) v
    (c_lastVoteEpoch x) (c_todo_before_sleep x) (c_stats_bus_messages_sent x)
    (c_stats_bus_messages_received x) (c_stats_pfail_nodes x) (heap x) (links x) (s_cfg x)
    (s_clock x) (s_repl x) (clients_paused x) (clients_pause_end_time x) (s_db_keys x)
    (s_statics x) (s_draws x) (s_out x).
Definition set_c_lastVoteEpoch (v : Z) (x : server) : server :=
  mkServer (c_myself x) (c_currentEpoch x) (c_state x) (c_size x) (c_nodes x)
    (c_nodes_black_list x) (c_migrating_slots_to x) (c_importing_slots_from x) (c_slots x)
    (c_slots_keys_count x) (c_failover_auth_time x) (c_failover_auth_count x)
    (c_failover_auth_sent x) (c_failover_auth_rank x) (c_failover_auth_epoch x)
    (c_cant_failover_reason x) (c_mf_end x) (c_mf_slave x) (c_mf_master_offset x)
    (c_mf_can_start x) v (c_todo_before_sleep x) (c_stats_bus_messages_sent x)
    (c_stats_bus_messages_received x) (c_stats_pfail_nodes x) (heap x) (links x) (s_cfg x)
    (s_clock x) (s_repl x) (clients_paused x) (clients_pause_end_time x) (s_db_keys x)
    (s_statics x) (s_draws x) (s_out x).
Definition set_c_todo_before_sleep (v : Z) (x : server) : server :=
  mkServer (c_myself x) (c_currentEpoch x) (c_state x) (c_size x) (c_nodes x)
    (c_nodes_black_list x) (c_migrating_slots_to x) (c_importing_slots_from x) (c_slots x)
    (c_slots_keys_count x) (c_failover_auth_time x) (c_failover_auth_count x)
    (c_failover_auth_sent x) (c_failover_auth_rank x) (c_failover_auth_epoch x)
    (c_cant_failover_reason x) (c_mf_end x) (c_mf_slave x) (c_mf_master_offset x)
    (c_mf_can_start x) (c_lastVoteEpoch x) v (c_stats_bus_messages_sent x)
    (c_stats_bus_messages_received x) (c_stats_pfail_nodes x) (heap x) (links x) (s_cfg x)
    (s_clock x) (s_repl x) (clients_paused x) (clients_pause_end_time x) (s_db_keys x)
    (s_statics x) (s_draws x) (s_out x).
Definition set_c_stats_bus_messages_sent (v : gmap Z Z) (x : server) : server :=
  mkServer (c_myself x) (c_currentEpoch x) (c_state x) (c_size x) (c_nodes x)
    (c_nodes_black_list x) (c_migrating_slots_to x) (c_importing_slots_from x) (c_slots x)
    (c_slots_keys_count x) (c_failover_auth_time x) (c_failover_auth_count x)
    (c_failover_auth_sent x) (c_failover_auth_rank x) (c_failover_auth_epoch x)
    (c_cant_failover_reason x) (c_mf_end x) (c_mf_slave x) (c_mf_master_offset x)
    (c_mf_can_start x) (c_lastVoteEpoch x) (c_todo_before_sleep x) v
    (c_stats_bus_messages_received x) (c_stats_pfail_nodes x) (heap x) (links x) (s_cfg x)
    (s_clock x) (s_repl x) (clients_paused x) (clients_pause_end_time x) (s_db_keys x)
    (s_statics x) (s_draws x) (s_out x).
Definition set_c_stats_bus_messages_received (v : gmap Z Z) (x : server) : server :=
  mkServer (c_myself x) (c_currentEpoch x) (c_state x) (c_size x) (c_nodes x)
    (c_nodes_black_list x) (c_migrating_slots_to x) (c_importing_slots_from x) (c_slots x)
    (c_slots_keys_count x) (c_failover_auth_time x) (c_failover_auth_count x)
    (c_failover_auth_sent x) (c_failover_auth_rank x) (c_failover_auth_epoch x)
    (c_cant_failover_reason x) (c_mf_end x) (c_mf_slave x) (c_mf_master_offset x)
    (c_mf_can_start x) (c_lastVoteEpoch x) (c_todo_before_sleep x) (c_stats_bus_messages_sent x) v
    (c_stats_pfail_nodes x) (heap x) (links x) (s_cfg x) (s_clock x) (s_repl x) (clients_paused x)
    (clients_pause_end_time x) (s_db_keys x) (s_statics x) (s_draws x) (s_out x).
Definition set_c_stats_pfail_nodes (v : Z) (x : server) : server :=
  mkServer (c_myself x) (c_currentEpoch x) (c_state x) (c_size x) (c_nodes x)
    (c_nodes_black_list x) (c_migrating_slots_to x) (c_importing_slots_from x) (c_slots x)
    (c_slots_keys_count x) (c_failover_auth_time x) (c_failover_auth_count x)
    (c_failover_auth_sent x) (c_failover_auth_rank x) (c_failover_auth_epoch x)
    (c_cant_failover_reason x) (c_mf_end x) (c_mf_slave x) (c_mf_master_offset x)
    (c_mf_can_start x) (c_lastVoteEpoch x) (c_todo_before_sleep x) (c_stats_bus_messages_sent x)
    (c_stats_bus_messages_received x) v (heap x) (links x) (s_cfg x) (s_clock x) (s_repl x)
    (clients_paused x) (clients_pause_end_time x) (s_db_keys x) (s_statics x) (s_draws x) (s_out x).
Definition set_heap (v : gmap ptr clusterNode) (x : server) : server :=
  mkServer (c_myself x) (c_currentEpoch x) (c_state x) (c_size x) (c_nodes x)
    (c_nodes_black_list x) (c_migrating_slots_to x) (c_importing_slots_from x) (c_slots x)
    (c_slots_keys_count x) (c_failover_auth_time x) (c_failover_auth_count x)
    (c_failover_auth_sent x) (c_failover_auth_rank x) (c_failover_auth_epoch x)
    (c_cant_failover_reason x) (c_mf_end x) (c_mf_slave x) (c_mf_master_offset x)
    (c_mf_can_start x) (c_lastVoteEpoch x) (c_todo_before_sleep x) (c_stats_bus_messages_sent x)
    (c_stats_bus_messages_received x) (c_stats_pfail_nodes x) v (links x) (s_cfg x) (s_clock x)
    (s_repl x) (clients_paused x) (clients_pause_end_time x) (s_db_keys x) (s_statics x)
    (s_draws x) (s_out x).
Definition set_links (v : gmap ptr clusterLink) (x : server) : server :=
  mkServer (c_myself x) (c_currentEpoch x) (c_state x) (c_size x) (c_nodes x)
    (c_nodes_black_list x) (c_migrating_slots_to x) (c_importing_slots_from x) (c_slots x)
    (c_slots_keys_count x) (c_failover_auth_time x) (c_failover_auth_count x)
    (c_failover_auth_sent x) (c_failover_auth_rank x) (c_failover_auth_epoch x)
    (c_cant_failover_reason x) (c_mf_end x) (c_mf_slave x) (c_mf_master_offset x)
    (c_mf_can_start x) (c_lastVoteEpoch x) (c_todo_before_sleep x) (c_stats_bus_messages_sent x)
    (c_stats_bus_messages_received x) (c_stats_pfail_nodes x) (heap x) v (s_cfg x) (s_clock x)
    (s_repl x) (clients_paused x) (clients_pause_end_time x) (s_db_keys x) (s_statics x)
    (s_draws x) (s_out x).
Definition set_s_cfg (v : config) (x : server) : server :=
  mkServer (c_myself x) (c_currentEpoch x) (c_state x) (c_size x) (c_nodes x)
    (c_nodes_black_list x) (c_migrating_slots_to x) (c_importing_slots_from x) (c_slots x)
    (c_slots_keys_count x) (c_failover_auth_time x) (c_failover_auth_count x)
    (c_failover_auth_sent x) (c_failover_auth_rank x) (c_failover_auth_epoch x)
    (c_cant_failover_reason x) (c_mf_end x) (c_mf_slave x) (c_mf_master_offset x)
    (c_mf_can_start x) (c_lastVoteEpoch x) (c_todo_before_sleep x) (c_stats_bus_messages_sent x)
    (c_stats_bus_messages_received x) (c_stats_pfail_nodes x) (heap x) (links x) v (s_clock x)
    (s_repl x) (clients_paused x) (clients_pause_end_time x) (s_db_keys x) (s_statics x)
    (s_draws x) (s_out x).
Definition set_s_clock (v : clock) (x : server) : server :=
  mkServer (c_myself x) (c_currentEpoch x) (c_state x) (c_size x) (c_nodes x)
    (c_nodes_black_list x) (c_migrating_slots_to x) (c_importing_slots_from x) (c_slots x)
    (c_slots_keys_count x) (c_failover_auth_time x) (c_failover_auth_count x)
    (c_failover_auth_sent x) (c_failover_auth_rank x) (c_failover_auth_epoch x)
    (c_cant_failover_reason x) (c_mf_end x) (c_mf_slave x) (c_mf_master_offset x)
    (c_mf_can_start x) (c_lastVoteEpoch x) (c_todo_before_sleep x) (c_stats_bus_messages_sent x)
    (c_stats_bus_messages_received x) (c_stats_pfail_nodes x) (heap x) (links x) (s_cfg x) v
    (s_repl x) (clients_paused x) (clients_pause_end_time x) (s_db_keys x) (s_statics x)
    (s_draws x) (s_out x).
Definition set_s_repl (v : replication) (x : server) : server :=
  mkServer (c_myself x) (c_currentEpoch x) (c_state x) (c_size x) (c_nodes x)
    (c_nodes_black_list x) (c_migrating_slots_to x) (c_importing_slots_from x) (c_slots x)
    (c_slots_keys_count x) (c_failover_auth_time x) (c_failover_auth_count x)
    (c_failover_auth_sent x) (c_failover_auth_rank x) (c_failover_auth_epoch x)
    (c_cant_failover_reason x) (c_mf_end x) (c_mf_slave x) (c_mf_master_offset x)
    (c_mf_can_start x) (c_lastVoteEpoch x) (c_todo_before_sleep x) (c_stats_bus_messages_sent x)
    (c_stats_bus_messages_received x) (c_stats_pfail_nodes x) (heap x) (links x) (s_cfg x)
    (s_clock x) v (clients_paused x) (clients_pause_end_time x) (s_db_keys x) (s_statics x)
    (s_draws x) (s_out x).
Definition set_clients_paused (v : bool) (x : server) : server :=
  mkServer (c_myself x) (c_currentEpoch x) (c_state x) (c_size x) (c_nodes x)
    (c_nodes_black_list x) (c_migrating_slots_to x) (c_importing_slots_from x) (c_slots x)
    (c_slots_keys_count x) (c_failover_auth_time x) (c_failover_auth_count x)
    (c_failover_auth_sent x) (c_failover_auth_rank x) (c_failover_auth_epoch x)
    (c_cant_failover_reason x) (c_mf_end x) (c_mf_slave x) (c_mf_master_offset x)
    (c_mf_can_start x) (c_lastVoteEpoch x) (c_todo_before_sleep x) (c_stats_bus_messages_sent x)
    (c_stats_bus_messages_received x) (c_stats_pfail_nodes x) (heap x) (links x) (s_cfg x)
    (s_clock x) (s_repl x) v (clients_pause_end_time x) (s_db_keys x) (s_statics x) (s_draws x)
    (s_out x).
Definition set_clients_pause_end_time (v : Z) (x : server) : server :=
  mkServer (c_myself x) (c_currentEpoch x) (c_state x) (c_size x) (c_nodes x)
    (c_nodes_black_list x) (c_migrating_slots_to x) (c_importing_slots_from x) (c_slots x)
    (c_slots_keys_count x) (c_failover_auth_time x) (c_failover_auth_count x)
    (c_failover_auth_sent x) (c_failover_auth_rank x) (c_failover_auth_epoch x)
    (c_cant_failover_reason x) (c_mf_end x) (c_mf_slave x) (c_mf_master_offset x)
    (c_mf_can_start x) (c_lastVoteEpoch x) (c_todo_before_sleep x) (c_stats_bus_messages_sent x)
    (c_stats_bus_messages_received x) (c_stats_pfail_nodes x) (heap x) (links x) (s_cfg x)
    (s_clock x) (s_repl x) (clients_paused x) v (s_db_keys x) (s_statics x) (s_draws x) (s_out x).
Definition set_s_db_keys (v : Z) (x : server) : server :=
  mkServer (c_myself x) (c_currentEpoch x) (c_state x) (c_size x) (c_nodes x)
    (c_nodes_black_list x) (c_migrating_slots_to x) (c_importing_slots_from x) (c_slots x)
    (c_slots_keys_count x) (c_failover_auth_time x) (c_failover_auth_count x)
    (c_failover_auth_sent x) (c_failover_auth_rank x) (c_failover_auth_epoch x)
    (c_cant_failover_reason x) (c_mf_end x) (c_mf_slave x) (c_mf_master_offset x)
    (c_mf_can_start x) (c_lastVoteEpoch x) (c_todo_before_sleep x) (c_stats_bus_messages_sent x)
    (c_stats_bus_messages_received x) (c_stats_pfail_nodes x) (heap x) (links x) (s_cfg x)
    (s_clock x) (s_repl x) (clients_paused x) (clients_pause_end_time x) v (s_statics x)
    (s_draws x) (s_out x).
Definition set_s_statics (v : statics) (x : server) : server :=
  mkServer (c_myself x) (c_currentEpoch x) (c_state x) (c_size x) (c_nodes x)
    (c_nodes_black_list x) (c_migrating_slots_to x) (c_importing_slots_from x) (c_slots x)
    (c_slots_keys_count x) (c_failover_auth_time x) (c_failover_auth_count x)
    (c_failover_auth_sent x) (c_failover_auth_rank x) (c_failover_auth_epoch x)
    (c_cant_failover_reason x) (c_mf_end x) (c_mf_slave x) (c_mf_master_offset x)
    (c_mf_can_start x) (c_lastVoteEpoch x) (c_todo_before_sleep x) (c_stats_bus_messages_sent x)
    (c_stats_bus_messages_received x) (c_stats_pfail_nodes x) (heap x) (links x) (s_cfg x)
    (s_clock x) (s_repl x) (clients_paused x) (clients_pause_end_time x) (s_db_keys x) v
    (s_draws x) (s_out x).
Definition set_s_draws (v : draws) (x : server) : server :=
  mkServer (c_myself x) (c_currentEpoch x) (c_state x) (c_size x) (c_nodes x)
    (c_nodes_black_list x) (c_migrating_slots_to x) (c_importing_slots_from x) (c_slots x)
    (c_slots_keys_count x) (c_failover_auth_time x) (c_failover_auth_count x)
    (c_failover_auth_sent x) (c_failover_auth_rank x) (c_failover_auth_epoch x)
    (c_cant_failover_reason x) (c_mf_end x) (c_mf_slave x) (c_mf_master_offset x)
    (c_mf_can_start x) (c_lastVoteEpoch x) (c_todo_before_sleep x) (c_stats_bus_messages_sent x)
    (c_stats_bus_messages_received x) (c_stats_pfail_nodes x) (heap x) (links x) (s_cfg x)
    (s_clock x) (s_repl x) (clients_paused x) (clients_pause_end_time x) (s_db_keys x)
    (s_statics x) v (s_out x).
Definition set_s_out (v : list effect) (x : server) : server :=
  mkServer (c_myself x) (c_currentEpoch x) (c_state x) (c_size x) (c_nodes x)
    (c_nodes_black_list x) (c_migrating_slots_to x) (c_importing_slots_from x) (c_slots x)
    (c_slots_keys_count x) (c_failover_auth_time x) (c_failover_auth_count x)
    (c_failover_auth_sent x) (c_failover_auth_rank x) (c_failover_auth_epoch x)
    (c_cant_failover_reason x) (c_mf_end x) (c_mf_slave x) (c_mf_master_offset x)
    (c_mf_can_start x) (c_lastVoteEpoch x) (c_todo_before_sleep x) (c_stats_bus_messages_sent x)
    (c_stats_bus_messages_received x) (c_stats_pfail_nodes x) (heap x) (links x) (s_cfg x)
    (s_clock x) (s_repl x) (clients_paused x) (clients_pause_end_time x) (s_db_keys x)
    (s_statics x) (s_draws x) v.


(** ** The monad of the handlers *)

Definition M (A : Type) : Type := server -> option (A * server).

#[export] Instance M_ret : MRet M := fun A a s => Some (a, s).
#[export] Instance M_bind : MBind M := fun A B k m s =>
  match m s with Some (a, s) => k a s | None => None end.

(** Stop with a failed assertion, or with an access to freed memory. *)
Definition crash {A} : M A := fun _ => None.
Definition gets {A} (f : server -> A) : M A := fun s => Some (f s, s).
Definition modify (f : server -> server) : M unit := fun s => Some (tt, f s).
Definition serverAssert (b : bool) : M unit := if b then mret tt else crash.
Definition when (b : bool) (m : M unit) : M unit := if b then m else mret tt.

(** Read and change the object a pointer leads to. *)
Definition rd (p : ptr) : M clusterNode := fun s =>
  match heap s !! p with Some n => Some (n, s) | None => None end.
Definition upd (p : ptr) (f : clusterNode -> clusterNode) : M unit := fun s =>
  match heap s !! p with
  | Some n => Some (tt, set_heap (<[p := f n]> (heap s)) s)
  | None => None
  end.
Definition rdl (p : ptr) : M clusterLink := fun s =>
  match links s !! p with Some l => Some (l, s) | None => None end.
(** Access through a pointer that may be [NULL]. *)
Definition deref (p : option ptr) : M ptr := match p with Some p => mret p | None => crash end.

Fixpoint forM {A} (l : list A) (f : A -> M unit) : M unit :=
  match l with
  | [] => mret tt
  | x :: l => _ ← f x; forM l f
  end.

(** The loop over all slots. *)
Fixpoint slots_from (j : Z) (n : nat) : list Z :=
  match n with O => [] | Datatypes.S n => j :: slots_from (j + 1) n end.
Definition all_slots : list Z := slots_from 0 (Z.to_nat CLUSTER_SLOTS).
Definition for_slots (f : Z -> M unit) : M unit := forM all_slots f.

Definition effect_ (e : effect) : M unit := modify (fun s => set_s_out (s_out s ++ [e]) s).
Definition now : M Z := gets (fun s => mstime (s_clock s)).
Definition cfg {A} (f : config -> A) : M A := gets (fun s => f (s_cfg s)).
Definition add_flags (p : ptr) (b : Z) : M unit := upd p (fun n => set_n_flags (setf (n_flags n) b) n).
Definition del_flags (p : ptr) (b : Z) : M unit := upd p (fun n => set_n_flags (clrf (n_flags n) b) n).

(** The outside world.  Random names are 160 bits long and do not repeat;
    [connect_result k] is the local address of the socket, [None] when [connect]
    fails. *)
Class World := {
  node_order : gmap string ptr -> list ptr;
  random_num : nat -> Z;
  random_name : nat -> string;
  connect_result : nat -> option string
}.
Class WorldLaws `{World} := {
  node_order_perm m : node_order m ≡ₚ (map_to_list m).*2;
  random_name_inj i j : random_name i = random_name j -> i = j
}.

(** ** Bitmaps *)

Definition bitmapTestBit (bitmap : list Z) (pos : Z) : bool :=
  negb (Z.land (default 0 (bitmap !! Z.to_nat (pos / 8))) (Z.shiftl 1 (Z.land pos 7)) =? 0).
Definition bitmapSetBit (bitmap : list Z) (pos : Z) : list Z :=
  alter (fun b => Z.lor b (Z.shiftl 1 (Z.land pos 7))) (Z.to_nat (pos / 8)) bitmap.
Definition bitmapClearBit (bitmap : list Z) (pos : Z) : list Z :=
  alter (fun b => Z.land b (Z.lnot (Z.shiftl 1 (Z.land pos 7)))) (Z.to_nat (pos / 8)) bitmap.

Section Handlers.
Context `{World}.

Definition random : M Z := fun s =>
  let d := s_draws s in
  Some (random_num (nums_drawn d), set_s_draws (mkDraws (Datatypes.S (nums_drawn d)) (names_drawn d) (connects_drawn d)) s).
Definition getRandomHexChars : M string := fun s =>
  let d := s_draws s in
  Some (random_name (names_drawn d), set_s_draws (mkDraws (nums_drawn d) (Datatypes.S (names_drawn d)) (connects_drawn d)) s).
Definition anetTcpNonBlockBindConnect : M (option string) := fun s =>
  let d := s_draws s in
  Some (connect_result (connects_drawn d), set_s_draws (mkDraws (nums_drawn d) (names_drawn d) (Datatypes.S (connects_drawn d))) s).

Definition all_nodes : M (list ptr) := gets (fun s => node_order (c_nodes s)).
Definition myself : M ptr := gets c_myself.

Definition clusterDoBeforeSleep (flags : Z) : M unit :=
  modify (fun s => set_c_todo_before_sleep (Z.lor (c_todo_before_sleep s) flags) s).

(** [clusterSaveConfigOrDie]; a write error ends the process. *)
Definition clusterSaveConfigOrDie (fsync : bool) : M unit := effect_ (SaveConfig fsync).

(** ** Replication (replication.c) and clients (networking.c) *)

(** The connection to the master that there was is closed: its offset stays cached,
    and the time is noted.  The fields of [replication] are the ones that the cluster
    reads; replicas and blocked clients, which both functions disconnect, and the
    replication ID are not part of this state. *)
Definition master_closed (r : replication) (now : Z) : Z := if repl_connected r then now else repl_down_since r.

Definition replicationSetMaster (ip : string) (port : Z) : M unit :=
  _ ← modify (fun s => let r := s_repl s in
    set_s_repl (mkRepl (Some (ip, port)) false (lastinteraction r) (master_closed r (unixtime (s_clock s)))
      (match masterhost r with None => Some (master_repl_offset r) | Some _ => reploff r end)
      (master_repl_offset r)) s);
  effect_ (SetMaster ip port).

Definition replicationUnsetMaster : M unit :=
  r ← gets s_repl;
  match masterhost r with
  | None => mret tt
  | Some _ =>
      _ ← modify (fun s => set_s_repl (mkRepl None false (lastinteraction r) (master_closed r (unixtime (s_clock s)))
                                         None (master_repl_offset r)) s);
      effect_ UnsetMaster
  end.

Definition replicationGetSlaveOffset : M Z :=
  gets (fun s => let r := s_repl s in
    let offset := match masterhost r with Some _ => default 0 (reploff r) | None => 0 end in
    if offset <? 0 then 0 else offset).

Definition pauseClients (end_ : Z) : M unit :=
  p ← gets clients_paused;
  t ← gets clients_pause_end_time;
  _ ← when (negb p || (end_ >? t)) (modify (set_clients_pause_end_time end_));
  modify (set_clients_paused true).

Definition clientsArePaused : M bool :=
  p ← gets clients_paused;
  t ← gets clients_pause_end_time;
  m ← gets (fun s => cached_mstime (s_clock s));
  _ ← when (p && (t <? m)) (_ ← modify (set_clients_paused false); effect_ Unpause);
  gets clients_paused.

(** ** Links *)

Definition createClusterLink (node : option ptr) (peer : string) (sock : option string) : M ptr := fun s =>
  let l := fresh (dom (links s)) in
  Some (l, set_links (<[l := mkLink (mstime (s_clock s)) node peer sock]> (links s)) s).

Definition freeClusterLink (l : ptr) : M unit :=
  lk ← rdl l;
  _ ← (match l_node lk with Some n => upd n (set_n_link None) | None => mret tt end);
  modify (fun s => set_links (delete l (links s)) s).

(** ** Nodes *)

Definition new_node (nm : string) (flags t : Z) : clusterNode :=
  mkNode nm t flags 0 (replicate (Z.to_nat (CLUSTER_SLOTS / 8)) 0) 0 [] None 0 0 0 0 0 0 0 0 EmptyString 0 0 None [].

Definition alloc_node (n : clusterNode) : M ptr := fun s =>
  let p := fresh (dom (heap s)) in Some (p, set_heap (<[p := n]> (heap s)) s).

Definition createClusterNode (nodename : option string) (flags : Z) : M ptr :=
  nm ← (match nodename with Some nm => mret nm | None => getRandomHexChars end);
  t ← now;
  alloc_node (new_node nm flags t).

Fixpoint touch_report (sender : ptr) (t : Z) (l : list (ptr * Z)) : option (list (ptr * Z)) :=
  match l with
  | [] => None
  | (p, u) :: l => if decide (p = sender) then Some ((p, t) :: l) else cons (p, u) <$> touch_report sender t l
  end.

(** [true] when a new report is made. *)
Definition clusterNodeAddFailureReport (failing sender : ptr) : M bool :=
  n ← rd failing;
  t ← now;
  match touch_report sender t (n_fail_reports n) with
  | Some l => _ ← upd failing (set_n_fail_reports l); mret false
  | None => _ ← upd failing (set_n_fail_reports (n_fail_reports n ++ [(sender, t)])); mret true
  end.

Definition clusterNodeCleanupFailureReports (p : ptr) : M unit :=
  timeout ← cfg cluster_node_timeout;
  t ← now;
  upd p (fun n => set_n_fail_reports
    (filter (fun r : ptr * Z => t - r.2 <= timeout * CLUSTER_FAIL_REPORT_VALIDITY_MULT) (n_fail_reports n)) n).

Fixpoint del_report (sender : ptr) (l : list (ptr * Z)) : option (list (ptr * Z)) :=
  match l with
  | [] => None
  | (p, u) :: l => if decide (p = sender) then Some l else cons (p, u) <$> del_report sender l
  end.

Definition clusterNodeDelFailureReport (p sender : ptr) : M bool :=
  n ← rd p;
  match del_report sender (n_fail_reports n) with
  | None => mret false
  | Some l =>
      _ ← upd p (set_n_fail_reports l);
      _ ← clusterNodeCleanupFailureReports p;
      mret true
  end.

Definition clusterNodeFailureReportsCount (p : ptr) : M Z :=
  _ ← clusterNodeCleanupFailureReports p;
  n ← rd p;
  mret (zlen (n_fail_reports n)).

Fixpoint del_slave (slave : ptr) (l : list ptr) : option (list ptr) :=
  match l with
  | [] => None
  | p :: l => if decide (p = slave) then Some l else cons p <$> del_slave slave l
  end.

(** The boolean is [C_OK]. *)
Definition clusterNodeRemoveSlave (master slave : ptr) : M bool :=
  n ← rd master;
  match del_slave slave (n_slaves n) with
  | None => mret false
  | Some l =>
      _ ← upd master (set_n_slaves l);
      _ ← when (zlen l =? 0) (del_flags master CLUSTER_NODE_MIGRATE_TO);
      mret true
  end.

Definition clusterNodeAddSlave (master slave : ptr) : M bool :=
  n ← rd master;
  if bool_decide (slave ∈ n_slaves n) then mret false
  else
    _ ← upd master (set_n_slaves (n_slaves n ++ [slave]));
    _ ← add_flags master CLUSTER_NODE_MIGRATE_TO;
    mret true.

(** Count the objects of a list that satisfy a test. *)
Fixpoint count_nodes (f : clusterNode -> bool) (l : list ptr) : M Z :=
  match l with
  | [] => mret 0
  | p :: l => n ← rd p; c ← count_nodes f l; mret (if f n then 1 + c else c)
  end.

Definition clusterCountNonFailingSlaves (p : ptr) : M Z :=
  n ← rd p;
  count_nodes (fun n => negb (nodeFailed n)) (n_slaves n).

Definition dictDelete_node (nm : string) : M bool :=
  m ← gets c_nodes;
  match m !! nm with
  | None => mret false
  | Some _ => _ ← modify (set_c_nodes (delete nm m)); mret true
  end.

Definition freeClusterNode (p : ptr) : M unit :=
  n ← rd p;
  _ ← forM (n_slaves n) (fun q => upd q (set_n_slaveof None));
  n ← rd p;
  _ ← (match n_slaveof n with
       | Some m => when (nodeIsSlave n) (_ ← clusterNodeRemoveSlave m p; mret tt)
       | None => mret tt
       end);
  n ← rd p;
  ok ← dictDelete_node (n_name n);
  _ ← serverAssert ok;
  _ ← (match n_link n with Some l => freeClusterLink l | None => mret tt end);
  modify (fun s => set_heap (delete p (heap s)) s).

(** [dictAdd] does nothing when the key is there. *)
Definition clusterAddNode (p : ptr) : M bool :=
  n ← rd p;
  m ← gets c_nodes;
  match m !! n_name n with
  | Some _ => mret false
  | None => _ ← modify (set_c_nodes (<[n_name n := p]> m)); mret true
  end.

Definition clusterLookupNode (nm : string) : M (option ptr) := gets (fun s => c_nodes s !! nm).

Definition clusterRenameNode (p : ptr) (newname : string) : M unit :=
  n ← rd p;
  ok ← dictDelete_node (n_name n);
  _ ← serverAssert ok;
  _ ← upd p (set_n_name newname);
  _ ← clusterAddNode p;
  mret tt.

(** ** Slots *)

Fixpoint sum_slaves (l : list ptr) : M Z :=
  match l with
  | [] => mret 0
  | p :: l => n ← rd p; c ← sum_slaves l; mret (if nodeIsSlave n then c else zlen (n_slaves n) + c)
  end.

Definition clusterMastersHaveSlaves : M bool :=
  l ← all_nodes;
  n ← sum_slaves l;
  mret (negb (n =? 0)).

Definition clusterNodeSetSlotBit (p : ptr) (slot : Z) : M bool :=
  n ← rd p;
  let old := bitmapTestBit (n_slots n) slot in
  _ ← upd p (set_n_slots (bitmapSetBit (n_slots n) slot));
  _ ← when (negb old)
    (_ ← upd p (set_n_numslots (n_numslots n + 1));
     when (n_numslots n + 1 =? 1)
       (have ← clusterMastersHaveSlaves;
        when have (add_flags p CLUSTER_NODE_MIGRATE_TO)));
  mret old.

Definition clusterNodeClearSlotBit (p : ptr) (slot : Z) : M bool :=
  n ← rd p;
  let old := bitmapTestBit (n_slots n) slot in
  _ ← upd p (set_n_slots (bitmapClearBit (n_slots n) slot));
  _ ← when old (upd p (set_n_numslots (n_numslots n - 1)));
  mret old.

Definition clusterNodeGetSlotBit (p : ptr) (slot : Z) : M bool :=
  n ← rd p;
  mret (bitmapTestBit (n_slots n) slot).

Definition clusterAddSlot (p : ptr) (slot : Z) : M bool :=
  m ← gets c_slots;
  match m !! slot with
  | Some _ => mret false
  | None =>
      _ ← clusterNodeSetSlotBit p slot;
      _ ← modify (fun s => set_c_slots (<[slot := p]> (c_slots s)) s);
      mret true
  end.

Definition clusterDelSlot (slot : Z) : M bool :=
  m ← gets c_slots;
  match m !! slot with
  | None => mret false
  | Some p =>
      old ← clusterNodeClearSlotBit p slot;
      _ ← serverAssert old;
      _ ← modify (fun s => set_c_slots (delete slot (c_slots s)) s);
      mret true
  end.

(** The number of deleted slots, which no caller uses, is left out. *)
Definition clusterDelNodeSlots (p : ptr) : M unit :=
  for_slots (fun j =>
    b ← clusterNodeGetSlotBit p j;
    when b (_ ← clusterDelSlot j; mret tt)).

Definition clusterCloseAllSlots : M unit :=
  _ ← modify (set_c_migrating_slots_to ∅);
  modify (set_c_importing_slots_from ∅).

Definition clusterDelNode (delnode : ptr) : M unit :=
  _ ← for_slots (fun j =>
    _ ← modify (fun s => if decide (c_importing_slots_from s !! j = Some delnode)
                         then set_c_importing_slots_from (delete j (c_importing_slots_from s)) s else s);
    _ ← modify (fun s => if decide (c_migrating_slots_to s !! j = Some delnode)
                         then set_c_migrating_slots_to (delete j (c_migrating_slots_to s)) s else s);
    m ← gets c_slots;
    when (bool_decide (m !! j = Some delnode)) (_ ← clusterDelSlot j; mret tt));
  l ← all_nodes;
  _ ← forM l (fun p => when (negb (bool_decide (p = delnode))) (_ ← clusterNodeDelFailureReport p delnode; mret tt));
  freeClusterNode delnode.

(** ** Config epochs *)

Fixpoint max_epoch (l : list ptr) (max : Z) : M Z :=
  match l with
  | [] => mret max
  | p :: l => n ← rd p; max_epoch l (if n_configEpoch n >? max then n_configEpoch n else max)
  end.

Definition clusterGetMaxEpoch : M Z :=
  l ← all_nodes;
  max ← max_epoch l 0;
  cur ← gets c_currentEpoch;
  mret (if max <? cur then cur else max).

Definition next_epoch : M unit :=
  _ ← modify (fun s => set_c_currentEpoch (u64 (c_currentEpoch s + 1)) s);
  me ← myself;
  cur ← gets c_currentEpoch;
  upd me (set_n_configEpoch cur).

(** The boolean is [C_OK]. *)
Definition clusterBumpConfigEpochWithoutConsensus : M bool :=
  maxEpoch ← clusterGetMaxEpoch;
  me ← myself;
  n ← rd me;
  if (n_configEpoch n =? 0) || negb (n_configEpoch n =? maxEpoch) then
    _ ← next_epoch;
    _ ← clusterDoBeforeSleep (Z.lor CLUSTER_TODO_SAVE_CONFIG CLUSTER_TODO_FSYNC_CONFIG);
    mret true
  else mret false.

Definition clusterHandleConfigEpochCollision (sender : ptr) : M unit :=
  me ← myself;
  s ← rd sender;
  n ← rd me;
  if negb (n_configEpoch s =? n_configEpoch n) || negb (nodeIsMaster s) || negb (nodeIsMaster n) then mret tt
  else if (n_name s <=? n_name n)%string then mret tt
  else
    _ ← next_epoch;
    clusterSaveConfigOrDie true.

(** ** The black list *)

Definition clusterBlacklistCleanup : M unit :=
  modify (fun s => set_c_nodes_black_list
    (filter (fun e : string * Z => unixtime (s_clock s) <= e.2) (c_nodes_black_list s)) s).

Definition CLUSTER_BLACKLIST_TTL := 60.

Definition clusterBlacklistAddNode (p : ptr) : M unit :=
  n ← rd p;
  _ ← clusterBlacklistCleanup;
  t ← now;
  modify (fun s => set_c_nodes_black_list (<[n_name n := t / 1000 + CLUSTER_BLACKLIST_TTL]> (c_nodes_black_list s)) s).

Definition clusterBlacklistExists (nm : string) : M bool :=
  _ ← clusterBlacklistCleanup;
  gets (fun s => bool_decide (is_Some (c_nodes_black_list s !! nm))).

(** ** Messages *)

Definition CLUSTERMSG_TYPE_COUNT := 10.
Definition HDR_LEN := 2256.
Definition GOSSIP_LEN := 104.

Definition bump (t : Z) (m : gmap Z Z) : gmap Z Z :=
  if t <? CLUSTERMSG_TYPE_COUNT then <[t := default 0 (m !! t) + 1]> m else m.

(** A message is queued on a link. *)
Definition clusterSendMessage (link : ptr) (msg : clusterMsg) : M unit :=
  _ ← rdl link;
  _ ← effect_ (Send link msg);
  modify (fun s => set_c_stats_bus_messages_sent (bump (msg_type (h_data msg)) (c_stats_bus_messages_sent s)) s).

Definition clusterBroadcastMessage (msg : clusterMsg) : M unit :=
  l ← all_nodes;
  forM l (fun p =>
    n ← rd p;
    match n_link n with
    | None => mret tt
    | Some link =>
        when (negb (has (n_flags n) (Z.lor CLUSTER_NODE_MYSELF CLUSTER_NODE_HANDSHAKE)))
          (clusterSendMessage link msg)
    end).

(** The length of a message with this content. *)
Definition data_len (d : clusterMsgData) : Z :=
  match d with
  | PING g | PONG g | MEET g => HDR_LEN + GOSSIP_LEN * zlen g
  | FAIL _ => HDR_LEN + 40
  | PUBLISH ch m => HDR_LEN + (16 - 8 + Z.of_nat (String.length ch) + Z.of_nat (String.length m))
  | FAILOVER_AUTH_REQUEST | FAILOVER_AUTH_ACK | MFSTART => HDR_LEN
  | UPDATE _ _ _ => HDR_LEN + 2096
  | MODULE _ len _ _ => HDR_LEN + (16 - 3 + len)
  | UNKNOWN _ => HDR_LEN
  end.

(** [clusterBuildMessageHdr], with the content and the length that its callers
    add.  [mflags] are the flags of the caller. *)
Definition clusterBuildMessageHdr (data : clusterMsgData) (mflags : Z) : M clusterMsg :=
  me ← myself;
  n ← rd me;
  mp ← (match n_slaveof n with
        | Some m => mret (if nodeIsSlave n then m else me)
        | None => mret me
        end);
  master ← rd mp;
  slaveof_name ← (match n_slaveof n with
                  | Some m => m ← rd m; mret (n_name m)
                  | None => mret CLUSTER_NODE_NULL_NAME
                  end);
  c ← gets s_cfg;
  slave_offset ← replicationGetSlaveOffset;
  s ← gets id;
  mret (mkMsg (data_len data) CLUSTER_PROTO_VER
    (if cluster_announce_port c =? 0 then server_port c else cluster_announce_port c)
    (c_currentEpoch s) (n_configEpoch master)
    (if nodeIsSlave n then slave_offset else master_repl_offset (s_repl s))
    (n_name n) (n_slots master) slaveof_name
    (match cluster_announce_ip c with Some ip => substring 0 (NET_IP_STR_LEN - 1) ip | None => EmptyString end)
    (if cluster_announce_bus_port c =? 0 then server_port c + CLUSTER_PORT_INCR else cluster_announce_bus_port c)
    (u16 (n_flags n)) (c_state s)
    (Z.lor (if nodeIsMaster n && negb (c_mf_end s =? 0) then CLUSTERMSG_FLAG0_PAUSED else 0) mflags)
    data).

Definition clusterSetGossipEntry (n : clusterNode) : clusterMsgDataGossip :=
  mkGossip (n_name n) (u32 (Z.quot (n_ping_sent n) 1000)) (u32 (Z.quot (n_pong_received n) 1000))
    (n_ip n) (u16 (n_port n)) (u16 (n_cport n)) (u16 (n_flags n)).

(** [dictGetRandomKey]. *)
Definition dictGetRandomNode : M ptr :=
  r ← random;
  l ← all_nodes;
  deref (l !! Z.to_nat (r mod zlen l)).

(** The nodes of the gossip section, drawn at random. *)
Fixpoint gossip_loop (fuel : nat) (freshnodes wanted : Z) (acc : list clusterMsgDataGossip)
    : M (list clusterMsgDataGossip) :=
  match fuel with
  | O => mret acc
  | Datatypes.S fuel =>
      if (freshnodes >? 0) && (zlen acc <? wanted) then
        p ← dictGetRandomNode;
        me ← myself;
        n ← rd p;
        if bool_decide (p = me) then gossip_loop fuel freshnodes wanted acc
        else if nodeTimedOut n then gossip_loop fuel freshnodes wanted acc
        else if has (n_flags n) (Z.lor CLUSTER_NODE_HANDSHAKE CLUSTER_NODE_NOADDR)
                || (bool_decide (n_link n = None) && (n_numslots n =? 0)) then
          gossip_loop fuel (freshnodes - 1) wanted acc
        else if existsb (fun g => bool_decide (g_nodename g = n_name n)) acc then
          gossip_loop fuel freshnodes wanted acc
        else gossip_loop fuel (freshnodes - 1) wanted (acc ++ [clusterSetGossipEntry n])
      else mret acc
  end.

(** The nodes in PFAIL state, at most [pfail_wanted] of them. *)
Fixpoint pfail_loop (l : list ptr) (pfail_wanted : Z) (acc : list clusterMsgDataGossip)
    : M (list clusterMsgDataGossip) :=
  match l with
  | [] => mret acc
  | p :: l =>
      if pfail_wanted >? 0 then
        n ← rd p;
        if has (n_flags n) CLUSTER_NODE_HANDSHAKE || has (n_flags n) CLUSTER_NODE_NOADDR
           || negb (has (n_flags n) CLUSTER_NODE_PFAIL)
        then pfail_loop l pfail_wanted acc
        else pfail_loop l (pfail_wanted - 1) (acc ++ [clusterSetGossipEntry n])
      else mret acc
  end.

(** How many nodes the gossip section should have. *)
Definition gossip_wanted (known : Z) : Z :=
  let freshnodes := known - 2 in
  let wanted := known / 10 in
  let wanted := if wanted <? 3 then 3 else wanted in
  if wanted >? freshnodes then freshnodes else wanted.

Definition clusterSendPing (link : ptr) (type : list clusterMsgDataGossip -> clusterMsgData) : M unit :=
  l ← all_nodes;
  let wanted := gossip_wanted (zlen l) in
  pfail_wanted ← gets c_stats_pfail_nodes;
  lk ← rdl link;
  t ← now;
  _ ← (match l_node lk, type [] with
       | Some p, PING _ => upd p (set_n_ping_sent t)
       | _, _ => mret tt
       end);
  hdr ← clusterBuildMessageHdr (type []) 0;
  g ← gossip_loop (Z.to_nat (wanted * 3)) (zlen l - 2) wanted [];
  g ← pfail_loop l pfail_wanted g;
  clusterSendMessage link (mkMsg (data_len (type g)) (h_ver hdr) (h_port hdr) (h_currentEpoch hdr) (h_configEpoch hdr)
    (h_offset hdr) (h_sender hdr) (h_myslots hdr) (h_slaveof hdr) (h_myip hdr) (h_cport hdr) (h_flags hdr)
    (h_state hdr) (h_mflags0 hdr) (type g)).

(** [local_slaves] is [CLUSTER_BROADCAST_LOCAL_SLAVES]. *)
Definition clusterBroadcastPong (local_slaves : bool) : M unit :=
  l ← all_nodes;
  forM l (fun p =>
    n ← rd p;
    me ← myself;
    m ← rd me;
    match n_link n with
    | None => mret tt
    | Some link =>
        when (negb (bool_decide (p = me) || nodeInHandshake n)
              && (negb local_slaves ||
                  (nodeIsSlave n && bool_decide (is_Some (n_slaveof n)) &&
                   (bool_decide (n_slaveof n = Some me) || bool_decide (n_slaveof n = n_slaveof m)))))
          (clusterSendPing link PONG)
    end).

Definition clusterSendPublish (link : option ptr) (channel message : string) : M unit :=
  hdr ← clusterBuildMessageHdr (PUBLISH channel message) 0;
  match link with Some l => clusterSendMessage l hdr | None => clusterBroadcastMessage hdr end.

Definition clusterSendFail (nodename : string) : M unit :=
  hdr ← clusterBuildMessageHdr (FAIL nodename) 0;
  clusterBroadcastMessage hdr.

Definition clusterSendUpdate (link : option ptr) (p : ptr) : M unit :=
  match link with
  | None => mret tt
  | Some link =>
      n ← rd p;
      hdr ← clusterBuildMessageHdr (UPDATE (n_configEpoch n) (n_name n) (n_slots n)) 0;
      clusterSendMessage link hdr
  end.

Definition clusterSendModule (link : option ptr) (module_id type : Z) (payload : string) (len : Z) : M unit :=
  hdr ← clusterBuildMessageHdr (MODULE module_id len type payload) 0;
  match link with Some l => clusterSendMessage l hdr | None => clusterBroadcastMessage hdr end.

Definition clusterSendModuleMessageToTarget (target : option string) (module_id type : Z) (payload : string) (len : Z) : M bool :=
  match target with
  | None => _ ← clusterSendModule None module_id type payload len; mret true
  | Some nm =>
      p ← clusterLookupNode nm;
      match p with
      | None => mret false
      | Some p =>
          n ← rd p;
          match n_link n with
          | None => mret false
          | Some l => _ ← clusterSendModule (Some l) module_id type payload len; mret true
          end
      end
  end.

Definition clusterRequestFailoverAuth : M unit :=
  mf_end ← gets c_mf_end;
  hdr ← clusterBuildMessageHdr FAILOVER_AUTH_REQUEST (if mf_end =? 0 then 0 else CLUSTERMSG_FLAG0_FORCEACK);
  clusterBroadcastMessage hdr.

(** [clusterSendFailoverAuth] and [clusterSendMFStart]. *)
Definition clusterSendEmpty (p : ptr) (data : clusterMsgData) : M unit :=
  n ← rd p;
  match n_link n with
  | None => mret tt
  | Some link =>
      hdr ← clusterBuildMessageHdr data 0;
      clusterSendMessage link hdr
  end.
Definition clusterSendFailoverAuth (p : ptr) : M unit := clusterSendEmpty p FAILOVER_AUTH_ACK.
Definition clusterSendMFStart (p : ptr) : M unit := clusterSendEmpty p MFSTART.

(** ** Failure detection *)

Definition markNodeAsFailingIfNeeded (p : ptr) : M unit :=
  size ← gets c_size;
  let needed_quorum := Z.quot size 2 + 1 in
  n ← rd p;
  if negb (nodeTimedOut n) then mret tt
  else if nodeFailed n then mret tt
  else
    failures ← clusterNodeFailureReportsCount p;
    me ← myself;
    m ← rd me;
    let failures := if nodeIsMaster m then failures + 1 else failures in
    if failures <? needed_quorum then mret tt
    else
      _ ← del_flags p CLUSTER_NODE_PFAIL;
      _ ← add_flags p CLUSTER_NODE_FAIL;
      t ← now;
      _ ← upd p (set_n_fail_time t);
      m ← rd me;
      _ ← when (nodeIsMaster m) (n ← rd p; clusterSendFail (n_name n));
      clusterDoBeforeSleep (Z.lor CLUSTER_TODO_UPDATE_STATE CLUSTER_TODO_SAVE_CONFIG).

Definition clearNodeFailureIfNeeded (p : ptr) : M unit :=
  t ← now;
  n ← rd p;
  _ ← serverAssert (nodeFailed n);
  _ ← when (nodeIsSlave n || (n_numslots n =? 0))
    (_ ← del_flags p CLUSTER_NODE_FAIL;
     clusterDoBeforeSleep (Z.lor CLUSTER_TODO_UPDATE_STATE CLUSTER_TODO_SAVE_CONFIG));
  n ← rd p;
  timeout ← cfg cluster_node_timeout;
  when (nodeIsMaster n && (n_numslots n >? 0) && (t - n_fail_time n >? timeout * CLUSTER_FAIL_UNDO_TIME_MULT))
    (_ ← del_flags p CLUSTER_NODE_FAIL;
     clusterDoBeforeSleep (Z.lor CLUSTER_TODO_UPDATE_STATE CLUSTER_TODO_SAVE_CONFIG)).

(** [strcasecmp] on addresses. *)
Definition tolower (c : ascii) : ascii :=
  let n := nat_of_ascii c in if (65 <=? n)%nat && (n <=? 90)%nat then ascii_of_nat (n + 32) else c.
Fixpoint lower (s : string) : string :=
  match s with EmptyString => EmptyString | String c s => String (tolower c) (lower s) end.
Definition strcaseeq (a b : string) : bool := bool_decide (lower a = lower b).

Fixpoint find_handshake (ip : string) (port cport : Z) (l : list ptr) : M bool :=
  match l with
  | [] => mret false
  | p :: l =>
      n ← rd p;
      if nodeInHandshake n && strcaseeq (n_ip n) ip && (n_port n =? port) && (n_cport n =? cport)
      then mret true else find_handshake ip port cport l
  end.

Definition clusterHandshakeInProgress (ip : string) (port cport : Z) : M bool :=
  l ← all_nodes;
  find_handshake ip port cport l.

(** [norm_ip] is what [inet_pton] and [inet_ntop] make of the address, [None] when
    it is not an address.  The result is [None] for [EINVAL]. *)
Definition clusterStartHandshake (norm_ip : option string) (port cport : Z) : M (option bool) :=
  match norm_ip with
  | None => mret None
  | Some ip =>
      if (port <=? 0) || (port >? 65535) || (cport <=? 0) || (cport >? 65535) then mret None
      else
        b ← clusterHandshakeInProgress ip port cport;
        if b : bool then mret (Some false)
        else
          p ← createClusterNode None (Z.lor CLUSTER_NODE_HANDSHAKE CLUSTER_NODE_MEET);
          _ ← upd p (fun n => set_n_ip ip (set_n_port port (set_n_cport cport n)));
          _ ← clusterAddNode p;
          mret (Some true)
  end.

Definition FAILING := Z.lor CLUSTER_NODE_FAIL CLUSTER_NODE_PFAIL.

(** An entry about a node we know. *)
Definition gossip_known (sender : option ptr) (g : clusterMsgDataGossip) (p : ptr) : M unit :=
  me ← myself;
  _ ← (match sender with
       | None => mret tt
       | Some sp =>
           sn ← rd sp;
           when (nodeIsMaster sn && negb (bool_decide (p = me)))
             (if has (g_flags g) FAILING then
                _ ← clusterNodeAddFailureReport p sp;
                markNodeAsFailingIfNeeded p
              else
                _ ← clusterNodeDelFailureReport p sp;
                mret tt)
       end);
  n ← rd p;
  _ ← when (negb (has (g_flags g) FAILING) && (n_ping_sent n =? 0))
    (c ← clusterNodeFailureReportsCount p;
     when (c =? 0)
       (ms ← gets (fun s => cached_mstime (s_clock s));
        let pongtime := g_pong_received g * 1000 in
        when ((pongtime <=? ms + 500) && (pongtime >? n_pong_received n)) (upd p (set_n_pong_received pongtime))));
  n ← rd p;
  when (has (n_flags n) FAILING && negb (has (g_flags g) CLUSTER_NODE_NOADDR) && negb (has (g_flags g) FAILING)
        && (negb (strcaseeq (n_ip n) (g_ip g)) || negb (n_port n =? g_port g) || negb (n_cport n =? g_cport g)))
    (_ ← (match n_link n with Some l => freeClusterLink l | None => mret tt end);
     _ ← upd p (fun n => set_n_ip (g_ip g) (set_n_port (g_port g) (set_n_cport (g_cport g) n)));
     del_flags p CLUSTER_NODE_NOADDR).

(** An entry about a node we do not know. *)
Definition gossip_unknown (sender : option ptr) (g : clusterMsgDataGossip) : M unit :=
  match sender with
  | None => mret tt
  | Some _ =>
      if has (g_flags g) CLUSTER_NODE_NOADDR then mret tt
      else
        b ← clusterBlacklistExists (g_nodename g);
        if b : bool then mret tt
        else
          p ← createClusterNode (Some (g_nodename g)) (g_flags g);
          _ ← upd p (fun n => set_n_ip (g_ip g) (set_n_port (g_port g) (set_n_cport (g_cport g) n)));
          _ ← clusterAddNode p;
          mret tt
  end.

Definition clusterProcessGossipSection (hdr : clusterMsg) (gossip : list clusterMsgDataGossip) (link : ptr) : M unit :=
  lk ← rdl link;
  sender ← (match l_node lk with Some p => mret (Some p) | None => clusterLookupNode (h_sender hdr) end);
  forM gossip (fun g =>
    p ← clusterLookupNode (g_nodename g);
    match p with
    | Some p => gossip_known sender g p
    | None => gossip_unknown sender g
    end).

(** ** Roles *)

Definition nodeIp2String (lk : clusterLink) (announced_ip : string) : string :=
  match announced_ip with
  | EmptyString => l_peer lk
  | _ => substring 0 (NET_IP_STR_LEN - 1) announced_ip
  end.

Definition nodeUpdateAddressIfNeeded (p link : ptr) (hdr : clusterMsg) : M bool :=
  n ← rd p;
  if bool_decide (n_link n = Some link) then mret false
  else
    lk ← rdl link;
    let ip := nodeIp2String lk (h_myip hdr) in
    if (n_port n =? h_port hdr) && (n_cport n =? h_cport hdr) && bool_decide (ip = n_ip n) then mret false
    else
      _ ← upd p (fun n => set_n_ip ip (set_n_port (h_port hdr) (set_n_cport (h_cport hdr) n)));
      _ ← (match n_link n with Some l => freeClusterLink l | None => mret tt end);
      _ ← del_flags p CLUSTER_NODE_NOADDR;
      me ← myself;
      m ← rd me;
      _ ← when (nodeIsSlave m && bool_decide (n_slaveof m = Some p)) (replicationSetMaster ip (h_port hdr));
      mret true.

Definition clusterSetNodeAsMaster (p : ptr) : M unit :=
  n ← rd p;
  if nodeIsMaster n then mret tt
  else
    me ← myself;
    _ ← (match n_slaveof n with
         | Some m =>
             _ ← clusterNodeRemoveSlave m p;
             when (negb (bool_decide (p = me))) (add_flags p CLUSTER_NODE_MIGRATE_TO)
         | None => mret tt
         end);
    _ ← del_flags p CLUSTER_NODE_SLAVE;
    _ ← add_flags p CLUSTER_NODE_MASTER;
    _ ← upd p (set_n_slaveof None);
    clusterDoBeforeSleep (Z.lor CLUSTER_TODO_SAVE_CONFIG CLUSTER_TODO_UPDATE_STATE).

Definition resetManualFailover : M unit :=
  mf_end ← gets c_mf_end;
  _ ← when (negb (mf_end =? 0))
    (b ← clientsArePaused;
     when b (_ ← modify (set_clients_pause_end_time 0); _ ← clientsArePaused; mret tt));
  _ ← modify (set_c_mf_end 0);
  _ ← modify (set_c_mf_can_start 0);
  _ ← modify (set_c_mf_slave None);
  modify (set_c_mf_master_offset 0).

Definition clusterSetMaster (p : ptr) : M unit :=
  me ← myself;
  _ ← serverAssert (negb (bool_decide (p = me)));
  m ← rd me;
  _ ← serverAssert (n_numslots m =? 0);
  _ ← (if nodeIsMaster m then
         _ ← del_flags me (Z.lor CLUSTER_NODE_MASTER CLUSTER_NODE_MIGRATE_TO);
         _ ← add_flags me CLUSTER_NODE_SLAVE;
         clusterCloseAllSlots
       else
         match n_slaveof m with
         | Some old => _ ← clusterNodeRemoveSlave old me; mret tt
         | None => mret tt
         end);
  _ ← upd me (set_n_slaveof (Some p));
  _ ← clusterNodeAddSlave p me;
  n ← rd p;
  _ ← replicationSetMaster (n_ip n) (n_port n);
  resetManualFailover.

(** ** The slots of a node *)

Definition countKeysInSlot (slot : Z) : M Z := gets (fun s => default 0 (c_slots_keys_count s !! slot)).

(** Deleting the keys of a slot one by one leaves no key in it. *)
Definition delKeysInSlot (slot : Z) : M unit :=
  _ ← modify (fun s => set_c_slots_keys_count (delete slot (c_slots_keys_count s)) s);
  effect_ (DelKeysInSlot slot).

Definition CONFIG_TODO :=
  Z.lor CLUSTER_TODO_SAVE_CONFIG (Z.lor CLUSTER_TODO_UPDATE_STATE CLUSTER_TODO_FSYNC_CONFIG).

(** The loop over the slots: the dirty slots, and whether a slot of [curmaster]
    has moved. *)
Fixpoint update_slots (sender : ptr) (senderConfigEpoch : Z) (slots : list Z) (curmaster : option ptr)
    (js : list Z) (dirty : list Z) (newmaster : bool) : M (list Z * bool) :=
  match js with
  | [] => mret (dirty, newmaster)
  | j :: js =>
      let next := update_slots sender senderConfigEpoch slots curmaster js in
      if negb (bitmapTestBit slots j) then next dirty newmaster
      else
        owner ← gets (fun s => c_slots s !! j);
        importing ← gets (fun s => c_importing_slots_from s !! j);
        if bool_decide (owner = Some sender) then next dirty newmaster
        else if bool_decide (is_Some importing) then next dirty newmaster
        else
          older ← (match owner with
                   | None => mret true
                   | Some p => n ← rd p; mret (n_configEpoch n <? senderConfigEpoch)
                   end);
          if negb older then next dirty newmaster
          else
            me ← myself;
            keys ← countKeysInSlot j;
            let dirty :=
              if bool_decide (owner = Some me) && negb (keys =? 0) && negb (bool_decide (sender = me))
              then dirty ++ [j] else dirty in
            let newmaster := newmaster || bool_decide (owner = curmaster) in
            _ ← clusterDelSlot j;
            _ ← clusterAddSlot sender j;
            _ ← clusterDoBeforeSleep CONFIG_TODO;
            next dirty newmaster
  end.

Definition clusterUpdateSlotsConfigWith (sender : ptr) (senderConfigEpoch : Z) (slots : list Z) : M unit :=
  me ← myself;
  m ← rd me;
  let curmaster := if nodeIsMaster m then Some me else n_slaveof m in
  if bool_decide (sender = me) then mret tt
  else
    '(dirty, newmaster) ← update_slots sender senderConfigEpoch slots curmaster all_slots [] false;
    flags ← cfg cluster_module_flags;
    if has flags CLUSTER_MODULE_FLAG_NO_REDIRECTION then mret tt
    else
      demoted ← (if newmaster : bool then c ← deref curmaster; c ← rd c; mret (n_numslots c =? 0) else mret false);
      if demoted : bool then
        _ ← clusterSetMaster sender;
        clusterDoBeforeSleep CONFIG_TODO
      else forM dirty delKeysInSlot.

(** ** The state of the cluster *)

Definition CLUSTER_MAX_REJOIN_DELAY := 5000.
Definition CLUSTER_MIN_REJOIN_DELAY := 500.
Definition CLUSTER_WRITABLE_DELAY := 2000.

(** Is a slot unassigned, or its owner failing? *)
Fixpoint uncovered (js : list Z) : M bool :=
  match js with
  | [] => mret false
  | j :: js =>
      owner ← gets (fun s => c_slots s !! j);
      match owner with
      | None => mret true
      | Some p => n ← rd p; if has (n_flags n) CLUSTER_NODE_FAIL then mret true else uncovered js
      end
  end.

(** The masters that serve slots, and those of them that are reachable. *)
Fixpoint count_masters (l : list ptr) : M (Z * Z) :=
  match l with
  | [] => mret (0, 0)
  | p :: l =>
      n ← rd p;
      '(size, reachable) ← count_masters l;
      if nodeIsMaster n && negb (n_numslots n =? 0)
      then mret (1 + size, if has (n_flags n) FAILING then reachable else 1 + reachable)
      else mret (size, reachable)
  end.

Definition clusterUpdateState : M unit :=
  _ ← modify (fun s => set_c_todo_before_sleep (clrf (c_todo_before_sleep s) CLUSTER_TODO_UPDATE_STATE) s);
  t ← now;
  _ ← modify (fun s => let x := s_statics s in
         if first_call_time x =? 0
         then set_s_statics (mkStatics (among_minority_time x) t (iteration x) (prev_ip x)) s else s);
  me ← myself;
  m ← rd me;
  st ← gets c_state;
  first ← gets (fun s => first_call_time (s_statics s));
  if nodeIsMaster m && (st =? CLUSTER_FAIL) && (t - first <? CLUSTER_WRITABLE_DELAY) then mret tt
  else
    full ← cfg cluster_require_full_coverage;
    hole ← (if full : bool then uncovered all_slots else mret false);
    l ← all_nodes;
    '(size, reachable_masters) ← count_masters l;
    _ ← modify (set_c_size size);
    let minority := reachable_masters <? Z.quot size 2 + 1 in
    _ ← when minority
      (modify (fun s => let x := s_statics s in
         set_s_statics (mkStatics t (first_call_time x) (iteration x) (prev_ip x)) s));
    let new_state := if hole || minority then CLUSTER_FAIL else CLUSTER_OK in
    if new_state =? st then mret tt
    else
      timeout ← cfg cluster_node_timeout;
      let delay := if timeout >? CLUSTER_MAX_REJOIN_DELAY then CLUSTER_MAX_REJOIN_DELAY else timeout in
      let delay := if delay <? CLUSTER_MIN_REJOIN_DELAY then CLUSTER_MIN_REJOIN_DELAY else delay in
      among ← gets (fun s => among_minority_time (s_statics s));
      if (new_state =? CLUSTER_OK) && nodeIsMaster m && (t - among <? delay) then mret tt
      else modify (set_c_state new_state).

(** ** Votes *)

(** Is a claimed slot served by a master with a greater config epoch? *)
Fixpoint refused (claimed : list Z) (requestConfigEpoch : Z) (js : list Z) : M bool :=
  match js with
  | [] => mret false
  | j :: js =>
      if negb (bitmapTestBit claimed j) then refused claimed requestConfigEpoch js
      else
        owner ← gets (fun s => c_slots s !! j);
        match owner with
        | None => refused claimed requestConfigEpoch js
        | Some p =>
            n ← rd p;
            if n_configEpoch n <=? requestConfigEpoch then refused claimed requestConfigEpoch js
            else mret true
        end
  end.

Definition clusterSendFailoverAuthIfNeeded (p : ptr) (request : clusterMsg) : M unit :=
  n ← rd p;
  me ← myself;
  m ← rd me;
  if nodeIsSlave m || (n_numslots m =? 0) then mret tt
  else
    cur ← gets c_currentEpoch;
    last ← gets c_lastVoteEpoch;
    if h_currentEpoch request <? cur then mret tt
    else if last =? cur then mret tt
    else if nodeIsMaster n then mret tt
    else match n_slaveof n with
    | None => mret tt
    | Some mp =>
        master ← rd mp;
        if negb (nodeFailed master) && negb (has (h_mflags0 request) CLUSTERMSG_FLAG0_FORCEACK) then mret tt
        else
          t ← now;
          timeout ← cfg cluster_node_timeout;
          if t - n_voted_time master <? timeout * 2 then mret tt
          else
            no ← refused (h_myslots request) (h_configEpoch request) all_slots;
            if no : bool then mret tt
            else
              _ ← modify (set_c_lastVoteEpoch cur);
              _ ← upd mp (set_n_voted_time t);
              _ ← clusterDoBeforeSleep (Z.lor CLUSTER_TODO_SAVE_CONFIG CLUSTER_TODO_FSYNC_CONFIG);
              clusterSendFailoverAuth p
    end.

(** ** Failover of a replica *)

Fixpoint count_better (me : ptr) (myoffset : Z) (l : list ptr) : M Z :=
  match l with
  | [] => mret 0
  | p :: l =>
      n ← rd p;
      r ← count_better me myoffset l;
      mret (if negb (bool_decide (p = me)) && negb (nodeCantFailover n) && (n_repl_offset n >? myoffset)
            then 1 + r else r)
  end.

Definition clusterGetSlaveRank : M Z :=
  me ← myself;
  m ← rd me;
  _ ← serverAssert (nodeIsSlave m);
  match n_slaveof m with
  | None => mret 0
  | Some mp =>
      myoffset ← replicationGetSlaveOffset;
      master ← rd mp;
      count_better me myoffset (n_slaves master)
  end.

(** Apart from the log, only the reason is stored. *)
Definition clusterLogCantFailover (reason : Z) : M unit := modify (set_c_cant_failover_reason reason).

Definition clusterFailoverReplaceYourMaster : M unit :=
  me ← myself;
  m ← rd me;
  match n_slaveof m with
  | None => mret tt
  | Some oldmaster =>
      if nodeIsMaster m then mret tt
      else
        _ ← clusterSetNodeAsMaster me;
        _ ← replicationUnsetMaster;
        _ ← for_slots (fun j =>
          b ← clusterNodeGetSlotBit oldmaster j;
          when b (_ ← clusterDelSlot j; _ ← clusterAddSlot me j; mret tt));
        _ ← clusterUpdateState;
        _ ← clusterSaveConfigOrDie true;
        _ ← clusterBroadcastPong false;
        resetManualFailover
  end.

(** The age of the data of a replica. *)
Definition data_age : M Z :=
  r ← gets s_repl;
  u ← gets (fun s => unixtime (s_clock s));
  timeout ← cfg cluster_node_timeout;
  let age := (if repl_connected r then u - lastinteraction r else u - repl_down_since r) * 1000 in
  mret (if age >? timeout then age - timeout else age).

(** Set up an election. *)
Definition schedule_election : M unit :=
  t ← now;
  r ← random;
  _ ← modify (set_c_failover_auth_time (t + 500 + Z.rem r 500));
  _ ← modify (set_c_failover_auth_count 0);
  _ ← modify (set_c_failover_auth_sent 0);
  rank ← clusterGetSlaveRank;
  _ ← modify (set_c_failover_auth_rank rank);
  _ ← modify (fun s => set_c_failover_auth_time (c_failover_auth_time s + rank * 1000) s);
  mf_end ← gets c_mf_end;
  _ ← when (negb (mf_end =? 0))
    (_ ← modify (set_c_failover_auth_time t);
     _ ← modify (set_c_failover_auth_rank 0);
     clusterDoBeforeSleep CLUSTER_TODO_HANDLE_FAILOVER);
  clusterBroadcastPong true.

(** Other replicas with a better offset add to the delay. *)
Definition update_rank : M unit :=
  sent ← gets c_failover_auth_sent;
  mf_end ← gets c_mf_end;
  when ((sent =? 0) && (mf_end =? 0))
    (newrank ← clusterGetSlaveRank;
     rank ← gets c_failover_auth_rank;
     when (newrank >? rank)
       (_ ← modify (fun s => set_c_failover_auth_time (c_failover_auth_time s + (newrank - rank) * 1000) s);
        modify (set_c_failover_auth_rank newrank))).

(** Ask for votes in a new epoch. *)
Definition start_election : M unit :=
  _ ← modify (fun s => set_c_currentEpoch (u64 (c_currentEpoch s + 1)) s);
  _ ← modify (fun s => set_c_failover_auth_epoch (c_currentEpoch s) s);
  _ ← clusterRequestFailoverAuth;
  _ ← modify (set_c_failover_auth_sent 1);
  clusterDoBeforeSleep CONFIG_TODO.

(** Count the votes. *)
Definition conclude_election (needed_quorum : Z) : M unit :=
  count ← gets c_failover_auth_count;
  if count >=? needed_quorum then
    me ← myself;
    m ← rd me;
    epoch ← gets c_failover_auth_epoch;
    _ ← when (n_configEpoch m <? epoch) (upd me (set_n_configEpoch epoch));
    clusterFailoverReplaceYourMaster
  else clusterLogCantFailover CLUSTER_CANT_FAILOVER_WAITING_VOTES.

(** May this node fail over its master at all? *)
Definition can_failover (manual_failover : bool) : M bool :=
  me ← myself;
  m ← rd me;
  no_failover ← cfg cluster_slave_no_failover;
  match n_slaveof m with
  | None => mret false
  | Some mp =>
      master ← rd mp;
      mret (negb (nodeIsMaster m || (negb (nodeFailed master) && negb manual_failover)
                  || (no_failover && negb manual_failover) || (n_numslots master =? 0)))
  end.

Definition clusterHandleSlaveFailover : M unit :=
  t ← now;
  auth_time ← gets c_failover_auth_time;
  let auth_age := t - auth_time in
  size ← gets c_size;
  let needed_quorum := Z.quot size 2 + 1 in
  manual_failover ← gets (fun s => negb (c_mf_end s =? 0) && negb (c_mf_can_start s =? 0));
  _ ← modify (fun s => set_c_todo_before_sleep (clrf (c_todo_before_sleep s) CLUSTER_TODO_HANDLE_FAILOVER) s);
  timeout ← cfg cluster_node_timeout;
  let auth_timeout := if timeout * 2 <? 2000 then 2000 else timeout * 2 in
  let auth_retry_time := auth_timeout * 2 in
  ok ← can_failover manual_failover;
  if negb ok then modify (set_c_cant_failover_reason CLUSTER_CANT_FAILOVER_NONE)
  else
    age ← data_age;
    factor ← cfg cluster_slave_validity_factor;
    period ← cfg repl_ping_slave_period;
    if negb (factor =? 0) && (age >? period * 1000 + timeout * factor) && negb manual_failover
    then clusterLogCantFailover CLUSTER_CANT_FAILOVER_DATA_AGE
    else if auth_age >? auth_retry_time then schedule_election
    else
      _ ← update_rank;
      auth_time ← gets c_failover_auth_time;
      if t <? auth_time then clusterLogCantFailover CLUSTER_CANT_FAILOVER_WAITING_DELAY
      else if auth_age >? auth_timeout then clusterLogCantFailover CLUSTER_CANT_FAILOVER_EXPIRED
      else
        sent ← gets c_failover_auth_sent;
        if sent =? 0 then start_election
        else conclude_election needed_quorum.

(** ** Packets *)

(** The sanity checks on the length and the version. *)
Definition packet_sane (hdr : clusterMsg) (rcvlen : Z) : bool :=
  negb (h_totlen hdr <? 16) && negb (h_totlen hdr >? rcvlen) && (h_ver hdr =? CLUSTER_PROTO_VER)
  && match h_data hdr with UNKNOWN _ => true | d => h_totlen hdr =? data_len d end.

(** What every packet of a known node that is not in handshake updates. *)
Definition update_sender (sp : ptr) (hdr : clusterMsg) : M unit :=
  t ← now;
  _ ← modify (fun s => if h_currentEpoch hdr >? c_currentEpoch s then set_c_currentEpoch (h_currentEpoch hdr) s else s);
  n ← rd sp;
  _ ← when (h_configEpoch hdr >? n_configEpoch n)
    (_ ← upd sp (set_n_configEpoch (h_configEpoch hdr));
     clusterDoBeforeSleep (Z.lor CLUSTER_TODO_SAVE_CONFIG CLUSTER_TODO_FSYNC_CONFIG));
  _ ← upd sp (fun n => set_n_repl_offset (s64 (h_offset hdr)) (set_n_repl_offset_time t n));
  me ← myself;
  m ← rd me;
  modify (fun s =>
    if negb (c_mf_end s =? 0) && nodeIsSlave m && bool_decide (n_slaveof m = Some sp)
       && has (h_mflags0 hdr) CLUSTERMSG_FLAG0_PAUSED && (c_mf_master_offset s =? 0)
    then set_c_mf_master_offset (s64 (h_offset hdr)) s else s).

(** PING and MEET: learn our address, add an unknown node, reply. *)
Definition reply_ping (link : ptr) (hdr : clusterMsg) (sender : option ptr) (meet : bool)
    (gossip : list clusterMsgDataGossip) : M unit :=
  me ← myself;
  m ← rd me;
  announce ← cfg cluster_announce_ip;
  lk ← rdl link;
  _ ← (match l_sock lk with
       | Some ip =>
           when ((meet || bool_decide (n_ip m = EmptyString)) && bool_decide (announce = None)
                 && negb (bool_decide (ip = n_ip m)))
             (_ ← upd me (set_n_ip ip); clusterDoBeforeSleep CLUSTER_TODO_SAVE_CONFIG)
       | None => mret tt
       end);
  _ ← when (meet && bool_decide (sender = None))
    (p ← createClusterNode None CLUSTER_NODE_HANDSHAKE;
     _ ← upd p (fun n => set_n_ip (nodeIp2String lk (h_myip hdr)) (set_n_port (h_port hdr) (set_n_cport (h_cport hdr) n)));
     _ ← clusterAddNode p;
     _ ← clusterDoBeforeSleep CLUSTER_TODO_SAVE_CONFIG;
     clusterProcessGossipSection hdr gossip link);
  clusterSendPing link PONG.

(** The node of the link: the end of a handshake, and a wrong name.  [false] when
    the link is gone. *)
Definition process_link_node (link : ptr) (hdr : clusterMsg) (sender : option ptr) : M bool :=
  lk ← rdl link;
  match l_node lk with
  | None => mret true
  | Some p =>
      n ← rd p;
      if nodeInHandshake n then
        match sender with
        | Some sp =>
            b ← nodeUpdateAddressIfNeeded sp link hdr;
            _ ← when b (clusterDoBeforeSleep (Z.lor CLUSTER_TODO_SAVE_CONFIG CLUSTER_TODO_UPDATE_STATE));
            _ ← clusterDelNode p;
            mret false
        | None =>
            _ ← clusterRenameNode p (h_sender hdr);
            _ ← del_flags p CLUSTER_NODE_HANDSHAKE;
            _ ← add_flags p (Z.land (h_flags hdr) (Z.lor CLUSTER_NODE_MASTER CLUSTER_NODE_SLAVE));
            _ ← clusterDoBeforeSleep CLUSTER_TODO_SAVE_CONFIG;
            mret true
        end
      else if negb (bool_decide (n_name n = h_sender hdr)) then
        _ ← add_flags p CLUSTER_NODE_NOADDR;
        _ ← upd p (fun n => set_n_ip EmptyString (set_n_port 0 (set_n_cport 0 n)));
        _ ← freeClusterLink link;
        _ ← clusterDoBeforeSleep CLUSTER_TODO_SAVE_CONFIG;
        mret false
      else mret true
  end.

(** A pong shows that the node of the link is alive. *)
Definition process_pong (link : ptr) : M unit :=
  lk ← rdl link;
  match l_node lk with
  | None => mret tt
  | Some p =>
      t ← now;
      _ ← upd p (fun n => set_n_pong_received t (set_n_ping_sent 0 n));
      n ← rd p;
      if nodeTimedOut n then
        _ ← del_flags p CLUSTER_NODE_PFAIL;
        clusterDoBeforeSleep (Z.lor CLUSTER_TODO_SAVE_CONFIG CLUSTER_TODO_UPDATE_STATE)
      else when (nodeFailed n) (clearNodeFailureIfNeeded p)
  end.

(** The role the sender claims. *)
Definition process_role (sp : ptr) (hdr : clusterMsg) : M unit :=
  if bool_decide (h_slaveof hdr = CLUSTER_NODE_NULL_NAME) then clusterSetNodeAsMaster sp
  else
    master ← clusterLookupNode (h_slaveof hdr);
    n ← rd sp;
    _ ← when (nodeIsMaster n)
      (_ ← clusterDelNodeSlots sp;
       _ ← del_flags sp (Z.lor CLUSTER_NODE_MASTER CLUSTER_NODE_MIGRATE_TO);
       _ ← add_flags sp CLUSTER_NODE_SLAVE;
       clusterDoBeforeSleep (Z.lor CLUSTER_TODO_SAVE_CONFIG CLUSTER_TODO_UPDATE_STATE));
    n ← rd sp;
    match master with
    | None => mret tt
    | Some mp =>
        if bool_decide (n_slaveof n = Some mp) then mret tt
        else
          _ ← (match n_slaveof n with Some old => _ ← clusterNodeRemoveSlave old sp; mret tt | None => mret tt end);
          _ ← clusterNodeAddSlave mp sp;
          _ ← upd sp (set_n_slaveof (Some mp));
          clusterDoBeforeSleep CLUSTER_TODO_SAVE_CONFIG
    end.

(** Tell a sender with an old configuration about the first newer owner. *)
Fixpoint send_update (sp : ptr) (hdr : clusterMsg) (senderConfigEpoch : Z) (js : list Z) : M unit :=
  match js with
  | [] => mret tt
  | j :: js =>
      if negb (bitmapTestBit (h_myslots hdr) j) then send_update sp hdr senderConfigEpoch js
      else
        owner ← gets (fun s => c_slots s !! j);
        match owner with
        | None => send_update sp hdr senderConfigEpoch js
        | Some p =>
            if bool_decide (p = sp) then send_update sp hdr senderConfigEpoch js
            else
              n ← rd p;
              if n_configEpoch n >? senderConfigEpoch then
                sn ← rd sp;
                clusterSendUpdate (n_link sn) p
              else send_update sp hdr senderConfigEpoch js
        end
  end.

(** The slots the sender claims. *)
Definition process_slots (sp : ptr) (hdr : clusterMsg) (senderConfigEpoch : Z) : M unit :=
  n ← rd sp;
  let sender_master := if nodeIsMaster n then Some sp else n_slaveof n in
  dirty ← (match sender_master with
           | None => mret false
           | Some p => m ← rd p; mret (negb (bool_decide (n_slots m = h_myslots hdr)))
           end);
  _ ← when (nodeIsMaster n && dirty) (clusterUpdateSlotsConfigWith sp senderConfigEpoch (h_myslots hdr));
  _ ← when dirty (send_update sp hdr senderConfigEpoch all_slots);
  me ← myself;
  m ← rd me;
  n ← rd sp;
  when (nodeIsMaster m && nodeIsMaster n && (senderConfigEpoch =? n_configEpoch m))
    (clusterHandleConfigEpochCollision sp).

(** The configuration in a PING, PONG or MEET.  [false] when the link is gone. *)
Definition process_config (link : ptr) (hdr : clusterMsg) (sender : option ptr) (senderConfigEpoch : Z)
    (gossip : list clusterMsgDataGossip) : M bool :=
  alive ← process_link_node link hdr sender;
  if negb alive then mret false
  else
    _ ← (match sender with
         | Some sp =>
             upd sp (fun n => set_n_flags
               (setf (clrf (n_flags n) CLUSTER_NODE_NOFAILOVER) (Z.land (h_flags hdr) CLUSTER_NODE_NOFAILOVER)) n)
         | None => mret tt
         end);
    _ ← (match sender, h_data hdr with
         | Some sp, PING _ =>
             n ← rd sp;
             when (negb (nodeInHandshake n))
               (b ← nodeUpdateAddressIfNeeded sp link hdr;
                when b (clusterDoBeforeSleep (Z.lor CLUSTER_TODO_SAVE_CONFIG CLUSTER_TODO_UPDATE_STATE)))
         | _, _ => mret tt
         end);
    _ ← (match h_data hdr with PONG _ => process_pong link | _ => mret tt end);
    match sender with
    | None => mret true
    | Some sp =>
        _ ← process_role sp hdr;
        _ ← process_slots sp hdr senderConfigEpoch;
        _ ← clusterProcessGossipSection hdr gossip link;
        mret true
    end.

Definition process_fail (sender : option ptr) (nodename : string) : M unit :=
  match sender with
  | None => mret tt
  | Some _ =>
      failing ← clusterLookupNode nodename;
      match failing with
      | None => mret tt
      | Some p =>
          n ← rd p;
          t ← now;
          when (negb (has (n_flags n) (Z.lor CLUSTER_NODE_FAIL CLUSTER_NODE_MYSELF)))
            (_ ← add_flags p CLUSTER_NODE_FAIL;
             _ ← upd p (set_n_fail_time t);
             _ ← del_flags p CLUSTER_NODE_PFAIL;
             clusterDoBeforeSleep (Z.lor CLUSTER_TODO_SAVE_CONFIG CLUSTER_TODO_UPDATE_STATE))
      end
  end.

Definition process_auth_ack (sp : ptr) (senderCurrentEpoch : Z) : M unit :=
  n ← rd sp;
  epoch ← gets c_failover_auth_epoch;
  when (nodeIsMaster n && (n_numslots n >? 0) && (senderCurrentEpoch >=? epoch))
    (_ ← modify (fun s => set_c_failover_auth_count (c_failover_auth_count s + 1) s);
     clusterDoBeforeSleep CLUSTER_TODO_HANDLE_FAILOVER).

Definition process_mfstart (sp : ptr) : M unit :=
  n ← rd sp;
  me ← myself;
  t ← now;
  when (bool_decide (n_slaveof n = Some me))
    (_ ← resetManualFailover;
     _ ← modify (set_c_mf_end (t + CLUSTER_MF_TIMEOUT));
     _ ← modify (set_c_mf_slave (Some sp));
     pauseClients (t + CLUSTER_MF_TIMEOUT * CLUSTER_MF_PAUSE_MULT)).

Definition process_update (reportedConfigEpoch : Z) (nodename : string) (slots : list Z) : M unit :=
  p ← clusterLookupNode nodename;
  match p with
  | None => mret tt
  | Some p =>
      n ← rd p;
      if n_configEpoch n >=? reportedConfigEpoch then mret tt
      else
        _ ← when (nodeIsSlave n) (clusterSetNodeAsMaster p);
        _ ← upd p (set_n_configEpoch reportedConfigEpoch);
        _ ← clusterDoBeforeSleep (Z.lor CLUSTER_TODO_SAVE_CONFIG CLUSTER_TODO_FSYNC_CONFIG);
        clusterUpdateSlotsConfigWith p reportedConfigEpoch slots
  end.

(** [false] when the link is no longer valid.  [subscribers] tells whether any
    client of this server is subscribed to a channel or a pattern. *)
Definition clusterProcessPacket (subscribers : bool) (link : ptr) (hdr : clusterMsg) (rcvlen : Z) : M bool :=
  _ ← modify (fun s => set_c_stats_bus_messages_received
        (bump (msg_type (h_data hdr)) (c_stats_bus_messages_received s)) s);
  if negb (packet_sane hdr rcvlen) then mret true
  else
    t ← now;
    sender ← clusterLookupNode (h_sender hdr);
    handshake ← (match sender with
      | Some sp => _ ← upd sp (set_n_data_received t); n ← rd sp; mret (nodeInHandshake n)
      | None => mret true
      end);
    _ ← (match sender with Some sp => when (negb handshake) (update_sender sp hdr) | None => mret tt end);
    let senderCurrentEpoch := if handshake : bool then 0 else h_currentEpoch hdr in
    let senderConfigEpoch := if handshake : bool then 0 else h_configEpoch hdr in
    match h_data hdr with
    | PING g => _ ← reply_ping link hdr sender false g; process_config link hdr sender senderConfigEpoch g
    | MEET g => _ ← reply_ping link hdr sender true g; process_config link hdr sender senderConfigEpoch g
    | PONG g => process_config link hdr sender senderConfigEpoch g
    | FAIL nodename => _ ← process_fail sender nodename; mret true
    | PUBLISH channel message => _ ← when subscribers (effect_ (PublishLocally channel message)); mret true
    | FAILOVER_AUTH_REQUEST =>
        _ ← (match sender with Some sp => clusterSendFailoverAuthIfNeeded sp hdr | None => mret tt end); mret true
    | FAILOVER_AUTH_ACK =>
        _ ← (match sender with Some sp => process_auth_ack sp senderCurrentEpoch | None => mret tt end); mret true
    | MFSTART => _ ← (match sender with Some sp => process_mfstart sp | None => mret tt end); mret true
    | UPDATE epoch nodename slots =>
        _ ← (match sender with Some _ => process_update epoch nodename slots | None => mret tt end); mret true
    | MODULE module_id len type payload =>
        _ ← (match sender with
             | Some sp => n ← rd sp; effect_ (ModuleReceive (n_name n) module_id type payload)
             | None => mret tt
             end);
        mret true
    | UNKNOWN _ => mret true
    end.

(** ** Replica migration *)

(** The replica with the smallest name. *)
Fixpoint smaller_name (sl : list ptr) (candidate : ptr) : M ptr :=
  match sl with
  | [] => mret candidate
  | q :: sl =>
      a ← rd q;
      b ← rd candidate;
      smaller_name sl (if (n_name a <? n_name b)%string then q else candidate)
  end.

(** The state of the loop over the nodes: the target and the candidate. *)
Fixpoint migration_loop (max_slaves : Z) (l : list ptr) (target : option ptr) (candidate : ptr) : M (option ptr * ptr) :=
  match l with
  | [] => mret (target, candidate)
  | p :: l =>
      n ← rd p;
      okslaves ← (if nodeIsMaster n then clusterCountNonFailingSlaves p else mret 0);
      let is_orphaned := negb (nodeIsSlave n || nodeFailed n) && has (n_flags n) CLUSTER_NODE_MIGRATE_TO
                         && negb (okslaves >? 0) in
      t ← now;
      _ ← upd p (fun n => set_n_orphaned_time
             (if is_orphaned then (if n_orphaned_time n =? 0 then t else n_orphaned_time n) else 0) n);
      let target := match target with
                    | Some q => Some q
                    | None => if is_orphaned && (n_numslots n >? 0) then Some p else None
                    end in
      candidate ← (if okslaves =? max_slaves then smaller_name (n_slaves n) candidate else mret candidate);
      migration_loop max_slaves l target candidate
  end.

Definition clusterHandleSlaveMigration (max_slaves : Z) : M unit :=
  me ← myself;
  m ← rd me;
  st ← gets c_state;
  if negb (st =? CLUSTER_OK) then mret tt
  else match n_slaveof m with
  | None => mret tt
  | Some mymaster =>
      mm ← rd mymaster;
      okslaves ← count_nodes (fun n => negb (nodeFailed n) && negb (nodeTimedOut n)) (n_slaves mm);
      barrier ← cfg cluster_migration_barrier;
      if okslaves <=? barrier then mret tt
      else
        l ← all_nodes;
        '(target, candidate) ← migration_loop max_slaves l None me;
        match target with
        | None => mret tt
        | Some p =>
            n ← rd p;
            t ← now;
            flags ← cfg cluster_module_flags;
            when (bool_decide (candidate = me) && (t - n_orphaned_time n >? CLUSTER_SLAVE_MIGRATION_DELAY)
                  && negb (has flags CLUSTER_MODULE_FLAG_NO_FAILOVER))
              (clusterSetMaster p)
        end
  end.

(** ** Manual failover *)

Definition manualFailoverCheckTimeout : M unit :=
  mf_end ← gets c_mf_end;
  t ← now;
  when (negb (mf_end =? 0) && (mf_end <? t)) resetManualFailover.

Definition clusterHandleManualFailover : M unit :=
  s ← gets id;
  offset ← replicationGetSlaveOffset;
  when (negb (c_mf_end s =? 0) && (c_mf_can_start s =? 0) && negb (c_mf_master_offset s =? 0)
        && (c_mf_master_offset s =? offset))
    (modify (set_c_mf_can_start 1)).

(** ** The cron job *)

Definition clusterUpdateMyselfFlags : M unit :=
  me ← myself;
  m ← rd me;
  no_failover ← cfg cluster_slave_no_failover;
  let flags := setf (clrf (n_flags m) CLUSTER_NODE_NOFAILOVER) (if no_failover : bool then CLUSTER_NODE_NOFAILOVER else 0) in
  _ ← upd me (set_n_flags flags);
  when (negb (flags =? n_flags m)) (clusterDoBeforeSleep (Z.lor CLUSTER_TODO_SAVE_CONFIG CLUSTER_TODO_UPDATE_STATE)).

(** Keep our address in sync with cluster-announce-ip. *)
Definition cron_announce_ip : M unit :=
  me ← myself;
  curr_ip ← cfg cluster_announce_ip;
  x ← gets s_statics;
  when (negb (bool_decide (prev_ip x = curr_ip)))
    (_ ← modify (set_s_statics (mkStatics (among_minority_time x) (first_call_time x) (iteration x) curr_ip));
     upd me (set_n_ip (match curr_ip with Some ip => substring 0 (NET_IP_STR_LEN - 1) ip | None => EmptyString end))).

(** Connect to a node and ping it. *)
Definition cron_connect (p : ptr) : M unit :=
  n ← rd p;
  t ← now;
  fd ← anetTcpNonBlockBindConnect;
  match fd with
  | None => when (n_ping_sent n =? 0) (upd p (set_n_ping_sent t))
  | Some sock =>
      link ← createClusterLink (Some p) (n_ip n) (Some sock);
      _ ← upd p (set_n_link (Some link));
      _ ← clusterSendPing link (if has (n_flags n) CLUSTER_NODE_MEET then MEET else PING);
      _ ← when (negb (n_ping_sent n =? 0)) (upd p (set_n_ping_sent (n_ping_sent n)));
      del_flags p CLUSTER_NODE_MEET
  end.

(** The first loop of the cron job, for a node. *)
Definition cron_node_link (handshake_timeout : Z) (p : ptr) : M unit :=
  n ← rd p;
  t ← now;
  if has (n_flags n) (Z.lor CLUSTER_NODE_MYSELF CLUSTER_NODE_NOADDR) then mret tt
  else
    _ ← when (has (n_flags n) CLUSTER_NODE_PFAIL)
      (modify (fun s => set_c_stats_pfail_nodes (c_stats_pfail_nodes s + 1) s));
    if nodeInHandshake n && (t - n_ctime n >? handshake_timeout) then clusterDelNode p
    else when (bool_decide (n_link n = None)) (cron_connect p).

(** Of five random nodes, the one with the oldest pong. *)
Fixpoint min_pong_loop (k : nat) (min : option (ptr * Z)) : M (option (ptr * Z)) :=
  match k with
  | O => mret min
  | Datatypes.S k =>
      p ← dictGetRandomNode;
      n ← rd p;
      min_pong_loop k
        (if bool_decide (n_link n = None) || negb (n_ping_sent n =? 0)
            || has (n_flags n) (Z.lor CLUSTER_NODE_MYSELF CLUSTER_NODE_HANDSHAKE)
         then min
         else match min with
              | None => Some (p, n_pong_received n)
              | Some (q, mp) => if mp >? n_pong_received n then Some (p, n_pong_received n) else Some (q, mp)
              end)
  end.

Definition cron_random_ping : M unit :=
  x ← gets s_statics;
  when (iteration x mod 10 =? 0)
    (min ← min_pong_loop 5 None;
     match min with
     | None => mret tt
     | Some (p, _) => n ← rd p; link ← deref (n_link n); clusterSendPing link PING
     end).

(** Reconnect a link with a node that is silent. *)
Definition cron_reconnect (p : ptr) : M unit :=
  n ← rd p;
  t ← now;
  timeout ← cfg cluster_node_timeout;
  match n_link n with
  | None => mret tt
  | Some l =>
      lk ← rdl l;
      when ((t - l_ctime lk >? timeout) && negb (n_ping_sent n =? 0) && (n_pong_received n <? n_ping_sent n)
            && (t - n_ping_sent n >? Z.quot timeout 2) && (t - n_data_received n >? Z.quot timeout 2))
        (freeClusterLink l)
  end.

(** The checks for a node with an active ping; the result is [update_state]. *)
Definition cron_pfail (p : ptr) : M bool :=
  n ← rd p;
  t ← now;
  timeout ← cfg cluster_node_timeout;
  let delay := t - n_ping_sent n in
  let data_delay := t - n_data_received n in
  let delay := if data_delay <? delay then data_delay else delay in
  if negb (n_ping_sent n =? 0) && (delay >? timeout) && negb (has (n_flags n) FAILING)
  then _ ← add_flags p CLUSTER_NODE_PFAIL; mret true
  else mret false.

(** The rest of the second loop of the cron job, for a node. *)
Definition cron_check (p : ptr) : M bool :=
  _ ← cron_reconnect p;
  n ← rd p;
  t ← now;
  timeout ← cfg cluster_node_timeout;
  me ← myself;
  m ← rd me;
  mf ← gets (fun s => negb (c_mf_end s =? 0) && bool_decide (c_mf_slave s = Some p));
  match n_link n with
  | Some link =>
      if (n_ping_sent n =? 0) && (t - n_pong_received n >? Z.quot timeout 2)
      then _ ← clusterSendPing link PING; mret false
      else if mf && nodeIsMaster m then _ ← clusterSendPing link PING; mret false
      else cron_pfail p
  | None => cron_pfail p
  end.

(** Orphaned masters, the greatest number of working replicas of a master, that of
    our master, and [update_state]. *)
Record cron_stats := mkStats { orphaned_masters : Z; max_slaves : Z; this_slaves : Z; update_state : bool }.

Definition cron_orphans (p : ptr) (x : cron_stats) : M cron_stats :=
  n ← rd p;
  me ← myself;
  m ← rd me;
  if nodeIsSlave m && nodeIsMaster n && negb (nodeFailed n) then
    okslaves ← clusterCountNonFailingSlaves p;
    mret (mkStats
      (if (okslaves =? 0) && (n_numslots n >? 0) && has (n_flags n) CLUSTER_NODE_MIGRATE_TO
       then orphaned_masters x + 1 else orphaned_masters x)
      (if okslaves >? max_slaves x then okslaves else max_slaves x)
      (if bool_decide (n_slaveof m = Some p) then okslaves else this_slaves x)
      (update_state x))
  else mret x.

Fixpoint cron_nodes (l : list ptr) (x : cron_stats) : M cron_stats :=
  match l with
  | [] => mret x
  | p :: l =>
      n ← rd p;
      if has (n_flags n) (Z.lor CLUSTER_NODE_MYSELF (Z.lor CLUSTER_NODE_NOADDR CLUSTER_NODE_HANDSHAKE))
      then cron_nodes l x
      else
        x ← cron_orphans p x;
        b ← cron_check p;
        cron_nodes l (mkStats (orphaned_masters x) (max_slaves x) (this_slaves x) (update_state x || b))
  end.

(** The part of the cron job of a replica. *)
Definition cron_replica (x : cron_stats) : M unit :=
  flags ← cfg cluster_module_flags;
  _ ← clusterHandleManualFailover;
  _ ← when (negb (has flags CLUSTER_MODULE_FLAG_NO_FAILOVER)) clusterHandleSlaveFailover;
  when (negb (orphaned_masters x =? 0) && (max_slaves x >=? 2) && (this_slaves x =? max_slaves x))
    (clusterHandleSlaveMigration (max_slaves x)).

Definition cron_enable_replication : M unit :=
  me ← myself;
  m ← rd me;
  r ← gets s_repl;
  match n_slaveof m with
  | None => mret tt
  | Some mp =>
      master ← rd mp;
      when (nodeIsSlave m && bool_decide (masterhost r = None) && nodeHasAddr master)
        (replicationSetMaster (n_ip master) (n_port master))
  end.

Definition clusterCron : M unit :=
  _ ← modify (fun s => let x := s_statics s in
        set_s_statics (mkStatics (among_minority_time x) (first_call_time x) (iteration x + 1) (prev_ip x)) s);
  _ ← cron_announce_ip;
  timeout ← cfg cluster_node_timeout;
  _ ← clusterUpdateMyselfFlags;
  l ← all_nodes;
  _ ← modify (set_c_stats_pfail_nodes 0);
  _ ← forM l (cron_node_link (if timeout <? 1000 then 1000 else timeout));
  _ ← cron_random_ping;
  l ← all_nodes;
  x ← cron_nodes l (mkStats 0 0 0 false);
  _ ← cron_enable_replication;
  _ ← manualFailoverCheckTimeout;
  me ← myself;
  m ← rd me;
  _ ← when (nodeIsSlave m) (cron_replica x);
  st ← gets c_state;
  when (update_state x || (st =? CLUSTER_FAIL)) clusterUpdateState.

Definition clusterBeforeSleep : M unit :=
  todo ← gets c_todo_before_sleep;
  _ ← when (has todo CLUSTER_TODO_HANDLE_FAILOVER) clusterHandleSlaveFailover;
  todo ← gets c_todo_before_sleep;
  _ ← when (has todo CLUSTER_TODO_UPDATE_STATE) clusterUpdateState;
  todo ← gets c_todo_before_sleep;
  _ ← when (has todo CLUSTER_TODO_SAVE_CONFIG) (clusterSaveConfigOrDie (has todo CLUSTER_TODO_FSYNC_CONFIG));
  modify (set_c_todo_before_sleep 0).

(** [clusterAcceptHandler] makes a link with no node; an I/O error frees a link. *)
Definition clusterAcceptHandler (peer : string) (sock : option string) : M unit :=
  _ ← createClusterLink None peer sock; mret tt.
Definition handleLinkIOError (link : ptr) : M unit := freeClusterLink link.

(** ** The commands that change the configuration *)

Inductive setslot :=
  | Migrating (nodename : string)
  | Importing (nodename : string)
  | Stable
  | Node (nodename : string).

Inductive subcommand :=
  | Meet (norm_ip : option string) (port cport : Z)
  | FlushSlots
  | AddSlots (slots : list Z)
  | DelSlots (slots : list Z)
  | SetSlot (slot : Z) (action : setslot)
  | BumpEpoch
  | Forget (nodename : string)
  | Replicate (nodename : string)
  | CountFailureReports (nodename : string)
  | Failover (force takeover : bool)
  | SetConfigEpoch (epoch : Z)
  | Reset (hard : bool).

(** The reply: a success, with an integer for some commands, or an error. *)
Inductive reply := Ok | Integer (n : Z) | Bumped (b : bool) (epoch : Z) | Error (why : string).

Definition ok : M reply := mret Ok.
Definition error (why : string) : M reply := mret (Error why).

Definition TODO_STATE := Z.lor CLUSTER_TODO_UPDATE_STATE CLUSTER_TODO_SAVE_CONFIG.

(** Check the slots of ADDSLOTS and DELSLOTS, left to right. *)
Fixpoint check_slots (del : bool) (slots seen : list Z) : M (option reply) :=
  match slots with
  | [] => mret None
  | j :: slots =>
      if (j <? 0) || (j >=? CLUSTER_SLOTS) then mret (Some (Error "Invalid or out of range slot"))
      else
        owner ← gets (fun s => c_slots s !! j);
        if del && bool_decide (owner = None) then mret (Some (Error "Slot is already unassigned"))
        else if negb del && bool_decide (is_Some owner) then mret (Some (Error "Slot is already busy"))
        else if bool_decide (j ∈ seen) then mret (Some (Error "Slot specified multiple times"))
        else check_slots del slots (j :: seen)
  end.

Definition cluster_slots_command (del : bool) (slots : list Z) : M reply :=
  e ← check_slots del slots [];
  match e with
  | Some e => mret e
  | None =>
      me ← myself;
      _ ← for_slots (fun j =>
        when (bool_decide (j ∈ slots))
          (_ ← modify (fun s => set_c_importing_slots_from (delete j (c_importing_slots_from s)) s);
           r ← (if del then clusterDelSlot j else clusterAddSlot me j);
           serverAssert r));
      _ ← clusterDoBeforeSleep TODO_STATE;
      ok
  end.

Definition setslot_node (slot : Z) (p : ptr) : M reply :=
  me ← myself;
  owner ← gets (fun s => c_slots s !! slot);
  keys ← countKeysInSlot slot;
  if bool_decide (owner = Some me) && negb (bool_decide (p = me)) && negb (keys =? 0)
  then error "Can't assign hashslot to a different node while I still hold keys for this hash slot."
  else
    _ ← when (keys =? 0) (modify (fun s => set_c_migrating_slots_to (delete slot (c_migrating_slots_to s)) s));
    importing ← gets (fun s => c_importing_slots_from s !! slot);
    _ ← when (bool_decide (p = me) && bool_decide (is_Some importing))
      (_ ← clusterBumpConfigEpochWithoutConsensus;
       modify (fun s => set_c_importing_slots_from (delete slot (c_importing_slots_from s)) s));
    _ ← clusterDelSlot slot;
    _ ← clusterAddSlot p slot;
    _ ← clusterDoBeforeSleep TODO_STATE;
    ok.

Definition cluster_setslot (slot : Z) (action : setslot) : M reply :=
  me ← myself;
  m ← rd me;
  if nodeIsSlave m then error "Please use SETSLOT only with masters."
  else if (slot <? 0) || (slot >=? CLUSTER_SLOTS) then error "Invalid or out of range slot"
  else
    owner ← gets (fun s => c_slots s !! slot);
    match action with
    | Migrating nm =>
        if negb (bool_decide (owner = Some me)) then error "I'm not the owner of hash slot"
        else
          n ← clusterLookupNode nm;
          match n with
          | None => error "I don't know about node"
          | Some p =>
              _ ← modify (fun s => set_c_migrating_slots_to (<[slot := p]> (c_migrating_slots_to s)) s);
              _ ← clusterDoBeforeSleep TODO_STATE; ok
          end
    | Importing nm =>
        if bool_decide (owner = Some me) then error "I'm already the owner of hash slot"
        else
          n ← clusterLookupNode nm;
          match n with
          | None => error "I don't know about node"
          | Some p =>
              _ ← modify (fun s => set_c_importing_slots_from (<[slot := p]> (c_importing_slots_from s)) s);
              _ ← clusterDoBeforeSleep TODO_STATE; ok
          end
    | Stable =>
        _ ← modify (fun s => set_c_importing_slots_from (delete slot (c_importing_slots_from s)) s);
        _ ← modify (fun s => set_c_migrating_slots_to (delete slot (c_migrating_slots_to s)) s);
        _ ← clusterDoBeforeSleep TODO_STATE; ok
    | Node nm =>
        n ← clusterLookupNode nm;
        match n with None => error "Unknown node" | Some p => setslot_node slot p end
    end.

Definition cluster_forget (nm : string) : M reply :=
  n ← clusterLookupNode nm;
  me ← myself;
  m ← rd me;
  match n with
  | None => error "Unknown node"
  | Some p =>
      if bool_decide (p = me) then error "I tried hard but I can't forget myself..."
      else if nodeIsSlave m && bool_decide (n_slaveof m = Some p) then error "Can't forget my master!"
      else
        _ ← clusterBlacklistAddNode p;
        _ ← clusterDelNode p;
        _ ← clusterDoBeforeSleep TODO_STATE;
        ok
  end.

Definition cluster_replicate (nm : string) : M reply :=
  n ← clusterLookupNode nm;
  me ← myself;
  m ← rd me;
  keys ← gets s_db_keys;
  match n with
  | None => error "Unknown node"
  | Some p =>
      if bool_decide (p = me) then error "Can't replicate myself"
      else
        n ← rd p;
        if nodeIsSlave n then error "I can only replicate a master, not a replica."
        else if nodeIsMaster m && (negb (n_numslots m =? 0) || negb (keys =? 0))
        then error "To set a master the node must be empty and without assigned slots."
        else
          _ ← clusterSetMaster p;
          _ ← clusterDoBeforeSleep TODO_STATE;
          ok
  end.

Definition cluster_failover (force takeover : bool) : M reply :=
  me ← myself;
  m ← rd me;
  if nodeIsMaster m then error "You should send CLUSTER FAILOVER to a replica"
  else match n_slaveof m with
  | None => error "I'm a replica but my master is unknown to me"
  | Some mp =>
      master ← rd mp;
      if negb (force || takeover) && (nodeFailed master || bool_decide (n_link master = None))
      then error "Master is down or failed, please use CLUSTER FAILOVER FORCE"
      else
        _ ← resetManualFailover;
        t ← now;
        _ ← modify (set_c_mf_end (t + CLUSTER_MF_TIMEOUT));
        _ ← (if takeover then
               _ ← clusterBumpConfigEpochWithoutConsensus;
               clusterFailoverReplaceYourMaster
             else if force then modify (set_c_mf_can_start 1)
             else clusterSendMFStart mp);
        ok
  end.

Definition cluster_set_config_epoch (epoch : Z) : M reply :=
  me ← myself;
  m ← rd me;
  l ← all_nodes;
  if epoch <? 0 then error "Invalid config epoch specified"
  else if zlen l >? 1 then error "The user can assign a config epoch only when the node does not know any other node."
  else if negb (n_configEpoch m =? 0) then error "Node config epoch is already non-zero"
  else
    _ ← upd me (set_n_configEpoch epoch);
    _ ← modify (fun s => if c_currentEpoch s <? epoch then set_c_currentEpoch epoch s else s);
    _ ← clusterDoBeforeSleep TODO_STATE;
    ok.

Definition clusterReset (hard : bool) : M unit :=
  me ← myself;
  m ← rd me;
  _ ← when (nodeIsSlave m)
    (_ ← clusterSetNodeAsMaster me;
     _ ← replicationUnsetMaster;
     _ ← modify (fun s => set_c_slots_keys_count ∅ (set_s_db_keys 0 s));
     effect_ EmptyDb);
  _ ← clusterCloseAllSlots;
  _ ← resetManualFailover;
  _ ← for_slots (fun j => _ ← clusterDelSlot j; mret tt);
  l ← all_nodes;
  _ ← forM l (fun p => when (negb (bool_decide (p = me))) (clusterDelNode p));
  _ ← when hard
    (_ ← modify (set_c_currentEpoch 0);
     _ ← modify (set_c_lastVoteEpoch 0);
     _ ← upd me (set_n_configEpoch 0);
     m ← rd me;
     _ ← dictDelete_node (n_name m);
     nm ← getRandomHexChars;
     _ ← upd me (set_n_name nm);
     _ ← clusterAddNode me;
     mret tt);
  clusterDoBeforeSleep CONFIG_TODO.

Definition cluster_reset (hard : bool) : M reply :=
  me ← myself;
  m ← rd me;
  keys ← gets s_db_keys;
  if nodeIsMaster m && negb (keys =? 0) then error "CLUSTER RESET can't be called with master nodes containing keys"
  else _ ← clusterReset hard; ok.

Definition clusterCommand (c : subcommand) : M reply :=
  match c with
  | Meet ip port cport =>
      r ← clusterStartHandshake ip port cport;
      match r with None => error "Invalid node address specified" | Some _ => ok end
  | FlushSlots =>
      keys ← gets s_db_keys;
      if negb (keys =? 0) then error "DB must be empty to perform CLUSTER FLUSHSLOTS."
      else
        me ← myself;
        _ ← clusterDelNodeSlots me;
        _ ← clusterDoBeforeSleep TODO_STATE;
        ok
  | AddSlots l => cluster_slots_command false l
  | DelSlots l => cluster_slots_command true l
  | SetSlot slot action => cluster_setslot slot action
  | BumpEpoch =>
      b ← clusterBumpConfigEpochWithoutConsensus;
      me ← myself;
      m ← rd me;
      mret (Bumped b (n_configEpoch m))
  | Forget nm => cluster_forget nm
  | Replicate nm => cluster_replicate nm
  | CountFailureReports nm =>
      n ← clusterLookupNode nm;
      match n with None => error "Unknown node" | Some p => c ← clusterNodeFailureReportsCount p; mret (Integer c) end
  | Failover force takeover => cluster_failover force takeover
  | SetConfigEpoch epoch => cluster_set_config_epoch epoch
  | Reset hard => cluster_reset hard
  end.

(** Give us the slots of the keys in memory, or mark them as importing; the result
    tells whether the configuration changed. *)
Fixpoint verify_slots (js : list Z) (update_config : bool) : M bool :=
  match js with
  | [] => mret update_config
  | j :: js =>
      me ← myself;
      keys ← countKeysInSlot j;
      owner ← gets (fun s => c_slots s !! j);
      importing ← gets (fun s => c_importing_slots_from s !! j);
      if (keys =? 0) || bool_decide (owner = Some me) || bool_decide (is_Some importing)
      then verify_slots js update_config
      else
        _ ← (match owner with
             | None => _ ← clusterAddSlot me j; mret tt
             | Some p => modify (fun s => set_c_importing_slots_from (<[j := p]> (c_importing_slots_from s)) s)
             end);
        verify_slots js true
  end.

(** [other_dbs] tells that a database other than 0 has keys; the result is [C_OK]. *)
Definition verifyClusterConfigWithData (other_dbs : bool) : M bool :=
  flags ← cfg cluster_module_flags;
  me ← myself;
  m ← rd me;
  if has flags CLUSTER_MODULE_FLAG_NO_REDIRECTION then mret true
  else if nodeIsSlave m then mret true
  else if other_dbs then mret false
  else
    update_config ← verify_slots all_slots false;
    _ ← when update_config (clusterSaveConfigOrDie true);
    mret true.

(** ** Start *)

(** The state before [clusterInit], as the process starts: [junk] is what the
    allocated memory holds in the field that [clusterInit] does not set. *)
Definition cluster_blank (junk : Z) (cf : config) (clk : clock) (r : replication) : server :=
  mkServer 1%positive 0 CLUSTER_FAIL 1 ∅ ∅ ∅ ∅ ∅ ∅ 0 0 junk 0 0 CLUSTER_CANT_FAILOVER_NONE 0 None 0 0 0 0 ∅ ∅ 0 ∅ ∅
    cf clk r false 0 0 (mkStatics 0 0 0 None) (mkDraws 0 0 0) [].

(** [clusterInit] where there is no configuration file. *)
Definition clusterInit : M unit :=
  p ← createClusterNode None (Z.lor CLUSTER_NODE_MYSELF CLUSTER_NODE_MASTER);
  _ ← modify (set_c_myself p);
  _ ← clusterAddNode p;
  _ ← clusterSaveConfigOrDie true;
  c ← gets s_cfg;
  _ ← upd p (fun n => set_n_port (if cluster_announce_port c =? 0 then server_port c else cluster_announce_port c)
               (set_n_cport (if cluster_announce_bus_port c =? 0 then server_port c + CLUSTER_PORT_INCR
                             else cluster_announce_bus_port c) n));
  _ ← modify (set_c_mf_end 0);
  _ ← resetManualFailover;
  clusterUpdateMyselfFlags.
End Handlers.
End Cluster.
