(* ===== verification/ClusterInv.v ===== *)
(** * The cluster state is well formed (cluster.c)

    [inv] says what the pointers, tables and counters of a node of a cluster satisfy
    between handlers: the table of nodes and the heap agree, the slot table agrees
    with the bitmaps and the bitmaps with the counters, [slaveof] with [slaves], the
    links with their nodes, and no pointer leads to a freed object.  This file has
    the invariant and the operations that keep it. *)

From Stdlib Require Import String Ascii.
From stdpp Require Import strings pmap.
From S2P Require Import Prelude Cluster.

Module ClusterInv.
Import Cluster.

(** ** Programs that do not stop *)

Definition wp {A} (m : M A) (Q : A -> server -> Prop) (s : server) : Prop :=
  match m s with Some (a, s') => Q a s' | None => False end.

Lemma wp_ret {A} (a : A) Q s : Q a s -> wp (mret a) Q s.
Proof. done. Qed.

Lemma wp_bind {A B} (m : M A) (k : A -> M B) Q s :
  wp m (fun a s => wp (k a) Q s) s -> wp (m ≫= k) Q s.
Proof. unfold wp, mbind, M_bind. by destruct (m s) as [[a s']|]. Qed.

Lemma wp_mono {A} (m : M A) (P Q : A -> server -> Prop) s :
  wp m P s -> (forall a s', P a s' -> Q a s') -> wp m Q s.
Proof. unfold wp. destruct (m s) as [[a s']|]; auto. Qed.

Lemma wp_rd p Q s : (exists n, heap s !! p = Some n /\ Q n s) -> wp (rd p) Q s.
Proof. intros (n & E & HQ). unfold wp, rd. by rewrite E. Qed.

Lemma wp_upd p f Q s :
  (exists n, heap s !! p = Some n /\ Q tt (set_heap (<[p := f n]> (heap s)) s)) -> wp (upd p f) Q s.
Proof. intros (n & E & HQ). unfold wp, upd. by rewrite E. Qed.

Lemma wp_rdl l Q s : (exists k, links s !! l = Some k /\ Q k s) -> wp (rdl l) Q s.
Proof. intros (n & E & HQ). unfold wp, rdl. by rewrite E. Qed.

Lemma wp_when b m Q s : (b = true -> wp m Q s) -> (b = false -> Q tt s) -> wp (when b m) Q s.
Proof. intros H1 H2. destruct b; [by apply H1|]. by apply wp_ret, H2. Qed.

(** [safe R m Q]: from a state in [R] the program ends in one, with a result in [Q]. *)
Definition safe {A} (R : server -> Prop) (m : M A) (Q : A -> Prop) : Prop :=
  forall s, R s -> wp m (fun a s' => R s' /\ Q a) s.

Abbreviation any := (fun _ => True).

Section Safe.
Context (R : server -> Prop).

Lemma safe_mono {A} (m : M A) (P Q : A -> Prop) : safe R m P -> (forall a, P a -> Q a) -> safe R m Q.
Proof. intros Hm HPQ s HR. eapply wp_mono; [by apply Hm|]. intros a s' [? ?]; auto. Qed.

Lemma safe_any {A} (m : M A) (P : A -> Prop) : safe R m P -> safe R m any.
Proof. intros Hm. by eapply safe_mono. Qed.

Lemma safe_ret {A} (a : A) (Q : A -> Prop) : Q a -> safe R (mret a) Q.
Proof. intros HQ s HR. by apply wp_ret. Qed.

Lemma safe_bind {A B} (m : M A) (k : A -> M B) P Q :
  safe R m P -> (forall a, P a -> safe R (k a) Q) -> safe R (m ≫= k) Q.
Proof.
  intros Hm Hk s HR. apply wp_bind. eapply wp_mono; [by apply Hm|]. intros a s' [HR' HP]. by apply Hk.
Qed.

Lemma safe_gets {A} (f : server -> A) (Q : A -> Prop) : (forall s, R s -> Q (f s)) -> safe R (gets f) Q.
Proof. intros HQ s HR. by split; [|apply HQ]. Qed.

Lemma safe_modify g : (forall s, R s -> R (g s)) -> safe R (modify g) any.
Proof. intros HR s Hs. by split; [apply HR|]. Qed.

Lemma safe_when b m : (b = true -> safe R m any) -> safe R (when b m) any.
Proof. destruct b; [auto|]. intros _. by apply safe_ret. Qed.

Lemma safe_assert b : b = true -> safe R (serverAssert b) any.
Proof. intros ->. by apply safe_ret. Qed.

Lemma safe_forM {A} (l : list A) f : (forall x, x ∈ l -> safe R (f x) any) -> safe R (forM l f) any.
Proof.
  induction l as [|x l IH]; intros Hf; cbn [forM]; [by apply safe_ret|].
  eapply safe_bind; [apply Hf; left|]. intros _ _. apply IH. intros y Hy. apply Hf. by right.
Qed.
End Safe.

(** A program that is safe from every state, relative to that state, is safe. *)
Lemma safe_lift {A} (R : server -> server -> Prop) (R' : server -> Prop) (m : M A) Q :
  (forall s, R' s -> R s s) -> (forall s t, R' s -> R s t -> R' t) ->
  (forall s, R' s -> safe (R s) m Q) -> safe R' m Q.
Proof.
  intros Hrefl Hstep Hm s Hs. eapply wp_mono; [apply (Hm s Hs), Hrefl, Hs|].
  intros a s' [H1 H2]. split; [by apply (Hstep s)|done].
Qed.

(** ** Flags *)

Lemma has_setf f b c : has (setf f b) c = has f c || has b c.
Proof.
  unfold has, setf. rewrite Z.land_lor_distr_l. rewrite <- negb_andb. f_equal.
  apply eq_true_iff_eq. rewrite andb_true_iff, !Z.eqb_eq. apply Z.lor_eq_0_iff.
Qed.

Lemma has_testbit f k : 0 <= k -> has f (2 ^ k) = Z.testbit f k.
Proof.
  intros Hk. unfold has. destruct (Z.testbit f k) eqn:E.
  - apply negb_true_iff, Z.eqb_neq. intros E0. apply (f_equal (fun x => Z.testbit x k)) in E0.
    rewrite Z.land_spec, Z.bits_0, E, Z.pow2_bits_true in E0 by lia. done.
  - apply negb_false_iff, Z.eqb_eq, Z.bits_inj'. intros i Hi. rewrite Z.land_spec, Z.bits_0.
    destruct (Z.eq_dec i k) as [->|Hne]; [by rewrite E|].
    rewrite Z.pow2_bits_false by lia. apply andb_false_r.
Qed.

Lemma has_clrf f b k : 0 <= k -> has (clrf f b) (2 ^ k) = has f (2 ^ k) && negb (has b (2 ^ k)).
Proof. intros Hk. rewrite !has_testbit by done. unfold clrf. by rewrite Z.land_spec, Z.lnot_spec. Qed.

Lemma has_clrf_master f b : has (clrf f b) CLUSTER_NODE_MASTER = has f CLUSTER_NODE_MASTER && negb (has b CLUSTER_NODE_MASTER).
Proof. by apply (has_clrf f b 0). Qed.
Lemma has_clrf_slave f b : has (clrf f b) CLUSTER_NODE_SLAVE = has f CLUSTER_NODE_SLAVE && negb (has b CLUSTER_NODE_SLAVE).
Proof. by apply (has_clrf f b 1). Qed.
Lemma has_clrf_handshake f b : has (clrf f b) CLUSTER_NODE_HANDSHAKE = has f CLUSTER_NODE_HANDSHAKE && negb (has b CLUSTER_NODE_HANDSHAKE).
Proof. by apply (has_clrf f b 5). Qed.

(** The flags [MASTER], [SLAVE] and [HANDSHAKE] of a word. *)
Definition roles (f : Z) : bool * bool * bool :=
  (has f CLUSTER_NODE_MASTER, has f CLUSTER_NODE_SLAVE, has f CLUSTER_NODE_HANDSHAKE).

Lemma roles_setf f b : roles b = (false, false, false) -> roles (setf f b) = roles f.
Proof. unfold roles. intros [= E1 E2 E3]. by rewrite !has_setf, E1, E2, E3, !orb_false_r. Qed.
Lemma roles_clrf f b : roles b = (false, false, false) -> roles (clrf f b) = roles f.
Proof.
  unfold roles. intros [= E1 E2 E3]. rewrite has_clrf_master, has_clrf_slave, has_clrf_handshake.
  by rewrite E1, E2, E3, !andb_true_r.
Qed.

(** ** Bitmaps *)

Definition bitmap_ok (b : list Z) : Prop := List.length b = Z.to_nat (CLUSTER_SLOTS / 8).
Definition slot_ok (j : Z) : Prop := 0 <= j < CLUSTER_SLOTS.

Lemma slots_from_elem j n i : i ∈ slots_from j n <-> j <= i < j + Z.of_nat n.
Proof.
  revert j. induction n as [|n IH]; intros j; cbn [slots_from].
  - rewrite elem_of_nil. lia.
  - rewrite elem_of_cons, IH. lia.
Qed.

Lemma slots_from_nodup j n : NoDup (slots_from j n).
Proof.
  revert j. induction n as [|n IH]; intros j; cbn [slots_from]; [apply NoDup_nil_2|].
  apply NoDup_cons. split; [rewrite slots_from_elem; lia|apply IH].
Qed.

Lemma all_slots_elem j : j ∈ all_slots <-> slot_ok j.
Proof. unfold all_slots, slot_ok. rewrite slots_from_elem. rewrite Z2Nat.id by done. lia. Qed.

Lemma all_slots_nodup : NoDup all_slots.
Proof. apply slots_from_nodup. Qed.

#[global] Opaque all_slots.

Lemma bitmapTestBit_testbit b j : 0 <= j ->
  bitmapTestBit b j = Z.testbit (default 0 (b !! Z.to_nat (j / 8))) (j mod 8).
Proof.
  intros Hj. unfold bitmapTestBit. rewrite Z.shiftl_1_l.
  replace (Z.land j 7) with (j mod 8) by (symmetry; apply (Z.land_ones j 3); lia).
  apply has_testbit. pose proof (Z.mod_pos_bound j 8). lia.
Qed.

Lemma slot_byte b j : bitmap_ok b -> slot_ok j -> is_Some (b !! Z.to_nat (j / 8)).
Proof.
  unfold bitmap_ok, slot_ok, CLUSTER_SLOTS. intros Hb Hj. apply lookup_lt_is_Some. rewrite Hb.
  assert (0 <= j / 8 < 16384 / 8).
  { split; [apply Z.div_pos; lia|]. apply Z.div_lt_upper_bound; [lia|]. change (8 * (16384 / 8)) with 16384. lia. }
  apply Z2Nat.inj_lt; lia.
Qed.

Lemma slot_split i j : i / 8 = j / 8 -> i mod 8 = j mod 8 -> i = j.
Proof. pose proof (Z.div_mod i 8). pose proof (Z.div_mod j 8). lia. Qed.

(** A change of one bit. *)
Lemma bitmap_alter b i j (f : Z -> Z) v : bitmap_ok b -> slot_ok i -> slot_ok j ->
  (forall x k, 0 <= k -> Z.testbit (f x) k = if decide (k = i mod 8) then v else Z.testbit x k) ->
  bitmapTestBit (alter f (Z.to_nat (i / 8)) b) j = if decide (i = j) then v else bitmapTestBit b j.
Proof.
  intros Hb Hi Hj Hf. rewrite !bitmapTestBit_testbit by (unfold slot_ok in *; lia).
  pose proof (Z.mod_pos_bound j 8 ltac:(lia)).
  destruct (slot_byte b j Hb Hj) as [x Ex].
  destruct (decide (i / 8 = j / 8)) as [E|Hne].
  - rewrite E, list_lookup_alter_eq, Ex. change (default 0 (f <$> Some x)) with (f x). change (default 0 (Some x)) with x. rewrite Hf by lia.
    destruct (decide (j mod 8 = i mod 8)) as [E'|Hne']; destruct (decide (i = j)) as [->|Hij]; try done.
    by destruct Hij; apply slot_split.
  - rewrite list_lookup_alter_ne by (intros E; apply Hne; apply Z2Nat.inj in E; [done|unfold slot_ok in *; apply Z.div_pos; lia..]).
    rewrite decide_False; [done|]. by intros ->.
Qed.

Lemma testbit_set b i j : bitmap_ok b -> slot_ok i -> slot_ok j ->
  bitmapTestBit (bitmapSetBit b i) j = if decide (i = j) then true else bitmapTestBit b j.
Proof.
  intros Hb Hi Hj. apply bitmap_alter; try done. intros x k Hk.
  rewrite Z.lor_spec, Z.shiftl_1_l. replace (Z.land i 7) with (i mod 8) by (symmetry; apply (Z.land_ones i 3); lia).
  pose proof (Z.mod_pos_bound i 8 ltac:(lia)).
  destruct (decide (k = i mod 8)) as [->|Hne].
  - rewrite Z.pow2_bits_true by lia. apply orb_true_r.
  - rewrite Z.pow2_bits_false by lia. apply orb_false_r.
Qed.

Lemma testbit_clear b i j : bitmap_ok b -> slot_ok i -> slot_ok j ->
  bitmapTestBit (bitmapClearBit b i) j = if decide (i = j) then false else bitmapTestBit b j.
Proof.
  intros Hb Hi Hj. apply bitmap_alter; try done. intros x k Hk.
  rewrite Z.land_spec, Z.lnot_spec, Z.shiftl_1_l by done.
  replace (Z.land i 7) with (i mod 8) by (symmetry; apply (Z.land_ones i 3); lia).
  pose proof (Z.mod_pos_bound i 8 ltac:(lia)).
  destruct (decide (k = i mod 8)) as [->|Hne].
  - rewrite Z.pow2_bits_true by lia. apply andb_false_r.
  - rewrite Z.pow2_bits_false by lia. apply andb_true_r.
Qed.

Lemma bitmap_ok_set b i : bitmap_ok b -> bitmap_ok (bitmapSetBit b i).
Proof. unfold bitmap_ok, bitmapSetBit. by rewrite length_alter. Qed.
Lemma bitmap_ok_clear b i : bitmap_ok b -> bitmap_ok (bitmapClearBit b i).
Proof. unfold bitmap_ok, bitmapClearBit. by rewrite length_alter. Qed.

(** How many slots a bitmap has. *)
Definition popcount (b : list Z) : Z := zlen (filter (fun j => bitmapTestBit b j = true) all_slots).

Lemma filter_agree {A} (P Q : A -> Prop) `{!forall x, Decision (P x), !forall x, Decision (Q x)} (l : list A) :
  (forall y, y ∈ l -> P y <-> Q y) -> filter P l = filter Q l.
Proof.
  induction l as [|y l IH]; intros Hag; [done|].
  assert (IH' : filter P l = filter Q l) by (apply IH; intros z Hz; apply Hag; by right).
  pose proof (Hag y ltac:(left)) as Hy.
  destruct (decide (P y)) as [Py|Py]; [rewrite !filter_cons_True by tauto|rewrite !filter_cons_False by tauto]; by rewrite IH'.
Qed.

(** A list with one more element that satisfies a test. *)
Lemma filter_one_more {A} `{EqDecision A} (P Q : A -> Prop) `{!forall x, Decision (P x), !forall x, Decision (Q x)} (l : list A) x :
  NoDup l -> x ∈ l -> P x -> ~ Q x -> (forall y, y ∈ l -> y <> x -> P y <-> Q y) ->
  List.length (filter P l) = Datatypes.S (List.length (filter Q l)).
Proof.
  induction l as [|y l IH]; intros Hnd Hin HP HQ Hag; [by apply elem_of_nil in Hin|].
  apply NoDup_cons in Hnd as [Hy Hnd]. destruct (decide (y = x)) as [->|Hne].
  - rewrite filter_cons_True, filter_cons_False by done. cbn [List.length]. f_equal. f_equal.
    apply filter_agree. intros z Hz. apply Hag; [by right|]. by intros ->.
  - apply elem_of_cons in Hin as [->|Hin]; [done|].
    assert (IH' : List.length (filter P l) = Datatypes.S (List.length (filter Q l))).
    { apply IH; auto. intros z Hz. apply Hag. by right. }
    destruct (decide (P y)) as [Py|Py].
    + rewrite !filter_cons_True by (try done; by apply (Hag y (list_elem_of_here _ _))). cbn [List.length]. by rewrite IH'.
    + rewrite !filter_cons_False; [done| |done]. intros Qy. by apply Py, (Hag y (list_elem_of_here _ _)).
Qed.

Lemma popcount_flip b b' j : slot_ok j -> bitmapTestBit b j = false -> bitmapTestBit b' j = true ->
  (forall i, slot_ok i -> i <> j -> bitmapTestBit b' i = bitmapTestBit b i) -> popcount b' = popcount b + 1.
Proof.
  intros Hj E E' Hag. unfold popcount, zlen.
  rewrite (filter_one_more _ (fun j => bitmapTestBit b j = true) all_slots j).
  - lia.
  - apply all_slots_nodup.
  - by apply all_slots_elem.
  - done.
  - by rewrite E.
  - intros i Hi Hne. apply all_slots_elem in Hi. by rewrite Hag.
Qed.

Lemma popcount_set b j : bitmap_ok b -> slot_ok j -> bitmapTestBit b j = false ->
  popcount (bitmapSetBit b j) = popcount b + 1.
Proof.
  intros Hb Hj E. apply (popcount_flip _ _ j); try done.
  - by rewrite testbit_set, decide_True.
  - intros i Hi Hne. by rewrite testbit_set, decide_False.
Qed.

Lemma popcount_clear b j : bitmap_ok b -> slot_ok j -> bitmapTestBit b j = true ->
  popcount (bitmapClearBit b j) = popcount b - 1.
Proof.
  intros Hb Hj E. rewrite (popcount_flip (bitmapClearBit b j) b j); try done; [lia| |].
  - by rewrite testbit_clear, decide_True.
  - intros i Hi Hne. by rewrite testbit_clear, decide_False.
Qed.

Lemma popcount_zero b j : slot_ok j -> popcount b = 0 -> bitmapTestBit b j = false.
Proof.
  intros Hj E. destruct (bitmapTestBit b j) eqn:Eb; [|done]. exfalso.
  assert (Hin : j ∈ filter (fun j => bitmapTestBit b j = true) all_slots).
  { apply list_elem_of_filter. split; [done|by apply all_slots_elem]. }
  unfold popcount, zlen in E. destruct (filter _ all_slots); [by apply elem_of_nil in Hin|cbn in E; lia].
Qed.

Lemma new_bitmap_testbit j : bitmapTestBit (replicate (Z.to_nat (CLUSTER_SLOTS / 8)) 0) j = false.
Proof.
  unfold bitmapTestBit. destruct (_ !! Z.to_nat (j / 8)) as [x|] eqn:E; [|done].
  apply lookup_replicate in E as [-> _]. done.
Qed.

Lemma popcount_new : popcount (replicate (Z.to_nat (CLUSTER_SLOTS / 8)) 0) = 0.
Proof.
  unfold popcount. rewrite (filter_agree _ (fun _ => False)).
  - by induction all_slots.
  - intros j _. by rewrite new_bitmap_testbit.
Qed.

(** ** The invariant *)

Section Inv.
Context `{World} `{!WorldLaws}.

(** The table of nodes lists the objects of the heap under their names; names that
    are still to be drawn are not in use. *)
Record names_inv (s : server) : Prop := {
  names_heap nm p : c_nodes s !! nm = Some p -> exists n, heap s !! p = Some n /\ n_name n = nm;
  heap_names p n : heap s !! p = Some n -> c_nodes s !! n_name n = Some p;
  names_fresh nm k : is_Some (c_nodes s !! nm) -> (names_drawn (s_draws s) <= k)%nat -> nm <> random_name k
}.

(** The slot table, the bitmaps and the counters. *)
Record slots_inv (sl : gmap Z ptr) (h : gmap ptr clusterNode) : Prop := {
  bitmaps_ok p n : h !! p = Some n -> bitmap_ok (n_slots n) /\ n_numslots n = popcount (n_slots n);
  slots_bits j p : sl !! j = Some p <->
    slot_ok j /\ exists n, h !! p = Some n /\ bitmapTestBit (n_slots n) j = true
}.

(** Masters and replicas point to each other. *)
Record repl_inv (h : gmap ptr clusterNode) : Prop := {
  slaveof_slaves p n m : h !! p = Some n -> n_slaveof n = Some m -> exists nm, h !! m = Some nm /\ p ∈ n_slaves nm;
  slaves_slaveof p n q : h !! p = Some n -> q ∈ n_slaves n -> exists nq, h !! q = Some nq /\ n_slaveof nq = Some p;
  slaves_nodup p n : h !! p = Some n -> NoDup (n_slaves n)
}.

(** A node in handshake has no role; any other is a master or a replica, and only
    replicas have a master. *)
Definition role_ok (n : clusterNode) : Prop :=
  if nodeInHandshake n
  then nodeIsMaster n = false /\ nodeIsSlave n = false /\ n_slaveof n = None /\ n_numslots n = 0
  else nodeIsMaster n = negb (nodeIsSlave n) /\ (nodeIsSlave n = false -> n_slaveof n = None).

(** A link and its node point to each other. *)
Record links_inv (lks : gmap ptr clusterLink) (h : gmap ptr clusterNode) : Prop := {
  link_node l k p : lks !! l = Some k -> l_node k = Some p -> exists n, h !! p = Some n /\ n_link n = Some l;
  node_link p n l : h !! p = Some n -> n_link n = Some l -> exists k, lks !! l = Some k /\ l_node k = Some p
}.

(** Every reporter counts once, and is there. *)
Definition reports_ok (h : gmap ptr clusterNode) (n : clusterNode) : Prop :=
  NoDup (n_fail_reports n).*1 /\ forall r, r ∈ n_fail_reports n -> is_Some (h !! r.1).

(** The other pointers to nodes. *)
Record ptrs_inv (s : server) : Prop := {
  importing_ptr j p : c_importing_slots_from s !! j = Some p -> slot_ok j /\ is_Some (heap s !! p);
  migrating_ptr j p : c_migrating_slots_to s !! j = Some p -> slot_ok j /\ is_Some (heap s !! p);
  reports_ptr p n : heap s !! p = Some n -> reports_ok (heap s) n
}.

(** This node: a replica has no slots, and its master is known. *)
Definition me_ok (s : server) : Prop :=
  exists n, heap s !! c_myself s = Some n /\ nodeInHandshake n = false /\
    (nodeIsSlave n = true -> n_numslots n = 0 /\
       exists m nm, n_slaveof n = Some m /\ heap s !! m = Some nm /\ nodeInHandshake nm = false).

Record inv (s : server) : Prop := {
  inv_names : names_inv s;
  inv_slots : slots_inv (c_slots s) (heap s);
  inv_repl : repl_inv (heap s);
  inv_roles : forall p n, heap s !! p = Some n -> role_ok n;
  inv_links : links_inv (links s) (heap s);
  inv_ptrs : ptrs_inv s;
  inv_me : me_ok s
}.

(** ** States that agree *)

(** Two heaps with the same objects, as far as [f] sees them. *)
Definition agree {B} (f : clusterNode -> B) (h h' : gmap ptr clusterNode) : Prop :=
  forall p, f <$> h' !! p = f <$> h !! p.

Section Agree.
Context {B : Type} (f : clusterNode -> B) (h h' : gmap ptr clusterNode) (A : agree f h h').

Lemma agree_l p n : h' !! p = Some n -> exists n0, h !! p = Some n0 /\ f n = f n0.
Proof.
  intros E. pose proof (A p) as Hp. rewrite E in Hp.
  destruct (h !! p) as [n0|]; [|done]. apply (inj Some) in Hp. by exists n0.
Qed.
Lemma agree_r p n0 : h !! p = Some n0 -> exists n, h' !! p = Some n /\ f n = f n0.
Proof.
  intros E. pose proof (A p) as Hp. rewrite E in Hp.
  destruct (h' !! p) as [n|]; [|done]. apply (inj Some) in Hp. by exists n.
Qed.
Lemma agree_live p : is_Some (h' !! p) <-> is_Some (h !! p).
Proof. rewrite <- (fmap_is_Some f), A, fmap_is_Some. done. Qed.
End Agree.

Lemma agree_sub {B C} (f : clusterNode -> B) (g : clusterNode -> C) h h' :
  (forall n n', f n = f n' -> g n = g n') -> agree f h h' -> agree g h h'.
Proof.
  intros Hfg A p. destruct (h' !! p) as [n|] eqn:E.
  - destruct (agree_l f h h' A _ _ E) as (n0 & -> & Ef). cbn. f_equal. by apply Hfg.
  - destruct (h !! p) as [n0|] eqn:E0; [|done]. destruct (agree_r f h h' A _ _ E0) as (n & En & _). congruence.
Qed.

Lemma agree_insert {B} (f : clusterNode -> B) h p n n' : h !! p = Some n -> f n' = f n -> agree f h (<[p := n']> h).
Proof.
  intros E Ef q. destruct (decide (p = q)) as [->|Hne].
  - rewrite lookup_insert_eq, E. cbn. by rewrite Ef.
  - by rewrite lookup_insert_ne.
Qed.

Lemma agree_refl {B} (f : clusterNode -> B) h : agree f h h.
Proof. done. Qed.
Lemma agree_trans {B} (f : clusterNode -> B) h h' h'' : agree f h h' -> agree f h' h'' -> agree f h h''.
Proof. intros A1 A2 p. by rewrite A2, A1. Qed.

Lemma names_same s t : names_inv s -> c_nodes t = c_nodes s -> names_drawn (s_draws t) = names_drawn (s_draws s) ->
  agree n_name (heap s) (heap t) -> names_inv t.
Proof.
  intros [N1 N2 N3] E1 E2 A. split; rewrite ?E1, ?E2.
  - intros nm p E. apply N1 in E as (n0 & E0 & <-). by apply (agree_r _ _ _ A) in E0.
  - intros p n E. apply (agree_l _ _ _ A) in E as (n0 & E0 & ->). by apply N2.
  - apply N3.
Qed.

Lemma slots_same sl h h' : slots_inv sl h -> agree (fun n => (n_slots n, n_numslots n)) h h' -> slots_inv sl h'.
Proof.
  intros [B1 B2] A. split.
  - intros p n E. apply (agree_l _ _ _ A) in E as (n0 & E0 & [= -> ->]). by apply (B1 p n0).
  - intros j p. rewrite B2. f_equiv. split.
    + intros (n0 & E0 & T). apply (agree_r _ _ _ A) in E0 as (n & E & [= Es _]). exists n. by rewrite Es.
    + intros (n & E & T). apply (agree_l _ _ _ A) in E as (n0 & E0 & [= Es _]). exists n0. by rewrite <- Es.
Qed.

Lemma repl_same h h' : repl_inv h -> agree (fun n => (n_slaves n, n_slaveof n)) h h' -> repl_inv h'.
Proof.
  intros [P1 P2 P3] A. split.
  - intros p n m E Eo. apply (agree_l _ _ _ A) in E as (n0 & E0 & [= _ E2]). rewrite E2 in Eo.
    destruct (P1 _ _ _ E0 Eo) as (nm & Enm & Hin). apply (agree_r _ _ _ A) in Enm as (nm' & E' & [= E3 _]). exists nm'. by rewrite E3.
  - intros p n q E Hq. apply (agree_l _ _ _ A) in E as (n0 & E0 & [= E1 _]). rewrite E1 in Hq.
    destruct (P2 _ _ _ E0 Hq) as (nq & Enq & Hof). apply (agree_r _ _ _ A) in Enq as (nq' & E' & [= _ E4]). exists nq'. by rewrite E4.
  - intros p n E. apply (agree_l _ _ _ A) in E as (n0 & E0 & [= -> _]). by apply (P3 p n0).
Qed.

Lemma links_same lks h h' : links_inv lks h -> agree n_link h h' -> links_inv lks h'.
Proof.
  intros [K1 K2] A. split.
  - intros l k p Ek Ep. destruct (K1 _ _ _ Ek Ep) as (n0 & E0 & El). apply (agree_r _ _ _ A) in E0 as (n & E & El'). exists n. by rewrite El'.
  - intros p n l E El. apply (agree_l _ _ _ A) in E as (n0 & E0 & El'). rewrite El' in El. by apply (K2 _ _ _ E0).
Qed.

(** Pointers stay valid while no object goes away. *)
Lemma ptrs_same s t : ptrs_inv s -> (forall p, is_Some (heap s !! p) -> is_Some (heap t !! p)) ->
  (forall j p, c_importing_slots_from t !! j = Some p -> c_importing_slots_from s !! j = Some p) ->
  (forall j p, c_migrating_slots_to t !! j = Some p -> c_migrating_slots_to s !! j = Some p) ->
  (forall p n, heap t !! p = Some n -> reports_ok (heap s) n) -> ptrs_inv t.
Proof.
  intros [T1 T2 T3] D E1 E2 R. split.
  - intros j p E. destruct (T1 j p); auto.
  - intros j p E. destruct (T2 j p); auto.
  - intros p n E. destruct (R p n E). split; auto.
Qed.

(** What the invariant of this node looks at. *)
Definition role_view (n : clusterNode) := (n_numslots n, roles (n_flags n), n_slaveof n).

(** ** Handlers that leave the shape of the state alone *)

(** What the invariant depends on in a node. *)
Definition shape (n : clusterNode) :=
  (n_name n, roles (n_flags n), n_slots n, n_numslots n, n_slaves n, n_slaveof n, n_link n).

Definition live (s : server) (p : ptr) : Prop := is_Some (heap s !! p).
Definition linked (s : server) (l : ptr) : Prop := is_Some (links s !! l).

Record soft (s t : server) : Prop := {
  soft_me : c_myself t = c_myself s;
  soft_nodes : c_nodes t = c_nodes s;
  soft_slots : c_slots t = c_slots s;
  soft_importing : c_importing_slots_from t = c_importing_slots_from s;
  soft_migrating : c_migrating_slots_to t = c_migrating_slots_to s;
  soft_links : links t = links s;
  soft_names : names_drawn (s_draws t) = names_drawn (s_draws s);
  soft_heap : agree shape (heap s) (heap t);
  soft_reports p n : heap t !! p = Some n -> reports_ok (heap s) n
}.

Lemma soft_lookup s t p n : soft s t -> heap t !! p = Some n -> exists n0, heap s !! p = Some n0 /\ shape n = shape n0.
Proof. intros S. apply (agree_l _ _ _ (soft_heap _ _ S)). Qed.
Lemma soft_lookup_r s t p n0 : soft s t -> heap s !! p = Some n0 -> exists n, heap t !! p = Some n /\ shape n = shape n0.
Proof. intros S. apply (agree_r _ _ _ (soft_heap _ _ S)). Qed.
Lemma soft_live s t p : soft s t -> is_Some (heap t !! p) <-> is_Some (heap s !! p).
Proof. intros S. apply (agree_live _ _ _ (soft_heap _ _ S)). Qed.

Lemma shape_fields n n0 : shape n = shape n0 ->
  n_name n = n_name n0 /\ roles (n_flags n) = roles (n_flags n0) /\ n_slots n = n_slots n0 /\
  n_numslots n = n_numslots n0 /\ n_slaves n = n_slaves n0 /\ n_slaveof n = n_slaveof n0 /\ n_link n = n_link n0.
Proof. intros E. unfold shape in E. repeat apply pair_eq in E as [E ?]. done. Qed.

Lemma roles_fields f f0 : roles f = roles f0 ->
  has f CLUSTER_NODE_MASTER = has f0 CLUSTER_NODE_MASTER /\ has f CLUSTER_NODE_SLAVE = has f0 CLUSTER_NODE_SLAVE /\
  has f CLUSTER_NODE_HANDSHAKE = has f0 CLUSTER_NODE_HANDSHAKE.
Proof. intros E. unfold roles in E. repeat apply pair_eq in E as [E ?]. done. Qed.

Lemma shape_role n n0 : shape n = shape n0 ->
  nodeIsMaster n = nodeIsMaster n0 /\ nodeIsSlave n = nodeIsSlave n0 /\ nodeInHandshake n = nodeInHandshake n0.
Proof. intros E. apply shape_fields in E as (_ & E & _). by apply roles_fields. Qed.

Lemma view_fields n n0 : role_view n = role_view n0 ->
  n_numslots n = n_numslots n0 /\ n_slaveof n = n_slaveof n0 /\
  nodeIsMaster n = nodeIsMaster n0 /\ nodeIsSlave n = nodeIsSlave n0 /\ nodeInHandshake n = nodeInHandshake n0.
Proof.
  intros E. unfold role_view in E. apply pair_eq in E as [E E3]. apply pair_eq in E as [E1 E2]. apply roles_fields in E2. done.
Qed.

Lemma role_ok_view n n0 : role_view n = role_view n0 -> role_ok n0 -> role_ok n.
Proof. intros (E1 & E2 & E3 & E4 & E5)%view_fields. unfold role_ok. by rewrite E1, E2, E3, E4, E5. Qed.

Lemma role_ok_shape n n0 : shape n = shape n0 -> role_ok n0 -> role_ok n.
Proof.
  intros E. apply role_ok_view. unfold role_view. by apply shape_fields in E as (_ & -> & _ & -> & _ & -> & _).
Qed.

Lemma me_same s t : me_ok s -> c_myself t = c_myself s -> agree role_view (heap s) (heap t) -> me_ok t.
Proof.
  intros (m & Em & Hm & Hs) E1 A. apply (agree_r _ _ _ A) in Em as (m' & Em' & (E2 & E3 & _ & E4 & E5)%view_fields).
  exists m'. rewrite E1, E2, E3, E4, E5. split; [done|]. split; [done|]. intros Hsl.
  destruct (Hs Hsl) as (? & x & nx & ? & Ex & Hx). split; [done|].
  apply (agree_r _ _ _ A) in Ex as (nx' & Ex' & (_ & _ & _ & _ & E6)%view_fields). exists x, nx'. by rewrite E6.
Qed.

Lemma inv_soft s t : inv s -> soft s t -> inv t.
Proof.
  intros I S. pose proof (soft_heap _ _ S) as A. pose proof (fun C g Hg => agree_sub (C := C) shape g _ _ Hg A) as A'. split.
  - eapply names_same; [by apply I|by apply S..|]. apply A'. by intros n n' [-> _]%shape_fields.
  - rewrite (soft_slots _ _ S). eapply slots_same; [by apply I|]. apply A'. by intros n n' (_ & _ & -> & -> & _)%shape_fields.
  - eapply repl_same; [by apply I|]. apply A'. by intros n n' (_ & _ & _ & _ & -> & -> & _)%shape_fields.
  - intros p n E. apply (agree_l _ _ _ A) in E as (n0 & E0 & Sh). by eapply role_ok_shape, I.
  - rewrite (soft_links _ _ S). eapply links_same; [by apply I|]. apply A'. by intros n n' (_ & _ & _ & _ & _ & _ & ->)%shape_fields.
  - eapply ptrs_same; [by apply I|..].
    + intros p. apply (soft_live _ _ p S).
    + by rewrite (soft_importing _ _ S).
    + by rewrite (soft_migrating _ _ S).
    + intros p n. apply (soft_reports _ _ S).
  - eapply me_same; [by apply I|by apply S|]. apply A'. unfold role_view. by intros n n' (_ & -> & _ & -> & _ & -> & _)%shape_fields.
Qed.

Lemma soft_refl s : inv s -> soft s s.
Proof. intros I. split; try done. intros p n. apply (inv_ptrs s I). Qed.

Lemma soft_trans s t u : soft s t -> soft t u -> soft s u.
Proof.
  intros S1 S2. split; try (etrans; [by apply S2|by apply S1]).
  - eapply agree_trans; [by apply S1|by apply S2].
  - intros p n E. destruct (soft_reports _ _ S2 p n E) as [R1 R2]. split; [done|]. intros r Hr. by apply (soft_live _ _ _ S1), R2.
Qed.
End Inv.

(** ** Quiet programs *)

Section Soft.
Context `{World} `{!WorldLaws} (s0 : server) (I0 : inv s0).

Abbreviation quiet m Q := (safe (soft s0) m Q).

(** A node as it is read: of the shape it had. *)
Definition seen (n : clusterNode) (p : ptr) : Prop := exists n0, heap s0 !! p = Some n0 /\ shape n = shape n0.

Lemma seen_live n p : seen n p -> live s0 p.
Proof. intros (n0 & E & _). by exists n0. Qed.
Lemma seen_slaveof n p m : seen n p -> n_slaveof n = Some m -> live s0 m.
Proof.
  intros (n0 & E & Sh) Em. apply shape_fields in Sh as (_ & _ & _ & _ & _ & Sh & _). rewrite Sh in Em.
  destruct (slaveof_slaves _ (inv_repl _ I0) _ _ _ E Em) as (nm & Enm & _). by exists nm.
Qed.
Lemma seen_slaves n p q : seen n p -> q ∈ n_slaves n -> live s0 q.
Proof.
  intros (n0 & E & Sh) Hq. apply shape_fields in Sh as (_ & _ & _ & _ & Sh & _). rewrite Sh in Hq.
  destruct (slaves_slaveof _ (inv_repl _ I0) _ _ _ E Hq) as (nq & Enq & _). by exists nq.
Qed.
Lemma seen_link n p l : seen n p -> n_link n = Some l -> linked s0 l.
Proof.
  intros (n0 & E & Sh) El. apply shape_fields in Sh as (_ & _ & _ & _ & _ & _ & Sh). rewrite Sh in El.
  destruct (node_link _ _ (inv_links _ I0) _ _ _ E El) as (k & Ek & _). by exists k.
Qed.
Lemma owner_live j p : c_slots s0 !! j = Some p -> live s0 p.
Proof. intros E. apply (slots_bits _ _ (inv_slots _ I0)) in E as (_ & n & E & _). by exists n. Qed.
Lemma link_live l k p : links s0 !! l = Some k -> l_node k = Some p -> live s0 p.
Proof. intros E Ep. destruct (link_node _ _ (inv_links _ I0) _ _ _ E Ep) as (n & En & _). by exists n. Qed.
Lemma known_live nm p : c_nodes s0 !! nm = Some p -> live s0 p.
Proof. intros E. destruct (names_heap _ (inv_names _ I0) _ _ E) as (n & En & _). by exists n. Qed.
Lemma me_live : live s0 (c_myself s0).
Proof. destruct (inv_me _ I0) as (n & E & _). by exists n. Qed.
Lemma order_live p : p ∈ node_order (c_nodes s0) -> live s0 p.
Proof.
  rewrite node_order_perm, list_elem_of_fmap. intros ([nm q] & -> & Hin). apply elem_of_map_to_list in Hin.
  by apply known_live in Hin.
Qed.

Lemma soft_same s t : soft s0 s ->
  c_myself t = c_myself s -> c_nodes t = c_nodes s -> c_slots t = c_slots s ->
  c_importing_slots_from t = c_importing_slots_from s -> c_migrating_slots_to t = c_migrating_slots_to s ->
  links t = links s -> names_drawn (s_draws t) = names_drawn (s_draws s) -> heap t = heap s -> soft s0 t.
Proof.
  intros [S1 S2 S3 S4 S5 S6 S7 S8 S9] E1 E2 E3 E4 E5 E6 E7 E8. split; try congruence.
  intros p n. rewrite E8. apply S9.
Qed.

Lemma quiet_modify g : (forall s, c_myself (g s) = c_myself s /\ c_nodes (g s) = c_nodes s /\ c_slots (g s) = c_slots s /\
    c_importing_slots_from (g s) = c_importing_slots_from s /\ c_migrating_slots_to (g s) = c_migrating_slots_to s /\
    links (g s) = links s /\ names_drawn (s_draws (g s)) = names_drawn (s_draws s) /\ heap (g s) = heap s) ->
  quiet (modify g) any.
Proof.
  intros Hg. apply safe_modify. intros s Ss. destruct (Hg s) as (?&?&?&?&?&?&?&?). by eapply soft_same.
Qed.

Lemma quiet_rd p : live s0 p -> quiet (rd p) (fun n => seen n p).
Proof.
  intros [n0 E0] s Ss. apply wp_rd. destruct (soft_lookup_r _ _ _ _ Ss E0) as (n & E & Sh).
  exists n. split; [done|]. split; [done|]. by exists n0.
Qed.

Lemma quiet_upd p f : live s0 p -> (forall n, seen n p -> shape (f n) = shape n) ->
  (forall n, reports_ok (heap s0) n -> reports_ok (heap s0) (f n)) -> quiet (upd p f) any.
Proof.
  intros [n0 E0] Hf Hr s Ss. apply wp_upd. destruct (soft_lookup_r _ _ _ _ Ss E0) as (n & E & Sh).
  exists n. split; [done|]. split; [|done]. destruct Ss as [S1 S2 S3 S4 S5 S6 S7 S8 S9]. split; try done.
  - intros q. cbn [heap set_heap]. rewrite <- S8. destruct (decide (p = q)) as [->|Hne].
    + rewrite lookup_insert_eq, E. cbn. rewrite Hf; [done|by exists n0].
    + by rewrite lookup_insert_ne.
  - intros q m Em. cbn [heap set_heap] in Em. destruct (decide (p = q)) as [->|Hne].
    + rewrite lookup_insert_eq in Em. injection Em as <-. by eapply Hr, S9.
    + rewrite lookup_insert_ne in Em by done. by eapply S9.
Qed.

Lemma quiet_upd' p f : live s0 p -> (forall n, shape (f n) = shape n) -> (forall n, n_fail_reports (f n) = n_fail_reports n) ->
  quiet (upd p f) any.
Proof. intros Hp Hf Hr. apply quiet_upd; [done|auto|]. intros n. unfold reports_ok. by rewrite Hr. Qed.

Lemma quiet_rdl l : linked s0 l -> quiet (rdl l) (fun k => links s0 !! l = Some k).
Proof. intros [k E] s Ss. apply wp_rdl. exists k. rewrite (soft_links _ _ Ss). done. Qed.

Lemma quiet_myself : quiet myself (fun p => p = c_myself s0).
Proof. apply safe_gets. apply soft_me. Qed.
Lemma quiet_all_nodes : quiet all_nodes (fun l => l = node_order (c_nodes s0)).
Proof. apply safe_gets. intros s Ss. by rewrite (soft_nodes _ _ Ss). Qed.
Lemma quiet_owner j : quiet (gets (fun s => c_slots s !! j)) (fun o => o = c_slots s0 !! j).
Proof. apply safe_gets. intros s Ss. by rewrite (soft_slots _ _ Ss). Qed.
Lemma quiet_importing j : quiet (gets (fun s => c_importing_slots_from s !! j)) (fun o => o = c_importing_slots_from s0 !! j).
Proof. apply safe_gets. intros s Ss. by rewrite (soft_importing _ _ Ss). Qed.
Lemma quiet_lookup nm : quiet (clusterLookupNode nm) (fun o => o = c_nodes s0 !! nm).
Proof. apply safe_gets. intros s Ss. by rewrite (soft_nodes _ _ Ss). Qed.
Lemma quiet_gets {A} (f : server -> A) : quiet (gets f) any.
Proof. by apply safe_gets. Qed.

Lemma quiet_add_flags p b : live s0 p -> roles b = (false, false, false) -> quiet (add_flags p b) any.
Proof. intros Hp Hb. apply quiet_upd'; [done| |done]. intros n. unfold shape. cbn. by rewrite roles_setf. Qed.
Lemma quiet_del_flags p b : live s0 p -> roles b = (false, false, false) -> quiet (del_flags p b) any.
Proof. intros Hp Hb. apply quiet_upd'; [done| |done]. intros n. unfold shape. cbn. by rewrite roles_clrf. Qed.
Lemma quiet_effect e : quiet (effect_ e) any.
Proof. by apply quiet_modify. Qed.
Lemma quiet_before_sleep b : quiet (clusterDoBeforeSleep b) any.
Proof. by apply quiet_modify. Qed.
Lemma quiet_random : quiet random any.
Proof. intros s Ss. split; [|done]. by eapply soft_same. Qed.
Lemma quiet_connect : quiet anetTcpNonBlockBindConnect any.
Proof. intros s Ss. split; [|done]. by eapply soft_same. Qed.
End Soft.

Create HintDb quiet.
#[export] Hint Resolve seen_live seen_slaveof seen_slaves seen_link owner_live link_live known_live me_live order_live : quiet.
#[export] Hint Resolve quiet_rd quiet_rdl quiet_myself quiet_all_nodes quiet_owner quiet_importing quiet_lookup
  quiet_effect quiet_before_sleep quiet_random quiet_connect : quiet.

(** Run through a quiet program: decompose it and look up what it calls. *)
Ltac quiet_case :=
  match goal with
  | |- safe _ (if ?b then _ else _) _ => let E := fresh "Hb" in destruct b eqn:E
  | |- safe _ (match ?x with _ => _ end) _ => let E := fresh "Hx" in destruct x eqn:E
  end.
Ltac quiet_call :=
  first
    [ solve [eauto 4 with quiet]
    | solve [eapply safe_any; eauto 4 with quiet] ].
Ltac quiet_leaf :=
  first
    [ quiet_call
    | solve [apply quiet_add_flags; [eauto 4 with quiet|reflexivity]]
    | solve [apply quiet_del_flags; [eauto 4 with quiet|reflexivity]]
    | solve [apply quiet_upd'; [eauto 4 with quiet|reflexivity|reflexivity]]
    | solve [apply quiet_modify; intros ?; repeat case_match; done]
    | solve [apply quiet_gets] ].
Ltac quiet_step :=
  cbv zeta; subst;
  lazymatch goal with
  | |- safe _ (mbind _ (mret ?a)) _ =>
      eapply (safe_bind _ _ _ (fun x => x = a)); [by apply safe_ret|intros ? ->]
  | |- safe _ (mbind _ _) _ =>
      first [ eapply safe_bind; [quiet_call|let Ha := fresh "Hr" in intros ? Ha; cbv beta in Ha; subst]
            | eapply (safe_bind _ _ _ any); [solve [quiet_run]|intros ? _] ]
  | |- safe _ (mret _) _ => apply safe_ret; try done
  | |- safe _ (when _ _) _ => apply safe_when; intros ?
  | |- safe _ (forM _ _) _ => apply safe_forM; intros ? ?
  | |- safe _ (if _ then _ else _) _ => quiet_case
  | |- safe _ (match _ with _ => _ end) _ => quiet_case
  | |- safe _ _ _ => quiet_leaf
  end
with quiet_run := repeat quiet_step.

Section SoftOps.
Context `{World} `{!WorldLaws} (s0 : server) (I0 : inv s0).
Abbreviation quiet m := (safe (soft s0) m any).

Lemma quiet_replicationSetMaster ip port : quiet (replicationSetMaster ip port).
Proof. unfold replicationSetMaster. quiet_run. Qed.
Lemma quiet_replicationUnsetMaster : quiet replicationUnsetMaster.
Proof. unfold replicationUnsetMaster. quiet_run. Qed.
Lemma quiet_replicationGetSlaveOffset : quiet replicationGetSlaveOffset.
Proof. apply quiet_gets. Qed.
Lemma quiet_pauseClients t : quiet (pauseClients t).
Proof. unfold pauseClients. quiet_run. Qed.
Lemma quiet_clientsArePaused : quiet clientsArePaused.
Proof. unfold clientsArePaused. quiet_run. Qed.

Lemma touch_report_spec sender t l :
  match touch_report sender t l with
  | Some l' => l'.*1 = l.*1 /\ sender ∈ l.*1
  | None => sender ∉ l.*1
  end.
Proof.
  induction l as [|[p u] l IH]; cbn [touch_report]; [apply not_elem_of_nil|]. destruct (decide (p = sender)) as [->|Hne].
  - split; [done|]. left.
  - destruct (touch_report sender t l) as [l1|]; cbn.
    + destruct IH as [-> ?]. split; [done|]. by right.
    + rewrite not_elem_of_cons. done.
Qed.

Lemma del_report_spec sender l :
  match del_report sender l with
  | Some l' => (NoDup l.*1 -> NoDup l'.*1 /\ sender ∉ l'.*1) /\ forall r, r ∈ l' -> r ∈ l
  | None => sender ∉ l.*1
  end.
Proof.
  induction l as [|[p u] l IH]; cbn [del_report]; [apply not_elem_of_nil|]. destruct (decide (p = sender)) as [->|Hne].
  - split; [|intros r Hr; by right]. cbn. rewrite NoDup_cons. tauto.
  - destruct (del_report sender l) as [l1|]; cbn.
    + destruct IH as [IH1 IH2]. split.
      * rewrite !NoDup_cons, not_elem_of_cons. intros [Hp Hnd]. destruct (IH1 Hnd) as [H1 H2]. split; [|split; [congruence|done]].
        split; [|done]. intros Hin. apply Hp. apply list_elem_of_fmap in Hin as ([q v] & -> & Hin). apply list_elem_of_fmap.
        exists (q, v). split; [done|]. by apply IH2.
      * intros r. rewrite !elem_of_cons. intros [->|Hr]; [by left|right; by apply IH2].
    + rewrite not_elem_of_cons. done.
Qed.

(** Reports taken from what was read. *)
Lemma quiet_set_reports p l : live s0 p -> NoDup l.*1 -> (forall r, r ∈ l -> live s0 r.1) -> quiet (upd p (set_n_fail_reports l)).
Proof. intros Hp Hnd Hl. by apply quiet_upd. Qed.

(** A node as it is read, with its reports. *)
Lemma quiet_rd_reports p : live s0 p -> safe (soft s0) (rd p) (fun n => seen s0 n p /\ reports_ok (heap s0) n).
Proof.
  intros [n0 E0] s Ss. apply wp_rd. destruct (soft_lookup_r _ _ _ _ Ss E0) as (n & E & Sh).
  exists n. split; [done|]. split; [done|]. split; [by exists n0|]. by eapply (soft_reports _ _ Ss).
Qed.

Lemma quiet_addreport p q : live s0 p -> live s0 q -> quiet (clusterNodeAddFailureReport p q).
Proof.
  intros Hp Hq. unfold clusterNodeAddFailureReport. eapply safe_bind; [by apply quiet_rd_reports|]. intros n [_ [Hnd Hr]].
  quiet_step. pose proof (touch_report_spec q a (n_fail_reports n)) as Ht.
  destruct (touch_report _ _ _) as [l|]; (eapply (safe_bind _ _ _ any); [apply quiet_set_reports; [done|..]|intros ? _; by apply safe_ret]).
  - destruct Ht as [-> _]. done.
  - destruct Ht as [Ht _]. intros r Hin. assert (Hin' : r.1 ∈ l.*1) by (apply list_elem_of_fmap; by exists r).
    rewrite Ht in Hin'. apply list_elem_of_fmap in Hin' as (r' & -> & Hin'). by apply Hr.
  - rewrite fmap_app. apply NoDup_app. split; [done|]. split; [|apply NoDup_singleton].
    intros x Hx Hx'. cbn in Hx'. apply list_elem_of_singleton in Hx' as ->. done.
  - intros r Hin. apply elem_of_app in Hin as [Hin|Hin]; [by apply Hr|]. apply list_elem_of_singleton in Hin as ->. done.
Qed.

Lemma filter_reports_nodup (P : ptr * Z -> Prop) `{!forall r, Decision (P r)} l : NoDup l.*1 -> NoDup (filter P l).*1.
Proof.
  induction l as [|r l IH]; [done|]. rewrite fmap_cons, NoDup_cons. intros [Hr Hnd]. rewrite filter_cons. case_decide; [|by apply IH].
  rewrite fmap_cons, NoDup_cons. split; [|by apply IH]. intros Hin. apply Hr. apply list_elem_of_fmap in Hin as (x & E & Hin).
  apply list_elem_of_filter in Hin as [_ Hin]. apply list_elem_of_fmap. by exists x.
Qed.

Lemma quiet_cleanup p : live s0 p -> quiet (clusterNodeCleanupFailureReports p).
Proof.
  intros Hp. unfold clusterNodeCleanupFailureReports. do 2 quiet_step. apply quiet_upd; [done|done|].
  intros n [Hnd Hr]. split; cbn; [by apply filter_reports_nodup|]. intros r Hin. apply list_elem_of_filter in Hin as [_ Hin]. by apply Hr.
Qed.

Lemma quiet_delreport p q : live s0 p -> quiet (clusterNodeDelFailureReport p q).
Proof.
  intros Hp. unfold clusterNodeDelFailureReport. eapply safe_bind; [by apply quiet_rd_reports|]. intros n [_ [Hnd Hr]].
  pose proof (del_report_spec q (n_fail_reports n)) as Hd.
  quiet_case; [|by apply safe_ret]. eapply (safe_bind _ _ _ any); [apply quiet_set_reports; [done|..]|intros ? _].
  - by apply Hd.
  - intros r Hin. by apply Hr, Hd.
  - eapply (safe_bind _ _ _ any); [by apply quiet_cleanup|]. intros ? _. by apply safe_ret.
Qed.
End SoftOps.

#[export] Hint Resolve quiet_replicationSetMaster quiet_replicationUnsetMaster quiet_replicationGetSlaveOffset
  quiet_pauseClients quiet_clientsArePaused quiet_addreport quiet_cleanup quiet_delreport : quiet.

Section SoftOps2.
Context `{World} `{!WorldLaws} (s0 : server) (I0 : inv s0).
Abbreviation quiet m := (safe (soft s0) m any).

Lemma quiet_reports_count p : live s0 p -> quiet (clusterNodeFailureReportsCount p).
Proof. intros Hp. unfold clusterNodeFailureReportsCount. quiet_run. Qed.

Lemma quiet_count_nodes f l : (forall p, p ∈ l -> live s0 p) -> quiet (count_nodes f l).
Proof.
  induction l as [|p l IH]; intros Hl; cbn [count_nodes]; [quiet_run|].
  assert (live s0 p) by (apply Hl; left). quiet_step. eapply safe_bind; [apply IH; intros q Hq; apply Hl; by right|].
  intros ? _. quiet_run.
Qed.

Lemma quiet_countslaves p : live s0 p -> quiet (clusterCountNonFailingSlaves p).
Proof.
  intros Hp. unfold clusterCountNonFailingSlaves. quiet_step. apply quiet_count_nodes.
  intros q Hq. by eapply seen_slaves.
Qed.

Lemma quiet_sum_slaves l : (forall p, p ∈ l -> live s0 p) -> quiet (sum_slaves l).
Proof.
  induction l as [|p l IH]; intros Hl; cbn [sum_slaves]; [quiet_run|].
  assert (live s0 p) by (apply Hl; left). quiet_step. eapply safe_bind; [apply IH; intros q Hq; apply Hl; by right|].
  intros ? _. quiet_run.
Qed.

Lemma quiet_masters_have_slaves : quiet clusterMastersHaveSlaves.
Proof.
  unfold clusterMastersHaveSlaves. quiet_step.
  eapply (safe_bind _ _ _ any); [apply quiet_sum_slaves, order_live, I0|]. intros ? _. quiet_run.
Qed.

Lemma quiet_getslotbit p j : live s0 p -> quiet (clusterNodeGetSlotBit p j).
Proof. intros Hp. unfold clusterNodeGetSlotBit. quiet_run. Qed.

Lemma quiet_max_epoch l e : (forall p, p ∈ l -> live s0 p) -> quiet (max_epoch l e).
Proof.
  revert e. induction l as [|p l IH]; intros e Hl; cbn [max_epoch]; [quiet_run|].
  assert (live s0 p) by (apply Hl; left). quiet_step. apply IH. intros q Hq. apply Hl. by right.
Qed.

Lemma quiet_getmaxepoch : quiet clusterGetMaxEpoch.
Proof.
  unfold clusterGetMaxEpoch. quiet_step. eapply safe_bind; [apply quiet_max_epoch, order_live, I0|].
  intros ? _. quiet_run.
Qed.

Lemma quiet_next_epoch : quiet next_epoch.
Proof. unfold next_epoch. quiet_run. Qed.
#[local] Hint Resolve quiet_getmaxepoch quiet_next_epoch quiet_reports_count quiet_countslaves : quiet.

Lemma quiet_bump : quiet clusterBumpConfigEpochWithoutConsensus.
Proof. unfold clusterBumpConfigEpochWithoutConsensus. quiet_run. Qed.

Lemma quiet_save b : quiet (clusterSaveConfigOrDie b).
Proof. apply quiet_effect. Qed.
#[local] Hint Resolve quiet_save : quiet.

Lemma quiet_collision p : live s0 p -> quiet (clusterHandleConfigEpochCollision p).
Proof. intros Hp. unfold clusterHandleConfigEpochCollision. quiet_run. Qed.

Lemma quiet_blacklist_add p : live s0 p -> quiet (clusterBlacklistAddNode p).
Proof. intros Hp. unfold clusterBlacklistAddNode, clusterBlacklistCleanup. quiet_run. Qed.
Lemma quiet_blacklist_exists nm : quiet (clusterBlacklistExists nm).
Proof. unfold clusterBlacklistExists, clusterBlacklistCleanup. quiet_run. Qed.

Lemma quiet_send l msg : linked s0 l -> quiet (clusterSendMessage l msg).
Proof. intros Hl. unfold clusterSendMessage. quiet_run. Qed.
#[local] Hint Resolve quiet_send : quiet.

Lemma quiet_broadcast msg : quiet (clusterBroadcastMessage msg).
Proof. unfold clusterBroadcastMessage. quiet_run. Qed.
#[local] Hint Resolve quiet_broadcast : quiet.

Lemma quiet_hdr d f : quiet (clusterBuildMessageHdr d f).
Proof.
  unfold clusterBuildMessageHdr. do 2 quiet_step.
  eapply (safe_bind _ _ _ (live s0)).
  - quiet_case; apply safe_ret; [case_match|]; eauto with quiet.
  - intros mp Hmp. quiet_run.
Qed.
#[local] Hint Resolve quiet_hdr : quiet.

Lemma quiet_random_node : safe (soft s0) dictGetRandomNode (live s0).
Proof.
  unfold dictGetRandomNode. quiet_step. quiet_step.
  destruct (inv_me _ I0) as (n & En & _). apply (heap_names _ (inv_names _ I0)) in En.
  assert (Hin : c_myself s0 ∈ node_order (c_nodes s0)).
  { rewrite node_order_perm. apply list_elem_of_fmap. exists (n_name n, c_myself s0). split; [done|]. by apply elem_of_map_to_list. }
  destruct (node_order (c_nodes s0)) as [|q l] eqn:E; [by apply elem_of_nil in Hin|]. rewrite <- E in *.
  assert (Hlen : 0 < zlen (node_order (c_nodes s0))) by (rewrite E, zlen_cons; pose proof (zlen_nonneg l); lia).
  destruct (_ !! Z.to_nat _) as [p|] eqn:Ep.
  - apply safe_ret. apply list_elem_of_lookup_2 in Ep. by apply order_live in Ep.
  - apply lookup_ge_None in Ep. exfalso. unfold zlen in *. pose proof (Z.mod_pos_bound a (Z.of_nat (length (node_order (c_nodes s0)))) Hlen). lia.
Qed.
#[local] Hint Resolve quiet_random_node : quiet.

Lemma quiet_gossip_loop fuel f w acc : quiet (gossip_loop fuel f w acc).
Proof.
  revert f acc. induction fuel as [|fuel IH]; intros f acc; cbn [gossip_loop]; [quiet_run|].
  quiet_case; [|quiet_run]. do 3 quiet_step. repeat quiet_case; apply IH.
Qed.

Lemma quiet_pfail_loop l w acc : (forall p, p ∈ l -> live s0 p) -> quiet (pfail_loop l w acc).
Proof.
  revert w acc. induction l as [|p l IH]; intros w acc Hl; cbn [pfail_loop]; [quiet_run|].
  quiet_case; [|quiet_run]. assert (live s0 p) by (apply Hl; left). quiet_step.
  quiet_case; apply IH; intros q Hq; apply Hl; by right.
Qed.
#[local] Hint Resolve quiet_gossip_loop : quiet.

Lemma quiet_sendping l type : linked s0 l -> quiet (clusterSendPing l type).
Proof.
  intros Hl. unfold clusterSendPing. do 6 quiet_step.
  eapply (safe_bind _ _ _ any); [apply quiet_gossip_loop|]. intros ? _.
  eapply (safe_bind _ _ _ any); [apply quiet_pfail_loop, order_live, I0|]. intros ? _. quiet_run.
Qed.
#[local] Hint Resolve quiet_sendping : quiet.

Lemma quiet_broadcast_pong b : quiet (clusterBroadcastPong b).
Proof. unfold clusterBroadcastPong. quiet_run. Qed.

Lemma quiet_sendpublish l ch m : (forall k, l = Some k -> linked s0 k) -> quiet (clusterSendPublish l ch m).
Proof. intros Hl. unfold clusterSendPublish. quiet_run. Qed.
Lemma quiet_sendfail nm : quiet (clusterSendFail nm).
Proof. unfold clusterSendFail. quiet_run. Qed.
Lemma quiet_sendupdate l p : (forall k, l = Some k -> linked s0 k) -> live s0 p -> quiet (clusterSendUpdate l p).
Proof. intros Hl Hp. unfold clusterSendUpdate. quiet_run. Qed.
Lemma quiet_sendmodule l i t pl len : (forall k, l = Some k -> linked s0 k) -> quiet (clusterSendModule l i t pl len).
Proof. intros Hl. unfold clusterSendModule. quiet_run. Qed.
#[local] Hint Resolve quiet_sendmodule : quiet.
Lemma quiet_module_target t i ty pl len : quiet (clusterSendModuleMessageToTarget t i ty pl len).
Proof.
  unfold clusterSendModuleMessageToTarget. quiet_case;
    [|eapply (safe_bind _ _ _ any); [by apply quiet_sendmodule|intros ? _; quiet_run]]. quiet_step. quiet_case; [|quiet_run].
  quiet_step. quiet_case; [|quiet_run]. eapply (safe_bind _ _ _ any); [|intros ? _; quiet_run].
  apply quiet_sendmodule. intros k [= <-]. eauto with quiet.
Qed.
Lemma quiet_request : quiet clusterRequestFailoverAuth.
Proof. unfold clusterRequestFailoverAuth. quiet_run. Qed.
Lemma quiet_sendempty p d : live s0 p -> quiet (clusterSendEmpty p d).
Proof. intros Hp. unfold clusterSendEmpty. quiet_run. Qed.
End SoftOps2.

#[export] Hint Resolve quiet_reports_count quiet_countslaves quiet_masters_have_slaves quiet_getslotbit quiet_bump quiet_save
  quiet_collision quiet_blacklist_add quiet_blacklist_exists quiet_send quiet_broadcast quiet_hdr quiet_random_node
  quiet_sendping quiet_broadcast_pong quiet_sendpublish quiet_sendfail quiet_module_target quiet_request quiet_sendempty : quiet.

Section SoftOps3.
Context `{World} `{!WorldLaws} (s0 : server) (I0 : inv s0).
Abbreviation quiet m := (safe (soft s0) m any).

Lemma quiet_markfailing p : live s0 p -> quiet (markNodeAsFailingIfNeeded p).
Proof. intros Hp. unfold markNodeAsFailingIfNeeded. quiet_run. Qed.

(** The assertion holds where the flag was just tested. *)
Lemma quiet_clearfailure p s n : soft s0 s -> heap s !! p = Some n -> nodeFailed n = true ->
  wp (clearNodeFailureIfNeeded p) (fun _ s' => soft s0 s' /\ True) s.
Proof.
  intros Ss En Hf. assert (live s0 p) by (apply (soft_live _ _ _ Ss); by exists n).
  unfold clearNodeFailureIfNeeded. apply wp_bind. unfold now, gets at 1, wp at 1. apply wp_bind, wp_rd. exists n. split; [done|].
  rewrite Hf. apply wp_bind. cbn [serverAssert]. apply wp_ret. revert s Ss En. intros s Ss _.
  assert (Hq : quiet (_ ← when (nodeIsSlave n || (n_numslots n =? 0))
    (_ ← del_flags p CLUSTER_NODE_FAIL;
     clusterDoBeforeSleep (Z.lor CLUSTER_TODO_UPDATE_STATE CLUSTER_TODO_SAVE_CONFIG));
    n ← rd p;
    timeout ← cfg cluster_node_timeout;
    when (nodeIsMaster n && (n_numslots n >? 0) && (mstime (s_clock s) - n_fail_time n >? timeout * CLUSTER_FAIL_UNDO_TIME_MULT))
      (_ ← del_flags p CLUSTER_NODE_FAIL;
       clusterDoBeforeSleep (Z.lor CLUSTER_TODO_UPDATE_STATE CLUSTER_TODO_SAVE_CONFIG)))) by quiet_run.
  by apply Hq.
Qed.

Lemma quiet_pong l : linked s0 l -> quiet (process_pong l).
Proof.
  intros Hl. unfold process_pong. quiet_step. quiet_case; [|quiet_run].
  assert (Hp : live s0 p) by eauto with quiet. do 2 quiet_step. intros s Ss. apply wp_bind, wp_rd.
  destruct (proj2 (soft_live _ _ p Ss) Hp) as [n En]. exists n. split; [done|].
  destruct (nodeTimedOut n).
  - assert (Hq : quiet (_ ← del_flags p CLUSTER_NODE_PFAIL;
      clusterDoBeforeSleep (Z.lor CLUSTER_TODO_SAVE_CONFIG CLUSTER_TODO_UPDATE_STATE))) by quiet_run. by apply Hq.
  - apply wp_when; [|done]. intros Hf. by eapply quiet_clearfailure.
Qed.

Lemma quiet_find_handshake ip a b l : (forall p, p ∈ l -> live s0 p) -> quiet (find_handshake ip a b l).
Proof.
  induction l as [|p l IH]; intros Hl; cbn [find_handshake]; [quiet_run|].
  assert (live s0 p) by (apply Hl; left). quiet_step. quiet_case; [quiet_run|]. apply IH. intros q Hq. apply Hl. by right.
Qed.
Lemma quiet_handshake_in_progress ip a b : quiet (clusterHandshakeInProgress ip a b).
Proof. unfold clusterHandshakeInProgress. quiet_step. apply quiet_find_handshake, order_live, I0. Qed.

Lemma quiet_resetmf : quiet resetManualFailover.
Proof. unfold resetManualFailover. quiet_run. Qed.
Lemma quiet_countkeys j : quiet (countKeysInSlot j).
Proof. apply quiet_gets. Qed.
Lemma quiet_delkeys j : quiet (delKeysInSlot j).
Proof. unfold delKeysInSlot. quiet_run. Qed.

Lemma quiet_uncovered js : quiet (uncovered js).
Proof.
  induction js as [|j js IH]; cbn [uncovered]; [quiet_run|]. quiet_step. quiet_case; [|quiet_run]. quiet_step.
  quiet_case; [quiet_run|apply IH].
Qed.
Lemma quiet_count_masters l : (forall p, p ∈ l -> live s0 p) -> quiet (count_masters l).
Proof.
  induction l as [|p l IH]; intros Hl; cbn [count_masters]; [quiet_run|].
  assert (live s0 p) by (apply Hl; left). quiet_step. eapply safe_bind; [apply IH; intros q Hq; apply Hl; by right|].
  intros [??] _. quiet_run.
Qed.
#[local] Hint Resolve quiet_uncovered quiet_countkeys quiet_delkeys quiet_resetmf quiet_markfailing quiet_handshake_in_progress : quiet.

Lemma quiet_updatestate : quiet clusterUpdateState.
Proof.
  unfold clusterUpdateState. do 7 quiet_step. quiet_case; [quiet_run|]. do 3 quiet_step.
  eapply (safe_bind _ _ _ any); [apply quiet_count_masters, order_live, I0|]. intros [size reach] _. quiet_run.
Qed.

Lemma quiet_refused cl e js : quiet (refused cl e js).
Proof.
  induction js as [|j js IH]; cbn [refused]; [quiet_run|]. quiet_case; [apply IH|]. quiet_step. quiet_case; [|apply IH].
  quiet_step. quiet_case; [apply IH|quiet_run].
Qed.
#[local] Hint Resolve quiet_refused quiet_updatestate : quiet.

Lemma quiet_auth_if_needed p hdr : live s0 p -> quiet (clusterSendFailoverAuthIfNeeded p hdr).
Proof. intros Hp. unfold clusterSendFailoverAuthIfNeeded, clusterSendFailoverAuth. quiet_run. Qed.

Lemma quiet_count_better me o l : (forall p, p ∈ l -> live s0 p) -> quiet (count_better me o l).
Proof.
  induction l as [|p l IH]; intros Hl; cbn [count_better]; [quiet_run|].
  assert (live s0 p) by (apply Hl; left). quiet_step. eapply safe_bind; [apply IH; intros q Hq; apply Hl; by right|].
  intros ? _. quiet_run.
Qed.

(** Only a replica has a rank. *)
Lemma quiet_rank n0 : heap s0 !! c_myself s0 = Some n0 -> nodeIsSlave n0 = true -> quiet clusterGetSlaveRank.
Proof.
  intros E0 Hs. unfold clusterGetSlaveRank. do 2 quiet_step.
  destruct Hr as (n1 & E1 & Sh). rewrite E0 in E1. injection E1 as <-.
  pose proof (shape_role _ _ Sh) as (_ & E & _). eapply (safe_bind _ _ _ any); [apply safe_assert; congruence|]. intros ? _.
  assert (Hr : seen s0 a (c_myself s0)) by (by exists n0).
  quiet_case; [|quiet_run]. do 2 quiet_step. apply quiet_count_better. intros q Hq. by eapply seen_slaves.
Qed.

Lemma quiet_logcant r : quiet (clusterLogCantFailover r).
Proof. unfold clusterLogCantFailover. quiet_run. Qed.
Lemma quiet_data_age : quiet data_age.
Proof. unfold data_age. quiet_run. Qed.
Lemma quiet_start_election : quiet start_election.
Proof. unfold start_election. quiet_run. Qed.

Lemma quiet_schedule n0 : heap s0 !! c_myself s0 = Some n0 -> nodeIsSlave n0 = true -> quiet schedule_election.
Proof.
  intros E0 Hs. unfold schedule_election. do 5 quiet_step.
  eapply (safe_bind _ _ _ any); [by eapply quiet_rank|]. intros ? _. quiet_run.
Qed.
Lemma quiet_update_rank n0 : heap s0 !! c_myself s0 = Some n0 -> nodeIsSlave n0 = true -> quiet update_rank.
Proof.
  intros E0 Hs. unfold update_rank. do 3 quiet_step.
  eapply (safe_bind _ _ _ any); [by eapply quiet_rank|]. intros ? _. quiet_run.
Qed.

(** A replica that can fail over its master. *)
Lemma quiet_can_failover b : safe (soft s0) (can_failover b)
  (fun ok => ok = true -> exists n0, heap s0 !! c_myself s0 = Some n0 /\ nodeIsSlave n0 = true).
Proof.
  unfold can_failover. do 3 quiet_step. quiet_case; [|by apply safe_ret]. quiet_step. apply safe_ret.
  intros E. apply negb_true_iff in E. zbool. destruct Hr as (n0 & E0 & Sh). exists n0. split; [done|].
  pose proof (inv_roles _ I0 _ _ E0) as Ro. apply (role_ok_shape _ _ Sh) in Ro.
  apply shape_role in Sh as (_ & <- & Eh). unfold role_ok in Ro. destruct (nodeInHandshake a); [destruct Ro as (_ & _ & ? & _); congruence|].
  destruct Ro as [Ro _]. destruct (nodeIsSlave a); [done|]. cbn in Ro. congruence.
Qed.

Lemma quiet_update_sender p hdr : live s0 p -> quiet (update_sender p hdr).
Proof. intros Hp. unfold update_sender. quiet_run. Qed.

Lemma quiet_send_update p hdr e js : live s0 p -> quiet (send_update p hdr e js).
Proof.
  intros Hp. induction js as [|j js IH]; cbn [send_update]; [quiet_run|]. quiet_case; [apply IH|]. quiet_step.
  quiet_case; [|apply IH]. quiet_case; [apply IH|]. quiet_step. quiet_case; [|apply IH]. quiet_step.
  apply quiet_sendupdate; eauto with quiet.
Qed.

Lemma quiet_process_fail o nm : quiet (process_fail o nm).
Proof. unfold process_fail. quiet_run. Qed.
Lemma quiet_auth_ack p e : live s0 p -> quiet (process_auth_ack p e).
Proof. intros Hp. unfold process_auth_ack. quiet_run. Qed.
Lemma quiet_mfstart p : live s0 p -> quiet (process_mfstart p).
Proof. intros Hp. unfold process_mfstart. quiet_run. Qed.

Lemma quiet_smaller sl c : (forall q, q ∈ sl -> live s0 q) -> live s0 c -> safe (soft s0) (smaller_name sl c) (live s0).
Proof.
  revert c. induction sl as [|q sl IH]; intros c Hl Hc; cbn [smaller_name]; [by apply safe_ret|].
  assert (live s0 q) by (apply Hl; left). do 2 quiet_step. apply IH; [intros x Hx; apply Hl; by right|]. by case_match.
Qed.

(** The target is a node that serves slots and is not a replica. *)
Lemma quiet_migration_loop ms l t c :
  (forall p, p ∈ l -> live s0 p) -> live s0 c ->
  (forall p, t = Some p -> exists n, heap s0 !! p = Some n /\ nodeIsSlave n = false /\ n_numslots n > 0) ->
  safe (soft s0) (migration_loop ms l t c) (fun r => forall p, r.1 = Some p ->
    exists n, heap s0 !! p = Some n /\ nodeIsSlave n = false /\ n_numslots n > 0).
Proof.
  revert t c. induction l as [|p l IH]; intros t c Hl Hc Ht; cbn [migration_loop]; [by apply safe_ret|].
  assert (Hp : live s0 p) by (apply Hl; left). quiet_step. quiet_step. quiet_step. cbv zeta.
  eapply (safe_bind _ _ _ any); [quiet_run|]. intros ? _.
  eapply (safe_bind _ _ _ (live s0)).
  - quiet_case; [apply quiet_smaller; [|done]|by apply safe_ret]. intros q Hq. by eapply seen_slaves.
  - intros c' Hc'. apply IH; [intros q Hq; apply Hl; by right|done|]. intros q. destruct t as [q'|]; [apply Ht|].
    destruct (_ && (n_numslots a >? 0)) eqn:E; [|done]. intros [= <-]. zbool.
    destruct Hr as (n0 & E0 & Sh). exists n0. pose proof (shape_role _ _ Sh) as (_ & <- & _).
    apply shape_fields in Sh as (_ & _ & _ & <- & _). split; [done|]. split; [done|lia].
Qed.

Lemma quiet_mf_timeout : quiet manualFailoverCheckTimeout.
Proof. unfold manualFailoverCheckTimeout. quiet_run. Qed.
Lemma quiet_handle_mf : quiet clusterHandleManualFailover.
Proof. unfold clusterHandleManualFailover. quiet_run. Qed.

Lemma quiet_myself_flags : quiet clusterUpdateMyselfFlags.
Proof.
  unfold clusterUpdateMyselfFlags. do 3 quiet_step. cbv zeta.
  eapply (safe_bind _ _ _ any); [|intros ? _; quiet_run]. apply quiet_upd; [apply me_live, I0| |done].
  intros n (n1 & E1 & Sh1). destruct Hr as (n0 & E0 & Sh). rewrite E0 in E1. injection E1 as <-.
  rewrite <- Sh in Sh1. assert (Er : roles (n_flags n) = roles (n_flags a)) by (by apply shape_fields in Sh1 as (_ & -> & _)).
  unfold shape. cbn. rewrite roles_setf, roles_clrf by (try done; by case_match). by rewrite Er.
Qed.

Lemma quiet_announce_ip : quiet cron_announce_ip.
Proof. unfold cron_announce_ip. quiet_run. Qed.

Lemma quiet_min_pong k m : (forall p t, m = Some (p, t) -> live s0 p /\ exists n, heap s0 !! p = Some n /\ n_link n <> None) ->
  safe (soft s0) (min_pong_loop k m)
    (fun r => forall p t, r = Some (p, t) -> live s0 p /\ exists n, heap s0 !! p = Some n /\ n_link n <> None).
Proof.
  revert m. induction k as [|k IH]; intros m Hm; cbn [min_pong_loop]; [by apply safe_ret|]. do 2 quiet_step.
  apply IH. destruct (_ || _) eqn:Eb; [done|]. zbool.
  assert (Hp : live s0 a /\ exists n, heap s0 !! a = Some n /\ n_link n <> None).
  { destruct Hr0 as (n0 & E0 & Sh). split; [by exists n0|]. exists n0. split; [done|].
    apply shape_fields in Sh as (_ & _ & _ & _ & _ & _ & <-). by eapply bool_decide_eq_false_1. }
  intros p t. destruct m as [[q u]|]; [case_match|]; intros [= <- <-]; try done. by eapply Hm.
Qed.

Lemma quiet_random_ping : quiet cron_random_ping.
Proof.
  unfold cron_random_ping. quiet_step. quiet_step. eapply safe_bind; [by apply quiet_min_pong|]. intros [[p t]|] Hm; [|quiet_run].
  destruct (Hm _ _ eq_refl) as (Hp & n & En & Hl). quiet_step.
  destruct Hr as (n0 & E0 & Sh). assert (Hs : seen s0 a0 p) by (by exists n0). rewrite En in E0. injection E0 as <-.
  apply shape_fields in Sh as (_ & _ & _ & _ & _ & _ & El). destruct (n_link a0) as [l|] eqn:E; [|congruence]. cbn [deref]. quiet_run.
Qed.

Lemma quiet_pfail p : live s0 p -> quiet (cron_pfail p).
Proof. intros Hp. unfold cron_pfail. quiet_run. Qed.

Lemma quiet_orphans p x : live s0 p -> quiet (cron_orphans p x).
Proof. intros Hp. unfold cron_orphans. quiet_run. Qed.

Lemma quiet_enable_replication : quiet cron_enable_replication.
Proof. unfold cron_enable_replication. quiet_run. Qed.

Lemma quiet_check_slots d js seen0 : quiet (check_slots d js seen0).
Proof.
  revert seen0. induction js as [|j js IH]; intros seen0; cbn [check_slots]; [quiet_run|]. quiet_case; [quiet_run|]. quiet_step.
  repeat quiet_case; try apply IH; quiet_run.
Qed.
End SoftOps3.

#[export] Hint Resolve quiet_markfailing quiet_pong quiet_handshake_in_progress quiet_resetmf quiet_countkeys quiet_delkeys
  quiet_updatestate quiet_auth_if_needed quiet_logcant quiet_data_age quiet_start_election quiet_update_sender quiet_send_update
  quiet_process_fail quiet_auth_ack quiet_mfstart quiet_mf_timeout quiet_handle_mf quiet_myself_flags quiet_announce_ip
  quiet_random_ping quiet_pfail quiet_orphans quiet_enable_replication quiet_check_slots : quiet.
End ClusterInv.
