(* ===== verification/ClusterSafe.v ===== *)
(** * The handlers of the cluster keep the state well formed (cluster.c)

    Every operation that changes the slot table, the roles, the links or the table
    of nodes keeps the invariant of [ClusterInv], and so do the handlers built from
    them. *)

From Stdlib Require Import String Ascii.
From stdpp Require Import strings pmap.
From S2P Require Import Prelude Cluster ClusterInv.

Module ClusterSafe.
Import Cluster ClusterInv.

Section Structure.
Context `{World} `{!WorldLaws}.

(** ** Slots *)

(** What the slot operations leave alone. *)
Definition slotless (n : clusterNode) :=
  (n_name n, roles (n_flags n), n_slaves n, n_slaveof n, n_link n).

Lemma slotless_fields n n0 : slotless n = slotless n0 ->
  n_name n = n_name n0 /\ roles (n_flags n) = roles (n_flags n0) /\ n_slaves n = n_slaves n0 /\
  n_slaveof n = n_slaveof n0 /\ n_link n = n_link n0.
Proof. intros E. unfold slotless in E. repeat apply pair_eq in E as [E ?]. done. Qed.

Lemma slotless_roles n n0 : slotless n = slotless n0 ->
  nodeIsMaster n = nodeIsMaster n0 /\ nodeIsSlave n = nodeIsSlave n0 /\ nodeInHandshake n = nodeInHandshake n0.
Proof. intros (_ & E & _)%slotless_fields. by apply roles_fields. Qed.

Record slotsame (s t : server) : Prop := {
  ss_me : c_myself t = c_myself s;
  ss_nodes : c_nodes t = c_nodes s;
  ss_importing : c_importing_slots_from t = c_importing_slots_from s;
  ss_migrating : c_migrating_slots_to t = c_migrating_slots_to s;
  ss_links : links t = links s;
  ss_names : names_drawn (s_draws t) = names_drawn (s_draws s);
  ss_heap : agree slotless (heap s) (heap t);
  ss_reports p n : heap t !! p = Some n -> reports_ok (heap s) n
}.

Lemma slotsame_refl s : inv s -> slotsame s s.
Proof. intros I. split; try done. intros p n. apply (reports_ptr _ (inv_ptrs _ I)). Qed.
Lemma slotsame_live s t p : slotsame s t -> is_Some (heap t !! p) <-> is_Some (heap s !! p).
Proof. intros S. apply (agree_live _ _ _ (ss_heap _ _ S)). Qed.
Lemma slotsame_trans s t u : slotsame s t -> slotsame t u -> slotsame s u.
Proof.
  intros S1 S2. split; try (etrans; [by apply S2|by apply S1]).
  - eapply agree_trans; [by apply S1|by apply S2].
  - intros p n E. destruct (ss_reports _ _ S2 p n E) as [R1 R2]. split; [done|]. intros r Hr. by apply (slotsame_live _ _ _ S1), R2.
Qed.
Lemma soft_slotsame s t : soft s t -> slotsame s t.
Proof.
  intros S. split; try apply S. eapply agree_sub; [|by apply S]. unfold slotless.
  by intros n n' (-> & -> & _ & _ & -> & -> & ->)%shape_fields.
Qed.

(** After a change of slots, only what is about slots is to be shown. *)
Lemma inv_slotsame s t : inv s -> slotsame s t -> slots_inv (c_slots t) (heap t) ->
  (forall p n, heap t !! p = Some n -> nodeInHandshake n = true -> n_numslots n = 0) ->
  (forall n, heap t !! c_myself t = Some n -> nodeIsSlave n = true -> n_numslots n = 0) -> inv t.
Proof.
  intros I S HS HH HM. pose proof (ss_heap _ _ S) as A. pose proof (fun C g Hg => agree_sub (C := C) slotless g _ _ Hg A) as A'. split.
  - eapply names_same; [by apply I|by apply S..|]. apply A'. by intros n n' [-> _]%slotless_fields.
  - done.
  - eapply repl_same; [by apply I|]. apply A'. by intros n n' (_ & _ & -> & -> & _)%slotless_fields.
  - intros p n E. pose proof (HH _ _ E) as Hn. apply (agree_l _ _ _ A) in E as (n0 & E0 & Sh).
    pose proof (inv_roles _ I _ _ E0) as Ro. pose proof (slotless_roles _ _ Sh) as (R1 & R2 & R3).
    apply slotless_fields in Sh as (_ & _ & _ & R4 & _). unfold role_ok in *. rewrite <- R1, <- R2, <- R3, <- R4 in Ro.
    destruct (nodeInHandshake n); [|done]. destruct Ro as (? & ? & ? & _). auto.
  - rewrite (ss_links _ _ S). eapply links_same; [by apply I|]. apply A'. by intros n n' (_ & _ & _ & _ & ->)%slotless_fields.
  - eapply ptrs_same; [by apply I|..].
    + intros p. apply (agree_live _ _ _ A).
    + by rewrite (ss_importing _ _ S).
    + by rewrite (ss_migrating _ _ S).
    + intros p n. apply (ss_reports _ _ S).
  - destruct (inv_me _ I) as (m & Em & Hm & Hs). apply (agree_r _ _ _ A) in Em as (m' & Em' & Sh).
    rewrite <- (ss_me _ _ S) in Em'. exists m'. split; [done|]. pose proof (slotless_roles _ _ Sh) as (_ & R2 & R3).
    apply slotless_fields in Sh as (_ & _ & _ & R4 & _). rewrite R3. split; [done|]. intros Hsl. split; [by apply HM|].
    rewrite R2 in Hsl. destruct (Hs Hsl) as (_ & x & nx & Ex & Enx & Hx). apply (agree_r _ _ _ A) in Enx as (nx' & Enx' & Sh').
    exists x, nx'. rewrite R4. split; [done|]. split; [done|]. by apply slotless_roles in Sh' as (_ & _ & ->).
Qed.

(** A slot of a node, and nothing else, changes in the bitmaps. *)
Lemma slots_inv_insert sl h p n n' j sl' :
  slots_inv sl h -> h !! p = Some n -> slot_ok j ->
  bitmap_ok (n_slots n') -> n_numslots n' = popcount (n_slots n') ->
  (forall i, slot_ok i -> i <> j -> bitmapTestBit (n_slots n') i = bitmapTestBit (n_slots n) i) ->
  (forall i, i <> j -> sl' !! i = sl !! i) ->
  (forall q, sl' !! j = Some q <-> exists m, <[p := n']> h !! q = Some m /\ bitmapTestBit (n_slots m) j = true) ->
  slots_inv sl' (<[p := n']> h).
Proof.
  intros [B1 B2] E Hj Hb Hc Hi Hsl Hj'. split.
  - intros q m Eq. destruct (decide (p = q)) as [->|Hne].
    + rewrite lookup_insert_eq in Eq. by injection Eq as <-.
    + rewrite lookup_insert_ne in Eq by done. by apply (B1 q).
  - intros i q. destruct (decide (i = j)) as [->|Hij].
    + rewrite Hj'. split; [by intros; split|by intros [_ ?]].
    + rewrite Hsl, B2 by done. split.
      * intros (Hok & m & Em & T). split; [done|]. destruct (decide (p = q)) as [->|Hne].
        -- exists n'. rewrite lookup_insert_eq. split; [done|]. rewrite E in Em. injection Em as <-. by rewrite Hi.
        -- exists m. by rewrite lookup_insert_ne.
      * intros (Hok & m & Em & T). split; [done|]. destruct (decide (p = q)) as [->|Hne].
        -- rewrite lookup_insert_eq in Em. injection Em as <-. exists n. by rewrite <- Hi.
        -- rewrite lookup_insert_ne in Em by done. by exists m.
Qed.

(** Reading leaves the state as it is. *)
Lemma wp_sum_slaves l s : (forall p, p ∈ l -> is_Some (heap s !! p)) -> wp (sum_slaves l) (fun _ s' => s' = s) s.
Proof.
  induction l as [|p l IH]; intros Hl; cbn [sum_slaves]; [done|]. destruct (Hl p ltac:(left)) as [n E].
  apply wp_bind, wp_rd. exists n. split; [done|]. apply wp_bind. eapply wp_mono; [apply IH; intros q Hq; apply Hl; by right|].
  by intros c s' ->.
Qed.

Lemma wp_masters_have_slaves s : (forall p, p ∈ node_order (c_nodes s) -> is_Some (heap s !! p)) ->
  wp clusterMastersHaveSlaves (fun _ s' => s' = s) s.
Proof.
  intros Hl. unfold clusterMastersHaveSlaves. apply wp_bind. unfold all_nodes, wp at 1, gets.
  apply wp_bind. eapply wp_mono; [by apply wp_sum_slaves|]. by intros c s' ->.
Qed.

Lemma slotsame_insert s p n n' sl : inv s -> heap s !! p = Some n -> slotless n' = slotless n ->
  n_fail_reports n' = n_fail_reports n -> slotsame s (set_c_slots sl (set_heap (<[p := n']> (heap s)) s)).
Proof.
  intros I E Sh Hf. split; try done; [by eapply agree_insert|]. cbn. intros q m Em.
  destruct (decide (p = q)) as [->|Hne].
  - rewrite lookup_insert_eq in Em. injection Em as <-. unfold reports_ok. rewrite Hf. by eapply (reports_ptr _ (inv_ptrs _ I)).
  - rewrite lookup_insert_ne in Em by done. by eapply (reports_ptr _ (inv_ptrs _ I)).
Qed.

(** Give a free slot to a node, take a slot away from its node. *)
Lemma inv_bind_slot s p n n' j : inv s -> heap s !! p = Some n -> slot_ok j -> c_slots s !! j = None ->
  nodeInHandshake n = false -> (p = c_myself s -> nodeIsSlave n = false) ->
  slotless n' = slotless n -> n_fail_reports n' = n_fail_reports n -> n_slots n' = bitmapSetBit (n_slots n) j -> n_numslots n' = n_numslots n + 1 ->
  let t := set_c_slots (<[j := p]> (c_slots s)) (set_heap (<[p := n']> (heap s)) s) in inv t /\ slotsame s t.
Proof.
  intros I E Hj Ej Hh Hme Sh Hf Es En t. destruct (bitmaps_ok _ _ (inv_slots _ I) _ _ E) as [Hb Hc].
  assert (Hfree : forall q m, heap s !! q = Some m -> bitmapTestBit (n_slots m) j = false).
  { intros q m Em. destruct (bitmapTestBit (n_slots m) j) eqn:Eb; [|done].
    assert (Ej' : c_slots s !! j = Some q) by (apply (slots_bits _ _ (inv_slots _ I)); eauto). congruence. }
  assert (SS : slotsame s t) by (by eapply slotsame_insert).
  split; [|done]. eapply inv_slotsame; [done|done|..]; cbn.
  - eapply slots_inv_insert; [by apply I|done|done|..].
    + rewrite Es. by apply bitmap_ok_set.
    + rewrite Es, En, Hc. by rewrite popcount_set by eauto.
    + intros i Hi Hij. rewrite Es, testbit_set by done. by rewrite decide_False by congruence.
    + intros i Hij. by rewrite lookup_insert_ne.
    + intros q. rewrite lookup_insert_eq. split.
      * intros [= <-]. exists n'. rewrite lookup_insert_eq. split; [done|]. by rewrite Es, testbit_set, decide_True by done.
      * intros (m & Em & T). destruct (decide (p = q)) as [->|Hne]; [done|]. rewrite lookup_insert_ne in Em by done.
        apply Hfree in Em. congruence.
  - intros q m Em Hq. destruct (decide (p = q)) as [->|Hne].
    + rewrite lookup_insert_eq in Em. injection Em as <-. apply slotless_roles in Sh as (_ & _ & Sh). congruence.
    + rewrite lookup_insert_ne in Em by done. pose proof (inv_roles _ I _ _ Em) as Ro. unfold role_ok in Ro. rewrite Hq in Ro. apply Ro.
  - intros m Em Hm. destruct (decide (p = c_myself s)) as [->|Hne].
    + rewrite lookup_insert_eq in Em. injection Em as <-. apply slotless_roles in Sh as (_ & Sh & _). rewrite Hme in Sh by done. congruence.
    + rewrite lookup_insert_ne in Em by done. destruct (inv_me _ I) as (m' & Em' & _ & Hs). rewrite Em in Em'. injection Em' as <-. by apply Hs.
Qed.

Lemma inv_unbind_slot s p n n' j : inv s -> heap s !! p = Some n -> c_slots s !! j = Some p ->
  slotless n' = slotless n -> n_fail_reports n' = n_fail_reports n -> n_slots n' = bitmapClearBit (n_slots n) j -> n_numslots n' = n_numslots n - 1 ->
  let t := set_c_slots (delete j (c_slots s)) (set_heap (<[p := n']> (heap s)) s) in inv t /\ slotsame s t.
Proof.
  intros I E Ej Sh Hf Es En t. destruct (bitmaps_ok _ _ (inv_slots _ I) _ _ E) as [Hb Hc].
  pose proof Ej as Ej'. apply (slots_bits _ _ (inv_slots _ I)) in Ej' as (Hj & n1 & E1 & Eb). rewrite E in E1. injection E1 as <-.
  assert (Hpos : n_numslots n <> 0). { intros E0. rewrite Hc in E0. apply (popcount_zero _ j) in E0; [congruence|done]. }
  assert (SS : slotsame s t) by (by eapply slotsame_insert).
  split; [|done]. eapply inv_slotsame; [done|done|..]; cbn.
  - eapply slots_inv_insert; [by apply I|done|done|..].
    + rewrite Es. by apply bitmap_ok_clear.
    + rewrite Es, En, Hc. by rewrite popcount_clear.
    + intros i Hi Hij. rewrite Es, testbit_clear by done. by rewrite decide_False by congruence.
    + intros i Hij. by rewrite lookup_delete_ne.
    + intros q. rewrite lookup_delete_eq. split; [done|]. intros (m & Em & T). destruct (decide (p = q)) as [->|Hne].
      * rewrite lookup_insert_eq in Em. injection Em as <-. by rewrite Es, testbit_clear, decide_True in T by done.
      * rewrite lookup_insert_ne in Em by done.
        assert (Ej' : c_slots s !! j = Some q) by (apply (slots_bits _ _ (inv_slots _ I)); eauto). congruence.
  - intros q m Em Hq. destruct (decide (p = q)) as [->|Hne].
    + rewrite lookup_insert_eq in Em. injection Em as <-. apply slotless_roles in Sh as (_ & _ & Sh).
      pose proof (inv_roles _ I _ _ E) as Ro. unfold role_ok in Ro. rewrite <- Sh, Hq in Ro. destruct Ro as (_ & _ & _ & ?). congruence.
    + rewrite lookup_insert_ne in Em by done. pose proof (inv_roles _ I _ _ Em) as Ro. unfold role_ok in Ro. rewrite Hq in Ro. apply Ro.
  - destruct (inv_me _ I) as (m' & Em' & _ & Hs). intros m Em Hm. destruct (decide (p = c_myself s)) as [->|Hne].
    + rewrite lookup_insert_eq in Em. injection Em as <-. apply slotless_roles in Sh as (_ & Sh & _).
      rewrite E in Em'. injection Em' as <-. destruct Hs as [? _]; congruence.
    + rewrite lookup_insert_ne in Em by done. rewrite Em in Em'. injection Em' as <-. by apply Hs.
Qed.

Lemma wp_addslot s p n j : inv s -> heap s !! p = Some n -> slot_ok j -> nodeInHandshake n = false ->
  (p = c_myself s -> nodeIsSlave n = false) ->
  wp (clusterAddSlot p j) (fun r s' => inv s' /\ slotsame s s' /\ r = bool_decide (c_slots s !! j = None) /\
    c_slots s' = match c_slots s !! j with Some _ => c_slots s | None => <[j := p]> (c_slots s) end) s.
Proof.
  intros I E Hj Hh Hme. unfold clusterAddSlot. apply wp_bind. unfold gets, wp at 1.
  destruct (c_slots s !! j) as [q|] eqn:Ej.
  { apply wp_ret. split; [done|]. by split; [by apply slotsame_refl|]. }
  assert (Eb : bitmapTestBit (n_slots n) j = false).
  { destruct (bitmapTestBit (n_slots n) j) eqn:Eb; [|done].
    assert (Ej' : c_slots s !! j = Some p) by (apply (slots_bits _ _ (inv_slots _ I)); eauto). congruence. }
  pose proof (fun n' => inv_bind_slot s p n n' j I E Hj Ej Hh Hme) as Hinv.
  apply wp_bind. unfold clusterNodeSetSlotBit. apply wp_bind, wp_rd. exists n. split; [done|]. rewrite Eb. cbv zeta.
  apply wp_bind, wp_upd. exists n. split; [done|]. apply wp_bind. cbn [negb when].
  apply wp_bind, wp_upd. eexists. split; [cbn; apply lookup_insert_eq|]. cbn [heap set_heap]. rewrite insert_insert_eq.
  set (n1 := set_n_numslots (n_numslots n + 1) (set_n_slots (bitmapSetBit (n_slots n) j) n)).
  destruct (Hinv n1) as [I1 S1]; [done..|].
  apply wp_when; [intros _; apply wp_bind; eapply wp_mono; [apply wp_masters_have_slaves|]|intros _].
  - cbn [c_nodes heap set_heap]. intros q Hq. apply (order_live s I) in Hq as [m Em]. destruct (decide (p = q)) as [->|Hne].
    + rewrite lookup_insert_eq. eauto.
    + rewrite lookup_insert_ne by done. eauto.
  - intros have s' ->. destruct have; cbn [when].
    + unfold add_flags. apply wp_upd. exists n1. split; [apply lookup_insert_eq|]. apply wp_ret, wp_bind. unfold modify, wp at 1. apply wp_ret.
      cbn [c_slots heap set_heap]. rewrite insert_insert_eq.
      destruct (Hinv (set_n_flags (setf (n_flags n1) CLUSTER_NODE_MIGRATE_TO) n1)) as [I' S']; [|done..|].
      * unfold slotless. cbn. by rewrite roles_setf.
      * split; [exact I'|]. by split; [exact S'|].
    + apply wp_ret, wp_ret, wp_bind. unfold modify, wp at 1. apply wp_ret. by split; [exact I1|]; split; [exact S1|].
  - apply wp_ret, wp_bind. unfold modify, wp at 1. apply wp_ret. by split; [exact I1|]; split; [exact S1|].
Qed.

(** The assertion of [clusterDelSlot] holds. *)
Lemma wp_delslot s j : inv s ->
  wp (clusterDelSlot j) (fun r s' => inv s' /\ slotsame s s' /\ c_slots s' = delete j (c_slots s) /\
    r = bool_decide (is_Some (c_slots s !! j))) s.
Proof.
  intros I. unfold clusterDelSlot. apply wp_bind. unfold gets, wp at 1.
  destruct (c_slots s !! j) as [p|] eqn:Ej.
  2: { apply wp_ret. split; [done|]. split; [by apply slotsame_refl|]. split; [by rewrite delete_id|].
       symmetry. apply bool_decide_eq_false. by intros [? ?]. }
  pose proof Ej as Ej'. apply (slots_bits _ _ (inv_slots _ I)) in Ej' as (Hj & n & E & Eb).
  apply wp_bind. unfold clusterNodeClearSlotBit. apply wp_bind, wp_rd. exists n. split; [done|]. rewrite Eb. cbv zeta.
  apply wp_bind, wp_upd. exists n. split; [done|]. apply wp_bind. cbn [when].
  apply wp_upd. eexists. split; [cbn; apply lookup_insert_eq|]. cbn [heap set_heap]. rewrite insert_insert_eq.
  apply wp_ret, wp_bind. cbn [serverAssert]. apply wp_ret, wp_bind. unfold modify, wp at 1. apply wp_ret.
  destruct (inv_unbind_slot s p n (set_n_numslots (n_numslots n - 1) (set_n_slots (bitmapClearBit (n_slots n) j) n)) j) as [I' S']; [done..|].
  split; [exact I'|]. split; [exact S'|]. split; [done|]. symmetry. by apply bool_decide_eq_true.
Qed.

(** ** Loops over the slots *)

Definition Rslot (s0 s : server) : Prop := inv s /\ slotsame s0 s.

Lemma Rslot_refl s : inv s -> Rslot s s.
Proof. intros I. split; [done|by apply slotsame_refl]. Qed.

(** Quiet programs fit. *)
Lemma slot_quiet {A} s0 (m : M A) Q : (forall s, Rslot s0 s -> safe (soft s) m Q) -> safe (Rslot s0) m Q.
Proof.
  intros Hm. apply (safe_lift soft); [by intros s [I _]; apply soft_refl| |done].
  intros s t [I S] St. split; [by eapply inv_soft|]. eapply slotsame_trans; [done|by apply soft_slotsame].
Qed.

Lemma Rslot_live s0 s p : Rslot s0 s -> live s0 p -> live s p.
Proof. intros [_ S]. apply (slotsame_live _ _ _ S). Qed.

Lemma slot_addslot s0 p n j : heap s0 !! p = Some n -> slot_ok j -> nodeInHandshake n = false ->
  (p = c_myself s0 -> nodeIsSlave n = false) -> safe (Rslot s0) (clusterAddSlot p j) any.
Proof.
  intros E Hj Hh Hme s [I S]. destruct (agree_r _ _ _ (ss_heap _ _ S) _ _ E) as (n' & E' & Sh).
  apply slotless_roles in Sh as (_ & R2 & R3).
  eapply wp_mono; [apply (wp_addslot s p n' j); try done; [congruence|]|].
  - rewrite (ss_me _ _ S), R2. done.
  - intros r s' (I' & S' & _). split; [|done]. split; [done|]. by eapply slotsame_trans.
Qed.

Lemma slot_delslot s0 j : safe (Rslot s0) (clusterDelSlot j) any.
Proof.
  intros s [I S]. eapply wp_mono; [by apply wp_delslot|]. intros r s' (I' & S' & _). split; [|done]. split; [done|].
  by eapply slotsame_trans.
Qed.

Lemma slot_delnodeslots s0 p : live s0 p -> safe (Rslot s0) (clusterDelNodeSlots p) any.
Proof.
  intros Hp. unfold clusterDelNodeSlots, for_slots. apply safe_forM. intros j _.
  eapply (safe_bind _ _ _ any); [apply slot_quiet; intros s Rs; apply quiet_getslotbit; by eapply Rslot_live|].
  intros b _. apply safe_when. intros _. eapply (safe_bind _ _ _ any); [apply slot_delslot|]. intros ? _. by apply safe_ret.
Qed.

(** The loop of [clusterUpdateSlotsConfigWith]: if a slot of [curmaster] moved, and
    the node is set up, there is a [curmaster]. *)
Lemma slot_update_slots s0 p n e b cur js d nm :
  heap s0 !! p = Some n -> nodeInHandshake n = false -> p <> c_myself s0 -> (forall j, j ∈ js -> slot_ok j) ->
  safe (Rslot s0) (update_slots p e b cur js d nm) any.
Proof.
  intros E Hh Hme. revert d nm. induction js as [|j js IH]; intros d nm Hjs; cbn [update_slots]; [by apply safe_ret|]. cbv zeta.
  assert (IH' : forall d nm, safe (Rslot s0) (update_slots p e b cur js d nm) any) by (intros; apply IH; intros i Hi; apply Hjs; by right).
  destruct (negb (bitmapTestBit b j)); [apply IH'|].
  eapply (safe_bind _ _ _ (fun o => forall q, o = Some q -> live s0 q)).
  { apply safe_gets. intros s [I S] q Eq. apply (slotsame_live _ _ _ S). by eapply owner_live. }
  intros owner Ho. eapply (safe_bind _ _ _ any); [by apply safe_gets|]. intros imp _.
  destruct (bool_decide (owner = Some p)); [apply IH'|]. destruct (bool_decide (is_Some imp)); [apply IH'|].
  eapply (safe_bind _ _ _ any).
  { destruct owner as [q|]; [|by apply safe_ret]. apply slot_quiet. intros s Rs.
    assert (live s q) by (eapply Rslot_live; [done|by apply Ho]). destruct Rs as [I _]. quiet_run. }
  intros older _. destruct (negb older); [apply IH'|].
  eapply (safe_bind _ _ _ any); [by apply safe_gets|]. intros me _.
  eapply (safe_bind _ _ _ any); [by apply safe_gets|]. intros keys _.
  eapply (safe_bind _ _ _ any); [apply slot_delslot|]. intros _ _.
  eapply (safe_bind _ _ _ any); [eapply slot_addslot; [done|apply Hjs; left|done|done]|]. intros _ _.
  eapply (safe_bind _ _ _ any); [apply slot_quiet; intros s Rs; apply quiet_before_sleep|]. intros _ _. apply IH'.
Qed.

(** ** Roles *)

Lemma lookup_alter_if {A} (f : A -> A) (h : gmap ptr A) i j :
  alter f i h !! j = if decide (i = j) then f <$> h !! j else h !! j.
Proof. destruct (decide (i = j)) as [->|Hne]; [by rewrite lookup_alter_eq|by rewrite lookup_alter_ne]. Qed.

Lemma wp_upd_alter p f Q s : live s p -> Q tt (set_heap (alter f p (heap s)) s) -> wp (upd p f) Q s.
Proof.
  intros [n E] HQ. apply wp_upd. exists n. split; [done|].
  replace (<[p := f n]> (heap s)) with (alter f p (heap s)); [done|]. apply map_eq. intros q. rewrite lookup_alter_if.
  destruct (decide (p = q)) as [->|Hne]; [by rewrite lookup_insert_eq, E|by rewrite lookup_insert_ne].
Qed.

Lemma alter_live {A} (f : A -> A) (h : gmap ptr A) p q : is_Some (alter f p h !! q) <-> is_Some (h !! q).
Proof. rewrite lookup_alter_if. case_decide; [apply fmap_is_Some|done]. Qed.

Lemma live_alter s f p q : live s q -> live (set_heap (alter f p (heap s)) s) q.
Proof. unfold live. cbn. apply alter_live. Qed.

Lemma alter_alter {A} (f g : A -> A) (h : gmap ptr A) p : alter f p (alter g p h) = alter (fun n => f (g n)) p h.
Proof. apply map_eq. intros q. rewrite !lookup_alter_if. case_decide; [|done]. by destruct (h !! q). Qed.

(** The effect of the operations on the list of replicas. *)
Definition rm (x : ptr) (n : clusterNode) : clusterNode :=
  match del_slave x (n_slaves n) with
  | None => n
  | Some l =>
      let n := set_n_slaves l n in
      if zlen l =? 0 then set_n_flags (clrf (n_flags n) CLUSTER_NODE_MIGRATE_TO) n else n
  end.
Definition ad (x : ptr) (n : clusterNode) : clusterNode :=
  if bool_decide (x ∈ n_slaves n) then n
  else set_n_flags (setf (n_flags n) CLUSTER_NODE_MIGRATE_TO) (set_n_slaves (n_slaves n ++ [x]) n).

(** What does not depend on the lists of replicas. *)
Definition slaveless (n : clusterNode) :=
  (n_name n, roles (n_flags n), n_slots n, n_numslots n, n_slaveof n, n_link n, n_fail_reports n).

Lemma rm_slaveless x n : slaveless (rm x n) = slaveless n.
Proof.
  unfold rm. destruct (del_slave x (n_slaves n)); [|done]. cbv zeta. case_match; [|done]. unfold slaveless. cbn.
  by rewrite roles_clrf.
Qed.
Lemma ad_slaveless x n : slaveless (ad x n) = slaveless n.
Proof. unfold ad. case_match; [done|]. unfold slaveless. cbn. by rewrite roles_setf. Qed.

Lemma slaveless_fields n n0 : slaveless n = slaveless n0 ->
  n_name n = n_name n0 /\ roles (n_flags n) = roles (n_flags n0) /\ n_slots n = n_slots n0 /\ n_numslots n = n_numslots n0 /\
  n_slaveof n = n_slaveof n0 /\ n_link n = n_link n0 /\ n_fail_reports n = n_fail_reports n0.
Proof. intros E. unfold slaveless in E. repeat apply pair_eq in E as [E ?]. done. Qed.

Lemma del_slave_spec x l :
  match del_slave x l with
  | None => x ∉ l
  | Some l' => NoDup l -> NoDup l' /\ forall q, q ∈ l' <-> q ∈ l /\ q <> x
  end.
Proof.
  induction l as [|p l IH]; cbn [del_slave]; [apply not_elem_of_nil|]. destruct (decide (p = x)) as [->|Hne].
  - intros Hnd. apply NoDup_cons in Hnd as [Hx Hnd]. split; [done|]. intros q. rewrite elem_of_cons. split.
    + intros Hq. split; [by right|]. by intros ->.
    + by intros [[->|Hq] Hne].
  - destruct (del_slave x l) as [l'|]; cbn.
    + intros Hnd. apply NoDup_cons in Hnd as [Hp Hnd]. destruct (IH Hnd) as [Hnd' Hl']. split.
      * apply NoDup_cons. split; [|done]. rewrite Hl'. tauto.
      * intros q. rewrite !elem_of_cons, Hl'. split; [|naive_solver]. intros [->|[? ?]]; naive_solver.
    + rewrite not_elem_of_cons. done.
Qed.

Lemma rm_slaves x n : NoDup (n_slaves n) ->
  NoDup (n_slaves (rm x n)) /\ forall q, q ∈ n_slaves (rm x n) <-> q ∈ n_slaves n /\ q <> x.
Proof.
  intros Hnd. pose proof (del_slave_spec x (n_slaves n)) as Hd. unfold rm. destruct (del_slave x (n_slaves n)) as [l|].
  - cbv zeta. case_match; cbn; by apply Hd.
  - split; [done|]. intros q. split; [|tauto]. intros Hq. split; [done|]. by intros ->.
Qed.

Lemma ad_slaves x n : NoDup (n_slaves n) ->
  NoDup (n_slaves (ad x n)) /\ forall q, q ∈ n_slaves (ad x n) <-> q ∈ n_slaves n \/ q = x.
Proof.
  intros Hnd. unfold ad. case_bool_decide as Hx; cbn.
  - split; [done|]. intros q. split; [by left|]. by intros [?| ->].
  - split.
    + apply NoDup_app. split; [done|]. split; [|apply NoDup_singleton]. intros q Hq ->%list_elem_of_singleton. done.
    + intros q. by rewrite elem_of_app, list_elem_of_singleton.
Qed.

Lemma wp_removeslave s m x Q : live s m -> (forall r, Q r (set_heap (alter (rm x) m (heap s)) s)) -> wp (clusterNodeRemoveSlave m x) Q s.
Proof.
  intros [n E] HQ. unfold clusterNodeRemoveSlave. apply wp_bind, wp_rd. exists n. split; [done|].
  assert (Eh : forall f, f n = rm x n -> alter f m (heap s) = alter (rm x) m (heap s)).
  { intros f Ef. apply map_eq. intros q. rewrite !lookup_alter_if. case_decide; [|done]. subst q. by rewrite E; cbn; rewrite Ef. }
  destruct (del_slave x (n_slaves n)) as [l|] eqn:Ed.
  - apply wp_bind, wp_upd_alter; [by exists n|]. apply wp_bind. destruct (zlen l =? 0) eqn:Ez; cbn [when].
    + unfold del_flags. apply wp_upd_alter; [apply live_alter; by exists n|]. apply wp_ret. cbn [heap set_heap].
      rewrite alter_alter. rewrite Eh; [apply HQ|]. unfold rm. by rewrite Ed, Ez.
    + apply wp_ret, wp_ret. rewrite Eh; [apply HQ|]. unfold rm. by rewrite Ed, Ez.
  - apply wp_ret. specialize (HQ false). rewrite alter_id in HQ; [by destruct s|].
    intros y Ey. rewrite E in Ey. injection Ey as <-. unfold rm. by rewrite Ed.
Qed.

Lemma wp_addslave s m x Q : live s m -> (forall r, Q r (set_heap (alter (ad x) m (heap s)) s)) -> wp (clusterNodeAddSlave m x) Q s.
Proof.
  intros [n E] HQ. unfold clusterNodeAddSlave. apply wp_bind, wp_rd. exists n. split; [done|].
  assert (Eh : forall f, f n = ad x n -> alter f m (heap s) = alter (ad x) m (heap s)).
  { intros f Ef. apply map_eq. intros q. rewrite !lookup_alter_if. case_decide; [|done]. subst q. by rewrite E; cbn; rewrite Ef. }
  destruct (bool_decide (x ∈ n_slaves n)) eqn:Ed.
  - apply wp_ret. specialize (HQ false). rewrite alter_id in HQ; [by destruct s|].
    intros y Ey. rewrite E in Ey. injection Ey as <-. unfold ad. by rewrite Ed.
  - apply wp_bind, wp_upd_alter; [by exists n|]. apply wp_bind. unfold add_flags.
    apply wp_upd_alter; [apply live_alter; by exists n|]. apply wp_ret. cbn [heap set_heap].
    rewrite alter_alter. rewrite Eh; [apply HQ|]. unfold ad. by rewrite Ed.
Qed.

(** Node [x] changes its master to [to], and the lists of replicas follow. *)
Lemma repl_move h h' x to : repl_inv h ->
  (forall p n', h' !! p = Some n' -> exists n, h !! p = Some n /\ (p <> x -> n_slaveof n' = n_slaveof n) /\
    NoDup (n_slaves n') /\ (forall q, q <> x -> q ∈ n_slaves n' <-> q ∈ n_slaves n) /\ (x ∈ n_slaves n' <-> to = Some p)) ->
  (forall p, is_Some (h !! p) -> is_Some (h' !! p)) ->
  (exists nx, h' !! x = Some nx /\ n_slaveof nx = to) -> (forall m, to = Some m -> is_Some (h !! m)) -> repl_inv h'.
Proof.
  intros [P1 P2 P3] HL HR (nx & Ex & Eto) Hto. split.
  - intros p n' m E' Em. destruct (HL _ _ E') as (n & E & Eof & _). destruct (decide (p = x)) as [->|Hne].
    + assert (to = Some m) by congruence. destruct (HR m) as [nm' Em']; [by apply Hto|]. exists nm'. split; [done|].
      destruct (HL _ _ Em') as (_ & _ & _ & _ & _ & Hx). by apply Hx.
    + rewrite Eof in Em by done. destruct (P1 _ _ _ E Em) as (nm & Enm & Hin). destruct (HR m) as [nm' Em']; [by exists nm|].
      exists nm'. split; [done|]. destruct (HL _ _ Em') as (nm0 & Enm0 & _ & _ & Hq & _). rewrite Enm in Enm0. injection Enm0 as <-. by apply Hq.
  - intros p n' q E' Hq. destruct (HL _ _ E') as (n & E & _ & _ & Hqs & Hx). destruct (decide (q = x)) as [->|Hne].
    + exists nx. split; [done|]. rewrite Eto. by apply Hx.
    + apply Hqs in Hq; [|done]. destruct (P2 _ _ _ E Hq) as (nq & Enq & Hof). destruct (HR q) as [nq' Eq']; [by exists nq|].
      exists nq'. split; [done|]. destruct (HL _ _ Eq') as (nq0 & Enq0 & Hof' & _). rewrite Enq in Enq0. injection Enq0 as <-. by rewrite Hof'.
  - intros p n' E'. destruct (HL _ _ E') as (_ & _ & _ & ? & _). done.
Qed.

(** What a change of roles leaves alone. *)
Definition roleless (n : clusterNode) := (n_name n, n_slots n, n_numslots n, n_link n, nodeInHandshake n, n_fail_reports n).

Lemma roleless_fields n n0 : roleless n = roleless n0 ->
  n_name n = n_name n0 /\ n_slots n = n_slots n0 /\ n_numslots n = n_numslots n0 /\ n_link n = n_link n0 /\
  nodeInHandshake n = nodeInHandshake n0 /\ n_fail_reports n = n_fail_reports n0.
Proof. intros E. unfold roleless in E. repeat apply pair_eq in E as [E ?]. done. Qed.

Lemma slaveless_roleless n n0 : slaveless n = slaveless n0 -> roleless n = roleless n0.
Proof.
  intros (E1 & E2 & E3 & E4 & _ & E5 & E6)%slaveless_fields. apply roles_fields in E2 as (_ & _ & E2).
  unfold roleless, nodeInHandshake. by rewrite E1, E2, E3, E4, E5, E6.
Qed.

Record rolesame (s t : server) : Prop := {
  rs_me : c_myself t = c_myself s;
  rs_nodes : c_nodes t = c_nodes s;
  rs_slots : c_slots t = c_slots s;
  rs_importing j p : c_importing_slots_from t !! j = Some p -> c_importing_slots_from s !! j = Some p;
  rs_migrating j p : c_migrating_slots_to t !! j = Some p -> c_migrating_slots_to s !! j = Some p;
  rs_links : links t = links s;
  rs_names : names_drawn (s_draws t) = names_drawn (s_draws s);
  rs_heap : agree roleless (heap s) (heap t)
}.

Lemma rolesame_refl s : rolesame s s.
Proof. by split. Qed.

Lemma rolesame_heap s h : agree roleless (heap s) h -> rolesame s (set_heap h s).
Proof. by split. Qed.

Lemma inv_rolesame s t : inv s -> rolesame s t -> repl_inv (heap t) ->
  (forall p n, heap t !! p = Some n -> role_ok n) -> me_ok t -> inv t.
Proof.
  intros I S HR HO HM. pose proof (rs_heap _ _ S) as A. pose proof (fun C g Hg => agree_sub (C := C) roleless g _ _ Hg A) as A'. split; try done.
  - eapply names_same; [by apply I|by apply S..|]. apply A'. by intros n n' [-> _]%roleless_fields.
  - rewrite (rs_slots _ _ S). eapply slots_same; [by apply I|]. apply A'. by intros n n' (_ & -> & -> & _)%roleless_fields.
  - rewrite (rs_links _ _ S). eapply links_same; [by apply I|]. apply A'. by intros n n' (_ & _ & _ & -> & _)%roleless_fields.
  - eapply ptrs_same; [by apply I|intros p; apply (agree_live _ _ _ A)|by apply S|by apply S|].
    intros p n E. apply (agree_l _ _ _ A) in E as (n0 & E0 & (_ & _ & _ & _ & _ & E')%roleless_fields).
    unfold reports_ok. rewrite E'. by eapply (reports_ptr _ (inv_ptrs _ I)).
Qed.

Lemma agree_alter {B} (f : clusterNode -> B) g h h' p :
  agree f h h' -> (forall n, f (g n) = f n) -> agree f h (alter g p h').
Proof.
  intros A Hg q. rewrite lookup_alter_if, <- A. case_decide; [|done]. destruct (h' !! q); [|done]. cbn. by rewrite Hg.
Qed.

Lemma agree_rm x m h h' : agree roleless h h' -> agree roleless h (alter (rm x) m h').
Proof. intros A. apply agree_alter; [done|]. intros n. apply slaveless_roleless, rm_slaveless. Qed.
Lemma agree_ad x m h h' : agree roleless h h' -> agree roleless h (alter (ad x) m h').
Proof. intros A. apply agree_alter; [done|]. intros n. apply slaveless_roleless, ad_slaveless. Qed.

Lemma rm_role x n : role_ok n -> role_ok (rm x n).
Proof.
  apply role_ok_view. unfold role_view. by destruct (slaveless_fields _ _ (rm_slaveless x n)) as (_ & -> & _ & -> & -> & _).
Qed.
Lemma ad_role x n : role_ok n -> role_ok (ad x n).
Proof.
  apply role_ok_view. unfold role_view. by destruct (slaveless_fields _ _ (ad_slaveless x n)) as (_ & -> & _ & -> & -> & _).
Qed.

(** The heap after [x] has left its master [old]. *)
Definition leave (x : ptr) (old : option ptr) (h : gmap ptr clusterNode) : gmap ptr clusterNode :=
  match old with Some m => alter (rm x) m h | None => h end.

Lemma leave_lookup x old h q n' : leave x old h !! q = Some n' ->
  exists n, h !! q = Some n /\ slaveless n' = slaveless n /\
    (NoDup (n_slaves n) -> NoDup (n_slaves n') /\ (forall y, y <> x -> y ∈ n_slaves n' <-> y ∈ n_slaves n) /\
       (x ∈ n_slaves n' <-> x ∈ n_slaves n /\ old <> Some q)).
Proof.
  unfold leave. destruct old as [m|].
  - rewrite lookup_alter_if. destruct (decide (m = q)) as [->|Hne].
    + destruct (h !! q) as [n|]; [|done]. intros [= <-]. exists n. split; [done|]. split; [apply rm_slaveless|].
      intros Hnd. destruct (rm_slaves x n Hnd) as [H1 H2]. split; [done|]. split; [intros y Hy; rewrite H2; tauto|]. rewrite H2. tauto.
    + intros E. exists n'. split; [done|]. split; [done|]. intros Hnd. split; [done|]. split; [done|].
      split; [intros Hx; split; [done|congruence]|tauto].
  - intros E. exists n'. split; [done|]. split; [done|]. intros Hnd. split; [done|]. split; [done|]. split; [by split|tauto].
Qed.

Lemma agree_leave x old h : agree roleless h (leave x old h).
Proof. unfold leave. destruct old; [by apply agree_rm, agree_refl|done]. Qed.

(** [x] leaves its master; [f] changes it and sets the new master [to], whose list
    it joins. *)
Definition join (x : ptr) (to : option ptr) (h : gmap ptr clusterNode) : gmap ptr clusterNode :=
  match to with Some m => alter (ad x) m h | None => h end.

Lemma repl_rejoin h x n f to : repl_inv h -> h !! x = Some n ->
  (forall n, n_slaves (f n) = n_slaves n /\ n_slaveof (f n) = to) -> (forall m, to = Some m -> is_Some (h !! m)) ->
  repl_inv (join x to (alter f x (leave x (n_slaveof n) h))).
Proof.
  intros R E Hf Hto. apply (repl_move h _ x to R).
  - intros p n'. set (h1 := alter f x (leave x (n_slaveof n) h)). intros E'.
    assert (H1 : exists n1, h1 !! p = Some n1 /\ n_slaveof n' = n_slaveof n1 /\ (NoDup (n_slaves n1) -> NoDup (n_slaves n')) /\
      (forall q, q <> x -> q ∈ n_slaves n' <-> q ∈ n_slaves n1) /\
      (NoDup (n_slaves n1) -> x ∈ n_slaves n' <-> x ∈ n_slaves n1 \/ to = Some p)).
    { unfold join in E'. destruct to as [m|]; [|exists n'; split; [done|]; split; [done|]; split; [done|]; split; [done|]; intros _; split; [by left|by intros [?|?]]].
      rewrite lookup_alter_if in E'. destruct (decide (m = p)) as [->|Hne].
      - destruct (h1 !! p) as [n1|]; [|done]. injection E' as <-. exists n1. split; [done|].
        split; [by destruct (slaveless_fields _ _ (ad_slaveless x n1)) as (_ & _ & _ & _ & -> & _)|].
        split; [apply ad_slaves|]. split.
        + intros q Hq. unfold ad. case_match; [done|]. cbn. rewrite elem_of_app, list_elem_of_singleton. tauto.
        + intros Hnd. rewrite (proj2 (ad_slaves x n1 Hnd)). naive_solver.
      - exists n'. split; [done|]. split; [done|]. split; [done|]. split; [done|]. intros _. split; [by left|]. intros [?|?]; [done|congruence]. }
    destruct H1 as (n1 & E1 & Eo & Hnd & Hq & Hx). unfold h1 in E1. rewrite lookup_alter_if in E1.
    assert (H2 : exists n2, leave x (n_slaveof n) h !! p = Some n2 /\ n_slaves n1 = n_slaves n2 /\ (p <> x -> n_slaveof n1 = n_slaveof n2)).
    { destruct (decide (x = p)) as [->|Hne]; [|by exists n1]. destruct (leave _ _ _ !! p) as [n2|]; [|done]. injection E1 as <-.
      exists n2. split; [done|]. split; [apply Hf|done]. }
    destruct H2 as (n2 & E2 & Es2 & Eo2). destruct (leave_lookup _ _ _ _ _ E2) as (n0 & E0 & Sl & HL).
    pose proof (slaves_nodup _ R _ _ E0) as Hnd0. destruct (HL Hnd0) as (HL1 & HL2 & HL3). rewrite <- Es2 in *.
    exists n0. split; [done|]. split; [|split; [auto|split]].
    + intros Hne. rewrite Eo, Eo2 by done. by apply slaveless_fields in Sl as (_ & _ & _ & _ & -> & _).
    + intros q Hne. rewrite Hq by done. by apply HL2.
    + rewrite Hx by done. rewrite HL3. split; [|by right]. intros [[Hin Hne]|?]; [|done]. exfalso. apply Hne.
      destruct (slaves_slaveof _ R _ _ _ E0 Hin) as (nx & Enx & Hof). congruence.
  - intros p Hp. unfold join. destruct to; rewrite ?alter_live; unfold leave; destruct (n_slaveof n); by rewrite ?alter_live.
  - assert (Ex : exists n1, leave x (n_slaveof n) h !! x = Some n1).
    { unfold leave. destruct (n_slaveof n); [|by exists n]. rewrite lookup_alter_if, E. case_decide; eauto. }
    destruct Ex as [n1 E1]. unfold join. destruct to as [m|].
    + rewrite lookup_alter_if, lookup_alter_eq, E1. case_decide; eexists; (split; [done|]).
      * destruct (slaveless_fields _ _ (ad_slaveless x (f n1))) as (_ & _ & _ & _ & -> & _). apply Hf.
      * apply Hf.
    + rewrite lookup_alter_eq, E1. eexists. split; [done|]. apply Hf.
  - done.
Qed.

(** The nodes after such a change: [f] acts on [x], and the rest keep their role. *)
Lemma rejoin_lookup h x n f to q n' : h !! x = Some n ->
  join x to (alter f x (leave x (n_slaveof n) h)) !! q = Some n' ->
  exists n1 n0, h !! q = Some n0 /\ slaveless n1 = slaveless n0 /\ slaveless n' = slaveless (if decide (x = q) then f n1 else n1).
Proof.
  intros E E'.
  assert (H1 : exists n2, alter f x (leave x (n_slaveof n) h) !! q = Some n2 /\ slaveless n' = slaveless n2).
  { unfold join in E'. destruct to as [m|]; [|by exists n']. rewrite lookup_alter_if in E'. case_decide; [|by exists n'].
    destruct (alter f x _ !! q) as [n2|]; [|done]. injection E' as <-. exists n2. split; [done|]. apply ad_slaveless. }
  destruct H1 as (n2 & E2 & Sl). rewrite lookup_alter_if in E2. case_decide as Hxq.
  - destruct (leave _ _ _ !! q) as [n1|] eqn:E1; [|done]. injection E2 as <-. apply leave_lookup in E1 as (n0 & E0 & Sl0 & _).
    by exists n1, n0.
  - apply leave_lookup in E2 as (n0 & E0 & Sl0 & _). by exists n2, n0.
Qed.

Lemma agree_rejoin h x n f to : (forall n, roleless (f n) = roleless n) ->
  agree roleless h (join x to (alter f x (leave x (n_slaveof n) h))).
Proof.
  intros Hf. unfold join. destruct to; [apply agree_ad|]; (apply agree_alter; [apply agree_leave|done]).
Qed.

Lemma slaveless_role n n0 : slaveless n = slaveless n0 -> role_view n = role_view n0.
Proof. intros (_ & E1 & _ & E2 & E3 & _)%slaveless_fields. unfold role_view. by rewrite E1, E2, E3. Qed.

(** The invariant after [x] has changed its role and its master. *)
Lemma inv_rejoin s t x n f to : inv s -> heap s !! x = Some n ->
  heap t = join x to (alter f x (leave x (n_slaveof n) (heap s))) -> rolesame s t ->
  (forall n, n_slaves (f n) = n_slaves n /\ n_slaveof (f n) = to) ->
  (forall m, to = Some m -> is_Some (heap s !! m)) ->
  (forall n1, role_view n1 = role_view n -> role_ok (f n1)) ->
  (x = c_myself s -> forall n1, role_view n1 = role_view n -> nodeIsSlave (f n1) = true ->
     n_numslots n = 0 /\ exists m nm, to = Some m /\ heap s !! m = Some nm /\ nodeInHandshake nm = false) ->
  inv t.
Proof.
  intros I E Eh S Hf Hto Hok Hme. pose proof (rs_heap _ _ S) as A.
  assert (HL : forall q n', heap t !! q = Some n' -> exists n1 n0, heap s !! q = Some n0 /\ role_view n1 = role_view n0 /\
    role_view n' = role_view (if decide (x = q) then f n1 else n1)).
  { intros q n' E'. rewrite Eh in E'. apply (rejoin_lookup _ _ _ _ _ _ _ E) in E' as (n1 & n0 & E0 & S1 & S2).
    exists n1, n0. split; [done|]. split; by apply slaveless_role. }
  apply (inv_rolesame s t I S).
  - rewrite Eh. apply repl_rejoin; [by apply I|done..].
  - intros q n' E'. destruct (HL _ _ E') as (n1 & n0 & E0 & V1 & V2). eapply role_ok_view; [exact V2|]. destruct (decide (x = q)) as [->|Hne].
    + rewrite E in E0. injection E0 as <-. by apply Hok.
    + eapply role_ok_view; [exact V1|]. by eapply I.
  - destruct (inv_me _ I) as (m & Em & Hm & Hs). destruct (agree_r _ _ _ A _ _ Em) as (m' & Em' & (_ & _ & En & _ & Ehs & _)%roleless_fields).
    exists m'. rewrite (rs_me _ _ S). split; [done|]. split; [congruence|]. intros Hsl.
    destruct (HL _ _ Em') as (n1 & n0 & E0 & V1 & V2). rewrite Em in E0. injection E0 as <-.
    assert (HX : n_numslots m = 0 /\ exists x0 nx, n_slaveof m' = Some x0 /\ heap s !! x0 = Some nx /\ nodeInHandshake nx = false).
    { apply view_fields in V2 as (_ & Eo & _ & Es & _). destruct (decide (x = c_myself s)) as [Ex|Hne].
      - rewrite Ex in E. rewrite Em in E. injection E as <-. destruct (Hme Ex n1 V1) as (? & mm & nm & ? & ? & ?); [congruence|].
        split; [done|]. exists mm, nm. split; [|done]. rewrite Eo. rewrite (proj2 (Hf n1)). done.
      - apply view_fields in V1 as (_ & Eo1 & _ & Es1 & _). destruct Hs as (? & mm & nm & ? & ?); [congruence|].
        split; [done|]. exists mm, nm. split; [congruence|done]. }
    destruct HX as (Hz & mm & nm & Ho & Emm & Hhs). split; [congruence|].
    destruct (agree_r _ _ _ A _ _ Emm) as (nm' & Enm' & (_ & _ & _ & _ & Ehs' & _)%roleless_fields).
    exists mm, nm'. split; [done|]. split; [done|]. congruence.
Qed.

(** Turning a node into a master. *)
Definition promote (other : bool) (n : clusterNode) : clusterNode :=
  set_n_slaveof None (set_n_flags
    (setf (clrf (if other then setf (n_flags n) CLUSTER_NODE_MIGRATE_TO else n_flags n) CLUSTER_NODE_SLAVE) CLUSTER_NODE_MASTER) n).

Lemma promote_flags b n : nodeIsMaster (promote b n) = true /\ nodeIsSlave (promote b n) = false /\
  nodeInHandshake (promote b n) = nodeInHandshake n.
Proof.
  unfold nodeIsMaster, nodeIsSlave, nodeInHandshake, promote. cbn. rewrite !has_setf, has_clrf_master, has_clrf_slave, has_clrf_handshake.
  destruct b; rewrite ?has_setf; repeat split; by destruct (has (n_flags n) _).
Qed.

(** The state a role change ends in, with work left for later. *)
Lemma inv_todo s b : inv s -> inv (set_c_todo_before_sleep b s).
Proof. intros I. eapply inv_soft; [done|]. eapply soft_same; [by apply soft_refl|done..]. Qed.

Lemma wp_promote_tail p b Q s : live s p ->
  (forall todo, Q tt (set_c_todo_before_sleep todo (set_heap (alter (promote b) p (heap s)) s))) ->
  wp (_ ← when b (add_flags p CLUSTER_NODE_MIGRATE_TO); _ ← del_flags p CLUSTER_NODE_SLAVE; _ ← add_flags p CLUSTER_NODE_MASTER;
      _ ← upd p (set_n_slaveof None); clusterDoBeforeSleep (Z.lor CLUSTER_TODO_SAVE_CONFIG CLUSTER_TODO_UPDATE_STATE)) Q s.
Proof.
  intros Hp HQ. unfold add_flags, del_flags, clusterDoBeforeSleep. apply wp_bind. destruct b; cbn [when].
  - apply wp_upd_alter; [done|]. apply wp_bind, wp_upd_alter; [by apply live_alter|]. apply wp_bind, wp_upd_alter; [by repeat apply live_alter|].
    apply wp_bind, wp_upd_alter; [by repeat apply live_alter|]. unfold modify, wp. cbn [heap set_heap]. rewrite !alter_alter. apply HQ.
  - apply wp_ret. apply wp_bind, wp_upd_alter; [done|]. apply wp_bind, wp_upd_alter; [by repeat apply live_alter|].
    apply wp_bind, wp_upd_alter; [by repeat apply live_alter|]. unfold modify, wp. cbn [heap set_heap]. rewrite !alter_alter. apply HQ.
Qed.

Lemma inv_promote s p n b todo : inv s -> heap s !! p = Some n -> nodeInHandshake n = false ->
  let t := set_c_todo_before_sleep todo (set_heap (alter (promote b) p (leave p (n_slaveof n) (heap s))) s) in
  inv t /\ rolesame s t /\ exists n', heap t !! p = Some n' /\ nodeIsMaster n' = true /\ nodeIsSlave n' = false.
Proof.
  intros I E Hh t. assert (S : rolesame s t).
  { split; try done. cbn. apply agree_alter; [apply agree_leave|]. intros n1. unfold roleless. destruct (promote_flags b n1) as (_ & _ & ->). done. }
  split; [|split; [done|]].
  - apply (inv_rejoin s t p n (promote b) None I E); [done|done|done|done| |].
    + intros n1 (E1 & _ & _ & _ & E4)%view_fields. unfold role_ok. destruct (promote_flags b n1) as (-> & -> & ->). by rewrite E4, Hh.
    + intros _ n1 _ Hsl. destruct (promote_flags b n1) as (_ & Ep & _). congruence.
  - cbn. assert (Ex : exists n1, leave p (n_slaveof n) (heap s) !! p = Some n1).
    { unfold leave. destruct (n_slaveof n); [|by exists n]. rewrite lookup_alter_if, E. case_decide; eauto. }
    destruct Ex as [n1 E1]. rewrite lookup_alter_eq, E1. eexists. split; [done|]. destruct (promote_flags b n1) as (-> & -> & _). done.
Qed.

Lemma wp_setnodeasmaster s p n : inv s -> heap s !! p = Some n -> nodeInHandshake n = false ->
  wp (clusterSetNodeAsMaster p) (fun _ t => inv t /\ rolesame s t /\
    exists n', heap t !! p = Some n' /\ nodeIsMaster n' = true /\ nodeIsSlave n' = false) s.
Proof.
  intros I E Hh. unfold clusterSetNodeAsMaster. apply wp_bind, wp_rd. exists n. split; [done|].
  pose proof (inv_roles _ I _ _ E) as Ro. unfold role_ok in Ro. rewrite Hh in Ro. destruct Ro as [Ro Ro'].
  destruct (nodeIsMaster n) eqn:Em.
  { apply wp_ret. split; [done|]. split; [apply rolesame_refl|]. exists n. split; [done|]. by destruct (nodeIsSlave n). }
  apply wp_bind. unfold myself, gets, wp at 1. apply wp_bind.
  assert (Hlive : live s p) by (by exists n).
  destruct (n_slaveof n) as [m|] eqn:Eo.
  - apply wp_bind, wp_removeslave; [by eapply (seen_slaveof s I n p); [exists n|]|]. intros r.
    pose proof (fun b todo => inv_promote s p n b todo I E Hh) as HP. rewrite Eo in HP. cbn [leave] in HP.
    pose proof (wp_promote_tail p (negb (bool_decide (p = c_myself s)))
      (fun _ t => inv t /\ rolesame s t /\ exists n', heap t !! p = Some n' /\ nodeIsMaster n' = true /\ nodeIsSlave n' = false)
      (set_heap (alter (rm p) m (heap s)) s)) as HW.
    unfold wp in HW |- *. unfold mbind, M_bind in HW |- *.
    destruct (when _ _ _) as [[? ?]|]; apply HW; (try by apply live_alter); intros todo; apply HP.
  - apply wp_ret. pose proof (fun b todo => inv_promote s p n b todo I E Hh) as HP. rewrite Eo in HP. cbn [leave] in HP.
    pose proof (wp_promote_tail p false
      (fun _ t => inv t /\ rolesame s t /\ exists n', heap t !! p = Some n' /\ nodeIsMaster n' = true /\ nodeIsSlave n' = false) s Hlive) as HW.
    apply HW. intros todo. apply HP.
Qed.

(** ** How the state evolves *)

(** Nodes stay, under their names, and do not enter or leave a handshake; the link
    [L] stays as it is. *)
Record evo (L : ptr) (s t : server) : Prop := {
  ev_me : c_myself t = c_myself s;
  ev_nodes nm p : c_nodes s !! nm = Some p -> c_nodes t !! nm = Some p;
  ev_heap p n : heap s !! p = Some n -> exists n', heap t !! p = Some n' /\ n_name n' = n_name n /\
    nodeInHandshake n' = nodeInHandshake n;
  ev_link : links t !! L = links s !! L;
  ev_names : (names_drawn (s_draws s) <= names_drawn (s_draws t))%nat
}.

Lemma evo_refl L s : evo L s s.
Proof. split; try done. intros p n E. by exists n. Qed.
Lemma evo_trans L s t u : evo L s t -> evo L t u -> evo L s u.
Proof.
  intros [A1 A2 A3 A4 A5] [B1 B2 B3 B4 B5]. split; try congruence; [auto| |lia].
  intros p n E. destruct (A3 _ _ E) as (n1 & E1 & N1 & H1). destruct (B3 _ _ E1) as (n2 & E2 & N2 & H2). exists n2. split; [done|]. split; congruence.
Qed.
Lemma soft_evo L s t : soft s t -> evo L s t.
Proof.
  intros S. split; try apply S.
  - by rewrite (soft_nodes _ _ S).
  - intros p n E. destruct (soft_lookup_r _ _ _ _ S E) as (n' & E' & Sh). exists n'. split; [done|].
    split; [by apply shape_fields in Sh as [-> _]|by apply shape_role in Sh as (_ & _ & ->)].
  - by rewrite (soft_links _ _ S).
  - by rewrite (soft_names _ _ S).
Qed.
Lemma slotsame_evo L s t : slotsame s t -> evo L s t.
Proof.
  intros S. split; try apply S.
  - by rewrite (ss_nodes _ _ S).
  - intros p n E. destruct (agree_r _ _ _ (ss_heap _ _ S) _ _ E) as (n' & E' & Sh). exists n'. split; [done|].
    split; [by apply slotless_fields in Sh as [-> _]|by apply slotless_roles in Sh as (_ & _ & ->)].
  - by rewrite (ss_links _ _ S).
  - by rewrite (ss_names _ _ S).
Qed.
Lemma rolesame_evo L s t : rolesame s t -> evo L s t.
Proof.
  intros S. split; try apply S.
  - by rewrite (rs_nodes _ _ S).
  - intros p n E. destruct (agree_r _ _ _ (rs_heap _ _ S) _ _ E) as (n' & E' & (N & _ & _ & _ & Hh & _)%roleless_fields). by exists n'.
  - by rewrite (rs_links _ _ S).
  - by rewrite (rs_names _ _ S).
Qed.

Definition Revo (L : ptr) (s0 s : server) : Prop := inv s /\ evo L s0 s.

Lemma Revo_refl L s : inv s -> Revo L s s.
Proof. intros I. split; [done|apply evo_refl]. Qed.
Lemma Revo_trans L s t u : Revo L s t -> Revo L t u -> Revo L s u.
Proof. intros [I1 E1] [I2 E2]. split; [done|by eapply evo_trans]. Qed.
Lemma Revo_live L s0 s p : Revo L s0 s -> live s0 p -> live s p.
Proof. intros [_ Ev] [n E]. destruct (ev_heap _ _ _ Ev _ _ E) as (n' & E' & _). by exists n'. Qed.

(** A node that is there and is not in handshake. *)
Definition settled (s : server) (p : ptr) : Prop := exists n, heap s !! p = Some n /\ nodeInHandshake n = false.
Lemma Revo_settled L s0 s p : Revo L s0 s -> settled s0 p -> settled s p.
Proof. intros [_ Ev] (n & E & Hh). destruct (ev_heap _ _ _ Ev _ _ E) as (n' & E' & _ & Hn). exists n'. split; [done|congruence]. Qed.
Lemma Revo_linked L s0 s : Revo L s0 s -> linked s0 L -> linked s L.
Proof. intros [_ Ev]. unfold linked. by rewrite (ev_link _ _ _ Ev). Qed.
Lemma settled_live s p : settled s p -> live s p.
Proof. intros (n & E & _). by exists n. Qed.
Lemma settled_me s : inv s -> settled s (c_myself s).
Proof. intros I. destruct (inv_me _ I) as (n & E & Hh & _). by exists n. Qed.

Lemma evo_quiet {A} L s0 (m : M A) Q : (forall s, Revo L s0 s -> safe (soft s) m Q) -> safe (Revo L s0) m Q.
Proof.
  intros Hm. apply (safe_lift soft); [by intros s [I _]; apply soft_refl| |done].
  intros s t [I Ev] St. split; [by eapply inv_soft|]. eapply evo_trans; [done|by apply soft_evo].
Qed.
Lemma evo_slot {A} L s0 (m : M A) Q : (forall s, Revo L s0 s -> safe (Rslot s) m Q) -> safe (Revo L s0) m Q.
Proof.
  intros Hm. apply (safe_lift Rslot); [by intros s [I _]; apply Rslot_refl| |done].
  intros s t [I Ev] [I' S]. split; [done|]. eapply evo_trans; [done|by apply slotsame_evo].
Qed.
Lemma evo_evo {A} L s0 (m : M A) Q : (forall s, Revo L s0 s -> safe (Revo L s) m Q) -> safe (Revo L s0) m Q.
Proof.
  intros Hm. apply (safe_lift (Revo L)); [by intros s [I _]; apply Revo_refl| |done].
  intros s t Rs Rt. by eapply Revo_trans.
Qed.

Lemma evo_setnodeasmaster L s0 p : settled s0 p -> safe (Revo L s0) (clusterSetNodeAsMaster p) any.
Proof.
  intros Hp s Rs. destruct (Revo_settled _ _ _ _ Rs Hp) as (n & E & Hh). pose proof Rs as [I Ev].
  eapply wp_mono; [by eapply wp_setnodeasmaster|]. intros _ t (It & St & _). split; [|done].
  split; [done|]. eapply evo_trans; [done|by apply rolesame_evo].
Qed.

(** Turning this node into a replica. *)
Definition demote (n : clusterNode) : clusterNode :=
  set_n_flags (setf (clrf (n_flags n) (Z.lor CLUSTER_NODE_MASTER CLUSTER_NODE_MIGRATE_TO)) CLUSTER_NODE_SLAVE) n.
Lemma demote_flags n : nodeIsMaster (demote n) = false /\ nodeIsSlave (demote n) = true /\
  nodeInHandshake (demote n) = nodeInHandshake n.
Proof.
  unfold nodeIsMaster, nodeIsSlave, nodeInHandshake, demote. cbn. rewrite !has_setf, has_clrf_master, has_clrf_slave, has_clrf_handshake.
  repeat split; by destruct (has (n_flags n) _).
Qed.

Lemma inv_setmaster s t p m f : inv s -> heap s !! c_myself s = Some m -> settled s p -> n_numslots m = 0 ->
  heap t = join (c_myself s) (Some p) (alter f (c_myself s) (leave (c_myself s) (n_slaveof m) (heap s))) ->
  (forall n, roleless (f n) = roleless n /\ n_slaves (f n) = n_slaves n /\ n_slaveof (f n) = Some p) ->
  (forall n, role_view n = role_view m -> nodeIsMaster (f n) = false /\ nodeIsSlave (f n) = true) ->
  rolesame s t -> inv t.
Proof.
  intros I Em (np & Ep & Hp) Hz Eh Hf Hf' S.
  assert (Hm : nodeInHandshake m = false) by (destruct (inv_me _ I) as (m' & Em' & ? & _); congruence).
  apply (inv_rejoin s t (c_myself s) m f (Some p) I Em Eh S).
  - intros n. apply Hf.
  - intros q [= <-]. by exists np.
  - intros n1 V1. destruct (Hf' _ V1) as [F1 F2]. unfold role_ok. rewrite F1, F2. destruct (Hf n1) as ((_ & _ & _ & _ & Hh & _)%roleless_fields & _).
    apply view_fields in V1 as (_ & _ & _ & _ & V1). by rewrite Hh, V1, Hm.
  - intros _ n1 V1 _. split; [done|]. by exists p, np.
Qed.

Lemma wp_setmaster L s p m : inv s -> heap s !! c_myself s = Some m -> n_numslots m = 0 -> p <> c_myself s -> settled s p ->
  wp (clusterSetMaster p) (fun _ t => Revo L s t) s.
Proof.
  intros I Em Hz Hne Hp. unfold clusterSetMaster. apply wp_bind. unfold myself, gets, wp at 1. apply wp_bind.
  rewrite (bool_decide_false _ Hne). apply wp_ret. apply wp_bind, wp_rd. exists m. split; [done|]. apply wp_bind.
  rewrite Hz. apply wp_ret. apply wp_bind.
  assert (Hm : nodeInHandshake m = false) by (destruct (inv_me _ I) as (m' & Em' & ? & _); congruence).
  pose proof (inv_roles _ I _ _ Em) as Ro. unfold role_ok in Ro. rewrite Hm in Ro. destruct Ro as [Ro Ro'].
  assert (Hend : forall t, inv t -> evo L s t ->
    wp (n ← rd p; _ ← replicationSetMaster (n_ip n) (n_port n); resetManualFailover) (fun _ t => Revo L s t) t).
  { intros t It Et. assert (Hq : safe (soft t) (n ← rd p; _ ← replicationSetMaster (n_ip n) (n_port n); resetManualFailover) any).
    { assert (live t p) by (eapply Revo_live; [by split|by apply settled_live]). quiet_run. }
    eapply wp_mono; [apply Hq, soft_refl, It|]. intros _ u [Su _]. split; [by eapply inv_soft|].
    eapply evo_trans; [done|by apply soft_evo]. }
  assert (Hlm : live s (c_myself s)) by (by exists m). pose proof (settled_live _ _ Hp) as Hlp.
  destruct (nodeIsMaster m) eqn:Emm.
  - assert (Eo : n_slaveof m = None) by (apply Ro'; by destruct (nodeIsSlave m)).
    unfold del_flags, add_flags, clusterCloseAllSlots.
    apply wp_bind, wp_upd_alter; [done|]. apply wp_bind, wp_upd_alter; [by apply live_alter|].
    apply wp_bind. unfold modify, wp at 1. unfold wp at 1.
    apply wp_bind, wp_upd_alter; [by apply live_alter, live_alter|].
    apply wp_bind, wp_addslave; [by do 3 apply live_alter|]. intros r. cbn [heap set_heap c_migrating_slots_to set_c_migrating_slots_to set_c_importing_slots_from].
    rewrite !alter_alter. match goal with |- wp _ _ ?t => set (u := t) end.
    assert (S : rolesame s u).
    { split; try done; cbn; [intros j q; by rewrite lookup_empty..|]. apply agree_ad, agree_alter; [apply agree_refl|].
      intros n. unfold roleless. change (set_n_slaveof (Some p) _) with (set_n_slaveof (Some p) (demote n)).
      change (nodeInHandshake (set_n_slaveof (Some p) (demote n))) with (nodeInHandshake (demote n)). by destruct (demote_flags n) as (_ & _ & ->). }
    apply Hend; [|by apply rolesame_evo].
    apply (inv_setmaster s u p m (fun n => set_n_slaveof (Some p) (demote n)) I Em Hp Hz); [by rewrite Eo| | |done].
    + intros n. split; [|done]. unfold roleless. change (nodeInHandshake (set_n_slaveof (Some p) (demote n))) with (nodeInHandshake (demote n)).
      by destruct (demote_flags n) as (_ & _ & ->).
    + intros n _. destruct (demote_flags n) as (? & ? & _). done.
  - destruct (n_slaveof m) as [old|] eqn:Eo.
    2: { destruct (inv_me _ I) as (m' & Em' & _ & Hs). rewrite Em in Em'. injection Em' as <-.
         destruct Hs as (_ & ? & ? & ? & _); [by destruct (nodeIsSlave m)|congruence]. }
    apply wp_bind, wp_removeslave; [by eapply (seen_slaveof s I m); [exists m|]|]. intros r. apply wp_ret.
    apply wp_bind, wp_upd_alter; [by apply live_alter|].
    apply wp_bind, wp_addslave; [by do 2 apply live_alter|]. intros r'. cbn [heap set_heap].
    match goal with |- wp _ _ ?t => set (u := t) end.
    assert (S : rolesame s u).
    { split; try done; cbn. apply agree_ad, agree_alter; [|done]. by apply agree_rm, agree_refl. }
    apply Hend; [|by apply rolesame_evo].
    apply (inv_setmaster s u p m (set_n_slaveof (Some p)) I Em Hp Hz); [by rewrite Eo|done| |done].
    intros n (_ & _ & V1 & V2 & _)%view_fields. unfold nodeIsMaster, nodeIsSlave in *. cbn. rewrite V1, V2, Emm. by destruct (has (n_flags m) CLUSTER_NODE_SLAVE).
Qed.

(** A safe program as a step of a longer one. *)
Lemma wp_safe {A} R (m : M A) P Q s : safe R m P -> R s -> (forall a t, R t -> P a -> Q a t) -> wp m Q s.
Proof. intros Hm HR HQ. eapply wp_mono; [by apply Hm|]. intros a t [? ?]. auto. Qed.

Lemma wp_quiet {A} L s0 (m : M A) P Q s : Revo L s0 s -> safe (soft s) m P ->
  (forall a t, Revo L s0 t -> soft s t -> P a -> Q a t) -> wp m Q s.
Proof.
  intros [I Ev] Hm HQ. eapply wp_safe; [exact Hm|by apply soft_refl|]. intros a t St HP. apply HQ; [|done|done].
  split; [by eapply inv_soft|]. eapply evo_trans; [done|by apply soft_evo].
Qed.

(** The master this node is, or has. *)
Lemma curmaster_some s m : inv s -> heap s !! c_myself s = Some m ->
  exists c nc, (if nodeIsMaster m then Some (c_myself s) else n_slaveof m) = Some c /\ heap s !! c = Some nc /\
    (nodeIsSlave m = false -> c = c_myself s).
Proof.
  intros I E. destruct (inv_me _ I) as (m' & E' & Hh & Hs). rewrite E in E'. injection E' as <-.
  pose proof (inv_roles _ I _ _ E) as Ro. unfold role_ok in Ro. rewrite Hh in Ro. destruct Ro as [Ro _].
  destruct (nodeIsMaster m).
  - by exists (c_myself s), m.
  - assert (Hsl : nodeIsSlave m = true) by (by destruct (nodeIsSlave m)).
    destruct Hs as (Hz & x & nx & ? & ? & ?); [done|]. exists x, nx. by rewrite Hsl.
Qed.

Lemma evo_updateslots L s0 p e b : settled s0 p -> safe (Revo L s0) (clusterUpdateSlotsConfigWith p e b) any.
Proof.
  intros Hp0 s Rs. pose proof (Revo_settled _ _ _ _ Rs Hp0) as Hp. pose proof Rs as [I Ev].
  destruct (inv_me _ I) as (m & Em & Hm & _). unfold clusterUpdateSlotsConfigWith.
  apply wp_bind. unfold myself, gets, wp at 1. apply wp_bind, wp_rd. exists m. split; [done|]. cbv zeta.
  case_bool_decide as Hpm; [by apply wp_ret|].
  destruct (curmaster_some s m I Em) as (c & nc & -> & Enc & Hcm).
  destruct Hp as (np & Ep & Hhp). apply wp_bind. eapply wp_safe.
  { apply (slot_update_slots s p np e b (Some c) all_slots [] false); [done..|]. intros j. apply all_slots_elem. }
  { by apply Rslot_refl. }
  intros [dirty newmaster] s1 [I1 S1] _. assert (Ev1 : evo L s0 s1) by (eapply evo_trans; [done|by apply slotsame_evo]).
  apply wp_bind. unfold cfg, gets, wp at 1. destruct (has _ _); [by apply wp_ret|]. apply wp_bind.
  destruct (agree_r _ _ _ (ss_heap _ _ S1) _ _ Enc) as (nc1 & Enc1 & _).
  destruct (agree_r _ _ _ (ss_heap _ _ S1) _ _ Em) as (m1 & Em1 & Sh1). rewrite <- (ss_me _ _ S1) in Em1.
  assert (Hdel : wp (forM dirty delKeysInSlot) (fun _ t => Revo L s0 t /\ True) s1).
  { eapply (wp_quiet L s0); [by split| |by intros; split]. quiet_run. }
  destruct newmaster; [|by apply wp_ret].
  apply wp_bind. cbn [deref]. apply wp_ret, wp_bind, wp_rd. exists nc1. split; [done|]. apply wp_ret.
  destruct (n_numslots nc1 =? 0) eqn:Ez; [|done]. apply Z.eqb_eq in Ez.
  assert (Hz1 : n_numslots m1 = 0).
  { destruct (inv_me _ I1) as (m' & Em' & Hh' & Hs'). rewrite Em1 in Em'. injection Em' as <-.
    destruct (nodeIsSlave m1) eqn:Esl; [by apply Hs'|].
    apply slotless_roles in Sh1 as (_ & R2 & _). rewrite <- R2, (ss_me _ _ S1) in *. rewrite (Hcm Esl), Em1 in Enc1. by injection Enc1 as <-. }
  apply wp_bind. eapply wp_mono; [apply (wp_setmaster L s1 p m1 I1 Em1 Hz1); [by rewrite (ss_me _ _ S1)|]|].
  - destruct (agree_r _ _ _ (ss_heap _ _ S1) _ _ Ep) as (np1 & Ep1 & (_ & _ & Hh1)%slotless_roles). exists np1. split; [done|congruence].
  - intros ? s2 R2. eapply (wp_quiet L s0); [|apply quiet_before_sleep|by intros; split].
    eapply Revo_trans; [|exact R2]. by split.
Qed.

(** ** Links *)

(** What a change of links leaves alone. *)
Definition linkless (n : clusterNode) := (n_name n, roles (n_flags n), n_slots n, n_numslots n, n_slaves n, n_slaveof n).

Lemma linkless_fields n n0 : linkless n = linkless n0 ->
  n_name n = n_name n0 /\ roles (n_flags n) = roles (n_flags n0) /\ n_slots n = n_slots n0 /\
  n_numslots n = n_numslots n0 /\ n_slaves n = n_slaves n0 /\ n_slaveof n = n_slaveof n0.
Proof. intros E. unfold linkless in E. repeat apply pair_eq in E as [E ?]. done. Qed.

Record linksame (L : ptr) (s t : server) : Prop := {
  ls_me : c_myself t = c_myself s;
  ls_nodes : c_nodes t = c_nodes s;
  ls_slots : c_slots t = c_slots s;
  ls_importing : c_importing_slots_from t = c_importing_slots_from s;
  ls_migrating : c_migrating_slots_to t = c_migrating_slots_to s;
  ls_link : links t !! L = links s !! L;
  ls_names : names_drawn (s_draws t) = names_drawn (s_draws s);
  ls_heap : agree linkless (heap s) (heap t);
  ls_reports p n : heap t !! p = Some n -> reports_ok (heap s) n
}.

Lemma soft_linksame L s t : soft s t -> linksame L s t.
Proof.
  intros S. split; try apply S; [by rewrite (soft_links _ _ S)|]. eapply agree_sub; [|by apply S]. unfold linkless.
  by intros n n' (-> & -> & -> & -> & -> & -> & _)%shape_fields.
Qed.
Lemma linksame_refl L s : inv s -> linksame L s s.
Proof. intros I. by apply soft_linksame, soft_refl. Qed.
Lemma linksame_trans L s t u : linksame L s t -> linksame L t u -> linksame L s u.
Proof.
  intros S1 S2. split; try (etrans; [by apply S2|by apply S1]).
  - eapply agree_trans; [by apply S1|by apply S2].
  - intros p n E. destruct (ls_reports _ _ _ S2 p n E) as [R1 R2]. split; [done|]. intros r Hr. by apply (agree_live _ _ _ (ls_heap _ _ _ S1)), R2.
Qed.
Lemma linksame_evo L s t : linksame L s t -> evo L s t.
Proof.
  intros S. split; try apply S.
  - by rewrite (ls_nodes _ _ _ S).
  - intros p n E. destruct (agree_r _ _ _ (ls_heap _ _ _ S) _ _ E) as (n' & E' & (N & R & _)%linkless_fields). exists n'. split; [done|].
    split; [done|]. by apply roles_fields in R as (_ & _ & R).
  - by rewrite (ls_names _ _ _ S).
Qed.

Lemma inv_linksame L s t : inv s -> linksame L s t -> links_inv (links t) (heap t) -> inv t.
Proof.
  intros I S HL. pose proof (ls_heap _ _ _ S) as A. pose proof (fun C g Hg => agree_sub (C := C) linkless g _ _ Hg A) as A'. split; try done.
  - eapply names_same; [by apply I|by apply S..|]. apply A'. by intros n n' [-> _]%linkless_fields.
  - rewrite (ls_slots _ _ _ S). eapply slots_same; [by apply I|]. apply A'. by intros n n' (_ & _ & -> & -> & _)%linkless_fields.
  - eapply repl_same; [by apply I|]. apply A'. by intros n n' (_ & _ & _ & _ & -> & ->)%linkless_fields.
  - intros p n E. apply (agree_l _ _ _ A) in E as (n0 & E0 & (_ & E1 & _ & E2 & _ & E3)%linkless_fields).
    eapply role_ok_view; [|by eapply I]. unfold role_view. by rewrite E1, E2, E3.
  - eapply ptrs_same; [by apply I|intros p; apply (agree_live _ _ _ A)|by rewrite (ls_importing _ _ _ S)|by rewrite (ls_migrating _ _ _ S)|].
    intros p n. apply (ls_reports _ _ _ S).
  - eapply me_same; [by apply I|by apply S|]. apply A'. unfold role_view. by intros n n' (_ & -> & _ & -> & _ & ->)%linkless_fields.
Qed.

Lemma wp_freelink L l s k : inv s -> links s !! l = Some k -> l <> L ->
  wp (freeClusterLink l) (fun _ t => inv t /\ linksame L s t /\ links t = delete l (links s)) s.
Proof.
  intros I E Hne. unfold freeClusterLink. apply wp_bind, wp_rdl. exists k. split; [done|]. apply wp_bind.
  assert (Hfin : forall h, (forall q, h !! q = (if decide (l_node k = Some q) then set_n_link None <$> heap s !! q else heap s !! q)) ->
    let t := set_links (delete l (links s)) (set_heap h s) in inv t /\ linksame L s t /\ links t = delete l (links s)).
  { intros h Hh t. assert (S : linksame L s t).
    { split; try done; cbn; [by rewrite lookup_delete_ne| |].
      - intros q. rewrite Hh. case_decide; [|done]. by destruct (heap s !! q).
      - intros q n Eq. rewrite Hh in Eq. case_decide; [|by eapply (reports_ptr _ (inv_ptrs _ I))].
        destruct (heap s !! q) as [n0|] eqn:E0; [|done]. injection Eq as <-. by apply (reports_ptr _ (inv_ptrs _ I) q n0). }
    split; [|done]. apply (inv_linksame L s t I S). cbn. split.
    - intros l' k' p Ek' Ep. apply lookup_delete_Some in Ek' as [Hl Ek'].
      destruct (link_node _ _ (inv_links _ I) _ _ _ Ek' Ep) as (n & En & El). exists n. split; [|done]. rewrite Hh.
      rewrite decide_False; [done|]. intros Ekp. destruct (link_node _ _ (inv_links _ I) _ _ _ E Ekp) as (n2 & En2 & El2). congruence.
    - intros p n l' En El. rewrite Hh in En. case_decide as Hd.
      + destruct (heap s !! p); [|done]. injection En as <-. done.
      + destruct (node_link _ _ (inv_links _ I) _ _ _ En El) as (k' & Ek' & Ep). exists k'. split; [|done].
        rewrite lookup_delete_ne; [done|]. intros <-. congruence. }
  destruct (l_node k) as [p|] eqn:Ep.
  - destruct (link_node _ _ (inv_links _ I) _ _ _ E Ep) as (n & En & El).
    apply wp_upd_alter; [by exists n|]. unfold modify, wp. apply Hfin. intros q. rewrite lookup_alter_if.
    destruct (decide (p = q)) as [->|Hpq]; [by rewrite decide_True|by rewrite decide_False by congruence].
  - apply wp_ret. unfold modify, wp. specialize (Hfin (heap s)). replace (set_heap (heap s) s) with s in Hfin by (by destruct s).
    apply Hfin. intros q. by rewrite decide_False.
Qed.

Definition Rlink (L : ptr) (s0 s : server) : Prop := inv s /\ linksame L s0 s.
Lemma Rlink_refl L s : inv s -> Rlink L s s.
Proof. intros I. split; [done|by apply linksame_refl]. Qed.
Lemma Rlink_evo L s0 s : Rlink L s0 s -> Revo L s0 s.
Proof. intros [I S]. split; [done|by apply linksame_evo]. Qed.
Lemma link_quiet {A} L s0 (m : M A) Q : (forall s, Rlink L s0 s -> safe (soft s) m Q) -> safe (Rlink L s0) m Q.
Proof.
  intros Hm. apply (safe_lift soft); [by intros s [I _]; apply soft_refl| |done].
  intros s t [I S] St. split; [by eapply inv_soft|]. eapply linksame_trans; [done|by apply soft_linksame].
Qed.
Lemma link_free L s0 l s k : Rlink L s0 s -> links s !! l = Some k -> l <> L ->
  wp (freeClusterLink l) (fun _ t => Rlink L s0 t) s.
Proof.
  intros [I S] E Hne. eapply wp_mono; [by eapply (wp_freelink L)|]. intros _ t (It & St & _). split; [done|].
  by eapply linksame_trans.
Qed.
Lemma evo_link {A} L s0 (m : M A) Q : (forall s, Revo L s0 s -> safe (Rlink L s) m Q) -> safe (Revo L s0) m Q.
Proof.
  intros Hm. apply (safe_lift (Rlink L)); [by intros s [I _]; apply Rlink_refl| |done].
  intros s t Rs Rt. eapply Revo_trans; [done|by apply Rlink_evo].
Qed.

Lemma link_updateaddress L s0 p hdr : live s0 p -> linked s0 L -> safe (Rlink L s0) (nodeUpdateAddressIfNeeded p L hdr) any.
Proof.
  intros Hp HL s Rs. pose proof Rs as [I S]. pose proof (Rlink_evo _ _ _ Rs) as Re.
  destruct (Revo_live _ _ _ _ Re Hp) as [n En]. destruct (Revo_linked _ _ _ Re HL) as [k Ek].
  unfold nodeUpdateAddressIfNeeded. apply wp_bind, wp_rd. exists n. split; [done|].
  case_bool_decide as Hl; [by apply wp_ret|]. apply wp_bind, wp_rdl. exists k. split; [done|]. cbv zeta.
  case_match; [by apply wp_ret|]. apply wp_bind.
  eapply wp_safe; [apply (quiet_upd' s p); [by exists n|done|done]|by apply soft_refl|]. intros _ s1 S1 _.
  assert (R1 : Rlink L s0 s1) by (split; [by eapply inv_soft|eapply linksame_trans; [done|by apply soft_linksame]]).
  apply wp_bind. assert (Hend : forall s2, Rlink L s0 s2 ->
    wp (_ ← del_flags p CLUSTER_NODE_NOADDR; me ← myself; m ← rd me;
        _ ← when (nodeIsSlave m && bool_decide (n_slaveof m = Some p)) (replicationSetMaster (nodeIp2String k (h_myip hdr)) (h_port hdr));
        mret true) (fun _ t => Rlink L s0 t /\ True) s2).
  { intros s2 R2. pose proof (Revo_live _ _ _ _ (Rlink_evo _ _ _ R2) Hp) as Hp2. pose proof R2 as [I2 _].
    eapply (wp_safe (Rlink L s0) _ any); [|exact R2|by intros; split]. apply link_quiet. intros s3 R3. pose proof R3 as [I3 _].
    pose proof (Revo_live _ _ _ _ (Rlink_evo _ _ _ R3) Hp). quiet_run. }
  destruct (n_link n) as [l|] eqn:El.
  - destruct (node_link _ _ (inv_links _ I) _ _ _ En El) as (kl & Ekl & _).
    eapply wp_mono; [eapply (link_free L s0 l); [exact R1|by rewrite (soft_links _ _ S1)|congruence]|]. intros ? s2. apply Hend.
  - by apply wp_ret, Hend.
Qed.

(** ** The role a node claims *)

(** The name this node gives as its master. *)
Definition my_master_name (s : server) : string :=
  match heap s !! c_myself s with
  | Some n =>
      match n_slaveof n with
      | Some m => match heap s !! m with Some nm => n_name nm | None => CLUSTER_NODE_NULL_NAME end
      | None => CLUSTER_NODE_NULL_NAME
      end
  | None => CLUSTER_NODE_NULL_NAME
  end.

Lemma my_master_name_same L s t : linksame L s t -> my_master_name t = my_master_name s.
Proof.
  intros S. pose proof (ls_heap _ _ _ S) as A. unfold my_master_name. rewrite (ls_me _ _ _ S).
  assert (Hl : forall p, linkless <$> heap t !! p = linkless <$> heap s !! p) by apply A.
  destruct (heap s !! c_myself s) as [n|] eqn:E.
  - destruct (agree_r _ _ _ A _ _ E) as (n' & -> & (_ & _ & _ & _ & _ & ->)%linkless_fields).
    destruct (n_slaveof n) as [m|]; [|done]. destruct (heap s !! m) as [nm|] eqn:Em.
    + by destruct (agree_r _ _ _ A _ _ Em) as (nm' & -> & (-> & _)%linkless_fields).
    + specialize (Hl m). rewrite Em in Hl. by destruct (heap t !! m).
  - specialize (Hl (c_myself s)). rewrite E in Hl. by destruct (heap t !! c_myself s).
Qed.

Lemma alter_ad_comm x m v (h : gmap ptr clusterNode) :
  alter (set_n_slaveof v) x (alter (ad x) m h) = alter (ad x) m (alter (set_n_slaveof v) x h).
Proof.
  apply map_eq. intros q. rewrite !lookup_alter_if. repeat case_decide; try done. destruct (h !! q) as [n|]; [|done]. cbn. f_equal.
  unfold ad. cbn. by case_match.
Qed.

(** A settled node other than this one joins a master. *)
Lemma wp_rejoin L s x n mp todo : inv s -> heap s !! x = Some n -> nodeInHandshake n = false -> nodeIsSlave n = true ->
  x <> c_myself s -> live s mp ->
  wp (_ ← (match n_slaveof n with Some old => _ ← clusterNodeRemoveSlave old x; mret tt | None => mret tt end);
      _ ← clusterNodeAddSlave mp x; _ ← upd x (set_n_slaveof (Some mp)); clusterDoBeforeSleep todo) (fun _ t => Revo L s t) s.
Proof.
  intros I E Hh Hsl Hne [nmp Emp]. assert (Hx : live s x) by (by exists n). assert (Hmp : live s mp) by (by exists nmp).
  pose proof (inv_roles _ I _ _ E) as Ro. unfold role_ok in Ro. rewrite Hh, Hsl in Ro. destruct Ro as [Ro _].
  assert (Hend : forall h, h = leave x (n_slaveof n) (heap s) ->
    wp (_ ← clusterNodeAddSlave mp x; _ ← upd x (set_n_slaveof (Some mp)); clusterDoBeforeSleep todo) (fun _ t => Revo L s t) (set_heap h s)).
  { intros h ->. assert (Hl : forall q, live s q -> live (set_heap (leave x (n_slaveof n) (heap s)) s) q).
    { intros q. unfold live. cbn. unfold leave. destruct (n_slaveof n); by rewrite ?alter_live. }
    apply wp_bind, wp_addslave; [by apply Hl|]. intros r. apply wp_bind, wp_upd_alter; [by apply live_alter, Hl|].
    unfold clusterDoBeforeSleep, modify, wp. cbn [heap set_heap]. rewrite alter_ad_comm.
    match goal with |- Revo _ _ ?t => set (u := t) end.
    assert (S : rolesame s u).
    { split; try done; cbn. apply agree_ad, agree_alter; [apply agree_leave|done]. }
    split; [|by apply rolesame_evo].
    apply (inv_rejoin s u x n (set_n_slaveof (Some mp)) (Some mp) I E); [done|done|done|by intros m [= <-]; exists nmp| |done].
    intros n1 (_ & _ & V1 & V2 & V3)%view_fields. unfold role_ok, nodeInHandshake, nodeIsMaster, nodeIsSlave in *. cbn.
    rewrite V1, V2, V3, Hh, Hsl. by split. }
  apply wp_bind. destruct (n_slaveof n) as [old|] eqn:Eo.
  - apply wp_bind, wp_removeslave; [by eapply (seen_slaveof s I n x); [exists n|]|]. intros r. apply wp_ret. by apply Hend.
  - apply wp_ret. specialize (Hend (heap s) eq_refl). by replace (set_heap (heap s) s) with s in Hend by (by destruct s).
Qed.

(** A master that says it is a replica loses its slots. *)
Lemma wp_demote_other L s x n : inv s -> heap s !! x = Some n -> nodeInHandshake n = false -> x <> c_myself s ->
  wp (when (nodeIsMaster n)
      (_ ← clusterDelNodeSlots x; _ ← del_flags x (Z.lor CLUSTER_NODE_MASTER CLUSTER_NODE_MIGRATE_TO);
       _ ← add_flags x CLUSTER_NODE_SLAVE; clusterDoBeforeSleep (Z.lor CLUSTER_TODO_SAVE_CONFIG CLUSTER_TODO_UPDATE_STATE)))
    (fun _ t => Revo L s t /\ exists n', heap t !! x = Some n' /\ nodeIsSlave n' = true) s.
Proof.
  intros I E Hh Hne. pose proof (inv_roles _ I _ _ E) as Ro. unfold role_ok in Ro. rewrite Hh in Ro. destruct Ro as [Ro Ro'].
  apply wp_when; intros Em.
  2: { split; [by apply Revo_refl|]. exists n. split; [done|]. rewrite Em in Ro. by destruct (nodeIsSlave n). }
  apply wp_bind. eapply wp_safe; [apply (slot_delnodeslots s); by exists n|by apply Rslot_refl|]. intros _ s1 [I1 S1] _.
  destruct (agree_r _ _ _ (ss_heap _ _ S1) _ _ E) as (n1 & E1 & Sh1). pose proof (slotless_roles _ _ Sh1) as (R1 & R2 & R3).
  assert (Eo1 : n_slaveof n1 = None).
  { apply slotless_fields in Sh1 as (_ & _ & _ & -> & _). apply Ro'. rewrite Em in Ro. by destruct (nodeIsSlave n). }
  unfold del_flags, add_flags. apply wp_bind, wp_upd_alter; [by exists n1|].
  apply wp_bind, wp_upd_alter; [apply live_alter; by exists n1|]. unfold clusterDoBeforeSleep, modify, wp. cbn [heap set_heap].
  rewrite alter_alter. match goal with |- Revo _ _ ?t /\ _ => set (u := t) end.
  assert (Eu : heap u = alter (fun n => set_n_slaveof None (demote n)) x (heap s1)).
  { cbn. apply map_eq. intros q. rewrite !lookup_alter_if. case_decide as Hq; [|done]. rewrite <- Hq, E1. cbn. f_equal.
    unfold demote, set_n_slaveof, set_n_flags. cbn. by rewrite Eo1. }
  assert (S : rolesame s1 u).
  { split; try done. cbn. apply agree_alter; [apply agree_refl|]. intros n0. change (roleless (demote n0) = roleless n0).
    unfold roleless. by destruct (demote_flags n0) as (_ & _ & ->). }
  split.
  - eapply Revo_trans; [split; [exact I1|by apply slotsame_evo]|]. split; [|by apply rolesame_evo].
    apply (inv_rejoin s1 u x n1 (fun n => set_n_slaveof None (demote n)) None I1 E1); [by rewrite Eu, Eo1|done|done|done| |].
    + intros n2 (_ & _ & _ & _ & V5)%view_fields. unfold role_ok.
      change (nodeInHandshake (set_n_slaveof None (demote n2))) with (nodeInHandshake (demote n2)).
      change (nodeIsMaster (set_n_slaveof None (demote n2))) with (nodeIsMaster (demote n2)).
      change (nodeIsSlave (set_n_slaveof None (demote n2))) with (nodeIsSlave (demote n2)).
      destruct (demote_flags n2) as (-> & -> & ->). by rewrite V5, R3, Hh.
    + intros Hx. destruct Hne. by rewrite <- (ss_me _ _ S1).
  - rewrite Eu, lookup_alter_eq, E1. eexists. split; [done|]. apply demote_flags.
Qed.

Lemma wp_process_role L s sp hdr : inv s -> settled s sp ->
  (sp = c_myself s -> h_slaveof hdr = my_master_name s) ->
  wp (process_role sp hdr) (fun _ t => Revo L s t) s.
Proof.
  intros I Hsp Hown. unfold process_role. case_bool_decide as Hnull.
  { eapply wp_safe; [by apply (evo_setnodeasmaster L s)|by apply Revo_refl|by intros]. }
  destruct Hsp as (n & E & Hh). apply wp_bind. unfold clusterLookupNode, gets, wp at 1.
  apply wp_bind, wp_rd. exists n. split; [done|]. destruct (decide (sp = c_myself s)) as [->|Hne].
  - (* This node: the claim is what we have. *)
    specialize (Hown eq_refl). unfold my_master_name in Hown. rewrite E in Hown.
    destruct (n_slaveof n) as [m|] eqn:Eo; [|by rewrite Hown in Hnull].
    destruct (slaveof_slaves _ (inv_repl _ I) _ _ _ E Eo) as (nm & Em & _). rewrite Em in Hown.
    pose proof (inv_roles _ I _ _ E) as Ro. unfold role_ok in Ro. rewrite Hh in Ro. destruct Ro as [Ro Ro'].
    assert (Hsl : nodeIsMaster n = false) by (destruct (nodeIsSlave n); [done|]; rewrite Ro' in Eo; done).
    rewrite Hsl. apply wp_bind, wp_ret, wp_bind, wp_rd. exists n. split; [done|].
    rewrite Hown, (heap_names _ (inv_names _ I) _ _ Em). rewrite bool_decide_true by done. by apply wp_ret, Revo_refl.
  - apply wp_bind. eapply wp_mono; [by apply (wp_demote_other L)|]. intros _ s1 (R1 & n1 & E1 & Hsl). pose proof R1 as [I1 Ev1].
    apply wp_bind, wp_rd. exists n1. split; [done|]. destruct (c_nodes s !! h_slaveof hdr) as [mp|] eqn:Emp; [|by apply wp_ret].
    case_bool_decide; [by apply wp_ret|].
    eapply wp_mono; [eapply (wp_rejoin L s1 sp n1 mp); [done|done| |done|by rewrite (ev_me _ _ _ Ev1)|]|].
    + destruct (ev_heap _ _ _ Ev1 _ _ E) as (n' & E' & _ & Hn'). rewrite E1 in E'. injection E' as <-. congruence.
    + eapply Revo_live; [exact R1|]. by eapply known_live.
    + intros ? t. by apply Revo_trans.
Qed.
End Structure.
End ClusterSafe.
