(* ===== verification/ClusterNodes.v ===== *)
(** * Nodes of a cluster come and go (cluster.c)

    Creating, renaming and deleting nodes, and making links, keep the invariant of
    [ClusterInv]; gossip and packets do. *)

From Stdlib Require Import String Ascii.
From stdpp Require Import strings pmap.
From S2P Require Import Prelude Cluster ClusterInv ClusterSafe.

Module ClusterNodes.
Import Cluster ClusterInv ClusterSafe.

Section Nodes.
Context `{World} `{!WorldLaws}.

(** ** New nodes *)

(** Flags of a node with no slots: a role, or a handshake. *)
Definition flags_ok (f : Z) : Prop :=
  if has f CLUSTER_NODE_HANDSHAKE then has f CLUSTER_NODE_MASTER = false /\ has f CLUSTER_NODE_SLAVE = false
  else has f CLUSTER_NODE_MASTER = negb (has f CLUSTER_NODE_SLAVE).

(** A name that this server will not draw. *)
Definition not_random (s : server) (nm : string) : Prop :=
  forall k, (names_drawn (s_draws s) <= k)%nat -> nm <> random_name k.

Record blank (n : clusterNode) : Prop := {
  blank_slots : n_slots n = replicate (Z.to_nat (CLUSTER_SLOTS / 8)) 0;
  blank_numslots : n_numslots n = 0;
  blank_slaves : n_slaves n = [];
  blank_slaveof : n_slaveof n = None;
  blank_link : n_link n = None;
  blank_reports : n_fail_reports n = [];
  blank_flags : flags_ok (n_flags n)
}.

Lemma blank_role n : blank n -> role_ok n.
Proof.
  intros [_ B2 _ B4 _ _ B7]. unfold role_ok, nodeInHandshake, nodeIsMaster, nodeIsSlave. unfold flags_ok in B7.
  rewrite B2, B4. destruct (has (n_flags n) CLUSTER_NODE_HANDSHAKE); [|done]. destruct B7. done.
Qed.

Lemma inv_new s p n d : inv s -> heap s !! p = None -> blank n -> c_nodes s !! n_name n = None ->
  (names_drawn (s_draws s) <= names_drawn d)%nat ->
  (forall k, (names_drawn d <= k)%nat -> n_name n <> random_name k) ->
  inv (set_c_nodes (<[n_name n := p]> (c_nodes s)) (set_heap (<[p := n]> (heap s)) (set_s_draws d s))).
Proof.
  intros I Ep B Enm Hd Hfresh. destruct I as [[N1 N2 N3] [B1 B2] [P1 P2 P3] Ro [K1 K2] [T1 T2 T3] (m & Em & Hm & Hs)].
  assert (HL : forall q x, heap s !! q = Some x -> <[p := n]> (heap s) !! q = Some x).
  { intros q x E. rewrite lookup_insert_ne; [done|]. intros <-. congruence. }
  assert (HR : forall q x, <[p := n]> (heap s) !! q = Some x -> (q = p /\ x = n) \/ heap s !! q = Some x).
  { intros q x E. destruct (decide (p = q)) as [->|Hne].
    - rewrite lookup_insert_eq in E. injection E as <-. by left.
    - rewrite lookup_insert_ne in E by done. by right. }
  assert (HD : forall q, is_Some (heap s !! q) -> is_Some (<[p := n]> (heap s) !! q)) by (intros q [x E]; exists x; by apply HL).
  split; cbn.
  - split; cbn.
    + intros nm q E. destruct (decide (n_name n = nm)) as [<-|Hne].
      * rewrite lookup_insert_eq in E. injection E as <-. exists n. by rewrite lookup_insert_eq.
      * rewrite lookup_insert_ne in E by done. destruct (N1 _ _ E) as (x & Ex & ?). exists x. split; [by apply HL|done].
    + intros q x E. apply HR in E as [[-> ->]|E]; [by rewrite lookup_insert_eq|]. rewrite lookup_insert_ne; [by apply N2|].
      intros Hn. apply N2 in E. congruence.
    + intros nm k [q E] Hk. destruct (decide (n_name n = nm)) as [<-|Hne]; [by apply Hfresh|].
      rewrite lookup_insert_ne in E by done. apply N3; [by exists q|lia].
  - split.
    + intros q x E. apply HR in E as [[-> ->]|E]; [|by apply (B1 q)]. rewrite (blank_slots _ B), (blank_numslots _ B), popcount_new.
      split; [apply length_replicate|done].
    + intros j q. rewrite B2. f_equiv. split.
      * intros (x & Ex & T). exists x. split; [by apply HL|done].
      * intros (x & Ex & T). apply HR in Ex as [[-> ->]|Ex]; [|by exists x]. rewrite (blank_slots _ B), new_bitmap_testbit in T. done.
  - split.
    + intros q x y E Eo. apply HR in E as [[-> ->]|E]; [rewrite (blank_slaveof _ B) in Eo; done|].
      destruct (P1 _ _ _ E Eo) as (z & Ez & ?). exists z. split; [by apply HL|done].
    + intros q x y E Hy. apply HR in E as [[-> ->]|E]; [rewrite (blank_slaves _ B) in Hy; by apply elem_of_nil in Hy|].
      destruct (P2 _ _ _ E Hy) as (z & Ez & ?). exists z. split; [by apply HL|done].
    + intros q x E. apply HR in E as [[-> ->]|E]; [rewrite (blank_slaves _ B); apply NoDup_nil_2|by apply (P3 q)].
  - intros q x E. apply HR in E as [[-> ->]|E]; [by apply blank_role|by apply (Ro q)].
  - split.
    + intros l k q Ek Eq. destruct (K1 _ _ _ Ek Eq) as (z & Ez & ?). exists z. split; [by apply HL|done].
    + intros q x l E El. apply HR in E as [[-> ->]|E]; [rewrite (blank_link _ B) in El; done|by apply (K2 q x)].
  - split; cbn.
    + intros j q E. destruct (T1 j q E). auto.
    + intros j q E. destruct (T2 j q E). auto.
    + intros q x E. apply HR in E as [[-> ->]|E].
      * split; rewrite (blank_reports _ B); [apply NoDup_nil_2|]. intros r Hr. by apply elem_of_nil in Hr.
      * destruct (T3 q x E). split; auto.
  - exists m. cbn. split; [by apply HL|]. split; [done|]. intros Hsl. destruct (Hs Hsl) as (? & x & nx & ? & Ex & ?).
    split; [done|]. exists x, nx. split; [done|]. split; [by apply HL|done].
Qed.

Lemma new_node_blank nm fl t : flags_ok fl -> blank (new_node nm fl t).
Proof. by split. Qed.

(** The three steps that add a node. *)
Definition add_node (o : option string) (fl : Z) (f : clusterNode -> clusterNode) : M unit :=
  p ← createClusterNode o fl; _ ← upd p f; _ ← clusterAddNode p; mret tt.

Lemma wp_add_node L s o fl f : inv s -> flags_ok fl ->
  (forall nm, o = Some nm -> c_nodes s !! nm = None /\ not_random s nm) ->
  (forall n, blank n -> blank (f n) /\ n_name (f n) = n_name n) ->
  wp (add_node o fl f) (fun _ t => Revo L s t) s.
Proof.
  intros I Hfl Ho Hf. unfold add_node, createClusterNode. apply wp_bind, wp_bind.
  set (d := match o with Some _ => s_draws s
            | None => mkDraws (nums_drawn (s_draws s)) (Datatypes.S (names_drawn (s_draws s))) (connects_drawn (s_draws s)) end).
  set (nm := match o with Some nm => nm | None => random_name (names_drawn (s_draws s)) end).
  set (p := fresh (dom (heap s))). assert (Ep : heap s !! p = None) by (apply not_elem_of_dom, is_fresh).
  set (n := f (new_node nm fl (mstime (s_clock s)))).
  destruct (Hf (new_node nm fl (mstime (s_clock s))) (new_node_blank _ _ _ Hfl)) as [Bn Nn]. cbn in Nn.
  assert (Hnm : c_nodes s !! nm = None /\ forall k, (names_drawn d <= k)%nat -> nm <> random_name k).
  { subst nm d. destruct o as [nm|]; [by apply Ho|]. cbn. split.
    - destruct (c_nodes s !! _) as [q|] eqn:E; [|done]. destruct (names_fresh _ (inv_names _ I) _ (names_drawn (s_draws s)) (ex_intro _ q E)); [done|done].
    - intros k Hk E. apply random_name_inj in E. lia. }
  assert (Hd : (names_drawn (s_draws s) <= names_drawn d)%nat) by (subst d; destruct o; cbn; lia).
  destruct Hnm as [Hn1 Hn2]. rewrite <- Nn in Hn1, Hn2.
  pose proof (inv_new s p n d I Ep Bn Hn1 Hd Hn2) as It.
  assert (Hfin : wp (p ← alloc_node (new_node nm fl (mstime (s_clock s))); _ ← upd p f; _ ← clusterAddNode p; mret tt)
    (fun _ t => Revo L s t) (set_s_draws d s)).
  { apply wp_bind. unfold alloc_node, wp at 1. cbn [heap set_s_draws]. fold p.
    apply wp_bind, wp_upd. eexists. split; [cbn; apply lookup_insert_eq|]. cbn [heap set_heap set_s_draws]. rewrite insert_insert_eq. fold n.
    apply wp_bind. unfold clusterAddNode. apply wp_bind, wp_rd. exists n. split; [cbn; apply lookup_insert_eq|].
    apply wp_bind. unfold gets, wp at 1. cbn [c_nodes set_heap set_s_draws]. change (c_nodes s !! n_name n = None) in Hn1. rewrite Hn1.
    apply wp_bind. unfold modify, wp at 1. apply wp_ret. apply wp_ret. split; [exact It|]. split; cbn; try done.
    - intros nm' q E. rewrite lookup_insert_ne; [done|]. intros E'. fold n in Hn1. congruence.
    - intros q x E. exists x. split; [|done]. rewrite lookup_insert_ne; [done|]. intros <-. congruence. }
  destruct o as [nm0|].
  - apply wp_ret. replace (set_s_draws d s) with s in Hfin by (by destruct s). 
    unfold wp, mbind, M_bind in *. cbn in *. exact Hfin.
  - unfold wp, mbind, M_bind in *. cbn in *. exact Hfin.
Qed.

Lemma wp_add_node_then {A} o fl f (k : M A) Q s : wp (add_node o fl f) (fun _ t => wp k Q t) s ->
  wp (p ← createClusterNode o fl; _ ← upd p f; _ ← clusterAddNode p; k) Q s.
Proof.
  unfold add_node, wp, mbind, M_bind. destruct (createClusterNode o fl s) as [[p s1]|]; [|done].
  destruct (upd p f s1) as [[? s2]|]; [|done]. destruct (clusterAddNode p s2) as [[? s3]|]; done.
Qed.

(** ** Deleting a node *)

(** Nothing but pointers go away. *)
Record shrinks (s t : server) : Prop := {
  sh_me : c_myself t = c_myself s;
  sh_nodes : c_nodes t = c_nodes s;
  sh_slots j p : c_slots t !! j = Some p -> c_slots s !! j = Some p;
  sh_importing j p : c_importing_slots_from t !! j = Some p -> c_importing_slots_from s !! j = Some p;
  sh_migrating j p : c_migrating_slots_to t !! j = Some p -> c_migrating_slots_to s !! j = Some p;
  sh_links : links t = links s;
  sh_names : names_drawn (s_draws t) = names_drawn (s_draws s);
  sh_heap : agree slotless (heap s) (heap t)
}.
Lemma sh_refl s : shrinks s s.
Proof. by split. Qed.
Lemma sh_trans s t u : shrinks s t -> shrinks t u -> shrinks s u.
Proof.
  intros S1 S2. split; try (etrans; [by apply S2|by apply S1]).
  - intros j p E. by apply S1, S2.
  - intros j p E. by apply S1, S2.
  - intros j p E. by apply S1, S2.
  - eapply agree_trans; [by apply S1|by apply S2].
Qed.

(** No table leads from slot [j] to [d]. *)
Definition cleared (d : ptr) (s : server) (j : Z) : Prop :=
  c_slots s !! j <> Some d /\ c_importing_slots_from s !! j <> Some d /\ c_migrating_slots_to s !! j <> Some d.

Lemma cleared_shrinks d s t j : shrinks s t -> cleared d s j -> cleared d t j.
Proof.
  intros S (H1 & H2 & H3). split; [|split].
  - intros E. by apply H1, (sh_slots _ _ S).
  - intros E. by apply H2, (sh_importing _ _ S).
  - intros E. by apply H3, (sh_migrating _ _ S).
Qed.

(** The tables of open slots may lose entries. *)
Lemma inv_open s t : inv s -> shrinks s t -> heap t = heap s -> c_slots t = c_slots s -> inv t.
Proof.
  intros I S Eh Es. split.
  - eapply names_same; [by apply I|by apply S..|]. by rewrite Eh.
  - rewrite Es, Eh. apply I.
  - rewrite Eh. apply I.
  - rewrite Eh. apply I.
  - rewrite (sh_links _ _ S), Eh. apply I.
  - eapply ptrs_same; [by apply I|by rewrite Eh|apply S|apply S|]. rewrite Eh. apply (reports_ptr _ (inv_ptrs _ I)).
  - eapply me_same; [by apply I|by apply S|]. by rewrite Eh.
Qed.

(** The body of the first loop of [clusterDelNode]. *)
Definition clear_slot (d : ptr) (j : Z) : M unit :=
  _ ← modify (fun s => if decide (c_importing_slots_from s !! j = Some d)
                       then set_c_importing_slots_from (delete j (c_importing_slots_from s)) s else s);
  _ ← modify (fun s => if decide (c_migrating_slots_to s !! j = Some d)
                       then set_c_migrating_slots_to (delete j (c_migrating_slots_to s)) s else s);
  m ← gets c_slots;
  when (bool_decide (m !! j = Some d)) (_ ← clusterDelSlot j; mret tt).

Lemma wp_clear_slot d j s : inv s -> wp (clear_slot d j) (fun _ t => inv t /\ shrinks s t /\ cleared d t j) s.
Proof.
  intros I. unfold clear_slot. apply wp_bind. unfold modify, wp at 1. cbv beta.
  set (s1 := if decide (c_importing_slots_from s !! j = Some d) then _ else s).
  assert (S1 : shrinks s s1 /\ heap s1 = heap s /\ c_slots s1 = c_slots s /\ c_importing_slots_from s1 !! j <> Some d).
  { subst s1. case_decide as Hd; [|done]. split; [split; try done|].
    - cbn. intros i p E. by apply lookup_delete_Some in E as [_ E].
    - cbn. by rewrite lookup_delete_eq. }
  destruct S1 as (S1 & H1 & C1 & D1). pose proof (inv_open _ _ I S1 H1 C1) as I1.
  apply wp_bind. unfold wp at 1. cbv beta. set (s2 := if decide (c_migrating_slots_to s1 !! j = Some d) then _ else s1).
  assert (S2 : shrinks s1 s2 /\ heap s2 = heap s1 /\ c_slots s2 = c_slots s1 /\ c_importing_slots_from s2 !! j <> Some d /\
    c_migrating_slots_to s2 !! j <> Some d).
  { subst s2. case_decide as Hd; [|done]. split; [split; try done|].
    - cbn. intros i p E. by apply lookup_delete_Some in E as [_ E].
    - cbn. by rewrite lookup_delete_eq. }
  destruct S2 as (S2 & H2 & C2 & D2 & D3). pose proof (inv_open _ _ I1 S2 H2 C2) as I2.
  apply wp_bind. unfold gets, wp at 1. pose proof (sh_trans _ _ _ S1 S2) as S12. apply wp_when; intros Hb.
  - apply wp_bind. eapply wp_mono; [by apply wp_delslot|]. intros r t (It & St & Et & _). apply wp_ret.
    assert (S3 : shrinks s2 t).
    { split; try apply St.
      - intros i p. rewrite Et. intros [_ E]%lookup_delete_Some. done.
      - by rewrite (ss_importing _ _ St).
      - by rewrite (ss_migrating _ _ St). }
    split; [done|]. split; [by eapply sh_trans|].
    split; [by rewrite Et, lookup_delete_eq|]. by rewrite (ss_importing _ _ St), (ss_migrating _ _ St).
  - split; [done|]. split; [done|]. split; [by apply bool_decide_eq_false in Hb|done].
Qed.

Lemma wp_clear_slots d js s : inv s ->
  wp (forM js (clear_slot d)) (fun _ t => inv t /\ shrinks s t /\ forall j, j ∈ js -> cleared d t j) s.
Proof.
  revert s. induction js as [|j js IH]; intros s I; cbn [forM].
  - apply wp_ret. split; [done|]. split; [apply sh_refl|]. intros j Hj. by apply elem_of_nil in Hj.
  - apply wp_bind. eapply wp_mono; [by apply wp_clear_slot|]. intros _ s1 (I1 & S1 & C1).
    eapply wp_mono; [by apply IH|]. intros _ t (It & St & Ct). split; [done|]. split; [by eapply sh_trans|].
    intros i Hi. apply elem_of_cons in Hi as [->|Hi]; [by eapply cleared_shrinks|by apply Ct].
Qed.

(** The reports of [d] are deleted. *)
Definition noreport (d : ptr) (s : server) (q : ptr) : Prop := forall n, heap s !! q = Some n -> d ∉ (n_fail_reports n).*1.

Lemma wp_conj {A} (m : M A) P Q s : wp m P s -> wp m Q s -> wp m (fun a t => P a t /\ Q a t) s.
Proof. unfold wp. by destruct (m s) as [[? ?]|]. Qed.

Lemma wp_delreport s p d : inv s -> live s p ->
  wp (clusterNodeDelFailureReport p d) (fun _ t => soft s t /\ noreport d t p /\ forall q, noreport d s q -> noreport d t q) s.
Proof.
  intros I [n E]. pose proof (reports_ptr _ (inv_ptrs _ I) _ _ E) as [Hnd Hr]. apply wp_conj.
  { eapply wp_mono; [apply (quiet_delreport s); [by exists n|by apply soft_refl]|]. by intros a t [? _]. }
  unfold clusterNodeDelFailureReport. apply wp_bind, wp_rd. exists n. split; [done|].
  pose proof (del_report_spec d (n_fail_reports n)) as Hd. destruct (del_report d (n_fail_reports n)) as [l|].
  - apply wp_bind, wp_upd. exists n. split; [done|]. apply wp_bind. unfold clusterNodeCleanupFailureReports.
    apply wp_bind. unfold cfg, gets, wp at 1. apply wp_bind. unfold now, gets, wp at 1.
    apply wp_upd. eexists. split; [cbn; apply lookup_insert_eq|]. apply wp_ret. cbn [heap set_heap]. rewrite insert_insert_eq.
    match goal with |- context [<[p := ?x]> (heap s)] => set (n1 := x) end.
    assert (Hno : d ∉ (n_fail_reports n1).*1).
    { cbn. intros Hin. apply list_elem_of_fmap in Hin as (r & -> & Hin). apply list_elem_of_filter in Hin as [_ Hin].
      apply (proj1 Hd) in Hnd as [_ Hnd]. apply Hnd. apply list_elem_of_fmap. by exists r. }
    split.
    + intros n' En'. cbn in En'. rewrite lookup_insert_eq in En'. by injection En' as <-.
    + intros q Hq n' En'. cbn in En'. destruct (decide (p = q)) as [->|Hne].
      * rewrite lookup_insert_eq in En'. by injection En' as <-.
      * rewrite lookup_insert_ne in En' by done. by apply Hq.
  - apply wp_ret. split; [|done]. intros n' En'. rewrite E in En'. by injection En' as <-.
Qed.

Lemma wp_delreports d l s : inv s -> (forall p, p ∈ l -> live s p) ->
  wp (forM l (fun p => when (negb (bool_decide (p = d))) (_ ← clusterNodeDelFailureReport p d; mret tt)))
    (fun _ t => soft s t /\ (forall p, p ∈ l -> p <> d -> noreport d t p) /\ forall q, noreport d s q -> noreport d t q) s.
Proof.
  revert s. induction l as [|p l IH]; intros s I Hl; cbn [forM].
  - apply wp_ret. split; [by apply soft_refl|]. split; [|done]. intros p Hp. by apply elem_of_nil in Hp.
  - apply wp_bind. assert (Hstep : wp (when (negb (bool_decide (p = d))) (_ ← clusterNodeDelFailureReport p d; mret tt))
      (fun _ t => soft s t /\ (p <> d -> noreport d t p) /\ forall q, noreport d s q -> noreport d t q) s).
    { apply wp_when; intros Hb.
      - apply wp_bind. eapply wp_mono; [apply wp_delreport; [done|apply Hl; left]|]. intros r t (S & N & K). by apply wp_ret.
      - apply negb_false_iff, bool_decide_eq_true in Hb. split; [by apply soft_refl|]. done. }
    eapply wp_mono; [exact Hstep|]. intros _ s1 (S1 & N1 & K1). pose proof (inv_soft _ _ I S1) as I1.
    eapply wp_mono; [apply IH; [done|]|].
    + intros q Hq. apply (soft_live _ _ _ S1), Hl. by right.
    + intros _ t (St & Nt & Kt). split; [by eapply soft_trans|]. split; [|auto].
      intros q Hq Hne. apply elem_of_cons in Hq as [->|Hq]; [by apply Kt, N1|by apply Nt].
Qed.

(** A node after another one, [d], is freed. *)
Record without (d : ptr) (n n' : clusterNode) : Prop := {
  wo_name : n_name n' = n_name n;
  wo_roles : roles (n_flags n') = roles (n_flags n);
  wo_slots : n_slots n' = n_slots n;
  wo_numslots : n_numslots n' = n_numslots n;
  wo_link : n_link n' = n_link n;
  wo_reports : n_fail_reports n' = n_fail_reports n;
  wo_slaveof : n_slaveof n' = if decide (n_slaveof n = Some d) then None else n_slaveof n;
  wo_slaves : NoDup (n_slaves n) -> NoDup (n_slaves n') /\ forall q, q ∈ n_slaves n' <-> q ∈ n_slaves n /\ q <> d
}.

(** The state after [d] is freed. *)
Record gone (d : ptr) (s t : server) : Prop := {
  go_me : c_myself t = c_myself s;
  go_nodes : forall n, heap s !! d = Some n -> c_nodes t = delete (n_name n) (c_nodes s);
  go_slots : c_slots t = c_slots s;
  go_importing : c_importing_slots_from t = c_importing_slots_from s;
  go_migrating : c_migrating_slots_to t = c_migrating_slots_to s;
  go_names : names_drawn (s_draws t) = names_drawn (s_draws s);
  go_links l k : links t !! l = Some k <-> links s !! l = Some k /\ l_node k <> Some d;
  go_d : heap t !! d = None;
  go_l q n' : heap t !! q = Some n' -> exists n, heap s !! q = Some n /\ without d n n';
  go_r q n : heap s !! q = Some n -> q <> d -> exists n', heap t !! q = Some n' /\ without d n n'
}.

Lemma without_role d n n' : without d n n' -> role_ok n -> role_ok n'.
Proof.
  intros W. unfold role_ok, nodeInHandshake, nodeIsMaster, nodeIsSlave.
  destruct (roles_fields _ _ (wo_roles _ _ _ W)) as (-> & -> & ->). rewrite (wo_numslots _ _ _ W), (wo_slaveof _ _ _ W).
  intros Ro. destruct (has (n_flags n) CLUSTER_NODE_HANDSHAKE).
  - destruct Ro as (? & ? & -> & ?). by rewrite decide_False.
  - destruct Ro as [? Ro]. split; [done|]. intros Hs. rewrite Ro by done. by rewrite decide_False.
Qed.

Lemma inv_gone d s t m : inv s -> live s d -> gone d s t -> heap s !! c_myself s = Some m -> d <> c_myself s -> n_slaveof m <> Some d ->
  (forall j, slot_ok j -> cleared d s j) -> (forall q, q <> d -> noreport d s q) -> inv t.
Proof.
  intros I [nd Ed] G Em Hdm Hmd HC HN. pose proof (fun q n' => go_l _ _ _ G q n') as GL. pose proof (fun q n => go_r _ _ _ G q n) as GR.
  assert (GNE : forall q n', heap t !! q = Some n' -> q <> d) by (intros q n' E ->; by rewrite (go_d _ _ _ G) in E).
  destruct I as [[N1 N2 N3] [B1 B2] [P1 P2 P3] Ro [K1 K2] [T1 T2 T3] (m' & Em' & Hm & Hs)]. rewrite Em in Em'. injection Em' as <-. split.
  - split; rewrite (go_nodes _ _ _ G nd Ed), ?(go_names _ _ _ G).
    + intros nm p E. apply lookup_delete_Some in E as [Hne E]. destruct (N1 _ _ E) as (n & En & Hn).
      destruct (GR p n En) as (n' & En' & W); [intros ->; congruence|]. exists n'. split; [done|]. by rewrite (wo_name _ _ _ W).
    + intros p n' E. pose proof (GNE _ _ E) as Hp. destruct (GL _ _ E) as (n & En & W). rewrite (wo_name _ _ _ W). pose proof (N2 _ _ En) as E'.
      rewrite lookup_delete_ne; [done|]. intros Hn. pose proof (N2 _ _ Ed). congruence.
    + intros nm k [p E] Hk. apply lookup_delete_Some in E as [_ E]. apply N3; [by exists p|done].
  - split.
    + intros p n' E. destruct (GL _ _ E) as (n & En & W). rewrite (wo_slots _ _ _ W), (wo_numslots _ _ _ W). by apply (B1 p).
    + intros j p. rewrite (go_slots _ _ _ G), B2. split.
      * intros (Hj & n & En & T). split; [done|]. destruct (GR p n En) as (n' & En' & W).
        -- intros ->. destruct (HC j Hj) as [Hc _]. apply Hc, B2. by split; [|exists n].
        -- exists n'. by rewrite (wo_slots _ _ _ W).
      * intros (Hj & n' & En' & T). split; [done|]. destruct (GL _ _ En') as (n & En & W). exists n. by rewrite <- (wo_slots _ _ _ W).
  - split.
    + intros p n' x E Eo. pose proof (GNE _ _ E) as Hp. destruct (GL _ _ E) as (n & En & W). rewrite (wo_slaveof _ _ _ W) in Eo. case_decide as Hd; [done|].
      destruct (P1 _ _ _ En Eo) as (nx & Enx & Hin). destruct (GR x nx Enx) as (nx' & Enx' & W'); [congruence|]. exists nx'. split; [done|].
      apply (wo_slaves _ _ _ W'); [by eapply P3|]. done.
    + intros p n' q E Hq. pose proof (GNE _ _ E) as Hp. destruct (GL _ _ E) as (n & En & W).
      apply (wo_slaves _ _ _ W) in Hq as [Hq Hqd]; [|by eapply P3]. destruct (P2 _ _ _ En Hq) as (nq & Enq & Hof).
      destruct (GR q nq Enq Hqd) as (nq' & Enq' & W'). exists nq'. split; [done|]. rewrite (wo_slaveof _ _ _ W'), decide_False; [done|congruence].
    + intros p n' E. destruct (GL _ _ E) as (n & En & W). apply (wo_slaves _ _ _ W). by eapply P3.
  - intros p n' E. destruct (GL _ _ E) as (n & En & W). by eapply without_role, Ro.
  - split.
    + intros l k p Ek Ep. apply (go_links _ _ _ G) in Ek as [Ek Hd]. destruct (K1 _ _ _ Ek Ep) as (n & En & El).
      destruct (GR p n En) as (n' & En' & W); [congruence|]. exists n'. by rewrite (wo_link _ _ _ W).
    + intros p n' l E El. pose proof (GNE _ _ E) as Hp. destruct (GL _ _ E) as (n & En & W). rewrite (wo_link _ _ _ W) in El.
      destruct (K2 _ _ _ En El) as (k & Ek & Ep). exists k. split; [|done]. apply (go_links _ _ _ G). split; [done|congruence].
  - assert (D : forall p, p <> d -> is_Some (heap s !! p) -> is_Some (heap t !! p)).
    { intros p Hp [n En]. destruct (GR p n En Hp) as (n' & En' & _). by exists n'. }
    split; rewrite ?(go_importing _ _ _ G), ?(go_migrating _ _ _ G).
    + intros j p E. destruct (T1 _ _ E) as [Hj Hp]. split; [done|]. apply D; [|done]. intros ->. by destruct (HC j Hj) as (_ & ? & _).
    + intros j p E. destruct (T2 _ _ E) as [Hj Hp]. split; [done|]. apply D; [|done]. intros ->. by destruct (HC j Hj) as (_ & _ & ?).
    + intros p n' E. pose proof (GNE _ _ E) as Hp. destruct (GL _ _ E) as (n & En & W). destruct (T3 _ _ En) as [R1 R2].
      split; rewrite (wo_reports _ _ _ W); [done|]. intros r Hr. apply D; [|by apply R2]. intros Erd.
      apply (HN p Hp n En). rewrite <- Erd. apply list_elem_of_fmap. by exists r.
  - destruct (GR _ m Em) as (m' & Em' & W); [done|]. exists m'. rewrite (go_me _ _ _ G). split; [done|].
    unfold nodeInHandshake, nodeIsSlave in *. destruct (roles_fields _ _ (wo_roles _ _ _ W)) as (_ & -> & ->). split; [done|].
    intros Hsl. destruct (Hs Hsl) as (Hz & x & nx & Ex & Enx & Hx). rewrite (wo_numslots _ _ _ W). split; [done|].
    destruct (GR x nx Enx) as (nx' & Enx' & W'); [congruence|]. exists x, nx'. rewrite (wo_slaveof _ _ _ W), decide_False by done.
    split; [done|]. split; [done|]. by destruct (roles_fields _ _ (wo_roles _ _ _ W')) as (_ & _ & ->).
Qed.

(** All nodes of a list lose their master. *)
Definition orphan (l : list ptr) (h : gmap ptr clusterNode) : gmap ptr clusterNode :=
  foldl (fun h q => alter (set_n_slaveof None) q h) h l.
Lemma orphan_lookup l h q : orphan l h !! q = if decide (q ∈ l) then set_n_slaveof None <$> h !! q else h !! q.
Proof.
  revert h. induction l as [|p l IH]; intros h; cbn [orphan foldl]; [by rewrite decide_False by (by intros ?%elem_of_nil)|].
  fold (orphan l (alter (set_n_slaveof None) p h)). rewrite IH, lookup_alter_if.
  destruct (decide (q ∈ l)) as [Hq|Hq].
  - rewrite (decide_True (P := q ∈ p :: l)) by (by right). case_decide; [|done]. by destruct (h !! q).
  - destruct (decide (p = q)) as [->|Hne]; [by rewrite decide_True by left|]. rewrite decide_False; [done|].
    rewrite elem_of_cons. naive_solver.
Qed.
Lemma wp_orphan l s Q : (forall q, q ∈ l -> live s q) -> Q tt (set_heap (orphan l (heap s)) s) ->
  wp (forM l (fun q => upd q (set_n_slaveof None))) Q s.
Proof.
  revert s. induction l as [|p l IH]; intros s Hl HQ; cbn [forM].
  - apply wp_ret. cbn in HQ. by replace (set_heap (heap s) s) with s in HQ by (by destruct s).
  - apply wp_bind, wp_upd_alter; [apply Hl; left|]. apply IH; [intros q Hq; apply live_alter, Hl; by right|]. exact HQ.
Qed.

(** The heap after the pointers from and to [d] are taken out. *)
Lemma cut_without d s nd old q n' : inv s -> heap s !! d = Some nd -> q <> d ->
  old = (if decide (d ∈ n_slaves nd) then None else n_slaveof nd) ->
  leave d old (orphan (n_slaves nd) (heap s)) !! q = Some n' -> exists n, heap s !! q = Some n /\ without d n n'.
Proof.
  intros I Ed Hq Hold E. apply leave_lookup in E as (n1 & E1 & Sl & HL). rewrite orphan_lookup in E1.
  pose proof (inv_repl _ I) as R.
  assert (Hn : exists n, heap s !! q = Some n /\ n1 = (if decide (q ∈ n_slaves nd) then set_n_slaveof None n else n)).
  { case_decide; [|by exists n1]. destruct (heap s !! q) as [n|]; [|done]. injection E1 as <-. by exists n. }
  destruct Hn as (n & En & Hn1). exists n. split; [done|].
  assert (Hs1 : n_slaves n1 = n_slaves n) by (rewrite Hn1; by case_decide).
  assert (Ho1 : n_slaveof n1 = if decide (n_slaveof n = Some d) then None else n_slaveof n).
  { rewrite Hn1. destruct (decide (q ∈ n_slaves nd)) as [Hin|Hin]; destruct (decide (n_slaveof n = Some d)) as [Ho|Ho]; try done.
    - destruct (slaves_slaveof _ R _ _ _ Ed Hin) as (n2 & En2 & ?). congruence.
    - destruct (slaveof_slaves _ R _ _ _ En Ho) as (n2 & En2 & ?). congruence. }
  apply slaveless_fields in Sl as (S1 & S2 & S3 & S4 & S5 & S6 & S7). rewrite Hs1 in HL.
  split; try (etrans; [eassumption|]; rewrite Hn1; by destruct (decide (q ∈ n_slaves nd))).
  - by rewrite S5, Ho1.
  - intros Hnd. destruct (HL Hnd) as (H1 & H2 & H3). split; [done|]. intros y. destruct (decide (y = d)) as [->|Hyd].
    + rewrite H3. split; [|tauto]. intros [Hin Hne]. exfalso. apply Hne.
      destruct (slaves_slaveof _ R _ _ _ En Hin) as (n2 & En2 & Ho2). rewrite Ed in En2. injection En2 as <-. rewrite Hold.
      destruct (decide (d ∈ n_slaves nd)) as [Hself|Hself]; [|done]. destruct (slaves_slaveof _ R _ _ _ Ed Hself) as (n2 & En2 & Ho3). congruence.
    + rewrite H2 by done. tauto.
Qed.

Lemma cut_live d s nd old q : is_Some (leave d old (orphan (n_slaves nd) (heap s)) !! q) <-> is_Some (heap s !! q).
Proof.
  unfold leave. destruct old; rewrite ?alter_live, orphan_lookup; (case_decide; [apply fmap_is_Some|done]).
Qed.

Lemma gone_cut d s nd old lks : inv s -> heap s !! d = Some nd ->
  old = (if decide (d ∈ n_slaves nd) then None else n_slaveof nd) ->
  (forall l k, lks !! l = Some k <-> links s !! l = Some k /\ l_node k <> Some d) ->
  gone d s (set_heap (delete d (leave d old (orphan (n_slaves nd) (heap s))))
    (set_links lks (set_c_nodes (delete (n_name nd) (c_nodes s)) s))).
Proof.
  intros I Ed Ho Hl. split; try done; cbn.
  - intros n E. rewrite Ed in E. by injection E as <-.
  - apply lookup_delete_eq.
  - intros q n' E. apply lookup_delete_Some in E as [Hne E]. by eapply cut_without.
  - intros q n E Hne. destruct (proj2 (cut_live d s nd old q)) as [n' E']; [by exists n|].
    destruct (cut_without d s nd old q n' I Ed Hne Ho E') as (n0 & E0 & W). rewrite E in E0. injection E0 as <-.
    exists n'. by rewrite lookup_delete_ne.
Qed.

Lemma wp_freenode d s nd : inv s -> heap s !! d = Some nd -> wp (freeClusterNode d) (fun _ t => gone d s t) s.
Proof.
  intros I Ed. unfold freeClusterNode. apply wp_bind, wp_rd. exists nd. split; [done|].
  apply wp_bind, wp_orphan; [intros q Hq; by eapply (seen_slaves s I nd d); [exists nd|]|].
  set (h1 := orphan (n_slaves nd) (heap s)). set (old := if decide (d ∈ n_slaves nd) then None else n_slaveof nd).
  assert (E1 : exists n1, h1 !! d = Some n1 /\ n_slaveof n1 = old /\ slaveless (set_n_slaveof None n1) = slaveless (set_n_slaveof None nd)).
  { subst h1 old. rewrite orphan_lookup, Ed. case_decide; eauto. }
  destruct E1 as (n1 & E1 & Eo1 & (N1 & F1 & _ & _ & _ & L1 & _)%slaveless_fields). apply wp_bind, wp_rd. exists n1. split; [done|]. apply wp_bind.
  assert (Hend : wp (n ← rd d; ok ← dictDelete_node (n_name n); _ ← serverAssert ok;
      _ ← (match n_link n with Some l => freeClusterLink l | None => mret tt end);
      modify (fun s => set_heap (delete d (heap s)) s)) (fun _ t => gone d s t) (set_heap (leave d old h1) s)).
  { assert (E2 : exists n2, leave d old h1 !! d = Some n2 /\ slaveless n2 = slaveless n1).
    { destruct (proj2 (cut_live d s nd old d)) as [n2 E2]; [by exists nd|]. exists n2. split; [done|].
      apply leave_lookup in E2 as (n0 & E0 & Sl & _). change (h1 !! d = Some n0) in E0. rewrite E1 in E0. by injection E0 as <-. }
    destruct E2 as (n2 & E2 & (N2 & _ & _ & _ & _ & L2 & _)%slaveless_fields).
    assert (N2' : n_name n2 = n_name nd) by (rewrite N2; exact N1). assert (L2' : n_link n2 = n_link nd) by (rewrite L2; exact L1).
    apply wp_bind, wp_rd. exists n2. split; [done|]. apply wp_bind. unfold dictDelete_node. apply wp_bind. unfold gets, wp at 1.
    cbn [c_nodes set_heap]. rewrite N2', (heap_names _ (inv_names _ I) _ _ Ed). apply wp_bind. unfold modify, wp at 1. apply wp_ret.
    apply wp_bind. cbn [serverAssert]. apply wp_ret. rewrite L2'. apply wp_bind. destruct (n_link nd) as [l|] eqn:El.
    - destruct (node_link _ _ (inv_links _ I) _ _ _ Ed El) as (k & Ek & Ek'). unfold freeClusterLink.
      apply wp_bind, wp_rdl. exists k. split; [done|]. rewrite Ek'. apply wp_bind, wp_upd_alter; [by exists n2|].
      unfold modify, wp. cbn. rewrite delete_alter, decide_True by done. pose proof (gone_cut d s nd old (delete l (links s)) I Ed eq_refl) as HG.
      apply HG. intros l' k'. rewrite lookup_delete_Some. split; intros [H1 H2].
      + split; [done|]. intros Hk. destruct (link_node _ _ (inv_links _ I) _ _ _ H2 Hk) as (n3 & En3 & El3). congruence.
      + split; [|done]. intros <-. congruence.
    - apply wp_ret. unfold modify, wp. cbn. pose proof (gone_cut d s nd old (links s) I Ed eq_refl) as HG.
      apply HG. intros l k. split; [|tauto]. intros Ek. split; [done|]. intros Hk.
      destruct (link_node _ _ (inv_links _ I) _ _ _ Ek Hk) as (n3 & En3 & El3). congruence. }
  pose proof (inv_roles _ I _ _ Ed) as Ro. unfold role_ok in Ro.
  destruct (n_slaveof n1) as [mm|] eqn:Em1.
  - assert (Hsl : nodeIsSlave n1 = true).
    { assert (Eo : n_slaveof nd = Some mm) by (subst old; revert Eo1; by case_decide).
      unfold nodeIsSlave. apply roles_fields in F1 as (_ & F1 & _). change (n_flags (set_n_slaveof None n1)) with (n_flags n1) in F1.
      rewrite F1. change (n_flags (set_n_slaveof None nd)) with (n_flags nd).
      destruct (nodeInHandshake nd); [destruct Ro as (_ & _ & Ro & _); congruence|]. destruct Ro as [_ Ro].
      change (nodeIsSlave nd = true). destruct (nodeIsSlave nd); [done|]. rewrite Ro in Eo by done. done. }
    rewrite Hsl. cbn [when]. apply wp_bind, wp_removeslave.
    + unfold live. cbn. subst h1. rewrite orphan_lookup. assert (Eo : n_slaveof nd = Some mm) by (subst old; revert Eo1; by case_decide).
      destruct (seen_slaveof s I nd d mm) as [x Ex]; [by exists nd|done|]. rewrite Ex. case_decide; eauto.
    + intros r. apply wp_ret. rewrite <- Eo1 in Hend. exact Hend.
  - apply wp_ret. rewrite <- Eo1 in Hend. exact Hend.
Qed.

(** What is left after [clusterDelNode]. *)
Record deleted (d : ptr) (s t : server) : Prop := {
  de_me : c_myself t = c_myself s;
  de_heap q n : heap s !! q = Some n -> q <> d -> exists n', heap t !! q = Some n' /\ n_name n' = n_name n /\
    nodeInHandshake n' = nodeInHandshake n /\ (n_slaveof n' = n_slaveof n \/ n_slaveof n = Some d);
  de_nodes nm p : c_nodes t !! nm = Some p <-> c_nodes s !! nm = Some p /\ p <> d;
  de_links l k : links t !! l = Some k <-> links s !! l = Some k /\ l_node k <> Some d;
  de_names : names_drawn (s_draws t) = names_drawn (s_draws s)
}.

Lemma wp_delnode d s m : inv s -> live s d -> heap s !! c_myself s = Some m -> d <> c_myself s -> n_slaveof m <> Some d ->
  wp (clusterDelNode d) (fun _ t => inv t /\ deleted d s t) s.
Proof.
  intros I Hd Em Hdm Hmd. unfold clusterDelNode, for_slots. apply wp_bind.
  eapply wp_mono; [apply (wp_clear_slots d all_slots s I)|]. intros _ s1 (I1 & S1 & C1).
  apply wp_bind. unfold all_nodes, gets, wp at 1. apply wp_bind.
  eapply wp_mono; [apply (wp_delreports d _ s1 I1), (order_live s1 I1)|]. intros _ s2 (S2 & N2 & _).
  pose proof (inv_soft _ _ I1 S2) as I2.
  assert (A : agree slotless (heap s) (heap s2)).
  { eapply agree_trans; [apply S1|]. apply soft_slotsame in S2. apply S2. }
  destruct Hd as [nd Ed]. destruct (agree_r _ _ _ A _ _ Ed) as (nd2 & Ed2 & _).
  destruct (agree_r _ _ _ A _ _ Em) as (m2 & Em2 & (_ & _ & _ & Mo & _)%slotless_fields).
  assert (Eme : c_myself s2 = c_myself s) by (rewrite (soft_me _ _ S2); apply S1).
  eapply wp_mono; [by apply (wp_freenode d s2 nd2)|]. intros ? t G. split.
  - apply (inv_gone d s2 t m2 I2); [by exists nd2|done|by rewrite Eme|by rewrite Eme|congruence| |].
    + intros j Hj. destruct (C1 j) as (c1 & c2 & c3); [by apply all_slots_elem|].
      unfold cleared. by rewrite (soft_slots _ _ S2), (soft_importing _ _ S2), (soft_migrating _ _ S2).
    + intros q Hq n En. apply (N2 q); [|done|done]. rewrite node_order_perm.
      destruct (proj1 (soft_live _ _ q S2)) as [n1 En1]; [by exists n|]. apply (heap_names _ (inv_names _ I1)) in En1.
      apply list_elem_of_fmap. exists (n_name n1, q). split; [done|]. by apply elem_of_map_to_list.
  - split.
    + rewrite (go_me _ _ _ G). done.
    + intros q n E Hq. destruct (agree_r _ _ _ A _ _ E) as (n2 & En2 & Sl). destruct (go_r _ _ _ G q n2 En2 Hq) as (n' & En' & W).
      exists n'. split; [done|]. pose proof (slotless_roles _ _ Sl) as (_ & _ & R3). apply slotless_fields in Sl as (Sn & _ & _ & So & _).
      unfold nodeInHandshake in *. destruct (roles_fields _ _ (wo_roles _ _ _ W)) as (_ & _ & R4).
      split; [rewrite <- Sn; apply (wo_name _ _ _ W)|]. split; [congruence|]. rewrite (wo_slaveof _ _ _ W), So. case_decide; auto.
    + intros nm p. rewrite (go_nodes _ _ _ G nd2 Ed2), (soft_nodes _ _ S2), (sh_nodes _ _ S1). rewrite lookup_delete_Some.
      assert (Ename : n_name nd2 = n_name nd).
      { destruct (agree_r _ _ _ A _ _ Ed) as (x & Ex & Sl). rewrite Ed2 in Ex. injection Ex as <-. by apply slotless_fields in Sl as [-> _]. }
      rewrite Ename. split; intros [H1 H2].
      * split; [done|]. intros ->. destruct (names_heap _ (inv_names _ I) _ _ H2) as (x & Ex & Hx). congruence.
      * split; [|done]. intros <-. rewrite (heap_names _ (inv_names _ I) _ _ Ed) in H1. congruence.
    + intros l k. rewrite (go_links _ _ _ G), (soft_links _ _ S2), (sh_links _ _ S1). done.
    + rewrite (go_names _ _ _ G), (soft_names _ _ S2). apply S1.
Qed.
End Nodes.
End ClusterNodes.
