(* ===== verification/ClusterPackets.v ===== *)
(** * Packets of the cluster bus keep the state well formed (cluster.c)

    [clusterProcessPacket] from a state that satisfies the invariant of [ClusterInv]:
    no assertion fails, no freed object is used, and the invariant holds again.
    [packet_ok] says what the packet has to satisfy: it is what the nodes of a cluster
    send. *)

From Stdlib Require Import String Ascii.
From stdpp Require Import strings pmap.
From S2P Require Import Prelude Cluster ClusterInv ClusterSafe ClusterNodes.

Module ClusterPackets.
Import Cluster ClusterInv ClusterSafe ClusterNodes.

Section Packets.
Context `{World} `{!WorldLaws}.

(** ** Gossip *)

(** The node of the link does not have this name. *)
Definition apart (s : server) (L : ptr) (nm : string) : Prop :=
  forall k p n, links s !! L = Some k -> l_node k = Some p -> heap s !! p = Some n -> n_name n <> nm.

Lemma apart_evo L s t nm : inv s -> Revo L s t -> apart s L nm -> apart t L nm.
Proof.
  intros I [It E] HA k p n' Ek Ep En. rewrite (ev_link _ _ _ E) in Ek.
  destruct (link_node _ _ (inv_links _ I) _ _ _ Ek Ep) as (n & En0 & _).
  destruct (ev_heap _ _ _ E _ _ En0) as (n1 & En1 & Nn & _). rewrite En in En1. injection En1 as <-. rewrite Nn. by eapply HA.
Qed.

Lemma not_random_evo L s t nm : Revo L s t -> not_random s nm -> not_random t nm.
Proof. intros [_ E] Hn k Hk. apply Hn. pose proof (ev_names _ _ _ E). lia. Qed.

(** What a gossip entry satisfies. *)
Record gossip_ok (s : server) (L : ptr) (g : clusterMsgDataGossip) : Prop := {
  go_apart : apart s L (g_nodename g);
  go_random : not_random s (g_nodename g);
  go_flags : flags_ok (g_flags g)
}.

Lemma gossip_ok_evo L s t g : inv s -> Revo L s t -> gossip_ok s L g -> gossip_ok t L g.
Proof. intros I R [G1 G2 G3]. split; [by eapply apart_evo|by eapply not_random_evo|done]. Qed.

Lemma evo_freelink L s0 s l : Revo L s0 s -> linked s l -> l <> L -> wp (freeClusterLink l) (fun _ t => Revo L s0 t) s.
Proof.
  intros R [k Ek] Hne. pose proof R as [I E]. eapply wp_mono; [by apply (wp_freelink L l s k)|]. intros ? t (It & S & _).
  split; [done|]. eapply evo_trans; [exact E|by apply linksame_evo].
Qed.

Lemma evo_gossip_known L s g sender p : inv s -> c_nodes s !! g_nodename g = Some p -> gossip_ok s L g ->
  (forall sp, sender = Some sp -> live s sp) -> wp (gossip_known sender g p) (fun _ t => Revo L s t) s.
Proof.
  intros I Ep G Hs. pose proof (known_live s I _ _ Ep) as Hp. unfold gossip_known.
  apply wp_bind. unfold myself, gets, wp at 1. apply wp_bind.
  eapply (wp_quiet L s _ any); [by apply Revo_refl| |].
  { destruct sender as [sp|]; [|by apply safe_ret]. specialize (Hs sp eq_refl). quiet_run. }
  intros ? s1 R1 S1 _. pose proof R1 as [I1 _]. pose proof (Revo_live _ _ _ _ R1 Hp) as Hp1. apply wp_bind.
  eapply (wp_quiet L s _ (fun n => seen s1 n p)); [exact R1|by apply quiet_rd|]. intros n s2 R2 S2 Hn. pose proof R2 as [I2 _].
  pose proof (Revo_live _ _ _ _ R2 Hp) as Hp2. apply wp_bind. eapply (wp_quiet L s _ any); [exact R2|quiet_run|].
  intros ? s3 R3 S3 _. pose proof R3 as [I3 _]. pose proof (Revo_live _ _ _ _ R3 Hp) as [n3 En3].
  apply wp_bind, wp_rd. exists n3. split; [done|]. apply wp_when; [|done]. intros _. apply wp_bind.
  assert (Hend : forall t, Revo L s t -> wp (_ ← upd p (fun n => set_n_ip (g_ip g) (set_n_port (g_port g) (set_n_cport (g_cport g) n)));
      del_flags p CLUSTER_NODE_NOADDR) (fun _ u => Revo L s u) t).
  { intros t Rt. pose proof Rt as [It _]. pose proof (Revo_live _ _ _ _ Rt Hp) as Hpt.
    eapply (wp_quiet L s _ any); [exact Rt|quiet_run|by intros]. }
  destruct (n_link n3) as [l|] eqn:El; [|by apply wp_ret, Hend].
  destruct (node_link _ _ (inv_links _ I3) _ _ _ En3 El) as (k & Ek & Ekp).
  eapply wp_mono; [apply (evo_freelink L s s3 l R3); [by exists k|]|by intros; apply Hend].
  intros ->. eapply (go_apart _ _ _ (gossip_ok_evo L s s3 g I R3 G)); [exact Ek|exact Ekp|exact En3|].
  destruct (names_heap _ (inv_names _ I3) _ _ (ev_nodes _ _ _ (proj2 R3) _ _ Ep)) as (n4 & En4 & Hn4). congruence.
Qed.

Lemma evo_gossip_unknown L s g sender : inv s -> c_nodes s !! g_nodename g = None -> gossip_ok s L g ->
  wp (gossip_unknown sender g) (fun _ t => Revo L s t) s.
Proof.
  intros I Ep G. unfold gossip_unknown. destruct sender as [sp|]; [|by apply wp_ret, Revo_refl].
  case_match; [by apply wp_ret, Revo_refl|]. apply wp_bind.
  eapply (wp_quiet L s _ any); [by apply Revo_refl|by apply quiet_blacklist_exists|]. intros b s1 R1 S1 _. pose proof R1 as [I1 _].
  destruct b; [by apply wp_ret|]. apply wp_add_node_then. eapply wp_mono.
  - apply (wp_add_node L s1); [done|apply (go_flags _ _ _ G)| |].
    + intros nm [= <-]. rewrite (soft_nodes _ _ S1). split; [done|]. by eapply not_random_evo, (go_random _ _ _ G).
    + intros n [? ? ? ? ? ? ?]. split; [by split|done].
  - intros ? t Rt. apply wp_ret. by eapply Revo_trans.
Qed.

Lemma evo_gossip_section L s hdr gs : inv s -> linked s L -> (forall g, g ∈ gs -> gossip_ok s L g) ->
  wp (clusterProcessGossipSection hdr gs L) (fun _ t => Revo L s t) s.
Proof.
  intros I [k Ek] HG. unfold clusterProcessGossipSection. apply wp_bind, wp_rdl. exists k. split; [done|]. apply wp_bind.
  assert (Hend : forall sender, (forall sp, sender = Some sp -> live s sp) ->
    wp (forM gs (fun g => p ← clusterLookupNode (g_nodename g);
        match p with Some p => gossip_known sender g p | None => gossip_unknown sender g end)) (fun _ t => Revo L s t) s).
  { intros sender Hs. eapply wp_safe; [apply (safe_forM (Revo L s)); intros g Hg|by apply Revo_refl|by intros].
    intros t Rt. pose proof Rt as [It _]. pose proof (gossip_ok_evo L s t g I Rt (HG g Hg)) as G. apply wp_bind.
    unfold clusterLookupNode, gets, wp at 1. destruct (c_nodes t !! g_nodename g) as [p|] eqn:Ep.
    - eapply wp_mono; [apply (evo_gossip_known L t g sender p It Ep G); intros sp E; by eapply Revo_live, Hs|].
      intros ? u Ru. split; [by eapply Revo_trans|done].
    - eapply wp_mono; [apply (evo_gossip_unknown L t g sender It Ep G)|]. intros ? u Ru. split; [by eapply Revo_trans|done]. }
  destruct (l_node k) as [p|] eqn:El.
  - apply wp_ret, Hend. intros sp [= <-]. by eapply link_live.
  - unfold clusterLookupNode, gets, wp. apply Hend. intros sp E. by eapply known_live.
Qed.

(** ** The end of a handshake *)

(** What a rename leaves alone. *)
Definition nameless (n : clusterNode) := (n_slots n, n_numslots n, n_slaves n, n_slaveof n, n_link n, n_fail_reports n).

Lemma nameless_fields n n0 : nameless n = nameless n0 ->
  n_slots n = n_slots n0 /\ n_numslots n = n_numslots n0 /\ n_slaves n = n_slaves n0 /\ n_slaveof n = n_slaveof n0 /\
  n_link n = n_link n0 /\ n_fail_reports n = n_fail_reports n0.
Proof. intros E. unfold nameless in E. repeat apply pair_eq in E as [E ?]. done. Qed.

(** The table of nodes after a rename. *)
Lemma names_rename s p n n' d : names_inv s -> heap s !! p = Some n -> c_nodes s !! n_name n' = None ->
  (names_drawn (s_draws s) <= names_drawn d)%nat ->
  (forall k, (names_drawn d <= k)%nat -> n_name n' <> random_name k) ->
  names_inv (set_c_nodes (<[n_name n' := p]> (delete (n_name n) (c_nodes s))) (set_heap (<[p := n']> (heap s)) (set_s_draws d s))).
Proof.
  intros [N1 N2 N3] Ep Enm Hd Hf. split; cbn.
  - intros nm q [[<- <-]|[Hne (Hn & E)%lookup_delete_Some]]%lookup_insert_Some; [exists n'; by rewrite lookup_insert_eq|].
    destruct (N1 _ _ E) as (x & Ex & Hx). exists x. split; [|done]. rewrite lookup_insert_ne; [done|]. intros <-. congruence.
  - intros q x [[<- <-]|[Hne E]]%lookup_insert_Some; [apply lookup_insert_eq|].
    pose proof (N2 _ _ E) as Ex. rewrite lookup_insert_ne by congruence. rewrite lookup_delete_ne; [done|]. intros Hn.
    rewrite <- Hn, (N2 _ _ Ep) in Ex. congruence.
  - intros nm k [q E] Hk. apply lookup_insert_Some in E as [[<- _]|[Hne (Hn & E)%lookup_delete_Some]]; [by apply Hf|].
    apply N3; [by exists q|lia].
Qed.

Lemma inv_rename s p n n' d : inv s -> heap s !! p = Some n -> c_nodes s !! n_name n' = None ->
  nameless n' = nameless n -> role_ok n' -> nodeInHandshake n' = false -> (nodeInHandshake n = false -> role_view n' = role_view n) ->
  (names_drawn (s_draws s) <= names_drawn d)%nat ->
  (forall k, (names_drawn d <= k)%nat -> n_name n' <> random_name k) ->
  inv (set_c_nodes (<[n_name n' := p]> (delete (n_name n) (c_nodes s))) (set_heap (<[p := n']> (heap s)) (set_s_draws d s))).
Proof.
  intros I Ep Enm (F1 & F2 & F3 & F4 & F5 & F6)%nameless_fields Ro Hh Hv Hd Hf.
  split; [by apply names_rename; [apply I|..]|..]; cbn.
  - eapply slots_same; [apply I|]. eapply agree_insert; [done|]. by rewrite F1, F2.
  - eapply repl_same; [apply I|]. eapply agree_insert; [done|]. by rewrite F3, F4.
  - intros q x [[<- <-]|[Hne E]]%lookup_insert_Some; [done|]. by eapply (inv_roles _ I).
  - eapply links_same; [apply I|]. by eapply agree_insert.
  - eapply ptrs_same; [apply I|..]; cbn; try done.
    + intros q [x E]. destruct (decide (p = q)) as [->|]; [rewrite lookup_insert_eq; eauto|rewrite lookup_insert_ne by done; eauto].
    + intros q x [[<- <-]|[Hne E]]%lookup_insert_Some; [|by eapply (reports_ptr _ (inv_ptrs _ I))].
      unfold reports_ok. rewrite F6. by eapply (reports_ptr _ (inv_ptrs _ I)).
  - destruct (inv_me _ I) as (m & Em & Hm & Hs).
    assert (HM : forall q x, heap s !! q = Some x -> nodeInHandshake x = false ->
      exists x', <[p := n']> (heap s) !! q = Some x' /\ role_view x' = role_view x).
    { intros q x E Hx. destruct (decide (p = q)) as [->|]; [|exists x; by rewrite lookup_insert_ne].
      exists n'. rewrite lookup_insert_eq. split; [done|]. rewrite Ep in E. injection E as <-. by apply Hv. }
    destruct (HM _ _ Em Hm) as (m' & Em' & (V1 & V2 & _ & V4 & V5)%view_fields). exists m'. cbn. split; [done|].
    rewrite V5, V4, V1, V2. split; [done|]. intros Hsl. destruct (Hs Hsl) as (Hz & q & nq & Eq & Enq & Hq). split; [done|].
    destruct (HM _ _ Enq Hq) as (nq' & Enq' & (_ & _ & _ & _ & W5)%view_fields). exists q, nq'. by rewrite W5.
Qed.

Lemma wp_rename_node p n nm Q s : heap s !! p = Some n -> is_Some (c_nodes s !! n_name n) -> c_nodes s !! nm = None ->
  Q tt (set_c_nodes (<[nm := p]> (delete (n_name n) (c_nodes s))) (set_heap (<[p := set_n_name nm n]> (heap s)) s)) ->
  wp (clusterRenameNode p nm) Q s.
Proof.
  intros Ep [q Eq] Enm HQ. unfold clusterRenameNode. apply wp_bind, wp_rd. exists n. split; [done|].
  unfold dictDelete_node. apply wp_bind, wp_bind. unfold gets, wp at 1. rewrite Eq. apply wp_bind. unfold modify, wp at 1. apply wp_ret.
  apply wp_bind. cbn [serverAssert]. apply wp_ret. apply wp_bind, wp_upd. exists n. split; [done|].
  apply wp_bind. unfold clusterAddNode. apply wp_bind, wp_rd. exists (set_n_name nm n). split; [cbn; apply lookup_insert_eq|].
  apply wp_bind. unfold gets, wp at 1. cbn [c_nodes set_heap set_c_nodes n_name set_n_name].
  rewrite (proj2 (lookup_delete_None _ _ _)) by (by right). apply wp_bind. unfold modify, wp at 1. apply wp_ret, wp_ret. exact HQ.
Qed.

Lemma has_land f b k : 0 <= k -> has (Z.land f b) (2 ^ k) = has f (2 ^ k) && has b (2 ^ k).
Proof. intros Hk. by rewrite !has_testbit, Z.land_spec. Qed.

(** The flags a node gets at the end of its handshake. *)
Lemma settle_flags f g : has g CLUSTER_NODE_MASTER = negb (has g CLUSTER_NODE_SLAVE) ->
  has f CLUSTER_NODE_MASTER = false -> has f CLUSTER_NODE_SLAVE = false ->
  let h := setf (clrf f CLUSTER_NODE_HANDSHAKE) (Z.land g (Z.lor CLUSTER_NODE_MASTER CLUSTER_NODE_SLAVE)) in
  has h CLUSTER_NODE_HANDSHAKE = false /\ has h CLUSTER_NODE_MASTER = negb (has h CLUSTER_NODE_SLAVE).
Proof.
  intros Hg Hm Hs h. subst h. rewrite !has_setf, has_clrf_master, has_clrf_slave, has_clrf_handshake, Hm, Hs.
  pose proof (has_land g (Z.lor CLUSTER_NODE_MASTER CLUSTER_NODE_SLAVE) 0 ltac:(lia)) as L0.
  pose proof (has_land g (Z.lor CLUSTER_NODE_MASTER CLUSTER_NODE_SLAVE) 1 ltac:(lia)) as L1.
  pose proof (has_land g (Z.lor CLUSTER_NODE_MASTER CLUSTER_NODE_SLAVE) 5 ltac:(lia)) as L5.
  change (2 ^ 0) with CLUSTER_NODE_MASTER in L0. change (2 ^ 1) with CLUSTER_NODE_SLAVE in L1. change (2 ^ 5) with CLUSTER_NODE_HANDSHAKE in L5.
  rewrite L0, L1, L5, Hg. cbn. by rewrite !andb_true_r, !andb_false_r.
Qed.

(** A node in handshake is neither this node nor its master. *)
Lemma handshake_other s p n m : inv s -> heap s !! p = Some n -> nodeInHandshake n = true -> heap s !! c_myself s = Some m ->
  p <> c_myself s /\ n_slaveof m <> Some p.
Proof.
  intros I Ep Hh Em. destruct (inv_me _ I) as (m' & Em' & Hm & Hs). rewrite Em in Em'. injection Em' as <-. split; [congruence|].
  intros Eo. pose proof (inv_roles _ I _ _ Em) as Ro. unfold role_ok in Ro. rewrite Hm in Ro. destruct Ro as [_ Ro].
  destruct (nodeIsSlave m); [|rewrite Ro in Eo; done]. destruct Hs as (_ & x & nx & Ex & Enx & Hx); [done|]. congruence.
Qed.

Lemma wp_settle s p n hdr : inv s -> heap s !! p = Some n -> nodeInHandshake n = true -> c_nodes s !! h_sender hdr = None ->
  not_random s (h_sender hdr) -> has (h_flags hdr) CLUSTER_NODE_MASTER = negb (has (h_flags hdr) CLUSTER_NODE_SLAVE) ->
  wp (_ ← clusterRenameNode p (h_sender hdr);
      _ ← del_flags p CLUSTER_NODE_HANDSHAKE;
      _ ← add_flags p (Z.land (h_flags hdr) (Z.lor CLUSTER_NODE_MASTER CLUSTER_NODE_SLAVE));
      _ ← clusterDoBeforeSleep CLUSTER_TODO_SAVE_CONFIG;
      mret true) (fun r t => r = true /\ inv t /\ links t = links s) s.
Proof.
  intros I Ep Hh Enm Hr Hf. apply wp_bind, (wp_rename_node p n); [done|exists p; by apply (heap_names _ (inv_names _ I))|done|].
  apply wp_bind, wp_upd. eexists. split; [cbn; apply lookup_insert_eq|]. cbn [heap set_heap set_c_nodes]. rewrite insert_insert_eq.
  apply wp_bind, wp_upd. eexists. split; [cbn; apply lookup_insert_eq|]. cbn [heap set_heap set_c_nodes]. rewrite insert_insert_eq.
  apply wp_bind. unfold clusterDoBeforeSleep, modify, wp at 1. apply wp_ret. split; [done|]. split; [|done].
  set (n' := set_n_flags _ _). pose proof (inv_roles _ I _ _ Ep) as Ro. unfold role_ok in Ro. rewrite Hh in Ro. destruct Ro as (R1 & R2 & R3 & R4).
  destruct (settle_flags (n_flags n) (h_flags hdr) Hf R1 R2) as [G1 G2].
  apply inv_todo. refine (inv_rename s p n n' (s_draws s) I Ep Enm eq_refl _ _ _ _ _); try done.
  - unfold role_ok. change (nodeInHandshake n') with (has (setf (clrf (n_flags n) CLUSTER_NODE_HANDSHAKE)
      (Z.land (h_flags hdr) (Z.lor CLUSTER_NODE_MASTER CLUSTER_NODE_SLAVE))) CLUSTER_NODE_HANDSHAKE). rewrite G1. split; [exact G2|]. intros _. exact R3.
  - intros Hn. congruence.
Qed.

(** What is left of the link and of the sender after [process_link_node]. *)
Lemma wp_process_link_node L s hdr sender : inv s -> linked s L ->
  (forall sp, sender = Some sp -> live s sp) ->
  (sender = None -> c_nodes s !! h_sender hdr = None \/ forall k, links s !! L = Some k -> l_node k = None) ->
  not_random s (h_sender hdr) ->
  has (h_flags hdr) CLUSTER_NODE_MASTER = negb (has (h_flags hdr) CLUSTER_NODE_SLAVE) ->
  wp (process_link_node L hdr sender) (fun r t => inv t /\ (r = true -> links t = links s /\
    (is_Some sender -> t = s /\ forall k p n, links s !! L = Some k -> l_node k = Some p -> heap s !! p = Some n -> n_name n = h_sender hdr))) s.
Proof.
  intros I HL Hs Hnone Hr Hf. pose proof HL as [k Ek]. unfold process_link_node. apply wp_bind, wp_rdl. exists k. split; [done|].
  destruct (l_node k) as [p|] eqn:El; [|apply wp_ret; split; [done|]; intros _; split; [done|]; intros _; split; [done|]; congruence].
  destruct (link_node _ _ (inv_links _ I) _ _ _ Ek El) as (n & Ep & Hl). apply wp_bind, wp_rd. exists n. split; [done|].
  destruct (nodeInHandshake n) eqn:Hh; [destruct sender as [sp|]|].
  - apply wp_bind. eapply wp_safe; [apply (link_updateaddress L s sp hdr); [by apply Hs|done]|by apply Rlink_refl|].
    intros b s1 R1 _. apply wp_bind.
    eapply (wp_safe (Rlink L s) _ any); [|exact R1|].
    { apply link_quiet. intros s2 [I2 _]. quiet_run. }
    intros ? s2 R2 _. pose proof R2 as [I2 S2]. destruct (ev_heap _ _ _ (linksame_evo _ _ _ S2) _ _ Ep) as (n2 & Ep2 & _ & Hh2). rewrite Hh in Hh2.
    destruct (inv_me _ I2) as (m & Em & _). destruct (handshake_other s2 p n2 m I2 Ep2 Hh2 Em) as [H1 H2].
    apply wp_bind. eapply wp_mono; [apply (wp_delnode p s2 m I2); [by exists n2|done|done|done]|]. intros ? t [It _].
    apply wp_ret. split; [done|]. discriminate.
  - eapply wp_mono; [apply (wp_settle s p n hdr); try done; destruct (Hnone eq_refl) as [|HN]; [done|by rewrite (HN k Ek) in El]|]. intros r t (_ & It & Lt). split; [done|]. intros _. split; [done|]. by intros [? ?].
  - case_bool_decide as Hnm; cbn [negb].
    { apply wp_ret. split; [done|]. intros _. split; [done|]. intros _. split; [done|]. intros k' p' n' E1 E2 E3. congruence. }
    apply wp_bind. eapply wp_safe; [apply (quiet_add_flags s p); [by exists n|done]|by apply soft_refl|]. intros ? s1 S1 _.
    pose proof (inv_soft _ _ I S1) as I1. apply wp_bind.
    eapply wp_safe; [apply (quiet_upd' s1 p); [|done|done]|by apply soft_refl|]. { apply (soft_live _ _ p S1). by exists n. }
    intros ? s2 S2 _. pose proof (inv_soft _ _ I1 S2) as I2. apply wp_bind.
    eapply wp_mono; [apply (wp_freelink (Pos.succ L) L s2 k); [done|by rewrite (soft_links _ _ S2), (soft_links _ _ S1)|lia]|].
    intros ? s3 (I3 & _ & _). apply wp_bind. unfold clusterDoBeforeSleep, modify, wp at 1. apply wp_ret. split; [by apply inv_todo|discriminate].
Qed.

(** ** The answer to a ping *)

(** A known sender changes nothing; a MEET may bring nodes. *)
Lemma wp_reply_ping L s hdr sender meet gs : inv s -> linked s L -> (forall g, g ∈ gs -> gossip_ok s L g) ->
  wp (reply_ping L hdr sender meet gs) (fun _ t => Revo L s t /\ ((meet = true -> is_Some sender) -> soft s t)) s.
Proof.
  intros I HL HG. pose proof HL as [k Ek]. unfold reply_ping. destruct (inv_me _ I) as (m & Em & _).
  apply wp_bind. unfold myself, gets, wp at 1. apply wp_bind, wp_rd. exists m. split; [done|].
  apply wp_bind. unfold cfg, gets, wp at 1. apply wp_bind, wp_rdl. exists k. split; [done|]. apply wp_bind.
  eapply (wp_safe (soft s) _ any); [|by apply soft_refl|].
  { pose proof (me_live s I). quiet_run. }
  intros ? s1 S1 _. pose proof (inv_soft _ _ I S1) as I1. assert (R1 : Revo L s s1) by (split; [done|by apply soft_evo]).
  pose proof (Revo_linked _ _ _ R1 HL) as HL1.
  assert (Hping : forall t, Revo L s t -> ((meet = true -> is_Some sender) -> soft s t) ->
    wp (clusterSendPing L PONG) (fun _ u => Revo L s u /\ ((meet = true -> is_Some sender) -> soft s u)) t).
  { intros t Rt St. pose proof Rt as [It _]. eapply (wp_safe (soft t) _ any); [|by apply soft_refl|].
    - apply quiet_sendping; [done|]. by eapply Revo_linked.
    - intros ? u Su _. split; [eapply Revo_trans; [exact Rt|split; [by eapply inv_soft|by apply soft_evo]]|].
      intros Hm. eapply soft_trans; [by apply St|done]. }
  apply wp_bind, wp_when; [|intros _; by apply Hping].
  intros [-> Hn%bool_decide_eq_true]%andb_true_iff. rewrite Hn in Hping |- *. apply wp_add_node_then. eapply wp_mono.
  { apply (wp_add_node L s1 None); [done|done|done|]. intros n [? ? ? ? ? ? ?]. by split. }
  intros ? s2 R2. apply wp_bind. eapply (wp_quiet L s _ any); [by eapply Revo_trans|apply quiet_before_sleep|]. intros ? s3 R3 _ _.
  pose proof R3 as [I3 _].
  eapply wp_mono; [apply (evo_gossip_section L s3 hdr gs I3)|].
  - by eapply Revo_linked.
  - intros g Hg. by apply (gossip_ok_evo L s), HG.
  - intros ? t Rt. apply Hping; [by eapply Revo_trans|]. intros Hm. destruct (Hm eq_refl) as [? [=]].
Qed.

(** ** Roles and slots of the sender *)

Lemma evo_process_slots L s0 sp hdr e : settled s0 sp -> safe (Revo L s0) (process_slots sp hdr e) any.
Proof.
  intros Hsp s Rs. pose proof Rs as [I _]. pose proof (Revo_settled _ _ _ _ Rs Hsp) as (n & En & Hh).
  unfold process_slots. apply wp_bind, wp_rd. exists n. split; [done|]. cbv zeta. apply wp_bind.
  eapply (wp_quiet L s0 _ any); [exact Rs| |].
  { assert (Hn : seen s n sp) by (by exists n). quiet_run.
    assert (Hp : live s p) by (destruct (nodeIsMaster n); [simplify_eq; by exists n|by eapply seen_slaveof]). quiet_run. }
  intros dirty s1 R1 _ _. apply wp_bind. eapply (wp_safe (Revo L s0) _ any); [|exact R1|].
  { apply safe_when. intros _. by apply evo_updateslots. }
  intros ? s2 R2 _. apply wp_bind. eapply (wp_quiet L s0 _ any); [exact R2| |].
  { pose proof R2 as [I2 _]. pose proof (Revo_live _ _ _ _ R2 (settled_live _ _ Hsp)). quiet_run. }
  intros ? s3 R3 _ _. eapply (wp_quiet L s0 _ any); [exact R3| |by intros; split].
  pose proof R3 as [I3 _]. pose proof (Revo_live _ _ _ _ R3 (settled_live _ _ Hsp)). quiet_run.
Qed.

Lemma wp_process_config L s hdr sender e gs : inv s -> linked s L ->
  (forall sp, sender = Some sp -> settled s sp /\ (sp = c_myself s -> h_slaveof hdr = my_master_name s)) ->
  (sender = None -> c_nodes s !! h_sender hdr = None \/ forall k, links s !! L = Some k -> l_node k = None) ->
  not_random s (h_sender hdr) ->
  has (h_flags hdr) CLUSTER_NODE_MASTER = negb (has (h_flags hdr) CLUSTER_NODE_SLAVE) ->
  (forall g, g ∈ gs -> gossip_ok s L g) ->
  wp (process_config L hdr sender e gs) (fun r t => inv t /\ (r = true -> linked t L)) s.
Proof.
  intros I HL Hs Hnone Hr Hf HG. unfold process_config. apply wp_bind.
  eapply wp_mono; [apply (wp_process_link_node L s hdr sender I HL); [|done..]|]. { intros sp E. by apply settled_live, Hs. }
  intros r s1 [I1 Hs1]. destruct r; cbn [negb]; [|by apply wp_ret]. destruct (Hs1 eq_refl) as [El Hsome]. clear Hs1.
  assert (HL1 : linked s1 L) by (unfold linked; by rewrite El).
  destruct sender as [sp|].
  - destruct (Hsome ltac:(by eexists)) as [-> _]. destruct (Hs sp eq_refl) as [Hsp Hown]. clear Hs Hsome.
    apply wp_bind. eapply (wp_safe (Rlink L s) _ any); [|by apply Rlink_refl|].
    { apply link_quiet. intros t Rt. pose proof (Revo_live _ _ _ _ (Rlink_evo _ _ _ Rt) (settled_live _ _ Hsp)). pose proof Rt as [It _].
      apply quiet_upd'; [done| |done]. intros x. unfold shape; cbn. rewrite roles_setf; [by rewrite roles_clrf|].
      unfold roles. pose proof (has_land (h_flags hdr) CLUSTER_NODE_NOFAILOVER 0 ltac:(lia)) as L0.
      pose proof (has_land (h_flags hdr) CLUSTER_NODE_NOFAILOVER 1 ltac:(lia)) as L1.
      pose proof (has_land (h_flags hdr) CLUSTER_NODE_NOFAILOVER 5 ltac:(lia)) as L5.
      change (2 ^ 0) with CLUSTER_NODE_MASTER in L0. change (2 ^ 1) with CLUSTER_NODE_SLAVE in L1. change (2 ^ 5) with CLUSTER_NODE_HANDSHAKE in L5.
      rewrite L0, L1, L5. cbn. by rewrite !andb_false_r. }
    intros ? s2 R2 _. apply wp_bind. eapply (wp_safe (Rlink L s) _ any); [|exact R2|].
    { destruct (h_data hdr); try (by apply safe_ret).
      eapply (safe_bind _ _ _ any); [apply link_quiet; intros t [It St]; eapply safe_any, (quiet_rd t sp);
        by apply (Revo_live L s), settled_live; [split; [done|by apply linksame_evo]|]|]. intros n _.
      apply safe_when. intros _. eapply safe_bind; [apply link_updateaddress; [by apply settled_live|done]|]. intros b _.
      apply link_quiet. intros t [It _]. quiet_run. }
    intros ? s3 R3 _. apply wp_bind. eapply (wp_safe (Rlink L s) _ any); [|exact R3|].
    { apply link_quiet. intros t Rt. pose proof (Revo_linked _ _ _ (Rlink_evo _ _ _ Rt) HL). pose proof Rt as [It _].
      destruct (h_data hdr); try (by apply safe_ret). quiet_run. }
    intros ? s4 R4 _. pose proof R4 as [I4 S4]. pose proof (Rlink_evo _ _ _ R4) as E4. apply wp_bind.
    eapply wp_mono; [apply (wp_process_role L s4 sp hdr I4)|].
    { by eapply Revo_settled. }
    { intros ->. rewrite (my_master_name_same L s s4 S4). apply Hown. apply S4. }
    intros ? s5 R5. apply wp_bind. eapply wp_safe; [apply (evo_process_slots L s sp hdr e Hsp)|by eapply Revo_trans|].
    intros ? s6 R6 _. pose proof R6 as [I6 _]. apply wp_bind.
    eapply wp_mono; [apply (evo_gossip_section L s6 hdr gs I6); [by eapply Revo_linked|]|].
    { intros g Hg. by apply (gossip_ok_evo L s), HG. }
    intros ? s7 R7. apply wp_ret. split; [apply R7|]. intros _. eapply Revo_linked; [|exact HL]. by eapply Revo_trans.
  - apply wp_bind, wp_ret. apply wp_bind. assert (Hend : wp (match h_data hdr with PONG _ => process_pong L | _ => mret tt end)
      (fun _ t => inv t /\ linked t L) s1).
    { eapply (wp_safe (soft s1) _ any); [|by apply soft_refl|].
      - destruct (h_data hdr); try (by apply safe_ret). quiet_run.
      - intros ? t St _. split; [by eapply inv_soft|]. unfold linked. by rewrite (soft_links _ _ St). }
    apply wp_ret, wp_bind. eapply wp_mono; [exact Hend|]. intros ? t [It Lt]. by apply wp_ret.
Qed.

(** ** A packet *)

Definition gossip_of (d : clusterMsgData) : list clusterMsgDataGossip :=
  match d with PING g | PONG g | MEET g => g | _ => [] end.

(** What the packets of the nodes of a cluster satisfy.  Names in handshake are
    local, so nobody else uses them; the sender has a role and is not in its own
    gossip section; the answers to our own links are not MEET messages; a packet that
    comes back to its sender still has its configuration. *)
Record packet_ok (s : server) (L : ptr) (hdr : clusterMsg) : Prop := {
  pk_link : linked s L;
  pk_sender_name : not_random s (h_sender hdr);
  pk_sender sp : c_nodes s !! h_sender hdr = Some sp -> settled s sp;
  pk_role : has (h_flags hdr) CLUSTER_NODE_MASTER = negb (has (h_flags hdr) CLUSTER_NODE_SLAVE);
  pk_own : c_nodes s !! h_sender hdr = Some (c_myself s) -> h_slaveof hdr = my_master_name s;
  pk_gossip g : g ∈ gossip_of (h_data hdr) -> gossip_ok s L g;
  pk_meet gs k : h_data hdr = MEET gs -> links s !! L = Some k -> l_node k = None;
  pk_update e nm b p : h_data hdr = UPDATE e nm b -> c_nodes s !! nm = Some p -> settled s p
}.

Lemma packet_ok_soft s t L hdr : inv s -> soft s t -> packet_ok s L hdr -> packet_ok t L hdr.
Proof.
  intros I S [P1 P2 P3 P4 P5 P6 P7 P8]. pose proof (inv_soft _ _ I S) as It.
  assert (R : Revo L s t) by (split; [done|by apply soft_evo]).
  split; unfold linked, not_random; rewrite ?(soft_links _ _ S), ?(soft_names _ _ S), ?(soft_nodes _ _ S), ?(soft_me _ _ S); try done.
  - intros sp E. eapply Revo_settled; [exact R|by apply P3].
  - intros E. rewrite (my_master_name_same L s t); [by apply P5|by apply soft_linksame].
  - intros g Hg. by eapply gossip_ok_evo, P6.
  - intros e nm b p Ed E. eapply Revo_settled; [exact R|by eapply P8].
Qed.

Lemma wp_process_update L s e nm b : inv s -> (forall p, c_nodes s !! nm = Some p -> settled s p) ->
  wp (process_update e nm b) (fun _ t => Revo L s t) s.
Proof.
  intros I Hset. pose proof (Revo_refl L s I) as Rs. unfold process_update. apply wp_bind. unfold clusterLookupNode, gets, wp at 1.
  destruct (c_nodes s !! nm) as [p|] eqn:Ep; [|by apply wp_ret]. pose proof (Hset p eq_refl) as Hp. pose proof Hp as (n & En & _).
  apply wp_bind, wp_rd. exists n. split; [done|]. case_match; [by apply wp_ret|].
  eapply (wp_safe (Revo L s) _ any); [|by apply Revo_refl|].
  - eapply safe_bind; [apply safe_when; intros _; by apply evo_setnodeasmaster|]. intros ? _.
    eapply (safe_bind _ _ _ any); [apply evo_quiet; intros t Rt; apply quiet_upd'; [|done|done]; by eapply Revo_live, settled_live|]. intros ? _.
    eapply (safe_bind _ _ _ any); [apply evo_quiet; intros t [It _]; apply quiet_before_sleep|]. intros ? _. by apply evo_updateslots.
  - by intros.
Qed.

Lemma wp_unbind {A B} (m : M A) (k : A -> M B) Q s : wp (m ≫= k) Q s -> wp m (fun a s => wp (k a) Q s) s.
Proof. unfold wp, mbind, M_bind. by destruct (m s) as [[a t]|]. Qed.

(** The sender is looked up and updated. *)
Lemma wp_packet_sender s hdr t0 : inv s ->
  wp (handshake ← (match c_nodes s !! h_sender hdr with
        | Some sp => _ ← upd sp (set_n_data_received t0); n ← rd sp; mret (nodeInHandshake n)
        | None => mret true
        end);
      _ ← (match c_nodes s !! h_sender hdr with Some sp => when (negb handshake) (update_sender sp hdr) | None => mret tt end);
      mret handshake) (fun _ t => soft s t) s.
Proof.
  intros I. eapply (wp_safe (soft s) _ any); [|by apply soft_refl|by intros].
  destruct (c_nodes s !! h_sender hdr) as [sp|] eqn:Es; [|quiet_run]. pose proof (known_live s I _ _ Es). quiet_run.
Qed.

(** After the answer to a ping, the configuration of the packet. *)
Lemma wp_packet_config L s t hdr e gs : inv s -> packet_ok s L hdr -> gossip_of (h_data hdr) = gs -> Revo L s t ->
  soft s t \/ (c_nodes s !! h_sender hdr = None /\ forall k, links s !! L = Some k -> l_node k = None) ->
  wp (process_config L hdr (c_nodes s !! h_sender hdr) e gs) (fun r u => inv u /\ (r = true -> linked u L)) t.
Proof.
  intros I P Hg R Hor. pose proof R as [It Ev].
  apply wp_process_config; [done|by eapply Revo_linked, P| | |by eapply not_random_evo, P|apply P|].
  - intros sp Es. split; [by eapply Revo_settled, P|]. intros ->. destruct Hor as [S|[Hn _]]; [|congruence].
    rewrite (my_master_name_same L s t) by (by apply soft_linksame). apply P. by rewrite <- (soft_me _ _ S).
  - intros En. destruct Hor as [S|[_ Hk]]; [left; by rewrite (soft_nodes _ _ S)|right]. by rewrite (ev_link _ _ _ Ev).
  - intros g Hin. eapply gossip_ok_evo; [exact I|exact R|]. apply P. by rewrite Hg.
Qed.

Lemma wp_packet sub L s hdr len : inv s -> packet_ok s L hdr ->
  wp (clusterProcessPacket sub L hdr len) (fun r t => inv t /\ (r = true -> linked t L)) s.
Proof.
  intros I0 P0. unfold clusterProcessPacket. apply wp_bind.
  eapply (wp_safe (soft s) _ any); [by apply quiet_modify|by apply soft_refl|]. intros ? s1 S1 _.
  pose proof (inv_soft _ _ I0 S1) as I1. pose proof (packet_ok_soft _ _ _ _ I0 S1 P0) as P1. clear I0 P0 S1 s.
  destruct (negb (packet_sane hdr len)); [apply wp_ret; split; [done|]; by intros _; apply P1|].
  apply wp_bind. unfold now, gets, wp at 1. apply wp_bind. unfold clusterLookupNode, gets, wp at 1.
  pose proof (wp_packet_sender s1 hdr (mstime (s_clock s1)) I1) as HS. apply wp_unbind in HS. apply wp_bind.
  eapply wp_mono; [exact HS|]. clear HS. intros hs s2 HS%wp_unbind. apply wp_bind. eapply wp_mono; [exact HS|]. clear HS s2. intros ? s HS.
  change (soft s1 s) in HS. pose proof (inv_soft _ _ I1 HS) as I. pose proof (packet_ok_soft _ _ _ _ I1 HS P1) as P.
  rewrite <- (soft_nodes _ _ HS). clear I1 P1 HS s1. cbv zeta.
  assert (Hq : forall (m : M unit), safe (soft s) m any -> wp (_ ← m; mret true) (fun r u => inv u /\ (r = true -> linked u L)) s).
  { intros m Hm. apply wp_bind. eapply wp_safe; [exact Hm|by apply soft_refl|]. intros ? u Su _. apply wp_ret. split; [by eapply inv_soft|].
    intros _. unfold linked. rewrite (soft_links _ _ Su). apply P. }
  assert (Hknown : forall sp, c_nodes s !! h_sender hdr = Some sp -> live s sp) by (intros sp; by apply known_live).
  destruct (h_data hdr) eqn:Ed.
  1,3: apply wp_bind; (eapply wp_mono; [apply wp_reply_ping; [done|apply P|intros g Hg; apply P; by rewrite Ed]|]); intros ? t [Rt St];
       apply wp_packet_config; [done|done|by rewrite Ed|done|].
  { left. by apply St. }
  { destruct (c_nodes s !! h_sender hdr); [left; apply St; by eexists|]. right. split; [done|]. intros k. by eapply pk_meet. }
  { apply wp_packet_config; [done|done|by rewrite Ed|by apply Revo_refl|]. left. by apply soft_refl. }
  5: { destruct (c_nodes s !! h_sender hdr) as [sp|] eqn:Es; [|by apply Hq, safe_ret]. apply wp_bind.
       eapply wp_mono; [apply (wp_process_update L s); [done|]; intros p; by eapply pk_update|].
       intros ? u Ru. apply wp_ret. split; [apply Ru|]. intros _. eapply Revo_linked; [exact Ru|apply P]. }
  all: try (apply Hq; destruct (c_nodes s !! h_sender hdr) as [sp|] eqn:Es; [specialize (Hknown sp eq_refl)|]; quiet_run).
  apply wp_ret. split; [done|]. intros _. apply P.
Qed.
End Packets.
End ClusterPackets.
