(* ===== verification/ClusterEvents.v ===== *)
(** * Timers and commands of the cluster keep the state well formed (cluster.c)

    Failover, replica migration, the cron job, the work before the event loop sleeps
    and the subcommands of CLUSTER, from a state that satisfies the invariant of
    [ClusterInv]. *)

From Stdlib Require Import String Ascii.
From stdpp Require Import strings pmap.
From S2P Require Import Prelude Cluster ClusterInv ClusterSafe ClusterNodes ClusterPackets.

Module ClusterEvents.
Import Cluster ClusterInv ClusterSafe ClusterNodes ClusterPackets.

(** The test of a program. *)
Ltac wp_case := match goal with |- wp (if ?b then _ else _) _ _ => destruct b eqn:? end.

Section Keep.
Context `{World} `{!WorldLaws}.

Lemma wp_modify g Q s : Q tt (g s) -> wp (modify g) Q s.
Proof. done. Qed.

(** ** Programs that keep the invariant *)

Lemma inv_quiet {A} (m : M A) Q : (forall s, inv s -> safe (soft s) m Q) -> safe inv m Q.
Proof. intros Hm. apply (safe_lift soft); [by apply soft_refl|by apply inv_soft|done]. Qed.
Lemma inv_evo {A} (m : M A) Q : (forall L s, inv s -> safe (Revo L s) m Q) -> safe inv m Q.
Proof. intros Hm. apply (safe_lift (Revo 1)); [apply Revo_refl|by intros s t _ []|apply Hm]. Qed.
End Keep.

(** A quiet program keeps the invariant. *)
Ltac inv_q := apply inv_quiet; intros ? ?; quiet_run.

Section Events.
Context `{World} `{!WorldLaws}.

(** ** Failover *)

Lemma evo_replace_master L s0 : safe (Revo L s0) clusterFailoverReplaceYourMaster any.
Proof.
  intros s Rs. pose proof Rs as [I Ev]. destruct (inv_me _ I) as (m & Em & Hm & _). unfold clusterFailoverReplaceYourMaster.
  apply wp_bind. unfold myself, gets, wp at 1. apply wp_bind, wp_rd. exists m. split; [done|].
  destruct (n_slaveof m) as [old|] eqn:Eo; [|by apply wp_ret]. case_match; [by apply wp_ret|].
  assert (Hold : live s old) by (eapply (seen_slaveof s I m); [by exists m|done]).
  apply wp_bind. eapply wp_mono; [by apply (wp_setnodeasmaster s (c_myself s) m)|]. intros ? s1 (I1 & S1 & n1 & En1 & _ & Hsl).
  assert (R1 : Revo L s0 s1) by (eapply Revo_trans; [exact Rs|split; [done|by apply rolesame_evo]]).
  assert (Hh1 : nodeInHandshake n1 = false).
  { destruct (agree_l _ _ _ (rs_heap _ _ S1) _ _ En1) as (n0 & En0 & (_ & _ & _ & _ & Hh & _)%roleless_fields). congruence. }
  assert (Hold1 : live s1 old) by (by apply (agree_live _ _ _ (rs_heap _ _ S1))).
  apply wp_bind. eapply wp_quiet; [exact R1|by apply quiet_replicationUnsetMaster|]. intros ? s2 R2 S2 _. pose proof R2 as [I2 _].
  destruct (soft_lookup_r _ _ _ _ S2 En1) as (n2 & En2 & Sh2). apply shape_role in Sh2 as (_ & Hs2 & Hh2).
  assert (Hold2 : live s2 old) by (by apply (soft_live _ _ _ S2)). rewrite <- (rs_me _ _ S1), <- (soft_me _ _ S2) in En2 |- *.
  apply wp_bind. unfold for_slots. eapply (wp_safe (Rslot s2) _ any); [|by apply Rslot_refl|].
  { apply safe_forM. intros j Hj%all_slots_elem.
    eapply (safe_bind _ _ _ any); [apply slot_quiet; intros t Rt; apply quiet_getslotbit, (Rslot_live _ _ _ Rt Hold2)|].
    intros b _. apply safe_when. intros _. eapply safe_bind; [apply slot_delslot|]. intros ? _.
    eapply safe_bind; [apply (slot_addslot s2 _ n2); [done|done|congruence|congruence]|]. intros ? _. by apply safe_ret. }
  intros ? s3 [I3 S3] _. assert (R3 : Revo L s0 s3) by (eapply Revo_trans; [exact R2|split; [done|by apply slotsame_evo]]).
  eapply (wp_quiet L s0 _ any); [exact R3|quiet_run|by intros; split].
Qed.

Lemma evo_conclude L s0 q : safe (Revo L s0) (conclude_election q) any.
Proof.
  unfold conclude_election. eapply (safe_bind _ _ _ any); [by apply safe_gets|]. intros c _. case_match.
  - assert (HQ : forall {A} (m : M A), (forall s, inv s -> safe (soft s) m any) -> safe (Revo L s0) m any).
    { intros A m Hm. apply evo_quiet. intros s [I _]. by apply Hm. }
    intros s Rs. pose proof Rs as [I _]. destruct (inv_me _ I) as (m & Em & _).
    apply wp_bind. unfold myself, gets, wp at 1. apply wp_bind, wp_rd. exists m. split; [done|].
    apply wp_bind. unfold gets, wp at 1. apply wp_bind.
    eapply (wp_quiet L s0 _ any); [exact Rs|pose proof (me_live s I); quiet_run|]. intros ? s1 R1 _ _. by apply evo_replace_master.
  - apply evo_quiet. intros s [I _]. quiet_run.
Qed.

(** The replica is still one when it is asked for its rank. *)
Lemma evo_failover L s0 : safe (Revo L s0) clusterHandleSlaveFailover any.
Proof.
  intros s Rs. pose proof Rs as [I _]. unfold clusterHandleSlaveFailover.
  apply wp_bind. unfold now, gets, wp at 1. apply wp_bind. unfold gets, wp at 1. cbv zeta. apply wp_bind. unfold gets, wp at 1.
  apply wp_bind. unfold gets, wp at 1. apply wp_bind. eapply wp_quiet; [exact Rs|by apply quiet_modify|]. intros ? s1 R1 S1 _. pose proof R1 as [I1 _].
  apply wp_bind. unfold cfg, gets, wp at 1. cbv zeta. apply wp_bind. eapply wp_quiet; [exact R1|apply quiet_can_failover, I1|].
  intros ok s2 R2 S2 Hok. pose proof R2 as [I2 _].
  destruct ok; cbn [negb]; [|eapply (wp_quiet L s0 _ any); [exact R2|quiet_run|by intros; split]].
  destruct (Hok eq_refl) as (n0 & En0 & Hn0). destruct (soft_lookup_r _ _ _ _ S2 En0) as (n2 & En2 & Sh2).
  apply shape_role in Sh2 as (_ & Hs2 & _). rewrite Hn0 in Hs2. rewrite <- (soft_me _ _ S2) in En2.
  apply wp_bind. unfold data_age, cfg. eapply (wp_quiet L s0 _ any); [exact R2|quiet_run|]. intros age s3 R3 S3 _. pose proof R3 as [I3 _].
  destruct (soft_lookup_r _ _ _ _ S3 En2) as (n3 & En3 & Sh3). apply shape_role in Sh3 as (_ & Hs3 & _). rewrite Hs2 in Hs3.
  rewrite <- (soft_me _ _ S3) in En3.
  apply wp_bind. unfold gets, wp at 1. apply wp_bind. unfold gets, wp at 1.
  wp_case; [eapply (wp_quiet L s0 _ any); [exact R3|quiet_run|by intros; split]|].
  wp_case; [eapply (wp_quiet L s0 _ any); [exact R3|by eapply quiet_schedule|by intros; split]|].
  apply wp_bind. eapply (wp_quiet L s0 _ any); [exact R3|by eapply quiet_update_rank|]. intros ? s4 R4 S4 _. pose proof R4 as [I4 _].
  apply wp_bind. unfold gets, wp at 1.
  wp_case; [eapply (wp_quiet L s0 _ any); [exact R4|quiet_run|by intros; split]|].
  wp_case; [eapply (wp_quiet L s0 _ any); [exact R4|quiet_run|by intros; split]|].
  apply wp_bind. unfold gets, wp at 1. wp_case; [|by apply evo_conclude].
  eapply (wp_quiet L s0 _ any); [exact R4|quiet_run|by intros; split].
Qed.

(** ** Replica migration *)

Lemma evo_migration L s0 k : safe (Revo L s0) (clusterHandleSlaveMigration k) any.
Proof.
  intros s Rs. pose proof Rs as [I _]. destruct (inv_me _ I) as (m & Em & Hm & Hs). unfold clusterHandleSlaveMigration.
  apply wp_bind. unfold myself, gets, wp at 1. apply wp_bind, wp_rd. exists m. split; [done|].
  apply wp_bind. unfold gets, wp at 1. case_match; [by apply wp_ret|].
  destruct (n_slaveof m) as [mm|] eqn:Eo; [|by apply wp_ret].
  destruct (slaveof_slaves _ (inv_repl _ I) _ _ _ Em Eo) as (nm & Enm & _).
  apply wp_bind, wp_rd. exists nm. split; [done|]. apply wp_bind.
  eapply (wp_quiet L s0 _ any); [exact Rs|apply quiet_count_nodes; intros q Hq; eapply (seen_slaves s I nm); [by exists nm|done]|].
  intros oks s1 R1 S1 _. pose proof R1 as [I1 _]. apply wp_bind. unfold cfg, gets, wp at 1. case_match; [by apply wp_ret|].
  apply wp_bind. unfold all_nodes, gets, wp at 1. apply wp_bind.
  eapply wp_quiet; [exact R1|apply (quiet_migration_loop s1 I1)|].
  { apply order_live, I1. } { rewrite <- (soft_me _ _ S1). by apply me_live. } { done. }
  intros [target cand] s2 R2 S2 Ht. pose proof R2 as [I2 _]. destruct target as [p|]; [|by apply wp_ret].
  destruct (Ht p eq_refl) as (np & Enp & Hnp & Hz). destruct (soft_lookup_r _ _ _ _ S2 Enp) as (np2 & Enp2 & Sh2).
  apply wp_bind, wp_rd. exists np2. split; [done|]. apply wp_bind. unfold now, gets, wp at 1. apply wp_bind. unfold cfg, gets, wp at 1.
  apply wp_when; [|done]. intros _.
  destruct (inv_me _ I2) as (m2 & Em2 & Hm2 & Hs2).
  assert (Hsl : nodeIsSlave m2 = true).
  { pose proof (soft_trans _ _ _ S1 S2) as S12. destruct (soft_lookup _ _ _ _ S12 Em2) as (m' & Em' & Sh).
    rewrite (soft_me _ _ S12), Em in Em'. injection Em' as <-. apply shape_role in Sh as (_ & -> & _).
    pose proof (inv_roles _ I _ _ Em) as Ro. unfold role_ok in Ro. rewrite Hm in Ro. destruct Ro as [_ Ro].
    destruct (nodeIsSlave m); [done|]. rewrite Ro in Eo; done. }
  pose proof (shape_role _ _ Sh2) as (_ & Hq & _). pose proof (shape_fields _ _ Sh2) as (_ & _ & _ & Hn2 & _).
  eapply wp_mono; [apply (wp_setmaster L s2 p m2 I2 Em2); [by apply Hs2|congruence|]|].
  - exists np2. split; [done|]. pose proof (inv_roles _ I2 _ _ Enp2) as Ro. unfold role_ok in Ro.
    destruct (nodeInHandshake np2); [|done]. destruct Ro as (_ & _ & _ & Ro). lia.
  - intros ? t Rt. split; [by eapply Revo_trans|done].
Qed.

(** Nodes stay, links may change. *)
Definition Rlive (s0 s : server) : Prop := inv s /\ forall q, live s0 q -> live s q.
Lemma Rlive_refl s : inv s -> Rlive s s.
Proof. by split. Qed.
Lemma live_quiet {A} s0 (m : M A) Q : (forall s, Rlive s0 s -> safe (soft s) m Q) -> safe (Rlive s0) m Q.
Proof.
  intros Hm s Rs. eapply wp_safe; [by apply Hm|by apply soft_refl; destruct Rs|]. intros a t St Ha. split; [|done].
  destruct Rs as [I Hl]. split; [by eapply inv_soft|]. intros q Hq. by apply (soft_live _ _ q St), Hl.
Qed.

(** ** The cron job *)

(** A new link with a node that has none. *)
Lemma inv_newlink s p n l k : inv s -> heap s !! p = Some n -> n_link n = None -> links s !! l = None -> l_node k = Some p ->
  let t := set_heap (<[p := set_n_link (Some l) n]> (heap s)) (set_links (<[l := k]> (links s)) s) in
  inv t /\ forall q, live s q -> live t q.
Proof.
  intros I En Hn Hl Hk t.
  assert (S : linksame (Pos.succ l) s t).
  { split; try done; cbn.
    - rewrite lookup_insert_ne; [done|lia].
    - by eapply agree_insert.
    - intros q x [[<- <-]|[_ E]]%lookup_insert_Some; [apply (reports_ptr _ (inv_ptrs _ I) p n En)|by eapply (reports_ptr _ (inv_ptrs _ I))]. }
  split; [|intros q; by apply (agree_live _ _ _ (ls_heap _ _ _ S))].
  apply (inv_linksame _ _ _ I S). cbn. split.
  - intros l' k' q [[<- <-]|[Hne E]]%lookup_insert_Some Eq.
    + rewrite Hk in Eq. injection Eq as <-. eexists. by rewrite lookup_insert_eq.
    + destruct (link_node _ _ (inv_links _ I) _ _ _ E Eq) as (x & Ex & Hx). exists x. split; [|done]. rewrite lookup_insert_ne; [done|congruence].
  - intros q x l' [[<- <-]|[Hne E]]%lookup_insert_Some El; cbn in El.
    + injection El as <-. exists k. by rewrite lookup_insert_eq.
    + destruct (node_link _ _ (inv_links _ I) _ _ _ E El) as (k' & Ek' & Hk'). exists k'. split; [|done]. rewrite lookup_insert_ne; [done|congruence].
Qed.

Lemma live_connect s p n : inv s -> heap s !! p = Some n -> n_link n = None -> wp (cron_connect p) (fun _ t => Rlive s t) s.
Proof.
  intros I En Hn. unfold cron_connect. apply wp_bind, wp_rd. exists n. split; [done|]. apply wp_bind. unfold now, gets, wp at 1.
  apply wp_bind. eapply wp_safe; [by apply quiet_connect|by apply soft_refl|]. intros fd s1 S1 _. pose proof (inv_soft _ _ I S1) as I1.
  destruct (soft_lookup_r _ _ _ _ S1 En) as (n1 & En1 & (_ & _ & _ & _ & _ & _ & Hl1)%shape_fields). rewrite Hn in Hl1.
  assert (R1 : Rlive s s1) by (split; [done|]; intros q; by apply (soft_live _ _ q S1)).
  destruct fd as [sock|].
  - apply wp_bind. unfold createClusterLink, wp at 1. set (l := fresh (dom (links s1))).
    apply wp_bind, wp_upd. exists n1. split; [done|].
    destruct (inv_newlink s1 p n1 l (mkLink (mstime (s_clock s1)) (Some p) (n_ip n) (Some sock)) I1 En1 Hl1) as [I2 L2]; [apply not_elem_of_dom, is_fresh|done|].
    cbn [heap set_links]. set (s2 := set_heap _ _) in *. assert (R2 : Rlive s s2) by (split; [done|]; intros q Hq; by apply L2, R1).
    assert (HL : linked s2 l) by (exists (mkLink (mstime (s_clock s1)) (Some p) (n_ip n) (Some sock)); apply lookup_insert_eq).
    assert (Hp2 : live s2 p) by (apply L2; by exists n1).
    eapply (wp_safe (soft s2) _ any); [quiet_run|by apply soft_refl|]. intros ? t St _. split; [by eapply inv_soft|].
    intros q Hq. by apply (soft_live _ _ q St), R2.
  - assert (Hp1 : live s1 p) by (by exists n1). eapply (wp_safe (soft s1) _ any); [quiet_run|by apply soft_refl|]. intros ? t St _.
    split; [by eapply inv_soft|]. intros q Hq. by apply (soft_live _ _ q St), R1.
Qed.

(** A handshake that takes too long is given up. *)
Lemma live_node_link to s p : inv s -> live s p ->
  wp (cron_node_link to p) (fun _ t => inv t /\ forall q, q <> p -> live s q -> live t q) s.
Proof.
  intros I [n En]. unfold cron_node_link. apply wp_bind, wp_rd. exists n. split; [done|]. apply wp_bind. unfold now, gets, wp at 1.
  wp_case; [by apply wp_ret|]. apply wp_bind. eapply (wp_safe (soft s) _ any); [quiet_run|by apply soft_refl|].
  intros ? s1 S1 _. pose proof (inv_soft _ _ I S1) as I1. destruct (soft_lookup_r _ _ _ _ S1 En) as (n1 & En1 & Sh).
  assert (L1 : forall q, live s q -> live s1 q) by (intros q; by apply (soft_live _ _ q S1)).
  wp_case.
  - destruct (andb_prop _ _ Heqb0) as [Hh _]. destruct (shape_role _ _ Sh) as (_ & _ & Hh1). rewrite Hh in Hh1.
    destruct (inv_me _ I1) as (m & Em & _). destruct (handshake_other s1 p n1 m I1 En1 Hh1 Em) as [H1 H2].
    eapply wp_mono; [apply (wp_delnode p s1 m I1); [by exists n1|done..]|]. intros ? t [It Dt]. split; [done|].
    intros q Hq Hl. destruct (L1 q Hl) as [x Ex]. destruct (de_heap _ _ _ Dt q x Ex Hq) as (x' & Ex' & _). by exists x'.
  - apply wp_when; [|by intros _; split; auto]. intros Hl%bool_decide_eq_true. apply shape_fields in Sh as (_ & _ & _ & _ & _ & _ & Hl1). rewrite Hl in Hl1.
    eapply wp_mono; [by apply (live_connect s1 p n1)|]. intros ? t [It Lt]. split; [done|]. auto.
Qed.

(** A loop over nodes whose steps keep the other nodes. *)
Lemma live_loop l (f : ptr -> M unit) (R : server -> Prop) s :
  (forall s p, R s -> live s p -> wp (f p) (fun _ t => R t /\ forall q, q <> p -> live s q -> live t q) s) ->
  R s -> NoDup l -> (forall p, p ∈ l -> live s p) -> wp (forM l f) (fun _ t => R t) s.
Proof.
  intros Hf. revert s. induction l as [|p l IH]; intros s I Hd Hl; cbn [forM]; [by apply wp_ret|].
  apply NoDup_cons in Hd as [Hp Hd]. apply wp_bind. eapply wp_mono; [apply Hf; [done|apply Hl; by left]|].
  intros ? t [It Lt]. apply IH; [done|done|]. intros q Hq. apply Lt; [by intros ->|]. apply Hl. by right.
Qed.

Lemma order_nodup s : inv s -> NoDup (node_order (c_nodes s)).
Proof.
  intros I. rewrite node_order_perm. apply NoDup_fmap_2_strong; [|apply NoDup_map_to_list].
  intros [nm p] [nm' p'] E%elem_of_map_to_list E'%elem_of_map_to_list Hp. cbn in Hp. subst p'.
  destruct (names_heap _ (inv_names _ I) _ _ E) as (n & En & <-). destruct (names_heap _ (inv_names _ I) _ _ E') as (n' & En' & <-). congruence.
Qed.

Lemma live_check s0 p : live s0 p -> safe (Rlive s0) (cron_check p) any.
Proof.
  intros Hp. unfold cron_check. eapply (safe_bind _ _ _ any).
  - intros s Rs. pose proof Rs as [I Hl]. destruct (Hl p Hp) as [n En]. unfold cron_reconnect.
    apply wp_bind, wp_rd. exists n. split; [done|]. apply wp_bind. unfold now, gets, wp at 1. apply wp_bind. unfold cfg, gets, wp at 1.
    destruct (n_link n) as [l|] eqn:El; [|by apply wp_ret]. destruct (node_link _ _ (inv_links _ I) _ _ _ En El) as (k & Ek & _).
    apply wp_bind, wp_rdl. exists k. split; [done|]. apply wp_when; [|by intros]. intros _.
    eapply wp_mono; [apply (wp_freelink (Pos.succ l) l s k I Ek); lia|]. intros ? t (It & St & _). split; [|done]. split; [done|].
    intros q Hq. by apply (agree_live _ _ _ (ls_heap _ _ _ St)), Hl.
  - intros ? _. apply live_quiet. intros s [I Hl]. specialize (Hl p Hp). quiet_run.
Qed.

Lemma live_nodes s0 l x : (forall p, p ∈ l -> live s0 p) -> safe (Rlive s0) (cron_nodes l x) any.
Proof.
  revert x. induction l as [|p l IH]; intros x Hl; cbn [cron_nodes]; [by apply safe_ret|].
  assert (Hp : live s0 p) by (apply Hl; by left). assert (Hl' : forall q, q ∈ l -> live s0 q) by (intros q Hq; apply Hl; by right).
  eapply (safe_bind _ _ _ any); [apply live_quiet; intros s [I Hs]; eapply safe_any, quiet_rd, Hs, Hp|]. intros n _.
  destruct (has _ _); [by apply IH|].
  eapply (safe_bind _ _ _ any); [apply live_quiet; intros s [I Hs]; apply quiet_orphans; [done|by apply Hs]|]. intros x' _.
  eapply (safe_bind _ _ _ any); [by apply live_check|]. intros b _. by apply IH.
Qed.

Lemma inv_cron_replica x : safe inv (cron_replica x) any.
Proof.
  unfold cron_replica. eapply (safe_bind _ _ _ any); [by apply safe_gets|]. intros fl _.
  eapply (safe_bind _ _ _ any); [inv_q|]. intros ? _.
  eapply (safe_bind _ _ _ any); [apply safe_when; intros _; apply inv_evo; intros; apply evo_failover|]. intros ? _.
  apply safe_when. intros _. apply inv_evo. intros. apply evo_migration.
Qed.

Lemma inv_cron : safe inv clusterCron any.
Proof.
  unfold clusterCron. eapply (safe_bind _ _ _ any); [inv_q|]. intros ? _.
  eapply (safe_bind _ _ _ any); [inv_q|]. intros ? _.
  eapply (safe_bind _ _ _ any); [by apply safe_gets|]. intros to _.
  eapply (safe_bind _ _ _ any); [inv_q|]. intros ? _.
  intros s I. apply wp_bind. unfold all_nodes, gets, wp at 1. apply wp_bind.
  eapply wp_safe; [by apply (quiet_modify s)|by apply soft_refl|]. intros ? s1 S1 _. pose proof (inv_soft _ _ I S1) as I1.
  rewrite <- (soft_nodes _ _ S1). apply wp_bind. eapply wp_mono.
  { apply (live_loop _ _ inv); [intros; by apply live_node_link|done|by apply order_nodup|apply (order_live s1 I1)]. }
  intros ? s2 I2. apply wp_bind. eapply (wp_safe inv _ any); [inv_q|exact I2|]. intros ? s3 I3 _.
  apply wp_bind. unfold all_nodes, gets, wp at 1. apply wp_bind.
  eapply wp_safe; [apply (live_nodes s3), (order_live s3 I3)|by apply Rlive_refl|]. intros x s4 [I4 _] _.
  eapply (wp_safe inv _ any); [|exact I4|by intros].
  eapply (safe_bind _ _ _ any); [inv_q|]. intros ? _.
  eapply (safe_bind _ _ _ any); [inv_q|]. intros ? _.
  intros t It. destruct (inv_me _ It) as (m & Em & _). apply wp_bind. unfold myself, gets, wp at 1.
  apply wp_bind, wp_rd. exists m. split; [done|]. eapply (wp_safe inv _ any); [|exact It|by intros].
  eapply (safe_bind _ _ _ any); [apply safe_when; intros _; apply inv_cron_replica|]. intros ? _.
  inv_q.
Qed.

Lemma inv_before_sleep : safe inv clusterBeforeSleep any.
Proof.
  unfold clusterBeforeSleep. eapply (safe_bind _ _ _ any); [by apply safe_gets|]. intros todo _.
  eapply (safe_bind _ _ _ any); [apply safe_when; intros _; apply inv_evo; intros; apply evo_failover|]. intros ? _. inv_q.
Qed.

Lemma inv_freelink l s : inv s -> linked s l -> wp (freeClusterLink l) (fun _ t => inv t) s.
Proof. intros I [k Ek]. eapply wp_mono; [apply (wp_freelink (Pos.succ l) l s k I Ek); lia|]. by intros ? t []. Qed.

(** A new link with no node. *)
Lemma inv_accept peer sock : safe inv (clusterAcceptHandler peer sock) any.
Proof.
  intros s I. unfold clusterAcceptHandler. apply wp_bind. unfold createClusterLink, wp at 1. apply wp_ret. split; [|done].
  set (l := fresh (dom (links s))). assert (El : links s !! l = None) by apply not_elem_of_dom, is_fresh.
  set (t := set_links _ s). assert (S : linksame (Pos.succ l) s t).
  { split; try done; cbn; [rewrite lookup_insert_ne; [done|lia]|intros q x E; by eapply (reports_ptr _ (inv_ptrs _ I))]. }
  apply (inv_linksame _ _ _ I S). cbn. split.
  - intros l' k' q [[<- <-]|[Hne E]]%lookup_insert_Some Eq; [done|]. by eapply (link_node _ _ (inv_links _ I)).
  - intros q x l' E Eq. destruct (node_link _ _ (inv_links _ I) _ _ _ E Eq) as (k' & Ek' & Hk'). exists k'. split; [|done].
    rewrite lookup_insert_ne; [done|congruence].
Qed.

(** ** Commands *)

(** This node is not a replica. *)
Definition master_me (s : server) : Prop := exists n, heap s !! c_myself s = Some n /\ nodeIsSlave n = false.

(** What an administrator must not do: give slots to a replica that is us, or give
    slots to a node in handshake or replicate it. *)
Definition command_ok (s : server) (c : subcommand) : Prop :=
  match c with
  | AddSlots _ => master_me s
  | SetSlot _ (Node nm) | Replicate nm => forall p, c_nodes s !! nm = Some p -> settled s p
  | _ => True
  end.

(** An entry of the tables of open slots is removed. *)
Lemma inv_importing_del s j : inv s -> inv (set_c_importing_slots_from (delete j (c_importing_slots_from s)) s).
Proof.
  intros I. apply (inv_open s); [done| |done|done]. split; try done; cbn. intros i p [_ E]%lookup_delete_Some. done.
Qed.
Lemma inv_migrating_del s j : inv s -> inv (set_c_migrating_slots_to (delete j (c_migrating_slots_to s)) s).
Proof.
  intros I. apply (inv_open s); [done| |done|done]. split; try done; cbn. intros i p [_ E]%lookup_delete_Some. done.
Qed.

(** An entry of the tables of open slots is set. *)
Lemma inv_set_open s t : inv s -> (forall j p, c_importing_slots_from t !! j = Some p -> slot_ok j /\ live s p) ->
  (forall j p, c_migrating_slots_to t !! j = Some p -> slot_ok j /\ live s p) ->
  c_myself t = c_myself s -> c_nodes t = c_nodes s -> c_slots t = c_slots s -> links t = links s ->
  names_drawn (s_draws t) = names_drawn (s_draws s) -> heap t = heap s -> inv t.
Proof.
  intros I Hi Hm E1 E2 E3 E4 E5 E6. destruct I as [I1 I2 I3 I4 I5 [T1 T2 T3] I7]. split; rewrite ?E6, ?E3, ?E4; try done.
  - eapply names_same; [done|done|done|rewrite E6; apply agree_refl].
  - split; rewrite ?E6; done.
  - eapply me_same; [done|done|rewrite E6; apply agree_refl].
Qed.
Lemma inv_importing_set s j p : inv s -> slot_ok j -> live s p -> inv (set_c_importing_slots_from (<[j := p]> (c_importing_slots_from s)) s).
Proof.
  intros I Hj Hp. apply (inv_set_open s _ I); try done; cbn.
  - intros i q [[<- <-]|[_ E]]%lookup_insert_Some; [done|]. by apply (importing_ptr _ (inv_ptrs _ I)).
  - apply (migrating_ptr _ (inv_ptrs _ I)).
Qed.
Lemma inv_migrating_set s j p : inv s -> slot_ok j -> live s p -> inv (set_c_migrating_slots_to (<[j := p]> (c_migrating_slots_to s)) s).
Proof.
  intros I Hj Hp. apply (inv_set_open s _ I); try done; cbn.
  - apply (importing_ptr _ (inv_ptrs _ I)).
  - intros i q [[<- <-]|[_ E]]%lookup_insert_Some; [done|]. by apply (migrating_ptr _ (inv_ptrs _ I)).
Qed.

(** The slots of ADDSLOTS are free, those of DELSLOTS are not. *)
Definition slot_state (del : bool) (s : server) (j : Z) : Prop :=
  slot_ok j /\ (if del then is_Some (c_slots s !! j) else c_slots s !! j = None).

Lemma wp_check_slots del js seen s :
  wp (check_slots del js seen) (fun r t => t = s /\ (r = None -> forall j, j ∈ js -> slot_state del s j)) s.
Proof.
  revert seen. induction js as [|j js IH]; intros seen; cbn [check_slots].
  { apply wp_ret. split; [done|]. by intros _ j ?%elem_of_nil. }
  wp_case; [by apply wp_ret|]. apply orb_false_iff in Heqb as [Hj1 Hj2]. apply wp_bind. unfold gets, wp at 1.
  wp_case; [by apply wp_ret|]. wp_case; [by apply wp_ret|]. wp_case; [by apply wp_ret|].
  eapply wp_mono; [apply IH|]. intros r t [-> Hr]. split; [done|]. intros Er i [-> |Hi]%elem_of_cons; [|by apply Hr].
  split; [unfold slot_ok; lia|]. destruct del; cbn in *.
  - apply bool_decide_eq_false in Heqb. destruct (c_slots s !! j); [by eexists|done].
  - apply bool_decide_eq_false in Heqb0. destruct (c_slots s !! j); [exfalso; apply Heqb0; by eexists|done].
Qed.

(** The assertion of the loop holds: every slot is visited once. *)
Lemma wp_slots_loop (del : bool) (slots js : list Z) s : inv s -> (del = false -> master_me s) -> NoDup js ->
  (forall j, j ∈ js -> j ∈ slots -> slot_state del s j) ->
  wp (forM js (fun j => when (bool_decide (j ∈ slots))
        (_ ← modify (fun s => set_c_importing_slots_from (delete j (c_importing_slots_from s)) s);
         r ← (if del then clusterDelSlot j else clusterAddSlot (c_myself s) j);
         serverAssert r))) (fun _ t => inv t) s.
Proof.
  remember (c_myself s) as me eqn:Eme. revert s Eme.
  induction js as [|j js IH]; intros s Eme I Hm Hnd Hs; cbn [forM]; [by apply wp_ret|].
  apply NoDup_cons in Hnd as [Hj Hd].
  apply wp_bind, wp_when; [|intros _; apply IH; try done; intros i Hi; apply Hs; by right].
  intros Hin%bool_decide_eq_true. destruct (Hs j ltac:(by left) Hin) as [Hok Hst].
  apply wp_bind. unfold modify, wp at 1. pose proof (inv_importing_del s j I) as I1. set (s1 := set_c_importing_slots_from _ s) in *.
  assert (Hend : forall t, inv t -> slotsame s1 t -> (forall i, i <> j -> c_slots t !! i = c_slots s !! i) ->
    wp (forM js (fun j => when (bool_decide (j ∈ slots))
        (_ ← modify (fun s => set_c_importing_slots_from (delete j (c_importing_slots_from s)) s);
         r ← (if del then clusterDelSlot j else clusterAddSlot me j); serverAssert r))) (fun _ t => inv t) t).
  { intros t It St Hsl. apply IH; [subst me; symmetry; apply St|done| |done|].
    - intros Hf. destruct (Hm Hf) as (n & En & Hn). rewrite <- Eme in En.
      destruct (agree_r _ _ _ (ss_heap _ _ St) _ _ En) as (n' & En' & (_ & Hn' & _)%slotless_roles). exists n'.
      rewrite (ss_me _ _ St). change (c_myself s1) with (c_myself s). rewrite <- Eme. split; [done|congruence].
    - intros i Hi Hi'. destruct (Hs i ltac:(by right) Hi') as [? Hst']. split; [done|]. rewrite (Hsl i); [done|]. by intros ->. }
  apply wp_bind. destruct del.
  - eapply wp_mono; [apply (wp_delslot s1 j I1)|]. intros r t (It & St & Esl & ->). rewrite bool_decide_true by done. apply wp_ret.
    apply Hend; [done|done|]. intros i Hi. rewrite Esl. by rewrite lookup_delete_ne.
  - destruct (Hm eq_refl) as (n & En & Hn). destruct (inv_me _ I) as (n' & En' & Hh & _). rewrite En in En'. injection En' as <-. rewrite <- Eme in En.
    eapply wp_mono; [by apply (wp_addslot s1 me n j I1)|]. intros r t (It & St & -> & Esl). change (c_slots s1) with (c_slots s) in *.
    rewrite bool_decide_true by done. apply wp_ret. apply Hend; [done|done|]. intros i Hi. rewrite Esl, Hst. by rewrite lookup_insert_ne.
Qed.

Lemma inv_slots_command s del slots : inv s -> (del = false -> master_me s) -> wp (cluster_slots_command del slots) (fun _ t => inv t) s.
Proof.
  intros I Hm. unfold cluster_slots_command. apply wp_bind. eapply wp_mono; [apply wp_check_slots|]. intros r t [-> Hr].
  destruct r as [e|]; [by apply wp_ret|]. apply wp_bind. unfold myself, gets, wp at 1. apply wp_bind. unfold for_slots.
  eapply wp_mono; [apply wp_slots_loop; [done|done|apply all_slots_nodup|]|]. { intros j _ Hj. by apply Hr. }
  intros ? t It. eapply (wp_safe inv _ any); [inv_q|exact It|by intros].
Qed.

(** What is left of this node and of others when slots are opened, closed or bumped. *)
Lemma inv_setslot_node s slot p : inv s -> slot_ok slot -> settled s p -> master_me s -> wp (setslot_node slot p) (fun _ t => inv t) s.
Proof.
  intros I Hj (n & En & Hh) (m & Em & Hm). unfold setslot_node.
  apply wp_bind. unfold myself, gets, wp at 1. apply wp_bind. unfold gets, wp at 1. apply wp_bind. unfold countKeysInSlot, gets, wp at 1.
  wp_case; [by apply wp_ret|]. apply wp_bind.
  set (P := fun t : server => inv t /\ c_myself t = c_myself s /\ agree slotless (heap s) (heap t)).
  assert (PQ : forall m, (forall t, inv t -> safe (soft t) m any) -> safe P (m : M unit) any).
  { intros g Hg t (It & Mt & At). eapply wp_safe; [by apply Hg|by apply soft_refl|]. intros ? u Su _. split; [|done].
    split; [by eapply inv_soft|]. split; [by rewrite (soft_me _ _ Su)|]. eapply agree_trans; [done|]. apply soft_slotsame in Su. apply Su. }
  eapply (wp_safe P _ any); [apply safe_when; intros _; apply safe_modify|by split; [|split; [|apply agree_refl]]|].
  { intros t (It & Mt & At). split; [by apply inv_migrating_del|done]. }
  intros ? s1 P1 _. apply wp_bind. unfold gets, wp at 1. apply wp_bind. eapply (wp_safe P _ any); [|exact P1|].
  { apply safe_when. intros _. eapply (safe_bind _ _ _ any).
    - intros t (It & Mt & At). eapply wp_safe; [by apply quiet_bump|by apply soft_refl|]. intros ? u Su _. split; [|done].
      split; [by eapply inv_soft|]. split; [by rewrite (soft_me _ _ Su)|]. eapply agree_trans; [done|]. apply soft_slotsame in Su. apply Su.
    - intros ? _. apply safe_modify. intros t (It & Mt & At). split; [by apply inv_importing_del|done]. }
  intros ? s2 (I2 & M2 & A2) _. apply wp_bind. eapply wp_mono; [apply (wp_delslot s2 slot I2)|]. intros ? s3 (I3 & S3 & _).
  assert (A3 : agree slotless (heap s) (heap s3)) by (eapply agree_trans; [exact A2|apply S3]).
  destruct (agree_r _ _ _ A3 _ _ En) as (n3 & En3 & (_ & Hs3 & Hh3)%slotless_roles).
  apply wp_bind. eapply wp_mono; [apply (wp_addslot s3 p n3 slot I3 En3 Hj); [congruence|]|].
  { rewrite (ss_me _ _ S3), M2. intros ->. congruence. }
  intros ? s4 (I4 & _). eapply (wp_safe inv _ any); [inv_q|exact I4|by intros].
Qed.

Lemma inv_setslot s slot a : inv s -> command_ok s (SetSlot slot a) -> wp (cluster_setslot slot a) (fun _ t => inv t) s.
Proof.
  intros I Hc. destruct (inv_me _ I) as (m & Em & _). unfold cluster_setslot, error, ok.
  apply wp_bind. unfold myself, gets, wp at 1. apply wp_bind, wp_rd. exists m. split; [done|].
  destruct (nodeIsSlave m) eqn:Hm; [by apply wp_ret|]. wp_case; [by apply wp_ret|].
  assert (Hj : slot_ok slot) by (apply orb_false_iff in Heqb as [? ?]; unfold slot_ok; lia).
  apply wp_bind. unfold gets, wp at 1.
  assert (Hend : forall t, inv t -> wp (_ ← clusterDoBeforeSleep TODO_STATE; mret Ok) (fun _ t => inv t) t).
  { intros t It. eapply (wp_safe inv _ any); [inv_q|exact It|by intros]. }
  destruct a as [nm|nm| |nm].
  - wp_case; [by apply wp_ret|]. apply wp_bind. unfold clusterLookupNode, gets, wp at 1.
    destruct (c_nodes s !! nm) as [p|] eqn:Ep; [|by apply wp_ret]. apply wp_bind. unfold modify, wp at 1.
    apply Hend, inv_migrating_set; [done|done|by eapply known_live].
  - wp_case; [by apply wp_ret|]. apply wp_bind. unfold clusterLookupNode, gets, wp at 1.
    destruct (c_nodes s !! nm) as [p|] eqn:Ep; [|by apply wp_ret]. apply wp_bind. unfold modify, wp at 1.
    apply Hend, inv_importing_set; [done|done|by eapply known_live].
  - apply wp_bind. unfold modify, wp at 1. apply wp_bind. unfold modify, wp at 1. by apply Hend, inv_migrating_del, inv_importing_del.
  - apply wp_bind. unfold clusterLookupNode, gets, wp at 1. destruct (c_nodes s !! nm) as [p|] eqn:Ep; [|by apply wp_ret].
    apply inv_setslot_node; [done|done|by apply Hc|by exists m].
Qed.

(** The master of a node that is not a replica is not there. *)
Lemma master_slaveof s m : inv s -> heap s !! c_myself s = Some m -> nodeIsSlave m = false -> n_slaveof m = None.
Proof.
  intros I Em Hm. destruct (inv_me _ I) as (m' & Em' & Hh & _). rewrite Em in Em'. injection Em' as <-.
  pose proof (inv_roles _ I _ _ Em) as Ro. unfold role_ok in Ro. rewrite Hh in Ro. by apply Ro.
Qed.

Lemma inv_forget s nm : inv s -> wp (cluster_forget nm) (fun _ t => inv t) s.
Proof.
  intros I. destruct (inv_me _ I) as (m & Em & _). unfold cluster_forget, error, ok. apply wp_bind. unfold clusterLookupNode, gets, wp at 1.
  apply wp_bind. unfold myself, gets, wp at 1. apply wp_bind, wp_rd. exists m. split; [done|].
  destruct (c_nodes s !! nm) as [p|] eqn:Ep; [|by apply wp_ret]. pose proof (known_live s I _ _ Ep) as Hp.
  case_bool_decide as Hne; [by apply wp_ret|]. wp_case; [by apply wp_ret|].
  apply wp_bind. eapply wp_safe; [by apply quiet_blacklist_add|by apply soft_refl|]. intros ? s1 S1 _. pose proof (inv_soft _ _ I S1) as I1.
  destruct (soft_lookup_r _ _ _ _ S1 Em) as (m1 & Em1 & Sh). apply shape_fields in Sh as (_ & _ & _ & _ & _ & So & _).
  rewrite <- (soft_me _ _ S1) in Em1, Hne. apply wp_bind.
  eapply wp_mono; [apply (wp_delnode p s1 m1 I1); [by apply (soft_live _ _ p S1)|done|done|]|].
  - rewrite So. destruct (nodeIsSlave m) eqn:Hm; [|by rewrite (master_slaveof s m)]. by apply bool_decide_eq_false in Heqb.
  - intros ? t [It _]. eapply (wp_safe inv _ any); [inv_q|exact It|by intros].
Qed.

Lemma inv_replicate s nm : inv s -> command_ok s (Replicate nm) -> wp (cluster_replicate nm) (fun _ t => inv t) s.
Proof.
  intros I Hc. destruct (inv_me _ I) as (m & Em & Hh & Hs). unfold cluster_replicate, error, ok. apply wp_bind. unfold clusterLookupNode, gets, wp at 1.
  apply wp_bind. unfold myself, gets, wp at 1. apply wp_bind, wp_rd. exists m. split; [done|]. apply wp_bind. unfold gets, wp at 1.
  destruct (c_nodes s !! nm) as [p|] eqn:Ep; [|by apply wp_ret]. case_bool_decide as Hne; [by apply wp_ret|].
  destruct (Hc p Ep) as (n & En & Hn). apply wp_bind, wp_rd. exists n. split; [done|].
  wp_case; [by apply wp_ret|]. wp_case; [by apply wp_ret|]. apply wp_bind.
  eapply wp_mono; [apply (wp_setmaster 1 s p m I Em)|].
  - destruct (nodeIsSlave m) eqn:Hm; [by apply Hs|]. pose proof (inv_roles _ I _ _ Em) as Ro. unfold role_ok in Ro. rewrite Hh in Ro.
    destruct Ro as [Ro _]. rewrite Ro, Hm in Heqb0. cbn in Heqb0. apply orb_false_iff in Heqb0 as [Hz _].
    apply negb_false_iff in Hz. lia.
  - done.
  - by exists n.
  - intros ? t [It _]. eapply (wp_safe inv _ any); [inv_q|exact It|by intros].
Qed.

Lemma inv_failover f tk : safe inv (cluster_failover f tk) any.
Proof.
  intros s I. destruct (inv_me _ I) as (m & Em & _). unfold cluster_failover, error, ok.
  apply wp_bind. unfold myself, gets, wp at 1. apply wp_bind, wp_rd. exists m. split; [done|].
  wp_case; [by apply wp_ret|]. destruct (n_slaveof m) as [mp|] eqn:Eo; [|by apply wp_ret].
  destruct (slaveof_slaves _ (inv_repl _ I) _ _ _ Em Eo) as (nm & Enm & _). apply wp_bind, wp_rd. exists nm. split; [done|].
  wp_case; [by apply wp_ret|]. eapply (wp_safe (Revo 1 s) _ any); [|by apply Revo_refl|by intros ? t [It _]; split].
  assert (Hmp : live s mp) by (by exists nm).
  eapply (safe_bind _ _ _ any); [apply evo_quiet; intros t [It _]; quiet_run|]. intros ? _.
  eapply (safe_bind _ _ _ any); [by apply safe_gets|]. intros ? _.
  eapply (safe_bind _ _ _ any); [apply evo_quiet; intros t [It _]; quiet_run|]. intros ? _.
  eapply (safe_bind _ _ _ any); [|by intros ? _; apply safe_ret]. destruct tk; [|destruct f].
  - eapply (safe_bind _ _ _ any); [apply evo_quiet; intros t [It _]; by apply quiet_bump|]. intros ? _. apply evo_replace_master.
  - apply evo_quiet. intros t [It _]. quiet_run.
  - apply evo_quiet. intros t Rt. apply quiet_sendempty; [apply Rt|by eapply Revo_live].
Qed.

(** A node that forgets everybody. *)
Definition alone (me : ptr) (s : server) : Prop :=
  inv s /\ c_myself s = me /\ exists m, heap s !! me = Some m /\ n_slaveof m = None.

Lemma alone_quiet {A} me (m : M A) Q : (forall s, inv s -> live s me -> safe (soft s) m Q) -> safe (alone me) m Q.
Proof.
  intros Hm s (I & M & n & En & Hn). eapply wp_safe; [by apply Hm; [|exists n]|by apply soft_refl|]. intros a t St Ha. split; [|done].
  split; [by eapply inv_soft|]. split; [by rewrite (soft_me _ _ St)|].
  destruct (soft_lookup_r _ _ _ _ St En) as (n' & En' & (_ & _ & _ & _ & _ & So & _)%shape_fields). exists n'. split; [done|congruence].
Qed.

Lemma alone_delnodes me s : alone me s ->
  wp (l ← all_nodes; forM l (fun p => when (negb (bool_decide (p = me))) (clusterDelNode p))) (fun _ t => alone me t) s.
Proof.
  intros As. pose proof As as (I & _). apply wp_bind. unfold all_nodes, gets, wp at 1.
  apply (live_loop _ _ (alone me)); [|done|by apply order_nodup|apply (order_live s I)].
  clear s As I. intros s p (I & M & m & Em & Hm) Hp. apply wp_when; [|intros _; split; [by split; [|split; [|exists m]]|done]].
  intros Hne%negb_true_iff%bool_decide_eq_false. rewrite <- M in Em, Hne.
  eapply wp_mono; [apply (wp_delnode p s m I Hp Em Hne); congruence|]. intros ? t [It Dt].
  split; [split; [done|]; split; [by rewrite (de_me _ _ _ Dt)|]|].
  - destruct (de_heap _ _ _ Dt _ _ Em ltac:(congruence)) as (m' & Em' & _ & _ & Ho). exists m'. rewrite M in Em'. split; [done|].
    destruct Ho; congruence.
  - intros q Hq [x Ex]. destruct (de_heap _ _ _ Dt q x Ex Hq) as (x' & Ex' & _). by exists x'.
Qed.

(** A hard reset draws a new name. *)
Lemma inv_newname s : inv s ->
  wp (m ← rd (c_myself s); _ ← dictDelete_node (n_name m); nm ← getRandomHexChars; _ ← upd (c_myself s) (set_n_name nm);
      _ ← clusterAddNode (c_myself s); mret tt) (fun _ t => inv t) s.
Proof.
  intros I. destruct (inv_me _ I) as (m & Em & Hm & _). apply wp_bind, wp_rd. exists m. split; [done|].
  unfold dictDelete_node. apply wp_bind, wp_bind. unfold gets, wp at 1. rewrite (heap_names _ (inv_names _ I) _ _ Em).
  apply wp_bind. unfold modify, wp at 1. apply wp_ret. apply wp_bind. unfold getRandomHexChars, wp at 1.
  set (nm := random_name _). apply wp_bind, wp_upd. exists m. split; [done|].
  apply wp_bind. unfold clusterAddNode. apply wp_bind, wp_rd. exists (set_n_name nm m). split; [cbn; apply lookup_insert_eq|].
  assert (Enm : c_nodes s !! nm = None).
  { destruct (c_nodes s !! nm) as [q|] eqn:E; [|done]. destruct (names_fresh _ (inv_names _ I) nm (names_drawn (s_draws s)) (ex_intro _ q E)); done. }
  apply wp_bind. unfold gets, wp at 1. cbn [c_nodes set_heap set_s_draws set_c_nodes n_name set_n_name].
  rewrite (proj2 (lookup_delete_None _ _ _)) by (by right). apply wp_bind. unfold modify, wp at 1. apply wp_ret, wp_ret.
  set (d := mkDraws (nums_drawn (s_draws s)) (Datatypes.S (names_drawn (s_draws s))) (connects_drawn (s_draws s))).
  pose proof (inv_rename s (c_myself s) m (set_n_name nm m) d I Em Enm eq_refl (inv_roles _ I _ _ Em) Hm ltac:(done)) as HR.
  apply HR; [cbn; lia|]. cbn. intros k Hk E. apply random_name_inj in E. cbn in Hk, E. lia.
Qed.

Lemma inv_closeall s : inv s -> inv (set_c_importing_slots_from ∅ (set_c_migrating_slots_to ∅ s)).
Proof. intros I. apply (inv_open s); [done| |done|done]. by split. Qed.

Lemma inv_clusterReset hard : safe inv (clusterReset hard) any.
Proof.
  intros s I. destruct (inv_me _ I) as (m & Em & Hm & _). unfold clusterReset.
  apply wp_bind. unfold myself, gets, wp at 1. apply wp_bind, wp_rd. exists m. split; [done|].
  set (me := c_myself s). apply wp_bind. assert (Hfirst : wp (when (nodeIsSlave m)
    (_ ← clusterSetNodeAsMaster me; _ ← replicationUnsetMaster;
     _ ← modify (fun s => set_c_slots_keys_count ∅ (set_s_db_keys 0 s)); effect_ EmptyDb)) (fun _ t => alone me t) s).
  { apply wp_when; [intros Hsl|intros Hsl; split; [done|]; split; [done|]; exists m; split; [done|by apply (master_slaveof s)]].
    apply wp_bind. eapply wp_mono; [by apply (wp_setnodeasmaster s me m)|]. intros ? t (It & St & n & En & _ & Hn).
    eapply (wp_safe (alone me) _ any); [apply alone_quiet; intros; quiet_run| |by intros].
    split; [done|]. split; [apply St|]. exists n. split; [done|]. apply (master_slaveof t); [done|by rewrite (rs_me _ _ St)|done]. }
  eapply wp_mono; [exact Hfirst|]. clear Hfirst. intros ? s1 A1. apply wp_bind. unfold clusterCloseAllSlots. apply wp_bind, wp_modify, wp_modify.
  apply wp_bind. eapply (wp_safe (alone me) _ any); [apply alone_quiet; intros; quiet_run|by split; [apply inv_closeall; apply A1|apply A1]|].
  intros ? s2 A2 _. apply wp_bind. eapply (wp_safe (alone me) _ any); [|exact A2|].
  { unfold for_slots. apply safe_forM. intros j Hj. intros t (It & Mt & n & En & Hn). apply wp_bind.
    eapply wp_mono; [apply (wp_delslot t j It)|]. intros ? u (Iu & Su & _). apply wp_ret. split; [|done].
    split; [done|]. split; [by rewrite (ss_me _ _ Su)|].
    destruct (agree_r _ _ _ (ss_heap _ _ Su) _ _ En) as (n' & En' & (_ & _ & _ & So & _)%slotless_fields). exists n'. split; [done|congruence]. }
  intros ? s3 A3 _. pose proof (alone_delnodes me s3 A3) as Hd. apply wp_unbind in Hd. apply wp_bind. eapply wp_mono; [exact Hd|].
  intros l s4 Hd4. apply wp_bind. eapply wp_mono; [exact Hd4|]. clear Hd Hd4. intros ? s5 A5. apply wp_bind.
  assert (Hend : forall t, inv t -> wp (clusterDoBeforeSleep CONFIG_TODO) (fun _ t => inv t /\ True) t).
  { intros t It. eapply (wp_safe inv _ any); [inv_q|exact It|by intros]. }
  apply wp_when; [intros _|intros _; apply Hend; apply A5].
  apply wp_bind. eapply (wp_safe (alone me) _ any); [apply alone_quiet; intros; quiet_run|exact A5|]. intros ? s6 A6 _.
  apply wp_bind. eapply (wp_safe (alone me) _ any); [apply alone_quiet; intros; quiet_run|exact A6|]. intros ? s7 A7 _.
  apply wp_bind. eapply (wp_safe (alone me) _ any); [apply alone_quiet; intros; quiet_run|exact A7|]. intros ? s8 (I8 & M8 & _) _.
  rewrite <- M8. eapply wp_mono; [by apply inv_newname|]. intros ? t It. by apply Hend.
Qed.

Lemma inv_reset hard : safe inv (cluster_reset hard) any.
Proof.
  intros s I. destruct (inv_me _ I) as (m & Em & _). unfold cluster_reset, error, ok.
  apply wp_bind. unfold myself, gets, wp at 1. apply wp_bind, wp_rd. exists m. split; [done|]. apply wp_bind. unfold gets, wp at 1.
  wp_case; [by apply wp_ret|]. apply wp_bind. eapply wp_safe; [apply inv_clusterReset|exact I|]. intros ? t It _. by apply wp_ret.
Qed.

Lemma inv_command s c : inv s -> command_ok s c -> wp (clusterCommand c) (fun _ t => inv t) s.
Proof.
  intros I Hc. destruct c as [ip port cport| |l|l|slot a| |nm|nm|nm|f tk|e|hard]; cbn [clusterCommand]; unfold ok, error.
  - apply wp_bind. unfold clusterStartHandshake. destruct ip as [ip|]; [|by apply wp_ret, wp_ret]. case_match; [by apply wp_ret, wp_ret|].
    apply wp_bind. eapply wp_safe; [by apply quiet_handshake_in_progress|by apply soft_refl|]. intros b s1 S1 _. pose proof (inv_soft _ _ I S1) as I1.
    destruct b; [by apply wp_ret, wp_ret|]. apply wp_add_node_then.
    eapply wp_mono; [apply (wp_add_node 1 s1 None); [done|done|done|]|]. { intros n [? ? ? ? ? ? ?]. by split. }
    intros ? t [It _]. by apply wp_ret, wp_ret.
  - apply wp_bind. unfold gets, wp at 1. wp_case; [by apply wp_ret|]. apply wp_bind. unfold myself, gets, wp at 1. apply wp_bind.
    eapply wp_safe; [apply (slot_delnodeslots s); by apply me_live|by apply Rslot_refl|]. intros ? t [It _] _.
    eapply (wp_safe inv _ any); [inv_q|exact It|by intros].
  - by apply inv_slots_command.
  - by apply inv_slots_command.
  - by apply inv_setslot.
  - eapply (wp_safe inv _ any); [|exact I|by intros]. apply inv_quiet. intros t It. pose proof (me_live t It). quiet_run.
  - by apply inv_forget.
  - by apply inv_replicate.
  - eapply (wp_safe inv _ any); [inv_q|exact I|by intros].
  - eapply wp_safe; [apply inv_failover|exact I|by intros].
  - eapply (wp_safe inv _ any); [|exact I|by intros]. apply inv_quiet. intros t It. pose proof (me_live t It). unfold cluster_set_config_epoch, error, ok. quiet_run.
  - eapply wp_safe; [apply inv_reset|exact I|by intros].
Qed.

(** ** Keys that were loaded *)

Lemma inv_verify_slots s js b : inv s -> master_me s -> (forall j, j ∈ js -> slot_ok j) ->
  wp (verify_slots js b) (fun _ t => inv t) s.
Proof.
  revert s b. induction js as [|j js IH]; intros s b I Hm Hj; cbn [verify_slots]; [by apply wp_ret|].
  assert (Hj' : forall i, i ∈ js -> slot_ok i) by (intros i Hi; apply Hj; by right). assert (Hj0 : slot_ok j) by (apply Hj; by left).
  apply wp_bind. unfold myself, gets, wp at 1. apply wp_bind. unfold countKeysInSlot, gets, wp at 1.
  apply wp_bind. unfold gets, wp at 1. apply wp_bind. unfold gets, wp at 1. wp_case; [by apply IH|]. apply wp_bind.
  pose proof Hm as (m & Em & Hsl). destruct (inv_me _ I) as (m' & Em' & Hh & _). rewrite Em in Em'. injection Em' as <-.
  destruct (c_slots s !! j) as [p|] eqn:Ej.
  - apply wp_modify. apply IH; [|done|done]. apply inv_importing_set; [done|done|by eapply owner_live].
  - apply wp_bind. eapply wp_mono; [by apply (wp_addslot s (c_myself s) m j)|]. intros ? t (It & St & _). apply wp_ret.
    apply IH; [done| |done]. destruct (agree_r _ _ _ (ss_heap _ _ St) _ _ Em) as (n & En & (_ & Hn & _)%slotless_roles).
    exists n. rewrite (ss_me _ _ St). split; [done|congruence].
Qed.

Lemma inv_verify other : safe inv (verifyClusterConfigWithData other) any.
Proof.
  intros s I. destruct (inv_me _ I) as (m & Em & _). unfold verifyClusterConfigWithData. apply wp_bind. unfold cfg, gets, wp at 1.
  apply wp_bind. unfold myself, gets, wp at 1. apply wp_bind, wp_rd. exists m. split; [done|].
  wp_case; [by apply wp_ret|]. wp_case; [by apply wp_ret|]. destruct other; [by apply wp_ret|]. apply wp_bind.
  eapply wp_mono; [apply inv_verify_slots; [done|by exists m|intros j; apply all_slots_elem]|]. intros b t It.
  eapply (wp_safe inv _ any); [inv_q|exact It|by intros].
Qed.

(** ** Runs *)

(** What happens to a node: a packet on a link, the timer, the end of an iteration of
    the event loop, a new connection, a broken one, a command, the end of loading;
    and between the handlers the clock, the configuration, the replication and the
    keys change. *)
Inductive event :=
  | Packet (subscribers : bool) (link : ptr) (hdr : clusterMsg) (rcvlen : Z)
  | Cron
  | BeforeSleep
  | Accept (peer : string) (sock : option string)
  | LinkError (link : ptr)
  | Command (c : subcommand)
  | Loaded (other_dbs : bool)
  | Tick (clk : clock)
  | Configure (cf : config)
  | Replicated (r : replication)
  | Keys (count : gmap Z Z) (total : Z).

Definition handle (e : event) : M unit :=
  match e with
  | Packet sub l hdr len => _ ← clusterProcessPacket sub l hdr len; mret tt
  | Cron => clusterCron
  | BeforeSleep => clusterBeforeSleep
  | Accept peer sock => clusterAcceptHandler peer sock
  | LinkError l => handleLinkIOError l
  | Command c => _ ← clusterCommand c; mret tt
  | Loaded other => _ ← verifyClusterConfigWithData other; mret tt
  | Tick clk => modify (set_s_clock clk)
  | Configure cf => modify (set_s_cfg cf)
  | Replicated r => modify (set_s_repl r)
  | Keys count total => _ ← modify (set_c_slots_keys_count count); modify (set_s_db_keys total)
  end.

(** A link is there when its handler runs; packets and commands as above. *)
Definition event_ok (s : server) (e : event) : Prop :=
  match e with
  | Packet _ l hdr _ => packet_ok s l hdr
  | LinkError l => linked s l
  | Command c => command_ok s c
  | _ => True
  end.

Lemma inv_handle s e : inv s -> event_ok s e -> wp (handle e) (fun _ t => inv t) s.
Proof.
  intros I He. destruct e; cbn [handle].
  - apply wp_bind. eapply wp_mono; [by apply (wp_packet subscribers link s hdr rcvlen)|]. intros ? t [It _]. by apply wp_ret.
  - eapply wp_safe; [apply inv_cron|exact I|by intros].
  - eapply wp_safe; [apply inv_before_sleep|exact I|by intros].
  - eapply wp_safe; [apply inv_accept|exact I|by intros].
  - by apply inv_freelink.
  - apply wp_bind. eapply wp_mono; [by apply inv_command|]. intros ? t It. by apply wp_ret.
  - apply wp_bind. eapply wp_safe; [apply inv_verify|exact I|]. intros ? t It _. by apply wp_ret.
  - eapply (wp_safe inv _ any); [inv_q|exact I|by intros].
  - eapply (wp_safe inv _ any); [inv_q|exact I|by intros].
  - eapply (wp_safe inv _ any); [inv_q|exact I|by intros].
  - eapply (wp_safe inv _ any); [inv_q|exact I|by intros].
Qed.

(** A node that starts with an empty configuration. *)
Definition started (s : server) : Prop :=
  exists junk cf clk r, clusterInit (cluster_blank junk cf clk r) = Some (tt, s).

Inductive reachable : server -> Prop :=
  | reach_start s : started s -> reachable s
  | reach_step s e s' : reachable s -> event_ok s e -> handle e s = Some (tt, s') -> reachable s'.

Lemma inv_first n nm s : blank n -> nodeInHandshake n = false -> nodeIsSlave n = false -> n_name n = nm ->
  c_nodes s = {[nm := c_myself s]} -> heap s = {[c_myself s := n]} -> c_slots s = ∅ -> links s = ∅ ->
  c_importing_slots_from s = ∅ -> c_migrating_slots_to s = ∅ -> not_random s nm -> inv s.
Proof.
  intros B Hh Hm Hn E1 E2 E3 E4 E5 E6 Hr. split; rewrite ?E2, ?E3, ?E4.
  - split; rewrite ?E1, ?E2.
    + intros nm' p [<- <-]%lookup_singleton_Some. exists n. by rewrite lookup_singleton_eq.
    + intros p x [<- <-]%lookup_singleton_Some. rewrite Hn. apply lookup_singleton_eq.
    + intros nm' k [p E]. apply lookup_singleton_Some in E as [<- _]. apply Hr.
  - split.
    + intros p x [<- <-]%lookup_singleton_Some. rewrite (blank_slots _ B), (blank_numslots _ B). split; [apply length_replicate|by rewrite popcount_new].
    + intros j p. rewrite lookup_empty. split; [done|]. intros (_ & x & [<- <-]%lookup_singleton_Some & T).
      rewrite (blank_slots _ B), new_bitmap_testbit in T. done.
  - split; intros p x.
    + intros m [<- <-]%lookup_singleton_Some E. by rewrite (blank_slaveof _ B) in E.
    + intros q [<- <-]%lookup_singleton_Some E. rewrite (blank_slaves _ B) in E. by apply elem_of_nil in E.
    + intros [<- <-]%lookup_singleton_Some. rewrite (blank_slaves _ B). constructor.
  - intros p x [<- <-]%lookup_singleton_Some. by apply blank_role.
  - split; [intros l k p E; by rewrite lookup_empty in E|]. intros p x l [<- <-]%lookup_singleton_Some E. by rewrite (blank_link _ B) in E.
  - split; rewrite ?E5, ?E6; [intros j p E; by rewrite lookup_empty in E..|]. rewrite E2.
    intros p x [<- <-]%lookup_singleton_Some. unfold reports_ok. rewrite (blank_reports _ B). split; [constructor|]. by intros r ?%elem_of_nil.
  - exists n. rewrite E2, lookup_singleton_eq. split; [done|]. split; [done|]. congruence.
Qed.

Lemma inv_started s : started s -> inv s.
Proof.
  intros (junk & cf & clk & r & E). assert (HW : wp clusterInit (fun _ t => inv t) (cluster_blank junk cf clk r)); [|unfold wp in HW; by rewrite E in HW].
  clear E s. unfold clusterInit, createClusterNode. apply wp_bind, wp_bind. unfold getRandomHexChars, wp at 1.
  apply wp_bind. unfold now, gets, wp at 1. unfold alloc_node, wp at 1. set (p := fresh _). set (nm := random_name _). set (n := new_node _ _ _).
  assert (Bn : blank n) by (by apply new_node_blank).
  apply wp_bind, wp_modify, wp_bind. unfold clusterAddNode. apply wp_bind, wp_rd. exists n. split; [cbn; by rewrite lookup_insert_eq|].
  apply wp_bind. unfold gets, wp at 1. cbn [c_nodes set_c_myself set_heap set_s_draws cluster_blank]. rewrite lookup_empty.
  apply wp_bind, wp_modify, wp_ret. set (s1 := set_c_nodes _ _).
  assert (I1 : inv s1).
  { apply (inv_first n nm); [done|done|done|done|cbn; by rewrite insert_empty|cbn; by rewrite insert_empty|done|done|done|done|].
    intros k Hk E. apply random_name_inj in E. cbn in Hk, E. lia. }
  assert (Hp : live s1 p) by (exists n; cbn; apply lookup_insert_eq).
  eapply (wp_safe (soft s1) _ any); [quiet_run|by apply soft_refl|]. intros ? t St _. by eapply inv_soft.
Qed.

Lemma inv_reachable s : reachable s -> inv s.
Proof.
  induction 1 as [s Hs|s e s' _ I He E]; [by apply inv_started|]. pose proof (inv_handle s e I He) as HW. unfold wp in HW. by rewrite E in HW.
Qed.
End Events.
End ClusterEvents.
