(* ===== verification/ClusterClaims.v ===== *)
(** * A node of a cluster never crashes on what its cluster sends (cluster.c)

    The theorems about the runs of a node, a small concrete world, and a run in which a
    command of the administrator leads to a crash later. *)

From Stdlib Require Import String Ascii.
From stdpp Require Import strings pmap.
From S2P Require Import Prelude Cluster ClusterInv ClusterSafe ClusterNodes ClusterPackets ClusterEvents.

Module ClusterClaims.
Import Cluster ClusterInv ClusterSafe ClusterNodes ClusterPackets ClusterEvents.

(** ** A concrete world *)

Fixpoint sample_name (k : nat) : string :=
  match k with O => "r"%string | Datatypes.S k => String "r" (sample_name k) end.
Lemma sample_name_inj i j : sample_name i = sample_name j -> i = j.
Proof.
  revert j. induction i as [|i IH]; intros [|j]; cbn; intros E; try done.
  - injection E. by destruct j.
  - injection E. by destruct i.
  - injection E as E. by rewrite (IH j).
Qed.

Definition sample_world : World := {|
  node_order m := (map_to_list m).*2;
  random_num k := Z.of_nat k;
  random_name := sample_name;
  connect_result _ := Some "10.0.0.1"%string
|}.
#[export] Existing Instance sample_world.
#[export] Instance sample_laws : WorldLaws.
Proof. split; [done|apply sample_name_inj]. Qed.

Definition sample_config : config := mkConfig 15000 true false 10 1 0 None 0 0 6379 10.
Definition sample_clock (t : Z) : clock := mkClock t t (t / 1000).
Definition sample_repl : replication := mkRepl None false 0 0 None 0.
Definition sample_blank : server := cluster_blank 0 sample_config (sample_clock 1000) sample_repl.

(** Run events one after the other. *)
Fixpoint run (es : list event) (s : server) : option server :=
  match es with
  | [] => Some s
  | e :: es => match handle e s with Some (_, t) => run es t | None => None end
  end.

(** All of them are as they should be. *)
Fixpoint run_ok (es : list event) (s : server) : Prop :=
  match es with
  | [] => True
  | e :: es => event_ok s e /\ match handle e s with Some (_, t) => run_ok es t | None => True end
  end.

Lemma reachable_run es s t : reachable s -> run_ok es s -> run es s = Some t -> reachable t.
Proof.
  revert s. induction es as [|e es IH]; intros s Hs Ho E; cbn in *; [by injection E as <-|].
  destruct Ho as [He Ho]. destruct (handle e s) as [[[] u]|] eqn:Eu; [|done]. eapply IH; [|done|done]. by eapply reach_step.
Qed.

Definition after (es : list event) : server :=
  match clusterInit sample_blank with Some (_, s) => default sample_blank (run es s) | None => sample_blank end.

Lemma started_after : started (after []).
Proof. exists 0, sample_config, (sample_clock 1000), sample_repl. vm_compute. reflexivity. Qed.

(** Another node is met, and the timer connects to it. *)
Definition meet_run : list event :=
  [Command (Meet (Some "10.0.0.2"%string) 7000 17000); Cron].

Definition gossip_about (nm : string) : clusterMsgDataGossip := mkGossip nm 0 1 "10.0.0.3" 7001 17001 CLUSTER_NODE_MASTER.
Definition bit (j : Z) : list Z := bitmapSetBit (replicate (Z.to_nat (CLUSTER_SLOTS / 8)) 0) j.

(** A message of a master. *)
Definition from_master (nm : string) (epoch : Z) (slots : list Z) (d : clusterMsgData) : clusterMsg :=
  mkMsg (data_len d) CLUSTER_PROTO_VER 7000 epoch epoch 0 nm slots CLUSTER_NODE_NULL_NAME EmptyString 17000
    CLUSTER_NODE_MASTER CLUSTER_OK 0 d.

Definition meet_pong : clusterMsg := from_master "B" 1 (bit 3) (PONG [gossip_about "C"]).

(** ** Runs of a node *)

(** C5: the state of the cluster is well formed in every state that a node reaches
    from its start through timers, connections, changes of its surroundings, and the
    packets and commands that [event_ok] admits: the table of nodes lists exactly the
    live node objects under their names, the slot table agrees with the bitmaps of the
    nodes and the bitmaps with their counters, masters and replicas point to each other,
    links and nodes point to each other, no pointer of a table or of a failure report
    leads to a freed node, a node in handshake has no role and no slots, and this node,
    when it is a replica, owns no slot and has a master.  [event_ok] admits every command
    but three that the code accepts and that break the last points: ADDSLOTS on a
    replica, and SETSLOT NODE and REPLICATE with a node in handshake.  Of packets it
    admits those that nodes following clusterSendPing and clusterBuildMessageHdr send:
    the sender claims to be either a master or a replica, is not known here as a node in
    handshake, does not use the random name of a handshake of this node, and does not
    gossip about the node of the link the packet comes on; its gossip entries name no
    such handshake either and have the flags of a node, one role or a handshake; a
    packet with the name of this node names its own master; a MEET does not answer on a link to a known node;
    an UPDATE is not about a node in handshake. *)
Theorem reachable_well_formed `{World} `{!WorldLaws} s : reachable s -> inv s.
Proof. apply inv_reachable. Qed.

Lemma reachable_meet : reachable (after meet_run).
Proof.
  apply (reachable_run meet_run (after [])); [apply reach_start, started_after| |vm_compute; reflexivity].
  cbn [run_ok meet_run]. split; [exact I|]. destruct (handle _ _) as [[? ?]|]; [|exact I]. split; [exact I|]. by destruct (handle _ _) as [[? ?]|].
Qed.

Lemma reachable_well_formed_witness : reachable (after meet_run) /\ inv (after meet_run).
Proof. split; [exact reachable_meet|]. apply (reachable_well_formed (after meet_run)). exact reachable_meet. Defined.

Lemma meet_pong_ok : packet_ok (after meet_run) 1 meet_pong.
Proof.
  assert (Hr : forall c s, c <> "r"%char -> not_random (after meet_run) (String c s)).
  { intros c s Hc k _ E. destruct k; injection E as E _; done. }
  split.
  - apply (bool_decide_eq_true_1 _). vm_compute. reflexivity.
  - by apply Hr.
  - intros sp E. vm_compute in E. discriminate E.
  - reflexivity.
  - intros E. vm_compute in E. discriminate E.
  - intros g [-> |?%elem_of_nil]%elem_of_cons; [|done]. split; [|by apply Hr|reflexivity].
    intros k p n Ek Ep En. vm_compute in Ek. injection Ek as <-. injection Ep as <-. vm_compute in En. injection En as <-. intros E. discriminate E.
  - intros gs k E. change (PONG [gossip_about "C"] = MEET gs) in E. discriminate E.
  - intros e nm b p E. change (PONG [gossip_about "C"] = UPDATE e nm b) in E. discriminate E.
Qed.

(** C4: no event that [event_ok] admits stops a node: in every state that a node reaches
    through such events, the handlers of packets, of the timer, of the end of an
    iteration of the event loop, of connections and of commands run to their end.  No
    assertion of cluster.c fails ([clusterDelSlot], [freeClusterNode],
    [clusterRenameNode], [clusterSetMaster], [clusterGetSlaveRank],
    [clearNodeFailureIfNeeded], ADDSLOTS and DELSLOTS), no NULL pointer is followed and
    no freed node or link is used.  Three commands that the code accepts are not
    admitted, since the node may stop at a later event: ADDSLOTS on a replica, and
    SETSLOT NODE and REPLICATE with a node in handshake.  Packets are those of nodes
    that follow the protocol, as for the well-formed states above; in particular a
    packet does not gossip about the node of the link it comes on. *)
Theorem cluster_never_stops `{World} `{!WorldLaws} s e : reachable s -> event_ok s e -> exists t, handle e s = Some (tt, t).
Proof.
  intros Hs He. pose proof (inv_handle s e (inv_reachable s Hs) He) as HW. unfold wp in HW.
  destruct (handle e s) as [[[] t]|]; [by exists t|done].
Qed.

Lemma cluster_never_stops_witness : exists t, handle (Packet false 1 meet_pong 100000) (after meet_run) = Some (tt, t).
Proof. apply (cluster_never_stops (after meet_run)); [exact reachable_meet|exact meet_pong_ok]. Defined.

(** C8: [clusterProcessPacket] tells the truth about the link, for every packet that
    does not gossip about the node of the link it comes on and is otherwise admitted
    ([packet_ok]): when it returns 1 the link of the packet is still there, so that
    [clusterReadHandler] may go on to use its buffer; where the link is freed (the end
    of a handshake with a node that is known already, a node that turns out to have
    another name) it returns 0.  A packet that does gossip about that node is left out
    because it can have the link freed by [clusterProcessGossipSection] while the result
    is still 1; a node never sends such a packet about itself ([clusterSendPing]). *)
Theorem packet_link_valid `{World} `{!WorldLaws} s sub l hdr len : reachable s -> packet_ok s l hdr ->
  exists r t, clusterProcessPacket sub l hdr len s = Some (r, t) /\ (r = true -> is_Some (links t !! l)).
Proof.
  intros Hs Hp. pose proof (wp_packet sub l s hdr len (inv_reachable s Hs) Hp) as HW. unfold wp in HW.
  destruct (clusterProcessPacket sub l hdr len s) as [[r t]|]; [|done]. exists r, t. split; [done|apply HW].
Qed.

Lemma packet_link_valid_witness : exists r t, clusterProcessPacket false 1 meet_pong 100000 (after meet_run) = Some (r, t) /\
  (r = true -> is_Some (links t !! 1%positive)).
Proof. apply (packet_link_valid (after meet_run)); [exact reachable_meet|exact meet_pong_ok]. Defined.

(** ** A command that leads to a crash *)

(** The packet comes in on a link that is there, from a master that is known, and stops
    the process. *)
Definition stops (l : ptr) (hdr : clusterMsg) (s : server) : bool :=
  match links s !! l, c_nodes s !! h_sender hdr ≫= fun p => heap s !! p with
  | Some _, Some n =>
      packet_sane hdr 100000 && nodeIsMaster n
      && match handle (Packet false l hdr 100000) s with None => true | Some _ => false end
  | _, _ => false
  end.

Lemma stops_after es l hdr : match run es (after []) with Some s => stops l hdr s | None => false end = true ->
  exists s, run es (after []) = Some s /\ is_Some (links s !! l) /\ packet_sane hdr 100000 = true /\
    (exists p n, c_nodes s !! h_sender hdr = Some p /\ heap s !! p = Some n /\ nodeIsMaster n = true) /\
    handle (Packet false l hdr 100000) s = None.
Proof.
  generalize (run es (after [])). intros [s|] E; [|discriminate E]. exists s. split; [reflexivity|]. unfold stops in E.
  destruct (links s !! l); [|discriminate E]. split; [by eexists|]. destruct (c_nodes s !! h_sender hdr) as [p|]; [|discriminate E].
  cbn [mbind option_bind] in E. destruct (heap s !! p) as [n|] eqn:En; [|discriminate E]. apply andb_prop in E as [[E1 E2]%andb_prop E3].
  split; [exact E1|]. split; [by exists p, n|]. revert E3. generalize (handle (Packet false l hdr 100000) s).
  intros [?|] E3; [discriminate E3|reflexivity].
Qed.

(** A node is met but does not answer; meanwhile this node is made its replica; the
    handshake is given up. *)
Definition replicate_run : list event :=
  meet_run ++ [Packet false 1 meet_pong 100000; Command (Meet (Some "10.0.0.9"%string) 7000 17000); Command (Replicate "rrr");
               Tick (sample_clock 21000); Cron].
Definition plain_pong : clusterMsg := from_master "B" 1 (bit 3) (PONG []).

(** CLUSTER REPLICATE accepts a node that is still in handshake.  When the
    handshake is given up, this replica has no master, and the next packet of a master
    that claims a free slot stops the process: [clusterUpdateSlotsConfigWith] reads the
    slots of a NULL [curmaster]. *)
Example replicate_handshake_crash : exists s,
  run replicate_run (after []) = Some s /\ is_Some (links s !! 1%positive) /\
  packet_sane plain_pong 100000 = true /\
  (exists p n, c_nodes s !! h_sender plain_pong = Some p /\ heap s !! p = Some n /\ nodeIsMaster n = true) /\
  handle (Packet false 1 plain_pong 100000) s = None.
Proof.
  apply (stops_after replicate_run 1 plain_pong). vm_compute. reflexivity.
Qed.
End ClusterClaims.
