(* ===== verification/ClusterVotes.v ===== *)
(** * Votes of a cluster node (cluster.c)

    A master that grants a vote sends a FAILOVER_AUTH_ACK message, with the epoch of
    the vote in its header.  In every run of a node the epochs of these messages are
    distinct, so that two replicas cannot both be voted for by a majority in the same
    epoch. *)

From Stdlib Require Import String Ascii.
From stdpp Require Import strings pmap.
From S2P Require Import Prelude Cluster ClusterInv ClusterEvents ClusterClaims.

Module ClusterVotes.
Import Cluster ClusterEvents ClusterClaims.

(** ** What a handler does to the votes *)

(** The epochs of the votes among the messages that were sent. *)
Definition ack_of (e : effect) : option Z :=
  match e with
  | Send _ m => match h_data m with FAILOVER_AUTH_ACK => Some (h_currentEpoch m) | _ => None end
  | _ => None
  end.
Definition acks (out : list effect) : list Z := omap ack_of out.

Definition view (s : server) : Z * Z * list Z := (c_currentEpoch s, c_lastVoteEpoch s, acks (s_out s)).

(** A program that grants no vote and changes no epoch. *)
Definition still {A} (m : M A) : Prop := forall s a t, m s = Some (a, t) -> view t = view s.

Lemma still_ret {A} (a : A) : still (mret a).
Proof. intros s b t [= <- <-]. done. Qed.
Lemma still_bind {A B} (m : M A) (k : A -> M B) : still m -> (forall a, still (k a)) -> still (m ≫= k).
Proof.
  intros Hm Hk s b t E. unfold mbind, M_bind in E. destruct (m s) as [[a u]|] eqn:Em; [|done].
  rewrite (Hk _ _ _ _ E). by eapply Hm.
Qed.
Lemma still_gets {A} (f : server -> A) : still (gets f).
Proof. intros s b t [= <- <-]. done. Qed.
Lemma still_modify g : (forall s, view (g s) = view s) -> still (modify g).
Proof. intros Hg s b t [= <- <-]. apply Hg. Qed.
Lemma still_crash {A} : still (crash (A := A)).
Proof. by intros s b t E. Qed.
Lemma still_assert b : still (serverAssert b).
Proof. destruct b; [apply still_ret|apply still_crash]. Qed.
Lemma still_when b m : still m -> still (when b m).
Proof. intros Hm. destruct b; [done|apply still_ret]. Qed.
Lemma still_rd p : still (rd p).
Proof. intros s b t E. unfold rd in E. destruct (heap s !! p); [|done]. injection E as <- <-. done. Qed.
Lemma still_upd p f : still (upd p f).
Proof. intros s b t E. unfold upd in E. destruct (heap s !! p); [|done]. injection E as <- <-. done. Qed.
Lemma still_rdl p : still (rdl p).
Proof. intros s b t E. unfold rdl in E. destruct (links s !! p); [|done]. injection E as <- <-. done. Qed.
Lemma still_deref p : still (deref p).
Proof. destruct p; [apply still_ret|apply still_crash]. Qed.
Lemma still_forM {A} (l : list A) f : (forall x, still (f x)) -> still (forM l f).
Proof. intros Hf. induction l as [|x l IH]; cbn [forM]; [apply still_ret|]. apply still_bind; [done|]. by intros. Qed.
Lemma still_effect e : ack_of e = None -> still (effect_ e).
Proof.
  intros He. apply still_modify. intros s. unfold view, acks. cbn. rewrite omap_app. cbn. rewrite He. by rewrite app_nil_r.
Qed.

Create HintDb still.
#[export] Hint Resolve still_ret still_gets still_crash still_assert still_rd still_upd still_rdl still_deref : still.

(** Unfold the function that a program calls. *)
Ltac head_of m := match m with ?f _ => head_of f | _ => m end.
Ltac still_unfold := match goal with |- still ?m => let h := head_of m in unfold h end.
Ltac still_step :=
  cbv zeta;
  lazymatch goal with
  | |- still (mbind _ _) => apply still_bind; [|intros ?]
  | |- still (when _ _) => apply still_when
  | |- still (forM _ _) => apply still_forM; intros ?
  | |- still (if ?b then _ else _) => destruct b
  | |- still (match ?x with _ => _ end) => destruct x
  | |- still _ => first
      [ solve [eauto 2 with still]
      | solve [apply still_effect; reflexivity]
      | solve [apply still_modify; intros ?; repeat case_match; reflexivity]
      | still_unfold ]
  end.
Ltac still_run := repeat still_step.

Section Votes.
Context `{World}.

Lemma still_random : still random.
Proof. intros s b t [= <- <-]. done. Qed.
Lemma still_hexchars : still getRandomHexChars.
Proof. intros s b t [= <- <-]. done. Qed.
Lemma still_connect : still anetTcpNonBlockBindConnect.
Proof. intros s b t [= <- <-]. done. Qed.
Lemma still_createlink n p k : still (createClusterLink n p k).
Proof. intros s b t [= <- <-]. done. Qed.
Lemma still_alloc n : still (alloc_node n).
Proof. intros s b t [= <- <-]. done. Qed.
End Votes.
#[export] Hint Resolve still_random still_hexchars still_connect still_createlink still_alloc : still.

(** ** The loops *)

Section Loops.
Context `{World}.

Lemma still_count_nodes f l : still (count_nodes f l).
Proof. induction l; cbn [count_nodes]; still_run. Qed.
Lemma still_sum_slaves l : still (sum_slaves l).
Proof. induction l; cbn [sum_slaves]; still_run. Qed.
Lemma still_max_epoch l e : still (max_epoch l e).
Proof. revert e. induction l; intros e; cbn [max_epoch]; still_run. Qed.
Lemma still_find_handshake ip a b l : still (find_handshake ip a b l).
Proof. induction l; cbn [find_handshake]; still_run. Qed.
Lemma still_uncovered js : still (uncovered js).
Proof. induction js; cbn [uncovered]; still_run. Qed.
Lemma still_count_masters l : still (count_masters l).
Proof. induction l; cbn [count_masters]; still_run. Qed.
Lemma still_refused c e js : still (refused c e js).
Proof. induction js; cbn [refused]; still_run. Qed.
Lemma still_count_better me o l : still (count_better me o l).
Proof. induction l; cbn [count_better]; still_run. Qed.
Lemma still_smaller sl c : still (smaller_name sl c).
Proof. revert c. induction sl; intros c; cbn [smaller_name]; still_run. Qed.
Lemma still_check_slots d js seen : still (check_slots d js seen).
Proof. revert seen. induction js; intros seen; cbn [check_slots]; still_run. Qed.
Lemma still_pfail_loop l w acc : still (pfail_loop l w acc).
Proof. revert w acc. induction l; intros w acc; cbn [pfail_loop]; still_run. Qed.
Lemma still_gossip_loop fuel f w acc : still (gossip_loop fuel f w acc).
Proof. revert f acc. induction fuel; intros f acc; cbn [gossip_loop]; still_run. Qed.
Lemma still_min_pong k m : still (min_pong_loop k m).
Proof. revert m. induction k; intros m; cbn [min_pong_loop]; still_run. Qed.
End Loops.
#[export] Hint Resolve still_count_nodes still_sum_slaves still_max_epoch still_find_handshake still_uncovered still_count_masters
  still_refused still_count_better still_smaller still_check_slots still_pfail_loop still_gossip_loop still_min_pong : still.

(** ** Messages *)

Lemma bind_inv {A B} (m : M A) (k : A -> M B) s b t : (m ≫= k) s = Some (b, t) ->
  exists a u, m s = Some (a, u) /\ k a u = Some (b, t).
Proof. unfold mbind, M_bind. destruct (m s) as [[a u]|]; [|done]. by exists a, u. Qed.

(** A step that changes nothing, and what follows. *)
Lemma still_inv {A B} (m : M A) (k : A -> M B) s b t : (m ≫= k) s = Some (b, t) -> still m ->
  exists a u, m s = Some (a, u) /\ view u = view s /\ k a u = Some (b, t).
Proof. intros (a & u & E & Ek)%bind_inv Hm. exists a, u. split; [done|]. split; [by eapply Hm|done]. Qed.

(** The header of a message has its content and the current epoch. *)
Lemma hdr_content `{World} d f s m t : clusterBuildMessageHdr d f s = Some (m, t) ->
  view t = view s /\ h_data m = d /\ h_currentEpoch m = c_currentEpoch s.
Proof.
  intros E. unfold clusterBuildMessageHdr in E.
  apply still_inv in E as (me & s1 & _ & V1 & E); [|still_run]. apply still_inv in E as (n & s2 & _ & V2 & E); [|still_run].
  apply still_inv in E as (mp & s3 & _ & V3 & E); [|still_run]. apply still_inv in E as (ms & s4 & _ & V4 & E); [|still_run].
  apply still_inv in E as (nm & s5 & _ & V5 & E); [|still_run]. apply still_inv in E as (c & s6 & _ & V6 & E); [|still_run].
  apply still_inv in E as (o & s7 & _ & V7 & E); [|still_run]. apply still_inv in E as (s8 & s9 & E8 & V8 & E); [|still_run].
  injection E8 as <- <-. injection E as <- <-. assert (V : view s7 = view s) by congruence. split; [done|]. split; [done|].
  cbn. unfold view in V. congruence.
Qed.

Lemma still_send l m : (h_data m = FAILOVER_AUTH_ACK -> False) -> still (clusterSendMessage l m).
Proof.
  intros Hm. unfold clusterSendMessage. apply still_bind; [apply still_rdl|]. intros ?. apply still_bind; [|intros; still_run].
  apply still_effect. cbn. destruct (h_data m); done.
Qed.

(** A message that is not a vote. *)
Lemma still_hdr_then `{World} {A} d f (k : clusterMsg -> M A) : (d = FAILOVER_AUTH_ACK -> False) ->
  (forall m, h_data m = d -> still (k m)) -> still (clusterBuildMessageHdr d f ≫= k).
Proof.
  intros Hd Hk s b t (m & u & Em & Ek)%bind_inv. apply hdr_content in Em as (<- & Dm & _). by eapply Hk.
Qed.

Lemma still_broadcast `{World} m : (h_data m = FAILOVER_AUTH_ACK -> False) -> still (clusterBroadcastMessage m).
Proof.
  intros Hm. unfold clusterBroadcastMessage. apply still_bind; [apply still_gets|]. intros l. apply still_forM. intros p.
  apply still_bind; [apply still_rd|]. intros n. case_match; [|apply still_ret]. by apply still_when, still_send.
Qed.
Lemma still_sendping `{World} l type : (forall g, type g = FAILOVER_AUTH_ACK -> False) -> still (clusterSendPing l type).
Proof.
  intros Ht. unfold clusterSendPing. do 8 (still_step; [by still_run|]). apply still_send. apply Ht.
Qed.

(** The same with messages that are not votes. *)
Ltac votes_step :=
  cbv zeta;
  lazymatch goal with
  | |- still (mbind _ (clusterBuildMessageHdr _ _)) => apply still_hdr_then; [intros [=]|intros ? ?]
  | |- still (clusterSendMessage _ _) => apply still_send; intros ?; congruence
  | |- still (clusterBroadcastMessage _) => apply still_broadcast; intros ?; congruence
  | |- still (clusterSendPing _ _) => apply still_sendping; intros ?; repeat case_match; discriminate
  | |- _ => still_step
  end.
Ltac votes_run := repeat votes_step.

Section Parts.
Context `{World}.

Lemma still_broadcast_pong b : still (clusterBroadcastPong b).
Proof. votes_run. Qed.
Lemma still_delslot j : still (clusterDelSlot j).
Proof. votes_run. Qed.
Lemma still_addslot p j : still (clusterAddSlot p j).
Proof. votes_run. Qed.
Lemma still_updatestate : still clusterUpdateState.
Proof. votes_run. Qed.
Lemma still_resetmf : still resetManualFailover.
Proof. votes_run. Qed.
#[local] Hint Resolve still_broadcast_pong still_delslot still_addslot still_updatestate still_resetmf : still.
Lemma still_delnode p : still (clusterDelNode p).
Proof. votes_run. Qed.
Lemma still_asmaster p : still (clusterSetNodeAsMaster p).
Proof. votes_run. Qed.
Lemma still_setmaster p : still (clusterSetMaster p).
Proof. votes_run. Qed.
Lemma still_update_slots p e sl c js d nm : still (update_slots p e sl c js d nm).
Proof. revert d nm. induction js; intros d nm; cbn [update_slots]; votes_run. Qed.
#[local] Hint Resolve still_delnode still_asmaster still_setmaster still_update_slots : still.
Lemma still_updateslots p e sl : still (clusterUpdateSlotsConfigWith p e sl).
Proof. votes_run. Qed.
Lemma still_markfailing p : still (markNodeAsFailingIfNeeded p).
Proof. votes_run. Qed.
#[local] Hint Resolve still_updateslots still_markfailing : still.
Lemma still_gossip hdr gs l : still (clusterProcessGossipSection hdr gs l).
Proof. votes_run. Qed.
Lemma still_updateaddress p l hdr : still (nodeUpdateAddressIfNeeded p l hdr).
Proof. votes_run. Qed.
#[local] Hint Resolve still_gossip still_updateaddress : still.
Lemma still_reply_ping l hdr o b gs : still (reply_ping l hdr o b gs).
Proof. votes_run. Qed.
Lemma still_link_node l hdr o : still (process_link_node l hdr o).
Proof. votes_run. Qed.
Lemma still_role p hdr : still (process_role p hdr).
Proof. votes_run. Qed.
Lemma still_pong l : still (process_pong l).
Proof. votes_run. Qed.
Lemma still_send_update p hdr e js : still (send_update p hdr e js).
Proof. induction js; cbn [send_update]; votes_run. Qed.
Lemma still_replace_master : still clusterFailoverReplaceYourMaster.
Proof. votes_run. Qed.
Lemma still_migration_loop k l o c : still (migration_loop k l o c).
Proof. revert o c. induction l; intros o c; cbn [migration_loop]; votes_run. Qed.
#[local] Hint Resolve still_migration_loop : still.
Lemma still_migration k : still (clusterHandleSlaveMigration k).
Proof. votes_run. Qed.
Lemma still_cron_nodes l x : still (cron_nodes l x).
Proof. revert x. induction l; intros x; cbn [cron_nodes]; votes_run. Qed.
Lemma still_verify_slots js b : still (verify_slots js b).
Proof. revert b. induction js; intros b; cbn [verify_slots]; votes_run. Qed.
End Parts.
#[export] Hint Resolve still_broadcast_pong still_delslot still_addslot still_updatestate still_resetmf still_delnode still_asmaster
  still_setmaster still_update_slots still_updateslots still_markfailing still_gossip still_updateaddress still_reply_ping still_link_node
  still_role still_pong still_send_update still_replace_master still_migration still_cron_nodes still_verify_slots : still.

(** ** One vote per epoch *)

(** The votes so far have distinct epochs, none after the last one. *)
Definition voted (s : server) : Prop :=
  NoDup (acks (s_out s)) /\ (forall e, e ∈ acks (s_out s) -> e <= c_lastVoteEpoch s) /\ 0 <= c_lastVoteEpoch s <= c_currentEpoch s.

(** The program keeps that, and raises the epoch above [b] by at most [k]. *)
Definition fair {A} (b k : Z) (m : M A) : Prop :=
  forall s a t, voted s -> c_currentEpoch s <= b -> b + k < 2 ^ 64 -> m s = Some (a, t) -> voted t /\ c_currentEpoch t <= b + k.

Lemma voted_view s t : view t = view s -> voted s -> voted t.
Proof. unfold view, voted. intros [= E1 E2 E3]. by rewrite E1, E2, E3. Qed.

Lemma fair_still {A} b k (m : M A) : 0 <= k -> still m -> fair b k m.
Proof.
  intros Hk Hm s a t Vs Hb _ E. apply Hm in E. split; [by eapply voted_view|]. unfold view in E. injection E as -> _ _. lia.
Qed.
Lemma fair_bind_l {A B} b k (m : M A) (f : A -> M B) : fair b k m -> (forall a, still (f a)) -> fair b k (m ≫= f).
Proof.
  intros Hm Hf s x t Vs Hb Hk (a & u & Eu & Et)%bind_inv. destruct (Hm _ _ _ Vs Hb Hk Eu) as [Vu Hu]. apply Hf in Et.
  split; [by eapply voted_view|]. unfold view in Et. by injection Et as -> _ _.
Qed.
Lemma fair_bind_r {A B} b k (m : M A) (f : A -> M B) : still m -> (forall a, fair b k (f a)) -> fair b k (m ≫= f).
Proof.
  intros Hm Hf s x t Vs Hb Hk (a & u & Eu & Et)%bind_inv. apply Hm in Eu. apply (Hf a u x t); [by eapply voted_view| |done|done].
  unfold view in Eu. by injection Eu as -> _ _.
Qed.
Lemma fair_bind_0 {A B} b k (m : M A) (f : A -> M B) : fair b 0 m -> 0 <= k -> (forall a, fair b k (f a)) -> fair b k (m ≫= f).
Proof.
  intros Hm H0 Hf s x t Vs Hb Hk (a & u & Eu & Et)%bind_inv. destruct (Hm _ _ _ Vs Hb ltac:(lia) Eu) as [Vu Hu].
  apply (Hf a u x t); [done|lia|done|done].
Qed.
Lemma fair_when b k (c : bool) m : 0 <= k -> fair b k m -> fair b k (when c m).
Proof. intros Hk Hm. destruct c; [done|]. apply fair_still; [done|apply still_ret]. Qed.

Ltac fair_still := solve [apply fair_still; [lia|votes_run]].
(** One more epoch may come from the first part or from the rest. *)
Ltac fair_step :=
  cbv zeta;
  lazymatch goal with
  | |- fair _ _ (mbind _ _) => first
      [ fair_still
      | apply fair_bind_r; [by votes_run|intros ?]
      | apply fair_bind_l; [|intros ?; by votes_run] ]
  | |- fair _ _ (when _ _) => apply fair_when; [lia|]
  | |- fair _ _ (if ?c then _ else _) => first [fair_still|destruct c]
  | |- fair _ _ (match ?x with _ => _ end) => first [fair_still|destruct x]
  | |- fair _ _ _ => first [solve [eauto with fair]|fair_still]
  end.
Create HintDb fair.

(** A new epoch. *)
Lemma fair_epoch b g : (forall s, c_currentEpoch (g s) = u64 (c_currentEpoch s + 1)) ->
  (forall s, c_lastVoteEpoch (g s) = c_lastVoteEpoch s) -> (forall s, s_out (g s) = s_out s) -> fair b 1 (modify g).
Proof.
  intros G1 G2 G3 s a t (V1 & V2 & V3) Hb Hk [= <- <-]. unfold voted. rewrite G1, G2, G3.
  assert (E : u64 (c_currentEpoch s + 1) = c_currentEpoch s + 1) by (apply u64_id; unfold in_u64, ULLONG_MAX; lia). rewrite E.
  split; [|lia]. split; [done|]. split; [done|lia].
Qed.

(** An epoch of a message. *)
Lemma fair_max b g e : e <= b -> (forall s, c_currentEpoch (g s) = Z.max (c_currentEpoch s) e) ->
  (forall s, c_lastVoteEpoch (g s) = c_lastVoteEpoch s) -> (forall s, s_out (g s) = s_out s) -> fair b 0 (modify g).
Proof.
  intros He G1 G2 G3 s a t (V1 & V2 & V3) Hb Hk [= <- <-]. unfold voted. rewrite G1, G2, G3.
  split; [|lia]. split; [done|]. split; [done|lia].
Qed.

(** *** Votes *)


(** The message of a vote is sent at most once, with the current epoch. *)
Lemma send_vote `{World} p s x t : clusterSendFailoverAuth p s = Some (x, t) ->
  c_currentEpoch t = c_currentEpoch s /\ c_lastVoteEpoch t = c_lastVoteEpoch s /\
  (acks (s_out t) = acks (s_out s) \/ acks (s_out t) = acks (s_out s) ++ [c_currentEpoch s]).
Proof.
  unfold clusterSendFailoverAuth, clusterSendEmpty. intros E. apply still_inv in E as (n & s1 & _ & V1 & E); [|still_run].
  injection V1 as V1 V1' V1''. destruct (n_link n) as [l|]; [|injection E as _ <-; auto].
  apply bind_inv in E as (m & s2 & (V2 & Dm & Em)%hdr_content & E). injection V2 as V2 V2' V2''.
  unfold clusterSendMessage in E. apply still_inv in E as (k & s3 & _ & V3 & E); [|still_run]. injection V3 as V3 V3' V3''.
  apply bind_inv in E as ([] & s4 & [= <-] & E). injection E as _ <-. cbn. split; [congruence|]. split; [congruence|].
  right. unfold acks in *. rewrite omap_app, V3'', V2'', V1''. cbn. rewrite Dm, Em, V1. done.
Qed.

(** A vote for an epoch that had none. *)
Lemma new_vote `{World} mp tm p s x t : voted s -> c_lastVoteEpoch s <> c_currentEpoch s ->
  (_ ← modify (set_c_lastVoteEpoch (c_currentEpoch s)); _ ← upd mp (set_n_voted_time tm);
   _ ← clusterDoBeforeSleep (Z.lor CLUSTER_TODO_SAVE_CONFIG CLUSTER_TODO_FSYNC_CONFIG); clusterSendFailoverAuth p) s = Some (x, t) ->
  voted t /\ c_currentEpoch t = c_currentEpoch s.
Proof.
  intros (V1 & V2 & V3) Hne E. apply bind_inv in E as ([] & s1 & [= <-] & E).
  apply still_inv in E as (? & s2 & _ & W2 & E); [|still_run]. apply still_inv in E as (? & s3 & _ & W3 & E); [|still_run].
  assert (W : view s3 = (c_currentEpoch s, c_currentEpoch s, acks (s_out s))) by (rewrite W3, W2; done).
  unfold view in W. injection W as W4 W5 W6. apply send_vote in E as (E1 & E2 & E3). rewrite W4, W6 in E3. unfold voted. rewrite E1, E2, W4, W5.
  split; [|done]. destruct E3 as [-> | ->].
  - split; [done|]. split; [|lia]. intros e He. specialize (V2 e He). lia.
  - split; [|split; [|lia]].
    + apply NoDup_app. split; [done|]. split; [|apply NoDup_singleton]. intros e He ->%list_elem_of_singleton. specialize (V2 _ He). lia.
    + intros e [He| ->%list_elem_of_singleton]%elem_of_app; [|done]. specialize (V2 e He). lia.
Qed.

(** The program ends in one that grants a vote, or grants none. *)
Lemma fair_vote `{World} b p hdr : fair b 0 (clusterSendFailoverAuthIfNeeded p hdr).
Proof.
  intros s x t Vs Hb Hk E. enough (voted t /\ c_currentEpoch t = c_currentEpoch s) as [? ->] by (split; [done|lia]).
  assert (Hdone : forall u, view u = view s -> voted u /\ c_currentEpoch u = c_currentEpoch s).
  { intros u Vu. split; [by eapply voted_view|]. unfold view in Vu. by injection Vu. }
  unfold clusterSendFailoverAuthIfNeeded in E.
  apply still_inv in E as (n & s1 & _ & W1 & E); [|still_run]. apply still_inv in E as (me & s2 & _ & W2 & E); [|still_run].
  apply still_inv in E as (m & s3 & _ & W3 & E); [|still_run]. assert (W : view s3 = view s) by congruence.
  clear W1 W2 W3. destruct (_ || _); [injection E as <- <-; auto|]. cbn [gets] in E.
  apply bind_inv in E as (cur & s4 & [= <- <-] & E). apply bind_inv in E as (last & s4 & [= <- <-] & E).
  destruct (_ <? _); [injection E as <- <-; auto|]. destruct (Z.eqb_spec (c_lastVoteEpoch s3) (c_currentEpoch s3)) as [|Hne]; [injection E as <- <-; auto|].
  destruct (nodeIsMaster n); [injection E as <- <-; auto|]. destruct (n_slaveof n) as [mp|]; [|injection E as <- <-; auto].
  apply still_inv in E as (mn & s5 & _ & W5 & E); [|still_run]. rewrite W in W5. destruct (_ && _); [injection E as <- <-; auto|].
  apply still_inv in E as (tm & s6 & _ & W6 & E); [|still_run]. rewrite W5 in W6. apply still_inv in E as (tmo & s7 & _ & W7 & E); [|still_run].
  rewrite W6 in W7. destruct (_ <? _); [injection E as <- <-; auto|]. apply still_inv in E as (no & s8 & _ & W8 & E); [|still_run].
  rewrite W7 in W8. destruct no; [injection E as <- <-; auto|].
  assert (Hc : c_currentEpoch s3 = c_currentEpoch s8 /\ c_lastVoteEpoch s3 = c_lastVoteEpoch s8).
  { rewrite <- W8 in W. unfold view in W. by injection W. }
  destruct Hc as [Hc Hl]. rewrite Hc in E. apply new_vote in E as [? ->]; [|by eapply voted_view|congruence].
  split; [done|]. unfold view in W8. by injection W8.
Qed.

(** *** New epochs *)

Section Fair.
Context `{World}.
Variable b : Z.

Lemma fair_newepoch : fair b 1 (modify (fun s => set_c_currentEpoch (u64 (c_currentEpoch s + 1)) s)).
Proof. by apply fair_epoch. Qed.
#[local] Hint Resolve fair_newepoch : fair.
Lemma fair_next_epoch : fair b 1 next_epoch.
Proof. unfold next_epoch. repeat fair_step. Qed.
#[local] Hint Resolve fair_next_epoch : fair.
Lemma fair_bump : fair b 1 clusterBumpConfigEpochWithoutConsensus.
Proof. unfold clusterBumpConfigEpochWithoutConsensus. repeat fair_step. Qed.
Lemma fair_collision p : fair b 1 (clusterHandleConfigEpochCollision p).
Proof. unfold clusterHandleConfigEpochCollision. repeat fair_step. Qed.
Lemma fair_start_election : fair b 1 start_election.
Proof. unfold start_election. repeat fair_step. Qed.
#[local] Hint Resolve fair_bump fair_collision fair_start_election : fair.
Lemma fair_slave_failover : fair b 1 clusterHandleSlaveFailover.
Proof. unfold clusterHandleSlaveFailover. repeat fair_step. Qed.
#[local] Hint Resolve fair_slave_failover : fair.
Lemma fair_process_slots p hdr e : fair b 1 (process_slots p hdr e).
Proof. unfold process_slots. repeat fair_step. Qed.
#[local] Hint Resolve fair_process_slots : fair.
Lemma fair_process_config l hdr o e gs : fair b 1 (process_config l hdr o e gs).
Proof. unfold process_config. repeat fair_step. Qed.
Lemma fair_cron_replica x : fair b 1 (cron_replica x).
Proof. unfold cron_replica. repeat fair_step. Qed.
#[local] Hint Resolve fair_process_config fair_cron_replica : fair.
Lemma fair_cron : fair b 1 clusterCron.
Proof. unfold clusterCron. repeat fair_step. Qed.
Lemma fair_before_sleep : fair b 1 clusterBeforeSleep.
Proof. unfold clusterBeforeSleep. repeat fair_step. Qed.
#[local] Hint Resolve fair_cron fair_before_sleep : fair.

Lemma fair_mono {A} k (m : M A) : 0 <= k -> fair b 0 m -> fair b k m.
Proof. intros Hk Hm s a t Vs Hb Hl E. destruct (Hm s a t Vs Hb ltac:(lia) E). split; [done|lia]. Qed.
Lemma fair_update_sender p hdr : h_currentEpoch hdr <= b -> fair b 0 (update_sender p hdr).
Proof.
  intros He. unfold update_sender. apply fair_bind_r; [by votes_run|]. intros t. apply fair_bind_l; [|intros ?; by votes_run].
  apply (fair_max b _ (h_currentEpoch hdr)); [done|..]; intros s; destruct (Z.gtb_spec (h_currentEpoch hdr) (c_currentEpoch s)); cbn; lia || done.
Qed.
Lemma fair_packet sub l hdr len : h_currentEpoch hdr <= b -> fair b 1 (clusterProcessPacket sub l hdr len).
Proof.
  intros He. unfold clusterProcessPacket. fair_step. destruct (negb _); [fair_still|]. do 3 fair_step.
  apply fair_bind_0; [|lia|].
  - destruct a1 as [sp|]; [|fair_still]. apply fair_when; [lia|]. by apply fair_update_sender.
  - intros ?. cbv zeta. destruct (h_data hdr); try fair_still; try (repeat fair_step; fail).
    apply fair_mono; [lia|]. apply fair_bind_l; [|intros ?; by votes_run]. case_match; [apply fair_vote|fair_still].
Qed.

Lemma fair_setslot slot action : fair b 1 (cluster_setslot slot action).
Proof. unfold cluster_setslot, setslot_node. repeat fair_step. Qed.
Lemma fair_failover f t : fair b 1 (cluster_failover f t).
Proof. unfold cluster_failover. repeat fair_step. Qed.
Lemma fair_set_config_epoch e : e <= b -> fair b 1 (cluster_set_config_epoch e).
Proof.
  intros He. apply fair_mono; [lia|]. unfold cluster_set_config_epoch. repeat fair_step.
  apply (fair_max b _ e); [done|..]; intros s; destruct (Z.ltb_spec (c_currentEpoch s) e); cbn; lia || done.
Qed.
Lemma fair_soft_reset : fair b 0 (cluster_reset false).
Proof. apply fair_still; [lia|]. unfold cluster_reset, clusterReset. cbn [when]. votes_run. Qed.
#[local] Hint Resolve fair_setslot fair_failover fair_set_config_epoch : fair.

(** The epochs that come from outside are at most [b], and the configuration is not
    reset with HARD, which sets the epoch of the last vote to 0. *)
Definition epoch_bound (e : event) : Prop :=
  match e with
  | Packet _ _ hdr _ => h_currentEpoch hdr <= b
  | Command (SetConfigEpoch epoch) => epoch <= b
  | Command (Reset true) => False
  | _ => True
  end.

Lemma fair_command c : epoch_bound (Command c) -> fair b 1 (clusterCommand c).
Proof.
  intros Hc. destruct c as [| | | | | | | | | | |hard]; cbn [clusterCommand epoch_bound] in *; try (repeat fair_step; fail).
  destruct hard; [done|]. apply fair_mono; [lia|]. apply fair_soft_reset.
Qed.
Lemma fair_handle e : epoch_bound e -> fair b 1 (handle e).
Proof.
  intros He. destruct e; cbn [handle].
  1: apply fair_bind_l; [by apply fair_packet|intros ?; by votes_run].
  5: apply fair_bind_l; [by apply fair_command|intros ?; by votes_run].
  all: repeat fair_step.
Qed.
End Fair.

(** ** Elections *)

(** A node after [n] events. *)
Inductive election_run `{World} (b : Z) : nat -> server -> Prop :=
  | run_start s : started s -> election_run b 0 s
  | run_step n s e s' : election_run b n s -> epoch_bound b e -> handle e s = Some (tt, s') -> election_run b (Datatypes.S n) s'.

Lemma voted_started `{World} s : started s -> voted s /\ c_currentEpoch s = 0.
Proof.
  intros (junk & cf & clk & r & E). assert (Hs : still clusterInit) by (unfold clusterInit; votes_run).
  apply Hs in E. injection E as E1 E2 E3. unfold voted. rewrite E1, E2, E3. cbn. split; [|done]. split; [constructor|]. split; [|lia].
  intros e He. by apply elem_of_nil in He.
Qed.

Lemma voted_run `{World} b n s : 0 <= b -> b + Z.of_nat n < 2 ^ 64 -> election_run b n s -> voted s /\ c_currentEpoch s <= b + Z.of_nat n.
Proof.
  intros Hb Hn R. induction R as [s Hs|n s e s' _ IH He E].
  - destruct (voted_started s Hs) as [? ->]. split; [done|lia].
  - destruct IH as [Vs Hs]; [lia|]. apply (fair_handle (b + Z.of_nat n)) in E; [|by destruct e as [| | | | |[]| | | | |]; cbn in *; try case_match; try lia|done|done|lia].
    destruct E. split; [done|lia].
Qed.

(** C7: a master votes at most once per epoch: in every run of a node, whatever packets
    and commands come in, no two FAILOVER_AUTH_ACK messages that it sends carry the
    same epoch.  The run is bounded so that the 64 bit epoch cannot wrap around, and
    has no CLUSTER RESET HARD, which forgets the last vote. *)
Theorem vote_once `{World} b n s : 0 <= b -> b + Z.of_nat n < 2 ^ 64 -> election_run b n s -> NoDup (acks (s_out s)).
Proof. intros Hb Hn R. by destruct (voted_run b n s Hb Hn R) as [[? _] _]. Qed.

(** This node serves slot 5, the master B fails, and C, a replica of B, asks for votes,
    for the same epoch again and then for the next one. *)
Definition from_replica (nm master : string) (epoch : Z) (slots : list Z) (d : clusterMsgData) : clusterMsg :=
  mkMsg (data_len d) CLUSTER_PROTO_VER 7000 epoch epoch 0 nm slots master EmptyString 17000
    CLUSTER_NODE_SLAVE CLUSTER_OK 0 d.
Definition no_slots : list Z := replicate (Z.to_nat (CLUSTER_SLOTS / 8)) 0.
Definition pong_of_b : clusterMsg := from_master "B" 1 no_slots (PONG [gossip_about "C"]).
Definition vote_request (epoch : Z) : clusterMsg := from_replica "C" "B" epoch no_slots FAILOVER_AUTH_REQUEST.
Definition vote_run : list event := Command (AddSlots [5]) :: meet_run ++
  [Packet false 1 pong_of_b 100000; Packet false 1 pong_of_b 100000; Accept "10.0.0.3" None;
   Packet false 2 (from_replica "C" "B" 1 no_slots (PING [])) 100000; Tick (sample_clock 50000); Cron;
   Packet false 2 (from_replica "C" "B" 1 no_slots (FAIL "B")) 100000;
   Packet false 2 (vote_request 2) 100000; Packet false 2 (vote_request 2) 100000;
   Tick (sample_clock 90000); Packet false 2 (vote_request 2) 100000; Packet false 2 (vote_request 3) 100000].

Lemma election_run_list b n es s t : election_run b n s -> Forall (epoch_bound b) es -> run es s = Some t ->
  election_run b (length es + n) t.
Proof.
  revert n s. induction es as [|e es IH]; intros n s R He E; cbn in *; [by injection E as <-|]. inversion_clear He as [|? ? He1 He2].
  destruct (handle e s) as [[[] u]|] eqn:Eu; [|done]. rewrite <- Nat.add_succ_r. eapply IH; [|done|done]. by eapply run_step.
Qed.

(** The votes among all that the node did, in the state it reaches. *)
Lemma vote_run_state : exists s, run vote_run (after []) = Some s /\ ack_of <$> s_out s = [None; None; None; None; None; Some 2; Some 3].
Proof.
  assert (E : run vote_run (after []) ≫= (fun s => Some (ack_of <$> s_out s)) = Some [None; None; None; None; None; Some 2; Some 3]) by (vm_compute; reflexivity).
  apply bind_Some in E as (s & E & Ev). exists s. split; [exact E|]. by injection Ev.
Qed.
Lemma acks_fmap out : acks out = omap id (ack_of <$> out).
Proof. unfold acks. induction out as [|x out IH]; [done|]. cbn. destruct (ack_of x); cbn; by rewrite IH. Qed.

Lemma vote_run_election s : run vote_run (after []) = Some s -> election_run 3 15 s.
Proof.
  apply (election_run_list 3 0 vote_run (after [])); [apply run_start, started_after|]. repeat constructor; vm_compute; discriminate.
Qed.

Lemma vote_once_witness : exists s, acks (s_out s) = [2; 3] /\ NoDup (acks (s_out s)).
Proof.
  destruct vote_run_state as (s & E & Ev). exists s. split; [by rewrite acks_fmap, Ev|].
  apply (vote_once 3 15 s); [lia|cbn; lia|exact (vote_run_election s E)].
Defined.

(** ** Majorities *)

(** The effect at position [i] of what a node did is the vote of epoch [e]. *)
Definition vote_at (s : server) (i : nat) (e : Z) : Prop := exists x, s_out s !! i = Some x /\ ack_of x = Some e.

Lemma vote_before (out : list effect) k j y e : out !! k = Some y -> ack_of y = Some e -> (k < j)%nat -> e ∈ acks (take j out).
Proof.
  intros Ek Hy Hk. apply list_elem_of_omap. exists y. split; [|done]. apply list_elem_of_lookup. exists k. by rewrite lookup_take_lt.
Qed.
Lemma vote_unique s i j e : NoDup (acks (s_out s)) -> vote_at s i e -> vote_at s j e -> i = j.
Proof.
  intros Hn (x & Ei & Ex) (y & Ej & Ey). generalize dependent (s_out s). clear s. intros out Hn Ei Ej.
  assert (Hlt : forall k l z w, out !! k = Some z -> out !! l = Some w -> ack_of z = Some e -> ack_of w = Some e -> (k < l)%nat -> False).
  { intros k l z w Ek El Hz Hw Hk. rewrite <- (take_drop_middle out l w El) in Hn. unfold acks in Hn. rewrite omap_app in Hn. cbn in Hn.
    rewrite Hw in Hn. apply NoDup_app in Hn as (_ & Hd & _). apply (Hd e); [|left]. by eapply (vote_before out k l z). }
  destruct (Nat.lt_trichotomy i j) as [Hl|[->|Hl]]; [exfalso; by eapply (Hlt i j x y)|done|exfalso; by eapply (Hlt j i y x)].
Qed.

(** A node that ran as above, in its own world. *)
Definition voter (s : server) : Prop :=
  exists (W : World) b n, 0 <= b /\ b + Z.of_nat n < 2 ^ 64 /\ @election_run W b n s.

(** The vote of a member of [group] for the node [r] in epoch [e]; [dest v i] is the
    node at the other end of the link of the [i]-th effect of the member [v]. *)
Definition votes_for {R} (group : list server) (dest : nat -> nat -> R) (e : Z) (r : R) (v : nat) : Prop :=
  exists s i, group !! v = Some s /\ vote_at s i e /\ dest v i = r.

Definition wins {R} (group : list server) (dest : nat -> nat -> R) (e : Z) (r : R) : Prop :=
  exists vs, NoDup vs /\ Forall (votes_for group dest e r) vs /\ (length group < 2 * length vs)%nat.

(** Two lists with more than half of the numbers below [n] have one in common. *)
Lemma majorities_meet (n : nat) (l1 l2 : list nat) : NoDup l1 -> NoDup l2 -> Forall (fun v => (v < n)%nat) l1 -> Forall (fun v => (v < n)%nat) l2 ->
  (n < 2 * length l1)%nat -> (n < 2 * length l2)%nat -> exists v, v ∈ l1 /\ v ∈ l2.
Proof.
  intros N1 N2 B1 B2 H1 H2. destruct (decide (Exists (fun v => v ∈ l2) l1)) as [He|He]; [by apply Exists_exists in He|].
  exfalso. assert (Hs : NoDup (l1 ++ l2)).
  { apply NoDup_app. split; [done|]. split; [|done]. intros v Hv1 Hv2. apply He, Exists_exists. by exists v. }
  assert (Hl : (length (l1 ++ l2) <= length (seq 0 n))%nat).
  { apply submseteq_length, NoDup_submseteq; [done|]. intros v Hv. apply elem_of_seq. rewrite Forall_forall in B1, B2.
    apply elem_of_app in Hv as [Hv|Hv]; [specialize (B1 v Hv)|specialize (B2 v Hv)]; lia. }
  rewrite length_app, length_seq in Hl. lia.
Qed.

Lemma votes_for_bound {R} group (dest : nat -> nat -> R) e r vs : Forall (votes_for group dest e r) vs -> Forall (fun v => (v < length group)%nat) vs.
Proof. intros F. eapply Forall_impl; [exact F|]. intros v (s & i & Ev & _). by eapply lookup_lt_Some. Qed.

(** C6: an epoch has at most one winner: in a group of nodes that ran as above, two
    replicas cannot both have the votes of more than half of the group in one epoch,
    whichever messages the nodes of the group received and in whichever order. *)
Theorem one_winner_per_epoch {R} (group : list server) (dest : nat -> nat -> R) e r1 r2 :
  Forall voter group -> wins group dest e r1 -> wins group dest e r2 -> r1 = r2.
Proof.
  intros Hg (l1 & N1 & F1 & L1) (l2 & N2 & F2 & L2).
  destruct (majorities_meet (length group) l1 l2) as (v & Hv1 & Hv2); try done; try (by eapply votes_for_bound).
  rewrite Forall_forall in F1, F2. destruct (F1 v Hv1) as (s1 & i1 & E1 & A1 & <-). destruct (F2 v Hv2) as (s2 & i2 & E2 & A2 & <-).
  rewrite E1 in E2. injection E2 as <-. assert (Vs : voter s1) by (eapply Forall_lookup_1; [exact Hg|exact E1]).
  destruct Vs as (W & b & n & Hb & Hn & R1). destruct (voted_run b n s1 Hb Hn R1) as [[Hd _] _]. f_equal. by eapply (vote_unique s1).
Qed.

Definition to_c (v i : nat) : string := "C".
Lemma one_winner_per_epoch_witness : exists s, wins [s] to_c 2 "C"%string /\ "C"%string = to_c 0 0.
Proof.
  destruct vote_run_state as (s & E & Ev). exists s. assert (Hw : wins [s] to_c 2 "C"%string).
  { exists [0%nat]. split; [apply NoDup_singleton|]. split; [|cbn; lia]. apply Forall_singleton. exists s, 5%nat.
    split; [reflexivity|]. split; [|reflexivity]. assert (Ei : (ack_of <$> s_out s) !! 5%nat = Some (Some 2)) by (by rewrite Ev).
    rewrite list_lookup_fmap in Ei. apply fmap_Some in Ei as (x & Ex & Ei). exists x. split; [exact Ex|symmetry; exact Ei]. }
  split; [exact Hw|]. apply (one_winner_per_epoch [s] to_c 2); [|exact Hw|exact Hw].
  apply Forall_singleton. exists sample_world, 3, 15%nat. split; [lia|]. split; [cbn; lia|exact (vote_run_election s E)].
Defined.

(** ** A vote that counts twice *)

(** A and B serve slots and this node replicates A, which fails.  The election of epoch
    2 gets no answer in time, another one is scheduled, and then the vote of B for
    epoch 2 comes in; later B votes in epoch 3, too. *)
Definition two_pong : clusterMsg := from_master "B" 1 (bit 2) (PONG [gossip_about "A"]).
Definition vote_of (nm : string) (epoch : Z) (slots : list Z) : event :=
  Packet false 2 (from_master nm epoch slots FAILOVER_AUTH_ACK) 100000.
Definition stale_run : list event := meet_run ++
  [Packet false 1 two_pong 100000; Packet false 1 two_pong 100000; Accept "10.0.0.3" None;
   Packet false 2 (from_master "A" 1 (bit 1) (PING [])) 100000;
   Command (Replicate "A"); Packet false 1 (from_master "B" 1 (bit 2) (FAIL "A")) 100000; BeforeSleep;
   Tick (sample_clock 100000); Cron; Tick (sample_clock 102000); Cron; Tick (sample_clock 163000); Cron;
   vote_of "B" 2 (bit 2); Tick (sample_clock 165000); Cron; vote_of "B" 3 (bit 2); BeforeSleep].

(** The epochs of the votes among the packets that come in. *)
Definition votes_in (es : list event) : list Z :=
  omap (fun x => match x with
    | Packet _ _ hdr _ => match h_data hdr with FAILOVER_AUTH_ACK => Some (h_currentEpoch hdr) | _ => None end
    | _ => None
    end) es.

(** What becomes of this node. *)
Definition outcome (s : server) : option (bool * Z * Z) :=
  m ← heap s !! c_myself s; Some (nodeIsMaster m, n_configEpoch m, Z.quot (c_size s) 2 + 1).

(** A replica can win with too few votes: [clusterHandleSlaveFailover] sets the
    number of votes to 0 when it schedules an election, but the epoch of the election
    only when it starts, so a late vote of the election before is counted for the new
    one.  Here the votes of 2 masters are needed, and the replica becomes a master with
    epoch 3 on the votes of B alone, for epoch 2 and for epoch 3. *)
Example stale_ack_wins : exists s, run stale_run (after []) = Some s /\ outcome s = Some (true, 3, 2) /\ votes_in stale_run = [2; 3].
Proof.
  assert (E : run stale_run (after []) ≫= outcome = Some (true, 3, 2)) by (vm_compute; reflexivity).
  apply bind_Some in E as (s & E & Eo). exists s. split; [exact E|]. split; [exact Eo|]. vm_compute. reflexivity.
Qed.
End ClusterVotes.
